(* ===== verification/_CoqProject ===== *)
-Q . S2P
Prelude.v
Memory.v
Syscall.v
SchemeApi.v
Readiness.v
ReadinessFacts.v
Ramfs.v
RamfsFacts.v
Pty.v
PtyScheme.v
PtyFacts.v
PtySchemeFacts.v
Chan.v
ChanFacts.v
Shm.v
ShmFacts.v
Input.v
InputFacts.v
Schemes.v
SmallDaemons.v
Ps2d.v
Ps2dFacts.v
Uds.v
UdsDgram.v
UdsStream.v
UdsFacts.v
UdsDgramFacts.v
UdsStreamSafe.v
UdsStreamCall.v
UdsStreamFacts.v
Initfs.v
InitfsArchive.v
InitfsScheme.v
InitfsFacts.v
InitfsArchiveFacts.v
InitfsReadFacts.v
InitfsSchemeFacts.v
Disk.v
DiskScheme.v
LiveDisk.v
DiskFacts.v
DiskSchemeFacts.v
LiveDiskFacts.v
DiskWitness.v
Ninep.v
NinepScheme.v
NinepServer.v
NinepSchemeFacts.v
NinepWitness.v
Logd.v
LogdFacts.v
Netstack.v
NetstackFacts.v
Sockets.v
SockProto.v
SockServer.v
SockFacts.v
SockServerFacts.v
Link.v
NetDriver.v
Router.v
LinkFacts.v
RouterFacts.v
NetCfg.v
NetCfgFacts.v
Smolnetd.v
SmolnetdFacts.v
NetDriverFacts.v
SockWitness.v
ProcTypes.v
Procmgr.v
ProcSignal.v
ProcExit.v
ProcServer.v
ProcFrame.v
ProcEvolve.v
ProcFacts.v
ProcReplies.v
ProcQueues.v
ProcWitness.v
