(* ===== verification/Prelude.v ===== *)
(** * Redox base: the user-space daemons

    A verification of the core of the Redox base system: the scheme protocol
    between kernel and daemons, the daemons that implement schemes, and the
    process manager.

    ** The program

    Redox is a microkernel.  Files, terminals, channels, shared memory, logs,
    sockets and processes are _schemes_, served by daemons.  A system call on a descriptor of a
    scheme becomes a submission-queue entry that the kernel hands to the daemon;
    the daemon decodes it, runs one method of its scheme and writes back a
    completion-queue entry with the tag of the request.  A request that cannot be
    answered yet is parked and tried again later, or cancelled by the kernel.
    The parts and where they are modelled:

    - [redox-scheme/src/scheme.rs], [lib.rs]: the protocol.  [SchemeApi.v] has
      requests, operations and their decoding ([Op], [from_sqe_unchecked]), the
      trait [SchemeSync] as a record of operations with the trait's default
      methods, both dispatchers ([handle_sync], [handle_async]) and the
      responses.
    - [redox-scheme/src/wrappers.rs]: the server most daemons run,
      [ReadinessBased].  [Readiness.v] has its batches, parked requests,
      polling and responses; [ReadinessFacts.v] the theorems, for any scheme.
    - [ramfs/src/filesystem.rs], [scheme.rs]: the RAM file system, [Ramfs.v];
      theorems in [RamfsFacts.v].
    - [ptyd/src/]: pseudo-terminals.  [Pty.v] is the line discipline,
      [PtyScheme.v] the resources, the scheme and the work of the event loop;
      theorems in [PtyFacts.v] and [PtySchemeFacts.v].
    - [ipcd/src/chan.rs], [shm.rs]: channels ([Chan.v], [ChanFacts.v]) and
      shared memory ([Shm.v], [ShmFacts.v]).
    - [ipcd/src/uds/]: unix-domain sockets.  [Uds.v] has packets, messages, the
      writer of received messages and the tables, [UdsDgram.v] datagram and
      [UdsStream.v] stream sockets, each an instance of the trait.  The proofs:
      [UdsFacts.v] (messages), [UdsDgramFacts.v], [UdsStreamSafe.v],
      [UdsStreamCall.v] (the invariant, method by method, and one connected
      socket that is followed through it), [UdsStreamFacts.v] (theorems, a run
      and the defects).
    - [initfs/src/], [initfs/archive-common/src/lib.rs], [bootstrap/src/initfs.rs]: the
      file system of the boot image.  [Initfs.v] is the image and its reader,
      [InitfsArchive.v] the archiver, [InitfsScheme.v] the scheme; [InitfsFacts.v] has
      an abstract scheme on the source tree, which the three together
      implement, and the structures of an image.  The proofs:
      [InitfsArchiveFacts.v] (what an image holds), [InitfsReadFacts.v] (what the
      reader finds in it), [InitfsSchemeFacts.v] (the refinement, an image, and
      the defects).
    - [drivers/inputd/src/main.rs]: virtual terminals and input events, [Input.v],
      [InputFacts.v].
    - [drivers/input/ps2d/src/]: keyboard, mouse, keymaps and the scheme [ps2],
      [Ps2d.v], [Ps2dFacts.v].
    - [drivers/storage/]: [Disk.v] is the trait of disks, byte reads from blocks,
      partition tables ([partitionlib]) and partitions ([DiskWrapper] of [driver-block]),
      [DiskScheme.v] the scheme of every disk driver, [LiveDisk.v] the disk of
      a live system ([lived]).  [DiskFacts.v] states what a driver promises of a disk
      (the class [DiskImage]) and proves the clients against it; [LiveDiskFacts.v] proves it of the
      live disk; [DiskSchemeFacts.v] has the theorems of the scheme, [DiskWitness.v] a disk and the
      defects.
    - [drivers/fs/virtio-9pd/src/]: a 9P file system.  [Ninep.v] has the messages
      and the client, [NinepScheme.v] the scheme and the loop of its daemon.
      [NinepServer.v] proves the encoding, and states what a queue with a server behind it
      promises (the class [Serves]) and that the client's methods are its calls; [NinepSchemeFacts.v] adds the
      server's table of fids (the class [FidTable]) and accounts for the fids of
      the daemon, [NinepWitness.v] has a server.
    - [Schemes.v] makes the daemons instances of the trait and puts them behind
      the server; the theorems of the composition are there.
    - [logd/src/scheme.rs]: the log scheme with its two threads, [Logd.v],
      [LogdFacts.v].
    - [netstack/src/]: the network daemon.  [Netstack.v] has ports and routes;
      [Sockets.v] the shared set of sockets, [SockProto.v] the four protocols
      (each an instance of the class [SchemeSocket], the trait of the source),
      [SockServer.v] the scheme that is generic over them, with its queue of
      requests that wait; [Link.v] the devices, the neighbor cache and ARP of
      an ethernet link, [Router.v] the router; [NetCfg.v] the scheme of the
      configuration; [Smolnetd.v] how the daemon is put together and its
      events.  The proofs: [NetstackFacts.v], [SockFacts.v] (the set of sockets and what
      each method does to it), [SockServerFacts.v] (the scheme, for any protocol),
      [LinkFacts.v], [RouterFacts.v], [NetCfgFacts.v], [SmolnetdFacts.v]
      (the daemon), [SockWitness.v] (runs and defects).
    - [drivers/net/driver-network/src/lib.rs]: the scheme of every network
      driver, [NetDriver.v], for any adapter (the trait [NetworkAdapter]),
      [NetDriverFacts.v].
    - [zerod/src/], [randd/src/main.rs], [audiod/src/scheme.rs]: [SmallDaemons.v],
      with the loop that simple daemons share, a Module for each, and their
      theorems.
    - [bootstrap/src/procmgr.rs]: the process manager, the scheme [proc].
      [ProcTypes.v] has its data, [Procmgr.v] process and thread creation and
      the calls on one process, [ProcSignal.v] signals, [ProcExit.v] exit and
      waitpid, [ProcServer.v] the dispatcher, cancellation, thread events and the
      main loop.  The proofs: [ProcFrame.v] (what an operation leaves alone),
      [ProcEvolve.v] and [ProcFacts.v] (the invariant and how a state may evolve,
      operation by operation, and the theorems of both), [ProcReplies.v] (one
      reply), [ProcQueues.v] (bounds of queues), [ProcWitness.v] (concrete runs).

    ** How code is modelled

    A function with access to the state [S] and result [Result<A>] is a
    computation [M S A]: it maps a state to an outcome ([Ok], [Err] or [Panic])
    and the state it leaves, also when it fails.  [?] is bind, [unwrap], indexing
    and checked arithmetic panic.  Integers are [Z] with their width
    written out; [Target] fixes the width of [usize] and whether overflow is
    checked, so theorems hold for 32 and 64 bits, and for release and
    debug builds unless they say otherwise.  Vectors are lists, [HashMap] and
    [BTreeMap] are [gmap] or, where their order or a broken order shows, lists;
    an [Rc] is a key into a store and a [Weak] is the same key, looked up when it
    is upgraded; borrowing a [RefCell] twice is a panic.  Caller buffers are slices of the byte-addressed memory of
    [Memory.v].

    Code outside the repository is a class with the laws that are used, as
    its documentation states them: the constants of [redox_syscall]
    ([Syscall], [SchemeAbi], [ProcAbi]), [indexmap] ([IndexMap]), [redox_termios]
    ([Termios_api]), [slab] ([Slab]), the iteration order of a hash
    map ([HashOrder]), the node layout of a [BTreeMap] ([BTree]), [smoltcp]'s
    addresses, the casts of [plain] ([Plain]), the build host of the archiver ([HostIO]),
    the events of [orbclient] ([OrbClient]), the readers of GPT tables and packed headers ([Gpt], [Scroll]),
    the virtqueue of a 9P device ([Queue9p]), the rest of [smoltcp]: its set of
    sockets ([SocketSetApi]), its interface ([IfaceApi]), its protocols ([UdpApi], [TcpApi], [IcmpApi],
    [RawApi]), its packets, buffers and addresses ([WireApi], [PacketApi], [MacApi], [FrameApi], [PacketFields]) and what a poll
    does ([PollApi]), the settings of a network ([CfgApi], [BootApi]), generator and hash ([Rng]), the codes of keys
    ([OrbKeys]).  [Powi] is the one operation of the standard library whose result it leaves open.  The kernel is an oracle: whether it takes a message, what address it
    maps, what it answers to the process manager ([Kernel], any function of the calls
    so far; [UdsHost] with the random generator, [UdsAbi] for [libc]'s
    constants).  Reference instances are used by witnesses only.

    ** What is proved

    - The server answers every request exactly once, for any scheme and any
      order of batches, polls, cancellations and responses; parked requests are those that
      may wait; the synchronous and the asynchronous dispatcher agree
      ([ReadinessFacts.v]).  With the channels behind it, a
      read that blocks is answered once data arrives ([Schemes.v]).
    - Invariants over all reachable states of ramfs, ptyd, chan, shm, stream
      sockets, inputd, the disk scheme, the port set, the routing table, the
      network daemon, randd, the keymap of ps2d and the process manager, and
      absence of panics of ptyd, chan, shm, inputd and stream sockets.
    - Functional behaviour: path resolution is a walk through the directories;
      what reads and writes of files, shared memory, terminals and channels
      return and change; a channel is a FIFO queue and a stream socket a stream of
      bytes; messages decode as they were encoded, and datagrams arrive as they
      were sent; an archived source directory is what the initfs scheme serves; life and end of files and objects; line assembly and backfill of the log; longest-prefix routes.
    - The consumer of a terminal reads what was written while its terminal was
      active, and no notification is lost.  The partitions of a boot record are found, the
      file behind a disk handle is private to it, and byte reads from blocks are exact.
    - The process manager: one reply per request; consistent tables; no
      privilege escalation, final capability mode, final exit; permission for
      signals; bounded queues; the exit of a child answers its parent's waitpid; the
      loop over woken requests ends.
    - 9P messages are parsed as they are built; the methods of the client are
      calls of the server; the server's fids are the root's, the handles' and
      those that failed creations leave.
    - The network daemon: every open file of its schemes refers to a socket of
      its own protocol and the set holds no others; a scheme of sockets answers every
      call once, and its queue is worked off; an ethernet link sends a packet to the
      neighbor that its next hop resolves to, once, and gives up on one that nobody answers for;
      the router hands each packet to the device of the most specific route; the configuration
      changes only by root's hand, a route that is added is used, and how lines are cut
      into writes does not matter; a tick of a network driver answers, and wakes whom it must.
    - randd gives access by mode and owner only; what is written to audiod is
      played once and in order; what is typed and moved is what ps2d tells.
    - Defects the model showed, each as a theorem about a concrete run.

    ** Fuel

    Loops that are not structural take fuel, and a theorem says how much is enough:
    [Ramfs.resolve_loop] and [fpath_loop] (components left, inode number),
    [Netstack.find_vacant] (65536 turns), [binary_search_by] (the
    length), [InitfsArchive.copy_loop] (one more than the file's bytes), [InitfsScheme.walk] (the
    components), [find_entry] and [emit_dents] (one more than the entries),
    [dir_len] (more than 65536),
    [Disk.block_loop] (the length of the buffer), [Disk.read_exact] (one read and
    the interruptions that are sat out),
    [Ninep.get_entries] (the length of the data),
    [Uds.cmsg_loop] (the length of the message), [UdsStream.listen_loop]
    (two more than the clients that wait), [ProcServer.drain_awoken] (two more than the processes that
    exit), [SockServer.wake_loop] (the length of the queue) and [NetDriver.retry_loop] (of the list of blocked requests),
    [Link.check_loop] and the loops that drop packets (the packets that wait), the dispatch of the router (the packets
    in its buffer), the poll of a device (a turn more than the slots of its buffer), [Randd.free_fd] (a
    turn more than the descriptors).  [Link.send_arp] calls itself once at most.  [SockProto.icmp_read_loop] has a
    turn for each packet that waits.  Handles are numbered: where a counter could
    come round the theorems suppose fewer requests than [usize] has values, less two.
    [ProcSignal.send_sig] recurses to report SIGCHLD to the parent, which
    does not report again; its depth of two is the whole recursion.

    ** Not modelled

    The sockets, event queues and timers of the daemons' main functions are I/O:
    they read requests, call what is modelled, and write responses; so are [init], [daemon], the loader of [bootstrap] and the client library of [inputd],
    which open files and start processes.
    Device drivers work on registers and DMA memory; of the disk and network drivers the
    shared scheme is modelled, and the live disk, which is memory; of the 9P driver
    all but the setup of its device, of the PS/2 driver all but its controller.
    The protocols of [netstack] are [smoltcp]'s; its buffer pool is used by nothing.  The compiler and
    standard library under [rust/] are copies; only [binary_search_by] is
    modelled, for the routing table.  Memory that runs out ends a daemon;
    the models have memory enough. *)

From stdpp Require Import base gmap strings list fin_maps pretty.
From Stdlib Require Import ZArith Lia.
From Stdlib Require Import Strings.Byte.

(** * Outcomes and the scheme monad *)

(** The error constants of the [syscall::error] module that the modelled
    sources return.  Each constructor is one constant name. *)
Inductive errno :=
| EACCES | EADDRINUSE | EAGAIN | EBADF | EBADFD | ECANCELED | ECHILD | ECONNREFUSED | EEXIST | EINTR
| EINVAL | EIO | EISCONN | EISDIR | EMFILE | EMSGSIZE | ENFILE | ENOBUFS | ENOENT | ENOMEM | ENOPROTOOPT
| EADDRNOTAVAIL | ELOOP | ENOLCK | ENOSYS | ENOTCONN | ENOTDIR | ENOTEMPTY | EOPNOTSUPP | EOVERFLOW | EOWNERDEAD | EPERM | EPIPE
| EPROTO | ERANGE | ETIMEDOUT | ERESTART | ESPIPE | ESRCH | ESTALE | EWOULDBLOCK | EXDEV
| EOther (code : Z).

#[export] Instance errno_eq_dec : EqDecision errno.
Proof. solve_decision. Defined.

(** What a Rust function with return type [Result<A>] does: it returns
    [Ok], returns [Err], or unwinds with a panic (a failed [unwrap], an
    out-of-range index, or an arithmetic overflow in a checked build). *)
Inductive outcome (A : Type) :=
| Ok (a : A)
| Err (e : errno)
| Panic.
Arguments Ok {A} _.
Arguments Err {A} _.
Arguments Panic {A}.

(** A method with a [&mut self] receiver of type [S].  The state is
    returned on every exit, the error exits too: what the code mutated
    before a [?] stays mutated. *)
Definition M (S A : Type) : Type := S -> outcome A * S.

#[export] Instance M_ret S : MRet (M S) := fun A (a : A) s => (Ok a, s).

#[export] Instance M_bind S : MBind (M S) := fun A B (k : A -> M S B) (m : M S A) s =>
  match m s with
  | (Ok a, s') => k a s'
  | (Err e, s') => (Err e, s')
  | (Panic, s') => (Panic, s')
  end.
Arguments M_ret _ _ _ _ /.
Arguments M_bind _ _ _ _ _ _ /.

Definition throw {S A} (e : errno) : M S A := fun s => (Err e, s).
Definition panic {S A} : M S A := fun s => (Panic, s).
Definition gets {S A} (f : S -> A) : M S A := fun s => (Ok (f s), s).
Definition modify {S} (f : S -> S) : M S unit := fun s => (Ok tt, f s).

(** A computation on a part of the state. *)
Definition zoom {S T A} (get : S -> T) (put : T -> S -> S) (m : M T A) : M S A := fun s =>
  let '(r, t) := m (get s) in (r, put t s).

(** [o.ok_or(Error::new(e))?] *)
Definition ok_or {S A} (e : errno) (o : option A) : M S A :=
  match o with Some a => mret a | None => throw e end.

(** [o.unwrap()] and [o.expect(..)] *)
Definition unwrap {S A} (o : option A) : M S A :=
  match o with Some a => mret a | None => panic end.

(** [if b { return Err(Error::new(e)) }] *)
Definition fail_if {S} (b : bool) (e : errno) : M S unit :=
  if b then throw e else mret tt.

(** Functions with a [&self] receiver return an [outcome] and no state. *)
#[export] Instance outcome_ret : MRet outcome := fun A a => Ok a.
#[export] Instance outcome_bind : MBind outcome := fun A B k o =>
  match o with Ok a => k a | Err e => Err e | Panic => Panic end.
Arguments outcome_ret _ _ /.
Arguments outcome_bind _ _ _ _ /.

Definition o_ok_or {A} (e : errno) (o : option A) : outcome A :=
  match o with Some a => Ok a | None => Err e end.
Definition o_unwrap {A} (o : option A) : outcome A :=
  match o with Some a => Ok a | None => Panic end.

(** [r.is_ok()], on a call that did not panic *)
Definition is_ok {A} (o : outcome A) : bool :=
  match o with Ok _ => true | _ => false end.

(** Calling a [&self] function from a [&mut self] one. *)
Definition lift {S A} (o : outcome A) : M S A := fun s => (o, s).

(** * Machine integers *)

(** The build target: pointer width, and whether arithmetic operators check
    for overflow (debug profile) or wrap (release profile). *)
Class Target := {
  usize_bits : Z;
  overflow_checks : bool;
  usize_bits_ok : usize_bits = 32%Z \/ usize_bits = 64%Z
}.

Section arith.
Context {TG : Target}.

Definition usize_mod : Z := (2 ^ usize_bits)%Z.

(** The operators [+], [-] and [*] on a [bits]-wide unsigned integer:
    [x] is the mathematical result. *)
Definition arith {S} (bits : Z) (x : Z) : M S Z :=
  if ((0 <=? x) && (x <? 2 ^ bits))%Z then mret x
  else if overflow_checks then panic else mret (x mod 2 ^ bits)%Z.

Definition usize_add {S} (a b : Z) : M S Z := arith usize_bits (a + b)%Z.
Definition usize_sub {S} (a b : Z) : M S Z := arith usize_bits (a - b)%Z.

(** [a.checked_add(b)] on [usize] *)
Definition usize_checked_add (a b : Z) : option Z :=
  if (a + b <? usize_mod)%Z then Some (a + b)%Z else None.

(** [usize::try_from(x)] for a [u64] value *)
Definition usize_try_from (x : Z) : option Z :=
  if (x <? usize_mod)%Z then Some x else None.

(** [x as usize] *)
Definition as_usize (x : Z) : Z := (x mod usize_mod)%Z.

Lemma usize_mod_ge : (2 ^ 32 <= usize_mod)%Z.
Proof. unfold usize_mod. destruct usize_bits_ok as [-> | ->]; lia. Qed.

Lemma arith_ok {S} bits x (s : S) :
  (0 <= x < 2 ^ bits)%Z -> arith bits x s = (Ok x, s).
Proof.
  intros [? ?]. unfold arith.
  rewrite (proj2 (Z.leb_le _ _)), (proj2 (Z.ltb_lt _ _)) by lia. done.
Qed.

Lemma usize_add_ok {S} a b (s : S) :
  (0 <= a + b < usize_mod)%Z -> usize_add a b s = (Ok (a + b)%Z, s).
Proof. apply arith_ok. Qed.

Lemma usize_sub_ok {S} a b (s : S) :
  (0 <= a - b < usize_mod)%Z -> usize_sub a b s = (Ok (a - b)%Z, s).
Proof. apply arith_ok. Qed.

(** Whatever the profile, an operator leaves the state alone, and the value
    it returns is a machine value. *)
Lemma arith_cases {S} bits x (s : S) :
  (0 <= bits)%Z ->
  arith bits x s = (Panic, s) \/
  exists y, arith bits x s = (Ok y, s) /\ (0 <= y < 2 ^ bits)%Z.
Proof.
  intros Hb. unfold arith. pose proof (Z.pow_pos_nonneg 2 bits).
  destruct ((0 <=? x) && (x <? 2 ^ bits))%Z eqn:E.
  - right. exists x. split; [done |]. lia.
  - destruct overflow_checks; [by left |]. right. eexists. split; [done |].
    apply Z.mod_pos_bound. lia.
Qed.
End arith.

(** * Bytes, slices and vectors *)

Abbreviation u8 := Byte.byte.
Abbreviation usize := Z (only parsing).
Abbreviation u16 := Z (only parsing).
Abbreviation u32 := Z (only parsing).
Abbreviation u64 := Z (only parsing).

#[export] Instance byte_eq_dec : EqDecision u8 := Byte.byte_eq_dec.

(** [v.len()] *)
Definition zlen {A} (l : list A) : Z := Z.of_nat (length l).

Definition byte_of_Z (z : Z) : u8 :=
  match Byte.of_N (Z.to_N (z mod 256)) with Some b => b | None => x00 end.
Definition Z_of_byte (b : u8) : Z := Z.of_N (Byte.to_N b).

(** [(x as u32).to_ne_bytes()] and [u32::from_ne_bytes] on the
    little-endian targets of the system. *)
Definition u32_to_ne_bytes (x : Z) : list u8 :=
  [byte_of_Z x; byte_of_Z (x / 2 ^ 8); byte_of_Z (x / 2 ^ 16); byte_of_Z (x / 2 ^ 24)]%Z.
Definition u32_from_ne_bytes (b0 b1 b2 b3 : u8) : Z :=
  (Z_of_byte b0 + Z_of_byte b1 * 2 ^ 8 + Z_of_byte b2 * 2 ^ 16 + Z_of_byte b3 * 2 ^ 24)%Z.

(** [x.to_le_bytes()] of [n] bytes, and back *)
Fixpoint le_bytes (n : nat) (x : Z) : list u8 :=
  match n with O => [] | S n => byte_of_Z x :: le_bytes n (x / 256)%Z end.
Fixpoint from_le (l : list u8) : Z :=
  match l with [] => 0%Z | b :: l => (Z_of_byte b + 256 * from_le l)%Z end.

(** [s.get(a..b)] *)
Definition get_range (a b : Z) (s : list u8) : option (list u8) :=
  if ((a <=? b) && (b <=? zlen s))%Z then Some (take (Z.to_nat (b - a)) (drop (Z.to_nat a) s)) else None.

(** The whole pieces of [n] bytes at the front. *)
Definition chunks (n : nat) (l : list u8) : list (list u8) :=
  (fun i => take n (drop (i * n) l)) <$> seq 0 (length l / n).

(** [buf[..n].copy_from_slice(&src[..n])] for [n] within both slices: the
    new contents of [buf]. *)
Definition copy_prefix {A} (n : nat) (src buf : list A) : list A :=
  take n src ++ drop n buf.

(** [v[off..][..buf.len()].copy_from_slice(buf)]: the new contents of [v]. *)
Definition splice {A} (off : nat) (buf v : list A) : list A :=
  take off v ++ buf ++ drop (off + length buf) v.

(** [v.insert(i, x)] for [i <= v.len()] *)
Definition vec_insert {A} (i : nat) (x : A) (v : list A) : list A :=
  take i v ++ x :: drop i v.

(** The loop [while i < dst.len() && i < src.len() { dst[i] = src[i]; i += 1 }]
    copies the common prefix; this is its trip count. *)
Definition common_len {A} (dst src : list A) : nat := length dst `min` length src.

(** * Strings *)

(** A [&str] is the sequence of its UTF-8 bytes. *)
Definition as_bytes (s : string) : list u8 := String.list_byte_of_string s.

Definition slash : Ascii.ascii := Ascii.ascii_of_nat 47.

(** [s.trim_start_matches(c)] *)
Fixpoint trim_start_matches (c : Ascii.ascii) (s : string) : string :=
  match s with
  | String c' s' => if Ascii.eqb c c' then trim_start_matches c s' else s
  | EmptyString => EmptyString
  end.

(** [s.trim_end_matches(c)] *)
Fixpoint trim_end_matches (c : Ascii.ascii) (s : string) : string :=
  match s with
  | String c' s' =>
      match trim_end_matches c s' with
      | EmptyString => if Ascii.eqb c c' then EmptyString else String c' EmptyString
      | r => String c' r
      end
  | EmptyString => EmptyString
  end.

(** [s.trim_matches(c)] *)
Definition trim_matches (c : Ascii.ascii) (s : string) : string :=
  trim_end_matches c (trim_start_matches c s).

(** [s.split(|x| x == c)] *)
Fixpoint split_char (c : Ascii.ascii) (s : string) : list string :=
  match s with
  | EmptyString => [EmptyString]
  | String c' s' =>
      if Ascii.eqb c c' then EmptyString :: split_char c s'
      else match split_char c s' with
           | w :: ws => String c' w :: ws
           | [] => [String c' EmptyString]
           end
  end.

Definition str_is_empty (s : string) : bool :=
  match s with EmptyString => true | _ => false end.

Definition digit_value (c : Ascii.ascii) : option Z :=
  let n := Z.of_nat (Ascii.nat_of_ascii c) in
  if ((48 <=? n) && (n <=? 57))%Z then Some (n - 48)%Z else None.

Fixpoint parse_digits (modulus acc : Z) (s : string) : option Z :=
  match s with
  | EmptyString => Some acc
  | String c s' =>
      match digit_value c with
      | Some d =>
          let acc' := (acc * 10 + d)%Z in
          if (acc' <? modulus)%Z then parse_digits modulus acc' s' else None
      | None => None
      end
  end.

(** [s.parse::<uN>()] with [modulus = 2^N]: an optional [+], then at least
    one digit, no overflow. *)
Definition parse_unsigned (modulus : Z) (s : string) : option Z :=
  match s with
  | EmptyString => None
  | String c s' =>
      if Ascii.eqb c (Ascii.ascii_of_nat 43) then
        match s' with EmptyString => None | _ => parse_digits modulus 0 s' end
      else parse_digits modulus 0 s
  end.

(** [str::from_utf8]: the byte sequences that are well-formed UTF-8. *)
Definition cont_byte (lo hi : Z) (b : u8) : bool :=
  ((lo <=? Z_of_byte b) && (Z_of_byte b <=? hi))%Z.

Fixpoint utf8_valid (bs : list u8) : bool :=
  match bs with
  | [] => true
  | b0 :: r0 =>
      let c := Z_of_byte b0 in
      if (c <? 0x80)%Z then utf8_valid r0
      else match r0 with
      | [] => false
      | b1 :: r1 =>
          if ((0xC2 <=? c) && (c <=? 0xDF))%Z then cont_byte 0x80 0xBF b1 && utf8_valid r1
          else match r1 with
          | [] => false
          | b2 :: r2 =>
              if ((0xE0 <=? c) && (c <=? 0xEF))%Z then
                cont_byte (if (c =? 0xE0)%Z then 0xA0 else 0x80)
                          (if (c =? 0xED)%Z then 0x9F else 0xBF) b1
                && cont_byte 0x80 0xBF b2 && utf8_valid r2
              else match r2 with
              | [] => false
              | b3 :: r3 =>
                  ((0xF0 <=? c) && (c <=? 0xF4))%Z
                  && cont_byte (if (c =? 0xF0)%Z then 0x90 else 0x80)
                               (if (c =? 0xF4)%Z then 0x8F else 0xBF) b1
                  && cont_byte 0x80 0xBF b2 && cont_byte 0x80 0xBF b3 && utf8_valid r3
              end
          end
      end
  end.

Definition from_utf8 (bs : list u8) : option string :=
  if utf8_valid bs then Some (String.string_of_list_byte bs) else None.

(** [s.parse::<iN>()] with [half = 2^(N-1)]: an optional sign, then at least
    one digit, no overflow. *)
Definition parse_signed (half : Z) (s : string) : option Z :=
  match s with
  | String c s' =>
      if Ascii.eqb c (Ascii.ascii_of_nat 45) then
        match s' with EmptyString => None | _ => Z.opp <$> parse_digits (half + 1) 0 s' end
      else parse_unsigned half s
  | EmptyString => None
  end.

(** ** White space *)

(** The length of the white space at the front of well-formed UTF-8: U+0009 to U+000D, U+0020, U+0085, U+00A0, U+1680,
    U+2000 to U+200A, U+2028, U+2029, U+202F, U+205F and U+3000 *)
Definition whitespace (l : list u8) : nat :=
  let in_range lo hi x := ((lo <=? x) && (x <=? hi))%Z in
  match Z_of_byte <$> l with
  | [] => 0
  | a :: l =>
      if (in_range 9 13 a || (a =? 32))%Z then 1
      else match l with
           | [] => 0
           | b :: l =>
               if ((a =? 0xC2) && ((b =? 0x85) || (b =? 0xA0)))%Z then 2
               else match l with
                    | [] => 0
                    | c :: _ =>
                        if ((a =? 0xE1) && (b =? 0x9A) && (c =? 0x80)
                            || (a =? 0xE2) && (b =? 0x80) && (in_range 0x80 0x8A c || (c =? 0xA8) || (c =? 0xA9) || (c =? 0xAF))
                            || (a =? 0xE2) && (b =? 0x81) && (c =? 0x9F)
                            || (a =? 0xE3) && (b =? 0x80) && (c =? 0x80))%Z
                        then 3 else 0
                    end
           end
  end.

Fixpoint trim_front (skip : nat) (l : list u8) : list u8 :=
  match l with
  | [] => []
  | b :: l' =>
      match skip with
      | Datatypes.S skip => trim_front skip l'
      | O => match whitespace l with O => l | Datatypes.S skip => trim_front skip l' end
      end
  end.
(** [held] is white space so far. *)
Fixpoint trim_back (skip : nat) (held l : list u8) : list u8 :=
  match l with
  | [] => []
  | b :: l' =>
      match skip with
      | Datatypes.S skip => trim_back skip (held ++ [b]) l'
      | O => match whitespace l with
             | O => held ++ b :: trim_back O [] l'
             | Datatypes.S skip => trim_back skip (held ++ [b]) l'
             end
      end
  end.
(** [s.trim()] *)
Definition trim (s : string) : string := String.string_of_list_byte (trim_back 0 [] (trim_front 0 (as_bytes s))).

(** [format!("{}", x)] of an unsigned integer *)
Definition show_unsigned (x : Z) : string := pretty (Z.to_N x).

(** Writing [s] at position [pos] of a [Cursor<&mut [u8]>]: as much as fits
    is written; the flag says whether everything fitted ([write_all]). *)
Definition cursor_write_all (pos : nat) (s buf : list u8) : nat * list u8 * bool :=
  let n := length s `min` (length buf - pos) in
  (pos + n, splice pos (take n s) buf, bool_decide (n = length s)).

(** * Shared lemmas *)

Lemma length_copy_prefix {A} n (src buf : list A) :
  n <= length src -> n <= length buf -> length (copy_prefix n src buf) = length buf.
Proof. intros. unfold copy_prefix. rewrite length_app, length_take, length_drop. lia. Qed.

Lemma take_copy_prefix {A} n (src buf : list A) :
  n <= length src -> take n (copy_prefix n src buf) = take n src.
Proof. intros. unfold copy_prefix. apply take_app_length'. rewrite length_take. lia. Qed.

Lemma length_splice {A} off (buf v : list A) :
  off + length buf <= length v -> length (splice off buf v) = length v.
Proof. intros. unfold splice. rewrite !length_app, length_take, length_drop. lia. Qed.

Lemma lookup_splice {A} off (buf v : list A) i :
  off + length buf <= length v ->
  splice off buf v !! i =
    if decide (off <= i < off + length buf) then buf !! (i - off) else v !! i.
Proof.
  intros Hle. unfold splice. destruct (decide (i < off)) as [Hlt | Hge].
  - rewrite lookup_app_l by (rewrite length_take; lia).
    rewrite decide_False by lia. apply lookup_take_lt. lia.
  - rewrite lookup_app_r by (rewrite length_take; lia).
    rewrite length_take_le by lia. destruct (decide (i < off + length buf)) as [? | ?].
    + rewrite decide_True by lia. apply lookup_app_l. lia.
    + rewrite decide_False by lia. rewrite lookup_app_r by lia.
      rewrite lookup_drop. f_equal. lia.
Qed.

Lemma take_drop_splice {A} off (buf v : list A) :
  off <= length v -> take (length buf) (drop off (splice off buf v)) = buf.
Proof.
  intros. unfold splice. rewrite drop_app_length' by (rewrite length_take; lia).
  apply take_app_length.
Qed.

Lemma byte_of_Z_of_byte b : byte_of_Z (Z_of_byte b) = b.
Proof. by destruct b. Qed.

Lemma Z_of_byte_bounds b : (0 <= Z_of_byte b < 256)%Z.
Proof. unfold Z_of_byte. pose proof (Byte.to_N_bounded b). lia. Qed.

Lemma Z_of_byte_of_Z z : Z_of_byte (byte_of_Z z) = (z mod 256)%Z.
Proof.
  unfold Z_of_byte, byte_of_Z. pose proof (Z.mod_pos_bound z 256).
  destruct (Byte.of_N (Z.to_N (z mod 256))) as [b |] eqn:E.
  - apply Byte.to_of_N in E. rewrite E. lia.
  - apply Byte.of_N_None_iff in E. lia.
Qed.

Lemma length_le_bytes n x : length (le_bytes n x) = n.
Proof. revert x. induction n as [| n IH]; intros x; cbn; [done |]. by rewrite IH. Qed.

Lemma from_le_bytes n x : from_le (le_bytes n x) = (x mod 256 ^ Z.of_nat n)%Z.
Proof.
  revert x. induction n as [| n IH]; intros x; [cbn; by rewrite Z.mod_1_r |].
  cbn [le_bytes from_le]. rewrite IH, Z_of_byte_of_Z.
  rewrite Nat2Z.inj_succ, Z.pow_succ_r by lia.
  pose proof (Z.pow_pos_nonneg 256 (Z.of_nat n)). rewrite Z.rem_mul_r by lia. lia.
Qed.

Lemma from_le_bounds l : (0 <= from_le l < 256 ^ zlen l)%Z.
Proof.
  unfold zlen. induction l as [| b l IH]; [cbn; lia |]. cbn [from_le length].
  rewrite Nat2Z.inj_succ, Z.pow_succ_r by lia. pose proof (Z_of_byte_bounds b). lia.
Qed.

Lemma get_range_Some a b s l :
  get_range a b s = Some l ->
  (a <= b <= zlen s)%Z /\ l = take (Z.to_nat (b - a)%Z) (drop (Z.to_nat a) s).
Proof. unfold get_range. destruct (_ && _) eqn:E; [| done]. intros [= <-]. split; [lia | done]. Qed.

(** [flags & bit == bit] for one bit *)
Lemma land_bit p k : (0 <= k)%Z -> (Z.land p (2 ^ k) =? 2 ^ k)%Z = Z.testbit p k.
Proof.
  intros Hk. destruct (Z.testbit p k) eqn:E.
  - apply Z.eqb_eq, Z.bits_inj'. intros n Hn. rewrite Z.land_spec, Z.pow2_bits_eqb by done.
    destruct (Z.eqb_spec k n) as [-> |]; [by rewrite E | by rewrite andb_false_r].
  - apply Z.eqb_neq. intros H. assert (Z.testbit (Z.land p (2 ^ k)) k = true) as H' by (rewrite H, Z.pow2_bits_eqb, Z.eqb_refl by done; done).
    by rewrite Z.land_spec, E in H'.
Qed.

Lemma u32_bytes_roundtrip x b0 b1 b2 b3 :
  u32_to_ne_bytes x = [b0; b1; b2; b3] ->
  u32_from_ne_bytes b0 b1 b2 b3 = (x mod 2 ^ 32)%Z.
Proof.
  unfold u32_to_ne_bytes, u32_from_ne_bytes. intros [= <- <- <- <-].
  rewrite !Z_of_byte_of_Z. Z.div_mod_to_equations. lia.
Qed.

(** An invariant of a step relation holds in every reachable state. *)
Lemma rtc_preserves {S} (I : S -> Prop) (R : relation S) s s' :
  rtc R s s' -> (forall x y, I x -> R x y -> I y) -> I s -> I s'.
Proof. induction 1; eauto. Qed.

(** * Weakest preconditions for the scheme monad

    [wp m Q s]: running [m] in [s] ends in an outcome and a state that
    satisfy [Q].  Total: [M] has no divergence. *)

Definition wp {S A} (m : M S A) (Q : outcome A -> S -> Prop) (s : S) : Prop :=
  Q (m s).1 (m s).2.

Section wp.
Context {S : Type}.

Lemma wp_intro {A} (m : M S A) Q s : Q (m s).1 (m s).2 -> wp m Q s.
Proof. done. Qed.

Lemma wp_run {A} (m : M S A) Q s o s' : wp m Q s -> m s = (o, s') -> Q o s'.
Proof. unfold wp. intros HQ Heq. by rewrite Heq in HQ. Qed.

Lemma wp_mono {A} (m : M S A) (Q Q' : outcome A -> S -> Prop) s :
  (forall o s', Q o s' -> Q' o s') -> wp m Q s -> wp m Q' s.
Proof. unfold wp. auto. Qed.

Lemma wp_bind {A B} (m : M S A) (k : A -> M S B) Q s :
  wp m (fun o s' => match o with
                    | Ok a => wp (k a) Q s'
                    | Err e => Q (Err e) s'
                    | Panic => Q Panic s'
                    end) s ->
  wp (m ≫= k) Q s.
Proof. unfold wp, mbind, M_bind. by destruct (m s) as [[] ?]. Qed.

Lemma wp_zoom {T A} (get : S -> T) put (m : M T A) Q s :
  wp m (fun o t => Q o (put t s)) (get s) -> wp (zoom get put m) Q s.
Proof. unfold wp, zoom. by destruct (m (get s)) as [o t]. Qed.

Lemma wp_ret {A} (a : A) Q (s : S) : Q (Ok a) s -> wp (mret a) Q s.
Proof. done. Qed.

Lemma wp_throw {A} e (Q : outcome A -> S -> Prop) s : Q (Err e) s -> wp (throw e) Q s.
Proof. done. Qed.

Lemma wp_panic {A} (Q : outcome A -> S -> Prop) s : Q Panic s -> wp panic Q s.
Proof. done. Qed.

Lemma wp_gets {A} (f : S -> A) Q s : Q (Ok (f s)) s -> wp (gets f) Q s.
Proof. done. Qed.

Lemma wp_modify (f : S -> S) Q s : Q (Ok tt) (f s) -> wp (modify f) Q s.
Proof. done. Qed.

Lemma wp_lift {A} (o : outcome A) Q (s : S) : Q o s -> wp (lift o) Q s.
Proof. done. Qed.

Lemma wp_ok_or {A} e (o : option A) Q (s : S) :
  (forall a, o = Some a -> Q (Ok a) s) -> (o = None -> Q (Err e) s) -> wp (ok_or e o) Q s.
Proof. destruct o; intros; unfold wp; simpl; auto. Qed.

Lemma wp_unwrap {A} (o : option A) Q (s : S) :
  (forall a, o = Some a -> Q (Ok a) s) -> (o = None -> Q Panic s) -> wp (unwrap o) Q s.
Proof. destruct o; intros; unfold wp; simpl; auto. Qed.

Lemma wp_fail_if b e Q (s : S) :
  (b = true -> Q (Err e) s) -> (b = false -> Q (Ok tt) s) -> wp (fail_if b e) Q s.
Proof. destruct b; intros; unfold wp; simpl; auto. Qed.

Lemma wp_arith `{Target} bits x Q (s : S) :
  ((0 <= x < 2 ^ bits)%Z -> Q (Ok x) s) ->
  (~ (0 <= x < 2 ^ bits)%Z -> overflow_checks = true -> Q Panic s) ->
  (~ (0 <= x < 2 ^ bits)%Z -> overflow_checks = false -> Q (Ok (x mod 2 ^ bits)%Z) s) ->
  wp (arith bits x) Q s.
Proof.
  intros H1 H2 H3. unfold wp, arith.
  destruct ((0 <=? x) && (x <? 2 ^ bits))%Z eqn:E; simpl; [apply H1; lia |].
  destruct overflow_checks; simpl; [apply H2 | apply H3]; auto; lia.
Qed.

(** A computation that keeps an invariant on every exit. *)
Definition keeps {A} (I : S -> Prop) (m : M S A) : Prop :=
  forall s, I s -> wp m (fun _ => I) s.

Lemma wp_keeps {A} (I : S -> Prop) (m : M S A) Q s :
  keeps I m -> I s -> (forall o s', I s' -> Q o s') -> wp m Q s.
Proof. intros Hk Hs HQ. eapply wp_mono; [| by apply Hk]. auto. Qed.

Lemma keeps_run {A} (I : S -> Prop) (m : M S A) s : keeps I m -> I s -> I (m s).2.
Proof. intros Hk Hs. by apply Hk. Qed.

(** A read-only computation. *)
Definition pure_m {A} (m : M S A) : Prop := forall s, (m s).2 = s.

Lemma pure_m_wp {A} (m : M S A) : (forall s, wp m (fun _ s' => s' = s) s) -> pure_m m.
Proof. done. Qed.

Lemma ret_Ok {A} (a b : A) (s s' : S) :
  (mret a : M S A) s = (Ok b, s') -> b = a /\ s' = s.
Proof. by intros [= -> ->]. Qed.

Lemma gets_Ok {A} (f : S -> A) b s s' : gets f s = (Ok b, s') -> b = f s /\ s' = s.
Proof. by intros [= <- ->]. Qed.

Lemma lift_Ok {A} (o : outcome A) b (s s' : S) : lift o s = (Ok b, s') -> o = Ok b /\ s' = s.
Proof. by intros [= -> ->]. Qed.

Lemma fail_if_Ok b e (s s' : S) u : fail_if b e s = (Ok u, s') -> b = false /\ s' = s.
Proof. destruct b; [done |]. by intros [= _ ->]. Qed.

Lemma ok_or_Ok {A} e (o : option A) b (s s' : S) :
  ok_or e o s = (Ok b, s') -> o = Some b /\ s' = s.
Proof. destruct o; [| done]. by intros [= -> ->]. Qed.

Lemma pure_keeps {A} (I : S -> Prop) (m : M S A) : pure_m m -> keeps I m.
Proof. intros Hp s Hs. unfold wp. by rewrite Hp. Qed.

Lemma gets_bind {A B} (f : S -> A) (k : A -> M S B) s : (gets f ≫= k) s = k (f s) s.
Proof. done. Qed.

Lemma modify_bind {B} (f : S -> S) (k : unit -> M S B) s : (modify f ≫= k) s = k tt (f s).
Proof. done. Qed.

Lemma ret_bind {A B} (a : A) (k : A -> M S B) s : (mret a ≫= k) s = k a s.
Proof. done. Qed.

Lemma bind_Ok {A B} (m : M S A) (k : A -> M S B) s b s' :
  (m ≫= k) s = (Ok b, s') -> exists a s1, m s = (Ok a, s1) /\ k a s1 = (Ok b, s').
Proof. unfold mbind, M_bind. destruct (m s) as [[] ?]; naive_solver. Qed.
End wp.

Create HintDb scheme discriminated.
#[export] Hint Resolve wp_ret wp_throw wp_panic wp_gets wp_modify wp_lift : scheme.

(** One step of a [wp] goal: split binds, discharge the primitives, introduce
    what they learn. *)
Ltac wp_step :=
  match goal with
  | |- wp (_ ≫= _) _ _ => apply wp_bind
  | |- wp (mret _) _ _ => apply wp_ret
  | |- wp (throw _) _ _ => apply wp_throw
  | |- wp panic _ _ => apply wp_panic
  | |- wp (gets _) _ _ => apply wp_gets
  | |- wp (modify _) _ _ => apply wp_modify
  | |- wp (lift _) _ _ => apply wp_lift
  | |- wp (zoom _ _ _) _ _ => apply wp_zoom
  | |- wp (ok_or _ _) _ _ => apply wp_ok_or; [intros ? ? | intros ?]
  | |- wp (unwrap _) _ _ => apply wp_unwrap; [intros ? ? | intros ?]
  | |- wp (fail_if _ _) _ _ => apply wp_fail_if; intros ?
  | |- wp (arith _ _) _ _ => apply wp_arith; intros
  | |- wp (usize_add _ _) _ _ => apply wp_arith; intros
  | |- wp (usize_sub _ _) _ _ => apply wp_arith; intros
  | |- wp (match ?x with _ => _ end) _ _ => destruct x eqn:?
  | |- match ?x with Ok _ => _ | Err _ => _ | Panic => _ end => destruct x eqn:?
  end; cbn beta iota in *.

Ltac wp_run := repeat (wp_step; try done).
