(* ===== verification/Memory.v ===== *)
(** * Byte-addressed memory

    Memory that raw pointers of the sources point into: the anonymous mappings
    of the shm scheme, and the caller buffers that the kernel maps into a
    scheme daemon.  An address that is not in the map is not mapped. *)

From stdpp Require Import base gmap list fin_maps.
From Stdlib Require Import ZArith Lia.
From Stdlib Require Import Strings.Byte.
From S2P Require Import Prelude.

Local Open Scope Z_scope.

Abbreviation memory := (gmap Z u8).

(** The bytes [l] stored from address [a] on. *)
Fixpoint store (a : Z) (l : list u8) (m : memory) : memory :=
  match l with
  | [] => m
  | b :: l => <[a := b]> (store (a + 1) l m)
  end.

(** The [n] bytes from address [a] on, if all are mapped. *)
Fixpoint load (a : Z) (n : nat) (m : memory) : option (list u8) :=
  match n with
  | O => Some []
  | S n => b ← m !! a; l ← load (a + 1) n m; Some (b :: l)
  end.

Fixpoint unmap (a : Z) (n : nat) (m : memory) : memory :=
  match n with O => m | S n => delete a (unmap (a + 1) n m) end.

Section memory.
Implicit Types (m : memory) (l : list u8).

Lemma lookup_store a l m x :
  store a l m !! x = if decide (a <= x < a + zlen l) then l !! Z.to_nat (x - a) else m !! x.
Proof.
  revert a. induction l as [| b l IH]; intros a; cbn.
  - rewrite decide_False; [done |]. unfold zlen. cbn. lia.
  - assert (zlen (b :: l) = zlen l + 1) as -> by (unfold zlen; cbn; lia).
    destruct (decide (a = x)) as [<- | Hne].
    + rewrite lookup_insert_eq, decide_True by (unfold zlen; lia). by rewrite Z.sub_diag.
    + rewrite lookup_insert_ne, IH by done. destruct (decide (a + 1 <= x < a + 1 + zlen l)).
      * rewrite decide_True by lia.
        replace (Z.to_nat (x - a)) with (S (Z.to_nat (x - (a + 1)))) by lia. done.
      * rewrite decide_False by lia. done.
Qed.

Lemma lookup_unmap a n m x :
  unmap a n m !! x = if decide (a <= x < a + Z.of_nat n) then None else m !! x.
Proof.
  revert a. induction n as [| n IH]; intros a; cbn [unmap].
  - rewrite decide_False; [done | lia].
  - destruct (decide (a = x)) as [<- | Hne].
    + rewrite lookup_delete_eq, decide_True by lia. done.
    + rewrite lookup_delete_ne, IH by done.
      destruct (decide (a + 1 <= x < a + 1 + Z.of_nat n)); [rewrite decide_True | rewrite decide_False];
        done || lia.
Qed.

Definition mapped (a n : Z) m : Prop := forall x, a <= x < a + n -> is_Some (m !! x).

Lemma load_mapped a n m : mapped a (Z.of_nat n) m -> exists l, load a n m = Some l /\ length l = n.
Proof.
  revert a. induction n as [| n IH]; intros a Hm; cbn [load]; [by eexists |].
  destruct (Hm a) as [b Hb]; [lia |]. destruct (IH (a + 1)) as (l & Hl & Hn).
  { intros x Hx. apply Hm. lia. }
  exists (b :: l). rewrite Hb. cbn. rewrite Hl. cbn. by rewrite Hn.
Qed.

Lemma load_Some a n m l :
  load a n m = Some l <->
  length l = n /\ forall k, (k < n)%nat -> m !! (a + Z.of_nat k) = l !! k.
Proof.
  revert a l. induction n as [| n IH]; intros a l; cbn [load].
  - split; [intros [= <-]; split; [done | lia] | intros [Hl _]; by destruct l].
  - split.
    + intros (b & Hb & (l' & [Hl' Hk]%IH & [= <-])%bind_Some)%bind_Some. split; [cbn; lia |].
      intros [| k] Hlt; [by rewrite Z.add_0_r |].
      etrans; [| apply (Hk k); lia]. f_equal. lia.
    + intros [Hl Hk]. destruct l as [| b l]; [done |].
      pose proof (Hk O) as H0. rewrite Z.add_0_r in H0. rewrite H0 by lia. cbn.
      assert (load (a + 1) n m = Some l) as ->; [| done].
      apply IH. split; [cbn in Hl; lia |]. intros k Hlt.
      etrans; [| apply (Hk (S k)); lia]. f_equal. lia.
Qed.

Lemma load_store a l m : load a (length l) (store a l m) = Some l.
Proof.
  apply load_Some. split; [done |]. intros k Hk.
  rewrite lookup_store, decide_True by (unfold zlen; lia). f_equal. lia.
Qed.

(** Storing inside a region splices its contents; storing outside keeps them. *)
Lemma load_store_in a n m c off buf :
  load a n m = Some c -> (off + length buf <= n)%nat ->
  load a n (store (a + Z.of_nat off) buf m) = Some (splice off buf c).
Proof.
  intros [Hl Hk]%load_Some Hle. apply load_Some. split.
  - rewrite length_splice by lia. done.
  - intros k Hlt. rewrite lookup_store, lookup_splice by lia.
    unfold zlen. repeat case_decide; try lia.
    + f_equal. lia.
    + by apply Hk.
Qed.

Lemma load_ext a n m m' :
  (forall x, a <= x < a + Z.of_nat n -> m' !! x = m !! x) -> load a n m' = load a n m.
Proof.
  revert a. induction n as [| n IH]; intros a H; [done |]. cbn [load].
  rewrite H, IH; [done | | lia]. intros x Hx. apply H. lia.
Qed.

Lemma load_sub a n m c off k :
  load a n m = Some c -> (off + k <= n)%nat ->
  load (a + Z.of_nat off) k m = Some (take k (drop off c)).
Proof.
  intros [Hl Hk]%load_Some Hle. apply load_Some. split.
  - rewrite length_take, length_drop. lia.
  - intros j Hj. rewrite lookup_take_lt, lookup_drop by lia. rewrite <- Hk by lia. f_equal. lia.
Qed.

Lemma mapped_store a l m x n : mapped x n m -> mapped x n (store a l m).
Proof.
  intros Hm y Hy. rewrite lookup_store. case_decide; [| by apply Hm].
  apply lookup_lt_is_Some. unfold zlen in *. lia.
Qed.

Lemma mapped_stored a l m : mapped a (zlen l) (store a l m).
Proof.
  intros y Hy. rewrite lookup_store, decide_True by done.
  apply lookup_lt_is_Some. unfold zlen in *. lia.
Qed.

Lemma mapped_sub a n b k m : mapped a n m -> a <= b -> b + k <= a + n -> mapped b k m.
Proof. intros Hm ? ? x ?. apply Hm. lia. Qed.
End memory.
