(* ===== verification/Syscall.v ===== *)
(** * Interfaces to the crates outside the repository

    The schemes are written against two crates whose sources are not part of
    the repository: [redox_syscall] (flag constants) and [indexmap] (the
    insertion-ordered directory map of ramfs).  Each is a class here; the
    component files are generic over it.  [Laws] classes state the documented
    behaviour that proofs rely on.  The reference instances at the end are
    used by the witnesses only.

    It also holds the caller context and the result of an open, from
    [redox-scheme/src/lib.rs]. *)

From stdpp Require Import base gmap strings list fin_maps.
From Stdlib Require Import ZArith Lia.
From S2P Require Import Prelude.

Local Open Scope Z_scope.

(** Constants of [syscall::flag]. *)
Class Syscall := {
  O_RDONLY : Z; O_WRONLY : Z; O_RDWR : Z; O_ACCMODE : Z; O_NONBLOCK : Z;
  O_CREAT : Z; O_EXCL : Z; O_TRUNC : Z; O_DIRECTORY : Z; O_STAT : Z;
  MODE_TYPE : Z; MODE_DIR : Z; MODE_FILE : Z; MODE_CHR : Z; MODE_SOCK : Z; MODE_PERM : Z;
  F_GETFL : Z; F_SETFL : Z; AT_REMOVEDIR : Z;
  EVENT_READ : Z; EVENT_WRITE : Z; PAGE_SIZE : Z;
  (** widths of the fields of [syscall::Stat] *)
  st_ino_bits : Z; st_nlink_bits : Z; st_time_bits : Z; st_nsec_bits : Z
}.

(** What the sources rely on of these constants. *)
Class SyscallLaws (SC : Syscall) : Prop := {
  accmode_covers_rdonly : Z.land O_RDONLY O_ACCMODE = O_RDONLY;
  accmode_covers_wronly : Z.land O_WRONLY O_ACCMODE = O_WRONLY;
  accmode_covers_rdwr : Z.land O_RDWR O_ACCMODE = O_RDWR;
  rdonly_wronly_distinct : O_RDONLY <> O_WRONLY;
  rdonly_rdwr_distinct : O_RDONLY <> O_RDWR;
  wronly_rdwr_distinct : O_WRONLY <> O_RDWR;
  getfl_setfl_distinct : F_GETFL <> F_SETFL;
  nonblock_nonzero : O_NONBLOCK <> 0;
  event_read_write_disjoint : Z.land EVENT_READ EVENT_WRITE = 0;
  event_read_nonzero : EVENT_READ <> 0;
  event_write_nonzero : EVENT_WRITE <> 0;
  mode_type_covers_dir : Z.land MODE_DIR MODE_TYPE = MODE_DIR;
  mode_type_covers_file : Z.land MODE_FILE MODE_TYPE = MODE_FILE;
  mode_dir_nonzero : MODE_DIR <> 0;
  mode_file_nonzero : MODE_FILE <> 0;
  mode_dir_file_distinct : MODE_DIR <> MODE_FILE;
  mode_perm_bits : 0 <= MODE_PERM;
  page_size_pos : 0 < PAGE_SIZE
}.

(** [flags & bit != 0] *)
Definition any_set (flags bit : Z) : bool := negb (Z.land flags bit =? 0).
(** [flags & bit == bit] *)
Definition all_set (flags bit : Z) : bool := Z.land flags bit =? bit.

(** [CallerCtx] of redox-scheme *)
Record CallerCtx := { ctx_pid : Z; ctx_uid : Z; ctx_gid : Z; ctx_id : Z }.

(** [NewFdFlags]: only emptiness and POSITIONED are used by the sources *)
Inductive NewFdFlags := fd_empty | fd_POSITIONED.

(** [OpenResult] of redox-scheme *)
Inductive OpenResult :=
| ThisScheme (number : Z) (flags : NewFdFlags)
| OtherScheme (fd : Z)
| OtherSchemeMultiple (num_fds : Z)
| WouldBlock.

(** [syscall::Stat] *)
Record Stat := {
  st_mode : Z; st_uid : Z; st_gid : Z; st_ino : Z; st_nlink : Z; st_dev : Z;
  st_size : Z; st_blksize : Z; st_blocks : Z;
  st_atime : Z; st_atime_nsec : Z; st_ctime : Z; st_ctime_nsec : Z;
  st_mtime : Z; st_mtime_nsec : Z
}.

(** [Stat::default()] *)
Definition Stat_default : Stat := Build_Stat 0 0 0 0 0 0 0 0 0 0 0 0 0 0 0.

(** [syscall::TimeSpec] *)
Record TimeSpec := { tv_sec : Z; tv_nsec : Z }.

(** [syscall::DirEntry] as the sources fill it in *)
Record DirEntry := { de_inode : Z; de_name : string; de_next_opaque_id : Z }.

(** The fields of [syscall::StatVfs]: [f_bsize], [f_blocks], [f_bfree],
    [f_bavail]. *)
Definition StatVfs : Type := Z * Z * Z * Z.

(** [x.try_into()] to a [bits]-wide unsigned field *)
Definition try_into_bits (bits x : Z) : option Z :=
  if (0 <=? x) && (x <? 2 ^ bits) then Some x else None.

(** The [indexmap::IndexMap<String, V>] operations that ramfs uses. *)
Class IndexMap := {
  imap : Type -> Type;
  im_new : forall {V}, imap V;
  im_get : forall {V}, string -> imap V -> option V;
  im_insert : forall {V}, string -> V -> imap V -> imap V;
  im_shift_remove : forall {V}, string -> imap V -> imap V;
  im_iter : forall {V}, imap V -> list (string * V)
}.

(** Documented behaviour of these operations: a map with unique keys whose
    iteration order is the insertion order; [insert] of a present key
    replaces the value in place, [shift_remove] keeps the order of the rest. *)
Class IndexMapLaws (IM : IndexMap) : Prop := {
  im_iter_new : forall V, im_iter (@im_new _ V) = [];
  im_get_iter : forall V (m : imap V) k v, im_get k m = Some v <-> (k, v) ∈ im_iter m;
  im_iter_nodup : forall V (m : imap V), NoDup (im_iter m).*1;
  im_get_insert : forall V (m : imap V) k v k',
    im_get k' (im_insert k v m) = if decide (k = k') then Some v else im_get k' m;
  im_iter_insert_new : forall V (m : imap V) k v,
    im_get k m = None -> im_iter (im_insert k v m) = im_iter m ++ [(k, v)];
  im_iter_shift_remove : forall V (m : imap V) k,
    im_iter (im_shift_remove k m) = filter (fun e => e.1 <> k) (im_iter m)
}.

Section im_facts.
Context `{IML : IndexMapLaws}.

Lemma im_get_new {V} k : im_get k (@im_new _ V) = None.
Proof.
  destruct (im_get k im_new) eqn:E; [| done].
  apply im_get_iter in E. rewrite im_iter_new in E. by apply elem_of_nil in E.
Qed.

Lemma im_get_insert_eq {V} (m : imap V) k v : im_get k (im_insert k v m) = Some v.
Proof. rewrite im_get_insert. by rewrite decide_True. Qed.

Lemma im_get_insert_ne {V} (m : imap V) k k' v :
  k <> k' -> im_get k' (im_insert k v m) = im_get k' m.
Proof. intros. rewrite im_get_insert. by rewrite decide_False. Qed.

Lemma im_get_shift_remove {V} (m : imap V) k k' :
  im_get k' (im_shift_remove k m) = if decide (k = k') then None else im_get k' m.
Proof.
  destruct (im_get k' (im_shift_remove k m)) as [v |] eqn:E.
  - apply im_get_iter in E. rewrite im_iter_shift_remove in E.
    apply list_elem_of_filter in E as [Hne E]. simpl in Hne.
    rewrite decide_False by done. symmetry. by apply im_get_iter.
  - case_decide as Hk; [done |]. destruct (im_get k' m) as [v |] eqn:E'; [| done].
    apply im_get_iter in E'. exfalso.
    assert (im_get k' (im_shift_remove k m) = Some v) as Hs; [| congruence].
    apply im_get_iter. rewrite im_iter_shift_remove. apply list_elem_of_filter.
    split; [simpl; congruence | done].
Qed.
End im_facts.

(** Setting the status flags of a descriptor keeps its access mode and takes
    every other bit from the argument. *)
Definition setfl (flags arg : Z) `{Syscall} : Z :=
  Z.lor (Z.land flags O_ACCMODE) (Z.land arg (Z.lnot O_ACCMODE)).

Lemma setfl_accmode `{Syscall} flags arg :
  Z.land (setfl flags arg) O_ACCMODE = Z.land flags O_ACCMODE.
Proof.
  unfold setfl. apply Z.bits_inj'. intros n Hn.
  rewrite !Z.land_spec, Z.lor_spec, !Z.land_spec, Z.lnot_spec by done.
  destruct (Z.testbit flags n), (Z.testbit arg n), (Z.testbit O_ACCMODE n); done.
Qed.

Lemma setfl_other `{Syscall} flags arg :
  Z.land (setfl flags arg) (Z.lnot O_ACCMODE) = Z.land arg (Z.lnot O_ACCMODE).
Proof.
  unfold setfl. apply Z.bits_inj'. intros n Hn.
  rewrite !Z.land_spec, Z.lor_spec, !Z.land_spec, Z.lnot_spec by done.
  destruct (Z.testbit flags n), (Z.testbit arg n), (Z.testbit O_ACCMODE n); done.
Qed.

(** * Reference instances *)

(** Values published by [redox_syscall] 0.5 and later. *)
Definition redox_syscall : Syscall := {|
  O_RDONLY := 0x00010000; O_WRONLY := 0x00020000; O_RDWR := 0x00030000;
  O_ACCMODE := 0x00030000; O_NONBLOCK := 0x00040000;
  O_CREAT := 0x02000000; O_EXCL := 0x08000000; O_TRUNC := 0x04000000;
  O_DIRECTORY := 0x10000000; O_STAT := 0x20000000;
  MODE_TYPE := 0xF000; MODE_DIR := 0x4000; MODE_FILE := 0x8000;
  MODE_CHR := 0x2000; MODE_SOCK := 0xC000; MODE_PERM := 0x0FFF;
  F_GETFL := 3; F_SETFL := 4; AT_REMOVEDIR := 0x200;
  EVENT_READ := 1; EVENT_WRITE := 2; PAGE_SIZE := 4096;
  st_ino_bits := 64; st_nlink_bits := 32; st_time_bits := 64; st_nsec_bits := 32
|}.

Lemma redox_syscall_laws : SyscallLaws redox_syscall.
Proof. split; vm_compute; congruence. Qed.

Definition x86_64_release : Target :=
  {| usize_bits := 64; overflow_checks := false; usize_bits_ok := or_intror eq_refl |}.
Definition x86_64_debug : Target :=
  {| usize_bits := 64; overflow_checks := true; usize_bits_ok := or_intror eq_refl |}.

(** An association list in insertion order. *)
Fixpoint al_get {V} (k : string) (m : list (string * V)) : option V :=
  match m with
  | [] => None
  | (k', v) :: m' => if decide (k = k') then Some v else al_get k m'
  end.

Fixpoint al_insert {V} (k : string) (v : V) (m : list (string * V)) : list (string * V) :=
  match m with
  | [] => [(k, v)]
  | (k', v') :: m' => if decide (k = k') then (k, v) :: m' else (k', v') :: al_insert k v m'
  end.

(** The entries of an association list: the first binding of each key. *)
Fixpoint al_iter {V} (m : list (string * V)) : list (string * V) :=
  match m with
  | [] => []
  | e :: m' => e :: filter (fun e' => e'.1 <> e.1) (al_iter m')
  end.

Definition al_remove {V} (k : string) (m : list (string * V)) : list (string * V) :=
  filter (fun e => e.1 <> k) m.

Definition assoc_index_map : IndexMap := {|
  imap := fun V => list (string * V);
  im_new := fun V => [];
  im_get := fun V => al_get;
  im_insert := fun V => al_insert;
  im_shift_remove := fun V => al_remove;
  im_iter := fun V => al_iter
|}.

Lemma al_get_iter {V} (m : list (string * V)) k v :
  al_get k m = Some v <-> (k, v) ∈ al_iter m.
Proof.
  induction m as [| [k' v'] m IH]; simpl; [set_solver |].
  rewrite elem_of_cons, list_elem_of_filter. simpl. case_decide; subst; naive_solver.
Qed.

Lemma NoDup_fst_filter {V} (P : string * V -> Prop) `{!forall e, Decision (P e)} m :
  NoDup m.*1 -> NoDup (filter P m).*1.
Proof.
  induction m as [| e m IH]; [done |]. rewrite fmap_cons, filter_cons.
  intros [Hnot Hnd]%NoDup_cons. case_decide; [| auto]. simpl. constructor; [| auto].
  intros (e' & Heq & [_ He']%list_elem_of_filter)%list_elem_of_fmap.
  apply Hnot. rewrite Heq. by apply list_elem_of_fmap_2.
Qed.

Lemma al_iter_nodup {V} (m : list (string * V)) : NoDup (al_iter m).*1.
Proof.
  induction m as [| [k' v'] m IH]; simpl; [constructor |]. constructor.
  - intros (e & -> & He)%list_elem_of_fmap. by apply list_elem_of_filter in He as [? _].
  - by apply NoDup_fst_filter.
Qed.

Lemma al_get_insert {V} (m : list (string * V)) k v k' :
  al_get k' (al_insert k v m) = if decide (k = k') then Some v else al_get k' m.
Proof.
  induction m as [| [k1 v1] m IH]; simpl; repeat case_decide; simplify_eq/=;
    repeat case_decide; simplify_eq/=; auto.
Qed.

Lemma al_iter_insert_new {V} (m : list (string * V)) k v :
  al_get k m = None -> al_iter (al_insert k v m) = al_iter m ++ [(k, v)].
Proof.
  induction m as [| [k1 v1] m IH]; simpl; [done |].
  destruct (decide (k = k1)) as [| Hne]; [done |].
  intros Hk. cbn [al_iter]. rewrite IH by done. rewrite filter_app. simpl.
  rewrite (filter_cons_True _ (k, v)) by done. by rewrite filter_nil.
Qed.

Lemma al_iter_remove {V} (m : list (string * V)) k :
  al_iter (al_remove k m) = filter (fun e => e.1 <> k) (al_iter m).
Proof.
  unfold al_remove. induction m as [| [k1 v1] m IH]; simpl; [done |].
  rewrite !filter_cons. simpl. case_decide; simpl.
  - f_equal. rewrite IH, !list_filter_filter. apply list_filter_iff. naive_solver.
  - rewrite IH, list_filter_filter. apply list_filter_iff. naive_solver.
Qed.

Lemma assoc_index_map_laws : IndexMapLaws assoc_index_map.
Proof.
  split; intros; simpl.
  - done.
  - apply al_get_iter.
  - apply al_iter_nodup.
  - apply al_get_insert.
  - by apply al_iter_insert_new.
  - apply al_iter_remove.
Qed.
