(* ===== verification/SchemeApi.v ===== *)
(** * redox-scheme: the scheme protocol

    Models the crate [redox-scheme], through which every scheme daemon serves
    the kernel: decoding a submission-queue entry into an operation
    ([scheme.rs], [Op::from_sqe_unchecked]), the [SchemeSync] trait with its
    default methods, dispatch of an operation to the trait
    ([Op::handle_sync_dont_consume]) and the responses ([lib.rs]).

    Caller buffers are slices of the memory that the kernel has mapped into
    the daemon; a method gets the bytes of its slice and the bytes it returns
    are stored back.  The numbering of opcodes and response kinds, the error
    encoding and the layouts of [Stat], [StatVfs], [TimeSpec] and [DirentBuf]
    belong to the crate [redox_syscall] and are parameters. *)

From stdpp Require Import base gmap strings list fin_maps.
From Stdlib Require Import ZArith Lia.
From Stdlib Require Import Strings.Byte.
From S2P Require Import Prelude Memory Syscall.

Local Open Scope Z_scope.

(** ** What the crate takes from [redox_syscall] *)

(** The variants of [schemev2::Opcode] that the sources name. *)
Inductive Opcode :=
| OC_Cancel | OC_Sendfd | OC_Recvfd | OC_Msync | OC_RequestMmap | OC_CloseMsg
| OC_OpenAt | OC_UnlinkAt | OC_Dup | OC_Read | OC_Write | OC_Fsize | OC_Fchmod
| OC_Fchown | OC_Fcntl | OC_Fevent | OC_Flink | OC_Fpath | OC_Frename | OC_Fstat
| OC_Fstatvfs | OC_Fsync | OC_Ftruncate | OC_Futimens | OC_Call | OC_Getdents
| OC_MmapPrep | OC_Munmap | OC_other (n : Z).

Class SchemeAbi := {
  try_from_raw : Z -> option Opcode;
  (** discriminants of [CqeOpcode] *)
  RespondRegular : Z; RespondWithFd : Z; RespondWithMultipleFds : Z; SendFevent : Z;
  (** [Error::mux] *)
  mux : outcome Z -> Z;
  (** [NewFdFlags::bits] *)
  new_fd_bits : NewFdFlags -> Z;
  size_of_Stat : Z; size_of_StatVfs : Z; size_of_TimeSpec : Z;
  stat_bytes : Stat -> list u8;
  statvfs_bytes : StatVfs -> list u8;
  timespecs_of : list u8 -> list TimeSpec;
  DirentBuf : Type;
  dirent_new : list u8 -> Z -> option DirentBuf;
  (** [finalize]: the number of bytes, and the buffer behind it *)
  dirent_finalize : DirentBuf -> Z * list u8
}.

(** [schemev2::Sqe] and [schemev2::Cqe] *)
Record Sqe := {
  opcode : Z; sqe_tag : Z; sqe_caller : Z;
  arg0 : Z; arg1 : Z; arg2 : Z; arg3 : Z; arg4 : Z; arg5 : Z
}.
Record Cqe := { cqe_flags : Z; extra_raw : Z * Z * Z; result : Z; cqe_tag : Z }.

(** [Response(Cqe)] *)
Abbreviation Response := Cqe.
(** [Request { sqe }] *)
Abbreviation Request := Sqe.

(** [x as u16] and [x as u32] *)
Definition as_u16 (x : Z) : Z := x mod 2 ^ 16.
Definition as_u32 (x : Z) : Z := x mod 2 ^ 32.

(** A raw slice: address and length. *)
Record slice := { ptr : Z; slen : Z }.

(** ** Operations *)

Inductive Op :=
| Open (req : Z) (path : slice) (flags : Z)
| OpenAt (fd fcntl_flags req : Z) (path : slice) (flags : Z)
| Rmdir (req : Z) (path : slice)
| Unlink (req : Z) (path : slice)
| UnlinkAt (fd fcntl_flags req : Z) (path : slice) (flags : Z)
| Dup (fd req : Z) (buf : slice)
| Read (req fd offset flags : Z) (buf : slice)
| Write (req fd offset flags : Z) (buf : slice)
| Fsize (req fd : Z)
| Fchmod (req fd new_mode : Z)
| Fchown (req fd new_uid new_gid : Z)
| Fcntl (req fd cmd arg : Z)
| Fevent (req fd req_flags : Z)
| Flink (fd req : Z) (buf : slice)
| Fpath (fd req : Z) (buf : slice)
| Frename (fd req : Z) (buf : slice)
| Fstat (fd req : Z) (buf : Z)
| FstatVfs (fd req : Z) (buf : Z)
| Fsync (req fd : Z)
| Ftruncate (req fd new_sz : Z)
| Futimens (fd req : Z) (buf : slice)
| MmapPrep (req fd offset len flags : Z)
| Munmap (req fd offset len flags : Z)
| Call (req fd : Z) (payload : slice) (metadata : list Z)
| Getdents (req fd : Z) (buf : slice) (header_size opaque_offset : Z)
| Recvfd (request : Request).

(** The kinds of request that a daemon receives. *)
Inductive RequestKind :=
| RK_Call (inner : Request)
| RK_Cancellation (id : Z)
| RK_SendFd (inner : Request)
| RK_RecvFd (inner : Request)
| RK_MsyncMsg
| RK_MunmapMsg
| RK_MmapMsg
| RK_OnClose (id : Z).

Section protocol.
Context {TG : Target} {SC : Syscall} {AB : SchemeAbi}.

Definition kind (r : Request) : RequestKind :=
  match try_from_raw (opcode r) with
  | Some OC_Cancel => RK_Cancellation (sqe_tag r)
  | Some OC_Sendfd => RK_SendFd r
  | Some OC_Recvfd => RK_RecvFd r
  | Some OC_Msync => RK_MsyncMsg
  | Some OC_RequestMmap => RK_MmapMsg
  | Some OC_CloseMsg => RK_OnClose (as_usize (arg0 r))
  | _ => RK_Call r
  end.

(** [CallRequest::caller], [SendFdRequest::caller], [RecvFdRequest::caller] *)
Definition caller (r : Request) : CallerCtx :=
  {| ctx_pid := as_usize (sqe_caller r); ctx_uid := as_u32 (arg5 r);
     ctx_gid := as_u32 (Z.shiftr (arg5 r) 32); ctx_id := sqe_tag r |}.

(** [assert!(b)] *)
Definition assert_ {A} (b : bool) (k : outcome A) : outcome A := if b then k else Panic.

Definition from_sqe_unchecked (sqe : Sqe) : outcome (option Op) :=
  let req := sqe_tag sqe in
  let a := as_usize (arg0 sqe) in
  let b := as_usize (arg1 sqe) in
  let c := as_usize (arg2 sqe) in
  let d := as_usize (arg3 sqe) in
  let e := as_usize (arg4 sqe) in
  let slice_at p n := {| ptr := p; slen := n |} in
  if opcode sqe =? 0 then Ok (Some (Open req (slice_at a b) c))
  else if opcode sqe =? 1 then Ok (Some (Rmdir req (slice_at a b)))
  else if opcode sqe =? 2 then Ok (Some (Unlink req (slice_at a b)))
  else match try_from_raw (opcode sqe) with
  | None => Ok None
  | Some op =>
      match op with
      | OC_OpenAt => Ok (Some (OpenAt a (as_u32 e) req (slice_at b c) d))
      | OC_UnlinkAt => Ok (Some (UnlinkAt a 0 req (slice_at b c) d))
      | OC_Dup => Ok (Some (Dup a req (slice_at b c)))
      | OC_Read => Ok (Some (Read req a (arg3 sqe) (as_u32 (arg4 sqe)) (slice_at b c)))
      | OC_Write => Ok (Some (Write req a (arg3 sqe) (as_u32 (arg4 sqe)) (slice_at b c)))
      | OC_Fsize => Ok (Some (Fsize req a))
      | OC_Fchmod => Ok (Some (Fchmod req a (as_u16 b)))
      | OC_Fchown => Ok (Some (Fchown req a (as_u32 b) (as_u32 c)))
      | OC_Fcntl => Ok (Some (Fcntl req a b c))
      | OC_Fevent => Ok (Some (Fevent req a b))
      | OC_Flink => Ok (Some (Flink a req (slice_at b c)))
      | OC_Fpath => Ok (Some (Fpath a req (slice_at b c)))
      | OC_Frename => Ok (Some (Frename a req (slice_at b c)))
      | OC_Fstat => assert_ (size_of_Stat <=? c) (Ok (Some (Fstat a req b)))
      | OC_Fstatvfs => assert_ (size_of_StatVfs <=? c) (Ok (Some (FstatVfs a req b)))
      | OC_Fsync => Ok (Some (Fsync req a))
      | OC_Ftruncate => Ok (Some (Ftruncate req a (arg1 sqe)))
      | OC_Futimens =>
          assert_ (c <=? 2 * size_of_TimeSpec)
            (Ok (Some (Futimens a req
              (slice_at b (c / size_of_TimeSpec * size_of_TimeSpec)))))
      | OC_Call => Ok (Some (Call req a (slice_at b c) [arg3 sqe; arg4 sqe; arg5 sqe]))
      | OC_Getdents => Ok (Some (Getdents req a (slice_at b c) (as_u16 (arg3 sqe)) (arg4 sqe)))
      | OC_MmapPrep => Ok (Some (MmapPrep req a (arg3 sqe) b c))
      | OC_Munmap => Ok (Some (Munmap req a (arg3 sqe) b c))
      | _ => Ok None
      end
  end.

Definition is_explicitly_nonblock (op : Op) : bool :=
  let flags := match op with
               | Read _ _ _ flags _ => flags
               | Write _ _ _ flags _ => flags
               | OpenAt _ fcntl_flags _ _ _ => fcntl_flags
               | Open _ _ flags => as_u32 flags
               | _ => 0
               end in
  any_set flags O_NONBLOCK.

(** [RecvFdRequest::id] *)
Definition recvfd_id (r : Request) : Z := as_usize (arg0 r).

Definition file_id (op : Op) : option Z :=
  match op with
  | Open _ _ _ | Rmdir _ _ | Unlink _ _ => None
  | UnlinkAt fd _ _ _ _ | OpenAt fd _ _ _ _ | Dup fd _ _ => Some fd
  | Read _ fd _ _ _ | Write _ fd _ _ _ => Some fd
  | Fsize _ fd | Fchmod _ fd _ | Fchown _ fd _ _ | Fcntl _ fd _ _ | Fevent _ fd _
  | Fsync _ fd | Ftruncate _ fd _ | MmapPrep _ fd _ _ _ | Munmap _ fd _ _ _ => Some fd
  | Flink fd _ _ | Fpath fd _ _ | Frename fd _ _ | Fstat fd _ _ | FstatVfs fd _ _
  | Futimens fd _ _ => Some fd
  | Call _ fd _ _ | Getdents _ fd _ _ _ => Some fd
  | Recvfd r => Some (recvfd_id r)
  end.

(** [IntoTag for Op] *)
Definition into_tag (op : Op) : Z :=
  match op with
  | Open req _ _ | OpenAt _ _ req _ _ | Rmdir req _ | Unlink req _ | UnlinkAt _ _ req _ _
  | Dup _ req _ | Read req _ _ _ _ | Write req _ _ _ _ | Fsize req _ | Fchmod req _ _
  | Fchown req _ _ _ | Fcntl req _ _ _ | Fevent req _ _ | Fsync req _ | Ftruncate req _ _
  | MmapPrep req _ _ _ _ | Munmap req _ _ _ _ | Flink _ req _ | Fpath _ req _
  | Frename _ req _ | Fstat _ req _ | FstatVfs _ req _ | Futimens _ req _ | Call req _ _ _
  | Getdents req _ _ _ _ => req
  | Recvfd r => sqe_tag r
  end.

(** ** Responses *)

Definition Response_new (status : outcome Z) (tag : Z) : Response :=
  {| cqe_flags := RespondRegular; extra_raw := (0, 0, 0); result := mux status; cqe_tag := tag |}.

Definition Response_err (e : errno) (tag : Z) : Response := Response_new (Err e) tag.

Definition with_extra (r : Response) (extra : Z * Z * Z) : Response :=
  {| cqe_flags := cqe_flags r; extra_raw := extra; result := result r; cqe_tag := cqe_tag r |}.

Definition return_external_fd (fd tag : Z) : Response :=
  {| cqe_flags := RespondWithFd; extra_raw := (0, 0, 0); result := fd; cqe_tag := tag |}.

Definition return_external_multiple_fds (num_fds tag : Z) : Response :=
  {| cqe_flags := RespondWithMultipleFds; extra_raw := (0, 0, 0); result := num_fds; cqe_tag := tag |}.

Definition open_dup_like (res : outcome OpenResult) (tag : Z) : Response :=
  match res with
  | Ok (ThisScheme number flags) =>
      with_extra (Response_new (Ok number) tag) (new_fd_bits flags, 0, 0)
  | Err e => Response_new (Err e) tag
  | Ok (OtherScheme fd) => return_external_fd fd tag
  | Ok (OtherSchemeMultiple num_fds) => return_external_multiple_fds num_fds tag
  | Ok WouldBlock => Response_new (Err EWOULDBLOCK) tag
  | Panic => Response_new Panic tag
  end.

Definition Response_post_fevent (id flags : Z) : Response :=
  {| cqe_flags := SendFevent; extra_raw := (0, 0, 0); cqe_tag := as_u32 flags; result := id |}.

Inductive SchemeResponse :=
| Regular (r : outcome Z)
| Opened (r : outcome OpenResult).
End protocol.

(** ** The trait *)

(** [SchemeSync].  A method with a [&mut] buffer returns its new contents; a
    method that fails leaves the buffer alone, but for [call], whose result
    and payload are separate. *)
Class SchemeSync {AB : SchemeAbi} (S : Type) := {
  s_open : string -> Z -> CallerCtx -> M S OpenResult;
  s_openat : Z -> string -> Z -> Z -> CallerCtx -> M S OpenResult;
  s_rmdir : string -> CallerCtx -> M S unit;
  s_unlink : string -> CallerCtx -> M S unit;
  s_unlinkat : Z -> string -> Z -> CallerCtx -> M S unit;
  s_dup : Z -> list u8 -> CallerCtx -> M S OpenResult;
  s_read : Z -> list u8 -> Z -> Z -> CallerCtx -> M S (Z * list u8);
  s_write : Z -> list u8 -> Z -> Z -> CallerCtx -> M S Z;
  s_fsize : Z -> CallerCtx -> M S Z;
  s_fchmod : Z -> Z -> CallerCtx -> M S unit;
  s_fchown : Z -> Z -> Z -> CallerCtx -> M S unit;
  s_fcntl : Z -> Z -> Z -> CallerCtx -> M S Z;
  s_fevent : Z -> Z -> CallerCtx -> M S Z;
  s_flink : Z -> string -> CallerCtx -> M S Z;
  s_fpath : Z -> list u8 -> CallerCtx -> M S (Z * list u8);
  s_frename : Z -> string -> CallerCtx -> M S Z;
  s_fstat : Z -> CallerCtx -> M S Stat;
  s_fstatvfs : Z -> CallerCtx -> M S StatVfs;
  s_fsync : Z -> CallerCtx -> M S unit;
  s_ftruncate : Z -> Z -> CallerCtx -> M S unit;
  s_futimens : Z -> list TimeSpec -> CallerCtx -> M S unit;
  s_call : Z -> list u8 -> list Z -> CallerCtx -> M S (outcome Z * list u8);
  s_getdents : Z -> DirentBuf -> Z -> M S DirentBuf;
  s_mmap_prep : Z -> Z -> Z -> Z -> CallerCtx -> M S Z;
  s_munmap : Z -> Z -> Z -> Z -> CallerCtx -> M S unit;
  s_on_close : Z -> M S unit;
  s_on_sendfd : Request -> M S Z;
  s_on_recvfd : Request -> M S OpenResult
}.

(** The default methods of the trait: what an [impl] that overrides nothing
    does. *)
Definition SchemeSync_default {AB : SchemeAbi} (S : Type) : SchemeSync S := {|
  s_open _ _ _ := throw ENOENT;
  s_openat _ _ _ _ _ := throw EOPNOTSUPP;
  s_rmdir _ _ := throw ENOENT;
  s_unlink _ _ := throw ENOENT;
  s_unlinkat _ _ _ _ := throw ENOENT;
  s_dup _ _ _ := throw EOPNOTSUPP;
  s_read _ _ _ _ _ := throw EBADF;
  s_write _ _ _ _ _ := throw EBADF;
  s_fsize _ _ := throw ESPIPE;
  s_fchmod _ _ _ := throw EOPNOTSUPP;
  s_fchown _ _ _ _ := throw EOPNOTSUPP;
  s_fcntl _ _ _ _ := throw EOPNOTSUPP;
  s_fevent _ _ _ := mret 0;
  s_flink _ _ _ := throw EOPNOTSUPP;
  s_fpath _ _ _ := throw EOPNOTSUPP;
  s_frename _ _ _ := throw EOPNOTSUPP;
  s_fstat _ _ := throw EOPNOTSUPP;
  s_fstatvfs _ _ := throw EOPNOTSUPP;
  s_fsync _ _ := mret tt;
  s_ftruncate _ _ _ := throw EBADF;
  s_futimens _ _ _ := throw EBADF;
  s_call _ _ _ _ := throw EOPNOTSUPP;
  s_getdents _ _ _ := throw ENOTDIR;
  s_mmap_prep _ _ _ _ _ := throw EOPNOTSUPP;
  s_munmap _ _ _ _ _ := throw EOPNOTSUPP;
  s_on_close _ := mret tt;
  s_on_sendfd _ := throw EOPNOTSUPP;
  s_on_recvfd _ := throw EOPNOTSUPP
|}.

(** ** Dispatch *)

Section dispatch.
Context {TG : Target} {SC : Syscall} {AB : SchemeAbi} {S : Type} {SS : SchemeSync S}.

(** The scheme, and the memory with the callers' buffers. *)
Abbreviation world := (S * memory)%type.

(** A method call whose [Result] is a value; a panic is not. *)
Definition call_ {A} (m : M S A) : M world (outcome A) := fun x =>
  match m x.1 with
  | (Panic, s) => (Panic, (s, x.2))
  | (r, s) => (Ok r, (s, x.2))
  end.

Definition bytes_at (sl : slice) : M world (list u8) :=
  m ← gets snd; unwrap (load (ptr sl) (Z.to_nat (slen sl)) m).

Definition path_at (sl : slice) : M world string :=
  l ← bytes_at sl; mret (String.string_of_list_byte l).

Definition put_bytes (a : Z) (l : list u8) : M world unit :=
  modify (fun x => (x.1, store a l x.2)).

(** [r.map(|()| 0)] *)
Definition ok0 (r : outcome unit) : outcome Z := _ ← r; Ok 0.

(** A result that carries the new contents of the buffer at [a]. *)
Definition with_buf (a : Z) (r : outcome (Z * list u8)) : M world (outcome Z) :=
  match r with
  | Ok (n, l) => put_bytes a l;; mret (Ok n)
  | Err e => mret (Err e)
  | Panic => mret Panic
  end.

(** A result beside the new contents of the buffer at [a]. *)
Definition with_payload (a : Z) (r : outcome (outcome Z * list u8)) : M world (outcome Z) :=
  match r with
  | Ok (n, l) => put_bytes a l;; mret n
  | Err e => mret (Err e)
  | Panic => mret Panic
  end.

Definition regular (r : outcome Z) : M world SchemeResponse := mret (Regular r).
Definition opened (r : outcome OpenResult) : M world SchemeResponse := mret (Opened r).

Definition handle_sync_dont_consume (op : Op) (ctx : CallerCtx) : M world SchemeResponse :=
  match op with
  | Open _ path flags => p ← path_at path; call_ (s_open p flags ctx) ≫= opened
  | OpenAt fd fcntl_flags _ path flags =>
      p ← path_at path; call_ (s_openat fd p flags fcntl_flags ctx) ≫= opened
  | Rmdir _ path => p ← path_at path; r ← call_ (s_rmdir p ctx); regular (ok0 r)
  | Unlink _ path => p ← path_at path; r ← call_ (s_unlink p ctx); regular (ok0 r)
  | UnlinkAt fd _ _ path flags =>
      p ← path_at path; r ← call_ (s_unlinkat fd p flags ctx); regular (ok0 r)
  | Dup fd _ buf => l ← bytes_at buf; call_ (s_dup fd l ctx) ≫= opened
  | Read _ fd offset flags buf =>
      l ← bytes_at buf; r ← call_ (s_read fd l offset flags ctx); with_buf (ptr buf) r ≫= regular
  | Write _ fd offset flags buf =>
      l ← bytes_at buf; call_ (s_write fd l offset flags ctx) ≫= regular
  | Fsize _ fd => r ← call_ (s_fsize fd ctx); regular (l ← r; Ok (as_usize l))
  | Fchmod _ fd new_mode => r ← call_ (s_fchmod fd new_mode ctx); regular (ok0 r)
  | Fchown _ fd new_uid new_gid => r ← call_ (s_fchown fd new_uid new_gid ctx); regular (ok0 r)
  | Fcntl _ fd cmd arg => call_ (s_fcntl fd cmd arg ctx) ≫= regular
  | Fevent _ fd req_flags => call_ (s_fevent fd req_flags ctx) ≫= regular
  | Flink fd _ buf => p ← path_at buf; call_ (s_flink fd p ctx) ≫= regular
  | Fpath fd _ buf => l ← bytes_at buf; r ← call_ (s_fpath fd l ctx); with_buf (ptr buf) r ≫= regular
  | Frename fd _ buf => p ← path_at buf; call_ (s_frename fd p ctx) ≫= regular
  | Fstat fd _ buf =>
      r ← call_ (s_fstat fd ctx);
      with_buf buf (st ← r; Ok (0, stat_bytes st)) ≫= regular
  | FstatVfs fd _ buf =>
      r ← call_ (s_fstatvfs fd ctx);
      with_buf buf (st ← r; Ok (0, statvfs_bytes st)) ≫= regular
  | Fsync _ fd => r ← call_ (s_fsync fd ctx); regular (ok0 r)
  | Ftruncate _ fd new_sz => r ← call_ (s_ftruncate fd new_sz ctx); regular (ok0 r)
  | Futimens fd _ buf =>
      l ← bytes_at buf; r ← call_ (s_futimens fd (timespecs_of l) ctx); regular (ok0 r)
  | MmapPrep _ fd offset len flags => call_ (s_mmap_prep fd offset len flags ctx) ≫= regular
  | Munmap _ fd offset len flags =>
      r ← call_ (s_munmap fd offset len flags ctx); regular (ok0 r)
  | Call _ fd payload metadata =>
      l ← bytes_at payload; r ← call_ (s_call fd l metadata ctx); with_payload (ptr payload) r ≫= regular
  | Getdents _ fd buf header_size opaque_offset =>
      l ← bytes_at buf;
      match dirent_new l header_size with
      | None => regular (Err EINVAL)
      | Some d =>
          r ← call_ (s_getdents fd d opaque_offset);
          with_buf (ptr buf) (d ← r; Ok (dirent_finalize d)) ≫= regular
      end
  | Recvfd req => call_ (s_on_recvfd req) ≫= opened
  end.

Definition handle_sync (op : Op) (ctx : CallerCtx) : M world Response :=
  r ← handle_sync_dont_consume op ctx;
  match r with
  | Opened open => mret (open_dup_like open (into_tag op))
  | Regular reg => mret (Response_new reg (into_tag op))
  end.

(** [CallRequest::handle_sync] *)
Definition call_handle_sync (r : Request) : M world Response :=
  op ← lift (from_sqe_unchecked r);
  match op with
  | Some op => handle_sync op (caller r)
  | None => mret (Response_new (Err ENOSYS) (sqe_tag r))
  end.

(** [Op::handle_async].  The futures of the [SchemeAsync] methods, which are
    those of [SchemeSync] but for [on_close] and [on_sendfd], borrow the scheme
    exclusively and are awaited in place, so each runs to completion before
    the next step. *)
Definition handle_async (op : Op) (ctx : CallerCtx) : M world Response :=
  let respond tag (res : outcome Z) := mret (Response_new res tag) in
  match op with
  | Open req path flags =>
      p ← path_at path; res ← call_ (s_open p flags ctx); mret (open_dup_like res req)
  | OpenAt fd fcntl_flags req path flags =>
      p ← path_at path; res ← call_ (s_openat fd p flags fcntl_flags ctx); mret (open_dup_like res req)
  | Rmdir req path => p ← path_at path; r ← call_ (s_rmdir p ctx); respond req (ok0 r)
  | Unlink req path => p ← path_at path; r ← call_ (s_unlink p ctx); respond req (ok0 r)
  | UnlinkAt fd _ req path flags =>
      p ← path_at path; r ← call_ (s_unlinkat fd p flags ctx); respond req (ok0 r)
  | Dup fd req buf => l ← bytes_at buf; res ← call_ (s_dup fd l ctx); mret (open_dup_like res req)
  | Read req fd offset flags buf =>
      l ← bytes_at buf; r ← call_ (s_read fd l offset flags ctx); r ← with_buf (ptr buf) r; respond req r
  | Write req fd offset flags buf =>
      l ← bytes_at buf; r ← call_ (s_write fd l offset flags ctx); respond req r
  | Fsize req fd => r ← call_ (s_fsize fd ctx); respond req (l ← r; Ok (as_usize l))
  | Fchmod req fd new_mode => r ← call_ (s_fchmod fd new_mode ctx); respond req (ok0 r)
  | Fchown req fd new_uid new_gid => r ← call_ (s_fchown fd new_uid new_gid ctx); respond req (ok0 r)
  | Fcntl req fd cmd arg => r ← call_ (s_fcntl fd cmd arg ctx); respond req r
  | Fevent req fd req_flags => r ← call_ (s_fevent fd req_flags ctx); respond req r
  | Flink fd req buf => p ← path_at buf; r ← call_ (s_flink fd p ctx); respond req r
  | Fpath fd req buf =>
      l ← bytes_at buf; r ← call_ (s_fpath fd l ctx); r ← with_buf (ptr buf) r; respond req r
  | Frename fd req buf => p ← path_at buf; r ← call_ (s_frename fd p ctx); respond req r
  | Fstat fd req buf =>
      r ← call_ (s_fstat fd ctx); r ← with_buf buf (st ← r; Ok (0, stat_bytes st)); respond req r
  | FstatVfs fd req buf =>
      r ← call_ (s_fstatvfs fd ctx); r ← with_buf buf (st ← r; Ok (0, statvfs_bytes st)); respond req r
  | Fsync req fd => r ← call_ (s_fsync fd ctx); respond req (ok0 r)
  | Ftruncate req fd new_sz => r ← call_ (s_ftruncate fd new_sz ctx); respond req (ok0 r)
  | Futimens fd req buf =>
      l ← bytes_at buf; r ← call_ (s_futimens fd (timespecs_of l) ctx); respond req (ok0 r)
  | MmapPrep req fd offset len flags => r ← call_ (s_mmap_prep fd offset len flags ctx); respond req r
  | Munmap req fd offset len flags =>
      r ← call_ (s_munmap fd offset len flags ctx); respond req (ok0 r)
  | Call req fd payload metadata =>
      l ← bytes_at payload; r ← call_ (s_call fd l metadata ctx);
      r ← with_payload (ptr payload) r; respond req r
  | Getdents req fd buf header_size opaque_offset =>
      l ← bytes_at buf;
      match dirent_new l header_size with
      | None => mret (Response_err EINVAL req)
      | Some d =>
          r ← call_ (s_getdents fd d opaque_offset);
          r ← with_buf (ptr buf) (d ← r; Ok (dirent_finalize d)); respond req r
      end
  | Recvfd req => res ← call_ (s_on_recvfd req); mret (open_dup_like res (sqe_tag req))
  end.
End dispatch.
