(* ===== verification/Readiness.v ===== *)
(** * redox-scheme: the readiness-based server

    Models [redox-scheme/src/wrappers.rs]: [ReadinessBased] reads batches of
    requests, answers those the scheme can serve, parks the ones that would
    block, retries them when polled, and queues the responses.

    What the socket delivers or takes is an argument of the operations that
    use it; the iteration order of the [HashMap] of parked requests is an
    argument of [poll_all_requests]. *)

From stdpp Require Import base gmap strings list fin_maps.
From Stdlib Require Import ZArith Lia.
From S2P Require Import Prelude Memory Syscall SchemeApi.

Local Open Scope Z_scope.

Record ReadinessBased := {
  requests_read : list Request;
  responses_to_write : list Response;
  states : gmap Z (CallerCtx * Op);
  ready_queue : list Z
}.

Definition ReadinessBased_new : ReadinessBased :=
  {| requests_read := []; responses_to_write := []; states := ∅; ready_queue := [] |}.

(** The server with the scheme it serves and the callers' memory. *)
Record Server (S : Type) := { rb : ReadinessBased; served : S * memory }.
Arguments rb {S} _.
Arguments served {S} _.
Arguments Build_Server {S} _ _.

Definition set_requests_read (x : list Request) (r : ReadinessBased) : ReadinessBased :=
  {| requests_read := x; responses_to_write := responses_to_write r; states := states r;
     ready_queue := ready_queue r |}.
Definition set_responses (x : list Response) (r : ReadinessBased) : ReadinessBased :=
  {| requests_read := requests_read r; responses_to_write := x; states := states r;
     ready_queue := ready_queue r |}.
Definition set_states (x : gmap Z (CallerCtx * Op)) (r : ReadinessBased) : ReadinessBased :=
  {| requests_read := requests_read r; responses_to_write := responses_to_write r; states := x;
     ready_queue := ready_queue r |}.
Definition set_ready_queue (x : list Z) (r : ReadinessBased) : ReadinessBased :=
  {| requests_read := requests_read r; responses_to_write := responses_to_write r;
     states := states r; ready_queue := x |}.

(** [ControlFlow<Response, (CallerCtx, Op)>] *)
Inductive ControlFlow :=
| Continue (caller : CallerCtx) (op : Op)
| Break (resp : Response).

Section readiness.
Context {TG : Target} {SC : Syscall} {AB : SchemeAbi} {S : Type} {SS : SchemeSync S}.

Definition on_rb (f : ReadinessBased -> ReadinessBased) : M (Server S) unit :=
  modify (fun w => {| rb := f (rb w); served := served w |}).

Definition push_response (r : Response) : M (Server S) unit :=
  on_rb (fun b => set_responses (responses_to_write b ++ [r]) b).

Definition park (i : Z) (ctx : CallerCtx) (op : Op) : M (Server S) unit :=
  on_rb (fun b => set_states (<[i := (ctx, op)]> (states b)) b).

(** A computation on the scheme and the callers' memory. *)
Definition on_served {A} (m : M (S * memory) A) : M (Server S) A := fun w =>
  let '(o, x) := m (served w) in (o, {| rb := rb w; served := x |}).

(** [delivered]: what [Socket::read_requests] put into the buffer. *)
Definition read_requests (delivered : outcome (list Request)) : M (Server S) bool :=
  rs ← gets (fun w => requests_read (rb w));
  match rs with
  | _ :: _ => panic
  | [] =>
      match delivered with
      | Ok [] => mret false
      | Ok l => on_rb (set_requests_read l);; mret true
      | Err e =>
          if bool_decide (e = EINTR \/ e = EWOULDBLOCK \/ e = EAGAIN) then mret true
          else throw e
      | Panic => panic
      end
  end.

(** Whether the scheme said that the operation has to wait. *)
Definition would_block (r : SchemeResponse) : bool :=
  match r with
  | Opened (Err EWOULDBLOCK) | Regular (Err EWOULDBLOCK) => true
  | _ => false
  end.

Definition respond (r : SchemeResponse) (op : Op) : Response :=
  match r with
  | Regular r => Response_new r (into_tag op)
  | Opened o => open_dup_like o (into_tag op)
  end.

(** The body of the [for] loop of [process_requests]. *)
Definition process_request (request : Request) : M (Server S) unit :=
  match kind request with
  | RK_Call c =>
      op ← lift (from_sqe_unchecked c);
      match op with
      | None => push_response (Response_err EOPNOTSUPP (sqe_tag c))
      | Some op =>
          r ← on_served (handle_sync_dont_consume op (caller c));
          if would_block r && negb (is_explicitly_nonblock op)
          then park (ctx_id (caller c)) (caller c) op
          else push_response (respond r op)
      end
  | RK_Cancellation i =>
      st ← gets (fun w => states (rb w));
      match st !! i with
      | Some (_, op) =>
          on_rb (set_states (delete i st));;
          push_response (Response_err ECANCELED (into_tag op))
      | None => mret tt
      end
  | RK_OnClose i => r ← on_served (call_ (s_on_close i)); mret tt
  | RK_SendFd sendfd_request =>
      r ← on_served (call_ (s_on_sendfd sendfd_request));
      push_response (Response_new r (sqe_tag sendfd_request))
  | RK_RecvFd recvfd_request =>
      r ← on_served (call_ (s_on_recvfd recvfd_request));
      match r with
      | Err EWOULDBLOCK =>
          park (ctx_id (caller recvfd_request)) (caller recvfd_request) (Recvfd recvfd_request)
      | _ => push_response (open_dup_like r (sqe_tag recvfd_request))
      end
  | RK_MsyncMsg | RK_MunmapMsg | RK_MmapMsg => mret tt
  end.

Fixpoint process_loop (rs : list Request) : M (Server S) unit :=
  match rs with
  | [] => mret tt
  | r :: rs => process_request r;; process_loop rs
  end.

Definition process_requests : M (Server S) unit :=
  rs ← gets (fun w => requests_read (rb w));
  on_rb (set_requests_read []);;
  process_loop rs.

Definition poll_request_inner (i : Z) : M (Server S) ControlFlow :=
  st ← gets (fun w => states (rb w));
  e ← ok_or EIO (st !! i);
  on_rb (set_states (delete i st));;
  let '(ctx, op) := e in
  r ← on_served (handle_sync_dont_consume op ctx);
  if would_block r && negb (is_explicitly_nonblock op) then mret (Continue ctx op)
  else mret (Break (respond r op)).

Definition poll_request (i : Z) : M (Server S) bool :=
  c ← poll_request_inner i;
  match c with
  | Continue ctx op => park i ctx op;; mret false
  | Break resp => push_response resp;; mret true
  end.

(** The [for] loop over the drained queue. *)
Fixpoint poll_loop (ids : list Z) : M (Server S) unit :=
  match ids with
  | [] => mret tt
  | i :: ids =>
      c ← poll_request_inner i;
      match c with
      | Break resp => push_response resp
      | Continue ctx op => park i ctx op
      end;;
      poll_loop ids
  end.

Definition poll_ready_requests : M (Server S) unit :=
  ids ← gets (fun w => ready_queue (rb w));
  on_rb (set_ready_queue []);;
  poll_loop ids.

(** [keys]: the parked ids in the order in which the map yields them. *)
Definition poll_all_requests (keys : list Z) : M (Server S) unit :=
  on_rb (set_ready_queue keys);;
  poll_ready_requests.

(** [taken]: how many responses the socket took, or its error. *)
Definition write_responses (taken : outcome Z) : M (Server S) bool :=
  match taken with
  | Ok n =>
      l ← gets (fun w => responses_to_write (rb w));
      if zlen l <? n then panic
      else on_rb (set_responses (drop (Z.to_nat n) l));; mret true
  | Err e =>
      if bool_decide (e = EINTR \/ e = EWOULDBLOCK \/ e = EAGAIN) then mret true else throw e
  | Panic => panic
  end.
End readiness.
