(* ===== verification/ReadinessFacts.v ===== *)
(** * redox-scheme: correctness of the protocol and the readiness-based server

    Decoding keeps the tag and the descriptor of a request; every request
    that expects a reply is answered exactly once, whatever the scheme does;
    only requests that agreed to wait are parked; polling cannot fail; a
    cancelled request is answered and forgotten; responses leave in order. *)

From stdpp Require Import base gmap strings list fin_maps.
From Stdlib Require Import ZArith Lia.
From S2P Require Import Prelude Memory Syscall SchemeApi Readiness.

Local Open Scope Z_scope.

Section decode.
Context {TG : Target} {SC : Syscall} {AB : SchemeAbi}.

Lemma from_sqe_tag sqe op : from_sqe_unchecked sqe = Ok (Some op) -> into_tag op = sqe_tag sqe.
Proof.
  unfold from_sqe_unchecked, assert_. intros H. repeat case_match; by simplify_eq.
Qed.

Lemma from_sqe_fd sqe op :
  from_sqe_unchecked sqe = Ok (Some op) ->
  file_id op = if decide (0 <= opcode sqe <= 2) then None else Some (as_usize (arg0 sqe)).
Proof.
  unfold from_sqe_unchecked, assert_. intros H.
  destruct (decide (0 <= opcode sqe <= 2)) as [Hd | Hd].
  - assert (opcode sqe = 0 \/ opcode sqe = 1 \/ opcode sqe = 2) as [E | [E | E]] by lia;
      rewrite E in H; cbn in H; by simplify_eq.
  - repeat case_match; simplify_eq; done || (exfalso; apply Hd; lia).
Qed.

(** Decoding a submission keeps what identifies it: the operation has
    the tag of the entry and, unless it is one of the legacy path operations,
    the descriptor of its first argument. *)
Theorem decode_identity sqe op :
  from_sqe_unchecked sqe = Ok (Some op) ->
  into_tag op = sqe_tag sqe /\
  file_id op = if decide (0 <= opcode sqe <= 2) then None else Some (as_usize (arg0 sqe)).
Proof. intros H. split; [by apply from_sqe_tag | by apply from_sqe_fd]. Qed.

Lemma open_dup_like_tag r t : cqe_tag (open_dup_like r t) = t.
Proof. by destruct r as [[] | |]. Qed.

Lemma respond_tag r op : cqe_tag (respond r op) = into_tag op.
Proof. destruct r; [done |]. apply open_dup_like_tag. Qed.

Lemma from_sqe_not_Err sqe e : from_sqe_unchecked sqe <> Err e.
Proof. unfold from_sqe_unchecked, assert_. repeat case_match; discriminate. Qed.
End decode.

(** ** Both dispatchers answer alike *)

Section dispatchers.
Context {TG : Target} {SC : Syscall} {AB : SchemeAbi} {S : Type} {SS : SchemeSync S}.

Lemma bind_assoc {T A B C} (m : M T A) (k : A -> M T B) (k' : B -> M T C) s :
  ((m ≫= k) ≫= k') s = (m ≫= fun a => k a ≫= k') s.
Proof. unfold mbind, M_bind. by destruct (m s) as [[] ?]. Qed.

Lemma bind_ext {T A B} (m : M T A) (k k' : A -> M T B) s :
  (forall a s', k a s' = k' a s') -> (m ≫= k) s = (m ≫= k') s.
Proof. intros Hk. unfold mbind, M_bind. destruct (m s) as [[] ?]; [apply Hk | done | done]. Qed.

(** For every operation, scheme and caller memory the asynchronous
    dispatcher does to the scheme and the caller's memory exactly what the
    synchronous one does, and sends the same response. *)
Theorem handle_async_sync op ctx x : handle_async op ctx x = handle_sync op ctx x.
Proof.
  unfold handle_sync. symmetry. destruct op; cbn [handle_async handle_sync_dont_consume];
    repeat first [ rewrite bind_assoc | apply bind_ext; intros ? ? | case_match | done ].
Qed.
End dispatchers.

(** ** The ledger *)

Section ledger.
Context {TG : Target} {SC : Syscall} {AB : SchemeAbi} {S : Type} {SS : SchemeSync S}.
Implicit Types (w : Server S).

(** Requests that the kernel waits to see answered. *)
Definition expects_reply (r : Request) : bool :=
  match kind r with RK_Call _ | RK_SendFd _ | RK_RecvFd _ => true | _ => false end.

Definition reply_tags (rs : list Request) : list Z :=
  sqe_tag <$> filter (fun r => expects_reply r = true) rs.

Definition parked_ids w : list Z := (map_to_list (states (rb w))).*1.
Definition response_tags (l : list Response) : list Z := cqe_tag <$> l.

(** The tags of the requests that are parked or answered but not yet sent. *)
Definition in_hand w : list Z := parked_ids w ++ response_tags (responses_to_write (rb w)).

(** A parked operation is filed under its own tag and may wait. *)
Definition parked_ok w : Prop :=
  forall i ctx op, states (rb w) !! i = Some (ctx, op) ->
    into_tag op = i /\ is_explicitly_nonblock op = false.

Lemma kind_call r c : kind r = RK_Call c -> c = r.
Proof. unfold kind. repeat case_match; naive_solver. Qed.
Lemma kind_sendfd r c : kind r = RK_SendFd c -> c = r.
Proof. unfold kind. repeat case_match; naive_solver. Qed.
Lemma kind_recvfd r c : kind r = RK_RecvFd c -> c = r.
Proof. unfold kind. repeat case_match; naive_solver. Qed.

(** What a step does to the ledger: the server answers or parks [t], leaves
    the batch alone, and the rest stays as it was. *)
Record answers (t : list Z) w w' : Prop := {
  an_batch : requests_read (rb w') = requests_read (rb w);
  an_states : forall i, i ∉ t -> states (rb w') !! i = states (rb w) !! i;
  an_ledger : in_hand w' ≡ₚ in_hand w ++ t;
  an_ok : parked_ok w -> parked_ok w'
}.

Lemma on_served_rb {A} (m : M (S * memory) A) w o w' : on_served m w = (o, w') -> rb w' = rb w.
Proof. unfold on_served. destruct (m (served w)). by intros [= <- <-]. Qed.

Lemma answers_push w w' w'' resp t :
  rb w' = rb w -> push_response (S := S) resp w' = (Ok tt, w'') -> cqe_tag resp = t ->
  answers [t] w w''.
Proof.
  intros Hr [= <-] <-. split; cbn; rewrite ?Hr; try done.
  - unfold in_hand, parked_ids, response_tags. cbn. by rewrite ?Hr, fmap_app, app_assoc.
Qed.

Lemma answers_park w w' w'' i ctx op :
  rb w' = rb w -> states (rb w) !! i = None -> into_tag op = i -> is_explicitly_nonblock op = false ->
  park (S := S) i ctx op w' = (Ok tt, w'') -> answers [i] w w''.
Proof.
  intros Hr Hi Ht Hn [= <-]. split; cbn; rewrite ?Hr; try done.
  - intros j Hj. rewrite lookup_insert_ne; [done |]. set_solver.
  - unfold in_hand, parked_ids, response_tags. cbn. rewrite ?Hr.
    rewrite map_to_list_insert by done. cbn. rewrite <- Permutation_cons_append. done.
  - unfold parked_ok. cbn. rewrite ?Hr. intros Hok j c o.
    intros [[<- [= <- <-]] | [? ?]]%lookup_insert_Some; eauto.
Qed.

Lemma answers_none w w' : rb w' = rb w -> answers [] w w'.
Proof.
  intros Hr. split; rewrite ?Hr; try done.
  - unfold in_hand, parked_ids. by rewrite Hr, app_nil_r.
  - unfold parked_ok. by rewrite Hr.
Qed.

(** A cancelled request moves from the parked ones to the answered ones. *)
Lemma parked_ids_delete w i e :
  states (rb w) !! i = Some e ->
  parked_ids w ≡ₚ i :: (map_to_list (delete i (states (rb w)))).*1.
Proof.
  intros Hi. unfold parked_ids. rewrite <- (map_to_list_delete _ _ _ Hi). done.
Qed.

Lemma in_hand_moved w w' i e resp :
  states (rb w) !! i = Some e -> states (rb w') = delete i (states (rb w)) ->
  responses_to_write (rb w') = responses_to_write (rb w) ++ [resp] -> cqe_tag resp = i ->
  in_hand w' ≡ₚ in_hand w.
Proof.
  intros Hi Hs Hr Ht. unfold in_hand, response_tags.
  rewrite (parked_ids_delete _ _ _ Hi). unfold parked_ids. rewrite Hs, Hr, fmap_app. cbn.
  rewrite Ht, <- Permutation_cons_append. by rewrite Permutation_middle.
Qed.

Lemma process_request_answers r w w' :
  parked_ok w -> (expects_reply r = true -> states (rb w) !! sqe_tag r = None) ->
  process_request r w = (Ok tt, w') ->
  requests_read (rb w') = requests_read (rb w) /\
  in_hand w' ≡ₚ in_hand w ++ (if expects_reply r then [sqe_tag r] else []) /\
  (forall i, (expects_reply r = true -> i <> sqe_tag r) ->
     states (rb w) !! i = None -> states (rb w') !! i = None) /\ parked_ok w'.
Proof.
  intros Hok Hfresh. unfold process_request, expects_reply in *.
  enough (forall t (P : Z -> Prop), answers t w w' -> (forall i, P i -> i ∉ t) ->
    requests_read (rb w') = requests_read (rb w) /\ in_hand w' ≡ₚ in_hand w ++ t /\
    (forall i, P i -> states (rb w) !! i = None -> states (rb w') !! i = None) /\ parked_ok w') as Hans.
  2: { intros t P [Hb Hs Hl Hp] Hi. split_and!; auto. intros i Pi Hn. rewrite Hs; auto. }
  destruct (kind r) as [c | i | c | c | | | | i] eqn:Ek.
  - apply kind_call in Ek as ->. specialize (Hfresh eq_refl).
    intros (op & w1 & (Hd & ->)%lift_Ok & H)%bind_Ok. destruct op as [op |].
    + apply from_sqe_tag in Hd.
      apply bind_Ok in H as (resp & w2 & Hr%on_served_rb & H). cbn beta iota in H.
      destruct (would_block resp && negb (is_explicitly_nonblock op)) eqn:Eb.
      * apply andb_true_iff in Eb as [_ Eb%negb_true_iff].
        apply Hans; [by eapply answers_park | set_solver].
      * apply Hans; [| set_solver]. eapply answers_push; [done | done |]. by rewrite respond_tag.
    + apply Hans; [| set_solver]. by eapply (answers_push w w w').
  - intros (st & w1 & (-> & ->)%gets_Ok & H)%bind_Ok.
    destruct (states (rb w) !! i) as [[ctx op] |] eqn:Ei.
    + injection H as <-. cbn. destruct (Hok _ _ _ Ei) as [Ht _]. split_and!; [done | | |].
      * rewrite app_nil_r. by eapply (in_hand_moved w).
      * intros j _ Hj. rewrite lookup_delete_None. auto.
      * intros j c o Hj. cbn in Hj. apply lookup_delete_Some in Hj as [? ?]. by eapply Hok.
    + apply ret_Ok in H as [_ ->]. apply Hans; [by apply answers_none | set_solver].
  - apply kind_sendfd in Ek as ->.
    intros (resp & w2 & Hr%on_served_rb & H)%bind_Ok.
    apply Hans; [by eapply answers_push | set_solver].
  - apply kind_recvfd in Ek as ->. specialize (Hfresh eq_refl).
    intros (resp & w2 & Hr%on_served_rb & H)%bind_Ok.
    assert (push_response (S := S) (open_dup_like resp (sqe_tag r)) w2 = (Ok tt, w') \/
      park (ctx_id (caller r)) (caller r) (Recvfd r) w2 = (Ok tt, w')) as [Hp | Hp].
    { destruct resp as [| [] |]; auto. }
    + apply Hans; [| set_solver]. eapply answers_push; [done | done |]. apply open_dup_like_tag.
    + apply Hans; [| set_solver].
      by apply (answers_park w w2 w' (sqe_tag r) (caller r) (Recvfd r)).
  - intros [_ ->]%ret_Ok. apply Hans; [by apply answers_none | set_solver].
  - intros [_ ->]%ret_Ok. apply Hans; [by apply answers_none | set_solver].
  - intros [_ ->]%ret_Ok. apply Hans; [by apply answers_none | set_solver].
  - intros (resp & w2 & Hr%on_served_rb & H)%bind_Ok. apply ret_Ok in H as [_ ->].
    apply Hans; [by apply answers_none | set_solver].
Qed.

(** The kernel does not reuse the tag of a request that it still waits for. *)
Definition fresh_batch (rs : list Request) w : Prop :=
  NoDup (reply_tags rs) /\ forall t, t ∈ reply_tags rs -> states (rb w) !! t = None.

Lemma reply_tags_cons r rs :
  reply_tags (r :: rs) = (if expects_reply r then [sqe_tag r] else []) ++ reply_tags rs.
Proof. unfold reply_tags. rewrite filter_cons. by destruct (expects_reply r). Qed.

Lemma process_loop_answers rs w w' :
  parked_ok w -> fresh_batch rs w -> process_loop rs w = (Ok tt, w') ->
  requests_read (rb w') = requests_read (rb w) /\
  in_hand w' ≡ₚ in_hand w ++ reply_tags rs /\ parked_ok w'.
Proof.
  revert w. induction rs as [| r rs IH]; intros w Hok [Hnd Hfr]; cbn [process_loop].
  - intros [_ ->]%ret_Ok. split_and!; [done | | done]. by rewrite app_nil_r.
  - rewrite reply_tags_cons in *.
    intros ([] & w1 & H1 & H2)%bind_Ok.
    apply process_request_answers in H1 as (Hb & Hl & Hs & Hok1); [| done |].
    2: { intros He. apply Hfr. rewrite He. set_solver. }
    apply IH in H2 as (Hb2 & Hl2 & Hok2); [| done |].
    + split_and!; [congruence | | done]. by rewrite Hl2, Hl, app_assoc.
    + apply NoDup_app in Hnd as (_ & Hnot & Hnd). split; [done |].
      intros t Ht. apply Hs; [| apply Hfr; set_solver].
      intros He ->. apply (Hnot (sqe_tag r)); [| done]. rewrite He. set_solver.
Qed.

(** ** Polling *)

(** Retrying a parked request answers it or parks it again. *)
Record retried (i : Z) w w' : Prop := {
  re_batch : requests_read (rb w') = requests_read (rb w);
  re_queue : ready_queue (rb w') = ready_queue (rb w);
  re_states : forall j, j <> i -> states (rb w') !! j = states (rb w) !! j;
  re_ledger : in_hand w' ≡ₚ in_hand w;
  re_ok : parked_ok w'
}.

Definition settle (i : Z) (c : ControlFlow) : M (Server S) unit :=
  match c with Break resp => push_response resp | Continue ctx op => park i ctx op end.

Lemma poll_inner_run i w ctx op :
  states (rb w) !! i = Some (ctx, op) ->
  poll_request_inner i w =
    (r ← on_served (handle_sync_dont_consume op ctx);
     if would_block r && negb (is_explicitly_nonblock op) then mret (Continue ctx op)
     else mret (Break (respond r op))) {| rb := set_states (delete i (states (rb w))) (rb w); served := served w |}.
Proof. intros Hi. unfold poll_request_inner. rewrite gets_bind, Hi. done. Qed.

Lemma retry_answers i w w' ctx op :
  parked_ok w -> states (rb w) !! i = Some (ctx, op) ->
  (poll_request_inner i ≫= settle i) w = (Ok tt, w') -> retried i w w'.
Proof.
  intros Hok Hi. destruct (Hok _ _ _ Hi) as [Ht Hn].
  intros (c & w1 & Hc & Hs)%bind_Ok. rewrite (poll_inner_run _ _ _ _ Hi) in Hc.
  apply bind_Ok in Hc as (r & w2 & Hr%on_served_rb & Hc). cbn in Hr.
  destruct (would_block r && negb (is_explicitly_nonblock op)); apply ret_Ok in Hc as [-> ->];
    injection Hs as <-.
  - split; cbn; rewrite ?Hr; cbn; try done.
    + intros j Hj. by rewrite lookup_insert_ne, lookup_delete_ne.
    + unfold in_hand, parked_ids. cbn. rewrite ?Hr. cbn. by rewrite insert_delete_id.
    + unfold parked_ok. cbn. rewrite ?Hr. cbn. rewrite insert_delete_id by done. exact Hok.
  - split; cbn; rewrite ?Hr; cbn; try done.
    + intros j Hj. by rewrite lookup_delete_ne.
    + eapply (in_hand_moved w); [done | | | exact (eq_trans (respond_tag r op) Ht)]; cbn; by rewrite ?Hr.
    + unfold parked_ok. cbn. rewrite ?Hr. cbn. intros j c o [? ?]%lookup_delete_Some. by eapply Hok.
Qed.

Lemma poll_loop_step i ids w :
  poll_loop (i :: ids) w =
    match (poll_request_inner i ≫= settle i) w with
    | (Ok _, w1) => poll_loop ids w1
    | (Err e, w1) => (Err e, w1)
    | (Panic, w1) => (Panic, w1)
    end.
Proof.
  cbn [poll_loop]. unfold settle, mbind, M_bind.
  by destruct (poll_request_inner i w) as [[[] | |] ?].
Qed.

(** The scheme methods that dispatch runs never make the server return an
    error: an error is part of the response. *)
Definition no_err {T A} (m : M T A) : Prop := forall x e, (m x).1 <> Err e.

Lemma no_err_bind {T A B} (m : M T A) (k : A -> M T B) :
  no_err m -> (forall a, no_err (k a)) -> no_err (m ≫= k).
Proof.
  intros Hm Hk x e. unfold mbind, M_bind. specialize (Hm x).
  destruct (m x) as [[] y]; cbn in *; [apply Hk | by destruct (Hm e0) | done].
Qed.
Lemma no_err_ret {T A} (a : A) : no_err (mret a : M T A).
Proof. done. Qed.
Lemma no_err_call {A} (m : M S A) : no_err (call_ m).
Proof. intros x e. unfold call_. by destruct (m x.1) as [[] ?]. Qed.
Lemma no_err_bytes_at sl : no_err (T := S * memory) (bytes_at sl).
Proof.
  intros x e. unfold bytes_at, gets, mbind, M_bind. cbn. by destruct (load _ _ _).
Qed.
Lemma no_err_path_at sl : no_err (T := S * memory) (path_at sl).
Proof. apply no_err_bind; [apply no_err_bytes_at | done]. Qed.
Lemma no_err_with_buf a r : no_err (T := S * memory) (with_buf a r).
Proof. intros x e. by destruct r as [[] | |]. Qed.
Lemma no_err_with_payload a r : no_err (T := S * memory) (with_payload a r).
Proof. intros x e. by destruct r as [[] | |]. Qed.

Lemma no_err_handle op ctx : no_err (handle_sync_dont_consume op ctx).
Proof.
  destruct op; cbn [handle_sync_dont_consume];
    repeat first [ apply no_err_ret | apply no_err_call | apply no_err_bytes_at
                 | apply no_err_path_at | apply no_err_with_buf | apply no_err_with_payload
                 | apply no_err_bind; [| intros ?] | case_match ].
Qed.

Lemma no_err_on_served {A} (m : M (S * memory) A) : no_err m -> no_err (on_served m).
Proof.
  intros Hm w e. unfold on_served. specialize (Hm (served w) e). by destruct (m (served w)).
Qed.

Lemma retry_no_err i w ctx op e :
  states (rb w) !! i = Some (ctx, op) -> ((poll_request_inner i ≫= settle i) w).1 <> Err e.
Proof.
  intros Hi. unfold mbind at 1, M_bind at 1. rewrite (poll_inner_run _ _ _ _ Hi).
  set (m := r ← on_served _; _).
  assert (no_err m) as Hm.
  { apply no_err_bind; [apply no_err_on_served, no_err_handle |]. intros r x e'.
    by destruct (would_block r && negb (is_explicitly_nonblock op)). }
  specialize (Hm {| rb := set_states (delete i (states (rb w))) (rb w); served := served w |} e).
  destruct (m _) as [[c | |] ?]; [by destruct c | cbn in *; congruence | done].
Qed.

Lemma poll_loop_spec ids w :
  parked_ok w -> NoDup ids -> (forall i, i ∈ ids -> is_Some (states (rb w) !! i)) ->
  (forall e, (poll_loop ids w).1 <> Err e) /\
  (forall w', poll_loop ids w = (Ok tt, w') ->
     requests_read (rb w') = requests_read (rb w) /\ in_hand w' ≡ₚ in_hand w /\ parked_ok w').
Proof.
  revert w. induction ids as [| i ids IH]; intros w Hok Hnd Hin.
  { split; [done |]. intros w' [_ ->]%ret_Ok. done. }
  apply NoDup_cons in Hnd as [Hi Hnd]. rewrite !poll_loop_step.
  destruct (Hin i) as [[ctx op] Hs]; [set_solver |].
  pose proof (fun e => retry_no_err i w ctx op e Hs) as Hne.
  destruct ((poll_request_inner i ≫= settle i) w) as [[[] | e |] w1] eqn:E.
  - apply (retry_answers i w w1 ctx op Hok Hs) in E as [Hb Hq Hst Hl Hok1].
    destruct (IH w1) as [IH1 IH2]; [done | done | |].
    { intros j Hj. rewrite Hst; [apply Hin; set_solver | set_solver]. }
    split; [exact IH1 |]. intros w' (Hb2 & Hl2 & Hok2)%IH2.
    split_and!; [congruence | by rewrite Hl2 | done].
  - by destruct (Hne e).
  - done.
Qed.

(** ** The server as a state machine *)

(** What has been read and must be answered, and what has been sent. *)
Record history := { accepted : list Z; sent : list Response }.

Inductive rb_step : Server S * history -> Server S * history -> Prop :=
| step_read w h delivered b w' :
    read_requests delivered w = (Ok b, w') -> rb_step (w, h) (w', h)
| step_process w h w' :
    fresh_batch (requests_read (rb w)) w ->
    process_requests w = (Ok tt, w') ->
    rb_step (w, h) (w', {| accepted := accepted h ++ reply_tags (requests_read (rb w)); sent := sent h |})
| step_poll w h i b w' :
    poll_request i w = (Ok b, w') -> rb_step (w, h) (w', h)
| step_poll_all w h keys w' :
    keys ≡ₚ parked_ids w ->
    poll_all_requests keys w = (Ok tt, w') -> rb_step (w, h) (w', h)
| step_write w h n w' :
    0 <= n -> write_responses (Ok n) w = (Ok true, w') ->
    rb_step (w, h)
      (w', {| accepted := accepted h; sent := sent h ++ take (Z.to_nat n) (responses_to_write (rb w)) |}).

(** A server before its first request. *)
Definition fresh_server (x : S * memory) : Server S := {| rb := ReadinessBased_new; served := x |}.
Definition rb_reachable (w : Server S) (h : history) : Prop :=
  exists x, rtc rb_step (fresh_server x, {| accepted := []; sent := [] |}) (w, h).

Definition ledger_ok (c : Server S * history) : Prop :=
  parked_ok c.1 /\ in_hand c.1 ++ response_tags (sent c.2) ≡ₚ accepted c.2.

Lemma parked_ids_lookup w keys i :
  keys ≡ₚ parked_ids w -> i ∈ keys -> is_Some (states (rb w) !! i).
Proof.
  intros Hk Hi. rewrite Hk in Hi. unfold parked_ids in Hi.
  apply list_elem_of_fmap in Hi as ([j e] & -> & Hj). apply elem_of_map_to_list in Hj. by exists e.
Qed.

Lemma parked_ids_NoDup w : NoDup (parked_ids w).
Proof. apply NoDup_fst_map_to_list. Qed.

Lemma poll_all_run keys w :
  poll_all_requests keys w =
    poll_loop keys {| rb := set_ready_queue [] (set_ready_queue keys (rb w)); served := served w |}.
Proof. done. Qed.

Lemma ledger_step c c' : ledger_ok c -> rb_step c c' -> ledger_ok c'.
Proof.
  intros [Hok Hl] Hs. destruct Hs as [w h d b w' H | w h w' Hf H | w h i b w' H | w h keys w' Hk H | w h n w' Hn H];
    unfold ledger_ok in *; cbn [fst snd accepted sent] in *.
  - assert (states (rb w') = states (rb w) /\ responses_to_write (rb w') = responses_to_write (rb w)) as [Hs Hr].
    { revert H. unfold read_requests. rewrite gets_bind. destruct (requests_read (rb w)); [| done].
      destruct d as [[] | e |]; [by intros [_ ->]%ret_Ok | by intros [= <- <-] | | done].
      destruct (bool_decide _); [by intros [_ ->]%ret_Ok | done]. }
    unfold parked_ok, in_hand, parked_ids in *. by rewrite Hs, Hr.
  - unfold process_requests in H. rewrite gets_bind in H.
    apply process_loop_answers in H as (_ & Hl' & Hok'); [| exact Hok | exact Hf].
    split; [done |]. rewrite Hl'. change (in_hand _) with (in_hand w) at 1.
    rewrite <- Hl, <- !app_assoc. f_equiv. apply Permutation_app_comm.
  - destruct (states (rb w) !! i) as [[ctx op] |] eqn:Ei.
    2: { exfalso. revert H. unfold poll_request, poll_request_inner, mbind, M_bind, gets. by rewrite Ei. }
    assert ((poll_request_inner i ≫= settle i) w = (Ok tt, w')) as H'.
    { revert H. unfold poll_request, settle, mbind, M_bind.
      destruct (poll_request_inner i w) as [[[] | |] ?]; by intros [= <- <-]. }
    apply (retry_answers i w w' ctx op Hok Ei) in H' as [_ _ _ Hl' Hok']. by rewrite Hl'.
  - rewrite poll_all_run in H. edestruct (poll_loop_spec keys) as [_ Hp]; [| | | apply Hp in H as (_ & Hl' & Hok')].
    + exact Hok.
    + rewrite Hk. apply parked_ids_NoDup.
    + intros i Hi. by eapply parked_ids_lookup.
    + rewrite Hl'. done.
  - unfold write_responses in H. rewrite gets_bind in H.
    destruct (zlen _ <? n); [done |]. injection H as <-. split; [exact Hok |].
    rewrite <- Hl. unfold in_hand, response_tags, parked_ids. cbn. rewrite fmap_app.
    rewrite <- !app_assoc. f_equiv.
    set (l := responses_to_write (rb w)). set (k := Z.to_nat n).
    transitivity ((cqe_tag <$> take k l ++ drop k l) ++ (cqe_tag <$> sent h)); [| by rewrite take_drop].
    rewrite fmap_app, (Permutation_app_comm (cqe_tag <$> sent h)), app_assoc. f_equiv.
    apply Permutation_app_comm.
Qed.

Lemma rb_reachable_ledger w h : rb_reachable w h -> ledger_ok (w, h).
Proof.
  intros [x Hr]. eapply rtc_preserves; [exact Hr | apply ledger_step |].
  split; [| done]. intros i c o Hi. cbn in Hi. by rewrite lookup_empty in Hi.
Qed.

(** C1: every request that expects a reply is answered exactly once: in any
    run of the server, whatever the scheme does, the tags of the requests
    processed so far are, each as often as it was submitted, the tags parked,
    queued for sending or already sent. *)
Theorem exactly_one_reply w h :
  rb_reachable w h ->
  parked_ids w ++ response_tags (responses_to_write (rb w)) ++ response_tags (sent h) ≡ₚ accepted h.
Proof. intros [_ Hl]%rb_reachable_ledger. by rewrite app_assoc. Qed.

(** Only requests that may wait are parked, each under its own tag: a
    request with [O_NONBLOCK] is never kept waiting. *)
Theorem parked_may_wait w h i ctx op :
  rb_reachable w h -> states (rb w) !! i = Some (ctx, op) ->
  into_tag op = i /\ is_explicitly_nonblock op = false.
Proof. intros [Hok _]%rb_reachable_ledger. apply Hok. Qed.

(** Retrying the parked requests, in whatever order the map yields
    them, never fails: the [EIO] of a missing id is unreachable. *)
Theorem poll_all_never_fails w h keys e :
  rb_reachable w h -> keys ≡ₚ parked_ids w -> (poll_all_requests keys w).1 <> Err e.
Proof.
  intros [Hok _]%rb_reachable_ledger Hk. rewrite poll_all_run.
  apply poll_loop_spec; [exact Hok | rewrite Hk; apply parked_ids_NoDup |].
  intros i Hi. by eapply parked_ids_lookup.
Qed.

(** Cancelling a parked request answers it with ECANCELED and forgets
    it, without calling the scheme; cancelling any other request does
    nothing. *)
Theorem cancel_parked w h r i :
  rb_reachable w h -> kind r = RK_Cancellation i ->
  process_request r w =
    match states (rb w) !! i with
    | Some _ =>
        (Ok tt, {| rb := set_responses (responses_to_write (rb w) ++ [Response_err ECANCELED i])
                           (set_states (delete i (states (rb w))) (rb w));
                   served := served w |})
    | None => (Ok tt, w)
    end.
Proof.
  intros [Hok _]%rb_reachable_ledger Hk. unfold process_request. rewrite Hk, gets_bind.
  destruct (states (rb w) !! i) as [[ctx op] |] eqn:Ei; [| done].
  destruct (Hok _ _ _ Ei) as [<- _]. done.
Qed.
End ledger.
