(* ===== verification/Ramfs.v ===== *)
(** * ramfs: the RAM filesystem scheme

    Models [ramfs/src/filesystem.rs] and [ramfs/src/scheme.rs].  The inode
    table [Filesystem.files] is a [gmap]; a directory's entries are an
    [IndexMap] (insertion order matters to [getdents] and [fpath]).  Every
    method of [impl SchemeSync for Scheme] that looks at the state is one
    definition, named as in the source.  The clock, the allocator and the
    [fstatvfs] call on [/scheme/memory] are parameters. *)

From stdpp Require Import base gmap strings list fin_maps.
From Stdlib Require Import ZArith Lia.
From Stdlib Require Import Strings.Byte.
From S2P Require Import Prelude Syscall.

Local Open Scope Z_scope.

(** What the scheme asks of its host: whether a [Vec::try_reserve] succeeds
    (length, additional), and [fstatvfs] of the memory scheme. *)
Class RamfsHost := {
  try_reserve : Z -> Z -> bool;
  host_fstatvfs : outcome (Z * Z * Z * Z)
}.

Section ramfs.
Context {TG : Target} {SC : Syscall} {IM : IndexMap} {RH : RamfsHost}.

(** ** Data *)

Inductive FileData :=
| FD_File (data : list u8)
| FD_Directory (entries : imap Z).

Record File := {
  mode : Z; uid : Z; gid : Z; nlink : Z; parent : Z;
  open_handles : Z;
  atime : TimeSpec; ctime : TimeSpec; mtime : TimeSpec;
  data : FileData
}.

Definition set_mode (m : Z) (f : File) : File :=
  {| mode := m; uid := uid f; gid := gid f; nlink := nlink f; parent := parent f;
     open_handles := open_handles f; atime := atime f; ctime := ctime f;
     mtime := mtime f; data := data f |}.
Definition set_owner (u g : Z) (f : File) : File :=
  {| mode := mode f; uid := u; gid := g; nlink := nlink f; parent := parent f;
     open_handles := open_handles f; atime := atime f; ctime := ctime f;
     mtime := mtime f; data := data f |}.
Definition set_nlink (n : Z) (f : File) : File :=
  {| mode := mode f; uid := uid f; gid := gid f; nlink := n; parent := parent f;
     open_handles := open_handles f; atime := atime f; ctime := ctime f;
     mtime := mtime f; data := data f |}.
Definition set_open_handles (n : Z) (f : File) : File :=
  {| mode := mode f; uid := uid f; gid := gid f; nlink := nlink f; parent := parent f;
     open_handles := n; atime := atime f; ctime := ctime f;
     mtime := mtime f; data := data f |}.
Definition set_times (a m : TimeSpec) (f : File) : File :=
  {| mode := mode f; uid := uid f; gid := gid f; nlink := nlink f; parent := parent f;
     open_handles := open_handles f; atime := a; ctime := ctime f;
     mtime := m; data := data f |}.
Definition set_data (d : FileData) (f : File) : File :=
  {| mode := mode f; uid := uid f; gid := gid f; nlink := nlink f; parent := parent f;
     open_handles := open_handles f; atime := atime f; ctime := ctime f;
     mtime := mtime f; data := d |}.

Definition size (d : FileData) : Z :=
  match d with FD_File bytes => zlen bytes | FD_Directory _ => 0 end.

Record Filesystem := { files : gmap Z File; last_inode_number : Z }.

Definition DEFAULT_BLOCK_SIZE : Z := 4096.
Definition ROOT_INODE : Z := 1.

Definition create_root_inode (now : TimeSpec) : File :=
  {| atime := now; ctime := now; mtime := now;
     mode := Z.lor MODE_DIR 0x1ED; nlink := 1; open_handles := 0;
     uid := 0; gid := 0; data := FD_Directory im_new; parent := ROOT_INODE |}.

Definition Filesystem_new (now : TimeSpec) : Filesystem :=
  {| files := {[ROOT_INODE := create_root_inode now]}; last_inode_number := ROOT_INODE |}.

Definition get_block_size : outcome Z :=
  '(_, _, _, f_bsize) ← host_fstatvfs; Ok (f_bsize mod 2 ^ 32).

Definition block_size : Z :=
  match get_block_size with Ok b => b | _ => DEFAULT_BLOCK_SIZE end.

Record Scheme := { scheme_name : string; filesystem : Filesystem }.

Definition Scheme_new (name : string) (now : TimeSpec) : Scheme :=
  {| scheme_name := name; filesystem := Filesystem_new now |}.

Definition set_files (fs : gmap Z File) (s : Scheme) : Scheme :=
  {| scheme_name := scheme_name s;
     filesystem := {| files := fs; last_inode_number := last_inode_number (filesystem s) |} |}.

(** [self.filesystem.files.get_mut(&i).ok_or(Error::new(e))?] *)
Definition file_at (e : errno) (i : Z) : M Scheme File :=
  f ← gets (fun s => files (filesystem s) !! i); ok_or e f.

(** Storing through the [&mut File] obtained for inode [i]. *)
Definition put_file (i : Z) (f : File) : M Scheme unit :=
  modify (fun s => set_files (<[i := f]> (files (filesystem s))) s).

Definition drop_file (i : Z) : M Scheme unit :=
  modify (fun s => set_files (delete i (files (filesystem s))) s).

Definition next_inode_number : M Scheme Z :=
  last ← gets (fun s => last_inode_number (filesystem s));
  next ← ok_or ENFILE (usize_checked_add last 1);
  modify (fun s => {| scheme_name := scheme_name s;
                      filesystem := {| files := files (filesystem s);
                                       last_inode_number := next |} |});;
  mret next.

(** ** Permissions *)

Definition current_perm (file : File) (u g : Z) : Z :=
  let perm := Z.land (mode file) MODE_PERM in
  if u =? 0 then 7
  else if u =? uid file then Z.shiftr (Z.land perm 0x1C0) 6
  else if g =? gid file then Z.shiftr (Z.land perm 0x38) 3
  else Z.land perm 7.

Definition check_permissions (flags single_mode : Z) : outcome unit :=
  if (Z.land flags O_ACCMODE =? O_RDONLY) && (Z.land single_mode 4 =? 0) then Err EACCES
  else if (Z.land flags O_ACCMODE =? O_WRONLY) && (Z.land single_mode 2 =? 0) then Err EACCES
  else if (Z.land flags O_ACCMODE =? O_RDWR) && negb (Z.land single_mode 6 =? 6) then Err EACCES
  else Ok tt.

(** ** Path resolution *)

Definition path_components_iter (s : string) : list string :=
  filter (fun item => str_is_empty item = false) (split_char slash s).

Definition is_dot (part : string) : bool :=
  bool_decide (part = "."%string) || bool_decide (part = ".."%string).

(** One turn of the [loop] of [resolve_generic], the current position being
    component [i] of [parts] at the file [current]: the next [parts], [i],
    inode and file. *)
Definition resolve_step (fs : Filesystem) (u g : Z) (parts : list string) (i : nat)
    (part : string) (current : File) : outcome (list string * nat * Z * File) :=
  match data current with
  | FD_File _ => Err ENOENT
  | FD_Directory dentries =>
      if Z.land (current_perm current u g) 1 =? 0 then Err EACCES else
      let parts := if is_dot part then delete i parts else parts in
      part ← o_unwrap (parts !! i);
      let back := bool_decide (part = ".."%string) && bool_decide (0 < i)%nat in
      let i := if back then (i - 1)%nat else i in
      let parts := if back then delete i parts else parts in
      part ← o_unwrap (parts !! i);
      ino ← o_ok_or ENOENT (im_get part dentries);
      file ← o_ok_or EIO (files fs !! ino);
      Ok (parts, S i, ino, file)
  end.

(** The [loop]; [None] when the fuel runs out. *)
Fixpoint resolve_loop (fs : Filesystem) (u g : Z) (fuel : nat) (parts : list string)
    (i : nat) (ino : Z) (current : File) : option (outcome Z) :=
  match fuel with
  | O => None
  | S fuel =>
      match parts !! i with
      | None => Some (Ok ino)
      | Some part =>
          match resolve_step fs u g parts i part current with
          | Ok (parts, i, ino, current) => resolve_loop fs u g fuel parts i ino current
          | Err e => Some (Err e)
          | Panic => Some Panic
          end
      end
  end.

Definition resolve_generic (fs : Filesystem) (parts : list string) (u g : Z) : outcome Z :=
  root ← o_ok_or ENOENT (files fs !! ROOT_INODE);
  match resolve_loop fs u g (S (length parts)) parts 0 ROOT_INODE root with
  | Some r => r
  | None => Panic
  end.

Definition resolve_except_last (fs : Filesystem) (path : string) (u g : Z)
    : outcome (Z * option string) :=
  let parts := path_components_iter (trim_start_matches slash path) in
  ino ← resolve_generic fs (removelast parts) u g;
  Ok (ino, last parts).

Definition resolve (fs : Filesystem) (path : string) (u g : Z) : outcome Z :=
  resolve_generic fs (path_components_iter (trim_start_matches slash path)) u g.

(** ** Removing a directory entry *)

Definition im_is_empty {V} (m : imap V) : bool := bool_decide (im_iter m = []).

(** [parent.nlink -= 1], [removed_inode_info.nlink -= n] *)
Definition nlink_sub (i n : Z) (e : errno) : M Scheme unit :=
  f ← file_at e i;
  l ← usize_sub (nlink f) n;
  put_file i (set_nlink l f).

(** The block that computes [removed_inode]: the entry leaves the parent
    before its kind is looked at. *)
Definition take_dentry (path : string) (u g : Z) (directory : bool) : M Scheme Z :=
  fs ← gets filesystem;
  '(parent_dir_inode, name) ← lift (resolve_except_last fs path u g);
  name_to_delete ← ok_or EINVAL name;
  parent ← file_at EIO parent_dir_inode;
  fail_if (Z.land (current_perm parent u g) 2 =? 0) EACCES;;
  match data parent with
  | FD_File _ => throw ENOTDIR
  | FD_Directory dentries =>
      entry_inode ← ok_or ENOENT (im_get name_to_delete dentries);
      put_file parent_dir_inode
        (set_data (FD_Directory (im_shift_remove name_to_delete dentries)) parent);;
      entry ← gets (fun s => files (filesystem s) !! entry_inode);
      match entry with
      | Some f =>
          match data f with
          | FD_Directory entries =>
              fail_if (negb directory) EISDIR;;
              fail_if (negb (im_is_empty entries)) ENOTEMPTY;;
              nlink_sub parent_dir_inode 1 EIO
          | FD_File _ => mret tt
          end
      | None => mret tt
      end;;
      mret entry_inode
  end.

Definition remove_dentry (path : string) (u g : Z) (directory : bool) : M Scheme unit :=
  removed_inode ← take_dentry path u g directory;
  info ← file_at EIO removed_inode;
  match data info with
  | FD_File _ => fail_if directory EISDIR;; nlink_sub removed_inode 1 EIO
  | FD_Directory _ => fail_if (negb directory) ENOTDIR;; nlink_sub removed_inode 2 EIO
  end;;
  info ← file_at EIO removed_inode;
  if (nlink info =? 0) && (open_handles info =? 0) then drop_file removed_inode else mret tt.

(** ** Opening *)

Definition open_existing (path : string) (flags u g : Z) : M Scheme Z :=
  fs ← gets filesystem;
  inode ← lift (resolve fs path u g);
  file ← file_at EIO inode;
  fail_if (negb (any_set flags O_STAT) && any_set flags O_DIRECTORY
           && negb (Z.land (mode file) MODE_TYPE =? MODE_DIR)) ENOTDIR;;
  fail_if (negb (any_set flags O_STAT) && negb (any_set flags O_DIRECTORY)
           && (Z.land (mode file) MODE_TYPE =? MODE_DIR)) EISDIR;;
  lift (check_permissions flags (current_perm file u g));;
  let opened_as_write := (Z.land flags O_ACCMODE =? O_WRONLY) || (Z.land flags O_ACCMODE =? O_RDWR) in
  (if all_set flags O_TRUNC && opened_as_write then
     match data file with
     | FD_Directory _ => throw EBADFD
     | FD_File _ => put_file inode (set_data (FD_File []) file)
     end
   else mret tt);;
  file ← file_at EIO inode;
  n ← usize_add (open_handles file) 1;
  put_file inode (set_open_handles n file);;
  mret inode.

(** The [File] that an open with [O_CREAT] stores, or [EINVAL] when the type
    bits in the flags contradict [O_DIRECTORY]. *)
Definition new_inode (flags : Z) (ctx : CallerCtx) (now : TimeSpec) (parent_dir_inode : Z)
    : outcome File :=
  let m := Z.land flags 0xFFFF in
  if any_set flags O_DIRECTORY then
    let m := if Z.land m MODE_TYPE =? 0 then Z.lor m MODE_DIR else m in
    if negb (Z.land m MODE_TYPE =? MODE_DIR) then Err EINVAL
    else Ok {| atime := now; ctime := now; mtime := now; gid := ctx_gid ctx; uid := ctx_uid ctx;
               mode := m; nlink := 2; data := FD_Directory im_new; open_handles := 1;
               parent := parent_dir_inode |}
  else
    let m := if Z.land m MODE_TYPE =? 0 then Z.lor m MODE_FILE else m in
    if Z.land m MODE_TYPE =? MODE_DIR then Err EINVAL
    else Ok {| atime := now; ctime := now; mtime := now; gid := ctx_gid ctx; uid := ctx_uid ctx;
               mode := m; nlink := 1; data := FD_File []; open_handles := 1;
               parent := parent_dir_inode |}.

(** The [O_CREAT] branch of [open] for a path that does not resolve. *)
Definition create (path : string) (flags : Z) (ctx : CallerCtx) (now : TimeSpec) : M Scheme Z :=
  fail_if (any_set flags O_STAT) EINVAL;;
  fs ← gets filesystem;
  '(parent_dir_inode, name) ← lift (resolve_except_last fs path (ctx_uid ctx) (ctx_gid ctx));
  new_name ← ok_or EINVAL name;
  new_inode_number ← next_inode_number;
  f ← lift (new_inode flags ctx now parent_dir_inode);
  lift (check_permissions flags (current_perm f (ctx_uid ctx) (ctx_gid ctx)));;
  put_file new_inode_number f;;
  parent_file ← file_at EIO parent_dir_inode;
  match data parent_file with
  | FD_File _ => throw EIO
  | FD_Directory entries =>
      put_file parent_dir_inode
        (set_data (FD_Directory (im_insert new_name new_inode_number entries)) parent_file)
  end;;
  mret new_inode_number.

Definition open (path : string) (flags : Z) (ctx : CallerCtx) (now : TimeSpec)
    : M Scheme OpenResult :=
  fs ← gets filesystem;
  exists_ ← match resolve fs path 0 0 with Panic => panic | r => mret (is_ok r) end;
  fail_if (any_set flags O_CREAT && any_set flags O_EXCL && exists_) EEXIST;;
  inode ← (if any_set flags O_CREAT && exists_
           then open_existing path flags (ctx_uid ctx) (ctx_gid ctx)
           else if any_set flags O_CREAT then create path flags ctx now
           else open_existing path flags (ctx_uid ctx) (ctx_gid ctx));
  mret (ThisScheme inode fd_POSITIONED).

Definition unlinkat (dirfd : Z) (path : string) (flags : Z) (ctx : CallerCtx) : M Scheme unit :=
  _ ← file_at EBADFD dirfd;
  remove_dentry path (ctx_uid ctx) (ctx_gid ctx) (all_set flags AT_REMOVEDIR).

(** ** Reading and writing *)

Definition read (inode : Z) (buf : list u8) (offset fcntl_flags : Z) : M Scheme (Z * list u8) :=
  match usize_try_from offset with
  | None => mret (0, buf)
  | Some offset =>
      file ← file_at EBADFD inode;
      let acc := Z.land fcntl_flags O_ACCMODE in
      fail_if (negb ((acc =? O_RDONLY) || (acc =? O_RDWR))) EBADF;;
      match data file with
      | FD_File bytes =>
          fail_if (Z.land (mode file) MODE_TYPE =? MODE_DIR) EBADFD;;
          let src_bytes := drop (Z.to_nat offset) bytes in
          let bytes_to_read := common_len buf src_bytes in
          mret (Z.of_nat bytes_to_read, copy_prefix bytes_to_read src_bytes buf)
      | FD_Directory _ => throw EISDIR
      end
  end.

(** The [for] loop over the entries, against the [DirentBuf::entry] of the
    caller's buffer type. *)
Fixpoint emit_dents {B} (entry : B -> DirEntry -> outcome B) (i : Z)
    (dents : list (string * Z)) (buf : B) : outcome B :=
  match dents with
  | [] => Ok buf
  | (dent_name, dent_inode) :: rest =>
      buf ← entry buf {| de_inode := dent_inode; de_name := dent_name;
                         de_next_opaque_id := i + 1 |};
      emit_dents entry (i + 1) rest buf
  end.

Definition getdents {B} (entry : B -> DirEntry -> outcome B) (inode : Z) (buf : B)
    (opaque_offset : Z) : M Scheme B :=
  match usize_try_from opaque_offset with
  | None => mret buf
  | Some offset =>
      file ← file_at EBADFD inode;
      match data file with
      | FD_File _ => throw ENOTDIR
      | FD_Directory dir =>
          lift (emit_dents entry offset (drop (Z.to_nat offset) (im_iter dir)) buf)
      end
  end.

Definition write (inode : Z) (buf : list u8) (offset : Z) : M Scheme Z :=
  match usize_try_from offset with
  | None => mret 0
  | Some offset =>
      file ← file_at EBADFD inode;
      match data file with
      | FD_File bytes =>
          fail_if (Z.land (mode file) MODE_TYPE =? MODE_DIR) EBADFD;;
          end_off ← ok_or EOVERFLOW (usize_checked_add offset (zlen buf));
          bytes ← (if zlen bytes <? end_off then
                     fail_if (negb (try_reserve (zlen bytes) (end_off - zlen bytes))) ENOMEM;;
                     mret (resize (Z.to_nat end_off) x00 bytes)
                   else mret bytes);
          put_file inode (set_data (FD_File (splice (Z.to_nat offset) buf bytes)) file);;
          mret (zlen buf)
      | FD_Directory _ => throw EISDIR
      end
  end.

Definition ftruncate (inode : Z) (sz : Z) : M Scheme unit :=
  file ← file_at EBADFD inode;
  fail_if (Z.land (mode file) MODE_TYPE =? MODE_DIR) EISDIR;;
  sz ← ok_or EOVERFLOW (usize_try_from sz);
  match data file with
  | FD_File bytes =>
      fail_if ((zlen bytes <? sz) && negb (try_reserve (zlen bytes) (sz - zlen bytes))) ENOMEM;;
      put_file inode (set_data (FD_File (resize (Z.to_nat sz) x00 bytes)) file)
  | FD_Directory _ => throw EBADFD
  end.

(** ** Metadata *)

Definition fchmod (inode m : Z) : M Scheme unit :=
  file ← file_at EBADFD inode;
  let cur_type := Z.land (mode file) MODE_TYPE in
  put_file inode (set_mode (Z.lor m cur_type) file).

Definition fchown (inode u g : Z) : M Scheme unit :=
  file ← file_at EBADFD inode;
  put_file inode (set_owner u g file).

Definition futimens (inode : Z) (times : list TimeSpec) : M Scheme unit :=
  file ← file_at EBADFD inode;
  new_atime ← ok_or EINVAL (times !! 0%nat);
  new_mtime ← ok_or EINVAL (times !! 1%nat);
  put_file inode (set_times new_atime new_mtime file).

Definition fcntl (inode cmd arg : Z) : M Scheme Z := mret 0.
Definition fevent (inode flags : Z) : M Scheme Z := throw ENOSYS.
Definition mmap_prep (inode offset sz flags : Z) : M Scheme Z := throw ENOSYS.
Definition frename (inode : Z) (path : string) : M Scheme Z := throw ENOSYS.
Definition fsync (inode : Z) : M Scheme unit := mret tt.

Definition next_multiple_of (x y : Z) : outcome Z :=
  if y =? 0 then Panic
  else let r := x mod y in
       let z := if r =? 0 then x else x + (y - r) in
       if z <? 2 ^ 64 then Ok z
       else if overflow_checks then Panic else Ok (z mod 2 ^ 64).

Definition fstat (inode : Z) : M Scheme Stat :=
  file ← file_at EBADFD inode;
  let sz := size (data file) in
  ino ← ok_or EOVERFLOW (try_into_bits st_ino_bits inode);
  nl ← ok_or EOVERFLOW (try_into_bits st_nlink_bits (nlink file));
  blocks ← lift (next_multiple_of sz block_size);
  at_s ← ok_or EOVERFLOW (try_into_bits st_time_bits (tv_sec (atime file)));
  at_n ← ok_or EOVERFLOW (try_into_bits st_nsec_bits (tv_nsec (atime file)));
  ct_s ← ok_or EOVERFLOW (try_into_bits st_time_bits (tv_sec (ctime file)));
  ct_n ← ok_or EOVERFLOW (try_into_bits st_nsec_bits (tv_nsec (ctime file)));
  mt_s ← ok_or EOVERFLOW (try_into_bits st_time_bits (tv_sec (mtime file)));
  mt_n ← ok_or EOVERFLOW (try_into_bits st_nsec_bits (tv_nsec (mtime file)));
  mret {| st_mode := mode file; st_uid := uid file; st_gid := gid file;
          st_ino := ino; st_nlink := nl; st_dev := 0;
          st_size := sz; st_blksize := block_size; st_blocks := blocks;
          st_atime := at_s; st_atime_nsec := at_n;
          st_ctime := ct_s; st_ctime_nsec := ct_n;
          st_mtime := mt_s; st_mtime_nsec := mt_n |}.

Definition fstatvfs (inode : Z) : M Scheme (Z * Z * Z * Z) :=
  '(f_bavail, f_bfree, f_blocks, f_bsize) ← lift host_fstatvfs;
  mret (f_bavail mod 2 ^ 64, f_bfree mod 2 ^ 64, f_blocks mod 2 ^ 64, f_bsize mod 2 ^ 32).

(** ** The path of an inode *)

(** [dir.iter().find(|(_, inode)| inode.0 == ino)] *)
Fixpoint find_name (ino : Z) (l : list (string * Z)) : option string :=
  match l with
  | [] => None
  | (name, i) :: l' => if i =? ino then Some name else find_name ino l'
  end.

(** The [while] loop: the names from [ino] up to the root, innermost first;
    [None] when the fuel runs out. *)
Fixpoint fpath_loop (fs : Filesystem) (fuel : nat) (ino : Z) (info : File)
    (chain : list string) : option (outcome (list string)) :=
  match fuel with
  | O => None
  | S fuel =>
      if ino =? ROOT_INODE then Some (Ok chain)
      else match files fs !! parent info with
           | None => Some (Err EBADFD)
           | Some parent_info =>
               match data parent_info with
               | FD_File _ => Some (Err EBADFD)
               | FD_Directory dir =>
                   match find_name ino (im_iter dir) with
                   | None => Some (Err ENOENT)
                   | Some name =>
                       fpath_loop fs fuel (parent info) parent_info (chain ++ [name])
                   end
               end
           end
  end.

(** [write!(cursor, "/{component}").unwrap()] for each component. *)
Fixpoint write_components (comps : list string) (pos : nat) (buf : list u8)
    : outcome (nat * list u8) :=
  match comps with
  | [] => Ok (pos, buf)
  | c :: comps =>
      let '(pos, buf, ok1) := cursor_write_all pos (as_bytes "/"%string) buf in
      if negb ok1 then Panic else
      let '(pos, buf, ok2) := cursor_write_all pos (as_bytes c) buf in
      if negb ok2 then Panic else write_components comps pos buf
  end.

(** The fuel [Z.to_nat current_inode] is enough when every inode's parent
    has a smaller number ([fpath_terminates] below). *)
Definition fpath (current_inode : Z) (buf : list u8) : M Scheme (Z * list u8) :=
  s ← gets id;
  info ← file_at EBADFD current_inode;
  chain ← lift (match fpath_loop (filesystem s) (S (Z.to_nat current_inode))
                        current_inode info [] with
                | Some r => r
                | None => Panic
                end);
  '(pos, buf) ← lift (write_components (trim_start_matches slash (scheme_name s) :: rev chain) 0 buf);
  mret (Z.of_nat pos, buf).

(** ** Closing *)

Definition on_close (inode : Z) : M Scheme unit :=
  info ← gets (fun s => files (filesystem s) !! inode);
  match info with
  | None => mret tt
  | Some info =>
      n ← usize_sub (open_handles info) 1;
      put_file inode (set_open_handles n info);;
      if (nlink info =? 0) && (n =? 0) then drop_file inode else mret tt
  end.
End ramfs.
