(* ===== verification/RamfsFacts.v ===== *)
(** * ramfs: correctness

    Path resolution against a declarative walk, the inode-table invariant and
    its preservation by every operation, file contents under write, truncate
    and read, creation and removal of entries, termination of the two loops. *)

From stdpp Require Import base gmap strings list fin_maps.
From Stdlib Require Import ZArith Lia.
From Stdlib Require Import Strings.Byte.
From S2P Require Import Prelude Syscall Ramfs.

Local Open Scope Z_scope.

Section facts.
Context {TG : Target} {SC : Syscall} {IM : IndexMap} {IML : IndexMapLaws IM} {RH : RamfsHost}.

(** ** Specification of path resolution

    [walk fs u g i parts k]: following [parts] from inode [i] leads to [k],
    through directories that [u], [g] may search. *)
Inductive walk (fs : Filesystem) (u g : Z) : Z -> list string -> Z -> Prop :=
| walk_nil i f : files fs !! i = Some f -> walk fs u g i [] i
| walk_cons i f entries part rest j k :
    files fs !! i = Some f ->
    data f = FD_Directory entries ->
    Z.land (current_perm f u g) 1 <> 0 ->
    im_get part entries = Some j ->
    walk fs u g j rest k ->
    walk fs u g i (part :: rest) k.

Definition plain (parts : list string) : Prop := Forall (fun p => is_dot p = false) parts.

(** ** The inode-table invariant

    Inode numbers lie in [1..last_inode_number]; a parent pointer leads to a
    smaller number; a directory entry leads to a larger number already
    given out.  So a fresh number is unreferenced, and both directions of the
    tree are acyclic. *)
Record fs_wf (fs : Filesystem) : Prop := {
  wf_keys : forall i f, files fs !! i = Some f -> ROOT_INODE <= i <= last_inode_number fs;
  wf_parent : forall i f, files fs !! i = Some f -> i <> ROOT_INODE -> 1 <= parent f < i;
  wf_dentry : forall i f entries name j,
    files fs !! i = Some f -> data f = FD_Directory entries ->
    im_get name entries = Some j -> i < j <= last_inode_number fs;
  wf_last : last_inode_number fs < usize_mod
}.

Definition wf (s : Scheme) : Prop := fs_wf (filesystem s).

(** ** Resolution loop *)

Lemma resolve_step_measure fs u g parts i part cur parts' i' ino' cur' :
  parts !! i = Some part ->
  resolve_step fs u g parts i part cur = Ok (parts', i', ino', cur') ->
  (length parts' - i' < length parts - i)%nat /\ files fs !! ino' = Some cur'.
Proof.
  intros Hi%lookup_lt_Some. unfold resolve_step, mbind, outcome_bind, o_unwrap, o_ok_or.
  destruct (data cur); [done |]. case_match; [done |].
  set (p1 := if is_dot part then delete i parts else parts).
  assert (length p1 <= length parts)%nat as Hp1.
  { unfold p1. destruct (is_dot part); [| lia].
    rewrite length_delete by (apply lookup_lt_is_Some; lia). lia. }
  destruct (p1 !! i) as [part1 |] eqn:E1; [| done].
  apply lookup_lt_Some in E1 as Hlt1.
  destruct (bool_decide (part1 = ".."%string) && bool_decide (0 < i)%nat) eqn:Eb.
  - apply andb_prop in Eb as [_ Hpos%bool_decide_eq_true].
    assert (length (delete (i - 1) p1) = length p1 - 1)%nat as Hd.
    { rewrite length_delete by (apply lookup_lt_is_Some; lia). lia. }
    repeat case_match; intros; simplify_eq/=; split; [lia | done].
  - repeat case_match; intros; simplify_eq/=; split; [lia | done].
Qed.

Lemma resolve_loop_total fs u g fuel parts i ino cur :
  (length parts - i < fuel)%nat -> resolve_loop fs u g fuel parts i ino cur <> None.
Proof.
  revert parts i ino cur. induction fuel as [| fuel IH]; intros parts i ino cur Hf; [lia |].
  simpl. destruct (parts !! i) as [part |] eqn:Ei; [| done].
  destruct (resolve_step fs u g parts i part cur) as [[[[parts' i'] ino'] cur'] | e |] eqn:Es;
    [| done | done].
  apply IH. pose proof (resolve_step_measure _ _ _ _ _ _ _ _ _ _ _ Ei Es). lia.
Qed.

Lemma resolve_loop_exists fs u g fuel parts i ino cur k :
  files fs !! ino = Some cur ->
  resolve_loop fs u g fuel parts i ino cur = Some (Ok k) -> is_Some (files fs !! k).
Proof.
  revert parts i ino cur. induction fuel as [| fuel IH]; intros parts i ino cur Hc; [done |].
  simpl. destruct (parts !! i) as [part |] eqn:Ei; [| intros [= ->]; eauto].
  destruct (resolve_step fs u g parts i part cur) as [[[[parts' i'] ino'] cur'] | e |] eqn:Es;
    [| done | done].
  apply IH. by eapply resolve_step_measure.
Qed.

Lemma resolve_step_plain fs u g parts i part cur :
  parts !! i = Some part -> is_dot part = false ->
  resolve_step fs u g parts i part cur =
    match data cur with
    | FD_File _ => Err ENOENT
    | FD_Directory dentries =>
        if Z.land (current_perm cur u g) 1 =? 0 then Err EACCES
        else match im_get part dentries with
             | None => Err ENOENT
             | Some ino =>
                 match files fs !! ino with
                 | None => Err EIO
                 | Some file => Ok (parts, S i, ino, file)
                 end
             end
    end.
Proof.
  intros Hi Hd. unfold resolve_step, mbind, outcome_bind, o_unwrap, o_ok_or.
  rewrite Hd, Hi. apply orb_false_elim in Hd as [_ Hdd]. rewrite Hdd. simpl.
  destruct (data cur); [done |]. case_match; [done |]. rewrite Hi.
  destruct (im_get part entries); [| done]. by destruct (files fs !! z).
Qed.

Lemma resolve_loop_walk fs u g fuel parts i ino cur k :
  (length parts - i < fuel)%nat -> plain parts -> files fs !! ino = Some cur ->
  resolve_loop fs u g fuel parts i ino cur = Some (Ok k) <->
  walk fs u g ino (drop i parts) k.
Proof.
  revert i ino cur. induction fuel as [| fuel IH]; intros i ino cur Hf Hp Hc; [lia |].
  simpl. destruct (parts !! i) as [part |] eqn:Ei.
  - apply lookup_lt_Some in Ei as Hlt. rewrite (drop_S _ _ _ Ei).
    rewrite (resolve_step_plain _ _ _ _ _ _ _ Ei) by (exact (Forall_lookup_1 _ _ _ _ Hp Ei)).
    split.
    + destruct (data cur) eqn:Ed; [done |]. 
      destruct (Z.land (current_perm cur u g) 1 =? 0) eqn:Ex; [done |].
      destruct (im_get part entries) as [j |] eqn:Eg; [| done].
      destruct (files fs !! j) as [f |] eqn:Ef; [| done].
      intros Hr. apply IH in Hr; [| lia | done | done].
      econstructor; eauto. lia.
    + intros Hw. inversion Hw as [| ? f entries ? ? j ? Hf1 Hd1 Hx1 Hg1 Hw1]; subst.
      rewrite Hc in Hf1. injection Hf1 as <-. rewrite Hd1.
      rewrite (proj2 (Z.eqb_neq _ _) Hx1), Hg1.
      assert (exists f1, files fs !! j = Some f1) as [f1 Hf1] by (inversion Hw1; eauto).
      rewrite Hf1. apply IH; [lia | done | done | done].
  - apply lookup_ge_None in Ei. rewrite drop_ge by done. split.
    + intros [= ->]. by econstructor.
    + intros Hw. by inversion Hw.
Qed.

Lemma resolve_generic_walk fs parts u g k :
  plain parts -> resolve_generic fs parts u g = Ok k <-> walk fs u g ROOT_INODE parts k.
Proof.
  intros Hp. unfold resolve_generic, mbind, outcome_bind, o_ok_or.
  destruct (files fs !! ROOT_INODE) as [root |] eqn:Er.
  - rewrite <- (resolve_loop_walk fs u g (S (length parts)) parts 0 ROOT_INODE root k);
      [| lia | done | done].
    pose proof (resolve_loop_total fs u g (S (length parts)) parts 0 ROOT_INODE root).
    destruct (resolve_loop fs u g (S (length parts)) parts 0 ROOT_INODE root); naive_solver lia.
  - split; [done |]. intros Hw. inversion Hw; congruence.
Qed.

Lemma resolve_generic_exists fs parts u g k :
  resolve_generic fs parts u g = Ok k -> is_Some (files fs !! k).
Proof.
  unfold resolve_generic, mbind, outcome_bind, o_ok_or.
  destruct (files fs !! ROOT_INODE) as [root |] eqn:Er; [| done].
  destruct (resolve_loop fs u g (S (length parts)) parts 0 ROOT_INODE root) eqn:El; [| done].
  intros ->. by eapply resolve_loop_exists.
Qed.

Lemma resolve_except_last_exists fs path u g k name :
  resolve_except_last fs path u g = Ok (k, name) -> is_Some (files fs !! k).
Proof.
  unfold resolve_except_last, mbind, outcome_bind.
  destruct (resolve_generic _ _ _ _) eqn:E; [| done | done].
  intros [= <- <-]. by eapply resolve_generic_exists.
Qed.

(** ** Preservation of the invariant *)

Lemma Scheme_new_wf name now : wf (Scheme_new name now).
Proof.
  pose proof usize_mod_ge. split; simpl; unfold ROOT_INODE.
  - intros i f [<- <-]%lookup_singleton_Some. lia.
  - intros i f [<- <-]%lookup_singleton_Some. done.
  - intros i f entries name' j [<- <-]%lookup_singleton_Some. simpl.
    intros [= <-]. by rewrite im_get_new.
  - lia.
Qed.

(** Replacing a file keeps the invariant when the parent pointer is kept and
    the new directory entries are sound. *)
Lemma wf_put s i f f' :
  wf s -> files (filesystem s) !! i = Some f -> parent f' = parent f ->
  (forall entries name j, data f' = FD_Directory entries -> im_get name entries = Some j ->
     i < j <= last_inode_number (filesystem s)) ->
  wf (set_files (<[i := f']> (files (filesystem s))) s).
Proof.
  intros [Hk Hp Hd Hl] Hi Hpar Hent. split; simpl; [| | | done].
  - intros j h [[<- <-] | [? ?]]%lookup_insert_Some; eauto.
  - intros j h [[<- <-] | [? ?]]%lookup_insert_Some; [| eauto]. rewrite Hpar. eauto.
  - intros j h entries name k [[<- <-] | [? ?]]%lookup_insert_Some; eauto.
Qed.

(** The common case: the data is untouched, or is not a directory. *)
Lemma wf_put_same s i f f' :
  wf s -> files (filesystem s) !! i = Some f -> parent f' = parent f -> data f' = data f ->
  wf (set_files (<[i := f']> (files (filesystem s))) s).
Proof.
  intros Hw Hi Hp Hd. eapply wf_put; eauto. intros entries name j He.
  rewrite Hd in He. intros. by eapply wf_dentry.
Qed.

Lemma wf_put_file s i f f' bytes :
  wf s -> files (filesystem s) !! i = Some f -> parent f' = parent f -> data f' = FD_File bytes ->
  wf (set_files (<[i := f']> (files (filesystem s))) s).
Proof. intros Hw Hi Hp Hd. eapply wf_put; eauto. intros. congruence. Qed.

Lemma wf_drop s i : wf s -> wf (set_files (delete i (files (filesystem s))) s).
Proof.
  intros [Hk Hp Hd Hl].
  split; simpl; [| | | done]; intros * [? ?]%lookup_delete_Some; eauto.
Qed.

Lemma wp_file_at e i Q s :
  (forall f, files (filesystem s) !! i = Some f -> Q (Ok f) s) ->
  (files (filesystem s) !! i = None -> Q (Err e) s) ->
  wp (file_at e i) Q s.
Proof. intros. unfold file_at. repeat wp_step; auto. Qed.

Lemma wp_put_file i f Q s :
  Q (Ok tt) (set_files (<[i := f]> (files (filesystem s))) s) -> wp (put_file i f) Q s.
Proof. done. Qed.

Lemma wp_drop_file i Q s :
  Q (Ok tt) (set_files (delete i (files (filesystem s))) s) -> wp (drop_file i) Q s.
Proof. done. Qed.
End facts.

Ltac rwp_step :=
  match goal with
  | |- wp (file_at _ _) _ _ => apply wp_file_at; [intros ? ? | intros ?]
  | |- wp (put_file _ _) _ _ => apply wp_put_file
  | |- wp (drop_file _) _ _ => apply wp_drop_file
  | _ => wp_step
  end.
Ltac rwp := repeat (rwp_step; try done).

Section preservation.
Context {TG : Target} {SC : Syscall} {IM : IndexMap} {IML : IndexMapLaws IM} {RH : RamfsHost}.

Hint Resolve wf_put_same wf_put_file wf_drop : scheme.

Lemma nlink_sub_keeps i n e : keeps wf (nlink_sub i n e).
Proof. intros s Hw. unfold nlink_sub. rwp; eapply wf_put_same; eauto. Qed.

Lemma wf_put_removed s i f entries name :
  wf s -> files (filesystem s) !! i = Some f -> data f = FD_Directory entries ->
  wf (set_files (<[i := set_data (FD_Directory (im_shift_remove name entries)) f]>
                   (files (filesystem s))) s).
Proof.
  intros Hw Hi Hd. eapply wf_put; eauto. intros entries' name' j [= <-].
  rewrite im_get_shift_remove. case_decide; [done |]. intros. by eapply wf_dentry.
Qed.

Lemma take_dentry_keeps path u g d : keeps wf (take_dentry path u g d).
Proof.
  intros s Hw. unfold take_dentry. rwp; try (eapply wf_put_removed; by eauto).
  apply (wp_keeps wf); [apply nlink_sub_keeps | by eapply wf_put_removed |].
  intros [] ? ?; [apply wp_ret | |]; done.
Qed.

Lemma remove_dentry_keeps path u g d : keeps wf (remove_dentry path u g d).
Proof.
  intros s Hw. unfold remove_dentry. apply wp_bind.
  apply (wp_keeps wf); [apply take_dentry_keeps | done |].
  intros [ino | |] s1 Hw1; [| done | done]. rwp;
    (apply (wp_keeps wf); [apply nlink_sub_keeps | done |]);
    intros [] s2 Hw2; try done; rwp; by apply wf_drop.
Qed.

Ltac wf_solve :=
  first [ done
        | eapply wf_put_same; [wf_solve | eassumption | reflexivity | reflexivity]
        | eapply wf_put_file; [wf_solve | eassumption | reflexivity | reflexivity]
        | apply wf_drop; wf_solve ].

Lemma open_existing_keeps path flags u g : keeps wf (open_existing path flags u g).
Proof. intros s Hw. unfold open_existing. rwp; wf_solve. Qed.

(** Giving out the next number keeps the invariant, and the number is
    greater than every number in use. *)
Lemma fs_wf_bump fs n :
  fs_wf fs -> last_inode_number fs <= n < usize_mod ->
  fs_wf {| files := files fs; last_inode_number := n |}.
Proof.
  intros [Hk Hp Hd Hl] Hn. split; simpl; [| done | | lia].
  - intros i f Hi. specialize (Hk _ _ Hi). lia.
  - intros i f entries name j Hi He Hg. specialize (Hd _ _ _ _ _ Hi He Hg). lia.
Qed.

Lemma wp_next_inode_number Q s :
  wf s ->
  (forall s' n, wf s' -> n = last_inode_number (filesystem s) + 1 ->
     s' = {| scheme_name := scheme_name s;
             filesystem := {| files := files (filesystem s); last_inode_number := n |} |} ->
     Q (Ok n) s') ->
  Q (Err ENFILE) s ->
  wp next_inode_number Q s.
Proof.
  intros Hw HQ HE. unfold next_inode_number, usize_checked_add. rwp.
  case_match; simplify_eq. eapply HQ; [| done | done].
  apply fs_wf_bump; [done | lia].
Qed.

(** Adding a file under a number above every number in the table. *)
Lemma wf_put_new s n f :
  wf s -> n = last_inode_number (filesystem s) -> ROOT_INODE <= n ->
  1 <= parent f < n -> (forall entries, data f = FD_Directory entries -> entries = im_new) ->
  wf (set_files (<[n := f]> (files (filesystem s))) s).
Proof.
  intros [Hk Hp Hd Hl] Hn Hr Hpar Hnew. split; simpl; [| | | done].
  - intros j h [[<- <-] | [? ?]]%lookup_insert_Some; [lia | eauto].
  - intros j h [[<- <-] | [? ?]]%lookup_insert_Some; eauto.
  - intros j h entries name k [[<- <-] | [? ?]]%lookup_insert_Some; [| eauto].
    intros ->%Hnew. by rewrite im_get_new.
Qed.

Lemma new_inode_shape flags ctx now p f :
  new_inode flags ctx now p = Ok f ->
  parent f = p /\ open_handles f = 1 /\ (data f = FD_File [] \/ data f = FD_Directory im_new).
Proof. unfold new_inode. repeat case_match; intros; simplify_eq/=; auto. Qed.

Lemma create_keeps path flags ctx now : keeps wf (create path flags ctx now).
Proof.
  intros s Hw. unfold create. rwp. simplify_eq.
  pose proof (resolve_except_last_exists _ _ _ _ _ _ Heqo) as [pf Hpf].
  pose proof (wf_keys _ Hw _ _ Hpf) as Hrange. unfold ROOT_INODE in Hrange.
  apply wp_next_inode_number; [done | | done]. intros s1 n Hw1 Hn Hs1. rwp.
  all: pose proof (new_inode_shape _ _ _ _ _ Heqo0) as (Hpar & _ & Hdata);
    (assert (wf (set_files (<[n := a]> (files (filesystem s1))) s1)) as Hw2;
     [apply wf_put_new; [done | by subst s1 | unfold ROOT_INODE; lia | lia |];
      intros; destruct Hdata; congruence |]).
  all: try done.
  eapply wf_put; [done | done | done |]. cbn. intros entries' name' j [= <-].
  rewrite im_get_insert. case_decide.
  - intros [= <-]. subst s1 n. cbn. lia.
  - intros. eapply (wf_dentry _ Hw2); eauto.
Qed.

Lemma open_keeps path flags ctx now : keeps wf (open path flags ctx now).
Proof.
  intros s Hw. unfold open. rwp; (apply (wp_keeps wf);
    [first [apply open_existing_keeps | apply create_keeps] | done |]);
    intros [] ? ?; try done; by apply wp_ret.
Qed.

Lemma unlinkat_keeps dirfd path flags ctx : keeps wf (unlinkat dirfd path flags ctx).
Proof.
  intros s Hw. unfold unlinkat. rwp.
  apply (wp_keeps wf); [apply remove_dentry_keeps | done |]. done.
Qed.

Lemma write_keeps inode buf offset : keeps wf (write inode buf offset).
Proof. intros s Hw. unfold write. rwp; wf_solve. Qed.

Lemma ftruncate_keeps inode sz : keeps wf (ftruncate inode sz).
Proof. intros s Hw. unfold ftruncate. rwp; wf_solve. Qed.

Lemma fchmod_keeps inode m : keeps wf (fchmod inode m).
Proof. intros s Hw. unfold fchmod. rwp; wf_solve. Qed.

Lemma fchown_keeps inode u g : keeps wf (fchown inode u g).
Proof. intros s Hw. unfold fchown. rwp; wf_solve. Qed.

Lemma futimens_keeps inode times : keeps wf (futimens inode times).
Proof. intros s Hw. unfold futimens. rwp; wf_solve. Qed.

Lemma on_close_keeps inode : keeps wf (on_close inode).
Proof. intros s Hw. unfold on_close. rwp; wf_solve. Qed.

(** The read-only operations. *)
Lemma read_pure inode buf offset fl : pure_m (read inode buf offset fl).
Proof. apply pure_m_wp. intros s. unfold read. rwp. Qed.

Lemma getdents_pure {B} entry inode (buf : B) off : pure_m (getdents entry inode buf off).
Proof. apply pure_m_wp. intros s. unfold getdents. rwp. Qed.

Lemma fpath_pure inode buf : pure_m (fpath inode buf).
Proof. apply pure_m_wp. intros s. unfold fpath. rwp. Qed.

Lemma fstat_pure inode : pure_m (fstat inode).
Proof. apply pure_m_wp. intros s. unfold fstat. rwp. Qed.
End preservation.

(** ** Reachable states *)

Section reachable.
Context {TG : Target} {SC : Syscall} {IM : IndexMap} {RH : RamfsHost}.

(** One request, whatever its outcome. *)
Inductive ramfs_step (s : Scheme) : Scheme -> Prop :=
| step_open path flags ctx now : ramfs_step s (open path flags ctx now s).2
| step_unlinkat dirfd path flags ctx : ramfs_step s (unlinkat dirfd path flags ctx s).2
| step_read inode buf off fl : ramfs_step s (read inode buf off fl s).2
| step_getdents B entry inode (buf : B) off : ramfs_step s (getdents entry inode buf off s).2
| step_write inode buf off : ramfs_step s (write inode buf off s).2
| step_ftruncate inode sz : ramfs_step s (ftruncate inode sz s).2
| step_fchmod inode m : ramfs_step s (fchmod inode m s).2
| step_fchown inode u g : ramfs_step s (fchown inode u g s).2
| step_futimens inode times : ramfs_step s (futimens inode times s).2
| step_fpath inode buf : ramfs_step s (fpath inode buf s).2
| step_fstat inode : ramfs_step s (fstat inode s).2
| step_on_close inode : ramfs_step s (on_close inode s).2.

Definition reachable (s : Scheme) : Prop :=
  exists name now, rtc ramfs_step (Scheme_new name now) s.

Context {IML : IndexMapLaws IM}.

Lemma ramfs_step_wf s s' : wf s -> ramfs_step s s' -> wf s'.
Proof.
  intros Hw []; (apply (keeps_run wf); [| done]).
  - apply open_keeps.
  - apply unlinkat_keeps.
  - apply pure_keeps, read_pure.
  - apply pure_keeps, getdents_pure.
  - apply write_keeps.
  - apply ftruncate_keeps.
  - apply fchmod_keeps.
  - apply fchown_keeps.
  - apply futimens_keeps.
  - apply pure_keeps, fpath_pure.
  - apply pure_keeps, fstat_pure.
  - apply on_close_keeps.
Qed.

Lemma reachable_is_wf s : reachable s -> wf s.
Proof.
  intros (name & now & Hr). apply (rtc_preserves wf) in Hr; [done | | apply Scheme_new_wf].
  apply ramfs_step_wf.
Qed.

Lemma fpath_loop_total fs fuel ino info chain :
  fs_wf fs -> files fs !! ino = Some info -> (Z.to_nat ino < fuel)%nat ->
  fpath_loop fs fuel ino info chain <> None.
Proof.
  intros Hw. revert ino info chain.
  induction fuel as [| fuel IH]; intros ino info chain Hi Hf; [lia |]. simpl.
  destruct (ino =? ROOT_INODE) eqn:Er; [done |]. apply Z.eqb_neq in Er.
  destruct (files fs !! parent info) as [pinfo |] eqn:Ep; [| done].
  destruct (data pinfo); [done |]. destruct (find_name _ _); [| done].
  apply IH; [done |]. pose proof (wf_parent _ Hw _ _ Hi Er). lia.
Qed.

(** ** File contents *)

(** What a successful write does to the table. *)
Lemma write_Ok inode buf offset s n s' :
  0 <= offset < usize_mod ->
  write inode buf offset s = (Ok n, s') ->
  exists f bytes bytes',
    files (filesystem s) !! inode = Some f /\ data f = FD_File bytes /\
    (Z.land (mode f) MODE_TYPE =? MODE_DIR) = false /\
    n = zlen buf /\
    s' = set_files (<[inode := set_data (FD_File bytes') f]> (files (filesystem s))) s /\
    bytes' = splice (Z.to_nat offset) buf
               (resize (length bytes `max` (Z.to_nat offset + length buf)) x00 bytes).
Proof.
  intros Hoff. unfold write, usize_try_from.
  rewrite (proj2 (Z.ltb_lt _ _)) by lia.
  intros (f & s1 & Hf & H)%bind_Ok.
  unfold file_at, ok_or, gets, mbind, M_bind in Hf.
  destruct (files (filesystem s) !! inode) as [f' |] eqn:Ef; [| done]. injection Hf as -> <-.
  destruct (data f) as [bytes | entries] eqn:Ed; [| done].
  apply bind_Ok in H as (? & s1 & H1 & H). unfold fail_if in H1.
  destruct (Z.land (mode f) MODE_TYPE =? MODE_DIR) eqn:Em; [done |]. injection H1 as <- <-.
  apply bind_Ok in H as (end_off & s1 & H1 & H). unfold usize_checked_add in H1.
  destruct (offset + zlen buf <? usize_mod) eqn:Eo; [| done]. injection H1 as <- <-.
  apply bind_Ok in H as (bs & s1 & H1 & H). injection H as <- <-.
  exists f, bytes. eexists. split_and!; try done. unfold zlen in *.
  destruct (Z.of_nat (length bytes) <? offset + Z.of_nat (length buf)) eqn:El.
  - unfold fail_if, mbind, M_bind in H1. destruct (try_reserve _ _); [| done].
    injection H1 as <- <-. rewrite Z2Nat.inj_add, Nat2Z.id, Nat.max_r by lia. done.
  - injection H1 as <- <-. rewrite Nat.max_l by lia. by rewrite resize_all.
Qed.

Definition may_read (fl : Z) : Prop :=
  Z.land fl O_ACCMODE = O_RDONLY \/ Z.land fl O_ACCMODE = O_RDWR.

(** Reading a regular file: as many bytes as the file holds past [offset],
    at most the length of the buffer; the rest of the buffer is untouched. *)
Lemma read_file inode buf offset fl s f bytes :
  0 <= offset < usize_mod -> may_read fl ->
  files (filesystem s) !! inode = Some f -> data f = FD_File bytes ->
  (Z.land (mode f) MODE_TYPE =? MODE_DIR) = false ->
  read inode buf offset fl s =
    (Ok (Z.of_nat (common_len buf (drop (Z.to_nat offset) bytes)),
         copy_prefix (common_len buf (drop (Z.to_nat offset) bytes))
           (drop (Z.to_nat offset) bytes) buf), s).
Proof.
  intros Hoff Hfl Hf Hd Hm. unfold read, usize_try_from.
  rewrite (proj2 (Z.ltb_lt _ _)) by lia.
  unfold file_at, ok_or, gets, mbind, M_bind. rewrite Hf. cbn.
  assert (negb ((Z.land fl O_ACCMODE =? O_RDONLY) || (Z.land fl O_ACCMODE =? O_RDWR)) = false)
    as -> by (destruct Hfl as [-> | ->]; rewrite Z.eqb_refl; [done | by rewrite orb_true_r]).
  cbn. rewrite Hd, Hm. done.
Qed.

(** C31: every state that requests can reach from an empty ramfs satisfies the
    inode-table invariant: inode numbers in use lie between the root number
    and the last number given out, parent pointers lead to smaller numbers,
    and directory entries lead to larger, already given out numbers. *)
Theorem ramfs_reachable_wf s : reachable s -> wf s.
Proof. apply reachable_is_wf. Qed.


(** The resolution loop ends: with one turn more than the path has
    components it never runs out of fuel, dot components included. *)
Theorem resolve_loop_terminates fs u g parts ino cur :
  resolve_loop fs u g (S (length parts)) parts 0 ino cur <> None.
Proof. apply resolve_loop_total. lia. Qed.

(** In a reachable state the loop of [fpath] that climbs to the root ends
    within as many turns as the inode number. *)
Theorem fpath_terminates s ino info :
  reachable s -> files (filesystem s) !! ino = Some info ->
  fpath_loop (filesystem s) (S (Z.to_nat ino)) ino info [] <> None.
Proof. intros Hw Hi. apply fpath_loop_total; [by apply reachable_is_wf | done | lia]. Qed.

(** A successful write of [buf] at [offset] returns the length of [buf] and
    changes only the contents of that file: the bytes of the range are those
    of [buf], the bytes outside it are the old ones, a gap past the old end is
    filled with zeros, and the file grows to the end of the range if needed. *)
Theorem write_contents inode buf offset s n s' :
  0 <= offset < usize_mod ->
  write inode buf offset s = (Ok n, s') ->
  exists f bytes bytes',
    files (filesystem s) !! inode = Some f /\ data f = FD_File bytes /\ n = zlen buf /\
    files (filesystem s') = <[inode := set_data (FD_File bytes') f]> (files (filesystem s)) /\
    length bytes' = (length bytes `max` (Z.to_nat offset + length buf))%nat /\
    forall i, (i < length bytes')%nat ->
      bytes' !! i =
        if decide (Z.to_nat offset <= i < Z.to_nat offset + length buf)%nat
        then buf !! (i - Z.to_nat offset)%nat
        else if decide (i < length bytes)%nat then bytes !! i else Some x00.
Proof.
  intros Hoff H. apply write_Ok in H as (f & bytes & bytes' & Hf & Hd & _ & Hn & -> & Hb); [| done].
  exists f, bytes, bytes'. subst bytes'.
  assert (length (splice (Z.to_nat offset) buf
    (resize (length bytes `max` (Z.to_nat offset + length buf)) x00 bytes)) =
    (length bytes `max` (Z.to_nat offset + length buf))%nat) as Hlen
    by (rewrite length_splice; rewrite length_resize; lia).
  split_and!; try done. intros i Hi. rewrite Hlen in Hi.
  rewrite lookup_splice by (rewrite length_resize; lia).
  case_decide; [done |]. case_decide.
  - by rewrite lookup_resize by lia.
  - by rewrite lookup_resize_new by lia.
Qed.

(** What was written is read back: after a successful write of [buf] at
    [offset], a read of as many bytes at the same offset returns exactly
    [buf]. *)
Theorem write_read_roundtrip inode buf offset s n s' rbuf fl :
  0 <= offset < usize_mod -> may_read fl -> length rbuf = length buf ->
  write inode buf offset s = (Ok n, s') ->
  read inode rbuf offset fl s' = (Ok (zlen buf, buf), s').
Proof.
  intros Hoff Hfl Hlen H.
  apply write_Ok in H as (f & bytes & bytes' & Hf & Hd & Hm & _ & -> & ->); [| done].
  erewrite read_file; [| done | done | cbn; apply lookup_insert_eq | done | done].
  set (v := resize _ x00 bytes).
  assert (Z.to_nat offset + length buf <= length v)%nat as Hv
    by (unfold v; rewrite length_resize; lia).
  assert (common_len rbuf (drop (Z.to_nat offset) (splice (Z.to_nat offset) buf v)) = length buf)
    as ->. { unfold common_len. rewrite length_drop, length_splice by lia. lia. }
  unfold copy_prefix. rewrite take_drop_splice, drop_ge, app_nil_r by lia. done.
Qed.

(** ** Creating an entry *)

Lemma walk_le fs u g i parts k : fs_wf fs -> walk fs u g i parts k -> i <= k.
Proof.
  intros Hw. induction 1 as [| i f entries part rest j k Hi Hd Hx Hg _ IH]; [lia |].
  pose proof (wf_dentry _ Hw _ _ _ _ _ Hi Hd Hg). lia.
Qed.

(** A walk to the directory [p] extends to the entry added there. *)
Lemma walk_extend fs fs' u g i parts p name n pf entries f :
  fs_wf fs -> walk fs u g i parts p ->
  files fs !! p = Some pf -> data pf = FD_Directory entries -> last_inode_number fs < n ->
  files fs' = <[p := set_data (FD_Directory (im_insert name n entries)) pf]>
                (<[n := f]> (files fs)) ->
  walk fs' 0 0 i (parts ++ [name]) n.
Proof.
  intros Hw Hwalk Hp Hd Hn Hfs'. pose proof (wf_keys _ Hw _ _ Hp) as Hpl.
  induction Hwalk as [i fi Hi | i fi ents part rest j k Hi Hdi Hx Hg Hwalk IH].
  - simpl. eapply walk_cons.
    + rewrite Hfs'. apply lookup_insert_eq.
    + reflexivity.
    + done.
    + apply im_get_insert_eq.
    + apply (walk_nil _ _ _ n f). rewrite Hfs', lookup_insert_ne by lia. apply lookup_insert_eq.
  - pose proof (wf_dentry _ Hw _ _ _ _ _ Hi Hdi Hg). pose proof (wf_keys _ Hw _ _ Hi).
    pose proof (walk_le _ _ _ _ _ _ Hw Hwalk).
    simpl. apply (walk_cons _ _ _ i fi ents part _ j); [| done | done | done | by apply IH].
    rewrite Hfs', !lookup_insert_ne by lia. done.
Qed.

Lemma create_Ok path flags ctx now s n s' :
  wf s -> create path flags ctx now s = (Ok n, s') ->
  exists p name pf entries f,
    resolve_except_last (filesystem s) path (ctx_uid ctx) (ctx_gid ctx) = Ok (p, Some name) /\
    files (filesystem s) !! p = Some pf /\ data pf = FD_Directory entries /\
    new_inode flags ctx now p = Ok f /\
    n = last_inode_number (filesystem s) + 1 /\
    files (filesystem s') =
      <[p := set_data (FD_Directory (im_insert name n entries)) pf]>
        (<[n := f]> (files (filesystem s))).
Proof.
  intros Hw Hc.
  pose (Q := fun (o : outcome Z) (s' : Scheme) => forall n, o = Ok n -> exists p name pf entries f,
    resolve_except_last (filesystem s) path (ctx_uid ctx) (ctx_gid ctx) = Ok (p, Some name) /\
    files (filesystem s) !! p = Some pf /\ data pf = FD_Directory entries /\
    new_inode flags ctx now p = Ok f /\
    n = last_inode_number (filesystem s) + 1 /\
    files (filesystem s') =
      <[p := set_data (FD_Directory (im_insert name n entries)) pf]>
        (<[n := f]> (files (filesystem s)))).
  assert (wp (create path flags ctx now) Q s) as HQ; [| by eapply wp_run in HQ; eauto].
  unfold create. rwp. simplify_eq.
  pose proof (resolve_except_last_exists _ _ _ _ _ _ Heqo) as [pf Hpf].
  pose proof (wf_keys _ Hw _ _ Hpf).
  apply wp_next_inode_number; [done | | done]. intros s1 m Hw1 -> ->. rwp.
  cbn in H1. rewrite lookup_insert_ne in H1 by lia. rewrite Hpf in H1. injection H1 as <-.
  intros ? [= <-]. naive_solver.
Qed.

Lemma last_removelast {A} (l : list A) x : last l = Some x -> l = removelast l ++ [x].
Proof.
  intros Hl. destruct (decide (l = [])) as [-> | Hne]; [done |].
  rewrite (app_removelast_last x Hne) at 1. do 2 f_equal.
  apply last_Some in Hl as [l' ->]. apply List.last_last.
Qed.

(** An [open] with [O_CREAT] of a path that did not resolve, if it succeeds,
    makes the path resolve to the returned inode, which was not in use
    before, is owned by the caller and has one open handle. *)
Theorem create_then_resolve path flags ctx now s n fl s' :
  reachable s ->
  plain (path_components_iter (trim_start_matches slash path)) ->
  any_set flags O_CREAT = true -> is_ok (resolve (filesystem s) path 0 0) = false ->
  open path flags ctx now s = (Ok (ThisScheme n fl), s') ->
  resolve (filesystem s') path 0 0 = Ok n /\
  files (filesystem s) !! n = None /\
  exists f, files (filesystem s') !! n = Some f /\
            uid f = ctx_uid ctx /\ gid f = ctx_gid ctx /\ open_handles f = 1.
Proof.
  intros Hw%reachable_is_wf Hpl Hcr Hex Ho.
  assert (create path flags ctx now s = (Ok n, s')) as Hc.
  { unfold open in Ho. apply bind_Ok in Ho as (fs & s1 & [= <- <-] & Ho).
    apply bind_Ok in Ho as (ex & s1 & H1 & Ho).
    assert (ex = false /\ s1 = s) as [-> ->]
      by (revert H1 Hex; destruct (resolve _ _ _ _); [done | by intros [= <- <-] | done]).
    rewrite Hcr, andb_false_r in Ho.
    apply bind_Ok in Ho as ([] & s1 & [_ ->]%fail_if_Ok & Ho). cbn [andb] in Ho.
    apply bind_Ok in Ho as (m & s1 & Hc & [[= -> _] ->]%ret_Ok). done. }
  apply create_Ok in Hc as (p & name & pf & entries & f & Hr & Hp & Hd & Hni & Hn & Hfs'); [| done].
  pose proof (wf_keys _ Hw _ _ Hp) as Hpl'.
  assert (files (filesystem s) !! n = None) as Hfresh.
  { destruct (files (filesystem s) !! n) eqn:E; [| done]. pose proof (wf_keys _ Hw _ _ E). lia. }
  split; [| split; [done |]].
  - apply resolve_generic_walk; [done |]. unfold resolve_except_last, mbind, outcome_bind in Hr.
    set (parts := path_components_iter (trim_start_matches slash path)) in *.
    destruct (resolve_generic _ (removelast parts) _ _) as [k | |] eqn:Eg; simplify_eq.
    apply resolve_generic_walk in Eg.
    + rewrite (last_removelast parts name) by done.
      eapply walk_extend; [done | done | done | done | | done]. lia.
    + rewrite (last_removelast parts name) in Hpl by done.
      unfold plain in *. by apply Forall_app in Hpl as [? _].
  - exists f. rewrite Hfs', lookup_insert_ne, lookup_insert_eq by lia.
    split; [done |]. unfold new_inode in Hni. repeat case_match; simplify_eq/=; done.
Qed.

(** ** Removing an entry *)

(** The situation in which an unlink or rmdir of [path] finds the entry
    [name] for inode [i] in the writable directory [p]. *)
Record finds_entry (s : Scheme) (path : string) (u g p : Z) (name : string) (pf : File)
    (entries : imap Z) (i : Z) (f : File) : Prop := {
  fe_resolve : resolve_except_last (filesystem s) path u g = Ok (p, Some name);
  fe_parent : files (filesystem s) !! p = Some pf;
  fe_dir : data pf = FD_Directory entries;
  fe_writable : Z.land (current_perm pf u g) 2 <> 0;
  fe_entry : im_get name entries = Some i;
  fe_file : files (filesystem s) !! i = Some f
}.

(** The table once the entry has left the parent. *)
Definition detached (s : Scheme) (p : Z) (name : string) (pf : File) (entries : imap Z) : Scheme :=
  set_files (<[p := set_data (FD_Directory (im_shift_remove name entries)) pf]>
               (files (filesystem s))) s.

Lemma take_dentry_found s path u g d p name pf entries i f :
  wf s -> finds_entry s path u g p name pf entries i f ->
  take_dentry path u g d s =
    let s1 := detached s p name pf entries in
    match data f with
    | FD_File _ => (Ok i, s1)
    | FD_Directory es =>
        if d then
          if im_is_empty es then (nlink_sub p 1 EIO;; mret i) s1 else (Err ENOTEMPTY, s1)
        else (Err EISDIR, s1)
    end.
Proof.
  intros Hw [Hr Hp Hd Hx Hg Hf]. unfold take_dentry, file_at, mbind, M_bind, gets, lift.
  rewrite Hr. cbn. rewrite Hp. cbn. rewrite (proj2 (Z.eqb_neq _ _) Hx). cbn.
  rewrite Hd, Hg. cbn.
  pose proof (wf_dentry _ Hw _ _ _ _ _ Hp Hd Hg).
  rewrite lookup_insert_ne by lia. rewrite Hf.
  destruct (data f); [done |]. destruct d; [| done]. cbn. by destruct (im_is_empty entries0).
Qed.

Lemma nlink_sub_run i n e s f :
  files (filesystem s) !! i = Some f -> 0 <= nlink f - n < usize_mod ->
  nlink_sub i n e s =
    (Ok tt, set_files (<[i := set_nlink (nlink f - n) f]> (files (filesystem s))) s).
Proof.
  intros Hf Hn. unfold nlink_sub, file_at, mbind, M_bind, gets. cbn. rewrite Hf. cbn.
  rewrite (usize_sub_ok _ _ s) by done. done.
Qed.

(** Unlinking a file with one link takes its name away; the file itself
    stays, with its contents, while it has open handles, and is dropped by
    the unlink if there are none or by the close of the last one. *)
Theorem unlink_file_lifetime s path u g p name pf entries i f bytes :
  reachable s -> finds_entry s path u g p name pf entries i f ->
  data f = FD_File bytes -> nlink f = 1 -> 0 <= open_handles f < usize_mod ->
  exists s' pf',
    remove_dentry path u g false s = (Ok tt, s') /\
    files (filesystem s') !! p = Some pf' /\
    data pf' = FD_Directory (im_shift_remove name entries) /\
    (open_handles f = 0 -> files (filesystem s') !! i = None) /\
    (open_handles f <> 0 -> files (filesystem s') !! i = Some (set_nlink 0 f)) /\
    (open_handles f = 1 -> files (filesystem (on_close i s').2) !! i = None).
Proof.
  intros Hw%reachable_is_wf Hfe Hd Hl Ho. pose proof usize_mod_ge as Hum.
  pose proof (wf_dentry _ Hw _ _ _ _ _ (fe_parent _ _ _ _ _ _ _ _ _ _ Hfe)
    (fe_dir _ _ _ _ _ _ _ _ _ _ Hfe) (fe_entry _ _ _ _ _ _ _ _ _ _ Hfe)) as Hpi.
  set (s1 := detached s p name pf entries).
  assert (files (filesystem s1) !! i = Some f) as Hf1.
  { unfold s1, detached. cbn. rewrite lookup_insert_ne by lia. by apply Hfe. }
  set (s2 := set_files (<[i := set_nlink 0 f]> (files (filesystem s1))) s1).
  exists (if open_handles f =? 0 then set_files (delete i (files (filesystem s2))) s2 else s2).
  exists (set_data (FD_Directory (im_shift_remove name entries)) pf).
  assert (remove_dentry path u g false s =
    (Ok tt, if open_handles f =? 0 then set_files (delete i (files (filesystem s2))) s2 else s2))
    as Hrd.
  { unfold remove_dentry, file_at, mbind, M_bind. rewrite (take_dentry_found s path u g false p name pf entries i f) by done.
    rewrite Hd. cbv zeta. fold s1. unfold gets. rewrite Hf1. cbn. rewrite Hd.
    unfold fail_if. cbn. rewrite (nlink_sub_run i 1 EIO s1 f) by (done || lia).
    rewrite Hl. fold s2. cbn. rewrite lookup_insert_eq. cbn. by destruct (open_handles f =? 0). }
  split_and!; [done | | done | | | ]; destruct (open_handles f =? 0) eqn:E0; try lia.
  - cbn. rewrite lookup_delete_ne, lookup_insert_ne by lia. cbn. apply lookup_insert_eq.
  - cbn. rewrite lookup_insert_ne by lia. cbn. apply lookup_insert_eq.
  - intros _. cbn. apply lookup_delete_eq.
  - intros _. cbn. apply lookup_insert_eq.
  - intros H1. unfold on_close, mbind, M_bind, gets. cbn. rewrite lookup_insert_eq. cbn.
    rewrite H1, (usize_sub_ok 1 1) by lia. cbn. apply lookup_delete_eq.
Qed.

(** Removing a non-empty directory fails with [ENOTEMPTY], but only after
    its entry has been taken out of the parent: the directory is detached
    although the call reports failure. *)
Theorem rmdir_nonempty_detaches s path u g p name pf entries i f es :
  reachable s -> finds_entry s path u g p name pf entries i f ->
  data f = FD_Directory es -> im_iter es <> [] ->
  exists s' pf',
    remove_dentry path u g true s = (Err ENOTEMPTY, s') /\
    files (filesystem s') !! p = Some pf' /\
    data pf' = FD_Directory (im_shift_remove name entries) /\
    im_get name (im_shift_remove name entries) = None /\
    files (filesystem s') !! i = Some f.
Proof.
  intros Hw%reachable_is_wf Hfe Hd Hne.
  pose proof (wf_dentry _ Hw _ _ _ _ _ (fe_parent _ _ _ _ _ _ _ _ _ _ Hfe)
    (fe_dir _ _ _ _ _ _ _ _ _ _ Hfe) (fe_entry _ _ _ _ _ _ _ _ _ _ Hfe)) as Hpi.
  exists (detached s p name pf entries). eexists. split_and!.
  - unfold remove_dentry, mbind, M_bind.
    rewrite (take_dentry_found s path u g true p name pf entries i f) by done. rewrite Hd.
    unfold im_is_empty. by rewrite bool_decide_eq_false_2 by done.
  - cbn. apply lookup_insert_eq.
  - done.
  - rewrite im_get_shift_remove. by rewrite decide_True.
  - cbn. rewrite lookup_insert_ne by lia. by apply Hfe.
Qed.

(** A path whose only component is a dot makes path resolution index past
    the end of its component vector: the open panics, whatever its flags. *)
Theorem open_dot_panics s flags ctx now root entries :
  files (filesystem s) !! ROOT_INODE = Some root -> data root = FD_Directory entries ->
  open "." flags ctx now s = (Panic, s).
Proof.
  intros Hr Hd. unfold open, mbind, M_bind, gets.
  assert (resolve (filesystem s) "." 0 0 = Panic) as ->; [| done].
  unfold resolve, resolve_generic, mbind, outcome_bind, o_ok_or. rewrite Hr. cbn.
  unfold resolve_step. rewrite Hd. done.
Qed.
End reachable.

(** ** Witnesses: a small ramfs run by the reference instances *)

#[local] Existing Instance redox_syscall.
#[local] Existing Instance x86_64_release.
#[local] Existing Instance assoc_index_map.
#[local] Existing Instance assoc_index_map_laws.

Definition demo_host : RamfsHost :=
  {| try_reserve := fun _ _ => true; host_fstatvfs := Ok (1000, 1000, 1000, 4096) |}.
#[local] Existing Instance demo_host.

Definition demo_now : TimeSpec := {| tv_sec := 1700000000; tv_nsec := 0 |}.
Definition demo_root : CallerCtx := {| ctx_pid := 1; ctx_uid := 0; ctx_gid := 0; ctx_id := 1 |}.
Definition demo_create : Z := Z.lor (Z.lor O_CREAT O_RDWR) 0x1A4.
Definition demo_mkdir : Z := Z.lor (Z.lor O_CREAT (Z.lor O_RDONLY O_DIRECTORY)) 0x1ED.

(** An empty ramfs; with a file [f]; with a directory [d] holding a file. *)
Definition demo0 : Scheme := Scheme_new "ram" demo_now.
Definition demo_f : Scheme := (open "/f" demo_create demo_root demo_now demo0).2.
Definition demo_d : Scheme := (open "d" demo_mkdir demo_root demo_now demo0).2.
Definition demo_dg : Scheme := (open "d/g" demo_create demo_root demo_now demo_d).2.

Definition demo_file (s : Scheme) (i : Z) : File :=
  match files (filesystem s) !! i with Some f => f | None => create_root_inode demo_now end.
Definition demo_entries (s : Scheme) (i : Z) : imap Z :=
  match data (demo_file s i) with FD_Directory e => e | FD_File _ => im_new end.

Lemma demo_f_reachable : reachable demo_f.
Proof. exists "ram"%string, demo_now. apply rtc_once. apply step_open. Defined.

Lemma demo_dg_reachable : reachable demo_dg.
Proof.
  exists "ram"%string, demo_now.
  eapply rtc_l; [apply (step_open demo0 "d" demo_mkdir demo_root demo_now) |].
  apply rtc_once. apply step_open.
Defined.

Lemma ramfs_reachable_wf_witness : reachable demo_dg /\ wf demo_dg.
Proof. split; [apply demo_dg_reachable | apply (ramfs_reachable_wf demo_dg), demo_dg_reachable]. Defined.


Lemma fpath_terminates_witness :
  exists info, files (filesystem demo_dg) !! 3 = Some info /\
    fpath_loop (filesystem demo_dg) 4 3 info [] <> None.
Proof.
  eexists. split; [vm_compute; reflexivity |].
  apply (fpath_terminates demo_dg 3); [apply demo_dg_reachable | vm_compute; reflexivity].
Defined.

Lemma write_contents_witness :
  exists f bytes bytes',
    files (filesystem demo_f) !! 2 = Some f /\ data f = FD_File bytes /\ 2 = zlen [x61; x62] /\
    files (filesystem (write 2 [x61; x62] 3 demo_f).2) =
      <[2 := set_data (FD_File bytes') f]> (files (filesystem demo_f)) /\
    length bytes' = 5%nat /\ bytes' !! 1%nat = Some x00 /\ bytes' !! 4%nat = Some x62.
Proof.
  destruct (write_contents 2 [x61; x62] 3 demo_f 2 (write 2 [x61; x62] 3 demo_f).2)
    as (f & bytes & bytes' & Hf & Hd & Hn & Hs & Hl & Hb);
    [vm_compute; split; congruence | vm_compute; reflexivity |].
  assert (bytes = []) as -> by (vm_compute in Hf; injection Hf as <-; by injection Hd).
  exists f, [], bytes'. split_and!; [done | done | done | done | done | |].
  - rewrite Hb by (rewrite Hl; cbn; lia). reflexivity.
  - rewrite Hb by (rewrite Hl; cbn; lia). reflexivity.
Defined.

Lemma write_read_roundtrip_witness :
  read 2 [x00; x00] 3 O_RDWR (write 2 [x61; x62] 3 demo_f).2 =
    (Ok (2, [x61; x62]), (write 2 [x61; x62] 3 demo_f).2).
Proof.
  apply (write_read_roundtrip 2 [x61; x62] 3 demo_f 2);
    [vm_compute; split; congruence | right; reflexivity | reflexivity | vm_compute; reflexivity].
Defined.

Lemma create_then_resolve_witness :
  resolve (filesystem demo_dg) "d/g" 0 0 = Ok 3 /\
  files (filesystem demo_d) !! 3 = None /\
  exists f, files (filesystem demo_dg) !! 3 = Some f /\
            uid f = 0 /\ gid f = 0 /\ open_handles f = 1.
Proof.
  apply (create_then_resolve "d/g" demo_create demo_root demo_now demo_d 3 fd_POSITIONED).
  - exists "ram"%string, demo_now. apply rtc_once. apply step_open.
  - repeat constructor.
  - reflexivity.
  - vm_compute. reflexivity.
  - vm_compute. reflexivity.
Defined.

Lemma unlink_file_lifetime_witness :
  exists s' pf', remove_dentry "f" 0 0 false demo_f = (Ok tt, s') /\
    files (filesystem s') !! 1 = Some pf' /\
    files (filesystem (on_close 2 s').2) !! 2 = None.
Proof.
  destruct (unlink_file_lifetime demo_f "f" 0 0 1 "f" (demo_file demo_f 1)
    (demo_entries demo_f 1) 2 (demo_file demo_f 2) [] demo_f_reachable)
    as (s' & pf' & H1 & H2 & _ & _ & _ & H3).
  - split; vm_compute; try reflexivity; congruence.
  - reflexivity.
  - reflexivity.
  - vm_compute. split; congruence.
  - exists s', pf'. split_and!; [exact H1 | exact H2 | apply H3; reflexivity].
Defined.

Lemma rmdir_nonempty_detaches_witness :
  exists s' f, remove_dentry "d" 0 0 true demo_dg = (Err ENOTEMPTY, s') /\
    files (filesystem s') !! 2 = Some f.
Proof.
  destruct (rmdir_nonempty_detaches demo_dg "d" 0 0 1 "d" (demo_file demo_dg 1)
    (demo_entries demo_dg 1) 2 (demo_file demo_dg 2) (demo_entries demo_dg 2) demo_dg_reachable)
    as (s' & pf' & H1 & _ & _ & _ & H2).
  - split; vm_compute; try reflexivity; congruence.
  - reflexivity.
  - vm_compute. congruence.
  - exists s'. eexists. split; [exact H1 | exact H2].
Defined.

Lemma open_dot_panics_witness :
  open "." O_RDONLY demo_root demo_now demo0 = (Panic, demo0).
Proof.
  eapply (open_dot_panics demo0 O_RDONLY demo_root demo_now); vm_compute; reflexivity.
Defined.

(** Creating a directory in the root does not count as a link to the root
    but removing it subtracts one: after one [mkdir] and [rmdir], closing a
    handle on the root drops the root inode, and every later path fails. *)
Theorem mkdir_rmdir_loses_root :
  let s1 := demo_d in
  let s2 := (open "" (Z.lor O_RDONLY O_DIRECTORY) demo_root demo_now s1).2 in
  let s3 := (unlinkat 1 "d" AT_REMOVEDIR demo_root s2).2 in
  let s4 := (on_close 1 s3).2 in
  (unlinkat 1 "d" AT_REMOVEDIR demo_root s2).1 = Ok tt /\
  files (filesystem s4) !! ROOT_INODE = None /\
  forall path, resolve (filesystem s4) path 0 0 = Err ENOENT.
Proof.
  cbv zeta. split; [vm_compute; reflexivity |].
  assert (files (filesystem (on_close 1 (unlinkat 1 "d" AT_REMOVEDIR demo_root
    (open "" (Z.lor O_RDONLY O_DIRECTORY) demo_root demo_now demo_d).2).2).2) !! ROOT_INODE = None)
    as Hr by (vm_compute; reflexivity).
  split; [done |]. intros path. unfold resolve, resolve_generic, mbind, outcome_bind.
  by rewrite Hr.
Qed.
