(* ===== verification/Pty.v ===== *)
(** * ptyd: pseudo-terminals

    Models [ptyd/src/pty.rs] (the line discipline), the five resources of
    [controlterm.rs], [subterm.rs], [pgrp.rs], [termios.rs], [winsize.rs],
    the scheme of [scheme.rs] and the per-event work of [main.rs].

    A pty lives in an [Rc<RefCell<Pty>>] owned by its control terminal; every
    other resource holds a [Weak].  The store [heap] maps references to
    ptys: dropping the control terminal deletes the entry, upgrading a [Weak]
    is a lookup.  The types and constants of the [redox_termios] crate are
    the class [Termios_api]. *)

From stdpp Require Import base gmap strings list fin_maps sorting.
From Stdlib Require Import ZArith Lia.
From Stdlib Require Import Strings.Byte.
From S2P Require Import Prelude Syscall.

Local Open Scope Z_scope.

(** [redox_termios]: the two structs, seen through their fields and through
    the byte slices that [Deref] and [DerefMut] give ([.._set t bytes] is [t]
    once [bytes] have been stored through the mutable slice), and the
    constants: flag bits and indices of [c_cc]. *)
Class Termios_api := {
  Termios : Type;
  Termios_default : Termios;
  c_iflag : Termios -> Z; c_oflag : Termios -> Z; c_lflag : Termios -> Z;
  c_cc : Termios -> nat -> u8;
  termios_bytes : Termios -> list u8;
  termios_set : Termios -> list u8 -> Termios;
  Winsize : Type;
  Winsize_default : Winsize;
  winsize_bytes : Winsize -> list u8;
  winsize_set : Winsize -> list u8 -> Winsize;
  INLCR : Z; IGNCR : Z; ICRNL : Z; IXON : Z; OPOST : Z; ONLCR : Z;
  ECHO : Z; ECHOE : Z; ECHONL : Z; ICANON : Z; ISIG : Z; IEXTEN : Z;
  VEOF : nat; VEOL : nat; VEOL2 : nat; VERASE : nat; VWERASE : nat; VKILL : nat;
  VREPRINT : nat; VINTR : nat; VQUIT : nat; VSUSP : nat; VSTART : nat; VSTOP : nat;
  VLNEXT : nat; VDISCARD : nat; VMIN : nat; VTIME : nat
}.

(** A stored slice is read back, and has a fixed length. *)
Class Termios_laws (TA : Termios_api) : Prop := {
  termios_bytes_set : forall t bs,
    length bs = length (termios_bytes t) -> termios_bytes (termios_set t bs) = bs;
  winsize_bytes_set : forall w bs,
    length bs = length (winsize_bytes w) -> winsize_bytes (winsize_set w bs) = bs
}.

Section pty.
Context {TA : Termios_api}.

(** ** The pty and its line discipline *)

Record Pty := {
  id : Z; pgrp : Z; termios : Termios; winsize : Winsize;
  cooked : list u8; miso : list (list u8); mosi : list (list u8);
  timeout_count : Z; timeout_character : option Z
}.

Definition Pty_new (i : Z) : Pty :=
  {| id := i; pgrp := 0; termios := Termios_default; winsize := Winsize_default;
     cooked := []; miso := []; mosi := []; timeout_count := 0; timeout_character := None |}.

Definition set_pgrp (g : Z) (p : Pty) : Pty :=
  {| id := id p; pgrp := g; termios := termios p; winsize := winsize p; cooked := cooked p;
     miso := miso p; mosi := mosi p; timeout_count := timeout_count p;
     timeout_character := timeout_character p |}.
Definition set_termios (t : Termios) (p : Pty) : Pty :=
  {| id := id p; pgrp := pgrp p; termios := t; winsize := winsize p; cooked := cooked p;
     miso := miso p; mosi := mosi p; timeout_count := timeout_count p;
     timeout_character := timeout_character p |}.
Definition set_winsize (w : Winsize) (p : Pty) : Pty :=
  {| id := id p; pgrp := pgrp p; termios := termios p; winsize := w; cooked := cooked p;
     miso := miso p; mosi := mosi p; timeout_count := timeout_count p;
     timeout_character := timeout_character p |}.
Definition set_cooked (c : list u8) (p : Pty) : Pty :=
  {| id := id p; pgrp := pgrp p; termios := termios p; winsize := winsize p; cooked := c;
     miso := miso p; mosi := mosi p; timeout_count := timeout_count p;
     timeout_character := timeout_character p |}.
Definition set_miso (q : list (list u8)) (p : Pty) : Pty :=
  {| id := id p; pgrp := pgrp p; termios := termios p; winsize := winsize p; cooked := cooked p;
     miso := q; mosi := mosi p; timeout_count := timeout_count p;
     timeout_character := timeout_character p |}.
Definition set_mosi (q : list (list u8)) (p : Pty) : Pty :=
  {| id := id p; pgrp := pgrp p; termios := termios p; winsize := winsize p; cooked := cooked p;
     miso := miso p; mosi := q; timeout_count := timeout_count p;
     timeout_character := timeout_character p |}.
Definition set_timeout_count (c : Z) (p : Pty) : Pty :=
  {| id := id p; pgrp := pgrp p; termios := termios p; winsize := winsize p; cooked := cooked p;
     miso := miso p; mosi := mosi p; timeout_count := c;
     timeout_character := timeout_character p |}.
Definition set_timeout_character (c : option Z) (p : Pty) : Pty :=
  {| id := id p; pgrp := pgrp p; termios := termios p; winsize := winsize p; cooked := cooked p;
     miso := miso p; mosi := mosi p; timeout_count := timeout_count p;
     timeout_character := c |}.

(** [self.cooked.push(b)] *)
Definition push_cooked (b : u8) (p : Pty) : Pty := set_cooked (cooked p ++ [b]) p.

(** [self.mosi.push_back(self.cooked.clone()); self.cooked.clear()] *)
Definition flush_cooked (p : Pty) : Pty :=
  set_cooked [] (set_mosi (mosi p ++ [cooked p]) p).

Definition path (p : Pty) (buf : list u8) : Z * list u8 :=
  let '(pos, buf, ok) := cursor_write_all 0 (as_bytes "/scheme/pty/") buf in
  if (ok : bool) then
    let '(pos, buf, _) := cursor_write_all pos (as_bytes (show_unsigned (id p))) buf in
    (Z.of_nat pos, buf)
  else (Z.of_nat pos, buf).

Definition output (buf : list u8) (p : Pty) : Pty :=
  let ofl := c_oflag (termios p) in
  let opost := all_set ofl OPOST in
  let onlcr := all_set ofl ONLCR in
  let vec := x00 :: flat_map (fun b =>
               if opost && onlcr && bool_decide (b = x0a) then [x0d; b] else [b]) buf in
  set_miso (miso p ++ [vec]) p.

(** [timeout_character.wrapping_add(vtime)] on [u64] *)
Definition u64_wrapping_add (a b : Z) : Z := (a + b) mod 2 ^ 64.

Definition update (p : Pty) : Pty :=
  let icanon := all_set (c_lflag (termios p)) ICANON in
  let vmin := Z_of_byte (c_cc (termios p) VMIN) in
  let vtime := Z_of_byte (c_cc (termios p) VTIME) in
  if negb icanon then
    if vtime =? 0 then
      if vmin =? 0 then
        if bool_decide (mosi p = []) then flush_cooked p else p
      else
        if vmin <=? zlen (cooked p) then flush_cooked p else p
    else
      if vmin =? 0 then
        if negb (bool_decide (cooked p = [])) then flush_cooked p
        else match timeout_character p with
             | Some tc =>
                 if u64_wrapping_add tc vtime <=? timeout_count p then
                   let p := set_timeout_character None p in
                   if bool_decide (mosi p = []) then flush_cooked p else p
                 else p
             | None => set_timeout_character (Some (timeout_count p)) p
             end
      else
        if vmin <=? zlen (cooked p) then flush_cooked p
        else if negb (bool_decide (cooked p = [])) then
          match timeout_character p with
          | Some tc =>
              if u64_wrapping_add tc vtime <=? timeout_count p then
                flush_cooked (set_timeout_character None p)
              else p
          | None => p
          end
        else p
  else p.

(** The signals that [input] may send with [kill], to the group [pgrp]. *)
Inductive Signal := SIGINT | SIGQUIT | SIGTSTP.

(** Input translation of one byte: the first block of the loop body. *)
Definition translate (ifl : Z) (b : u8) : u8 :=
  if bool_decide (b = x0a) then if all_set ifl INLCR then x0d else b
  else if bool_decide (b = x0d) then
    if all_set ifl IGNCR then x00 else if all_set ifl ICRNL then x0a else b
  else b.

(** [is_cc(b, i)]: a control character that is set. *)
Definition is_cc (t : Termios) (b : u8) (i : nat) : bool :=
  negb (bool_decide (b = x00)) && bool_decide (b = c_cc t i).
Definition is_vdisable (t : Termios) (i : nat) : bool := bool_decide (c_cc t i = x00).

(** The [icanon] block: line editing.  [b] becomes 0 once consumed. *)
Definition canonical (t : Termios) (p : Pty) (b : u8) : Pty * u8 :=
  let lfl := c_lflag t in
  let echo := all_set lfl ECHO in
  let iexten := all_set lfl IEXTEN in
  let '(p, b) :=
    if bool_decide (b = x0a) then
      let p := if echo || all_set lfl ECHONL then output [b] p else p in
      (flush_cooked (push_cooked b p), x00)
    else (p, b) in
  let '(p, b) := if is_cc t b VEOF then (flush_cooked p, x00) else (p, b) in
  let '(p, b) :=
    if is_cc t b VEOL then
      let p := if echo then output [b] p else p in (flush_cooked (push_cooked b p), x00)
    else (p, b) in
  let '(p, b) :=
    if is_cc t b VEOL2 then
      let p := if echo then output [b] p else p in (flush_cooked (push_cooked b p), x00)
    else (p, b) in
  let '(p, b) :=
    if is_cc t b VERASE && negb (is_vdisable t VERASE) then
      (match last (cooked p) with
       | Some _ =>
           let p := set_cooked (removelast (cooked p)) p in
           if all_set lfl ECHOE then output [x08; x20; x08] p else p
       | None => p
       end, x00)
    else (p, b) in
  let b := if is_cc t b VWERASE && iexten then x00 else b in
  let b := if is_cc t b VKILL then x00 else b in
  let b := if is_cc t b VREPRINT && iexten then x00 else b in
  (p, b).

(** The [isig] block: the signals sent and the byte that is left. *)
Definition signals (t : Termios) (p : Pty) (b : u8) : list (Signal * Z) * u8 :=
  let send sig := if pgrp p =? 0 then [] else [(sig, pgrp p)] in
  let '(k, b) := if is_cc t b VINTR && negb (is_vdisable t VINTR)
                 then (send SIGINT, x00) else ([], b) in
  let '(k, b) := if is_cc t b VQUIT && negb (is_vdisable t VQUIT)
                 then (k ++ send SIGQUIT, x00) else (k, b) in
  if is_cc t b VSUSP && negb (is_vdisable t VSUSP)
  then (k ++ send SIGTSTP, x00) else (k, b).

(** The [ixon] block and the two that follow it. *)
Definition flow (t : Termios) (b : u8) : u8 :=
  let iexten := all_set (c_lflag t) IEXTEN in
  let b := if all_set (c_lflag t) IXON then
             let b := if is_cc t b VSTART then x00 else b in
             if is_cc t b VSTOP then x00 else b
           else b in
  let b := if is_cc t b VLNEXT && iexten then x00 else b in
  if is_cc t b VDISCARD && iexten then x00 else b.

(** The loop body of [input] for one byte, with the settings read before the
    loop. *)
Definition input_byte (t : Termios) (p : Pty) (byte : u8) : Pty * list (Signal * Z) :=
  let b := translate (c_iflag t) byte in
  let '(p, b) := if all_set (c_lflag t) ICANON then canonical t p b else (p, b) in
  let '(k, b) := if all_set (c_lflag t) ISIG then signals t p b else ([], b) in
  let b := flow t b in
  if bool_decide (b = x00) then (p, k)
  else
    let p := if all_set (c_lflag t) ECHO then output [b] p else p in
    (push_cooked b (set_timeout_character (Some (timeout_count p)) p), k).

Fixpoint input_loop (t : Termios) (buf : list u8) (p : Pty) : Pty * list (Signal * Z) :=
  match buf with
  | [] => (p, [])
  | byte :: buf =>
      let '(p, k) := input_byte t p byte in
      let '(p, k') := input_loop t buf p in
      (p, k ++ k')
  end.

Definition input (buf : list u8) (p : Pty) : Pty * list (Signal * Z) :=
  let '(p, k) := input_loop (termios p) buf p in (update p, k).

Definition timeout (count : Z) (p : Pty) : Pty :=
  if negb (timeout_count p =? count) then update (set_timeout_count count p) else p.
End pty.
