(* ===== verification/PtyScheme.v ===== *)
(** * ptyd: resources and scheme

    Models [ptyd/src/scheme.rs], the [Resource] implementations and the
    event-loop work of [ptyd/src/main.rs] ([Time] events and [issue_events]).
    See [Pty.v] for the store of ptys. *)

From stdpp Require Import base gmap strings list fin_maps sorting.
From Stdlib Require Import ZArith Lia.
From Stdlib Require Import Strings.Byte.
From S2P Require Import Prelude Syscall Pty.

Local Open Scope Z_scope.

(** The five implementors of [trait Resource].  [pty] is a reference into
    the store: strong for the control terminal, weak for the others. *)
Inductive Resource :=
| PtyControlTerm (pty : Z) (flags : Z) (notified_read notified_write : bool)
| PtySubTerm (pty : Z) (flags : Z) (notified_read notified_write : bool)
| PtyPgrp (pty : Z) (flags : Z)
| PtyTermios (pty : Z) (flags : Z)
| PtyWinsize (pty : Z) (flags : Z).

Definition res_pty (r : Resource) : Z :=
  match r with
  | PtyControlTerm p _ _ _ | PtySubTerm p _ _ _ | PtyPgrp p _ | PtyTermios p _
  | PtyWinsize p _ => p
  end.

Definition res_flags (r : Resource) : Z :=
  match r with
  | PtyControlTerm _ f _ _ | PtySubTerm _ f _ _ | PtyPgrp _ f | PtyTermios _ f
  | PtyWinsize _ f => f
  end.

Definition res_set_flags (f : Z) (r : Resource) : Resource :=
  match r with
  | PtyControlTerm p _ a b => PtyControlTerm p f a b
  | PtySubTerm p _ a b => PtySubTerm p f a b
  | PtyPgrp p _ => PtyPgrp p f
  | PtyTermios p _ => PtyTermios p f
  | PtyWinsize p _ => PtyWinsize p f
  end.

Definition is_control (r : Resource) : bool :=
  match r with PtyControlTerm _ _ _ _ => true | _ => false end.

Section scheme.
Context {TG : Target} {SC : Syscall} {TA : Termios_api}.

(** [next_ref] is the next unused reference of the store, [kills] the log of
    the signals sent. *)
Record PtyScheme := {
  next_id : Z;
  handles : gmap Z Resource;
  heap : gmap Z Pty;
  next_ref : Z;
  kills : list (Signal * Z)
}.

Definition PtyScheme_new : PtyScheme :=
  {| next_id := 0; handles := ∅; heap := ∅; next_ref := 0; kills := [] |}.

Definition set_next_id (n : Z) (s : PtyScheme) : PtyScheme :=
  {| next_id := n; handles := handles s; heap := heap s; next_ref := next_ref s;
     kills := kills s |}.
Definition set_handles (h : gmap Z Resource) (s : PtyScheme) : PtyScheme :=
  {| next_id := next_id s; handles := h; heap := heap s; next_ref := next_ref s;
     kills := kills s |}.
Definition set_heap (h : gmap Z Pty) (s : PtyScheme) : PtyScheme :=
  {| next_id := next_id s; handles := handles s; heap := h; next_ref := next_ref s;
     kills := kills s |}.
Definition add_kills (k : list (Signal * Z)) (s : PtyScheme) : PtyScheme :=
  {| next_id := next_id s; handles := handles s; heap := heap s; next_ref := next_ref s;
     kills := kills s ++ k |}.

(** Dropping a boxed resource drops the [Rc] of a control terminal, the only
    strong reference to its pty. *)
Definition drop_resource (r : option Resource) (s : PtyScheme) : PtyScheme :=
  match r with
  | Some (PtyControlTerm p _ _ _) => set_heap (delete p (heap s)) s
  | _ => s
  end.

(** [self.handles.insert(id, handle)], dropping a replaced value. *)
Definition insert_handle (i : Z) (r : Resource) : M PtyScheme unit :=
  modify (fun s => set_handles (<[i := r]> (handles s)) (drop_resource (handles s !! i) s)).

(** Storing through the [&mut Box<dyn Resource>] of handle [i]. *)
Definition put_handle (i : Z) (r : Resource) : M PtyScheme unit :=
  modify (fun s => set_handles (<[i := r]> (handles s)) s).

Definition put_pty (p : Z) (x : Pty) : M PtyScheme unit :=
  modify (fun s => set_heap (<[p := x]> (heap s)) s).

(** [self.handles.get_mut(&id).ok_or(Error::new(EBADF))?] *)
Definition handle_at (i : Z) : M PtyScheme Resource :=
  r ← gets (fun s => handles s !! i); ok_or EBADF r.

(** [self.pty.upgrade()] *)
Definition upgrade (p : Z) : M PtyScheme (option Pty) := gets (fun s => heap s !! p).

(** The pty behind the strong reference of a control terminal. *)
Definition strong (p : Z) : M PtyScheme Pty := x ← upgrade p; unwrap x.

(** [Rc::weak_count]: the live resources that hold a weak reference. *)
Definition weak_count (p : Z) (s : PtyScheme) : nat :=
  size (filter (fun kr : Z * Resource => res_pty kr.2 = p /\ is_control kr.2 = false) (handles s)).

(** [let id = self.next_id; self.next_id += 1;] *)
Definition take_id : M PtyScheme Z :=
  i ← gets next_id;
  n ← usize_add i 1;
  modify (set_next_id n);;
  mret i.

(** [Rc::new(RefCell::new(Pty::new(id)))] *)
Definition alloc_pty (i : Z) : M PtyScheme Z :=
  p ← gets next_ref;
  modify (fun s => {| next_id := next_id s; handles := handles s;
                      heap := <[p := Pty_new i]> (heap s);
                      next_ref := p + 1; kills := kills s |});;
  mret p.

(** ** Control terminal *)

Definition control_read (i p fl : Z) (nw : bool) (buf : list u8) : M PtyScheme (Z * list u8) :=
  put_handle i (PtyControlTerm p fl false nw);;
  x ← strong p;
  match miso x with
  | packet :: rest =>
      let n := common_len buf packet in
      (if bool_decide (n < length packet)%nat then
         h ← unwrap (head packet);
         put_pty p (set_miso ((h :: drop n packet) :: rest) x)
       else put_pty p (set_miso rest x));;
      mret (Z.of_nat n, copy_prefix n packet buf)
  | [] =>
      weak ← gets (weak_count p);
      if all_set fl O_NONBLOCK || bool_decide (weak = 0%nat) then throw EAGAIN
      else throw EWOULDBLOCK
  end.

Definition control_write (p : Z) (buf : list u8) : M PtyScheme Z :=
  x ← strong p;
  fail_if (64 <=? zlen (mosi x)) EWOULDBLOCK;;
  let '(x, k) := input buf x in
  put_pty p x;;
  modify (add_kills k);;
  mret (zlen buf).

(** [events]: the new resource and the events to post, given whether the
    queue has a front packet. *)
Definition notify (readable nr nw : bool) : bool * bool * Z :=
  let '(nr, ev) := if readable then if nr then (nr, 0) else (true, EVENT_READ) else (false, 0) in
  if nw then (nr, nw, ev) else (nr, true, Z.lor ev EVENT_WRITE).

Definition control_events (i p fl : Z) (nr nw : bool) : M PtyScheme Z :=
  x ← strong p;
  let '(nr, nw, ev) := notify (negb (bool_decide (miso x = []))) nr nw in
  put_handle i (PtyControlTerm p fl nr nw);;
  mret ev.

(** ** Subordinate terminal *)

Definition sub_read (i p fl : Z) (nw : bool) (buf : list u8) : M PtyScheme (Z * list u8) :=
  put_handle i (PtySubTerm p fl false nw);;
  x ← upgrade p;
  match x with
  | Some x =>
      let x := update x in
      put_pty p x;;
      match mosi x with
      | packet :: rest =>
          let n := common_len buf packet in
          put_pty p (set_mosi (if bool_decide (n < length packet)%nat
                               then drop n packet :: rest else rest) x);;
          mret (Z.of_nat n, copy_prefix n packet buf)
      | [] => if all_set fl O_NONBLOCK then throw EAGAIN else throw EWOULDBLOCK
      end
  | None => mret (0, buf)
  end.

Definition sub_write (p : Z) (buf : list u8) : M PtyScheme Z :=
  x ← upgrade p;
  x ← ok_or EPIPE x;
  fail_if (64 <=? zlen (miso x)) EWOULDBLOCK;;
  put_pty p (output buf x);;
  mret (zlen buf).

Definition sub_sync (p : Z) : M PtyScheme unit :=
  x ← upgrade p;
  x ← ok_or EPIPE x;
  put_pty p (set_miso (miso x ++ [[x01]]) x).

Definition sub_events (i p fl : Z) (nr nw : bool) : M PtyScheme Z :=
  x ← upgrade p;
  let '(nr, ev) := match x with
                   | Some x => if negb (bool_decide (mosi x = [])) then
                                 if nr then (nr, 0) else (true, EVENT_READ)
                               else (false, 0)
                   | None => (nr, 0)
                   end in
  let '(nw, ev) := if nw then (nw, ev) else (true, Z.lor ev EVENT_WRITE) in
  put_handle i (PtySubTerm p fl nr nw);;
  mret ev.

(** ** Process group, termios and window size *)

Definition pgrp_read (p : Z) (buf : list u8) : M PtyScheme (Z * list u8) :=
  x ← upgrade p;
  match x with
  | Some x =>
      fail_if (zlen buf <? 4) EBADF;;
      mret (4, copy_prefix 4 (u32_to_ne_bytes (pgrp x mod 2 ^ 32)) buf)
  | None => mret (0, buf)
  end.

Definition pgrp_write (p : Z) (buf : list u8) : M PtyScheme Z :=
  x ← upgrade p;
  x ← ok_or EPIPE x;
  match buf with
  | b0 :: b1 :: b2 :: b3 :: _ =>
      put_pty p (set_pgrp (u32_from_ne_bytes b0 b1 b2 b3) x);;
      mret 4
  | _ => throw EBADF
  end.

Definition termios_read (p : Z) (buf : list u8) : M PtyScheme (Z * list u8) :=
  x ← upgrade p;
  match x with
  | Some x =>
      let t := termios_bytes (termios x) in
      let n := common_len buf t in
      mret (Z.of_nat n, copy_prefix n t buf)
  | None => mret (0, buf)
  end.

Definition termios_write (p : Z) (buf : list u8) : M PtyScheme Z :=
  x ← upgrade p;
  x ← ok_or EPIPE x;
  let t := termios_bytes (termios x) in
  let n := common_len buf t in
  put_pty p (set_termios (termios_set (termios x) (copy_prefix n buf t)) x);;
  mret (Z.of_nat n).

Definition winsize_read (p : Z) (buf : list u8) : M PtyScheme (Z * list u8) :=
  x ← upgrade p;
  match x with
  | Some x =>
      let w := winsize_bytes (winsize x) in
      let n := common_len buf w in
      mret (Z.of_nat n, copy_prefix n w buf)
  | None => mret (0, buf)
  end.

Definition winsize_write (p : Z) (buf : list u8) : M PtyScheme Z :=
  x ← upgrade p;
  x ← ok_or EPIPE x;
  let w := winsize_bytes (winsize x) in
  let n := common_len buf w in
  put_pty p (set_winsize (winsize_set (winsize x) (copy_prefix n buf w)) x);;
  mret (Z.of_nat n).

(** ** The scheme *)

Definition open (path : string) (flags : Z) : M PtyScheme OpenResult :=
  let path := trim_matches slash path in
  if str_is_empty path then
    i ← take_id;
    p ← alloc_pty i;
    insert_handle i (PtyControlTerm p flags false false);;
    mret (ThisScheme i fd_empty)
  else
    control_term_id ← ok_or EINVAL (parse_unsigned usize_mod path);
    h ← gets (fun s => handles s !! control_term_id);
    h ← ok_or ENOENT h;
    i ← take_id;
    insert_handle i (PtySubTerm (res_pty h) flags false false);;
    mret (ThisScheme i fd_empty).

Definition dup (old_id : Z) (buf : list u8) : M PtyScheme OpenResult :=
  old ← handle_at old_id;
  h ← (if bool_decide (buf = as_bytes "pgrp") then mret (PtyPgrp (res_pty old) (res_flags old))
       else if bool_decide (buf = as_bytes "termios")
            then mret (PtyTermios (res_pty old) (res_flags old))
       else if bool_decide (buf = as_bytes "winsize")
            then mret (PtyWinsize (res_pty old) (res_flags old))
       else throw EINVAL);
  i ← take_id;
  insert_handle i h;;
  mret (ThisScheme i fd_empty).

Definition read (i : Z) (buf : list u8) : M PtyScheme (Z * list u8) :=
  h ← handle_at i;
  match h with
  | PtyControlTerm p fl _ nw => control_read i p fl nw buf
  | PtySubTerm p fl _ nw => sub_read i p fl nw buf
  | PtyPgrp p _ => pgrp_read p buf
  | PtyTermios p _ => termios_read p buf
  | PtyWinsize p _ => winsize_read p buf
  end.

Definition write (i : Z) (buf : list u8) : M PtyScheme Z :=
  h ← handle_at i;
  match h with
  | PtyControlTerm p _ _ _ => control_write p buf
  | PtySubTerm p _ _ _ => sub_write p buf
  | PtyPgrp p _ => pgrp_write p buf
  | PtyTermios p _ => termios_write p buf
  | PtyWinsize p _ => winsize_write p buf
  end.

Definition fcntl (i cmd arg : Z) : M PtyScheme Z :=
  h ← handle_at i;
  if cmd =? F_GETFL then mret (res_flags h)
  else if cmd =? F_SETFL then put_handle i (res_set_flags (setfl (res_flags h) arg) h);; mret 0
  else throw EINVAL.

(** [events] of a resource *)
Definition events (i : Z) (h : Resource) : M PtyScheme Z :=
  match h with
  | PtyControlTerm p fl nr nw => control_events i p fl nr nw
  | PtySubTerm p fl nr nw => sub_events i p fl nr nw
  | _ => mret 0
  end.

Definition fevent (i : Z) : M PtyScheme Z :=
  h ← handle_at i;
  match h with
  | PtyControlTerm p fl _ _ => control_events i p fl false false
  | PtySubTerm p fl _ _ => sub_events i p fl false false
  | _ => throw EBADF
  end.

Definition fpath (i : Z) (buf : list u8) : M PtyScheme (Z * list u8) :=
  h ← handle_at i;
  match h with
  | PtyControlTerm p _ _ _ => x ← strong p; mret (path x buf)
  | _ => x ← upgrade (res_pty h); x ← ok_or EPIPE x; mret (path x buf)
  end.

Definition fstat (i : Z) : M PtyScheme Stat :=
  _ ← handle_at i;
  mret {| st_mode := Z.lor MODE_CHR 0x1B6; st_uid := 0; st_gid := 0; st_ino := 0; st_nlink := 0;
          st_dev := 0; st_size := 0; st_blksize := 0; st_blocks := 0; st_atime := 0;
          st_atime_nsec := 0; st_ctime := 0; st_ctime_nsec := 0; st_mtime := 0;
          st_mtime_nsec := 0 |}.

Definition fsync (i : Z) : M PtyScheme unit :=
  h ← handle_at i;
  match h with
  | PtySubTerm p _ _ _ => sub_sync p
  | _ => mret tt
  end.

Definition on_close (i : Z) : M PtyScheme unit :=
  modify (fun s => set_handles (delete i (handles s)) (drop_resource (handles s !! i) s)).

(** ** The event loop *)

Definition sorted_ids (s : PtyScheme) : list Z := merge_sort Z.le (elements (dom (handles s))).

(** [handle.timeout(timeout_count)], which only the control terminal
    implements *)
Definition timeout_handle (count : Z) (i : Z) : M PtyScheme unit :=
  h ← gets (fun s => handles s !! i);
  match h with
  | Some (PtyControlTerm p _ _ _) => x ← strong p; put_pty p (timeout count x)
  | _ => mret tt
  end.

(** The [Time] event: every handle is told the new count. *)
Definition timeout_all (count : Z) : M PtyScheme unit :=
  s ← gets Datatypes.id;
  foldr (fun i k => timeout_handle count i;; k) (mret tt) (sorted_ids s).

(** [issue_events]: the [(id, events)] pairs posted to the socket. *)
Fixpoint issue_events_on (ids : list Z) : M PtyScheme (list (Z * Z)) :=
  match ids with
  | [] => mret []
  | i :: ids =>
      h ← gets (fun s => handles s !! i);
      ev ← match h with Some h => events i h | None => mret 0 end;
      rest ← issue_events_on ids;
      mret (if ev =? 0 then rest else (i, ev) :: rest)
  end.

Definition issue_events : M PtyScheme (list (Z * Z)) :=
  s ← gets Datatypes.id; issue_events_on (sorted_ids s).
End scheme.
