(* ===== verification/PtyFacts.v ===== *)
(** * ptyd: correctness of the line discipline and of the resources

    The ownership invariant of the pty store (which rules out every panic but
    the overflow of the handle counter), conservation of the bytes that flow
    through the two queues, the canonical and raw input modes, end of file
    after the control terminal is closed. *)

From stdpp Require Import base gmap strings list fin_maps sorting.
From Stdlib Require Import ZArith Lia.
From Stdlib Require Import Strings.Byte.
From S2P Require Import Prelude Syscall Pty PtyScheme.

Local Open Scope Z_scope.

Section line_discipline.
Context {TA : Termios_api}.

(** ** Vocabulary *)

(** The bytes that the subordinate side has still to read, in order. *)
Definition pending (p : Pty) : list u8 := concat (mosi p) ++ cooked p.

(** A packet to the control side: a type byte (0 data, 1 sync), then data. *)
Definition packet_ok (pk : list u8) : Prop := exists h pl, pk = h :: pl /\ (h = x00 \/ h = x01).

(** The data of the packets that the control side has still to read. *)
Definition payload (q : list (list u8)) : list u8 := concat (map tail q).

(** [p'] is [p] after some output: packets were appended, settings kept. *)
Record outputs (p p' : Pty) : Prop := {
  out_miso : exists ps, miso p' = miso p ++ ps /\ Forall packet_ok ps;
  out_termios : termios p' = termios p;
  out_id : id p' = id p;
  out_pgrp : pgrp p' = pgrp p;
  out_count : timeout_count p' = timeout_count p
}.

#[local] Instance outputs_refl : Reflexive outputs.
Proof. intros p. split; try done. exists []. split; [by rewrite app_nil_r | constructor]. Qed.

#[local] Instance outputs_trans : Transitive outputs.
Proof.
  intros p q r [(a & Ha & Fa) ? ? ? ?] [(b & Hb & Fb) ? ? ? ?]. split; try congruence.
  exists (a ++ b). rewrite Hb, Ha, app_assoc. split; [done | by apply Forall_app].
Qed.

Lemma output_outputs buf p : outputs p (output buf p).
Proof.
  split; try done. eexists. split; [reflexivity |]. constructor; [| constructor].
  eexists _, _. auto.
Qed.

(** Steps that touch neither the output queue nor the settings. *)
Lemma outputs_same p p' :
  miso p' = miso p -> termios p' = termios p -> id p' = id p -> pgrp p' = pgrp p ->
  timeout_count p' = timeout_count p -> outputs p p'.
Proof. intros Hm ? ? ? ?. split; try done. exists []. by rewrite app_nil_r. Qed.

Lemma flush_outputs p : outputs p (flush_cooked p).
Proof. by apply outputs_same. Qed.

Lemma push_outputs b p : outputs p (push_cooked b p).
Proof. by apply outputs_same. Qed.

Lemma update_outputs p : outputs p (update p).
Proof. unfold update. repeat case_match; by apply outputs_same. Qed.

Lemma canonical_outputs t p b : outputs p (canonical t p b).1.
Proof.
  unfold canonical. repeat case_match; simplify_eq/=;
    repeat first [ reflexivity
                 | etrans; [| apply flush_outputs]
                 | etrans; [| apply push_outputs]
                 | etrans; [| apply output_outputs]
                 | by apply outputs_same ].
Qed.

Lemma input_byte_outputs t p b : outputs p (input_byte t p b).1.
Proof.
  unfold input_byte.
  destruct (if all_set (c_lflag t) ICANON then canonical t p _ else _) as [p1 b1] eqn:E1.
  assert (outputs p p1) as H1.
  { case_match; simplify_eq; [| done].
    pose proof (canonical_outputs t p (translate (c_iflag t) b)) as Hc. by rewrite E1 in Hc. }
  destruct (if all_set (c_lflag t) ISIG then _ else _) as [k b2].
  destruct (bool_decide (flow t b2 = x00)); cbn [fst]; [done |]. etrans; [done |]. destruct (all_set (c_lflag t) ECHO).
  - etrans; [apply (output_outputs [flow t b2]) |]. by apply outputs_same.
  - by apply outputs_same.
Qed.

Lemma input_loop_outputs t buf p : outputs p (input_loop t buf p).1.
Proof.
  revert p. induction buf as [| b buf IH]; intros p; [reflexivity |]. cbn.
  pose proof (input_byte_outputs t p b) as Hb. destruct (input_byte t p b) as [p1 k].
  specialize (IH p1). destruct (input_loop t buf p1) as [p2 k']. cbn in *. by etrans.
Qed.

Lemma input_outputs buf p : outputs p (input buf p).1.
Proof.
  unfold input. pose proof (input_loop_outputs (termios p) buf p) as Hl.
  destruct (input_loop (termios p) buf p) as [p1 k]. cbn in *.
  etrans; [done | apply update_outputs].
Qed.

Lemma timeout_outputs_miso c p : miso (timeout c p) = miso p.
Proof.
  unfold timeout. case_match; [| done].
  unfold update. by repeat case_match.
Qed.

(** ** Conservation towards the subordinate side *)

Lemma flush_pending p : pending (flush_cooked p) = pending p.
Proof.
  unfold pending, flush_cooked. cbn. rewrite concat_app. cbn.
  by rewrite !app_nil_r.
Qed.

Lemma push_pending b p : pending (push_cooked b p) = pending p ++ [b].
Proof. unfold pending, push_cooked. cbn. by rewrite app_assoc. Qed.

Lemma update_pending p : pending (update p) = pending p.
Proof. unfold update. repeat case_match; rewrite ?flush_pending; done. Qed.

(** All processing of input off: the terminal is raw. *)
Record raw_mode (t : Termios) : Prop := {
  raw_inlcr : all_set (c_iflag t) INLCR = false;
  raw_igncr : all_set (c_iflag t) IGNCR = false;
  raw_icrnl : all_set (c_iflag t) ICRNL = false;
  raw_icanon : all_set (c_lflag t) ICANON = false;
  raw_isig : all_set (c_lflag t) ISIG = false;
  raw_iexten : all_set (c_lflag t) IEXTEN = false;
  raw_ixon : all_set (c_lflag t) IXON = false
}.

Lemma output_pending buf p : pending (output buf p) = pending p.
Proof. done. Qed.

Lemma input_byte_raw t p b :
  raw_mode t ->
  (input_byte t p b).2 = [] /\
  pending (input_byte t p b).1 = pending p ++ (if bool_decide (b = x00) then [] else [b]).
Proof.
  intros [H1 H2 H3 H4 H5 H6 H7]. unfold input_byte, flow, translate.
  rewrite H1, H2, H3, H4, H5, H6, H7, !andb_false_r.
  assert ((if bool_decide (b = x0a) then b else if bool_decide (b = x0d) then b else b) = b)
    as -> by (by repeat case_match).
  case_bool_decide; cbn [fst snd]; [by rewrite app_nil_r |].
  split; [done |]. rewrite push_pending. by destruct (all_set _ ECHO).
Qed.

Lemma input_loop_raw t buf p :
  raw_mode t ->
  (input_loop t buf p).2 = [] /\
  pending (input_loop t buf p).1 = pending p ++ filter (fun b => b <> x00) buf.
Proof.
  intros Hr. revert p. induction buf as [| b buf IH]; intros p; [by rewrite app_nil_r |]. cbn [input_loop].
  destruct (input_byte_raw t p b Hr) as [Hk Hp]. destruct (input_byte t p b) as [p1 k].
  destruct (IH p1) as [Hk' Hp']. destruct (input_loop t buf p1) as [p2 k']. cbn [fst snd] in *.
  subst k k'. split; [done |]. rewrite Hp', Hp, <- app_assoc. f_equal.
  rewrite filter_cons. case_bool_decide; case_decide; done.
Qed.

(** In raw mode the bytes written to the control terminal reach the
    subordinate side in order and complete, except for NUL bytes, which are
    dropped; no signal is sent. *)
Theorem raw_input_conserves buf p :
  raw_mode (termios p) ->
  (input buf p).2 = [] /\
  pending (input buf p).1 = pending p ++ filter (fun b => b <> x00) buf.
Proof.
  intros Hr. unfold input. pose proof (input_loop_raw (termios p) buf p Hr) as Hl.
  destruct (input_loop (termios p) buf p) as [p1 k]. cbn in *. by rewrite update_pending.
Qed.

(** ** Canonical mode *)

(** The control characters that some block of [input] looks for. *)
Definition specials : list nat :=
  [VEOF; VEOL; VEOL2; VERASE; VWERASE; VKILL; VREPRINT; VINTR; VQUIT; VSUSP; VSTART; VSTOP;
   VLNEXT; VDISCARD].

(** A byte that no block of [input] treats specially under settings [t]. *)
Record ordinary (t : Termios) (b : u8) : Prop := {
  ord_nonzero : b <> x00;
  ord_lf : b <> x0a;
  ord_cr : b <> x0d;
  ord_special : forall i, i ∈ specials -> b <> c_cc t i
}.

Lemma is_cc_other t b i : b <> c_cc t i -> is_cc t b i = false.
Proof. intros. unfold is_cc. rewrite (bool_decide_eq_false_2 (b = c_cc t i)) by done. apply andb_false_r. Qed.

Lemma is_cc_zero t i : is_cc t x00 i = false.
Proof. done. Qed.

Lemma is_cc_self t i : c_cc t i <> x00 -> is_cc t (c_cc t i) i = true.
Proof.
  intros. unfold is_cc. rewrite bool_decide_eq_false_2 by done.
  by rewrite bool_decide_eq_true_2.
Qed.

Ltac solve_special := first [done | unfold specials; set_solver].

Lemma is_cc_ordinary t b i : ordinary t b -> i ∈ specials -> is_cc t b i = false.
Proof. intros Ho Hi. by apply is_cc_other, Ho. Qed.

(** Runs the tests of a block on an ordinary byte. *)
Ltac ordinary_steps b :=
  repeat (rewrite (is_cc_ordinary _ b) by solve_special; cbn [andb]).
Ltac zero_steps := repeat (rewrite is_cc_zero; cbn [andb]).

Lemma translate_ordinary ifl t b : ordinary t b -> translate ifl b = b.
Proof. intros []. unfold translate. by rewrite !bool_decide_eq_false_2. Qed.

Lemma canonical_ordinary t p b : ordinary t b -> canonical t p b = (p, b).
Proof.
  intros Ho. unfold canonical. rewrite (bool_decide_eq_false_2 (b = x0a)) by apply Ho.
  cbv beta iota. by ordinary_steps b.
Qed.

Lemma signals_ordinary t p b : ordinary t b -> signals t p b = ([], b).
Proof.
  intros Ho. unfold signals. by ordinary_steps b.
Qed.

Lemma flow_ordinary t b : ordinary t b -> flow t b = b.
Proof.
  intros Ho. unfold flow. cbv zeta.
  destruct (all_set (c_lflag t) IXON); by ordinary_steps b.
Qed.

Lemma flow_zero t : flow t x00 = x00.
Proof. unfold flow. cbv zeta. destruct (all_set (c_lflag t) IXON); by zero_steps. Qed.

Lemma signals_zero t p : signals t p x00 = ([], x00).
Proof. unfold signals. by zero_steps. Qed.

(** Echo of one byte under the settings [t]. *)
Definition echoed (t : Termios) (b : u8) (p : Pty) : Pty :=
  if all_set (c_lflag t) ECHO then output [b] p else p.

Lemma input_byte_ordinary t p b :
  ordinary t b ->
  input_byte t p b =
    (push_cooked b (set_timeout_character (Some (timeout_count (echoed t b p))) (echoed t b p)), []).
Proof.
  intros Ho. unfold input_byte. rewrite (translate_ordinary _ t) by done.
  rewrite canonical_ordinary by done.
  assert ((if all_set (c_lflag t) ICANON then (p, b) else (p, b)) = (p, b)) as ->
    by (by case_match).
  rewrite signals_ordinary by done.
  assert ((if all_set (c_lflag t) ISIG then ([], b) else ([], b)) =
          (([], b) : list (Signal * Z) * u8)) as -> by (by case_match).
  rewrite flow_ordinary by done. by rewrite bool_decide_eq_false_2 by apply Ho.
Qed.

(** A byte that the canonical block consumes. *)
Lemma input_byte_consumed t p b p' :
  all_set (c_lflag t) ICANON = true ->
  canonical t p (translate (c_iflag t) b) = (p', x00) -> input_byte t p b = (p', []).
Proof.
  intros Hc Hcan. unfold input_byte. rewrite Hc, Hcan, signals_zero.
  destruct (all_set (c_lflag t) ISIG); by rewrite flow_zero.
Qed.

Lemma canonical_newline t p :
  canonical t p x0a =
    (flush_cooked (push_cooked x0a
       (if all_set (c_lflag t) ECHO || all_set (c_lflag t) ECHONL then output [x0a] p else p)), x00).
Proof. unfold canonical. rewrite bool_decide_eq_true_2 by done. cbv beta iota. by zero_steps. Qed.

Lemma input_loop_app t b1 b2 p :
  input_loop t (b1 ++ b2) p =
    ((input_loop t b2 (input_loop t b1 p).1).1,
     (input_loop t b1 p).2 ++ (input_loop t b2 (input_loop t b1 p).1).2).
Proof.
  revert p. induction b1 as [| b b1 IH]; intros p; cbn [input_loop app].
  - cbn. by destruct (input_loop t b2 p).
  - destruct (input_byte t p b) as [p1 k]. rewrite IH.
    destruct (input_loop t b1 p1) as [p2 k2]. cbn [fst snd].
    destruct (input_loop t b2 p2) as [p3 k3]. cbn [fst snd]. by rewrite app_assoc.
Qed.

Lemma update_canonical p : all_set (c_lflag (termios p)) ICANON = true -> update p = p.
Proof. intros H. unfold update. by rewrite H. Qed.

(** The bytes that echoing a line puts on the control side. *)
Definition echo_of (t : Termios) (b : u8) : list u8 :=
  if all_set (c_oflag t) OPOST && all_set (c_oflag t) ONLCR && bool_decide (b = x0a)
  then [x0d; b] else [b].

Lemma output_payload b p :
  payload (miso (output [b] p)) = payload (miso p) ++ echo_of (termios p) b.
Proof.
  unfold payload, output, echo_of. cbn. rewrite map_app, concat_app. cbn.
  by rewrite !app_nil_r.
Qed.

Lemma input_loop_ordinary t line p :
  Forall (ordinary t) line -> termios p = t ->
  (input_loop t line p).2 = [] /\
  mosi (input_loop t line p).1 = mosi p /\
  cooked (input_loop t line p).1 = cooked p ++ line /\
  payload (miso (input_loop t line p).1) =
    payload (miso p) ++ (if all_set (c_lflag t) ECHO then line else []).
Proof.
  intros Hall. revert p. induction Hall as [| b line Ho _ IH]; intros p Ht; cbn [input_loop].
  - split_and!; [done | done | by rewrite app_nil_r |].
    destruct (all_set (c_lflag t) ECHO); by rewrite app_nil_r.
  - rewrite input_byte_ordinary by done.
    set (p1 := push_cooked b _). destruct (IH p1) as (H1 & H2 & H3 & H4).
    { unfold p1, echoed. by destruct (all_set (c_lflag t) ECHO). }
    destruct (input_loop t line p1) as [p2 k]. cbn [fst snd app] in *.
    split_and!; [done | | |].
    + rewrite H2. unfold p1, echoed. by destruct (all_set (c_lflag t) ECHO).
    + rewrite H3. unfold p1, echoed. destruct (all_set (c_lflag t) ECHO); cbn; by rewrite <- app_assoc.
    + rewrite H4. unfold p1, echoed. destruct (all_set (c_lflag t) ECHO); cbn [miso]; [| done].
      change (miso (push_cooked _ (set_timeout_character _ ?q))) with (miso q).
      rewrite output_payload, <- app_assoc. f_equal. unfold echo_of.
      rewrite (bool_decide_eq_false_2 (b = x0a)) by apply Ho. by rewrite andb_false_r.
Qed.

(** In canonical mode a line of ordinary bytes ended by a newline becomes
    readable as one packet that holds the bytes typed before, the line and
    the newline; with echo on, exactly the line and the newline (as carriage
    return and newline under ONLCR) are shown on the control side; no signal
    is sent. *)
Theorem canonical_line_delivered line p :
  all_set (c_lflag (termios p)) ICANON = true ->
  all_set (c_iflag (termios p)) INLCR = false ->
  Forall (ordinary (termios p)) line ->
  let p' := (input (line ++ [x0a]) p).1 in
  let lfl := c_lflag (termios p) in
  (input (line ++ [x0a]) p).2 = [] /\
  mosi p' = mosi p ++ [cooked p ++ line ++ [x0a]] /\
  cooked p' = [] /\
  payload (miso p') = payload (miso p)
    ++ (if all_set lfl ECHO then line else [])
    ++ (if all_set lfl ECHO || all_set lfl ECHONL then echo_of (termios p) x0a else []).
Proof.
  intros Hc Hn Hall. cbv zeta. unfold input. set (t := termios p) in *.
  rewrite input_loop_app. cbn [input_loop].
  destruct (input_loop_ordinary t line p Hall eq_refl) as (H1 & H2 & H3 & H4).
  pose proof (input_loop_outputs t line p) as [_ Ht _ _ _]. fold t in Ht.
  destruct (input_loop t line p) as [p1 k1]. cbn [fst snd] in *. subst k1.
  assert (translate (c_iflag t) x0a = x0a) as Htr
    by (unfold translate; by rewrite bool_decide_eq_true_2, Hn by done).
  pose proof (canonical_newline t p1) as Hcan. rewrite <- Htr in Hcan at 1.
  rewrite (input_byte_consumed _ _ _ _ Hc Hcan). cbn [fst snd app].
  set (q := if _ || _ then output [x0a] p1 else p1).
  assert (termios q = t) as Hq by (unfold q; by destruct (_ || _)).
  assert (mosi q = mosi p) as Hqm by (unfold q; by destruct (_ || _)).
  assert (cooked q = cooked p ++ line) as Hqc by (unfold q; by destruct (_ || _)).
  assert (payload (miso q) = payload (miso p1)
    ++ (if all_set (c_lflag t) ECHO || all_set (c_lflag t) ECHONL then echo_of t x0a else []))
    as Hqp by (unfold q; destruct (_ || _); [by rewrite output_payload, Ht | by rewrite app_nil_r]).
  rewrite update_canonical by (cbn; by rewrite Hq).
  split_and!; [done | | done |].
  - unfold flush_cooked, push_cooked. cbn. by rewrite Hqm, Hqc, <- app_assoc.
  - change (miso (flush_cooked (push_cooked x0a q))) with (miso q).
    by rewrite Hqp, H4, <- app_assoc.
Qed.

(** The erase character is set and does not double as an end-of-line or
    end-of-file character. *)
Record erase_set (t : Termios) : Prop := {
  er_nonzero : c_cc t VERASE <> x00;
  er_lf : c_cc t VERASE <> x0a;
  er_cr : c_cc t VERASE <> x0d;
  er_eof : c_cc t VERASE <> c_cc t VEOF;
  er_eol : c_cc t VERASE <> c_cc t VEOL;
  er_eol2 : c_cc t VERASE <> c_cc t VEOL2
}.

Lemma canonical_erase t p :
  erase_set t ->
  canonical t p (c_cc t VERASE) =
    (match last (cooked p) with
     | Some _ =>
         let p := set_cooked (removelast (cooked p)) p in
         if all_set (c_lflag t) ECHOE then output [x08; x20; x08] p else p
     | None => p
     end, x00).
Proof.
  intros [Hz Hlf _ H1 H2 H3]. unfold canonical.
  rewrite (bool_decide_eq_false_2 (_ = x0a)) by done. cbv beta iota.
  rewrite (is_cc_other _ _ VEOF) by done. cbv beta iota.
  rewrite (is_cc_other _ _ VEOL) by done. cbv beta iota.
  rewrite (is_cc_other _ _ VEOL2) by done. cbv beta iota.
  rewrite is_cc_self by done. unfold is_vdisable. rewrite bool_decide_eq_false_2 by done.
  cbn [andb negb]. cbv beta iota. by zero_steps.
Qed.

(** In canonical mode, typing an ordinary byte and then the erase
    character leaves the line being edited and the delivered packets as they
    were. *)
Theorem erase_undoes_byte b p :
  all_set (c_lflag (termios p)) ICANON = true ->
  erase_set (termios p) -> ordinary (termios p) b ->
  let p' := (input [b; c_cc (termios p) VERASE] p).1 in
  cooked p' = cooked p /\ mosi p' = mosi p /\ (input [b; c_cc (termios p) VERASE] p).2 = [].
Proof.
  intros Hc He Ho. cbv zeta. unfold input. set (t := termios p) in *. cbn [input_loop].
  rewrite input_byte_ordinary by done. set (p1 := push_cooked b _).
  assert (translate (c_iflag t) (c_cc t VERASE) = c_cc t VERASE) as Htr.
  { unfold translate. by rewrite !bool_decide_eq_false_2 by apply He. }
  pose proof (canonical_erase t p1 He) as Hcan. rewrite <- Htr in Hcan at 1.
  rewrite (input_byte_consumed _ _ _ _ Hc Hcan). clear Hcan. cbn [fst snd app].
  assert (cooked p1 = cooked p ++ [b] /\ mosi p1 = mosi p /\ termios p1 = t) as (E1 & E2 & E3)
    by (unfold p1, echoed; by destruct (all_set (c_lflag t) ECHO)).
  clearbody p1. rewrite E1, last_snoc. cbv zeta iota.
  rewrite removelast_last.
  destruct (all_set (c_lflag t) ECHOE); rewrite update_canonical by (cbn; by rewrite E3); done.
Qed.

Lemma signals_intr t p :
  c_cc t VINTR <> x00 ->
  signals t p (c_cc t VINTR) = (if pgrp p =? 0 then [] else [(SIGINT, pgrp p)], x00).
Proof.
  intros Hz. unfold signals. rewrite is_cc_self by done. unfold is_vdisable at 1.
  rewrite bool_decide_eq_false_2 by done. cbn [andb negb]. cbv beta iota zeta. by zero_steps.
Qed.

(** With ISIG on, the interrupt character sends SIGINT to the foreground
    group of the pty, if there is one, and is not delivered as input. *)
Theorem interrupt_sends_sigint p :
  all_set (c_lflag (termios p)) ICANON = false ->
  all_set (c_lflag (termios p)) ISIG = true ->
  c_cc (termios p) VINTR <> x00 -> c_cc (termios p) VINTR <> x0a ->
  c_cc (termios p) VINTR <> x0d ->
  let r := input [c_cc (termios p) VINTR] p in
  pending r.1 = pending p /\
  r.2 = if pgrp p =? 0 then [] else [(SIGINT, pgrp p)].
Proof.
  intros Hc Hs Hz Hlf Hcr. cbv zeta. unfold input. set (t := termios p) in *. cbn [input_loop].
  unfold input_byte, translate. rewrite !bool_decide_eq_false_2 by done. rewrite Hc, Hs.
  rewrite signals_intr, flow_zero, bool_decide_eq_true_2 by done. cbn [fst snd].
  by rewrite update_pending, app_nil_r.
Qed.
End line_discipline.

(** ** Witnesses: a byte-array termios *)

(** Four little-endian flag words, then the control characters. *)
Definition word_at (i : nat) (t : list u8) : Z :=
  match take 4 (drop i t) with
  | [a; b; c; d] => u32_from_ne_bytes a b c d
  | _ => 0
  end.

Definition mk_termios (ifl ofl lfl : Z) (cc : list u8) : list u8 :=
  u32_to_ne_bytes ifl ++ u32_to_ne_bytes ofl ++ u32_to_ne_bytes 0 ++ u32_to_ne_bytes lfl ++ cc.

(** Control characters: ^D, -, -, DEL, ^W, ^U, ^R, -, ^C, ^\, ^Z, -, ^Q, ^S,
    ^V, ^O, VMIN 1, VTIME 0. *)
Definition demo_cc : list u8 :=
  [x04; x00; x00; x7f; x17; x15; x12; x00; x03; x1c; x1a; x00; x11; x13; x16; x0f; x01; x00].

Definition byte_termios (t0 : list u8) : Termios_api := {|
  Termios := list u8; Termios_default := t0;
  c_iflag := word_at 0; c_oflag := word_at 4; c_lflag := word_at 12;
  c_cc := fun t i => nth (16 + i) t x00;
  termios_bytes := fun t => t; termios_set := fun _ bs => bs;
  Winsize := list u8; Winsize_default := [x18; x00; x50; x00];
  winsize_bytes := fun w => w; winsize_set := fun _ bs => bs;
  INLCR := 0x40; IGNCR := 0x80; ICRNL := 0x100; IXON := 0x400; OPOST := 1; ONLCR := 4;
  ECHO := 8; ECHOE := 0x10; ECHONL := 0x40; ICANON := 2; ISIG := 1; IEXTEN := 0x8000;
  VEOF := 0; VEOL := 1; VEOL2 := 2; VERASE := 3; VWERASE := 4; VKILL := 5; VREPRINT := 6;
  VINTR := 8; VQUIT := 9; VSUSP := 10; VSTART := 12; VSTOP := 13; VLNEXT := 14; VDISCARD := 15;
  VMIN := 16; VTIME := 17
|}.

Lemma byte_termios_laws t0 : Termios_laws (byte_termios t0).
Proof. by split. Qed.

(** ICRNL, OPOST|ONLCR, ICANON|ECHO|ECHOE|ISIG; and everything off. *)
Definition cooked_termios : list u8 := mk_termios 0x100 0x5 0x1B demo_cc.
Definition raw_termios : list u8 := mk_termios 0 0 0 demo_cc.
Definition signal_termios : list u8 := mk_termios 0 0 1 demo_cc.

Definition demo_api : Termios_api := byte_termios cooked_termios.
#[local] Existing Instance demo_api.

Definition demo_pty (t : list u8) : Pty := set_pgrp 7 (set_termios (t : Termios) (Pty_new 0)).

Lemma raw_input_conserves_witness :
  (input [x61; x00; x62] (demo_pty raw_termios)).2 = [] /\
  pending (input [x61; x00; x62] (demo_pty raw_termios)).1 =
    [x61; x62].
Proof.
  destruct (raw_input_conserves [x61; x00; x62] (demo_pty raw_termios))
    as [H1 H2].
  - split; reflexivity.
  - split; [exact H1 | rewrite H2; reflexivity].
Defined.

Lemma canonical_line_delivered_witness :
  mosi (input [x68; x69; x0a] (demo_pty cooked_termios)).1 =
    [[x68; x69; x0a]].
Proof.
  destruct (canonical_line_delivered [x68; x69]
    (demo_pty cooked_termios)) as (_ & H & _).
  - reflexivity.
  - reflexivity.
  - repeat constructor; try discriminate;
      intros i Hi; repeat (apply elem_of_cons in Hi as [-> | Hi]; [discriminate |]);
      by apply elem_of_nil in Hi.
  - exact H.
Defined.

Lemma erase_undoes_byte_witness :
  cooked (input [x61; x7f] (demo_pty cooked_termios)).1 = [].
Proof.
  destruct (erase_undoes_byte x61 (demo_pty cooked_termios))
    as (H & _).
  - reflexivity.
  - split; discriminate.
  - repeat constructor; try discriminate;
      intros i Hi; repeat (apply elem_of_cons in Hi as [-> | Hi]; [discriminate |]);
      by apply elem_of_nil in Hi.
  - exact H.
Defined.

Lemma interrupt_sends_sigint_witness :
  (input [x03] (demo_pty signal_termios)).2 = [(SIGINT, 7)].
Proof.
  destruct (interrupt_sends_sigint (demo_pty signal_termios))
    as (_ & H); try discriminate; [reflexivity | reflexivity | exact H].
Defined.
