(* ===== verification/PtySchemeFacts.v ===== *)
(** * ptyd: correctness of the resources and the scheme

    The ownership invariant of the pty store and its preservation by every
    request, absence of panics, conservation of bytes by partial reads, and
    what closing the control terminal does to the other side. *)

From stdpp Require Import base gmap strings list fin_maps sorting.
From Stdlib Require Import ZArith Lia.
From Stdlib Require Import Strings.Byte.
From S2P Require Import Prelude Syscall Pty PtyScheme PtyFacts.

Local Open Scope Z_scope.

Section invariant.
Context {TG : Target} {SC : Syscall} {TA : Termios_api}.

(** Every pty of the store is owned by exactly one control terminal, every
    control terminal owns a pty, references are below [next_ref], queued
    output packets carry a type byte, and the counter is a [usize]. *)
Record pty_wf (s : PtyScheme) : Prop := {
  pw_next : 0 <= next_id s < usize_mod;
  pw_heap : forall p x, heap s !! p = Some x -> p < next_ref s;
  pw_res : forall i h, handles s !! i = Some h -> res_pty h < next_ref s;
  pw_strong : forall i h, handles s !! i = Some h -> is_control h = true ->
    is_Some (heap s !! res_pty h);
  pw_unique : forall i j h h', handles s !! i = Some h -> handles s !! j = Some h' ->
    is_control h = true -> is_control h' = true -> res_pty h = res_pty h' -> i = j;
  pw_owner : forall p x, heap s !! p = Some x ->
    exists i h, handles s !! i = Some h /\ is_control h = true /\ res_pty h = p;
  pw_packets : forall p x, heap s !! p = Some x -> Forall packet_ok (miso x)
}.

Lemma PtyScheme_new_wf : pty_wf PtyScheme_new.
Proof.
  pose proof usize_mod_ge.
  split; cbn; try (intros *; rewrite lookup_empty; done). lia.
Qed.

Lemma wf_put_pty s p x x' :
  pty_wf s -> heap s !! p = Some x -> Forall packet_ok (miso x') ->
  pty_wf (set_heap (<[p := x']> (heap s)) s).
Proof.
  intros [Hn Hh Hr Hs Hu Ho Hp] Hx Hm. split; cbn; try done.
  - intros q y [[<- <-] | [? ?]]%lookup_insert_Some; eauto.
  - intros i h Hi Hc. rewrite lookup_insert. case_decide; [done | by eapply Hs].
  - intros q y [[<- <-] | [? ?]]%lookup_insert_Some; eauto.
  - intros q y [[<- <-] | [? ?]]%lookup_insert_Some; eauto.
Qed.

Lemma wf_put_handle s i h h' :
  pty_wf s -> handles s !! i = Some h -> res_pty h' = res_pty h -> is_control h' = is_control h ->
  pty_wf (set_handles (<[i := h']> (handles s)) s).
Proof.
  intros [Hn Hh Hr Hs Hu Ho Hp] Hi He Hc. split; cbn; try done.
  - intros j k [[<- <-] | [? ?]]%lookup_insert_Some; [rewrite He |]; eauto.
  - intros j k [[<- <-] | [? ?]]%lookup_insert_Some; [rewrite He, Hc |]; eauto.
  - intros j1 j2 k1 k2 [[<- <-] | [? ?]]%lookup_insert_Some [[<- <-] | [? ?]]%lookup_insert_Some;
      rewrite ?He, ?Hc; eauto.
  - intros p x Hx. destruct (Ho _ _ Hx) as (j & k & Hj & Hk & Hp').
    destruct (decide (i = j)) as [<- | Hne].
    + exists i, h'. rewrite lookup_insert_eq. simplify_eq. split_and!; congruence.
    + exists j, k. by rewrite lookup_insert_ne.
Qed.

Lemma wf_add_kills s k : pty_wf s -> pty_wf (add_kills k s).
Proof. by intros []. Qed.

Lemma wf_set_next s n : pty_wf s -> 0 <= n < usize_mod -> pty_wf (set_next_id n s).
Proof. by intros []. Qed.

(** Closing a handle: the store loses the pty of a control terminal. *)
Lemma pty_wf_drop s i :
  pty_wf s -> pty_wf (set_handles (delete i (handles s)) (drop_resource (handles s !! i) s)).
Proof.
  intros [Hn Hh Hr Hs Hu Ho Hp]. destruct (handles s !! i) as [h |] eqn:Ei.
  - destruct (is_control h) eqn:Ec.
    + destruct h as [p fl a b | | | |]; try done. cbn. split; cbn; try done.
      * intros q y [? ?]%lookup_delete_Some. eauto.
      * intros j k [? ?]%lookup_delete_Some. eauto.
      * intros j k [Hne Hj]%lookup_delete_Some Hk.
        rewrite lookup_delete_ne; [eauto |]. intros Heq. apply Hne. by eapply Hu.
      * intros j1 j2 k1 k2 [? ?]%lookup_delete_Some [? ?]%lookup_delete_Some. eauto.
      * intros q y [Hq Hy]%lookup_delete_Some. destruct (Ho _ _ Hy) as (j & k & Hj & Hk & Hp').
        exists j, k. split_and!; try done. apply lookup_delete_Some. split; [| done].
        intros <-. rewrite Ei in Hj. injection Hj as <-. by apply Hq.
      * intros q y [? ?]%lookup_delete_Some. eauto.
    + assert (drop_resource (Some h) s = s) as -> by (by destruct h). split; cbn; try done.
      * intros j k [? ?]%lookup_delete_Some. eauto.
      * intros j k [? ?]%lookup_delete_Some. eauto.
      * intros j1 j2 k1 k2 [? ?]%lookup_delete_Some [? ?]%lookup_delete_Some. eauto.
      * intros q y Hy. destruct (Ho _ _ Hy) as (j & k & Hj & Hk & Hp').
        exists j, k. split_and!; try done. apply lookup_delete_Some. split; [congruence | done].
  - cbn. rewrite delete_id by done. by split.
Qed.

(** A fresh weak resource, or a fresh control terminal with a fresh pty, at a
    free handle. *)
Lemma wf_insert_weak s i h :
  pty_wf s -> handles s !! i = None -> is_control h = false -> res_pty h < next_ref s ->
  pty_wf (set_handles (<[i := h]> (handles s)) s).
Proof.
  intros [Hn Hh Hr Hs Hu Ho Hp] Hi Hc Hlt. split; cbn; try done.
  - intros j k [[<- <-] | [? ?]]%lookup_insert_Some; eauto.
  - intros j k [[<- <-] | [? ?]]%lookup_insert_Some; [congruence | eauto].
  - intros j1 j2 k1 k2 [[<- <-] | [? ?]]%lookup_insert_Some [[<- <-] | [? ?]]%lookup_insert_Some;
      eauto; congruence.
  - intros p x Hx. destruct (Ho _ _ Hx) as (j & k & Hj & Hk & Hp').
    exists j, k. rewrite lookup_insert_ne by congruence. done.
Qed.

Lemma wf_insert_control s i fl n x :
  pty_wf s -> handles s !! i = None -> miso x = [] ->
  pty_wf {| next_id := next_id s;
            handles := <[i := PtyControlTerm (next_ref s) fl false n]> (handles s);
            heap := <[next_ref s := x]> (heap s); next_ref := next_ref s + 1;
            kills := kills s |}.
Proof.
  intros [Hn Hh Hr Hs Hu Ho Hp] Hi Hm.
  assert (forall j h, handles s !! j = Some h -> res_pty h <> next_ref s) as Hne.
  { intros j h Hj. pose proof (Hr _ _ Hj). lia. }
  split; cbn; try done.
  - intros q y [[<- <-] | [? Hy]]%lookup_insert_Some; [lia |]. specialize (Hh _ _ Hy). lia.
  - intros j k [[<- <-] | [? Hk]]%lookup_insert_Some; cbn; [lia |]. specialize (Hr _ _ Hk). lia.
  - intros j k [[<- <-] | [? Hk]]%lookup_insert_Some Hc; cbn; [by rewrite lookup_insert_eq |].
    rewrite lookup_insert_ne; [eauto |]. intros Heq. by eapply Hne.
  - intros j1 j2 k1 k2 [[<- <-] | [? H1]]%lookup_insert_Some [[<- <-] | [? H2]]%lookup_insert_Some;
      cbn; intros; try done; [by edestruct Hne | by edestruct Hne | eauto].
  - intros q y [[<- <-] | [? Hy]]%lookup_insert_Some.
    + eexists i, _. rewrite lookup_insert_eq. done.
    + destruct (Ho _ _ Hy) as (j & k & Hj & Hk & Hp'). exists j, k.
      rewrite lookup_insert_ne by congruence. done.
  - intros q y [[<- <-] | [? Hy]]%lookup_insert_Some; [by rewrite Hm | eauto].
Qed.

(** ** Rules for the primitives *)

Lemma wp_handle_at i Q s :
  (forall h, handles s !! i = Some h -> Q (Ok h) s) ->
  (handles s !! i = None -> Q (Err EBADF) s) -> wp (handle_at i) Q s.
Proof. intros. unfold handle_at. repeat wp_step; auto. Qed.

Lemma wp_upgrade p Q s : Q (Ok (heap s !! p)) s -> wp (upgrade p) Q s.
Proof. done. Qed.

(** The strong reference of a control terminal is alive. *)
Lemma wp_strong i h Q s :
  pty_wf s -> handles s !! i = Some h -> is_control h = true ->
  (forall x, heap s !! res_pty h = Some x -> Q (Ok x) s) -> wp (strong (res_pty h)) Q s.
Proof.
  intros Hw Hi Hc HQ. destruct (pw_strong _ Hw _ _ Hi Hc) as [x Hx].
  unfold strong, wp, upgrade, gets, mbind, M_bind. rewrite Hx. by apply HQ.
Qed.

Lemma wp_put_handle i h Q s :
  Q (Ok tt) (set_handles (<[i := h]> (handles s)) s) -> wp (put_handle i h) Q s.
Proof. done. Qed.

Lemma wp_put_pty p x Q s :
  Q (Ok tt) (set_heap (<[p := x]> (heap s)) s) -> wp (put_pty p x) Q s.
Proof. done. Qed.

(** Never panics, and keeps the invariant. *)
Definition safe {A} (m : M PtyScheme A) : Prop :=
  forall s, pty_wf s -> wp m (fun o s' => pty_wf s' /\ o <> Panic) s.

(** Panics only when the handle counter overflows in a checked build. *)
Definition safe_id {A} (m : M PtyScheme A) : Prop :=
  forall s, pty_wf s ->
  wp m (fun o s' => pty_wf s' /\
          (o = Panic -> overflow_checks = true /\ next_id s + 1 = usize_mod)) s.

Lemma safe_safe_id {A} (m : M PtyScheme A) : safe m -> safe_id m.
Proof. intros Hs s Hw. eapply wp_mono; [| by apply Hs]. naive_solver. Qed.

Lemma safe_bind {A B} (m : M PtyScheme A) (k : A -> M PtyScheme B) :
  safe m -> (forall a, safe (k a)) -> safe (m ≫= k).
Proof.
  intros Hm Hk s Hw. apply wp_bind. eapply wp_mono; [| by apply Hm].
  intros [] s' [Hw' Hp]; [by apply Hk | done | done].
Qed.

Lemma safe_ret {A} (a : A) : safe (mret a).
Proof. intros s Hw. by apply wp_ret. Qed.

Lemma safe_wp {A B} (m : M PtyScheme A) (k : A -> M PtyScheme B) s :
  (wp m (fun o s' => match o with
                     | Ok a => wp (k a) (fun o s' => pty_wf s' /\ o <> Panic) s'
                     | _ => pty_wf s' /\ o <> Panic
                     end) s) ->
  wp (m ≫= k) (fun o s' => pty_wf s' /\ o <> Panic) s.
Proof. intros H. apply wp_bind. eapply wp_mono; [| exact H]. intros []; cbn; naive_solver. Qed.
End invariant.

Ltac pwp_step :=
  match goal with
  | |- wp (handle_at _) _ _ => apply wp_handle_at; [intros ? ? | intros ?]
  | |- wp (upgrade _) _ _ => apply wp_upgrade
  | |- wp (put_handle _ _) _ _ => apply wp_put_handle
  | |- wp (put_pty _ _) _ _ => apply wp_put_pty
  | |- _ /\ _ <> Panic => split; [| discriminate]
  | _ => wp_step
  end.
Ltac pwp := repeat (pwp_step; try done).

Section safety.
Context {TG : Target} {SC : Syscall} {TA : Termios_api}.

Lemma packet_ok_cons h pl pl' : packet_ok (h :: pl) -> packet_ok (h :: pl').
Proof. intros (h' & ? & [= <- <-] & ?). by exists h, pl'. Qed.

Lemma outputs_packets x x' :
  outputs x x' -> Forall packet_ok (miso x) -> Forall packet_ok (miso x').
Proof. intros [(ps & -> & Hps) _ _ _ _] Hm. by apply Forall_app. Qed.

(** Solves preservation goals built from [wf_put_pty] and [wf_put_handle]. *)
Ltac packets :=
  cbn [miso set_mosi set_miso set_pgrp set_termios set_winsize]; cbn [heap set_handles set_heap] in *;
  first [ by eapply pw_packets
        | eapply outputs_packets; [apply update_outputs | packets]
        | eapply outputs_packets; [apply input_outputs | packets]
        | eapply outputs_packets; [apply output_outputs | packets]
        | rewrite timeout_outputs_miso; packets
        | assumption ].
Ltac pty_solve :=
  first [ assumption
        | eapply wf_put_pty;
            [ pty_solve
            | cbn [heap set_handles set_heap] in *; first [eassumption | apply lookup_insert_eq]
            | packets ]
        | eapply wf_put_handle; [pty_solve | eassumption | reflexivity | reflexivity]
        | apply wf_add_kills; pty_solve ].

Lemma sub_read_safe i p fl nr nw buf s :
  pty_wf s -> handles s !! i = Some (PtySubTerm p fl nr nw) ->
  wp (sub_read i p fl nw buf) (fun o s' => pty_wf s' /\ o <> Panic) s.
Proof. intros Hw Hi. unfold sub_read. pwp; pty_solve. Qed.

Lemma sub_write_safe p buf : safe (sub_write p buf).
Proof. intros s Hw. unfold sub_write. pwp; pty_solve. Qed.

Lemma sub_sync_safe p : safe (sub_sync p).
Proof.
  intros s Hw. unfold sub_sync. pwp. eapply wf_put_pty; [done | done |]. cbn.
  apply Forall_app; split; [by eapply pw_packets |].
  constructor; [| constructor]. exists x01, []. auto.
Qed.

Lemma sub_events_safe i p fl nr nw nr' nw' s :
  pty_wf s -> handles s !! i = Some (PtySubTerm p fl nr nw) ->
  wp (sub_events i p fl nr' nw') (fun o s' => pty_wf s' /\ o <> Panic) s.
Proof. intros Hw Hi. unfold sub_events. pwp; pty_solve. Qed.

Lemma pgrp_read_safe p buf : safe (pgrp_read p buf).
Proof. intros s Hw. unfold pgrp_read. pwp. Qed.
Lemma pgrp_write_safe p buf : safe (pgrp_write p buf).
Proof. intros s Hw. unfold pgrp_write. pwp; pty_solve. Qed.
Lemma termios_read_safe p buf : safe (termios_read p buf).
Proof. intros s Hw. unfold termios_read. pwp. Qed.
Lemma termios_write_safe p buf : safe (termios_write p buf).
Proof. intros s Hw. unfold termios_write. pwp; pty_solve. Qed.
Lemma winsize_read_safe p buf : safe (winsize_read p buf).
Proof. intros s Hw. unfold winsize_read. pwp. Qed.
Lemma winsize_write_safe p buf : safe (winsize_write p buf).
Proof. intros s Hw. unfold winsize_write. pwp; pty_solve. Qed.

(** For a control terminal the strong reference is alive. *)
Lemma wp_control i p fl nr nw Q s :
  pty_wf s -> handles s !! i = Some (PtyControlTerm p fl nr nw) ->
  (forall x, heap s !! p = Some x -> Q (Ok x) s) -> wp (strong p) Q s.
Proof. intros Hw Hi HQ. by apply (wp_strong i (PtyControlTerm p fl nr nw)). Qed.

Lemma control_read_safe i p fl nr nw buf s :
  pty_wf s -> handles s !! i = Some (PtyControlTerm p fl nr nw) ->
  wp (control_read i p fl nw buf) (fun o s' => pty_wf s' /\ o <> Panic) s.
Proof.
  intros Hw Hi. unfold control_read. pwp.
  set (s1 := set_handles _ s). assert (pty_wf s1) as Hw1 by (unfold s1; pty_solve).
  apply (wp_control i p fl false nw); [done | cbn; apply lookup_insert_eq |].
  intros x Hx. pose proof (pw_packets _ Hw1 _ _ Hx) as Hpk.
  destruct (miso x) as [| packet rest] eqn:Em; pwp.
  all: apply Forall_cons in Hpk as [Hpk Hrest].
  - eapply wf_put_pty; [done | done |]. cbn. constructor; [| done].
    destruct packet; simplify_eq/=. by eapply packet_ok_cons.
  - destruct Hpk as (? & ? & -> & _). done.
  - eapply wf_put_pty; [done | done |]. done.
Qed.

Lemma control_write_safe i p fl nr nw buf s :
  pty_wf s -> handles s !! i = Some (PtyControlTerm p fl nr nw) ->
  wp (control_write p buf) (fun o s' => pty_wf s' /\ o <> Panic) s.
Proof.
  intros Hw Hi. unfold control_write. pwp. apply (wp_control i p fl nr nw); [done | done |].
  intros x Hx. pwp.
  pose proof (input_outputs buf x) as Ho. rewrite Heqp0 in Ho. cbn in Ho.
  apply wf_add_kills. eapply wf_put_pty; [done | done |].
  eapply outputs_packets; [done |]. by eapply pw_packets.
Qed.

Lemma control_events_safe i p fl nr nw nr' nw' s :
  pty_wf s -> handles s !! i = Some (PtyControlTerm p fl nr nw) ->
  wp (control_events i p fl nr' nw') (fun o s' => pty_wf s' /\ o <> Panic) s.
Proof.
  intros Hw Hi. unfold control_events. pwp. apply (wp_control i p fl nr nw); [done | done |].
  intros x Hx. pwp; pty_solve.
Qed.

Lemma take_id_safe Q s :
  pty_wf s ->
  (forall n, 0 <= n < usize_mod -> Q (Ok (next_id s)) (set_next_id n s)) ->
  (overflow_checks = true -> next_id s + 1 = usize_mod -> Q Panic s) ->
  wp take_id Q s.
Proof.
  intros Hw HQ HP. pose proof (pw_next _ Hw). unfold take_id. pwp.
  - apply HQ. unfold usize_mod. lia.
  - apply HP; [done |]. unfold usize_mod in *. lia.
  - apply HQ. apply Z.mod_pos_bound. pose proof usize_mod_ge. unfold usize_mod in *. lia.
Qed.

Lemma wf_insert_handle_weak s i h :
  pty_wf s -> is_control h = false -> res_pty h < next_ref s ->
  pty_wf (set_handles (<[i := h]> (handles s)) (drop_resource (handles s !! i) s)).
Proof.
  intros Hw Hc Hlt. pose proof (pty_wf_drop _ i Hw) as Hd.
  eapply (wf_insert_weak _ i h) in Hd; [| cbn; apply lookup_delete_eq | done |].
  - cbn in Hd. by rewrite insert_delete_eq in Hd.
  - cbn. by destruct (handles s !! i) as [[] |].
Qed.

Lemma wf_open_control s i fl :
  pty_wf s ->
  pty_wf (let s1 := {| next_id := next_id s; handles := handles s;
                       heap := <[next_ref s := Pty_new i]> (heap s);
                       next_ref := next_ref s + 1; kills := kills s |} in
          set_handles (<[i := PtyControlTerm (next_ref s) fl false false]> (handles s1))
            (drop_resource (handles s1 !! i) s1)).
Proof.
  intros Hw. pose proof (pty_wf_drop _ i Hw) as Hd.
  apply (wf_insert_control _ i fl false (Pty_new i)) in Hd;
    [| cbn; apply lookup_delete_eq | done].
  cbn in Hd |- *. rewrite insert_delete_eq in Hd.
  destruct (handles s !! i) as [[q ? ? ? | | | |] |] eqn:Ei; cbn in *; try exact Hd.
  rewrite delete_insert_ne; [exact Hd |]. pose proof (pw_res _ Hw _ _ Ei). cbn in *. lia.
Qed.

Lemma open_safe path flags : safe_id (open path flags).
Proof.
  intros s Hw. unfold open. destruct (str_is_empty _).
  - apply wp_bind. apply take_id_safe; [done | | by auto]. intros n Hn. pwp. split; [| done].
    apply (wf_open_control (set_next_id n s)). by apply wf_set_next.
  - pwp; try (split; done). apply take_id_safe; [done | | by auto]. intros n Hn. pwp.
    split; [| done]. apply (wf_insert_handle_weak (set_next_id n s)); [| done |].
    + by apply wf_set_next.
    + cbn. by eapply pw_res.
Qed.

Lemma dup_safe old_id buf : safe_id (dup old_id buf).
Proof.
  intros s Hw. unfold dup. pwp; try (split; done);
    (apply take_id_safe; [done | | by auto]; intros n Hn; pwp; split; [| done];
     apply (wf_insert_handle_weak (set_next_id n s)); [by apply wf_set_next | done |];
     cbn; by eapply pw_res).
Qed.

Lemma read_safe i buf : safe (read i buf).
Proof.
  intros s Hw. unfold read. pwp.
  - by eapply control_read_safe.
  - by eapply sub_read_safe.
  - by apply pgrp_read_safe.
  - by apply termios_read_safe.
  - by apply winsize_read_safe.
Qed.

Lemma write_safe i buf : safe (write i buf).
Proof.
  intros s Hw. unfold write. pwp.
  - by eapply control_write_safe.
  - by apply sub_write_safe.
  - by apply pgrp_write_safe.
  - by apply termios_write_safe.
  - by apply winsize_write_safe.
Qed.

Lemma fcntl_safe i cmd arg : safe (fcntl i cmd arg).
Proof.
  intros s Hw. unfold fcntl. pwp. eapply wf_put_handle; [done | done | |]; by destruct h.
Qed.

Lemma events_safe i h s :
  pty_wf s -> handles s !! i = Some h ->
  wp (events i h) (fun o s' => pty_wf s' /\ o <> Panic) s.
Proof.
  intros Hw Hi. unfold events. destruct h; pwp;
    [by eapply control_events_safe | by eapply sub_events_safe].
Qed.

Lemma fevent_safe i : safe (fevent i).
Proof.
  intros s Hw. unfold fevent. pwp; [by eapply control_events_safe | by eapply sub_events_safe].
Qed.

Lemma fpath_safe i buf : safe (fpath i buf).
Proof.
  intros s Hw. unfold fpath. pwp. eapply wp_control; [done | done |]. intros x Hx. pwp.
Qed.

Lemma fstat_safe i : safe (fstat i).
Proof. intros s Hw. unfold fstat. pwp. Qed.

Lemma fsync_safe i : safe (fsync i).
Proof. intros s Hw. unfold fsync. pwp. by apply sub_sync_safe. Qed.

Lemma on_close_safe i : safe (on_close i).
Proof. intros s Hw. unfold on_close. pwp. by apply pty_wf_drop. Qed.

Lemma timeout_handle_safe count i : safe (timeout_handle count i).
Proof.
  intros s Hw. unfold timeout_handle. pwp. eapply wp_control; [done | done |].
  intros x Hx. pwp. pty_solve.
Qed.

Lemma timeout_all_safe count : safe (timeout_all count).
Proof.
  intros s Hw. unfold timeout_all. pwp. generalize (sorted_ids (Datatypes.id s)) as ids.
  intros ids. revert s Hw. induction ids as [| i ids IH]; intros s Hw; cbn; [by apply wp_ret |].
  apply (safe_bind _ _ (timeout_handle_safe count i)); [| done]. intros []. exact IH.
Qed.

Lemma issue_events_safe : safe issue_events.
Proof.
  intros s Hw. unfold issue_events. pwp. generalize (sorted_ids (Datatypes.id s)) as ids.
  intros ids. revert s Hw. induction ids as [| i ids IH]; intros s Hw; cbn; [by apply wp_ret |].
  apply safe_wp. apply wp_gets. apply safe_wp.
  destruct (handles s !! i) as [h |] eqn:Eh.
  - eapply wp_mono; [| by eapply events_safe]. intros [] s' [Hw' Hp]; [| done | done].
    apply safe_wp. eapply wp_mono; [| by apply IH].
    intros [] s2 [Hw2 Hp2]; [by apply wp_ret | done | done].
  - apply wp_ret. apply safe_wp. eapply wp_mono; [| by apply IH].
    intros [] s2 [Hw2 Hp2]; [by apply wp_ret | done | done].
Qed.
End safety.

(** ** Requests and reachable states *)

Inductive request :=
| R_open (path : string) (flags : Z)
| R_dup (old_id : Z) (buf : list u8)
| R_read (i : Z) (buf : list u8)
| R_write (i : Z) (buf : list u8)
| R_fcntl (i cmd arg : Z)
| R_fevent (i : Z)
| R_fpath (i : Z) (buf : list u8)
| R_fstat (i : Z)
| R_fsync (i : Z)
| R_on_close (i : Z)
| R_timeout (count : Z)
| R_issue_events.

Section reachable.
Context {TG : Target} {SC : Syscall} {TA : Termios_api}.

(** [m] with its value dropped *)
Definition run_unit {A} (m : M PtyScheme A) : M PtyScheme unit := _ ← m; mret tt.

(** One turn of the daemon for a request or a timer event. *)
Definition serve (r : request) : M PtyScheme unit :=
  match r with
  | R_open path flags => run_unit (open path flags)
  | R_dup old_id buf => run_unit (dup old_id buf)
  | R_read i buf => run_unit (read i buf)
  | R_write i buf => run_unit (write i buf)
  | R_fcntl i cmd arg => run_unit (fcntl i cmd arg)
  | R_fevent i => run_unit (fevent i)
  | R_fpath i buf => run_unit (fpath i buf)
  | R_fstat i => run_unit (fstat i)
  | R_fsync i => fsync i
  | R_on_close i => on_close i
  | R_timeout count => timeout_all count
  | R_issue_events => run_unit issue_events
  end.

Definition reachable (s : PtyScheme) : Prop :=
  exists rs, s = foldl (fun s r => (serve r s).2) PtyScheme_new rs.

Lemma run_unit_safe_id {A} (m : M PtyScheme A) : safe_id m -> safe_id (run_unit m).
Proof.
  intros Hm s Hw. unfold run_unit. apply wp_bind. eapply wp_mono; [| by apply Hm].
  intros [] s' [Hw' Hp]; [by apply wp_ret | done | by auto].
Qed.

Lemma serve_safe r : safe_id (serve r).
Proof.
  destruct r; cbn [serve]; try apply run_unit_safe_id;
    first [ apply open_safe | apply dup_safe | apply safe_safe_id ].
  - apply read_safe.
  - apply write_safe.
  - apply fcntl_safe.
  - apply fevent_safe.
  - apply fpath_safe.
  - apply fstat_safe.
  - apply fsync_safe.
  - apply on_close_safe.
  - apply timeout_all_safe.
  - apply issue_events_safe.
Qed.

Lemma pty_reachable_is_wf s : reachable s -> pty_wf s.
Proof.
  intros [rs ->]. assert (pty_wf PtyScheme_new) as Hw by apply PtyScheme_new_wf.
  revert Hw. generalize PtyScheme_new as s. induction rs as [| r rs IH]; intros s Hw; [done |].
  cbn. apply IH. by apply (serve_safe r s Hw).
Qed.

(** C37: in every state that requests and timer events can reach, each pty is
    owned by exactly one open control terminal, each control terminal owns a
    live pty, and every packet queued for the control side has a type byte. *)
Theorem pty_ownership_invariant s : reachable s -> pty_wf s.
Proof. apply pty_reachable_is_wf. Qed.

(** No request and no timer event makes the daemon panic in a reachable
    state, unless the handle counter overflows in a build with overflow
    checks. *)
Theorem pty_no_panic s r :
  reachable s -> (overflow_checks = true -> next_id s + 1 < usize_mod) ->
  (serve r s).1 <> Panic.
Proof.
  intros Hr%pty_reachable_is_wf Hn Hp. destruct (serve_safe r s Hr) as [_ H].
  specialize (H Hp) as [Hc He]. specialize (Hn Hc). lia.
Qed.

(** ** Reading *)

Lemma handle_at_Some i h s : handles s !! i = Some h -> handle_at i s = (Ok h, s).
Proof. intros Hi. unfold handle_at, gets, mbind, M_bind. by rewrite Hi. Qed.

Lemma read_handle i h buf s :
  handles s !! i = Some h ->
  read i buf s =
    match h with
    | PtyControlTerm p fl _ nw => control_read i p fl nw buf
    | PtySubTerm p fl _ nw => sub_read i p fl nw buf
    | PtyPgrp p _ => pgrp_read p buf
    | PtyTermios p _ => termios_read p buf
    | PtyWinsize p _ => winsize_read p buf
    end s.
Proof. intros Hi. unfold read, mbind, M_bind. by rewrite (handle_at_Some _ h). Qed.

(** A successful read of the subordinate terminal returns the next bytes
    of the input that is pending, and what is pending afterwards is exactly
    the rest: no byte is lost, repeated or reordered by a short buffer. *)
Theorem sub_read_conserves i p fl nr nw buf s x n buf' s' :
  handles s !! i = Some (PtySubTerm p fl nr nw) -> heap s !! p = Some x ->
  read i buf s = (Ok (n, buf'), s') ->
  exists x', heap s' !! p = Some x' /\ (Z.to_nat n <= length buf)%nat /\
    pending x = take (Z.to_nat n) buf' ++ pending x' /\
    drop (Z.to_nat n) buf' = drop (Z.to_nat n) buf.
Proof.
  intros Hi Hx. rewrite (read_handle _ _ _ _ Hi). cbv iota.
  unfold sub_read, put_handle, upgrade, put_pty, mbind, M_bind, modify, gets. cbn. rewrite Hx.
  pose proof (update_pending x) as Hup.
  destruct (mosi (update x)) as [| packet rest] eqn:Em.
  { destruct (all_set fl O_NONBLOCK); done. }
  cbn. intros [= <- <- <-]. eexists. split; [cbn; apply lookup_insert_eq |].
  rewrite Nat2Z.id. set (k := common_len buf packet).
  assert (k <= length packet /\ k <= length buf)%nat as [Hk1 Hk2] by (unfold k, common_len; lia).
  split; [done |]. split.
  - rewrite take_copy_prefix by done. rewrite <- Hup. unfold pending. cbn. rewrite Em.
    case_bool_decide; cbn [concat]; rewrite !app_assoc.
    + by rewrite take_drop.
    + by rewrite (take_ge packet k) by lia.
  - unfold copy_prefix. by rewrite drop_app_length' by (rewrite length_take; lia).
Qed.

(** The control terminal's read, when a packet is queued. *)
Lemma control_read_run i p fl nr nw buf s x h pl rest :
  handles s !! i = Some (PtyControlTerm p fl nr nw) -> heap s !! p = Some x ->
  miso x = (h :: pl) :: rest ->
  exists s', read i buf s =
    (Ok (Z.of_nat (common_len buf (h :: pl)),
         copy_prefix (common_len buf (h :: pl)) (h :: pl) buf), s') /\
  heap s' !! p = Some (set_miso
    (if bool_decide (common_len buf (h :: pl) < length (h :: pl))%nat
     then (h :: drop (common_len buf (h :: pl)) (h :: pl)) :: rest else rest) x).
Proof.
  intros Hi Hx Hm. rewrite (read_handle _ _ _ _ Hi). cbv iota.
  unfold control_read, strong, put_handle, upgrade, put_pty, mbind, M_bind, modify, gets. cbn.
  rewrite Hx. cbn. rewrite Hm. cbn.
  case_bool_decide; cbn; eexists; (split; [reflexivity |]); cbn; apply lookup_insert_eq.
Qed.

(** A read of the control terminal into a buffer that is not empty returns
    the type byte of the first queued packet followed by the next bytes of its
    data; the data still queued afterwards is exactly the rest, and a packet
    read in part keeps its type byte. *)
Theorem control_read_conserves i p fl nr nw b0 buf s x h pl rest :
  handles s !! i = Some (PtyControlTerm p fl nr nw) -> heap s !! p = Some x ->
  miso x = (h :: pl) :: rest ->
  exists k buf' s' x',
    read i (b0 :: buf) s = (Ok (Z.of_nat (S k), h :: buf'), s') /\
    heap s' !! p = Some x' /\ (k <= length buf)%nat /\
    payload (miso x) = take k buf' ++ payload (miso x') /\
    ((k < length pl)%nat -> exists pl', head (miso x') = Some (h :: pl')).
Proof.
  intros Hi Hx Hm.
  destruct (control_read_run i p fl nr nw (b0 :: buf) s x h pl rest Hi Hx Hm) as (s' & Hr & Hh).
  assert (common_len (b0 :: buf) (h :: pl) = S (common_len buf pl)) as Hc
    by (unfold common_len; cbn; lia).
  rewrite Hc in Hr, Hh. set (k := common_len buf pl) in *.
  assert (k <= length pl /\ k <= length buf)%nat as [Hk1 Hk2] by (unfold k, common_len; lia).
  exists k, (copy_prefix k pl buf), s'. eexists.
  split_and!; [by rewrite Hr | exact Hh | done | |].
  - rewrite take_copy_prefix by done. rewrite Hm. unfold payload. cbn [miso set_miso length].
    destruct (bool_decide (S k < S (length pl))%nat) eqn:Eb; cbn.
    + by rewrite app_assoc, take_drop.
    + apply bool_decide_eq_false in Eb. by rewrite take_ge by lia.
  - intros Hlt. cbn [miso set_miso length]. rewrite bool_decide_eq_true_2 by lia. cbn. eauto.
Qed.

(** A read of the control terminal into an empty buffer returns 0 but
    changes the queue: the first packet gets a second copy of its type byte,
    which later reads take for data. *)
Theorem control_read_empty_corrupts i p fl nr nw s x h pl rest :
  handles s !! i = Some (PtyControlTerm p fl nr nw) -> heap s !! p = Some x ->
  miso x = (h :: pl) :: rest ->
  exists s' x', read i [] s = (Ok (0, []), s') /\ heap s' !! p = Some x' /\
    payload (miso x') = h :: payload (miso x).
Proof.
  intros Hi Hx Hm.
  destruct (control_read_run i p fl nr nw [] s x h pl rest Hi Hx Hm) as (s' & Hr & Hh).
  exists s'. eexists. split_and!; [exact Hr | exact Hh |].
  unfold common_len. cbn. rewrite Hm. done.
Qed.

(** ** Hang-up *)

(** Once the control terminal of a pty is closed, every subordinate
    terminal of that pty reads end of file (0 bytes) and every write to it
    fails with [EPIPE]. *)
Theorem close_control_hangs_up s i p fl nr nw j fl' nr' nw' buf :
  reachable s ->
  handles s !! i = Some (PtyControlTerm p fl nr nw) ->
  handles s !! j = Some (PtySubTerm p fl' nr' nw') ->
  let s' := (on_close i s).2 in
  (read j buf s').1 = Ok (0, buf) /\ (write j buf s').1 = Err EPIPE.
Proof.
  intros Hw Hi Hj. cbv zeta. unfold on_close, modify. cbn [snd]. rewrite Hi.
  set (s' := set_handles _ _).
  assert (handles s' !! j = Some (PtySubTerm p fl' nr' nw')) as Hj'.
  { unfold s'. cbn. rewrite lookup_delete_ne by congruence. done. }
  assert (heap s' !! p = None) as Hp by (unfold s'; cbn; apply lookup_delete_eq).
  split.
  - rewrite (read_handle _ _ _ _ Hj'). cbv iota.
    unfold sub_read, put_handle, upgrade, mbind, M_bind, modify, gets. cbn [heap set_handles].
    by rewrite Hp.
  - unfold write, mbind, M_bind. rewrite (handle_at_Some _ _ _ Hj'). cbv iota.
    unfold sub_write, upgrade, mbind, M_bind, gets. by rewrite Hp.
Qed.

(** Event notifications are edge triggered: right after the events of a
    handle have been collected, collecting them again yields none. *)
Theorem events_edge_triggered i h s ev s1 h1 :
  handles s !! i = Some h -> events i h s = (Ok ev, s1) -> handles s1 !! i = Some h1 ->
  (events i h1 s1).1 = Ok 0.
Proof.
  intros Hi. destruct h; cbn [events].
  - unfold control_events, strong, upgrade, put_handle, mbind, M_bind, modify, gets.
    destruct (heap s !! pty) as [x |] eqn:Hx; [| done]. cbn.
    destruct (notify (negb (bool_decide (miso x = []))) notified_read notified_write)
      as [[nr nw] e] eqn:En. intros [= <- <-]. cbn. rewrite lookup_insert_eq. intros [= <-].
    cbn. unfold control_events, strong, upgrade, put_handle, mbind, M_bind, modify, gets.
    cbn [heap set_handles]. rewrite Hx. cbn.
    revert En. unfold notify. destruct (bool_decide (miso x = [])), notified_read, notified_write;
      intros [= <- <- <-]; done.
  - unfold sub_events, upgrade, put_handle, mbind, M_bind, modify, gets.
    destruct (heap s !! pty) as [x |] eqn:Hx; cbn;
      [destruct (bool_decide (mosi x = [])) eqn:Em |];
      destruct notified_read, notified_write; cbn; intros [= <- <-]; cbn;
      rewrite lookup_insert_eq; intros [= <-]; cbn;
      unfold sub_events, upgrade, put_handle, mbind, M_bind, modify, gets;
      cbn [heap set_handles]; rewrite Hx; cbn; rewrite ?Em; done.
  - intros [= <- <-] Hh. by simplify_eq.
  - intros [= <- <-] Hh. by simplify_eq.
  - intros [= <- <-] Hh. by simplify_eq.
Qed.
End reachable.

(** ** Witnesses *)

#[local] Existing Instance redox_syscall.
#[local] Existing Instance x86_64_debug.
#[local] Existing Instance demo_api.

(** A control terminal (handle 0), its subordinate terminal (handle 1), a
    line typed on the control side and a message written back. *)
Definition demo_requests : list request :=
  [R_open "" O_RDWR; R_open "0" O_RDWR; R_write 0 [x68; x69; x0a]; R_write 1 [x6f; x6b]].
Definition demo : PtyScheme := foldl (fun s r => (serve r s).2) PtyScheme_new demo_requests.

Definition demo_heap_pty (s : PtyScheme) : Pty :=
  match heap s !! 0 with Some x => x | None => Pty_new 0 end.

Lemma demo_reachable : reachable demo.
Proof. by exists demo_requests. Defined.

Lemma pty_ownership_invariant_witness : reachable demo /\ pty_wf demo.
Proof. split; [apply demo_reachable | apply (pty_ownership_invariant demo), demo_reachable]. Defined.

Lemma pty_no_panic_witness : (serve (R_read 1 [x00; x00]) demo).1 <> Panic.
Proof.
  apply (pty_no_panic demo (R_read 1 [x00; x00])); [apply demo_reachable |].
  intros _. vm_compute. reflexivity.
Defined.

Lemma sub_read_conserves_witness :
  exists x', heap (read 1 [x00; x00] demo).2 !! 0 = Some x' /\
    pending (demo_heap_pty demo) = [x68; x69] ++ pending x'.
Proof.
  destruct (sub_read_conserves 1 0 O_RDWR false false [x00; x00] demo (demo_heap_pty demo)
    2 [x68; x69] (read 1 [x00; x00] demo).2) as (x' & H1 & _ & H2 & _);
    [vm_compute; reflexivity.. |].
  exists x'. split; [exact H1 | exact H2].
Defined.

Lemma control_read_conserves_witness :
  exists k buf' s' x', read 0 [xff; xff] demo = (Ok (Z.of_nat (S k), x00 :: buf'), s') /\
    heap s' !! 0 = Some x' /\ payload (miso (demo_heap_pty demo)) = take k buf' ++ payload (miso x').
Proof.
  destruct (control_read_conserves 0 0 O_RDWR false false xff [xff] demo (demo_heap_pty demo)
    x00 [x68] (tail (miso (demo_heap_pty demo)))) as (k & buf' & s' & x' & H1 & H2 & _ & H3 & _);
    [vm_compute; reflexivity.. |].
  exists k, buf', s', x'. split_and!; assumption.
Defined.

Lemma control_read_empty_corrupts_witness :
  exists s' x', read 0 [] demo = (Ok (0, []), s') /\ heap s' !! 0 = Some x' /\
    payload (miso x') = x00 :: payload (miso (demo_heap_pty demo)).
Proof.
  apply (control_read_empty_corrupts 0 0 O_RDWR false false demo (demo_heap_pty demo)
    x00 [x68] (tail (miso (demo_heap_pty demo)))); vm_compute; reflexivity.
Defined.

Lemma close_control_hangs_up_witness :
  (read 1 [xff] (on_close 0 demo).2).1 = Ok (0, [xff]) /\
  (write 1 [xff] (on_close 0 demo).2).1 = Err EPIPE.
Proof.
  apply (close_control_hangs_up demo 0 0 O_RDWR false false 1 O_RDWR false false [xff]);
    [apply demo_reachable | vm_compute; reflexivity | vm_compute; reflexivity].
Defined.

Lemma events_edge_triggered_witness :
  (events 0 (PtyControlTerm 0 O_RDWR true true)
    (events 0 (PtyControlTerm 0 O_RDWR false false) demo).2).1 = Ok 0.
Proof.
  eapply (events_edge_triggered 0 (PtyControlTerm 0 O_RDWR false false) demo 3);
    vm_compute; reflexivity.
Defined.
