(* ===== verification/Chan.v ===== *)
(** * ipcd: the chan scheme

    Models [ipcd/src/chan.rs]: named and unnamed rendezvous channels.  A
    listener queues the ids of the clients that connect; accepting one links
    it with a fresh handle; a linked client's writes go to its peer's buffer.

    The scheme posts readiness events through its socket; whether the kernel
    takes the [n]-th message is the parameter [write_response]. *)

From stdpp Require Import base gmap strings list fin_maps.
From Stdlib Require Import ZArith Lia.
From Stdlib Require Import Strings.Byte.
From S2P Require Import Prelude Syscall.

Local Open Scope Z_scope.

(** [Socket::write_response], by the number of earlier calls. *)
Class ChanSocket := { write_response : nat -> outcome bool }.

Section chan.
Context {TG : Target} {SC : Syscall} {CS : ChanSocket}.

Inductive Connection :=
| Waiting
| Open (remote_id : Z)
| Closed.

Record Client := { buffer : list u8; remote : Connection }.
Record Listener := { l_path : option string; awaiting : list Z }.

Inductive Extra :=
| E_Client (client : Client)
| E_Listener (listener : Listener).

Record Handle := { flags : Z; extra : Extra; path : option string }.

Definition Client_default : Client := {| buffer := []; remote := Waiting |}.
Definition Listener_default : Listener := {| l_path := None; awaiting := [] |}.
Definition Extra_default : Extra := E_Client Client_default.
Definition Handle_default : Handle := {| flags := 0; extra := Extra_default; path := None |}.

Definition set_extra (e : Extra) (h : Handle) : Handle :=
  {| flags := flags h; extra := e; path := path h |}.
Definition set_flags (f : Z) (h : Handle) : Handle :=
  {| flags := f; extra := extra h; path := path h |}.
Definition set_path (p : option string) (h : Handle) : Handle :=
  {| flags := flags h; extra := extra h; path := p |}.

Definition accept (h : Handle) (rem : Z) : Handle :=
  {| flags := flags h; extra := E_Client {| buffer := []; remote := Open rem |}; path := None |}.

Definition connect (h : Handle) (other : Z) : outcome Handle :=
  match extra h with
  | E_Listener l =>
      Ok (set_extra (E_Listener {| l_path := l_path l; awaiting := awaiting l ++ [other] |}) h)
  | E_Client _ => Err EBADF
  end.

Definition require_listener (h : Handle) : outcome Listener :=
  match extra h with E_Listener l => Ok l | E_Client _ => Err EBADF end.

Definition require_client (h : Handle) : outcome Client :=
  match extra h with E_Client c => Ok c | E_Listener _ => Err EBADF end.

(** [posted] is the log of the messages written to the socket. *)
Record ChanScheme := {
  handles : gmap Z Handle;
  listeners : gmap string Z;
  next_id : Z;
  posted : list (Z * Z)
}.

Definition ChanScheme_new : ChanScheme :=
  {| handles := ∅; listeners := ∅; next_id := 0; posted := [] |}.

Definition set_handles (h : gmap Z Handle) (s : ChanScheme) : ChanScheme :=
  {| handles := h; listeners := listeners s; next_id := next_id s; posted := posted s |}.
Definition set_listeners (l : gmap string Z) (s : ChanScheme) : ChanScheme :=
  {| handles := handles s; listeners := l; next_id := next_id s; posted := posted s |}.
Definition set_next_id (n : Z) (s : ChanScheme) : ChanScheme :=
  {| handles := handles s; listeners := listeners s; next_id := n; posted := posted s |}.
Definition add_posted (i fl : Z) (s : ChanScheme) : ChanScheme :=
  {| handles := handles s; listeners := listeners s; next_id := next_id s;
     posted := posted s ++ [(i, fl)] |}.

Definition put_handle (i : Z) (h : Handle) : M ChanScheme unit :=
  modify (fun s => set_handles (<[i := h]> (handles s)) s).

Definition get_handle (i : Z) : M ChanScheme (option Handle) := gets (fun s => handles s !! i).

(** [self.handles.get_mut(&id).ok_or(Error::new(EBADF))?] *)
Definition handle_at (i : Z) : M ChanScheme Handle := h ← get_handle i; ok_or EBADF h.

Definition post_fevent (i fl : Z) : M ChanScheme unit :=
  n ← gets (fun s => length (posted s));
  modify (add_posted i fl);;
  match write_response n with
  | Ok true => mret tt
  | Ok false => throw EAGAIN
  | Err e => throw e
  | Panic => panic
  end.

(** [self.handles.insert(new_id, new); self.next_id += 1;] *)
Definition insert_new (new_id : Z) (new : Handle) : M ChanScheme unit :=
  put_handle new_id new;;
  n ← gets next_id;
  n ← usize_add n 1;
  modify (set_next_id n).

Definition open (p : string) (fl : Z) : M ChanScheme OpenResult :=
  new_id ← gets next_id;
  ls ← gets listeners;
  let new := set_flags fl Handle_default in
  let create := all_set fl O_CREAT in
  new ← (if create && bool_decide (ls !! p = None) then
           if str_is_empty p then mret (set_extra (E_Listener Listener_default) new)
           else
             modify (set_listeners (<[p := new_id]> ls));;
             mret (set_extra (E_Listener {| l_path := Some p; awaiting := [] |}) new)
         else if create && all_set fl O_EXCL then throw EEXIST
         else
           listener_id ← ok_or ENOENT (ls !! p);
           l ← get_handle listener_id;
           listener ← unwrap l;
           listener ← lift (connect listener new_id);
           put_handle listener_id listener;;
           post_fevent listener_id (Z.lor EVENT_READ EVENT_WRITE);;
           mret new);
  insert_new new_id new;;
  mret (ThisScheme new_id fd_empty).

(** The [loop] of [dup(.., b"listen")]: [aw] is the queue that the turn finds
    in the listener handle [h] with fields [l]. *)
Fixpoint listen_loop (i : Z) (h : Handle) (l : Listener) (aw : list Z) : M ChanScheme OpenResult :=
  match aw with
  | remote_id :: aw =>
      put_handle i (set_extra (E_Listener {| l_path := l_path l; awaiting := aw |}) h);;
      new_id ← gets next_id;
      let new := accept h remote_id in
      r ← get_handle remote_id;
      match r with
      | None => listen_loop i h l aw
      | Some r =>
          match extra r with
          | E_Client c =>
              put_handle remote_id
                (set_extra (E_Client {| buffer := buffer c; remote := Open new_id |}) r);;
              post_fevent remote_id EVENT_WRITE;;
              insert_new new_id (set_path (l_path l) new);;
              mret (ThisScheme new_id fd_empty)
          | E_Listener _ => panic
          end
      end
  | [] => if all_set (flags h) O_NONBLOCK then mret WouldBlock else throw EWOULDBLOCK
  end.

Definition dup (i : Z) (buf : list u8) : M ChanScheme OpenResult :=
  if bool_decide (buf = as_bytes "listen") then
    h ← handle_at i;
    l ← lift (require_listener h);
    listen_loop i h l (awaiting l)
  else if bool_decide (buf = as_bytes "connect") then
    new_id ← gets next_id;
    h ← handle_at i;
    _ ← lift (require_listener h);
    h ← lift (connect h new_id);
    put_handle i h;;
    post_fevent i (Z.lor EVENT_READ EVENT_WRITE);;
    insert_new new_id Handle_default;;
    mret (ThisScheme new_id fd_empty)
  else
    fail_if (bool_decide (buf = [])) EBADF;;
    p ← ok_or EBADF (from_utf8 buf);
    h ← handle_at i;
    fail_if (bool_decide (path h <> None)) EBADF;;
    open p (flags h).

Definition write (i : Z) (buf : list u8) (fl : Z) : M ChanScheme Z :=
  h ← handle_at i;
  client ← lift (require_client h);
  match remote client with
  | Open remote_id =>
      r ← get_handle remote_id;
      r ← unwrap r;
      match extra r with
      | E_Client c =>
          let b := buffer c ++ buf in
          put_handle remote_id (set_extra (E_Client {| buffer := b; remote := remote c |}) r);;
          (if zlen b =? zlen buf then post_fevent remote_id EVENT_READ else mret tt);;
          mret (zlen buf)
      | E_Listener _ => panic
      end
  | Closed => throw EPIPE
  | Waiting => if all_set fl O_NONBLOCK then throw EAGAIN else throw EWOULDBLOCK
  end.

Definition PREFIX : list u8 := as_bytes "chan:".

Definition fpath (i : Z) (buf : list u8) : M ChanScheme (Z * list u8) :=
  let len := common_len PREFIX buf in
  let buf := copy_prefix len PREFIX buf in
  if bool_decide (len < length PREFIX)%nat then mret (Z.of_nat len, buf)
  else
    h ← handle_at i;
    p ← ok_or EBADF (path h);
    let len := (length (as_bytes p) `min` (length buf - length PREFIX))%nat in
    mret (Z.of_nat (length PREFIX + len),
          splice (length PREFIX) (take len (as_bytes p)) buf).

Definition fsync (i : Z) : M ChanScheme unit := _ ← handle_at i; mret tt.

Definition read (i : Z) (buf : list u8) (fl : Z) : M ChanScheme (Z * list u8) :=
  h ← handle_at i;
  client ← lift (require_client h);
  if negb (bool_decide (buffer client = [])) then
    let len := common_len buf (buffer client) in
    put_handle i (set_extra (E_Client {| buffer := drop len (buffer client);
                                         remote := remote client |}) h);;
    mret (Z.of_nat len, copy_prefix len (buffer client) buf)
  else match remote client with
       | Closed => mret (0, buf)
       | _ => if all_set fl O_NONBLOCK then throw EAGAIN else throw EWOULDBLOCK
       end.

(** [r.unwrap()] on a [Result]: an error becomes a panic. *)
Definition unwrap_res {S A} (m : M S A) : M S A := fun s =>
  match m s with (Err _, s') => (Panic, s') | r => r end.

Definition on_close (i : Z) : M ChanScheme unit :=
  h ← get_handle i;
  h ← unwrap h;
  modify (fun s => set_handles (delete i (handles s)) s);;
  match extra h with
  | E_Client client =>
      match remote client with
      | Open remote_id =>
          r ← get_handle remote_id;
          r ← unwrap r;
          match extra r with
          | E_Client c =>
              put_handle remote_id
                (set_extra (E_Client {| buffer := buffer c; remote := Closed |}) r);;
              if bool_decide (buffer c = []) then unwrap_res (post_fevent remote_id EVENT_READ)
              else mret tt
          | E_Listener _ => panic
          end
      | _ => mret tt
      end
  | E_Listener l =>
      match l_path l with
      | Some p => modify (fun s => set_listeners (delete p (listeners s)) s)
      | None => mret tt
      end
  end.

Definition fcntl (i cmd arg : Z) : M ChanScheme Z :=
  h ← handle_at i;
  if cmd =? F_GETFL then mret (flags h)
  else if cmd =? F_SETFL then put_handle i (set_flags arg h);; mret 0
  else throw EINVAL.

Definition fevent (i : Z) : M ChanScheme Z :=
  h ← handle_at i;
  mret (match extra h with
        | E_Client c =>
            let ev := match remote c with Open _ => EVENT_WRITE | _ => 0 end in
            let closed := match remote c with Closed => true | _ => false end in
            if negb (bool_decide (buffer c = [])) || closed then Z.lor ev EVENT_READ else ev
        | E_Listener l =>
            if bool_decide (awaiting l = []) then 0 else Z.lor EVENT_READ EVENT_WRITE
        end).
End chan.
