(* ===== verification/ChanFacts.v ===== *)
(** * ipcd: correctness of the chan scheme

    The handle table is abstracted to the shape of every handle (the
    connection state of a client, the name and queue of a listener); the
    invariant is stated and preserved on shapes.  From it: no request panics
    while the kernel takes the event messages, the bytes of a connection form
    a queue across any sequence of requests, accepting links both ends, and
    closing an end is seen by the other after it has drained its buffer. *)

From stdpp Require Import base gmap strings list fin_maps.
From Stdlib Require Import ZArith Lia.
From Stdlib Require Import Strings.Byte.
From S2P Require Import Prelude Syscall Chan.

Local Open Scope Z_scope.

(** ** Shapes *)

Inductive shape :=
| Sc (r : Connection)
| Sl (p : option string) (aw : list Z).

Definition shape_of (h : Handle) : shape :=
  match extra h with
  | E_Client c => Sc (remote c)
  | E_Listener l => Sl (l_path l) (awaiting l)
  end.

Record shapes_wf (sh : gmap Z shape) (ls : gmap string Z) (n : Z) : Prop := {
  sw_next : 0 <= n;
  sw_ids : forall i x, sh !! i = Some x -> 0 <= i < n;
  sw_named : forall p i, ls !! p = Some i -> exists aw, sh !! i = Some (Sl (Some p) aw);
  sw_name : forall i p aw, sh !! i = Some (Sl (Some p) aw) -> ls !! p = Some i;
  sw_peer : forall i j, sh !! i = Some (Sc (Open j)) -> sh !! j = Some (Sc (Open i)) /\ i <> j;
  sw_queue : forall i p aw k, sh !! i = Some (Sl p aw) -> k ∈ aw ->
    0 <= k < n /\ (sh !! k = None \/ sh !! k = Some (Sc Waiting));
  sw_once : forall i j p q aw aw' a b k, sh !! i = Some (Sl p aw) -> sh !! j = Some (Sl q aw') ->
    aw !! a = Some k -> aw' !! b = Some k -> i = j /\ a = b
}.

(** Lookups in updated maps, and the membership facts of queues. *)
Ltac shapes :=
  repeat match goal with
  | H : <[_ := _]> _ !! _ = Some _ |- _ =>
      apply lookup_insert_Some in H as [[? ?] | [? ?]]; simplify_eq
  | H : delete _ _ !! _ = Some _ |- _ => apply lookup_delete_Some in H as [? ?]
  | H : (_ ++ [_]) !! _ = Some _ |- _ =>
      apply lookup_snoc_Some in H as [[? ?] | [? ?]]; simplify_eq
  | H : _ ∈ _ ++ [_] |- _ => apply elem_of_app in H as [? | ?%list_elem_of_singleton]; simplify_eq
  end.

Section shapes.
Implicit Types (sh : gmap Z shape) (ls : gmap string Z).

Lemma shapes_fresh sh ls n : shapes_wf sh ls n -> sh !! n = None.
Proof.
  intros Hw. destruct (sh !! n) eqn:E; [| done]. apply (sw_ids _ _ _ Hw) in E. lia.
Qed.

Lemma shapes_listener sh ls n p :
  shapes_wf sh ls n -> (forall q, p = Some q -> ls !! q = None) ->
  shapes_wf (<[n := Sl p []]> sh) (match p with Some q => <[q := n]> ls | None => ls end) (n + 1).
Proof.
  intros Hw Hp. pose proof (shapes_fresh _ _ _ Hw) as Hn. destruct Hw as [H0 Hi Hl Hl' Hr Hq Ho].
  split; [lia | | | | | |].
  - intros i x Hx. shapes; [lia |]. specialize (Hi _ _ H1). lia.
  - intros q i Hx. destruct p as [p |]; shapes.
    + exists []. apply lookup_insert_eq.
    + destruct (Hl _ _ H1) as [aw Ha]. exists aw. rewrite lookup_insert_ne; congruence.
    + destruct (Hl _ _ Hx) as [aw Ha]. exists aw. rewrite lookup_insert_ne; congruence.
  - intros i q aw Hx. shapes; [by rewrite lookup_insert_eq |]. destruct p as [p |]; [| eauto].
    rewrite lookup_insert_ne; [eauto |]. intros ->. specialize (Hp _ eq_refl).
    apply Hl' in H1. congruence.
  - intros i j Hx. shapes. destruct (Hr _ _ H1) as [Hj ?]. rewrite lookup_insert_ne; [done | congruence].
  - intros i q aw k Hx Hk. shapes; [by apply elem_of_nil in Hk |].
    destruct (Hq _ _ _ _ H1 Hk) as [? Hor]. split; [lia |].
    rewrite lookup_insert_ne by lia. done.
  - intros i j q q' aw aw' a b k Hx Hy Ha Hb. shapes; try done. eauto.
Qed.

Lemma shapes_enqueue sh ls n i p aw :
  shapes_wf sh ls n -> sh !! i = Some (Sl p aw) ->
  shapes_wf (<[n := Sc Waiting]> (<[i := Sl p (aw ++ [n])]> sh)) ls (n + 1).
Proof.
  intros Hw Hsi. pose proof (shapes_fresh _ _ _ Hw) as Hn. destruct Hw as [H0 Hi Hl Hl' Hr Hq Ho].
  assert (i <> n) as Hne by congruence.
  assert (forall j q aw' k, sh !! j = Some (Sl q aw') -> k ∈ aw' -> k <> n) as Hlt.
  { intros j q aw' k Hj Hk. destruct (Hq _ _ _ _ Hj Hk). lia. }
  split; [lia | | | | | |].
  - intros j x Hx. shapes; [lia | |]; [specialize (Hi _ _ Hsi) | specialize (Hi _ _ H2)]; lia.
  - intros q j Hx. destruct (Hl _ _ Hx) as [aw' Ha]. rewrite lookup_insert_ne by congruence.
    destruct (decide (i = j)) as [<- | ?]; [rewrite lookup_insert_eq | rewrite lookup_insert_ne by done].
    + simplify_eq. eauto.
    + eauto.
  - intros j q aw' Hx. shapes; eauto.
  - intros j k Hx. shapes. destruct (Hr _ _ H2) as [Hj ?].
    rewrite !lookup_insert_ne; [done | |]; congruence.
  - intros j q aw' k Hx Hk.
    assert (0 <= k < n + 1 /\ (k = n \/ sh !! k = None \/ sh !! k = Some (Sc Waiting))) as [? Hor].
    { shapes; try (edestruct Hq as [? ?]; [eassumption | eassumption |]); split; auto; lia. }
    split; [lia |]. destruct (decide (n = k)) as [<- | ?]; [rewrite lookup_insert_eq; auto |].
    rewrite !lookup_insert_ne; [| intros <-; destruct Hor as [? | [? | ?]]; congruence | done].
    destruct Hor; [congruence | done].
  - intros j j' q q' aw1 aw2 a b k Hx Hy Ha Hb.
    shapes; try solve [eauto | done
      | exfalso; eapply Hlt; [| by eapply list_elem_of_lookup_2 | reflexivity]; eassumption].
Qed.

(** The head of a queue is taken off. *)
Lemma shapes_pop sh ls n i p k aw :
  shapes_wf sh ls n -> sh !! i = Some (Sl p (k :: aw)) ->
  shapes_wf (<[i := Sl p aw]> sh) ls n /\
  (forall j q aw', <[i := Sl p aw]> sh !! j = Some (Sl q aw') -> k ∉ aw').
Proof.
  intros [H0 Hi Hl Hl' Hr Hq Ho] Hsi. split; [split |].
  - done.
  - intros j x Hx. shapes; eauto.
  - intros q j Hx. destruct (Hl _ _ Hx) as [aw' Ha].
    destruct (decide (i = j)) as [<- | ?]; [rewrite lookup_insert_eq | rewrite lookup_insert_ne by done].
    + simplify_eq. eauto.
    + eauto.
  - intros j q aw' Hx. shapes; eauto.
  - intros j j' Hx. shapes. destruct (Hr _ _ H1) as [Hj ?].
    rewrite !lookup_insert_ne; [done |]; congruence.
  - intros j q aw' k' Hx Hk.
    assert (0 <= k' < n /\ (sh !! k' = None \/ sh !! k' = Some (Sc Waiting))) as [? Hor].
    { shapes; eapply Hq; eauto. by apply list_elem_of_further. }
    split; [done |]. rewrite lookup_insert_ne; [done |]. intros <-. destruct Hor; congruence.
  - intros j j' q q' aw1 aw2 a b k' Hx Hy Ha Hb.
    shapes; eauto.
    + destruct (Ho _ _ _ _ _ _ (S a) (S b) k' Hsi Hsi Ha Hb); auto.
    + destruct (Ho _ _ _ _ _ _ a (S b) k' H1 Hsi Ha Hb); congruence.
    + destruct (Ho _ _ _ _ _ _ (S a) b k' Hsi H1 Ha Hb); congruence.
  - intros j q aw' Hx [a Ha]%list_elem_of_lookup. shapes.
    + destruct (Ho _ _ _ _ _ _ 0%nat (S a) k Hsi Hsi eq_refl Ha); done.
    + destruct (Ho _ _ _ _ _ _ 0%nat a k Hsi H1 eq_refl Ha); done.
Qed.

(** A waiting client that is in no queue is linked with a new handle. *)
Lemma shapes_link sh ls n k :
  shapes_wf sh ls n -> sh !! k = Some (Sc Waiting) ->
  (forall j q aw, sh !! j = Some (Sl q aw) -> k ∉ aw) ->
  shapes_wf (<[n := Sc (Open k)]> (<[k := Sc (Open n)]> sh)) ls (n + 1).
Proof.
  intros Hw Hk Hnot. pose proof (shapes_fresh _ _ _ Hw) as Hn. destruct Hw as [H0 Hi Hl Hl' Hr Hq Ho].
  assert (k <> n) as Hne by congruence.
  split; [lia | | | | | |].
  - intros j x Hx. shapes; [lia | |]; [specialize (Hi _ _ Hk) | specialize (Hi _ _ H2)]; lia.
  - intros q j Hx. destruct (Hl _ _ Hx) as [aw' Ha]. exists aw'.
    rewrite !lookup_insert_ne by congruence. done.
  - intros j q aw' Hx. shapes; eauto.
  - intros j j' Hx. shapes.
    + rewrite lookup_insert_ne, lookup_insert_eq by done. auto.
    + rewrite lookup_insert_eq. auto.
    + destruct (Hr _ _ H2) as [Hj ?]. rewrite !lookup_insert_ne; [done | |]; congruence.
  - intros j q aw' k' Hx Hk'. shapes. destruct (Hq _ _ _ _ H2 Hk') as [? Hor]. split; [lia |].
    rewrite !lookup_insert_ne; [done | | lia]. intros <-. by eapply Hnot.
  - intros j j' q q' aw1 aw2 a b k' Hx Hy Ha Hb. shapes; eauto.
Qed.

Lemma shapes_close_linked sh ls n i j :
  shapes_wf sh ls n -> sh !! i = Some (Sc (Open j)) ->
  shapes_wf (<[j := Sc Closed]> (delete i sh)) ls n.
Proof.
  intros [H0 Hi Hl Hl' Hr Hq Ho] Hsi. destruct (Hr _ _ Hsi) as [Hj Hne].
  split; [lia | | | | | |].
  - intros k x Hx. shapes; eauto.
  - intros q k Hx. destruct (Hl _ _ Hx) as [aw' Ha]. exists aw'.
    rewrite lookup_insert_ne, lookup_delete_ne by congruence. done.
  - intros k q aw' Hx. shapes; eauto.
  - intros k k' Hx. shapes. destruct (Hr _ _ H2) as [Hk' ?].
    rewrite lookup_insert_ne, lookup_delete_ne by congruence. done.
  - intros k q aw' k' Hx Hk'. shapes. destruct (Hq _ _ _ _ H2 Hk') as [? Hor]. split; [lia |].
    rewrite lookup_insert_ne, lookup_delete_ne; [done | |]; intros <-; destruct Hor; congruence.
  - intros k k' q q' aw1 aw2 a b m Hx Hy Ha Hb. shapes; eauto.
Qed.

Lemma shapes_close_client sh ls n i r :
  shapes_wf sh ls n -> sh !! i = Some (Sc r) -> (forall j, r <> Open j) ->
  shapes_wf (delete i sh) ls n.
Proof.
  intros [H0 Hi Hl Hl' Hr Hq Ho] Hsi Hopen. split; [lia | | | | | |].
  - intros k x Hx. shapes; eauto.
  - intros q k Hx. destruct (Hl _ _ Hx) as [aw' Ha]. exists aw'.
    rewrite lookup_delete_ne by congruence. done.
  - intros k q aw' Hx. shapes; eauto.
  - intros k k' Hx. shapes. destruct (Hr _ _ H1) as [Hk' ?].
    rewrite lookup_delete_ne; [done |]. intros <-. simplify_eq. by eapply Hopen.
  - intros k q aw' k' Hx Hk'. shapes. destruct (Hq _ _ _ _ H1 Hk') as [? Hor]. split; [lia |].
    destruct (decide (i = k')) as [<- | ?]; [rewrite lookup_delete_eq | rewrite lookup_delete_ne by done]; auto.
  - intros k k' q q' aw1 aw2 a b m Hx Hy Ha Hb. shapes; eauto.
Qed.

Lemma shapes_close_listener sh ls n i p aw :
  shapes_wf sh ls n -> sh !! i = Some (Sl p aw) ->
  shapes_wf (delete i sh) (match p with Some q => delete q ls | None => ls end) n.
Proof.
  intros [H0 Hi Hl Hl' Hr Hq Ho] Hsi. split; [lia | | | | | |].
  - intros k x Hx. shapes; eauto.
  - intros q k Hx.
    assert (ls !! q = Some k) as Hx' by (destruct p; shapes; done).
    destruct (Hl _ _ Hx') as [aw' Ha]. exists aw'. rewrite lookup_delete_ne; [done |].
    intros <-. simplify_eq. shapes; done.
  - intros k q aw' Hx. shapes. destruct p as [p |]; [| eauto]. rewrite lookup_delete_ne; [eauto |].
    intros ->. apply Hl' in H1, Hsi. congruence.
  - intros k k' Hx. shapes. destruct (Hr _ _ H1) as [Hk' ?].
    rewrite lookup_delete_ne by congruence. done.
  - intros k q aw' k' Hx Hk'. shapes. destruct (Hq _ _ _ _ H1 Hk') as [? Hor]. split; [lia |].
    destruct (decide (i = k')) as [<- | ?]; [rewrite lookup_delete_eq | rewrite lookup_delete_ne by done]; auto.
  - intros k k' q q' aw1 aw2 a b m Hx Hy Ha Hb. shapes; eauto.
Qed.
End shapes.

(** ** The scheme keeps the invariant and does not panic *)

Section safety.
Context {TG : Target} {SC : Syscall} {CS : ChanSocket}.
(** The kernel takes every event message. *)
Hypothesis posts : forall n, write_response n = Ok true.

Definition shapes_of (s : ChanScheme) : gmap Z shape := shape_of <$> handles s.

Definition chan_wf (s : ChanScheme) : Prop := shapes_wf (shapes_of s) (listeners s) (next_id s).

Lemma shape_at s i h : handles s !! i = Some h -> shapes_of s !! i = Some (shape_of h).
Proof. intros Hi. unfold shapes_of. by rewrite lookup_fmap, Hi. Qed.

Lemma shape_at_inv s i x :
  shapes_of s !! i = Some x -> exists h, handles s !! i = Some h /\ shape_of h = x.
Proof. unfold shapes_of. rewrite lookup_fmap. destruct (handles s !! i); naive_solver. Qed.

Lemma shape_client h c : extra h = E_Client c -> shape_of h = Sc (remote c).
Proof. unfold shape_of. by intros ->. Qed.

Lemma shape_listener h l : extra h = E_Listener l -> shape_of h = Sl (l_path l) (awaiting l).
Proof. unfold shape_of. by intros ->. Qed.

Lemma shape_is_client h r : shape_of h = Sc r -> exists c, extra h = E_Client c /\ remote c = r.
Proof. unfold shape_of. destruct (extra h); naive_solver. Qed.

Lemma ChanScheme_new_wf : chan_wf ChanScheme_new.
Proof.
  unfold chan_wf, shapes_of. cbn. rewrite fmap_empty.
  split; intros *; rewrite ?lookup_empty; done.
Qed.

(** Replacing a handle by one of the same shape. *)
Lemma wf_same_shape s i h h' :
  chan_wf s -> handles s !! i = Some h -> shape_of h' = shape_of h ->
  chan_wf (set_handles (<[i := h']> (handles s)) s).
Proof.
  unfold chan_wf, shapes_of. cbn. intros Hw Hi He. rewrite fmap_insert, He.
  rewrite insert_id; [done |]. by rewrite lookup_fmap, Hi.
Qed.

Lemma chan_peer s i h c j :
  chan_wf s -> handles s !! i = Some h -> extra h = E_Client c -> remote c = Open j ->
  exists h' c', handles s !! j = Some h' /\ extra h' = E_Client c' /\ remote c' = Open i /\ i <> j.
Proof.
  intros Hw Hi Hc Hr. apply shape_at in Hi. rewrite (shape_client _ _ Hc), Hr in Hi.
  destruct (sw_peer _ _ _ Hw _ _ Hi) as [Hj Hne].
  apply shape_at_inv in Hj as (h' & Hh & [c' [? ?]]%shape_is_client). eauto 10.
Qed.

Lemma wp_chan_handle_at i Q s :
  (forall h, handles s !! i = Some h -> Q (Ok h) s) ->
  (handles s !! i = None -> Q (Err EBADF) s) -> wp (handle_at i) Q s.
Proof. intros. unfold handle_at, get_handle. repeat wp_step; auto. Qed.

Lemma wp_get_handle i Q s : Q (Ok (handles s !! i)) s -> wp (get_handle i) Q s.
Proof. done. Qed.

Lemma wp_chan_put i h Q s :
  Q (Ok tt) (set_handles (<[i := h]> (handles s)) s) -> wp (put_handle i h) Q s.
Proof. done. Qed.

Lemma wp_require_client h Q s :
  (forall c, extra h = E_Client c -> Q (Ok c) s) -> (Q (Err EBADF) s) ->
  wp (lift (require_client h) : M ChanScheme _) Q s.
Proof. intros. apply wp_lift. unfold require_client. destruct (extra h); auto. Qed.

Lemma wp_require_listener h Q s :
  (forall l, extra h = E_Listener l -> Q (Ok l) s) -> (Q (Err EBADF) s) ->
  wp (lift (require_listener h) : M ChanScheme _) Q s.
Proof. intros. apply wp_lift. unfold require_listener. destruct (extra h); auto. Qed.

Lemma wp_connect h other Q s :
  (forall l, extra h = E_Listener l ->
     Q (Ok (set_extra (E_Listener {| l_path := l_path l; awaiting := awaiting l ++ [other] |}) h)) s) ->
  (forall c, extra h = E_Client c -> Q (Err EBADF) s) ->
  wp (lift (connect h other) : M ChanScheme _) Q s.
Proof. intros. apply wp_lift. unfold connect. destruct (extra h); eauto. Qed.

Lemma wp_post i fl Q s : Q (Ok tt) (add_posted i fl s) -> wp (post_fevent i fl) Q s.
Proof. intros HQ. unfold post_fevent. repeat wp_step; rewrite posts in *; by simplify_eq. Qed.

Lemma wp_insert_new i h Q s :
  0 <= next_id s -> next_id s + 1 < usize_mod ->
  Q (Ok tt) (set_next_id (next_id s + 1) (set_handles (<[i := h]> (handles s)) s)) ->
  wp (insert_new i h) Q s.
Proof.
  intros H0 Hm HQ. unfold insert_new. wp_step. apply wp_chan_put. wp_step. wp_step. wp_step.
  cbn [next_id set_handles]. unfold wp. rewrite usize_add_ok by lia. exact HQ.
Qed.

(** Never panics, and keeps the invariant. *)
Definition chan_safe {A} (m : M ChanScheme A) : Prop :=
  forall s, chan_wf s -> next_id s + 1 < usize_mod ->
  wp m (fun o s' => chan_wf s' /\ o <> Panic) s.
End safety.

Ltac cwp_step :=
  match goal with
  | |- wp (handle_at _) _ _ => apply wp_chan_handle_at; [intros ? ? | intros ?]
  | |- wp (get_handle _) _ _ => apply wp_get_handle
  | |- wp (put_handle _ _) _ _ => apply wp_chan_put
  | |- wp (lift (require_client _)) _ _ => apply wp_require_client; [intros ? ? |]
  | |- wp (lift (require_listener _)) _ _ => apply wp_require_listener; [intros ? ? |]
  | |- wp (lift (connect _ _)) _ _ => apply wp_connect; [intros ? ? | intros ? ?]
  | |- wp (post_fevent _ _) _ _ => apply wp_post; [assumption |]
  | |- _ /\ _ <> Panic => split; [| discriminate]
  | _ => wp_step
  end.
Ltac cwp := repeat (cwp_step; try done).

Ltac same_shape :=
  eapply wf_same_shape; [done | eassumption |];
  unfold shape_of; cbn; match goal with H : extra _ = E_Client _ |- _ => by rewrite H end.

Section requests.
Context {TG : Target} {SC : Syscall} {CS : ChanSocket}.
Hypothesis posts : forall n, write_response n = Ok true.

Lemma fcntl_safe_chan i cmd arg : chan_safe (fcntl i cmd arg).
Proof. intros s Hw Hn. unfold fcntl. cwp. by eapply wf_same_shape. Qed.

Lemma fevent_safe_chan i : chan_safe (fevent i).
Proof. intros s Hw Hn. unfold fevent. cwp. Qed.

Lemma fsync_safe_chan i : chan_safe (fsync i).
Proof. intros s Hw Hn. unfold fsync. cwp. Qed.

Lemma fpath_safe_chan i buf : chan_safe (fpath i buf).
Proof. intros s Hw Hn. unfold fpath. cwp. Qed.

Lemma read_safe_chan i buf fl : chan_safe (read i buf fl).
Proof.
  intros s Hw Hn. unfold read. cwp. same_shape.
Qed.

Lemma wf_posted s i fl : chan_wf s -> chan_wf (add_posted i fl s).
Proof. done. Qed.

Lemma write_safe_chan i buf fl : chan_safe (write i buf fl).
Proof.
  intros s Hw Hn. unfold write. cwp; try apply wf_posted.
  all: try (exfalso; edestruct (chan_peer s i) as (? & ? & ? & ? & ? & ?); [done.. | congruence]).
  all: match goal with Hx : extra ?a = E_Client ?c |- chan_wf (set_handles (<[_ := set_extra (E_Client {| buffer := buffer ?c ++ _; remote := _ |}) ?a]> _) _) =>
         eapply wf_same_shape; [done | eassumption |]; unfold shape_of; cbn; by rewrite Hx end.
Qed.

(** The states in which a new handle has been added at [next_id]. *)
Lemma wf_new_listener s p fl :
  chan_wf s -> (forall q, p = Some q -> listeners s !! q = None) ->
  chan_wf (set_next_id (next_id s + 1)
    (set_handles (<[next_id s := set_extra (E_Listener {| l_path := p; awaiting := [] |})
                                           (set_flags fl Handle_default)]> (handles s))
       (match p with Some q => set_listeners (<[q := next_id s]> (listeners s)) s | None => s end))).
Proof.
  intros Hw Hp. pose proof (shapes_listener _ _ _ p Hw Hp) as Hl.
  unfold chan_wf, shapes_of in *. cbn. rewrite fmap_insert. by destruct p.
Qed.

Lemma wf_enqueue s i h l new fl :
  chan_wf s -> handles s !! i = Some h -> extra h = E_Listener l -> shape_of new = Sc Waiting ->
  chan_wf (set_next_id (next_id s + 1)
    (set_handles (<[next_id s := new]>
        (<[i := set_extra (E_Listener {| l_path := l_path l;
                                         awaiting := awaiting l ++ [next_id s] |}) h]> (handles s)))
       (add_posted i fl (set_handles (<[i := set_extra (E_Listener {| l_path := l_path l;
                                         awaiting := awaiting l ++ [next_id s] |}) h]> (handles s)) s)))).
Proof.
  intros Hw Hi Hl Hnew. apply shape_at in Hi. rewrite (shape_listener _ _ Hl) in Hi.
  pose proof (shapes_enqueue _ _ _ _ _ _ Hw Hi) as Hq.
  unfold chan_wf, shapes_of in *. cbn. rewrite !fmap_insert, Hnew. exact Hq.
Qed.

Lemma open_safe_chan p fl : chan_safe (open p fl).
Proof.
  intros s Hw Hn. pose proof (sw_next _ _ _ Hw) as H0. unfold open. do 4 cwp_step. cbv zeta.
  destruct (all_set fl O_CREAT && bool_decide (listeners s !! p = None)) eqn:Ec.
  - apply andb_true_iff in Ec as [_ Hp%bool_decide_eq_true].
    destruct (str_is_empty p) eqn:Ep; cwp; (apply wp_insert_new; [done | done |]); cwp.
    + by apply (wf_new_listener s None).
    + apply (wf_new_listener s (Some p)); naive_solver.
  - destruct (all_set fl O_CREAT && all_set fl O_EXCL); [by cwp |]. cwp_step.
    destruct (listeners s !! p) as [i |] eqn:El; [| by cwp].
    destruct (sw_named _ _ _ Hw _ _ El) as [aw (h & Hh & Hs)%shape_at_inv].
    unfold shape_of in Hs. destruct (extra h) as [? | l] eqn:Ex; [done |].
    cwp; simplify_eq/=.
    apply wp_insert_new; [done | done |]. cwp. by eapply (wf_enqueue s).
Qed.

Lemma connect_safe_chan i : chan_safe (dup i (as_bytes "connect")).
Proof.
  intros s Hw Hn. pose proof (sw_next _ _ _ Hw) as H0. unfold dup.
  rewrite bool_decide_false by done. rewrite bool_decide_true by done. cwp.
  apply wp_insert_new; [done | done |]. cwp. by eapply (wf_enqueue s).
Qed.

(** What one turn of the accept loop does to the invariant. *)
Lemma wf_pop s i h l k aw h' :
  chan_wf s -> handles s !! i = Some h -> extra h = E_Listener l -> awaiting l = k :: aw ->
  extra h' = E_Listener {| l_path := l_path l; awaiting := aw |} ->
  chan_wf (set_handles (<[i := h']> (handles s)) s).
Proof.
  intros Hw Hi Hl Ha Hh'. apply shape_at in Hi. rewrite (shape_listener _ _ Hl), Ha in Hi.
  destruct (shapes_pop _ _ _ _ _ _ _ Hw Hi) as [Hp _].
  unfold chan_wf, shapes_of in *. cbn. by rewrite fmap_insert, (shape_listener _ _ Hh').
Qed.

Lemma wf_link s i h l k aw h' r c r' new fl :
  chan_wf s -> handles s !! i = Some h -> extra h = E_Listener l -> awaiting l = k :: aw ->
  extra h' = E_Listener {| l_path := l_path l; awaiting := aw |} ->
  handles s !! k = Some r -> extra r = E_Client c ->
  shape_of r' = Sc (Open (next_id s)) -> shape_of new = Sc (Open k) ->
  chan_wf (set_next_id (next_id s + 1)
    (set_handles (<[next_id s := new]> (<[k := r']> (<[i := h']> (handles s))))
       (add_posted k fl (set_handles (<[k := r']> (<[i := h']> (handles s)))
          (set_handles (<[i := h']> (handles s)) s))))).
Proof.
  intros Hw Hi Hl Ha Hh' Hk Hc Hr Hnew. apply shape_at in Hi, Hk.
  rewrite (shape_listener _ _ Hl), Ha in Hi. rewrite (shape_client _ _ Hc) in Hk.
  destruct (sw_queue _ _ _ Hw _ _ _ k Hi) as [_ [? | Hwait]]; [by constructor | congruence |].
  assert (i <> k) as Hne by congruence.
  destruct (shapes_pop _ _ _ _ _ _ _ Hw Hi) as [Hp Hnot].
  apply (shapes_link _ _ _ k) in Hp; [| by rewrite lookup_insert_ne | done].
  unfold chan_wf, shapes_of in *. cbn.
  by rewrite !fmap_insert, (shape_listener _ _ Hh'), Hr, Hnew.
Qed.

Lemma listen_loop_safe i h0 l aw s :
  chan_wf s -> next_id s + 1 < usize_mod ->
  (exists h, handles s !! i = Some h /\ extra h = E_Listener {| l_path := l_path l; awaiting := aw |}) ->
  wp (listen_loop i h0 l aw) (fun o s' => chan_wf s' /\ o <> Panic) s.
Proof.
  revert s. induction aw as [| k aw IH]; intros s Hw Hn (h & Hi & Hl); cbn [listen_loop]; [by cwp |].
  pose proof (sw_next _ _ _ Hw) as H0.
  set (h1 := set_extra (E_Listener {| l_path := l_path l; awaiting := aw |}) h0).
  assert (chan_wf (set_handles (<[i := h1]> (handles s)) s)) as Hw1 by (by eapply wf_pop).
  do 6 cwp_step. cbn [handles set_handles next_id].
  destruct (<[i := h1]> (handles s) !! k) as [r |] eqn:Hk.
  - assert (i <> k /\ handles s !! k = Some r /\ exists c, extra r = E_Client c) as (Hne & Hkr & c & Hc).
    { apply shape_at in Hi. rewrite (shape_listener _ _ Hl) in Hi.
      destruct (sw_queue _ _ _ Hw _ _ _ k Hi) as [_ Hor]; [by constructor |].
      assert (i <> k) as Hne by (intros <-; destruct Hor; congruence).
      rewrite lookup_insert_ne in Hk by done. split_and!; [done | done |].
      rewrite (shape_at _ _ _ Hk) in Hor. destruct Hor as [? | [= Hs]]; [done |].
      apply shape_is_client in Hs as (c & ? & _). eauto. }
    rewrite Hc. cwp. apply wp_insert_new; [done | done |]. cwp.
    by eapply (wf_link s i h _ k aw h1 r c).
  - apply IH; [done | done |]. exists h1. cbn. by rewrite lookup_insert_eq.
Qed.

Lemma listen_safe_chan i : chan_safe (dup i (as_bytes "listen")).
Proof.
  intros s Hw Hn. unfold dup. rewrite bool_decide_true by done. cwp.
  apply listen_loop_safe; [done | done |]. exists h. split; [done |].
  by rewrite H0; destruct l.
Qed.

Lemma dup_safe_chan i buf : chan_safe (dup i buf).
Proof.
  destruct (decide (buf = as_bytes "listen")) as [-> | Hl]; [apply listen_safe_chan |].
  destruct (decide (buf = as_bytes "connect")) as [-> | Hc]; [apply connect_safe_chan |].
  intros s Hw Hn. unfold dup. rewrite !bool_decide_false by done. cwp. by apply open_safe_chan.
Qed.

(** The kernel closes only handles it was given. *)
Lemma on_close_safe_chan i s :
  chan_wf s -> is_Some (handles s !! i) ->
  wp (on_close i) (fun o s' => chan_wf s' /\ o <> Panic) s.
Proof.
  intros Hw [h Hi]. unfold on_close. do 2 cwp_step. rewrite Hi. do 2 cwp_step; [| done].
  injection H as <-. do 2 cwp_step.
  pose proof (shape_at _ _ _ Hi) as Hs.
  destruct (extra h) as [c | l] eqn:Ex.
  - rewrite (shape_client _ _ Ex) in Hs. destruct (remote c) as [| j |] eqn:Er.
    1,3: cwp; unfold chan_wf, shapes_of; cbn; rewrite fmap_delete;
         by eapply shapes_close_client.
    destruct (chan_peer s i h c j) as (h' & c' & Hj & Hc' & Hr' & Hne); [done.. |].
    assert (chan_wf (set_handles (<[j := set_extra (E_Client {| buffer := buffer c'; remote := Closed |}) h']>
              (delete i (handles s))) s)) as Hw'.
    { unfold chan_wf, shapes_of. cbn. rewrite fmap_insert, fmap_delete.
      by apply shapes_close_linked. }
    do 2 cwp_step. cbn [handles set_handles]. rewrite lookup_delete_ne, Hj by done.
    do 2 cwp_step; [| done]. injection H as <-. rewrite Hc'. do 2 cwp_step.
    case_bool_decide; [| by cwp].
    unfold wp, unwrap_res, post_fevent, mbind, M_bind, gets, modify. rewrite posts. by split.
  - rewrite (shape_listener _ _ Ex) in Hs. pose proof (shapes_close_listener _ _ _ _ _ _ Hw Hs) as Hc.
    destruct (l_path l) as [p |]; cwp; unfold chan_wf, shapes_of; cbn; by rewrite fmap_delete.
Qed.
End requests.

(** ** Requests and reachable states *)

Inductive request :=
| R_open (path : string) (flags : Z)
| R_dup (i : Z) (buf : list u8)
| R_read (i : Z) (buf : list u8) (fl : Z)
| R_write (i : Z) (buf : list u8) (fl : Z)
| R_fcntl (i cmd arg : Z)
| R_fevent (i : Z)
| R_fpath (i : Z) (buf : list u8)
| R_fsync (i : Z)
| R_on_close (i : Z).

Section reachable.
Context {TG : Target} {SC : Syscall} {CS : ChanSocket}.

Definition chan_unit {A} (m : M ChanScheme A) : M ChanScheme unit := _ ← m; mret tt.

Definition serve (r : request) : M ChanScheme unit :=
  match r with
  | R_open path flags => chan_unit (open path flags)
  | R_dup i buf => chan_unit (dup i buf)
  | R_read i buf fl => chan_unit (read i buf fl)
  | R_write i buf fl => chan_unit (write i buf fl)
  | R_fcntl i cmd arg => chan_unit (fcntl i cmd arg)
  | R_fevent i => chan_unit (fevent i)
  | R_fpath i buf => chan_unit (fpath i buf)
  | R_fsync i => fsync i
  | R_on_close i => on_close i
  end.

(** What the kernel may send: handles are closed once, and fewer than
    [usize::MAX] handles are ever opened. *)
Definition admissible (r : request) (s : ChanScheme) : Prop :=
  next_id s + 1 < usize_mod /\
  match r with R_on_close i => is_Some (handles s !! i) | _ => True end.

Inductive chan_step : ChanScheme -> ChanScheme -> Prop :=
| chan_serve r s : admissible r s -> chan_step s (serve r s).2.

Definition chan_reachable : ChanScheme -> Prop := rtc chan_step ChanScheme_new.

Lemma chan_unit_safe {A} (m : M ChanScheme A) : chan_safe m -> chan_safe (chan_unit m).
Proof.
  intros Hm s Hw Hn. unfold chan_unit. apply wp_bind. eapply wp_mono; [| by apply Hm].
  intros [] s' [Hw' Hp]; [by apply wp_ret | done | done].
Qed.

Hypothesis posts : forall n, write_response n = Ok true.

Lemma serve_safe_chan r s :
  chan_wf s -> admissible r s -> wp (serve r) (fun o s' => chan_wf s' /\ o <> Panic) s.
Proof.
  intros Hw [Hn Hr].
  destruct r; cbn [serve];
    lazymatch goal with
    | |- wp (chan_unit _) _ _ => apply chan_unit_safe; [| done | done]
    | _ => idtac
    end.
  - by apply open_safe_chan.
  - by apply dup_safe_chan.
  - by apply read_safe_chan.
  - by apply write_safe_chan.
  - by apply fcntl_safe_chan.
  - by apply fevent_safe_chan.
  - by apply fpath_safe_chan.
  - by apply fsync_safe_chan.
  - by apply on_close_safe_chan.
Qed.

Lemma chan_reachable_wf s : chan_reachable s -> chan_wf s.
Proof.
  intros Hr. eapply rtc_preserves; [exact Hr | | apply ChanScheme_new_wf].
  intros x y Hx Hs. inversion_clear Hs as [r ? Ha]. by apply (serve_safe_chan r x Hx Ha).
Qed.


(** While the kernel takes event messages, no admissible request makes
    the channel scheme panic: none of its [unwrap], [expect] and [panic!]
    sites is reached. *)
Theorem chan_no_panic s r :
  chan_reachable s -> admissible r s -> (serve r s).1 <> Panic.
Proof. intros Hr%chan_reachable_wf Ha. by apply (serve_safe_chan r s Hr Ha). Qed.

(** ** A connection is a pair of queues *)

Definition client_of (h : Handle) : option Client :=
  match extra h with E_Client c => Some c | E_Listener _ => None end.

Definition client_at (s : ChanScheme) (i : Z) : option Client := handles s !! i ≫= client_of.

(** Handle [i] sends to handle [j]. *)
Definition linked (s : ChanScheme) (i j : Z) : Prop :=
  exists c, client_at s i = Some c /\ remote c = Open j.

Definition buffer_at (s : ChanScheme) (j : Z) : list u8 :=
  match client_at s j with Some c => buffer c | None => [] end.

(** The bytes that request [r] makes handle [i] send, and those it makes
    handle [j] receive. *)
Definition sent (i : Z) (r : request) (s : ChanScheme) : list u8 :=
  match r with
  | R_write i' buf fl =>
      if bool_decide (i' = i) && is_ok (write i' buf fl s).1 then buf else []
  | _ => []
  end.
Definition got (j : Z) (r : request) (s : ChanScheme) : list u8 :=
  match r with
  | R_read j' buf fl =>
      if bool_decide (j' = j) then
        match (read j' buf fl s).1 with Ok (n, buf') => take (Z.to_nat n) buf' | _ => [] end
      else []
  | _ => []
  end.

Definition closes (r : request) (i : Z) : Prop := r = R_on_close i.

(** The clients that are linked in [s] are the same in [s']. *)
Definition same_links (s s' : ChanScheme) : Prop :=
  forall k c m, client_at s k = Some c -> remote c = Open m -> client_at s' k = Some c.

Lemma client_at_Some s i c :
  client_at s i = Some c <-> exists h, handles s !! i = Some h /\ extra h = E_Client c.
Proof.
  unfold client_at, client_of. split.
  - intros (h & Hh & Hc)%bind_Some. exists h. destruct (extra h); naive_solver.
  - intros (h & -> & Hc). cbn. by rewrite Hc.
Qed.

Lemma linked_sym s i j : chan_wf s -> linked s i j -> linked s j i /\ i <> j.
Proof.
  intros Hw (c & (h & Hh & Hc)%client_at_Some & Hr).
  destruct (chan_peer _ _ _ _ _ Hw Hh Hc Hr) as (h' & c' & ? & ? & ? & ?).
  split; [| done]. exists c'. rewrite client_at_Some. eauto.
Qed.

Lemma same_links_intro s s' :
  (forall k h c m, handles s !! k = Some h -> extra h = E_Client c -> remote c = Open m ->
     exists h', handles s' !! k = Some h' /\ extra h' = E_Client c) -> same_links s s'.
Proof.
  intros H k c m (h & Hh & Hc)%client_at_Some Hm. apply client_at_Some. eauto.
Qed.

Lemma chan_fresh s : chan_wf s -> handles s !! next_id s = None.
Proof.
  intros Hw. destruct (handles s !! next_id s) eqn:E; [| done].
  apply shape_at in E. by rewrite (shapes_fresh _ _ _ Hw) in E.
Qed.

Lemma open_same_links p fl s :
  chan_wf s -> next_id s + 1 < usize_mod -> wp (open p fl) (fun _ s' => same_links s s') s.
Proof.
  intros Hw Hn. pose proof (sw_next _ _ _ Hw) as H0. pose proof (chan_fresh s Hw) as Hf.
  unfold open. cwp; try (apply wp_insert_new; [done | done |]; cwp).
  all: apply same_links_intro; intros k h0 c0 m Hh Hc Hm; exists h0; cbn;
    rewrite ?lookup_insert_ne; [done | ..]; try done; congruence.
Qed.

(** The id at the head of a queue is a closed handle or a waiting client. *)
Lemma queue_head s i h p k aw :
  chan_wf s -> handles s !! i = Some h -> extra h = E_Listener {| l_path := p; awaiting := k :: aw |} ->
  handles s !! k = None \/
  exists r c, handles s !! k = Some r /\ extra r = E_Client c /\ remote c = Waiting.
Proof.
  intros Hw Hi Hl. apply shape_at in Hi. rewrite (shape_listener _ _ Hl) in Hi.
  destruct (sw_queue _ _ _ Hw _ _ _ k Hi) as [_ [Hn | Hs]]; [by constructor | left | right].
  - unfold shapes_of in Hn. rewrite lookup_fmap in Hn. by destruct (handles s !! k).
  - apply shape_at_inv in Hs as (r & Hr & (c & ? & ?)%shape_is_client). eauto.
Qed.

Lemma same_links_refl s : same_links s s.
Proof. by intros k c m Hc Hm. Qed.

Lemma same_links_trans s1 s2 s3 : same_links s1 s2 -> same_links s2 s3 -> same_links s1 s3.
Proof. intros H1 H2 k c m Hc Hm. eauto. Qed.

(** Solves [same_links] when the handles replaced are fresh, listeners or
    not linked. *)
Ltac links :=
  apply same_links_intro; intros ? ? ? ? ? ? ?; eexists; split; [| eassumption]; cbn;
  rewrite ?lookup_insert_ne; [eassumption | ..]; congruence.

Lemma listen_same_links i h0 l aw s :
  chan_wf s -> next_id s + 1 < usize_mod ->
  (exists h, handles s !! i = Some h /\ extra h = E_Listener {| l_path := l_path l; awaiting := aw |}) ->
  wp (listen_loop i h0 l aw) (fun _ s' => same_links s s') s.
Proof.
  revert s. induction aw as [| k aw IH]; intros s Hw Hn (h & Hi & Hl); cbn [listen_loop].
  { cwp; apply same_links_refl. }
  pose proof (sw_next _ _ _ Hw) as H0. pose proof (chan_fresh s Hw) as Hf.
  set (h1 := set_extra (E_Listener {| l_path := l_path l; awaiting := aw |}) h0).
  assert (chan_wf (set_handles (<[i := h1]> (handles s)) s)) as Hw1 by (by eapply wf_pop).
  destruct (queue_head _ _ _ _ _ _ Hw Hi Hl) as [Hk | (r & c & Hk & Hc & Hr)].
  - assert (i <> k) by congruence.
    do 6 cwp_step. cbn [handles set_handles next_id]. rewrite lookup_insert_ne, Hk by done.
    eapply wp_mono; [| apply IH; [done | done |]].
    + intros o s' Hs. eapply same_links_trans; [| exact Hs]. links.
    + exists h1. cbn. by rewrite lookup_insert_eq.
  - assert (i <> k) by congruence.
    do 6 cwp_step. cbn [handles set_handles next_id]. rewrite lookup_insert_ne, Hk, Hc by done.
    cwp. apply wp_insert_new; [done | done |]. cwp. links.
Qed.

Lemma dup_same_links i buf s :
  chan_wf s -> next_id s + 1 < usize_mod -> wp (dup i buf) (fun _ s' => same_links s s') s.
Proof.
  intros Hw Hn. pose proof (sw_next _ _ _ Hw) as H0. pose proof (chan_fresh s Hw) as Hf.
  unfold dup. cwp; try apply same_links_refl.
  - apply listen_same_links; [done | done |]. exists h. split; [done |]. by destruct l.
  - apply wp_insert_new; [done | done |]. cwp. links.
  - by apply open_same_links.
Qed.

Lemma fcntl_same_links i cmd arg s : wp (fcntl i cmd arg) (fun _ s' => same_links s s') s.
Proof.
  unfold fcntl. cwp; try apply same_links_refl.
  apply same_links_intro. intros k h' c m Hk Hc Hm. cbn.
  destruct (decide (i = k)) as [<- | ?]; [| rewrite lookup_insert_ne by done; eauto].
  rewrite lookup_insert_eq. simplify_eq. eexists. split; [done |]. done.
Qed.

Lemma chan_unit_wp {A} (m : M ChanScheme A) (Q : ChanScheme -> Prop) s :
  wp m (fun _ => Q) s -> wp (chan_unit m) (fun _ => Q) s.
Proof. unfold wp, chan_unit, mbind, M_bind. by destruct (m s) as [[] ?]. Qed.

(** A request that is not a read, a write or a close leaves every link alone. *)
Lemma serve_same_links r s :
  chan_wf s -> admissible r s ->
  match r with R_read _ _ _ | R_write _ _ _ | R_on_close _ => True | _ => same_links s (serve r s).2 end.
Proof.
  intros Hw [Hn _]. destruct r; cbn [serve]; try done.
  - apply (chan_unit_wp (open _ _)). by apply open_same_links.
  - apply (chan_unit_wp (dup _ _)). by apply dup_same_links.
  - apply (chan_unit_wp (fcntl _ _ _)). apply fcntl_same_links.
  - apply (chan_unit_wp (fevent _) (same_links s)). unfold fevent. cwp; apply same_links_refl.
  - apply (chan_unit_wp (fpath _ _) (same_links s)). unfold fpath. cwp; apply same_links_refl.
  - change (wp (fsync i) (fun _ => same_links s) s). unfold fsync. cwp; apply same_links_refl.
Qed.

(** Either the request moved bytes out of the client's buffer, or it left the
    state alone and returned no bytes. *)
Lemma read_effect k buf fl s :
  (exists h c, handles s !! k = Some h /\ extra h = E_Client c /\
     read k buf fl s =
       (Ok (Z.of_nat (common_len buf (buffer c)), copy_prefix (common_len buf (buffer c)) (buffer c) buf),
        set_handles (<[k := set_extra (E_Client {| buffer := drop (common_len buf (buffer c)) (buffer c);
                                                   remote := remote c |}) h]> (handles s)) s)) \/
  ((read k buf fl s).2 = s /\ forall n b, (read k buf fl s).1 = Ok (n, b) -> n = 0).
Proof.
  unfold read, handle_at, get_handle, gets, ok_or, mbind, M_bind. cbn [fst snd].
  destruct (handles s !! k) as [h |] eqn:Hk; cbn; [| by right].
  unfold require_client. destruct (extra h) as [c | l] eqn:Hc; cbn; [| by right].
  case_bool_decide as Hb; cbn.
  - right. destruct (remote c); cbn; try (destruct (all_set fl O_NONBLOCK)); cbn; split; naive_solver.
  - left. exists h, c. auto.
Qed.

(** Either the request appended its bytes to the peer's buffer, or it failed
    and left the state alone. *)
Lemma write_effect k buf fl s :
  chan_wf s ->
  (exists h c j h' c' s', handles s !! k = Some h /\ extra h = E_Client c /\ remote c = Open j /\
     handles s !! j = Some h' /\ extra h' = E_Client c' /\
     write k buf fl s = (Ok (zlen buf), s') /\
     handles s' = <[j := set_extra (E_Client {| buffer := buffer c' ++ buf; remote := remote c' |}) h']>
                    (handles s)) \/
  ((write k buf fl s).2 = s /\ is_ok (write k buf fl s).1 = false).
Proof.
  intros Hw. unfold write, handle_at, get_handle, gets, ok_or, mbind, M_bind. cbn [fst snd].
  destruct (handles s !! k) as [h |] eqn:Hk; cbn; [| by right].
  unfold require_client. destruct (extra h) as [c | l] eqn:Hc; cbn; [| by right].
  destruct (remote c) as [| j |] eqn:Hr; cbn.
  - right. by destruct (all_set fl O_NONBLOCK).
  - destruct (chan_peer _ _ _ _ _ Hw Hk Hc Hr) as (h' & c' & Hj & Hc' & Hr' & Hne).
    rewrite Hj. cbn. rewrite Hc'. left. exists h, c, j, h', c'.
    unfold put_handle, modify, post_fevent, gets, mbind, M_bind. cbn [fst snd].
    destruct (zlen (buffer c' ++ buf) =? zlen buf); rewrite ?posts; cbn; eauto 10.
  - by right.
Qed.

Lemma buffer_at_client s i c : client_at s i = Some c -> buffer_at s i = buffer c.
Proof. unfold buffer_at. by intros ->. Qed.

Lemma client_at_put s s' k h i :
  handles s' = <[k := h]> (handles s) ->
  client_at s' i = if decide (k = i) then client_of h else client_at s i.
Proof.
  intros He. unfold client_at. rewrite He. destruct (decide (k = i)) as [<- | ?].
  - by rewrite lookup_insert_eq.
  - by rewrite lookup_insert_ne.
Qed.

Lemma client_at_handle s i h c : handles s !! i = Some h -> extra h = E_Client c -> client_at s i = Some c.
Proof. intros. apply client_at_Some. eauto. Qed.

Lemma chan_unit_state {A} (m : M ChanScheme A) s : (chan_unit m s).2 = (m s).2.
Proof. unfold chan_unit, mbind, M_bind. by destruct (m s) as [[] ?]. Qed.

Lemma read_transfer s i j k buf fl :
  chan_wf s -> linked s i j ->
  linked (read k buf fl s).2 i j /\
  got j (R_read k buf fl) s ++ buffer_at (read k buf fl s).2 j = buffer_at s j.
Proof.
  intros Hw Hl. destruct (linked_sym _ _ _ Hw Hl) as [_ Hne]. cbn [got].
  destruct (read_effect k buf fl s) as [(h & c & Hh & Hc & ->) | [-> H0]]; cbn [fst snd].
  - set (h' := set_extra _ _). set (s' := set_handles _ _).
    pose proof (client_at_put s s' k h') as Hat.
    pose proof (client_at_handle _ _ _ _ Hh Hc) as Hk. split.
    + destruct Hl as (ci & Hi & Hr). unfold linked. rewrite (Hat i eq_refl).
      case_decide; [| eauto]. simplify_eq. eexists. split; [reflexivity |]. done.
    + unfold buffer_at at 1. rewrite (Hat j eq_refl).
      destruct (decide (k = j)) as [-> | Hkj].
      * rewrite bool_decide_true by done. cbn. rewrite (buffer_at_client _ _ _ Hk), Nat2Z.id.
        unfold copy_prefix. rewrite take_app_le by (unfold common_len; rewrite length_take; lia).
        rewrite take_take, Nat.min_id. apply take_drop.
      * rewrite bool_decide_false by done. done.
  - split; [done |]. case_bool_decide; [| done].
    destruct ((read k buf fl s).1) as [[n b] | |] eqn:E; [| done | done].
    by rewrite (H0 n b eq_refl).
Qed.

Lemma write_transfer s i j k buf fl :
  chan_wf s -> linked s i j ->
  linked (write k buf fl s).2 i j /\
  buffer_at (write k buf fl s).2 j = buffer_at s j ++ sent i (R_write k buf fl) s.
Proof.
  intros Hw Hl. destruct (linked_sym _ _ _ Hw Hl) as [Hl' Hne]. cbn [sent].
  destruct (write_effect k buf fl s Hw)
    as [(h & c & m & h' & c' & s' & Hh & Hc & Hr & Hm & Hc' & -> & Hs') | [-> ->]]; cbn [fst snd].
  - pose proof (fun x => client_at_put s s' m _ x Hs') as Hat.
    pose proof (client_at_handle _ _ _ _ Hh Hc) as Hk.
    pose proof (client_at_handle _ _ _ _ Hm Hc') as Hm'. split.
    + destruct Hl as (ci & Hi & Hri). unfold linked. rewrite (Hat i).
      case_decide; [| eauto]. simplify_eq. eexists. split; [reflexivity |]. done.
    + unfold buffer_at at 1. rewrite (Hat j). destruct (decide (m = j)) as [-> | Hmj].
      * assert (k = i) as ->.
        { destruct (linked_sym s k j Hw) as [(cj & Hj & Hrj) _]; [by exists c |].
          destruct Hl' as (cj' & Hj' & Hrj'). congruence. }
        rewrite bool_decide_true by done. cbn. by rewrite (buffer_at_client _ _ _ Hm').
      * rewrite bool_decide_false; [by rewrite app_nil_r |].
        intros ->. destruct Hl as (ci & Hi & Hri). congruence.
  - split; [done |]. by rewrite andb_false_r, app_nil_r.
Qed.

(** What closing a linked or an unlinked handle does to the handle table. *)
Lemma on_close_effect k s :
  chan_wf s -> is_Some (handles s !! k) ->
  (exists j h' c', linked s k j /\ handles s !! j = Some h' /\ extra h' = E_Client c' /\
     (on_close k s).1 = Ok tt /\
     handles (on_close k s).2 =
       <[j := set_extra (E_Client {| buffer := buffer c'; remote := Closed |}) h']> (delete k (handles s))) \/
  ((forall j, ~ linked s k j) /\ (on_close k s).1 = Ok tt /\
   handles (on_close k s).2 = delete k (handles s)).
Proof.
  intros Hw [h Hk].
  unfold on_close, get_handle, gets, unwrap, modify, mbind, M_bind. rewrite Hk. cbn.
  destruct (extra h) as [c | l] eqn:Hc.
  - pose proof (client_at_handle _ _ _ _ Hk Hc) as Hck.
    destruct (remote c) as [| j |] eqn:Hr.
    1,3: right; split; [| done]; intros j (c1 & ? & ?); congruence.
    destruct (chan_peer _ _ _ _ _ Hw Hk Hc Hr) as (h' & c' & Hj & Hc' & Hr' & Hne).
    cbn [handles set_handles fst snd]. rewrite lookup_delete_ne, Hj by done. cbn. rewrite Hc'.
    left. exists j, h', c'. split; [by exists c |]. do 2 (split; [done |]).
    unfold put_handle, modify. cbn. case_bool_decide; [| done].
    unfold unwrap_res, post_fevent, gets, modify, mbind, M_bind. rewrite posts. done.
  - right. split; [| by destruct (l_path l)].
    intros j (c1 & (h1 & ? & ?)%client_at_Some & ?). congruence.
Qed.

Lemma close_transfer s i j k :
  chan_wf s -> is_Some (handles s !! k) -> linked s i j -> k <> i -> k <> j ->
  linked (on_close k s).2 i j /\ buffer_at (on_close k s).2 j = buffer_at s j.
Proof.
  intros Hw Hk Hl Hi Hj. destruct (linked_sym _ _ _ Hw Hl) as [Hl' _].
  assert (forall x, x = i \/ x = j -> client_at (on_close k s).2 x = client_at s x) as Hat.
  { intros x Hx. unfold client_at.
    destruct (on_close_effect k s Hw Hk) as [(m & h' & c' & Hkm & _ & _ & _ & ->) | (_ & _ & ->)].
    - destruct (linked_sym _ _ _ Hw Hkm) as [(cm & Hm & Hrm) _].
      destruct Hl as (ci & ? & ?), Hl' as (cj & ? & ?).
      rewrite lookup_insert_ne, lookup_delete_ne; [done | |]; intros ->; destruct Hx; congruence.
    - rewrite lookup_delete_ne; [done |]. destruct Hx; congruence. }
  unfold linked, buffer_at. rewrite !Hat by auto. done.
Qed.

Lemma transfer_step s i j r :
  chan_wf s -> admissible r s -> linked s i j -> ~ closes r i -> ~ closes r j ->
  linked (serve r s).2 i j /\
  got j r s ++ buffer_at (serve r s).2 j = buffer_at s j ++ sent i r s.
Proof.
  intros Hw Ha Hl Hi Hj. pose proof (serve_same_links r s Hw Ha) as Hs.
  destruct (linked_sym _ _ _ Hw Hl) as [(cj & Hcj & Hrj) _].
  destruct r; cbn [serve got sent] in *;
    try (split;
         [ destruct Hl as (ci & Hci & Hri); exists ci; split; [by eapply Hs | done]
         | unfold buffer_at; by rewrite (Hs _ _ _ Hcj Hrj), Hcj, app_nil_r ]).
  - rewrite app_nil_r, chan_unit_state. by apply read_transfer.
  - rewrite chan_unit_state. by apply write_transfer.
  - rewrite app_nil_r. destruct Ha as [_ Hk].
    apply close_transfer; [done | done | done | |]; intros ->; [by apply Hi | by apply Hj].
Qed.

(** The states and the traffic from [i] to [j] along a sequence of requests
    that close neither. *)
Inductive traffic (i j : Z) : ChanScheme -> list u8 -> list u8 -> ChanScheme -> Prop :=
| traffic_nil s : traffic i j s [] [] s
| traffic_cons s r tx rx s' :
    admissible r s -> ~ closes r i -> ~ closes r j ->
    traffic i j (serve r s).2 tx rx s' ->
    traffic i j s (sent i r s ++ tx) (got j r s ++ rx) s'.


(** ** Accepting *)

(** The accept loop drops the ids of closed clients and links the first
    client that is still there. *)
Lemma listen_loop_first i h l dead k rest r c s :
  0 <= next_id s -> next_id s + 1 < usize_mod -> i <> k ->
  Forall (fun d => d <> i /\ handles s !! d = None) dead ->
  handles s !! k = Some r -> extra r = E_Client c ->
  exists s', listen_loop i h l (dead ++ k :: rest) s = (Ok (ThisScheme (next_id s) fd_empty), s') /\
    handles s' =
      <[next_id s := set_path (l_path l) (accept h k)]>
        (<[k := set_extra (E_Client {| buffer := buffer c; remote := Open (next_id s) |}) r]>
          (<[i := set_extra (E_Listener {| l_path := l_path l; awaiting := rest |}) h]> (handles s))).
Proof.
  intros H0 Hn Hne Hd Hk Hc. revert s H0 Hn Hd Hk.
  induction dead as [| d dead IH]; intros s H0 Hn Hd Hk; cbn [listen_loop app].
  - unfold put_handle, get_handle, modify, gets, mbind, M_bind. cbn.
    rewrite lookup_insert_ne, Hk by done. cbn. rewrite Hc.
    unfold post_fevent, insert_new, put_handle, gets, modify, mbind, M_bind. rewrite posts. cbn.
    rewrite usize_add_ok by lia. eauto.
  - apply Forall_cons in Hd as [[Hdi Hdn] Hd].
    unfold put_handle at 1, get_handle at 1, modify, gets at 1 2, mbind, M_bind. cbn.
    rewrite lookup_insert_ne, Hdn by done.
    destruct (IH (set_handles (<[i := set_extra (E_Listener {| l_path := l_path l; awaiting := dead ++ k :: rest |}) h]> (handles s)) s))
      as (s' & He & Hs'); [done | done | | by cbn; rewrite lookup_insert_ne |].
    + eapply Forall_impl; [exact Hd |]. intros x [Hx Hxn]. split; [done |]. cbn.
      by rewrite lookup_insert_ne.
    + exists s'. split; [exact He |]. cbn in Hs'. by rewrite Hs', insert_insert_eq.
Qed.

(** Accepting on a listener skips the ids of clients that have gone
    and links the first client [k] that is still there, in order of arrival,
    with the new handle it returns: each end sends to the other, the new
    handle starts with an empty buffer and the listener's name, the later
    clients stay queued and no other handle changes. *)
Theorem chan_accept_links s i h l dead k rest r :
  chan_reachable s -> next_id s + 1 < usize_mod ->
  handles s !! i = Some h -> extra h = E_Listener l -> awaiting l = dead ++ k :: rest ->
  Forall (fun d => handles s !! d = None) dead -> handles s !! k = Some r ->
  exists s' new, dup i (as_bytes "listen") s = (Ok (ThisScheme (next_id s) fd_empty), s') /\
    linked s' k (next_id s) /\ linked s' (next_id s) k /\ buffer_at s' (next_id s) = [] /\
    handles s' !! next_id s = Some new /\ path new = l_path l /\
    (exists h', handles s' !! i = Some h' /\
       extra h' = E_Listener {| l_path := l_path l; awaiting := rest |}) /\
    (forall x, x <> i -> x <> k -> x <> next_id s -> handles s' !! x = handles s !! x).
Proof.
  intros Hw%chan_reachable_wf Hn Hi Hl Ha Hd Hk.
  pose proof (sw_next _ _ _ Hw) as H0. pose proof (chan_fresh s Hw) as Hf.
  assert (exists c, extra r = E_Client c) as [c Hc].
  { pose proof (shape_at _ _ _ Hi) as Hs. rewrite (shape_listener _ _ Hl), Ha in Hs.
    destruct (sw_queue _ _ _ Hw _ _ _ k Hs) as [_ Hor]; [set_solver |].
    rewrite (shape_at _ _ _ Hk) in Hor.
    destruct Hor as [? | [= (c & ? & _)%shape_is_client]]; [done | eauto]. }
  assert (i <> k) as Hne by congruence.
  destruct (listen_loop_first i h l dead k rest r c s) as (s' & He & Hs'); [done.. | | done | done |].
  { eapply Forall_impl; [exact Hd |]. intros x Hx. split; [congruence | done]. }
  exists s'. eexists.
  assert (k <> next_id s /\ i <> next_id s) as [Hkn Hin] by (split; congruence).
  split.
  - unfold dup. rewrite bool_decide_true by done. unfold handle_at, get_handle, gets, mbind, M_bind.
    rewrite Hi. cbn. unfold require_listener. rewrite Hl. cbn. by rewrite Ha.
  - unfold linked, buffer_at, client_at. rewrite Hs'.
    rewrite lookup_insert_eq, (lookup_insert_ne _ _ k), lookup_insert_eq by done. cbn.
    rewrite !(lookup_insert_ne _ _ i), lookup_insert_eq by done.
    split_and!; eauto. intros x ? ? ?. by rewrite !lookup_insert_ne.
Qed.

(** ** Hanging up *)

(** Closing one end of a connection succeeds and keeps what the other
    end has not read yet: its next read returns as much of that as fits the
    buffer, a read after it has drained returns 0, and its writes fail with
    EPIPE. *)
Theorem chan_close_hangs_up s i j :
  chan_reachable s -> linked s i j ->
  (on_close i s).1 = Ok tt /\
  (forall buf fl, write j buf fl (on_close i s).2 = (Err EPIPE, (on_close i s).2)) /\
  (forall buf fl, exists n buf' s2,
     read j buf fl (on_close i s).2 = (Ok (n, buf'), s2) /\
     n = Z.min (zlen buf) (zlen (buffer_at s j)) /\
     take (Z.to_nat n) buf' = take (Z.to_nat n) (buffer_at s j) /\
     buffer_at s2 j = drop (Z.to_nat n) (buffer_at s j)).
Proof.
  intros Hw%chan_reachable_wf Hl. pose proof Hl as (ci & (hi & Hi & _)%client_at_Some & _).
  destruct (on_close_effect i s Hw) as [(j' & h' & c' & Hl' & Hj & Hc & He & Hs) | (Hno & _)];
    [done | | by destruct (Hno j)].
  assert (j' = j) as -> by (destruct Hl as (? & ? & ?), Hl' as (? & ? & ?); congruence).
  split; [done |].
  set (s' := (on_close i s).2) in *. clearbody s'.
  set (h2 := set_extra _ _) in Hs. assert (handles s' !! j = Some h2) as Hj2 by (by rewrite Hs, lookup_insert_eq).
  rewrite (buffer_at_client s j c') by (by eapply client_at_handle). split.
  - intros buf fl. unfold write, handle_at, get_handle, gets, mbind, M_bind. by rewrite Hj2.
  - intros buf fl. unfold read, handle_at, get_handle, gets, mbind, M_bind. rewrite Hj2. cbn.
    case_bool_decide as Hb; cbn.
    + rewrite Hb. exists 0, buf, s'. split; [done |]. split; [unfold zlen; cbn; lia |].
      split; [done |]. by rewrite (buffer_at_client s' j _ (client_at_handle _ _ _ _ Hj2 eq_refl)), Hb.
    + eexists _, _, _. split; [reflexivity |]. split; [unfold common_len, zlen; lia |].
      rewrite Nat2Z.id. unfold copy_prefix. split.
      * rewrite take_app_le by (unfold common_len; rewrite length_take; lia).
        by rewrite take_take, Nat.min_id.
      * erewrite buffer_at_client; [| eapply client_at_handle; [by cbn; rewrite lookup_insert_eq | done]].
        done.
Qed.

(** ** Readiness *)

Lemma events_bits {SL : SyscallLaws SC} (r w : bool) :
  let ev := Z.lor (if w then EVENT_WRITE else 0) (if r then EVENT_READ else 0) in
  any_set ev EVENT_READ = r /\ any_set ev EVENT_WRITE = w.
Proof.
  pose proof event_read_write_disjoint as Hd. pose proof event_read_nonzero as Hr.
  pose proof event_write_nonzero as Hw. unfold any_set.
  rewrite !Z.land_lor_distr_l.
  destruct r, w; rewrite ?Z.land_diag, ?Z.land_0_l, ?Z.lor_0_l, ?Z.lor_0_r, ?(Z.land_comm EVENT_WRITE EVENT_READ), ?Hd,
    ?Z.lor_0_l, ?Z.lor_0_r; split; lia.
Qed.

(** The readiness a client is told is exact: [EVENT_READ] is reported
    if and only if a read returns at once with data or end of file, and
    [EVENT_WRITE] if and only if a write is accepted. *)
Theorem chan_fevent_exact {SL : SyscallLaws SC} s i c :
  chan_reachable s -> client_at s i = Some c ->
  exists ev, fevent i s = (Ok ev, s) /\
    (forall buf fl, is_ok (read i buf fl s).1 = any_set ev EVENT_READ) /\
    (forall buf fl, is_ok (write i buf fl s).1 = any_set ev EVENT_WRITE).
Proof.
  intros Hw%chan_reachable_wf (h & Hh & Hc)%client_at_Some.
  set (rd := negb (bool_decide (buffer c = [])) || match remote c with Closed => true | _ => false end).
  set (wr := match remote c with Open _ => true | _ => false end).
  exists (Z.lor (if wr then EVENT_WRITE else 0) (if rd then EVENT_READ else 0)).
  destruct (events_bits rd wr) as [-> ->]. split_and!.
  - unfold fevent, handle_at, get_handle, gets, mbind, M_bind. rewrite Hh. cbn. rewrite Hc.
    unfold wr. change (negb _ || _) with rd. destruct (remote c), rd; by rewrite ?Z.lor_0_r.
  - intros buf fl. unfold read, handle_at, get_handle, gets, mbind, M_bind. rewrite Hh. cbn.
    unfold require_client. rewrite Hc. cbn. unfold rd. case_bool_decide; cbn; [| done].
    destruct (remote c); cbn; try done; by destruct (all_set fl O_NONBLOCK).
  - intros buf fl. destruct (write_effect i buf fl s Hw) as [(h0&c0&?&?&?&?&Hh0&Hc0&Hr0&_&_& -> &_) | [_ He]].
    + unfold wr. cbn. simplify_eq. assert (c0 = c) as -> by congruence. by rewrite Hr0.
    + rewrite He. unfold wr. destruct (remote c) as [| j |] eqn:Hr; try done.
      destruct (chan_peer _ _ _ _ _ Hw Hh Hc Hr) as (h' & c' & Hj & Hc' & _).
      revert He. unfold write, handle_at, get_handle, gets, mbind, M_bind. rewrite Hh. cbn.
      unfold require_client. rewrite Hc. cbn. rewrite Hr, Hj. cbn. rewrite Hc'.
      unfold put_handle, modify, post_fevent, gets, mbind, M_bind. cbn.
      destruct (zlen (buffer c' ++ buf) =? zlen buf); rewrite ?posts; done.
Qed.
End reachable.

(** ** When the kernel does not take an event message *)

Section failed_event.
Context {TG : Target} {SC : Syscall} {CS : ChanSocket}.

(** When the event message that accepting posts is not taken, the
    accept fails but the client has already been pointed at the handle that
    was never created: a write of the client then panics, and so does closing
    it. *)
Theorem chan_failed_accept_breaks_client s i h l k rest r c :
  handles s !! i = Some h -> extra h = E_Listener l -> awaiting l = k :: rest -> i <> k ->
  handles s !! k = Some r -> extra r = E_Client c -> handles s !! next_id s = None ->
  write_response (length (posted s)) = Ok false ->
  exists s', dup i (as_bytes "listen") s = (Err EAGAIN, s') /\
    (forall buf fl, (write k buf fl s').1 = Panic) /\ (on_close k s').1 = Panic.
Proof.
  intros Hi Hl Ha Hne Hk Hc Hf Hp.
  assert (k <> next_id s /\ i <> next_id s) as [Hkn Hin] by (split; congruence).
  set (r' := set_extra (E_Client {| buffer := buffer c; remote := Open (next_id s) |}) r).
  set (h' := set_extra (E_Listener {| l_path := l_path l; awaiting := rest |}) h).
  exists (add_posted k EVENT_WRITE (set_handles (<[k := r']> (<[i := h']> (handles s))) s)).
  split_and!.
  - unfold dup. rewrite bool_decide_true by done. unfold handle_at, get_handle, gets, mbind, M_bind.
    rewrite Hi. cbn. unfold require_listener. rewrite Hl. cbn. rewrite Ha. cbn [listen_loop].
    unfold put_handle, get_handle, modify, gets, mbind, M_bind. cbn.
    rewrite lookup_insert_ne, Hk by done. cbn. rewrite Hc.
    unfold post_fevent, gets, modify, mbind, M_bind. cbn. by rewrite Hp.
  - intros buf fl. unfold write, handle_at, get_handle, gets, mbind, M_bind. cbn.
    rewrite lookup_insert_eq. cbn. by rewrite !lookup_insert_ne, Hf.
  - unfold on_close, get_handle, gets, mbind, M_bind. cbn. rewrite lookup_insert_eq. cbn.
    by rewrite lookup_delete_ne, !lookup_insert_ne, Hf.
Qed.
End failed_event.

(** ** Witnesses *)

Section witnesses.
#[local] Existing Instance redox_syscall.
#[local] Existing Instance x86_64_release.

Definition steady_socket : ChanSocket := {| write_response _ := Ok true |}.
Definition failing_socket : ChanSocket :=
  {| write_response n := if Nat.eqb n 1 then Ok false else Ok true |}.

Fixpoint admissible_all {CS : ChanSocket} (rs : list request) (s : ChanScheme) : Prop :=
  match rs with [] => True | r :: rs => admissible r s /\ admissible_all rs (serve r s).2 end.
Definition run {CS : ChanSocket} (rs : list request) (s : ChanScheme) : ChanScheme :=
  foldl (fun s r => (serve r s).2) s rs.

Lemma run_reachable {CS : ChanSocket} rs s :
  chan_reachable s -> admissible_all rs s -> chan_reachable (run rs s).
Proof.
  revert s. induction rs as [| r rs IH]; intros s Hs Ha; [done |]. destruct Ha as [Ha Hrs].
  apply IH; [| done]. eapply rtc_r; [exact Hs |]. by constructor.
Qed.

(** A listener, a client waiting at it, and both with the client accepted. *)
Definition waiting_script : list request := [R_open "x" O_CREAT; R_open "x" 0].
Definition linked_script : list request := waiting_script ++ [R_dup 0 (as_bytes "listen")].
Definition waiting : ChanScheme := run (CS := steady_socket) waiting_script ChanScheme_new.
Definition connected : ChanScheme := run (CS := steady_socket) linked_script ChanScheme_new.

Lemma waiting_reachable : chan_reachable (CS := steady_socket) waiting.
Proof. apply run_reachable; [constructor | vm_compute; tauto]. Qed.
Lemma connected_reachable : chan_reachable (CS := steady_socket) connected.
Proof. apply run_reachable; [constructor | vm_compute; tauto]. Qed.
Lemma connected_linked : linked connected 1 2.
Proof. eexists. by vm_compute. Qed.


Lemma chan_no_panic_witness :
  (serve (CS := steady_socket) (R_write 1 [x61] 0) connected).1 <> Panic.
Proof.
  apply (chan_no_panic (CS := steady_socket)); [reflexivity | apply connected_reachable |].
  vm_compute; tauto.
Defined.


Lemma chan_accept_links_witness :
  exists s', dup (CS := steady_socket) 0 (as_bytes "listen") waiting = (Ok (ThisScheme 2 fd_empty), s') /\
    linked s' 1 2 /\ linked s' 2 1.
Proof.
  edestruct (chan_accept_links (CS := steady_socket) (fun _ => eq_refl) waiting 0
    {| flags := O_CREAT; extra := E_Listener {| l_path := Some "x"%string; awaiting := [1] |}; path := None |}
    {| l_path := Some "x"%string; awaiting := [1] |} [] 1 [] Handle_default waiting_reachable)
    as (s' & new & He & H1 & H2 & _).
  1-6: by vm_compute.
  exists s'. split_and!; assumption.
Defined.

Lemma chan_close_hangs_up_witness :
  (on_close (CS := steady_socket) 1 connected).1 = Ok tt /\
  (write (CS := steady_socket) 2 [x61] 0 (on_close (CS := steady_socket) 1 connected).2).1 = Err EPIPE.
Proof.
  destruct (chan_close_hangs_up (CS := steady_socket) (fun _ => eq_refl) connected 1 2
    connected_reachable connected_linked) as (H1 & H2 & _).
  split; [exact H1 |]. by rewrite H2.
Defined.

Lemma chan_fevent_exact_witness :
  exists ev, fevent 1 connected = (Ok ev, connected) /\ any_set ev EVENT_WRITE = true.
Proof.
  destruct (chan_fevent_exact (CS := steady_socket) (SL := redox_syscall_laws) (fun _ => eq_refl)
    connected 1 {| buffer := []; remote := Open 2 |} connected_reachable) as (ev & He & _ & Hw).
  - by vm_compute.
  - exists ev. split; [exact He |]. by rewrite <- (Hw [x61] 0).
Defined.

Lemma chan_failed_accept_breaks_client_witness :
  exists s', dup (CS := failing_socket) 0 (as_bytes "listen") waiting = (Err EAGAIN, s') /\
    (write (CS := failing_socket) 1 [x61] 0 s').1 = Panic.
Proof.
  edestruct (chan_failed_accept_breaks_client (CS := failing_socket) waiting 0
    {| flags := O_CREAT; extra := E_Listener {| l_path := Some "x"%string; awaiting := [1] |}; path := None |}
    {| l_path := Some "x"%string; awaiting := [1] |} 1 [] Handle_default Client_default)
    as (s' & He & Hw & _).
  1-8: by vm_compute.
  exists s'. split; [exact He | apply Hw].
Defined.
End witnesses.
