(* ===== verification/Shm.v ===== *)
(** * ipcd: the shm scheme

    Models [ipcd/src/shm.rs]: named shared-memory objects with a reference
    count per open handle, backed by anonymous mappings ([MmapGuard]).

    The daemon's anonymous mappings are the byte map [mem], from addresses to
    contents; an access outside it is a fault, modelled as a panic.  The
    kernel's [fmap] is a parameter. *)

From stdpp Require Import base gmap strings list fin_maps.
From Stdlib Require Import ZArith Lia.
From Stdlib Require Import Strings.Byte.
From S2P Require Import Prelude Memory Syscall.

Local Open Scope Z_scope.

(** [syscall::fmap] of an anonymous private mapping of a given size, in the
    current address space: the address chosen. *)
Class Mman := { fmap_anon : memory -> Z -> outcome Z }.

(** The mapping is fresh, within the address space and not empty. *)
Class MmanLaws {TG : Target} (MM : Mman) : Prop := {
  fmap_fresh : forall m size base a, fmap_anon m size = Ok base -> base <= a < base + size -> m !! a = None;
  fmap_bounds : forall m size base, fmap_anon m size = Ok base -> 0 <= base /\ base + size <= usize_mod;
  fmap_nonzero : forall m base, fmap_anon m 0 <> Ok base;
  fmap_no_panic : forall m size, fmap_anon m size <> Panic
}.

Section shm.
Context {TG : Target} {SC : Syscall} {MM : Mman}.

(** ** MmapGuard *)

Record MmapGuard := { base : Z; size : Z; len : Z }.

Definition AT_REMOVEDIR : Z := 0x200.

Inductive Handle :=
| H_Shm (path : string)
| H_SchemeRoot.

Definition as_shm (h : Handle) : option string :=
  match h with H_Shm path => Some path | H_SchemeRoot => None end.

Record ShmHandle := { buffer : option MmapGuard; refs : Z; unlinked : bool }.

Definition ShmHandle_default : ShmHandle := {| buffer := None; refs := 0; unlinked := false |}.

Record ShmScheme := {
  maps : gmap string ShmHandle;
  handles : gmap Z Handle;
  next_id : Z;
  mem : memory
}.

Definition ShmScheme_new : ShmScheme := {| maps := ∅; handles := ∅; next_id := 0; mem := ∅ |}.

Definition set_maps (x : gmap string ShmHandle) (s : ShmScheme) : ShmScheme :=
  {| maps := x; handles := handles s; next_id := next_id s; mem := mem s |}.
Definition set_handles (x : gmap Z Handle) (s : ShmScheme) : ShmScheme :=
  {| maps := maps s; handles := x; next_id := next_id s; mem := mem s |}.
Definition set_next_id (x : Z) (s : ShmScheme) : ShmScheme :=
  {| maps := maps s; handles := handles s; next_id := x; mem := mem s |}.
Definition set_mem (x : memory) (s : ShmScheme) : ShmScheme :=
  {| maps := maps s; handles := handles s; next_id := next_id s; mem := x |}.

Definition set_refs (r : Z) (e : ShmHandle) : ShmHandle :=
  {| buffer := buffer e; refs := r; unlinked := unlinked e |}.
Definition set_buffer (b : option MmapGuard) (e : ShmHandle) : ShmHandle :=
  {| buffer := b; refs := refs e; unlinked := unlinked e |}.
Definition set_unlinked (u : bool) (e : ShmHandle) : ShmHandle :=
  {| buffer := buffer e; refs := refs e; unlinked := u |}.

Definition put_map (p : string) (e : ShmHandle) : M ShmScheme unit :=
  modify (fun s => set_maps (<[p := e]> (maps s)) s).

(** [len.div_ceil(PAGE_SIZE)] *)
Definition div_ceil (a b : Z) : Z := (a + b - 1) / b.

Definition alloc (n : Z) : M ShmScheme MmapGuard :=
  let page_count := div_ceil n PAGE_SIZE in
  sz ← arith usize_bits (page_count * PAGE_SIZE);
  m ← gets mem;
  b ← lift (fmap_anon m sz);
  modify (set_mem (store b (replicate (Z.to_nat sz) x00) m));;
  mret {| base := b; size := sz; len := n |}.

Definition guard_len (g : MmapGuard) : Z := size g.
Definition as_ptr (g : MmapGuard) : Z := base g.

(** [ptr::copy_nonoverlapping] from the mapping at [a] to [buf], and from
    [buf] to the mapping. *)
Definition copy_out (a n : Z) (buf : list u8) : M ShmScheme (list u8) :=
  m ← gets mem;
  l ← unwrap (load a (Z.to_nat n) m);
  mret (copy_prefix (Z.to_nat n) l buf).
Definition copy_in (a : Z) (buf : list u8) : M ShmScheme unit :=
  m ← gets mem;
  _ ← unwrap (load a (length buf) m);
  modify (set_mem (store a buf m)).

Definition guard_read (g : MmapGuard) (offset : Z) (buf : list u8) : M ShmScheme (Z * list u8) :=
  e ← ok_or ERANGE (usize_checked_add offset (zlen buf));
  let e := Z.min e (len g) in
  fail_if (len g <? offset) EINVAL;;
  n ← usize_sub e offset;
  buf' ← copy_out (base g + offset) n buf;
  mret (n, buf').

Definition guard_write (g : MmapGuard) (offset : Z) (buf : list u8) : M ShmScheme Z :=
  e ← ok_or ERANGE (usize_checked_add offset (zlen buf));
  fail_if (len g <? e) EINVAL;;
  copy_in (base g + offset) buf;;
  mret (zlen buf).

(** [Drop for MmapGuard], of an entry that is removed. *)
Definition drop_guard (b : option MmapGuard) : M ShmScheme unit :=
  match b with
  | Some g =>
      if size g =? 0 then mret tt
      else modify (fun s => set_mem (unmap (base g) (Z.to_nat (size g)) (mem s)) s)
  | None => mret tt
  end.

(** ** The scheme *)

Definition open (path : string) (flags : Z) : M ShmScheme OpenResult :=
  if str_is_empty path then
    i ← gets next_id;
    n ← usize_add i 1;
    modify (set_next_id n);;
    modify (fun s => set_handles (<[i := H_SchemeRoot]> (handles s)) s);;
    mret (ThisScheme i fd_empty)
  else
    ms ← gets maps;
    entry ← match ms !! path with
            | Some e =>
                if any_set flags O_EXCL && any_set flags O_CREAT then throw EEXIST else mret e
            | None =>
                if negb (any_set flags O_CREAT) then throw ENOENT
                else put_map path ShmHandle_default;; mret ShmHandle_default
            end;
    r ← usize_add (refs entry) 1;
    put_map path (set_refs r entry);;
    i ← gets next_id;
    modify (fun s => set_handles (<[i := H_Shm path]> (handles s)) s);;
    n ← usize_add i 1;
    modify (set_next_id n);;
    mret (ThisScheme i fd_POSITIONED).

Definition PREFIX : list u8 := as_bytes "/scheme/shm/".

(** [self.handles.get(&id).and_then(Handle::as_shm).ok_or(Error::new(EBADF))?] *)
Definition shm_path (i : Z) : M ShmScheme string :=
  hs ← gets handles; ok_or EBADF (hs !! i ≫= as_shm).

(** [self.maps.get_mut(path).expect("handle pointing to nothing")] *)
Definition map_at (path : string) : M ShmScheme ShmHandle :=
  ms ← gets maps; unwrap (ms !! path).

Definition fpath (i : Z) (buf : list u8) : M ShmScheme (Z * list u8) :=
  let l := common_len PREFIX buf in
  let buf := copy_prefix l PREFIX buf in
  if bool_decide (l < length PREFIX)%nat then mret (Z.of_nat l, buf)
  else
    p ← shm_path i;
    let l := (length (as_bytes p) `min` (length buf - length PREFIX))%nat in
    mret (Z.of_nat (length PREFIX + l),
          splice (length PREFIX) (take l (as_bytes p)) buf).

Definition remove_map (p : string) (e : ShmHandle) : M ShmScheme unit :=
  modify (fun s => set_maps (delete p (maps s)) s);;
  drop_guard (buffer e).

Definition on_close (i : Z) : M ShmScheme unit :=
  hs ← gets handles;
  h ← unwrap (hs !! i);
  modify (set_handles (delete i hs));;
  match h with
  | H_SchemeRoot => mret tt
  | H_Shm path =>
      e ← map_at path;
      r ← usize_sub (refs e) 1;
      let e := set_refs r e in
      put_map path e;;
      if (refs e =? 0) && unlinked e then remove_map path e else mret tt
  end.

Definition unlinkat (dirfd : Z) (path : string) (flags : Z) : M ShmScheme unit :=
  hs ← gets handles;
  handle ← ok_or EBADF (hs !! dirfd);
  fail_if (match handle with H_SchemeRoot => false | H_Shm _ => true end) EACCES;;
  fail_if (all_set flags AT_REMOVEDIR) ENOTDIR;;
  ms ← gets maps;
  e ← ok_or ENOENT (ms !! path);
  let e := set_unlinked true e in
  put_map path e;;
  if refs e =? 0 then remove_map path e else mret tt.

Definition fstat (i : Z) : M ShmScheme Stat :=
  path ← shm_path i;
  e ← map_at path;
  let sz := match buffer e with Some g => guard_len g | None => 0 end in
  mret {| st_mode := MODE_FILE; st_uid := 0; st_gid := 0; st_ino := 0; st_nlink := 0; st_dev := 0;
          st_size := sz; st_blksize := 0; st_blocks := 0; st_atime := 0; st_atime_nsec := 0;
          st_ctime := 0; st_ctime_nsec := 0; st_mtime := 0; st_mtime_nsec := 0 |}.

Definition ftruncate (i n : Z) : M ShmScheme unit :=
  path ← shm_path i;
  e ← map_at path;
  match buffer e with
  | Some _ => throw EIO
  | None =>
      g ← alloc (as_usize n);
      put_map path (set_buffer (Some g) e)
  end.

Definition mmap_prep (i offset sz : Z) : M ShmScheme Z :=
  path ← shm_path i;
  total_size ← usize_add (as_usize offset) sz;
  e ← map_at path;
  match buffer e with
  | Some g =>
      fail_if (guard_len g <? total_size) ERANGE;;
      usize_add (as_ptr g) (as_usize offset)
  | None =>
      g ← alloc sz;
      put_map path (set_buffer (Some g) e);;
      usize_add (as_ptr g) (as_usize offset)
  end.

Definition read (i : Z) (buf : list u8) (offset : Z) : M ShmScheme (Z * list u8) :=
  path ← shm_path i;
  e ← map_at path;
  match buffer e with
  | Some g => guard_read g (as_usize offset) buf
  | None => throw ERANGE
  end.

Definition write (i : Z) (buf : list u8) (offset : Z) : M ShmScheme Z :=
  path ← shm_path i;
  e ← map_at path;
  match buffer e with
  | Some g => guard_write g (as_usize offset) buf
  | None => throw ERANGE
  end.
End shm.
