(* ===== verification/ShmFacts.v ===== *)
(** * ipcd: correctness of the shm scheme

    The reference count of an object is the number of its open handles; the
    mappings of different objects are disjoint and mapped, so reads and writes
    never fault; bytes written are read back; an object lives exactly until it
    is unlinked and its last handle is closed.  The last section states what
    [mmap_prep] does with offsets past the mapping. *)

From stdpp Require Import base gmap strings list fin_maps.
From Stdlib Require Import ZArith Lia.
From Stdlib Require Import Strings.Byte.
From S2P Require Import Prelude Memory Syscall Shm.

Local Open Scope Z_scope.

#[local] Instance Handle_eq_dec : EqDecision Handle.
Proof. solve_decision. Defined.

Definition count (p : string) (hs : gmap Z Handle) : nat :=
  base.size (filter (fun kv : Z * Handle => kv.2 = H_Shm p) hs).

Lemma count_insert p hs i h :
  hs !! i = None ->
  count p (<[i := h]> hs) = (count p hs + if decide (h = H_Shm p) then 1 else 0)%nat.
Proof.
  intros Hi. unfold count. destruct (decide (h = H_Shm p)) as [He | He].
  - rewrite map_filter_insert_True by done. rewrite map_size_insert_None; [lia |].
    apply map_lookup_filter_None. by left.
  - rewrite map_filter_insert_False by done. rewrite delete_id by done. lia.
Qed.

Lemma count_delete p hs i h :
  hs !! i = Some h ->
  (count p hs = count p (delete i hs) + if decide (h = H_Shm p) then 1 else 0)%nat.
Proof.
  intros Hi. rewrite <- (insert_delete_id _ _ _ Hi) at 1. apply count_insert. apply lookup_delete_eq.
Qed.

Lemma count_le p hs : (count p hs <= base.size hs)%nat.
Proof. apply map_subseteq_size, map_filter_subseteq. Qed.

(** ** The invariant *)

Section invariant.
Context {TG : Target} {SC : Syscall} {MM : Mman} {ML : MmanLaws MM}.
Hypothesis page_pos : 0 < PAGE_SIZE.
Hypothesis page_divides : (PAGE_SIZE | usize_mod).

(** The reference count of [p], 0 when there is no such object. *)
Definition refs_of (s : ShmScheme) (p : string) : Z :=
  match maps s !! p with Some e => refs e | None => 0 end.

Definition in_guard (g : MmapGuard) (x : Z) : Prop := base g <= x < base g + size g.

Record guard_ok (g : MmapGuard) (m : memory) : Prop := {
  go_base : 0 <= base g;
  go_end : base g + size g <= usize_mod;
  go_len : 0 <= len g <= size g;
  go_mapped : mapped (base g) (size g) m
}.

Definition guard_at (s : ShmScheme) (p : string) (g : MmapGuard) : Prop :=
  exists e, maps s !! p = Some e /\ buffer e = Some g.

Record shm_wf (s : ShmScheme) : Prop := {
  sh_next : 0 <= next_id s;
  sh_size : Z.of_nat (base.size (handles s)) <= next_id s;
  sh_ids : forall i h, handles s !! i = Some h -> 0 <= i < next_id s;
  sh_refs : forall p, refs_of s p = Z.of_nat (count p (handles s));
  sh_unlinked : forall p e, maps s !! p = Some e -> unlinked e = true -> 0 < refs e;
  sh_guard : forall p g, guard_at s p g -> guard_ok g (mem s);
  sh_disjoint : forall p q g g' x, guard_at s p g -> guard_at s q g' -> p <> q ->
    in_guard g x -> in_guard g' x -> False
}.

Lemma ShmScheme_new_wf : shm_wf ShmScheme_new.
Proof.
  split; unfold guard_at; cbn; try done; setoid_rewrite lookup_empty; naive_solver.
Qed.

Lemma shm_refs_at s p e : shm_wf s -> maps s !! p = Some e -> refs e = Z.of_nat (count p (handles s)).
Proof. intros Hw Hp. rewrite <- (sh_refs _ Hw). unfold refs_of. by rewrite Hp. Qed.

(** A handle points to an object. *)
Lemma shm_handle_map s i p :
  shm_wf s -> handles s !! i = Some (H_Shm p) -> exists e, maps s !! p = Some e /\ 0 < refs e.
Proof.
  intros Hw Hi. pose proof (sh_refs _ Hw p) as Hr. unfold refs_of in Hr.
  rewrite (count_delete p _ _ _ Hi), decide_True in Hr by done.
  destruct (maps s !! p) as [e |]; [| lia]. exists e. split; [done | lia].
Qed.

(** Replacing an object by one with the same mapping. *)
Lemma guard_at_put s s' p e e' q g :
  maps s !! p = Some e -> buffer e' = buffer e -> maps s' = <[p := e']> (maps s) ->
  guard_at s' q g -> guard_at s q g.
Proof.
  intros Hp Hb Hs (e1 & He & Hg). rewrite Hs in He. unfold guard_at.
  apply lookup_insert_Some in He as [[<- <-] | [? ?]]; [| eauto].
  exists e. by rewrite <- Hb.
Qed.

Ltac guard_put := eapply guard_at_put; [eassumption | | | eassumption]; cycle 1; [reflexivity | done].

Lemma guard_at_delete s p q g :
  guard_at (set_maps (delete p (maps s)) s) q g -> q <> p /\ guard_at s q g.
Proof. intros (e & He & Hg). cbn in He. apply lookup_delete_Some in He as [? ?]. split; [done |]. by exists e. Qed.

(** Preservation of the mappings: fewer or the same guards over the same
    memory. *)
Lemma wf_put_map s p e e' :
  shm_wf s -> maps s !! p = Some e -> buffer e' = buffer e -> refs e' = refs e ->
  (unlinked e' = true -> 0 < refs e') ->
  shm_wf (set_maps (<[p := e']> (maps s)) s).
Proof.
  intros Hw Hp Hb Hr Hu. split; cbn; try apply Hw.
  - intros q. rewrite <- (sh_refs _ Hw). unfold refs_of. cbn.
    destruct (decide (p = q)) as [<- | ?]; [by rewrite lookup_insert_eq, Hp | by rewrite lookup_insert_ne].
  - intros q e1 [[<- <-] | [? ?]]%lookup_insert_Some; [done |]. by apply (sh_unlinked _ Hw q).
  - intros q g Hg. eapply (sh_guard _ Hw q); guard_put.
  - intros q q' g g' x Hg Hg'. eapply (sh_disjoint _ Hw); guard_put.
Qed.

(** A handle to [p] is added, or removed. *)
Lemma wf_add_handle s p e :
  shm_wf s -> (maps s !! p = Some e \/ maps s !! p = None /\ e = ShmHandle_default) ->
  shm_wf (set_next_id (next_id s + 1)
    (set_handles (<[next_id s := H_Shm p]> (handles s))
       (set_maps (<[p := set_refs (refs e + 1) e]> (maps s)) s))).
Proof.
  intros Hw Hp.
  assert (handles s !! next_id s = None) as Hf.
  { destruct (handles s !! next_id s) eqn:E; [| done]. apply (sh_ids _ Hw) in E. lia. }
  assert (refs e = refs_of s p) as Hr by (unfold refs_of; destruct Hp as [-> | [-> ->]]; done).
  assert (forall q g, guard_at (set_maps (<[p := set_refs (refs e + 1) e]> (maps s)) s) q g -> guard_at s q g) as Hga.
  { intros q g (e1 & He & Hg). cbn in He. apply lookup_insert_Some in He as [[<- <-] | [? ?]]; [| by exists e1].
    destruct Hp as [? | [_ ->]]; [by exists e | done]. }
  pose proof (sh_next _ Hw). pose proof (sh_size _ Hw). split; cbn; try done.
  - lia.
  - rewrite map_size_insert_None by done. lia.
  - intros i h [[<- <-] | [? Hi]]%lookup_insert_Some; [lia |]. apply (sh_ids _ Hw) in Hi. lia.
  - intros q. rewrite count_insert by done. unfold refs_of. cbn.
    destruct (decide (p = q)) as [<- | ?].
    + rewrite lookup_insert_eq, decide_True by done. cbn. rewrite Hr, (sh_refs _ Hw). lia.
    + rewrite lookup_insert_ne, decide_False by congruence. rewrite Nat.add_0_r. apply (sh_refs _ Hw).
  - intros q e1 [[<- <-] | [? ?]]%lookup_insert_Some; [| by apply (sh_unlinked _ Hw q)].
    cbn. intros _. rewrite Hr, (sh_refs _ Hw). lia.
  - intros q g Hg. by eapply (sh_guard _ Hw q), Hga.
  - intros q q' g g' x Hg Hg'. eapply (sh_disjoint _ Hw); by apply Hga.
Qed.

Lemma wf_del_handle s i p e :
  shm_wf s -> handles s !! i = Some (H_Shm p) -> maps s !! p = Some e ->
  (unlinked e = false \/ 1 < refs e) ->
  shm_wf (set_maps (<[p := set_refs (refs e - 1) e]> (maps s)) (set_handles (delete i (handles s)) s)).
Proof.
  intros Hw Hi Hp Hu. pose proof (shm_refs_at _ _ _ Hw Hp) as Hr. split; cbn; try apply Hw.
  - rewrite map_size_delete_Some by done. pose proof (sh_size _ Hw). lia.
  - intros j h [? ?]%lookup_delete_Some. by eapply sh_ids.
  - intros q. unfold refs_of. cbn. pose proof (count_delete q _ _ _ Hi) as Hc.
    destruct (decide (p = q)) as [<- | ?].
    + rewrite lookup_insert_eq. cbn. rewrite decide_True in Hc by done. lia.
    + rewrite decide_False in Hc by congruence. rewrite lookup_insert_ne by done.
      rewrite Nat.add_0_r in Hc. rewrite <- Hc. apply (sh_refs _ Hw).
  - intros q e1 [[<- <-] | [? ?]]%lookup_insert_Some; [| by apply (sh_unlinked _ Hw q)].
    cbn. intros Hun. destruct Hu; [congruence | lia].
  - intros q g Hg. eapply (sh_guard _ Hw q); guard_put.
  - intros q q' g g' x Hg Hg'. eapply (sh_disjoint _ Hw); guard_put.
Qed.

(** An object without handles is removed and its mapping released. *)
Definition release (b : option MmapGuard) (m : memory) : memory :=
  match b with
  | Some g => if size g =? 0 then m else unmap (base g) (Z.to_nat (size g)) m
  | None => m
  end.

Lemma wp_drop_guard b Q s : Q (Ok tt) (set_mem (release b (mem s)) s) -> wp (drop_guard b) Q s.
Proof. intros HQ. unfold wp. destruct b as [g |]; cbn in *; [destruct (size g =? 0) |]; by destruct s. Qed.

Lemma release_mapped b m a n :
  (forall g x, b = Some g -> in_guard g x -> ~ a <= x < a + n) -> mapped a n m -> mapped a n (release b m).
Proof.
  intros Hd Hm. destruct b as [g |]; cbn; [| done]. destruct (size g =? 0) eqn:E; [done |].
  intros x Hx. rewrite lookup_unmap, decide_False; [by apply Hm |].
  intros Hin. eapply (Hd g x); [done | unfold in_guard; lia | done].
Qed.

Lemma wf_remove_map s p e hs :
  shm_wf s -> maps s !! p = Some e ->
  Z.of_nat (base.size hs) <= next_id s ->
  (forall i h, hs !! i = Some h -> 0 <= i < next_id s) ->
  (forall q, q <> p -> count q hs = count q (handles s)) -> count p hs = O ->
  shm_wf (set_mem (release (buffer e) (mem s))
           (set_maps (delete p (maps s)) (set_handles hs s))).
Proof.
  intros Hw Hp Hs Hi Hc H0.
  assert (forall q g, guard_at (set_maps (delete p (maps s)) s) q g -> q <> p /\ guard_at s q g) as Hga
    by (intros; by apply guard_at_delete).
  split; cbn; try done; try apply Hw.
  - intros q. unfold refs_of. cbn. destruct (decide (p = q)) as [<- | ?].
    + rewrite lookup_delete_eq, H0. done.
    + rewrite lookup_delete_ne, Hc by done. apply (sh_refs _ Hw).
  - intros q e1 [? ?]%lookup_delete_Some. by apply (sh_unlinked _ Hw q).
  - intros q g Hg. destruct (Hga q g Hg) as [Hne Hg'].
    destruct (sh_guard _ Hw q g Hg') as [? ? ? Hm]. split; try done.
    apply release_mapped; [| done]. intros g1 x Hb Hin Hx.
    eapply (sh_disjoint _ Hw p q g1 g x); [by exists e | done | done | done | done].
  - intros q q' g g' x Hg Hg'. destruct (Hga q g Hg) as [? ?], (Hga q' g' Hg') as [? ?].
    by eapply (sh_disjoint _ Hw).
Qed.

(** A mapping is attached to an object that has none. *)
Lemma wf_attach s p e b sz n :
  shm_wf s -> maps s !! p = Some e -> buffer e = None ->
  fmap_anon (mem s) sz = Ok b -> 0 <= n <= sz ->
  shm_wf (set_maps (<[p := set_buffer (Some {| base := b; size := sz; len := n |}) e]> (maps s))
           (set_mem (store b (replicate (Z.to_nat sz) x00) (mem s)) s)).
Proof.
  intros Hw Hp Hb Hf Hn. set (g0 := {| base := b; size := sz; len := n |}).
  pose proof (fmap_bounds _ _ _ Hf) as [Hb0 Hb1].
  assert (forall q g, guard_at (set_maps (<[p := set_buffer (Some g0) e]> (maps s)) s) q g ->
            (q = p /\ g = g0) \/ (q <> p /\ guard_at s q g)) as Hga.
  { intros q g (e1 & He & Hg). cbn in He. apply lookup_insert_Some in He as [[<- <-] | [? ?]]; [left | right].
    - by injection Hg as <-.
    - split; [done |]. by exists e1. }
  assert (forall q g x, guard_at s q g -> in_guard g x -> ~ in_guard g0 x) as Hdisj.
  { intros q g x Hg Hin Hin0. destruct (sh_guard _ Hw q g Hg) as [_ _ _ Hm].
    destruct (Hm x Hin) as [y Hy]. pose proof (fmap_fresh _ _ _ x Hf Hin0). congruence. }
  split; cbn; try apply Hw.
  - intros q. rewrite <- (sh_refs _ Hw). unfold refs_of. cbn.
    destruct (decide (p = q)) as [<- | ?]; [by rewrite lookup_insert_eq, Hp | by rewrite lookup_insert_ne].
  - intros q e1 [[<- <-] | [? ?]]%lookup_insert_Some; [| by apply (sh_unlinked _ Hw q)].
    cbn. by apply (sh_unlinked _ Hw p).
  - intros q g Hg. destruct (Hga q g Hg) as [[-> ->] | [_ Hg']].
    + split; try done. cbn. replace sz with (zlen (replicate (Z.to_nat sz) x00)) at 1
        by (unfold zlen; rewrite length_replicate; lia). apply mapped_stored.
    + destruct (sh_guard _ Hw q g Hg') as [? ? ? Hm]. split; try done. by apply mapped_store.
  - intros q q' g g' x Hg Hg' Hne Hin Hin'.
    destruct (Hga q g Hg) as [[-> ->] | [? ?]], (Hga q' g' Hg') as [[-> ->] | [? ?]]; try done.
    + by eapply Hdisj.
    + by eapply Hdisj.
    + by apply (sh_disjoint _ Hw q q' g g' x).
Qed.

Lemma wf_store s a l : shm_wf s -> shm_wf (set_mem (store a l (mem s)) s).
Proof.
  intros Hw. split; cbn; try apply Hw. intros p g Hg.
  destruct (sh_guard _ Hw p g Hg) as [? ? ? Hm]. split; try done. by apply mapped_store.
Qed.

(** ** Rules for the primitives *)

Lemma wp_shm_path i Q s :
  (forall p, handles s !! i = Some (H_Shm p) -> Q (Ok p) s) -> Q (Err EBADF) s -> wp (shm_path i) Q s.
Proof.
  intros H1 H2. unfold shm_path. repeat wp_step; [| done].
  destruct (handles s !! i) as [[p |] |]; simplify_eq/=. auto.
Qed.

Lemma wp_map_at i p Q s :
  shm_wf s -> handles s !! i = Some (H_Shm p) ->
  (forall e, maps s !! p = Some e -> Q (Ok e) s) -> wp (map_at p) Q s.
Proof.
  intros Hw Hi HQ. destruct (shm_handle_map _ _ _ Hw Hi) as (e & He & _).
  unfold map_at, wp, gets, mbind, M_bind. rewrite He. cbn. auto.
Qed.

Lemma wp_put_map p e Q s : Q (Ok tt) (set_maps (<[p := e]> (maps s)) s) -> wp (put_map p e) Q s.
Proof. done. Qed.

Lemma usize_mod_pow : 2 ^ usize_bits = usize_mod.
Proof. done. Qed.

(** The size that [alloc] computes covers the length, unless it wrapped to 0. *)
Lemma div_ceil_mul n : 0 <= n -> n <= div_ceil n PAGE_SIZE * PAGE_SIZE < n + PAGE_SIZE.
Proof.
  intros Hn. unfold div_ceil. pose proof (Z.div_mod (n + PAGE_SIZE - 1) PAGE_SIZE).
  pose proof (Z.mod_pos_bound (n + PAGE_SIZE - 1) PAGE_SIZE). lia.
Qed.

Lemma page_wrap n :
  0 <= n < usize_mod -> ~ 0 <= div_ceil n PAGE_SIZE * PAGE_SIZE < usize_mod ->
  (div_ceil n PAGE_SIZE * PAGE_SIZE) mod usize_mod = 0.
Proof.
  intros Hn Ho. pose proof (div_ceil_mul n ltac:(lia)). destruct page_divides as [k Hk].
  set (c := div_ceil n PAGE_SIZE) in *. clearbody c.
  assert (c = k) as -> by nia. rewrite <- Hk. apply Z_mod_same_full.
Qed.

Lemma wp_alloc n Q s :
  0 <= n < usize_mod ->
  (forall b sz, fmap_anon (mem s) sz = Ok b -> n <= sz ->
     Q (Ok {| base := b; size := sz; len := n |})
       (set_mem (store b (replicate (Z.to_nat sz) x00) (mem s)) s)) ->
  (forall e, Q (Err e) s) -> (overflow_checks = true -> Q Panic s) ->
  wp (alloc n) Q s.
Proof.
  intros Hn HQ He Hp. unfold alloc. pose proof (div_ceil_mul n ltac:(lia)) as Hc. wp_run.
  - apply HQ; [done | lia].
  - exfalso. by eapply fmap_no_panic.
  - auto.
  - rewrite usize_mod_pow in *. rewrite page_wrap in * by done. by destruct (fmap_nonzero _ _ Heqo).
  - exfalso. by eapply fmap_no_panic.
Qed.

(** Keeps the invariant, and panics only for an arithmetic overflow in a
    build that checks for it. *)
Definition shm_post {A} (o : outcome A) (s' : ShmScheme) : Prop :=
  shm_wf s' /\ (overflow_checks = false -> o <> Panic).

Definition shm_safe {A} (m : M ShmScheme A) : Prop :=
  forall s, shm_wf s -> next_id s + 1 < usize_mod -> wp m shm_post s.

Lemma shm_post_ok {A} (a : A) s : shm_wf s -> shm_post (Ok a) s.
Proof. by split. Qed.
Lemma shm_post_err {A} e s : shm_wf s -> shm_post (A := A) (Err e) s.
Proof. by split. Qed.
Lemma shm_post_panic {A} s : shm_wf s -> overflow_checks = true -> shm_post (A := A) Panic s.
Proof. intros ? Hc. split; congruence. Qed.
End invariant.

Create HintDb shm discriminated.
#[export] Hint Resolve shm_post_ok shm_post_err shm_post_panic : shm.

Ltac swp_step :=
  match goal with
  | |- wp (shm_path _) _ _ => apply wp_shm_path; [intros ? ? |]
  | |- wp (map_at _) _ _ => eapply wp_map_at; [eassumption | eassumption | intros ? ?]
  | |- wp (put_map _ _) _ _ => apply wp_put_map
  | |- wp (drop_guard _) _ _ => apply wp_drop_guard
  | |- shm_post _ _ => solve [eauto with shm]
  | _ => wp_step
  end.
Ltac swp := repeat (swp_step; try done).

Section requests.
Context {TG : Target} {SC : Syscall} {MM : Mman} {ML : MmanLaws MM}.
Hypothesis page_pos : 0 < PAGE_SIZE.
Hypothesis page_divides : (PAGE_SIZE | usize_mod).

Lemma fstat_safe_shm i : shm_safe (fstat i).
Proof. intros s Hw Hn. unfold fstat. swp. Qed.

Lemma fpath_safe_shm i buf : shm_safe (fpath i buf).
Proof. intros s Hw Hn. unfold fpath. swp. Qed.

Lemma as_usize_bounds n : 0 <= as_usize n < usize_mod.
Proof. apply Z.mod_pos_bound. pose proof usize_mod_ge. lia. Qed.

Lemma ftruncate_safe_shm i n : shm_safe (ftruncate i n).
Proof.
  intros s Hw Hn. unfold ftruncate. swp. pose proof (as_usize_bounds n) as Hu.
  apply wp_alloc; try done; [| swp].
  - intros b sz Hf Hle. swp. apply shm_post_ok. apply (wf_attach s); try done. lia.
  - intros. by apply shm_post_panic.
Qed.

(** [sz] is a [usize] argument. *)
Lemma mmap_prep_safe_shm i offset sz : 0 <= sz < usize_mod -> shm_safe (mmap_prep i offset sz).
Proof.
  intros Hsz s Hw Hn. unfold mmap_prep. swp.
  all: apply wp_alloc; try done; [| intros; by apply shm_post_panic].
  all: intros b sz' Hf Hle; swp; (apply shm_post_ok || (apply shm_post_panic; [| done]));
    apply (wf_attach s); try done; lia.
Qed.

(** What [MmapGuard::read] and [MmapGuard::write] do on every branch. *)
Lemma guard_read_eval g offset buf s :
  guard_ok g (mem s) -> 0 <= offset ->
  guard_read g offset buf s =
    if usize_mod <=? offset + zlen buf then (Err ERANGE, s)
    else if len g <? offset then (Err EINVAL, s)
    else let n := Z.min (zlen buf) (len g - offset) in
         (Ok (n, copy_prefix (Z.to_nat n) (default [] (load (base g + offset) (Z.to_nat n) (mem s))) buf), s).
Proof.
  intros [Hb He Hl Hm] Ho. unfold guard_read, usize_checked_add.
  destruct (usize_mod <=? offset + zlen buf) eqn:E1, (offset + zlen buf <? usize_mod) eqn:E1';
    [lia | done | | lia].
  unfold mbind, M_bind, ok_or, fail_if, mret, M_ret.
  destruct (len g <? offset) eqn:E2; [done |].
  assert (Z.min (offset + zlen buf) (len g) - offset = Z.min (zlen buf) (len g - offset)) as Hn by lia.
  rewrite usize_sub_ok, Hn by (unfold zlen in *; lia).
  unfold copy_out, gets, mbind, M_bind.
  destruct (load_mapped (base g + offset) (Z.to_nat (Z.min (zlen buf) (len g - offset))) (mem s))
    as (l & -> & _); [| done].
  eapply mapped_sub; [exact Hm | lia |]. unfold zlen in *. lia.
Qed.

Lemma guard_write_eval g offset buf s :
  guard_ok g (mem s) -> 0 <= offset ->
  guard_write g offset buf s =
    if usize_mod <=? offset + zlen buf then (Err ERANGE, s)
    else if len g <? offset + zlen buf then (Err EINVAL, s)
    else (Ok (zlen buf), set_mem (store (base g + offset) buf (mem s)) s).
Proof.
  intros [Hb He Hl Hm] Ho. unfold guard_write, usize_checked_add.
  destruct (usize_mod <=? offset + zlen buf) eqn:E1, (offset + zlen buf <? usize_mod) eqn:E1';
    [lia | done | | lia].
  unfold mbind, M_bind, ok_or, fail_if, mret, M_ret.
  destruct (len g <? offset + zlen buf) eqn:E2; [done |].
  unfold copy_in, gets, mbind, M_bind.
  destruct (load_mapped (base g + offset) (length buf) (mem s)) as (l & -> & _); [| done].
  eapply mapped_sub; [exact Hm | lia |]. unfold zlen in *. lia.
Qed.

Lemma read_safe_shm i buf offset : shm_safe (read i buf offset).
Proof.
  intros s Hw Hn. unfold read. swp. unfold wp.
  rewrite guard_read_eval; [| apply (sh_guard _ Hw p); by exists e | apply as_usize_bounds].
  repeat case_match; swp.
Qed.

Lemma write_safe_shm i buf offset : shm_safe (write i buf offset).
Proof.
  intros s Hw Hn. unfold write. swp. unfold wp.
  rewrite guard_write_eval; [| apply (sh_guard _ Hw p); by exists e | apply as_usize_bounds].
  repeat case_match; swp. cbn. apply shm_post_ok. by apply wf_store.
Qed.

Lemma shm_fresh s : shm_wf s -> handles s !! next_id s = None.
Proof.
  intros Hw. destruct (handles s !! next_id s) eqn:E; [| done]. apply (sh_ids _ Hw) in E. lia.
Qed.

Lemma wf_add_root s :
  shm_wf s ->
  shm_wf (set_handles (<[next_id s := H_SchemeRoot]> (handles s)) (set_next_id (next_id s + 1) s)).
Proof.
  intros Hw. pose proof (shm_fresh s Hw) as Hf. pose proof (sh_next _ Hw). pose proof (sh_size _ Hw).
  split; cbn; try done; try apply Hw.
  - lia.
  - rewrite map_size_insert_None by done. lia.
  - intros i h [[<- <-] | [? Hi]]%lookup_insert_Some; [lia |]. apply (sh_ids _ Hw) in Hi. lia.
  - intros q. rewrite count_insert, decide_False, Nat.add_0_r by done. apply (sh_refs _ Hw).
Qed.

Lemma refs_bound s p e : shm_wf s -> maps s !! p = Some e -> 0 <= refs e <= next_id s.
Proof.
  intros Hw Hp. rewrite (shm_refs_at _ _ _ Hw Hp). pose proof (count_le p (handles s)).
  pose proof (sh_size _ Hw). lia.
Qed.

(** The tail of [open], with the entry found or just inserted. *)
Lemma open_tail s0 s p e :
  shm_wf s0 -> next_id s0 + 1 < usize_mod ->
  (maps s0 !! p = Some e \/ maps s0 !! p = None /\ e = ShmHandle_default) ->
  handles s = handles s0 -> next_id s = next_id s0 -> mem s = mem s0 ->
  <[p := set_refs (refs e + 1) e]> (maps s) = <[p := set_refs (refs e + 1) e]> (maps s0) ->
  (r ← usize_add (refs e) 1;
   put_map p (set_refs r e);;
   i ← gets next_id;
   modify (fun s => set_handles (<[i := H_Shm p]> (handles s)) s);;
   n ← usize_add i 1;
   modify (set_next_id n);;
   mret (ThisScheme i fd_POSITIONED)) s =
  (Ok (ThisScheme (next_id s0) fd_POSITIONED),
   set_next_id (next_id s0 + 1)
     (set_handles (<[next_id s0 := H_Shm p]> (handles s0))
        (set_maps (<[p := set_refs (refs e + 1) e]> (maps s0)) s0))).
Proof.
  intros Hw Hn Hp Hh Hi Hm He. pose proof (sh_next _ Hw) as H0.
  assert (0 <= refs e <= next_id s0) as Hr.
  { destruct Hp as [Hp | [_ ->]]; [by eapply refs_bound | cbn; lia]. }
  unfold mbind, M_bind. rewrite usize_add_ok by lia. unfold put_map, modify, gets. cbn.
  rewrite Hi, usize_add_ok by lia. cbn. unfold set_next_id, set_handles, set_maps. cbn.
  by rewrite He, Hh, Hm.
Qed.

(** What a successful or failing [open] does, by case. *)
Lemma open_eval s path flags :
  shm_wf s -> next_id s + 1 < usize_mod ->
  open path flags s =
    if str_is_empty path then
      (Ok (ThisScheme (next_id s) fd_empty),
       set_handles (<[next_id s := H_SchemeRoot]> (handles s)) (set_next_id (next_id s + 1) s))
    else
      let added e := (Ok (ThisScheme (next_id s) fd_POSITIONED),
                      set_next_id (next_id s + 1)
                        (set_handles (<[next_id s := H_Shm path]> (handles s))
                           (set_maps (<[path := set_refs (refs e + 1) e]> (maps s)) s))) in
      match maps s !! path with
      | Some e => if any_set flags O_EXCL && any_set flags O_CREAT then (Err EEXIST, s) else added e
      | None => if any_set flags O_CREAT then added ShmHandle_default else (Err ENOENT, s)
      end.
Proof.
  intros Hw Hn. pose proof (sh_next _ Hw) as H0. unfold open. destruct (str_is_empty path).
  { unfold gets, mbind, M_bind. rewrite usize_add_ok by lia. done. }
  rewrite gets_bind. destruct (maps s !! path) as [e |] eqn:Ep.
  - destruct (_ && _) eqn:Ef; [done |]. rewrite ret_bind. apply (open_tail s); auto.
  - destruct (any_set flags O_CREAT) eqn:Ef; [| done]. cbn [negb].
    apply (open_tail s (set_maps (<[path := ShmHandle_default]> (maps s)) s) path ShmHandle_default); auto.
    cbn. by rewrite insert_insert_eq.
Qed.

Lemma open_safe_shm path flags : shm_safe (open path flags).
Proof.
  intros s Hw Hn. unfold wp. rewrite open_eval by done.
  destruct (str_is_empty path); [by apply shm_post_ok, wf_add_root |].
  destruct (maps s !! path) as [e |] eqn:Ep; case_match; cbn; swp;
    apply shm_post_ok, wf_add_handle; auto.
Qed.

Lemma wp_remove_map p e Q s :
  Q (Ok tt) (set_mem (release (buffer e) (mem s)) (set_maps (delete p (maps s)) s)) ->
  wp (remove_map p e) Q s.
Proof. intros HQ. unfold remove_map. swp. Qed.

(** The object of a handle that is closed stays, with one reference less, or
    is removed and its mapping released. *)
Definition closed (s : ShmScheme) (i : Z) (p : string) (e : ShmHandle) : ShmScheme :=
  if (refs e =? 1) && unlinked e then
    set_mem (release (buffer e) (mem s))
      (set_maps (delete p (maps s)) (set_handles (delete i (handles s)) s))
  else set_maps (<[p := set_refs (refs e - 1) e]> (maps s)) (set_handles (delete i (handles s)) s).

Lemma drop_guard_eval b s : drop_guard b s = (Ok tt, set_mem (release b (mem s)) s).
Proof. destruct b as [g |]; cbn; [destruct (size g =? 0) |]; by destruct s. Qed.

Lemma on_close_eval s i p e :
  shm_wf s -> next_id s < usize_mod -> handles s !! i = Some (H_Shm p) -> maps s !! p = Some e ->
  on_close i s = (Ok tt, closed s i p e).
Proof.
  intros Hw Hn Hi Hp. destruct (shm_handle_map _ _ _ Hw Hi) as (e' & ? & Hr). simplify_eq.
  pose proof (refs_bound _ _ _ Hw Hp). unfold on_close, map_at, closed.
  rewrite gets_bind, Hi. unfold unwrap. rewrite ret_bind. unfold modify, gets, mbind, M_bind. cbn.
  rewrite Hp. cbn. rewrite usize_sub_ok by lia. cbn.
  replace (refs e - 1 =? 0) with (refs e =? 1) by lia.
  destruct ((refs e =? 1) && unlinked e); [| done].
  unfold remove_map, modify, mbind, M_bind. rewrite drop_guard_eval. cbn.
  by rewrite delete_insert_eq.
Qed.

Lemma closed_wf s i p e :
  shm_wf s -> handles s !! i = Some (H_Shm p) -> maps s !! p = Some e -> shm_wf (closed s i p e).
Proof.
  intros Hw Hi Hp. destruct (shm_handle_map _ _ _ Hw Hi) as (e' & ? & Hr). simplify_eq.
  unfold closed. destruct ((refs e =? 1) && unlinked e) eqn:E.
  - apply andb_true_iff in E as [E _]. apply wf_remove_map; try done.
    + rewrite map_size_delete_Some by done. pose proof (sh_size _ Hw). lia.
    + intros j h [? ?]%lookup_delete_Some. by eapply sh_ids.
    + intros q Hq. pose proof (count_delete q _ _ _ Hi) as Hc.
      rewrite decide_False in Hc by congruence. lia.
    + pose proof (count_delete p _ _ _ Hi) as Hc. rewrite decide_True in Hc by done.
      pose proof (shm_refs_at _ _ _ Hw Hp). lia.
  - apply wf_del_handle; try done. apply andb_false_iff in E as [E | E]; [right | by left].
    lia.
Qed.

Lemma wf_close_root s i :
  shm_wf s -> handles s !! i = Some H_SchemeRoot -> shm_wf (set_handles (delete i (handles s)) s).
Proof.
  intros Hw Hi. split; cbn; try apply Hw.
  - rewrite map_size_delete_Some by done. pose proof (sh_size _ Hw). lia.
  - intros j h [? ?]%lookup_delete_Some. by eapply sh_ids.
  - intros q. pose proof (count_delete q _ _ _ Hi) as Hc. rewrite decide_False in Hc by done.
    rewrite Nat.add_0_r in Hc. rewrite <- Hc. apply (sh_refs _ Hw).
Qed.

(** The kernel closes only handles it was given. *)
Lemma on_close_safe_shm i s :
  shm_wf s -> next_id s < usize_mod -> is_Some (handles s !! i) -> wp (on_close i) shm_post s.
Proof.
  intros Hw Hn [h Hi]. destruct h as [p |].
  - destruct (shm_handle_map _ _ _ Hw Hi) as (e & Hp & _). unfold wp.
    rewrite (on_close_eval _ _ _ _ Hw Hn Hi Hp). by apply shm_post_ok, closed_wf.
  - unfold on_close, wp. rewrite gets_bind, Hi. by apply shm_post_ok, wf_close_root.
Qed.

(** Unlinking marks the object, or removes it when it has no handle. *)
Definition unlinked_state (s : ShmScheme) (p : string) (e : ShmHandle) : ShmScheme :=
  if refs e =? 0 then set_mem (release (buffer e) (mem s)) (set_maps (delete p (maps s)) s)
  else set_maps (<[p := set_unlinked true e]> (maps s)) s.

Lemma unlinkat_eval s dirfd path flags :
  unlinkat dirfd path flags s =
    match handles s !! dirfd with
    | None => (Err EBADF, s)
    | Some (H_Shm _) => (Err EACCES, s)
    | Some H_SchemeRoot =>
        if all_set flags AT_REMOVEDIR then (Err ENOTDIR, s)
        else match maps s !! path with
             | None => (Err ENOENT, s)
             | Some e => (Ok tt, unlinked_state s path e)
             end
    end.
Proof.
  unfold unlinkat. rewrite gets_bind. destruct (handles s !! dirfd) as [[q |] |]; [done | | done].
  unfold ok_or. rewrite ret_bind. cbn [fail_if]. rewrite ret_bind.
  destruct (all_set flags AT_REMOVEDIR); [done |]. cbn [fail_if]. rewrite ret_bind, gets_bind.
  destruct (maps s !! path) as [e |]; [| done]. rewrite ret_bind.
  unfold unlinked_state, put_map, modify, mbind, M_bind. cbn [fst snd refs set_unlinked].
  destruct (refs e =? 0); [| done].
  unfold remove_map, modify, mbind, M_bind. rewrite drop_guard_eval. cbn.
  by rewrite delete_insert_eq.
Qed.

Lemma unlinked_wf s p e : shm_wf s -> maps s !! p = Some e -> shm_wf (unlinked_state s p e).
Proof.
  intros Hw Hp. unfold unlinked_state. pose proof (refs_bound _ _ _ Hw Hp).
  destruct (refs e =? 0) eqn:E.
  - apply (wf_remove_map s p e (handles s)); try done; try apply Hw.
    pose proof (shm_refs_at _ _ _ Hw Hp). lia.
  - eapply wf_put_map; try done. cbn. lia.
Qed.

Lemma unlinkat_safe_shm dirfd path flags : shm_safe (unlinkat dirfd path flags).
Proof.
  intros s Hw Hn. unfold wp. rewrite unlinkat_eval.
  destruct (handles s !! dirfd) as [[q |] |]; cbn; [swp | | swp].
  destruct (all_set flags AT_REMOVEDIR); cbn; [swp |].
  destruct (maps s !! path) as [e |] eqn:Ep; cbn; [| swp]. by apply shm_post_ok, unlinked_wf.
Qed.
End requests.

(** ** Requests and reachable states *)

Inductive request :=
| R_open (path : string) (flags : Z)
| R_fpath (i : Z) (buf : list u8)
| R_on_close (i : Z)
| R_unlinkat (dirfd : Z) (path : string) (flags : Z)
| R_fstat (i : Z)
| R_ftruncate (i n : Z)
| R_mmap_prep (i offset sz : Z)
| R_read (i : Z) (buf : list u8) (offset : Z)
| R_write (i : Z) (buf : list u8) (offset : Z).

Section reachable.
Context {TG : Target} {SC : Syscall} {MM : Mman}.

Definition shm_unit {A} (m : M ShmScheme A) : M ShmScheme unit := _ ← m; mret tt.

Definition serve (r : request) : M ShmScheme unit :=
  match r with
  | R_open path flags => shm_unit (open path flags)
  | R_fpath i buf => shm_unit (fpath i buf)
  | R_on_close i => on_close i
  | R_unlinkat dirfd path flags => unlinkat dirfd path flags
  | R_fstat i => shm_unit (fstat i)
  | R_ftruncate i n => ftruncate i n
  | R_mmap_prep i offset sz => shm_unit (mmap_prep i offset sz)
  | R_read i buf offset => shm_unit (read i buf offset)
  | R_write i buf offset => shm_unit (write i buf offset)
  end.

(** What the kernel may send: handles are closed once, sizes are [usize]
    values, and fewer than [usize::MAX] handles are ever opened. *)
Definition admissible (r : request) (s : ShmScheme) : Prop :=
  next_id s + 1 < usize_mod /\
  match r with
  | R_on_close i => is_Some (handles s !! i)
  | R_mmap_prep _ _ sz => 0 <= sz < usize_mod
  | _ => True
  end.

Inductive shm_step : ShmScheme -> ShmScheme -> Prop :=
| shm_serve r s : admissible r s -> shm_step s (serve r s).2.

Definition shm_reachable : ShmScheme -> Prop := rtc shm_step ShmScheme_new.

Context {ML : MmanLaws MM}.
Hypothesis page_pos : 0 < PAGE_SIZE.
Hypothesis page_divides : (PAGE_SIZE | usize_mod).

Lemma shm_unit_safe {A} (m : M ShmScheme A) s : wp m shm_post s -> wp (shm_unit m) shm_post s.
Proof.
  intros Hm. unfold shm_unit. apply wp_bind. eapply wp_mono; [| exact Hm].
  intros [] s' [Hw' Hp]; [by apply wp_ret | done |]. split; [done |]. intros Hc. by destruct (Hp Hc).
Qed.

Lemma serve_safe_shm r s : shm_wf s -> admissible r s -> wp (serve r) shm_post s.
Proof.
  intros Hw [Hn Hr]. destruct r; cbn [serve].
  - by apply shm_unit_safe, open_safe_shm.
  - by apply shm_unit_safe, fpath_safe_shm.
  - apply on_close_safe_shm; [done | lia | done].
  - by apply unlinkat_safe_shm.
  - by apply shm_unit_safe, fstat_safe_shm.
  - by apply ftruncate_safe_shm.
  - by apply shm_unit_safe, mmap_prep_safe_shm.
  - by apply shm_unit_safe, read_safe_shm.
  - by apply shm_unit_safe, write_safe_shm.
Qed.

Lemma shm_reachable_wf s : shm_reachable s -> shm_wf s.
Proof.
  intros Hr. eapply rtc_preserves; [exact Hr | | apply ShmScheme_new_wf].
  intros x y Hx Hs. inversion_clear Hs as [r ? Ha]. by apply (serve_safe_shm r x Hx Ha).
Qed.

(** C33: in every reachable state the reference count of each object is the
    number of its open handles, objects that are unlinked have a handle, and
    the mappings are mapped, at least as long as the object, and pairwise
    disjoint. *)
Theorem shm_invariant s : shm_reachable s -> shm_wf s.
Proof. apply shm_reachable_wf. Qed.

(** C34: in a release build no admissible request makes the shm scheme panic
    or touch memory outside its mappings. *)
Theorem shm_no_fault s r :
  overflow_checks = false -> shm_reachable s -> admissible r s -> (serve r s).1 <> Panic.
Proof. intros Hc Hr%shm_reachable_wf Ha. by apply (serve_safe_shm r s Hr Ha). Qed.

(** ** Contents *)

(** The bytes of object [p], once it has a size. *)
Definition contents (s : ShmScheme) (p : string) : option (list u8) :=
  e ← maps s !! p; g ← buffer e; load (base g) (Z.to_nat (len g)) (mem s).

Lemma contents_Some s p c :
  shm_wf s -> contents s p = Some c ->
  exists e g, maps s !! p = Some e /\ buffer e = Some g /\ guard_ok g (mem s) /\
    load (base g) (Z.to_nat (len g)) (mem s) = Some c /\ zlen c = len g.
Proof.
  intros Hw (e & He & (g & Hg & Hl)%bind_Some)%bind_Some.
  assert (guard_ok g (mem s)) as Hok by (apply (sh_guard _ Hw p); by exists e).
  exists e, g. split_and!; try done. apply load_Some in Hl as [Hl _].
  pose proof (go_len _ _ Hok). unfold zlen. lia.
Qed.

Lemma read_handle_shm i p e g buf offset s :
  handles s !! i = Some (H_Shm p) -> maps s !! p = Some e -> buffer e = Some g ->
  read i buf offset s = guard_read g (as_usize offset) buf s.
Proof.
  intros Hi Hp Hg. unfold read, shm_path, map_at, gets, mbind, M_bind. rewrite Hi. cbn.
  rewrite Hp. cbn. by rewrite Hg.
Qed.

Lemma write_handle_shm i p e g buf offset s :
  handles s !! i = Some (H_Shm p) -> maps s !! p = Some e -> buffer e = Some g ->
  write i buf offset s = guard_write g (as_usize offset) buf s.
Proof.
  intros Hi Hp Hg. unfold write, shm_path, map_at, gets, mbind, M_bind. rewrite Hi. cbn.
  rewrite Hp. cbn. by rewrite Hg.
Qed.

(** A write through any handle of an object either lies within it and
    replaces exactly that range of its bytes, leaving every other object as
    it was, or fails with ERANGE or EINVAL and changes nothing. *)
Theorem shm_write_contents s i p c buf offset :
  shm_reachable s -> handles s !! i = Some (H_Shm p) -> contents s p = Some c ->
  0 <= offset < usize_mod ->
  if usize_mod <=? offset + zlen buf then write i buf offset s = (Err ERANGE, s)
  else if zlen c <? offset + zlen buf then write i buf offset s = (Err EINVAL, s)
  else exists s', write i buf offset s = (Ok (zlen buf), s') /\
         contents s' p = Some (splice (Z.to_nat offset) buf c) /\
         (forall q, q <> p -> contents s' q = contents s q).
Proof.
  intros Hw%shm_reachable_wf Hi Hc Ho.
  destruct (contents_Some _ _ _ Hw Hc) as (e & g & He & Hg & Hok & Hl & Hlen).
  pose proof Hok as [Hb0 Hb1 Hb2 _].
  rewrite (write_handle_shm _ _ _ _ _ _ _ Hi He Hg). unfold as_usize. rewrite Z.mod_small by done.
  rewrite guard_write_eval by (done || lia). rewrite <- Hlen.
  destruct (usize_mod <=? offset + zlen buf); [done |].
  destruct (zlen c <? offset + zlen buf) eqn:E; [done |].
  eexists. split; [done |]. split.
  - unfold contents. cbn. rewrite He. cbn. rewrite Hg. cbn.
    replace (base g + offset) with (base g + Z.of_nat (Z.to_nat offset)) by lia.
    apply load_store_in; [done |]. unfold zlen in *. lia.
  - intros q Hq. unfold contents. cbn. destruct (maps s !! q) as [e' |] eqn:Eq; [| done]. cbn.
    destruct (buffer e') as [g' |] eqn:Eg; [| done]. cbn. apply load_ext. intros x Hx.
    rewrite lookup_store, decide_False; [done |]. intros Hin.
    assert (guard_at s q g') as Hg' by (by exists e').
    pose proof (go_len _ _ (sh_guard _ Hw q g' Hg')).
    eapply (sh_disjoint _ Hw p q g g' x); [by exists e | done | done | |]; unfold in_guard, zlen in *; lia.
Qed.

(** A read through any handle of an object returns the bytes of the
    object from the offset on, as many as the buffer takes and the object
    has; an offset past the end is EINVAL, and the state never changes. *)
Theorem shm_read_contents s i p c buf offset :
  shm_reachable s -> handles s !! i = Some (H_Shm p) -> contents s p = Some c ->
  0 <= offset < usize_mod ->
  read i buf offset s =
    if usize_mod <=? offset + zlen buf then (Err ERANGE, s)
    else if zlen c <? offset then (Err EINVAL, s)
    else let n := common_len buf (drop (Z.to_nat offset) c) in
         (Ok (Z.of_nat n, copy_prefix n (drop (Z.to_nat offset) c) buf), s).
Proof.
  intros Hw%shm_reachable_wf Hi Hc Ho.
  destruct (contents_Some _ _ _ Hw Hc) as (e & g & He & Hg & Hok & Hl & Hlen).
  rewrite (read_handle_shm _ _ _ _ _ _ _ Hi He Hg). unfold as_usize. rewrite Z.mod_small by done.
  rewrite guard_read_eval by (done || lia). rewrite <- Hlen.
  destruct (usize_mod <=? offset + zlen buf); [done |].
  destruct (zlen c <? offset) eqn:E; [done |].
  unfold common_len. rewrite length_drop. set (n := (length buf `min` (length c - Z.to_nat offset))%nat).
  assert (Z.min (zlen buf) (zlen c - offset) = Z.of_nat n) as -> by (unfold n, zlen in *; lia).
  rewrite Nat2Z.id. replace (base g + offset) with (base g + Z.of_nat (Z.to_nat offset)) by lia.
  rewrite (load_sub _ _ _ _ _ n Hl) by (unfold n, zlen in *; lia). cbn [from_option]. unfold id.
  unfold copy_prefix. by rewrite take_take, Nat.min_id.
Qed.

(** Closing a handle of an object succeeds; the object goes away exactly
    when it was unlinked and this was its only handle, and then its memory is
    released; every other object keeps its bytes. *)
Theorem shm_close_lifetime s i p e :
  shm_reachable s -> next_id s < usize_mod -> handles s !! i = Some (H_Shm p) -> maps s !! p = Some e ->
  exists s', on_close i s = (Ok tt, s') /\
    (maps s' !! p = None <-> unlinked e = true /\ count p (handles s) = 1%nat) /\
    (maps s' !! p = None -> forall g x, buffer e = Some g -> in_guard g x -> mem s' !! x = None) /\
    (forall q, q <> p -> contents s' q = contents s q).
Proof.
  intros Hw%shm_reachable_wf Hn Hi Hp. pose proof (shm_refs_at _ _ _ Hw Hp) as Hr.
  exists (closed s i p e). split; [by apply on_close_eval |].
  unfold closed. destruct ((refs e =? 1) && unlinked e) eqn:E.
  - apply andb_true_iff in E as [E Hu]. cbn. rewrite lookup_delete_eq. split_and!.
    + split; [intros _; split; [done | lia] | done].
    + intros _ g x Hg Hx. rewrite Hg. cbn. unfold in_guard in Hx.
      destruct (size g =? 0) eqn:Es; [lia |]. rewrite lookup_unmap, decide_True; [done | lia].
    + intros q Hq. unfold contents. cbn. rewrite lookup_delete_ne by done.
      destruct (maps s !! q) as [e' |] eqn:Eq; [| done]. cbn.
      destruct (buffer e') as [g' |] eqn:Eg; [| done]. cbn. apply load_ext. intros x Hx.
      destruct (buffer e) as [g |] eqn:Eb; [| done]. cbn. destruct (size g =? 0) eqn:Es; [done |].
      rewrite lookup_unmap, decide_False; [done |]. intros Hin.
      assert (guard_at s q g') as Hg' by (by exists e').
      pose proof (go_len _ _ (sh_guard _ Hw q g' Hg')).
      eapply (sh_disjoint _ Hw p q g g' x); [by exists e | done | done | |]; unfold in_guard; lia.
  - cbn. rewrite lookup_insert_eq. split_and!; [| done |].
    + split; [done |]. intros [Hu Hc]. rewrite Hu, andb_true_r in E. lia.
    + intros q Hq. unfold contents. cbn. by rewrite lookup_insert_ne.
Qed.
End reachable.

(** ** Offsets of [mmap_prep] *)

Section mmap.
Context {TG : Target} {SC : Syscall} {MM : Mman}.

(** In a release build the bounds check of [mmap_prep] wraps around: an
    offset [k] below the top of the address space passes it and the address
    returned is [k] bytes before the mapping. *)
Theorem mmap_prep_wraps s i p e g k sz :
  overflow_checks = false -> handles s !! i = Some (H_Shm p) -> maps s !! p = Some e ->
  buffer e = Some g -> base g < usize_mod -> 0 < k <= base g -> k <= sz <= k + size g ->
  sz < usize_mod ->
  mmap_prep i (usize_mod - k) sz s = (Ok (base g - k), s) /\ ~ in_guard g (base g - k).
Proof.
  intros Hc Hi Hp Hg Hb Hk Hsz Hlt. split; [| unfold in_guard; lia].
  pose proof usize_mod_ge as Hm. unfold mmap_prep, shm_path, map_at, gets, mbind, M_bind.
  rewrite Hi. cbn. unfold as_usize. rewrite (Z.mod_small (usize_mod - k)) by lia.
  assert (forall x (s' : ShmScheme), usize_mod <= x < 2 * usize_mod ->
            arith usize_bits x s' = (Ok (x - usize_mod), s')) as Hwrap.
  { intros x s' Hx. unfold arith. change (2 ^ usize_bits) with usize_mod. rewrite Hc.
    rewrite (proj2 (Z.ltb_ge x usize_mod)), andb_false_r by lia.
    replace (x mod usize_mod) with (x - usize_mod); [done |].
    apply Z.mod_unique_pos with 1; lia. }
  unfold usize_add. rewrite Hwrap by lia. rewrite Hp. cbn. rewrite Hg. unfold fail_if, guard_len.
  rewrite (proj2 (Z.ltb_ge _ _)) by lia. cbn. unfold as_ptr. rewrite Hwrap by lia.
  by replace (base g + (usize_mod - k) - usize_mod) with (base g - k) by lia.
Qed.

(** On an object without memory [mmap_prep] allocates the size of the
    mapping alone and still adds the offset: with an offset past that size the
    address returned lies outside the mapping. *)
Theorem mmap_prep_fresh_ignores_offset s i p e b offset sz :
  let total := div_ceil sz PAGE_SIZE * PAGE_SIZE in
  handles s !! i = Some (H_Shm p) -> maps s !! p = Some e -> buffer e = None ->
  0 <= sz -> 0 <= total < usize_mod -> total <= offset -> offset + sz < usize_mod ->
  fmap_anon (mem s) total = Ok b -> 0 <= b -> b + offset < usize_mod ->
  exists s' g, mmap_prep i offset sz s = (Ok (b + offset), s') /\ guard_at s' p g /\
    ~ in_guard g (b + offset).
Proof.
  intros total Hi Hp Hg Hsz Ht Hto Hos Hf Hb Hbo.
  unfold mmap_prep, shm_path, map_at, gets, mbind, M_bind.
  rewrite Hi. cbn. unfold as_usize. rewrite (Z.mod_small offset) by lia.
  rewrite usize_add_ok by lia. rewrite Hp. cbn. rewrite Hg.
  unfold alloc, gets, mbind, M_bind, lift, modify, put_map. rewrite arith_ok by done.
  fold total. rewrite Hf. cbn. unfold as_ptr. cbn. rewrite usize_add_ok by lia.
  eexists _, {| base := b; size := total; len := sz |}. split; [done |]. split.
  - eexists. cbn. rewrite lookup_insert_eq. done.
  - unfold in_guard. cbn. lia.
Qed.
End mmap.

(** ** Witnesses *)

Section witnesses.
#[local] Existing Instance redox_syscall.
#[local] Existing Instance x86_64_release.

(** Maps above everything that is mapped. *)
Definition top (m : memory) : Z := map_fold (fun a _ t => Z.max (a + 1) t) 4096 m.
#[local] Instance bump_mman : Mman := {|
  fmap_anon m size :=
    if size =? 0 then Err EINVAL
    else if top m + size <=? usize_mod then Ok (top m) else Err ENOMEM
|}.

Lemma top_above m : 4096 <= top m /\ forall a, is_Some (m !! a) -> a < top m.
Proof.
  unfold top. apply (map_fold_weak_ind
    (fun (t : Z) (m : memory) => 4096 <= t /\ forall a, is_Some (m !! a) -> a < t)).
  - split; [done |]. intros a. rewrite lookup_empty. by intros [].
  - intros a b m' t Ha [H4 Ht]. split; [lia |]. intros x [y Hy].
    apply lookup_insert_Some in Hy as [[<- _] | [_ Hy]]; [lia |].
    assert (x < t) by (apply Ht; by exists y). lia.
Qed.

#[local] Instance bump_mman_laws : MmanLaws bump_mman.
Proof.
  split; cbn; intros m size.
  - intros b a. destruct (size =? 0), (top m + size <=? usize_mod); try done. intros [= <-] Ha.
    destruct (m !! a) eqn:E; [| done]. destruct (top_above m) as [_ Ht].
    specialize (Ht a (ex_intro _ _ E)). lia.
  - intros b. destruct (size =? 0), (top m + size <=? usize_mod) eqn:E; try done. intros [= <-].
    destruct (top_above m). lia.
  - done.
  - by destruct (size =? 0), (top m + size <=? usize_mod).
Qed.

Fixpoint admissible_all (rs : list request) (s : ShmScheme) : Prop :=
  match rs with [] => True | r :: rs => admissible r s /\ admissible_all rs (serve r s).2 end.
Definition run (rs : list request) (s : ShmScheme) : ShmScheme :=
  foldl (fun s r => (serve r s).2) s rs.

Lemma shm_run_reachable rs s : shm_reachable s -> admissible_all rs s -> shm_reachable (run rs s).
Proof.
  revert s. induction rs as [| r rs IH]; intros s Hs Ha; [done |]. destruct Ha as [Ha Hrs].
  apply IH; [| done]. eapply rtc_r; [exact Hs |]. by constructor.
Qed.

Definition shm_script : list request := [R_open "" 0; R_open "a" O_CREAT; R_open "a" 0].
Definition unsized : ShmScheme := run shm_script ShmScheme_new.
Definition sized : ShmScheme := (serve (R_ftruncate 1 8) unsized).2.

Lemma unsized_reachable : shm_reachable unsized.
Proof. apply shm_run_reachable; [constructor | vm_compute; tauto]. Qed.
Lemma sized_reachable : shm_reachable sized.
Proof. eapply rtc_r; [apply unsized_reachable |]. constructor. vm_compute. tauto. Qed.

Lemma page_size_gt0 : 0 < PAGE_SIZE.
Proof. reflexivity. Qed.
Lemma page_divides_usize : (PAGE_SIZE | usize_mod).
Proof. by exists (2 ^ 52). Qed.

Lemma shm_invariant_witness : shm_wf sized.
Proof.
  apply shm_invariant; [reflexivity | apply page_divides_usize | apply sized_reachable].
Defined.

Lemma shm_no_fault_witness : (serve (R_write 2 [x61] 7) sized).1 <> Panic.
Proof.
  apply shm_no_fault;
    [reflexivity | apply page_divides_usize | reflexivity | apply sized_reachable | vm_compute; tauto].
Defined.

Lemma shm_write_contents_witness :
  exists s', write 2 [x61; x62] 3 sized = (Ok 2, s') /\
    contents s' "a" = Some [x00; x00; x00; x61; x62; x00; x00; x00].
Proof.
  destruct (shm_write_contents page_size_gt0 page_divides_usize sized 2 "a" (replicate 8 x00) [x61; x62] 3
    sized_reachable) as (s' & Hw & Hc & _); [by vm_compute.. |].
  exists s'. split; [exact Hw | exact Hc].
Defined.

Lemma shm_read_contents_witness : read 1 [x01; x01; x01] 6 sized = (Ok (2, [x00; x00; x01]), sized).
Proof.
  rewrite (shm_read_contents page_size_gt0 page_divides_usize sized 1 "a" (replicate 8 x00) [x01; x01; x01] 6
    sized_reachable); [reflexivity | by vm_compute..].
Defined.

Lemma shm_close_lifetime_witness :
  exists s', on_close 2 sized = (Ok tt, s') /\ maps s' !! "a"%string <> None.
Proof.
  destruct (maps sized !! "a"%string) as [e |] eqn:He; [| by vm_compute in He].
  destruct (shm_close_lifetime page_size_gt0 page_divides_usize sized 2 "a" e sized_reachable)
    as (s' & Hs & Hiff & _); [done | by vm_compute | done |].
  exists s'. split; [exact Hs |]. intros [_ Hc]%Hiff. by vm_compute in Hc.
Defined.

Lemma mmap_prep_wraps_witness : mmap_prep 1 (usize_mod - 16) 24 sized = (Ok 4080, sized).
Proof.
  destruct (mmap_prep_wraps sized 1 "a"
    {| buffer := Some {| base := 4096; size := 4096; len := 8 |}; refs := 2; unlinked := false |}
    {| base := 4096; size := 4096; len := 8 |} 16 24) as [H _]; [by vm_compute.. | exact H].
Defined.

Lemma mmap_prep_fresh_ignores_offset_witness :
  exists s', mmap_prep 1 8192 100 unsized = (Ok 12288, s').
Proof.
  destruct (mmap_prep_fresh_ignores_offset unsized 1 "a"
    {| buffer := None; refs := 2; unlinked := false |} 4096 8192 100) as (s' & g & H & _);
    [by vm_compute.. | exists s'; exact H].
Defined.
End witnesses.
