(* ===== verification/Input.v ===== *)
(** * inputd: input and virtual terminals

    Models [drivers/inputd/src/main.rs], the scheme [input]: producers write
    input events, the consumer of the active virtual terminal reads them, displays are
    told which terminal is active, and a controller switches terminals.  The
    layout of [Event] is [orbclient]'s; [VtEvent] and [VtActivate] are those of
    [drivers/inputd/src/lib.rs]. *)

From stdpp Require Import base gmap strings list fin_maps sorting.
From Stdlib Require Import ZArith Lia.
From Stdlib Require Import Strings.Byte.
From S2P Require Import Prelude Syscall.

Local Open Scope Z_scope.

(** ** Events *)

(** [orbclient::EventOption], as far as it is looked at *)
Inductive EventOption :=
| Ev_Key (scancode : Z) (pressed : bool)
| Ev_Resize (width height : Z)
| Ev_other.

(** [orbclient]: the size of an event, and what its bytes are; and the bytes
    that pad a [VtEvent], which are not specified. *)
Class OrbClient := {
  size_of_Event : nat;
  to_option : list u8 -> EventOption;
  vt_event_padding : list u8
}.

Inductive VtEventKind := Activate | Resize.
Record VtEvent := { ve_kind : VtEventKind; ve_vt : Z; ve_width : Z; ve_height : Z; ve_stride : Z }.

(** ** State *)

Inductive Handle :=
| Producer
| Consumer (events : Z) (pending : list u8) (needs_handoff notified : bool) (vt : Z)
| Display (events : Z) (pending : list VtEvent) (notified : bool) (device : string) (is_earlyfb : bool)
| Control.

Record InputScheme := {
  handles : gmap Z Handle; next_id : Z; next_vt_id : Z; display : option string; vts : gset Z;
  super_key : bool; active_vt : option Z; has_new_events : bool
}.

Definition set_handles x s := {| handles := x; next_id := next_id s; next_vt_id := next_vt_id s; display := display s;
  vts := vts s; super_key := super_key s; active_vt := active_vt s; has_new_events := has_new_events s |}.
Definition set_next_id x s := {| handles := handles s; next_id := x; next_vt_id := next_vt_id s; display := display s;
  vts := vts s; super_key := super_key s; active_vt := active_vt s; has_new_events := has_new_events s |}.
Definition set_next_vt_id x s := {| handles := handles s; next_id := next_id s; next_vt_id := x; display := display s;
  vts := vts s; super_key := super_key s; active_vt := active_vt s; has_new_events := has_new_events s |}.
Definition set_display x s := {| handles := handles s; next_id := next_id s; next_vt_id := next_vt_id s; display := x;
  vts := vts s; super_key := super_key s; active_vt := active_vt s; has_new_events := has_new_events s |}.
Definition set_vts x s := {| handles := handles s; next_id := next_id s; next_vt_id := next_vt_id s; display := display s;
  vts := x; super_key := super_key s; active_vt := active_vt s; has_new_events := has_new_events s |}.
Definition set_super_key x s := {| handles := handles s; next_id := next_id s; next_vt_id := next_vt_id s; display := display s;
  vts := vts s; super_key := x; active_vt := active_vt s; has_new_events := has_new_events s |}.
Definition set_active_vt x s := {| handles := handles s; next_id := next_id s; next_vt_id := next_vt_id s; display := display s;
  vts := vts s; super_key := super_key s; active_vt := x; has_new_events := has_new_events s |}.
Definition set_new_events x s := {| handles := handles s; next_id := next_id s; next_vt_id := next_vt_id s; display := display s;
  vts := vts s; super_key := super_key s; active_vt := active_vt s; has_new_events := x |}.

Definition InputScheme_new : InputScheme :=
  {| handles := ∅; next_id := 0; next_vt_id := 1; display := None; vts := ∅; super_key := false; active_vt := None;
     has_new_events := false |}.

(** [self.handles.values_mut()], with what is done to each *)
Definition each_handle (f : Handle -> Handle) (s : InputScheme) : InputScheme := set_handles (f <$> handles s) s.

(** [BTreeSet::last] *)
Definition last_vt (l : gset Z) : option Z :=
  foldr (fun x acc => match acc with Some y => Some (Z.max x y) | None => Some x end) None (elements l).

Section input.
Context {TG : Target} {SC : Syscall} {OC : OrbClient}.

(** [mem::size_of::<VtEvent>()] and [VtActivate], with [usize] alignment *)
Definition size_of_usize : nat := Z.to_nat (usize_bits / 8).
Definition size_of_VtEvent : nat := size_of_usize * 2 + 12 + length vt_event_padding.

Definition vt_event_bytes (e : VtEvent) : list u8 :=
  le_bytes size_of_usize (match ve_kind e with Activate => 0 | Resize => 1 end) ++ le_bytes size_of_usize (ve_vt e) ++
  le_bytes 4 (ve_width e) ++ le_bytes 4 (ve_height e) ++ le_bytes 4 (ve_stride e) ++ vt_event_padding.

(** [fetch_add(1)] *)
Definition fetch_id : M InputScheme Z :=
  n ← gets next_id; modify (set_next_id ((n + 1) mod usize_mod));; mret n.
Definition fetch_vt_id : M InputScheme Z :=
  n ← gets next_vt_id; modify (set_next_vt_id ((n + 1) mod usize_mod));; mret n.

(** ** Terminals *)

Definition activate (vt : Z) : VtEvent := {| ve_kind := Activate; ve_vt := vt; ve_width := 0; ve_height := 0; ve_stride := 0 |}.

(** An event for the display in charge *)
Definition tell_display (disp : option string) (e : VtEvent) (h : Handle) : Handle :=
  match h with
  | Display events pending notified device early =>
      if bool_decide (disp = Some device) then Display events (pending ++ [e]) false device early else h
  | _ => h
  end.

Definition switch_vt (new_active : Z) : M InputScheme unit :=
  active ← gets active_vt;
  l ← gets vts;
  if bool_decide (active = Some new_active) then mret tt
  else if bool_decide (new_active ∉ l) then mret tt
  else
    modify (set_new_events true);;
    d ← gets display;
    modify (each_handle (tell_display d (activate new_active)));;
    modify (set_active_vt (Some new_active)).

(** ** The methods of the trait *)

Definition want_handoff (h : Handle) : Handle :=
  match h with Consumer events pending _ _ vt => Consumer events pending true false vt | _ => h end.

Definition late_display (h : Handle) : bool := match h with Display _ _ _ _ false => true | _ => false end.

(** The arm of [open] for displays *)
Definition open_display (early : bool) (device : string) : M InputScheme Handle :=
  d ← gets display;
  hs ← gets handles;
  let needs_handoff :=
    if early then bool_decide (d = None) else forallb (fun h => negb (late_display h)) (map snd (map_to_list hs)) in
  (if needs_handoff then
     modify (set_new_events true);;
     modify (set_display (Some device));;
     modify (each_handle want_handoff)
   else mret tt);;
  active ← gets active_vt;
  mret (Display 0 (match active with Some vt => [activate vt] | None => [] end) false device early).

Definition open_consumer : M InputScheme Handle :=
  vt ← fetch_vt_id;
  modify (fun s => set_vts ({[vt]} ∪ vts s) s);;
  active ← gets active_vt;
  match active with None => switch_vt vt | Some _ => mret tt end;;
  mret (Consumer 0 [] false false vt).

Definition open (path : string) : M InputScheme OpenResult :=
  match split_char slash path with
  | [] => throw EINVAL
  | command :: rest =>
      fd ← fetch_id;
      handle_ty ← (
        if bool_decide (command = "producer") then mret Producer
        else if bool_decide (command = "consumer") then open_consumer
        else if bool_decide (command = "handle_early") then open_display true (String.concat "." rest)
        else if bool_decide (command = "handle") then open_display false (String.concat "." rest)
        else if bool_decide (command = "control") then mret Control
        else throw EINVAL);
      modify (fun s => set_handles (<[fd := handle_ty]> (handles s)) s);;
      mret (ThisScheme fd fd_empty)
  end.

Definition handle_at (id : Z) : M InputScheme Handle := h ← gets handles; ok_or EINVAL (h !! id).
Definition put (id : Z) (h : Handle) : M InputScheme unit := modify (fun s => set_handles (<[id := h]> (handles s)) s).

Definition fpath (id : Z) (buf : list u8) : M InputScheme (Z * list u8) :=
  handle ← handle_at id;
  match handle with
  | Consumer _ _ _ _ vt =>
      d ← gets display;
      d ← ok_or EINVAL d;
      let path := as_bytes ("/scheme/" +:+ d +:+ "/" +:+ show_unsigned vt) in
      let size := (length path `min` length buf)%nat in
      mret (Z.of_nat size, copy_prefix size path buf)
  | _ => throw EINVAL
  end.

Definition read (id : Z) (buf : list u8) : M InputScheme (Z * list u8) :=
  handle ← handle_at id;
  match handle with
  | Consumer events pending needs_handoff notified vt =>
      if needs_handoff then
        put id (Consumer events pending false notified vt);; throw ESTALE
      else
        let copy := (length pending `min` length buf)%nat in
        put id (Consumer events (drop copy pending) needs_handoff notified vt);;
        mret (Z.of_nat copy, copy_prefix copy pending buf)
  | Display events pending notified device early =>
      if (length buf mod size_of_VtEvent =? 0)%nat then
        let copy := (length pending `min` (length buf / size_of_VtEvent))%nat in
        put id (Display events (drop copy pending) notified device early);;
        mret (Z.of_nat (copy * size_of_VtEvent), splice 0 (concat (map vt_event_bytes (take copy pending))) buf)
      else throw EINVAL
  | Producer | Control => throw EINVAL
  end.

(** A resize is told to the display in charge, which needs an active terminal. *)
Definition resize (width height : Z) : M InputScheme unit :=
  d ← gets display;
  hs ← gets handles;
  if existsb (fun h => match h with Display _ _ _ device _ => bool_decide (d = Some device) | _ => false end)
       (map snd (map_to_list hs)) then
    active ← gets active_vt;
    vt ← unwrap active;
    modify (each_handle (tell_display d
      {| ve_kind := Resize; ve_vt := vt; ve_width := width; ve_height := height; ve_stride := width |}))
  else mret tt.

(** The terminal that a key switches to *)
Definition key_vt (super : bool) (scancode : Z) : option Z :=
  if (0x3B <=? scancode) && (scancode <=? 0x44) && super then Some (scancode - 0x3A)
  else if (scancode =? 0x57) && super then Some 11
  else if (scancode =? 0x58) && super then Some 12
  else None.

(** The loop body over the events of a write *)
Definition input_event (e : EventOption) : M InputScheme unit :=
  match e with
  | Ev_Key scancode pressed =>
      super ← gets super_key;
      match key_vt super scancode with
      | Some vt => switch_vt vt
      | None => if scancode =? 0x5B then modify (set_super_key pressed) else mret tt
      end
  | Ev_Resize width height => resize width height
  | Ev_other => mret tt
  end.

Fixpoint input_events (l : list (list u8)) : M InputScheme unit :=
  match l with [] => mret tt | e :: l => input_event (to_option e);; input_events l end.

(** The bytes go to the consumer of the active terminal. *)
Definition deliver (active : Z) (buf : list u8) (h : Handle) : Handle :=
  match h with
  | Consumer events pending needs_handoff notified vt =>
      if vt =? active then Consumer events (pending ++ buf) needs_handoff false vt else h
  | _ => h
  end.

Definition write (id : Z) (buf : list u8) : M InputScheme Z :=
  modify (set_new_events true);;
  handle ← handle_at id;
  match handle with
  | Control =>
      if (length buf =? size_of_usize)%nat then switch_vt (from_le buf);; mret (zlen buf) else throw EINVAL
  | Consumer _ _ _ _ _ | Display _ _ _ _ _ => throw EINVAL
  | Producer =>
      if (length buf =? 1)%nat && (0xf4 <? from_le buf) then mret 1
      else
        input_events (chunks size_of_Event buf);;
        handle ← handle_at id;
        match handle with Producer => mret tt | _ => panic end;;
        active ← gets active_vt;
        match active with
        | Some vt => modify (each_handle (deliver vt buf))
        | None => mret tt
        end;;
        mret (zlen buf)
  end.

Definition fevent (id flags : Z) : M InputScheme Z :=
  handle ← handle_at id;
  match handle with
  | Consumer _ pending needs_handoff _ vt => put id (Consumer flags pending needs_handoff false vt);; mret 0
  | Display _ pending _ device early => put id (Display flags pending false device early);; mret 0
  | Producer | Control => throw EINVAL
  end.

Definition on_close (id : Z) : M InputScheme unit :=
  hs ← gets handles;
  handle ← unwrap (hs !! id);
  modify (set_handles (delete id hs));;
  match handle with
  | Consumer _ _ _ _ vt =>
      modify (fun s => set_vts (vts s ∖ {[vt]}) s);;
      active ← gets active_vt;
      if bool_decide (active = Some vt) then
        l ← gets vts;
        match last_vt l with
        | Some new_vt => switch_vt new_vt
        | None => modify (set_active_vt None)
        end
      else mret tt
  | _ => mret tt
  end.

(** ** The daemon *)

(** A handle with something to read, that asked for events and has not been
    notified *)
Definition to_notify (h : Handle) : bool :=
  match h with
  | Consumer events pending needs_handoff notified _ =>
      (needs_handoff || negb (bool_decide (pending = []))) && negb notified && all_set events EVENT_READ
  | Display events pending notified _ _ =>
      negb (bool_decide (pending = [])) && negb notified && all_set events EVENT_READ
  | _ => false
  end.

Definition mark_notified (h : Handle) : Handle :=
  match h with
  | Consumer events pending needs_handoff _ vt => Consumer events pending needs_handoff true vt
  | Display events pending _ device early => Display events pending true device early
  | _ => h
  end.

(** The [for] loop over the handles, in the order of their ids; [accepts] is
    whether the kernel takes the event of a handle.  The handles that were notified. *)
Fixpoint notify (accepts : Z -> bool) (ids : list Z) : M InputScheme (list Z) :=
  match ids with
  | [] => mret []
  | id :: ids =>
      h ← handle_at id;
      if to_notify h then
        if accepts id then
          put id (mark_notified h);;
          rest ← notify accepts ids;
          mret (id :: rest)
        else throw EIO
      else notify accepts ids
  end.

Definition ids_in_order (s : InputScheme) : list Z := merge_sort Z.le (map fst (map_to_list (handles s))).

(** Requests: the calls that the scheme implements, others (the defaults of the
    trait do not touch it), and closing. *)
Inductive Request :=
| R_open (path : string)
| R_fpath (id : Z) (buf : list u8)
| R_read (id : Z) (buf : list u8)
| R_write (id : Z) (buf : list u8)
| R_fevent (id flags : Z)
| R_close (id : Z)
| R_other.

(** What the request does; only a panic ends the daemon. *)
Definition attempt {A} (m : M InputScheme A) : M InputScheme (outcome A) := fun s =>
  match m s with (Panic, s') => (Panic, s') | (o, s') => (Ok o, s') end.

Definition request (r : Request) : M InputScheme unit :=
  match r with
  | R_open path => _ ← attempt (open path); mret tt
  | R_fpath id buf => _ ← attempt (fpath id buf); mret tt
  | R_read id buf => _ ← attempt (read id buf); mret tt
  | R_write id buf => _ ← attempt (write id buf); mret tt
  | R_fevent id flags => _ ← attempt (fevent id flags); mret tt
  | R_close id => on_close id
  | R_other => mret tt
  end.

(** A turn of the loop of [deamon]. *)
Definition turn (accepts : Z -> bool) (r : Request) : M InputScheme (list Z) :=
  modify (set_new_events false);;
  request r;;
  new ← gets has_new_events;
  if (new : bool) then ids ← gets ids_in_order; notify accepts ids else mret [].
End input.
