(* ===== verification/InputFacts.v ===== *)
(** * inputd: what the scheme guarantees

    The terminals and their consumers correspond; every byte of input goes to
    the consumer of the active terminal, once and in order; a handle that has
    something to read and asked for events is notified.

    Two terminals, a hot key that switches between them, and what the scheme
    does wrong. *)

From stdpp Require Import base gmap strings list fin_maps sorting.
From Stdlib Require Import ZArith Lia.
From Stdlib Require Import Strings.Byte.
From S2P Require Import Prelude Syscall Input.

Local Open Scope Z_scope.

(** ** Events for displays *)

(** What switching and resizing do to a handle: a display may get events. *)
Inductive told : Handle -> Handle -> Prop :=
| told_same h : told h h
| told_display ev p n dev early q : told (Display ev p n dev early) (Display ev (p ++ q) false dev early).

Lemma told_trans h1 h2 h3 : told h1 h2 -> told h2 h3 -> told h1 h3.
Proof.
  intros H1 H2. destruct H1; [done |]. inversion H2; subst; [constructor |]. rewrite <- app_assoc. constructor.
Qed.

Lemma told_tell d e h : told h (tell_display d e h).
Proof. destruct h; cbn; try constructor. case_bool_decide; constructor. Qed.

Record evolves (s s' : InputScheme) : Prop := {
  evo_handles id h : handles s !! id = Some h -> exists h', handles s' !! id = Some h' /\ told h h';
  evo_none id : handles s !! id = None -> handles s' !! id = None;
  evo_next : next_id s' = next_id s;
  evo_next_vt : next_vt_id s' = next_vt_id s;
  evo_vts : vts s' = vts s;
  evo_display : display s' = display s;
  evo_active : active_vt s' = active_vt s \/ exists v, active_vt s' = Some v /\ v ∈ vts s;
  evo_new : has_new_events s = true -> has_new_events s' = true;
  evo_quiet : has_new_events s' = false -> handles s' = handles s
}.

Lemma evolves_refl s : evolves s s.
Proof. split; try done; [intros id h Hh; exists h; split; [done | constructor] | by left]. Qed.

(** A change that leaves the handles alone *)
Lemma evolves_keep s s' :
  handles s' = handles s -> next_id s' = next_id s -> next_vt_id s' = next_vt_id s -> vts s' = vts s ->
  display s' = display s -> (active_vt s' = active_vt s \/ exists v, active_vt s' = Some v /\ v ∈ vts s) ->
  has_new_events s' = has_new_events s -> evolves s s'.
Proof.
  intros E. split; try done; rewrite ?E; try done; [| congruence].
  intros id h Hh. exists h. split; [done | constructor].
Qed.

Lemma evolves_trans s1 s2 s3 : evolves s1 s2 -> evolves s2 s3 -> evolves s1 s3.
Proof.
  intros [A1 A2 A3 A4 A5 A6 A7 A8 A9] [B1 B2 B3 B4 B5 B6 B7 B8 B9]. split; try congruence; eauto.
  - intros id h (h2 & H2 & T2)%A1. destruct (B1 _ _ H2) as (h3 & H3 & T3). exists h3. split; [done | by eapply told_trans].
  - destruct B7 as [-> | (v & Hv & Hin)]; [done |]. right. exists v. split; [done | by rewrite <- A5].
  - intros H. destruct (has_new_events s2) eqn:E; [by rewrite B8 in H |]. rewrite B9, A9; done.
Qed.

Section facts.
Context {TG : Target} {SC : Syscall} {SL : SyscallLaws SC} {OC : OrbClient}.

Lemma lookup_each f s id : handles (each_handle f s) !! id = f <$> handles s !! id.
Proof. apply lookup_fmap. Qed.

Lemma evolves_tell d e s : evolves s (each_handle (tell_display d e) (set_new_events true s)).
Proof.
  split; try done; [| | by left].
  - intros id h Hh. rewrite lookup_each. cbn [handles set_new_events]. rewrite Hh. eexists. split; [done | apply told_tell].
  - intros id Hh. rewrite lookup_each. cbn [handles set_new_events]. by rewrite Hh.
Qed.

(** Switching activates the terminal if there is one of that number. *)
Lemma switch_vt_wp vt s :
  wp (switch_vt vt) (fun o s' => o = Ok tt /\ evolves s s' /\
    active_vt s' = if bool_decide (vt ∈ vts s) then Some vt else active_vt s) s.
Proof.
  unfold switch_vt. apply wp_bind, wp_gets, wp_bind, wp_gets.
  case_bool_decide as Ha; [apply wp_ret; split; [done |]; split; [apply evolves_refl |]; by case_bool_decide |].
  destruct (decide (vt ∈ vts s)) as [Hin | Hin].
  2: { rewrite !bool_decide_true, bool_decide_false by done. apply wp_ret. split; [done |]. split; [apply evolves_refl | done]. }
  rewrite bool_decide_false, bool_decide_true by (done || auto).
  apply wp_bind, wp_modify, wp_bind, wp_gets, wp_bind, wp_modify, wp_modify. split; [done |]. split; [| done].
  eapply evolves_trans; [apply evolves_tell |]. apply evolves_keep; try done. right. by exists vt.
Qed.

(** While an event is handled there already are new events. *)
Lemma resize_wp w h s :
  has_new_events s = true ->
  wp (resize w h) (fun o s' => evolves s s' /\ has_new_events s' = true /\ (forall e, o <> Err e) /\ (o = Panic -> active_vt s = None)) s.
Proof.
  intros Hn. unfold resize. apply wp_bind, wp_gets, wp_bind, wp_gets. destruct (existsb _ _).
  2: { apply wp_ret. split; [apply evolves_refl | done]. }
  apply wp_bind, wp_gets, wp_bind, wp_unwrap; [| intros ->; split; [apply evolves_refl | done]].
  intros vt Hvt. apply wp_modify. split; [| done].
  assert (set_new_events true s = s) as E by (destruct s; cbn in *; by rewrite Hn).
  match goal with |- evolves _ (each_handle (tell_display ?d ?e) _) => pose proof (evolves_tell d e s) as Ht end.
  by rewrite E in Ht.
Qed.

Lemma input_event_wp e s :
  has_new_events s = true ->
  wp (input_event e) (fun o s' => evolves s s' /\ has_new_events s' = true /\ (forall e, o <> Err e) /\ (o = Panic -> active_vt s = None)) s.
Proof.
  intros Hn. destruct e as [k p | w h |]; cbn [input_event].
  - apply wp_bind, wp_gets. destruct (key_vt _ _) as [vt |].
    + eapply wp_mono; [| apply switch_vt_wp]. intros o s' (-> & E & _). split; [done |]. split; [by apply E | done].
    + destruct (k =? 0x5B); [| apply wp_ret; split; [apply evolves_refl | done]].
      apply wp_modify. split; [| done]. apply evolves_keep; try done. by left.
  - by apply resize_wp.
  - apply wp_ret. split; [apply evolves_refl | done].
Qed.

Lemma input_events_wp l s :
  has_new_events s = true ->
  wp (input_events l) (fun o s' => evolves s s' /\ has_new_events s' = true /\ (forall e, o <> Err e) /\ (o = Panic -> active_vt s = None)) s.
Proof.
  revert s. induction l as [| b l IH]; intros s Hn; cbn [input_events]; [apply wp_ret; split; [apply evolves_refl | done] |].
  apply wp_bind. eapply wp_mono; [| by apply input_event_wp]. intros [x | e |] s1 (E1 & N1 & H1 & P1); [| by destruct (H1 e) | done].
  eapply wp_mono; [| by apply IH]. intros o s2 (E2 & N2 & H2 & P2). split; [by eapply evolves_trans |].
  split; [done |]. split; [done |]. intros Ho. specialize (P2 Ho). destruct (evo_active _ _ E1) as [<- | (v & Hv & _)]; [done | congruence].
Qed.

(** ** Terminals and their consumers *)

Definition vt_of (h : Handle) : option Z := match h with Consumer _ _ _ _ vt => Some vt | _ => None end.
Definition bytes_of (h : Handle) : list u8 := match h with Consumer _ p _ _ _ => p | _ => [] end.

Definition vt_at (s : InputScheme) (id : Z) : option Z := h ← handles s !! id; vt_of h.
(** The bytes that wait for a consumer *)
Definition bytes_at (s : InputScheme) (id : Z) : list u8 := from_option bytes_of [] (handles s !! id).

(** Handles below the counter; the terminals are those of the consumers, one
    each; the active one is among them, and there is one unless there are none. *)
Record inv (s : InputScheme) : Prop := {
  in_ids id : is_Some (handles s !! id) -> id < next_id s;
  in_vts v : v ∈ vts s <-> exists id, vt_at s id = Some v;
  in_inj i j v : vt_at s i = Some v -> vt_at s j = Some v -> i = j;
  in_below v : v ∈ vts s -> v < next_vt_id s;
  in_active : match active_vt s with Some v => v ∈ vts s | None => vts s = ∅ end;
  in_next : 0 <= next_id s /\ 0 <= next_vt_id s
}.

(** The same handles for the same terminals *)
Record shape (s s' : InputScheme) : Prop := {
  sh_dom id : is_Some (handles s' !! id) <-> is_Some (handles s !! id);
  sh_vt id : vt_at s' id = vt_at s id;
  sh_next : next_id s' = next_id s;
  sh_next_vt : next_vt_id s' = next_vt_id s;
  sh_vts : vts s' = vts s;
  sh_active : active_vt s' = active_vt s \/ exists v, active_vt s' = Some v /\ v ∈ vts s
}.

Lemma shape_refl s : shape s s.
Proof. split; try done. by left. Qed.

Lemma shape_trans s1 s2 s3 : shape s1 s2 -> shape s2 s3 -> shape s1 s3.
Proof.
  intros [A1 A2 A3 A4 A5 A6] [B1 B2 B3 B4 B5 B6]. split; try congruence.
  - intros id. by rewrite B1.
  - destruct B6 as [-> | (v & Hv & Hin)]; [done |]. right. exists v. split; [done | by rewrite <- A5].
Qed.

Lemma inv_shape s s' : inv s -> shape s s' -> inv s'.
Proof.
  intros [H1 H2 H3 H4 H5 H6] [A1 A2 A3 A4 A5 A6]. split; rewrite ?A3, ?A4, ?A5; try done.
  - intros id. rewrite A1, ?A3. apply H1.
  - intros v. rewrite H2. by setoid_rewrite A2.
  - intros i j v. rewrite !A2. apply H3.
  - destruct A6 as [-> | (v & -> & Hin)]; [destruct (active_vt s) |]; by rewrite ?A5.
Qed.

Lemma told_vt h h' : told h h' -> vt_of h' = vt_of h /\ bytes_of h' = bytes_of h.
Proof. by destruct 1. Qed.

Lemma evolves_shape s s' : evolves s s' -> shape s s'.
Proof.
  intros [A1 A2 A3 A4 A5 A6 A7 A8 A9]. split; try done; intros id; unfold vt_at; destruct (handles s !! id) as [h |] eqn:E.
  - destruct (A1 _ _ E) as (h' & -> & _). by split; eexists.
  - by rewrite (A2 _ E).
  - destruct (A1 _ _ E) as (h' & -> & T). cbn. by apply told_vt.
  - by rewrite (A2 _ E).
Qed.

Lemma evolves_bytes s s' id : evolves s s' -> bytes_at s' id = bytes_at s id.
Proof.
  intros [A1 A2 A3 A4 A5 A6 A7 A8 A9]. unfold bytes_at. destruct (handles s !! id) as [h |] eqn:E.
  - destruct (A1 _ _ E) as (h' & -> & T). cbn. by apply told_vt.
  - by rewrite (A2 _ E).
Qed.

(** A handle is replaced by one of the same terminal. *)
Lemma shape_put s id h h' :
  handles s !! id = Some h -> vt_of h' = vt_of h -> shape s (set_handles (<[id := h']> (handles s)) s).
Proof.
  intros Hh Hv. split; try done; [| | by left]; intros j; unfold vt_at; cbn [handles set_handles];
    (destruct (decide (j = id)) as [-> | Hne]; [rewrite lookup_insert_eq | by rewrite lookup_insert_ne]).
  - rewrite Hh. by split; eexists.
  - rewrite Hh. cbn. done.
Qed.

Lemma shape_each s f : (forall h, vt_of (f h) = vt_of h) -> shape s (each_handle f s).
Proof.
  intros Hf. split; try done; [| | by left]; intros id; unfold vt_at; rewrite lookup_each.
  - by rewrite fmap_is_Some.
  - destruct (handles s !! id); cbn; [apply Hf | done].
Qed.

Lemma bytes_put s id h h' j :
  handles s !! id = Some h -> bytes_at (set_handles (<[id := h']> (handles s)) s) j =
    if bool_decide (j = id) then bytes_of h' else bytes_at s j.
Proof.
  intros Hh. unfold bytes_at. cbn [handles set_handles]. case_bool_decide as E; [by rewrite E, lookup_insert_eq |].
  by rewrite lookup_insert_ne.
Qed.

(** ** Notifications *)

(** Nobody is to be notified. *)
Definition quiet (s : InputScheme) : Prop := forall id h, handles s !! id = Some h -> to_notify h = false.

(** The handles that a step leaves to be notified are noticed by the daemon. *)
Definition noticed (s s' : InputScheme) : Prop := has_new_events s' = false -> quiet s -> quiet s'.

Lemma noticed_refl s : noticed s s.
Proof. by intros _ Hq. Qed.

Lemma noticed_evolves s s' : evolves s s' -> noticed s s'.
Proof. intros E Hn Hq. unfold quiet. by rewrite (evo_quiet _ _ E Hn). Qed.

Lemma quiet_insert s id h : quiet s -> to_notify h = false -> quiet (set_handles (<[id := h]> (handles s)) s).
Proof.
  intros Hq Hh j x. cbn [handles set_handles]. intros [[<- <-] | [_ Hx]]%lookup_insert_Some; [done | by eapply Hq].
Qed.

Lemma all_set_0 : all_set 0 EVENT_READ = false.
Proof. unfold all_set. rewrite Z.land_0_l. pose proof event_read_nonzero. lia. Qed.

(** ** Reads *)

(** The bytes that a read returned *)
Definition returned (o : outcome (Z * list u8)) : list u8 :=
  match o with Ok r => take (Z.to_nat r.1) r.2 | _ => [] end.

Lemma read_wp id buf s :
  wp (read id buf) (fun o s' => shape s s' /\ noticed s s' /\ o <> Panic /\
    forall j, vt_at s j <> None -> bytes_at s j = (if bool_decide (j = id) then returned o else []) ++ bytes_at s' j) s.
Proof.
  assert (forall e, wp (throw e : M InputScheme (Z * list u8)) (fun o s' => shape s s' /\ noticed s s' /\ o <> Panic /\
    forall j, vt_at s j <> None -> bytes_at s j = (if bool_decide (j = id) then returned o else []) ++ bytes_at s' j) s) as Hthrow.
  { intros e. apply wp_throw. split; [apply shape_refl |]. split; [apply noticed_refl |]. split; [done |]. intros j _. by case_bool_decide. }
  unfold read, handle_at. apply wp_bind, wp_bind, wp_gets, wp_ok_or; [| intros _; apply Hthrow].
  intros [| ev p nh n vt | ev p n dev early |] Hh; try apply Hthrow.
  - destruct nh.
    + apply wp_bind, wp_modify, wp_throw. split; [by eapply shape_put |]. split.
      { intros _ Hq. apply quiet_insert; [done |]. pose proof (Hq _ _ Hh) as H. cbn [to_notify orb andb] in *.
        by rewrite <- andb_assoc, H, andb_false_r. }
      split; [done |]. intros j _. rewrite (bytes_put _ _ _ _ _ Hh). unfold bytes_at.
      case_bool_decide as E; [by rewrite E, Hh | done].
    + apply wp_bind, wp_modify, wp_ret. set (k := (length p `min` length buf)%nat). split; [by eapply shape_put |]. split.
      { intros _ Hq. apply quiet_insert; [done |]. pose proof (Hq _ _ Hh) as H. cbn [to_notify orb] in *.
        destruct (bool_decide_reflect (drop k p = [])) as [| Hd]; [done |]. rewrite bool_decide_false in H; [done |].
        intros ->. by rewrite drop_nil in Hd. }
      split; [done |]. intros j _. rewrite (bytes_put _ _ _ _ _ Hh). unfold bytes_at.
      case_bool_decide as E; [| done]. rewrite E, Hh. cbn [from_option bytes_of returned fst snd]. rewrite Nat2Z.id.
      unfold copy_prefix. rewrite take_app_length' by (rewrite length_take; lia). by rewrite take_drop.
  - destruct (_ =? 0)%nat; [| apply Hthrow]. apply wp_bind, wp_modify, wp_ret. split; [by eapply shape_put |]. split.
    { intros _ Hq. apply quiet_insert; [done |]. pose proof (Hq _ _ Hh) as H. cbn [to_notify] in *. set (k := (_ `min` _)%nat).
      destruct (bool_decide_reflect (drop k p = [])) as [| Hd]; [done |]. rewrite bool_decide_false in H; [done |].
      intros ->. by rewrite drop_nil in Hd. }
    split; [done |]. intros j Hj. rewrite (bytes_put _ _ _ _ _ Hh). case_bool_decide as E; [| done].
    unfold vt_at in Hj. by rewrite E, Hh in Hj.
Qed.

(** ** Writes *)

(** A write of input events, which are for a consumer *)
Definition input_write (s : InputScheme) (id : Z) (buf : list u8) : bool :=
  match handles s !! id with Some Producer => negb ((length buf =? 1)%nat && (0xf4 <? from_le buf)) | _ => false end.

(** What a write adds to the bytes for the consumer of the terminal [v] *)
Definition sent (s : InputScheme) (id : Z) (buf : list u8) (o : outcome Z) (s' : InputScheme) (v : Z) : list u8 :=
  if input_write s id buf && is_ok o && bool_decide (active_vt s' = Some v) then buf else [].

Lemma evolves_new s : shape s (set_new_events true s).
Proof. split; try done. by left. Qed.

Lemma write_wp id buf s :
  wp (write id buf) (fun o s' => shape s s' /\ has_new_events s' = true /\ (o = Panic -> active_vt s = None) /\
    (forall j v, vt_at s j = Some v -> bytes_at s' j = bytes_at s j ++ sent s id buf o s' v) /\
    (input_write s id buf = true -> forall e, o <> Err e)) s.
Proof.
  set (s0 := set_new_events true s).
  assert (forall o s', input_write s id buf = false -> evolves s0 s' -> o <> Panic -> shape s s' /\ has_new_events s' = true /\
    (o = Panic -> active_vt s = None) /\ (forall j v, vt_at s j = Some v -> bytes_at s' j = bytes_at s j ++ sent s id buf o s' v) /\
    (input_write s id buf = true -> forall e, o <> Err e)) as Hkeep.
  { intros o s' Hi E Ho. split; [eapply shape_trans; [apply evolves_new | by apply evolves_shape] |].
    split; [by apply E |]. split; [done |]. split; [| by rewrite Hi]. intros j v _. unfold sent. rewrite Hi. cbn. rewrite app_nil_r.
    by rewrite (evolves_bytes _ _ _ E). }
  unfold write, handle_at. apply wp_bind, wp_modify. fold s0. apply wp_bind, wp_bind, wp_gets, wp_ok_or.
  2: { intros Hh. change (handles s0) with (handles s) in Hh. apply Hkeep; [unfold input_write; by rewrite Hh | apply evolves_refl | done]. }
  intros h Hh. change (handles s0) with (handles s) in Hh.
  assert (h <> Producer -> input_write s id buf = false) as Hnp by (unfold input_write; rewrite Hh; by destruct h).
  destruct h as [| ev p nh n vt | ev p n dev early |];
    [| apply wp_throw, Hkeep; [by apply Hnp | apply evolves_refl | done].. |].
  - assert (input_write s id buf = negb ((length buf =? 1)%nat && (0xf4 <? from_le buf))) as Hi by (unfold input_write; by rewrite Hh).
    destruct (_ && _); [apply wp_ret, Hkeep; [done | apply evolves_refl | done] |]. cbn [negb] in Hi.
    apply wp_bind. eapply wp_mono; [| by apply input_events_wp]. intros [[] | e |] s1 (E1 & N1 & P1 & Q1); [| by destruct (P1 e) |].
    2: { split; [eapply shape_trans; [apply evolves_new | by apply evolves_shape] |]. split; [done |]. split; [auto |]. split; [| done].
         intros j v _. unfold sent. cbn. rewrite andb_false_r. cbn. rewrite app_nil_r. by rewrite (evolves_bytes _ _ _ E1). }
    destruct (evo_handles _ _ E1 _ _ Hh) as (h' & Hh' & T). inversion T; subst h'. clear T.
    apply wp_bind, wp_bind, wp_gets. unfold wp at 1, ok_or. rewrite Hh'. cbn [mret M_ret fst snd].
    apply wp_bind, wp_ret, wp_bind, wp_gets.
    assert (shape s s1) as Hs1 by (eapply shape_trans; [apply evolves_new | by apply evolves_shape]).
    destruct (active_vt s1) as [vt |] eqn:Ea; apply wp_bind; [apply wp_modify | apply wp_ret]; apply wp_ret.
    + split; [eapply shape_trans; [exact Hs1 | apply shape_each; intros [] ; cbn; try done; by destruct (_ =? _)] |].
      split; [done |]. split; [done |]. split; [| done]. intros j v Hv. unfold sent. rewrite Hi. cbn [andb is_ok active_vt each_handle set_handles].
      rewrite Ea. pose proof (sh_vt _ _ Hs1 j) as Hvj. rewrite Hv in Hvj. change (bytes_at s j) with (bytes_at s0 j). rewrite <- (evolves_bytes _ _ j E1).
      unfold vt_at in Hvj. unfold bytes_at. rewrite lookup_each.
      destruct (handles s1 !! j) as [[| ev p nh n vt' | |] |]; try done. injection Hvj as ->. cbn.
      destruct (Z.eqb_spec v vt) as [-> | Hne]; [by rewrite bool_decide_true |].
      rewrite bool_decide_false by congruence. by rewrite app_nil_r.
    + split; [done |]. split; [done |]. split; [done |]. split; [| done]. intros j v _. unfold sent. rewrite Ea, bool_decide_false, andb_false_r by done.
      rewrite app_nil_r. by rewrite (evolves_bytes _ _ _ E1).
  - destruct (_ =? _)%nat; [| apply wp_throw, Hkeep; [by apply Hnp | apply evolves_refl | done]].
    apply wp_bind. eapply wp_mono; [| apply switch_vt_wp]. intros o s1 (-> & E1 & _).
    apply wp_ret, Hkeep; [by apply Hnp | done | done].
Qed.

(** ** Opening *)

(** A step that keeps terminals and their bytes *)
Record keeps_vts (s s' : InputScheme) : Prop := {
  kv_shape : shape s s';
  kv_bytes id : bytes_at s' id = bytes_at s id;
  kv_noticed : noticed s s'
}.

Lemma kv_evolves s s' : evolves s s' -> keeps_vts s s'.
Proof. intros E. split; [by apply evolves_shape | intros id; by apply evolves_bytes | by apply noticed_evolves]. Qed.

Lemma kv_refl s : keeps_vts s s.
Proof. apply kv_evolves, evolves_refl. Qed.

Lemma open_display_wp early device s :
  wp (open_display early device) (fun o s' => keeps_vts s s' /\
    exists h, o = Ok h /\ vt_of h = None /\ to_notify h = false) s.
Proof.
  unfold open_display. apply wp_bind, wp_gets, wp_bind, wp_gets. set (b := if early then _ else _).
  apply wp_bind. destruct b.
  - apply wp_bind, wp_modify, wp_bind, wp_modify, wp_modify, wp_bind, wp_gets, wp_ret. split; [split | eexists; split; [done | split; [done |]]].
    + eapply (shape_trans _ (set_display (Some device) (set_new_events true s))); [split; try done; by left |].
      apply shape_each. by intros [].
    + intros id. unfold bytes_at. rewrite lookup_each. cbn [handles set_display set_new_events]. by destruct (handles s !! id) as [[] |].
    + by intros Hn.
    + cbn [to_notify]. by rewrite all_set_0, andb_false_r.
  - apply wp_ret, wp_bind, wp_gets, wp_ret. split; [apply kv_refl |]. eexists. split; [done |]. split; [done |].
    cbn [to_notify]. by rewrite all_set_0, andb_false_r.
Qed.

(** What opening does, when the counters do not wrap *)
Record opened (s s' : InputScheme) : Prop := {
  op_inv : inv s';
  op_old id : is_Some (handles s !! id) -> is_Some (handles s' !! id) /\ vt_at s' id = vt_at s id /\ bytes_at s' id = bytes_at s id;
  op_noticed : noticed s s'
}.

(** A handle that is for no terminal *)
Lemma opened_plain s s1 n h :
  inv s -> keeps_vts (set_next_id (next_id s + 1) s) s1 -> n = next_id s -> vt_of h = None -> to_notify h = false ->
  opened s (set_handles (<[n := h]> (handles s1)) s1).
Proof.
  intros Hi [K1 K2 K3] -> Hv Hq. pose proof Hi as [H1 H2 H3 H4 H5 H6]. set (s0 := set_next_id _ s) in *.
  assert (handles s1 !! next_id s = None) as Hfree.
  { destruct (handles s1 !! next_id s) eqn:E; [| done]. exfalso.
    assert (is_Some (handles s0 !! next_id s)) as Hs by (apply K1; by eexists). apply H1 in Hs. lia. }
  assert (inv s0) as Hi0.
  { split; try done; cbn; [| lia]. intros id Hs. apply H1 in Hs. lia. }
  pose proof (inv_shape _ _ Hi0 K1) as [I1 I2 I3 I4 I5 I6].
  assert (forall id, vt_at (set_handles (<[next_id s := h]> (handles s1)) s1) id = vt_at s1 id) as Hvt.
  { intros id. unfold vt_at. cbn [handles set_handles]. destruct (decide (id = next_id s)) as [-> | Hne].
    - rewrite lookup_insert_eq, Hfree. done.
    - by rewrite lookup_insert_ne. }
  split; [split; cbn [vts next_vt_id active_vt next_id set_handles] |  | ]; try done.
  - intros id. cbn [handles set_handles]. destruct (decide (id = next_id s)) as [-> | Hne]; [| rewrite lookup_insert_ne by done; apply I1].
    intros _. rewrite (sh_next _ _ K1). cbn. lia.
  - intros v. rewrite I2. by setoid_rewrite Hvt.
  - intros i j v. rewrite !Hvt. apply I3.
  - intros id Hs. assert (id <> next_id s) as Hne by (intros ->; apply H1 in Hs; lia). split; [| split].
    + cbn [handles set_handles]. rewrite lookup_insert_ne by done. by apply K1.
    + rewrite Hvt, (sh_vt _ _ K1). done.
    + unfold bytes_at. cbn [handles set_handles]. rewrite lookup_insert_ne by done. apply K2.
  - intros Hn Hqs. apply quiet_insert; [| done]. by apply K3.
Qed.

(** A consumer, for a new terminal *)
Lemma opened_consumer s s1 n vt :
  inv s -> n = next_id s -> vt = next_vt_id s ->
  evolves (set_vts ({[vt]} ∪ vts s) (set_next_vt_id (vt + 1) (set_next_id (n + 1) s))) s1 -> active_vt s1 <> None ->
  opened s (set_handles (<[n := Consumer 0 [] false false vt]> (handles s1)) s1).
Proof.
  intros [H1 H2 H3 H4 H5 H6] -> -> E Ha. set (s0 := set_vts _ _) in *.
  pose proof (evolves_shape _ _ E) as [K1 K2 K3 K4 K5 K6]. cbn in K3, K4, K5.
  assert (handles s1 !! next_id s = None) as Hfree.
  { destruct (handles s1 !! next_id s) eqn:E1; [| done]. exfalso.
    assert (is_Some (handles s0 !! next_id s)) as Hs by (apply K1; by eexists). apply H1 in Hs. lia. }
  set (s2 := set_handles _ s1). assert (vt_at s2 (next_id s) = Some (next_vt_id s)) as Hnew.
  { unfold vt_at. cbn [handles s2 set_handles]. by rewrite lookup_insert_eq. }
  assert (forall id, id <> next_id s -> vt_at s2 id = vt_at s id) as Hold.
  { intros id Hne. unfold vt_at at 1. cbn [handles s2 set_handles]. rewrite lookup_insert_ne by done. apply K2. }
  assert (forall id v, vt_at s id = Some v -> id <> next_id s /\ v <> next_vt_id s) as Hb.
  { intros id v Hv. split; intros ->.
    - enough (next_id s < next_id s) by lia. apply H1. unfold vt_at in Hv. destruct (handles s !! next_id s); [by eexists | done].
    - enough (next_vt_id s < next_vt_id s) by lia. apply H4, H2. by eexists. }
  split; [split; cbn [vts next_vt_id active_vt next_id s2 set_handles] | |]; rewrite ?K3, ?K4, ?K5; try lia.
  - intros id. cbn [handles s2 set_handles]. destruct (decide (id = next_id s)) as [-> | Hne]; [lia |].
    rewrite lookup_insert_ne by done. intros Hs%K1. apply H1 in Hs. lia.
  - intros v. rewrite elem_of_union, elem_of_singleton, H2. split.
    + intros [-> | [id Hv]]; [by exists (next_id s) |]. exists id. rewrite Hold; [done |]. by destruct (Hb _ _ Hv).
    + intros [id Hv]. destruct (decide (id = next_id s)) as [-> | Hne]; [left; congruence | right; exists id; by rewrite <- Hold].
  - intros i j v Hi Hj. destruct (decide (i = next_id s)) as [-> | Hi'], (decide (j = next_id s)) as [-> | Hj']; [done | | |].
    + rewrite Hold in Hj by done. destruct (Hb _ _ Hj). congruence.
    + rewrite Hold in Hi by done. destruct (Hb _ _ Hi). congruence.
    + rewrite Hold in Hi, Hj by done. by apply (H3 i j v).
  - intros v [->%elem_of_singleton | Hv]%elem_of_union; [lia |]. apply H4 in Hv. lia.
  - destruct K6 as [Hsame | (v & Hv & Hin)]; [| by rewrite Hv, ?K5].
    rewrite Hsame in *. cbn in *. destruct (active_vt s) as [v |]; [| done]. rewrite ?K5. apply elem_of_union. by right.
  - intros id Hs. assert (id <> next_id s) as Hne by (intros ->; apply H1 in Hs; lia). split; [| split].
    + cbn [handles s2 set_handles]. rewrite lookup_insert_ne by done. by apply K1.
    + by apply Hold.
    + unfold bytes_at. cbn [handles s2 set_handles]. rewrite lookup_insert_ne by done. apply (evolves_bytes _ _ _ E).
  - intros Hn Hq. apply quiet_insert; [| done]. apply (noticed_evolves _ _ E Hn). done.
Qed.

Lemma opened_refl s s1 : inv s -> s1 = set_next_id (next_id s + 1) s \/ s1 = s -> opened s s1.
Proof.
  intros Hi E. pose proof Hi as [H1 H2 H3 H4 H5 H6]. destruct E as [-> | ->].
  - split; [| done | by intros _ Hq]. split; try done; cbn; [intros id Hs; apply H1 in Hs; lia | lia].
  - by split; [| | apply noticed_refl].
Qed.

Lemma open_wp path s :
  inv s -> next_id s + 1 < usize_mod -> next_vt_id s + 1 < usize_mod ->
  wp (open path) (fun o s' => opened s s' /\ o <> Panic) s.
Proof.
  intros Hi Hb1 Hb2. pose proof (in_next _ Hi) as [N1 N2]. unfold open.
  destruct (split_char slash path) as [| command rest]; [apply wp_throw; split; [by apply opened_refl; [| right] | done] |].
  apply wp_bind. unfold fetch_id. apply wp_bind, wp_gets, wp_bind, wp_modify, wp_ret. rewrite Z.mod_small by lia.
  set (s0 := set_next_id (next_id s + 1) s).
  assert (forall h, vt_of h = None -> to_notify h = false -> wp (modify (fun x => set_handles (<[next_id s := h]> (handles x)) x);;
            mret (ThisScheme (next_id s) fd_empty)) (fun o s' => opened s s' /\ o <> Panic) s0) as Hplain.
  { intros h Hv Hq. apply wp_bind, wp_modify, wp_ret. split; [| done]. by apply opened_plain; [| apply kv_refl | | |]. }
  assert (forall early device, wp (h ← open_display early device; modify (fun x => set_handles (<[next_id s := h]> (handles x)) x);;
            mret (ThisScheme (next_id s) fd_empty)) (fun o s' => opened s s' /\ o <> Panic) s0) as Hdisp.
  { intros early device. apply wp_bind. eapply wp_mono; [| apply open_display_wp]. intros o s1 (K & h & -> & Hv & Hq).
    apply wp_bind, wp_modify, wp_ret. split; [| done]. by apply opened_plain. }
  case_bool_decide; [apply wp_bind, wp_ret, Hplain; done |].
  case_bool_decide; [| case_bool_decide; [apply Hdisp |]; case_bool_decide; [apply Hdisp |]; case_bool_decide;
    [apply wp_bind, wp_ret, Hplain; done | apply wp_bind, wp_throw; split; [by apply opened_refl; [| left] | done]]].
  apply wp_bind. unfold open_consumer, fetch_vt_id. apply wp_bind, wp_bind, wp_gets, wp_bind, wp_modify, wp_ret.
  change (next_vt_id s0) with (next_vt_id s). rewrite Z.mod_small by lia.
  apply wp_bind, wp_modify, wp_bind, wp_gets, wp_bind. cbn [active_vt set_vts set_next_vt_id s0 set_next_id].
  destruct (active_vt s) as [v |] eqn:Ea.
  - apply wp_ret, wp_ret, wp_bind, wp_modify, wp_ret. split; [| done]. apply opened_consumer; try done; [apply evolves_refl | cbn; by rewrite Ea].
  - eapply wp_mono; [| apply switch_vt_wp]. intros o s1 (-> & E & A). apply wp_ret, wp_bind, wp_modify, wp_ret. split; [| done].
    apply opened_consumer; try done. rewrite A, bool_decide_true; [done |]. cbn. apply elem_of_union. left. by apply elem_of_singleton.
Qed.

(** ** Closing *)

Lemma last_vt_spec l : match last_vt l with Some v => v ∈ l | None => l = ∅ end.
Proof.
  unfold last_vt.
  assert (forall r, match foldr (fun x acc => match acc with Some y => Some (Z.max x y) | None => Some x end) None r with
                    | Some v => v ∈ r | None => r = [] end) as H.
  { induction r as [| x r IH]; [done |]. cbn. destruct (foldr _ None r) as [y |]; [| left].
    destruct (Z.max_spec x y) as [[_ ->] | [_ ->]]; [by right | left]. }
  specialize (H (elements l)). destruct (foldr _ None _) as [v |]; [by apply elem_of_elements |].
  apply elements_empty_inv in H. by apply leibniz_equiv.
Qed.

Lemma close_wp id s :
  inv s -> is_Some (handles s !! id) ->
  wp (on_close id) (fun o s' => o = Ok tt /\ inv s' /\ noticed s s' /\
    forall j, j <> id -> (is_Some (handles s !! j) -> is_Some (handles s' !! j)) /\ vt_at s' j = vt_at s j /\ bytes_at s' j = bytes_at s j) s.
Proof.
  intros Hi [h Hh]. pose proof Hi as [H1 H2 H3 H4 H5 H6]. unfold on_close. apply wp_bind, wp_gets, wp_bind. rewrite Hh. apply wp_ret.
  apply wp_bind, wp_modify. set (s1 := set_handles (delete id (handles s)) s).
  assert (forall j, j <> id -> handles s1 !! j = handles s !! j) as Hne by (intros j Hj; apply lookup_delete_ne; congruence).
  assert (forall j, vt_at s1 j = if bool_decide (j = id) then None else vt_at s j) as Hvt.
  { intros j. unfold vt_at. case_bool_decide as E; [rewrite E; cbn; by rewrite lookup_delete_eq | by rewrite Hne]. }
  assert (noticed s s1) as Hno.
  { intros _ Hq j x Hx. cbn [s1 handles set_handles] in Hx. apply lookup_delete_Some in Hx as [_ Hx]. by apply (Hq j x). }
  assert (forall j, is_Some (handles s1 !! j) -> j < next_id s) as Hid.
  { intros j Hs. apply H1. destruct (decide (j = id)) as [-> | Hj]; [by eexists | by rewrite <- Hne]. }
  assert (forall j, j <> id -> (is_Some (handles s !! j) -> is_Some (handles s1 !! j)) /\ vt_at s1 j = vt_at s j /\ bytes_at s1 j = bytes_at s j) as Hold.
  { intros j Hj. rewrite Hvt, bool_decide_false by done. unfold bytes_at. by rewrite Hne. }
  assert (vt_of h = None -> inv s1) as Hplain.
  { intros Hv. assert (forall j, vt_at s1 j = vt_at s j) as Hall.
    { intros j. rewrite Hvt. case_bool_decide as E; [| done]. unfold vt_at. by rewrite E, Hh. }
    split; try done; [intros v; change (vts s1) with (vts s); rewrite H2; by setoid_rewrite Hall | intros i j v; rewrite !Hall; apply H3]. }
  destruct h as [| ev p nh n vt | |]; try (apply wp_ret; by repeat split; try apply Hplain; try apply Hold).
  apply wp_bind, wp_modify, wp_bind, wp_gets. set (s2 := set_vts (vts s1 ∖ {[vt]}) s1).
  assert (vt_at s id = Some vt) as Hvid by (unfold vt_at; by rewrite Hh).
  assert (forall v, v ∈ vts s2 <-> exists i, vt_at s2 i = Some v) as Hvts.
  { intros v. cbn [vts s2 set_vts s1 set_handles]. rewrite elem_of_difference, elem_of_singleton, H2.
    change (vt_at s2) with (vt_at s1). split.
    - intros [[i Hv] Hneq]. exists i. rewrite Hvt, bool_decide_false; [done |]. intros ->. congruence.
    - intros [i Hv]. rewrite Hvt in Hv. case_bool_decide as E; [done |]. split; [by exists i |]. intros ->. apply E. by eapply H3. }
  assert (forall a, match a with Some v => v ∈ vts s2 | None => vts s2 = ∅ end -> inv (set_active_vt a s2)) as Hinv.
  { intros a Ha. split; [done | done | | | done | done].
    - intros i j v Hi' Hj'. change (vt_at _ i) with (vt_at s1 i) in Hi'. change (vt_at _ j) with (vt_at s1 j) in Hj'.
      rewrite Hvt in Hi', Hj'. do 2 case_bool_decide; try done. by eapply H3.
    - intros v [Hv _]%elem_of_difference. by apply H4. }
  change (active_vt s2) with (active_vt s). case_bool_decide as Ea.
  - apply wp_bind, wp_gets. pose proof (last_vt_spec (vts s2)) as Hl. destruct (last_vt (vts s2)) as [v |].
    + eapply wp_mono; [| apply switch_vt_wp]. intros o s3 (-> & E & A). rewrite bool_decide_true in A by done.
      split; [done |]. split; [| split].
      * assert (s2 = set_active_vt (active_vt s2) s2) as Es by done.
        eapply inv_shape; [apply (Hinv (Some v)); done |]. destruct (evolves_shape _ _ E) as [E1 E2 E3 E4 E5 E6]. split; try done. left. done.
      * intros Hn Hq. apply (noticed_evolves _ _ E Hn). apply Hno; [| done]. destruct (has_new_events s1) eqn:En; [| done].
        by rewrite (evo_new _ _ E) in Hn.
      * intros j Hj. destruct (Hold j Hj) as (O1 & O2 & O3). pose proof (evolves_shape _ _ E) as K.
        split; [intros Hs; apply K; by apply O1 |]. rewrite (sh_vt _ _ K), (evolves_bytes _ _ j E). done.
    + apply wp_modify. split; [done |]. split; [by apply Hinv | by split].
  - apply wp_ret. split; [done |]. split; [| by split].
    assert (s2 = set_active_vt (active_vt s) s2) as -> by done. apply Hinv. destruct (active_vt s) as [v |].
    + cbn. apply elem_of_difference. split; [done |]. rewrite elem_of_singleton. congruence.
    + assert (vt ∈ vts s) as Hin by (apply H2; by exists id). rewrite H5 in Hin. set_solver.
Qed.

(** ** Notifying *)

Lemma mark_notified_of h : vt_of (mark_notified h) = vt_of h /\ bytes_of (mark_notified h) = bytes_of h /\ to_notify (mark_notified h) = false.
Proof. destruct h; cbn; rewrite ?andb_false_r; done. Qed.

Lemma notify_wp accepts ids s :
  (forall id, id ∈ ids -> is_Some (handles s !! id)) ->
  wp (notify accepts ids) (fun o s' => shape s s' /\ active_vt s' = active_vt s /\ (forall id, bytes_at s' id = bytes_at s id) /\ o <> Panic /\
    (forall id, id ∉ ids -> handles s' !! id = handles s !! id) /\
    (forall id h, handles s !! id = Some h -> to_notify h = false -> handles s' !! id = Some h) /\
    (forall l, o = Ok l -> forall id h, id ∈ ids -> handles s' !! id = Some h -> to_notify h = false)) s.
Proof.
  revert s. induction ids as [| id ids IH]; intros s Hids.
  { apply wp_ret. split; [apply shape_refl |]. repeat split; try done. intros l _ id h Hin. by apply not_elem_of_nil in Hin. }
  cbn [notify]. destruct (Hids id ltac:(by left)) as [h Hh]. unfold handle_at. apply wp_bind, wp_bind, wp_gets.
  unfold wp at 1, ok_or. rewrite Hh. cbn [mret M_ret fst snd]. destruct (to_notify h) eqn:En.
  2: { eapply wp_mono; [| apply IH; intros j Hj; apply Hids; by right]. intros o s' (K1 & Ka & K2 & K3 & K4 & K5 & K6).
       repeat (split; [done |]). split; [intros j Hj; apply K4; intros ?; apply Hj; by right |]. split; [done |].
       intros l Hl j x Hj Hx. destruct (decide (j = id)) as [-> | Hne]; [rewrite (K5 _ _ Hh En) in Hx; congruence |].
       apply (K6 l Hl j); [| done]. apply elem_of_cons in Hj. by destruct Hj. }
  destruct (accepts id); [| apply wp_throw; split; [apply shape_refl |]; repeat split; done].
  destruct (mark_notified_of h) as (M1 & M2 & M3). set (s1 := set_handles (<[id := mark_notified h]> (handles s)) s).
  assert (shape s s1) as Hs1 by (by eapply shape_put).
  assert (forall j, bytes_at s1 j = bytes_at s j) as Hb.
  { intros j. unfold s1. rewrite (bytes_put _ _ _ _ _ Hh). case_bool_decide as E; [| done]. rewrite E, M2. unfold bytes_at. by rewrite Hh. }
  assert (forall j, j <> id -> handles s1 !! j = handles s !! j) as Hold by (intros j Hj; cbn; by rewrite lookup_insert_ne).
  assert (handles s1 !! id = Some (mark_notified h)) as Hnew by (cbn; by rewrite lookup_insert_eq).
  apply wp_bind, wp_modify. fold s1. apply wp_bind. eapply wp_mono; [| apply IH; intros j Hj; apply Hs1, Hids; by right].
  intros o s' (K1 & Ka & K2 & K3 & K4 & K5 & K6).
  assert (shape s s' /\ active_vt s' = active_vt s /\ (forall j, bytes_at s' j = bytes_at s j) /\ (forall j, j ∉ id :: ids -> handles s' !! j = handles s !! j) /\
          (forall j x, handles s !! j = Some x -> to_notify x = false -> handles s' !! j = Some x)) as (C1 & Ca & C2 & C3 & C4).
  { split; [by eapply shape_trans |]. split; [done |]. split; [intros j; by rewrite K2 |]. split.
    - intros j [Hj Hj2]%not_elem_of_cons. rewrite K4, Hold; done.
    - intros j x Hx Hnx. apply K5; [| done]. rewrite Hold; [done | intros ->; congruence]. }
  destruct o as [l | e |]; [apply wp_ret | |]; (split; [done |]; split; [done |]; split; [done |]; split; [done |]; split; [done |]; split; [done |]); [| done | done].
  intros l' _ j x Hj Hx. destruct (decide (j = id)) as [-> | Hne].
  - rewrite (K5 _ _ Hnew M3) in Hx. congruence.
  - apply (K6 l eq_refl j); [| done]. apply elem_of_cons in Hj. by destruct Hj.
Qed.

(** ** Requests *)

(** Requests that the kernel makes, while the counters do not wrap *)
Definition admissible (r : Request) (s : InputScheme) : Prop :=
  match r with
  | R_open _ => next_id s + 1 < usize_mod /\ next_vt_id s + 1 < usize_mod
  | R_close id => is_Some (handles s !! id)
  | _ => True
  end.

Definition is_fevent (r : Request) : bool := match r with R_fevent _ _ => true | _ => false end.

(** What a request leaves of a consumer that it does not close *)
Definition delivered (r : Request) (s : InputScheme) (s' : InputScheme) (j v : Z) : list u8 :=
  match r with
  | R_write id buf => if input_write s id buf && bool_decide (active_vt s' = Some v) then buf else []
  | _ => []
  end.
Definition consumed (r : Request) (s : InputScheme) (j : Z) : list u8 :=
  match r with R_read id buf => if bool_decide (id = j) then returned (read id buf s).1 else [] | _ => [] end.

Record steps (r : Request) (s s' : InputScheme) : Prop := {
  st_inv : inv s';
  st_noticed : is_fevent r = false -> noticed s s';
  st_consumer j v : vt_at s j = Some v -> r <> R_close j ->
    vt_at s' j = Some v /\ bytes_at s j ++ delivered r s s' j v = consumed r s j ++ bytes_at s' j
}.

Lemma steps_shape r s s' :
  inv s -> shape s s' -> (is_fevent r = false -> noticed s s') ->
  (forall j v, vt_at s j = Some v -> bytes_at s j ++ delivered r s s' j v = consumed r s j ++ bytes_at s' j) -> steps r s s'.
Proof.
  intros Hi Hs Hn Hb. split; [by eapply inv_shape | done |]. intros j v Hv _. split; [by rewrite (sh_vt _ _ Hs) | by apply Hb].
Qed.

Lemma wp_attempt {A} (m : M InputScheme A) Q s :
  wp m (fun o s' => match o with Panic => Q Panic s' | _ => Q (Ok o) s' end) s -> wp (attempt m) Q s.
Proof. unfold wp, attempt. by destruct (m s) as [[] ?]. Qed.

Lemma fpath_wp id buf s : wp (fpath id buf) (fun o s' => s' = s /\ o <> Panic) s.
Proof.
  unfold fpath, handle_at. apply wp_bind, wp_bind, wp_gets, wp_ok_or; [| done]. intros [] _; try done.
  apply wp_bind, wp_gets, wp_bind, wp_ok_or; done.
Qed.

Lemma fevent_wp id fl s :
  wp (fevent id fl) (fun o s' => shape s s' /\ (forall j, bytes_at s' j = bytes_at s j) /\ o <> Panic) s.
Proof.
  unfold fevent, handle_at. apply wp_bind, wp_bind, wp_gets, wp_ok_or; [| intros _; split; [apply shape_refl | done]].
  intros [| ev p nh n vt | ev p n dev early |] Hh; try (apply wp_throw; split; [apply shape_refl | done]);
    (apply wp_bind, wp_modify, wp_ret; split; [by eapply shape_put |]; split; [| done]; intros j;
     rewrite (bytes_put _ _ _ _ _ Hh); unfold bytes_at; case_bool_decide as E; [by rewrite E, Hh | done]).
Qed.

(** A write may panic only while no terminal is active. *)
Lemma request_wp r s :
  inv s -> admissible r s ->
  wp (request r) (fun o s' => (o = Panic /\ active_vt s = None /\ exists id buf, r = R_write id buf) \/ (o = Ok tt /\ steps r s s')) s.
Proof.
  intros Hi Ha. destruct r as [path | id buf | id buf | id buf | id fl | id |]; cbn [request].
  - destruct Ha as [Hb1 Hb2]. apply wp_bind, wp_attempt. eapply wp_mono; [| by apply open_wp]. intros o s' [[K1 K2 K3] Ho].
    assert (steps (R_open path) s s') as Hst.
    { split; [done | done |]. intros j v Hv _. destruct (K2 j) as (_ & Hv' & Hb); [unfold vt_at in Hv; destruct (handles s !! j); [by eexists | done] |].
      split; [congruence |]. cbn. by rewrite Hb, app_nil_r. }
    destruct o; [apply wp_ret; by right | apply wp_ret; by right | done].
  - apply wp_bind, wp_attempt. eapply wp_mono; [| apply fpath_wp]. intros o s' [-> Ho].
    assert (steps (R_fpath id buf) s s) as Hst by (apply steps_shape; [done | apply shape_refl | intros _; apply noticed_refl | intros j v _; by rewrite app_nil_r]).
    destruct o; [apply wp_ret; by right | apply wp_ret; by right | done].
  - apply wp_bind, wp_attempt. pose proof (read_wp id buf s) as Hr. unfold wp in Hr |- *.
    destruct (read id buf s) as [o s'] eqn:Er. cbn [fst snd] in *. destruct Hr as (K1 & K2 & K3 & K4).
    assert (steps (R_read id buf) s s') as Hst.
    { apply steps_shape; [done | done | done |]. intros j v Hv. cbn [delivered consumed]. rewrite app_nil_r, Er. cbn [fst].
      rewrite (K4 j) by congruence. f_equal. do 2 case_bool_decide; congruence. }
    destruct o; [by right | by right | done].
  - apply wp_bind, wp_attempt. eapply wp_mono; [| apply write_wp]. intros o s' (K1 & K2 & K3 & K4 & K5).
    destruct o as [n | e |]; [apply wp_ret; right | apply wp_ret; right | left; split; [done |]; split; [by apply K3 | by eexists _, _]];
      (split; [done |]; apply steps_shape; [done | done | intros _ Hn; congruence |]).
    + intros j v Hv. cbn [delivered consumed app]. rewrite (K4 j v Hv). unfold sent. cbn [is_ok]. by rewrite andb_true_r.
    + intros j v Hv. cbn [delivered consumed app]. rewrite (K4 j v Hv). unfold sent. cbn [is_ok].
      destruct (input_write s id buf); [by destruct (K5 eq_refl e) | done].
  - apply wp_bind, wp_attempt. eapply wp_mono; [| apply fevent_wp]. intros o s' (K1 & K2 & K3).
    assert (steps (R_fevent id fl) s s') as Hst.
    { apply steps_shape; [done | done | done |]. intros j v _. cbn. by rewrite K2, app_nil_r. }
    destruct o; [apply wp_ret; by right | apply wp_ret; by right | done].
  - eapply wp_mono; [| by apply close_wp]. intros o s' (-> & K1 & K2 & K3). right. split; [done |]. split; [done | done |].
    intros j v Hv Hne. destruct (K3 j) as (_ & E1 & E2); [congruence |]. split; [congruence |]. cbn. by rewrite E2, app_nil_r.
  - apply wp_ret. right. split; [done |]. apply steps_shape; [done | apply shape_refl | intros _; apply noticed_refl |].
    intros j v _. by rewrite app_nil_r.
Qed.

(** ** Turns of the daemon *)

Lemma ids_in_order_spec s id : id ∈ ids_in_order s <-> is_Some (handles s !! id).
Proof.
  unfold ids_in_order. rewrite merge_sort_Permutation. change (map fst ?l) with (fst <$> l).
  rewrite list_elem_of_fmap. split.
  - intros ([i h] & -> & Hin%elem_of_map_to_list). by eexists.
  - intros [h Hh]. exists (id, h). split; [done |]. by apply elem_of_map_to_list.
Qed.

Lemma read_flag id buf s b : (read id buf (set_new_events b s)).1 = (read id buf s).1.
Proof.
  unfold read, handle_at, mbind, M_bind, gets, ok_or, put, modify. cbn [handles set_new_events].
  destruct (handles s !! id) as [[| ev p [] n vt | ev p n dev early |] |]; try done. cbn [mret M_ret]. by destruct (_ =? 0)%nat.
Qed.

Lemma inv_flag s b : inv s -> inv (set_new_events b s).
Proof. intros [H1 H2 H3 H4 H5 H6]. by split. Qed.

(** What a turn leaves, unless it panics *)
Record turned (r : Request) (s s' : InputScheme) : Prop := {
  tn_inv : inv s';
  tn_quiet : is_fevent r = false -> quiet s -> quiet s';
  tn_consumer j v : vt_at s j = Some v -> r <> R_close j ->
    vt_at s' j = Some v /\ bytes_at s j ++ delivered r s s' j v = consumed r s j ++ bytes_at s' j
}.

Lemma turn_wp accepts r s :
  inv s -> admissible r s ->
  wp (turn accepts r) (fun o s' => (o = Panic -> active_vt s = None /\ exists id buf, r = R_write id buf) /\
    (forall ids, o = Ok ids -> turned r s s')) s.
Proof.
  intros Hi Ha. unfold turn. apply wp_bind, wp_modify. set (s0 := set_new_events false s).
  apply wp_bind. eapply wp_mono; [| apply (request_wp r s0); [by apply inv_flag | by destruct r]].
  intros o s1 [(-> & Hv & He) | (-> & [K1 K2 K3])]; [by split |]. apply wp_bind, wp_gets.
  assert (forall j, consumed r s0 j = consumed r s j) as Hc.
  { intros j. destruct r; try done. cbn [consumed]. unfold s0. by rewrite read_flag. }
  destruct (has_new_events s1) eqn:En.
  - apply wp_bind, wp_gets. eapply wp_mono; [| apply notify_wp; intros id; apply ids_in_order_spec].
    intros o s2 (L1 & La & L2 & L3 & L4 & L5 & L6). split; [done |]. intros ids Ho. split.
    + by eapply inv_shape.
    + intros _ _ id h Hh. eapply L6; [done | | done]. apply ids_in_order_spec, L1. by eexists.
    + intros j v Hv Hne. destruct (K3 j v Hv Hne) as [E1 E2]. split; [by rewrite (sh_vt _ _ L1) |].
      rewrite L2, <- Hc, <- E2. f_equal. destruct r; try done. cbn [delivered]. by rewrite La.
  - apply wp_ret. split; [done |]. intros ids _. split; [done | |].
    + intros Hf Hq. by apply K2.
    + intros j v Hv Hne. rewrite <- Hc. by apply K3.
Qed.

(** ** Runs *)

Lemma inv_new : inv InputScheme_new.
Proof.
  assert (forall id, vt_at InputScheme_new id = None) as Hv by done. split; [| | | | done | done].
  - intros id. cbn. rewrite lookup_empty. by intros [].
  - intros v. split; [by intros ?%elem_of_empty | intros [id H]; by rewrite Hv in H].
  - intros i j v. by rewrite Hv.
  - by intros v ?%elem_of_empty.
Qed.

(** A turn on a request that the kernel may make *)
Definition step (s s' : InputScheme) : Prop :=
  exists accepts r ids, admissible r s /\ turn accepts r s = (Ok ids, s').
Definition reachable (s : InputScheme) : Prop := rtc step InputScheme_new s.

Lemma step_turned accepts r s ids s' : inv s -> admissible r s -> turn accepts r s = (Ok ids, s') -> turned r s s'.
Proof.
  intros Hi Ha Ht. pose proof (wp_run _ _ _ _ _ (turn_wp accepts r s Hi Ha) Ht) as [_ H]. by apply (H ids).
Qed.

Lemma reachable_inv s : reachable s -> inv s.
Proof.
  intros H. eapply (rtc_preserves inv); [exact H | | apply inv_new]. intros x y Hx (accepts & r & ids & Ha & Ht).
  by eapply step_turned.
Qed.

(** The requests of a run, none of which closes the consumer [j] *)
Fixpoint serves (l : list ((Z -> bool) * Request)) (j : Z) (s s' : InputScheme) : Prop :=
  match l with
  | [] => s' = s
  | (accepts, r) :: l =>
      admissible r s /\ r <> R_close j /\ exists ids s1, turn accepts r s = (Ok ids, s1) /\ serves l j s1 s'
  end.

(** The bytes that were written for the terminal [v] in a run, and those that
    its consumer [j] read *)
Fixpoint bytes_for (l : list ((Z -> bool) * Request)) (j v : Z) (s : InputScheme) : list u8 :=
  match l with
  | [] => []
  | (accepts, r) :: l => let s1 := (turn accepts r s).2 in delivered r s s1 j v ++ bytes_for l j v s1
  end.
Fixpoint bytes_read (l : list ((Z -> bool) * Request)) (j : Z) (s : InputScheme) : list u8 :=
  match l with
  | [] => []
  | (accepts, r) :: l => consumed r s j ++ bytes_read l j (turn accepts r s).2
  end.

Lemma serves_conserves l j v s s' :
  inv s -> vt_at s j = Some v -> serves l j s s' ->
  inv s' /\ bytes_at s j ++ bytes_for l j v s = bytes_read l j s ++ bytes_at s' j.
Proof.
  revert s. induction l as [| [accepts r] l IH]; intros s Hi Hv Hl; cbn in Hl.
  - subst. split; [done |]. cbn. by rewrite app_nil_r.
  - destruct Hl as (Ha & Hne & ids & s1 & Ht & Hl). destruct (step_turned _ _ _ _ _ Hi Ha Ht) as [K1 K2 K3].
    destruct (K3 j v Hv Hne) as [Hv1 Hb]. destruct (IH s1 K1 Hv1 Hl) as [Hi' Hb']. split; [done |].
    cbn [bytes_for bytes_read]. rewrite Ht. cbn [snd]. by rewrite app_assoc, Hb, <- !app_assoc, Hb'.
Qed.
End facts.

Section theorems.
Context {TG : Target} {SC : Syscall} {SL : SyscallLaws SC} {OC : OrbClient}.


(** In every reachable state the terminals are those of the open consumers, no
    two consumers share one, and one of them is active unless there are none. *)
Theorem input_invariant s : reachable s -> inv s.
Proof. apply reachable_inv. Qed.

(** C13: notifications are not lost: when nobody waits for one, then after a turn
    with any request but a registration for events nobody does, so every consumer and display that got
    something to read and had asked for events was notified. *)
Theorem input_notifies accepts r s ids s' :
  reachable s -> admissible r s -> is_fevent r = false -> quiet s -> turn accepts r s = (Ok ids, s') -> quiet s'.
Proof. intros Hr Ha Hf Hq Ht. by eapply (step_turned accepts r s ids s' (reachable_inv _ Hr) Ha Ht). Qed.

(** No request that the kernel makes of a reachable state ends the daemon by a
    panic, but for a write while no terminal is active. *)
Theorem input_no_panic accepts r s :
  reachable s -> admissible r s -> (active_vt s = None -> forall id buf, r <> R_write id buf) ->
  (turn accepts r s).1 <> Panic.
Proof.
  intros Hr Ha Hw E. pose proof (turn_wp accepts r s (reachable_inv _ Hr) Ha) as [H _].
  destruct (H E) as [Hv (id & buf & ->)]. by eapply Hw.
Qed.
End theorems.

(** ** Runs that can be computed *)

Section play.
Context {TG : Target} {SC : Syscall} {OC : OrbClient}.

Definition may (r : Request) (s : InputScheme) : bool :=
  match r with
  | R_open _ => (next_id s + 1 <? usize_mod) && (next_vt_id s + 1 <? usize_mod)
  | R_close id => bool_decide (is_Some (handles s !! id))
  | _ => true
  end.

Definition closes (r : Request) (j : Z) : bool := match r with R_close i => i =? j | _ => false end.

Fixpoint play (l : list ((Z -> bool) * Request)) (j : Z) (s : InputScheme) : option InputScheme :=
  match l with
  | [] => Some s
  | (accepts, r) :: l =>
      if may r s && negb (closes r j) then
        match turn accepts r s with (Ok _, s1) => play l j s1 | _ => None end
      else None
  end.

Lemma may_admissible r s : may r s = true -> admissible r s.
Proof. destruct r; cbn; try done; [lia | apply bool_decide_eq_true_1]. Qed.

Lemma play_serves l j s s' : play l j s = Some s' -> serves l j s s'.
Proof.
  revert s. induction l as [| [accepts r] l IH]; intros s H; cbn in *; [congruence |].
  destruct (may r s) eqn:Em; [| done]. destruct (closes r j) eqn:Ec; [done |]. cbn [andb negb] in H.
  destruct (turn accepts r s) as [[ids | |] s1] eqn:Et; [| done..].
  split; [by apply may_admissible |]. split; [intros ->; cbn in Ec; lia |]. exists ids, s1. split; [done | by apply IH].
Qed.

Lemma serves_reachable l j s s' : reachable s -> serves l j s s' -> reachable s'.
Proof.
  revert s. induction l as [| [accepts r] l IH]; intros s Hr H; cbn in H; [by subst |].
  destruct H as (Ha & _ & ids & s1 & Ht & H). apply (IH s1); [| done]. eapply rtc_r; [exact Hr |]. by exists accepts, r, ids.
Qed.

Lemma play_reachable l j s : play l j InputScheme_new = Some s -> reachable s.
Proof. intros H. eapply serves_reachable; [apply rtc_refl | by apply play_serves]. Qed.
End play.

(** ** Instances *)

(** Events of four bytes *)
Definition small_events : OrbClient := {|
  size_of_Event := 4;
  to_option b :=
    match b with
    | x01 :: k :: p :: _ => Ev_Key (Z_of_byte k) (bool_decide (p <> x00))
    | x02 :: w :: h :: _ => Ev_Resize (Z_of_byte w) (Z_of_byte h)
    | _ => Ev_other
    end;
  vt_event_padding := replicate 4 x00
|}.

#[local] Existing Instances x86_64_release redox_syscall redox_syscall_laws small_events.

Definition takes (id : Z) : bool := true.
Definition all (l : list Request) : list ((Z -> bool) * Request) := map (pair takes) l.

(** A producer (0), a display (1) and two consumers (2 and 3) *)
Definition demo_setup : list Request :=
  [R_open "producer"; R_open "handle/display/vesa"; R_open "consumer"; R_open "consumer"; R_fevent 1 EVENT_READ; R_fevent 2 EVENT_READ;
   R_fevent 3 EVENT_READ; R_read 1 (replicate 32 x00)].

Definition demo : InputScheme := default InputScheme_new (play (all demo_setup) (-1) InputScheme_new).

Definition demo_key : list u8 := as_bytes "abcd".
(** Super and F2 *)
Definition demo_switch : list u8 := [x01; x5b; x01; x00; x01; x3c; x01; x00].

Definition demo_run : list Request :=
  [R_write 0 demo_key; R_read 2 (replicate 3 x00); R_write 0 demo_switch; R_write 0 demo_key; R_read 2 (replicate 8 x00)].

Definition demo_end : InputScheme := default InputScheme_new (play (all demo_run) 2 demo).

Lemma demo_played : play (all demo_setup) (-1) InputScheme_new = Some demo.
Proof. vm_compute. reflexivity. Qed.

Lemma demo_run_played : play (all demo_run) 2 demo = Some demo_end.
Proof. vm_compute. reflexivity. Qed.

Example demo_bytes :
  bytes_for (all demo_run) 2 1 demo = demo_key /\ bytes_read (all demo_run) 2 demo = demo_key /\
  bytes_at demo_end 3 = demo_switch ++ demo_key.
Proof. vm_compute. repeat split. Qed.

Example demo_notified :
  (turn takes (R_write 0 demo_key) demo).1 = Ok [2] /\ (turn takes (R_write 0 demo_switch) demo).1 = Ok [1; 3].
Proof. vm_compute. split; reflexivity. Qed.

Lemma demo_input_reachable : reachable demo.
Proof. apply (play_reachable (all demo_setup) (-1)). exact demo_played. Qed.


Lemma input_invariant_witness : inv demo.
Proof. apply (input_invariant demo). exact demo_input_reachable. Defined.

Lemma demo_quiet : quiet demo.
Proof.
  assert (forallb (fun x => negb (to_notify x.2)) (map_to_list (handles demo)) = true) as H by (vm_compute; reflexivity).
  intros id h Hh. apply elem_of_map_to_list in Hh. rewrite forallb_forall in H.
  specialize (H (id, h) (proj1 (list_elem_of_In _ _) Hh)). cbn in H. by destruct (to_notify h).
Qed.

Definition demo_written : InputScheme := (turn takes (R_write 0 demo_key) demo).2.

Lemma demo_write_turn : turn takes (R_write 0 demo_key) demo = (Ok [2], demo_written).
Proof.
  unfold demo_written. assert ((turn takes (R_write 0 demo_key) demo).1 = Ok [2]) as H by (vm_compute; reflexivity).
  destruct (turn takes (R_write 0 demo_key) demo) as [o s]. cbn in *. by rewrite H.
Qed.

Lemma input_notifies_witness : quiet demo_written.
Proof.
  apply (input_notifies takes (R_write 0 demo_key) demo [2] demo_written);
    [exact demo_input_reachable | exact I | reflexivity | exact demo_quiet | exact demo_write_turn].
Defined.

Lemma input_no_panic_witness : (turn takes (R_close 2) demo).1 <> Panic.
Proof.
  apply (input_no_panic takes (R_close 2) demo); [exact demo_input_reachable | | discriminate].
  apply (may_admissible (R_close 2) demo). vm_compute. reflexivity.
Defined.

(** ** Defects *)

(** A registration for events after input has come is not answered by a
    notification, although there is something to read. *)
Definition late_setup : list Request := [R_open "producer"; R_open "consumer"; R_write 0 demo_key].
Definition late : InputScheme := default InputScheme_new (play (all late_setup) (-1) InputScheme_new).

Lemma fevent_after_input_not_notified :
  bytes_at late 1 = demo_key /\
  exists s, turn takes (R_fevent 1 EVENT_READ) late = (Ok [], s) /\
    to_notify <$> handles s !! 1 = Some true.
Proof.
  split; [vm_compute; reflexivity |].
  assert ((turn takes (R_fevent 1 EVENT_READ) late).1 = Ok []) as H1 by (vm_compute; reflexivity).
  assert (to_notify <$> handles (turn takes (R_fevent 1 EVENT_READ) late).2 !! 1 = Some true) as H2 by (vm_compute; reflexivity).
  destruct (turn takes (R_fevent 1 EVENT_READ) late) as [o s]. cbn in *. exists s. by rewrite H1.
Qed.

(** A resize that is written while a display is in charge and no terminal is
    open ends the daemon. *)
Lemma resize_without_terminal_panics :
  (s ← play (all [R_open "producer"; R_open "handle/display/vesa"]) (-1) InputScheme_new;
   Some (turn takes (R_write 0 [x02; x50; x18; x00]) s).1) = Some Panic.
Proof. vm_compute. reflexivity. Qed.

(** When the display in charge is closed, no other display is put in charge: a
    display that is opened early after it is never told of the active terminal
    changing. *)
Lemma closed_display_stays_in_charge :
  (s ← play (all [R_open "handle/display/vesa"; R_open "consumer"; R_close 0; R_open "handle_early/display/bga"]) (-1) InputScheme_new;
   Some (display s)) = Some (Some "display.vesa"%string).
Proof. vm_compute. reflexivity. Qed.
