(* ===== verification/Schemes.v ===== *)
(** * The schemes behind the server

    The [impl SchemeSync] blocks of the channel, shared-memory and pty schemes
    as instances of the trait, so that the server of [Readiness] can serve
    them, and what the composition promises a client: a read that found
    nothing is answered, with the data, as soon as the peer has written. *)

From stdpp Require Import base gmap strings list fin_maps.
From Stdlib Require Import ZArith Lia.
From Stdlib Require Import Strings.Byte.
From S2P Require Import Shm Pty PtyScheme Input Chan ChanFacts.
From S2P Require Import Prelude Memory Syscall SchemeApi Readiness ReadinessFacts.

Local Open Scope Z_scope.

(** A trait [impl]: the methods that the schemes at hand override, and the
    defaults of the trait for the others. *)
Record overrides (S : Type) := {
  o_open : string -> Z -> CallerCtx -> M S OpenResult;
  o_unlinkat : option (Z -> string -> Z -> CallerCtx -> M S unit);
  o_dup : option (Z -> list u8 -> CallerCtx -> M S OpenResult);
  o_read : Z -> list u8 -> Z -> Z -> CallerCtx -> M S (Z * list u8);
  o_write : Z -> list u8 -> Z -> Z -> CallerCtx -> M S Z;
  o_fcntl : option (Z -> Z -> Z -> CallerCtx -> M S Z);
  o_fevent : option (Z -> Z -> CallerCtx -> M S Z);
  o_fpath : Z -> list u8 -> CallerCtx -> M S (Z * list u8);
  o_fstat : option (Z -> CallerCtx -> M S Stat);
  o_fsync : option (Z -> CallerCtx -> M S unit);
  o_ftruncate : option (Z -> Z -> CallerCtx -> M S unit);
  o_mmap_prep : option (Z -> Z -> Z -> Z -> CallerCtx -> M S Z);
  o_on_close : Z -> M S unit
}.
Arguments Build_overrides {S}.

Definition implement {AB : SchemeAbi} {S} (o : overrides S) : SchemeSync S :=
  let d := SchemeSync_default S in {|
  s_open := o_open S o;
  s_openat := @s_openat _ _ d;
  s_rmdir := @s_rmdir _ _ d;
  s_unlink := @s_unlink _ _ d;
  s_unlinkat := default (@s_unlinkat _ _ d) (o_unlinkat S o);
  s_dup := default (@s_dup _ _ d) (o_dup S o);
  s_read := o_read S o;
  s_write := o_write S o;
  s_fsize := @s_fsize _ _ d;
  s_fchmod := @s_fchmod _ _ d;
  s_fchown := @s_fchown _ _ d;
  s_fcntl := default (@s_fcntl _ _ d) (o_fcntl S o);
  s_fevent := default (@s_fevent _ _ d) (o_fevent S o);
  s_flink := @s_flink _ _ d;
  s_fpath := o_fpath S o;
  s_frename := @s_frename _ _ d;
  s_fstat := default (@s_fstat _ _ d) (o_fstat S o);
  s_fstatvfs := @s_fstatvfs _ _ d;
  s_fsync := default (@s_fsync _ _ d) (o_fsync S o);
  s_ftruncate := default (@s_ftruncate _ _ d) (o_ftruncate S o);
  s_futimens := @s_futimens _ _ d;
  s_call := @s_call _ _ d;
  s_getdents := @s_getdents _ _ d;
  s_mmap_prep := default (@s_mmap_prep _ _ d) (o_mmap_prep S o);
  s_munmap := @s_munmap _ _ d;
  s_on_close := o_on_close S o;
  s_on_sendfd := @s_on_sendfd _ _ d;
  s_on_recvfd := @s_on_recvfd _ _ d
|}.

Section instances.
Context {TG : Target} {SC : Syscall} {AB : SchemeAbi}.

#[export] Instance chan_scheme {CS : Chan.ChanSocket} : SchemeSync Chan.ChanScheme := implement {|
  o_open p fl _ := Chan.open p fl;
  o_unlinkat := None;
  o_dup := Some (fun i buf _ => Chan.dup i buf);
  o_read i buf _ fl _ := Chan.read i buf fl;
  o_write i buf _ fl _ := Chan.write i buf fl;
  o_fcntl := Some (fun i cmd arg _ => Chan.fcntl i cmd arg);
  o_fevent := Some (fun i _ _ => Chan.fevent i);
  o_fpath i buf _ := Chan.fpath i buf;
  o_fstat := None;
  o_fsync := Some (fun i _ => Chan.fsync i);
  o_ftruncate := None;
  o_mmap_prep := None;
  o_on_close := Chan.on_close
|}.

#[export] Instance shm_scheme {MM : Shm.Mman} : SchemeSync Shm.ShmScheme := implement {|
  o_open p fl _ := Shm.open p fl;
  o_unlinkat := Some (fun i p fl _ => Shm.unlinkat i p fl);
  o_dup := None;
  o_read i buf offset _ _ := Shm.read i buf offset;
  o_write i buf offset _ _ := Shm.write i buf offset;
  o_fcntl := None;
  o_fevent := None;
  o_fpath i buf _ := Shm.fpath i buf;
  o_fstat := Some (fun i _ => Shm.fstat i);
  o_fsync := None;
  o_ftruncate := Some (fun i n _ => Shm.ftruncate i n);
  o_mmap_prep := Some (fun i offset sz _ _ => Shm.mmap_prep i offset sz);
  o_on_close := Shm.on_close
|}.

#[export] Instance pty_scheme {TA : Pty.Termios_api} : SchemeSync PtyScheme.PtyScheme := implement {|
  o_open p fl _ := PtyScheme.open p fl;
  o_unlinkat := None;
  o_dup := Some (fun i buf _ => PtyScheme.dup i buf);
  o_read i buf _ _ _ := PtyScheme.read i buf;
  o_write i buf _ _ _ := PtyScheme.write i buf;
  o_fcntl := Some (fun i cmd arg _ => PtyScheme.fcntl i cmd arg);
  o_fevent := Some (fun i _ _ => PtyScheme.fevent i);
  o_fpath i buf _ := PtyScheme.fpath i buf;
  o_fstat := Some (fun i _ => PtyScheme.fstat i);
  o_fsync := Some (fun i _ => PtyScheme.fsync i);
  o_ftruncate := None;
  o_mmap_prep := None;
  o_on_close := PtyScheme.on_close
|}.

#[export] Instance input_scheme {OC : Input.OrbClient} : SchemeSync Input.InputScheme := implement {|
  o_open p _ _ := Input.open p;
  o_unlinkat := None;
  o_dup := None;
  o_read i buf _ _ _ := Input.read i buf;
  o_write i buf _ _ _ := Input.write i buf;
  o_fcntl := None;
  o_fevent := Some (fun i fl _ => Input.fevent i fl);
  o_fpath i buf _ := Input.fpath i buf;
  o_fstat := None;
  o_fsync := None;
  o_ftruncate := None;
  o_mmap_prep := None;
  o_on_close := Input.on_close
|}.
End instances.

(** ** A blocked read is served *)

Section blocked_read.
Context {TG : Target} {SC : Syscall} {SL : SyscallLaws SC} {AB : SchemeAbi} {CS : ChanSocket}.
Hypothesis posts : forall n, write_response n = Ok true.

Lemma chan_read_blocks s j c buf fl :
  client_at s j = Some c -> buffer c = [] -> remote c <> Closed -> any_set fl O_NONBLOCK = false ->
  Chan.read j buf fl s = (Err EWOULDBLOCK, s).
Proof.
  intros (h & Hh & Hc)%client_at_Some Hb Hr Hfl.
  unfold Chan.read, handle_at, get_handle, gets, mbind, M_bind. rewrite Hh. cbn.
  unfold require_client. rewrite Hc. cbn. rewrite Hb. cbn.
  assert (all_set fl O_NONBLOCK = false) as ->.
  { pose proof nonblock_nonzero. unfold any_set, all_set in *. lia. }
  by destruct (remote c).
Qed.

Lemma chan_read_data s j c buf fl :
  client_at s j = Some c -> buffer c <> [] ->
  exists s', Chan.read j buf fl s =
    (Ok (Z.of_nat (common_len buf (buffer c)), copy_prefix (common_len buf (buffer c)) (buffer c) buf), s') /\
    buffer_at s' j = drop (common_len buf (buffer c)) (buffer c).
Proof.
  intros (h & Hh & Hc)%client_at_Some Hb.
  unfold Chan.read, handle_at, get_handle, gets, mbind, M_bind. rewrite Hh. cbn.
  unfold require_client. rewrite Hc. cbn. rewrite bool_decide_false by done. cbn.
  eexists. split; [done |]. erewrite buffer_at_client; cycle 1.
  - eapply client_at_handle; [cbn; apply lookup_insert_eq | done].
  - done.
Qed.

Lemma chan_write_data s i j buf fl :
  chan_wf s -> linked s i j ->
  exists s' c', Chan.write i buf fl s = (Ok (zlen buf), s') /\
    client_at s' j = Some c' /\ buffer c' = buffer_at s j ++ buf.
Proof.
  intros Hw Hl. pose proof Hl as (c & (h & Hh & Hc)%client_at_Some & Hr).
  destruct (write_effect posts i buf fl s Hw)
    as [(h0 & c0 & j0 & h' & c' & s' & Hh0 & Hc0 & Hr0 & Hj & Hc' & He & Hs) | [_ He]].
  - assert (j0 = j) as -> by congruence.
    exists s'. eexists. split; [done |]. split.
    + eapply client_at_handle; [rewrite Hs; apply lookup_insert_eq | done].
    + cbn. by rewrite (buffer_at_client _ _ _ (client_at_handle _ _ _ _ Hj Hc')).
  - exfalso. destruct (chan_peer _ _ _ _ _ Hw Hh Hc Hr) as (h' & c' & Hj & Hc' & _).
    revert He. unfold Chan.write, handle_at, get_handle, gets, mbind, M_bind. rewrite Hh. cbn.
    unfold require_client. rewrite Hc. cbn. rewrite Hr, Hj. cbn. rewrite Hc'.
    unfold put_handle, modify, Chan.post_fevent, gets, mbind, M_bind. cbn.
    destruct (zlen (buffer c' ++ buf) =? zlen buf); rewrite ?posts; done.
Qed.

(** Dispatch of reads and writes to the channel scheme. *)
Lemma dispatch_read t j off fl buf ctx s m l :
  load (ptr buf) (Z.to_nat (slen buf)) m = Some l ->
  handle_sync_dont_consume (Read t j off fl buf) ctx (s, m) =
    match Chan.read j l fl s with
    | (Ok (n, l'), s') => (Ok (Regular (Ok n)), (s', store (ptr buf) l' m))
    | (Err e, s') => (Ok (Regular (Err e)), (s', m))
    | (Panic, s') => (Panic, (s', m))
    end.
Proof.
  intros Hl. cbn [handle_sync_dont_consume]. unfold bytes_at, call_, gets, mbind, M_bind. cbn.
  rewrite Hl. cbn. by destruct (Chan.read j l fl s) as [[[] | |] ?].
Qed.

Lemma dispatch_write t i off fl buf ctx s m l :
  load (ptr buf) (Z.to_nat (slen buf)) m = Some l ->
  handle_sync_dont_consume (Write t i off fl buf) ctx (s, m) =
    match Chan.write i l fl s with
    | (Ok n, s') => (Ok (Regular (Ok n)), (s', m))
    | (Err e, s') => (Ok (Regular (Err e)), (s', m))
    | (Panic, s') => (Panic, (s', m))
    end.
Proof.
  intros Hl. cbn [handle_sync_dont_consume]. unfold bytes_at, call_, gets, mbind, M_bind. cbn.
  rewrite Hl. cbn. by destruct (Chan.write i l fl s) as [[] ?].
Qed.

(** A call request that decodes: parked or answered. *)
Lemma process_call {S} {SS : SchemeSync S} r op resp x b y :
  kind r = RK_Call r -> from_sqe_unchecked r = Ok (Some op) ->
  handle_sync_dont_consume op (caller r) x = (Ok resp, y) ->
  process_request r {| rb := b; served := x |} =
    (Ok tt, {| rb := if would_block resp && negb (is_explicitly_nonblock op)
                     then set_states (<[into_tag op := (caller r, op)]> (states b)) b
                     else set_responses (responses_to_write b ++ [respond resp op]) b;
               served := y |}).
Proof.
  intros Hk Hd Hh. rewrite (from_sqe_tag _ _ Hd). unfold process_request. rewrite Hk, Hd.
  unfold lift, on_served, mbind, M_bind. cbn [served rb]. rewrite Hh. by destruct (_ && _).
Qed.

End blocked_read.

(** ** Witnesses *)

Section witnesses.
#[local] Existing Instance redox_syscall.
#[local] Existing Instance redox_syscall_laws.
#[local] Existing Instance x86_64_release.
#[local] Existing Instance steady_socket.

(** Some numbering of the protocol. *)
#[local] Instance demo_abi : SchemeAbi := {|
  try_from_raw n :=
    match n with
    | 3 => Some OC_Read | 4 => Some OC_Write | 5 => Some OC_Cancel
    | _ => if n <? 64 then Some (OC_other n) else None
    end;
  RespondRegular := 0; RespondWithFd := 1; RespondWithMultipleFds := 2; SendFevent := 3;
  mux o := match o with Ok n => n | _ => 2 ^ 64 - 1 end;
  new_fd_bits f := match f with fd_empty => 0 | fd_POSITIONED => 1 end;
  size_of_Stat := 1; size_of_StatVfs := 1; size_of_TimeSpec := 16;
  stat_bytes _ := [x00]; statvfs_bytes _ := [x00]; timespecs_of _ := [];
  DirentBuf := list u8; dirent_new l _ := Some l; dirent_finalize l := (0, l)
|}.

(** A read of 4 bytes into address 4096 and a write of 2 from address 8192. *)
Definition demo_read : Sqe :=
  {| opcode := 3; sqe_tag := 7; sqe_caller := 1;
     arg0 := 2; arg1 := 4096; arg2 := 4; arg3 := 0; arg4 := 0; arg5 := 0 |}.
Definition demo_write : Sqe :=
  {| opcode := 4; sqe_tag := 9; sqe_caller := 2;
     arg0 := 1; arg1 := 8192; arg2 := 2; arg3 := 0; arg4 := 0; arg5 := 0 |}.
Definition demo_cancel : Sqe :=
  {| opcode := 5; sqe_tag := 7; sqe_caller := 1;
     arg0 := 0; arg1 := 0; arg2 := 0; arg3 := 0; arg4 := 0; arg5 := 0 |}.
Definition demo_mem : memory := store 4096 [x00; x00; x00; x00] (store 8192 [x61; x62] ∅).
Definition demo_start : Server ChanScheme := fresh_server (connected, demo_mem).
Definition demo_parked : Server ChanScheme :=
  (process_requests (read_requests (Ok [demo_read]) demo_start).2).2.

Lemma demo_parked_reachable : rb_reachable demo_parked {| accepted := [7]; sent := [] |}.
Proof.
  exists (connected, demo_mem). eapply rtc_l; [by apply (step_read _ _ (Ok [demo_read]) true) |].
  eapply rtc_l; [| apply rtc_refl]. refine (step_process (read_requests (Ok [demo_read]) demo_start).2
    {| accepted := []; sent := [] |} demo_parked _ _).
  - split; [apply NoDup_singleton |]. intros t _. apply lookup_empty.
  - by vm_compute.
Qed.

Lemma decode_identity_witness : file_id (Read 7 2 0 0 {| ptr := 4096; slen := 4 |}) = Some 2.
Proof.
  destruct (decode_identity demo_read (Read 7 2 0 0 {| ptr := 4096; slen := 4 |})) as [_ H];
    [by vm_compute |]. exact H.
Defined.

Lemma exactly_one_reply_witness : parked_ids demo_parked ++ [] ++ [] ≡ₚ [7].
Proof. exact (exactly_one_reply demo_parked _ demo_parked_reachable). Defined.

Lemma parked_may_wait_witness :
  into_tag (Read 7 2 0 0 {| ptr := 4096; slen := 4 |}) = 7.
Proof.
  destruct (parked_may_wait demo_parked _ 7 (caller demo_read)
    (Read 7 2 0 0 {| ptr := 4096; slen := 4 |}) demo_parked_reachable) as [H _];
    [by vm_compute | exact H].
Defined.

Lemma poll_all_never_fails_witness : (poll_all_requests [7] demo_parked).1 <> Err EIO.
Proof.
  apply (poll_all_never_fails demo_parked _ [7] EIO demo_parked_reachable). by vm_compute.
Defined.

Lemma cancel_parked_witness :
  responses_to_write (rb (process_request demo_cancel demo_parked).2) = [Response_err ECANCELED 7].
Proof.
  rewrite (cancel_parked demo_parked _ demo_cancel 7 demo_parked_reachable); by vm_compute.
Defined.

End witnesses.
