(* ===== verification/SmallDaemons.v ===== *)
(** * The small daemons: zerod, randd and audiod

    The loop that the simplest daemons share ([zerod/src/main.rs],
    [randd/src/main.rs], the scheme events of [drivers/input/ps2d/src/main.rs]),
    the schemes [zero] and [null] ([zerod/src/scheme.rs]), the scheme [rand]
    ([randd/src/main.rs]) and the scheme [audio] ([audiod/src/scheme.rs]).  The
    generator and the hash of randd are crates outside the repository and are
    parameters; so is the precision of [f32::powi]. *)

From stdpp Require Import base gmap strings list fin_maps sorting pretty.
From Stdlib Require Import ZArith Lia.
From Stdlib Require Import Strings.Byte.
From Stdlib Require Import Floats.SpecFloat.
From S2P Require Schemes.
From S2P Require Import Prelude Memory Syscall SchemeApi.

Local Open Scope Z_scope.

(** ** The loop *)

Section loop.
Context {TG : Target} {SC : Syscall} {AB : SchemeAbi} {S : Type} {SS : SchemeSync S}.

(** A turn of the loop: a request, and the response that is written. *)
Definition turn (request : Request) : M (S * memory) (option Response) :=
  match kind request with
  | RK_Call call => response ← call_handle_sync call; mret (Some response)
  | RK_OnClose i => zoom fst (fun s x => (s, x.2)) (s_on_close i);; mret None
  | _ => mret None
  end.
End loop.

(** ** zerod *)

Module Zerod.
Inductive Ty := Null | Zero.
(** [ZeroScheme(pub Ty)] *)
Abbreviation ZeroScheme := Ty.

Section zero.
Context {SC : Syscall}.

Definition open (path : string) (flags : Z) (ctx : CallerCtx) : M ZeroScheme OpenResult := mret (ThisScheme 0 fd_empty).

Definition read (file : Z) (buf : list u8) (offset flags : Z) (ctx : CallerCtx) : M ZeroScheme (Z * list u8) :=
  ty ← gets id;
  match ty with
  | Null => mret (0, buf)
  | Zero => mret (zlen buf, replicate (length buf) x00)
  end.

Definition write (file : Z) (buffer : list u8) (offset flags : Z) (ctx : CallerCtx) : M ZeroScheme Z := mret (zlen buffer).
Definition fcntl (fd cmd arg : Z) (ctx : CallerCtx) : M ZeroScheme Z := mret 0.
Definition fsize (fd : Z) (ctx : CallerCtx) : M ZeroScheme Z := mret 0.
Definition ftruncate (fd len : Z) (ctx : CallerCtx) : M ZeroScheme unit := mret tt.

Definition fpath (fd : Z) (buf : list u8) (ctx : CallerCtx) : M ZeroScheme (Z * list u8) :=
  let scheme_path := as_bytes "zero:" in
  let size := (length buf `min` length scheme_path)%nat in
  mret (Z.of_nat size, copy_prefix size scheme_path buf).

Definition fsync (file : Z) (ctx : CallerCtx) : M ZeroScheme unit := mret tt.
Definition on_close (file : Z) : M ZeroScheme unit := mret tt.

(** [stat] is the buffer of the caller, of which some fields are set; 0x1B6 is 0o666. *)
Definition fstat (fd : Z) (stat : Stat) (ctx : CallerCtx) : M ZeroScheme Stat :=
  mret {| st_mode := Z.lor 0x1B6 MODE_CHR; st_uid := st_uid stat; st_gid := st_gid stat; st_ino := st_ino stat; st_nlink := 1;
          st_dev := st_dev stat; st_size := 0; st_blksize := 4096; st_blocks := 0; st_atime := st_atime stat;
          st_atime_nsec := st_atime_nsec stat; st_ctime := st_ctime stat; st_ctime_nsec := st_ctime_nsec stat;
          st_mtime := st_mtime stat; st_mtime_nsec := st_mtime_nsec stat |}.
End zero.
End Zerod.

(** ** randd *)

(** The crates [rand_chacha], [rand_core] and [sha2]: a generator, what [from_seed], [set_stream] and [fill_bytes] do, and
    the hash. *)
Class Rng := {
  ChaCha20Rng : Type;
  from_seed : list u8 -> ChaCha20Rng;
  set_stream : Z -> ChaCha20Rng -> ChaCha20Rng;
  fill_bytes : nat -> ChaCha20Rng -> list u8 * ChaCha20Rng;
  Sha256 : list u8 -> list u8
}.
Class RngLaws (R : Rng) : Prop := {
  fill_bytes_length n g : length (fill_bytes n g).1 = n;
  Sha256_length l : length (Sha256 l) = 32%nat
}.

Module Randd.
Definition MODE_WRITE : Z := 2.
Definition MODE_READ : Z := 4.
(** 0o644 *)
Definition DEFAULT_PRNG_MODE : Z := 0x1A4.
Definition SEED_BYTES : nat := 32.

Record OpenFileInfo := { o_flags : Z; uid : Z; gid : Z; file_stat : Stat }.

(** [OpenFileInfo::permission] *)
Definition permission (f : OpenFileInfo) (op : Z) : bool :=
  let perm := Z.land (st_mode (file_stat f)) 7 in
  let perm := if uid f =? st_uid (file_stat f) then Z.lor perm (Z.land (Z.shiftr (st_mode (file_stat f)) 6) 7) else perm in
  let perm := if (gid f =? st_gid (file_stat f)) || (st_gid (file_stat f) =? 0)
              then Z.lor perm (Z.land (Z.shiftr (st_mode (file_stat f)) 3) 7) else perm in
  let perm := if uid f =? 0 then Z.lor perm 7 else perm in
  Z.land perm op =? op.

(** [OpenFileInfo::o_flag_set] *)
Definition o_flag_set (f : OpenFileInfo) (flag : Z) : bool := Z.land flag (o_flags f) =? flag.

Section seed.
Context {R : Rng}.

(** [create_rdrand_seed] on x86_64: [rdrand] is what the instruction leaves in its register, time after time. *)
Definition create_rdrand_seed (has_rdrand : bool) (rdrand : nat -> Z) : list u8 :=
  let rng := replicate SEED_BYTES x00 in
  if has_rdrand
  then foldl (fun rng i => splice (i * 8) (le_bytes 8 (rdrand i)) rng) rng (seq 0 (SEED_BYTES / 8))
  else rng.

(** The same on aarch64: [cntvct] is what the counter shows, time after time. *)
Definition create_counter_seed (cntvct : nat -> Z) : list u8 :=
  let samples := concat ((fun round => le_bytes 8 (cntvct round) ++ le_bytes 8 (Z.of_nat round)) <$> seq 0 64) in
  Sha256 (samples ++ le_bytes 8 (cntvct 64%nat)).
End seed.

Section rand.
Context {TG : Target} {SC : Syscall} {R : Rng}.

Record RandScheme := {
  prng : ChaCha20Rng; prng_stat : Stat; open_descriptors : gmap Z OpenFileInfo; next_fd : Z
}.
Definition set_prng x s :=
  {| prng := x; prng_stat := prng_stat s; open_descriptors := open_descriptors s; next_fd := next_fd s |}.
Definition set_prng_stat x s :=
  {| prng := prng s; prng_stat := x; open_descriptors := open_descriptors s; next_fd := next_fd s |}.
Definition set_open_descriptors x s :=
  {| prng := prng s; prng_stat := prng_stat s; open_descriptors := x; next_fd := next_fd s |}.
Definition set_next_fd x s :=
  {| prng := prng s; prng_stat := prng_stat s; open_descriptors := open_descriptors s; next_fd := x |}.

Definition with_owner (mode uid gid : Z) (st : Stat) : Stat :=
  {| st_mode := mode; st_uid := uid; st_gid := gid; st_ino := st_ino st; st_nlink := st_nlink st; st_dev := st_dev st;
     st_size := st_size st; st_blksize := st_blksize st; st_blocks := st_blocks st; st_atime := st_atime st;
     st_atime_nsec := st_atime_nsec st; st_ctime := st_ctime st; st_ctime_nsec := st_ctime_nsec st;
     st_mtime := st_mtime st; st_mtime_nsec := st_mtime_nsec st |}.

Definition RandScheme_new (seed : list u8) : RandScheme :=
  {| prng := from_seed seed; prng_stat := with_owner (Z.lor MODE_CHR DEFAULT_PRNG_MODE) 0 0 Stat_default;
     open_descriptors := ∅; next_fd := 0 |}.

Definition get_fd (fd : Z) : M RandScheme OpenFileInfo := m ← gets open_descriptors; ok_or EBADF (m !! fd).

Definition can_perform_op_on_fd (fd op : Z) : M RandScheme OpenFileInfo :=
  file_info ← get_fd fd;
  fail_if (negb (permission file_info op)) EPERM;;
  mret file_info.

(** [entropy_array.copy_from_slice] panics unless the lengths agree. *)
Definition reseed_prng (entropy : list u8) : M RandScheme unit :=
  let hash := Sha256 entropy in
  if (length hash =? SEED_BYTES)%nat then modify (set_prng (from_seed hash)) else panic.

(** The loop at the end of [open]: the next descriptor from [fd] on that is not open.  It needs a turn more than there are
    descriptors. *)
Fixpoint free_fd (fuel : nat) (m : gmap Z OpenFileInfo) (fd : Z) : option Z :=
  match fuel with
  | O => None
  | Datatypes.S fuel =>
      match m !! fd with
      | None => Some fd
      | Some _ => free_fd fuel m ((fd + 1) mod usize_mod)
      end
  end.

Definition open (path : string) (flags : Z) (ctx : CallerCtx) : M RandScheme OpenResult :=
  if negb (bool_decide (path = ""%string)) && negb (bool_decide (path = "/urandom"%string)) then throw ENOENT
  else if Z.land flags (Z.lor O_CREAT O_EXCL) =? Z.lor O_CREAT O_EXCL then throw EEXIST
  else
    fd ← gets next_fd;
    st ← gets prng_stat;
    let open_file_info := {| o_flags := flags; file_stat := st; uid := ctx_uid ctx; gid := ctx_gid ctx |} in
    fail_if ((o_flag_set open_file_info O_RDONLY || o_flag_set open_file_info O_RDWR)
             && negb (permission open_file_info MODE_READ)) EPERM;;
    fail_if ((o_flag_set open_file_info O_WRONLY || o_flag_set open_file_info O_RDWR)
             && negb (permission open_file_info MODE_WRITE)) EPERM;;
    modify (fun s => set_open_descriptors (<[fd := open_file_info]> (open_descriptors s)) s);;
    m ← gets open_descriptors;
    n ← unwrap (free_fd (Datatypes.S (size m)) m ((fd + 1) mod usize_mod));
    modify (set_next_fd n);;
    mret (ThisScheme fd fd_empty).

Definition read (file : Z) (buf : list u8) (offset flags : Z) (ctx : CallerCtx) : M RandScheme (Z * list u8) :=
  can_perform_op_on_fd file MODE_READ;;
  modify (fun s => set_prng (set_stream file (prng s)) s);;
  g ← gets prng;
  let '(bytes, g) := fill_bytes (length buf) g in
  modify (set_prng g);;
  mret (zlen buf, bytes).

Definition write (file : Z) (buf : list u8) (offset flags : Z) (ctx : CallerCtx) : M RandScheme Z :=
  can_perform_op_on_fd file MODE_WRITE;;
  g ← gets prng;
  let '(rng_buf, g) := fill_bytes SEED_BYTES g in
  modify (set_prng g);;
  reseed_prng (rng_buf ++ buf);;
  mret (zlen buf).

Definition fchmod (file mode : Z) (ctx : CallerCtx) : M RandScheme unit :=
  file_info ← get_fd file;
  fail_if (negb (uid file_info =? st_uid (file_stat file_info)) && negb (uid file_info =? 0)) EPERM;;
  modify (fun s => set_prng_stat (with_owner (Z.lor MODE_CHR mode) (st_uid (prng_stat s)) (st_gid (prng_stat s)) (prng_stat s)) s).

Definition fchown (file uid' gid' : Z) (ctx : CallerCtx) : M RandScheme unit :=
  file_info ← get_fd file;
  fail_if (negb (uid file_info =? st_uid (file_stat file_info)) && negb (uid file_info =? 0)) EPERM;;
  modify (fun s => set_prng_stat (with_owner (st_mode (prng_stat s)) uid' gid' (prng_stat s)) s).

Definition fcntl (fd cmd arg : Z) (ctx : CallerCtx) : M RandScheme Z := mret 0.
Definition fevent (fd flags : Z) (ctx : CallerCtx) : M RandScheme Z := mret EVENT_READ.

Definition fpath (file : Z) (buf : list u8) (ctx : CallerCtx) : M RandScheme (Z * list u8) :=
  let scheme_path := as_bytes "rand" in
  let i := (length buf `min` length scheme_path)%nat in
  mret (Z.of_nat i, copy_prefix i scheme_path buf).

Definition fstat (file : Z) (ctx : CallerCtx) : M RandScheme Stat :=
  can_perform_op_on_fd file MODE_READ;;
  gets prng_stat.

Definition on_close (file : Z) : M RandScheme unit :=
  modify (fun s => set_open_descriptors (delete file (open_descriptors s)) s).
End rand.
End Randd.

(** ** audiod *)

(** [f32::powi], whose precision the standard library leaves open. *)
Class Powi := { powi : spec_float -> Z -> spec_float }.

Module Audiod.
Definition HW_BUFFER_SIZE : nat := 512.
Definition HANDLE_BUFFER_SIZE : Z := 4096.

(** *** Single-precision numbers *)

(** [x as f32] of an integer *)
Definition f32_of (x : Z) : spec_float := binary_normalize 24 128 x 0 false.
(** [x / y] and [x * y] *)
Definition f32_div (x y : spec_float) : spec_float := SFdiv 24 128 x y.
Definition f32_mul (x y : spec_float) : spec_float := SFmul 24 128 x y.

Definition i16_MIN : Z := - 2 ^ 15.
Definition i16_MAX : Z := 2 ^ 15 - 1.
(** To the nearest [i16] *)
Definition saturate (x : Z) : Z := Z.max i16_MIN (Z.min i16_MAX x).

(** [x as i16]: towards zero, saturating; NaN is zero. *)
Definition f32_as_i16 (x : spec_float) : Z :=
  match x with
  | S754_zero _ | S754_nan => 0
  | S754_infinity s => if s then i16_MIN else i16_MAX
  | S754_finite s m e => let t := Z.shiftl (Zpos m) e in saturate (if s then - t else t)
  end.

(** [x.saturating_add(y)] on [i16] *)
Definition saturating_add (x y : Z) : Z := saturate (x + y).

(** *** The scheme *)

(** (i16, i16): left and right *)
Abbreviation sample := (Z * Z)%type.

Inductive Handle :=
| Audio (buffer : list sample)
| Volume.

Record AudioScheme := { next_id : Z; handles : gmap Z Handle; volume : Z }.
Definition set_next_id x s := {| next_id := x; handles := handles s; volume := volume s |}.
Definition set_handles x s := {| next_id := next_id s; handles := x; volume := volume s |}.
Definition set_volume x s := {| next_id := next_id s; handles := handles s; volume := x |}.

Definition AudioScheme_new : AudioScheme := {| next_id := 0; handles := ∅; volume := 50 |}.

Section audio.
Context {TG : Target} {SC : Syscall} {PW : Powi}.

(** [self.handles.iter_mut()] goes through them in this order. *)
Definition ids_in_order (s : AudioScheme) : list Z := merge_sort Z.le (map fst (map_to_list (handles s))).

Definition volume_factor (v : Z) : spec_float := powi (f32_div (f32_of v) (f32_of 100)) 3.
Definition scale (factor : spec_float) (x : Z) : Z := f32_as_i16 (f32_mul (f32_of x) factor).

(** The loop over the samples of one handle: the mix, and the samples left *)
Fixpoint mix_loop (factor : spec_float) (mix_buffer buffer : list sample) : list sample * list sample :=
  match mix_buffer, buffer with
  | m :: mix_buffer, x :: buffer =>
      let '(mixed, rest) := mix_loop factor mix_buffer buffer in
      ((saturating_add m.1 (scale factor x.1), saturating_add m.2 (scale factor x.2)) :: mixed, rest)
  | _, _ => (mix_buffer, buffer)
  end.

Definition mix_handle (factor : spec_float) (i : Z) (x : list sample * gmap Z Handle) : list sample * gmap Z Handle :=
  match x.2 !! i with
  | Some (Audio buffer) =>
      let '(mix_buffer, rest) := mix_loop factor x.1 buffer in (mix_buffer, <[i := Audio rest]> x.2)
  | _ => x
  end.

(** [AudioScheme::buffer] *)
Definition buffer : M AudioScheme (list sample) :=
  s ← gets id;
  let mix_buffer := replicate HW_BUFFER_SIZE (0, 0) in
  let '(mix_buffer, hs) :=
    foldl (fun x i => mix_handle (volume_factor (volume s)) i x) (mix_buffer, handles s) (ids_in_order s) in
  modify (set_handles hs);;
  mret mix_buffer.

Definition open (path : string) (flags : Z) (ctx : CallerCtx) : M AudioScheme OpenResult :=
  '(handle, fl) ←
    (if bool_decide (trim_matches slash path = ""%string) then mret (Audio [], fd_empty)
     else if bool_decide (trim_matches slash path = "volume"%string) then mret (Volume, fd_POSITIONED)
     else throw ENOENT);
  i ← gets next_id;
  next ← usize_add i 1;
  modify (set_next_id next);;
  modify (fun s => set_handles (<[i := handle]> (handles s)) s);;
  mret (ThisScheme i fl).

Definition handle_at (i : Z) : M AudioScheme Handle := hs ← gets handles; ok_or EBADF (hs !! i).

Definition read (i : Z) (buf : list u8) (off flags : Z) (ctx : CallerCtx) : M AudioScheme (Z * list u8) :=
  handle ← handle_at i;
  match handle with
  | Audio _ => throw EBADF
  | Volume =>
      match usize_try_from off with
      | None => mret (0, buf)
      | Some off =>
          v ← gets volume;
          let src := drop (Z.to_nat off) (as_bytes (pretty v)) in
          let len := common_len buf src in
          mret (Z.of_nat len, copy_prefix len src buf)
      end
  end.

(** [(lo as i16) | ((hi as i16) << 8)] *)
Definition i16_of (lo hi : u8) : Z :=
  let x := Z_of_byte lo + 256 * Z_of_byte hi in if x <? 2 ^ 15 then x else x - 2 ^ 16.

(** The samples that the loop of a write takes from [buf] *)
Fixpoint samples_of (buf : list u8) : list sample :=
  match buf with
  | a :: b :: c :: d :: buf => (i16_of a b, i16_of c d) :: samples_of buf
  | _ => []
  end.

Definition write (i : Z) (buf : list u8) (offset flags : Z) (ctx : CallerCtx) : M AudioScheme Z :=
  handle ← handle_at i;
  match handle with
  | Audio buffer =>
      if HANDLE_BUFFER_SIZE <=? zlen buffer then throw EWOULDBLOCK
      else
        modify (fun s => set_handles (<[i := Audio (buffer ++ samples_of buf)]> (handles s)) s);;
        mret (4 * zlen (samples_of buf))
  | Volume =>
      if offset =? 0 then
        str ← ok_or EINVAL (from_utf8 buf);
        value ← ok_or EINVAL (parse_signed (2 ^ 31) (trim str));
        if (0 <=? value) && (value <=? 100) then modify (set_volume value);; mret (zlen buf)
        else throw EINVAL
      else mret 0
  end.
End audio.
End Audiod.

(** ** The trait *)

Section instances.
Context {TG : Target} {SC : Syscall} {AB : SchemeAbi}.

(** The methods that an [impl] overrides replace the defaults; [fstat] finds a cleared buffer. *)
#[export] Instance zero_scheme : SchemeSync Zerod.ZeroScheme :=
  let d := SchemeSync_default Zerod.ZeroScheme in {|
  s_open := Zerod.open; s_openat := @s_openat _ _ d; s_rmdir := @s_rmdir _ _ d; s_unlink := @s_unlink _ _ d;
  s_unlinkat := @s_unlinkat _ _ d; s_dup := @s_dup _ _ d; s_read := Zerod.read; s_write := Zerod.write;
  s_fsize := Zerod.fsize; s_fchmod := @s_fchmod _ _ d; s_fchown := @s_fchown _ _ d; s_fcntl := Zerod.fcntl;
  s_fevent := @s_fevent _ _ d; s_flink := @s_flink _ _ d; s_fpath := Zerod.fpath; s_frename := @s_frename _ _ d;
  s_fstat i := Zerod.fstat i Stat_default; s_fstatvfs := @s_fstatvfs _ _ d; s_fsync := Zerod.fsync;
  s_ftruncate := Zerod.ftruncate; s_futimens := @s_futimens _ _ d; s_call := @s_call _ _ d;
  s_getdents := @s_getdents _ _ d; s_mmap_prep := @s_mmap_prep _ _ d; s_munmap := @s_munmap _ _ d;
  s_on_close := Zerod.on_close; s_on_sendfd := @s_on_sendfd _ _ d; s_on_recvfd := @s_on_recvfd _ _ d |}.

#[export] Instance rand_scheme {R : Rng} : SchemeSync Randd.RandScheme :=
  let d := SchemeSync_default Randd.RandScheme in {|
  s_open := Randd.open; s_openat := @s_openat _ _ d; s_rmdir := @s_rmdir _ _ d; s_unlink := @s_unlink _ _ d;
  s_unlinkat := @s_unlinkat _ _ d; s_dup := @s_dup _ _ d; s_read := Randd.read; s_write := Randd.write;
  s_fsize := @s_fsize _ _ d; s_fchmod := Randd.fchmod; s_fchown := Randd.fchown; s_fcntl := Randd.fcntl;
  s_fevent := Randd.fevent; s_flink := @s_flink _ _ d; s_fpath := Randd.fpath; s_frename := @s_frename _ _ d;
  s_fstat := Randd.fstat; s_fstatvfs := @s_fstatvfs _ _ d; s_fsync := @s_fsync _ _ d;
  s_ftruncate := @s_ftruncate _ _ d; s_futimens := @s_futimens _ _ d; s_call := @s_call _ _ d;
  s_getdents := @s_getdents _ _ d; s_mmap_prep := @s_mmap_prep _ _ d; s_munmap := @s_munmap _ _ d;
  s_on_close := Randd.on_close; s_on_sendfd := @s_on_sendfd _ _ d; s_on_recvfd := @s_on_recvfd _ _ d |}.

#[export] Instance audio_scheme {PW : Powi} : SchemeSync Audiod.AudioScheme :=
  let d := SchemeSync_default Audiod.AudioScheme in {|
  s_open := Audiod.open; s_openat := @s_openat _ _ d; s_rmdir := @s_rmdir _ _ d; s_unlink := @s_unlink _ _ d;
  s_unlinkat := @s_unlinkat _ _ d; s_dup := @s_dup _ _ d; s_read := Audiod.read; s_write := Audiod.write;
  s_fsize := @s_fsize _ _ d; s_fchmod := @s_fchmod _ _ d; s_fchown := @s_fchown _ _ d; s_fcntl := @s_fcntl _ _ d;
  s_fevent := @s_fevent _ _ d; s_flink := @s_flink _ _ d; s_fpath := @s_fpath _ _ d; s_frename := @s_frename _ _ d;
  s_fstat := @s_fstat _ _ d; s_fstatvfs := @s_fstatvfs _ _ d; s_fsync := @s_fsync _ _ d;
  s_ftruncate := @s_ftruncate _ _ d; s_futimens := @s_futimens _ _ d; s_call := @s_call _ _ d;
  s_getdents := @s_getdents _ _ d; s_mmap_prep := @s_mmap_prep _ _ d; s_munmap := @s_munmap _ _ d;
  s_on_close := @s_on_close _ _ d; s_on_sendfd := @s_on_sendfd _ _ d; s_on_recvfd := @s_on_recvfd _ _ d |}.
End instances.

(** ** A turn runs one method *)

Section methods.
Context {TG : Target} {SC : Syscall} {AB : SchemeAbi} {S : Type} {SS : SchemeSync S}.
Variable P : S -> Prop.

(** Every method, started in [s], leaves a state with [P]. *)
Record methods_leave (s : S) : Prop := {
  ml_open p fl c : P (s_open p fl c s).2;
  ml_openat i p fl ff c : P (s_openat i p fl ff c s).2;
  ml_rmdir p c : P (s_rmdir p c s).2;
  ml_unlink p c : P (s_unlink p c s).2;
  ml_unlinkat i p fl c : P (s_unlinkat i p fl c s).2;
  ml_dup i l c : P (s_dup i l c s).2;
  ml_read i l off fl c : P (s_read i l off fl c s).2;
  ml_write i l off fl c : P (s_write i l off fl c s).2;
  ml_fsize i c : P (s_fsize i c s).2;
  ml_fchmod i m c : P (s_fchmod i m c s).2;
  ml_fchown i u g c : P (s_fchown i u g c s).2;
  ml_fcntl i cmd arg c : P (s_fcntl i cmd arg c s).2;
  ml_fevent i fl c : P (s_fevent i fl c s).2;
  ml_flink i p c : P (s_flink i p c s).2;
  ml_fpath i l c : P (s_fpath i l c s).2;
  ml_frename i p c : P (s_frename i p c s).2;
  ml_fstat i c : P (s_fstat i c s).2;
  ml_fstatvfs i c : P (s_fstatvfs i c s).2;
  ml_fsync i c : P (s_fsync i c s).2;
  ml_ftruncate i n c : P (s_ftruncate i n c s).2;
  ml_futimens i l c : P (s_futimens i l c s).2;
  ml_call i l md c : P (s_call i l md c s).2;
  ml_getdents i d off : P (s_getdents i d off s).2;
  ml_mmap_prep i off n fl c : P (s_mmap_prep i off n fl c s).2;
  ml_munmap i off n fl c : P (s_munmap i off n fl c s).2;
  ml_on_recvfd r : P (s_on_recvfd r s).2;
  ml_on_close i : P (s_on_close i s).2
}.

Abbreviation leaves := (fun _ x => P (fst x)).

Lemma call_leaves {A B} (m : M S A) (k : outcome A -> M (S * memory) B) x :
  P (m x.1).2 -> (forall r x', P x'.1 -> wp (k r) leaves x') -> wp (r ← call_ m; k r) leaves x.
Proof.
  destruct x as [s mem]. intros Hm Hk. apply wp_bind. unfold wp at 1, call_. cbn [fst snd] in *.
  destruct (m s) as [[a | e |] s']; cbn [fst snd] in *; [by apply Hk.. | done].
Qed.
Lemma bytes_leaves {B} sl (k : list u8 -> M (S * memory) B) x :
  P x.1 -> (forall l, wp (k l) leaves x) -> wp (l ← bytes_at sl; k l) leaves x.
Proof.
  intros HP Hk. apply wp_bind. unfold bytes_at. apply wp_bind, wp_gets, wp_unwrap; [intros l _; apply Hk | done].
Qed.
Lemma path_leaves {B} sl (k : string -> M (S * memory) B) x :
  P x.1 -> (forall p, wp (k p) leaves x) -> wp (p ← path_at sl; k p) leaves x.
Proof. intros HP Hk. apply wp_bind. unfold path_at, bytes_at. apply wp_bind, wp_bind, wp_gets, wp_unwrap; [intros l _; apply wp_ret, Hk | done]. Qed.
Lemma with_buf_leaves {B} a r (k : outcome Z -> M (S * memory) B) x :
  P x.1 -> (forall r' x', P x'.1 -> wp (k r') leaves x') -> wp (r' ← with_buf a r; k r') leaves x.
Proof.
  intros HP Hk. apply wp_bind. unfold with_buf. destruct r as [[n l] | e |]; [apply wp_bind, wp_modify, wp_ret | apply wp_ret..]; by apply Hk.
Qed.
Lemma with_payload_leaves {B} a r (k : outcome Z -> M (S * memory) B) x :
  P x.1 -> (forall r' x', P x'.1 -> wp (k r') leaves x') -> wp (r' ← with_payload a r; k r') leaves x.
Proof.
  intros HP Hk. apply wp_bind. unfold with_payload. destruct r as [[n l] | e |]; [apply wp_bind, wp_modify, wp_ret | apply wp_ret..]; by apply Hk.
Qed.

Lemma dispatch_leaves op ctx x : methods_leave x.1 -> P x.1 -> wp (handle_sync_dont_consume op ctx) leaves x.
Proof.
  intros [] HP. destruct op; cbn [handle_sync_dont_consume];
    repeat first [apply bytes_leaves; [done | intros ?] | apply path_leaves; [done | intros ?]].
  all: try (case_match; [| by apply wp_ret]).
  all: apply call_leaves; [done | intros r x' HP'].
  all: first [by apply wp_ret | apply with_buf_leaves; [done | intros ? ? ?]; by apply wp_ret
             | apply with_payload_leaves; [done | intros ? ? ?]; by apply wp_ret].
Qed.

Lemma turn_leaves r x : methods_leave x.1 -> P x.1 -> P (turn r x).2.1.
Proof.
  intros Hm HP. change (wp (turn r) leaves x). unfold turn. destruct (kind r); try by apply wp_ret.
  - apply wp_bind. eapply wp_mono with (Q := leaves); [intros [] ? ?; [by apply wp_ret | done..] |].
    unfold call_handle_sync. apply wp_bind, wp_lift. destruct (from_sqe_unchecked inner) as [[op |] | |]; [| by apply wp_ret | done..].
    unfold handle_sync. apply wp_bind. eapply wp_mono; [| by apply dispatch_leaves]. intros [resp | |] x' HP'; [| done..].
    by destruct resp; apply wp_ret.
  - apply wp_bind, wp_zoom. apply wp_intro. pose proof (ml_on_close _ Hm id) as H.
    destruct (s_on_close id x.1) as [[] s']; [by apply wp_ret | done..].
Qed.
End methods.

(** ** randd: who gets what *)

Module RanddFacts.
Import Randd.

(** The rights that the three groups of mode bits grant, and root's *)
Lemma permission_iff f k :
  0 <= k < 3 ->
  permission f (2 ^ k) = true <->
    Z.testbit (st_mode (file_stat f)) k = true \/
    (uid f = st_uid (file_stat f) /\ Z.testbit (st_mode (file_stat f)) (k + 6) = true) \/
    ((gid f = st_gid (file_stat f) \/ st_gid (file_stat f) = 0) /\ Z.testbit (st_mode (file_stat f)) (k + 3) = true) \/
    uid f = 0.
Proof.
  intros Hk. unfold permission. rewrite land_bit by lia.
  assert (Z.testbit 7 k = true) as H7. { assert (k = 0 \/ k = 1 \/ k = 2) as [-> | [-> | ->]] by lia; done. }
  destruct (Z.eqb_spec (uid f) (st_uid (file_stat f))), (Z.eqb_spec (gid f) (st_gid (file_stat f))),
    (Z.eqb_spec (st_gid (file_stat f)) 0), (Z.eqb_spec (uid f) 0); cbn [orb];
    rewrite ?Z.lor_spec, !Z.land_spec, ?H7, ?andb_true_r, ?Z.shiftr_spec, ?orb_true_iff by lia; naive_solver.
Qed.

Section facts.
Context {TG : Target} {SC : Syscall} {AB : SchemeAbi} {R : Rng}.
Implicit Types s : RandScheme.

(** The next descriptor is not in use. *)
Definition fd_free s : Prop := open_descriptors s !! next_fd s = None /\ 0 <= next_fd s < usize_mod.

Lemma free_fd_range f m fd n : 0 <= fd < usize_mod -> free_fd f m fd = Some n -> m !! n = None /\ 0 <= n < usize_mod.
Proof.
  revert fd. induction f as [| f IH]; intros fd Hfd; cbn; [done |]. destruct (m !! fd) eqn:E; [| by intros [= <-]].
  apply IH, Z.mod_pos_bound. pose proof usize_mod_ge. lia.
Qed.

Lemma free_fd_none f m fd k :
  free_fd f m fd = None -> 0 <= fd < usize_mod -> (k < f)%nat -> is_Some (m !! ((fd + Z.of_nat k) mod usize_mod)).
Proof.
  pose proof usize_mod_ge. revert fd k. induction f as [| f IH]; intros fd k; cbn [free_fd]; [lia |].
  destruct (m !! fd) as [x |] eqn:E; [| done]. intros Hf Hfd Hk. destruct k as [| k].
  - rewrite Z.add_0_r, Z.mod_small by lia. by rewrite E.
  - replace ((fd + Z.of_nat (Datatypes.S k)) mod usize_mod) with (((fd + 1) mod usize_mod + Z.of_nat k) mod usize_mod).
    + apply IH; [done | apply Z.mod_pos_bound; lia | lia].
    + rewrite Zplus_mod_idemp_l. f_equal. lia.
Qed.

(** The search for a descriptor ends within a turn more than there are descriptors. *)
Lemma free_fd_found m fd :
  0 <= fd < usize_mod -> Z.of_nat (size m) < usize_mod -> exists n, free_fd (Datatypes.S (size m)) m fd = Some n.
Proof.
  intros Hfd Hm. destruct (free_fd (Datatypes.S (size m)) m fd) as [n |] eqn:E; [by exists n |]. exfalso.
  set (l := (fun k => (fd + Z.of_nat k) mod usize_mod) <$> seq 0 (Datatypes.S (size m))).
  assert (NoDup l) as Hnd.
  { apply NoDup_fmap_2_strong; [| apply NoDup_seq]. intros a b Ha%elem_of_seq Hb%elem_of_seq Hab.
    rewrite !Z.mod_eq in Hab by lia.
    assert (- 1 < (fd + Z.of_nat a) / usize_mod - (fd + Z.of_nat b) / usize_mod < 1) as Hq by nia. nia. }
  assert (l ⊆ elements (dom m)) as Hsub.
  { intros x (k & -> & Hk)%list_elem_of_fmap. apply elem_of_elements, elem_of_dom. apply elem_of_seq in Hk. by apply (free_fd_none _ _ _ _ E); [| lia]. }
  apply (NoDup_submseteq _ _ Hnd), submseteq_length in Hsub.
  unfold l in Hsub. rewrite length_fmap, length_seq in Hsub. change (length (elements (dom m))) with (size (dom m)) in Hsub.
  rewrite size_dom in Hsub. lia.
Qed.

(** What the caller asked for, it may do. *)
Definition granted (f : OpenFileInfo) : Prop :=
  (o_flag_set f O_RDONLY || o_flag_set f O_RDWR = true -> permission f MODE_READ = true) /\
  (o_flag_set f O_WRONLY || o_flag_set f O_RDWR = true -> permission f MODE_WRITE = true).

Definition open_with (s : RandScheme) (P : OpenFileInfo -> Prop) : Prop :=
  exists fd f, open_descriptors s !! fd = Some f /\ P f.

(** How a request may change the scheme: the generator is used through a descriptor whose opener may read or write, mode and
    owner change through a descriptor of root or of the owner at its opening, and a descriptor is given out that is not in
    use, with what it asked for granted by the present mode and owner. *)
Record evolves s s' : Prop := {
  ev_prng : prng s' = prng s \/ open_with s (fun f => permission f MODE_READ = true \/ permission f MODE_WRITE = true);
  ev_stat : prng_stat s' = prng_stat s \/ open_with s (fun f => uid f = 0 \/ uid f = st_uid (file_stat f));
  ev_fds : open_descriptors s' = open_descriptors s \/
           (exists fd, open_descriptors s' = delete fd (open_descriptors s)) \/
           (exists f, open_descriptors s !! next_fd s = None /\ file_stat f = prng_stat s /\ granted f /\
                      open_descriptors s' = <[next_fd s := f]> (open_descriptors s));
  ev_free : fd_free s'
}.

Lemma rand_evolves_refl s : fd_free s -> evolves s s.
Proof. intros Hf. by split; [left | left | left |]. Qed.

(** There is memory for another descriptor. *)
Definition roomy s : Prop := Z.of_nat (size (open_descriptors s)) + 1 < usize_mod.

Lemma rand_open_wp s path flags ctx :
  fd_free s -> roomy s ->
  wp (open path flags ctx) (fun o s' => evolves s s' /\ o <> Panic /\
    forall r, o = Ok r -> r = ThisScheme (next_fd s) fd_empty /\ is_Some (open_descriptors s' !! next_fd s)) s.
Proof.
  intros Hf Hr. pose proof Hf as [Hnone Hrange]. pose proof usize_mod_ge. pose proof (rand_evolves_refl s Hf) as Hs. unfold open.
  destruct (_ && _); [by apply wp_throw |]. destruct (_ =? _); [by apply wp_throw |].
  apply wp_bind, wp_gets, wp_bind, wp_gets, wp_bind, wp_fail_if; [by intros _ | intros H1].
  apply wp_bind, wp_fail_if; [by intros _ | intros H2].
  apply wp_bind, wp_modify, wp_bind, wp_gets. cbn [open_descriptors set_open_descriptors].
  set (f := {| o_flags := flags; uid := ctx_uid ctx; gid := ctx_gid ctx; file_stat := prng_stat s |}) in *.
  set (m := <[next_fd s := f]> (open_descriptors s)).
  assert (0 <= (next_fd s + 1) mod usize_mod < usize_mod) as Hn by (apply Z.mod_pos_bound; lia).
  destruct (free_fd_found m _ Hn) as [n E]. { unfold m. rewrite map_size_insert_None by done. unfold roomy in Hr. lia. }
  rewrite E. apply wp_bind, wp_ret, wp_bind, wp_modify, wp_ret. cbn. split_and!; [| done |].
  - split; [by left | by left | right; right | by apply (free_fd_range _ _ _ _ Hn E)].
    exists f. split_and!; try done. unfold granted. clearbody f. split; intros Hg; rewrite Hg in *; [by apply negb_false_iff in H1 | by apply negb_false_iff in H2].
  - intros r [= <-]. split; [done |]. unfold m. by rewrite lookup_insert_eq.
Qed.

Lemma get_fd_wp fd (Q : outcome OpenFileInfo -> RandScheme -> Prop) s :
  (forall f, open_descriptors s !! fd = Some f -> Q (Ok f) s) -> Q (Err EBADF) s -> wp (get_fd fd) Q s.
Proof. intros H1 H2. unfold get_fd. by apply wp_bind, wp_gets, wp_ok_or. Qed.

Lemma can_perform_wp fd op (Q : outcome OpenFileInfo -> RandScheme -> Prop) s :
  (forall f, open_descriptors s !! fd = Some f -> permission f op = true -> Q (Ok f) s) -> (forall e, Q (Err e) s) ->
  wp (can_perform_op_on_fd fd op) Q s.
Proof.
  intros H1 H2. unfold can_perform_op_on_fd. apply wp_bind, get_fd_wp; [| done]. intros f Hf.
  apply wp_bind, wp_fail_if; [done |]. intros Hp%negb_false_iff. by apply wp_ret, H1.
Qed.

Lemma evolves_prng s s' fd f :
  fd_free s -> open_descriptors s !! fd = Some f -> permission f MODE_READ = true \/ permission f MODE_WRITE = true ->
  prng_stat s' = prng_stat s -> open_descriptors s' = open_descriptors s -> next_fd s' = next_fd s -> evolves s s'.
Proof.
  intros Hs Hf Hp E1 E2 E3. split; [right; by exists fd, f | by left | by left |]. unfold fd_free. by rewrite E2, E3.
Qed.

Lemma evolves_stat s fd f st :
  fd_free s -> open_descriptors s !! fd = Some f -> uid f = 0 \/ uid f = st_uid (file_stat f) -> evolves s (set_prng_stat st s).
Proof. intros Hs Hf Hp. split; [by left | right; by exists fd, f | by left | done]. Qed.

Lemma methods_evolve s : fd_free s -> roomy s -> methods_leave (evolves s) s.
Proof.
  intros Hs Hr. pose proof (rand_evolves_refl s Hs) as He. split; intros; try exact He.
  - by apply (rand_open_wp s p fl c Hs Hr).
  - change (wp (read i l off fl c) (fun _ => evolves s) s). unfold read. apply wp_bind, can_perform_wp; [| done]. intros f Hf Hp.
    apply wp_bind, wp_modify, wp_bind, wp_gets. destruct (fill_bytes _ _) as [bytes g]. apply wp_bind, wp_modify, wp_ret.
    eapply evolves_prng; eauto.
  - change (wp (write i l off fl c) (fun _ => evolves s) s). unfold write. apply wp_bind, can_perform_wp; [| done]. intros f Hf Hp.
    apply wp_bind, wp_gets. destruct (fill_bytes _ _) as [bytes g]. apply wp_bind, wp_modify, wp_bind. unfold reseed_prng.
    case_match; [apply wp_modify, wp_ret | apply wp_panic]; eapply evolves_prng; eauto.
  - change (wp (fchmod i m c) (fun _ => evolves s) s). unfold fchmod. apply wp_bind, get_fd_wp; [| done]. intros f Hf.
    apply wp_bind, wp_fail_if; [done |]. intros Hp. apply wp_modify. eapply evolves_stat; [done.. | lia].
  - change (wp (fchown i u g c) (fun _ => evolves s) s). unfold fchown. apply wp_bind, get_fd_wp; [| done]. intros f Hf.
    apply wp_bind, wp_fail_if; [done |]. intros Hp. apply wp_modify. eapply evolves_stat; [done.. | lia].
  - change (wp (fstat i c) (fun _ => evolves s) s). unfold fstat. apply wp_bind, can_perform_wp; [| done]. intros f _ _. by apply wp_gets.
  - cbn. split; [by left | by left | right; left; by exists i |]. destruct Hs as [H1 H2]. split; [| done]. cbn. by rewrite lookup_delete_None; right.
Qed.

(** A turn of the daemon, with any request *)
Definition rand_step s s' : Prop := roomy s /\ exists r mem, s' = (turn r (s, mem)).2.1.
Definition reachable s : Prop := exists seed, rtc rand_step (RandScheme_new seed) s.

Lemma turn_evolves s r mem : fd_free s -> roomy s -> evolves s (turn r (s, mem)).2.1.
Proof. intros Hs Hr. apply turn_leaves; [by apply methods_evolve | by apply rand_evolves_refl]. Qed.

Lemma reachable_free s : reachable s -> fd_free s.
Proof.
  intros [seed H]. eapply rtc_preserves; [exact H | |].
  - intros x y Hx (Hr & r & mem & ->). by apply turn_evolves.
  - split; [apply lookup_empty | cbn; pose proof usize_mod_ge; lia].
Qed.

End facts.

(** A scheme whose device has this mode and owner, opened by that user: whether it may read and write afterwards *)
Definition rights `{Syscall} `{Rng} `{Target} (mode owner group : Z) (user : CallerCtx) (path : string) (flags : Z) : option (bool * bool) :=
  let s := set_prng_stat (with_owner (Z.lor MODE_CHR mode) owner group Stat_default) (RandScheme_new []) in
  match open path flags user s with
  | (Ok (ThisScheme fd _), s) =>
      Some (is_ok (can_perform_op_on_fd fd MODE_READ s).1, is_ok (can_perform_op_on_fd fd MODE_WRITE s).1)
  | _ => None
  end.

Section demo.
#[local] Existing Instance redox_syscall.
#[local] Existing Instance x86_64_release.
#[local] Existing Instance Schemes.demo_abi.

(** A generator that counts *)
#[local] Instance demo_rng : Rng := {|
  ChaCha20Rng := Z; from_seed := from_le; set_stream n g := n + 2 ^ 64 * g;
  fill_bytes n g := (le_bytes n g, g + 1); Sha256 l := le_bytes 32 (zlen l)
|}.

Lemma demo_rng_laws : RngLaws demo_rng.
Proof. split; intros; apply length_le_bytes. Qed.

Definition user (uid gid : Z) : CallerCtx := {| ctx_pid := 0; ctx_uid := uid; ctx_gid := gid; ctx_id := 0 |}.

(** [test_scheme_perms] of the source; the modes are 0o200, 0o400, 0o600, 0o660 and 0. *)
Lemma test_scheme_perms :
  rights 0x80 1 1 (user 1 1) "/" O_RDWR = None /\ rights 0x80 1 1 (user 1 1) "/" O_RDONLY = None /\
  rights 0x100 1 1 (user 1 1) "" O_RDONLY = Some (true, false) /\
  rights 0x100 1 1 (user 1 1) "" O_WRONLY = None /\ rights 0x100 1 1 (user 1 1) "" O_RDWR = None /\
  rights 0x180 1 1 (user 1 1) "" O_RDWR = Some (true, true) /\
  rights 0x180 1 1 (user 2 2) "" O_STAT = Some (false, false) /\
  rights 0x180 1 1 (user 2 1) "" O_STAT = Some (false, false) /\
  rights 0x1B0 1 1 (user 2 1) "" O_STAT = Some (true, true) /\
  rights 0 1 1 (user 0 0) "" O_STAT = Some (true, true) /\
  rights 0x1B0 1 1 (user 2 1) "/urandom" O_STAT = Some (true, true).
Proof. by vm_compute. Qed.

(** With mode 0o660 of root's group, a user who is neither root nor in that group may reseed the generator. *)
Lemma root_group_is_everyone :
  rights 0x1B0 0 0 (user 1000 1000) "" O_RDWR = Some (true, true) /\ rights 0x1B0 0 1 (user 1000 1000) "" O_RDWR = None.
Proof. by vm_compute. Qed.

(** A user opens the device that it owns, so does root, and root gives it away. *)
Definition given_away : RandScheme :=
  let owned := set_prng_stat (with_owner (Z.lor MODE_CHR 0x180) 1000 1000 Stat_default) (RandScheme_new []) in
  (fchown 1 1001 1001 (user 0 0) (open "" O_RDWR (user 0 0) (open "" O_RDWR (user 1000 1000) owned).2).2).2.

(** The former owner still changes the mode. *)
Lemma former_owner_rules :
  st_uid (prng_stat given_away) = 1001 /\ uid <$> open_descriptors given_away !! 0 = Some 1000 /\
  (fchmod 0 0x1B6 (user 1000 1000) given_away).1 = Ok tt /\
  st_mode (prng_stat (fchmod 0 0x1B6 (user 1000 1000) given_away).2) = Z.lor MODE_CHR 0x1B6.
Proof. by vm_compute. Qed.

(** Root opens the device. *)
Definition demo_open : Sqe :=
  {| opcode := 0; sqe_tag := 7; sqe_caller := 1; arg0 := 4096; arg1 := 0; arg2 := 0x00030000; arg3 := 0; arg4 := 0; arg5 := 0 |}.
Definition demo_state : RandScheme := (turn demo_open (RandScheme_new [], ∅)).2.1.

Lemma rand_demo_reachable : reachable demo_state.
Proof. exists []. apply rtc_once. split; [by vm_compute |]. by exists demo_open, ∅. Qed.

End demo.
End RanddFacts.

(** ** audiod: what is heard *)

Module AudiodFacts.
Import Audiod.

Section facts.
Context {TG : Target} {SC : Syscall} {AB : SchemeAbi} {PW : Powi}.
Implicit Types s : AudioScheme.

Definition i16 (x : Z) : Prop := i16_MIN <= x <= i16_MAX.

(** The samples that a handle holds *)
Definition held (h : option Handle) : list sample := match h with Some (Audio b) => b | _ => [] end.
Definition is_audio (h : option Handle) : Prop := match h with Some (Audio _) => True | _ => False end.

Definition advance (n : nat) (h : Handle) : Handle := match h with Audio b => Audio (drop n b) | Volume => Volume end.

(** The reference: at each position the samples of the handles are scaled and added one after the other, saturating. *)
Definition add_voice (factor : spec_float) (m : sample) (x : option sample) : sample :=
  match x with
  | Some x => (saturating_add m.1 (scale factor x.1), saturating_add m.2 (scale factor x.2))
  | None => m
  end.
Definition mixed (s : AudioScheme) (k : nat) : sample :=
  foldl (fun m i => add_voice (volume_factor (volume s)) m (held (handles s !! i) !! k)) (0, 0) (ids_in_order s).

Lemma mix_loop_spec factor mix b out rest :
  mix_loop factor mix b = (out, rest) ->
  rest = drop (length mix) b /\ length out = length mix /\
  forall k m, mix !! k = Some m -> out !! k = Some (add_voice factor m (b !! k)).
Proof.
  revert b out rest. induction mix as [| m mix IH]; intros [| x b] out rest; cbn [mix_loop]; try (intros [= <- <-]; split_and!; [by rewrite ?drop_nil | done | ]; intros [| k] m' H; by inversion H).
  destruct (mix_loop factor mix b) as [mixed' r] eqn:E. intros [= <- <-]. destruct (IH _ _ _ E) as (-> & Hl & Hk).
  split_and!; [done | cbn; by rewrite Hl |]. intros [| k] m' H; cbn in *; [by inversion H | by apply Hk].
Qed.

Lemma mix_handles factor ids : forall mix hs mix' hs',
  NoDup ids -> foldl (fun x i => mix_handle factor i x) (mix, hs) ids = (mix', hs') ->
  length mix' = length mix /\
  (forall k m, mix !! k = Some m -> mix' !! k = Some (foldl (fun m i => add_voice factor m (held (hs !! i) !! k)) m ids)) /\
  forall i, hs' !! i = if decide (i ∈ ids) then advance (length mix) <$> hs !! i else hs !! i.
Proof.
  induction ids as [| j ids IH]; intros mix hs mix' hs' Hnd E.
  { injection E as <- <-. by split_and!. }
  apply NoDup_cons in Hnd as [Hj Hnd]. cbn [foldl] in E.
  assert (exists mix1 hs1, mix_handle factor j (mix, hs) = (mix1, hs1) /\ length mix1 = length mix /\
    (forall k m, mix !! k = Some m -> mix1 !! k = Some (add_voice factor m (held (hs !! j) !! k))) /\
    (forall i, hs1 !! i = if decide (i = j) then advance (length mix) <$> hs !! i else hs !! i)) as (mix1 & hs1 & E1 & Hl & Hk & Hh).
  { unfold mix_handle. cbn [fst snd]. destruct (hs !! j) as [[b |] |] eqn:Ej.
    - destruct (mix_loop factor mix b) as [o r] eqn:Em. destruct (mix_loop_spec _ _ _ _ _ Em) as (-> & Hl & Hk).
      exists o, (<[j := Audio (drop (length mix) b)]> hs). split_and!; try done. intros i. case_decide; subst; [by rewrite lookup_insert_eq, Ej | by rewrite lookup_insert_ne].
    - exists mix, hs. split_and!; try done. intros i. case_decide; subst; [by rewrite Ej | done].
    - exists mix, hs. split_and!; try done. intros i. case_decide; subst; [by rewrite Ej | done]. }
  rewrite E1 in E. destruct (IH _ _ _ _ Hnd E) as (Hl' & Hk' & Hh'). split_and!; [congruence | |].
  - intros k m Hm. rewrite (Hk' k _ (Hk k m Hm)). cbn [foldl]. f_equal.
    assert (forall l m0, j ∉ l -> foldl (fun m i => add_voice factor m (held (hs1 !! i) !! k)) m0 l = foldl (fun m i => add_voice factor m (held (hs !! i) !! k)) m0 l) as Hext.
    { induction l as [| i l IHl]; intros m0 Hn; [done |]. cbn. apply not_elem_of_cons in Hn as [Hne Hn]. rewrite Hh, decide_False by done. by apply IHl. }
    by apply Hext.
  - intros i. rewrite Hh', Hh, Hl. destruct (decide (i ∈ ids)) as [Hin | Hin].
    + rewrite (decide_True _ _ (proj2 (elem_of_cons ids i j) (or_intror Hin))). rewrite decide_False by (by intros ->). done.
    + destruct (decide (i = j)) as [-> | Hne]; [by rewrite (decide_True _ _ (list_elem_of_here _ _)) |].
      rewrite decide_False; [done |]. by intros [|]%elem_of_cons.
Qed.

Lemma audio_ids_spec s : NoDup (ids_in_order s) /\ forall i, i ∈ ids_in_order s <-> is_Some (handles s !! i).
Proof.
  pose proof (merge_sort_Permutation Z.le (map fst (map_to_list (handles s)))) as Hp. fold (ids_in_order s) in Hp.
  change (map fst ?l) with (fst <$> l) in Hp. split; [rewrite Hp; apply NoDup_fst_map_to_list |].
  intros i. rewrite Hp, list_elem_of_fmap. split.
  - intros ([j h] & -> & Hin). apply elem_of_map_to_list in Hin. by exists h.
  - intros [h Hh]. exists (i, h). split; [done |]. by apply elem_of_map_to_list.
Qed.

(** A mix is the reference at each position, and takes what it plays from every handle. *)
Lemma buffer_spec s :
  exists out s', buffer s = (Ok out, s') /\ length out = HW_BUFFER_SIZE /\
    (forall k, (k < HW_BUFFER_SIZE)%nat -> out !! k = Some (mixed s k)) /\
    handles s' = advance HW_BUFFER_SIZE <$> handles s /\ next_id s' = next_id s /\ volume s' = volume s.
Proof.
  destruct (audio_ids_spec s) as [Hnd Hin].
  destruct (foldl (fun x i => mix_handle (volume_factor (volume s)) i x) (replicate HW_BUFFER_SIZE (0, 0), handles s) (ids_in_order s)) as [out hs] eqn:E.
  destruct (mix_handles _ _ _ _ _ _ Hnd E) as (Hl & Hk & Hh). rewrite length_replicate in Hl, Hh.
  exists out, (set_handles hs s). split_and!; [| done | | | done..].
  - unfold buffer. rewrite gets_bind. cbn [id]. by rewrite E.
  - intros k Hlt. apply Hk. by apply lookup_replicate_2.
  - cbn. apply map_eq. intros i. rewrite Hh, lookup_fmap. case_decide as Hd; [done |].
    destruct (handles s !! i) as [h |] eqn:Ei; [| done]. exfalso. apply Hd, Hin. by rewrite Ei.
Qed.

(** *** Runs *)

Inductive Event :=
| EvOpen (path : string) (flags : Z) (ctx : CallerCtx)
| EvRead (i : Z) (buf : list u8) (off flags : Z) (ctx : CallerCtx)
| EvWrite (i : Z) (buf : list u8) (off flags : Z) (ctx : CallerCtx)
| EvMix.

(** The state an event leaves *)
Definition after (e : Event) s : AudioScheme :=
  match e with
  | EvOpen p fl c => (open p fl c s).2
  | EvRead i buf off fl c => (read i buf off fl c s).2
  | EvWrite i buf off fl c => (write i buf off fl c s).2
  | EvMix => (buffer s).2
  end.
Definition run (es : list Event) s : AudioScheme := foldl (fun s e => after e s) s es.

(** The samples that a write to handle [i] was told it has written, and those that a mix takes from it *)
Definition written (i : Z) (e : Event) s : list sample :=
  match e with
  | EvWrite j buf off fl c =>
      if decide (j = i) then match (write j buf off fl c s).1 with Ok n => samples_of (take (Z.to_nat n) buf) | _ => [] end else []
  | _ => []
  end.
Definition played (i : Z) (e : Event) s : list sample :=
  match e with EvMix => take HW_BUFFER_SIZE (held (handles s !! i)) | _ => [] end.

(** What events of a run are about, one after the other *)
Fixpoint along {A} (f : Event -> AudioScheme -> list A) (es : list Event) s : list A :=
  match es with [] => [] | e :: es => f e s ++ along f es (after e s) end.

(** What a mix makes, and what it should be *)
Definition heard (e : Event) s : list (list sample) := match e with EvMix => match (buffer s).1 with Ok out => [out] | _ => [] end | _ => [] end.
Definition expected (e : Event) s : list (list sample) := match e with EvMix => [mixed s <$> seq 0 HW_BUFFER_SIZE] | _ => [] end.

(** Ids are given out in order, and the volume is a percentage. *)
Definition audio_wf s : Prop :=
  (forall j, is_Some (handles s !! j) -> j < next_id s) /\ 0 <= next_id s /\ 0 <= volume s <= 100.

Lemma samples_of_take l : samples_of (take (Z.to_nat (4 * zlen (samples_of l))) l) = samples_of l.
Proof.
  unfold zlen. rewrite Z2Nat.inj_mul, Nat2Z.id by lia. change (Z.to_nat 4) with 4%nat.
  enough (forall n l, (length l <= n)%nat -> samples_of (take (4 * length (samples_of l)) l) = samples_of l) as H by by apply (H (length l)).
  clear l. induction n as [| n IH]; intros l Hl; [by destruct l; [| cbn in Hl; lia] |].
  destruct l as [| a [| b [| c [| d l]]]]; try done. cbn [samples_of length] in *.
  replace (4 * Datatypes.S (length (samples_of l)))%nat with (Datatypes.S (Datatypes.S (Datatypes.S (Datatypes.S (4 * length (samples_of l)))))) by lia.
  cbn [take samples_of]. f_equal. apply IH. lia.
Qed.

Lemma open_after p fl c s i :
  audio_wf s -> next_id s + 1 < usize_mod -> is_Some (handles s !! i) ->
  audio_wf (open p fl c s).2 /\ handles (open p fl c s).2 !! i = handles s !! i /\ next_id s <= next_id (open p fl c s).2 <= next_id s + 1.
Proof.
  intros (Hid & Hn & Hv) Hb Hi. change (wp (open p fl c) (fun _ s' => audio_wf s' /\ handles s' !! i = handles s !! i /\ next_id s <= next_id s' <= next_id s + 1) s).
  unfold open. apply wp_bind. eapply wp_mono with (Q := fun o s' => s' = s).
  2: { repeat case_match; by wp_step. }
  intros [[h f] | |] s' ->; [| split_and!; done || lia..]. apply wp_bind, wp_gets, wp_bind, wp_arith; [| unfold usize_mod in Hb; lia..].
  intros _. apply wp_bind, wp_modify, wp_bind, wp_modify, wp_ret. unfold audio_wf. cbn. split_and!; [| lia.. | | lia | lia].
  - intros j. destruct (decide (next_id s = j)) as [-> | Hne]; [lia |]. rewrite lookup_insert_ne by done. intros H%Hid. lia.
  - rewrite lookup_insert_ne; [done |]. specialize (Hid i Hi). lia.
Qed.

Lemma read_after i buf off fl c s : (read i buf off fl c s).2 = s.
Proof.
  enough (wp (read i buf off fl c) (fun _ s' => s' = s) s) by done. unfold read, handle_at.
  repeat (wp_step; try done).
Qed.

Lemma write_after j buf off fl c s i :
  audio_wf s -> is_audio (handles s !! i) ->
  audio_wf (write j buf off fl c s).2 /\ next_id (write j buf off fl c s).2 = next_id s /\
  is_audio (handles (write j buf off fl c s).2 !! i) /\
  held (handles (write j buf off fl c s).2 !! i) = held (handles s !! i) ++ written i (EvWrite j buf off fl c) s.
Proof.
  intros (Hid & Hn & Hv) Hi. unfold written.
  enough (wp (write j buf off fl c) (fun o s' => audio_wf s' /\ next_id s' = next_id s /\ is_audio (handles s' !! i) /\
    held (handles s' !! i) = held (handles s !! i) ++ if decide (j = i) then match o with Ok n => samples_of (take (Z.to_nat n) buf) | _ => [] end else []) s) by done.
  assert (forall s', handles s' = handles s -> next_id s' = next_id s -> 0 <= volume s' <= 100 ->
    audio_wf s' /\ next_id s' = next_id s /\ is_audio (handles s' !! i) /\ held (handles s' !! i) = held (handles s !! i) ++ []) as Hsame.
  { intros s' E1 E2 E3. unfold audio_wf. rewrite E1, E2, app_nil_r. done. }
  assert (forall e s', s' = s -> audio_wf s' /\ next_id s' = next_id s /\ is_audio (handles s' !! i) /\
    held (handles s' !! i) = held (handles s !! i) ++ if decide (j = i) then match Err e : outcome Z with Ok n => samples_of (take (Z.to_nat n) buf) | _ => [] end else []) as Herr.
  { intros e s' ->. destruct (decide _); by apply Hsame. }
  unfold write, handle_at. apply wp_bind, wp_bind, wp_gets, wp_ok_or; [| intros _; by apply (Herr EBADF)]. intros h Hj. destruct h as [b |].
  - destruct (HANDLE_BUFFER_SIZE <=? zlen b); [apply wp_throw; by apply (Herr EWOULDBLOCK) |]. apply wp_bind, wp_modify, wp_ret. unfold audio_wf. cbn. split_and!; try done || lia.
    + intros k. destruct (decide (j = k)) as [-> | Hne]; [| by rewrite lookup_insert_ne; [apply Hid |]]. intros _. apply Hid. by rewrite Hj.
    + destruct (decide (j = i)) as [-> | Hne]; [by rewrite lookup_insert_eq | by rewrite lookup_insert_ne].
    + destruct (decide (j = i)) as [-> | Hne]; [| by rewrite lookup_insert_ne, app_nil_r]. rewrite lookup_insert_eq, Hj. cbn. by rewrite samples_of_take.
  - assert (j <> i) as Hne by (intros ->; by rewrite Hj in Hi). assert (forall o : outcome Z, (if decide (j = i) then match o with Ok n => samples_of (take (Z.to_nat n) buf) | _ => [] end else []) = []) as Hw by (intros; by rewrite decide_False).
    eapply wp_mono; [intros o s' H; rewrite Hw; exact H |]. destruct (off =? 0); [| apply wp_ret; by apply Hsame].
    apply wp_bind, wp_ok_or; [intros str _ | intros _; by apply Hsame]. apply wp_bind, wp_ok_or; [intros v _ | intros _; by apply Hsame].
    destruct ((0 <=? v) && (v <=? 100)) eqn:Ev; [| apply wp_throw; by apply Hsame]. apply wp_bind, wp_modify, wp_ret. apply Hsame; [done.. | cbn; lia].
Qed.

Lemma after_spec e s i :
  audio_wf s -> next_id s + 1 < usize_mod -> is_audio (handles s !! i) ->
  audio_wf (after e s) /\ next_id s <= next_id (after e s) <= next_id s + 1 /\ is_audio (handles (after e s) !! i) /\
  held (handles s !! i) ++ written i e s = played i e s ++ held (handles (after e s) !! i) /\ heard e s = expected e s.
Proof.
  intros Hw Hb Hi. destruct e as [p fl c | j buf off fl c | j buf off fl c |]; cbn [after played heard expected written app].
  - destruct (open_after p fl c s i Hw Hb) as (H1 & H2 & H3); [by destruct (handles s !! i) |]. rewrite H2, app_nil_r. done.
  - rewrite read_after, app_nil_r. split_and!; try done; lia.
  - destruct (write_after j buf off fl c s i Hw Hi) as (H1 & H2 & H3 & H4). rewrite H4. split_and!; try done; lia.
  - destruct (buffer_spec s) as (out & s' & E & Hl & Hk & Hh & H1 & H2). rewrite E. cbn [fst snd]. rewrite Hh, app_nil_r.
    destruct Hw as (Hid & Hn & Hv). split_and!; [| lia | lia | | |].
    + unfold audio_wf. rewrite Hh, H1, H2. split_and!; [| lia..]. intros j. rewrite lookup_fmap, fmap_is_Some. apply Hid.
    + rewrite lookup_fmap. by destruct (handles s !! i) as [[] |].
    + rewrite lookup_fmap. destruct (handles s !! i) as [[b |] |]; [| done..]. cbn [held fmap option_fmap option_map advance]. by rewrite take_drop.
    + f_equal. apply list_eq_same_length with HW_BUFFER_SIZE; [by rewrite length_fmap, length_seq | done |].
      intros k x y Hlt Hx. rewrite (Hk k Hlt) in Hx. injection Hx as <-. rewrite list_lookup_fmap, lookup_seq_lt by done. by intros [= <-].
Qed.

(** C29: along any opens, reads, writes and mixes, what an audio handle
    held and what writes to it were told they had written is, in order and without a
    gap, what the mixes have taken from it and what it still holds; every mix is
    the saturating sum of the samples taken, each scaled by the volume; and the
    volume stays a percentage. *)
Theorem audio_is_fifo es s i :
  audio_wf s -> next_id s + Z.of_nat (length es) < usize_mod -> is_audio (handles s !! i) ->
  held (handles s !! i) ++ along (written i) es s = along (played i) es s ++ held (handles (run es s) !! i) /\
  along heard es s = along expected es s /\ 0 <= volume (run es s) <= 100.
Proof.
  revert s. induction es as [| e es IH]; intros s Hw Hb Hi; cbn [along run foldl length] in *.
  { rewrite app_nil_r. split_and!; [done | done | apply Hw..]. }
  destruct (after_spec e s i Hw ltac:(lia) Hi) as (Hw' & Hn & Hi' & Hl & Hh). fold (run es (after e s)).
  destruct (IH (after e s) Hw' ltac:(lia) Hi') as (IH1 & IH2 & IH3). split_and!; [| by rewrite Hh, IH2 | apply IH3..].
  by rewrite (assoc_L (++)), Hl, <- (assoc_L (++)), IH1, (assoc_L (++)).
Qed.

(** With an exact power, volume zero is silence. *)
Lemma mute x : powi (S754_zero false) 3 = S754_zero false -> scale (volume_factor 0) x = 0.
Proof.
  intros Hp. unfold volume_factor. change (f32_div (f32_of 0) (f32_of 100)) with (S754_zero false). rewrite Hp.
  unfold scale, f32_mul. by destruct (f32_of x) as [[] | [] | | []].
Qed.
End facts.

Section demo.
#[local] Existing Instance redox_syscall.
#[local] Existing Instance x86_64_release.
#[local] Existing Instance Schemes.demo_abi.

(** Repeated multiplication *)
#[local] Instance demo_powi : Powi := {| powi x n := Nat.iter (Z.to_nat n) (f32_mul x) (f32_of 1) |}.

Definition client : CallerCtx := {| ctx_pid := 2; ctx_uid := 1000; ctx_gid := 1000; ctx_id := 0 |}.
Definition playing : AudioScheme := run [EvOpen "" 0 client; EvOpen "volume" 0 client] AudioScheme_new.
(** The volume is set to 100, two samples are written and the device asks for more. *)
Definition session : list Event :=
  [EvWrite 1 (as_bytes " 100 ") 0 0 client; EvWrite 0 [x01; x00; xff; x7f; x00; x80; x02; x00] 0 0 client; EvMix].

Lemma playing_wf : audio_wf playing.
Proof.
  split; [| by vm_compute]. intros j [h Hj]. assert (playing = {| next_id := 2; handles := <[1 := Volume]> {[0 := Audio []]}; volume := 50 |}) as E by by vm_compute.
  rewrite E in *. cbn in *. destruct (decide (1 = j)) as [<- | ]; [lia |]. rewrite lookup_insert_ne in Hj by done. by apply lookup_singleton_Some in Hj as [<- _].
Qed.

Lemma session_heard : take 3 <$> along heard session playing = [[(1, 32767); (- 32768, 2); (0, 0)]].
Proof. by vm_compute. Qed.

Lemma audio_is_fifo_witness :
  along (written 0) session playing = along (played 0) session playing ++ held (handles (run session playing) !! 0).
Proof. apply (audio_is_fifo session playing 0 playing_wf); by vm_compute. Defined.

(** Closing a handle does not remove it. *)
Lemma closed_handle_stays : handles (s_on_close (SchemeSync := audio_scheme) 0 playing).2 !! 0 = Some (Audio []).
Proof. by vm_compute. Qed.
End demo.
End AudiodFacts.
