(* ===== verification/Ps2d.v ===== *)
(** * ps2d: keyboard, mouse and keymaps

    Models [drivers/input/ps2d/src/]: the state machine that makes input
    events of the bytes of keyboard and mouse and of the virtual mouse of a
    hypervisor ([state.rs], [vm.rs]), the tables of characters ([keymap.rs]),
    the scheme [ps2] through which the keymap is read and changed
    ([scheme.rs]), and the loop ([main.rs]).  The key codes of [orbclient] and
    the hypervisor's port are parameters; the set-up of the controller is
    port I/O and not modelled.  Characters are code points. *)

From stdpp Require Import base gmap strings list fin_maps.
From Stdlib Require Import ZArith Lia.
From Stdlib Require Import Strings.Byte.
From S2P Require Import Prelude Memory Syscall SchemeApi SmallDaemons.

Local Open Scope Z_scope.

(** ** Keys *)

(** The key codes of [orbclient] *)
Class OrbKeys := {
  K_ESC : Z; K_1 : Z; K_2 : Z; K_3 : Z; K_4 : Z; K_5 : Z; K_6 : Z; K_7 : Z; K_8 : Z; K_9 : Z; K_0 : Z; K_MINUS : Z;
  K_EQUALS : Z; K_BKSP : Z; K_TAB : Z; K_Q : Z; K_W : Z; K_E : Z; K_R : Z; K_T : Z; K_Y : Z; K_U : Z; K_I : Z;
  K_O : Z; K_P : Z; K_BRACE_OPEN : Z; K_BRACE_CLOSE : Z; K_ENTER : Z; K_CTRL : Z; K_A : Z; K_S : Z; K_D : Z; K_F : Z;
  K_G : Z; K_H : Z; K_J : Z; K_K : Z; K_L : Z; K_SEMICOLON : Z; K_QUOTE : Z; K_TICK : Z; K_LEFT_SHIFT : Z;
  K_BACKSLASH : Z; K_Z : Z; K_X : Z; K_C : Z; K_V : Z; K_B : Z; K_N : Z; K_M : Z; K_COMMA : Z; K_PERIOD : Z;
  K_SLASH : Z; K_RIGHT_SHIFT : Z; K_ALT : Z; K_SPACE : Z; K_CAPS : Z; K_F1 : Z; K_F2 : Z; K_F3 : Z; K_F4 : Z;
  K_F5 : Z; K_F6 : Z; K_F7 : Z; K_F8 : Z; K_F9 : Z; K_F10 : Z; K_NUM_7 : Z; K_NUM_8 : Z; K_NUM_9 : Z; K_NUM_4 : Z;
  K_NUM_5 : Z; K_NUM_6 : Z; K_NUM_1 : Z; K_NUM_2 : Z; K_NUM_3 : Z; K_NUM_0 : Z; K_F11 : Z; K_F12 : Z; K_ALT_GR : Z;
  K_HOME : Z; K_UP : Z; K_PGUP : Z; K_LEFT : Z; K_RIGHT : Z; K_END : Z; K_DOWN : Z; K_PGDN : Z; K_DEL : Z
}.

Section keys.
Context {OK : OrbKeys}.

(** The codes behind 0xE0 and the others; zero is no key. *)
Definition extended_scancode (ps2_scancode : Z) : Z :=
  match ps2_scancode with
  | 0x1D => K_CTRL | 0x20 => 0x80 + 0x20 | 0x2E => 0x80 + 0x2E | 0x30 => 0x80 + 0x30 | 0x38 => K_ALT_GR
  | 0x47 => K_HOME | 0x48 => K_UP | 0x49 => K_PGUP | 0x4B => K_LEFT | 0x4D => K_RIGHT | 0x4F => K_END
  | 0x50 => K_DOWN | 0x51 => K_PGDN | 0x53 => K_DEL | 0x5B => 0x5B
  | _ => 0
  end.

Definition plain_scancode (ps2_scancode : Z) : Z :=
  match ps2_scancode with
  | 0x01 => K_ESC | 0x02 => K_1 | 0x03 => K_2 | 0x04 => K_3 | 0x05 => K_4 | 0x06 => K_5 | 0x07 => K_6 | 0x08 => K_7
  | 0x09 => K_8 | 0x0A => K_9 | 0x0B => K_0 | 0x0C => K_MINUS | 0x0D => K_EQUALS | 0x0E => K_BKSP | 0x0F => K_TAB
  | 0x10 => K_Q | 0x11 => K_W | 0x12 => K_E | 0x13 => K_R | 0x14 => K_T | 0x15 => K_Y | 0x16 => K_U | 0x17 => K_I
  | 0x18 => K_O | 0x19 => K_P | 0x1A => K_BRACE_OPEN | 0x1B => K_BRACE_CLOSE | 0x1C => K_ENTER | 0x1D => K_CTRL
  | 0x1E => K_A | 0x1F => K_S | 0x20 => K_D | 0x21 => K_F | 0x22 => K_G | 0x23 => K_H | 0x24 => K_J | 0x25 => K_K
  | 0x26 => K_L | 0x27 => K_SEMICOLON | 0x28 => K_QUOTE | 0x29 => K_TICK | 0x2A => K_LEFT_SHIFT | 0x2B => K_BACKSLASH
  | 0x2C => K_Z | 0x2D => K_X | 0x2E => K_C | 0x2F => K_V | 0x30 => K_B | 0x31 => K_N | 0x32 => K_M | 0x33 => K_COMMA
  | 0x34 => K_PERIOD | 0x35 => K_SLASH | 0x36 => K_RIGHT_SHIFT | 0x38 => K_ALT | 0x39 => K_SPACE | 0x3A => K_CAPS
  | 0x3B => K_F1 | 0x3C => K_F2 | 0x3D => K_F3 | 0x3E => K_F4 | 0x3F => K_F5 | 0x40 => K_F6 | 0x41 => K_F7
  | 0x42 => K_F8 | 0x43 => K_F9 | 0x44 => K_F10 | 0x47 => K_NUM_7 | 0x48 => K_NUM_8 | 0x49 => K_NUM_9
  | 0x4B => K_NUM_4 | 0x4C => K_NUM_5 | 0x4D => K_NUM_6 | 0x4F => K_NUM_1 | 0x50 => K_NUM_2 | 0x51 => K_NUM_3
  | 0x52 => K_NUM_0 | 0x57 => K_F11 | 0x58 => K_F12
  | _ => 0
  end.
End keys.

(** ** Keymaps *)

(** The character of each scancode, without and with shift *)
Definition US : list (Z * Z) :=
  [(0x0, 0x0); (0x1b, 0x1b); (0x31, 0x21); (0x32, 0x40); (0x33, 0x23); (0x34, 0x24); (0x35, 0x25); (0x36, 0x5e);
   (0x37, 0x26); (0x38, 0x2a); (0x39, 0x28); (0x30, 0x29); (0x2d, 0x5f); (0x3d, 0x2b); (0x7f, 0x7f); (0x9, 0x9);
   (0x71, 0x51); (0x77, 0x57); (0x65, 0x45); (0x72, 0x52); (0x74, 0x54); (0x79, 0x59); (0x75, 0x55); (0x69, 0x49);
   (0x6f, 0x4f); (0x70, 0x50); (0x5b, 0x7b); (0x5d, 0x7d); (0xa, 0xa); (0x0, 0x0); (0x61, 0x41); (0x73, 0x53);
   (0x64, 0x44); (0x66, 0x46); (0x67, 0x47); (0x68, 0x48); (0x6a, 0x4a); (0x6b, 0x4b); (0x6c, 0x4c); (0x3b, 0x3a);
   (0x27, 0x22); (0x60, 0x7e); (0x0, 0x0); (0x5c, 0x7c); (0x7a, 0x5a); (0x78, 0x58); (0x63, 0x43); (0x76, 0x56);
   (0x62, 0x42); (0x6e, 0x4e); (0x6d, 0x4d); (0x2c, 0x3c); (0x2e, 0x3e); (0x2f, 0x3f); (0x0, 0x0); (0x0, 0x0);
   (0x0, 0x0); (0x20, 0x20)].

Definition GB : list (Z * Z) :=
  [(0x0, 0x0); (0x1b, 0x1b); (0x31, 0x21); (0x32, 0x22); (0x33, 0xa3); (0x34, 0x24); (0x35, 0x25); (0x36, 0x5e);
   (0x37, 0x26); (0x38, 0x2a); (0x39, 0x28); (0x30, 0x29); (0x2d, 0x5f); (0x3d, 0x2b); (0x7f, 0x7f); (0x9, 0x9);
   (0x71, 0x51); (0x77, 0x57); (0x65, 0x45); (0x72, 0x52); (0x74, 0x54); (0x79, 0x59); (0x75, 0x55); (0x69, 0x49);
   (0x6f, 0x4f); (0x70, 0x50); (0x5b, 0x7b); (0x5d, 0x7d); (0xa, 0xa); (0x0, 0x0); (0x61, 0x41); (0x73, 0x53);
   (0x64, 0x44); (0x66, 0x46); (0x67, 0x47); (0x68, 0x48); (0x6a, 0x4a); (0x6b, 0x4b); (0x6c, 0x4c); (0x3b, 0x3a);
   (0x27, 0x40); (0x60, 0xac); (0x0, 0x0); (0x23, 0x7e); (0x7a, 0x5a); (0x78, 0x58); (0x63, 0x43); (0x76, 0x56);
   (0x62, 0x42); (0x6e, 0x4e); (0x6d, 0x4d); (0x2c, 0x3c); (0x2e, 0x3e); (0x2f, 0x3f); (0x0, 0x0); (0x0, 0x0);
   (0x0, 0x0); (0x20, 0x20); (0x0, 0x0); (0x0, 0x0); (0x0, 0x0); (0x0, 0x0); (0x0, 0x0); (0x0, 0x0); (0x0, 0x0);
   (0x0, 0x0); (0x0, 0x0); (0x0, 0x0); (0x0, 0x0); (0x0, 0x0); (0x0, 0x0); (0x0, 0x0); (0x0, 0x0); (0x0, 0x0);
   (0x0, 0x0); (0x0, 0x0); (0x0, 0x0); (0x0, 0x0); (0x0, 0x0); (0x0, 0x0); (0x0, 0x0); (0x0, 0x0); (0x0, 0x0);
   (0x0, 0x0); (0x0, 0x0); (0x0, 0x0); (0x5c, 0x7c)].

Definition DVORAK : list (Z * Z) :=
  [(0x0, 0x0); (0x1b, 0x1b); (0x31, 0x21); (0x32, 0x40); (0x33, 0x23); (0x34, 0x24); (0x35, 0x25); (0x36, 0x5e);
   (0x37, 0x26); (0x38, 0x2a); (0x39, 0x28); (0x30, 0x29); (0x5b, 0x7b); (0x5d, 0x7d); (0x7f, 0x7f); (0x9, 0x9);
   (0x27, 0x22); (0x2c, 0x3c); (0x2e, 0x3e); (0x70, 0x50); (0x79, 0x59); (0x66, 0x46); (0x67, 0x47); (0x63, 0x43);
   (0x72, 0x52); (0x6c, 0x4c); (0x2f, 0x3f); (0x3d, 0x2b); (0xa, 0xa); (0x0, 0x0); (0x61, 0x41); (0x6f, 0x4f);
   (0x65, 0x45); (0x75, 0x55); (0x69, 0x49); (0x64, 0x44); (0x68, 0x48); (0x74, 0x54); (0x6e, 0x4e); (0x73, 0x53);
   (0x2d, 0x5f); (0x60, 0x7e); (0x0, 0x0); (0x5c, 0x7c); (0x3b, 0x3a); (0x71, 0x51); (0x6a, 0x4a); (0x6b, 0x4b);
   (0x78, 0x58); (0x62, 0x42); (0x6d, 0x4d); (0x77, 0x57); (0x76, 0x56); (0x7a, 0x5a); (0x0, 0x0); (0x0, 0x0);
   (0x0, 0x0); (0x20, 0x20)].

Definition AZERTY : list (Z * Z) :=
  [(0x0, 0x0); (0x1b, 0x1b); (0x26, 0x31); (0xe9, 0x32); (0x22, 0x33); (0x27, 0x34); (0x28, 0x35); (0x7c, 0x36);
   (0xe8, 0x37); (0x5f, 0x38); (0xe7, 0x39); (0xe0, 0x30); (0x29, 0xb0); (0x3d, 0x2b); (0x7f, 0x7f); (0x9, 0x9);
   (0x61, 0x41); (0x7a, 0x5a); (0x65, 0x45); (0x72, 0x52); (0x74, 0x54); (0x79, 0x59); (0x75, 0x55); (0x69, 0x49);
   (0x6f, 0x4f); (0x70, 0x50); (0x5e, 0xa8); (0x24, 0xa3); (0xa, 0xa); (0x0, 0x0); (0x71, 0x51); (0x73, 0x53);
   (0x64, 0x44); (0x66, 0x46); (0x67, 0x47); (0x68, 0x48); (0x6a, 0x4a); (0x6b, 0x4b); (0x6c, 0x4c); (0x6d, 0x4d);
   (0xf9, 0x25); (0x2a, 0xb5); (0x0, 0x0); (0xea, 0xca); (0x77, 0x57); (0x78, 0x58); (0x63, 0x43); (0x76, 0x56);
   (0x62, 0x42); (0x6e, 0x4e); (0x2c, 0x3f); (0x3b, 0x2e); (0x3a, 0x2f); (0x21, 0xa7); (0x0, 0x0); (0x0, 0x0);
   (0x0, 0x0); (0x20, 0x20)].

Definition BEPO : list (Z * Z) :=
  [(0x0, 0x0); (0x1b, 0x1b); (0x22, 0x31); (0xab, 0x32); (0xbb, 0x33); (0x28, 0x34); (0x29, 0x35); (0x40, 0x36);
   (0x2b, 0x37); (0x2d, 0x38); (0x2f, 0x39); (0x2a, 0x30); (0x3d, 0xb0); (0x25, 0x60); (0x7f, 0x7f); (0x9, 0x9);
   (0x62, 0x42); (0xe9, 0xc9); (0x70, 0x50); (0x6f, 0x4f); (0xe8, 0xc8); (0x5e, 0x21); (0x76, 0x56); (0x64, 0x44);
   (0x6c, 0x4c); (0x6a, 0x4a); (0x7a, 0x5a); (0x77, 0x57); (0xa, 0xa); (0x0, 0x0); (0x61, 0x41); (0x75, 0x55);
   (0x69, 0x49); (0x65, 0x45); (0x2c, 0x3b); (0x63, 0x43); (0x74, 0x54); (0x73, 0x53); (0x72, 0x52); (0x6e, 0x4e);
   (0x6d, 0x4d); (0xe7, 0xc7); (0x0, 0x0); (0xea, 0xca); (0xe0, 0xc0); (0x79, 0x59); (0x78, 0x58); (0x2e, 0x3a);
   (0x6b, 0x4b); (0x27, 0x3f); (0x71, 0x51); (0x67, 0x47); (0x68, 0x48); (0x66, 0x46); (0x0, 0x0); (0x0, 0x0);
   (0x0, 0x0); (0x20, 0x20)].

Definition IT : list (Z * Z) :=
  [(0x0, 0x0); (0x1b, 0x1b); (0x31, 0x21); (0x32, 0x22); (0x33, 0xa3); (0x34, 0x24); (0x35, 0x25); (0x36, 0x26);
   (0x37, 0x2f); (0x38, 0x28); (0x39, 0x29); (0x30, 0x3d); (0x3f, 0x27); (0xec, 0x5e); (0x7f, 0x7f); (0x9, 0x9);
   (0x71, 0x51); (0x77, 0x57); (0x65, 0x45); (0x72, 0x52); (0x74, 0x54); (0x79, 0x59); (0x75, 0x55); (0x69, 0x49);
   (0x6f, 0x4f); (0x70, 0x50); (0xe8, 0xe9); (0x2b, 0x2a); (0xa, 0xa); (0x20, 0x20); (0x61, 0x41); (0x73, 0x53);
   (0x64, 0x44); (0x66, 0x46); (0x67, 0x47); (0x68, 0x48); (0x6a, 0x4a); (0x6b, 0x4b); (0x6c, 0x4c); (0xf2, 0xe7);
   (0xe0, 0xb0); (0xf9, 0xa7); (0x0, 0x0); (0x3c, 0x3e); (0x7a, 0x5a); (0x78, 0x58); (0x63, 0x43); (0x76, 0x56);
   (0x62, 0x42); (0x6e, 0x4e); (0x6d, 0x4d); (0x2c, 0x3b); (0x2e, 0x3a); (0x2d, 0x5f); (0x0, 0x0); (0x0, 0x0);
   (0x0, 0x0); (0x20, 0x20)].

(** [get_char] of the module with the table [t] *)
Definition get_char (t : list (Z * Z)) (scancode : Z) (shift : bool) : Z :=
  match t !! Z.to_nat scancode with
  | Some c => if shift then c.2 else c.1
  | None => 0
  end.

Definition lower (a : u8) : u8 := if (65 <=? Z_of_byte a) && (Z_of_byte a <=? 90) then byte_of_Z (Z_of_byte a + 32) else a.

(** [k.to_lowercase()], as far as a comparison with an ASCII string sees it: besides the capital letters only the Kelvin sign,
    U+212A, has an ASCII letter for its lower case. *)
Fixpoint to_lowercase (l : list u8) : list u8 :=
  match l with
  | a :: ((b :: c :: l) as r) =>
      if (Z_of_byte a =? 0xE2) && (Z_of_byte b =? 0x84) && (Z_of_byte c =? 0xAA) then x6b :: to_lowercase l
      else lower a :: to_lowercase r
  | a :: r => lower a :: to_lowercase r
  | [] => []
  end.

(** [get_keymap_from_str] *)
Definition get_keymap_from_str (k : string) : (Z -> bool -> Z) * string :=
  let k := String.string_of_list_byte (to_lowercase (as_bytes k)) in
  if bool_decide (k = "dvorak"%string) then (get_char DVORAK, "dvorak"%string)
  else if bool_decide (k = "us"%string) then (get_char US, "us"%string)
  else if bool_decide (k = "gb"%string) then (get_char GB, "gb"%string)
  else if bool_decide (k = "azerty"%string) then (get_char AZERTY, "azerty"%string)
  else if bool_decide (k = "bepo"%string) then (get_char BEPO, "bepo"%string)
  else if bool_decide (k = "it"%string) then (get_char IT, "it"%string)
  else (get_char US, "us"%string).

(** ** The state machine *)

(** The events that are written to inputd *)
Inductive Event :=
| KeyEvent (character scancode : Z) (pressed : bool)
| MouseRelativeEvent (dx dy : Z)
| MouseEvent (x y : Z)
| ScrollEvent (x y : Z)
| ButtonEvent (left middle right : bool).

(** [MousePacketFlags] *)
Definition LEFT_BUTTON : Z := 2 ^ 0.
Definition RIGHT_BUTTON : Z := 2 ^ 1.
Definition MIDDLE_BUTTON : Z := 2 ^ 2.
Definition ALWAYS_ON : Z := 2 ^ 3.
Definition X_SIGN : Z := 2 ^ 4.
Definition Y_SIGN : Z := 2 ^ 5.
Definition X_OVERFLOW : Z := 2 ^ 6.
Definition Y_OVERFLOW : Z := 2 ^ 7.

(** [flags.contains(f)] *)
Definition contains (flags f : Z) : bool := Z.land flags f =? f.

(** The virtual mouse of a hypervisor ([vm.rs]): what the n-th command answers, four [u32]; [None] on a processor without
    the port.  And inputd: whether it takes an event after those it has. *)
Class Ps2Host := {
  vm_cmd : nat -> Z -> Z -> option (Z * Z * Z * Z);
  takes : list Event -> Event -> bool
}.

Definition MAGIC : Z := 0x564D5868.
Definition GETVERSION : Z := 10.
Definition ABSPOINTER_DATA : Z := 39.
Definition ABSPOINTER_STATUS : Z := 40.
Definition ABSPOINTER_COMMAND : Z := 41.
Definition CMD_ENABLE : Z := 0x45414552.
Definition CMD_DISABLE : Z := 0x000000f5.
Definition CMD_REQUEST_ABSOLUTE : Z := 0x53424152.
Definition CMD_REQUEST_RELATIVE : Z := 0x4c455252.
Definition VERSION : Z := 0x3442554a.
Definition VM_LEFT_BUTTON : Z := 0x20.
Definition VM_RIGHT_BUTTON : Z := 0x10.
Definition VM_MIDDLE_BUTTON : Z := 0x08.

(** [Ps2d], with the events written so far ([input]) and the number of commands given *)
Record Ps2d := {
  vmmouse : bool; vmmouse_relative : bool; input : list Event; commands : nat;
  extended : bool; lshift : bool; rshift : bool;
  mouse_x : Z; mouse_y : Z; mouse_left : bool; mouse_middle : bool; mouse_right : bool;
  packets : list Z; packet_i : nat; extra_packet : bool; keymap_fn : Z -> bool -> Z
}.
Definition set_input x s := {| vmmouse := vmmouse s; vmmouse_relative := vmmouse_relative s; input := x; commands := commands s;
  extended := extended s; lshift := lshift s; rshift := rshift s; mouse_x := mouse_x s; mouse_y := mouse_y s;
  mouse_left := mouse_left s; mouse_middle := mouse_middle s; mouse_right := mouse_right s; packets := packets s;
  packet_i := packet_i s; extra_packet := extra_packet s; keymap_fn := keymap_fn s |}.
Definition set_commands x s := {| vmmouse := vmmouse s; vmmouse_relative := vmmouse_relative s; input := input s; commands := x;
  extended := extended s; lshift := lshift s; rshift := rshift s; mouse_x := mouse_x s; mouse_y := mouse_y s;
  mouse_left := mouse_left s; mouse_middle := mouse_middle s; mouse_right := mouse_right s; packets := packets s;
  packet_i := packet_i s; extra_packet := extra_packet s; keymap_fn := keymap_fn s |}.
(** [extended], [lshift] and [rshift] *)
Definition set_keys e l r s := {| vmmouse := vmmouse s; vmmouse_relative := vmmouse_relative s; input := input s; commands := commands s;
  extended := e; lshift := l; rshift := r; mouse_x := mouse_x s; mouse_y := mouse_y s;
  mouse_left := mouse_left s; mouse_middle := mouse_middle s; mouse_right := mouse_right s; packets := packets s;
  packet_i := packet_i s; extra_packet := extra_packet s; keymap_fn := keymap_fn s |}.
Definition set_position x y s := {| vmmouse := vmmouse s; vmmouse_relative := vmmouse_relative s; input := input s; commands := commands s;
  extended := extended s; lshift := lshift s; rshift := rshift s; mouse_x := x; mouse_y := y;
  mouse_left := mouse_left s; mouse_middle := mouse_middle s; mouse_right := mouse_right s; packets := packets s;
  packet_i := packet_i s; extra_packet := extra_packet s; keymap_fn := keymap_fn s |}.
Definition set_buttons l m r s := {| vmmouse := vmmouse s; vmmouse_relative := vmmouse_relative s; input := input s; commands := commands s;
  extended := extended s; lshift := lshift s; rshift := rshift s; mouse_x := mouse_x s; mouse_y := mouse_y s;
  mouse_left := l; mouse_middle := m; mouse_right := r; packets := packets s;
  packet_i := packet_i s; extra_packet := extra_packet s; keymap_fn := keymap_fn s |}.
Definition set_packets x i s := {| vmmouse := vmmouse s; vmmouse_relative := vmmouse_relative s; input := input s; commands := commands s;
  extended := extended s; lshift := lshift s; rshift := rshift s; mouse_x := mouse_x s; mouse_y := mouse_y s;
  mouse_left := mouse_left s; mouse_middle := mouse_middle s; mouse_right := mouse_right s; packets := x;
  packet_i := i; extra_packet := extra_packet s; keymap_fn := keymap_fn s |}.
Definition set_keymap_fn x s := {| vmmouse := vmmouse s; vmmouse_relative := vmmouse_relative s; input := input s; commands := commands s;
  extended := extended s; lshift := lshift s; rshift := rshift s; mouse_x := mouse_x s; mouse_y := mouse_y s;
  mouse_left := mouse_left s; mouse_middle := mouse_middle s; mouse_right := mouse_right s; packets := packets s;
  packet_i := packet_i s; extra_packet := extra_packet s; keymap_fn := x |}.

(** [x as i32] of a [u32] *)
Definition as_i32 (x : Z) : Z := if x <? 2 ^ 31 then x else x - 2 ^ 32.

Section state.
Context {TG : Target} {OK : OrbKeys} {PH : Ps2Host}.

(** [self.input.write_event(e.to_event()).expect(..)] *)
Definition write_event (e : Event) : M Ps2d unit :=
  sent ← gets input;
  if takes sent e then modify (set_input (sent ++ [e])) else panic.

(** [-x] on [i32] *)
Definition neg_i32 (x : Z) : M Ps2d Z :=
  if x =? - 2 ^ 31 then if overflow_checks then panic else mret x else mret (- x).

(** [vm::cmd] *)
Definition cmd (command arg : Z) : M Ps2d (Z * Z * Z * Z) :=
  n ← gets commands;
  modify (set_commands (Datatypes.S n));;
  unwrap (vm_cmd n command arg).

(** [vm::enable] *)
Definition enable (relative : bool) : M Ps2d bool :=
  '(eax, ebx, _, _) ← cmd GETVERSION 0;
  if negb (ebx =? MAGIC) || (eax =? 0xFFFFFFFF) then mret false
  else
    cmd ABSPOINTER_COMMAND CMD_ENABLE;;
    '(status, _, _, _) ← cmd ABSPOINTER_STATUS 0;
    if Z.land status 0x0000ffff =? 0 then mret false
    else
      '(version, _, _, _) ← cmd ABSPOINTER_DATA 1;
      if negb (version =? VERSION) then cmd ABSPOINTER_COMMAND CMD_DISABLE;; mret false
      else
        cmd ABSPOINTER_COMMAND (if relative then CMD_REQUEST_RELATIVE else CMD_REQUEST_ABSOLUTE);;
        mret true.

Definition set_vmmouse x s := {| vmmouse := x; vmmouse_relative := vmmouse_relative s; input := input s; commands := commands s;
  extended := extended s; lshift := lshift s; rshift := rshift s; mouse_x := mouse_x s; mouse_y := mouse_y s;
  mouse_left := mouse_left s; mouse_middle := mouse_middle s; mouse_right := mouse_right s; packets := packets s;
  packet_i := packet_i s; extra_packet := extra_packet s; keymap_fn := keymap_fn s |}.

(** The fields of [Ps2d::new]; [extra] is what the initialisation of the controller finds. *)
Definition Ps2d_fields (extra : bool) (keymap : Z -> bool -> Z) : Ps2d := {|
  vmmouse := false; vmmouse_relative := false; input := []; commands := 0; extended := false; lshift := false; rshift := false;
  mouse_x := 0; mouse_y := 0; mouse_left := false; mouse_middle := false; mouse_right := false; packets := [0; 0; 0; 0];
  packet_i := 0; extra_packet := extra; keymap_fn := keymap |}.

(** [Ps2d::new] *)
Definition Ps2d_new (extra : bool) (keymap : Z -> bool -> Z) : outcome unit * Ps2d :=
  (b ← enable false; modify (set_vmmouse b)) (Ps2d_fields extra keymap).

Definition update_keymap (keymap : Z -> bool -> Z) : M Ps2d unit := modify (set_keymap_fn keymap).

(** *** [handle] *)

Definition handle_key (data : Z) : M Ps2d unit :=
  if data =? 0xE0 then modify (fun s => set_keys true (lshift s) (rshift s) s)
  else
    let '(ps2_scancode, pressed) := if 0x80 <=? data then (data - 0x80, false) else (data, true) in
    ext ← gets extended;
    scancode ← (if ext : bool
                then modify (fun s => set_keys false (lshift s) (rshift s) s);; mret (extended_scancode ps2_scancode)
                else mret (plain_scancode ps2_scancode));
    (if scancode =? K_LEFT_SHIFT then modify (fun s => set_keys (extended s) pressed (rshift s) s)
     else if scancode =? K_RIGHT_SHIFT then modify (fun s => set_keys (extended s) (lshift s) pressed s)
     else mret tt);;
    if scancode =? 0 then mret tt
    else
      s ← gets id;
      write_event (KeyEvent (keymap_fn s ps2_scancode (lshift s || rshift s)) scancode pressed).

(** The buttons, if they have changed *)
Definition tell_buttons (left middle right : bool) : M Ps2d unit :=
  s ← gets id;
  if negb (Bool.eqb left (mouse_left s)) || negb (Bool.eqb middle (mouse_middle s)) || negb (Bool.eqb right (mouse_right s)) then
    modify (set_buttons left middle right);;
    write_event (ButtonEvent left middle right)
  else mret tt.

(** The loop over the queue of the virtual mouse: at most [n] more turns *)
Fixpoint vm_loop (n : nat) : M Ps2d unit :=
  match n with
  | O => mret tt
  | Datatypes.S n =>
      '(status, _, _, _) ← cmd ABSPOINTER_STATUS 0;
      let queue_length := Z.land status 0xffff in
      if queue_length =? 0 then mret tt
      else if negb (queue_length mod 4 =? 0) then mret tt
      else
        '(status, dx, dy, dz) ← cmd ABSPOINTER_DATA 4;
        relative ← gets vmmouse_relative;
        (if relative : bool then
           if negb (dx =? 0) || negb (dy =? 0) then write_event (MouseRelativeEvent (as_i32 dx) (as_i32 dy)) else mret tt
         else
           s ← gets id;
           let x := as_i32 dx in
           let y := as_i32 dy in
           if negb (x =? mouse_x s) || negb (y =? mouse_y s) then modify (set_position x y);; write_event (MouseEvent x y)
           else mret tt);;
        (if negb (dz =? 0) then y ← neg_i32 (as_i32 dz); write_event (ScrollEvent 0 y) else mret tt);;
        tell_buttons (contains status VM_LEFT_BUTTON) (contains status VM_MIDDLE_BUTTON) (contains status VM_RIGHT_BUTTON);;
        vm_loop n
  end.

(** What a complete packet of the mouse says.  The numbers stay within [i32] and [i8], for the bytes are less than 256. *)
Definition mouse_packet (flags : Z) (extra : bool) (p : list Z) : M Ps2d unit :=
  if negb (contains flags X_OVERFLOW) && negb (contains flags Y_OVERFLOW) then
    let dx := nth 1 p 0 in
    let dx := if contains flags X_SIGN then dx - 0x100 else dx in
    let dy := - nth 2 p 0 in
    let dy := if contains flags Y_SIGN then dy + 0x100 else dy in
    let scroll := Z.land (nth 3 p 0) 0xF in
    let scroll := if contains scroll (Z.shiftl 1 3) then scroll - 16 else scroll in
    let dz := if extra then - scroll else 0 in
    (if negb (dx =? 0) || negb (dy =? 0) then write_event (MouseRelativeEvent dx dy) else mret tt);;
    (if negb (dz =? 0) then write_event (ScrollEvent 0 dz) else mret tt);;
    tell_buttons (contains flags LEFT_BUTTON) (contains flags MIDDLE_BUTTON) (contains flags RIGHT_BUTTON)
  else mret tt.

Definition handle_mouse (data : Z) : M Ps2d unit :=
  s ← gets id;
  (if (packet_i s <? length (packets s))%nat then mret tt else panic);;
  let p := <[packet_i s := data]> (packets s) in
  let i := Datatypes.S (packet_i s) in
  modify (set_packets p i);;
  let flags := nth 0 p 0 in
  if negb (contains flags ALWAYS_ON) then modify (set_packets [0; 0; 0; 0] 0)
  else if (length p <=? i)%nat || (negb (extra_packet s) && (3 <=? i)%nat) then
    mouse_packet flags (extra_packet s) p;;
    modify (set_packets [0; 0; 0; 0] 0)
  else mret tt.

Definition handle (keyboard : bool) (data : Z) : M Ps2d unit :=
  if keyboard then handle_key data
  else
    vm ← gets vmmouse;
    if vm : bool then vm_loop 256 else handle_mouse data.
End state.

(** ** The scheme *)

Record Ps2Scheme := { keymap : string; keymap_list : string }.
Definition set_keymap x s := {| keymap := x; keymap_list := keymap_list s |}.

(** [l.join("\n")] *)
Definition join_lines (l : list string) : string :=
  match l with
  | [] => EmptyString
  | x :: l => (x ++ foldr (fun y acc => String (Ascii.ascii_of_nat 10) (y ++ acc)) EmptyString l)%string
  end.

Definition Ps2Scheme_new (keymap : string) (keymap_list : list string) : Ps2Scheme :=
  {| keymap := keymap; keymap_list := join_lines keymap_list |}.

(** [DirentBuf::entry] of [redox_syscall] *)
Class DirentEntry {AB : SchemeAbi} := { dirent_entry : DirentBuf -> DirEntry -> outcome DirentBuf }.

Section scheme.
Context {TG : Target} {SC : Syscall} {AB : SchemeAbi} {DE : DirentEntry}.

Definition open (path_str : string) (flags : Z) (ctx : CallerCtx) : M Ps2Scheme OpenResult :=
  let path := trim_start_matches slash path_str in
  (if negb (Z.land flags O_WRONLY =? 0) then
     if negb (ctx_uid ctx =? 0) || negb (ctx_gid ctx =? 0) then throw EACCES
     else if negb (bool_decide (path = "keymap"%string)) then throw EINVAL
     else mret tt
   else mret tt);;
  if bool_decide (path = ""%string) then mret (ThisScheme 0 fd_empty)
  else if bool_decide (path = "keymap"%string) then mret (ThisScheme 1 fd_POSITIONED)
  else if bool_decide (path = "keymap_list"%string) then mret (ThisScheme 2 fd_POSITIONED)
  else throw ENOENT.

(** The entries from [this_idx] on *)
Fixpoint put_entries (names : list string) (this_idx : Z) (buf : DirentBuf) : outcome DirentBuf :=
  match names with
  | [] => Ok buf
  | name :: names =>
      buf ← dirent_entry buf {| de_inode := this_idx; de_name := name; de_next_opaque_id := this_idx + 1 |};
      put_entries names (this_idx + 1) buf
  end.

Definition getdents (i : Z) (buf : DirentBuf) (opaque_offset : Z) : M Ps2Scheme DirentBuf :=
  if negb (i =? 0) then throw ENOTDIR
  else
    match usize_try_from opaque_offset with
    | None => mret buf
    | Some offset => lift (put_entries (drop (Z.to_nat offset) ["keymap"; "keymap_list"]%string) offset buf)
    end.

(** [stat] is the buffer of the caller, of which some fields are set; the modes are 0o555, 0o644 and 0o444. *)
Definition fstat (i : Z) (stat : Stat) (ctx : CallerCtx) : M Ps2Scheme Stat :=
  let with_mode m := {| st_mode := m; st_uid := st_uid stat; st_gid := st_gid stat; st_ino := st_ino stat;
    st_nlink := st_nlink stat; st_dev := st_dev stat; st_size := 0; st_blksize := st_blksize stat; st_blocks := st_blocks stat;
    st_atime := st_atime stat; st_atime_nsec := st_atime_nsec stat; st_ctime := st_ctime stat;
    st_ctime_nsec := st_ctime_nsec stat; st_mtime := st_mtime stat; st_mtime_nsec := st_mtime_nsec stat |} in
  if i =? 0 then mret (with_mode (Z.lor 0x16D MODE_DIR))
  else if i =? 1 then mret (with_mode (Z.lor 0x1A4 MODE_FILE))
  else if i =? 2 then mret (with_mode (Z.lor 0x124 MODE_FILE))
  else throw ENOENT.

Definition fpath (i : Z) (buf : list u8) (ctx : CallerCtx) : M Ps2Scheme (Z * list u8) :=
  let path := as_bytes "/scheme/ps2" in
  let n := (length buf `min` length path)%nat in
  mret (Z.of_nat n, copy_prefix n path buf).

Definition fsync (i : Z) (ctx : CallerCtx) : M Ps2Scheme unit := mret tt.

(** [buf[..value.len()]], [buf[value.len()]] and [buf[value.len() + 1]] panic when they are out of range. *)
Definition read (i : Z) (buf : list u8) (offset fcntl_flags : Z) (ctx : CallerCtx) : M Ps2Scheme (Z * list u8) :=
  if negb (offset =? 0) then mret (0, buf)
  else
    s ← gets id;
    value ← (if i =? 1 then mret (as_bytes (keymap s)) else if i =? 2 then mret (as_bytes (keymap_list s)) else throw ENOENT);
    fail_if (zlen buf + 2 <? zlen value) EMFILE;;
    (if zlen value + 2 <=? zlen buf then mret tt else panic);;
    mret (zlen value + 2, splice 0 (value ++ [x0a; x00]) buf).

Definition write (i : Z) (buf : list u8) (offset fcntl_flags : Z) (ctx : CallerCtx) : M Ps2Scheme Z :=
  if negb (offset =? 0) || negb (i =? 1) then mret 0
  else
    new_keymap ← ok_or EINVAL (from_utf8 buf);
    modify (set_keymap (trim new_keymap));;
    mret (zlen buf).
End scheme.

#[export] Instance ps2_scheme {TG : Target} {SC : Syscall} {AB : SchemeAbi} {DE : DirentEntry} : SchemeSync Ps2Scheme :=
  let d := SchemeSync_default Ps2Scheme in {|
  s_open := open; s_openat := @s_openat _ _ d; s_rmdir := @s_rmdir _ _ d; s_unlink := @s_unlink _ _ d;
  s_unlinkat := @s_unlinkat _ _ d; s_dup := @s_dup _ _ d; s_read := read; s_write := write;
  s_fsize := @s_fsize _ _ d; s_fchmod := @s_fchmod _ _ d; s_fchown := @s_fchown _ _ d; s_fcntl := @s_fcntl _ _ d;
  s_fevent := @s_fevent _ _ d; s_flink := @s_flink _ _ d; s_fpath := fpath; s_frename := @s_frename _ _ d;
  s_fstat i := fstat i Stat_default; s_fstatvfs := @s_fstatvfs _ _ d; s_fsync := fsync;
  s_ftruncate := @s_ftruncate _ _ d; s_futimens := @s_futimens _ _ d; s_call := @s_call _ _ d;
  s_getdents := getdents; s_mmap_prep := @s_mmap_prep _ _ d; s_munmap := @s_munmap _ _ d;
  s_on_close := @s_on_close _ _ d; s_on_sendfd := @s_on_sendfd _ _ d; s_on_recvfd := @s_on_recvfd _ _ d |}.

(** ** The loop *)

(** What the event queue reports, with what is read: the bytes of keyboard or mouse, or the requests to the scheme *)
Inductive Source :=
| Keyboard (data : list u8)
| Mouse (data : list u8)
| Scheme (requests : list Request).

Record Daemon := { ps2d : Ps2d; scheme_handle : Ps2Scheme; keymap_name : string; callers : memory; responses : list Response }.

Section daemon.
Context {TG : Target} {SC : Syscall} {AB : SchemeAbi} {DE : DirentEntry} {OK : OrbKeys} {PH : Ps2Host}.

Definition on_ps2d {A} (m : M Ps2d A) : M Daemon A :=
  zoom ps2d (fun x w => {| ps2d := x; scheme_handle := scheme_handle w; keymap_name := keymap_name w; callers := callers w;
                           responses := responses w |}) m.
Definition on_scheme {A} (m : M (Ps2Scheme * memory) A) : M Daemon A :=
  zoom (fun w => (scheme_handle w, callers w))
       (fun x w => {| ps2d := ps2d w; scheme_handle := x.1; keymap_name := keymap_name w; callers := x.2;
                      responses := responses w |}) m.
Definition set_keymap_name x w := {| ps2d := ps2d w; scheme_handle := scheme_handle w; keymap_name := x; callers := callers w;
                                     responses := responses w |}.
Definition add_response x w := {| ps2d := ps2d w; scheme_handle := scheme_handle w; keymap_name := keymap_name w; callers := callers w;
                                  responses := responses w ++ [x] |}.

(** [for i in 0..count], over all that there is to read *)
Fixpoint handle_all (keyboard : bool) (data : list u8) : M Ps2d unit :=
  match data with
  | [] => mret tt
  | b :: data => handle keyboard (Z_of_byte b);; handle_all keyboard data
  end.

Fixpoint serve_all (requests : list Request) : M Daemon unit :=
  match requests with
  | [] => mret tt
  | request :: requests =>
      r ← on_scheme (turn request);
      match r with Some response => modify (add_response response) | None => mret tt end;;
      serve_all requests
  end.

(** An event of the queue *)
Definition on_event (e : Source) : M Daemon unit :=
  match e with
  | Keyboard data => on_ps2d (handle_all true data)
  | Mouse data => on_ps2d (handle_all false data)
  | Scheme requests =>
      serve_all requests;;
      w ← gets id;
      if bool_decide (keymap_name w = keymap (scheme_handle w)) then mret tt
      else
        let '(f, name) := get_keymap_from_str (keymap (scheme_handle w)) in
        modify (set_keymap_name name);;
        on_ps2d (update_keymap f)
  end.

(** The daemon when the loop begins; [arg] is the argument of the program. *)
Definition Daemon_new (arg : option string) (extra : bool) (mem : memory) : outcome unit * Daemon :=
  let '(f, name) := match arg with Some k => get_keymap_from_str k | None => (get_char US, "us"%string) end in
  let '(o, p) := Ps2d_new extra f in
  (o, {| ps2d := p; scheme_handle := Ps2Scheme_new name ["dvorak"; "us"; "gb"; "azerty"; "bepo"; "it"]%string;
         keymap_name := name; callers := mem; responses := [] |}).
End daemon.
