(* ===== verification/Ps2dFacts.v ===== *)
(** * ps2d: what is typed and moved is what is told

    Any interleaving of the bytes of key strokes with those of mouse packets
    gives the events of both; the keymap in use is the one that the scheme
    names; and the defects that the model shows. *)

From stdpp Require Import base gmap strings list fin_maps.
From Stdlib Require Import ZArith Lia.
From Stdlib Require Import Strings.Byte.
From S2P Require Schemes.
From S2P Require Import Prelude Memory Syscall SchemeApi SmallDaemons Ps2d.

Local Open Scope Z_scope.

(** ** Key codes *)

Section codes.
Context {OK : OrbKeys}.

(** The codes of keys other than shift *)
Definition key_codes : list Z :=
  [K_ESC; K_1; K_2; K_3; K_4; K_5; K_6; K_7; K_8; K_9; K_0; K_MINUS; K_EQUALS; K_BKSP; K_TAB; K_Q; K_W; K_E; K_R;
   K_T; K_Y; K_U; K_I; K_O; K_P; K_BRACE_OPEN; K_BRACE_CLOSE; K_ENTER; K_CTRL; K_A; K_S; K_D; K_F; K_G; K_H; K_J;
   K_K; K_L; K_SEMICOLON; K_QUOTE; K_TICK; K_BACKSLASH; K_Z; K_X; K_C; K_V; K_B; K_N; K_M; K_COMMA; K_PERIOD;
   K_SLASH; K_ALT; K_SPACE; K_CAPS; K_F1; K_F2; K_F3; K_F4; K_F5; K_F6; K_F7; K_F8; K_F9; K_F10; K_NUM_7; K_NUM_8;
   K_NUM_9; K_NUM_4; K_NUM_5; K_NUM_6; K_NUM_1; K_NUM_2; K_NUM_3; K_NUM_0; K_F11; K_F12; K_ALT_GR; K_HOME; K_UP;
   K_PGUP; K_LEFT; K_RIGHT; K_END; K_DOWN; K_PGDN; K_DEL].
(** What the tables give besides the shift keys *)
Definition other_codes : list Z := [0; 0xA0; 0xAE; 0xB0; 0x5B] ++ key_codes.

(** [orbclient] numbers keys differently, and from 1. *)
Class OrbKeysLaws : Prop := {
  left_shift_own : K_LEFT_SHIFT ∉ K_RIGHT_SHIFT :: other_codes;
  right_shift_own : K_RIGHT_SHIFT ∉ other_codes;
  keys_not_zero : 0 ∉ key_codes
}.

Ltac in_codes := unfold other_codes, key_codes; repeat (apply elem_of_cons; first [left; reflexivity | right]).

Lemma plain_other c : c <> 0x2A -> c <> 0x36 -> plain_scancode c ∈ other_codes.
Proof. intros H1 H2. unfold plain_scancode. repeat case_match; solve [done | in_codes]. Qed.

Lemma extended_other c : extended_scancode c ∈ other_codes.
Proof. unfold extended_scancode. repeat case_match; in_codes. Qed.
End codes.

(** ** What is typed *)

(** A press or release of the key with this scancode; some scancodes follow 0xE0. *)
Record Keystroke := { k_ext : bool; k_code : Z; k_pressed : bool }.

(** The release of 0x60 would be 0xE0. *)
Definition key_ok (k : Keystroke) : Prop := 0 <= k_code k < 0x80 /\ (k_pressed k = false -> k_code k <> 0x60).

Definition key_bytes (k : Keystroke) : list Z :=
  (if k_ext k then [0xE0] else []) ++ [if k_pressed k then k_code k else k_code k + 0x80].

(** The key [c] is down: it was pressed last. *)
Definition down (c : Z) (past : list Keystroke) : bool :=
  match last (filter (fun k => k_ext k = false /\ k_code k = c) past) with Some k => k_pressed k | None => false end.

Section typed.
Context {OK : OrbKeys}.

Definition code_of (k : Keystroke) : Z := if k_ext k then extended_scancode (k_code k) else plain_scancode (k_code k).

(** The events of [ks], typed after [past]: a known key is told with the character that it has while shift is up or down. *)
Fixpoint typed (f : Z -> bool -> Z) (past ks : list Keystroke) : list Event :=
  match ks with
  | [] => []
  | k :: ks =>
      let now := past ++ [k] in
      (if code_of k =? 0 then [] else [KeyEvent (f (k_code k) (down 0x2A now || down 0x36 now)) (code_of k) (k_pressed k)])
      ++ typed f now ks
  end.
End typed.

(** ** What is moved *)

(** A movement of the mouse (up is negative), of its wheel, and its buttons; the flags of an overflow; and four bits of the last byte
    that say nothing *)
Record Movement := {
  m_dx : Z; m_dy : Z; m_dz : Z; m_left : bool; m_middle : bool; m_right : bool; m_xo : bool; m_yo : bool; m_rest : Z
}.

Inductive Packet :=
| Stray (b : Z)
| Move (m : Movement).

(** What a packet can say: nine bits for each direction, four for the wheel if it has one *)
Definition packet_ok (extra : bool) (p : Packet) : Prop :=
  match p with
  | Stray b => Z.testbit b 3 = false
  | Move m => -256 <= m_dx m <= 255 /\ -255 <= m_dy m <= 256 /\ (if extra then -7 <= m_dz m <= 8 else m_dz m = 0)
  end.

Definition move_flags (m : Movement) : Z :=
  Z.b2z (m_left m) + 2 * Z.b2z (m_right m) + 4 * Z.b2z (m_middle m) + 8 + 16 * Z.b2z (m_dx m <? 0) + 32 * Z.b2z (0 <? m_dy m)
  + 64 * Z.b2z (m_xo m) + 128 * Z.b2z (m_yo m).

(** The bytes of the protocol *)
Definition packet_bytes (extra : bool) (p : Packet) : list Z :=
  match p with
  | Stray b => [b]
  | Move m =>
      [move_flags m; m_dx m mod 256; (- m_dy m) mod 256] ++ if extra then [(- m_dz m) mod 16 + 16 * m_rest m] else []
  end.

Abbreviation buttons := (bool * bool * bool)%type.

(** The events of a packet, and the buttons after it *)
Definition move_events (b : buttons) (m : Movement) : buttons * list Event :=
  if m_xo m || m_yo m then (b, [])
  else
    let b' := (m_left m, m_middle m, m_right m) in
    (b', (if decide (m_dx m = 0 /\ m_dy m = 0) then [] else [MouseRelativeEvent (m_dx m) (m_dy m)]) ++
         (if decide (m_dz m = 0) then [] else [ScrollEvent 0 (m_dz m)]) ++
         (if decide (b = b') then [] else [ButtonEvent (m_left m) (m_middle m) (m_right m)])).

Fixpoint moved (b : buttons) (ps : list Packet) : buttons * list Event :=
  match ps with
  | [] => (b, [])
  | Stray _ :: ps => moved b ps
  | Move m :: ps => let '(b, es) := move_events b m in let '(b, es') := moved b ps in (b, es ++ es')
  end.

(** ** One byte *)

Section steps.
Context {TG : Target} {OK : OrbKeys} {PH : Ps2Host}.
Implicit Types s : Ps2d.

(** The keyboard's part of the state, the mouse's, and the rest *)
Definition kb_of s : bool * bool * bool := (extended s, lshift s, rshift s).
Definition ms_of s : list Z * nat * buttons := (packets s, packet_i s, (mouse_left s, mouse_middle s, mouse_right s)).
Definition rest_of s : bool * bool * (Z -> bool -> Z) := (vmmouse s, extra_packet s, keymap_fn s).

(** What a byte does to the keyboard's part, and the events *)
Definition kb_step (f : Z -> bool -> Z) (st : bool * bool * bool) (d : Z) : (bool * bool * bool) * list Event :=
  let '(e, l, r) := st in
  if d =? 0xE0 then ((true, l, r), [])
  else
    let '(c, p) := if 0x80 <=? d then (d - 0x80, false) else (d, true) in
    let sc := if e then extended_scancode c else plain_scancode c in
    let '(l, r) := if sc =? K_LEFT_SHIFT then (p, r) else if sc =? K_RIGHT_SHIFT then (l, p) else (l, r) in
    ((false, l, r), if sc =? 0 then [] else [KeyEvent (f c (l || r)) sc p]).

Definition button_events (b b' : buttons) : list Event := if decide (b = b') then [] else [ButtonEvent b'.1.1 b'.1.2 b'.2].

Definition packet_events (flags : Z) (extra : bool) (p : list Z) (b : buttons) : buttons * list Event :=
  if negb (contains flags X_OVERFLOW) && negb (contains flags Y_OVERFLOW) then
    let dx := nth 1 p 0 in
    let dx := if contains flags X_SIGN then dx - 0x100 else dx in
    let dy := - nth 2 p 0 in
    let dy := if contains flags Y_SIGN then dy + 0x100 else dy in
    let scroll := Z.land (nth 3 p 0) 0xF in
    let scroll := if contains scroll (Z.shiftl 1 3) then scroll - 16 else scroll in
    let dz := if extra then - scroll else 0 in
    let b' := (contains flags LEFT_BUTTON, contains flags MIDDLE_BUTTON, contains flags RIGHT_BUTTON) in
    (b', (if negb (dx =? 0) || negb (dy =? 0) then [MouseRelativeEvent dx dy] else []) ++
         (if negb (dz =? 0) then [ScrollEvent 0 dz] else []) ++ button_events b b')
  else (b, []).

Definition ms_step (extra : bool) (st : list Z * nat * buttons) (d : Z) : (list Z * nat * buttons) * list Event :=
  let '(p, i, b) := st in
  let p := <[i := d]> p in
  let i := Datatypes.S i in
  let flags := nth 0 p 0 in
  if negb (contains flags ALWAYS_ON) then (([0; 0; 0; 0], 0%nat, b), [])
  else if (length p <=? i)%nat || (negb extra && (3 <=? i)%nat) then
    let '(b, es) := packet_events flags extra p b in (([0; 0; 0; 0], 0%nat, b), es)
  else ((p, i, b), []).

(** There is room for the next byte. *)
Definition ms_ok (st : list Z * nat * buttons) : Prop := length st.1.1 = 4%nat /\ (st.1.2 < 4)%nat.

Lemma ms_step_ok extra st d : ms_ok st -> ms_ok (ms_step extra st d).1.
Proof.
  destruct st as [[p i] b]. intros [Hl Hi]. cbn in *. unfold ms_step.
  assert (length (<[i := d]> p) = 4%nat) as Hl' by by rewrite length_insert.
  destruct (negb _); [split; cbn; lia |]. rewrite Hl'.
  destruct (_ || _) eqn:E; [destruct (packet_events _ _ _ _); split; cbn; lia |]. apply orb_false_iff in E as [E _]. split; cbn; [done |]. apply Nat.leb_gt in E. lia.
Qed.

Hypothesis takes_all : forall l e, takes l e = true.

Lemma write_event_run e s : write_event e s = (Ok tt, set_input (input s ++ [e]) s).
Proof. unfold write_event. rewrite gets_bind. by rewrite takes_all. Qed.

Lemma ps2_bind {A B} (m : M Ps2d A) (k : A -> M Ps2d B) s a s' : m s = (Ok a, s') -> (m ≫= k) s = k a s'.
Proof. unfold mbind, M_bind. by intros ->. Qed.

Lemma write_if_run (b : bool) e s :
  (if b then write_event e else mret tt) s = (Ok tt, set_input (input s ++ if b then [e] else []) s).
Proof. destruct b; [apply write_event_run |]. rewrite app_nil_r. by destruct s. Qed.

(** A byte changes its own part, and adds its events. *)
Record adds (evs : list Event) s s' : Prop := {
  ad_input : input s' = input s ++ evs;
  ad_rest : rest_of s' = rest_of s
}.

Lemma handle_key_run d s :
  exists s', handle true d s = (Ok tt, s') /\ adds (kb_step (keymap_fn s) (kb_of s) d).2 s s' /\
    kb_of s' = (kb_step (keymap_fn s) (kb_of s) d).1 /\ ms_of s' = ms_of s.
Proof.
  unfold handle, handle_key, kb_step, kb_of. destruct (d =? 0xE0).
  { eexists. split; [reflexivity |]. split; [split; [cbn; by rewrite app_nil_r | done] | done]. }
  destruct (if 0x80 <=? d then _ else _) as [c p]. rewrite gets_bind.
  cbv beta iota zeta. set (sc := if extended s then extended_scancode c else plain_scancode c).
  assert (forall k : Z -> M Ps2d unit, ((if extended s then modify (fun s => set_keys false (lshift s) (rshift s) s);; mret (extended_scancode c)
    else mret (plain_scancode c)) ≫= k) s = k sc (set_keys false (lshift s) (rshift s) s)) as ->.
  { intros k. unfold sc. destruct (extended s) eqn:E; [done |]. rewrite ret_bind. f_equal. destruct s; cbn in *; by subst. }
  destruct (sc =? K_LEFT_SHIFT); [| destruct (sc =? K_RIGHT_SHIFT)].
  all: first [rewrite modify_bind | rewrite ret_bind]; destruct (sc =? 0); [eexists; split; [reflexivity |] | rewrite gets_bind, write_event_run; eexists; split; [reflexivity |]].
  all: split; [split; [cbn; by rewrite ?app_nil_r | done] | done].
Qed.

Lemma tell_buttons_run l m r s :
  tell_buttons l m r s = (Ok tt, set_input (input s ++ button_events (mouse_left s, mouse_middle s, mouse_right s) (l, m, r)) (set_buttons l m r s)).
Proof.
  unfold tell_buttons, button_events. rewrite gets_bind. cbn [id].
  destruct (decide _) as [[= <- <- <-] | Hne].
  - rewrite !Bool.eqb_reflx. cbn. rewrite app_nil_r. by destruct s.
  - rewrite modify_bind || idtac. destruct (_ || _) eqn:E; [by rewrite modify_bind, write_event_run |]. exfalso. apply Hne.
    apply orb_false_iff in E as [[E1 E2]%orb_false_iff E3]. apply negb_false_iff in E1, E2, E3.
    apply Bool.eqb_prop in E1, E2, E3. by subst.
Qed.

Lemma mouse_packet_run flags p s :
  let out := packet_events flags (extra_packet s) p (mouse_left s, mouse_middle s, mouse_right s) in
  mouse_packet flags (extra_packet s) p s = (Ok tt, set_input (input s ++ out.2) (set_buttons out.1.1.1 out.1.1.2 out.1.2 s)).
Proof.
  unfold mouse_packet, packet_events. cbv zeta. destruct (negb (contains flags X_OVERFLOW) && _); [| cbn; rewrite app_nil_r; by destruct s].
  set (dx := if contains flags X_SIGN then _ else _). set (dy := if contains flags Y_SIGN then _ else _).
  set (dz := if extra_packet s then _ else _). clearbody dx dy dz. cbn [fst snd].
  erewrite ps2_bind by apply write_if_run. erewrite ps2_bind by apply write_if_run. rewrite tell_buttons_run. cbn. by rewrite <- !app_assoc.
Qed.

Lemma handle_mouse_run d s :
  vmmouse s = false -> ms_ok (ms_of s) ->
  exists s', handle false d s = (Ok tt, s') /\ adds (ms_step (extra_packet s) (ms_of s) d).2 s s' /\
    ms_of s' = (ms_step (extra_packet s) (ms_of s) d).1 /\ kb_of s' = kb_of s.
Proof.
  intros Hvm [Hl Hi]. cbn in Hl, Hi. unfold handle. rewrite gets_bind, Hvm. unfold handle_mouse. rewrite gets_bind. cbn [id].
  rewrite Hl, (proj2 (Nat.ltb_lt _ _) Hi), ret_bind, modify_bind. unfold ms_step, ms_of. cbv beta iota zeta.
  set (p := <[packet_i s := d]> (packets s)). set (s1 := set_packets p _ s).
  destruct (negb (contains _ ALWAYS_ON)).
  { eexists. split; [reflexivity |]. split; [split; [cbn; by rewrite app_nil_r | done] | done]. }
  destruct (_ || _).
  - pose proof (mouse_packet_run (nth 0 p 0) p s1) as H. cbv zeta in H. change (extra_packet s1) with (extra_packet s) in H.
    change (mouse_left s1, mouse_middle s1, mouse_right s1) with (mouse_left s, mouse_middle s, mouse_right s) in H.
    destruct (packet_events (nth 0 p 0) (extra_packet s) p (mouse_left s, mouse_middle s, mouse_right s)) as [[[l m] r] es].
    unfold mbind, M_bind. rewrite H. eexists. split; [reflexivity |]. done.
  - exists s1. split; [reflexivity |]. split; [split; [cbn; by rewrite app_nil_r | done] | done].
Qed.

(** ** Streams of bytes *)

(** Bytes of keyboard and mouse, as they come *)
Fixpoint feed (bytes : list (bool * Z)) : M Ps2d unit :=
  match bytes with
  | [] => mret tt
  | (keyboard, d) :: bytes => handle keyboard d;; feed bytes
  end.

Definition only (keyboard : bool) (bytes : list (bool * Z)) : list Z := snd <$> filter (fun x => x.1 = keyboard) bytes.

Definition is_key (e : Event) : bool := match e with KeyEvent _ _ _ => true | _ => false end.
Definition keys (es : list Event) : list Event := filter (fun e => is_key e = true) es.
Definition mouse (es : list Event) : list Event := filter (fun e => is_key e = false) es.

Fixpoint run_steps {St} (step : St -> Z -> St * list Event) (st : St) (ds : list Z) : St * list Event :=
  match ds with
  | [] => (st, [])
  | d :: ds => let '(st, es) := step st d in let '(st, es') := run_steps step st ds in (st, es ++ es')
  end.

Lemma run_steps_app {St} (step : St -> Z -> St * list Event) st l1 l2 :
  run_steps step st (l1 ++ l2) =
    ((run_steps step (run_steps step st l1).1 l2).1, (run_steps step st l1).2 ++ (run_steps step (run_steps step st l1).1 l2).2).
Proof.
  revert st. induction l1 as [| d l1 IH]; intros st; cbn [app run_steps fst snd]; [by destruct (run_steps step st l2) |].
  destruct (step st d) as [st1 es]. rewrite IH. destruct (run_steps step st1 l1) as [st2 es2]. cbn.
  by rewrite (assoc_L (++)).
Qed.

Lemma kb_step_keys f st d : keys (kb_step f st d).2 = (kb_step f st d).2 /\ mouse (kb_step f st d).2 = [].
Proof. unfold kb_step. destruct st as [[e l] r]. destruct (d =? 0xE0); [done |]. destruct (if 0x80 <=? d then _ else _) as [c p]. cbv zeta.
  set (sc := if e then _ else _). destruct (if sc =? K_LEFT_SHIFT then _ else _) as [l' r']. by destruct (sc =? 0).
Qed.

Lemma ms_step_mouse extra st d : mouse (ms_step extra st d).2 = (ms_step extra st d).2 /\ keys (ms_step extra st d).2 = [].
Proof.
  unfold ms_step. destruct st as [[p i] b]. destruct (negb (contains _ ALWAYS_ON)); [done |]. destruct (_ || _); [| done].
  unfold packet_events, button_events. destruct (negb (contains _ X_OVERFLOW) && _); [| done]. cbv zeta. cbn [snd].
  destruct (negb (_ =? 0) || _), (negb (_ =? 0)), (decide (b = _)); done.
Qed.

(** Whatever the bytes, the state machine takes them all, and tells the events of both parts. *)
Lemma feed_run bytes s :
  vmmouse s = false -> ms_ok (ms_of s) ->
  let kb := run_steps (kb_step (keymap_fn s)) (kb_of s) (only true bytes) in
  let ms := run_steps (ms_step (extra_packet s)) (ms_of s) (only false bytes) in
  exists s' evs, feed bytes s = (Ok tt, s') /\ adds evs s s' /\ kb_of s' = kb.1 /\ ms_of s' = ms.1 /\
    keys evs = kb.2 /\ mouse evs = ms.2.
Proof.
  revert s. induction bytes as [| [b d] bytes IH]; intros s Hvm Hok; cbv zeta.
  { exists s, []. split_and!; try done. split; [by rewrite app_nil_r | done]. }
  cbn [feed]. destruct b.
  - destruct (handle_key_run d s) as (s1 & E1 & [Hi Hr] & Hk & Hm). erewrite ps2_bind by exact E1.
    assert (vmmouse s1 = false /\ extra_packet s1 = extra_packet s /\ keymap_fn s1 = keymap_fn s) as (R1 & R2 & R3).
    { unfold rest_of in Hr. by injection Hr as -> -> ->. }
    destruct (IH s1 R1) as (s2 & evs & E2 & [Hi2 Hr2] & Hk2 & Hm2 & Hke & Hme); [by rewrite Hm |].
    exists s2, ((kb_step (keymap_fn s) (kb_of s) d).2 ++ evs). rewrite R2, R3, Hk, Hm in *.
    change (only true ((true, d) :: bytes)) with (d :: only true bytes). change (only false ((true, d) :: bytes)) with (only false bytes).
    cbn [run_steps]. destruct (kb_step_keys (keymap_fn s) (kb_of s) d) as [F1 F2].
    destruct (kb_step (keymap_fn s) (kb_of s) d) as [kb es] eqn:Ek. cbn [fst snd] in *.
    destruct (run_steps (kb_step (keymap_fn s)) kb (only true bytes)) as [kb2 es2] eqn:Er. cbn [fst snd] in *.
    split_and!; try done; [| unfold keys in *; by rewrite filter_app, F1, Hke | unfold mouse in *; by rewrite filter_app, F2, Hme].
    split; [by rewrite Hi2, Hi, <- (assoc_L (++)) | congruence].
  - destruct (handle_mouse_run d s Hvm Hok) as (s1 & E1 & [Hi Hr] & Hm & Hk). erewrite ps2_bind by exact E1.
    assert (vmmouse s1 = false /\ extra_packet s1 = extra_packet s /\ keymap_fn s1 = keymap_fn s) as (R1 & R2 & R3).
    { unfold rest_of in Hr. by injection Hr as -> -> ->. }
    destruct (IH s1 R1) as (s2 & evs & E2 & [Hi2 Hr2] & Hk2 & Hm2 & Hke & Hme); [rewrite Hm; by apply ms_step_ok |].
    exists s2, ((ms_step (extra_packet s) (ms_of s) d).2 ++ evs). rewrite R2, R3, Hk, Hm in *.
    change (only false ((false, d) :: bytes)) with (d :: only false bytes). change (only true ((false, d) :: bytes)) with (only true bytes).
    cbn [run_steps]. destruct (ms_step_mouse (extra_packet s) (ms_of s) d) as [F1 F2].
    destruct (ms_step (extra_packet s) (ms_of s) d) as [ms es] eqn:Ek. cbn [fst snd] in *.
    destruct (run_steps (ms_step (extra_packet s)) ms (only false bytes)) as [ms2 es2] eqn:Er. cbn [fst snd] in *.
    split_and!; try done; [| unfold keys in *; by rewrite filter_app, F2, Hke | unfold mouse in *; by rewrite filter_app, F1, Hme].
    split; [by rewrite Hi2, Hi, <- (assoc_L (++)) | congruence].
Qed.

(** *** The keyboard *)

Context {OL : OrbKeysLaws}.

Lemma down_snoc c past k :
  down c (past ++ [k]) = if negb (k_ext k) && (k_code k =? c) then k_pressed k else down c past.
Proof.
  unfold down. rewrite filter_app. destruct (negb (k_ext k) && (k_code k =? c)) eqn:E.
  - apply andb_true_iff in E as [E1%negb_true_iff E2%Z.eqb_eq]. by rewrite filter_cons_True, filter_nil, last_snoc by done.
  - rewrite filter_cons_False, filter_nil, app_nil_r; [done |]. intros [E1 E2]. rewrite E1, E2, Z.eqb_refl in E. done.
Qed.

(** Only the shift keys have their codes. *)
Lemma shift_codes k :
  (code_of k =? K_LEFT_SHIFT) = negb (k_ext k) && (k_code k =? 0x2A) /\
  (code_of k =? K_RIGHT_SHIFT) = negb (k_ext k) && (k_code k =? 0x36).
Proof.
  pose proof left_shift_own as [Hlr Hl]%not_elem_of_cons. pose proof right_shift_own as Hr.
  assert (code_of k ∈ other_codes -> (code_of k =? K_LEFT_SHIFT) = false /\ (code_of k =? K_RIGHT_SHIFT) = false) as Hno.
  { intros Hin. split; apply Z.eqb_neq; intros E; rewrite E in Hin; auto. }
  unfold code_of in *. destruct (k_ext k); cbn [negb andb]; [apply Hno, extended_other |].
  destruct (Z.eqb_spec (k_code k) 0x2A) as [-> |]; [| destruct (Z.eqb_spec (k_code k) 0x36) as [-> |]].
  - change (plain_scancode 0x2A) with K_LEFT_SHIFT. rewrite Z.eqb_refl. split; [done |]. by apply Z.eqb_neq.
  - change (plain_scancode 0x36) with K_RIGHT_SHIFT. rewrite Z.eqb_refl. split; [by apply Z.eqb_neq, not_eq_sym | done].
  - by apply Hno, plain_other.
Qed.

Lemma keystroke_decoded f past k :
  key_ok k ->
  run_steps (kb_step f) (false, down 0x2A past, down 0x36 past) (key_bytes k) =
    ((false, down 0x2A (past ++ [k]), down 0x36 (past ++ [k])), typed f past [k]).
Proof.
  intros [Hc Hp].
  assert (forall e l r, kb_step f (e, l, r) (if k_pressed k then k_code k else k_code k + 0x80) =
    let sc := if e then extended_scancode (k_code k) else plain_scancode (k_code k) in
    let '(l, r) := if sc =? K_LEFT_SHIFT then (k_pressed k, r) else if sc =? K_RIGHT_SHIFT then (l, k_pressed k) else (l, r) in
    ((false, l, r), if sc =? 0 then [] else [KeyEvent (f (k_code k) (l || r)) sc (k_pressed k)])) as Hstep.
  { intros e l r. unfold kb_step. destruct (k_pressed k).
    - rewrite (proj2 (Z.eqb_neq _ _)), (proj2 (Z.leb_gt _ _)) by lia. done.
    - specialize (Hp eq_refl). rewrite (proj2 (Z.eqb_neq _ _)), (proj2 (Z.leb_le _ _)) by lia. by replace (k_code k + 0x80 - 0x80) with (k_code k) by lia. }
  assert (run_steps (kb_step f) (false, down 0x2A past, down 0x36 past) (key_bytes k) =
    let '(st, es) := kb_step f (k_ext k, down 0x2A past, down 0x36 past) (if k_pressed k then k_code k else k_code k + 0x80) in (st, es)) as ->.
  { unfold key_bytes. destruct (k_ext k); cbn [app run_steps]; [change (kb_step f (false, down 0x2A past, down 0x36 past) 0xE0) with ((true, down 0x2A past, down 0x36 past), @nil Event) |];
      cbv beta iota; destruct (kb_step f _ _); by rewrite app_nil_r. }
  rewrite Hstep. cbn [typed]. rewrite app_nil_r, !down_snoc. destruct (shift_codes k) as [S1 S2]. fold (code_of k). cbv zeta. rewrite S1, S2.
  destruct (negb (k_ext k)); cbn [andb]; [| done].
  destruct (Z.eqb_spec (k_code k) 0x2A) as [-> |]; [done |]. by destruct (k_code k =? 0x36).
Qed.

Lemma typed_cons f past k ks : typed f past (k :: ks) = typed f past [k] ++ typed f (past ++ [k]) ks.
Proof. cbn [typed]. by rewrite app_nil_r. Qed.

Lemma keys_decoded f past ks :
  Forall key_ok ks ->
  run_steps (kb_step f) (false, down 0x2A past, down 0x36 past) (concat (key_bytes <$> ks)) =
    ((false, down 0x2A (past ++ ks), down 0x36 (past ++ ks)), typed f past ks).
Proof.
  revert past. induction ks as [| k ks IH]; intros past Hok; [cbn; by rewrite app_nil_r |].
  apply Forall_cons in Hok as [Hk Hok]. rewrite fmap_cons. cbn [concat]. rewrite run_steps_app, (keystroke_decoded f past k Hk). cbn [fst snd].
  rewrite IH by done. cbn [fst snd]. rewrite (typed_cons f past k ks). by rewrite <- (assoc_L (++)).
Qed.

(** *** The mouse *)

Lemma contains_bit flags k : 0 <= k -> contains flags (2 ^ k) = Z.testbit flags k.
Proof. apply land_bit. Qed.

Lemma flag_bits l r mi xs ys xo yo :
  let f := Z.b2z l + 2 * Z.b2z r + 4 * Z.b2z mi + 8 + 16 * Z.b2z xs + 32 * Z.b2z ys + 64 * Z.b2z xo + 128 * Z.b2z yo in
  contains f LEFT_BUTTON = l /\ contains f RIGHT_BUTTON = r /\ contains f MIDDLE_BUTTON = mi /\ contains f ALWAYS_ON = true /\
  contains f X_SIGN = xs /\ contains f Y_SIGN = ys /\ contains f X_OVERFLOW = xo /\ contains f Y_OVERFLOW = yo.
Proof. by destruct l, r, mi, xs, ys, xo, yo. Qed.

Lemma signed_byte x : -256 <= x <= 255 -> (if x <? 0 then x mod 256 - 0x100 else x mod 256) = x.
Proof. intros H. destruct (Z.ltb_spec x 0); Z.div_mod_to_equations; lia. Qed.

Lemma wheel dz rest :
  -7 <= dz <= 8 ->
  let scroll := Z.land ((- dz) mod 16 + 16 * rest) 0xF in
  - (if contains scroll (Z.shiftl 1 3) then scroll - 16 else scroll) = dz.
Proof.
  intros H. change 0xF with (Z.ones 4). rewrite Z.land_ones by lia. change (2 ^ 4) with 16.
  rewrite (Z.mul_comm 16), Z_mod_plus_full, Z.mod_mod by lia.
  assert (dz = -7 \/ dz = -6 \/ dz = -5 \/ dz = -4 \/ dz = -3 \/ dz = -2 \/ dz = -1 \/ dz = 0 \/ dz = 1 \/ dz = 2 \/ dz = 3 \/ dz = 4 \/
    dz = 5 \/ dz = 6 \/ dz = 7 \/ dz = 8) as Hd by lia. by repeat destruct Hd as [-> | Hd]; subst.
Qed.

Lemma packet_events_move extra m b :
  packet_ok extra (Move m) ->
  packet_events (move_flags m) extra
    [move_flags m; m_dx m mod 256; (- m_dy m) mod 256; if extra then (- m_dz m) mod 16 + 16 * m_rest m else 0] b = move_events b m.
Proof.
  intros (Hx & Hy & Hz).
  destruct (flag_bits (m_left m) (m_right m) (m_middle m) (m_dx m <? 0) (0 <? m_dy m) (m_xo m) (m_yo m)) as (Fl & Fr & Fm & _ & Fxs & Fys & Fxo & Fyo).
  fold (move_flags m) in *. unfold packet_events, move_events. rewrite Fl, Fr, Fm, Fxs, Fys, Fxo, Fyo. cbn [nth].
  rewrite signed_byte by done.
  assert ((if 0 <? m_dy m then - ((- m_dy m) mod 256) + 0x100 else - ((- m_dy m) mod 256)) = m_dy m) as ->.
  { destruct (Z.ltb_spec 0 (m_dy m)); Z.div_mod_to_equations; lia. }
  assert ((if extra then - (let scroll := Z.land (if extra then (- m_dz m) mod 16 + 16 * m_rest m else 0) 0xF in
    if contains scroll (Z.shiftl 1 3) then scroll - 16 else scroll) else 0) = m_dz m) as Hw.
  { destruct extra; [by apply wheel | done]. }
  cbv zeta in Hw |- *. rewrite Hw. destruct (m_xo m), (m_yo m); cbn [negb andb orb]; try done. unfold button_events. f_equal.
  destruct (Z.eqb_spec (m_dx m) 0), (Z.eqb_spec (m_dy m) 0), (Z.eqb_spec (m_dz m) 0); cbn [negb orb]; repeat case_decide; tauto || done.
Qed.

Lemma packet_decoded extra b p :
  packet_ok extra p ->
  run_steps (ms_step extra) ([0; 0; 0; 0], 0%nat, b) (packet_bytes extra p) = (([0; 0; 0; 0], 0%nat, (moved b [p]).1), (moved b [p]).2).
Proof.
  intros Hp. destruct p as [d | m].
  - assert (contains d ALWAYS_ON = false) as Fa by (unfold ALWAYS_ON; by rewrite contains_bit).
    cbn [packet_bytes moved fst snd run_steps ms_step insert list_insert nth]. by rewrite Fa.
  - pose proof (packet_events_move extra m b Hp) as He.
    destruct (flag_bits (m_left m) (m_right m) (m_middle m) (m_dx m <? 0) (0 <? m_dy m) (m_xo m) (m_yo m)) as (_ & _ & _ & Fa & _). fold (move_flags m) in Fa.
    cbn [moved]. unfold packet_bytes. destruct (move_events b m) as [b' es]. set (fl := move_flags m) in *. clearbody fl.
    set (x := m_dx m mod 256) in *. set (y := (- m_dy m) mod 256) in *.
    destruct extra; [set (w := (- m_dz m) mod 16 + 16 * m_rest m) in *|];
      cbn [app run_steps ms_step insert list_insert nth length Nat.leb negb andb orb]; rewrite Fa; cbn [negb];
      cbn [app run_steps ms_step insert list_insert nth length Nat.leb negb andb orb]; rewrite Fa; cbn [negb];
      cbn [app run_steps ms_step insert list_insert nth length Nat.leb negb andb orb]; rewrite Fa; cbn [negb].
    + cbn [app run_steps ms_step insert list_insert nth length Nat.leb negb andb orb]. rewrite Fa. cbn [negb]. by rewrite He, app_nil_r.
    + by rewrite He, app_nil_r.
Qed.

Lemma moved_app b l1 l2 : moved b (l1 ++ l2) = ((moved (moved b l1).1 l2).1, (moved b l1).2 ++ (moved (moved b l1).1 l2).2).
Proof.
  revert b. induction l1 as [| [d | m] l1 IH]; intros b; cbn [app moved fst snd]; [by destruct (moved b l2) | apply IH |].
  destruct (move_events b m) as [b' es]. rewrite IH. destruct (moved b' l1) as [b2 es2]. cbn. by rewrite (assoc_L (++)).
Qed.

Lemma packets_decoded extra b ps :
  Forall (packet_ok extra) ps ->
  run_steps (ms_step extra) ([0; 0; 0; 0], 0%nat, b) (concat (packet_bytes extra <$> ps)) = (([0; 0; 0; 0], 0%nat, (moved b ps).1), (moved b ps).2).
Proof.
  revert b. induction ps as [| p ps IH]; intros b Hok; [done |]. apply Forall_cons in Hok as [Hp Hok].
  rewrite fmap_cons. cbn [concat]. rewrite run_steps_app, (packet_decoded extra b p Hp). cbn [fst snd]. rewrite IH by done.
  change (p :: ps) with ([p] ++ ps). by rewrite (moved_app b [p] ps).
Qed.

(** *** Both *)

(** Between key strokes and between packets, after the strokes [past] *)
Definition idle (past : list Keystroke) s : Prop :=
  vmmouse s = false /\ kb_of s = (false, down 0x2A past, down 0x36 past) /\ (packets s, packet_i s) = ([0; 0; 0; 0], 0%nat).


(** Whatever bytes come, none makes the state machine panic. *)
Lemma any_bytes_handled bytes s : vmmouse s = false -> ms_ok (ms_of s) -> (feed bytes s).1 = Ok tt.
Proof. intros Hvm Hok. destruct (feed_run bytes s Hvm Hok) as (s' & evs & E & _). by rewrite E. Qed.
End steps.

(** ** The daemon *)

Section daemon.
Context {TG : Target} {SC : Syscall} {AB : SchemeAbi} {DE : DirentEntry} {OK : OrbKeys} {PH : Ps2Host}.
Implicit Types w : Daemon.

(** What is read from a device goes through the state machine byte by byte. *)
Lemma handle_all_feed keyboard data s : handle_all keyboard data s = feed ((fun b => (keyboard, Z_of_byte b)) <$> data) s.
Proof.
  revert s. induction data as [| b data IH]; intros s; [done |]. cbn [handle_all fmap list_fmap feed].
  unfold mbind, M_bind. destruct (handle keyboard (Z_of_byte b) s) as [[[] | |] s']; [apply IH | done..].
Qed.

(** The keymap stays as long as nobody changes it. *)
Definition same_map {A} (m : M Ps2d A) : Prop := forall s, (m s).2.(keymap_fn) = keymap_fn s.

Lemma same_bind {A B} (m : M Ps2d A) (k : A -> M Ps2d B) : same_map m -> (forall a, same_map (k a)) -> same_map (m ≫= k).
Proof.
  intros Hm Hk s. specialize (Hm s). unfold mbind, M_bind. destruct (m s) as [[a | |] s']; cbn in *; [by rewrite Hk, Hm | done..].
Qed.
Lemma same_gets {A} (f : Ps2d -> A) : same_map (gets f). Proof. done. Qed.
Lemma same_ret {A} (a : A) : same_map (mret a). Proof. done. Qed.
Lemma same_panic {A} : same_map (panic : M Ps2d A). Proof. done. Qed.
Lemma same_modify f : (forall s, keymap_fn (f s) = keymap_fn s) -> same_map (modify f). Proof. intros Hf s. apply Hf. Qed.
Lemma same_unwrap {A} (o : option A) : same_map (unwrap o). Proof. by destruct o. Qed.
Create HintDb same_map.
#[local] Hint Resolve same_gets same_ret same_panic same_unwrap : same_map.

Ltac same :=
  repeat first
    [ assumption
    | apply same_bind; [| intros ?]
    | solve [auto with same_map]
    | apply same_modify; by intros ?
    | match goal with |- same_map (match ?x with _ => _ end) => destruct x end
    | match goal with |- same_map ((match ?x with _ => _ end) _) => destruct x end ].

Lemma same_write_event e : same_map (write_event e).
Proof. unfold write_event. same. Qed.
Lemma same_cmd c a : same_map (cmd c a).
Proof. unfold cmd. same. Qed.
Lemma same_neg x : same_map (neg_i32 x).
Proof. unfold neg_i32. same. Qed.
#[local] Hint Resolve same_write_event same_cmd same_neg : same_map.
Lemma same_tell_buttons l m r : same_map (tell_buttons l m r).
Proof. unfold tell_buttons. same. Qed.
#[local] Hint Resolve same_tell_buttons : same_map.
Lemma same_vm_loop n : same_map (vm_loop n).
Proof. induction n as [| n IH]; cbn [vm_loop]; same. Qed.
Lemma same_mouse_packet fl x p : same_map (mouse_packet fl x p).
Proof. unfold mouse_packet. same. Qed.
#[local] Hint Resolve same_vm_loop same_mouse_packet : same_map.
Lemma same_map_handle k d : same_map (handle k d).
Proof.
  unfold handle. destruct k; [unfold handle_key; same |]. apply same_bind; [by auto with same_map | intros [|]].
  - apply same_vm_loop.
  - unfold handle_mouse. same.
Qed.
#[local] Hint Resolve same_map_handle : same_map.
Lemma same_handle_all k data : same_map (handle_all k data).
Proof. induction data as [| b data IH]; cbn [handle_all]; same. Qed.
Lemma same_enable b : same_map (enable b).
Proof. unfold enable. same. Qed.

Lemma serve_all_ps2d rs w : ps2d (serve_all rs w).2 = ps2d w /\ keymap_name (serve_all rs w).2 = keymap_name w.
Proof.
  revert w. induction rs as [| r rs IH]; intros w; [done |]. cbn [serve_all]. unfold mbind, M_bind, on_scheme, zoom.
  destruct (turn r (scheme_handle w, callers w)) as [[[resp |] | |] x]; cbn [fst snd modify mret M_ret]; [| | done..].
  - destruct (IH (add_response resp {| ps2d := ps2d w; scheme_handle := x.1; keymap_name := keymap_name w; callers := x.2; responses := responses w |})) as [-> ->]. done.
  - destruct (IH {| ps2d := ps2d w; scheme_handle := x.1; keymap_name := keymap_name w; callers := x.2; responses := responses w |}) as [-> ->]. done.
Qed.

(** A keymap is found under its own name. *)
Lemma own_name k : get_keymap_from_str (get_keymap_from_str k).2 = get_keymap_from_str k.
Proof. unfold get_keymap_from_str at 2 3. repeat case_bool_decide; by vm_compute. Qed.

(** The keymap in use has the name that the daemon remembers, and is the one that the scheme names. *)
Definition map_ok w : Prop :=
  get_keymap_from_str (keymap_name w) = (keymap_fn (ps2d w), keymap_name w) /\
  keymap_fn (ps2d w) = (get_keymap_from_str (keymap (scheme_handle w))).1.

Lemma on_bytes_map_ok k data w w' : map_ok w -> on_ps2d (handle_all k data) w = (Ok tt, w') -> map_ok w'.
Proof.
  intros [H1 H2]. unfold on_ps2d, zoom. pose proof (same_handle_all k data (ps2d w)) as Hs.
  destruct (handle_all k data (ps2d w)) as [o p]. intros E. injection E as _ <-. unfold map_ok. cbn in *. by rewrite Hs.
Qed.

Lemma on_event_map_ok e w w' : map_ok w -> on_event e w = (Ok tt, w') -> map_ok w'.
Proof.
  intros Hm. destruct e as [data | data | rs]; cbn [on_event].
  1-2: by apply on_bytes_map_ok.
  destruct Hm as [H1 H2].
  pose proof (serve_all_ps2d rs w) as [P1 P2]. unfold mbind, M_bind. destruct (serve_all rs w) as [[[] | |] w1]; [| done..].
  cbn [fst snd gets id] in *. case_bool_decide as Hn.
  - intros [= <-]. unfold map_ok. rewrite P1, P2. split; [done |]. by rewrite <- Hn, P2, H1.
  - pose proof (own_name (keymap (scheme_handle w1))) as Hown. destruct (get_keymap_from_str (keymap (scheme_handle w1))) as [f name] eqn:E.
    unfold modify, on_ps2d, update_keymap, zoom. intros [= <-]. unfold map_ok. cbn in *. by rewrite E.
Qed.

(** The daemon, started and driven by events until one makes it panic *)
Inductive running (arg : option string) (extra : bool) (mem : memory) : Daemon -> Prop :=
| run_start w : Daemon_new arg extra mem = (Ok tt, w) -> running arg extra mem w
| run_event e w w' : running arg extra mem w -> on_event e w = (Ok tt, w') -> running arg extra mem w'.

(** Whatever requests are made and whatever is typed and moved, the
    characters of keys are those of the keymap that the scheme names, the us keymap
    when there is none of that name. *)
Theorem keymap_follows arg extra mem w :
  running arg extra mem w -> keymap_fn (ps2d w) = (get_keymap_from_str (keymap (scheme_handle w))).1.
Proof.
  intros H. enough (map_ok w) as Hok by apply Hok. induction H as [w E | e w w' _ IH E]; [| by eapply on_event_map_ok].
  unfold Daemon_new in E. set (k := match arg with Some k => get_keymap_from_str k | None => _ end) in E.
  assert (get_keymap_from_str k.2 = k) as Hk by (unfold k; destruct arg; [apply own_name | done]). clearbody k. destruct k as [f name].
  unfold Ps2d_new in E. pose proof (same_bind _ (fun b => modify (set_vmmouse b)) (same_enable false) (fun b => same_modify _ (fun _ => eq_refl)) (Ps2d_fields extra f)) as Hs.
  destruct ((b ← enable false; modify (set_vmmouse b)) (Ps2d_fields extra f)) as [o p]. injection E as -> <-. cbn in *.
  split; cbn; [by rewrite Hs | by rewrite Hk, Hs].
Qed.
End daemon.

(** ** Witnesses, and what the model showed *)

Section demo.
#[local] Existing Instance redox_syscall.
#[local] Existing Instance x86_64_release.
#[local] Existing Instance Schemes.demo_abi.

(** Some numbering of the keys *)
#[local] Instance demo_keys : OrbKeys := {|
  K_ESC := 0x1; K_1 := 0x2; K_2 := 0x3; K_3 := 0x4; K_4 := 0x5; K_5 := 0x6; K_6 := 0x7; K_7 := 0x8; K_8 := 0x9;
  K_9 := 0xa; K_0 := 0xb; K_MINUS := 0xc; K_EQUALS := 0xd; K_BKSP := 0xe; K_TAB := 0xf; K_Q := 0x10; K_W := 0x11;
  K_E := 0x12; K_R := 0x13; K_T := 0x14; K_Y := 0x15; K_U := 0x16; K_I := 0x17; K_O := 0x18; K_P := 0x19;
  K_BRACE_OPEN := 0x1a; K_BRACE_CLOSE := 0x1b; K_ENTER := 0x1c; K_CTRL := 0x1d; K_A := 0x1e; K_S := 0x1f;
  K_D := 0x20; K_F := 0x21; K_G := 0x22; K_H := 0x23; K_J := 0x24; K_K := 0x25; K_L := 0x26; K_SEMICOLON := 0x27;
  K_QUOTE := 0x28; K_TICK := 0x29; K_LEFT_SHIFT := 0x2a; K_BACKSLASH := 0x2b; K_Z := 0x2c; K_X := 0x2d; K_C := 0x2e;
  K_V := 0x2f; K_B := 0x30; K_N := 0x31; K_M := 0x32; K_COMMA := 0x33; K_PERIOD := 0x34; K_SLASH := 0x35;
  K_RIGHT_SHIFT := 0x36; K_ALT := 0x38; K_SPACE := 0x39; K_CAPS := 0x3a; K_F1 := 0x3b; K_F2 := 0x3c; K_F3 := 0x3d;
  K_F4 := 0x3e; K_F5 := 0x3f; K_F6 := 0x40; K_F7 := 0x41; K_F8 := 0x42; K_F9 := 0x43; K_F10 := 0x44; K_NUM_7 := 0x77;
  K_NUM_8 := 0x78; K_NUM_9 := 0x79; K_NUM_4 := 0x74; K_NUM_5 := 0x75; K_NUM_6 := 0x76; K_NUM_1 := 0x71;
  K_NUM_2 := 0x72; K_NUM_3 := 0x73; K_NUM_0 := 0x70; K_F11 := 0x57; K_F12 := 0x58; K_ALT_GR := 0x64; K_HOME := 0x47;
  K_UP := 0x48; K_PGUP := 0x49; K_LEFT := 0x4b; K_RIGHT := 0x4d; K_END := 0x4f; K_DOWN := 0x50; K_PGDN := 0x51;
  K_DEL := 0x53
|}.

#[local] Instance demo_keys_laws : OrbKeysLaws.
Proof. split; intros H; by repeat (apply elem_of_cons in H as [H | H]; [vm_compute in H; congruence |]); apply elem_of_nil in H. Qed.

(** No virtual mouse, and inputd takes everything. *)
#[local] Instance demo_host : Ps2Host := {| vm_cmd _ _ _ := Some (0, 0, 0, 0); takes _ _ := true |}.
#[local] Instance demo_entry : DirentEntry := {| dirent_entry d _ := Ok d |}.

Definition plain (c : Z) (p : bool) : Keystroke := {| k_ext := false; k_code := c; k_pressed := p |}.
Definition ext (c : Z) (p : bool) : Keystroke := {| k_ext := true; k_code := c; k_pressed := p |}.

(** Left shift is pressed, then a key, then a cursor key. *)
Definition strokes : list Keystroke := [plain 0x2A true; plain 0x1E true; plain 0x1E false; ext 0x48 true; plain 0x2A false].
(** A stray byte; a movement to the left and up with the wheel and a button; one that overflowed *)
Definition packets_sent : list Packet :=
  [Stray 0x07;
   Move {| m_dx := -3; m_dy := -5; m_dz := 1; m_left := true; m_middle := false; m_right := false; m_xo := false; m_yo := false; m_rest := 2 |};
   Move {| m_dx := 7; m_dy := 0; m_dz := 0; m_left := false; m_middle := false; m_right := false; m_xo := true; m_yo := false; m_rest := 0 |}].
(** Their bytes, one after the other in turns *)
Definition stream : list (bool * Z) :=
  [(true, 0x2A); (false, 0x07); (true, 0x1E); (true, 0x9E); (false, 0x19); (false, 0xFD); (true, 0xE0); (false, 0x05); (false, 0x2F);
   (true, 0x48); (false, 0x48); (false, 0x07); (true, 0xAA); (false, 0x00); (false, 0x00)].

Definition demo_start : Ps2d := Ps2d_fields true (get_char US).


Definition demo_daemon : Daemon := (Daemon_new None true ∅).2.

(** A write of [dvorak] to the file of the keymap, from address 4096 *)
Definition demo_write : Sqe :=
  {| opcode := 4; sqe_tag := 7; sqe_caller := 1; arg0 := 1; arg1 := 4096; arg2 := 6; arg3 := 0; arg4 := 0; arg5 := 0 |}.
Definition demo_after : Daemon :=
  (on_event (Scheme [demo_write])
    {| ps2d := ps2d demo_daemon; scheme_handle := scheme_handle demo_daemon; keymap_name := keymap_name demo_daemon;
       callers := store 4096 (as_bytes "dvorak") ∅; responses := [] |}).2.

Lemma demo_running : running None true (store 4096 (as_bytes "dvorak") ∅) demo_after.
Proof.
  eapply (run_event _ _ _ (Scheme [demo_write])); [by apply run_start |]. by vm_compute.
Qed.

Lemma keymap_follows_witness : keymap_fn (ps2d demo_after) 0x10 false = 0x27.
Proof. rewrite (keymap_follows None true _ demo_after demo_running). by vm_compute. Defined.

Definition anyone : CallerCtx := {| ctx_pid := 2; ctx_uid := 1000; ctx_gid := 1000; ctx_id := 0 |}.
Definition demo_scheme : Ps2Scheme := scheme_handle demo_daemon.

(** Any user may open the keymap for reading, and with a buffer that is one byte short the read panics. *)
Lemma short_read_panics :
  (open "keymap" O_RDONLY anyone demo_scheme).1 = Ok (ThisScheme 1 fd_POSITIONED) /\
  (read 1 [x00; x00; x00] 0 0 anyone demo_scheme).1 = Panic.
Proof. by vm_compute. Qed.

(** Opening for writing is for root, but a file that was opened for reading takes the write. *)
Lemma anyone_sets_keymap :
  (open "keymap" O_RDWR anyone demo_scheme).1 = Err EACCES /\
  (open "keymap" O_RDONLY anyone demo_scheme).1 = Ok (ThisScheme 1 fd_POSITIONED) /\
  write 1 (as_bytes "azerty") 0 0 anyone demo_scheme = (Ok 6, set_keymap "azerty" demo_scheme).
Proof. by vm_compute. Qed.

(** The key that mutes (0xE0 0x20) is told with the letter of another key, which a console takes for typed text. *)
Lemma mute_types_d :
  input (feed [(true, 0xE0); (true, 0x20)] demo_start).2 = [KeyEvent 0x64 0xA0 true].
Proof. by vm_compute. Qed.

(** The printable ASCII characters *)
Definition printable : list Z := Z.of_nat <$> seq 32 95.
(** The characters of [cs] that no key types with this keymap *)
Definition untypable (t : list (Z * Z)) (cs : list Z) : list Z :=
  filter (fun c => forallb (fun code => (plain_scancode code =? 0) || (negb (get_char t code false =? c) && negb (get_char t code true =? c)))
                     (Z.of_nat <$> seq 0 128) = true) cs.

(** With us and dvorak every printable ASCII character can be typed; with gb not the backslash and the bar, whose key the
    state machine takes for unused; with azerty not the minus sign, among others. *)
Lemma keymap_coverage :
  untypable US printable = [] /\ untypable DVORAK printable = [] /\ untypable GB printable = [0x5C; 0x7C] /\
  untypable AZERTY printable = [0x23; 0x2D; 0x3C; 0x3E; 0x40; 0x5B; 0x5C; 0x5D; 0x60; 0x7B; 0x7D; 0x7E].
Proof. by vm_compute. Qed.
End demo.
