(* ===== verification/Uds.v ===== *)
(** * ipcd: unix-domain sockets, what streams and datagrams share

    Models [ipcd/src/uds/mod.rs]: packets and their ancillary data, parsing of
    the message stream that a sender passes, and [MsgWriter], which lays a
    received message out in the receiver's buffer.  It also has the tables that
    the two schemes keep in the same way.

    Sockets are in [Rc<RefCell<Socket>>] cells that several tables share: they
    live in the store [heap], and an [Rc] is a key of it.  Two borrows of one
    cell that overlap panic; they are written out where two cells are
    borrowed at once.

    The constants and layouts of [libc] and [redox_rt], the random
    generator, and the answers of the kernel are parameters. *)

From stdpp Require Import base gmap strings list fin_maps.
From Stdlib Require Import ZArith Lia.
From Stdlib Require Import Strings.Byte.
From S2P Require Import Prelude Syscall.

Local Open Scope Z_scope.

(** ** The world outside *)

(** [redox_rt::protocol::SocketCall] *)
Inductive SocketCall :=
| SC_Bind | SC_Connect | SC_SetSockOpt | SC_GetSockOpt | SC_SendMsg | SC_RecvMsg
| SC_Unbind | SC_GetToken | SC_GetPeerName | SC_other.

Class UdsAbi := {
  socket_call : Z -> option SocketCall;
  SOL_SOCKET : Z; SCM_RIGHTS : Z; SO_PASSCRED : Z; SO_DOMAIN : Z; SO_PEERCRED : Z; SO_SNDBUF : Z;
  AF_UNIX : Z; MSG_DONTWAIT : Z;
  (** the bytes of a [libc::ucred] *)
  ucred_bytes : Z -> Z -> Z -> list u8
}.

(** Answers of the kernel and of the random generator, by the number of
    calls made before. *)
Class UdsHost := {
  write_response : nat -> outcome bool;
  next_u64 : nat -> Z;
  get_proc_credentials : nat -> Z -> outcome (list u8);
  obtain_fd : nat -> outcome (nat -> Z);
  move_fd : nat -> list Z -> outcome unit
}.

(** ** Numbers *)

Section numbers.
Context {TG : Target}.

(** [mem::size_of::<usize>()] *)
Definition usize_len : nat := Z.to_nat (usize_bits / 8).

(** [isize::MAX], the most bytes a vector can have; asking for more panics *)
Definition isize_max : Z := 2 ^ (usize_bits - 1) - 1.

(** [x as i32] *)
Definition as_i32 (x : Z) : Z := (x + 2 ^ 31) mod 2 ^ 32 - 2 ^ 31.

Definition read_num (n : nat) (buffer : list u8) : outcome Z :=
  if (n <=? length buffer)%nat then Ok (from_le (take n buffer)) else Err EINVAL.
Definition read_usize : list u8 -> outcome Z := read_num usize_len.
Definition read_i32 (l : list u8) : outcome Z := x ← read_num 4 l; Ok (as_i32 x).

(** [a + b] on [usize] *)
Definition o_usize_add (a b : Z) : outcome Z := (usize_add (S := unit) a b tt).1.

(** [&s[a..]] *)
Definition slice_from (a : Z) (s : list u8) : outcome (list u8) :=
  if a <=? zlen s then Ok (drop (Z.to_nat a) s) else Panic.
End numbers.

(** ** Packets *)

Definition SCM_CREDENTIALS : Z := 2.
Definition MAX_DGRAM_MSG_LEN : Z := 65536.

Record Credential := { c_pid : Z; c_uid : Z; c_gid : Z }.
Record AncillaryData := { cred : Credential; num_fds : Z; a_name : option string }.
Record AncillaryDataHeader := { level : Z; c_type : Z; data_len : Z }.
Record DataPacket := {
  payload : list u8; ancillary_data : AncillaryData; read_offset : nat; ancillary_taken : bool
}.

Definition AncillaryData_new (c : Credential) (name : option string) : AncillaryData :=
  {| cred := c; num_fds := 0; a_name := name |}.
Definition DataPacket_new (payload : list u8) (a : AncillaryData) : DataPacket :=
  {| payload := payload; ancillary_data := a; read_offset := 0; ancillary_taken := false |}.

Section packets.
Context {TG : Target} {UA : UdsAbi}.

(** [MIN_RECV_MSG_LEN] and [CMSG_HEADER_LEN_IN_STREAM] *)
Definition MIN_RECV_MSG_LEN : nat := 2 * usize_len.
Definition CMSG_HEADER_LEN_IN_STREAM : nat := 4 + 4 + usize_len.

Definition header_from_stream (stream : list u8) : outcome (option AncillaryDataHeader) :=
  if (length stream <? CMSG_HEADER_LEN_IN_STREAM)%nat then Ok None
  else
    l ← read_i32 stream;
    t ← read_i32 (drop 4 stream);
    n ← read_usize (drop 8 stream);
    Ok (Some {| level := l; c_type := t; data_len := n |}).

(** One entry of the ancillary data. *)
Definition take_cmsg (h : AncillaryDataHeader) (data : list u8) (msg : DataPacket) : outcome DataPacket :=
  if (level h =? SOL_SOCKET) && (c_type h =? SCM_RIGHTS) then
    n ← read_usize data;
    total ← o_usize_add (num_fds (ancillary_data msg)) n;
    Ok {| payload := payload msg;
          ancillary_data := {| cred := cred (ancillary_data msg); num_fds := total;
                               a_name := a_name (ancillary_data msg) |};
          read_offset := read_offset msg; ancillary_taken := ancillary_taken msg |}
  else if (level h =? SOL_SOCKET) && (c_type h =? SCM_CREDENTIALS) then Ok msg
  else Err EOPNOTSUPP.

(** The [while let]; [None] when it has not ended within the fuel. *)
Fixpoint cmsg_loop (fuel : nat) (stream : list u8) (cursor : Z) (msg : DataPacket) : option (outcome DataPacket) :=
  match fuel with
  | O => None
  | S fuel =>
      match rest ← slice_from cursor stream; header_from_stream rest with
      | Ok None => Some (Ok msg)
      | Ok (Some h) =>
          let cursor := cursor + Z.of_nat CMSG_HEADER_LEN_IN_STREAM in
          match (last ← o_usize_add cursor (data_len h);
                 data ← o_ok_or EINVAL (get_range cursor last stream);
                 msg ← take_cmsg h data msg;
                 Ok (last, msg)) with
          | Ok (last, msg) => cmsg_loop fuel stream last msg
          | Err e => Some (Err e)
          | Panic => Some Panic
          end
      | Err e => Some (Err e)
      | Panic => Some Panic
      end
  end.

(** [DataPacket::from_stream].  Every turn of the loop passes a header, so
    the length of the stream is fuel enough. *)
Definition from_stream (stream : list u8) (name : option string) (c : Credential) : outcome DataPacket :=
  payload_len ← read_usize stream;
  last ← o_usize_add (Z.of_nat usize_len) payload_len;
  payload ← o_ok_or EINVAL (get_range (Z.of_nat usize_len) last stream);
  default Panic (cmsg_loop (S (length stream)) stream last
                   (DataPacket_new payload (AncillaryData_new c name))).

(** [(pid, uid, gid)] out of the bytes of a [ProcMeta]; the uid is the third
    word after the pid, the gid the third after it. *)
Definition creds_of (buffer : outcome (list u8)) : outcome (Z * Z * Z) :=
  match buffer with
  | Ok b =>
      pid ← read_num 4 b;
      uid ← read_num 4 (drop 12 b);
      gid ← read_num 4 (drop 24 b);
      Ok (pid, uid, gid)
  | Err _ => Err EINVAL
  | Panic => Panic
  end.
End packets.

(** ** Received messages *)

(** [MsgWriter]: the buffer it borrows and how far it has written. *)
Record MsgWriter := { buffer : list u8; written_len : nat }.

Section writer.
Context {TG : Target} {UA : UdsAbi}.

Definition put_writer (b : list u8) (n : nat) : M MsgWriter unit :=
  modify (fun _ => {| buffer := b; written_len := n |}).

(** [fpath_inner] of the two schemes, which differ in [PREFIX] *)
Definition fpath_inner (PREFIX : list u8) (path : string) (buf : list u8) : nat * list u8 :=
  let len := common_len PREFIX buf in
  let buf := copy_prefix len PREFIX buf in
  if (len <? length PREFIX)%nat then (len, buf)
  else
    let n := (length (as_bytes path) `min` (length buf - length PREFIX))%nat in
    ((length PREFIX + n)%nat, splice (length PREFIX) (take n (as_bytes path)) buf).

Definition write_name (PREFIX : list u8) (name : option string) (name_buf_size : Z) : M MsgWriter unit :=
  w ← gets id;
  let b := buffer w in let n := written_len w in
  if (length b <? n + usize_len)%nat then put_writer b (length b)
  else match name with
  | Some name =>
      let copy_len := Z.to_nat (Z.min name_buf_size (Z.of_nat (length b - n - usize_len))) in
      let '(name_len, sub) := fpath_inner PREFIX name (take copy_len (drop (n + usize_len) b)) in
      let b := splice (n + usize_len) sub b in
      put_writer (splice n (le_bytes usize_len (Z.of_nat name_len)) b) (n + usize_len + name_len)
  | None => put_writer b (n + usize_len)
  end.

(** [full_len] is at most the length of [payload]. *)
Definition write_payload (payload : list u8) (full_len : nat) (iov_size : Z) : M MsgWriter nat :=
  w ← gets id;
  let b := buffer w in let n := written_len w in
  if (length b <? n + usize_len)%nat then put_writer b (length b);; mret 0%nat
  else
    let b := splice n (le_bytes usize_len (Z.of_nat full_len)) b in
    let n := (n + usize_len)%nat in
    let copy_len := Z.to_nat (Z.min iov_size (Z.of_nat full_len)) in
    if (length b <? n + copy_len)%nat then put_writer b (length b);; mret 0%nat
    else put_writer (splice n (take copy_len payload) b) (n + copy_len);; mret copy_len.

(** The rest of the buffer filled with ones: an incomplete entry. *)
Definition fill_rest (w : MsgWriter) : M MsgWriter bool :=
  put_writer (take (written_len w) (buffer w) ++ replicate (length (buffer w) - written_len w) x01)
    (length (buffer w));; mret false.

Definition write_cmsg (level c_type : Z) (data : list u8) : M MsgWriter bool :=
  w ← gets id;
  let n := written_len w in
  let remaining := (length (buffer w) - n)%nat in
  if (length (buffer w) <? n)%nat then mret false
  else if (remaining <? CMSG_HEADER_LEN_IN_STREAM)%nat then fill_rest w
  else if (remaining <? CMSG_HEADER_LEN_IN_STREAM + length data)%nat then fill_rest w
  else
    let entry := le_bytes 4 level ++ le_bytes 4 c_type ++ le_bytes usize_len (zlen data) ++ data in
    put_writer (splice n entry (buffer w)) (n + length entry);; mret true.

Definition write_rights (num_fds : Z) : M MsgWriter bool :=
  if num_fds =? 0 then mret true else write_cmsg SOL_SOCKET SCM_RIGHTS (le_bytes usize_len num_fds).

Definition write_credentials (c : Credential) : M MsgWriter bool :=
  write_cmsg SOL_SOCKET SCM_CREDENTIALS (le_bytes 4 (c_pid c) ++ le_bytes 4 (c_uid c) ++ le_bytes 4 (c_gid c)).

(** [read_msghdr_info]: the three sizes that the receiver prepared; they are
    cleared. *)
Definition read_msghdr_info : M (list u8) (Z * Z * Z) :=
  stream ← gets id;
  if (length stream <? 3 * usize_len)%nat then throw EINVAL
  else
    a ← lift (read_usize stream);
    b ← lift (read_usize (drop usize_len stream));
    c ← lift (read_usize (drop (2 * usize_len) stream));
    modify (splice 0 (replicate (3 * usize_len) x00));;
    mret (a, b, c).

Definition path_buf_to_str (path_buf : list u8) : outcome string :=
  match from_utf8 path_buf with
  | Some s => if str_is_empty s then Err EINVAL else Ok s
  | None => Err EINVAL
  end.
End writer.

(** ** The tables *)

(** The state of either scheme: [heap] holds the cells, [sockets],
    [socket_paths] and [socket_tokens] hold [Rc]s.  [ticks] counts the calls
    to the host, [posted] is the log of the event messages. *)
Record Uds (K : Type) := {
  sockets : gmap Z nat; next_id : Z; socket_paths : gmap string nat; socket_tokens : gmap Z nat;
  heap : gmap nat K; next_ref : nat; ticks : nat; posted : list (Z * Z)
}.
Arguments sockets {K}. Arguments next_id {K}. Arguments socket_paths {K}. Arguments socket_tokens {K}.
Arguments heap {K}. Arguments next_ref {K}. Arguments ticks {K}. Arguments posted {K}.

Section tables.
Context {TG : Target} {SC : Syscall} {UA : UdsAbi} {UH : UdsHost} {K : Type}.

Definition Uds_new : Uds K :=
  {| sockets := ∅; next_id := 0; socket_paths := ∅; socket_tokens := ∅; heap := ∅; next_ref := 0;
     ticks := 0; posted := [] |}.

Definition set_sockets (x : gmap Z nat) (u : Uds K) : Uds K :=
  {| sockets := x; next_id := next_id u; socket_paths := socket_paths u; socket_tokens := socket_tokens u;
     heap := heap u; next_ref := next_ref u; ticks := ticks u; posted := posted u |}.
Definition set_next_id (x : Z) (u : Uds K) : Uds K :=
  {| sockets := sockets u; next_id := x; socket_paths := socket_paths u; socket_tokens := socket_tokens u;
     heap := heap u; next_ref := next_ref u; ticks := ticks u; posted := posted u |}.
Definition set_paths (x : gmap string nat) (u : Uds K) : Uds K :=
  {| sockets := sockets u; next_id := next_id u; socket_paths := x; socket_tokens := socket_tokens u;
     heap := heap u; next_ref := next_ref u; ticks := ticks u; posted := posted u |}.
Definition set_tokens (x : gmap Z nat) (u : Uds K) : Uds K :=
  {| sockets := sockets u; next_id := next_id u; socket_paths := socket_paths u; socket_tokens := x;
     heap := heap u; next_ref := next_ref u; ticks := ticks u; posted := posted u |}.
Definition set_heap (x : gmap nat K) (u : Uds K) : Uds K :=
  {| sockets := sockets u; next_id := next_id u; socket_paths := socket_paths u;
     socket_tokens := socket_tokens u; heap := x; next_ref := next_ref u; ticks := ticks u;
     posted := posted u |}.
Definition set_next_ref (x : nat) (u : Uds K) : Uds K :=
  {| sockets := sockets u; next_id := next_id u; socket_paths := socket_paths u;
     socket_tokens := socket_tokens u; heap := heap u; next_ref := x; ticks := ticks u;
     posted := posted u |}.
Definition tick (u : Uds K) : Uds K :=
  {| sockets := sockets u; next_id := next_id u; socket_paths := socket_paths u;
     socket_tokens := socket_tokens u; heap := heap u; next_ref := next_ref u; ticks := S (ticks u);
     posted := posted u |}.
Definition add_posted (i fl : Z) (u : Uds K) : Uds K :=
  {| sockets := sockets u; next_id := next_id u; socket_paths := socket_paths u;
     socket_tokens := socket_tokens u; heap := heap u; next_ref := next_ref u; ticks := ticks u;
     posted := posted u ++ [(i, fl)] |}.

(** A call to the host. *)
Definition ask {A} (f : nat -> A) : M (Uds K) A :=
  n ← gets ticks; modify tick;; mret (f n).

Definition post_fevent (id flags : Z) : M (Uds K) unit :=
  modify (add_posted id flags);;
  r ← ask write_response;
  match r with
  | Ok true => mret tt
  | Ok false => throw EAGAIN
  | Err e => throw e
  | Panic => panic
  end.

(** [self.sockets.get(&id).ok_or(Error::new(EBADF))]: the [Rc] *)
Definition get_rc (e : errno) (id : Z) : M (Uds K) nat :=
  t ← gets sockets; ok_or e (t !! id).
Definition get_socket (id : Z) : M (Uds K) nat := get_rc EBADF id.

(** [rc.borrow()] and what is written through [rc.borrow_mut()] *)
Definition borrow (r : nat) : M (Uds K) K := h ← gets heap; unwrap (h !! r).
Definition update (r : nat) (f : K -> K) : M (Uds K) unit :=
  modify (fun u => set_heap (alter f r (heap u)) u).

(** [self.sockets.insert(id, Rc::new(RefCell::new(socket)))] *)
Definition insert_rc (id : Z) (k : K) : M (Uds K) unit :=
  r ← gets next_ref;
  modify (fun u => set_next_ref (S r) (set_heap (<[r := k]> (heap u)) u));;
  modify (fun u => set_sockets (<[id := r]> (sockets u)) u).

(** [self.next_id += 1] *)
Definition bump_id : M (Uds K) unit :=
  n ← gets next_id; n ← usize_add n 1; modify (set_next_id n).

(** [self.socket_paths.insert(path, rc)] and [self.socket_tokens.insert(token, rc)] *)
Definition register (path : string) (token : Z) (r : nat) : M (Uds K) unit :=
  modify (fun u => set_paths (<[path := r]> (socket_paths u)) u);;
  modify (fun u => set_tokens (<[token := r]> (socket_tokens u)) u).

Definition remove_path (p : option string) : M (Uds K) unit :=
  match p with
  | Some p => modify (fun u => set_paths (delete p (socket_paths u)) u)
  | None => mret tt
  end.
Definition remove_token (t : option Z) : M (Uds K) unit :=
  match t with
  | Some t => modify (fun u => set_tokens (delete t (socket_tokens u)) u)
  | None => mret tt
  end.

(** [get_uid_gid_from_pid], as a [Credential] of [i32]s *)
Definition credential_of (pid : Z) : M (Uds K) Credential :=
  b ← ask (fun n => get_proc_credentials n pid);
  c ← lift (creds_of b);
  let '(pid, uid, gid) := c in
  mret {| c_pid := as_i32 pid; c_uid := as_i32 uid; c_gid := as_i32 gid |}.

(** ** Payloads

    The handlers of [call] work on the tables and on the payload that the
    caller passed; what they wrote to it before an error stays written. *)

Abbreviation with_payload A := (M (Uds K * list u8) A) (only parsing).

Definition on_tables {A} (m : M (Uds K) A) : with_payload A := zoom fst (fun u x => (u, x.2)) m.
Definition on_payload {A} (m : M (list u8) A) : with_payload A := zoom snd (fun l x => (x.1, l)) m.

(** A method of the socket in a cell that is borrowed mutably, with the
    payload. *)
Definition on_cell {A} (r : nat) (m : M (K * list u8) A) : with_payload A := fun x =>
  match heap x.1 !! r with
  | Some k => let '(o, (k', l)) := m (k, x.2) in (o, (set_heap (<[r := k']> (heap x.1)) x.1, l))
  | None => (Panic, x)
  end.

(** A handler as the method [call] of the trait. *)
Definition call_method {A} (m : with_payload A) (l : list u8) : M (Uds K) (outcome A * list u8) := fun u =>
  match m (u, l) with
  | (Panic, (u', _)) => (Panic, u')
  | (r, (u', l')) => (Ok (r, l'), u')
  end.

(** [payload[..value.len()].copy_from_slice(value)], the rest zero *)
Definition fill_value (value : list u8) : M (list u8) unit :=
  modify (fun p => value ++ replicate (length p - length value) x00).

(** [handle_get_token] of both schemes *)
Definition token_out (token : option Z) : M (list u8) Z :=
  t ← ok_or EINVAL token;
  p ← gets id;
  if (length p <? 8)%nat then throw ENOBUFS
  else modify (splice 0 (le_bytes 8 t));; mret 8.

(** [obtain_fd] into a vector of [n] descriptors *)
Definition obtain_fds (n : Z) : M (Uds K) (list Z) :=
  if isize_max <? n * Z.of_nat usize_len then panic else
  r ← ask obtain_fd;
  match r with
  | Ok f => mret (f <$> seq 0 (Z.to_nat n))
  | Err e => throw e
  | Panic => panic
  end.
End tables.
