(* ===== verification/UdsDgram.v ===== *)
(** * ipcd: datagram sockets

    Models [ipcd/src/uds/dgram.rs]: unix-domain sockets that keep message
    boundaries.  A socket sends to the peer it is connected to, by the token
    that the peer got when it was bound or as the other half of a pair;
    messages and descriptors wait in the receiver's queues. *)

From stdpp Require Import base gmap strings list fin_maps.
From Stdlib Require Import ZArith Lia.
From Stdlib Require Import Strings.Byte.
From S2P Require Import Prelude Memory Syscall SchemeApi Uds.

Local Open Scope Z_scope.

Inductive State := Unbound | Bound | Closed.

#[export] Instance State_eq_dec : EqDecision State.
Proof. solve_decision. Defined.

Record Socket := {
  primary_id : Z; path : option string; state : State; peer : option Z; messages : list DataPacket;
  options : gset Z; fds : list Z; flags : Z; issued_token : option Z
}.

Definition Socket_default : Socket :=
  {| primary_id := 0; path := None; state := Unbound; peer := None; messages := []; options := ∅;
     fds := []; flags := 0; issued_token := None |}.

(** A socket with the fields that are assigned to replaced. *)
Definition set_peer (x : option Z) (s : Socket) : Socket :=
  {| primary_id := primary_id s; path := path s; state := state s; peer := x; messages := messages s;
     options := options s; fds := fds s; flags := flags s; issued_token := issued_token s |}.
Definition set_messages (x : list DataPacket) (s : Socket) : Socket :=
  {| primary_id := primary_id s; path := path s; state := state s; peer := peer s; messages := x;
     options := options s; fds := fds s; flags := flags s; issued_token := issued_token s |}.
Definition set_options (x : gset Z) (s : Socket) : Socket :=
  {| primary_id := primary_id s; path := path s; state := state s; peer := peer s; messages := messages s;
     options := x; fds := fds s; flags := flags s; issued_token := issued_token s |}.
Definition set_fds (x : list Z) (s : Socket) : Socket :=
  {| primary_id := primary_id s; path := path s; state := state s; peer := peer s; messages := messages s;
     options := options s; fds := x; flags := flags s; issued_token := issued_token s |}.
Definition set_flags (x : Z) (s : Socket) : Socket :=
  {| primary_id := primary_id s; path := path s; state := state s; peer := peer s; messages := messages s;
     options := options s; fds := fds s; flags := x; issued_token := issued_token s |}.
Definition set_binding (p : option string) (st : State) (t : option Z) (s : Socket) : Socket :=
  {| primary_id := primary_id s; path := p; state := st; peer := peer s; messages := messages s;
     options := options s; fds := fds s; flags := flags s; issued_token := t |}.

(** [Socket::default()] with its id, flags and peer set *)
Definition new_socket (id fl : Z) (p : option Z) : Socket :=
  {| primary_id := id; path := None; state := Unbound; peer := p; messages := []; options := ∅;
     fds := []; flags := fl; issued_token := None |}.

Abbreviation UdsDgramScheme := (Uds Socket).

Section dgram.
Context {TG : Target} {SC : Syscall} {AB : SchemeAbi} {UA : UdsAbi} {UH : UdsHost}.

Definition PREFIX : list u8 := as_bytes "/scheme/uds_dgram/".

(** ** Messages out *)

(** The loop of [drop_fds]: what is left, and whether there were enough. *)
Fixpoint drop_loop (n : nat) (l : list Z) : list Z * bool :=
  match n, l with
  | O, _ => (l, true)
  | S _, [] => ([], false)
  | S n, _ :: l => drop_loop n l
  end.

Definition drop_fds (num_fd : Z) : M Socket unit :=
  s ← gets id;
  let '(l, enough) := drop_loop (Z.to_nat num_fd) (fds s) in
  modify (set_fds l);;
  fail_if (negb enough) EINVAL.

Definition on_socket {A} (m : M Socket A) : M (Socket * MsgWriter) A := zoom fst (fun k x => (k, x.2)) m.
Definition on_writer {A} (m : M MsgWriter A) : M (Socket * MsgWriter) A := zoom snd (fun k x => (x.1, k)) m.

(** The loop over the options: the credentials. *)
Fixpoint write_options (c : Credential) (opts : list Z) : M (Socket * MsgWriter) unit :=
  match opts with
  | [] => mret tt
  | o :: opts =>
      result ← (if o =? SO_PASSCRED then on_writer (write_credentials c) else throw EOPNOTSUPP);
      if (result : bool) then write_options c opts else mret tt
  end.

Definition serialize_msg (m : DataPacket) (name_buf_size iov_size : Z) : M (Socket * MsgWriter) Z :=
  on_writer (write_name PREFIX (a_name (ancillary_data m)) name_buf_size);;
  _ ← on_writer (write_payload (payload m) (length (payload m)) iov_size);
  rights ← on_writer (write_rights (num_fds (ancillary_data m)));
  (if (rights : bool) then mret tt else on_socket (drop_fds (num_fds (ancillary_data m))));;
  s ← gets fst;
  write_options (cred (ancillary_data m)) (elements (options s));;
  w ← gets snd;
  mret (Z.of_nat (written_len w)).

(** [DataPacket::serialize_to_stream]: the writer borrows the stream. *)
Definition serialize_to_stream (m : DataPacket) (name_buf_size iov_size : Z) : M (Socket * list u8) Z :=
  zoom (fun x => (x.1, {| buffer := x.2; written_len := 0 |})) (fun y _ => (y.1, buffer y.2))
    (serialize_msg m name_buf_size iov_size).

Definition recvmsg_inner (m : DataPacket) : M (Socket * list u8) Z :=
  h ← zoom snd (fun l x => (x.1, l)) read_msghdr_info;
  let '(name_len, iov_size, _) := h in
  serialize_to_stream m name_len iov_size.

(** ** Handlers *)

Definition get_connected_peer (id : Z) : M UdsDgramScheme (Z * nat) :=
  r ← get_socket id;
  s ← borrow r;
  remote_id ← ok_or ENOTCONN (peer s);
  remote ← get_rc EPIPE remote_id;
  t ← borrow remote;
  fail_if (bool_decide (state t = Closed)) ECONNREFUSED;;
  mret (remote_id, remote).

Definition handle_unnamed_socket (fl : Z) : M UdsDgramScheme Z :=
  new_id ← gets next_id;
  insert_rc new_id (new_socket new_id fl None);;
  bump_id;;
  mret new_id.

Definition handle_bind (id : Z) (path_buf : list u8) : M UdsDgramScheme Z :=
  p ← lift (path_buf_to_str path_buf);
  ps ← gets socket_paths;
  fail_if (bool_decide (is_Some (ps !! p))) EADDRINUSE;;
  r ← get_socket id;
  s ← borrow r;
  fail_if (negb (bool_decide (state s = Unbound))) EINVAL;;
  token ← ask next_u64;
  update r (set_binding (Some p) Bound (Some token));;
  register p token r;;
  mret 0.

Definition handle_connect (id : Z) (token_buf : list u8) : M UdsDgramScheme Z :=
  token ← lift (read_num 8 token_buf);
  ts ← gets socket_tokens;
  target ← ok_or ECONNREFUSED (ts !! token);
  t ← borrow target;
  issued ← ok_or ECONNREFUSED (issued_token t);
  fail_if (negb (issued =? token)) EACCES;;
  r ← get_socket id;
  update r (set_peer (Some (primary_id t)));;
  mret 0.

Definition handle_setsockopt (id option : Z) (value_slice : list u8) : M UdsDgramScheme Z :=
  r ← get_socket id;
  if option =? SO_PASSCRED then
    value ← lift (read_i32 value_slice);
    update r (fun s => set_options (if value =? 0 then options s ∖ {[SO_PASSCRED]}
                                    else {[SO_PASSCRED]} ∪ options s) s);;
    mret (zlen value_slice)
  else throw ENOPROTOOPT.

Definition handle_getsockopt (option : Z) : M (list u8) Z :=
  if option =? SO_DOMAIN then
    modify (fun p => replicate (length p) x00);;
    p ← gets id;
    if (length p <? 4)%nat then throw ENOBUFS
    else modify (splice 0 (le_bytes 4 AF_UNIX));; mret 4
  else throw ENOPROTOOPT.

Definition sendmsg_inner (remote : nat) (name : option string) (msg_stream : list u8) (ctx : CallerCtx)
    : M UdsDgramScheme Z :=
  fail_if (bool_decide (msg_stream = [])) EINVAL;;
  c ← credential_of (ctx_pid ctx);
  m ← lift (from_stream msg_stream name c);
  update remote (fun s => set_messages (messages s ++ [m]) s);;
  mret (zlen (payload m)).

Definition handle_sendmsg (id : Z) (msg_stream : list u8) (ctx : CallerCtx) : M UdsDgramScheme Z :=
  fail_if (bool_decide (msg_stream = [])) EINVAL;;
  r ← get_socket id;
  s ← borrow r;
  q ← get_connected_peer id;
  n ← sendmsg_inner q.2 (path s) msg_stream ctx;
  post_fevent q.1 EVENT_READ;;
  mret n.

Definition handle_recvmsg (id : Z) : M (UdsDgramScheme * list u8) Z :=
  r ← on_tables (get_socket id);
  s ← on_tables (borrow r);
  match messages s with
  | m :: ms =>
      on_tables (update r (set_messages ms));;
      on_cell r (recvmsg_inner m)
  | [] => throw (if all_set (flags s) O_NONBLOCK then EAGAIN else EWOULDBLOCK)
  end.

Definition handle_unbind (id : Z) : M UdsDgramScheme Z :=
  r ← get_socket id;
  s ← borrow r;
  fail_if (negb (bool_decide (state s = Bound))) EINVAL;;
  update r (set_binding None Unbound (issued_token s));;
  remove_path (path s);;
  mret 0.

Definition handle_get_token (id : Z) : M (UdsDgramScheme * list u8) Z :=
  r ← on_tables (get_socket id);
  s ← on_tables (borrow r);
  on_payload (token_out (issued_token s)).

Definition handle_get_peer_name (id : Z) : M (UdsDgramScheme * list u8) Z :=
  q ← on_tables (get_connected_peer id);
  s ← on_tables (borrow q.2);
  l ← gets snd;
  let '(n, l) := fpath_inner PREFIX (default EmptyString (path s)) l in
  on_payload (modify (fun _ => l));;
  mret (Z.of_nat n).

Definition handle_connect_socketpair (id : Z) : M UdsDgramScheme OpenResult :=
  new_id ← gets next_id;
  r ← get_socket id;
  s ← borrow r;
  fail_if (bool_decide (state s = Closed)) ECONNREFUSED;;
  update r (set_peer (Some new_id));;
  post_fevent id (Z.lor EVENT_READ EVENT_WRITE);;
  insert_rc new_id (new_socket new_id 0 (Some id));;
  bump_id;;
  mret (ThisScheme new_id fd_empty).

Definition handle_recvfd (id : Z) : M UdsDgramScheme OpenResult :=
  r ← get_socket id;
  s ← borrow r;
  match fds s with
  | [] => throw EWOULDBLOCK
  | fd :: l => update r (set_fds l);; mret (OtherScheme fd)
  end.

(** A second id for the same cell. *)
Definition handle_listen (id : Z) : M UdsDgramScheme OpenResult :=
  r ← get_socket id;
  new_id ← gets next_id;
  modify (fun u => set_sockets (<[new_id := r]> (sockets u)) u);;
  bump_id;;
  mret (ThisScheme new_id fd_empty).

(** ** The methods of the trait *)

Definition call_inner (id : Z) (metadata : list Z) (ctx : CallerCtx) : M (UdsDgramScheme * list u8) Z :=
  l ← gets snd;
  m0 ← unwrap (metadata !! 0%nat);
  verb ← ok_or EINVAL (socket_call (as_usize m0));
  match verb with
  | SC_Bind => on_tables (handle_bind id l)
  | SC_Connect => on_tables (handle_connect id l)
  | SC_SetSockOpt =>
      m1 ← unwrap (metadata !! 1%nat); on_tables (handle_setsockopt id (as_i32 m1) l)
  | SC_GetSockOpt => m1 ← unwrap (metadata !! 1%nat); on_payload (handle_getsockopt (as_i32 m1))
  | SC_SendMsg => on_tables (handle_sendmsg id l ctx)
  | SC_RecvMsg => handle_recvmsg id
  | SC_Unbind => on_tables (handle_unbind id)
  | SC_GetToken => handle_get_token id
  | SC_GetPeerName => handle_get_peer_name id
  | SC_other => throw EOPNOTSUPP
  end.

Definition call (id : Z) (payload : list u8) (metadata : list Z) (ctx : CallerCtx)
    : M UdsDgramScheme (outcome Z * list u8) :=
  call_method (call_inner id metadata ctx) payload.

Definition open (p : string) (fl : Z) : M UdsDgramScheme OpenResult :=
  if str_is_empty p then new_id ← handle_unnamed_socket fl; mret (ThisScheme new_id fd_empty)
  else throw EINVAL.

Definition dup (id : Z) (buf : list u8) : M UdsDgramScheme OpenResult :=
  if bool_decide (buf = as_bytes "connect") then handle_connect_socketpair id
  else if bool_decide (buf = as_bytes "recvfd") then handle_recvfd id
  else if bool_decide (buf = as_bytes "listen") then handle_listen id
  else throw EINVAL.

Definition write_inner (id : Z) (buf : list u8) (ctx : CallerCtx) : M UdsDgramScheme Z :=
  fail_if (MAX_DGRAM_MSG_LEN <? zlen buf) EMSGSIZE;;
  r ← get_socket id;
  s ← borrow r;
  fail_if (bool_decide (state s = Closed)) EPIPE;;
  q ← get_connected_peer id;
  let c := {| c_pid := as_i32 (ctx_pid ctx); c_uid := as_i32 (ctx_uid ctx); c_gid := as_i32 (ctx_gid ctx) |} in
  update q.2 (fun t => set_messages
    (messages t ++ [DataPacket_new buf (AncillaryData_new c (path s))]) t);;
  post_fevent q.1 EVENT_READ;;
  mret (zlen buf).

Definition write (id : Z) (buf : list u8) (ctx : CallerCtx) : M UdsDgramScheme Z := write_inner id buf ctx.

Definition fpath (id : Z) (buf : list u8) : M UdsDgramScheme (Z * list u8) :=
  r ← get_socket id;
  s ← borrow r;
  let '(n, l) := fpath_inner PREFIX (default EmptyString (path s)) buf in
  mret (Z.of_nat n, l).

Definition fsync (id : Z) : M UdsDgramScheme unit := _ ← get_socket id; mret tt.

Definition read_inner (id : Z) (buf : list u8) (fl : Z) : M UdsDgramScheme (Z * list u8) :=
  r ← get_socket id;
  s ← borrow r;
  match messages s with
  | m :: ms =>
      update r (set_messages ms);;
      let copy_len := common_len buf (payload m) in
      mret (Z.of_nat copy_len, copy_prefix copy_len (payload m) buf)
  | [] => throw (if all_set fl O_NONBLOCK then EAGAIN else EWOULDBLOCK)
  end.

Definition read (id : Z) (buf : list u8) (fl : Z) : M UdsDgramScheme (Z * list u8) := read_inner id buf fl.

Definition on_close (id : Z) : M UdsDgramScheme unit :=
  t ← gets sockets;
  match t !! id with
  | None => mret tt
  | Some r =>
      modify (fun u => set_sockets (delete id (sockets u)) u);;
      s ← borrow r;
      if primary_id s =? id then
        update r (fun s => set_binding None Closed (issued_token s) (set_peer None s));;
        remove_path (path s);;
        remove_token (issued_token s)
      else mret tt
  end.

Definition on_sendfd (req : Request) : M UdsDgramScheme Z :=
  let num := as_usize (arg3 req) in
  if num =? 0 then mret 0
  else
    new_fds ← obtain_fds num;
    q ← get_connected_peer (as_usize (arg0 req));
    update q.2 (fun t => set_fds (fds t ++ new_fds) t);;
    post_fevent q.1 EVENT_READ;;
    mret (zlen new_fds).

Definition on_recvfd (req : Request) : M UdsDgramScheme OpenResult :=
  let num := as_usize (arg2 req) in
  if num =? 0 then mret (OtherSchemeMultiple 0)
  else
    r ← get_socket (recvfd_id req);
    s ← borrow r;
    if zlen (fds s) <? num then
      if all_set (flags s) O_NONBLOCK then mret WouldBlock else throw EWOULDBLOCK
    else
      update r (set_fds (drop (Z.to_nat num) (fds s)));;
      res ← ask (fun n => move_fd n (take (Z.to_nat num) (fds s)));
      match res with
      | Ok _ => mret (OtherSchemeMultiple num)
      | Err _ => throw EPROTO
      | Panic => panic
      end.

Definition fcntl (id cmd arg : Z) : M UdsDgramScheme Z :=
  r ← get_socket id;
  if cmd =? F_GETFL then s ← borrow r; mret (flags s)
  else if cmd =? F_SETFL then update r (set_flags arg);; mret 0
  else throw EINVAL.

Definition fevent (id fl : Z) : M UdsDgramScheme Z :=
  r ← get_socket id;
  s ← borrow r;
  let rd := if all_set fl EVENT_READ && negb (bool_decide (messages s = [])) then EVENT_READ else 0 in
  let wr := if all_set fl EVENT_WRITE && bool_decide (is_Some (peer s)) then EVENT_WRITE else 0 in
  mret (Z.lor rd wr).

Definition fstat (id : Z) : M UdsDgramScheme Stat :=
  _ ← get_socket id; mret (Build_Stat MODE_SOCK 0 0 0 0 0 0 0 0 0 0 0 0 0 0).

(** The scheme as an [impl] of the trait; the rest is the trait's defaults. *)
#[export] Instance uds_dgram_scheme : SchemeSync UdsDgramScheme :=
  let d := SchemeSync_default UdsDgramScheme in {|
  s_open p fl _ := open p fl;
  s_openat := @s_openat _ _ d; s_rmdir := @s_rmdir _ _ d; s_unlink := @s_unlink _ _ d; s_unlinkat := @s_unlinkat _ _ d;
  s_dup i buf _ := dup i buf;
  s_read i buf _ fl _ := read i buf fl;
  s_write i buf _ _ ctx := write i buf ctx;
  s_fsize := @s_fsize _ _ d; s_fchmod := @s_fchmod _ _ d; s_fchown := @s_fchown _ _ d;
  s_fcntl i cmd arg _ := fcntl i cmd arg;
  s_fevent i fl _ := fevent i fl;
  s_flink := @s_flink _ _ d;
  s_fpath i buf _ := fpath i buf;
  s_frename := @s_frename _ _ d;
  s_fstat i _ := fstat i;
  s_fstatvfs := @s_fstatvfs _ _ d;
  s_fsync i _ := fsync i;
  s_ftruncate := @s_ftruncate _ _ d; s_futimens := @s_futimens _ _ d;
  s_call := call;
  s_getdents := @s_getdents _ _ d; s_mmap_prep := @s_mmap_prep _ _ d; s_munmap := @s_munmap _ _ d;
  s_on_close := on_close;
  s_on_sendfd := on_sendfd;
  s_on_recvfd := on_recvfd
|}.
End dgram.
