(* ===== verification/UdsStream.v ===== *)
(** * ipcd: stream sockets

    Models [ipcd/src/uds/stream.rs]: connection-oriented unix-domain sockets.
    A socket that is bound gets a token and listens; a client that connects by
    the token waits in the listener's queue until it is accepted, which makes a
    new socket linked with the client.  Bytes and descriptors wait in the
    connection of the receiving end. *)

From stdpp Require Import base gmap strings list fin_maps.
From Stdlib Require Import ZArith Lia.
From Stdlib Require Import Strings.Byte.
From S2P Require Import Prelude Memory Syscall SchemeApi Uds.

Local Open Scope Z_scope.

Record Connection := { peer : Z; packets : list DataPacket; fds : list Z; is_peer_shutdown : bool }.

Definition Connection_new (p : Z) : Connection :=
  {| peer := p; packets := []; fds := []; is_peer_shutdown := false |}.

Definition set_packets (x : list DataPacket) (c : Connection) : Connection :=
  {| peer := peer c; packets := x; fds := fds c; is_peer_shutdown := is_peer_shutdown c |}.
Definition set_fds (x : list Z) (c : Connection) : Connection :=
  {| peer := peer c; packets := packets c; fds := x; is_peer_shutdown := is_peer_shutdown c |}.
Definition set_shutdown (c : Connection) : Connection :=
  {| peer := peer c; packets := packets c; fds := fds c; is_peer_shutdown := true |}.

Inductive State := Unbound | Bound | Listening | Connecting | Accepted | Established | Closed.

#[export] Instance State_eq_dec : EqDecision State.
Proof. solve_decision. Defined.

Record Socket := {
  primary_id : Z; path : option string; options : gset Z; flags : Z; state : State;
  awaiting : list Z; connection : option Connection; issued_token : option Z; ucred : Z * Z * Z
}.

Definition set_state (x : State) (s : Socket) : Socket :=
  {| primary_id := primary_id s; path := path s; options := options s; flags := flags s; state := x;
     awaiting := awaiting s; connection := connection s; issued_token := issued_token s; ucred := ucred s |}.
Definition set_path (x : option string) (s : Socket) : Socket :=
  {| primary_id := primary_id s; path := x; options := options s; flags := flags s; state := state s;
     awaiting := awaiting s; connection := connection s; issued_token := issued_token s; ucred := ucred s |}.
Definition set_options (x : gset Z) (s : Socket) : Socket :=
  {| primary_id := primary_id s; path := path s; options := x; flags := flags s; state := state s;
     awaiting := awaiting s; connection := connection s; issued_token := issued_token s; ucred := ucred s |}.
Definition set_flags (x : Z) (s : Socket) : Socket :=
  {| primary_id := primary_id s; path := path s; options := options s; flags := x; state := state s;
     awaiting := awaiting s; connection := connection s; issued_token := issued_token s; ucred := ucred s |}.
Definition set_awaiting (x : list Z) (s : Socket) : Socket :=
  {| primary_id := primary_id s; path := path s; options := options s; flags := flags s; state := state s;
     awaiting := x; connection := connection s; issued_token := issued_token s; ucred := ucred s |}.
Definition set_connection (x : option Connection) (s : Socket) : Socket :=
  {| primary_id := primary_id s; path := path s; options := options s; flags := flags s; state := state s;
     awaiting := awaiting s; connection := x; issued_token := issued_token s; ucred := ucred s |}.
Definition set_token (x : option Z) (s : Socket) : Socket :=
  {| primary_id := primary_id s; path := path s; options := options s; flags := flags s; state := state s;
     awaiting := awaiting s; connection := connection s; issued_token := x; ucred := ucred s |}.

Definition Socket_new (id : Z) (p : option string) (st : State) (opts : gset Z) (fl : Z)
    (c : option Connection) (ctx : CallerCtx) : Socket :=
  {| primary_id := id; path := p; options := opts; flags := fl; state := st; awaiting := []; connection := c;
     issued_token := None; ucred := (as_i32 (ctx_pid ctx), as_i32 (ctx_uid ctx), as_i32 (ctx_gid ctx)) |}.

Abbreviation UdsStreamScheme := (Uds Socket).

Section stream.
Context {TG : Target} {SC : Syscall} {AB : SchemeAbi} {UA : UdsAbi} {UH : UdsHost}.

Definition PREFIX : list u8 := as_bytes "/scheme/uds_stream/".

(** [MsgFlags::nonblock] *)
Definition nonblock (msg_flags : Z) : bool := all_set msg_flags MSG_DONTWAIT.

(** ** Sockets *)

Definition can_read (c : Connection) : bool :=
  negb (bool_decide (packets c = [])) || negb (bool_decide (fds c = [])) || is_peer_shutdown c.

Definition events (s : Socket) : Z :=
  let ready := match connection s with
               | Some c => Z.lor (if can_read c then EVENT_READ else 0) EVENT_WRITE
               | None => 0
               end in
  match state s with
  | Listening => if bool_decide (awaiting s = []) then ready else Z.lor ready EVENT_READ
  | Closed => Z.lor ready EVENT_READ
  | _ => ready
  end.

Definition is_listening (s : Socket) : bool := bool_decide (state s = Listening).

Definition accept (id client_id : Z) (ctx : CallerCtx) (s : Socket) : outcome Socket :=
  if negb (is_listening s) then Err EINVAL
  else Ok (Socket_new id (path s) Established (options s) (flags s) (Some (Connection_new client_id)) ctx).

Definition establish (p : Z) (s : Socket) : outcome Socket :=
  if negb (bool_decide (state s = Connecting)) then Err EINVAL
  else Ok (set_connection (Some (Connection_new p)) (set_state Accepted s)).

(** [Socket::connect]: the listener with the client in its queue *)
Definition connect (other fl : Z) (s : Socket) : outcome Socket :=
  let queued := set_awaiting (awaiting s ++ [other]) s in
  match state s with
  | Unbound | Bound => if all_set fl O_NONBLOCK then Ok queued else Err EWOULDBLOCK
  | Listening => Ok queued
  | _ => Err ECONNREFUSED
  end.

Definition require_connection (s : Socket) : outcome Connection := o_ok_or EPROTO (connection s).

Definition require_connected_connection (msg_flags : Z) (s : Socket) : outcome Connection :=
  match state s with
  | Established | Accepted => require_connection s
  | Connecting =>
      Err (if all_set (flags s) O_NONBLOCK || nonblock msg_flags then EAGAIN else EWOULDBLOCK)
  | Closed => Err EPIPE
  | _ => Err ENOTCONN
  end.

Definition start_listening (s : Socket) : outcome Socket :=
  match state s with
  | Unbound | Bound => Ok (set_state Listening s)
  | _ => Err EINVAL
  end.

(** What is written to a connection that was required. *)
Definition upd_connection (f : Connection -> Connection) (s : Socket) : Socket :=
  set_connection (f <$> connection s) s.

(** ** Reading *)

(** The bytes of a packet that have not been read. *)
Definition rem_payload (p : DataPacket) : list u8 := drop (read_offset p) (payload p).

Definition advance (n : nat) (taken : bool) (a : AncillaryData) (p : DataPacket) : DataPacket :=
  {| payload := payload p; ancillary_data := a; read_offset := read_offset p + n;
     ancillary_taken := taken |}.

(** The loop of [read_inner]: [room] bytes of the buffer are left.  The bytes
    copied, and the packets left. *)
Fixpoint read_loop (room : nat) (ps : list DataPacket) : list u8 * list DataPacket :=
  match room, ps with
  | O, _ | _, [] => ([], ps)
  | _, p :: ps' =>
      let n := (length (rem_payload p) `min` room)%nat in
      if (n =? 0)%nat then ([], ps)
      else
        let p' := advance n (ancillary_taken p || (read_offset p =? 0)%nat) (ancillary_data p) p in
        let copied := take n (rem_payload p) in
        if (length (payload p') <=? read_offset p')%nat then
          let '(l, rest) := read_loop (room - n) ps' in (copied ++ l, rest)
        else (copied, p' :: ps')
  end.

(** The loop of [Connection::serialize_to_msgstream], which takes the
    ancillary data too: the name, the bytes, the ancillary data and the packets
    left. *)
Fixpoint msg_loop (room : nat) (name : option string) (ps : list DataPacket)
    : option string * list u8 * list AncillaryData * list DataPacket :=
  match room, ps with
  | O, _ | _, [] => (name, [], [], ps)
  | _, p :: ps' =>
      let n := (length (rem_payload p) `min` room)%nat in
      if (n =? 0)%nat then (name, [], [], ps)
      else
        let a := ancillary_data p in
        let takes := negb (ancillary_taken p) in
        let name' := if takes then match name with Some _ => name | None => a_name a end else name in
        let a' := if takes && bool_decide (name = None)
                  then {| cred := cred a; num_fds := num_fds a; a_name := None |} else a in
        let p' := advance n (ancillary_taken p || takes) a' p in
        let copied := take n (rem_payload p) in
        let anc := if takes then [a'] else [] in
        if (length (payload p') <=? read_offset p')%nat then
          let '(name', l, more, rest) := msg_loop (room - n) name' ps' in
          (name', copied ++ l, anc ++ more, rest)
        else (name', copied, anc, p' :: ps')
  end.

Fixpoint drop_loop (n : nat) (l : list Z) : list Z * bool :=
  match n, l with
  | O, _ => (l, true)
  | S _, [] => ([], false)
  | S n, _ :: l => drop_loop n l
  end.

Definition drop_fds (num_fd : Z) : M Connection unit :=
  c ← gets id;
  let '(l, enough) := drop_loop (Z.to_nat num_fd) (fds c) in
  modify (set_fds l);;
  fail_if (negb enough) EPROTO.

Definition on_connection {A} (m : M Connection A) : M (Connection * MsgWriter) A :=
  zoom fst (fun k x => (k, x.2)) m.
Definition on_writer {A} (m : M MsgWriter A) : M (Connection * MsgWriter) A :=
  zoom snd (fun k x => (x.1, k)) m.

(** [num_fds += ancillary_data.num_fds] over the list *)
Fixpoint sum_fds {S} (acc : Z) (l : list AncillaryData) : M S Z :=
  match l with [] => mret acc | a :: l => acc ← usize_add acc (num_fds a); sum_fds acc l end.

Fixpoint write_creds (l : list AncillaryData) : M MsgWriter bool :=
  match l with
  | [] => mret true
  | a :: l => ok ← write_credentials (cred a); if (ok : bool) then write_creds l else mret false
  end.

Fixpoint write_options (anc : list AncillaryData) (opts : list Z) : M (Connection * MsgWriter) unit :=
  match opts with
  | [] => mret tt
  | o :: opts =>
      result ← (if o =? SO_PASSCRED then on_writer (write_creds anc) else throw EOPNOTSUPP);
      if (result : bool) then write_options anc opts else mret tt
  end.

Definition serialize_msg (name_buf_size iov_size : Z) (opts : gset Z) : M (Connection * MsgWriter) Z :=
  c ← gets fst;
  (if isize_max <? iov_size then panic else mret tt);;
  let '(name, bytes, anc, rest) := msg_loop (Z.to_nat iov_size) None (packets c) in
  on_connection (modify (set_packets rest));;
  on_writer (write_name PREFIX name name_buf_size);;
  let full_len := Z.to_nat (Z.min (zlen bytes) iov_size) in
  _ ← on_writer (write_payload bytes full_len iov_size);
  n ← sum_fds 0 anc;
  rights ← on_writer (write_rights n);
  (if (rights : bool) then mret tt else on_connection (drop_fds n));;
  write_options anc (elements opts);;
  w ← gets snd;
  mret (Z.of_nat (written_len w)).

(** [Socket::serialize_to_msgstream] *)
Definition serialize_to_msgstream (msg_flags name_buf_size iov_size : Z) : M (Socket * list u8) Z :=
  s ← gets fst;
  c ← lift (require_connected_connection msg_flags s);
  zoom (fun x => (c, {| buffer := x.2; written_len := 0 |}))
       (fun y x => (set_connection (Some y.1) x.1, buffer y.2))
    (serialize_msg name_buf_size iov_size (options s)).

Definition recvmsg_inner (msg_flags : Z) : M (Socket * list u8) Z :=
  h ← zoom snd (fun l x => (x.1, l)) read_msghdr_info;
  let '(name_len, iov_size, _) := h in
  serialize_to_msgstream msg_flags name_len iov_size.

Definition write_eof : M (list u8) Z :=
  l ← gets id;
  if (length l <? MIN_RECV_MSG_LEN)%nat then throw EINVAL
  else modify (splice 0 (replicate MIN_RECV_MSG_LEN x00));; mret (Z.of_nat MIN_RECV_MSG_LEN).

(** ** Handlers *)

(** Borrowing the cell [b] while [a] is borrowed, one of the two mutably. *)
Definition also_borrow (a b : nat) : M UdsStreamScheme Socket :=
  if (a =? b)%nat then panic else borrow b.

(** [f] on the socket in a cell, which may refuse. *)
Definition try_update (r : nat) (f : Socket -> outcome Socket) : M UdsStreamScheme unit :=
  s ← borrow r; s' ← lift (f s); update r (fun _ => s').

Definition get_connected_peer (id msg_flags : Z) : M UdsStreamScheme (Z * nat) :=
  r ← get_socket id;
  s ← borrow r;
  c ← lift (require_connected_connection msg_flags s);
  remote ← get_rc EPIPE (peer c);
  t ← also_borrow r remote;
  fail_if (bool_decide (state t = Closed)) ECONNREFUSED;;
  mret (peer c, remote).

Definition handle_unnamed_socket (fl : Z) (ctx : CallerCtx) : M UdsStreamScheme Z :=
  new_id ← gets next_id;
  insert_rc new_id (Socket_new new_id None Unbound ∅ fl None ctx);;
  bump_id;;
  mret new_id.

Definition handle_bind (id : Z) (path_buf : list u8) : M UdsStreamScheme Z :=
  p ← lift (path_buf_to_str path_buf);
  ps ← gets socket_paths;
  fail_if (bool_decide (is_Some (ps !! p))) EADDRINUSE;;
  r ← get_socket id;
  s ← borrow r;
  fail_if (negb (bool_decide (state s = Unbound))) EINVAL;;
  token ← ask next_u64;
  update r (fun s => set_token (Some token) (set_state Bound (set_path (Some p) s)));;
  try_update r start_listening;;
  register p token r;;
  mret 0.

Definition handle_connect (id : Z) (token_buf : list u8) : M UdsStreamScheme Z :=
  token ← lift (read_num 8 token_buf);
  ts ← gets socket_tokens;
  listener_rc ← ok_or ECONNREFUSED (ts !! token);
  client_rc ← get_socket id;
  client ← borrow client_rc;
  match state client with
  | Connecting => throw EWOULDBLOCK
  | Established => throw EISCONN
  | Accepted => update client_rc (set_state Established);; mret 0
  | _ =>
      listener ← also_borrow client_rc listener_rc;
      listener' ← lift (connect id (flags client) listener);
      update listener_rc (fun _ => listener');;
      update client_rc (set_state Connecting);;
      post_fevent (primary_id listener) (Z.lor EVENT_READ EVENT_WRITE);;
      if any_set (flags client) O_NONBLOCK then mret 0 else throw EWOULDBLOCK
  end.

Definition handle_setsockopt (id option : Z) (value_slice : list u8) : M UdsStreamScheme Z :=
  r ← get_socket id;
  if option =? SO_PASSCRED then
    value ← lift (read_i32 value_slice);
    update r (fun s => set_options (if value =? 0 then options s ∖ {[SO_PASSCRED]}
                                    else {[SO_PASSCRED]} ∪ options s) s);;
    mret (zlen value_slice)
  else if option =? SO_SNDBUF then mret 0
  else throw ENOPROTOOPT.

(** [write_value] *)
Definition write_value (value : list u8) : M (list u8) Z :=
  p ← gets id;
  fail_if (length p <? length value)%nat ENOBUFS;;
  fill_value value;;
  mret (zlen value).

Definition handle_getsockopt (id option : Z) : M (UdsStreamScheme * list u8) Z :=
  if option =? SO_DOMAIN then on_payload (write_value (le_bytes 4 AF_UNIX))
  else if option =? SO_PEERCRED then
    q ← on_tables (get_connected_peer id 0);
    s ← on_tables (borrow q.2);
    let '(pid, uid, gid) := ucred s in on_payload (write_value (ucred_bytes pid uid gid))
  else if option =? SO_SNDBUF then on_payload (write_value (le_bytes 4 212992))
  else throw ENOPROTOOPT.

Definition handle_sendmsg (id msg_flags : Z) (msg_stream : list u8) (ctx : CallerCtx) : M UdsStreamScheme Z :=
  fail_if (bool_decide (msg_stream = [])) EINVAL;;
  r ← get_socket id;
  s ← borrow r;
  q ← get_connected_peer id msg_flags;
  t ← borrow q.2;
  _ ← lift (require_connected_connection msg_flags t);
  c ← credential_of (ctx_pid ctx);
  packet ← lift (from_stream msg_stream (path s) c);
  if bool_decide (payload packet = []) then mret 0
  else
    update q.2 (upd_connection (fun c => set_packets (packets c ++ [packet]) c));;
    post_fevent q.1 EVENT_READ;;
    mret (zlen (payload packet)).

Definition handle_recvmsg (id msg_flags : Z) : M (UdsStreamScheme * list u8) Z :=
  r ← on_tables (get_socket id);
  s ← on_tables (borrow r);
  match state s with
  | Established | Accepted =>
      c ← lift (require_connection s);
      if bool_decide (packets c = []) then
        if is_peer_shutdown c then on_payload write_eof
        else throw (if all_set (flags s) O_NONBLOCK || nonblock msg_flags then EAGAIN else EWOULDBLOCK)
      else on_cell r (recvmsg_inner msg_flags)
  | Closed => on_payload write_eof
  | Listening => throw EOPNOTSUPP
  | _ => throw ENOTCONN
  end.

Definition handle_unbind (id : Z) : M UdsStreamScheme Z :=
  r ← get_socket id;
  s ← borrow r;
  fail_if (negb (bool_decide (state s = Bound))) EINVAL;;
  update r (fun s => set_path None (set_state Unbound s));;
  remove_path (path s);;
  mret 0.

Definition handle_get_token (id : Z) : M (UdsStreamScheme * list u8) Z :=
  r ← on_tables (get_socket id);
  s ← on_tables (borrow r);
  on_payload (token_out (issued_token s)).

Definition handle_get_peer_name (id : Z) : M (UdsStreamScheme * list u8) Z :=
  q ← on_tables (get_connected_peer id 0);
  s ← on_tables (borrow q.2);
  l ← gets snd;
  let '(n, l) := fpath_inner PREFIX (default EmptyString (path s)) l in
  on_payload (modify (fun _ => l));;
  mret (Z.of_nat n).

(** [accept_connection]: the listener's cell [lr] is borrowed. *)
Definition accept_connection (lr : nat) (client_id : Z) (ctx : CallerCtx) : M UdsStreamScheme (option OpenResult) :=
  t ← gets sockets;
  match t !! client_id with
  | None => mret None
  | Some client_rc =>
      new_id ← gets next_id;
      listener ← borrow lr;
      new ← lift (accept new_id client_id ctx listener);
      _ ← also_borrow lr client_rc;
      try_update client_rc (establish new_id);;
      bump_id;;
      insert_rc new_id new;;
      post_fevent client_id (Z.lor EVENT_READ EVENT_WRITE);;
      mret (Some (ThisScheme new_id fd_empty))
  end.

Definition handle_accept (lr : nat) (ctx : CallerCtx) : M UdsStreamScheme (option OpenResult) :=
  s ← borrow lr;
  fail_if (negb (is_listening s)) EINVAL;;
  match awaiting s with
  | [] => if all_set (flags s) O_NONBLOCK then throw EAGAIN else mret (Some WouldBlock)
  | client_id :: rest => update lr (set_awaiting rest);; accept_connection lr client_id ctx
  end.

Definition handle_start_listening (r : nat) : M UdsStreamScheme unit :=
  try_update r start_listening;;
  s ← borrow r;
  match path s with
  | None => mret tt
  | Some p =>
      ps ← gets socket_paths;
      fail_if (match ps !! p with Some r' => negb (r =? r')%nat | None => false end) EADDRINUSE;;
      modify (fun u => set_paths (<[p := r]> (socket_paths u)) u)
  end.

(** The loop of [handle_listen]; [None] when it has not ended within the
    fuel.  A turn makes the socket listen or takes a client off its queue. *)
Fixpoint listen_loop (fuel : nat) (id : Z) (ctx : CallerCtx) : M UdsStreamScheme (option OpenResult) :=
  match fuel with
  | O => mret None
  | S fuel =>
      r ← get_socket id;
      s ← borrow r;
      if is_listening s then
        res ← handle_accept r ctx;
        match res with
        | Some res => mret (Some res)
        | None => listen_loop fuel id ctx
        end
      else handle_start_listening r;; listen_loop fuel id ctx
  end.

(** How many clients wait: with two turns more the loop ends. *)
Definition queue_len (id : Z) (u : UdsStreamScheme) : nat :=
  match r ← sockets u !! id; heap u !! r with Some s => length (awaiting s) | None => 0 end.

Definition handle_listen (id : Z) (ctx : CallerCtx) : M UdsStreamScheme OpenResult :=
  n ← gets (queue_len id);
  res ← listen_loop (S (S n)) id ctx;
  unwrap res.

Definition handle_connect_socketpair (id : Z) (ctx : CallerCtx) : M UdsStreamScheme OpenResult :=
  new_id ← gets next_id;
  r ← get_socket id;
  s ← borrow r;
  fail_if (bool_decide (state s = Closed)) EPIPE;;
  update r (fun s => set_awaiting (awaiting s ++ [new_id]) s);;
  post_fevent id (Z.lor EVENT_READ EVENT_WRITE);;
  insert_rc new_id (Socket_new new_id None Connecting ∅ (flags s) None ctx);;
  bump_id;;
  mret (ThisScheme new_id fd_empty).

Definition handle_recvfd (id : Z) : M UdsStreamScheme OpenResult :=
  r ← get_socket id;
  s ← borrow r;
  match state s with
  | Established | Accepted =>
      c ← lift (require_connected_connection 0 s);
      match fds c with
      | [] => throw EWOULDBLOCK
      | fd :: l => update r (upd_connection (set_fds l));; mret (OtherScheme fd)
      end
  | Closed => throw EPIPE
  | Listening => throw EOPNOTSUPP
  | _ => throw ENOTCONN
  end.

(** ** Data and descriptors *)

Definition write_inner (receiver_id : Z) (buf : list u8) (ctx : CallerCtx) : M UdsStreamScheme Z :=
  r ← get_socket receiver_id;
  s ← borrow r;
  _ ← lift (require_connected_connection 0 s);
  let c := {| c_pid := as_i32 (ctx_pid ctx); c_uid := as_i32 (ctx_uid ctx); c_gid := as_i32 (ctx_gid ctx) |} in
  let packet := DataPacket_new buf (AncillaryData_new c (path s)) in
  (if bool_decide (buf = []) then mret tt
   else update r (upd_connection (fun c => set_packets (packets c ++ [packet]) c)));;
  post_fevent receiver_id EVENT_READ;;
  mret (zlen buf).

Definition read_inner (r : nat) (c : Connection) (buf : list u8) (fl : Z) : M UdsStreamScheme (Z * list u8) :=
  let '(bytes, rest) := read_loop (length buf) (packets c) in
  update r (upd_connection (set_packets rest));;
  if (0 <? length bytes)%nat then mret (zlen bytes, copy_prefix (length bytes) bytes buf)
  else if is_peer_shutdown c then mret (0, buf)
  else throw (if all_set fl O_NONBLOCK then EAGAIN else EWOULDBLOCK).

Definition sendfd_inner (receiver_id : Z) (req : Request) : M UdsStreamScheme Z :=
  new_fds ← obtain_fds (as_usize (arg3 req));
  r ← get_socket receiver_id;
  s ← borrow r;
  _ ← lift (require_connected_connection 0 s);
  update r (upd_connection (fun c => set_fds (fds c ++ new_fds) c));;
  post_fevent receiver_id EVENT_READ;;
  mret (zlen new_fds).

Definition recvfd_inner (req : Request) : M UdsStreamScheme OpenResult :=
  let num := as_usize (arg2 req) in
  r ← get_socket (recvfd_id req);
  s ← borrow r;
  if num =? 0 then mret (OtherSchemeMultiple 0)
  else match state s with
  | Established | Accepted =>
      c ← lift (require_connected_connection 0 s);
      if zlen (fds c) <? num then
        if is_peer_shutdown c then mret (OtherSchemeMultiple 0)
        else if all_set (flags s) O_NONBLOCK then throw EAGAIN
        else mret WouldBlock
      else
        update r (upd_connection (set_fds (drop (Z.to_nat num) (fds c))));;
        res ← ask (fun n => move_fd n (take (Z.to_nat num) (fds c)));
        match res with
        | Ok _ => mret (OtherSchemeMultiple num)
        | Err _ => throw EPROTO
        | Panic => panic
        end
  | Closed => throw EPIPE
  | Listening => throw EOPNOTSUPP
  | _ => throw ENOTCONN
  end.

(** ** Closing *)

(** [let _ = self.post_fevent(..)] *)
Definition try_post (id fl : Z) : M UdsStreamScheme unit := fun u =>
  match post_fevent id fl u with (Err _, u') => (Ok tt, u') | r => r end.

(** The clients that wait for a listener that closes; its cell is borrowed. *)
Fixpoint close_clients (lr : nat) (ids : list Z) : M UdsStreamScheme unit :=
  match ids with
  | [] => mret tt
  | id :: ids =>
      t ← gets sockets;
      match t !! id with
      | Some r =>
          _ ← also_borrow lr r;
          update r (set_state Closed);;
          try_post id EVENT_READ
      | None => mret tt
      end;;
      close_clients lr ids
  end.

Definition handle_listening_closure (r : nat) : M UdsStreamScheme unit :=
  s ← borrow r;
  remove_path (path s);;
  remove_token (issued_token s);;
  close_clients r (awaiting s).

(** The peer learns of the end; [false] when the closure stops there. *)
Definition shutdown_peer (r : nat) (s : Socket) : M UdsStreamScheme bool :=
  match state s with
  | Established | Accepted =>
      t ← gets sockets;
      match c ← connection s; t !! peer c with
      | None => mret false
      | Some remote_rc =>
          remote ← also_borrow r remote_rc;
          match connection remote with
          | None => mret false
          | Some _ =>
              update remote_rc (upd_connection set_shutdown);;
              try_post (primary_id remote) EVENT_READ;;
              mret true
          end
      end
  | _ => mret true
  end.

Definition handle_other_closure (r : nat) : M UdsStreamScheme unit :=
  s ← borrow r;
  go ← shutdown_peer r s;
  if (go : bool) then
    remove_path (path s);;
    remove_token (issued_token s);;
    update r (fun s => set_state Closed (set_path None s))
  else mret tt.

(** ** The methods of the trait *)

Definition call_inner (id : Z) (metadata : list Z) (ctx : CallerCtx) : M (UdsStreamScheme * list u8) Z :=
  l ← gets snd;
  m0 ← ok_or EINVAL (metadata !! 0%nat);
  verb ← ok_or EINVAL (socket_call (as_usize m0));
  let msg_flags := default 0 (as_i32 <$> metadata !! 1%nat) in
  match verb with
  | SC_Bind => on_tables (handle_bind id l)
  | SC_Connect => on_tables (handle_connect id l)
  | SC_SetSockOpt =>
      m1 ← ok_or EINVAL (metadata !! 1%nat); on_tables (handle_setsockopt id (as_i32 m1) l)
  | SC_GetSockOpt => m1 ← ok_or EINVAL (metadata !! 1%nat); handle_getsockopt id (as_i32 m1)
  | SC_SendMsg => on_tables (handle_sendmsg id msg_flags l ctx)
  | SC_RecvMsg => handle_recvmsg id msg_flags
  | SC_Unbind => on_tables (handle_unbind id)
  | SC_GetToken => handle_get_token id
  | SC_GetPeerName => handle_get_peer_name id
  | SC_other => throw EOPNOTSUPP
  end.

Definition call (id : Z) (payload : list u8) (metadata : list Z) (ctx : CallerCtx)
    : M UdsStreamScheme (outcome Z * list u8) :=
  call_method (call_inner id metadata ctx) payload.

Definition open (p : string) (fl : Z) (ctx : CallerCtx) : M UdsStreamScheme OpenResult :=
  if str_is_empty p then new_id ← handle_unnamed_socket fl ctx; mret (ThisScheme new_id fd_empty)
  else throw EINVAL.

Definition dup (id : Z) (buf : list u8) (ctx : CallerCtx) : M UdsStreamScheme OpenResult :=
  if bool_decide (buf = as_bytes "listen") then handle_listen id ctx
  else if bool_decide (buf = as_bytes "connect") then handle_connect_socketpair id ctx
  else if bool_decide (buf = as_bytes "recvfd") then handle_recvfd id
  else throw EINVAL.

Definition write (id : Z) (buf : list u8) (ctx : CallerCtx) : M UdsStreamScheme Z :=
  q ← get_connected_peer id 0; write_inner q.1 buf ctx.

Definition fpath (id : Z) (buf : list u8) : M UdsStreamScheme (Z * list u8) :=
  r ← get_socket id;
  s ← borrow r;
  let '(n, l) := fpath_inner PREFIX (default EmptyString (path s)) buf in
  mret (Z.of_nat n, l).

Definition fsync (id : Z) : M UdsStreamScheme unit := _ ← get_socket id; mret tt.

Definition read (id : Z) (buf : list u8) (fl : Z) : M UdsStreamScheme (Z * list u8) :=
  r ← get_socket id;
  s ← borrow r;
  match state s with
  | Established | Accepted => c ← lift (require_connected_connection 0 s); read_inner r c buf fl
  | Closed => mret (0, buf)
  | Listening => throw EOPNOTSUPP
  | _ => throw ENOTCONN
  end.

Definition on_sendfd (req : Request) : M UdsStreamScheme Z :=
  q ← get_connected_peer (as_usize (arg0 req)) 0; sendfd_inner q.1 req.

Definition on_recvfd (req : Request) : M UdsStreamScheme OpenResult := recvfd_inner req.

Definition on_close (id : Z) : M UdsStreamScheme unit :=
  t ← gets sockets;
  match t !! id with
  | None => mret tt
  | Some r =>
      modify (fun u => set_sockets (delete id (sockets u)) u);;
      s ← borrow r;
      match state s with
      | Listening => handle_listening_closure r
      | _ => handle_other_closure r
      end
  end.

Definition fcntl (id cmd arg : Z) : M UdsStreamScheme Z :=
  r ← get_socket id;
  s ← borrow r;
  if cmd =? F_GETFL then mret (flags s)
  else if cmd =? F_SETFL then update r (set_flags arg);; mret 0
  else throw EINVAL.

Definition fevent (id fl : Z) : M UdsStreamScheme Z :=
  r ← get_socket id; s ← borrow r; mret (Z.land (events s) fl).

Definition fstat (id : Z) : M UdsStreamScheme Stat :=
  _ ← get_socket id; mret (Build_Stat MODE_SOCK 0 0 0 0 0 0 0 0 0 0 0 0 0 0).

(** The scheme as an [impl] of the trait; the rest is the trait's defaults. *)
#[export] Instance uds_stream_scheme : SchemeSync UdsStreamScheme :=
  let d := SchemeSync_default UdsStreamScheme in {|
  s_open := open;
  s_openat := @s_openat _ _ d; s_rmdir := @s_rmdir _ _ d; s_unlink := @s_unlink _ _ d; s_unlinkat := @s_unlinkat _ _ d;
  s_dup := dup;
  s_read i buf _ fl _ := read i buf fl;
  s_write i buf _ _ ctx := write i buf ctx;
  s_fsize := @s_fsize _ _ d; s_fchmod := @s_fchmod _ _ d; s_fchown := @s_fchown _ _ d;
  s_fcntl i cmd arg _ := fcntl i cmd arg;
  s_fevent i fl _ := fevent i fl;
  s_flink := @s_flink _ _ d;
  s_fpath i buf _ := fpath i buf;
  s_frename := @s_frename _ _ d;
  s_fstat i _ := fstat i;
  s_fstatvfs := @s_fstatvfs _ _ d;
  s_fsync i _ := fsync i;
  s_ftruncate := @s_ftruncate _ _ d; s_futimens := @s_futimens _ _ d;
  s_call := call;
  s_getdents := @s_getdents _ _ d; s_mmap_prep := @s_mmap_prep _ _ d; s_munmap := @s_munmap _ _ d;
  s_on_close := on_close;
  s_on_sendfd := on_sendfd;
  s_on_recvfd := on_recvfd
|}.
End stream.
