(* ===== verification/UdsFacts.v ===== *)
(** * ipcd: unix-domain sockets, messages

    Numbers and messages in byte streams: decoding is total in a release
    build, and decodes what was encoded; what a receiver finds in its buffer. *)

From stdpp Require Import base gmap strings list fin_maps.
From Stdlib Require Import ZArith Lia.
From Stdlib Require Import Strings.Byte.
From S2P Require Import Prelude Memory Syscall SchemeApi Uds.

Local Open Scope Z_scope.

(** ** Numbers *)

Section numbers.
Context {TG : Target}.

Lemma usize_len_spec : 256 ^ Z.of_nat usize_len = usize_mod.
Proof. unfold usize_len, usize_mod. by destruct usize_bits_ok as [-> | ->]. Qed.

Lemma usize_len_pos : (4 <= usize_len <= 8)%nat.
Proof.
  unfold usize_len. destruct usize_bits_ok as [-> | ->].
  - change (Z.to_nat (32 / 8)) with 4%nat. lia.
  - change (Z.to_nat (64 / 8)) with 8%nat. lia.
Qed.

Lemma read_num_app n l rest : length l = n -> read_num n (l ++ rest) = Ok (from_le l).
Proof.
  intros <-. unfold read_num. rewrite length_app, (proj2 (Nat.leb_le _ _)) by lia.
  by rewrite take_app_length.
Qed.

Lemma read_usize_app x rest : 0 <= x < usize_mod -> read_usize (le_bytes usize_len x ++ rest) = Ok x.
Proof.
  intros Hx. unfold read_usize. rewrite read_num_app by apply length_le_bytes.
  by rewrite from_le_bytes, usize_len_spec, Z.mod_small.
Qed.

Lemma as_i32_mod x : as_i32 (x mod 2 ^ 32) = as_i32 x.
Proof. unfold as_i32. f_equal. by rewrite Zplus_mod_idemp_l. Qed.

Lemma as_i32_small x : - 2 ^ 31 <= x < 2 ^ 31 -> as_i32 x = x.
Proof. intros Hx. unfold as_i32. rewrite Z.mod_small by lia. lia. Qed.

Lemma read_i32_app x rest : - 2 ^ 31 <= x < 2 ^ 31 -> read_i32 (le_bytes 4 x ++ rest) = Ok x.
Proof.
  intros Hx. unfold read_i32. rewrite read_num_app by apply length_le_bytes.
  rewrite from_le_bytes. cbn. f_equal. change (256 ^ Z.of_nat 4) with (2 ^ 32).
  by rewrite as_i32_mod, as_i32_small.
Qed.

Lemma read_num_total n l : read_num n l <> Panic.
Proof. unfold read_num. by destruct (_ <=? _)%nat. Qed.

Lemma read_num_Ok n l x : read_num n l = Ok x -> 0 <= x < 256 ^ Z.of_nat n.
Proof.
  unfold read_num. destruct (n <=? length l)%nat eqn:E; [| done]. intros [= <-].
  apply Nat.leb_le in E. pose proof (from_le_bounds (take n l)) as H. unfold zlen in H.
  by rewrite length_take_le in H.
Qed.

Lemma o_usize_add_panic a b : o_usize_add a b = Panic -> overflow_checks = true.
Proof.
  unfold o_usize_add, usize_add, arith. destruct (_ && _); [done |]. by destruct overflow_checks.
Qed.

Lemma o_usize_add_Err a b e : o_usize_add a b <> Err e.
Proof. unfold o_usize_add, usize_add, arith. destruct (_ && _); [done |]. by destruct overflow_checks. Qed.

Lemma o_usize_add_small a b : 0 <= a + b < usize_mod -> o_usize_add a b = Ok (a + b).
Proof. intros H. unfold o_usize_add. by rewrite usize_add_ok. Qed.

End numbers.

(** ** Parsing *)

Section parsing.
Context {TG : Target} {UA : UdsAbi}.

Lemma header_total s : header_from_stream s <> Panic.
Proof.
  unfold header_from_stream, read_i32, read_usize. destruct (_ <? _)%nat; [done |].
  pose proof (read_num_total 4 s). pose proof (read_num_total 4 (drop 4 s)).
  pose proof (read_num_total usize_len (drop 8 s)).
  repeat (destruct (read_num _ _); cbn; try done).
Qed.

Lemma header_Some s h :
  header_from_stream s = Ok (Some h) ->
  (CMSG_HEADER_LEN_IN_STREAM <= length s)%nat /\ 0 <= data_len h.
Proof.
  unfold header_from_stream. destruct (_ <? _)%nat eqn:E; [done |]. apply Nat.ltb_ge in E.
  destruct (read_i32 s); cbn; try done. destruct (read_i32 (drop 4 s)); cbn; try done.
  destruct (read_usize (drop 8 s)) eqn:Er; cbn; try done. intros [= <-]. split; [done |].
  apply read_num_Ok in Er. cbn. lia.
Qed.

Lemma take_cmsg_panic h d m : take_cmsg h d m = Panic -> overflow_checks = true.
Proof.
  unfold take_cmsg. destruct (_ && _).
  - pose proof (read_num_total usize_len d). unfold read_usize. destruct (read_num _ _); cbn; try done.
    destruct (o_usize_add _ _) eqn:E; cbn; try done. intros _. by apply o_usize_add_panic in E.
  - by destruct (_ && _).
Qed.

(** What parsing leaves of the packet it started from. *)
Definition same_packet (m m' : DataPacket) : Prop :=
  payload m' = payload m /\ read_offset m' = read_offset m /\ ancillary_taken m' = ancillary_taken m /\
  cred (ancillary_data m') = cred (ancillary_data m) /\ a_name (ancillary_data m') = a_name (ancillary_data m).

Lemma take_cmsg_same h d m m' : take_cmsg h d m = Ok m' -> same_packet m m'.
Proof.
  unfold take_cmsg. destruct (_ && _).
  - destruct (read_usize d); cbn; try done. destruct (o_usize_add _ _); cbn; try done.
    by intros [= <-].
  - destruct (_ && _); [| done]. by intros [= <-].
Qed.

(** The loop ends: each turn passes a header. *)
Lemma cmsg_loop_spec fuel s cursor m :
  0 <= cursor <= zlen s -> zlen s - cursor < Z.of_nat fuel ->
  exists o, cmsg_loop fuel s cursor m = Some o /\ (o = Panic -> overflow_checks = true) /\
    forall m', o = Ok m' -> same_packet m m'.
Proof.
  revert cursor m. induction fuel as [| fuel IH]; intros cursor m Hc Hf; [lia |].
  cbn [cmsg_loop]. unfold slice_from. rewrite (proj2 (Z.leb_le _ _)) by lia. cbn.
  pose proof (header_total (drop (Z.to_nat cursor) s)).
  destruct (header_from_stream _) as [[h |] | e |] eqn:Eh; try done.
  2: { eexists. split; [done |]. split; [done |]. by intros m' [= <-]. }
  2: { eexists. by split_and!. }
  apply header_Some in Eh as [Hlen Hd]. rewrite length_drop in Hlen.
  destruct (o_usize_add _ _) as [last | e |] eqn:Ea.
  2: { by apply o_usize_add_Err in Ea. }
  2: { apply o_usize_add_panic in Ea. eexists. by split_and!. }
  cbn. destruct (get_range _ last s) as [d |] eqn:Er; cbn; [| eexists; by split_and!].
  apply get_range_Some in Er as [Hr _]. destruct (take_cmsg h d m) as [m1 | e |] eqn:Et; cbn.
  - unfold zlen in *. pose proof usize_len_pos. unfold CMSG_HEADER_LEN_IN_STREAM in *.
    destruct (IH last m1) as (o & Ho & Hp & Hs); [lia | lia |]. exists o. split; [done |].
    split; [done |]. intros m' Hm'. apply take_cmsg_same in Et. specialize (Hs m' Hm').
    unfold same_packet in *. naive_solver congruence.
  - eexists. by split_and!.
  - apply take_cmsg_panic in Et. eexists. by split_and!.
Qed.

(** The bytes of a message, behind their number. *)
Definition message_bytes (msg : list u8) : list u8 :=
  match read_usize msg with Ok n => take (Z.to_nat n) (drop usize_len msg) | _ => [] end.

Lemma o_usize_add_Ok a b x :
  0 <= a -> 0 <= b < usize_mod -> o_usize_add a b = Ok x -> x = a + b \/ x < a.
Proof.
  intros Ha Hb. unfold o_usize_add, usize_add, arith. fold usize_mod. destruct (_ && _) eqn:E.
  - intros [= <-]. by left.
  - destruct overflow_checks; [done |]. intros [= <-]. right.
    pose proof (Z.mod_le (a + b - usize_mod) usize_mod). pose proof usize_mod_ge.
    replace (a + b) with (a + b - usize_mod + 1 * usize_mod) by lia. rewrite Z_mod_plus_full. lia.
Qed.

Lemma from_stream_spec s name c :
  (from_stream s name c = Panic -> overflow_checks = true) /\
  forall m, from_stream s name c = Ok m ->
    payload m = message_bytes s /\
    read_offset m = 0%nat /\ ancillary_taken m = false /\ cred (ancillary_data m) = c /\
    a_name (ancillary_data m) = name.
Proof.
  unfold from_stream, message_bytes. pose proof (read_num_total usize_len s). unfold read_usize.
  destruct (read_num usize_len s) as [n | e |] eqn:En; cbn -[cmsg_loop]; [| by split | by split].
  destruct (o_usize_add _ _) as [last | e |] eqn:Ea; cbn -[cmsg_loop]; [| by split |].
  2: { apply o_usize_add_panic in Ea. by split. }
  destruct (get_range _ last s) as [p |] eqn:Er; cbn -[cmsg_loop]; [| by split].
  apply get_range_Some in Er as [Hr ->].
  apply read_num_Ok in En. rewrite usize_len_spec in En.
  apply o_usize_add_Ok in Ea as [-> | ?]; [| lia | lia | lia]. rewrite Z.add_simpl_l, Nat2Z.id.
  destruct (cmsg_loop_spec (S (length s)) s (Z.of_nat usize_len + n)
    (DataPacket_new (take (Z.to_nat n) (drop usize_len s)) (AncillaryData_new c name)))
    as (o & -> & Hp & Hs); [lia | unfold zlen in *; lia |]. cbn. split; [done |].
  intros m Hm. specialize (Hs m Hm). unfold same_packet in Hs. cbn in Hs. tauto.
Qed.
End parsing.

(** ** The message stream of a sender *)

(** An entry of ancillary data: [level][type][data_len][data] *)
Definition encode_cmsg `{Target} (level c_type : Z) (data : list u8) : list u8 :=
  le_bytes 4 level ++ le_bytes 4 c_type ++ le_bytes usize_len (zlen data) ++ data.

(** The constants fit an [i32], and the two kinds of entries differ. *)
Class UdsAbiLaws (UA : UdsAbi) : Prop := {
  sol_socket_i32 : - 2 ^ 31 <= SOL_SOCKET < 2 ^ 31;
  scm_rights_i32 : - 2 ^ 31 <= SCM_RIGHTS < 2 ^ 31;
  scm_distinct : SCM_RIGHTS <> SCM_CREDENTIALS
}.

Section roundtrip.
Context {TG : Target} {UA : UdsAbi} {UL : UdsAbiLaws UA}.

(** A message with descriptors in as many entries as [fds] has. *)
Definition encode_msg (payload : list u8) (fds : list Z) : list u8 :=
  le_bytes usize_len (zlen payload) ++ payload ++
  concat ((fun n => encode_cmsg SOL_SOCKET SCM_RIGHTS (le_bytes usize_len n)) <$> fds).

Lemma length_encode_cmsg l t d : length (encode_cmsg l t d) = (CMSG_HEADER_LEN_IN_STREAM + length d)%nat.
Proof. unfold encode_cmsg, CMSG_HEADER_LEN_IN_STREAM. rewrite !length_app, !length_le_bytes. lia. Qed.

Lemma header_encoded l t d rest :
  - 2 ^ 31 <= l < 2 ^ 31 -> - 2 ^ 31 <= t < 2 ^ 31 -> zlen d < usize_mod ->
  header_from_stream (encode_cmsg l t d ++ rest) = Ok (Some {| level := l; c_type := t; data_len := zlen d |}).
Proof.
  intros Hl Ht Hd. unfold header_from_stream.
  rewrite (proj2 (Nat.ltb_ge _ _)) by (rewrite length_app, length_encode_cmsg; lia).
  unfold encode_cmsg. rewrite <- !app_assoc, read_i32_app by done. cbn [mbind outcome_bind].
  rewrite (drop_app_length' (le_bytes 4 l) _ 4) by (rewrite length_le_bytes; lia).
  rewrite read_i32_app by done. cbn [mbind outcome_bind].
  rewrite (app_assoc (le_bytes 4 l)), drop_app_length' by (rewrite length_app, !length_le_bytes; lia).
  rewrite read_usize_app by (unfold zlen in *; lia). done.
Qed.

Lemma take_cmsg_rights n msg :
  0 <= n < usize_mod -> num_fds (ancillary_data msg) + n < usize_mod -> 0 <= num_fds (ancillary_data msg) ->
  take_cmsg {| level := SOL_SOCKET; c_type := SCM_RIGHTS; data_len := zlen (le_bytes usize_len n) |}
    (le_bytes usize_len n) msg =
  Ok {| payload := payload msg;
        ancillary_data := {| cred := cred (ancillary_data msg); num_fds := num_fds (ancillary_data msg) + n;
                             a_name := a_name (ancillary_data msg) |};
        read_offset := read_offset msg; ancillary_taken := ancillary_taken msg |}.
Proof.
  intros Hn Hsum H0. unfold take_cmsg. cbn [level c_type]. rewrite !Z.eqb_refl. cbn [andb].
  rewrite <- (app_nil_r (le_bytes _ _)), read_usize_app by done. cbn [mbind outcome_bind].
  rewrite o_usize_add_small by lia. done.
Qed.

Lemma get_range_app pre mid rest :
  get_range (zlen pre) (zlen pre + zlen mid) (pre ++ mid ++ rest) = Some mid.
Proof.
  unfold get_range, zlen. rewrite (proj2 (Z.leb_le _ _)), (proj2 (Z.leb_le _ _))
    by (rewrite ?length_app; lia). cbn [andb].
  rewrite Z.add_simpl_l, !Nat2Z.id, drop_app_length, take_app_length. done.
Qed.

Lemma cmsg_loop_encoded fds pre msg fuel :
  let stream := pre ++ concat ((fun n => encode_cmsg SOL_SOCKET SCM_RIGHTS (le_bytes usize_len n)) <$> fds) in
  Forall (fun n => 0 <= n) fds -> 0 <= num_fds (ancillary_data msg) ->
  num_fds (ancillary_data msg) + foldr Z.add 0 fds < usize_mod -> zlen stream < usize_mod ->
  (length fds < fuel)%nat ->
  cmsg_loop fuel stream (zlen pre) msg =
  Some (Ok {| payload := payload msg;
              ancillary_data := {| cred := cred (ancillary_data msg);
                                   num_fds := num_fds (ancillary_data msg) + foldr Z.add 0 fds;
                                   a_name := a_name (ancillary_data msg) |};
              read_offset := read_offset msg; ancillary_taken := ancillary_taken msg |}).
Proof.
  revert pre msg fuel. induction fds as [| n fds IH]; intros pre msg fuel stream Hpos H0 Hsum Hlen Hf;
    (destruct fuel as [| fuel]; [cbn in Hf; lia |]).
  - cbn [cmsg_loop]. unfold slice_from. subst stream. cbn [fmap list_fmap concat] in *. rewrite app_nil_r in *.
    rewrite Z.leb_refl. cbn [mbind outcome_bind]. unfold zlen at 1. rewrite Nat2Z.id, drop_all.
    unfold header_from_stream. rewrite (proj2 (Nat.ltb_lt _ _)) by (cbn; unfold CMSG_HEADER_LEN_IN_STREAM; lia).
    cbn. rewrite Z.add_0_r. do 2 f_equal. by destruct msg as [? [] ? ?].
  - apply Forall_cons in Hpos as [Hn Hpos]. cbn [foldr] in Hsum.
    assert (0 <= foldr Z.add 0 fds) as Hrest.
    { clear -Hpos. induction Hpos; cbn; lia. }
    set (entry := encode_cmsg SOL_SOCKET SCM_RIGHTS (le_bytes usize_len n)) in *.
    set (tail := concat ((fun n => encode_cmsg SOL_SOCKET SCM_RIGHTS (le_bytes usize_len n)) <$> fds)) in *.
    assert (stream = pre ++ entry ++ tail) as Hs by done.
    cbn [cmsg_loop]. unfold slice_from.
    rewrite (proj2 (Z.leb_le _ _)) by (rewrite Hs; unfold zlen; rewrite !length_app; lia).
    cbn [mbind outcome_bind]. unfold zlen at 1. rewrite Nat2Z.id. rewrite Hs at 1. rewrite drop_app_length.
    assert (zlen (le_bytes usize_len n) < usize_mod) as Hz.
    { unfold zlen. rewrite length_le_bytes. pose proof usize_len_pos. pose proof usize_mod_ge. lia. }
    unfold entry at 1. rewrite header_encoded by (try apply sol_socket_i32; try apply scm_rights_i32; done).
    cbn [data_len].
    assert (exists hd, entry = hd ++ le_bytes usize_len n /\ length hd = CMSG_HEADER_LEN_IN_STREAM) as (hd & Hhd & Hlh).
    { exists (le_bytes 4 SOL_SOCKET ++ le_bytes 4 SCM_RIGHTS ++ le_bytes usize_len (zlen (le_bytes usize_len n))).
      split; [unfold entry, encode_cmsg; by rewrite <- !app_assoc |].
      rewrite !length_app, !length_le_bytes. unfold CMSG_HEADER_LEN_IN_STREAM. lia. }
    assert (zlen pre + Z.of_nat CMSG_HEADER_LEN_IN_STREAM = zlen (pre ++ hd)) as -> by (unfold zlen; rewrite length_app; lia).
    assert (stream = (pre ++ hd) ++ le_bytes usize_len n ++ tail) as Hs2 by (rewrite Hs, Hhd, <- !app_assoc; done).
    rewrite o_usize_add_small.
    2: { rewrite Hs2 in Hlen. unfold zlen in *. rewrite !length_app in *. lia. }
    cbn [mbind outcome_bind]. rewrite Hs2 at 1. rewrite get_range_app. cbn [o_ok_or mbind outcome_bind].
    rewrite take_cmsg_rights by lia. cbn [mbind outcome_bind].
    assert (zlen (pre ++ hd) + zlen (le_bytes usize_len n) = zlen (pre ++ entry)) as ->
      by (rewrite Hhd; unfold zlen; rewrite !length_app; lia).
    assert (stream = (pre ++ entry) ++ tail) as -> by (rewrite Hs, <- app_assoc; done).
    rewrite IH; cbn [ancillary_data num_fds cred a_name payload read_offset ancillary_taken foldr];
      [by rewrite Z.add_assoc | done | lia | lia | | cbn in Hf; lia].
    rewrite Hs in Hlen. by rewrite <- app_assoc.
Qed.

Lemma from_stream_encoded payload fds name c :
  Forall (fun n => 0 <= n) fds -> foldr Z.add 0 fds < usize_mod -> zlen (encode_msg payload fds) < usize_mod ->
  from_stream (encode_msg payload fds) name c =
  Ok (DataPacket_new payload {| cred := c; num_fds := foldr Z.add 0 fds; a_name := name |}).
Proof.
  intros Hpos Hsum Hlen. unfold from_stream, encode_msg in *.
  set (tail := concat _) in *. set (hd := le_bytes usize_len (zlen payload)) in *.
  assert (zlen hd = Z.of_nat usize_len) as Hh by (unfold hd, zlen; by rewrite length_le_bytes).
  assert (zlen (hd ++ payload ++ tail) = zlen hd + zlen payload + zlen tail) as Hz
    by (unfold zlen; rewrite !length_app; lia).
  assert (read_usize (hd ++ payload ++ tail) = Ok (zlen payload)) as ->
    by (apply read_usize_app; unfold zlen in *; lia). cbn [mbind outcome_bind].
  rewrite <- Hh, o_usize_add_small by (unfold zlen in *; lia). cbn [mbind outcome_bind].
  rewrite get_range_app. cbn [o_ok_or mbind outcome_bind]. rewrite app_assoc.
  assert (zlen hd + zlen payload = zlen (hd ++ payload)) as -> by (unfold zlen; rewrite length_app; lia).
  unfold tail. rewrite cmsg_loop_encoded; [done | done | cbn; lia | cbn; lia | rewrite <- app_assoc; done |].
  fold tail. rewrite !length_app.
  assert (length fds <= length tail)%nat; [| lia].
  unfold tail. clear. induction fds as [| n fds IH]; cbn [fmap list_fmap concat length]; [lia |].
  rewrite length_app, length_encode_cmsg. unfold CMSG_HEADER_LEN_IN_STREAM. lia.
Qed.

(** A message that a sender encoded is decoded as it was: its payload,
    the number of descriptors announced with it, however many entries announce
    them, and the name and credentials of the sender. *)
Theorem from_stream_roundtrip payload fds name c :
  Forall (fun n => 0 <= n) fds -> foldr Z.add 0 fds < usize_mod -> zlen (encode_msg payload fds) < usize_mod ->
  from_stream (encode_msg payload fds) name c =
  Ok (DataPacket_new payload {| cred := c; num_fds := foldr Z.add 0 fds; a_name := name |}).
Proof. apply from_stream_encoded. Qed.
End roundtrip.

(** ** The buffer of a receiver *)

Section layout.
Context {TG : Target} {UA : UdsAbi}.

(** A writer that has written [P], with [R] left. *)
Definition wrote (P R : list u8) : MsgWriter := {| buffer := P ++ R; written_len := length P |}.

Lemma splice_app (P X R : list u8) :
  splice (length P) X (P ++ R) = (P ++ X) ++ drop (length X) R.
Proof.
  unfold splice. rewrite take_app_length, drop_app_add', <- app_assoc by done. done.
Qed.

Lemma fpath_inner_fits PREFIX path buf :
  let n := PREFIX ++ as_bytes path in
  (length n <= length buf)%nat -> fpath_inner PREFIX path buf = (length n, n ++ drop (length n) buf).
Proof.
  intros n Hn. subst n. rewrite length_app in *. unfold fpath_inner, common_len.
  rewrite Nat.min_l by lia. rewrite Nat.ltb_irrefl.
  unfold copy_prefix. rewrite take_ge by lia. rewrite length_app, length_drop.
  rewrite Nat.min_l by lia. f_equal. rewrite (take_ge (as_bytes path)) by lia.
  rewrite splice_app, drop_drop. by rewrite <- app_assoc.
Qed.

Lemma splice_shift i (X P R : list u8) : splice (length P + i) X (P ++ R) = P ++ splice i X R.
Proof.
  unfold splice. rewrite take_app_add', <- Nat.add_assoc, drop_app_add', <- app_assoc by done. done.
Qed.

Lemma splice_0 (X R : list u8) : splice 0 X R = X ++ drop (length X) R.
Proof. done. Qed.

(** Writing the beginning of a part of a list changes just that. *)
Lemma splice_sub i k (n R : list u8) :
  (length n <= k)%nat -> (i + k <= length R)%nat ->
  splice i (n ++ drop (length n) (take k (drop i R))) R = take i R ++ n ++ drop (i + length n) R.
Proof.
  intros Hn Hk. unfold splice. rewrite length_app, length_drop, length_take, length_drop.
  rewrite <- app_assoc. do 2 f_equal.
  replace (drop (i + length n) R) with (drop (length n) (drop i R)) by by rewrite drop_drop.
  rewrite <- (take_drop k (drop i R)) at 2. rewrite drop_app_le by (rewrite length_take, length_drop; lia).
  f_equal. rewrite drop_drop. f_equal. lia.
Qed.

Lemma write_name_some PREFIX path size P R :
  let n := PREFIX ++ as_bytes path in
  zlen n <= size -> (usize_len + length n <= length R)%nat ->
  write_name PREFIX (Some path) size (wrote P R) =
  (Ok tt, wrote (P ++ le_bytes usize_len (zlen n) ++ n) (drop (usize_len + length n) R)).
Proof.
  intros n Hs HR. unfold write_name. rewrite gets_bind. cbn [buffer written_len wrote id].
  rewrite (proj2 (Nat.ltb_ge _ _)) by (rewrite length_app; lia).
  set (k := Z.to_nat _). assert (length n <= k)%nat as Hk.
  { unfold k, zlen in *. rewrite length_app. lia. }
  assert (usize_len + k <= length R)%nat as Hk2 by (unfold k; rewrite length_app; lia).
  rewrite drop_app_add' by done. rewrite fpath_inner_fits.
  2: { fold n. rewrite length_take, length_drop. lia. }
  fold n. unfold put_writer, modify, wrote. f_equal. f_equal.
  2: { rewrite !length_app, length_le_bytes. lia. }
  rewrite splice_shift, splice_sub by lia. rewrite <- (Nat.add_0_r (length P)), splice_shift, splice_0.
  rewrite length_le_bytes, drop_app_length' by (rewrite length_take; lia). by rewrite <- !app_assoc.
Qed.

Lemma write_name_none PREFIX size P R :
  (usize_len <= length R)%nat ->
  write_name PREFIX None size (wrote P R) = (Ok tt, wrote (P ++ take usize_len R) (drop usize_len R)).
Proof.
  intros HR. unfold write_name. rewrite gets_bind. cbn [buffer written_len wrote id].
  rewrite (proj2 (Nat.ltb_ge _ _)) by (rewrite length_app; lia). unfold put_writer, modify, wrote.
  rewrite length_app, length_take, <- app_assoc, take_drop, Nat.min_l by lia. done.
Qed.

Lemma write_payload_fits p iov P R :
  zlen p <= iov -> (usize_len + length p <= length R)%nat ->
  write_payload p (length p) iov (wrote P R) =
  (Ok (length p), wrote (P ++ le_bytes usize_len (zlen p) ++ p) (drop (usize_len + length p) R)).
Proof.
  intros Hi HR. unfold write_payload. rewrite gets_bind. cbn [buffer written_len wrote id].
  rewrite (proj2 (Nat.ltb_ge _ _)) by (rewrite length_app; lia).
  rewrite splice_app, length_le_bytes.
  replace (Z.to_nat (Z.min iov (Z.of_nat (length p)))) with (length p) by (unfold zlen in *; lia).
  rewrite (proj2 (Nat.ltb_ge _ _)) by (rewrite !length_app, length_drop, length_le_bytes; lia).
  rewrite take_ge by lia. fold (zlen p).
  assert (length P + usize_len = length (P ++ le_bytes usize_len (zlen p)))%nat as ->
    by (by rewrite length_app, length_le_bytes).
  rewrite splice_app, drop_drop. unfold put_writer. rewrite modify_bind. unfold wrote. rewrite <- !app_assoc.
  rewrite !length_app. by rewrite Nat.add_assoc.
Qed.

Lemma write_cmsg_fits l t d P R :
  (length (encode_cmsg l t d) <= length R)%nat ->
  write_cmsg l t d (wrote P R) =
  (Ok true, wrote (P ++ encode_cmsg l t d) (drop (length (encode_cmsg l t d)) R)).
Proof.
  intros HR. rewrite length_encode_cmsg in HR. unfold write_cmsg. rewrite gets_bind.
  cbn [buffer written_len wrote id]. rewrite length_app.
  rewrite !(proj2 (Nat.ltb_ge _ _)) by lia. fold (encode_cmsg l t d).
  rewrite splice_app. unfold put_writer. rewrite modify_bind. unfold wrote. by rewrite length_app.
Qed.

Lemma write_rights_fits n P R :
  let X := if n =? 0 then [] else encode_cmsg SOL_SOCKET SCM_RIGHTS (le_bytes usize_len n) in
  (length X <= length R)%nat ->
  write_rights n (wrote P R) = (Ok true, wrote (P ++ X) (drop (length X) R)).
Proof.
  intros X HR. unfold write_rights, X in *. destruct (n =? 0).
  - by rewrite app_nil_r.
  - by apply write_cmsg_fits.
Qed.

(** What [write_credentials] writes. *)
Definition creds_entry (c : Credential) : list u8 :=
  encode_cmsg SOL_SOCKET SCM_CREDENTIALS (le_bytes 4 (c_pid c) ++ le_bytes 4 (c_uid c) ++ le_bytes 4 (c_gid c)).

Lemma write_credentials_fits c P R :
  (length (creds_entry c) <= length R)%nat ->
  write_credentials c (wrote P R) = (Ok true, wrote (P ++ creds_entry c) (drop (length (creds_entry c)) R)).
Proof. apply write_cmsg_fits. Qed.

(** A received message: the name of the sender, the payload, the number of
    descriptors and, if asked for, the credentials. *)
Definition layout (name : list u8) (payload : list u8) (n : Z) (c : list Credential) : list u8 :=
  le_bytes usize_len (zlen name) ++ name ++ le_bytes usize_len (zlen payload) ++ payload ++
  (if n =? 0 then [] else encode_cmsg SOL_SOCKET SCM_RIGHTS (le_bytes usize_len n)) ++
  concat (creds_entry <$> c).
End layout.

(** ** Some constants, and a host that answers *)

Definition demo_uds_abi : UdsAbi := {|
  socket_call n :=
    match n with
    | 0 => Some SC_Bind | 1 => Some SC_Connect | 2 => Some SC_SetSockOpt | 3 => Some SC_GetSockOpt
    | 4 => Some SC_SendMsg | 5 => Some SC_RecvMsg | 6 => Some SC_Unbind | 7 => Some SC_GetToken
    | 8 => Some SC_GetPeerName | _ => None
    end;
  SOL_SOCKET := 1; SCM_RIGHTS := 1; SO_PASSCRED := 16; SO_DOMAIN := 39; SO_PEERCRED := 17; SO_SNDBUF := 7;
  AF_UNIX := 1; MSG_DONTWAIT := 64;
  ucred_bytes pid uid gid := le_bytes 4 pid ++ le_bytes 4 uid ++ le_bytes 4 gid
|}.

Lemma demo_uds_abi_laws : UdsAbiLaws demo_uds_abi.
Proof. by split; cbn. Qed.

Definition steady_host : UdsHost := {|
  write_response _ := Ok true;
  next_u64 n := 100 + Z.of_nat n;
  get_proc_credentials _ pid := Ok (le_bytes 4 pid ++ replicate 44 x00);
  obtain_fd _ := Ok Z.of_nat;
  move_fd _ _ := Ok tt
|}.

Lemma from_stream_roundtrip_witness :
  from_stream (TG := x86_64_release) (UA := demo_uds_abi)
    (encode_msg (TG := x86_64_release) (UA := demo_uds_abi) [x61; x62] [2; 1]) None {| c_pid := 7; c_uid := 0; c_gid := 0 |} =
  Ok (DataPacket_new [x61; x62] {| cred := {| c_pid := 7; c_uid := 0; c_gid := 0 |}; num_fds := 3; a_name := None |}).
Proof.
  apply (from_stream_roundtrip (TG := x86_64_release) (UL := demo_uds_abi_laws) [x61; x62] [2; 1]).
  - repeat constructor; lia.
  - by vm_compute.
  - by vm_compute.
Defined.
