(* ===== verification/UdsDgramFacts.v ===== *)
(** * ipcd: datagram sockets, theorems

    What a receiver finds in its buffer is what the sender sent, with the
    sender's address and credentials. *)

From stdpp Require Import base gmap strings list fin_maps.
From Stdlib Require Import ZArith Lia.
From Stdlib Require Import Strings.Byte.
From S2P Require Import Prelude Memory Syscall SchemeApi Uds UdsFacts UdsDgram.

Local Open Scope Z_scope.

Section dgram.
Context {TG : Target} {SC : Syscall} {AB : SchemeAbi} {UA : UdsAbi} {UH : UdsHost}.

(** The address of a sender as it is reported: nothing for one that is not
    bound. *)
Definition reported (name : option string) : list u8 :=
  match name with Some p => PREFIX ++ as_bytes p | None => [] end.

Lemma zoom_run {S T A} (get : S -> T) put (m : M T A) s o t :
  m (get s) = (o, t) -> zoom get put m s = (o, put t s).
Proof. unfold zoom. by intros ->. Qed.

Lemma bind_step {S A B} (m : M S A) (k : A -> M S B) s a s' :
  m s = (Ok a, s') -> (m ≫= k) s = k a s'.
Proof. unfold mbind, M_bind. by intros ->. Qed.

(** The name is the first thing that is written; without one the zeros of the
    header stand for it. *)
Lemma write_name_reported name size R :
  zlen (reported name) <= size -> (usize_len + length (reported name) <= length R)%nat ->
  take usize_len R = replicate usize_len x00 ->
  write_name PREFIX name size (wrote [] R) =
  (Ok tt, wrote (le_bytes usize_len (zlen (reported name)) ++ reported name)
            (drop (usize_len + length (reported name)) R)).
Proof.
  intros Hs HR H0. destruct name as [p |].
  - by rewrite write_name_some.
  - rewrite write_name_none by (cbn in HR; lia). rewrite H0, Nat.add_0_r. cbn [reported zlen length app].
    f_equal. f_equal. rewrite app_nil_r. unfold usize_len. by destruct usize_bits_ok as [-> | ->].
Qed.

(** The credentials that the options ask for. *)
Definition asked (opts : gset Z) (c : Credential) : list Credential :=
  if bool_decide (SO_PASSCRED ∈ opts) then [c] else [].

Lemma write_options_fits c opts s P R :
  opts ⊆ {[SO_PASSCRED]} ->
  let X := concat (creds_entry <$> asked opts c) in
  (length X <= length R)%nat ->
  write_options c (elements opts) (s, wrote P R) = (Ok tt, (s, wrote (P ++ X) (drop (length X) R))).
Proof.
  intros Ho X HR. unfold X, asked in *. case_bool_decide as Hin.
  - assert (opts = {[SO_PASSCRED]}) as -> by set_solver. rewrite elements_singleton.
    cbn [write_options]. rewrite Z.eqb_refl. cbn [fmap list_fmap concat] in *. rewrite app_nil_r in *.
    rewrite (bind_step _ _ _ true (s, wrote (P ++ creds_entry c) (drop (length (creds_entry c)) R))); [done |].
    unfold on_writer. by erewrite zoom_run by by apply write_credentials_fits.
  - assert (opts = ∅) as -> by set_solver. rewrite elements_empty. cbn. by rewrite app_nil_r.
Qed.

(** A message that fits is laid out whole, and the socket is left alone. *)
Lemma serialize_msg_fits m name_size iov_size s R :
  let a := ancillary_data m in
  let L := layout (reported (a_name a)) (payload m) (num_fds a) (asked (options s) (cred a)) in
  options s ⊆ {[SO_PASSCRED]} -> zlen (reported (a_name a)) <= name_size -> zlen (payload m) <= iov_size ->
  (length L <= length R)%nat -> take usize_len R = replicate usize_len x00 ->
  serialize_msg m name_size iov_size (s, wrote [] R) = (Ok (zlen L), (s, wrote L (drop (length L) R))).
Proof.
  intros a L Ho Hn Hp HL H0. set (name := reported (a_name a)) in *.
  set (rights := if num_fds a =? 0 then [] else encode_cmsg SOL_SOCKET SCM_RIGHTS (le_bytes usize_len (num_fds a))).
  set (creds := concat (creds_entry <$> asked (options s) (cred a))).
  assert (length L = usize_len + length name + (usize_len + length (payload m)) + length rights + length creds)%nat as Hl.
  { unfold L, layout. fold rights creds. rewrite !length_app, !length_le_bytes. lia. }
  unfold serialize_msg. fold a.
  erewrite bind_step by (unfold on_writer; erewrite zoom_run by (apply write_name_reported; [done | fold name; lia | done]); reflexivity).
  cbn [fst snd]. fold name.
  erewrite bind_step by (unfold on_writer; erewrite zoom_run by (apply write_payload_fits; [done | rewrite length_drop; lia]); reflexivity).
  cbn [fst snd].
  erewrite bind_step by (unfold on_writer; erewrite zoom_run by (apply write_rights_fits; fold rights; rewrite !length_drop; lia); reflexivity).
  cbn [fst snd]. fold rights. rewrite ret_bind, gets_bind. cbn [fst].
  erewrite bind_step by (apply (write_options_fits _ _ _ _ _ Ho); fold creds; rewrite !length_drop; lia).
  rewrite gets_bind. cbn [snd]. fold creds. unfold L, layout. fold rights creds name.
  unfold mret, M_ret. f_equal; [f_equal; unfold wrote; cbn [written_len]; unfold zlen; f_equal; rewrite !length_app; lia |].
  f_equal. unfold wrote. f_equal.
  - rewrite <- !app_assoc. do 6 f_equal. rewrite !drop_drop. f_equal. rewrite !length_app, !length_le_bytes. lia.
  - rewrite !length_app. lia.
Qed.

Lemma serialize_fits m name_size iov_size s R :
  let a := ancillary_data m in
  let L := layout (reported (a_name a)) (payload m) (num_fds a) (asked (options s) (cred a)) in
  options s ⊆ {[SO_PASSCRED]} -> zlen (reported (a_name a)) <= name_size -> zlen (payload m) <= iov_size ->
  (length L <= length R)%nat -> take usize_len R = replicate usize_len x00 ->
  serialize_to_stream m name_size iov_size (s, R) = (Ok (zlen L), (s, L ++ drop (length L) R)).
Proof.
  intros a L Ho Hn Hp HL H0. unfold serialize_to_stream.
  unfold zoom. cbn [fst snd]. change {| buffer := R; written_len := 0 |} with (wrote [] R).
  by rewrite (serialize_msg_fits m name_size iov_size s R Ho Hn Hp HL H0).
Qed.

(** The buffer that a receiver prepares: three sizes in front. *)
Definition prepared (name_size iov_size ctl_size : Z) (rest : list u8) : list u8 :=
  le_bytes usize_len name_size ++ le_bytes usize_len iov_size ++ le_bytes usize_len ctl_size ++ rest.

Lemma read_msghdr_prepared a b c rest :
  0 <= a < usize_mod -> 0 <= b < usize_mod -> 0 <= c < usize_mod ->
  read_msghdr_info (prepared a b c rest) = (Ok (a, b, c), replicate (3 * usize_len) x00 ++ rest).
Proof.
  intros Ha Hb Hc. unfold read_msghdr_info, prepared. rewrite gets_bind. cbn [id].
  rewrite (proj2 (Nat.ltb_ge _ _)) by (rewrite !length_app, !length_le_bytes; lia).
  assert (forall x (k : Z -> M (list u8) (Z * Z * Z)) s, (lift (Ok x) ≫= k) s = k x s) as Hlift by done.
  rewrite read_usize_app, Hlift by done.
  rewrite (drop_app_length' (le_bytes usize_len a) _ usize_len) by (by rewrite length_le_bytes).
  rewrite read_usize_app, Hlift by done.
  rewrite app_assoc, drop_app_length' by (rewrite length_app, !length_le_bytes; lia).
  rewrite read_usize_app, Hlift by done. rewrite modify_bind. unfold mret, M_ret. f_equal.
  rewrite splice_0, length_replicate. rewrite (app_assoc _ (le_bytes _ c)), drop_app_length'; [done |].
  rewrite !length_app, !length_le_bytes. lia.
Qed.

Lemma recvmsg_inner_fits m s a b c rest :
  let x := ancillary_data m in
  let L := layout (reported (a_name x)) (payload m) (num_fds x) (asked (options s) (cred x)) in
  0 <= a < usize_mod -> 0 <= b < usize_mod -> 0 <= c < usize_mod ->
  options s ⊆ {[SO_PASSCRED]} -> zlen (reported (a_name x)) <= a -> zlen (payload m) <= b ->
  (length L <= length (prepared a b c rest))%nat ->
  recvmsg_inner m (s, prepared a b c rest) =
  (Ok (zlen L), (s, L ++ drop (length L) (replicate (3 * usize_len) x00 ++ rest))).
Proof.
  intros x L Ha Hb Hc Ho Hn Hp HL. unfold recvmsg_inner.
  erewrite bind_step by (by erewrite zoom_run by by apply read_msghdr_prepared).
  cbn [fst snd]. apply serialize_fits; try done.
  - unfold prepared in HL. rewrite !length_app, !length_le_bytes in HL. rewrite length_app, length_replicate. fold x L. lia.
  - rewrite take_app_le by (rewrite length_replicate; lia). rewrite take_replicate. f_equal. lia.
Qed.

(** ** From sender to receiver *)

Lemma get_socket_run id r (u : UdsDgramScheme) : sockets u !! id = Some r -> get_socket id u = (Ok r, u).
Proof. intros H. unfold get_socket, get_rc. by rewrite gets_bind, H. Qed.

Lemma borrow_run r s (u : UdsDgramScheme) : heap u !! r = Some s -> borrow r u = (Ok s, u).
Proof. intros H. unfold borrow. by rewrite gets_bind, H. Qed.

Lemma get_connected_peer_run a ra sa b rb sb (u : UdsDgramScheme) :
  sockets u !! a = Some ra -> heap u !! ra = Some sa -> peer sa = Some b ->
  sockets u !! b = Some rb -> heap u !! rb = Some sb -> state sb <> Closed ->
  get_connected_peer a u = (Ok (b, rb), u).
Proof.
  intros Ha Hsa Hp Hb Hsb Hst. unfold get_connected_peer.
  rewrite (bind_step _ _ _ _ _ (get_socket_run _ _ _ Ha)), (bind_step _ _ _ _ _ (borrow_run _ _ _ Hsa)).
  rewrite Hp. cbn [ok_or]. rewrite ret_bind. unfold get_rc.
  erewrite bind_step by (rewrite gets_bind, Hb; reflexivity).
  rewrite (bind_step _ _ _ _ _ (borrow_run _ _ _ Hsb)), bool_decide_eq_false_2 by done. done.
Qed.

(** A message joins the queue of the peer. *)
Lemma sendmsg_run a ra sa b rb sb msg m c ctx (u : UdsDgramScheme) :
  sockets u !! a = Some ra -> heap u !! ra = Some sa -> peer sa = Some b ->
  sockets u !! b = Some rb -> heap u !! rb = Some sb -> state sb <> Closed -> msg <> [] ->
  credential_of (ctx_pid ctx) u = (Ok c, tick u) -> from_stream msg (path sa) c = Ok m ->
  (forall n, write_response n = Ok true) ->
  exists u1, handle_sendmsg a msg ctx u = (Ok (zlen (payload m)), u1) /\
    sockets u1 = sockets u /\ heap u1 = <[rb := set_messages (messages sb ++ [m]) sb]> (heap u).
Proof.
  intros Ha Hsa Hp Hb Hsb Hst Hne Hc Hm Hw. unfold handle_sendmsg, sendmsg_inner.
  rewrite bool_decide_eq_false_2 by done. cbn [fail_if]. rewrite ret_bind.
  rewrite (bind_step _ _ _ _ _ (get_socket_run _ _ _ Ha)), (bind_step _ _ _ _ _ (borrow_run _ _ _ Hsa)).
  rewrite (bind_step _ _ _ _ _ (get_connected_peer_run _ _ _ _ _ _ _ Ha Hsa Hp Hb Hsb Hst)). cbn [fst snd].
  eexists. split.
  - erewrite bind_step.
    2: { rewrite ret_bind, (bind_step _ _ _ _ _ Hc).
         unfold lift at 1. erewrite bind_step by (rewrite Hm; reflexivity).
         unfold update. rewrite modify_bind. reflexivity. }
    unfold post_fevent, ask. erewrite bind_step.
    2: { rewrite modify_bind. erewrite bind_step by (rewrite gets_bind, modify_bind; reflexivity).
         rewrite Hw. reflexivity. }
    reflexivity.
  - split; [done |]. cbn. apply map_eq. intros i. destruct (decide (rb = i)) as [<- | Hi].
    + by rewrite lookup_alter_eq, lookup_insert_eq, Hsb.
    + by rewrite lookup_alter_ne, lookup_insert_ne.
Qed.

(** The oldest message is laid out in the buffer. *)
Lemma recvmsg_run b rb sb m ms a' b' c' rest (u : UdsDgramScheme) :
  let x := ancillary_data m in
  let buf := prepared a' b' c' rest in
  let L := layout (reported (a_name x)) (payload m) (num_fds x) (asked (options sb) (cred x)) in
  sockets u !! b = Some rb -> heap u !! rb = Some sb -> messages sb = m :: ms ->
  0 <= a' < usize_mod -> 0 <= b' < usize_mod -> 0 <= c' < usize_mod ->
  options sb ⊆ {[SO_PASSCRED]} -> zlen (reported (a_name x)) <= a' -> zlen (payload m) <= b' ->
  (length L <= length buf)%nat ->
  exists u2, handle_recvmsg b (u, buf) =
    (Ok (zlen L), (u2, L ++ drop (length L) (replicate (3 * usize_len) x00 ++ rest))) /\
    heap u2 !! rb = Some (set_messages ms sb).
Proof.
  intros x buf L Hb Hsb Hms H1 H2 H3 Ho Hn Hi HL. unfold handle_recvmsg, on_tables.
  erewrite bind_step by (erewrite zoom_run by (by apply get_socket_run); reflexivity).
  erewrite bind_step by (erewrite zoom_run by (by apply borrow_run); reflexivity).
  cbn [fst snd]. rewrite Hms. unfold update. erewrite bind_step by reflexivity. cbn [fst snd].
  unfold on_cell. cbn [fst snd heap set_heap]. rewrite lookup_alter_eq, Hsb. cbn [fmap option_fmap option_map].
  unfold buf. rewrite (recvmsg_inner_fits m (set_messages ms sb) a' b' c' rest); try done.
  eexists. split; [reflexivity |]. cbn. by rewrite lookup_insert_eq.
Qed.


(** A message is lost when the buffer of the receiver is too short for the
    three sizes in front: the call fails with EINVAL, and the message is no
    longer in the queue. *)
Theorem dgram_recvmsg_short_loses b rb sb m ms l (u : UdsDgramScheme) :
  sockets u !! b = Some rb -> heap u !! rb = Some sb -> messages sb = m :: ms -> (length l < 3 * usize_len)%nat ->
  exists u', handle_recvmsg b (u, l) = (Err EINVAL, (u', l)) /\ heap u' !! rb = Some (set_messages ms sb).
Proof.
  intros Hb Hsb Hms Hl. unfold handle_recvmsg, on_tables.
  erewrite bind_step by (erewrite zoom_run by (by apply get_socket_run); reflexivity).
  erewrite bind_step by (erewrite zoom_run by (by apply borrow_run); reflexivity).
  cbn [fst snd]. rewrite Hms. unfold update. erewrite bind_step by reflexivity. cbn [fst snd].
  unfold on_cell. cbn [fst snd heap set_heap]. rewrite lookup_alter_eq, Hsb. cbn [fmap option_fmap option_map].
  assert (recvmsg_inner m (set_messages ms sb, l) = (Err EINVAL, (set_messages ms sb, l))) as ->.
  { unfold recvmsg_inner, zoom, mbind, M_bind. cbn [snd]. unfold read_msghdr_info. rewrite gets_bind. cbn [id].
    by rewrite (proj2 (Nat.ltb_lt _ _)) by done. }
  eexists. split; [reflexivity |]. cbn. by rewrite lookup_insert_eq.
Qed.
End dgram.

(** ** Witnesses *)

Section witnesses.
#[local] Existing Instance redox_syscall.
#[local] Existing Instance x86_64_release.
#[local] Existing Instance demo_uds_abi.
#[local] Existing Instance demo_uds_abi_laws.
#[local] Existing Instance steady_host.

Definition demo_ctx : CallerCtx := {| ctx_pid := 7; ctx_uid := 0; ctx_gid := 0; ctx_id := 1 |}.

(** Socket 0 is bound to a name and connected to socket 1, which asks for
    credentials. *)
Definition demo_dgram : UdsDgramScheme :=
  ((handle_unnamed_socket 0;; handle_unnamed_socket 0;;
    handle_bind 0 (as_bytes "a");; handle_bind 1 (as_bytes "b");;
    handle_connect 0 (le_bytes 8 101);; handle_setsockopt 1 16 (le_bytes 4 1)) Uds_new).2.

Definition demo_a : Socket :=
  {| primary_id := 0; path := Some "a"; state := Bound; peer := Some 1; messages := []; options := ∅; fds := [];
     flags := 0; issued_token := Some 100 |}.
Definition demo_b : Socket :=
  {| primary_id := 1; path := Some "b"; state := Bound; peer := None; messages := []; options := {[16]}; fds := [];
     flags := 0; issued_token := Some 101 |}.
Definition demo_cred : Credential := {| c_pid := 7; c_uid := 0; c_gid := 0 |}.


Definition demo_sent : UdsDgramScheme :=
  (handle_sendmsg 0 (encode_msg [x61; x62] []) demo_ctx demo_dgram).2.

Lemma dgram_recvmsg_short_loses_witness :
  exists u', handle_recvmsg 1 (demo_sent, replicate 23 x00) = (Err EINVAL, (u', replicate 23 x00)) /\
    heap u' !! 1%nat = Some demo_b.
Proof.
  apply (dgram_recvmsg_short_loses 1 1 (set_messages [DataPacket_new [x61; x62] (AncillaryData_new demo_cred (Some "a"))] demo_b)
    (DataPacket_new [x61; x62] (AncillaryData_new demo_cred (Some "a"))) [] (replicate 23 x00) demo_sent).
  - by vm_compute.
  - by vm_compute.
  - done.
  - apply Nat.ltb_lt. by vm_compute.
Defined.
End witnesses.
