(* ===== verification/UdsStreamSafe.v ===== *)
(** * ipcd: stream sockets, the invariant

    Every method keeps the tables consistent and does not panic in a release
    build.  The same pass follows one connected socket: what no method but
    reads by it and writes to it changes.

    For every method: where it ends, the tables are consistent, a connected
    socket that is followed has the packets it had (or those that reading it or
    writing to it leaves), and a panic means an overflow that is checked. *)

From stdpp Require Import base gmap strings list fin_maps.
From Stdlib Require Import ZArith Lia.
From Stdlib Require Import Strings.Byte.
From S2P Require Import Prelude Memory Syscall SchemeApi Uds UdsFacts UdsStream.

Local Open Scope Z_scope.

(** The calls to the host return. *)
Class UdsHostLaws (UH : UdsHost) : Prop := {
  write_response_returns : forall n, write_response n <> Panic;
  get_proc_credentials_returns : forall n pid, get_proc_credentials n pid <> Panic;
  obtain_fd_returns : forall n, obtain_fd n <> Panic;
  move_fd_returns : forall n l, move_fd n l <> Panic
}.

(** A packet in a queue has bytes to read. *)
Definition packet_ok (p : DataPacket) : Prop := (read_offset p < length (payload p))%nat.

(** A cell, when ids below [n] have been given out: a socket is neither its
    own peer nor waiting for itself. *)
Record cell_ok (n : Z) (s : Socket) : Prop := {
  co_id : 0 <= primary_id s < n;
  co_peer c : connection s = Some c -> peer c <> primary_id s;
  co_packets c : connection s = Some c -> Forall packet_ok (packets c);
  co_awaiting : primary_id s ∉ awaiting s
}.

Record inv (u : UdsStreamScheme) : Prop := {
  inv_next : 0 <= next_id u;
  inv_cell r s : heap u !! r = Some s -> (r < next_ref u)%nat /\ cell_ok (next_id u) s;
  inv_inj r r' s s' : heap u !! r = Some s -> heap u !! r' = Some s' -> primary_id s = primary_id s' -> r = r';
  inv_sockets id r : sockets u !! id = Some r -> exists s, heap u !! r = Some s /\ primary_id s = id;
  inv_paths p r : socket_paths u !! p = Some r -> is_Some (heap u !! r);
  inv_tokens t r : socket_tokens u !! t = Some r -> is_Some (heap u !! r)
}.

(** A socket that is connected, with these packets to read. *)
Definition holds (ps : list DataPacket) (s : Socket) : Prop :=
  (state s = Established \/ state s = Accepted) /\ exists c, connection s = Some c /\ packets c = ps.

(** The socket that is followed: its id, its cell and its packets. *)
Definition tracked (T : option (Z * nat * list DataPacket)) (u : UdsStreamScheme) : Prop :=
  match T with
  | None => True
  | Some (j, r, ps) =>
      sockets u !! j = Some r /\ (exists s, heap u !! r = Some s /\ holds ps s) /\
      forall r' s', heap u !! r' = Some s' -> j ∉ awaiting s'
  end.

Definition good T (u : UdsStreamScheme) : Prop := inv u /\ tracked T u.

(** The packets of the socket that is followed, after [g] on the cell [r]. *)
Definition renew (r : nat) (g : list DataPacket -> list DataPacket) (T : option (Z * nat * list DataPacket)) :=
  match T with
  | Some (j, rj, ps) => Some (j, rj, if (r =? rj)%nat then g ps else ps)
  | None => None
  end.

Lemma renew_id r T : renew r id T = T.
Proof. destruct T as [[[j rj] ps] |]; [| done]. cbn. by destruct (r =? rj)%nat. Qed.

(** What may become of a cell whose packets change by [g]. *)
Definition cell_step (T : option (Z * nat * list DataPacket)) g (n : Z) (r : nat) (s s' : Socket) : Prop :=
  primary_id s' = primary_id s /\ (cell_ok n s -> cell_ok n s') /\
  match T with
  | None => True
  | Some (j, rj, ps) => (r = rj -> holds ps s -> holds (g ps) s') /\ (j ∈ awaiting s' -> j ∈ awaiting s)
  end.

(** Fields that the invariant does not look at. *)
Definition quiet (u u' : UdsStreamScheme) : Prop :=
  sockets u' = sockets u /\ next_id u' = next_id u /\ socket_paths u' = socket_paths u /\
  socket_tokens u' = socket_tokens u /\ heap u' = heap u /\ next_ref u' = next_ref u.

Lemma quiet_good T u u' : quiet u u' -> good T u -> good T u'.
Proof.
  intros (E1 & E2 & E3 & E4 & E5 & E6) [[H1 H2 H3 H4 H5 H6] Ht]. split.
  - split; rewrite ?E1, ?E2, ?E3, ?E4, ?E5, ?E6; eauto.
  - destruct T as [[[j r] ps] |]; [| done]. cbn in *. by rewrite E1, E5.
Qed.

Section tables.
Context {TG : Target} {SC : Syscall} {AB : SchemeAbi} {UA : UdsAbi} {UH : UdsHost} {HL : UdsHostLaws UH}.
Context (T : option (Z * nat * list DataPacket)).

Lemma good_update_by g r f u s :
  good T u -> heap u !! r = Some s -> cell_step T g (next_id u) r s (f s) ->
  good (renew r g T) (set_heap (alter f r (heap u)) u).
Proof.
  intros [[H1 H2 H3 H4 H5 H6] Ht] Hr (Hid & Hok & HT).
  assert (forall r' s', alter f r (heap u) !! r' = Some s' ->
    exists s0, heap u !! r' = Some s0 /\ primary_id s' = primary_id s0 /\ (cell_ok (next_id u) s0 -> cell_ok (next_id u) s')) as Hold.
  { intros r' s'. rewrite lookup_alter_Some. intros [(-> & s0 & Hs0 & ->) | [_ Hs']].
    - simplify_eq. eauto.
    - exists s'. eauto. }
  assert (forall r', is_Some (heap u !! r') -> is_Some (alter f r (heap u) !! r')) as Hdom.
  { intros r'. rewrite <- !elem_of_dom. by rewrite dom_alter_L. }
  split.
  - split; cbn; [done | | | | naive_solver | naive_solver].
    + intros r' s' (s0 & Hs0 & _ & Hs)%Hold. destruct (H2 _ _ Hs0). auto.
    + intros r1 r2 s1 s2 (a & Ha & Hia & _)%Hold (b & Hb & Hib & _)%Hold E. eapply H3; [done | done | congruence].
    + intros id r' (s0 & Hs0 & Hi)%H4. destruct (decide (r = r')) as [<- | Hne].
      * exists (f s). rewrite lookup_alter_eq, Hr. simplify_eq. by split.
      * exists s0. by rewrite lookup_alter_ne.
  - destruct T as [[[j rj] ps] |]; [| done]. cbn in *. destruct Ht as (Hj & (sj & Hsj & Hh) & Ha), HT as [HT1 HT2].
    split; [done |]. split.
    + destruct (Nat.eqb_spec r rj) as [<- | Hne].
      * exists (f s). rewrite lookup_alter_eq, Hr. simplify_eq. eauto.
      * exists sj. by rewrite lookup_alter_ne.
    + intros r' s'. rewrite lookup_alter_Some. intros [(-> & s0 & Hs0 & ->) | [_ Hs']].
      * simplify_eq. intros Hin%HT2. by eapply Ha.
      * by eapply Ha.
Qed.

Lemma good_update r f u s :
  good T u -> heap u !! r = Some s -> cell_step T id (next_id u) r s (f s) ->
  good T (set_heap (alter f r (heap u)) u).
Proof. intros Hg Hr Hc. rewrite <- (renew_id r T). by eapply good_update_by. Qed.

(** A new socket under the id that is given out next. *)
Lemma good_insert k u :
  good T u -> primary_id k = next_id u -> cell_ok (next_id u + 1) k ->
  match T with Some (j, _, _) => j ∉ awaiting k | None => True end ->
  good T (set_next_id (next_id u + 1) (set_sockets (<[next_id u := next_ref u]> (sockets u))
    (set_next_ref (S (next_ref u)) (set_heap (<[next_ref u := k]> (heap u)) u)))).
Proof.
  intros [[H1 H2 H3 H4 H5 H6] Ht] Hid Hk HT.
  assert (heap u !! next_ref u = None) as Hfresh.
  { destruct (heap u !! next_ref u) eqn:E; [| done]. apply H2 in E. lia. }
  assert (forall r s, heap u !! r = Some s -> <[next_ref u := k]> (heap u) !! r = Some s) as Hkeep.
  { intros r s Hs. rewrite lookup_insert_ne; [done |]. intros E. subst r. congruence. }
  assert (forall r s, heap u !! r = Some s -> primary_id s < next_id u) as Hlt.
  { intros r s Hs. destruct (H2 _ _ Hs) as [_ [? _ _ _]]. lia. }
  split.
  - split; cbn; [lia | | | | |].
    + intros r s. rewrite lookup_insert_Some. intros [[<- <-] | [_ Hs]]; [split; [lia | done] |].
      destruct (H2 _ _ Hs) as [? [? ? ? ?]]. split; [lia |]. split; [lia | done..].
    + intros r r' s s'. rewrite !lookup_insert_Some.
      intros [[<- <-] | [_ Hs]] [[<- <-] | [_ Hs']] E; [done | | | by eapply H3].
      * apply Hlt in Hs'. lia.
      * apply Hlt in Hs. lia.
    + intros id r. rewrite lookup_insert_Some. intros [[<- <-] | [_ (s & Hs & Hi)%H4]].
      * exists k. by rewrite lookup_insert_eq.
      * exists s. auto.
    + intros p r (s & Hs)%H5. exists s. auto.
    + intros t r (s & Hs)%H6. exists s. auto.
  - destruct T as [[[j rj] ps] |]; [| done]. cbn in *. destruct Ht as (Hj & (sj & Hsj & Hh) & Ha).
    split; [| split].
    + rewrite lookup_insert_ne; [done |]. intros <-. apply H4 in Hj as (s & Hs & Hi). apply Hlt in Hs. lia.
    + exists sj. auto.
    + intros r' s'. rewrite lookup_insert_Some. intros [[<- <-] | [_ Hs']]; [done | by eapply Ha].
Qed.

Lemma good_paths p r u :
  good T u -> is_Some (heap u !! r) -> good T (set_paths (<[p := r]> (socket_paths u)) u).
Proof.
  intros [[H1 H2 H3 H4 H5 H6] Ht] Hr. split; [| done]. split; try done.
  intros q r'. cbn. rewrite lookup_insert_Some. naive_solver.
Qed.

Lemma good_tokens t r u :
  good T u -> is_Some (heap u !! r) -> good T (set_tokens (<[t := r]> (socket_tokens u)) u).
Proof.
  intros [[H1 H2 H3 H4 H5 H6] Ht] Hr. split; [| done]. split; try done.
  intros q r'. cbn. rewrite lookup_insert_Some. naive_solver.
Qed.

Lemma good_remove_path p u : good T u -> good T (remove_path p u).2.
Proof.
  intros [[H1 H2 H3 H4 H5 H6] Ht]. destruct p as [p |]; [| done]. split; [| done]. split; try done.
  intros q r. cbn. rewrite lookup_delete_Some. naive_solver.
Qed.

Lemma good_remove_token t u : good T u -> good T (remove_token t u).2.
Proof.
  intros [[H1 H2 H3 H4 H5 H6] Ht]. destruct t as [t |]; [| done]. split; [| done]. split; try done.
  intros q r. cbn. rewrite lookup_delete_Some. naive_solver.
Qed.

(** A socket leaves the table; not the one that is followed. *)
Lemma good_close id u :
  good T u -> match T with Some (j, _, _) => j <> id | None => True end ->
  good T (set_sockets (delete id (sockets u)) u).
Proof.
  intros [[H1 H2 H3 H4 H5 H6] Ht] Hne. split.
  - split; try done. intros i r. cbn. rewrite lookup_delete_Some. naive_solver.
  - destruct T as [[[j rj] ps] |]; [| done]. cbn in *. rewrite lookup_delete_ne by done. tauto.
Qed.

(** ** Rules *)

(** How a method may end: it panics only on an overflow that is checked. *)
Definition ends {A} (o : outcome A) (u : UdsStreamScheme) : Prop :=
  (o = Panic -> overflow_checks = true) /\ good T u.

Lemma ends_good {A} (o : outcome A) u : o <> Panic -> good T u -> ends o u.
Proof. by split. Qed.

Lemma ends_as {A B} (o : outcome A) (o' : outcome B) u : ends o u -> (o' = Panic -> o = Panic) -> ends o' u.
Proof. intros [H1 H2] H3. split; auto. Qed.

Lemma good_inv u : good T u -> inv u.
Proof. by intros []. Qed.

(** The cell that an id denotes. *)
Definition at_id (u : UdsStreamScheme) (id : Z) (r : nat) (s : Socket) : Prop :=
  sockets u !! id = Some r /\ heap u !! r = Some s /\ primary_id s = id.

Lemma at_id_intro u i r : good T u -> sockets u !! i = Some r -> exists s, at_id u i r s.
Proof. intros [Hi _] Hr. destruct (inv_sockets u Hi i r Hr) as (s & Hs & Hp). by exists s. Qed.

(** Cells with different ids are different. *)
Lemma cells_differ u r s i r' s' :
  heap u !! r = Some s -> at_id u i r' s' -> i <> primary_id s -> r <> r'.
Proof. intros Hr (_ & Hr' & Hi) Hne ->. simplify_eq. Qed.

Lemma wp_get_rc e i Q (u : UdsStreamScheme) :
  good T u -> (forall r s, at_id u i r s -> Q (Ok r) u) -> Q (Err e) u -> wp (get_rc e i) Q u.
Proof.
  intros Hg Hok He. unfold get_rc. wp_step. wp_step. wp_step; [| done].
  destruct (at_id_intro u i a Hg) as [s Hs]; [done | by eapply Hok].
Qed.

Lemma wp_borrow r s Q (u : UdsStreamScheme) : heap u !! r = Some s -> Q (Ok s) u -> wp (borrow r) Q u.
Proof. intros Hr HQ. unfold borrow. wp_step. wp_step. by rewrite Hr. Qed.

Lemma wp_also_borrow a r s Q (u : UdsStreamScheme) :
  a <> r -> heap u !! r = Some s -> Q (Ok s) u -> wp (also_borrow a r) Q u.
Proof. intros Hne Hr HQ. unfold also_borrow. rewrite (proj2 (Nat.eqb_neq a r) Hne). by eapply wp_borrow. Qed.

Lemma wp_update r f s Q u :
  good T u -> heap u !! r = Some s -> cell_step T id (next_id u) r s (f s) ->
  (let u' := set_heap (alter f r (heap u)) u in good T u' -> heap u' !! r = Some (f s) -> Q (Ok tt) u') ->
  wp (update r f) Q u.
Proof.
  intros Hg Hr Hc HQ. unfold update. wp_step. apply HQ; [by eapply good_update |].
  cbn. by rewrite lookup_alter_eq, Hr.
Qed.

Lemma wp_try_update r f s Q u :
  good T u -> heap u !! r = Some s -> f s <> Panic ->
  (forall s', f s = Ok s' -> cell_step T id (next_id u) r s s') ->
  (forall e, Q (Err e) u) ->
  (forall s', f s = Ok s' -> let u' := set_heap (alter (fun _ => s') r (heap u)) u in
    good T u' -> heap u' !! r = Some s' -> Q (Ok tt) u') ->
  wp (try_update r f) Q u.
Proof.
  intros Hg Hr Hp Hc He HQ. unfold try_update. wp_step. eapply wp_borrow; [done |]. wp_step. wp_step.
  destruct (f s) eqn:E; [| done | done]. eapply wp_update; [done | done | by apply Hc |]. by apply HQ.
Qed.

Lemma quiet_tick u : quiet u (tick u).
Proof. done. Qed.

Lemma good_tick u : good T u -> good T (tick u).
Proof. by apply quiet_good. Qed.

Lemma good_post i fl u : good T u -> good T (tick (add_posted i fl u)).
Proof. by apply quiet_good. Qed.

Lemma wp_post_fevent i fl Q (u : UdsStreamScheme) :
  (forall o, o <> Panic -> Q o (tick (add_posted i fl u))) -> wp (post_fevent i fl) Q u.
Proof.
  intros HQ. unfold post_fevent, ask. do 6 wp_step.
  pose proof (write_response_returns (ticks (add_posted i fl u))) as Hw.
  destruct (write_response _) as [[] | |] eqn:E; by apply HQ.
Qed.

Lemma wp_bump Q (u : UdsStreamScheme) :
  0 <= next_id u -> next_id u + 1 < usize_mod -> Q (Ok tt) (set_next_id (next_id u + 1) u) -> wp bump_id Q u.
Proof. intros H0 H1 HQ. unfold wp, bump_id. rewrite gets_bind. unfold mbind, M_bind. by rewrite usize_add_ok by lia. Qed.

Lemma good_new k u :
  good T u -> primary_id k = next_id u -> cell_ok (next_id u + 1) k -> awaiting k = [] ->
  good T (set_next_id (next_id u + 1) (set_sockets (<[next_id u := next_ref u]> (sockets u))
    (set_next_ref (S (next_ref u)) (set_heap (<[next_ref u := k]> (heap u)) u)))).
Proof.
  intros Hg Hk Hc Ha. refine (good_insert k u Hg Hk Hc _). rewrite Ha.
  destruct T as [[[]] |]; [| done]. apply not_elem_of_nil.
Qed.

(** A new socket; the id is bumped after or before. *)
Lemma wp_insert_bump {A} i k (m : M UdsStreamScheme A) Q (u : UdsStreamScheme) :
  good T u -> next_id u + 1 < usize_mod -> i = next_id u -> primary_id k = i -> cell_ok (next_id u + 1) k ->
  awaiting k = [] -> (forall u', good T u' -> wp m Q u') ->
  wp (insert_rc i k;; bump_id;; m) Q u.
Proof.
  intros Hg Hn -> Hk Hc Ha HQ. pose proof (inv_next u (good_inv u Hg)). unfold insert_rc. wp_step.
  do 5 wp_step. wp_step. apply wp_bump; [done | done |]. apply HQ. exact (good_new k u Hg Hk Hc Ha).
Qed.

Lemma wp_bump_insert {A} i k (m : M UdsStreamScheme A) Q (u : UdsStreamScheme) :
  good T u -> next_id u + 1 < usize_mod -> i = next_id u -> primary_id k = i -> cell_ok (next_id u + 1) k ->
  awaiting k = [] -> (forall u', good T u' -> wp m Q u') ->
  wp (bump_id;; insert_rc i k;; m) Q u.
Proof.
  intros Hg Hn -> Hk Hc Ha HQ. pose proof (inv_next u (good_inv u Hg)). wp_step. apply wp_bump; [done | done |].
  unfold insert_rc. wp_step. do 5 wp_step. apply HQ. exact (good_new k u Hg Hk Hc Ha).
Qed.
End tables.

Section cells.
Context {TG : Target} {SC : Syscall} {AB : SchemeAbi} {UA : UdsAbi} {UH : UdsHost} {HL : UdsHostLaws UH}.
Context (T : option (Z * nat * list DataPacket)).

(** The cell is not that of a connected socket that is followed. *)
Definition idle (r : nat) (s : Socket) : Prop :=
  match T with Some (_, rj, ps) => r = rj -> ~ holds ps s | None => True end.

Definition avoids (id : Z) : Prop :=
  match T with Some (j, _, _) => id <> j | None => True end.

Lemma idle_state r s : state s <> Established -> state s <> Accepted -> idle r s.
Proof. intros H1 H2. unfold idle. destruct T as [[[j rj] ps] |]; [| done]. intros _ [[? | ?] _]; done. Qed.

Lemma idle_avoids u i r s : good T u -> heap u !! r = Some s -> primary_id s = i -> avoids i -> idle r s.
Proof.
  intros [Hi Ht] Hr Hp. unfold idle, avoids. destruct T as [[[j rj] ps] |]; [| done].
  destruct Ht as (Hj & _ & _). intros Hne -> _. apply (inv_sockets u Hi) in Hj as (s' & Hs' & ?). congruence.
Qed.

Lemma step_same n r s s' :
  primary_id s' = primary_id s -> connection s' = connection s -> awaiting s' = awaiting s -> state s' = state s ->
  cell_step T id n r s s'.
Proof.
  intros H1 H2 H3 H4. split; [done |]. split.
  - intros [A B C D]. split; rewrite ?H1, ?H2, ?H3; done.
  - destruct T as [[[j rj] ps] |]; [| done]. unfold holds. by rewrite H2, H3, H4.
Qed.

(** The state or the queue of a socket that is not followed. *)
Lemma step_idle n r s s' :
  idle r s -> primary_id s' = primary_id s ->
  (connection s' = connection s \/ exists p, connection s' = Some (Connection_new p) /\ p <> primary_id s) ->
  awaiting s' ⊆ awaiting s -> cell_step T id n r s s'.
Proof.
  intros Hi H1 H2 H3. split; [done |]. split.
  - intros [A B C D]. split; rewrite ?H1.
    + done.
    + destruct H2 as [-> | (p & -> & Hp)]; [done |]. by intros c [= <-].
    + destruct H2 as [-> | (p & -> & Hp)]; [done |]. intros c [= <-]. constructor.
    + set_solver.
  - unfold idle in Hi. destruct T as [[[j rj] ps] |]; [| done]. split; [| set_solver]. intros -> Hh. by destruct Hi.
Qed.

(** A client joins the queue. *)
Lemma step_queue i n r s :
  i <> primary_id s -> avoids i -> cell_step T id n r s (set_awaiting (awaiting s ++ [i]) s).
Proof.
  intros Hne Ha. split; [done |]. split.
  - intros [A B C D]. split; [done | done | done |]. cbn. set_solver.
  - unfold avoids in Ha. destruct T as [[[j rj] ps] |]; [| done]. split; [done |]. cbn. set_solver.
Qed.

Lemma step_connection f n r s :
  (forall c, peer (f c) = peer c) -> (forall c, packets (f c) = packets c) ->
  cell_step T id n r s (upd_connection f s).
Proof.
  intros H1 H2. split; [done |]. split.
  - intros [A B C D]. split; [done | | | done]; unfold upd_connection; cbn; intros c' Hc';
      destruct (connection s) as [c |]; simplify_eq/=; rewrite ?H1, ?H2; eauto.
  - destruct T as [[[j rj] ps] |]; [| done]. split; [| done]. intros -> (Hs & c & Hc & Hp). split; [done |].
    exists (f c). unfold upd_connection. cbn. rewrite Hc, H2. done.
Qed.

(** The packets change. *)
Lemma step_packets c c' n r s s' :
  connection s = Some c -> primary_id s' = primary_id s -> awaiting s' = awaiting s -> state s' = state s ->
  connection s' = Some c' -> peer c' = peer c -> (Forall packet_ok (packets c) -> Forall packet_ok (packets c')) ->
  cell_step T (fun _ => packets c') n r s s'.
Proof.
  intros Hc H1 H2 H3 H4 H5 H6. split; [done |]. split.
  - intros [A B C D]. split; rewrite ?H1, ?H2; [done | | | done]; rewrite H4; intros x [= <-].
    + rewrite H5. auto.
    + eauto.
  - destruct T as [[[j rj] ps] |]; [| done]. rewrite H2. split; [| done]. intros -> (Hs & _). split.
    + by rewrite H3.
    + by exists c'.
Qed.

Lemma renew_avoids u r s g : good T u -> heap u !! r = Some s -> avoids (primary_id s) -> renew r g T = T.
Proof.
  intros [Hi Ht] Hr. unfold avoids. destruct T as [[[j rj] ps] |]; [| done]. intros Hne. cbn.
  destruct (Nat.eqb_spec r rj) as [-> |]; [| done]. destruct Ht as (Hj & _ & _).
  apply (inv_sockets u Hi) in Hj as (s' & Hs' & ?). congruence.
Qed.

Lemma avoids_next u : good T u -> avoids (next_id u).
Proof.
  intros [Hi Ht]. unfold avoids. destruct T as [[[j rj] ps] |]; [| done]. destruct Ht as (Hj & _ & _).
  apply (inv_sockets u Hi) in Hj as (s' & Hs' & ?). apply (inv_cell u Hi) in Hs' as (_ & [Hs' _ _ _]). lia.
Qed.

Lemma at_id_own u i r s : good T u -> at_id u i r s -> 0 <= i < next_id u /\ i ∉ awaiting s.
Proof.
  intros [Hi _] (_ & Hr & <-). apply (inv_cell u Hi) in Hr as (_ & Hok). split; apply Hok.
Qed.
End cells.

(** ** What the methods share *)

Section shared.
Context {TG : Target} {SC : Syscall} {AB : SchemeAbi} {UA : UdsAbi} {UH : UdsHost} {HL : UdsHostLaws UH}.
Context (T : option (Z * nat * list DataPacket)).

Lemma require_connection_Ok s c : require_connection s = Ok c -> connection s = Some c.
Proof. unfold require_connection. destruct (connection s); [| done]. by intros [= ->]. Qed.

Lemma require_connected_Ok mf s c :
  require_connected_connection mf s = Ok c -> (state s = Established \/ state s = Accepted) /\ connection s = Some c.
Proof.
  unfold require_connected_connection. destruct (state s); try done; intros H%require_connection_Ok; auto.
Qed.

Lemma require_connected_total mf s : require_connected_connection mf s <> Panic.
Proof.
  unfold require_connected_connection, require_connection. by destruct (state s), (connection s).
Qed.

Lemma wp_require_connected mf s Q (u : UdsStreamScheme) :
  (forall c, (state s = Established \/ state s = Accepted) -> connection s = Some c -> Q (Ok c) u) ->
  (forall e, Q (Err e) u) -> wp (lift (require_connected_connection mf s)) Q u.
Proof.
  intros Hok He. wp_step. pose proof (require_connected_total mf s).
  destruct (require_connected_connection mf s) eqn:E; [| done | done].
  apply require_connected_Ok in E as []. auto.
Qed.

(** The two ends of a connection: different cells. *)
Definition peers u (i : Z) r s (p : Z) q t : Prop :=
  at_id u i r s /\ (exists c, connection s = Some c /\ peer c = p) /\ at_id u p q t /\ r <> q.

Lemma peers_differ u i r s c q t :
  good T u -> at_id u i r s -> connection s = Some c -> at_id u (peer c) q t -> peers u i r s (peer c) q t.
Proof.
  intros Hg Hr Hc Hq. split; [done |]. split; [eauto |]. split; [done |].
  pose proof Hr as (_ & Hs & _). eapply cells_differ; [done | done |].
  apply (inv_cell u (good_inv T u Hg)) in Hs as (_ & Hs). by eapply co_peer.
Qed.

Lemma wp_connected_peer i mf Q u :
  good T u ->
  (forall r s p q t, peers u i r s p q t -> (state s = Established \/ state s = Accepted) -> Q (Ok (p, q)) u) ->
  (forall e, Q (Err e) u) -> wp (get_connected_peer i mf) Q u.
Proof.
  intros Hg Hok He. unfold get_connected_peer, get_socket.
  wp_step. apply (wp_get_rc T); [done | intros r s Hr | by auto].
  wp_step. pose proof Hr as (_ & Hs & _). eapply wp_borrow; [done |].
  wp_step. apply wp_require_connected; [intros c Hst Hc | by auto].
  wp_step. apply (wp_get_rc T); [done | intros q t Hq | by auto].
  pose proof (peers_differ _ _ _ _ _ _ _ Hg Hr Hc Hq) as Hp.
  pose proof Hp as (_ & _ & (_ & Ht & _) & Hne). wp_step. eapply wp_also_borrow; [done | done |].
  wp_step. wp_step; [by auto |]. wp_step. by eapply Hok.
Qed.
End shared.

Create HintDb uds discriminated.
#[export] Hint Resolve ends_good good_post good_tick good_remove_path good_remove_token : uds.

(** The end of a method that has not panicked. *)
Ltac fin := solve [apply ends_good; [done | eauto with uds] | intros; apply ends_good; [done | eauto with uds]].

(** [self.get_socket(id)?] and the borrow that follows. *)
Ltac take_socket T r s H :=
  unfold get_socket; wp_step; apply (wp_get_rc T); [assumption | intros r s H | fin];
  wp_step; eapply wp_borrow; [apply H |].

(** ** Handlers on the tables *)

Section handlers.
Context {TG : Target} {SC : Syscall} {AB : SchemeAbi} {UA : UdsAbi} {UH : UdsHost} {HL : UdsHostLaws UH}.
Context (T : option (Z * nat * list DataPacket)).

Lemma new_socket_ok i n p st opts fl c ctx :
  0 <= i -> i < n -> match c with Some c => peer c <> i /\ packets c = [] | None => True end ->
  cell_ok n (Socket_new i p st opts fl c ctx).
Proof.
  intros H0 H1 Hc. split; cbn; [lia | | | apply not_elem_of_nil]; intros x ->; destruct Hc as [Hp Hc]; [done |].
  rewrite Hc. constructor.
Qed.

Lemma unnamed_safe fl ctx u :
  good T u -> next_id u + 1 < usize_mod -> wp (handle_unnamed_socket fl ctx) (ends T) u.
Proof.
  intros Hg Hn. pose proof (inv_next u (good_inv T u Hg)). unfold handle_unnamed_socket. wp_step. wp_step.
  apply (wp_insert_bump T); [done | done | done | done | | done | done]. apply new_socket_ok; [lia | lia | done].
Qed.

Lemma path_buf_total l : path_buf_to_str l <> Panic.
Proof. unfold path_buf_to_str. destruct (from_utf8 l) as [x |]; [| done]. by destruct (str_is_empty x). Qed.

Lemma wp_ask {A} (f : nat -> A) Q (u : UdsStreamScheme) : Q (Ok (f (ticks u))) (tick u) -> wp (ask f) Q u.
Proof. done. Qed.

Lemma start_listening_Ok s s' :
  start_listening s = Ok s' -> (state s = Unbound \/ state s = Bound) /\ s' = set_state Listening s.
Proof. unfold start_listening. destruct (state s); try done; intros [= <-]; auto. Qed.

Lemma start_listening_step n r s s' : start_listening s = Ok s' -> cell_step T id n r s s'.
Proof.
  intros [Hs ->]%start_listening_Ok. apply step_idle; [| done | by left | done].
  by destruct Hs as [Hs | Hs]; apply idle_state; rewrite Hs.
Qed.

Lemma start_listening_total s : start_listening s <> Panic.
Proof. unfold start_listening. by destruct (state s). Qed.

Lemma bind_safe i l u : good T u -> wp (handle_bind i l) (ends T) u.
Proof.
  intros Hg. unfold handle_bind. wp_step. wp_step. pose proof (path_buf_total l).
  destruct (path_buf_to_str l) as [p | e |]; [| fin | done]. do 3 wp_step. wp_step; [fin |].
  take_socket T r s Hr. wp_step. wp_step; [fin |]. apply negb_false_iff, bool_decide_eq_true in H1.
  wp_step. apply wp_ask. pose proof Hr as (_ & Hs & _).
  wp_step. eapply (wp_update T); [by apply good_tick | done | |].
  { apply step_idle; [| done | by left | done]. by apply idle_state; rewrite H1. }
  intros u1 Hg1 Hs1. wp_step. eapply (wp_try_update T); [done | done | done | | fin |].
  { intros s'. by apply start_listening_step. }
  intros s2 _ u2 Hg2 Hs2. wp_step. unfold register. do 3 wp_step. wp_step. apply ends_good; [done |].
  apply good_tokens; [apply good_paths |]; [done | by exists s2..].
Qed.

Lemma connect_Ok i fl s s' : connect i fl s = Ok s' -> s' = set_awaiting (awaiting s ++ [i]) s.
Proof.
  unfold connect. destruct (state s); try done; [| | by intros [= <-]];
    (destruct (all_set fl O_NONBLOCK); [by intros [= <-] | done]).
Qed.

Lemma connect_total i fl s : connect i fl s <> Panic.
Proof. unfold connect. destruct (state s); try done; by destruct (all_set fl O_NONBLOCK). Qed.

(** The token in the buffer is not that of the socket itself. *)
Definition not_own_token (i : Z) (l : list u8) (u : UdsStreamScheme) : Prop :=
  forall token r, read_num 8 l = Ok token -> socket_tokens u !! token = Some r -> sockets u !! i <> Some r.

Lemma connect_safe i l u : good T u -> not_own_token i l u -> wp (handle_connect i l) (ends T) u.
Proof.
  intros Hg Hown. unfold handle_connect. wp_step. wp_step. pose proof (read_num_total 8 l).
  destruct (read_num 8 l) as [token | e |] eqn:El; [| fin | done]. do 3 wp_step. wp_step; [| fin].
  rename a into q. take_socket T r s Hr. pose proof Hr as (Hir & Hs & Hp).
  assert (r <> q) as Hne. { intros ->. by eapply Hown. }
  destruct (inv_tokens u (good_inv T u Hg) _ _ H0) as [t Ht].
  assert (state s <> Established -> state s <> Accepted ->
    wp (listener ← also_borrow r q; listener' ← lift (connect i (flags s) listener);
        update q (fun _ => listener');; update r (set_state Connecting);;
        post_fevent (primary_id listener) (Z.lor EVENT_READ EVENT_WRITE);;
        if any_set (flags s) O_NONBLOCK then mret 0 else throw EWOULDBLOCK) (ends T) u) as Hjoin.
  { intros Hs1 Hs2. wp_step. eapply wp_also_borrow; [done | done |].
    wp_step. wp_step. pose proof (connect_total i (flags s) t).
    destruct (connect i (flags s) t) as [t' | e |] eqn:Ec; [| fin | done]. apply connect_Ok in Ec.
    assert (i <> primary_id t) as Hit.
    { intros E. apply Hne. eapply (inv_inj u (good_inv T u Hg)); [done | done | congruence]. }
    assert (avoids T i) as Hav.
    { destruct Hg as [Hi Htr]. unfold avoids. destruct T as [[[j rj] ps] |]; [| done]. intros ->.
      destruct Htr as (Hj & (sj & Hsj & [[? | ?] _]) & _); congruence. }
    wp_step. eapply (wp_update T); [done | done | subst t'; by apply step_queue |]. intros u1 Hg1 Ht1.
    assert (heap u1 !! r = Some s) as Hs3 by (unfold u1; cbn; by rewrite lookup_alter_ne).
    wp_step. eapply (wp_update T); [done | done | |].
    { apply step_idle; [by apply idle_state | done | by left | done]. }
    intros u2 Hg2 _. wp_step. apply wp_post_fevent. intros o Ho. wp_step; [| fin | done].
    wp_step; wp_step; fin. }
  destruct (state s) eqn:Est; try (apply Hjoin; done); try (wp_step; fin).
  wp_step. eapply (wp_update T); [done | done | |].
  { split; [done |]. split; [by intros [A B C D]; split |]. destruct T as [[[j rj] ps] |]; [| done].
    split; [| done]. intros _ (_ & Hc). split; [by left | done]. }
  intros u1 Hg1 _. wp_step. fin.
Qed.

Lemma setsockopt_safe i option l u : good T u -> wp (handle_setsockopt i option l) (ends T) u.
Proof.
  intros Hg. unfold handle_setsockopt, get_socket. wp_step. apply (wp_get_rc T); [done | intros r s Hr | fin].
  pose proof Hr as (_ & Hs & _). wp_step; [| wp_step; wp_step; fin].
  wp_step. wp_step. pose proof (read_num_total 4 l). unfold read_i32.
  destruct (read_num 4 l); cbn; [| fin | done].
  wp_step. eapply (wp_update T); [done | done | by apply step_same |]. intros u' Hg' _. wp_step. fin.
Qed.

Lemma unbind_safe i u : good T u -> wp (handle_unbind i) (ends T) u.
Proof.
  intros Hg. unfold handle_unbind. take_socket T r s Hr. pose proof Hr as (_ & Hs & _).
  wp_step. wp_step; [fin |]. apply negb_false_iff, bool_decide_eq_true in H.
  wp_step. eapply (wp_update T); [done | done | |].
  { apply step_idle; [by apply idle_state; rewrite H | done | by left | done]. }
  intros u' Hg' _. wp_step. apply (wp_intro (remove_path (path s))).
  pose proof (good_remove_path T (path s) u' Hg') as Hg2.
  destruct (path s); cbn in *; fin.
Qed.

(** ** Descriptors *)

Lemma recvfd_safe i u : good T u -> wp (handle_recvfd i) (ends T) u.
Proof.
  intros Hg. unfold handle_recvfd. take_socket T r s Hr. pose proof Hr as (_ & Hs & _).
  assert (wp (c ← lift (require_connected_connection 0 s);
    match fds c with
    | [] => throw EWOULDBLOCK
    | fd :: l => update r (upd_connection (set_fds l));; mret (OtherScheme fd)
    end) (ends T) u) as Hok.
  { wp_step. apply wp_require_connected; [intros c _ Hc | fin]. wp_step; [wp_step; fin |].
    wp_step. eapply (wp_update T); [done | done | by apply step_connection |]. intros u' Hg' _. wp_step. fin. }
  destruct (state s); try exact Hok; wp_step; fin.
Qed.

Lemma wp_obtain_fds n Q (u : UdsStreamScheme) :
  n * Z.of_nat usize_len <= isize_max -> (forall l, Q (Ok l) (tick u)) -> (forall e, Q (Err e) (tick u)) ->
  wp (obtain_fds n) Q u.
Proof.
  intros Hn Hok He. unfold obtain_fds. rewrite (proj2 (Z.ltb_ge _ _)) by lia. wp_step. apply wp_ask.
  pose proof (obtain_fd_returns (ticks u)). destruct (obtain_fd (ticks u)); [wp_step | wp_step | done]; auto.
Qed.

Lemma sendfd_inner_safe p req u :
  good T u -> as_usize (arg3 req) * Z.of_nat usize_len <= isize_max -> wp (sendfd_inner p req) (ends T) u.
Proof.
  intros Hg Hn. unfold sendfd_inner. wp_step. apply wp_obtain_fds; [done | intros l | fin].
  pose proof (good_tick T u Hg) as Hg0. take_socket T r s Hr. pose proof Hr as (_ & Hs & _).
  wp_step. apply wp_require_connected; [intros c _ Hc | fin].
  wp_step. eapply (wp_update T); [done | done | by apply step_connection |]. intros u' Hg' _.
  wp_step. apply wp_post_fevent. intros o Ho. wp_step; [wp_step; fin | fin | done].
Qed.

Lemma on_sendfd_safe req u :
  good T u -> as_usize (arg3 req) * Z.of_nat usize_len <= isize_max -> wp (on_sendfd req) (ends T) u.
Proof.
  intros Hg Hn. unfold on_sendfd. wp_step. apply (wp_connected_peer T); [done | | fin].
  intros r s p q t Hp _. by apply sendfd_inner_safe.
Qed.

Lemma on_recvfd_safe req u : good T u -> wp (on_recvfd req) (ends T) u.
Proof.
  intros Hg. unfold on_recvfd, recvfd_inner. take_socket T r s Hr. pose proof Hr as (_ & Hs & _).
  wp_step; [wp_step; fin |]. set (num := as_usize (arg2 req)) in *.
  assert (wp (c ← lift (require_connected_connection 0 s);
    if zlen (fds c) <? num then
      if is_peer_shutdown c then mret (OtherSchemeMultiple 0)
      else if all_set (flags s) O_NONBLOCK then throw EAGAIN else mret WouldBlock
    else
      update r (upd_connection (set_fds (drop (Z.to_nat num) (fds c))));;
      res ← ask (fun n => move_fd n (take (Z.to_nat num) (fds c)));
      match res with Ok _ => mret (OtherSchemeMultiple num) | Err _ => throw EPROTO | Panic => panic end)
    (ends T) u) as Hok.
  { wp_step. apply wp_require_connected; [intros c _ Hc | fin]. wp_step.
    { repeat wp_step; fin. }
    wp_step. eapply (wp_update T); [done | done | by apply step_connection |]. intros u' Hg' _.
    wp_step. apply wp_ask. pose proof (move_fd_returns (ticks u') (take (Z.to_nat num) (fds c))).
    destruct (move_fd _ _); [wp_step; fin | wp_step; fin | done]. }
  destruct (state s); try exact Hok; wp_step; fin.
Qed.

(** ** Queries *)

Lemma fcntl_safe_stream i cmd arg u : good T u -> wp (fcntl i cmd arg) (ends T) u.
Proof.
  intros Hg. unfold fcntl. take_socket T r s Hr. pose proof Hr as (_ & Hs & _).
  wp_step; [wp_step; fin |]. wp_step; [| wp_step; fin].
  wp_step. eapply (wp_update T); [done | done | by apply step_same |]. intros u' Hg' _. wp_step. fin.
Qed.

Lemma fevent_safe_stream i fl u : good T u -> wp (fevent i fl) (ends T) u.
Proof. intros Hg. unfold fevent. take_socket T r s Hr. wp_step. fin. Qed.

Lemma fpath_safe_stream i buf u : good T u -> wp (fpath i buf) (ends T) u.
Proof. intros Hg. unfold fpath. take_socket T r s Hr. wp_step. wp_step. fin. Qed.

Lemma fsync_safe_stream i u : good T u -> wp (fsync i) (ends T) u.
Proof. intros Hg. unfold fsync, get_socket. wp_step. apply (wp_get_rc T); [done | intros; wp_step; fin | fin]. Qed.

Lemma fstat_safe_stream i u : good T u -> wp (fstat i) (ends T) u.
Proof. intros Hg. unfold fstat, get_socket. wp_step. apply (wp_get_rc T); [done | intros; wp_step; fin | fin]. Qed.
End handlers.

(** ** Accepting *)

Section accepting.
Context {TG : Target} {SC : Syscall} {AB : SchemeAbi} {UA : UdsAbi} {UH : UdsHost} {HL : UdsHostLaws UH}.
Context (T : option (Z * nat * list DataPacket)).

Lemma establish_step n p r s s' :
  p <> primary_id s -> establish p s = Ok s' -> cell_step T id n r s s'.
Proof.
  intros Hp. unfold establish. case_bool_decide as Hst; cbn; [| done]. intros [= <-].
  apply step_idle; [by apply idle_state; rewrite Hst | done | | done]. right. exists p. by split.
Qed.

Lemma establish_total p s : establish p s <> Panic.
Proof. unfold establish. by case_bool_decide. Qed.

(** A client that has gone leaves the state alone. *)
Lemma accept_connection_safe lr l client ctx u :
  good T u -> next_id u + 1 < usize_mod -> heap u !! lr = Some l -> is_listening l = true -> client <> primary_id l ->
  wp (accept_connection lr client ctx) (fun o u' => ends T o u' /\ (o = Ok None -> u' = u)) u.
Proof.
  intros Hg Hn Hl Hlis Hne. unfold accept_connection. wp_step. wp_step.
  destruct (sockets u !! client) as [r |] eqn:Hr; [| wp_step; split; [fin | done]].
  destruct (at_id_intro T u client r Hg Hr) as [s Hs]. pose proof Hs as (_ & Hs' & Hp).
  pose proof (at_id_own T _ _ _ _ Hg Hs) as [Hrange _].
  wp_step. wp_step. wp_step. eapply wp_borrow; [done |]. wp_step. wp_step. unfold accept. rewrite Hlis. cbn [negb].
  wp_step. eapply wp_also_borrow; [by eapply cells_differ | done |].
  wp_step. eapply (wp_try_update T); [done | done | apply establish_total | | by split; [fin |] |].
  { intros s' Hs2. eapply establish_step, Hs2. lia. }
  intros s' _ u1 Hg1 _. pose proof (inv_next u (good_inv T u Hg)).
  apply (wp_bump_insert T); [done | done | done | done | | done |].
  { apply new_socket_ok; cbn; [lia | lia |]. split; [lia | done]. }
  intros u2 Hg2. wp_step. apply wp_post_fevent. intros o Ho. wp_step; [wp_step | |]; by split; [fin |].
Qed.

Definition pop (lr : nat) (rest : list Z) (u : UdsStreamScheme) : UdsStreamScheme :=
  set_heap (alter (set_awaiting rest) lr (heap u)) u.

Lemma accept_safe lr s ctx u :
  good T u -> next_id u + 1 < usize_mod -> heap u !! lr = Some s ->
  wp (handle_accept lr ctx) (fun o u' => ends T o u' /\
    (o = Ok None -> is_listening s = true /\ exists i rest, awaiting s = i :: rest /\ u' = pop lr rest u)) u.
Proof.
  intros Hg Hn Hs. unfold handle_accept. wp_step. eapply wp_borrow; [done |].
  wp_step. wp_step; [split; [fin | done] |]. apply negb_false_iff in H.
  destruct (awaiting s) as [| i rest] eqn:Ea; [wp_step; wp_step; (split; [fin | done]) |].
  pose proof H as Hst. unfold is_listening in Hst. apply bool_decide_eq_true in Hst.
  wp_step. eapply (wp_update T); [done | done | |].
  { apply step_idle; [by apply idle_state; rewrite Hst | done | by left |]. cbn. rewrite Ea. set_solver. }
  intros u1 Hg1 Hs1. eapply wp_mono; [| eapply (accept_connection_safe lr); [done | done | done | done |]].
  - intros o u' [He Hu']. split; [done |]. intros E. split; [done |]. exists i, rest. split; [done |]. by apply Hu'.
  - apply (inv_cell u (good_inv T u Hg)) in Hs as [_ [_ _ _ Hw]]. cbn. rewrite Ea in Hw. set_solver.
Qed.

(** Made to listen, with the same clients waiting. *)
Lemma start_safe r s i u :
  good T u -> at_id u i r s ->
  wp (handle_start_listening r) (fun o u' => ends T o u' /\
    (o = Ok tt -> next_id u' = next_id u /\ at_id u' i r (set_state Listening s))) u.
Proof.
  intros Hg Hs. pose proof Hs as (Hi & Hs' & Hp). unfold handle_start_listening.
  wp_step. eapply (wp_try_update T); [done | done | apply start_listening_total | | by split; [fin |] |].
  { intros s'. by apply start_listening_step. }
  intros s' [_ ->]%start_listening_Ok u1 Hg1 Hs1. wp_step. eapply wp_borrow; [done |].
  destruct (path (set_state Listening s)) as [p |]; [| wp_step; split; [fin | done]].
  wp_step. wp_step. wp_step. wp_step; [split; [fin | done] |]. wp_step. split; [| done].
  apply ends_good; [done |]. apply good_paths; [done | by eexists].
Qed.

(** The turns that the loop has left. *)
Definition turns (s : Socket) : nat := length (awaiting s) + if is_listening s then 0 else 1.

Lemma listen_loop_safe_stream fuel i ctx u :
  good T u -> next_id u + 1 < usize_mod -> (0 < fuel)%nat -> (forall r s, at_id u i r s -> (turns s < fuel)%nat) ->
  wp (listen_loop fuel i ctx) (fun o u' => ends T o u' /\ o <> Ok None) u.
Proof.
  revert u. induction fuel as [| fuel IH]; intros u Hg Hn Hf Ht; [lia |].
  cbn [listen_loop]. unfold get_socket. wp_step. apply (wp_get_rc T); [done | intros r s Hr | by split; [fin |]].
  pose proof Hr as (Hi & Hs & Hp). specialize (Ht r s Hr). unfold turns in Ht.
  wp_step. eapply wp_borrow; [done |]. destruct (is_listening s) eqn:Hl.
  - wp_step. eapply wp_mono; [| by eapply accept_safe]. intros o u' [He Hu'].
    destruct o as [[res |] | e |]; [wp_step; split; [exact He | done] | | by split | by split].
    destruct (Hu' eq_refl) as (_ & k & rest & Ea & ->). rewrite Ea in Ht. cbn in Ht.
    apply IH; [apply He | done | lia |]. intros r' s'. unfold at_id, pop. cbn. intros (Hi' & Hs' & _).
    assert (r' = r) as -> by congruence. rewrite lookup_alter_eq, Hs in Hs'. cbn in Hs'. injection Hs' as <-.
    unfold turns. change (is_listening (set_awaiting rest s)) with (is_listening s). rewrite Hl. cbn. lia.
  - wp_step. eapply wp_mono; [| by eapply start_safe]. intros o u' [He Hu'].
    destruct o as [[] | e |]; [| split; [by eapply ends_as | done]..]. destruct (Hu' eq_refl) as [Hn' (Hi' & Hs' & _)].
    apply IH; [apply He | by rewrite Hn' | lia |]. intros r' s' (Hi2 & Hs2 & _).
    assert (r' = r) as -> by congruence. rewrite Hs' in Hs2. injection Hs2 as <-.
    unfold turns. assert (is_listening (set_state Listening s) = true) as -> by done. cbn. lia.
Qed.

Lemma listen_safe i ctx u :
  good T u -> next_id u + 1 < usize_mod -> wp (handle_listen i ctx) (ends T) u.
Proof.
  intros Hg Hn. unfold handle_listen. wp_step. wp_step. wp_step.
  eapply wp_mono; [| apply (listen_loop_safe_stream (S (S (queue_len i u)))); [done | done | lia |]].
  - intros o u' [He Hne]. destruct o as [[res |] | e |]; [cbn [unwrap]; wp_step; apply ends_good; [done | apply He] | done | by eapply ends_as..].
  - intros r s (Hi & Hs & _). unfold queue_len, turns. rewrite Hi. cbn. rewrite Hs. destruct (is_listening s); lia.
Qed.

Lemma socketpair_safe i ctx u :
  good T u -> next_id u + 1 < usize_mod -> wp (handle_connect_socketpair i ctx) (ends T) u.
Proof.
  intros Hg Hn. pose proof (inv_next u (good_inv T u Hg)). unfold handle_connect_socketpair. wp_step. wp_step.
  take_socket T r s Hr. pose proof Hr as (_ & Hs & Hp). pose proof (at_id_own T _ _ _ _ Hg Hr) as [Hrange _].
  wp_step. wp_step; [fin |]. wp_step.
  eapply (wp_update T); [done | done | apply step_queue; [lia | by apply avoids_next] |]. intros u1 Hg1 _.
  wp_step. apply wp_post_fevent. intros o Ho. wp_step; [| fin | done].
  apply (wp_insert_bump T); [by apply good_post | done | done | done | | done | intros u2 Hg2; wp_step; fin].
  apply new_socket_ok; cbn; [lia | lia | done].
Qed.

Lemma open_safe_stream p fl ctx u :
  good T u -> next_id u + 1 < usize_mod -> wp (open p fl ctx) (ends T) u.
Proof.
  intros Hg Hn. unfold open. wp_step; [| wp_step; fin]. wp_step.
  eapply wp_mono; [| by apply unnamed_safe]. intros o u' He. wp_step; [wp_step; apply ends_good; [done | apply He] | by eapply ends_as..].
Qed.

Lemma dup_safe_stream i buf ctx u :
  good T u -> next_id u + 1 < usize_mod -> wp (dup i buf ctx) (ends T) u.
Proof.
  intros Hg Hn. unfold dup. wp_step; [by apply listen_safe |]. wp_step; [by apply socketpair_safe |].
  wp_step; [by apply recvfd_safe | wp_step; fin].
Qed.
End accepting.

(** ** Closing *)

Section closing.
Context {TG : Target} {SC : Syscall} {AB : SchemeAbi} {UA : UdsAbi} {UH : UdsHost} {HL : UdsHostLaws UH}.
Context (T : option (Z * nat * list DataPacket)).

Lemma wp_try_post i fl Q u : Q (Ok tt) (tick (add_posted i fl u)) -> wp (try_post i fl) Q u.
Proof.
  intros HQ. unfold wp, try_post.
  pose proof (wp_post_fevent i fl (fun o u' => o <> Panic /\ u' = tick (add_posted i fl u)) u ltac:(by auto)) as H.
  unfold wp in H. destruct (post_fevent i fl u) as [[[] | e |] u']; destruct H as [H E]; cbn in *; subst; done.
Qed.

Lemma wp_remove_path p Q u :
  good T u ->
  (forall u', good T u' -> heap u' = heap u -> sockets u' = sockets u -> Q (Ok tt) u') -> wp (remove_path p) Q u.
Proof.
  intros Hg HQ. pose proof (good_remove_path T p u Hg) as H. unfold wp.
  destruct p; cbn in *; by apply HQ.
Qed.

Lemma wp_remove_token t Q u :
  good T u ->
  (forall u', good T u' -> heap u' = heap u -> sockets u' = sockets u -> Q (Ok tt) u') -> wp (remove_token t) Q u.
Proof.
  intros Hg HQ. pose proof (good_remove_token T t u Hg) as H. unfold wp.
  destruct t; cbn in *; by apply HQ.
Qed.

Lemma close_clients_safe lr l ids u :
  good T u -> heap u !! lr = Some l -> primary_id l ∉ ids -> Forall (avoids T) ids ->
  wp (close_clients lr ids) (ends T) u.
Proof.
  intros Hg Hl. revert u Hg Hl. induction ids as [| i ids IH]; intros u Hg Hl Hni Hav; cbn [close_clients].
  - wp_step. fin.
  - inversion Hav; subst. apply not_elem_of_cons in Hni as [Hne Hni].
    wp_step. wp_step. destruct (sockets u !! i) as [r |] eqn:Hr; [| wp_step; wp_step; by apply IH].
    destruct (at_id_intro T u i r Hg Hr) as [s Hs]. pose proof Hs as (_ & Hs' & Hp).
    assert (lr <> r) as Hd by (eapply cells_differ; [done | done | congruence]).
    wp_step. wp_step. eapply wp_also_borrow; [done | done |].
    wp_step. eapply (wp_update T); [done | done | |].
    { apply step_idle; [eapply idle_avoids; [done | done | done | congruence] | done | by left | done]. }
    intros u1 Hg1 _. apply wp_try_post. apply IH; [by apply good_post | | done | done].
    unfold u1. cbn. by rewrite lookup_alter_ne.
Qed.

Lemma queue_avoids u r s : good T u -> heap u !! r = Some s -> Forall (avoids T) (awaiting s).
Proof.
  intros [_ Ht] Hr. apply Forall_forall. intros i Hi. unfold avoids. destruct T as [[[j rj] ps] |]; [| done].
  destruct Ht as (_ & _ & Ha). intros ->. by eapply Ha.
Qed.

Lemma listening_closure_safe r s u :
  good T u -> heap u !! r = Some s -> wp (handle_listening_closure r) (ends T) u.
Proof.
  intros Hg Hr. unfold handle_listening_closure. wp_step. eapply wp_borrow; [done |].
  wp_step. apply wp_remove_path; [done |]. intros u1 Hg1 Hh1 _.
  wp_step. apply wp_remove_token; [done |]. intros u2 Hg2 Hh2 _.
  eapply close_clients_safe; [done | by rewrite Hh2, Hh1 | | exact (queue_avoids u r s Hg Hr)].
  by apply (inv_cell u (good_inv T u Hg)) in Hr as [_ [_ _ _ Hw]].
Qed.

Lemma shutdown_peer_safe r s u :
  good T u -> heap u !! r = Some s ->
  wp (shutdown_peer r s) (fun o u' => ends T o u' /\ heap u' !! r = Some s) u.
Proof.
  intros Hg Hr. unfold shutdown_peer.
  assert (wp (t ← gets sockets;
    match (c ← connection s; t !! peer c) with
    | None => mret false
    | Some remote_rc =>
        remote ← also_borrow r remote_rc;
        match connection remote with
        | None => mret false
        | Some _ =>
            update remote_rc (upd_connection set_shutdown);;
            try_post (primary_id remote) EVENT_READ;;
            mret true
        end
    end) (fun o u' => ends T o u' /\ heap u' !! r = Some s) u) as Hok.
  { wp_step. wp_step. destruct (connection s) as [c |] eqn:Hc; cbn [mbind option_bind]; [| wp_step; split; [fin | done]].
    destruct (sockets u !! peer c) as [q |] eqn:Hq; [| wp_step; split; [fin | done]].
    destruct (at_id_intro T u _ q Hg Hq) as [t Ht]. pose proof Ht as (_ & Ht' & _).
    assert (r <> q) as Hne.
    { eapply cells_differ; [done | done |]. apply (inv_cell u (good_inv T u Hg)) in Hr as [_ Hok]. by eapply co_peer. }
    wp_step. eapply wp_also_borrow; [done | done |].
    destruct (connection t); [| wp_step; split; [fin | done]].
    wp_step. eapply (wp_update T); [done | done | by apply step_connection |]. intros u1 Hg1 _.
    wp_step. apply wp_try_post. wp_step. split; [fin |]. unfold u1. cbn. by rewrite lookup_alter_ne. }
  destruct (state s); try exact Hok; wp_step; (split; [fin | done]).
Qed.

Lemma other_closure_safe r s u :
  good T u -> heap u !! r = Some s -> idle T r s -> wp (handle_other_closure r) (ends T) u.
Proof.
  intros Hg Hr Hi. unfold handle_other_closure. wp_step. eapply wp_borrow; [done |].
  wp_step. eapply wp_mono; [| by eapply shutdown_peer_safe]. intros o u1 [He Hr1].
  destruct o as [go | e |]; [| by eapply ends_as..]. pose proof (proj2 He) as Hg1.
  destruct go; [| wp_step; fin].
  wp_step. apply wp_remove_path; [done |]. intros u2 Hg2 Hh2 _.
  wp_step. apply wp_remove_token; [done |]. intros u3 Hg3 Hh3 _.
  eapply (wp_update T); [done | by rewrite Hh3, Hh2 | by apply step_idle; [| | left |] |]. intros u4 Hg4 _. fin.
Qed.

Lemma on_close_safe_stream i u : good T u -> avoids T i -> wp (on_close i) (ends T) u.
Proof.
  intros Hg Ha. unfold on_close. wp_step. wp_step.
  destruct (sockets u !! i) as [r |] eqn:Hr; [| wp_step; fin].
  destruct (at_id_intro T u i r Hg Hr) as [s Hs]. pose proof Hs as (_ & Hs' & Hp).
  assert (good T (set_sockets (delete i (sockets u)) u)) as Hg1.
  { apply good_close; [done |]. unfold avoids in Ha. destruct T as [[[]] |]; [by apply not_eq_sym | done]. }
  assert (idle T r s) as Hi by (by eapply idle_avoids).
  wp_step. wp_step. wp_step. eapply wp_borrow; [done |].
  destruct (state s); by first [eapply other_closure_safe | eapply listening_closure_safe].
Qed.
End closing.
