(* ===== verification/UdsStreamCall.v ===== *)
(** * ipcd: stream sockets, bytes

    What reads, writes and messages do with the packets of a connection, and
    the methods that move bytes in the pass over the invariant.

    The handlers that [call] chooses among, with the caller's payload: the rest
    of the pass over the invariant. *)

From stdpp Require Import base gmap strings list fin_maps.
From Stdlib Require Import ZArith Lia.
From Stdlib Require Import Strings.Byte.
From S2P Require Import Prelude Memory Syscall SchemeApi Uds UdsStream UdsFacts UdsStreamSafe.

Local Open Scope Z_scope.

(** ** The loops *)

(** The bytes that wait in packets. *)
Definition unread (ps : list DataPacket) : list u8 := concat (rem_payload <$> ps).

Lemma unread_app ps qs : unread (ps ++ qs) = unread ps ++ unread qs.
Proof. unfold unread. by rewrite fmap_app, concat_app. Qed.

Lemma rem_payload_length p : packet_ok p -> (0 < length (rem_payload p))%nat.
Proof. unfold packet_ok, rem_payload. rewrite length_drop. lia. Qed.

(** A packet is used up, or the room is. *)
Lemma advance_spec room taken a p :
  packet_ok p -> (0 < room)%nat ->
  let n := (length (rem_payload p) `min` room)%nat in
  let p' := advance n taken a p in
  if (length (payload p') <=? read_offset p')%nat then n = length (rem_payload p)
  else n = room /\ packet_ok p' /\ rem_payload p' = drop room (rem_payload p) /\ (room < length (rem_payload p))%nat.
Proof.
  intros Hp Hr n p'. unfold packet_ok, rem_payload in *. cbn [payload read_offset advance p'].
  destruct (Nat.leb_spec (length (payload p)) (read_offset p + n)); unfold n in *; rewrite length_drop in *.
  - lia.
  - assert ((length (payload p) - read_offset p) `min` room = room)%nat as -> by lia.
    split; [done |]. split; [lia |]. split; [| lia]. by rewrite drop_drop.
Qed.

Lemma read_loop_spec room ps :
  Forall packet_ok ps ->
  (read_loop room ps).1 = take room (unread ps) /\ unread (read_loop room ps).2 = drop room (unread ps) /\
  Forall packet_ok (read_loop room ps).2.
Proof.
  revert room. induction ps as [| p ps IH]; intros room Hok; [by destruct room |].
  destruct room as [| k]; [done |]. inversion Hok as [| ? ? Hp Hps]; subst. cbn [read_loop].
  set (n := (length (rem_payload p) `min` S k)%nat). pose proof (rem_payload_length p Hp).
  destruct (Nat.eqb_spec n 0); [lia |].
  pose proof (advance_spec (S k) (ancillary_taken p || (read_offset p =? 0)%nat) (ancillary_data p) p Hp ltac:(lia)) as Ha.
  fold n in Ha. cbn beta zeta in Ha. cbn [unread fmap list_fmap concat]. fold (unread ps).
  destruct (_ <=? _)%nat.
  - destruct (IH (S k - n)%nat Hps) as (H1 & H2 & H3). destruct (read_loop (S k - n) ps) as [l rest]. cbn [fst snd] in *.
    rewrite Ha, take_ge in * by lia. rewrite take_app_ge, drop_app_ge by lia. by rewrite H1, H2.
  - destruct Ha as (Hn & Hok' & Hrem & Hlt). cbn [fst snd]. rewrite Hn in *. rewrite take_app_le, drop_app_le by lia.
    split; [done |]. split; [| by constructor]. unfold unread at 1. cbn [fmap list_fmap concat]. by rewrite Hrem.
Qed.

Lemma msg_loop_spec room name ps :
  Forall packet_ok ps ->
  let '(_, l, _, rest) := msg_loop room name ps in
  l = take room (unread ps) /\ unread rest = drop room (unread ps) /\ Forall packet_ok rest.
Proof.
  revert room name. induction ps as [| p ps IH]; intros room name Hok; [by destruct room |].
  destruct room as [| k]; [done |]. inversion Hok as [| ? ? Hp Hps]; subst. cbn [msg_loop].
  set (n := (length (rem_payload p) `min` S k)%nat). pose proof (rem_payload_length p Hp).
  destruct (Nat.eqb_spec n 0); [lia |].
  set (taken := ancillary_taken p || negb (ancillary_taken p)).
  set (a := if (_ : bool) then _ else ancillary_data p).
  pose proof (advance_spec (S k) taken a p Hp ltac:(lia)) as Ha.
  fold n in Ha. cbn beta zeta in Ha. cbn [unread fmap list_fmap concat]. fold (unread ps).
  set (name' := if negb (ancillary_taken p) then _ else name). clearbody name'.
  destruct (_ <=? _)%nat.
  - specialize (IH (S k - n)%nat name' Hps). destruct (msg_loop (S k - n) name' ps) as [[[nm l] more] rest].
    destruct IH as (H1 & H2 & H3).
    rewrite Ha, take_ge in * by lia. rewrite take_app_ge, drop_app_ge by lia. by rewrite H1, H2.
  - destruct Ha as (Hn & Hok' & Hrem & Hlt). rewrite Hn in *. rewrite take_app_le, drop_app_le by lia.
    split; [done |]. split; [| by constructor]. unfold unread at 1. cbn [fmap list_fmap concat]. by rewrite Hrem.
Qed.

(** ** Sending *)

(** The packets of the socket that is followed, after [l] was sent to [p]. *)
Definition push (p : Z) (l : list DataPacket) (T : option (Z * nat * list DataPacket)) :=
  match T with
  | Some (j, rj, ps) => Some (j, rj, if p =? j then ps ++ l else ps)
  | None => None
  end.

(** The id that a socket sends to. *)
Definition peer_of (u : UdsStreamScheme) (i : Z) : option Z :=
  r ← sockets u !! i; s ← heap u !! r; c ← connection s; Some (peer c).

Lemma push_nil p T : push p [] T = T.
Proof. destruct T as [[[j rj] ps] |]; [| done]. cbn. rewrite app_nil_r. by destruct (p =? j). Qed.

Section sending.
Context {TG : Target} {SC : Syscall} {AB : SchemeAbi} {UA : UdsAbi} {UH : UdsHost} {HL : UdsHostLaws UH}.
Context (T : option (Z * nat * list DataPacket)).

(** How a method ends that sends [bytes] from [i]: nothing was sent, or the
    peer has them; when the host answers, the method succeeds then. *)
Definition sent_by {A} (i : Z) (bytes : list u8) (u : UdsStreamScheme) (o : outcome A) (u' : UdsStreamScheme) : Prop :=
  (is_ok o = false /\ ends T o u') \/
  (o <> Panic /\ ((forall n, write_response n = Ok true) -> is_ok o = true) /\
   exists p l, peer_of u i = Some p /\ unread l = bytes /\ good (push p l T) u').

Lemma peers_peer_of u i r s p q t : peers u i r s p q t -> peer_of u i = Some p.
Proof. intros ((Hi & Hr & _) & (c & Hc & Hp) & _). unfold peer_of. rewrite Hi. cbn. rewrite Hr. cbn. by rewrite Hc, <- Hp. Qed.

(** A packet joins the queue of a connection. *)
Lemma good_push u p q t c pkt :
  good T u -> at_id u p q t -> connection t = Some c -> packet_ok pkt ->
  good (push p [pkt] T)
    (set_heap (alter (upd_connection (fun c => set_packets (packets c ++ [pkt]) c)) q (heap u)) u).
Proof.
  intros Hg (Hq & Ht & Hp) Hc Hok.
  set (c' := set_packets (packets c ++ [pkt]) c).
  assert (renew q (fun _ => packets c') T = push p [pkt] T) as <-.
  { destruct Hg as [Hi Htr]. destruct T as [[[j rj] ps] |]; [| done]. destruct Htr as (Hj & (sj & Hsj & Hh) & _).
    cbn. destruct (Nat.eqb_spec q rj) as [-> | Hne], (Z.eqb_spec p j) as [-> | Hne']; try done.
    - destruct Hh as (_ & x & Hx & <-). assert (sj = t) as -> by congruence. by assert (x = c) as -> by congruence.
    - destruct (inv_sockets u Hi _ _ Hj) as (s' & Hs' & ?). congruence.
    - congruence. }
  eapply good_update_by; [done | done |].
  eapply step_packets; [done | done | done | done | unfold upd_connection; cbn; by rewrite Hc | done |].
  cbn. intros Hps. apply Forall_app. split; [done |]. by constructor.
Qed.

(** Bytes in a packet of their own. *)
Lemma unread_single pkt : read_offset pkt = 0%nat -> unread [pkt] = payload pkt.
Proof. intros H. unfold unread, rem_payload. cbn. by rewrite H, app_nil_r, drop_0. Qed.

Lemma post_result i fl (u : UdsStreamScheme) :
  wp (post_fevent i fl) (fun o u' => o <> Panic /\ u' = tick (add_posted i fl u) /\
    ((forall n, write_response n = Ok true) -> o = Ok tt)) u.
Proof.
  unfold post_fevent, ask. do 6 wp_step. pose proof (write_response_returns (ticks (add_posted i fl u))) as Hw.
  destruct (write_response _) as [[] | |] eqn:E; try done; cbn;
    (split; [done |]); (split; [done |]); intros Hs; rewrite Hs in E; done.
Qed.

Lemma sent_none {A} i bytes u (o : outcome A) u' : ends T o u' -> is_ok o = false -> sent_by i bytes u o u'.
Proof. by left. Qed.

(** The wake-up that ends a method that has sent. *)
Lemma wp_sent {A} i bytes u p l k fl (x : A) u1 :
  peer_of u i = Some p -> unread l = bytes -> good (push p l T) u1 ->
  wp (post_fevent k fl;; mret x) (sent_by i bytes u) u1.
Proof.
  intros Hp Hl Hg. wp_step. eapply wp_mono; [| apply post_result]. intros o u' (Ho & -> & Hs).
  assert (good (push p l T) (tick (add_posted k fl u1))) as Hg' by by apply good_post.
  destruct o as [[] | e |]; [wp_step | | done]; right; (split; [done |]); (split; [| by exists p, l]).
  - done.
  - intros Hw. by specialize (Hs Hw).
Qed.

Lemma write_safe_stream i buf ctx u : good T u -> wp (write i buf ctx) (sent_by i buf u) u.
Proof.
  intros Hg. unfold write, write_inner. wp_step.
  apply (wp_connected_peer T); [done | | by intros; apply sent_none; [fin |]].
  intros r s p q t Hp _. pose proof (peers_peer_of _ _ _ _ _ _ _ Hp) as Hpo. pose proof Hp as (_ & _ & Hq & _).
  cbn [fst]. unfold get_socket. wp_step. apply (wp_get_rc T); [done | | by apply sent_none; [fin |]].
  intros q' t' Hq'. assert (q' = q /\ t' = t) as [-> ->].
  { destruct Hq as (? & ? & _), Hq' as (? & ? & _). simplify_eq. done. }
  wp_step. eapply wp_borrow; [apply Hq |]. wp_step.
  apply wp_require_connected; [intros c _ Hc | by intros; apply sent_none; [fin |]].
  wp_step. case_bool_decide as Hb.
  - wp_step. subst buf. apply (wp_sent _ _ _ p []); [done | done | by rewrite push_nil].
  - unfold update. wp_step. set (pkt := DataPacket_new _ _).
    apply (wp_sent _ _ _ p [pkt]); [done | by apply unread_single |]. eapply good_push; [done | done | done |].
    unfold packet_ok. cbn. destruct buf; [done |]. cbn. lia.
Qed.

Lemma credential_total pid (u : UdsStreamScheme) :
  wp (credential_of pid) (fun o u' => o <> Panic /\ u' = tick u) u.
Proof.
  unfold credential_of. wp_step. apply wp_ask. wp_step. wp_step.
  pose proof (get_proc_credentials_returns (ticks u) pid) as Hr. unfold creds_of.
  destruct (get_proc_credentials _ _) as [b | e |]; [| done | done].
  pose proof (read_num_total 4 b). pose proof (read_num_total 4 (drop 12 b)).
  pose proof (read_num_total 4 (drop 24 b)).
  repeat (destruct (read_num _ _); cbn; [| done | done]). done.
Qed.

Lemma sendmsg_safe i mf msg ctx u :
  good T u -> wp (handle_sendmsg i mf msg ctx) (sent_by i (message_bytes msg) u) u.
Proof.
  intros Hg. unfold handle_sendmsg, get_socket. wp_step. wp_step; [by apply sent_none; [fin |] | clear H].
  wp_step. apply (wp_get_rc T); [done | intros r0 s0 Hr0 | by apply sent_none; [fin |]].
  wp_step. eapply wp_borrow; [apply Hr0 |]. wp_step.
  apply (wp_connected_peer T); [done | | by intros; apply sent_none; [fin |]].
  intros r s p q t Hp _. pose proof (peers_peer_of _ _ _ _ _ _ _ Hp) as Hpo. pose proof Hp as (_ & _ & Hq & _).
  cbn [fst snd]. wp_step. eapply wp_borrow; [apply Hq |]. wp_step.
  apply wp_require_connected; [intros c _ Hc | by intros; apply sent_none; [fin |]].
  wp_step. eapply wp_mono; [| apply credential_total]. intros o u1 [Ho ->].
  destruct o as [cr | e |]; [| by apply sent_none; [fin |] | done].
  wp_step. wp_step. destruct (from_stream_spec msg (path s0) cr) as [Hpanic Hok].
  destruct (from_stream msg (path s0) cr) as [pkt | e |] eqn:Ef.
  - destruct (Hok pkt eq_refl) as (<- & Hoff & _). case_bool_decide as Hb.
    + wp_step. right. split; [done |]. split; [done |]. exists p, []. rewrite push_nil, Hb.
      split; [done |]. split; [done | by apply good_tick].
    + unfold update. wp_step. wp_step.
      apply (wp_sent _ _ _ p [pkt]); [done | by apply unread_single |].
      eapply (good_push (tick u)); [by apply good_tick | done | done |].
      unfold packet_ok. rewrite Hoff. destruct (payload pkt); [done | cbn; lia].
  - by apply sent_none; [fin |].
  - apply sent_none; [| done]. split; [intros _; by apply Hpanic | by apply good_tick].
Qed.

(** ** Receiving *)

(** The bytes that a read returned. *)
Definition read_bytes (o : outcome (Z * list u8)) : list u8 :=
  match o with Ok (n, l) => take (Z.to_nat n) l | _ => [] end.

(** The packets of the socket that is followed, after a read by [i]. *)
Definition read_by (i : Z) (o : outcome (Z * list u8)) (T' : option (Z * nat * list DataPacket)) : Prop :=
  match T with
  | None => T' = None
  | Some (j, rj, ps) =>
      exists ps', T' = Some (j, rj, ps') /\ if i =? j then unread ps = read_bytes o ++ unread ps' else ps' = ps
  end.

Lemma read_by_none i o : read_bytes o = [] -> read_by i o T.
Proof.
  intros Ho. unfold read_by. destruct T as [[[j rj] ps] |]; [| done]. exists ps. split; [done |].
  rewrite Ho. by destruct (i =? j).
Qed.

Lemma read_by_renew u i r s c o rest :
  good T u -> at_id u i r s -> connection s = Some c -> unread (packets c) = read_bytes o ++ unread rest ->
  read_by i o (renew r (fun _ => rest) T).
Proof.
  intros [Hi Ht] (Hr & Hs & Hp) Hc Ho. unfold read_by. destruct T as [[[j rj] ps] |]; [| done].
  destruct Ht as (Hj & (sj & Hsj & Hh) & _). eexists. split; [done |].
  destruct (Z.eqb_spec i j) as [-> | Hne].
  - assert (r = rj) as -> by congruence. rewrite Nat.eqb_refl. destruct Hh as (_ & x & Hx & <-). by simplify_eq.
  - destruct (Nat.eqb_spec r rj) as [-> |]; [| done].
    destruct (inv_sockets u Hi _ _ Hj) as (s' & Hs' & ?). congruence.
Qed.

Lemma read_safe_stream i buf fl u :
  good T u -> wp (read i buf fl) (fun o u' => exists T', ends T' o u' /\ read_by i o T') u.
Proof.
  intros Hg. unfold read, get_socket.
  assert (forall e, exists T', ends T' (Err e : outcome (Z * list u8)) u /\ read_by i (Err e) T') as Herr.
  { intros e. exists T. split; [fin | by apply read_by_none]. }
  wp_step. apply (wp_get_rc T); [done | intros r s Hr | done].
  wp_step. eapply wp_borrow; [apply Hr |].
  assert (wp (c ← lift (require_connected_connection 0 s); read_inner r c buf fl)
    (fun o u' => exists T', ends T' o u' /\ read_by i o T') u) as Hok.
  { wp_step. apply wp_require_connected; [intros c _ Hc | done]. unfold read_inner.
    pose proof Hr as (_ & Hs & _).
    pose proof (inv_cell u (good_inv T u Hg) _ _ Hs) as [_ Hcell]. pose proof (co_packets _ _ Hcell c Hc) as Hps.
    destruct (read_loop_spec (length buf) (packets c) Hps) as (H1 & H2 & H3).
    destruct (read_loop (length buf) (packets c)) as [bytes rest] eqn:El. cbn [fst snd] in *.
    assert (unread (packets c) = bytes ++ unread rest) as Hsplit by by rewrite H1, H2, take_drop.
    unfold update. wp_step. wp_step.
    assert (good (renew r (fun _ => rest) T)
      (set_heap (alter (upd_connection (set_packets rest)) r (heap u)) u)) as Hg'.
    { eapply good_update_by; [done | done |].
      by eapply (step_packets _ c (set_packets rest c)); [| | | | unfold upd_connection; cbn; rewrite Hc | |]. }
    assert (forall o, o <> Panic -> read_bytes o = bytes ->
      exists T', ends T' o (set_heap (alter (upd_connection (set_packets rest)) r (heap u)) u) /\ read_by i o T') as Hend.
    { intros o Ho Hb. eexists. split; [by apply ends_good |]. eapply read_by_renew; [done | done | done | by rewrite Hb]. }
    destruct (Nat.ltb_spec 0 (length bytes)) as [Hlt | Hle].
    - wp_step. apply Hend; [done |]. cbn. unfold zlen. rewrite Nat2Z.id, take_copy_prefix by lia. apply take_ge. lia.
    - assert (bytes = []) as -> by (by apply length_zero_iff_nil; lia).
      wp_step; wp_step; by apply Hend. }
  destruct (state s); try exact Hok; wp_step; try done.
  exists T. split; [fin | by apply read_by_none].
Qed.
End sending.

(** A computation that returns. *)
Definition returns {S A} (m : M S A) : Prop := forall s, wp m (fun o _ => o <> Panic) s.

Section writer.
Context {TG : Target} {SC : Syscall} {AB : SchemeAbi} {UA : UdsAbi} {UH : UdsHost}.

Lemma write_cmsg_returns level t d : returns (write_cmsg level t d).
Proof. intros w. unfold write_cmsg, fill_rest, put_writer. wp_step. wp_step. repeat (wp_step; try done). Qed.

Lemma write_name_returns P name size : returns (write_name P name size).
Proof. intros w. unfold write_name, put_writer. wp_step. wp_step. repeat (wp_step; try done). Qed.

Lemma write_payload_returns l n size : returns (write_payload l n size).
Proof. intros w. unfold write_payload, put_writer. wp_step. wp_step. repeat (wp_step; try done). Qed.

Lemma write_rights_returns n : returns (write_rights n).
Proof. intros w. unfold write_rights. wp_step; [by wp_step | apply write_cmsg_returns]. Qed.

Lemma write_creds_returns l : returns (write_creds l).
Proof.
  induction l as [| a l IH]; intros w; cbn [write_creds]; [by wp_step |].
  wp_step. eapply wp_mono; [| apply write_cmsg_returns]. intros [[] | e |] w' Ho; [apply IH | by wp_step | done | done].
Qed.

(** A connection keeps its peer; its packets stay fit to read. *)
Definition conn_step (c c' : Connection) : Prop :=
  peer c' = peer c /\ (Forall packet_ok (packets c) -> Forall packet_ok (packets c')).

Lemma conn_step_trans a b c : conn_step a b -> conn_step b c -> conn_step a c.
Proof. intros [H1 H2] [H3 H4]. split; [congruence | auto]. Qed.

Lemma wp_on_writer {A} (m : M MsgWriter A) Q c w :
  returns m -> (forall o w', o <> Panic -> Q o (c, w')) -> wp (on_writer m) Q (c, w).
Proof. intros Hm HQ. unfold on_writer. wp_step. eapply wp_mono; [| apply Hm]. intros o w' Ho. by apply HQ. Qed.

Lemma wp_sum_fds {S} acc l Q (s : S) :
  (forall n, Q (Ok n) s) -> (overflow_checks = true -> Q Panic s) -> wp (sum_fds acc l) Q s.
Proof.
  intros Hok Hp. revert acc. induction l as [| a l IH]; intros acc; cbn [sum_fds]; [by wp_step |].
  wp_step. wp_step; [apply IH | auto | apply IH].
Qed.

Lemma write_options_safe anc opts c w :
  wp (write_options anc opts) (fun o y => o <> Panic /\ y.1 = c) (c, w).
Proof.
  revert w. induction opts as [| o opts IH]; intros w; cbn [write_options]; [by wp_step |].
  wp_step. destruct (o =? SO_PASSCRED); [| by wp_step].
  apply wp_on_writer; [apply write_creds_returns |]. intros x w' Hx.
  destruct x as [[] | e |]; [apply IH | by wp_step | done | done].
Qed.

Lemma drop_fds_safe n c : wp (drop_fds n) (fun o c' => o <> Panic /\ conn_step c c') c.
Proof.
  unfold drop_fds. wp_step. wp_step. destruct (drop_loop _ _) as [l enough]. wp_step. wp_step. wp_step; done.
Qed.

Lemma serialize_msg_safe name_size iov_size opts c w :
  iov_size <= isize_max ->
  wp (serialize_msg name_size iov_size opts)
    (fun o y => (o = Panic -> overflow_checks = true) /\ conn_step c y.1) (c, w).
Proof.
  intros Hsz. unfold serialize_msg. wp_step. wp_step. rewrite (proj2 (Z.ltb_ge _ _)) by lia.
  wp_step. wp_step. cbn [fst].
  pose proof (msg_loop_spec (Z.to_nat iov_size) None (packets c)) as Hmsg.
  destruct (msg_loop _ _ _) as [[[name bytes] anc] rest].
  wp_step. unfold on_connection at 1. wp_step. wp_step. cbn [fst snd]. set (c1 := set_packets rest c).
  assert (conn_step c c1) as H1. { split; [done |]. intros Hps. by apply Hmsg. }
  wp_step. apply wp_on_writer; [apply write_name_returns |]. intros o w1 Ho. destruct o; [| by split | done].
  wp_step. apply wp_on_writer; [apply write_payload_returns |]. intros o w2 Ho2. destruct o; [| by split | done].
  wp_step. apply wp_sum_fds; [intros n | by split].
  wp_step. apply wp_on_writer; [apply write_rights_returns |]. intros o w3 Ho3. destruct o as [rights | |]; [| by split | done].
  wp_step. assert (wp (if (rights : bool) then mret tt else on_connection (drop_fds n))
    (fun o y => o <> Panic /\ conn_step c y.1) (c1, w3)) as Hd.
  { destruct rights; [by wp_step |]. unfold on_connection. wp_step. eapply wp_mono; [| apply drop_fds_safe].
    intros o c' [Hne Hc']. split; [done |]. by eapply conn_step_trans. }
  eapply wp_mono; [| exact Hd]. intros o [c2 w4] [Hne H2]. destruct o as [[] | |]; [| by split | done].
  wp_step. eapply wp_mono; [| apply write_options_safe]. intros o [c3 w5] [Hne3 Hc3]. cbn in *. subst c3.
  destruct o as [[] | |]; [| by split | done]. wp_step. wp_step. wp_step. by split.
Qed.

(** The size of the buffer that the receiver announces. *)
Definition iov_small (l : list u8) : Prop := forall n, read_usize (drop usize_len l) = Ok n -> n <= isize_max.

Lemma recvmsg_inner_safe mf s l :
  iov_small l ->
  wp (recvmsg_inner mf) (fun o x => (o = Panic -> overflow_checks = true) /\
    (x.1 = s \/ exists c c', connection s = Some c /\ conn_step c c' /\ x.1 = set_connection (Some c') s)) (s, l).
Proof.
  intros Hl. unfold recvmsg_inner. wp_step. wp_step. unfold read_msghdr_info. wp_step. wp_step. cbn [snd id].
  wp_step; [wp_step; split; [done | by left] |].
  wp_step. wp_step. pose proof (read_num_total usize_len l). unfold read_usize at 1.
  destruct (read_num usize_len l) as [a | e |]; [| split; [done | by left] | done].
  wp_step. wp_step. pose proof (read_num_total usize_len (drop usize_len l)).
  destruct (read_usize (drop usize_len l)) as [b | e |] eqn:Eb; [| split; [done | by left] | done].
  wp_step. wp_step. pose proof (read_num_total usize_len (drop (2 * usize_len) l)). unfold read_usize at 1.
  destruct (read_num usize_len (drop (2 * usize_len) l)) as [x | e |]; [| split; [done | by left] | done].
  do 3 wp_step. unfold serialize_to_msgstream. wp_step. wp_step. wp_step. wp_step. cbn [fst].
  pose proof (require_connected_total mf s). destruct (require_connected_connection mf s) as [c | e |] eqn:Ec;
    [| split; [done | by left] | done].
  apply require_connected_Ok in Ec as [_ Hc]. wp_step.
  eapply wp_mono; [| apply serialize_msg_safe; by apply Hl]. intros o y [Hp Hst]. split; [done |].
  right. exists c, y.1. done.
Qed.
End writer.

(** ** The handlers *)

Section handlers.
Context {TG : Target} {SC : Syscall} {AB : SchemeAbi} {UA : UdsAbi} {UH : UdsHost} {HL : UdsHostLaws UH}.
Context (T : option (Z * nat * list DataPacket)).

Definition ends_with {A} (o : outcome A) (x : UdsStreamScheme * list u8) : Prop := ends T o x.1.

Lemma wp_on_tables {A} (m : M UdsStreamScheme A) Q u l :
  wp m (fun o u' => Q o (u', l)) u -> wp (on_tables m) Q (u, l).
Proof. intros H. unfold on_tables. by wp_step. Qed.

Lemma on_payload_safe {A} (m : M (list u8) A) u l :
  good T u -> returns m -> wp (on_payload m) ends_with (u, l).
Proof.
  intros Hg Hm. unfold on_payload. wp_step. eapply wp_mono; [| apply Hm].
  intros o l' Ho. by apply ends_good.
Qed.

Lemma write_value_returns v : returns (write_value v).
Proof. intros l. unfold write_value, fill_value. wp_run. Qed.

Lemma token_out_returns t : returns (token_out t).
Proof. intros l. unfold token_out. wp_run. Qed.

Lemma write_eof_returns : returns write_eof.
Proof. intros l. unfold write_eof. wp_run. Qed.

Lemma getsockopt_safe i option u l : good T u -> wp (handle_getsockopt i option) ends_with (u, l).
Proof.
  intros Hg. unfold handle_getsockopt.
  wp_step; [apply on_payload_safe; [done | apply write_value_returns] |].
  wp_step; [| wp_step; [apply on_payload_safe; [done | apply write_value_returns] | by wp_step; apply ends_good]].
  wp_step. apply wp_on_tables. apply (wp_connected_peer T); [done | | by intros; apply ends_good].
  intros r s p q t (_ & _ & (_ & Ht & _) & _) _. wp_step. apply wp_on_tables. eapply wp_borrow; [done |].
  destruct (ucred t) as [[pid uid] gid]. apply on_payload_safe; [done | apply write_value_returns].
Qed.

Lemma get_token_safe i u l : good T u -> wp (handle_get_token i) ends_with (u, l).
Proof.
  intros Hg. unfold handle_get_token, get_socket. wp_step. apply wp_on_tables.
  apply (wp_get_rc T); [done | intros r s Hr | by apply ends_good].
  wp_step. apply wp_on_tables. eapply wp_borrow; [apply Hr |].
  apply on_payload_safe; [done | apply token_out_returns].
Qed.

Lemma get_peer_name_safe i u l : good T u -> wp (handle_get_peer_name i) ends_with (u, l).
Proof.
  intros Hg. unfold handle_get_peer_name. wp_step. apply wp_on_tables.
  apply (wp_connected_peer T); [done | | by intros; apply ends_good].
  intros r s p q t (_ & _ & (_ & Ht & _) & _) _. wp_step. apply wp_on_tables. eapply wp_borrow; [done |].
  wp_step. wp_step. destruct (fpath_inner _ _ _) as [n l']. unfold on_payload. do 3 wp_step. wp_step. by apply ends_good.
Qed.

Lemma recvmsg_safe i mf u l :
  good T u -> avoids T i -> iov_small l -> wp (handle_recvmsg i mf) ends_with (u, l).
Proof.
  intros Hg Ha Hl. unfold handle_recvmsg, get_socket. wp_step. apply wp_on_tables.
  apply (wp_get_rc T); [done | intros r s Hr | by apply ends_good].
  wp_step. apply wp_on_tables. pose proof Hr as (_ & Hs & Hp). eapply wp_borrow; [done |].
  assert (wp (c ← lift (require_connection s);
    if bool_decide (packets c = []) then
      if is_peer_shutdown c then on_payload write_eof
      else throw (if all_set (flags s) O_NONBLOCK || nonblock mf then EAGAIN else EWOULDBLOCK)
    else on_cell r (recvmsg_inner mf)) ends_with (u, l)) as Hok.
  { wp_step. wp_step. destruct (require_connection s) as [c | e |] eqn:Ec; [| by apply ends_good |].
    2: { unfold require_connection in Ec. by destruct (connection s). }
    wp_step.
    - wp_step; [apply on_payload_safe; [done | apply write_eof_returns] |]. wp_step. by apply ends_good.
    - unfold wp, on_cell. cbn [fst snd]. rewrite Hs.
      pose proof (recvmsg_inner_safe mf s l Hl) as Hw. unfold wp in Hw.
      destruct (recvmsg_inner mf (s, l)) as [o [s' l']]. cbn [fst snd] in *. destruct Hw as [Hpanic Hw].
      split; [done |]. cbn [fst].
      assert (set_heap (<[r := s']> (heap u)) u = set_heap (alter (fun _ => s') r (heap u)) u) as ->.
      { f_equal. apply map_eq. intros k. destruct (decide (r = k)) as [<- | Hne].
        - by rewrite lookup_insert_eq, lookup_alter_eq, Hs.
        - by rewrite lookup_insert_ne, lookup_alter_ne. }
      destruct Hw as [-> | (c0 & c' & Hc0 & [Hpeer Hpk] & ->)].
      + eapply good_update; [done | done | by apply step_same].
      + erewrite <- (renew_avoids T u r s (fun _ => packets c')); [| done | done | by rewrite Hp].
        eapply good_update_by; [done | done |]. by eapply step_packets. }
  destruct (state s); try exact Hok; try (wp_step; by apply ends_good).
  apply on_payload_safe; [done | apply write_eof_returns].
Qed.

Definition msg_flags_of (metadata : list Z) : Z := default 0 (as_i32 <$> metadata !! 1%nat).

(** The verb of a call. *)
Definition verb_of (metadata : list Z) : option SocketCall := m0 ← metadata !! 0%nat; socket_call (as_usize m0).

(** What a caller is to respect; no one else reads messages as the socket
    that is followed. *)
Definition call_admissible (i : Z) (l : list u8) (metadata : list Z) (u : UdsStreamScheme) : Prop :=
  match verb_of metadata with
  | Some SC_Connect => not_own_token i l u
  | Some SC_RecvMsg => avoids T i /\ iov_small l
  | _ => True
  end.

(** A call sends bytes, or leaves them alone. *)
Definition call_ends (i : Z) (l : list u8) (metadata : list Z) (u : UdsStreamScheme) {A} (o : outcome A)
    (u' : UdsStreamScheme) : Prop :=
  match verb_of metadata with
  | Some SC_SendMsg => sent_by T i (message_bytes l) u o u'
  | _ => ends T o u'
  end.

Lemma wp_tables_end {A} (m : M UdsStreamScheme A) u l :
  wp m (ends T) u -> wp (on_tables m) ends_with (u, l).
Proof. intros H. by apply wp_on_tables. Qed.

Lemma call_inner_safe i l metadata ctx u :
  good T u -> call_admissible i l metadata u ->
  wp (call_inner i metadata ctx) (fun o x => call_ends i l metadata u o x.1) (u, l).
Proof.
  intros Hg. unfold call_inner, call_admissible, call_ends, verb_of. intros Ha. wp_step. wp_step.
  wp_step. wp_step; [| rewrite H; by apply ends_good]. rewrite H in *. cbn [mbind option_bind] in *.
  wp_step. wp_step; [| rewrite H0; by apply ends_good]. rewrite H0 in *. cbn [snd].
  assert (forall (k : Z -> M (UdsStreamScheme * list u8) Z),
    (forall m, wp (k m) ends_with (u, l)) -> wp (m1 ← ok_or EINVAL (metadata !! 1%nat); k m1) ends_with (u, l)) as Hm1.
  { intros k Hk. wp_step. wp_step; [apply Hk | by apply ends_good]. }
  destruct a0.
  - by apply wp_tables_end, bind_safe.
  - by apply wp_tables_end, connect_safe.
  - apply Hm1. intros m. by apply wp_tables_end, setsockopt_safe.
  - apply Hm1. intros m. by apply getsockopt_safe.
  - apply wp_on_tables. by apply sendmsg_safe.
  - destruct Ha. by apply recvmsg_safe.
  - by apply wp_tables_end, unbind_safe.
  - by apply get_token_safe.
  - by apply get_peer_name_safe.
  - wp_step. by apply ends_good.
Qed.

(** The result that a caller sees. *)
Definition call_result {A} (o : outcome (outcome A * list u8)) : outcome A :=
  match o with Ok (r, _) => r | Err e => Err e | Panic => Panic end.

Lemma call_safe i l metadata ctx u :
  good T u -> call_admissible i l metadata u ->
  wp (call i l metadata ctx) (fun o u' => call_ends i l metadata u (call_result o) u' /\
    (o = Panic -> call_result o = Panic)) u.
Proof.
  intros Hg Ha. pose proof (call_inner_safe i l metadata ctx u Hg Ha) as H. unfold wp, call, call_method in *.
  destruct (call_inner i metadata ctx (u, l)) as [[n | e |] [u' l']]; cbn in *; by split.
Qed.
End handlers.
