(* ===== verification/UdsStreamFacts.v ===== *)
(** * ipcd: stream sockets, theorems

    The states that requests lead to, and what holds in them: the tables are
    consistent, no request panics in a release build, and the bytes sent to a
    connected socket reach it in order.

    What a caller can do to the scheme that it should not be able to, and a
    run in which the theorems apply. *)

From stdpp Require Import base gmap strings list fin_maps.
From Stdlib Require Import ZArith Lia.
From Stdlib Require Import Strings.Byte.
From S2P Require Import Prelude Memory Syscall SchemeApi Uds UdsStream UdsFacts UdsStreamSafe.
From S2P Require Import UdsStreamCall.

Local Open Scope Z_scope.

Inductive request :=
| Q_open (p : string) (fl : Z) (ctx : CallerCtx)
| Q_call (i : Z) (l : list u8) (metadata : list Z) (ctx : CallerCtx)
| Q_dup (i : Z) (buf : list u8) (ctx : CallerCtx)
| Q_write (i : Z) (buf : list u8) (ctx : CallerCtx)
| Q_read (i : Z) (buf : list u8) (fl : Z)
| Q_fpath (i : Z) (buf : list u8)
| Q_fsync (i : Z)
| Q_sendfd (req : Request)
| Q_recvfd (req : Request)
| Q_on_close (i : Z)
| Q_fcntl (i cmd arg : Z)
| Q_fevent (i fl : Z)
| Q_fstat (i : Z).

Section reachable.
Context {TG : Target} {SC : Syscall} {AB : SchemeAbi} {UA : UdsAbi} {UH : UdsHost}.

Definition void {A} (m : M UdsStreamScheme A) : M UdsStreamScheme unit := _ ← m; mret tt.

Definition serve (r : request) : M UdsStreamScheme unit :=
  match r with
  | Q_open p fl ctx => void (open p fl ctx)
  | Q_call i l md ctx => x ← call i l md ctx; void (lift x.1)
  | Q_dup i buf ctx => void (dup i buf ctx)
  | Q_write i buf ctx => void (write i buf ctx)
  | Q_read i buf fl => void (read i buf fl)
  | Q_fpath i buf => void (fpath i buf)
  | Q_fsync i => fsync i
  | Q_sendfd req => void (on_sendfd req)
  | Q_recvfd req => void (on_recvfd req)
  | Q_on_close i => on_close i
  | Q_fcntl i cmd arg => void (fcntl i cmd arg)
  | Q_fevent i fl => void (fevent i fl)
  | Q_fstat i => void (fstat i)
  end.

(** What callers respect: fewer than [usize::MAX] sockets are ever opened, a
    socket does not connect to its own token, and nobody announces a buffer or
    a number of descriptors that no address space has room for. *)
Definition admissible (r : request) (u : UdsStreamScheme) : Prop :=
  next_id u + 1 < usize_mod /\
  match r with
  | Q_call i l md _ => call_admissible None i l md u
  | Q_sendfd req => as_usize (arg3 req) * Z.of_nat usize_len <= isize_max
  | _ => True
  end.

Inductive uds_step : UdsStreamScheme -> UdsStreamScheme -> Prop :=
| uds_serve r u : admissible r u -> uds_step u (serve r u).2.

Definition uds_reachable : UdsStreamScheme -> Prop := rtc uds_step Uds_new.

(** ** Traffic *)

(** The bytes that a request delivers to [j], and those that it returns to
    [j]'s reader. *)
Definition sent (j : Z) (r : request) (u : UdsStreamScheme) : list u8 :=
  match r with
  | Q_write i buf _ => if bool_decide (peer_of u i = Some j) && is_ok (serve r u).1 then buf else []
  | Q_call i l md _ =>
      match verb_of md with
      | Some SC_SendMsg => if bool_decide (peer_of u i = Some j) && is_ok (serve r u).1 then message_bytes l else []
      | _ => []
      end
  | _ => []
  end.

Definition got (j : Z) (r : request) (u : UdsStreamScheme) : list u8 :=
  match r with
  | Q_read i buf fl => if i =? j then read_bytes (read i buf fl u).1 else []
  | _ => []
  end.

(** The requests that end the life of [j] as a byte stream that is read. *)
Definition ends_stream (j : Z) (r : request) : Prop :=
  match r with
  | Q_on_close i => i = j
  | Q_call i _ md _ => i = j /\ verb_of md = Some SC_RecvMsg
  | _ => False
  end.

(** The packets and bytes that wait for [j]. *)
Definition packets_at (u : UdsStreamScheme) (j : Z) : list DataPacket :=
  default [] (r ← sockets u !! j; s ← heap u !! r; c ← connection s; Some (packets c)).

Definition waiting (u : UdsStreamScheme) (j : Z) : list u8 := unread (packets_at u j).

(** [j] is an end of a connection, and in no queue. *)
Definition connected (u : UdsStreamScheme) (j : Z) : Prop :=
  (exists r s c, sockets u !! j = Some r /\ heap u !! r = Some s /\ connection s = Some c /\
    (state s = Established \/ state s = Accepted)) /\
  forall r s, heap u !! r = Some s -> j ∉ awaiting s.

Inductive traffic (j : Z) : UdsStreamScheme -> list u8 -> list u8 -> UdsStreamScheme -> Prop :=
| traffic_nil u : traffic j u [] [] u
| traffic_cons u r tx rx u' :
    admissible r u -> ~ ends_stream j r -> traffic j (serve r u).2 tx rx u' ->
    traffic j u (sent j r u ++ tx) (got j r u ++ rx) u'.

(** ** Every request *)

Section serving.
Context {HL : UdsHostLaws UH}.
Context (T : option (Z * nat * list DataPacket)).

Definition followed (r : request) : Prop :=
  match T with Some (j, _, _) => ~ ends_stream j r | None => True end.

(** How a request changes the packets of the socket that is followed. *)
Definition flows (r : request) (u : UdsStreamScheme) (T' : option (Z * nat * list DataPacket)) : Prop :=
  match T with
  | None => T' = None
  | Some (j, rj, ps) =>
      exists ps', T' = Some (j, rj, ps') /\
        ((forall n, write_response n = Ok true) -> unread ps ++ sent j r u = got j r u ++ unread ps')
  end.

(** What is shown of every request. *)
Definition served (r : request) (u : UdsStreamScheme) : Prop :=
  ((serve r u).1 = Panic -> overflow_checks = true) /\
  exists T', good T' (serve r u).2 /\ flows r u T'.

(** A request without traffic. *)
Lemma flows_none r u : (forall j, sent j r u = []) -> (forall j, got j r u = []) -> flows r u T.
Proof.
  intros Hs Hg. unfold flows. destruct T as [[[j rj] ps] |]; [| done]. exists ps. split; [done |].
  intros _. by rewrite Hs, Hg, app_nil_r.
Qed.

Lemma served_ends {A} (m : M UdsStreamScheme A) r u :
  (serve r u).2 = (m u).2 -> ((serve r u).1 = Panic -> (m u).1 = Panic) ->
  (forall j, sent j r u = []) -> (forall j, got j r u = []) -> wp m (ends T) u -> served r u.
Proof.
  intros E1 E2 Hs Hg [Hp Hgood]. split; [auto |]. exists T. rewrite E1. split; [done | by apply flows_none].
Qed.

Lemma void_run {A} (m : M UdsStreamScheme A) u :
  (void m u).2 = (m u).2 /\ is_ok (void m u).1 = is_ok (m u).1 /\ ((void m u).1 = Panic -> (m u).1 = Panic).
Proof. unfold void, mbind, M_bind. by destruct (m u) as [[] ?]. Qed.

(** What was sent, as traffic of the socket that is followed. *)
Lemma flows_push i bytes r u p l :
  (forall j, got j r u = []) ->
  (forall j, sent j r u = if bool_decide (peer_of u i = Some j) && is_ok (serve r u).1 then bytes else []) ->
  peer_of u i = Some p -> unread l = bytes ->
  ((forall n, write_response n = Ok true) -> is_ok (serve r u).1 = true) -> flows r u (push p l T).
Proof.
  intros Hgot Hsent Hp Hl Hok. unfold flows, push. destruct T as [[[j rj] ps] |]; [| done].
  eexists. split; [done |]. intros Hw. rewrite Hgot, Hsent, Hok, andb_true_r by done.
  destruct (Z.eqb_spec p j) as [-> | Hne].
  - rewrite bool_decide_eq_true_2 by done. by rewrite unread_app, Hl.
  - rewrite bool_decide_eq_false_2 by congruence. by rewrite app_nil_r.
Qed.

Lemma served_sent {A} i bytes (o : outcome A) r u :
  (forall j, got j r u = []) ->
  (forall j, sent j r u = if bool_decide (peer_of u i = Some j) && is_ok (serve r u).1 then bytes else []) ->
  is_ok (serve r u).1 = is_ok o -> ((serve r u).1 = Panic -> o = Panic) ->
  sent_by T i bytes u o (serve r u).2 -> served r u.
Proof.
  intros Hgot Hsent Hok Hp [[Hf [Hpanic Hg]] | (Hnp & Hs & p & l & Hpo & Hl & Hg)].
  - split; [auto |]. exists T. split; [done |]. apply flows_none; [| done].
    intros j. by rewrite Hsent, Hok, Hf, andb_false_r.
  - split; [intros E; by destruct Hnp; auto |]. exists (push p l T). split; [done |].
    eapply flows_push; [done | done | done | done |]. intros Hw. by rewrite Hok, Hs.
Qed.

Lemma served_write i buf ctx u : good T u -> served (Q_write i buf ctx) u.
Proof.
  intros Hg. destruct (void_run (write i buf ctx) u) as (E1 & E2 & E3).
  apply (served_sent i buf (write i buf ctx u).1); [done | done | done | done |].
  cbn [serve]. rewrite E1. by apply write_safe_stream.
Qed.

Lemma served_read i buf fl u : good T u -> served (Q_read i buf fl) u.
Proof.
  intros Hg. destruct (void_run (read i buf fl) u) as (E1 & _ & E3).
  destruct (read_safe_stream T i buf fl u Hg) as (T' & [Hp Hg'] & Hr). split; [auto |]. exists T'.
  cbn [serve]. rewrite E1. split; [done |]. unfold flows, read_by in *. destruct T as [[[j rj] ps] |]; [| done].
  destruct Hr as (ps' & -> & Hps). exists ps'. split; [done |]. intros _. cbn [sent got]. rewrite app_nil_r.
  destruct (i =? j); [done | by rewrite Hps].
Qed.

Lemma call_run i l md ctx u :
  (serve (Q_call i l md ctx) u).2 = (call i l md ctx u).2 /\
  is_ok (serve (Q_call i l md ctx) u).1 = is_ok (call_result (call i l md ctx u).1) /\
  ((serve (Q_call i l md ctx) u).1 = Panic -> call_result (call i l md ctx u).1 = Panic).
Proof.
  cbn [serve]. unfold mbind, M_bind. destruct (call i l md ctx u) as [[[[] l'] | |] u']; by cbn.
Qed.

Lemma served_call i l md ctx u :
  good T u -> call_admissible T i l md u -> served (Q_call i l md ctx) u.
Proof.
  intros Hg Ha. destruct (call_safe T i l md ctx u Hg Ha) as [He _].
  destruct (call_run i l md ctx u) as (E1 & E2 & E3). unfold call_ends in He. rewrite <- E1 in He.
  destruct (verb_of md) as [v |] eqn:Hv; [destruct v |];
    lazymatch type of He with
    | ends _ _ _ =>
        destruct He as [Hp Hg']; split; [auto |]; exists T; split; [done |];
        apply flows_none; [intros j; cbn [sent]; by rewrite Hv | done]
    | _ => idtac
    end.
  eapply served_sent; [done | | exact E2 | exact E3 | exact He]. intros j. cbn [sent]. by rewrite Hv.
Qed.

Lemma serve_spec r u : good T u -> admissible r u -> followed r -> served r u.
Proof.
  intros Hg [Hn Ha] Hf. destruct r; cbn [admissible] in *.
  - destruct (void_run (open p fl ctx) u) as (? & _ & ?). by eapply served_ends; [| | | | apply open_safe_stream].
  - apply served_call; [done |]. unfold call_admissible, followed in *. destruct (verb_of metadata) as [[] |] eqn:Hv; try done.
    split; [| apply Ha]. unfold avoids. destruct T as [[[j rj] ps] |]; [| done]. intros ->. apply Hf. by split.
  - destruct (void_run (dup i buf ctx) u) as (? & _ & ?). by eapply served_ends; [| | | | apply dup_safe_stream].
  - by apply served_write.
  - by apply served_read.
  - destruct (void_run (fpath i buf) u) as (? & _ & ?). by eapply served_ends; [| | | | apply fpath_safe_stream].
  - by eapply (served_ends (fsync i)); [| | | | apply fsync_safe_stream].
  - destruct (void_run (on_sendfd req) u) as (? & _ & ?). by eapply served_ends; [| | | | apply on_sendfd_safe].
  - destruct (void_run (on_recvfd req) u) as (? & _ & ?). by eapply served_ends; [| | | | apply on_recvfd_safe].
  - eapply (served_ends (on_close i)); [done | done | done | done |]. apply on_close_safe_stream; [done |].
    unfold followed, avoids in *. by destruct T as [[[j rj] ps] |].
  - destruct (void_run (fcntl i cmd arg) u) as (? & _ & ?). by eapply served_ends; [| | | | apply fcntl_safe_stream].
  - destruct (void_run (fevent i fl) u) as (? & _ & ?). by eapply served_ends; [| | | | apply fevent_safe_stream].
  - destruct (void_run (fstat i) u) as (? & _ & ?). by eapply served_ends; [| | | | apply fstat_safe_stream].
Qed.
End serving.

(** ** Reachable states *)

Section theorems.
Context {HL : UdsHostLaws UH}.

Lemma uds_new_inv : inv Uds_new.
Proof. split; [done | | | | |]; cbn; intros; by rewrite lookup_empty in *. Qed.

Lemma serve_inv r u : inv u -> admissible r u -> inv (serve r u).2 /\ ((serve r u).1 = Panic -> overflow_checks = true).
Proof.
  intros Hi Ha. destruct (serve_spec None r u) as [Hp (T' & [Hg _] & _)]; [by split | done | done | done].
Qed.

Lemma uds_reachable_inv u : uds_reachable u -> inv u.
Proof.
  intros Hr. eapply rtc_preserves; [exact Hr | | apply uds_new_inv].
  intros x y Hx Hs. inversion_clear Hs as [r ? Ha]. by apply serve_inv.
Qed.

(** In every reachable state the tables of the stream sockets are
    consistent: an id in the table has its socket, names and tokens have theirs,
    no two sockets have the same id, no socket is its own peer or waits for
    itself, and every packet that waits has bytes to read. *)
Theorem uds_stream_invariant u : uds_reachable u -> inv u.
Proof. apply uds_reachable_inv. Qed.

(** C36: a release build of the stream scheme does not panic on a request
    that callers may send: no cell is borrowed twice, and no [unwrap] fails. *)
Theorem uds_stream_no_panic u r :
  uds_reachable u -> admissible r u -> overflow_checks = false -> (serve r u).1 <> Panic.
Proof.
  intros Hr%uds_reachable_inv Ha Ho Hp. destruct (serve_inv r u Hr Ha) as [_ H]. by rewrite H in Ho.
Qed.

Lemma connected_good u j :
  inv u -> connected u j -> exists r, good (Some (j, r, packets_at u j)) u.
Proof.
  intros Hi [(r & s & c & Hj & Hr & Hc & Hs) Ha]. exists r. split; [done |]. split; [done |]. split; [| done].
  exists s. split; [done |]. split; [done |]. exists c. split; [done |]. unfold packets_at. rewrite Hj. cbn. rewrite Hr. cbn. by rewrite Hc.
Qed.

Lemma good_connected u j r ps :
  good (Some (j, r, ps)) u -> inv u /\ connected u j /\ packets_at u j = ps.
Proof.
  intros [Hi (Hj & (s & Hr & Hs & c & Hc & Hp) & Ha)]. split; [done |]. split.
  - split; [| done]. by exists r, s, c.
  - unfold packets_at. rewrite Hj. cbn. rewrite Hr. cbn. by rewrite Hc.
Qed.

End theorems.
End reachable.

Section shortcomings.
Context {TG : Target} {SC : Syscall} {AB : SchemeAbi} {UA : UdsAbi} {UH : UdsHost}.

Lemma own_socket (u : UdsStreamScheme) i r : sockets u !! i = Some r -> get_socket i u = (Ok r, u).
Proof. intros H. unfold get_socket, get_rc. by rewrite gets_bind, H. Qed.

Lemma own_borrow (u : UdsStreamScheme) r s : heap u !! r = Some s -> borrow r u = (Ok s, u).
Proof. intros H. unfold borrow. by rewrite gets_bind, H. Qed.

Lemma step_Ok {S A B} (m : M S A) (k : A -> M S B) s a s' : m s = (Ok a, s') -> (m ≫= k) s = k a s'.
Proof. unfold mbind, M_bind. by intros ->. Qed.

(** A listener that connects to its own token stops the daemon: the socket is
    borrowed as the client and again as the listener. *)
Lemma connect_own_token_panics i r s token l (u : UdsStreamScheme) :
  sockets u !! i = Some r -> heap u !! r = Some s -> state s = Listening ->
  read_num 8 l = Ok token -> socket_tokens u !! token = Some r ->
  (handle_connect i l u).1 = Panic.
Proof.
  intros Hi Hr Hs Hl Ht. unfold handle_connect. erewrite step_Ok by (unfold lift; by rewrite Hl).
  rewrite gets_bind. erewrite step_Ok by (by rewrite Ht).
  rewrite (step_Ok _ _ _ _ _ (own_socket _ _ _ Hi)), (step_Ok _ _ _ _ _ (own_borrow _ _ _ Hr)), Hs.
  unfold also_borrow. by rewrite Nat.eqb_refl.
Qed.

(** A socket that was bound cannot be unbound: binding makes it listen. *)
Lemma unbind_after_bind i l n (u u' : UdsStreamScheme) :
  handle_bind i l u = (Ok n, u') -> (handle_unbind i u').1 = Err EINVAL.
Proof.
  unfold handle_bind. intros H. apply bind_Ok in H as (p & u1 & [_ ->]%lift_Ok & H). rewrite gets_bind in H.
  apply bind_Ok in H as ([] & u1 & [_ ->]%fail_if_Ok & H).
  apply bind_Ok in H as (r & u1 & Hi & H). unfold get_socket, get_rc in Hi. rewrite gets_bind in Hi.
  apply ok_or_Ok in Hi as [Hi ->]. apply bind_Ok in H as (s & u1 & Hr & H).
  unfold borrow in Hr. rewrite gets_bind in Hr. destruct (heap u !! r) as [s0 |] eqn:Hs; [| done].
  apply ret_Ok in Hr as [-> ->]. apply bind_Ok in H as ([] & u1 & [_ ->]%fail_if_Ok & H).
  apply bind_Ok in H as (token & u1 & [= <- <-] & H). unfold update in H at 1. rewrite modify_bind in H.
  apply bind_Ok in H as ([] & u2 & Hl & H). unfold try_update in Hl.
  erewrite step_Ok in Hl by (apply own_borrow; cbn [heap set_heap tick]; by rewrite lookup_alter_eq, Hs).
  injection Hl as <-. unfold register in H. injection H as _ <-.
  unfold handle_unbind. erewrite step_Ok by (by apply (own_socket _ i r)).
  erewrite step_Ok.
  2: { apply own_borrow. cbn [heap set_heap set_paths set_tokens tick]. rewrite !lookup_alter_eq, Hs. reflexivity. }
  done.
Qed.
End shortcomings.

(** ** A run *)

Section run.
Context {TG : Target} {SC : Syscall} {AB : SchemeAbi} {UA : UdsAbi} {UH : UdsHost}.

Fixpoint run (rs : list request) (u : UdsStreamScheme) : UdsStreamScheme :=
  match rs with [] => u | r :: rs => run rs (serve r u).2 end.

Fixpoint run_ok (rs : list request) (u : UdsStreamScheme) : Prop :=
  match rs with [] => True | r :: rs => admissible r u /\ run_ok rs (serve r u).2 end.

Lemma run_reachable_stream rs u : uds_reachable u -> run_ok rs u -> uds_reachable (run rs u).
Proof.
  revert u. induction rs as [| r rs IH]; intros u Hu Hr; [done |]. destruct Hr as [Ha Hr].
  apply IH; [| done]. eapply rtc_r; [done |]. by constructor.
Qed.

Lemma traffic_two j r1 r2 u :
  let u1 := (serve r1 u).2 in
  admissible r1 u -> ~ ends_stream j r1 -> admissible r2 u1 -> ~ ends_stream j r2 ->
  traffic j u (sent j r1 u ++ sent j r2 u1 ++ []) (got j r1 u ++ got j r2 u1 ++ []) (run [r1; r2] u).
Proof. intros u1 H1 H2 H3 H4. repeat (constructor; [done | done |]). constructor. Qed.
End run.

Section witnesses.
#[local] Existing Instance redox_syscall.
#[local] Existing Instance x86_64_release.
#[local] Existing Instance demo_uds_abi.
#[local] Existing Instance steady_host.

#[local] Instance steady_host_laws : UdsHostLaws steady_host.
Proof. by split. Qed.

Definition demo_user : CallerCtx := {| ctx_pid := 7; ctx_uid := 0; ctx_gid := 0; ctx_id := 1 |}.

(** Socket 0 listens, socket 1 connects to it, and 2 is the accepted end. *)
Definition demo_script : list request :=
  [Q_open "" 0 demo_user; Q_call 0 (as_bytes "sock") [0] demo_user; Q_open "" 0 demo_user;
   Q_call 1 (le_bytes 8 100) [1] demo_user; Q_dup 0 (as_bytes "listen") demo_user].
Definition demo_linked : UdsStreamScheme := run demo_script Uds_new.

Lemma demo_linked_reachable : uds_reachable demo_linked.
Proof.
  apply run_reachable_stream; [apply rtc_refl |]. repeat (split; [split; [by vm_compute |]; try done |]); [| done].
  intros token r Ht Hr. vm_compute in Ht. injection Ht as <-. vm_compute in Hr. injection Hr as <-. by vm_compute.
Qed.

Definition connected_b (u : UdsStreamScheme) (j : Z) : bool :=
  match r ← sockets u !! j; heap u !! r with
  | Some s =>
      bool_decide (is_Some (connection s)) && bool_decide (state s = Established \/ state s = Accepted)
  | None => false
  end && bool_decide (map_Forall (fun _ s => j ∉ awaiting s) (heap u)).

Lemma connected_b_true u j : connected_b u j = true -> connected u j.
Proof.
  unfold connected_b, connected. intros [H1 H2]%andb_true_iff. apply bool_decide_eq_true in H2. split; [| done].
  destruct (sockets u !! j) as [r |] eqn:Hr; cbn in H1; [| done]. destruct (heap u !! r) as [s |] eqn:Hs; [| done].
  apply andb_true_iff in H1 as [[c Hc]%bool_decide_eq_true H1%bool_decide_eq_true]. by exists r, s, c.
Qed.

Lemma uds_stream_invariant_witness : inv demo_linked.
Proof. exact (uds_stream_invariant demo_linked demo_linked_reachable). Defined.

Lemma uds_stream_no_panic_witness : (serve (Q_dup 0 (as_bytes "listen") demo_user) demo_linked).1 <> Panic.
Proof.
  apply (uds_stream_no_panic demo_linked (Q_dup 0 (as_bytes "listen") demo_user) demo_linked_reachable).
  - by split; vm_compute.
  - done.
Defined.


(** Closing the accepted end takes the listener's name out of the table: the
    name can be bound again, while the first listener still listens. *)
Example close_accepted_frees_name :
  let u := run [Q_on_close 2; Q_open "" 0 demo_user] demo_linked in
  (handle_bind 3 (as_bytes "sock") demo_linked).1 = Err EADDRINUSE /\
  (handle_bind 3 (as_bytes "sock") u).1 = Ok 0 /\ (is_listening <$> heap u !! 0%nat) = Some true.
Proof. by vm_compute. Qed.

(** A receiver that announces a buffer of 2^63 bytes stops the daemon. *)
Example recvmsg_large_iov_panics :
  let u := run [Q_write 1 [x61; x62] demo_user] demo_linked in
  (serve (Q_call 2 (le_bytes 8 0 ++ le_bytes 8 (2 ^ 63) ++ le_bytes 8 0) [5] demo_user) u).1 = Panic.
Proof. by vm_compute. Qed.

(** So does a listener that connects to its own token. *)
Example connect_own_token_run :
  (serve (Q_call 0 (le_bytes 8 100) [1] demo_user) demo_linked).1 = Panic.
Proof. by vm_compute. Qed.
End witnesses.
