(* ===== verification/Initfs.v ===== *)
(** * initfs: the image and its reader

    Models [initfs/src/types.rs] and [initfs/src/lib.rs]: the layout of the
    image that the bootloader puts into memory, and access to it.  An image is
    a header, a table of inodes, and the contents, tables of directory entries
    and names that they refer to by offset.

    The structures are packed and in little-endian order.  The crate [plain]
    casts bytes to them; it is a parameter with its documented behaviour. *)

From stdpp Require Import base gmap strings list fin_maps.
From Stdlib Require Import ZArith Lia.
From Stdlib Require Import Strings.Byte.
From S2P Require Import Prelude.

Local Open Scope Z_scope.

(** [redox_initfs::Error], the one error of the reader *)
Abbreviation CORRUPT := (EOther 0).

(** ** Layout *)

Definition MAGIC : list u8 := as_bytes "RedoxFtw".

Record Timespec := { sec : Z; nsec : Z }.

Record Header := {
  magic : list u8; inode_table_offset : Z; creation_time : Timespec; inode_count : Z;
  bootstrap_entry : Z; initfs_size : Z; page_size : Z
}.
Record InodeHeader := { type_and_mode : Z; length_ : Z; offset_ : Z; i_uid : Z; i_gid : Z }.
Record DirEntry := { d_inode : Z; name_len : Z; name_offset : Z }.

Inductive InodeType := T_RegularFile | T_Dir | T_Link.

(** [ty as u32] *)
Definition type_code (t : InodeType) : Z := match t with T_RegularFile => 0 | T_Dir => 1 | T_Link => 2 end.

Definition MODE_MASK : Z := 0xFFF.
Definition TYPE_SHIFT : Z := 28.
Definition TYPE_MASK : Z := 0xF0000000.

(** [mem::size_of] *)
Definition size_of_Header : nat := 44.
Definition size_of_InodeHeader : nat := 20.
Definition size_of_DirEntry : nat := 8.

(** The bytes of the structures, and the structures in bytes. *)
Definition header_bytes (h : Header) : list u8 :=
  magic h ++ le_bytes 4 (inode_table_offset h) ++ le_bytes 8 (sec (creation_time h)) ++
  le_bytes 4 (nsec (creation_time h)) ++ le_bytes 2 (inode_count h) ++ le_bytes 8 (bootstrap_entry h) ++
  le_bytes 8 (initfs_size h) ++ le_bytes 2 (page_size h).
Definition inode_bytes (i : InodeHeader) : list u8 :=
  le_bytes 4 (type_and_mode i) ++ le_bytes 4 (length_ i) ++ le_bytes 4 (offset_ i) ++ le_bytes 4 (i_uid i) ++
  le_bytes 4 (i_gid i).
Definition dirent_bytes (d : DirEntry) : list u8 :=
  le_bytes 2 (d_inode d) ++ le_bytes 2 (name_len d) ++ le_bytes 4 (name_offset d).

(** The field of [n] bytes at [off]. *)
Definition field (off n : nat) (l : list u8) : Z := from_le (take n (drop off l)).

Definition header_of (l : list u8) : Header := {|
  magic := take 8 l; inode_table_offset := field 8 4 l;
  creation_time := {| sec := field 12 8 l; nsec := field 20 4 l |};
  inode_count := field 24 2 l; bootstrap_entry := field 26 8 l; initfs_size := field 34 8 l;
  page_size := field 42 2 l
|}.
Definition inode_of (l : list u8) : InodeHeader := {|
  type_and_mode := field 0 4 l; length_ := field 4 4 l; offset_ := field 8 4 l; i_uid := field 12 4 l;
  i_gid := field 16 4 l
|}.
Definition dirent_of (l : list u8) : DirEntry := {|
  d_inode := field 0 2 l; name_len := field 2 2 l; name_offset := field 4 4 l
|}.

(** The crate [plain]: the bytes of a structure of [n] bytes at the front of
    a slice, and of as many as a slice holds. *)
Class Plain := {
  from_bytes : nat -> list u8 -> option (list u8);
  slice_from_bytes : nat -> list u8 -> option (list (list u8))
}.

(** Structures without alignment: a slice that is too short is refused, and
    bytes that are left over are ignored. *)
Class PlainLaws (PL : Plain) : Prop := {
  from_bytes_spec n l : from_bytes n l = if (n <=? length l)%nat then Some (take n l) else None;
  slice_from_bytes_spec n l : (0 < n)%nat -> slice_from_bytes n l = Some (chunks n l)
}.

(** ** Reading *)

(** [InitFs]: the bytes of the image; [Inode] is the number *)
Abbreviation InitFs := (list u8).

Record InodeStruct := { s_fs : InitFs; s_inode : InodeHeader }.
Inductive InodeKind := K_File (s : InodeStruct) | K_Dir (s : InodeStruct) | K_Link (s : InodeStruct) | K_Unknown.
Record Entry := { e_fs : InitFs; e_entry : DirEntry }.

Section reader.
Context {TG : Target} {PL : Plain}.

(** [self.base[..n]] *)
Definition prefix (n : nat) (l : list u8) : outcome (list u8) :=
  if (n <=? length l)%nat then Ok (take n l) else Panic.

Definition get_header_assume_valid (fs : InitFs) : outcome Header :=
  l ← prefix size_of_Header fs;
  h ← o_unwrap (from_bytes size_of_Header l);
  Ok (header_of h).

(** [u32::wrapping_mul] of the count and the size of an inode *)
Definition inode_table_size (fs : InitFs) : outcome Z :=
  h ← get_header_assume_valid fs;
  Ok (inode_count h * Z.of_nat size_of_InodeHeader mod 2 ^ 32).

Definition inode_table_offset_usize (fs : InitFs) : outcome Z :=
  h ← get_header_assume_valid fs; Ok (inode_table_offset h).

Definition inode_table_end_usize (fs : InitFs) : outcome Z :=
  a ← inode_table_offset_usize fs;
  n ← inode_table_size fs;
  Ok ((a + n) mod usize_mod).

Definition base_len_32 (fs : InitFs) : Z := zlen fs mod 2 ^ 32.

(** [if b { return Err(Error) }] *)
Definition corrupt_if {A} (b : bool) (k : outcome A) : outcome A := if b then Err CORRUPT else k.

Definition InitFs_new (base : list u8) (required_page_size : option Z) : outcome InitFs :=
  corrupt_if (length base <? size_of_Header)%nat (
  corrupt_if (2 ^ 32 <=? zlen base) (
  header ← get_header_assume_valid base;
  corrupt_if (negb (bool_decide (magic header = MAGIC))) (
  let table := inode_table_offset header in
  corrupt_if (table <? Z.of_nat size_of_Header) (
  size ← inode_table_size base;
  corrupt_if (2 ^ 32 <=? table + size) (
  corrupt_if (base_len_32 base <? table + size) (
  corrupt_if (match required_page_size with Some n => negb (page_size header =? n) | None => false end) (
  Ok base))))))).

Definition image_creation_time (fs : InitFs) : outcome Timespec :=
  h ← get_header_assume_valid fs; Ok (creation_time h).

Definition inode_table (fs : InitFs) : outcome (list InodeHeader) :=
  a ← inode_table_offset_usize fs;
  b ← inode_table_end_usize fs;
  bytes ← o_unwrap (get_range a b fs);
  l ← o_unwrap (slice_from_bytes size_of_InodeHeader bytes);
  Ok (map inode_of l).

Definition get_inode (fs : InitFs) (inode : Z) : outcome (option InodeStruct) :=
  t ← inode_table fs;
  Ok ((fun i => {| s_fs := fs; s_inode := i |}) <$> t !! Z.to_nat inode).

(** [InitFs::inode_count] and [all_inodes] *)
Definition image_inode_count (fs : InitFs) : outcome Z :=
  h ← get_header_assume_valid fs; Ok (inode_count h).
Definition all_inodes (fs : InitFs) : outcome (list Z) :=
  n ← image_inode_count fs; Ok (seqZ 0 n).

(** The bytes [start..start + len] of the image. *)
Definition span (fs : InitFs) (start len : Z) : outcome (list u8) :=
  e ← o_ok_or CORRUPT (usize_checked_add start len);
  o_ok_or CORRUPT (get_range start e fs).

(** [InodeStruct::data] *)
Definition data (s : InodeStruct) : outcome (list u8) :=
  span (s_fs s) (offset_ (s_inode s)) (length_ (s_inode s)).

Definition mode (s : InodeStruct) : Z := Z.land (type_and_mode (s_inode s)) MODE_MASK.

Definition ty (s : InodeStruct) : option InodeType :=
  let raw := Z.shiftr (Z.land (type_and_mode (s_inode s)) TYPE_MASK) TYPE_SHIFT in
  if raw =? type_code T_Dir then Some T_Dir
  else if raw =? type_code T_RegularFile then Some T_RegularFile
  else if raw =? type_code T_Link then Some T_Link
  else None.

Definition kind (s : InodeStruct) : InodeKind :=
  match ty s with
  | Some T_Dir => K_Dir s
  | Some T_RegularFile => K_File s
  | Some T_Link => K_Link s
  | None => K_Unknown
  end.

(** [InodeDir::entries], [entry_count] and [get_entry] *)
Definition entries (dir : InodeStruct) : outcome (list DirEntry) :=
  bytes ← data dir;
  l ← o_unwrap (slice_from_bytes size_of_DirEntry bytes);
  Ok (map dirent_of l).

Definition entry_count (dir : InodeStruct) : outcome Z :=
  l ← entries dir; Ok (zlen l mod 2 ^ 32).

Definition get_entry (dir : InodeStruct) (idx : Z) : outcome (option Entry) :=
  l ← entries dir;
  Ok ((fun d => {| e_fs := s_fs dir; e_entry := d |}) <$> l !! Z.to_nat idx).

(** [Entry::inode] and [name] *)
Definition entry_inode (e : Entry) : Z := d_inode (e_entry e).
Definition entry_name (e : Entry) : outcome (list u8) :=
  span (e_fs e) (name_offset (e_entry e)) (name_len (e_entry e)).
End reader.
