(* ===== verification/InitfsArchive.v ===== *)
(** * initfs: making an image

    Models [initfs/archive-common/src/lib.rs], which runs on the build host: it
    reads a directory tree and writes the image that [Initfs.v] reads.

    The host's file system is a tree with what its calls return; the image is
    a file that grows when it is written past its end.  Whether the calls to the
    host succeed, and how much a read returns, are parameters.  The errors carry
    messages for the user, which the model leaves out. *)

From stdpp Require Import base gmap strings list fin_maps.
From Stdlib Require Import ZArith Lia.
From Stdlib Require Import Strings.Byte.
From S2P Require Import Prelude Initfs.

Local Open Scope Z_scope.

(** An [anyhow::Error] *)
Abbreviation FAILED := (EOther 1).

(** ** The host *)

(** An entry of a directory: its name, what it is, and the mode of its
    metadata. *)
Record Node (K : Type) := { n_name : list u8; n_kind : K; n_mode : Z }.
Arguments Build_Node {K}. Arguments n_name {K}. Arguments n_kind {K}. Arguments n_mode {K}.

(** What the host finds: [None] where a call fails.  A link has the path that
    canonicalizing its target and comparing it with the root gives. *)
Inductive HostKind :=
| H_unreadable
| H_socket | H_fifo | H_block_device | H_char_device
| H_file (contents : option (list u8))
| H_dir (children : option (list (Node HostKind)))
| H_symlink (target : option (list u8))
| H_unknown.

(** [EntryKind], with the contents of an open file *)
Inductive EntryKind :=
| EK_File (contents : list u8)
| EK_Dir (dir : list (Node EntryKind))
| EK_Link (path : list u8).

Abbreviation Dir := (list (Node EntryKind)).

(** Answers of the host by the number of calls made before: whether a call
    succeeds, and how many bytes a read returns of those it could. *)
Class HostIO := { io_ok : nat -> bool; read_len : nat -> nat -> nat }.

Definition PAGE_SIZE : Z := 4096.
Definition BUFFER_SIZE : nat := Z.to_nat 8192.

(** ** State *)

Record State := {
  file : list u8; offset : Z; max_size : Z; st_inode_count : Z; buffer : list u8; st_inode_table_offset : Z;
  calls : nat
}.

Definition set_file (x : list u8) (s : State) : State :=
  {| file := x; offset := offset s; max_size := max_size s; st_inode_count := st_inode_count s; buffer := buffer s;
     st_inode_table_offset := st_inode_table_offset s; calls := calls s |}.
Definition set_offset (x : Z) (s : State) : State :=
  {| file := file s; offset := x; max_size := max_size s; st_inode_count := st_inode_count s; buffer := buffer s;
     st_inode_table_offset := st_inode_table_offset s; calls := calls s |}.
Definition set_inode_count (x : Z) (s : State) : State :=
  {| file := file s; offset := offset s; max_size := max_size s; st_inode_count := x; buffer := buffer s;
     st_inode_table_offset := st_inode_table_offset s; calls := calls s |}.
Definition set_buffer (x : list u8) (s : State) : State :=
  {| file := file s; offset := offset s; max_size := max_size s; st_inode_count := st_inode_count s; buffer := x;
     st_inode_table_offset := st_inode_table_offset s; calls := calls s |}.
Definition set_table (x : Z) (s : State) : State :=
  {| file := file s; offset := offset s; max_size := max_size s; st_inode_count := st_inode_count s;
     buffer := buffer s; st_inode_table_offset := x; calls := calls s |}.
Definition called (s : State) : State :=
  {| file := file s; offset := offset s; max_size := max_size s; st_inode_count := st_inode_count s;
     buffer := buffer s; st_inode_table_offset := st_inode_table_offset s; calls := S (calls s) |}.

Definition initial (max : Z) : State :=
  {| file := []; offset := 0; max_size := max; st_inode_count := 1; buffer := replicate BUFFER_SIZE x00;
     st_inode_table_offset := 0; calls := 0 |}.

Record WriteResult := { w_size : Z; w_offset : Z }.

(** [u64]'s [next_multiple_of] *)
Definition next_multiple_of {S} `{Target} (x n : Z) : M S Z :=
  if x mod n =? 0 then mret x else arith 64 (x + (n - x mod n)).

(** [x.try_into()] to a [bits]-wide unsigned integer *)
Definition try_into {S} (bits x : Z) : M S Z := if x <? 2 ^ bits then mret x else throw FAILED.

(** Bytes written into a file at an offset: a hole before them reads as
    zeros. *)
Definition pwrite (off : nat) (b f : list u8) : list u8 :=
  match b with
  | [] => f
  | _ => take off (f ++ replicate (off - length f) x00) ++ b ++ drop (off + length b) f
  end.

Section archive.
Context {TG : Target} {HIO : HostIO}.

(** A call to the host *)
Definition io : M State nat :=
  n ← gets calls; modify called;; if io_ok n then mret n else throw FAILED.

Definition write_all_at (buf : list u8) (off : Z) : M State unit :=
  _ ← io; modify (fun s => set_file (pwrite (Z.to_nat off) buf (file s)) s).

(** ** Reading the source *)

Definition count_inode : M State unit :=
  n ← gets st_inode_count;
  if n + 1 <? 2 ^ 16 then modify (set_inode_count (n + 1)) else throw FAILED.

Section read_entries.
Context (read_kind : HostKind -> M State EntryKind).

(** The iteration of [read_directory] over the entries. *)
Fixpoint read_entries (l : list (Node HostKind)) : M State Dir :=
  match l with
  | [] => mret []
  | e :: l =>
      x ← read_kind (n_kind e);
      count_inode;;
      rest ← read_entries l;
      mret (Build_Node (n_name e) x (n_mode e) :: rest)
  end.
End read_entries.

(** The kind of an entry; a directory's own entries are counted first. *)
Fixpoint read_kind (k : HostKind) : M State EntryKind :=
  match k with
  | H_file (Some c) => mret (EK_File c)
  | H_dir (Some children) => d ← read_entries read_kind children; mret (EK_Dir d)
  | H_symlink (Some path) => mret (EK_Link path)
  | _ => throw FAILED
  end.

(** [read_directory] *)
Definition read_directory (children : option (list (Node HostKind))) : M State Dir :=
  match children with Some l => read_entries read_kind l | None => throw FAILED end.

(** ** Writing *)

Definition bump_alloc (size : Z) : M State Z :=
  o ← gets offset;
  e ← arith 64 (o + size);
  e ← next_multiple_of e PAGE_SIZE;
  m ← gets max_size;
  if e <=? m then modify (set_offset e);; mret o else throw FAILED.

(** [u32] addition *)
Definition u32_add {S} (a b : Z) : M S Z := arith 32 (a + b).

(** [file.read(&mut state.buffer[..n])] of the file [c] at [pos]: the number
    of bytes read. *)
Definition read_chunk (c : list u8) (pos n : nat) : M State nat :=
  t ← io;
  b ← gets buffer;
  let avail := (n `min` (length c - pos))%nat in
  let k := (read_len t avail `min` avail)%nat in
  modify (set_buffer (splice 0 (take k (drop pos c)) b));;
  mret k.

(** The body of the loop of [allocate_and_write_file], the file's cursor at
    [pos]: the next offset, and the cursor. *)
Definition copy_turn (c : list u8) (size off relative : Z) (pos : nat) : M State (Z * nat) :=
  b ← gets buffer;
  let allowed := Z.min (zlen b) (size - relative) in
  k ← read_chunk c pos (Z.to_nat allowed);
  b ← gets buffer;
  a ← u32_add off relative;
  write_all_at (take (Z.to_nat allowed) b) a;;
  relative ← u32_add relative (zlen b);
  mret (relative, (pos + k)%nat).

(** The loop; [None] when it has not ended within the fuel. *)
Fixpoint copy_loop (fuel : nat) (c : list u8) (size off relative : Z) (pos : nat) : M State (option unit) :=
  match fuel with
  | O => mret None
  | S fuel =>
      if relative <? size then
        q ← copy_turn c size off relative pos;
        copy_loop fuel c size off q.1 q.2
      else mret (Some tt)
  end.

(** A turn of the loop passes a buffer, so the size is fuel enough for files
    that end a buffer below 4 GiB; the size of a longer one wraps. *)
Definition allocate_and_write_file (c : list u8) : M State WriteResult :=
  _ ← io;
  size ← try_into 32 (zlen c);
  o ← bump_alloc size;
  off ← try_into 32 o;
  _ ← io;
  r ← copy_loop (S (length c)) c size off 0 0;
  unwrap r;;
  mret {| w_size := size; w_offset := off |}.

Definition allocate_and_write_link (link : list u8) : M State WriteResult :=
  (if zlen link <? 2 ^ 32 then mret tt else panic);;
  o ← bump_alloc (zlen link);
  off ← try_into 32 o;
  write_all_at link off;;
  mret {| w_size := zlen link; w_offset := off |}.

Definition write_inode (ty : InodeType) (mode : Z) (w : WriteResult) (inode : Z) : M State unit :=
  t ← gets st_inode_table_offset;
  a ← u32_add t (inode * Z.of_nat size_of_InodeHeader);
  write_all_at
    (inode_bytes {| type_and_mode := Z.lor (Z.shiftl (type_code ty) TYPE_SHIFT) (Z.land mode 0xFFF);
                    length_ := w_size w; offset_ := w_offset w; i_uid := 0; i_gid := 0 |}) a.

Definition write_name (name : list u8) : M State (Z * Z) :=
  name_len ← try_into 16 (zlen name);
  o ← bump_alloc name_len;
  off ← try_into 32 o;
  write_all_at name off;;
  mret (off, name_len).

(** The state, and the inode that was given out last. *)
Definition on_state {A} (m : M State A) : M (State * Z) A := zoom fst (fun s x => (s, x.2)) m.

(** [*current_inode += 1] *)
Definition next_inode : M (State * Z) Z :=
  i ← gets snd; i ← arith 16 (i + 1); modify (fun x => (x.1, i));; mret i.

(** The part of [allocate_and_write_dir] that follows an entry's contents. *)
Definition link_entry (table index : Z) (e : Node EntryKind) (w : WriteResult) (ty : InodeType)
    : M (State * Z) unit :=
  inode ← next_inode;
  on_state (write_inode ty (n_mode e) w inode);;
  q ← on_state (write_name (n_name e));
  a ← u32_add table (index * Z.of_nat size_of_DirEntry);
  on_state (write_all_at (dirent_bytes {| d_inode := inode; name_len := q.2; name_offset := q.1 |}) a).

Section write_entries.
Context (write_contents : EntryKind -> M (State * Z) (WriteResult * InodeType)) (table : Z).

(** The loop of [allocate_and_write_dir] from the entry [index] on. *)
Fixpoint write_entries (l : Dir) (index : Z) : M (State * Z) unit :=
  match l with
  | [] => mret tt
  | e :: l =>
      r ← write_contents (n_kind e);
      link_entry table index e r.1 r.2;;
      write_entries l (index + 1)
  end.
End write_entries.

(** The contents of an entry, and [allocate_and_write_dir] for a directory. *)
Fixpoint write_contents (k : EntryKind) : M (State * Z) (WriteResult * InodeType) :=
  match k with
  | EK_File c => w ← on_state (allocate_and_write_file c); mret (w, T_RegularFile)
  | EK_Link path => w ← on_state (allocate_and_write_link path); mret (w, T_Link)
  | EK_Dir dir =>
      entry_count ← try_into 16 (zlen dir);
      let table_length := entry_count * Z.of_nat size_of_DirEntry in
      o ← on_state (bump_alloc table_length);
      table ← try_into 32 o;
      write_entries write_contents table dir 0;;
      mret ({| w_size := table_length; w_offset := table |}, T_Dir)
  end.

Definition allocate_and_write_dir (dir : Dir) : M (State * Z) WriteResult :=
  r ← write_contents (EK_Dir dir); mret r.1.

Definition allocate_contents_and_write_inodes (dir : Dir) (root_mode : Z) : M State unit := fun s =>
  let '(r, (s', _)) := allocate_and_write_dir dir (s, 0) in
  match r with
  | Ok w => write_inode T_Dir root_mode w 0 s'
  | Err e => (Err e, s')
  | Panic => (Panic, s')
  end.

(** ** The image *)

Definition from_be (l : list u8) : Z := from_le (rev l).

(** [data[i]], and [data[a..a + n]] *)
Definition byte_at (i : nat) (d : list u8) : outcome Z := b ← o_unwrap (d !! i); Ok (Z_of_byte b).
Definition bytes_from (a n : nat) (d : list u8) : outcome (list u8) :=
  o_unwrap (get_range (Z.of_nat a) (Z.of_nat (a + n)) d).

Definition elf_entry (d : list u8) : outcome Z :=
  m ← bytes_from 0 4 d;
  if negb (bool_decide (m = [x7f; x45; x4c; x46])) then Panic else
  class ← byte_at 4 d;
  order ← byte_at 5 d;
  match class, order with
  | 1, 1 => b ← bytes_from 0x18 4 d; Ok (from_le b)
  | 1, 2 => b ← bytes_from 0x18 4 d; Ok (from_be b)
  | 2, 1 => b ← bytes_from 0x18 8 d; Ok (from_le b)
  | 2, 2 => b ← bytes_from 0x18 8 d; Ok (from_be b)
  | _, _ => Panic
  end.

(** What [archive] is given: the source directory with the mode of its
    metadata, the contents of the bootstrap file, and the time. *)
Record Args := {
  a_max_size : Z; source : option (list (Node HostKind)); root_mode : Z;
  bootstrap_code : option (list u8); now : Timespec
}.

(** The bootstrap code is written behind the header, and its entry point. *)
Definition write_bootstrap (code : option (list u8)) : M State Z :=
  match code with
  | Some c => _ ← io; _ ← allocate_and_write_file c; _ ← io; lift (elf_entry c)
  | None => mret (2 ^ 64 - 1)
  end.

Definition write_header (entry table : Z) (time : Timespec) (header_offset : Z) : M State unit :=
  _ ← io;
  n ← gets st_inode_count;
  f ← gets file;
  write_all_at
    (header_bytes {| magic := MAGIC; inode_table_offset := table; creation_time := time;
                     inode_count := n; bootstrap_entry := entry; initfs_size := zlen f;
                     page_size := PAGE_SIZE |}) header_offset.

Definition build (a : Args) : M State unit :=
  root ← read_directory (source a);
  header_offset ← bump_alloc 4096;
  (if header_offset =? 0 then mret tt else panic);;
  entry ← write_bootstrap (bootstrap_code a);
  n ← gets st_inode_count;
  o ← bump_alloc (n * Z.of_nat size_of_InodeHeader);
  table ← try_into 32 o;
  modify (set_table table);;
  allocate_contents_and_write_inodes root (root_mode a);;
  write_header entry table (now a) header_offset;;
  _ ← io;
  mret tt.

(** The image that [archive] leaves; a failure removes the unfinished file. *)
Definition archive (a : Args) : outcome (list u8) :=
  match build a (initial (a_max_size a)) with
  | (Ok _, s) => Ok (file s)
  | (Err e, _) => Err e
  | (Panic, _) => Panic
  end.
End archive.
