(* ===== verification/InitfsScheme.v ===== *)
(** * initfs: the scheme

    Models [bootstrap/src/initfs.rs]: the scheme that serves the image of
    [Initfs.v] before there is a file system.  The C entry points at its end only
    call the kernel. *)

From stdpp Require Import base gmap strings list fin_maps.
From Stdlib Require Import ZArith Lia.
From Stdlib Require Import Strings.Byte.
From S2P Require Import Prelude Syscall Initfs.

Local Open Scope Z_scope.

(** What the scheme takes from elsewhere: flags of the system, the address of
    the image, and [redox_path]'s canonical form of a path below a directory. *)
Class InitfsEnv := {
  O_SYMLINK : Z; PROT_WRITE : Z; image_address : Z;
  canonicalize_to_standard : option string -> string -> option string
}.

Record Handle := { h_inode : Z; filename : string }.
Record InitFsScheme := { handles : gmap Z Handle; next_id : Z; fs : InitFs }.

Definition set_handles (x : gmap Z Handle) (s : InitFsScheme) : InitFsScheme :=
  {| handles := x; next_id := next_id s; fs := fs s |}.
Definition set_next_id (x : Z) (s : InitFsScheme) : InitFsScheme :=
  {| handles := handles s; next_id := x; fs := fs s |}.

Section scheme.
Context {TG : Target} {SC : Syscall} {PL : Plain} {IE : InitfsEnv}.

(** [InitFsScheme::new]; a page size that is no [u16], or an image that does
    not parse, panics. *)
Definition InitFsScheme_new (bytes : list u8) : outcome InitFsScheme :=
  p ← o_unwrap (try_into_bits 16 PAGE_SIZE);
  match InitFs_new bytes (Some p) with
  | Ok fs => Ok {| handles := ∅; next_id := 0; fs := fs |}
  | _ => Panic
  end.

Definition map_err {A} (e : errno) (o : outcome A) : outcome A :=
  match o with Err _ => Err e | r => r end.

Definition get_inode (fs : InitFs) (inode : Z) : outcome InodeStruct :=
  i ← Initfs.get_inode fs inode; o_ok_or EIO i.

Definition take_id : M InitFsScheme Z :=
  n ← gets next_id;
  (if n =? usize_mod - 1 then panic else mret tt);;
  n ← usize_add n 1;
  modify (set_next_id n);; mret n.

(** ** Directories *)

(** [Iter::next]: the directory's entry at the index, the index after it.
    A directory that cannot be read yields errors without end. *)
Definition iter_next (dir : InodeStruct) (idx : Z) : outcome (option (outcome Entry) * Z) :=
  match map_err EIO (get_entry dir idx) with
  | Panic => Panic
  | e =>
      next ← (arith (S := unit) 32 (idx + 1) tt).1;
      Ok (match e with Ok None => None | Ok (Some x) => Some (Ok x) | Err er => Some (Err er) | Panic => None end,
          next)
  end.

(** The sum of [inode_len] over a directory; [None] when it has not ended
    within the fuel. *)
Fixpoint dir_len (fuel : nat) (dir : InodeStruct) (idx len : Z) : option (outcome Z) :=
  match fuel with
  | O => None
  | S fuel =>
      match iter_next dir idx with
      | Ok (None, _) => Some (Ok len)
      | Ok (Some e, idx) =>
          match (match (entry ← e; map_err EIO (entry_name entry)) with
                 | Ok name => Ok (zlen name + 1) | Err _ => Ok 0 | Panic => Panic end) with
          | Ok n =>
              match (usize_add (S := unit) len n tt).1 with
              | Ok len => dir_len fuel dir idx len
              | Err e => Some (Err e)
              | Panic => Some Panic
              end
          | Err e => Some (Err e)
          | Panic => Some Panic
          end
      | Err e => Some (Err e)
      | Panic => Some Panic
      end
  end.

Definition inode_len (fuel : nat) (inode : InodeStruct) : option (outcome Z) :=
  match kind inode with
  | K_File f => Some (d ← map_err EIO (data f); Ok (zlen d))
  | K_Dir dir => dir_len fuel dir 0 0
  | K_Link l => Some (d ← map_err EIO (data l); Ok (zlen d))
  | K_Unknown => Some (Err EIO)
  end.

(** The [loop] of [open] over the entries of a directory, for the component
    [c]; [None] when it has not ended within the fuel. *)
Fixpoint find_entry (fuel : nat) (dir : InodeStruct) (idx : Z) (c : list u8) : option (outcome Z) :=
  match fuel with
  | O => None
  | S fuel =>
      match iter_next dir idx with
      | Ok (None, _) => Some (Err ENOENT)
      | Ok (Some (Ok entry), idx) =>
          match map_err EIO (entry_name entry) with
          | Ok name => if bool_decide (name = c) then Some (Ok (entry_inode entry)) else find_entry fuel dir idx c
          | Err e => Some (Err e)
          | Panic => Some Panic
          end
      | Ok (Some (Err e), _) => Some (Err e)
      | Ok (Some Panic, _) => Some Panic
      | Err e => Some (Err e)
      | Panic => Some Panic
      end
  end.

(** How many entries a directory has: with one turn more the loop ends. *)
Definition entries_len (dir : InodeStruct) : nat := match entries dir with Ok l => length l | _ => 0 end.

Definition look_up (dir : InodeStruct) (c : list u8) : outcome Z :=
  default Panic (find_entry (S (entries_len dir)) dir 0 c).

(** ** Paths *)

Definition path_components (path : string) : list string :=
  filter (fun c => str_is_empty c = false) (split_char slash (trim_matches slash path)).

(** The [while let] of [open]; a [..] takes the last component away.  Every
    turn takes a component, so their number is fuel enough. *)
Fixpoint walk (fuel : nat) (fs : InitFs) (current : Z) (components : list string) : outcome Z :=
  match fuel, components with
  | _, [] => Ok current
  | O, _ => Panic
  | S fuel, c :: rest =>
      if bool_decide (c = ".") then walk fuel fs current rest
      else if bool_decide (c = "..") then walk fuel fs current (removelast rest)
      else
        s ← get_inode fs current;
        match kind s with
        | K_Dir dir => i ← look_up dir (as_bytes c); walk fuel fs i rest
        | K_Link _ => Err EOPNOTSUPP
        | K_File _ | K_Unknown => Err ENOENT
        end
  end.

Definition open_inode (fs : InitFs) (path : string) : outcome Z :=
  let components := path_components path in walk (length components) fs 0 components.

(** ** The methods of the trait *)

Definition handle_at (id : Z) : M InitFsScheme Handle := h ← gets handles; ok_or EBADF (h !! id).

Definition open (path : string) (flags : Z) : M InitFsScheme OpenResult :=
  f ← gets fs;
  current_inode ← lift (open_inode f path);
  s ← lift (get_inode f current_inode);
  let is_link := match kind s with K_Link _ => true | _ => false end in
  let o_symlink := any_set flags O_SYMLINK in
  fail_if (is_link && negb o_symlink) EXDEV;;
  id ← take_id;
  old ← gets (fun x => handles x !! id);
  modify (fun x => set_handles (<[id := {| h_inode := current_inode; filename := path |}]> (handles x)) x);;
  match old with
  | None => mret (ThisScheme id fd_POSITIONED)
  | Some _ => panic
  end.

(** [data[min(offset, len)..]] copied to the front of the buffer *)
Definition copy_out (offset : Z) (data buffer : list u8) : Z * list u8 :=
  let src_buf := drop (Z.to_nat (Z.min offset (zlen data))) data in
  let to_copy := (length src_buf `min` length buffer)%nat in
  (Z.of_nat to_copy, copy_prefix to_copy src_buf buffer).

Definition read (id : Z) (buffer : list u8) (offset : Z) : M InitFsScheme (Z * list u8) :=
  match usize_try_from offset with
  | None => mret (0, buffer)
  | Some offset =>
      handle ← handle_at id;
      f ← gets fs;
      s ← lift (get_inode f (h_inode handle));
      match kind s with
      | K_File file => d ← lift (map_err EIO (data file)); mret (copy_out offset d buffer)
      | K_Dir _ => throw EISDIR
      | K_Link link =>
          link_data ← lift (map_err EIO (data link));
          path ← ok_or ENOENT (from_utf8 link_data);
          canonical ← ok_or ENOENT (canonicalize_to_standard (Some "/"%string) path);
          mret (copy_out offset (as_bytes canonical) buffer)
      | K_Unknown => throw EIO
      end
  end.

(** The [for] loop of [getdents] against [DirentBuf::entry]; [None] when it
    has not ended within the fuel. *)
Fixpoint emit_dents {B} (entry : B -> Syscall.DirEntry -> outcome B) (fuel : nat) (dir : InodeStruct) (idx index : Z)
    (buf : B) : option (outcome B) :=
  match fuel with
  | O => None
  | S fuel =>
      match iter_next dir idx with
      | Ok (None, _) => Some (Ok buf)
      | Ok (Some e, idx) =>
          match (e ← e;
                 name ← (match entry_name e with
                         | Ok l => o_ok_or EIO (from_utf8 l) | Err _ => Err EIO | Panic => Panic end);
                 entry buf {| de_inode := 0; de_name := name; de_next_opaque_id := index + 1 |}) with
          | Ok buf => emit_dents entry fuel dir idx (index + 1) buf
          | Err e => Some (Err e)
          | Panic => Some Panic
          end
      | Err e => Some (Err e)
      | Panic => Some Panic
      end
  end.

Definition getdents {B} (entry : B -> Syscall.DirEntry -> outcome B) (id : Z) (buf : B) (opaque_offset : Z)
    : M InitFsScheme B :=
  if 2 ^ 32 <=? opaque_offset then mret buf
  else
    handle ← handle_at id;
    f ← gets fs;
    s ← lift (get_inode f (h_inode handle));
    match kind s with
    | K_Dir dir =>
        lift (default Panic (emit_dents entry (S (entries_len dir)) dir opaque_offset 0 buf))
    | _ => throw ENOTDIR
    end.

(** [None] when the length of a directory has not been found within the fuel. *)
Definition fsize (fuel : nat) (id : Z) : M InitFsScheme (option Z) :=
  handle ← handle_at id;
  f ← gets fs;
  s ← lift (get_inode f (h_inode handle));
  match inode_len fuel s with
  | None => mret None
  | Some o => n ← lift o; mret (Some n)
  end.

Definition fcntl (id : Z) : M InitFsScheme Z := _ ← handle_at id; mret 0.

Definition fpath (id : Z) (buf : list u8) : M InitFsScheme (Z * list u8) :=
  handle ← handle_at id;
  let scheme_path := as_bytes "/scheme/initfs" in
  let scheme_bytes := (length scheme_path `min` length buf)%nat in
  let buf := copy_prefix scheme_bytes scheme_path buf in
  let source := as_bytes (filename handle) in
  let path_bytes := ((length buf - scheme_bytes) `min` length source)%nat in
  mret (Z.of_nat (scheme_bytes + path_bytes), splice scheme_bytes (take path_bytes source) buf).

(** The fields that are not set are those of the caller's. *)
Definition fstat (fuel : nat) (id : Z) (stat : Stat) : M InitFsScheme (option Stat) :=
  handle ← handle_at id;
  f ← gets fs;
  time ← lift (image_creation_time f);
  inode ← lift (get_inode f (h_inode handle));
  match inode_len fuel inode with
  | None => mret None
  | Some o =>
      size ← lift o;
      let file_type := match kind inode with K_Dir _ => MODE_DIR | K_File _ => MODE_FILE | _ => 0 end in
      mret (Some {| st_mode := Z.lor (mode inode) file_type; st_uid := i_uid (s_inode inode);
                    st_gid := i_gid (s_inode inode); st_ino := st_ino stat; st_nlink := st_nlink stat;
                    st_dev := st_dev stat; st_size := size;
                    st_blksize := st_blksize stat; st_blocks := st_blocks stat;
                    st_atime := st_atime stat; st_atime_nsec := st_atime_nsec stat;
                    st_ctime := sec time; st_ctime_nsec := nsec time;
                    st_mtime := sec time; st_mtime_nsec := nsec time |})
  end.

Definition fsync (id : Z) : M InitFsScheme unit :=
  h ← gets handles; fail_if (negb (bool_decide (is_Some (h !! id)))) EBADF.

(** [len.next_multiple_of(PAGE_SIZE)] on [usize] *)
Definition page_round {S} (n : Z) : M S Z :=
  if n mod PAGE_SIZE =? 0 then mret n else usize_add n (PAGE_SIZE - n mod PAGE_SIZE).

Definition mmap_prep (id offset size flags : Z) : M InitFsScheme Z :=
  handle ← handle_at id;
  f ← gets fs;
  s ← lift (get_inode f (h_inode handle));
  match kind s with
  | K_File file =>
      d ← lift (map_err EIO (data file));
      fail_if (all_set flags PROT_WRITE) EPERM;;
      last_addr ← ok_or EINVAL (try_into_bits 64 (offset + size));
      n ← page_round (zlen d);
      fail_if (n <? last_addr) EINVAL;;
      mret (image_address + offset_ (s_inode file))
  | K_Dir _ => throw EISDIR
  | K_Link _ => throw ELOOP
  | K_Unknown => throw EIO
  end.

(** [RequestKind::OnClose] in [run] *)
Definition on_close (id : Z) : M InitFsScheme unit := modify (fun x => set_handles (delete id (handles x)) x).
End scheme.
