(* ===== verification/InitfsFacts.v ===== *)
(** * initfs: what the scheme promises

    An abstract specification of the initfs scheme: handles refer to entries of
    the source tree, and every answer is read off the tree.  There are no
    inodes, offsets or bytes of an image.  [InitfsSchemeFacts.v] shows that the
    scheme on an image gives the answers of this one.

    The structures decode as they were encoded; what bytes of a file are known
    after writes into it; what the reader finds where the bytes are known. *)

From stdpp Require Import base gmap strings list fin_maps.
From Stdlib Require Import ZArith Lia.
From Stdlib Require Import Strings.Byte.
From S2P Require Import Prelude Memory Syscall Initfs InitfsArchive InitfsScheme.

Local Open Scope Z_scope.

(** ** Paths in a tree *)

(** The first entry of that name *)
Fixpoint find_child (c : list u8) (l : Dir) : option (Node EntryKind) :=
  match l with
  | [] => None
  | e :: l => if bool_decide (n_name e = c) then Some e else find_child c l
  end.

Fixpoint tree_walk (e : Node EntryKind) (components : list string) : outcome (Node EntryKind) :=
  match components with
  | [] => Ok e
  | c :: rest =>
      match n_kind e with
      | EK_Dir l =>
          match find_child (as_bytes c) l with Some e => tree_walk e rest | None => Err ENOENT end
      | EK_Link _ => Err EOPNOTSUPP
      | EK_File _ => Err ENOENT
      end
  end.

(** The components without [.] and [..], the way the scheme takes them away:
    [..] drops the last component of the path. *)
Fixpoint plain (fuel : nat) (components : list string) : list string :=
  match fuel, components with
  | _, [] | O, _ => []
  | S fuel, c :: rest =>
      if bool_decide (c = ".") then plain fuel rest
      else if bool_decide (c = "..") then plain fuel (removelast rest)
      else c :: plain fuel rest
  end.

(** ** The scheme on a tree *)

Record TreeScheme := { t_handles : gmap Z (Node EntryKind * string); t_next_id : Z }.

Section tree.
Context {TG : Target} {SC : Syscall} {IE : InitfsEnv}.
Context (root : Node EntryKind) (time : Timespec).

Definition t_node (id : Z) : M TreeScheme (Node EntryKind) :=
  h ← gets t_handles; x ← ok_or EBADF (h !! id); mret x.1.

Definition t_open (path : string) (flags : Z) : M TreeScheme OpenResult :=
  let components := path_components path in
  e ← lift (tree_walk root (plain (length components) components));
  fail_if (match n_kind e with EK_Link _ => negb (any_set flags O_SYMLINK) | _ => false end) EXDEV;;
  n ← gets t_next_id;
  (if n =? usize_mod - 1 then panic else mret tt);;
  modify (fun s => {| t_handles := <[n + 1 := (e, path)]> (t_handles s); t_next_id := n + 1 |});;
  mret (ThisScheme (n + 1) fd_POSITIONED).

Definition t_read (id : Z) (buffer : list u8) (offset : Z) : M TreeScheme (Z * list u8) :=
  match usize_try_from offset with
  | None => mret (0, buffer)
  | Some offset =>
      e ← t_node id;
      match n_kind e with
      | EK_File c => mret (copy_out offset c buffer)
      | EK_Dir _ => throw EISDIR
      | EK_Link p =>
          path ← ok_or ENOENT (from_utf8 p);
          canonical ← ok_or ENOENT (canonicalize_to_standard (Some "/"%string) path);
          mret (copy_out offset (as_bytes canonical) buffer)
      end
  end.

(** The entries from an offset on, numbered from 1. *)
Fixpoint t_emit {B} (entry : B -> Syscall.DirEntry -> outcome B) (l : Dir) (index : Z) (buf : B) : outcome B :=
  match l with
  | [] => Ok buf
  | e :: l =>
      name ← o_ok_or EIO (from_utf8 (n_name e));
      buf ← entry buf {| de_inode := 0; de_name := name; de_next_opaque_id := index + 1 |};
      t_emit entry l (index + 1) buf
  end.

(** The last offset overflows the index of a checked build. *)
Definition t_getdents {B} (entry : B -> Syscall.DirEntry -> outcome B) (id : Z) (buf : B) (opaque_offset : Z)
    : M TreeScheme B :=
  if 2 ^ 32 <=? opaque_offset then mret buf
  else
    e ← t_node id;
    match n_kind e with
    | EK_Dir l =>
        if (opaque_offset =? 2 ^ 32 - 1) && overflow_checks then panic
        else lift (t_emit entry (drop (Z.to_nat opaque_offset) l) 0 buf)
    | _ => throw ENOTDIR
    end.

Definition t_len (k : EntryKind) : Z :=
  match k with
  | EK_File c => zlen c
  | EK_Link p => zlen p
  | EK_Dir l => foldr (fun e n => zlen (n_name e) + 1 + n) 0 l
  end.

Definition t_fsize (id : Z) : M TreeScheme Z := e ← t_node id; mret (t_len (n_kind e)).

Definition t_fstat (id : Z) (stat : Stat) : M TreeScheme Stat :=
  e ← t_node id;
  let file_type := match n_kind e with EK_Dir _ => MODE_DIR | EK_File _ => MODE_FILE | _ => 0 end in
  mret {| st_mode := Z.lor (n_mode e mod 2 ^ 12) file_type; st_uid := 0; st_gid := 0; st_ino := st_ino stat;
          st_nlink := st_nlink stat; st_dev := st_dev stat; st_size := t_len (n_kind e);
          st_blksize := st_blksize stat; st_blocks := st_blocks stat; st_atime := st_atime stat;
          st_atime_nsec := st_atime_nsec stat; st_ctime := sec time; st_ctime_nsec := nsec time;
          st_mtime := sec time; st_mtime_nsec := nsec time |}.

Definition t_fpath (id : Z) (buf : list u8) : M TreeScheme (Z * list u8) :=
  h ← gets t_handles;
  x ← ok_or EBADF (h !! id);
  let path := as_bytes "/scheme/initfs" ++ as_bytes x.2 in
  let n := (length path `min` length buf)%nat in
  mret (Z.of_nat n, copy_prefix n path buf).

Definition t_known (id : Z) : M TreeScheme unit := _ ← t_node id; mret tt.

Definition t_close (id : Z) : M TreeScheme unit :=
  modify (fun s => {| t_handles := delete id (t_handles s); t_next_id := t_next_id s |}).
End tree.

(** ** Calls *)

Inductive Call (B : Type) :=
| C_open (path : string) (flags : Z)
| C_read (id : Z) (buffer : list u8) (offset : Z)
| C_getdents (id : Z) (buf : B) (opaque_offset : Z)
| C_fsize (id : Z)
| C_fstat (id : Z) (stat : Stat)
| C_fpath (id : Z) (buf : list u8)
| C_fcntl (id : Z)
| C_fsync (id : Z)
| C_close (id : Z).
Arguments C_open {B}. Arguments C_read {B}. Arguments C_getdents {B}. Arguments C_fsize {B}. Arguments C_fstat {B}.
Arguments C_fpath {B}. Arguments C_fcntl {B}. Arguments C_fsync {B}. Arguments C_close {B}.

Inductive Answer (B : Type) :=
| A_open (r : OpenResult)
| A_bytes (n : Z) (buf : list u8)
| A_dents (buf : B)
| A_num (n : Z)
| A_stat (st : Stat)
| A_done
| A_runs_on.
Arguments A_open {B}. Arguments A_bytes {B}. Arguments A_dents {B}. Arguments A_num {B}. Arguments A_stat {B}.
Arguments A_done {B}. Arguments A_runs_on {B}.

Section calls.
Context {TG : Target} {SC : Syscall} {PL : Plain} {IE : InitfsEnv}.
Context {B : Type} (entry : B -> Syscall.DirEntry -> outcome B).

Definition bytes_answer {S} (m : M S (Z * list u8)) : M S (Answer B) := r ← m; mret (A_bytes r.1 r.2).

(** A call on the image, with the fuel for the lengths of directories. *)
Definition image_call (fuel : nat) (c : Call B) : M InitFsScheme (Answer B) :=
  match c with
  | C_open path flags => r ← open path flags; mret (A_open r)
  | C_read id buffer offset => bytes_answer (read id buffer offset)
  | C_getdents id buf offset => b ← getdents entry id buf offset; mret (A_dents b)
  | C_fsize id => n ← fsize fuel id; mret (from_option A_num A_runs_on n)
  | C_fstat id stat => st ← fstat fuel id stat; mret (from_option A_stat A_runs_on st)
  | C_fpath id buf => bytes_answer (fpath id buf)
  | C_fcntl id => n ← fcntl id; mret (A_num n)
  | C_fsync id => fsync id;; mret A_done
  | C_close id => on_close id;; mret A_done
  end.

Definition tree_call (root : Node EntryKind) (time : Timespec) (c : Call B) : M TreeScheme (Answer B) :=
  match c with
  | C_open path flags => r ← t_open root path flags; mret (A_open r)
  | C_read id buffer offset => bytes_answer (t_read id buffer offset)
  | C_getdents id buf offset => b ← t_getdents entry id buf offset; mret (A_dents b)
  | C_fsize id => n ← t_fsize id; mret (A_num n)
  | C_fstat id stat => st ← t_fstat time id stat; mret (A_stat st)
  | C_fpath id buf => bytes_answer (t_fpath id buf)
  | C_fcntl id => t_known id;; mret (A_num 0)
  | C_fsync id => t_known id;; mret A_done
  | C_close id => t_close id;; mret A_done
  end.

(** The answers to a sequence of calls; a panic ends it. *)
Fixpoint answers {S} (step : Call B -> M S (Answer B)) (l : list (Call B)) (s : S) : list (outcome (Answer B)) :=
  match l with
  | [] => []
  | c :: l =>
      let '(r, s) := step c s in
      r :: match r with Panic => [] | _ => answers step l s end
  end.
End calls.

(** ** Structures *)

Lemma field_app pre n x post off :
  length pre = off -> 0 <= x < 256 ^ Z.of_nat n -> field off n (pre ++ le_bytes n x ++ post) = x.
Proof.
  intros <- Hx. unfold field. rewrite drop_app_length, take_app_length' by (by rewrite length_le_bytes).
  rewrite from_le_bytes. by apply Z.mod_small.
Qed.

Record dirent_fits (d : DirEntry) : Prop := {
  df_inode : 0 <= d_inode d < 2 ^ 16; df_len : 0 <= name_len d < 2 ^ 16; df_offset : 0 <= name_offset d < 2 ^ 32
}.
Record inode_fits (i : InodeHeader) : Prop := {
  if_type : 0 <= type_and_mode i < 2 ^ 32; if_length : 0 <= length_ i < 2 ^ 32; if_offset : 0 <= offset_ i < 2 ^ 32;
  if_uid : 0 <= i_uid i < 2 ^ 32; if_gid : 0 <= i_gid i < 2 ^ 32
}.
Record header_fits (h : Header) : Prop := {
  hf_magic : length (magic h) = 8%nat; hf_table : 0 <= inode_table_offset h < 2 ^ 32;
  hf_sec : 0 <= sec (creation_time h) < 2 ^ 64; hf_nsec : 0 <= nsec (creation_time h) < 2 ^ 32;
  hf_count : 0 <= inode_count h < 2 ^ 16; hf_entry : 0 <= bootstrap_entry h < 2 ^ 64;
  hf_size : 0 <= initfs_size h < 2 ^ 64; hf_page : 0 <= page_size h < 2 ^ 16
}.

Lemma length_dirent_bytes d : length (dirent_bytes d) = size_of_DirEntry.
Proof. unfold dirent_bytes. by rewrite !length_app, !length_le_bytes. Qed.

Lemma length_inode_bytes i : length (inode_bytes i) = size_of_InodeHeader.
Proof. unfold inode_bytes. by rewrite !length_app, !length_le_bytes. Qed.

Lemma length_header_bytes h : length (magic h) = 8%nat -> length (header_bytes h) = size_of_Header.
Proof. intros Hm. unfold header_bytes. by rewrite !length_app, !length_le_bytes, Hm. Qed.

(** A field behind fields of known lengths. *)
Lemma field_at pre n x post off l :
  l = pre ++ le_bytes n x ++ post -> length pre = off -> 0 <= x < 256 ^ Z.of_nat n -> field off n l = x.
Proof. intros ->. apply field_app. Qed.

Lemma dirent_roundtrip d : dirent_fits d -> dirent_of (dirent_bytes d) = d.
Proof.
  intros [H1 H2 H3]. destruct d as [i n o]. unfold dirent_of, dirent_bytes in *. cbn [d_inode name_len name_offset] in *.
  f_equal.
  - by apply (field_at [] 2 i (le_bytes 2 n ++ le_bytes 4 o)).
  - by apply (field_at (le_bytes 2 i) 2 n (le_bytes 4 o)).
  - apply (field_at (le_bytes 2 i ++ le_bytes 2 n) 4 o []); [by rewrite app_nil_r, <- app_assoc | done | done].
Qed.

Lemma inode_roundtrip i : inode_fits i -> inode_of (inode_bytes i) = i.
Proof.
  intros [H1 H2 H3 H4 H5]. destruct i as [t n o u g]. unfold inode_of, inode_bytes in *.
  cbn [type_and_mode length_ offset_ i_uid i_gid] in *.
  f_equal.
  - by eapply (field_at []).
  - by eapply (field_at (le_bytes 4 t)).
  - by eapply (field_at (le_bytes 4 t ++ le_bytes 4 n)); [by rewrite <- app_assoc | |].
  - by eapply (field_at (le_bytes 4 t ++ le_bytes 4 n ++ le_bytes 4 o)); [by rewrite <- !app_assoc | |].
  - eapply (field_at (le_bytes 4 t ++ le_bytes 4 n ++ le_bytes 4 o ++ le_bytes 4 u) _ _ []);
      [by rewrite app_nil_r, <- !app_assoc | done | done].
Qed.

Lemma header_roundtrip h : header_fits h -> header_of (header_bytes h) = h.
Proof.
  intros [H0 H1 H2 H3 H4 H5 H6 H7]. destruct h as [m t [s n] c e z p]. unfold header_of, header_bytes in *.
  cbn [magic inode_table_offset creation_time sec nsec inode_count bootstrap_entry initfs_size page_size] in *.
  assert (length m = 8%nat) as Hm by done.
  f_equal; [by apply take_app_length' | | f_equal | | | |].
  - by eapply (field_at m).
  - by eapply (field_at (m ++ le_bytes 4 t)); [by rewrite <- app_assoc | by rewrite length_app, Hm, length_le_bytes |].
  - eapply (field_at (m ++ le_bytes 4 t ++ le_bytes 8 s)); [by rewrite <- !app_assoc | | done].
    by rewrite !length_app, Hm, !length_le_bytes.
  - eapply (field_at (m ++ le_bytes 4 t ++ le_bytes 8 s ++ le_bytes 4 n)); [by rewrite <- !app_assoc | | done].
    by rewrite !length_app, Hm, !length_le_bytes.
  - eapply (field_at (m ++ le_bytes 4 t ++ le_bytes 8 s ++ le_bytes 4 n ++ le_bytes 2 c)); [by rewrite <- !app_assoc | | done].
    by rewrite !length_app, Hm, !length_le_bytes.
  - eapply (field_at (m ++ le_bytes 4 t ++ le_bytes 8 s ++ le_bytes 4 n ++ le_bytes 2 c ++ le_bytes 8 e));
      [by rewrite <- !app_assoc | | done]. by rewrite !length_app, Hm, !length_le_bytes.
  - eapply (field_at (m ++ le_bytes 4 t ++ le_bytes 8 s ++ le_bytes 4 n ++ le_bytes 2 c ++ le_bytes 8 e ++ le_bytes 8 z) _ _ []);
      [by rewrite app_nil_r, <- !app_assoc | | done]. by rewrite !length_app, Hm, !length_le_bytes.
Qed.

(** ** Regions *)

(** The bytes [l] are known at [off]. *)
Definition has (w : memory) (off : Z) (l : list u8) : Prop := load off (length l) w = Some l.

(** The known bytes are those of the file. *)
Definition agrees (w : memory) (f : list u8) : Prop :=
  forall i x, w !! i = Some x -> 0 <= i /\ f !! Z.to_nat i = Some x.

Lemma has_lookup w off l k x : has w off l -> l !! k = Some x -> w !! (off + Z.of_nat k) = Some x.
Proof.
  intros [_ H]%load_Some Hk. rewrite H; [done |]. by apply lookup_lt_Some in Hk.
Qed.

Lemma has_mono w w' off l : w ⊆ w' -> has w off l -> has w' off l.
Proof.
  intros Hw H. apply load_Some. split; [done |]. intros k Hk.
  destruct (lookup_lt_is_Some_2 l k Hk) as [x Hx]. rewrite Hx. eapply lookup_weaken; [| done]. by eapply has_lookup.
Qed.

Lemma has_agrees w f off l :
  agrees w f -> has w off l -> l <> [] -> 0 <= off -> off + zlen l <= zlen f /\ take (length l) (drop (Z.to_nat off) f) = l.
Proof.
  intros Ha Hh Hl Ho.
  assert (forall k x, l !! k = Some x -> f !! (Z.to_nat off + k)%nat = Some x) as Hf.
  { intros k x Hk. pose proof (has_lookup _ _ _ _ _ Hh Hk) as [_ Hx]%Ha. by rewrite Z2Nat.inj_add, Nat2Z.id in Hx by lia. }
  assert (length l <> 0%nat) as H0 by (by destruct l).
  destruct (lookup_lt_is_Some_2 l (length l - 1)) as [y Hy]; [lia |].
  pose proof (Hf _ _ Hy) as Hlt%lookup_lt_Some. unfold zlen. split; [lia |].
  apply list_eq. intros k. destruct (decide (k < length l)%nat) as [Hk | Hk].
  - rewrite lookup_take_lt, lookup_drop by done. destruct (lookup_lt_is_Some_2 l k Hk) as [x Hx]. rewrite Hx. by apply Hf.
  - rewrite lookup_ge_None_2, (lookup_ge_None_2 l); [done | lia |]. rewrite length_take. lia.
Qed.

(** What a reader finds in a region; an empty one lies within the file. *)
Lemma has_range w f off l :
  agrees w f -> has w off l -> 0 <= off <= zlen f -> get_range off (off + zlen l) f = Some l.
Proof.
  intros Ha Hh Ho. unfold get_range. rewrite (proj2 (Z.leb_le _ _)) by (unfold zlen; lia). cbn [andb].
  assert (off + zlen l - off = zlen l) as -> by lia. destruct l as [| b l].
  - rewrite (proj2 (Z.leb_le _ _)) by (unfold zlen in *; cbn; lia). done.
  - destruct (has_agrees w f off (b :: l) Ha Hh) as [H1 H2]; [done | lia |].
    rewrite (proj2 (Z.leb_le _ _)) by done. unfold zlen at 1. by rewrite Nat2Z.id, H2.
Qed.

Lemma length_pwrite off b f :
  b <> [] -> length (pwrite off b f) = Nat.max (length f) (off + length b).
Proof.
  intros Hb. unfold pwrite. destruct b as [| x b]; [done |]. set (l := x :: b).
  rewrite !length_app, length_take, length_app, length_replicate, length_drop. lia.
Qed.

Lemma lookup_pwrite off b f i :
  b <> [] ->
  pwrite off b f !! i =
    if decide (off <= i < off + length b)%nat then b !! (i - off)%nat
    else if decide (i < length f)%nat then f !! i else if decide (i < off)%nat then Some x00 else None.
Proof.
  intros Hb. unfold pwrite. destruct b as [| x b]; [done |]. set (l := x :: b).
  assert (length (take off (f ++ replicate (off - length f) x00)) = off) as Hlen.
  { rewrite length_take, length_app, length_replicate. lia. }
  destruct (decide (i < off)%nat) as [Hi | Hi].
  - rewrite decide_False by lia. rewrite lookup_app_l by lia. rewrite lookup_take_lt by lia.
    destruct (decide (i < length f)%nat); [by rewrite lookup_app_l |].
    rewrite lookup_app_r by lia. apply lookup_replicate_2. lia.
  - rewrite lookup_app_r by lia. rewrite Hlen. destruct (decide (i - off < length l)%nat) as [Hk | Hk].
    + rewrite decide_True by lia. by apply lookup_app_l.
    + rewrite decide_False by lia. rewrite lookup_app_r by lia. rewrite lookup_drop.
      replace (off + length l + (i - off - length l))%nat with i by lia.
      destruct (decide (i < length f)%nat); [done |]. apply lookup_ge_None_2. lia.
Qed.

(** A write adds its bytes to the known ones. *)
Lemma agrees_pwrite w f off b :
  agrees w f -> 0 <= off -> agrees (store off b w) (pwrite (Z.to_nat off) b f).
Proof.
  intros Ha Ho i x. rewrite lookup_store. destruct b as [| y b].
  - rewrite decide_False by (unfold zlen; cbn; lia). apply Ha.
  - intros Hx. rewrite lookup_pwrite by done. set (l := y :: b) in *. unfold zlen in Hx. case_decide as Hd.
    + split; [lia |]. rewrite decide_True by lia. rewrite <- Hx. f_equal. lia.
    + apply Ha in Hx as [Hi Hx]. split; [done |]. pose proof (lookup_lt_Some _ _ _ Hx).
      rewrite decide_False by lia. by rewrite decide_True.
Qed.

Lemma has_store off b w : has (store off b w) off b.
Proof. apply load_store. Qed.

(** New bytes beside the known ones. *)
Lemma store_fresh off b w :
  (forall i, off <= i < off + zlen b -> w !! i = None) -> w ⊆ store off b w.
Proof.
  intros Hf. apply map_subseteq_spec. intros i x Hi. rewrite lookup_store. case_decide as Hd; [| done].
  by rewrite Hf in Hi.
Qed.

Lemma store_app off b c w : store off (b ++ c) w = store (off + zlen b) c (store off b w).
Proof.
  apply map_eq. intros i. rewrite !lookup_store. unfold zlen. rewrite length_app.
  repeat case_decide; try lia; try done.
  - rewrite lookup_app_r by lia. f_equal. lia.
  - rewrite lookup_app_l by lia. done.
Qed.
