(* ===== verification/InitfsArchiveFacts.v ===== *)
(** * initfs: what an image holds

    After [archive] has ended the image represents the source tree: every
    entry of a directory has its name, its inode and its contents in regions that
    no later write touches. *)

From stdpp Require Import base gmap strings list fin_maps.
From Stdlib Require Import ZArith Lia.
From Stdlib Require Import Strings.Byte.
From S2P Require Import Prelude Memory Initfs InitfsArchive InitfsFacts.

Local Open Scope Z_scope.

(** Reads return what there is, as far as it was asked for. *)
Class FullReads (HIO : HostIO) : Prop := { reads_full : forall n avail, (avail <= read_len n avail)%nat }.

(** ** Trees *)

Fixpoint count (k : EntryKind) : Z :=
  match k with EK_Dir l => foldr (fun e acc => 1 + count (n_kind e) + acc) 0 l | _ => 0 end.

Definition count_all (l : Dir) : Z := count (EK_Dir l).

(** No entry has an empty name. *)
Fixpoint named (k : EntryKind) : Prop :=
  match k with EK_Dir l => foldr (fun e P => n_name e <> [] /\ named (n_kind e) /\ P) True l | _ => True end.

Lemma EntryKind_nested_ind (P : EntryKind -> Prop) :
  (forall c, P (EK_File c)) -> (forall p, P (EK_Link p)) ->
  (forall l, (forall e, e ∈ l -> P (n_kind e)) -> P (EK_Dir l)) -> forall k, P k.
Proof.
  intros Hf Hl Hd. fix IH 1. intros [c | l | p]; [apply Hf | | apply Hl]. apply Hd.
  apply Forall_forall. induction l as [| e l IHl]; constructor; [apply IH | exact IHl].
Qed.

Lemma count_nonneg k : 0 <= count k.
Proof.
  induction k as [| | l IH] using EntryKind_nested_ind; [done | done |]. cbn.
  induction l as [| e l IHl]; [done |]. cbn. pose proof (IH e ltac:(by left)).
  assert (0 <= foldr (fun e acc => 1 + count (n_kind e) + acc) 0 l); [| lia].
  apply IHl. intros e' He'. apply IH. by right.
Qed.

Lemma count_cons e l : count_all (e :: l) = 1 + count (n_kind e) + count_all l.
Proof. done. Qed.

Lemma named_cons e l : named (EK_Dir (e :: l)) <-> n_name e <> [] /\ named (n_kind e) /\ named (EK_Dir l).
Proof. done. Qed.

(** ** Representation *)

(** The inode that is written for an entry. *)
Definition inode_for (ty : InodeType) (mode off size : Z) : InodeHeader :=
  {| type_and_mode := Z.lor (Z.shiftl (type_code ty) TYPE_SHIFT) (Z.land mode 0xFFF);
     length_ := size; offset_ := off; i_uid := 0; i_gid := 0 |}.

Definition dirent_for (e : Node EntryKind) (ino noff : Z) : DirEntry :=
  {| d_inode := ino; name_len := zlen (n_name e); name_offset := noff |}.

(** An entry whose directory slot is at [slot]: the slot, the name, and the
    inode, which refers to [size] bytes at [off]. *)
Record linked (w : memory) (table cnt slot : Z) (e : Node EntryKind) (ino noff off size : Z) (ty : InodeType) : Prop := {
  lk_slot : has w slot (dirent_bytes (dirent_for e ino noff));
  lk_fits : dirent_fits (dirent_for e ino noff);
  lk_ino : 0 <= ino < cnt;
  lk_name : has w noff (n_name e);
  lk_named : n_name e <> [];
  lk_inode : has w (table + 20 * ino) (inode_bytes (inode_for ty (n_mode e) off size));
  lk_off : 0 <= off <= noff;
  lk_size : 0 <= size < 2 ^ 32
}.

Inductive rep (w : memory) (table cnt : Z) : EntryKind -> Z -> Z -> InodeType -> Prop :=
| rep_file c off : has w off c -> rep w table cnt (EK_File c) off (zlen c) T_RegularFile
| rep_link p off : has w off p -> rep w table cnt (EK_Link p) off (zlen p) T_Link
| rep_dir l off :
    zlen l < 2 ^ 16 ->
    (forall idx e, l !! idx = Some e -> exists ino noff coff size ty,
      linked w table cnt (off + 8 * Z.of_nat idx) e ino noff coff size ty /\ rep w table cnt (n_kind e) coff size ty) ->
    rep w table cnt (EK_Dir l) off (8 * zlen l) T_Dir.

Lemma linked_mono w w' table cnt slot e ino noff off size ty :
  w ⊆ w' -> linked w table cnt slot e ino noff off size ty -> linked w' table cnt slot e ino noff off size ty.
Proof. intros Hw [H1 H2 H3 H4 H5 H6 H7 H8]. split; eauto using has_mono. Qed.

Lemma rep_mono w w' table cnt k off size ty :
  w ⊆ w' -> rep w table cnt k off size ty -> rep w' table cnt k off size ty.
Proof.
  intros Hw. revert off size ty. induction k as [c | p | l IH] using EntryKind_nested_ind; intros off size ty Hr;
    inversion Hr as [? ? Hh | ? ? Hh | ? ? Hl He]; subst; constructor; [by eapply has_mono.. | done |].
  intros idx e Hi. destruct (He idx e Hi) as (ino & noff & coff & sz & t & Hlk & Hrep).
  exists ino, noff, coff, sz, t. split; [by eapply linked_mono |].
  apply IH; [by eapply list_elem_of_lookup_2 | done].
Qed.

(** ** Steps of the writer *)

(** The file holds the known bytes, which were all allocated. *)
Record wst (w : memory) (s : State) : Prop := {
  ws_agrees : agrees w (file s);
  ws_length : zlen (file s) <= offset s;
  ws_known i x : w !! i = Some x -> 0 <= i < offset s;
  ws_max : offset s <= max_size s <= 2 ^ 32 - 8192;
  ws_buffer : length (buffer s) = BUFFER_SIZE
}.

(** A step adds known bytes at the positions [P]. *)
Record adv (w : memory) (s : State) (w' : memory) (s' : State) (P : Z -> Prop) : Prop := {
  av_wst : wst w' s';
  av_sub : w ⊆ w';
  av_new i x : w' !! i = Some x -> w !! i = Some x \/ P i;
  av_offset : offset s <= offset s';
  av_max : max_size s' = max_size s;
  av_count : st_inode_count s' = st_inode_count s;
  av_table : st_inode_table_offset s' = st_inode_table_offset s
}.

Lemma adv_trans w1 s1 w2 s2 w3 s3 P Q R :
  adv w1 s1 w2 s2 P -> adv w2 s2 w3 s3 Q -> (forall i, P i \/ Q i -> R i) -> adv w1 s1 w3 s3 R.
Proof.
  intros [A1 A2 A3 A4 A5 A6 A7] [B1 B2 B3 B4 B5 B6 B7] HR. split; [done | by etrans | | lia | congruence..].
  intros i x [H | H]%B3; [apply A3 in H as [H | H]; auto | auto].
Qed.

Lemma adv_weaken w s w' s' P Q : adv w s w' s' P -> (forall i, P i -> Q i) -> adv w s w' s' Q.
Proof. intros [A1 A2 A3 A4 A5 A6 A7] H. split; try done. intros i x [? | ?]%A3; auto. Qed.

Section writer.
Context {TG : Target} {HIO : HostIO} {FR : FullReads HIO}.

Lemma io_Ok s n s' : io s = (Ok n, s') -> s' = called s.
Proof. unfold io. rewrite gets_bind, modify_bind. by destruct (io_ok _); intros [= _ <-]. Qed.

Lemma try_into_Ok {S} bits x y (s s' : S) : try_into bits x s = (Ok y, s') -> y = x /\ x < 2 ^ bits /\ s' = s.
Proof. unfold try_into. destruct (Z.ltb_spec x (2 ^ bits)); [| done]. by intros [= -> ->]. Qed.

Lemma arith_Ok {S} bits x y (s s' : S) : 0 <= x < 2 ^ bits -> arith bits x s = (Ok y, s') -> y = x /\ s' = s.
Proof. intros Hx. rewrite arith_ok by done. by intros [= -> ->]. Qed.

Lemma adv_called w s : wst w s -> adv w s w (called s) (fun _ => False).
Proof. intros Hw. split; [by destruct Hw | done | auto | done..]. Qed.

Lemma page_pos : 0 < PAGE_SIZE.
Proof. done. Qed.

Lemma bump_alloc_Ok w s size o s' :
  wst w s -> 0 <= size < 2 ^ 40 -> bump_alloc size s = (Ok o, s') ->
  o = offset s /\ adv w s w s' (fun _ => False) /\ o + size <= offset s'.
Proof.
  intros [H1 H2 H3 H4 H5] Hs. unfold bump_alloc. rewrite gets_bind. intros H.
  assert (0 <= zlen (file s)) by (unfold zlen; lia).
  apply bind_Ok in H as (e1 & s1 & [-> ->]%arith_Ok & H); [| lia].
  apply bind_Ok in H as (e & s1 & He & H).
  assert (s1 = s /\ offset s + size <= e) as [-> Hle].
  { unfold next_multiple_of in He. pose proof page_pos as Hp.
    pose proof (Z.mod_pos_bound (offset s + size) PAGE_SIZE Hp) as Hm.
    assert (PAGE_SIZE = 4096) as E by done. rewrite E in *.
    destruct (_ =? 0); [apply ret_Ok in He as [-> ->]; split; [done | lia] |].
    apply arith_Ok in He as [-> ->]; [split; [done | lia] | lia]. }
  rewrite gets_bind in H. destruct (Z.leb_spec e (max_size s)); [| done].
  rewrite modify_bind in H. apply ret_Ok in H as [-> ->]. split; [done |]. split; [| done].
  split; cbn; [| done | auto | lia | done..]. split; cbn; [done | lia | | lia | done].
  intros i x Hi. apply H3 in Hi. lia.
Qed.

Lemma write_all_at_Ok w s b off s' :
  wst w s -> 0 <= off -> off + zlen b <= offset s -> (forall i, off <= i < off + zlen b -> w !! i = None) ->
  write_all_at b off s = (Ok tt, s') ->
  adv w s (store off b w) s' (fun i => off <= i < off + zlen b) /\ offset s' = offset s.
Proof.
  intros [H1 H2 H3 H4 H5] Ho Hb Hf H. unfold write_all_at in H.
  apply bind_Ok in H as (n & s1 & ->%io_Ok & H). injection H as <-. split; [| done].
  split; cbn; [| by apply store_fresh | | done..].
  - split; cbn; [by apply agrees_pwrite | | | done | done].
    + unfold zlen in *. destruct b as [| x b]; [done |]. rewrite length_pwrite by done. cbn [length] in *. lia.
    + intros i x. rewrite lookup_store. case_decide; [lia | apply H3].
  - intros i x. rewrite lookup_store. case_decide; auto.
Qed.

(** Space is allocated and bytes are written into it. *)
Lemma fresh_above w s i : wst w s -> offset s <= i -> w !! i = None.
Proof.
  intros Hw Hi. destruct (w !! i) eqn:E; [| done]. apply (ws_known _ _ Hw) in E. lia.
Qed.

(** ** Contents *)

Lemma read_chunk_Ok c pos n s k s' :
  read_chunk c pos n s = (Ok k, s') ->
  k = (n `min` (length c - pos))%nat /\ s' = set_buffer (splice 0 (take k (drop pos c)) (buffer s)) (called s).
Proof.
  unfold read_chunk. intros H. apply bind_Ok in H as (t & s1 & ->%io_Ok & H). rewrite gets_bind, modify_bind in H.
  apply ret_Ok in H as [-> ->]. pose proof (reads_full t (n `min` (length c - pos))) as Hr.
  rewrite Nat.min_r by lia. done.
Qed.

Lemma adv_buffer w s b :
  wst w s -> length b = BUFFER_SIZE -> adv w s w (set_buffer b (called s)) (fun _ => False).
Proof. intros [H1 H2 H3 H4 H5] Hb. split; [by split | done | auto | done..]. Qed.

Lemma zlen_buffer w s : wst w s -> zlen (buffer s) = 8192.
Proof. intros H. unfold zlen. rewrite (ws_buffer _ _ H). done. Qed.

(** The part of a file that has been copied. *)
Definition copied (w : memory) (off : Z) (c : list u8) (n : Z) : memory := store off (take (Z.to_nat n) c) w.

Lemma copied_more w off c rel n :
  0 <= rel -> 0 <= n -> rel + n <= zlen c ->
  store (off + rel) (take (Z.to_nat n) (drop (Z.to_nat rel) c)) (copied w off c rel) = copied w off c (rel + n).
Proof.
  intros Hr Hn Hle. unfold copied. rewrite Z2Nat.inj_add by lia.
  assert (off + rel = off + zlen (take (Z.to_nat rel) c)) as ->.
  { unfold zlen in *. rewrite length_take. lia. }
  by rewrite <- store_app, take_take_drop.
Qed.

Lemma copied_all w off c n : zlen c <= n -> copied w off c n = store off c w.
Proof. intros Hn. unfold copied. rewrite take_ge by (unfold zlen in *; lia). done. Qed.

(** Positions of a file that has its space, none of which was known. *)
Definition room (w : memory) (s : State) (off : Z) (c : list u8) : Prop :=
  0 <= off /\ off + zlen c <= offset s /\ forall i, off <= i < off + zlen c -> w !! i = None.

Lemma copied_fresh w s off c rel i :
  room w s off c -> 0 <= rel -> off + rel <= i < off + zlen c -> copied w off c rel !! i = None.
Proof.
  intros (_ & _ & Hf) Hr Hi. unfold copied. rewrite lookup_store. case_decide as Hd; [| apply Hf; lia].
  unfold zlen in Hd. rewrite length_take in Hd. lia.
Qed.

(** The bytes that a turn reads are those that it writes. *)
Lemma read_turn c n rel s k s' :
  length (buffer s) = BUFFER_SIZE -> 0 <= n <= 8192 -> 0 <= rel -> rel + n <= zlen c ->
  read_chunk c (Z.to_nat rel) (Z.to_nat n) s = (Ok k, s') ->
  exists b, k = Z.to_nat n /\ s' = set_buffer b (called s) /\ length b = BUFFER_SIZE /\
    take (Z.to_nat n) b = take (Z.to_nat n) (drop (Z.to_nat rel) c).
Proof.
  intros Hb Hn Hr Hle [-> ->]%read_chunk_Ok. assert (Z.of_nat BUFFER_SIZE = 8192) as HB by done.
  rewrite (Nat.min_l (Z.to_nat n)) by (unfold zlen in *; lia). set (chunk := take _ _).
  assert (length chunk = Z.to_nat n) as Hc by (unfold chunk, zlen in *; rewrite length_take, length_drop; lia).
  eexists. split; [done |]. split; [done |]. split; [by rewrite length_splice by lia |].
  unfold splice. rewrite take_0. cbn [app]. rewrite take_app_le by lia. apply take_ge. lia.
Qed.

Lemma copy_turn_Ok c off rel w s q s' :
  wst (copied w off c rel) s -> 0 <= rel < zlen c -> room w s off c ->
  copy_turn c (zlen c) off rel (Z.to_nat rel) s = (Ok q, s') ->
  adv (copied w off c rel) s (copied w off c (rel + 8192)) s' (fun i => off <= i < off + zlen c) /\
  offset s' = offset s /\ q.1 = rel + 8192 /\ (rel + 8192 < zlen c -> q.2 = Z.to_nat (rel + 8192)).
Proof.
  intros Hw Hrel Hroom H. pose proof Hroom as (Ho & Hle & _). unfold copy_turn in H.
  rewrite gets_bind, (zlen_buffer _ _ Hw) in H. set (n := Z.min 8192 (zlen c - rel)) in H.
  apply bind_Ok in H as (k & s1 & Hread & H). pose proof (ws_max _ _ Hw) as Hmax.
  apply (read_turn c n rel) in Hread as (b & -> & -> & Hb & Ht); [| apply Hw | lia..].
  pose proof (adv_buffer _ _ _ Hw Hb) as A1. rewrite gets_bind in H. cbn [buffer set_buffer] in H. rewrite Ht in H.
  assert (zlen b = 8192) as Hz by (unfold zlen; rewrite Hb; done). rewrite Hz in H.
  apply bind_Ok in H as (a & s2 & [-> ->]%arith_Ok & H); [| lia].
  apply bind_Ok in H as ([] & s2 & Hwr & H). set (chunk := take (Z.to_nat n) (drop (Z.to_nat rel) c)) in *.
  assert (zlen chunk = n) as Hcz by (unfold chunk, zlen in *; rewrite length_take, length_drop; lia).
  eapply write_all_at_Ok in Hwr as [A2 Ho2]; [| by apply (av_wst _ _ _ _ _ A1) | lia | rewrite Hcz; cbn; lia |].
  2: { intros i Hi. eapply copied_fresh; [done | lia | lia]. }
  unfold chunk in A2. rewrite copied_more in A2 by lia. fold chunk in A2.
  assert (copied w off c (rel + n) = copied w off c (rel + 8192)) as Hcc.
  { destruct (Z.min_spec 8192 (zlen c - rel)) as [[? E] | [? E]]; unfold n; rewrite E; [done |].
    by rewrite !copied_all by lia. }
  rewrite Hcc in A2. apply bind_Ok in H as (rel' & s3 & [-> ->]%arith_Ok & H); [| lia].
  apply ret_Ok in H as [-> ->]. split; [| split; [done | split; [done | intros ?; cbn; lia]]].
  eapply adv_trans; [exact A1 | exact A2 |]. intros i [[] | Hi]. lia.
Qed.

Lemma adv_refl w s P : wst w s -> adv w s w s P.
Proof. intros Hw. split; auto. done. Qed.

Lemma copy_loop_Ok fuel c off rel pos w s s' :
  wst (copied w off c rel) s -> 0 <= rel -> (rel < zlen c -> pos = Z.to_nat rel) -> room w s off c ->
  copy_loop fuel c (zlen c) off rel pos s = (Ok (Some tt), s') ->
  adv (copied w off c rel) s (store off c w) s' (fun i => off <= i < off + zlen c) /\ offset s' = offset s.
Proof.
  revert rel pos s. induction fuel as [| fuel IH]; intros rel pos s Hw Hrel Hpos Hroom H; [done |].
  cbn [copy_loop] in H. destruct (Z.ltb_spec rel (zlen c)) as [Hlt | Hge].
  - rewrite (Hpos Hlt) in H. apply bind_Ok in H as (q & s1 & Hq & H).
    eapply copy_turn_Ok in Hq as (A & Ho & E1 & E2); [| done | lia | done]. rewrite E1 in H.
    destruct (IH _ _ _ (av_wst _ _ _ _ _ A) ltac:(lia) E2) as [A' Ho']; [| exact H |].
    + unfold room in *. by rewrite Ho.
    + split; [| congruence]. eapply adv_trans; [exact A | exact A' |]. tauto.
  - apply ret_Ok in H as [_ ->]. rewrite copied_all in * by lia. split; [| done]. by apply adv_refl.
Qed.

(** With enough fuel, the loop ends. *)
Lemma copy_loop_ends fuel c off rel pos s :
  length (buffer s) = BUFFER_SIZE -> zlen c + 8192 <= 2 ^ 32 -> 0 <= rel -> zlen c < rel + Z.of_nat fuel ->
  (0 < fuel)%nat -> (copy_loop fuel c (zlen c) off rel pos s).1 <> Ok None.
Proof.
  revert rel pos s. induction fuel as [| fuel IH]; intros rel pos s Hb Hc Hrel Hf H0; [lia |].
  cbn [copy_loop]. destruct (Z.ltb_spec rel (zlen c)) as [Hlt | Hge]; [| done].
  intros H. destruct (copy_turn c (zlen c) off rel pos s) as [[q | |] s1] eqn:Eq;
    unfold mbind, M_bind in H; rewrite Eq in H; [| done | done].
  assert (q.1 = rel + 8192 /\ length (buffer s1) = BUFFER_SIZE) as [E1 E2].
  { unfold copy_turn in Eq. rewrite gets_bind in Eq.
    assert (zlen (buffer s) = 8192) as Hz by (unfold zlen; rewrite Hb; done). rewrite Hz in Eq.
    set (n := Z.min _ _) in Eq. apply bind_Ok in Eq as (k & s2 & [-> ->]%read_chunk_Ok & Eq).
    rewrite gets_bind in Eq. cbn [buffer set_buffer] in Eq. set (b := splice _ _ _) in Eq.
    assert (length b = BUFFER_SIZE) as Hlb.
    { unfold b. assert (Z.of_nat BUFFER_SIZE = 8192) as HB by done.
      rewrite length_splice; [done |]. rewrite length_take, length_drop. lia. }
    assert (zlen b = 8192) as Hzb by (unfold zlen; rewrite Hlb; done). rewrite Hzb in Eq.
    apply bind_Ok in Eq as (a & s2 & Ha & Eq). unfold u32_add, arith in Ha.
    assert (s2 = set_buffer b (called s)) as ->.
    { destruct (_ && _); [by apply ret_Ok in Ha as [_ ->] |]. destruct overflow_checks; [done |].
      by apply ret_Ok in Ha as [_ ->]. }
    apply bind_Ok in Eq as ([] & s2 & Hwr & Eq). unfold write_all_at in Hwr.
    apply bind_Ok in Hwr as (t & s3 & ->%io_Ok & Hwr). injection Hwr as <-.
    apply bind_Ok in Eq as (r & s3 & [-> ->]%arith_Ok & Eq); [| lia]. by apply ret_Ok in Eq as [-> ->]. }
  rewrite E1 in H. eapply (IH (rel + 8192) q.2 s1); [done | done | lia | lia | lia | exact H].
Qed.

(** Space for [c] at the end of what was allocated. *)
Lemma bump_room w s c o s' :
  wst w s -> zlen c < 2 ^ 32 -> bump_alloc (zlen c) s = (Ok o, s') ->
  o = offset s /\ adv w s w s' (fun _ => False) /\ room w s' o c.
Proof.
  intros Hw Hc H. assert (0 <= offset s).
  { pose proof (ws_length _ _ Hw). unfold zlen in *. lia. }
  eapply bump_alloc_Ok in H as (-> & A & Hle); [| done | unfold zlen in *; lia].
  split; [done |]. split; [done |]. split; [done |]. split; [done |]. intros i Hi.
  apply (fresh_above w s); [done | lia].
Qed.

(** What a step that allocates and writes [c] leaves. *)
Definition placed (w : memory) (s : State) (c : list u8) (off : Z) (s' : State) : Prop :=
  off = offset s /\ zlen c < 2 ^ 32 /\
  exists w', adv w s w' s' (fun i => offset s <= i < offset s') /\ has w' off c.

Lemma placed_intro w s c s1 s2 :
  wst w s -> zlen c < 2 ^ 32 -> adv w s w s1 (fun _ => False) -> room w s1 (offset s) c ->
  adv w s1 (store (offset s) c w) s2 (fun i => offset s <= i < offset s + zlen c) -> placed w s c (offset s) s2.
Proof.
  intros Hw Hc A1 (H1 & H2 & _) A2. split; [done |]. split; [done |]. exists (store (offset s) c w).
  split; [| apply has_store]. eapply adv_trans; [exact A1 | exact A2 |]. intros i [[] | Hi].
  pose proof (av_offset _ _ _ _ _ A2). lia.
Qed.

Lemma write_file_Ok w s c r s' :
  wst w s -> allocate_and_write_file c s = (Ok r, s') -> placed w s c (w_offset r) s' /\ w_size r = zlen c.
Proof.
  intros Hw H. unfold allocate_and_write_file in H.
  apply bind_Ok in H as (n & s1 & ->%io_Ok & H). pose proof (adv_called w s Hw) as A0.
  apply bind_Ok in H as (size & s2 & (-> & Hc & ->)%try_into_Ok & H).
  apply bind_Ok in H as (o & s2 & Hb & H).
  eapply bump_room in Hb as (-> & A1 & Hr); [| apply A0 | done]. cbn [offset called] in *.
  apply bind_Ok in H as (off & s3 & (-> & _ & ->)%try_into_Ok & H).
  apply bind_Ok in H as (n' & s3 & ->%io_Ok & H). pose proof (adv_called w s2 (av_wst _ _ _ _ _ A1)) as A2.
  apply bind_Ok in H as (q & s4 & Hcp & H). apply bind_Ok in H as ([] & s5 & Hq & H).
  destruct q as [[] |]; [| done]. apply ret_Ok in Hq as [_ ->]. apply ret_Ok in H as [-> ->]. cbn [w_offset w_size].
  split; [| done].
  apply (copy_loop_Ok _ _ _ 0 0%nat w) in Hcp as [A3 _]; [| apply A2 | done | done | exact Hr].
  eapply (placed_intro w s c (called s2)); [done | done | | exact Hr | exact A3].
  assert (adv w s w s2 (fun _ => False)) as A by (apply (adv_trans _ _ _ _ _ _ _ _ _ A0 A1); tauto).
  apply (adv_trans _ _ _ _ _ _ _ _ _ A A2). tauto.
Qed.

Lemma write_link_Ok w s c r s' :
  wst w s -> allocate_and_write_link c s = (Ok r, s') -> placed w s c (w_offset r) s' /\ w_size r = zlen c.
Proof.
  intros Hw H. unfold allocate_and_write_link in H.
  apply bind_Ok in H as ([] & s1 & Hc & H). destruct (Z.ltb_spec (zlen c) (2 ^ 32)); [| done].
  apply ret_Ok in Hc as [_ ->].
  apply bind_Ok in H as (o & s2 & Hb & H). eapply bump_room in Hb as (-> & A1 & Hr); [| done | done].
  apply bind_Ok in H as (off & s3 & (-> & _ & ->)%try_into_Ok & H).
  apply bind_Ok in H as ([] & s3 & Hwr & H). apply ret_Ok in H as [-> ->]. cbn [w_offset w_size].
  split; [| done]. destruct Hr as (H1 & H2 & H3).
  eapply write_all_at_Ok in Hwr as [A2 _]; [| apply A1 | done | done | done].
  by eapply placed_intro.
Qed.

Lemma write_name_Ok w s name q s' :
  wst w s -> write_name name s = (Ok q, s') ->
  placed w s name q.1 s' /\ q.2 = zlen name /\ zlen name < 2 ^ 16 /\ 0 <= q.1 < 2 ^ 32 /\
  (0 < zlen name -> q.1 < offset s').
Proof.
  intros Hw H. unfold write_name in H.
  apply bind_Ok in H as (n & s1 & (-> & Hn & ->)%try_into_Ok & H).
  apply bind_Ok in H as (o & s2 & Hb & H). eapply bump_room in Hb as (-> & A1 & Hr); [| done | lia].
  apply bind_Ok in H as (off & s3 & (-> & Ho & ->)%try_into_Ok & H).
  apply bind_Ok in H as ([] & s3 & Hwr & H). apply ret_Ok in H as [-> ->]. cbn [fst snd].
  pose proof Hr as (H1 & H2 & H3).
  eapply write_all_at_Ok in Hwr as [A2 E]; [| apply A1 | done | done | done].
  split; [eapply placed_intro; [done | lia | done | done | done] |]. repeat (split; [done |]). rewrite E. lia.
Qed.

(** ** Entries *)

(** The inodes after [a] up to [b] in the table. *)
Definition slots (table a b i : Z) : Prop := table + 20 * (a + 1) <= i < table + 20 * (b + 1).

Lemma write_inode_Ok w s ty mode r ino s' :
  let table := st_inode_table_offset s in
  wst w s -> 0 <= table -> 0 <= ino -> table + 20 * (ino + 1) <= offset s ->
  (forall i, slots table (ino - 1) ino i -> w !! i = None) ->
  write_inode ty mode r ino s = (Ok tt, s') ->
  offset s' = offset s /\
  exists w', adv w s w' s' (slots table (ino - 1) ino) /\
    has w' (table + 20 * ino) (inode_bytes (inode_for ty mode (w_offset r) (w_size r))).
Proof.
  intros table Hw Ht Hi Hle Hf H. unfold write_inode in H. rewrite gets_bind in H. fold table in H.
  change (Z.of_nat size_of_InodeHeader) with 20 in H. pose proof (ws_max _ _ Hw).
  apply bind_Ok in H as (a & s1 & [-> ->]%arith_Ok & H); [| lia].
  rewrite (Z.mul_comm ino) in H. fold (inode_for ty mode (w_offset r) (w_size r)) in H.
  assert (zlen (inode_bytes (inode_for ty mode (w_offset r) (w_size r))) = 20) as Hz by (unfold zlen; by rewrite length_inode_bytes).
  eapply write_all_at_Ok in H as [A E]; [| done | lia | rewrite Hz; lia | rewrite Hz; intros i Hi'; apply Hf; unfold slots; lia].
  split; [done |]. eexists. split; [| apply has_store]. eapply adv_weaken; [exact A |].
  intros i. rewrite Hz. unfold slots. lia.
Qed.

Lemma on_state_Ok {A} (m : M State A) s ci a s' ci' :
  on_state m (s, ci) = (Ok a, (s', ci')) -> m s = (Ok a, s') /\ ci' = ci.
Proof. unfold on_state, zoom. cbn [fst snd]. destruct (m s) as [o s1]. by intros [= -> -> ->]. Qed.

Lemma next_inode_Ok s ci i s' ci' :
  0 <= ci -> ci + 1 < 2 ^ 16 -> next_inode (s, ci) = (Ok i, (s', ci')) -> i = ci + 1 /\ s' = s /\ ci' = ci + 1.
Proof.
  intros H0 H1. unfold next_inode. rewrite gets_bind. cbn [snd]. intros H.
  apply bind_Ok in H as (n & x & [-> ->]%arith_Ok & H); [| lia].
  rewrite modify_bind in H. by apply ret_Ok in H as [-> [= -> ->]].
Qed.

(** Where a directory's entries are written: behind the table of inodes,
    which has room for those that are still to come. *)
Record place (s : State) (table n ci m : Z) : Prop := {
  pl_table : 0 <= st_inode_table_offset s;
  pl_inodes : st_inode_table_offset s + 20 * st_inode_count s <= table;
  pl_dir : table + 8 * n <= offset s;
  pl_ci : 0 <= ci;
  pl_count : ci + m < st_inode_count s <= 2 ^ 16
}.

Lemma link_entry_Ok w s ci table index e r ty s' ci' :
  let tbl := st_inode_table_offset s in
  wst w s -> 0 <= index -> place s table (index + 1) ci 1 ->
  (forall i, slots tbl ci (ci + 1) i -> w !! i = None) ->
  (forall i, table + 8 * index <= i < table + 8 * (index + 1) -> w !! i = None) ->
  0 <= w_offset r <= offset s -> 0 <= w_size r < 2 ^ 32 -> n_name e <> [] ->
  link_entry table index e r ty (s, ci) = (Ok tt, (s', ci')) ->
  ci' = ci + 1 /\ exists w' noff,
    adv w s w' s' (fun i => offset s <= i < offset s' \/ slots tbl ci (ci + 1) i \/
                            table + 8 * index <= i < table + 8 * (index + 1)) /\
    linked w' tbl (st_inode_count s) (table + 8 * index) e (ci + 1) noff (w_offset r) (w_size r) ty.
Proof.
  intros tbl Hw Hidx [P1 P2 P3 P4 P5] Hf1 Hf2 Hoff Hsz Hne H. fold tbl in P1, P2.
  unfold link_entry in H. apply bind_Ok in H as (ino & [s1 c1] & H1 & H).
  apply next_inode_Ok in H1 as (-> & -> & ->); [| lia | lia].
  apply bind_Ok in H as ([] & [s2 c2] & [Hin ->]%on_state_Ok & H).
  apply (write_inode_Ok w) in Hin as (E1 & w1 & A1 & Hi1); [| done | done | lia | lia |].
  2: { intros i. replace (ci + 1 - 1) with ci by lia. apply Hf1. }
  replace (ci + 1 - 1) with ci in A1 by lia. fold tbl in A1, Hi1.
  apply bind_Ok in H as (q & [s3 c3] & [Hnm ->]%on_state_Ok & H).
  eapply write_name_Ok in Hnm as ((Eq1 & _ & w2 & A2 & Hn2) & Eq2 & Hn16 & Hq & _); [| apply A1].
  apply bind_Ok in H as (a & [s4 c4] & Ha & H). change (Z.of_nat size_of_DirEntry) with 8 in Ha.
  pose proof (av_offset _ _ _ _ _ A2) as Ho2. pose proof (ws_max _ _ (av_wst _ _ _ _ _ A2)) as Hmax.
  apply arith_Ok in Ha as [-> [= -> ->]]; [| lia]. apply on_state_Ok in H as [Hd ->]. rewrite Eq2 in Hd.
  fold (dirent_for e (ci + 1) q.1) in Hd. rewrite (Z.mul_comm index) in Hd.
  assert (zlen (dirent_bytes (dirent_for e (ci + 1) q.1)) = 8) as Hz by (unfold zlen; by rewrite length_dirent_bytes).
  eapply write_all_at_Ok in Hd as [A3 E3]; [| apply A2 | lia | rewrite Hz; lia |].
  2: { rewrite Hz. intros i Hi. destruct (w2 !! i) as [x |] eqn:Ex; [| done]. exfalso.
       apply (av_new _ _ _ _ _ A2) in Ex as [Ex | Ex]; [| lia].
       apply (av_new _ _ _ _ _ A1) in Ex as [Ex | Ex]; [by rewrite Hf2 in Ex by lia |]. unfold slots in Ex. lia. }
  rewrite Hz in A3. split; [done |]. eexists _, q.1. split.
  - eapply adv_trans; [exact A1 | | ]; [eapply adv_trans; [exact A2 | exact A3 |] |];
      [intros i Hi; exact Hi |]. cbn. intros i [Hi | [Hi | Hi]]; [auto | left; lia | right; right; lia].
  - split.
    + apply has_store.
    + split; cbn; unfold zlen in *; lia.
    + lia.
    + eapply has_mono; [apply A3 | done].
    + done.
    + eapply has_mono; [apply A3 |]. eapply has_mono; [apply A2 | done].
    + lia.
    + done.
Qed.

(** ** Trees *)

Lemma offset_nonneg w s : wst w s -> 0 <= offset s.
Proof. intros Hw. pose proof (ws_length _ _ Hw). unfold zlen in *. lia. Qed.

Lemma adv_fresh w s w' s' P i : adv w s w' s' P -> w !! i = None -> ~ P i -> w' !! i = None.
Proof.
  intros A H HP. destruct (w' !! i) as [x |] eqn:E; [| done]. apply (av_new _ _ _ _ _ A) in E as [E | E]; [congruence | done].
Qed.

Lemma place_adv w s w' s' P table n ci m d :
  adv w s w' s' P -> place s table n ci m -> 0 <= d <= m -> place s' table n (ci + d) (m - d).
Proof.
  intros A [H1 H2 H3 H4 H5] Hd. pose proof (av_offset _ _ _ _ _ A). pose proof (av_count _ _ _ _ _ A) as E1.
  pose proof (av_table _ _ _ _ _ A) as E2. split; rewrite ?E1, ?E2; lia.
Qed.

(** The inodes from after [a] up to [b] are not, and are all, written. *)
Definition unwritten (w : memory) (s : State) (a b : Z) : Prop :=
  forall i, slots (st_inode_table_offset s) a b i -> w !! i = None.
Definition written (w : memory) (s : State) (a b : Z) : Prop :=
  forall i, slots (st_inode_table_offset s) a b i -> is_Some (w !! i).

Lemma written_app w w1 s s1 a b c :
  st_inode_table_offset s1 = st_inode_table_offset s -> w ⊆ w1 ->
  written w s a b -> written w1 s1 b c -> written w1 s a c.
Proof.
  intros E Hsub H1 H2 i Hi. destruct (decide (i < st_inode_table_offset s + 20 * (b + 1))) as [Hlt | Hge].
  - destruct (H1 i) as [x Hx]; [unfold slots in *; lia |]. exists x. by eapply lookup_weaken.
  - apply H2. unfold slots in *. rewrite E. lia.
Qed.

Lemma has_written w s ino i :
  has w (st_inode_table_offset s + 20 * ino) (inode_bytes i) -> written w s (ino - 1) ino.
Proof.
  intros H j Hj. unfold slots in Hj.
  destruct (lookup_lt_is_Some_2 (inode_bytes i) (Z.to_nat (j - (st_inode_table_offset s + 20 * ino)))) as [x Hx].
  { rewrite length_inode_bytes. unfold size_of_InodeHeader. lia. }
  exists x. apply (has_lookup _ _ _ _ _ H) in Hx. rewrite Z2Nat.id in Hx by lia.
  by replace (st_inode_table_offset s + 20 * ino + (j - (st_inode_table_offset s + 20 * ino))) with j in Hx by lia.
Qed.

(** What writing the contents of an entry does. *)
Definition contents_spec (k : EntryKind) : Prop := forall w s ci r s' ci',
  let tbl := st_inode_table_offset s in
  wst w s -> named k -> place s (offset s) 0 ci (count k) -> unwritten w s ci (ci + count k) ->
  write_contents k (s, ci) = (Ok r, (s', ci')) ->
  ci' = ci + count k /\ 0 <= w_offset r.1 <= offset s' /\ 0 <= w_size r.1 < 2 ^ 32 /\
  exists w', adv w s w' s' (fun i => offset s <= i < offset s' \/ slots tbl ci ci' i) /\
    rep w' tbl (st_inode_count s) k (w_offset r.1) (w_size r.1) r.2 /\ written w' s ci ci'.

(** The entries are linked in the directory at [off]. *)
Definition entries_rep (w : memory) (tbl cnt off : Z) (l : Dir) : Prop :=
  forall idx e, l !! idx = Some e -> exists ino noff coff size ty,
    linked w tbl cnt (off + 8 * Z.of_nat idx) e ino noff coff size ty /\ rep w tbl cnt (n_kind e) coff size ty.

Lemma entries_rep_cons w w' tbl cnt off e l ino noff coff size ty :
  w ⊆ w' -> linked w tbl cnt off e ino noff coff size ty -> rep w tbl cnt (n_kind e) coff size ty ->
  entries_rep w' tbl cnt (off + 8) l -> entries_rep w' tbl cnt off (e :: l).
Proof.
  intros Hw Hl Hr He [| idx] x Hx.
  - injection Hx as <-. exists ino, noff, coff, size, ty. rewrite Z.mul_0_r, Z.add_0_r.
    split; [by eapply linked_mono | by eapply rep_mono].
  - apply He in Hx as (i' & n' & c' & z' & t' & H). exists i', n', c', z', t'.
    by replace (off + 8 * Z.of_nat (S idx)) with (off + 8 + 8 * Z.of_nat idx) by lia.
Qed.

Lemma write_entries_Ok table l :
  (forall e, e ∈ l -> contents_spec (n_kind e)) ->
  forall index w s ci s' ci',
  let tbl := st_inode_table_offset s in
  wst w s -> named (EK_Dir l) -> 0 <= index -> place s table (index + zlen l) ci (count_all l) ->
  unwritten w s ci (ci + count_all l) ->
  (forall i, table + 8 * index <= i < table + 8 * (index + zlen l) -> w !! i = None) ->
  write_entries write_contents table l index (s, ci) = (Ok tt, (s', ci')) ->
  ci' = ci + count_all l /\
  exists w', adv w s w' s' (fun i => offset s <= i < offset s' \/ slots tbl ci ci' i \/
                                     table + 8 * index <= i < table + 8 * (index + zlen l)) /\
    entries_rep w' tbl (st_inode_count s) (table + 8 * index) l /\ written w' s ci ci'.
Proof.
  intros Hsp. induction l as [| e l IH]; intros index w s ci s' ci' tbl Hw Hn Hidx Hp Hun Hfree H.
  { apply ret_Ok in H as [_ [= -> ->]]. subst tbl. split; [unfold count_all; cbn; lia |]. exists w.
    split; [by apply adv_refl |]. split; [by intros idx x Hx |]. intros i Hi. unfold slots in Hi. lia. }
  subst tbl. apply named_cons in Hn as (Hne & Hnk & Hnl). rewrite count_cons in *.
  assert (zlen (e :: l) = 1 + zlen l) as Hz by (unfold zlen; cbn; lia). rewrite Hz in *.
  assert (0 <= zlen l) as Hz0 by (unfold zlen; lia).
  pose proof (count_nonneg (n_kind e)) as Hc1. pose proof (count_nonneg (EK_Dir l)) as Hc2.
  change (count (EK_Dir l)) with (count_all l) in Hc2. pose proof Hp as [P1 P2 P3 P4 P5].
  cbn [write_entries] in H. apply bind_Ok in H as (r & [s1 c1] & H1 & H).
  apply (Hsp e ltac:(by left) w) in H1 as (-> & Ho1 & Hz1 & w1 & A1 & R1 & W1); [| done | done | split; lia |].
  2: { intros i Hi. apply Hun. unfold slots in *. lia. }
  apply bind_Ok in H as ([] & [s2 c2] & H2 & H).
  pose proof (av_table _ _ _ _ _ A1) as T1. pose proof (av_offset _ _ _ _ _ A1) as O1.
  apply (link_entry_Ok w1) in H2 as (-> & w2 & noff & A2 & L2);
    [| apply A1 | done | | | | done | done | done].
  2: { apply (place_adv _ _ _ _ _ table (index + 1) ci (count (n_kind e) + 1) (count (n_kind e))) in A1; [| split; lia | lia].
       by replace (count (n_kind e) + 1 - count (n_kind e)) with 1 in A1 by lia. }
  2: { rewrite T1.  intros i Hi. eapply adv_fresh; [exact A1 | apply Hun; unfold slots in *; lia |].
       unfold slots in *. lia. }
  2: { intros i Hi. eapply adv_fresh; [exact A1 | apply Hfree; lia |]. unfold slots. lia. }
  pose proof (av_count _ _ _ _ _ A1) as N1. pose proof (av_count _ _ _ _ _ A2) as N2. rewrite T1 in A2. rewrite T1, N1 in L2.
  pose proof (av_table _ _ _ _ _ A2) as T2. pose proof (av_offset _ _ _ _ _ A2) as O2. rewrite T1 in T2.
  replace (ci + count (n_kind e) + 1) with (ci + (1 + count (n_kind e))) in * by lia.
  assert (adv w s w2 s2 (fun i => offset s <= i < offset s2 \/ slots (st_inode_table_offset s) ci (ci + (1 + count (n_kind e))) i \/
                                  table + 8 * index <= i < table + 8 * (index + 1))) as A12.
  { eapply adv_trans; [exact A1 | exact A2 |]. cbv beta. intros i. unfold slots. lia. }
  eapply (IH ltac:(intros x Hx; apply Hsp; by right) (index + 1) w2) in H as (-> & w3 & A3 & E3 & W3);
    [| apply A2 | done | lia | | |].
  2: { eapply (place_adv _ _ _ _ _ _ _ _ _ (1 + count (n_kind e))) in A12; [| exact Hp | lia].
       replace (index + 1 + zlen l) with (index + (1 + zlen l)) by lia.
       by replace (1 + count (n_kind e) + count_all l - (1 + count (n_kind e))) with (count_all l) in A12 by lia. }
  2: { intros i Hi. rewrite T2 in Hi. eapply adv_fresh; [exact A12 | apply Hun; unfold slots in *; lia |].
       unfold slots in *. lia. }
  2: { intros i Hi. eapply adv_fresh; [exact A12 | apply Hfree; lia |]. unfold slots. lia. }
  rewrite T2 in A3. rewrite T2, N2, N1 in E3. pose proof (av_offset _ _ _ _ _ A3). split; [lia |]. exists w3. split; [| split].
  - eapply adv_trans; [exact A12 | exact A3 |]. cbv beta. intros i. unfold slots. lia.
  - replace (table + 8 * (index + 1)) with (table + 8 * index + 8) in E3 by lia.
    eapply entries_rep_cons; [apply A3 | exact L2 | | exact E3]. eapply rep_mono; [apply A2 | exact R1].
  - eapply (written_app w2); [exact T2 | apply A3 | | exact W3].
    eapply (written_app w1 w2 s s); [done | apply A2 | exact W1 |].
    pose proof (lk_inode _ _ _ _ _ _ _ _ _ _ L2) as Hi%(has_written w2 s).
    by replace (ci + (1 + count (n_kind e)) - 1) with (ci + count (n_kind e)) in Hi by lia.
Qed.

Lemma contents_placed w s c r s' ci ty k :
  placed w s c (w_offset r) s' -> w_size r = zlen c -> wst w s ->
  (forall w', has w' (w_offset r) c -> rep w' (st_inode_table_offset s) (st_inode_count s) k (w_offset r) (zlen c) ty) ->
  0 <= w_offset r <= offset s' /\ 0 <= w_size r < 2 ^ 32 /\
  exists w', adv w s w' s' (fun i => offset s <= i < offset s' \/ slots (st_inode_table_offset s) ci ci i) /\
    rep w' (st_inode_table_offset s) (st_inode_count s) k (w_offset r) (w_size r) ty /\ written w' s ci ci.
Proof.
  intros (-> & Hc & w' & A & Hh) -> Hw Hr. pose proof (av_offset _ _ _ _ _ A). pose proof (ws_length _ _ Hw).
  split; [unfold zlen in *; lia |]. split; [unfold zlen in *; lia |]. exists w'.
  split; [eapply adv_weaken; [exact A | auto] |]. split; [by apply Hr |]. intros i Hi. unfold slots in Hi. lia.
Qed.

Lemma write_contents_Ok k : contents_spec k.
Proof.
  induction k as [c | p | l IH] using EntryKind_nested_ind; intros w s ci r s' ci' tbl Hw Hn Hp Hun H.
  - apply bind_Ok in H as (x & [s1 c1] & [Hf ->]%on_state_Ok & H). apply ret_Ok in H as [-> [= -> ->]].
    apply (write_file_Ok w) in Hf as [Hpl Hz]; [| done]. cbn [count fst snd]. rewrite Z.add_0_r. split; [done |].
    eapply contents_placed; [done | done | done |]. intros w' Hh. by constructor.
  - apply bind_Ok in H as (x & [s1 c1] & [Hf ->]%on_state_Ok & H). apply ret_Ok in H as [-> [= -> ->]].
    apply (write_link_Ok w) in Hf as [Hpl Hz]; [| done]. cbn [count fst snd]. rewrite Z.add_0_r. split; [done |].
    eapply contents_placed; [done | done | done |]. intros w' Hh. by constructor.
  - subst tbl. cbn [write_contents] in H. pose proof Hp as [P1 P2 P3 P4 P5].
    change (count (EK_Dir l)) with (count_all l) in *. pose proof (ws_max _ _ Hw). pose proof (offset_nonneg _ _ Hw).
    apply bind_Ok in H as (n & [s1 c1] & (-> & Hn16 & [= -> ->])%try_into_Ok & H).
    change (Z.of_nat size_of_DirEntry) with 8 in H. assert (0 <= zlen l) by (unfold zlen; lia).
    apply bind_Ok in H as (o & [s1 c1] & [Hb ->]%on_state_Ok & H).
    apply (bump_alloc_Ok w) in Hb as (-> & A1 & Hle); [| done | lia].
    apply bind_Ok in H as (tb & [s2 c2] & (-> & Ho & [= -> ->])%try_into_Ok & H).
    apply bind_Ok in H as ([] & [s2 c2] & He & H). apply ret_Ok in H as [-> [= -> ->]].
    pose proof (av_table _ _ _ _ _ A1) as T1.
    eapply (write_entries_Ok (offset s) l IH 0 w) in He as (-> & w2 & A2 & E2 & W2);
      [| apply A1 | done | done | | |].
    2: { eapply (place_adv _ _ _ _ _ (offset s) 0 ci (count_all l) 0) in A1; [| done | split; [lia |]; apply count_nonneg].
         rewrite Z.add_0_r, Z.sub_0_r in A1. destruct A1. split; lia. }
    2: { intros i Hi. rewrite T1 in Hi. by apply Hun. }
    2: { intros i Hi. apply (fresh_above w s); [done | lia]. }
    rewrite T1, ?(av_count _ _ _ _ _ A1) in *. cbn [fst snd w_offset w_size]. pose proof (av_offset _ _ _ _ _ A1). pose proof (av_offset _ _ _ _ _ A2).
    split; [done |]. split; [lia |]. split; [lia |]. exists w2. split; [| split].
    + eapply adv_trans; [exact A1 | exact A2 |]. cbv beta. intros i. unfold slots. lia.
    + rewrite (Z.mul_comm (zlen l)). constructor; [done |]. by rewrite Z.mul_0_r, Z.add_0_r in E2.
    + intros i Hi. apply W2. by rewrite T1.
Qed.

(** ** The source *)

Fixpoint host_named (k : HostKind) : Prop :=
  match k with
  | H_dir (Some l) => foldr (fun e P => n_name e <> [] /\ host_named (n_kind e) /\ P) True l
  | _ => True
  end.

(** What [read_directory] makes of the kind of an entry, when it succeeds. *)
Inductive reads : HostKind -> EntryKind -> Prop :=
| reads_file c : reads (H_file (Some c)) (EK_File c)
| reads_link p : reads (H_symlink (Some p)) (EK_Link p)
| reads_dir l d :
    Forall2 (fun e e' => n_name e' = n_name e /\ n_mode e' = n_mode e /\ reads (n_kind e) (n_kind e')) l d ->
    reads (H_dir (Some l)) (EK_Dir d).

Lemma HostKind_nested_ind (P : HostKind -> Prop) :
  (forall k, match k with H_dir (Some _) => False | _ => True end -> P k) ->
  (forall l, (forall e, e ∈ l -> P (n_kind e)) -> P (H_dir (Some l))) -> forall k, P k.
Proof.
  intros H0 Hd. fix IH 1. intros [| | | | | c | [l |] | t |]; try by apply H0. apply Hd.
  apply Forall_forall. induction l as [| e l IHl]; constructor; [apply IH | exact IHl].
Qed.

Lemma count_inode_Ok s s' : count_inode s = (Ok tt, s') -> s' = set_inode_count (st_inode_count s + 1) s /\ st_inode_count s + 1 < 2 ^ 16.
Proof.
  unfold count_inode. rewrite gets_bind. destruct (Z.ltb_spec (st_inode_count s + 1) (2 ^ 16)); [| done]. by intros [= <-].
Qed.

Lemma read_kind_Ok k s x s' :
  read_kind k s = (Ok x, s') -> 0 <= st_inode_count s < 2 ^ 16 ->
  reads k x /\ s' = set_inode_count (st_inode_count s + count x) s /\ st_inode_count s + count x < 2 ^ 16.
Proof.
  revert s x s'. induction k as [k Hk | l IH] using HostKind_nested_ind; intros s x s' H Hc.
  - assert (set_inode_count (st_inode_count s + 0) s = s) as E by (rewrite Z.add_0_r; by destruct s).
    destruct k as [| | | | | [c |] | [l |] | [t |] |]; try done; apply ret_Ok in H as [-> ->]; cbn [count];
      (split; [constructor | rewrite E, Z.add_0_r; split; [done | lia]]).
  - cbn [read_kind] in H. apply bind_Ok in H as (d & s1 & Hd & H). apply ret_Ok in H as [-> ->].
    enough (Forall2 (fun e e' => n_name e' = n_name e /\ n_mode e' = n_mode e /\ reads (n_kind e) (n_kind e')) l d /\
            s1 = set_inode_count (st_inode_count s + count_all d) s /\ st_inode_count s + count_all d < 2 ^ 16)
      as (H1 & -> & H2) by (split; [by constructor | done]).
    revert s d s1 Hd Hc. induction l as [| e l IHl]; intros s d s1 H Hc.
    + apply ret_Ok in H as [-> ->]. split; [constructor |]. unfold count_all. cbn. rewrite Z.add_0_r. split; [by destruct s | lia].
    + cbn [read_entries] in H. apply bind_Ok in H as (y & s2 & Hy & H).
      apply (IH e ltac:(by left)) in Hy as (R & -> & Hlt); [| done]. pose proof (count_nonneg y).
      apply bind_Ok in H as ([] & s2 & [-> Hlt2]%count_inode_Ok & H). cbn [st_inode_count set_inode_count] in *.
      apply bind_Ok in H as (rest & s2 & Hr & H). apply ret_Ok in H as [-> ->].
      apply IHl in Hr as (Hf & -> & Hlt3); [| intros x Hx; apply IH; by right | cbn; lia].
      cbn [st_inode_count set_inode_count] in *. rewrite count_cons. cbn [n_kind].
      split; [by constructor |].
      replace (st_inode_count s + (1 + count y + count_all rest)) with (st_inode_count s + count y + 1 + count_all rest) by lia.
      done.
Qed.

Lemma reads_named k x : reads k x -> host_named k -> named x.
Proof.
  revert x. induction k as [k Hk | l IH] using HostKind_nested_ind; intros x Hr; inversion Hr as [| | ? d Hf]; subst; try done.
  revert Hf. clear Hr. revert d. induction l as [| e l IHl]; intros d Hf Hn; inversion Hf as [| ? e' ? d' (E1 & E2 & E3)]; subst; [done |].
  destruct Hn as (H1 & H2 & H3). apply named_cons. rewrite E1. split; [done |].
  split; [by apply (IH e ltac:(by left)) |]. apply IHl; [| done..]. intros x Hx; apply IH; by right.
Qed.

(** ** The image *)

Lemma byte_from_bounds a n d b : bytes_from a n d = Ok b -> 0 <= from_le b < 256 ^ Z.of_nat n /\ 0 <= from_be b < 256 ^ Z.of_nat n.
Proof.
  unfold bytes_from. destruct (get_range _ _ d) as [x |] eqn:E; [| done]. intros [= ->].
  apply get_range_Some in E as [Hr E]. assert (length b = n) as <-.
  { rewrite E, length_take, length_drop. unfold zlen in Hr. lia. }
  unfold from_be. split; [apply from_le_bounds |]. rewrite <- length_rev. apply from_le_bounds.
Qed.

Lemma elf_entry_bounds d e : elf_entry d = Ok e -> 0 <= e < 2 ^ 64.
Proof.
  unfold elf_entry. destruct (bytes_from 0 4 d); cbn [mbind outcome_bind]; try done. case_bool_decide; [| done]. cbn [negb].
  destruct (byte_at 4 d) as [c | |]; [| done..]. destruct (byte_at 5 d) as [o | |]; [| done..]. cbn [mbind outcome_bind].
  intros He.
  assert (exists n b, (n = 4 \/ n = 8)%nat /\ bytes_from 24 n d = Ok b /\ (e = from_le b \/ e = from_be b)) as (n & b & Hn & Hb & Hv).
  { destruct c as [| [[] | [[] | [] |] |] |]; try done; destruct o as [| [[] | [[] | [] |] |] |]; try done;
      match type of He with context [bytes_from ?x ?n d] => destruct (bytes_from x n d) as [b | |] eqn:Hb; try done; injection He as <-; exists n, b end;
      auto. }
  apply byte_from_bounds in Hb. destruct Hn as [-> | ->], Hv as [-> | ->]; cbn in Hb |- *; lia.
Qed.
End writer.
