(* ===== verification/InitfsReadFacts.v ===== *)
(** * initfs: the whole image

    What [archive] leaves when it succeeds, in the reader's terms: a header
    that the reader accepts, a table of inodes within the image, and the tree.

    What the reader of [Initfs.v] and the scheme of [InitfsScheme.v] find in an
    image whose bytes represent a tree. *)

From stdpp Require Import base gmap strings list fin_maps.
From Stdlib Require Import ZArith Lia.
From Stdlib Require Import Strings.Byte.
From S2P Require Import Prelude Memory Initfs InitfsArchive InitfsFacts InitfsArchiveFacts.

Local Open Scope Z_scope.

(** The arguments are within the widths of the header, no entry has an empty
    name, and what may be allocated leaves offsets 32 bits wide. *)
Record args_fit (a : Args) : Prop := {
  ga_max : 0 <= a_max_size a <= 2 ^ 32 - 8192;
  ga_sec : 0 <= sec (now a) < 2 ^ 64;
  ga_nsec : 0 <= nsec (now a) < 2 ^ 32;
  ga_named : host_named (H_dir (source a))
}.

(** The bytes of the bootstrap code lie behind the page of the header, and
    the header names its entry point. *)
Definition bootstraps (code : option (list u8)) (entry : Z) (w : memory) : Prop :=
  match code with
  | Some c => has w 4096 c /\ elf_entry c = Ok entry
  | None => entry = 2 ^ 64 - 1
  end.

(** The image [img] of the tree [dir], with known bytes [w]. *)
Record image (a : Args) (img : list u8) (dir : Dir) (w : memory) (h : Header) (off size : Z) : Prop := {
  im_agrees : agrees w img;
  im_header : has w 0 (header_bytes h);
  im_fits : header_fits h;
  im_magic : magic h = MAGIC;
  im_page : page_size h = PAGE_SIZE;
  im_time : creation_time h = now a;
  im_size : initfs_size h = zlen img;
  im_count : inode_count h = 1 + count_all dir;
  im_boot : bootstraps (bootstrap_code a) (bootstrap_entry h) w;
  im_table : 4096 <= inode_table_offset h;
  im_end : inode_table_offset h + 20 * inode_count h <= zlen img;
  im_limit : zlen img <= 2 ^ 32 - 8192;
  im_root : has w (inode_table_offset h) (inode_bytes (inode_for T_Dir (root_mode a) off size));
  im_root_off : 0 <= off < 2 ^ 32;
  im_root_size : 0 <= size < 2 ^ 32;
  im_rep : rep w (inode_table_offset h) (inode_count h) (EK_Dir dir) off size T_Dir
}.

Section image.
Context {TG : Target} {HIO : HostIO} {FR : FullReads HIO}.

Lemma write_bootstrap_Ok w s code entry s' :
  wst w s -> write_bootstrap code s = (Ok entry, s') ->
  0 <= entry < 2 ^ 64 /\ exists w', adv w s w' s' (fun i => offset s <= i < offset s') /\
    match code with Some c => has w' (offset s) c /\ elf_entry c = Ok entry | None => entry = 2 ^ 64 - 1 end.
Proof.
  intros Hw H. destruct code as [c |].
  - cbn [write_bootstrap] in H. apply bind_Ok in H as (n & s1 & ->%io_Ok & H).
    pose proof (adv_called w s Hw) as A0. apply bind_Ok in H as (r & s2 & Hf & H).
    apply (write_file_Ok w) in Hf as [(E & _ & w1 & A1 & Hc) _]; [| apply A0].
    apply bind_Ok in H as (n' & s3 & ->%io_Ok & H). apply lift_Ok in H as [He ->].
    split; [by eapply elf_entry_bounds |]. exists w1. split; [| by rewrite E in Hc].
    pose proof (adv_called w1 s2 (av_wst _ _ _ _ _ A1)) as A2.
    pose proof (adv_trans _ _ _ _ _ _ _ _ _ A0 A1 (fun i H => match H with or_introl f => match f with end | or_intror h => h end)) as A.
    eapply adv_trans; [exact A | exact A2 |]. cbn. tauto.
  - apply ret_Ok in H as [-> ->]. split; [lia |]. exists w. split; [by apply adv_refl | done].
Qed.

(** The tree and its root, in the table behind the bootstrap code. *)
Lemma write_tree_Ok w s dir mode s' :
  let tbl := st_inode_table_offset s in
  wst w s -> named (EK_Dir dir) -> 0 <= tbl -> tbl + 20 * st_inode_count s <= offset s ->
  st_inode_count s = 1 + count_all dir -> st_inode_count s <= 2 ^ 16 ->
  (forall i, tbl <= i < tbl + 20 * st_inode_count s -> w !! i = None) ->
  allocate_contents_and_write_inodes dir mode s = (Ok tt, s') ->
  exists w' off size, adv w s w' s' (fun i => tbl <= i) /\ 0 <= off < 2 ^ 32 /\ 0 <= size < 2 ^ 32 /\
    has w' tbl (inode_bytes (inode_for T_Dir mode off size)) /\ rep w' tbl (st_inode_count s) (EK_Dir dir) off size T_Dir /\
    written w' s (-1) (count_all dir).
Proof.
  intros tbl Hw Hn Ht Hle Hcnt H16 Hfree H. subst tbl. unfold allocate_contents_and_write_inodes in H.
  destruct (allocate_and_write_dir dir (s, 0)) as [[r | |] [s1 c1]] eqn:Ed; [| done..].
  unfold allocate_and_write_dir in Ed. apply bind_Ok in Ed as (q & [s2 c2] & Hc & Er). apply ret_Ok in Er as [-> [= -> ->]].
  assert (q.2 = T_Dir) as Hty.
  { clear -Hc. apply bind_Ok in Hc as (n & x1 & _ & H). apply bind_Ok in H as (o & x2 & _ & H).
    apply bind_Ok in H as (tb & x3 & _ & H). apply bind_Ok in H as ([] & x4 & _ & H). by apply ret_Ok in H as [-> _]. }
  pose proof (count_nonneg (EK_Dir dir)) as Hc0. change (count (EK_Dir dir)) with (count_all dir) in Hc0.
  apply (write_contents_Ok (EK_Dir dir) w) in Hc as (-> & Ho & Hz & w1 & A1 & R1 & W1); [| done | done | |].
  2: { change (count (EK_Dir dir)) with (count_all dir). split; lia. }
  2: { intros i Hi. apply Hfree. unfold slots in Hi. change (count (EK_Dir dir)) with (count_all dir) in Hi. lia. }
  change (count (EK_Dir dir)) with (count_all dir) in *.
  pose proof (av_table _ _ _ _ _ A1) as T1. pose proof (av_offset _ _ _ _ _ A1) as O1. pose proof (ws_max _ _ (av_wst _ _ _ _ _ A1)).
  apply (write_inode_Ok w1) in H as (O2 & w2 & A2 & Hi2); rewrite ?T1 in *; [| apply A1 | done | done | lia |].
  2: { intros i Hi. unfold slots in Hi. eapply adv_fresh; [exact A1 | apply Hfree; lia |]. unfold slots. lia. }
  rewrite Z.mul_0_r, Z.add_0_r in Hi2. rewrite Hty in R1. exists w2, (w_offset q.1), (w_size q.1).
  split; [| split; [lia |]; split; [done |]; split; [done |]; split].
  - eapply adv_trans; [exact A1 | exact A2 |]. cbv beta. unfold slots. intros i. lia.
  - eapply rep_mono; [apply A2 | done].
  - eapply (written_app w2 w2 s s _ 0); [done | done | |].
    + apply (has_written w2 s 0 (inode_for T_Dir mode (w_offset q.1) (w_size q.1))). by rewrite Z.mul_0_r, Z.add_0_r.
    + intros i Hi. destruct (W1 i) as [x Hx]; [exact Hi |]. exists x. eapply lookup_weaken; [done | apply A2].
Qed.

Lemma wst_initial m : 0 <= m <= 2 ^ 32 - 8192 -> wst ∅ (initial m).
Proof.
  intros Hm. split; cbn; [by intros i x | done | by intros i x | lia |]. apply length_replicate.
Qed.

Lemma write_all_at_file b off s s' : write_all_at b off s = (Ok tt, s') -> file s' = pwrite (Z.to_nat off) b (file s).
Proof. intros H. unfold write_all_at in H. by apply bind_Ok in H as (n & s1 & ->%io_Ok & [= <-]). Qed.

(** A header that lies below everything else. *)
Lemma write_header_Ok w s entry tbl time s' :
  wst w s -> (forall i, 0 <= i < 4096 -> w !! i = None) -> 4096 <= offset s ->
  let h := {| magic := MAGIC; inode_table_offset := tbl; creation_time := time; inode_count := st_inode_count s;
              bootstrap_entry := entry; initfs_size := zlen (file s); page_size := PAGE_SIZE |} in
  write_header entry tbl time 0 s = (Ok tt, s') ->
  wst (store 0 (header_bytes h) w) s' /\ w ⊆ store 0 (header_bytes h) w /\
  zlen (file s') = Z.max (zlen (file s)) 44.
Proof.
  intros Hw Hf Ho h H. unfold write_header in H. apply bind_Ok in H as (n & s1 & ->%io_Ok & H).
  rewrite !gets_bind in H. cbn [file called st_inode_count] in H. fold h in H.
  assert (zlen (header_bytes h) = 44) as Hz by (unfold zlen; by rewrite length_header_bytes).
  assert (header_bytes h <> []) as Hne by (intros E; by rewrite E in Hz).
  pose proof (write_all_at_file _ _ _ _ H) as E. cbn [file called] in E.
  eapply write_all_at_Ok in H as [A _];
    [| apply (av_wst _ _ _ _ _ (adv_called w s Hw)) | done | change (offset (called s)) with (offset s); lia | intros i Hi; apply Hf; lia].
  split; [apply A |]. split; [apply A |]. rewrite E. unfold zlen in *. rewrite length_pwrite by done. lia.
Qed.

(** The known bytes reach into the file. *)
Lemma known_length w s i : wst w s -> is_Some (w !! i) -> i < zlen (file s).
Proof. intros Hw [x [_ Hx%lookup_lt_Some]%(ws_agrees _ _ Hw)]. unfold zlen. lia. Qed.

Lemma bump_first s o s' : offset s = 0 -> bump_alloc 4096 s = (Ok o, s') -> offset s' = 4096.
Proof.
  intros E. unfold bump_alloc. rewrite gets_bind, E. intros H. apply bind_Ok in H as (e & s1 & [-> ->]%arith_Ok & H); [| lia].
  apply bind_Ok in H as (e & s1 & [-> ->]%ret_Ok & H). rewrite gets_bind in H. destruct (_ <=? _); [| done].
  rewrite modify_bind in H. by apply ret_Ok in H as [_ ->].
Qed.

(** The part of [build] behind the bootstrap code. *)
Definition finish (a : Args) (root : Dir) (entry : Z) : M State unit :=
  n ← gets st_inode_count;
  o ← bump_alloc (n * Z.of_nat size_of_InodeHeader);
  table ← try_into 32 o;
  modify (set_table table);;
  allocate_contents_and_write_inodes root (root_mode a);;
  write_header entry table (now a) 0;;
  _ ← io;
  mret tt.

Lemma finish_Ok a dir entry w s s' :
  args_fit a -> wst w s -> (forall i, 0 <= i < 4096 -> w !! i = None) -> 4096 <= offset s -> named (EK_Dir dir) ->
  st_inode_count s = 1 + count_all dir -> 1 + count_all dir < 2 ^ 16 -> 0 <= entry < 2 ^ 64 ->
  bootstraps (bootstrap_code a) entry w ->
  finish a dir entry s = (Ok tt, s') ->
  exists w h off size, image a (file s') dir w h off size.
Proof.
  intros [_ Hs1 Hs2 _] Hw Hlow Ho Hn Hcnt H16 He Hboot H. unfold finish in H. rewrite gets_bind in H.
  pose proof (count_nonneg (EK_Dir dir)) as Hc0. change (count (EK_Dir dir)) with (count_all dir) in Hc0.
  change (Z.of_nat size_of_InodeHeader) with 20 in H.
  apply bind_Ok in H as (o & s1 & Hb & H). apply (bump_alloc_Ok w) in Hb as (-> & A1 & O1); [| done | lia].
  apply bind_Ok in H as (tbl & s2 & (-> & Ht & ->)%try_into_Ok & H). rewrite modify_bind in H.
  set (s2 := set_table (offset s) s1) in *. pose proof (av_wst _ _ _ _ _ A1) as W1. pose proof (av_count _ _ _ _ _ A1) as C1.
  assert (wst w s2) as W2 by (destruct W1; by split).
  apply bind_Ok in H as ([] & s3 & Htree & H).
  apply (write_tree_Ok w s2) in Htree as (w3 & off & size & A3 & Ho3 & Hz3 & Hroot & Hrep & Hwr); cbn [offset st_inode_count st_inode_table_offset s2 set_table] in *;
    [| done | done | lia | lia | lia | lia | intros i Hi; apply (fresh_above w s); [done | lia]].
  pose proof (ws_length _ _ (av_wst _ _ _ _ _ A3)) as L3. pose proof (ws_max _ _ (av_wst _ _ _ _ _ A3)) as M3.
  pose proof (av_count _ _ _ _ _ A3) as C3. cbn in C3. pose proof (av_offset _ _ _ _ _ A3) as O3. cbn in O3.
  assert (offset s + 20 * st_inode_count s3 <= zlen (file s3)) as Hend.
  { enough (offset s + 20 * st_inode_count s3 - 1 < zlen (file s3)) by lia.
    apply (known_length w3); [apply A3 |]. apply Hwr. unfold slots. change (st_inode_table_offset s2) with (offset s). lia. }
  apply bind_Ok in H as ([] & s4 & Hh & H). apply bind_Ok in H as (n & s5 & ->%io_Ok & H).
  apply ret_Ok in H as [_ ->]. cbn [file called].
  apply (write_header_Ok w3) in Hh as (W4 & Hsub & E4);
    [| apply A3 | intros i Hi; eapply adv_fresh; [exact A3 | by apply Hlow | cbv beta; change (st_inode_table_offset s2) with (offset s); lia] | lia].
  rewrite Z.max_l in E4 by lia. eexists _, _, off, size. split.
  - apply W4.
  - apply has_store.
  - split; cbn; try done; try lia; unfold zlen in *; lia.
  - done.
  - done.
  - done.
  - cbn. by rewrite E4.
  - cbn [inode_count]. lia.
  - cbn [bootstrap_entry]. unfold bootstraps in *. destruct (bootstrap_code a); [| done].
    destruct Hboot as [Hbc He']. split; [| done]. eapply has_mono; [apply Hsub |]. eapply has_mono; [apply A3 | done].
  - cbn. lia.
  - cbn. rewrite E4. lia.
  - rewrite E4. lia.
  - cbn [inode_table_offset]. by eapply has_mono.
  - done.
  - done.
  - cbn [inode_table_offset inode_count]. eapply rep_mono; [exact Hsub |]. by rewrite C3.
Qed.

Lemma build_Ok a s' :
  args_fit a -> build a (initial (a_max_size a)) = (Ok tt, s') ->
  exists dir w h off size, reads (H_dir (source a)) (EK_Dir dir) /\ image a (file s') dir w h off size.
Proof.
  intros Ha H. pose proof Ha as [Hm Hs1 Hs2 Hn]. pose proof (wst_initial _ Hm) as Hw0. set (s0 := initial (a_max_size a)) in *.
  unfold build in H. apply bind_Ok in H as (dir & s1 & Hr & H).
  destruct (source a) as [l |] eqn:Esrc; [| done].
  assert (read_kind (H_dir (Some l)) s0 = (Ok (EK_Dir dir), s1)) as Hk.
  { cbn [read_kind]. unfold read_directory in Hr. unfold mbind, M_bind. by rewrite Hr. }
  apply read_kind_Ok in Hk as (Hreads & -> & Hcnt); [| done]. change (count (EK_Dir dir)) with (count_all dir) in *.
  set (sa := set_inode_count _ _) in *. cbn [st_inode_count s0 initial] in Hcnt.
  assert (wst ∅ sa) as Hwa by (destruct Hw0; by split).
  apply bind_Ok in H as (ho & s2 & Hb & H). pose proof (bump_first sa _ _ eq_refl Hb) as O2.
  apply (bump_alloc_Ok ∅) in Hb as (-> & A1 & _); [| done | lia].
  apply bind_Ok in H as ([] & s2' & [_ ->]%ret_Ok & H). apply bind_Ok in H as (entry & s3 & Hbs & H).
  apply (write_bootstrap_Ok ∅) in Hbs as (He & w3 & A2 & Hboot); [| apply A1].
  pose proof (av_count _ _ _ _ _ A1) as C1. pose proof (av_count _ _ _ _ _ A2) as C2. pose proof (av_offset _ _ _ _ _ A2).
  apply (finish_Ok a dir entry w3 s3) in H as (w & h & off & size & Him); [exists dir, w, h, off, size; by split | done | apply A2 | | lia
    | eapply reads_named; [done | exact Hn] | | done | done | by rewrite O2 in Hboot].
  - intros i Hi. eapply adv_fresh; [exact A2 | done |]. cbv beta. rewrite O2. lia.
  - rewrite C2, C1. done.
Qed.

Lemma archive_image a img :
  args_fit a -> archive a = Ok img ->
  exists dir w h off size, reads (H_dir (source a)) (EK_Dir dir) /\ image a img dir w h off size.
Proof.
  intros Ha H. unfold archive in H. destruct (build a (initial (a_max_size a))) as [[[] | |] s'] eqn:E; [| done..].
  injection H as <-. by eapply build_Ok.
Qed.
End image.

(** ** Slices of structures *)

Lemma lookup_chunks n l i :
  (0 < n)%nat -> chunks n l !! i = if (S i * n <=? length l)%nat then Some (take n (drop (i * n) l)) else None.
Proof.
  intros Hn. unfold chunks. rewrite list_lookup_fmap.
  destruct (Nat.leb_spec (S i * n) (length l)) as [Hle | Hgt].
  - rewrite lookup_seq_lt; [done |]. enough (S i <= length l / n)%nat by lia. apply Nat.div_le_lower_bound; lia.
  - rewrite (lookup_seq_ge); [done |]. enough (length l / n < S i)%nat by lia.
    apply Nat.Div0.div_lt_upper_bound. lia.
Qed.

Lemma chunks_app n a l : (0 < n)%nat -> length a = n -> chunks n (a ++ l) = a :: chunks n l.
Proof.
  intros Hn Ha. apply list_eq. intros [| i]; rewrite lookup_chunks by done; cbn [lookup list_lookup].
  - rewrite (proj2 (Nat.leb_le _ _)) by (rewrite length_app; lia). rewrite Nat.mul_0_l, drop_0. by rewrite take_app_length'.
  - change (list_lookup i (chunks n l)) with (chunks n l !! i). rewrite lookup_chunks, length_app, Ha by done.
    replace (S (S i) * n <=? n + length l)%nat with (S i * n <=? length l)%nat by (destruct (Nat.leb_spec (S i * n) (length l)); symmetry; [apply Nat.leb_le | apply Nat.leb_gt]; lia).
    destruct (_ <=? _)%nat; [| done]. do 2 f_equal. rewrite drop_app_ge by lia. f_equal. lia.
Qed.

Lemma chunks_nil n : (0 < n)%nat -> chunks n [] = [].
Proof. intros Hn. unfold chunks. by rewrite Nat.div_small. Qed.

Lemma chunks_concat n ls : (0 < n)%nat -> Forall (fun l => length l = n) ls -> chunks n (concat ls) = ls.
Proof.
  intros Hn. induction 1 as [| l ls Hl _ IH]; cbn [concat]; [by apply chunks_nil |]. by rewrite chunks_app, IH.
Qed.

(** Something for every place of a list. *)
Lemma list_choice {A B} (Q : nat -> A -> B -> Prop) l :
  (forall i x, l !! i = Some x -> exists y, Q i x y) ->
  exists l', length l' = length l /\ forall i x y, l !! i = Some x -> l' !! i = Some y -> Q i x y.
Proof.
  revert Q. induction l as [| x l IH]; intros Q H; [exists []; by split |].
  destruct (H 0%nat x eq_refl) as [y Hy]. destruct (IH (fun i => Q (S i))) as (l' & Hl & Hq).
  { intros i z Hz. by apply (H (S i)). }
  exists (y :: l'). split; [cbn; by rewrite Hl |]. intros [| i] z z'; cbn; [congruence | apply Hq].
Qed.

Lemma has_app w off a b : has w off a -> has w (off + zlen a) b -> has w off (a ++ b).
Proof.
  intros Ha Hb. apply load_Some. split; [done |]. intros k Hk. rewrite length_app in Hk.
  destruct (decide (k < length a)%nat) as [Hlt | Hge].
  - rewrite lookup_app_l by done. destruct (lookup_lt_is_Some_2 a k Hlt) as [x Hx]. rewrite Hx. by eapply has_lookup.
  - rewrite lookup_app_r by lia. destruct (lookup_lt_is_Some_2 b (k - length a)) as [x Hx]; [lia |]. rewrite Hx.
    apply (has_lookup _ _ _ _ _ Hb) in Hx. rewrite <- Hx. f_equal. unfold zlen. lia.
Qed.

Lemma has_concat w off (ls : list (list u8)) n :
  Forall (fun l => length l = n) ls -> (forall i l, ls !! i = Some l -> has w (off + Z.of_nat (n * i)) l) ->
  has w off (concat ls).
Proof.
  intros Hn. revert off. induction Hn as [| l ls Hl _ IH]; intros off H; [done |]. cbn [concat].
  pose proof (H 0%nat l eq_refl) as H0. rewrite Nat.mul_0_r, Z.add_0_r in H0. apply has_app; [done |].
  apply IH. intros i x Hx. specialize (H (S i) x Hx). unfold zlen. rewrite Hl.
  by replace (off + Z.of_nat n + Z.of_nat (n * i)) with (off + Z.of_nat (n * S i)) by lia.
Qed.

(** ** Inodes *)

(** The word that [write_inode] makes of a type and a mode. *)
Lemma type_and_mode_value ty mode :
  Z.lor (Z.shiftl (type_code ty) TYPE_SHIFT) (Z.land mode 0xFFF) = type_code ty * 2 ^ 28 + mode mod 2 ^ 12.
Proof.
  assert (Z.land (Z.shiftl (type_code ty) TYPE_SHIFT) (Z.land mode 0xFFF) = 0) as H0.
  { rewrite (Z.land_comm mode), Z.land_assoc. by destruct ty. }
  rewrite <- Z.lxor_lor, <- Z.add_nocarry_lxor by done. change 0xFFF with (Z.ones 12). rewrite Z.land_ones by lia.
  f_equal. by destruct ty.
Qed.

Section inode.
Context (ty : InodeType) (md off size : Z).

Lemma type_code_bounds : 0 <= type_code ty <= 2.
Proof. by destruct ty. Qed.

Lemma inode_for_fits : 0 <= off < 2 ^ 32 -> 0 <= size < 2 ^ 32 -> inode_fits (inode_for ty md off size).
Proof.
  intros Ho Hs. split; cbn [inode_for type_and_mode length_ offset_ i_uid i_gid]; try lia.
  rewrite type_and_mode_value. pose proof type_code_bounds. pose proof (Z.mod_pos_bound md (2 ^ 12) ltac:(lia)). lia.
Qed.

Lemma ty_inode_for img : Initfs.ty {| s_fs := img; s_inode := inode_for ty md off size |} = Some ty.
Proof.
  unfold Initfs.ty. cbn [s_inode inode_for type_and_mode]. rewrite type_and_mode_value, Z.shiftr_land, Z.shiftr_div_pow2 by done.
  assert ((type_code ty * 2 ^ 28 + md mod 2 ^ 12) / 2 ^ TYPE_SHIFT = type_code ty) as ->.
  { change TYPE_SHIFT with 28. pose proof (Z.mod_pos_bound md (2 ^ 12) ltac:(lia)). rewrite Z.div_add_l, Z.div_small by lia. lia. }
  by destruct ty.
Qed.

Lemma mode_inode_for img : mode {| s_fs := img; s_inode := inode_for ty md off size |} = md mod 2 ^ 12.
Proof.
  unfold mode. cbn [s_inode inode_for type_and_mode]. rewrite type_and_mode_value. change MODE_MASK with (Z.ones 12).
  rewrite Z.land_ones by lia. replace (type_code ty * 2 ^ 28) with (type_code ty * 2 ^ 16 * 2 ^ 12) by lia.
  by rewrite Z.add_comm, Z.mod_add, Z.mod_mod.
Qed.
End inode.

(** ** An image *)

Section read.
Context {TG : Target} {PL : Plain} {PLL : PlainLaws PL}.
Context (a : Args) (img : list u8) (dir : Dir) (w : memory) (h : Header) (root_off root_size : Z).
Hypothesis Him : image a img dir w h root_off root_size.

Local Abbreviation tbl := (inode_table_offset h).
Local Abbreviation cnt := (inode_count h).

Lemma cnt_pos : 0 < cnt.
Proof. rewrite (im_count _ _ _ _ _ _ _ Him). pose proof (count_nonneg (EK_Dir dir)). unfold count_all. lia. Qed.

Lemma header_at_front : take size_of_Header img = header_bytes h /\ (size_of_Header <= length img)%nat.
Proof.
  pose proof (length_header_bytes h (hf_magic _ (im_fits _ _ _ _ _ _ _ Him))) as Hl.
  destruct (has_agrees w img 0 (header_bytes h)) as [H1 H2]; [apply Him | apply Him | by intros E; rewrite E in Hl | done |].
  rewrite Hl in H2. split; [exact H2 |]. unfold zlen in H1. lia.
Qed.

Lemma get_header : get_header_assume_valid img = Ok h.
Proof.
  destruct header_at_front as [H1 H2]. unfold get_header_assume_valid, prefix.
  rewrite (proj2 (Nat.leb_le _ _)) by done. cbn [mbind outcome_bind]. rewrite H1, from_bytes_spec.
  pose proof (length_header_bytes h (hf_magic _ (im_fits _ _ _ _ _ _ _ Him))) as Hl.
  rewrite (proj2 (Nat.leb_le _ _)) by lia. cbn [o_unwrap mbind outcome_bind]. rewrite take_ge by lia.
  rewrite header_roundtrip; [done | apply Him].
Qed.

Lemma table_end : tbl + 20 * cnt <= zlen img <= 2 ^ 32 - 8192 /\ 4096 <= tbl.
Proof. pose proof (im_end _ _ _ _ _ _ _ Him). pose proof (im_limit _ _ _ _ _ _ _ Him). pose proof (im_table _ _ _ _ _ _ _ Him). lia. Qed.

Lemma read_table_size : inode_table_size img = Ok (20 * cnt).
Proof.
  unfold inode_table_size. rewrite get_header. cbn [mbind outcome_bind]. change (Z.of_nat size_of_InodeHeader) with 20.
  pose proof (hf_count _ (im_fits _ _ _ _ _ _ _ Him)). rewrite Z.mod_small by lia. f_equal. lia.
Qed.

(** The reader accepts the image. *)
Lemma new_image : InitFs_new img (Some 4096) = Ok img.
Proof.
  destruct header_at_front as [_ Hl]. pose proof table_end as [He Ht]. unfold InitFs_new, corrupt_if.
  destruct (Nat.ltb_spec (length img) size_of_Header); [lia |]. destruct (Z.leb_spec (2 ^ 32) (zlen img)); [lia |].
  rewrite get_header. cbn [mbind outcome_bind]. rewrite (im_magic _ _ _ _ _ _ _ Him), bool_decide_true by done. cbn [negb].
  change (Z.of_nat size_of_Header) with 44. destruct (Z.ltb_spec tbl 44); [lia |].
  rewrite read_table_size. cbn [mbind outcome_bind]. destruct (Z.leb_spec (2 ^ 32) (tbl + 20 * cnt)); [lia |].
  unfold base_len_32. rewrite Z.mod_small by (unfold zlen in *; lia). destruct (Z.ltb_spec (zlen img) (tbl + 20 * cnt)); [lia |].
  by rewrite (im_page _ _ _ _ _ _ _ Him).
Qed.

Lemma read_table :
  exists bytes, length bytes = (20 * Z.to_nat cnt)%nat /\
    (forall k, (k < length bytes)%nat -> bytes !! k = img !! (Z.to_nat tbl + k)%nat) /\
    inode_table img = Ok (map inode_of (chunks 20 bytes)).
Proof.
  pose proof table_end as [He Ht]. pose proof usize_mod_ge. pose proof cnt_pos.
  assert (get_range tbl (tbl + 20 * cnt) img = Some (take (Z.to_nat (20 * cnt)) (drop (Z.to_nat tbl) img))) as Hr.
  { unfold get_range. rewrite !(proj2 (Z.leb_le _ _)) by lia. cbn [andb]. do 2 f_equal. lia. }
  eexists. split; [| split; [| unfold inode_table, inode_table_end_usize, inode_table_offset_usize; rewrite get_header, read_table_size;
    cbn [mbind outcome_bind]; rewrite Z.mod_small, Hr by lia; cbn [o_unwrap mbind outcome_bind];
    rewrite slice_from_bytes_spec by (unfold size_of_InodeHeader; lia); reflexivity]].
  - rewrite length_take, length_drop. unfold zlen in *. lia.
  - intros k Hk. rewrite lookup_take_lt, lookup_drop; [done |]. rewrite length_take in Hk. lia.
Qed.

Lemma get_inode_known ino i :
  0 <= ino < cnt -> has w (tbl + 20 * ino) (inode_bytes i) -> inode_fits i ->
  get_inode img ino = Ok (Some {| s_fs := img; s_inode := i |}).
Proof.
  intros Hino Hh Hf. destruct read_table as (bytes & Hl & Hk & Ht). unfold get_inode. rewrite Ht. cbn [mbind outcome_bind].
  change (map inode_of (chunks 20 bytes)) with (inode_of <$> chunks 20 bytes).
  rewrite list_lookup_fmap, lookup_chunks by lia. rewrite (proj2 (Nat.leb_le _ _)) by lia. cbn [fmap option_fmap option_map].
  assert (take 20 (drop (Z.to_nat ino * 20) bytes) = inode_bytes i) as ->; [| by rewrite inode_roundtrip].
  pose proof (length_inode_bytes i) as Hb. unfold size_of_InodeHeader in Hb. pose proof table_end.
  apply list_eq. intros k. destruct (decide (k < 20)%nat) as [Hlt | Hge].
  - rewrite lookup_take_lt, lookup_drop, Hk by lia. destruct (lookup_lt_is_Some_2 (inode_bytes i) k) as [x Hx]; [lia |].
    rewrite Hx. apply (has_lookup _ _ _ _ _ Hh) in Hx. apply (im_agrees _ _ _ _ _ _ _ Him) in Hx as [_ Hx]. rewrite <- Hx. f_equal. lia.
  - rewrite !lookup_ge_None_2; [done | lia |]. rewrite length_take. lia.
Qed.

Lemma data_known off size ty md c :
  has w off c -> 0 <= off <= zlen img -> size = zlen c ->
  data {| s_fs := img; s_inode := inode_for ty md off size |} = Ok c.
Proof.
  intros Hh Ho ->. unfold data, span. cbn [s_fs s_inode inode_for offset_ length_]. pose proof table_end. pose proof usize_mod_ge.
  assert (off + zlen c <= zlen img) as Hle.
  { destruct c as [| b c]; [unfold zlen in *; cbn; lia |]. destruct (has_agrees w img off (b :: c)); [apply Him | done | done | lia | done]. }
  unfold usize_checked_add. rewrite (proj2 (Z.ltb_lt _ _)) by lia. cbn [o_ok_or mbind outcome_bind].
  by rewrite (has_range w img off c (im_agrees _ _ _ _ _ _ _ Him) Hh Ho).
Qed.

(** ** Nodes *)

(** The inode [ino] is that of a node of the tree. *)
Definition node_at (ino : Z) (e : Node EntryKind) : Prop :=
  0 <= ino < cnt /\ exists ty off size,
    has w (tbl + 20 * ino) (inode_bytes (inode_for ty (n_mode e) off size)) /\
    0 <= off <= zlen img /\ 0 <= size < 2 ^ 32 /\ rep w tbl cnt (n_kind e) off size ty.

(** A directory entry of the image is one of the tree. *)
Definition entry_ok (e : Node EntryKind) (d : DirEntry) : Prop :=
  entry_name {| e_fs := img; e_entry := d |} = Ok (n_name e) /\ zlen (n_name e) < 2 ^ 16 /\ node_at (d_inode d) e.

Definition reads_as (s : InodeStruct) (k : EntryKind) : Prop :=
  match k with
  | EK_File c => kind s = K_File s /\ data s = Ok c
  | EK_Link p => kind s = K_Link s /\ data s = Ok p
  | EK_Dir l => kind s = K_Dir s /\ zlen l < 2 ^ 16 /\ exists ds, entries s = Ok ds /\ Forall2 entry_ok l ds
  end.

Lemma linked_entry slot e ino noff off size ty :
  linked w tbl cnt slot e ino noff off size ty -> rep w tbl cnt (n_kind e) off size ty ->
  entry_ok e (dirent_for e ino noff).
Proof.
  intros [H1 H2 H3 H4 H5 H6 H7 H8] Hr.
  destruct (has_agrees w img noff (n_name e)) as [Hn _]; [apply Him | done | done | lia |].
  pose proof table_end. pose proof usize_mod_ge. assert (0 <= zlen (n_name e)) by (unfold zlen; lia). split.
  - unfold entry_name, span. cbn [e_fs e_entry dirent_for name_offset name_len]. unfold usize_checked_add.
    rewrite (proj2 (Z.ltb_lt _ _)) by lia. cbn [o_ok_or mbind outcome_bind].
    by rewrite (has_range w img noff (n_name e) (im_agrees _ _ _ _ _ _ _ Him) H4) by lia.
  - split; [apply H2 |]. split; [done |]. exists ty, off, size. repeat (split; [done || lia |]). done.
Qed.

(** The entries of a directory, in order. *)
Lemma read_entries_known l off md :
  entries_rep w tbl cnt off l -> 0 <= off <= zlen img -> 
  exists ds, entries {| s_fs := img; s_inode := inode_for T_Dir md off (8 * zlen l) |} = Ok ds /\ Forall2 entry_ok l ds.
Proof.
  intros He Ho.
  destruct (list_choice (fun idx e d => has w (off + 8 * Z.of_nat idx) (dirent_bytes d) /\ dirent_fits d /\ entry_ok e d) l)
    as (ds & Hl & Hd).
  { intros i e Hi. destruct (He i e Hi) as (ino & noff & coff & size & ty & Hlk & Hr). exists (dirent_for e ino noff).
    split; [apply Hlk | split; [apply Hlk | by eapply linked_entry]]. }
  assert (forall i d, ds !! i = Some d -> exists e, l !! i = Some e) as Hex.
  { intros i d Hi%lookup_lt_Some. rewrite Hl in Hi. by apply lookup_lt_is_Some_2. }
  assert (Forall (fun x => length x = size_of_DirEntry) (map dirent_bytes ds)) as Hf.
  { apply Forall_fmap, Forall_true. intros d. apply length_dirent_bytes. }
  assert (zlen (concat (map dirent_bytes ds)) = 8 * zlen l) as Hz.
  { unfold zlen. rewrite <- Hl. clear. induction ds as [| d ds IH]; [done |]. cbn [map concat].
    rewrite length_app, length_dirent_bytes. cbn [length]. unfold size_of_DirEntry. lia. }
  exists ds. split.
  - unfold entries. rewrite (data_known off _ T_Dir md (concat (map dirent_bytes ds))); [| | done | done].
    + cbn [mbind outcome_bind]. rewrite slice_from_bytes_spec by (unfold size_of_DirEntry; lia).
      rewrite chunks_concat by (done || (unfold size_of_DirEntry; lia)). cbn [o_unwrap mbind outcome_bind]. f_equal.
      rewrite map_map. apply list_eq. intros i. change (map ?f ds) with (f <$> ds). rewrite list_lookup_fmap. destruct (ds !! i) as [d |] eqn:Ei; [| done]. cbn. f_equal.
      destruct (Hex i d Ei) as [e Hi]. apply dirent_roundtrip. by apply (Hd i e d).
    + apply (has_concat _ _ _ size_of_DirEntry Hf). intros i x Hx. change (map ?f ds) with (f <$> ds) in Hx.
      rewrite list_lookup_fmap in Hx. destruct (ds !! i) as [d |] eqn:Ei; [| done]. injection Hx as <-.
      destruct (Hex i d Ei) as [e Hi]. unfold size_of_DirEntry.
      replace (Z.of_nat (8 * i)) with (8 * Z.of_nat i) by lia. by apply (Hd i e d).
  - apply Forall2_same_length_lookup_2; [done |]. intros i e d H1 H2. by apply (Hd i e d).
Qed.

Lemma node_read ino e :
  node_at ino e -> exists s, get_inode img ino = Ok (Some s) /\ s_fs s = img /\ mode s = n_mode e mod 2 ^ 12 /\
    i_uid (s_inode s) = 0 /\ i_gid (s_inode s) = 0 /\ reads_as s (n_kind e).
Proof.
  intros [Hi (ty & off & size & Hh & Ho & Hs & Hr)]. pose proof table_end.
  eexists. split; [apply get_inode_known; [done | exact Hh | apply inode_for_fits; lia] |].
  split; [done |]. split; [apply mode_inode_for |]. split; [done |]. split; [done |].
  pose proof (ty_inode_for ty (n_mode e) off size img) as Hty. unfold reads_as, kind.
  inversion Hr as [c o Hc | p o Hp | l o Hl He]; subst; rewrite Hty; (split; [done |]);
    [by apply data_known | by apply data_known | split; [done | by apply read_entries_known]].
Qed.

(** The root of a tree that is not empty *)
Lemma root_node : dir <> [] -> node_at 0 (Build_Node [] (EK_Dir dir) (root_mode a)).
Proof.
  intros Hne. pose proof cnt_pos. split; [lia |]. exists T_Dir, root_off, root_size.
  pose proof (im_rep _ _ _ _ _ _ _ Him) as Hr. pose proof (im_root_off _ _ _ _ _ _ _ Him). pose proof (im_root_size _ _ _ _ _ _ _ Him).
  rewrite Z.mul_0_r, Z.add_0_r. split; [apply Him |]. split; [| by split].
  split; [lia |]. inversion Hr as [| | l o Hn He]; subst. destruct dir as [| e d]; [done |].
  destruct (He 0%nat e eq_refl) as (ino & noff & coff & size & ty & [Hslot _ _ _ _ _ _ _] & _).
  rewrite Z.mul_0_r, Z.add_0_r in Hslot. pose proof (length_dirent_bytes (dirent_for e ino noff)) as Hl.
  destruct (has_agrees w img root_off (dirent_bytes (dirent_for e ino noff))) as [H2 _];
    [apply Him | done | by intros E; rewrite E in Hl | lia |]. unfold zlen in *. lia.
Qed.
End read.
