(* ===== verification/InitfsSchemeFacts.v ===== *)
(** * initfs: the scheme serves the tree

    On an image that represents a tree the scheme of [InitfsScheme.v] gives the
    answers of the one of [InitfsFacts.v], whatever the order of the calls.

    A source directory with a file, a directory, and a link, archived and
    served; and the defects of the archiver and the scheme. *)

From stdpp Require Import base gmap strings list fin_maps.
From Stdlib Require Import ZArith Lia.
From Stdlib Require Import Strings.Byte.
From S2P Require Import Prelude Memory Syscall Initfs InitfsArchive InitfsScheme InitfsFacts InitfsArchiveFacts InitfsReadFacts.
From S2P Require Import InitfsReadFacts.

Local Open Scope Z_scope.

Section served.
Context {TG : Target} {SC : Syscall} {PL : Plain} {PLL : PlainLaws PL} {IE : InitfsEnv}.
Context (a : Args) (img : list u8) (dir : Dir) (w : memory) (h : Header) (root_off root_size : Z).
Hypothesis Him : image a img dir w h root_off root_size.
Hypothesis Hpage : Syscall.PAGE_SIZE = 4096.

Local Abbreviation node_at := (node_at img w h).
Local Abbreviation entry_ok := (entry_ok img w h).
Local Abbreviation reads_as := (reads_as img w h).

Lemma image_new : InitFsScheme_new img = Ok {| handles := ∅; next_id := 0; fs := img |}.
Proof.
  unfold InitFsScheme_new. rewrite Hpage. assert (try_into_bits 16 4096 = Some 4096) as -> by done.
  cbn [o_unwrap mbind outcome_bind]. by rewrite (new_image _ _ _ _ _ _ _ Him).
Qed.

Lemma scheme_get_inode ino e :
  node_at ino e -> exists s, InitfsScheme.get_inode img ino = Ok s /\ s_fs s = img /\ mode s = n_mode e mod 2 ^ 12 /\
    i_uid (s_inode s) = 0 /\ i_gid (s_inode s) = 0 /\ reads_as s (n_kind e).
Proof.
  intros Hn. destruct (node_read _ _ _ _ _ _ _ Him _ _ Hn) as (s & Hs & H). exists s. split; [| done].
  unfold InitfsScheme.get_inode. by rewrite Hs.
Qed.

(** ** Directories *)

Section directory.
Context (s : InodeStruct) (l : Dir) (ds : list DirEntry).
Hypothesis Hfs : s_fs s = img.
Hypothesis Hes : entries s = Ok ds.
Hypothesis Hds : Forall2 entry_ok l ds.
Hypothesis Hlen : zlen l < 2 ^ 16.

Lemma iter_next_ok idx :
  0 <= idx < 2 ^ 32 - 1 ->
  iter_next s idx = Ok ((fun d => Ok {| e_fs := img; e_entry := d |}) <$> ds !! Z.to_nat idx, idx + 1).
Proof.
  intros Hi. unfold iter_next, get_entry. rewrite Hes. cbn [mbind outcome_bind map_err].
  rewrite arith_ok by lia. cbn [fst mbind outcome_bind]. rewrite Hfs. by destruct (ds !! Z.to_nat idx).
Qed.

Lemma entry_at idx e : l !! idx = Some e -> exists d, ds !! idx = Some d /\ entry_ok e d.
Proof. intros Hl. eapply Forall2_lookup_l in Hds as (d & ? & ?); eauto. Qed.

Lemma entries_len_ok : entries_len s = length l.
Proof. unfold entries_len. rewrite Hes. by rewrite (Forall2_length _ _ _ Hds). Qed.

(** A turn of a loop over the entries from [idx] on. *)
Lemma iter_turn idx :
  (idx <= length l)%nat ->
  iter_next s (Z.of_nat idx) =
    match drop idx l with
    | [] => Ok (None, Z.of_nat (S idx))
    | e :: _ => match ds !! idx with
                | Some d => Ok (Some (Ok {| e_fs := img; e_entry := d |}), Z.of_nat (S idx))
                | None => Panic
                end
    end.
Proof.
  intros Hi. rewrite iter_next_ok by (unfold zlen in Hlen; lia). rewrite Nat2Z.id.
  replace (Z.of_nat idx + 1) with (Z.of_nat (S idx)) by lia. destruct (drop idx l) as [| e r] eqn:Ed.
  - apply (f_equal length) in Ed. rewrite length_drop in Ed. cbn in Ed.
    rewrite lookup_ge_None_2; [done |]. rewrite <- (Forall2_length _ _ _ Hds). lia.
  - assert (l !! idx = Some e) as He by (rewrite <- (Nat.add_0_r idx), <- lookup_drop, Ed; done).
    destruct (entry_at _ _ He) as (d & -> & _). done.
Qed.

Lemma drop_cons_next idx e r : drop idx l = e :: r -> drop (S idx) l = r /\ (S idx <= length l)%nat /\ l !! idx = Some e.
Proof.
  intros E. split; [| split].
  - replace (S idx) with (idx + 1)%nat by lia. rewrite <- drop_drop, E. done.
  - apply (f_equal length) in E. rewrite length_drop in E. cbn in E. lia.
  - rewrite <- (Nat.add_0_r idx), <- lookup_drop, E. done.
Qed.

Lemma find_entry_ok c fuel idx :
  (idx <= length l)%nat -> (length l - idx < fuel)%nat ->
  match find_child c (drop idx l) with
  | Some e => exists ino, find_entry fuel s (Z.of_nat idx) c = Some (Ok ino) /\ node_at ino e
  | None => find_entry fuel s (Z.of_nat idx) c = Some (Err ENOENT)
  end.
Proof.
  revert idx. induction fuel as [| fuel IH]; intros idx Hi Hf; [lia |]. cbn [find_entry]. rewrite iter_turn by done.
  destruct (drop idx l) as [| e r] eqn:Ed; cbn [find_child]; [done |].
  destruct (drop_cons_next _ _ _ Ed) as (Er & Hi' & He). destruct (entry_at _ _ He) as (d & -> & Hn & _ & Hnode).
  rewrite Hn. cbn [map_err]. case_bool_decide; [by exists (d_inode d) |]. rewrite <- Er. apply IH; lia.
Qed.

Lemma look_up_ok c :
  match find_child c l with
  | Some e => exists ino, look_up s c = Ok ino /\ node_at ino e
  | None => look_up s c = Err ENOENT
  end.
Proof.
  unfold look_up. rewrite entries_len_ok.
  pose proof (find_entry_ok c (S (length l)) 0 ltac:(lia) ltac:(lia)) as H. rewrite drop_0 in H; change (Z.of_nat 0) with 0 in H.
  destruct (find_child c l) as [e |]; [| by rewrite H]. destruct H as (ino & -> & Hn). by exists ino.
Qed.

Lemma t_len_bounds r : (forall e, e ∈ r -> zlen (n_name e) < 2 ^ 16) -> 0 <= t_len (EK_Dir r) <= zlen r * 2 ^ 16.
Proof.
  cbn [t_len]. induction r as [| e r IH]; intros Hr; [done |]. cbn [foldr length].
  pose proof (Hr e ltac:(by left)). specialize (IH ltac:(intros x Hx; apply Hr; by right)).
  unfold zlen in *. cbn [length]. lia.
Qed.

Lemma dir_len_ok fuel idx len :
  (idx <= length l)%nat -> (length l - idx < fuel)%nat -> 0 <= len ->
  len + t_len (EK_Dir (drop idx l)) < 2 ^ 32 ->
  dir_len fuel s (Z.of_nat idx) len = Some (Ok (len + t_len (EK_Dir (drop idx l)))).
Proof.
  revert idx len. induction fuel as [| fuel IH]; intros idx len Hi Hf Hl Hb; [lia |]. cbn [dir_len]. rewrite iter_turn by done.
  destruct (drop idx l) as [| e r] eqn:Ed; [cbn; by rewrite Z.add_0_r |].
  destruct (drop_cons_next _ _ _ Ed) as (Er & Hi' & He). destruct (entry_at _ _ He) as (d & -> & Hn & _ & _).
  cbn [mbind outcome_bind]. rewrite Hn. cbn [map_err]. rewrite <- Er in *.
  change (t_len (EK_Dir (e :: drop (S idx) l))) with (zlen (n_name e) + 1 + t_len (EK_Dir (drop (S idx) l))) in *.
  assert (0 <= zlen (n_name e) /\ 0 <= t_len (EK_Dir (drop (S idx) l))) as [H1 H2].
  { split; [unfold zlen; lia |]. cbn [t_len]. generalize (drop (S idx) l). intros x. induction x as [| y x IHx]; [done |]. cbn. unfold zlen in *. lia. }
  pose proof usize_mod_ge. rewrite usize_add_ok by lia. cbn [fst].
  rewrite IH by lia. do 2 f_equal. lia.
Qed.

Lemma dir_len_total fuel : (length l < fuel)%nat -> dir_len fuel s 0 0 = Some (Ok (t_len (EK_Dir l))).
Proof.
  intros Hf. apply (dir_len_ok fuel 0 0); [lia | lia | lia |]. cbn [drop].
  assert (forall e, e ∈ l -> zlen (n_name e) < 2 ^ 16) as Hn.
  { intros e [i Hi]%list_elem_of_lookup_1. destruct (entry_at _ _ Hi) as (d & _ & _ & H & _). done. }
  apply t_len_bounds in Hn. rewrite drop_0. unfold zlen in *. lia.
Qed.
Context {B : Type} (entry : B -> Syscall.DirEntry -> outcome B).

Lemma emit_dents_ok fuel idx index buf :
  (idx <= length l)%nat -> (length l - idx < fuel)%nat ->
  emit_dents entry fuel s (Z.of_nat idx) index buf = Some (t_emit entry (drop idx l) index buf).
Proof.
  revert idx index buf. induction fuel as [| fuel IH]; intros idx index buf Hi Hf; [lia |]. cbn [emit_dents]. rewrite iter_turn by done.
  destruct (drop idx l) as [| e r] eqn:Ed; [done |].
  destruct (drop_cons_next _ _ _ Ed) as (Er & Hi' & He). destruct (entry_at _ _ He) as (d & -> & Hn & _ & _).
  cbn [mbind outcome_bind t_emit]. rewrite Hn. destruct (from_utf8 (n_name e)) as [nm |]; [| done]. cbn [o_ok_or mbind outcome_bind].
  destruct (entry buf _) as [buf' | |]; [| done..]. cbn [mbind outcome_bind]. rewrite <- Er. apply IH; lia.
Qed.

(** Behind the entries there is nothing, unless the index overflows. *)
Lemma emit_dents_past fuel idx index buf :
  zlen l <= idx < 2 ^ 32 -> (0 < fuel)%nat ->
  emit_dents entry fuel s idx index buf = Some (if (idx =? 2 ^ 32 - 1) && overflow_checks then Panic else Ok buf).
Proof.
  intros Hi Hf. destruct fuel as [| fuel]; [lia |]. cbn [emit_dents].
  assert (ds !! Z.to_nat idx = None) as Hnone.
  { apply lookup_ge_None_2. rewrite <- (Forall2_length _ _ _ Hds). unfold zlen in Hi. lia. }
  destruct (Z.eqb_spec idx (2 ^ 32 - 1)) as [-> | Hne].
  - unfold iter_next, get_entry. rewrite Hes. cbn [mbind outcome_bind map_err]. rewrite Hnone. cbn [fmap option_fmap option_map].
    unfold arith. cbn [andb]. destruct overflow_checks; done.
  - rewrite iter_next_ok by (unfold zlen in *; lia). rewrite Hnone. done.
Qed.

Lemma getdents_ok idx buf :
  0 <= idx < 2 ^ 32 ->
  default Panic (emit_dents entry (S (entries_len s)) s idx 0 buf) =
    if (idx =? 2 ^ 32 - 1) && overflow_checks then Panic else t_emit entry (drop (Z.to_nat idx) l) 0 buf.
Proof.
  intros Hi. rewrite entries_len_ok. destruct (decide (idx < zlen l)) as [Hlt | Hge].
  - unfold zlen in *. assert (idx = Z.of_nat (Z.to_nat idx)) as E by lia. rewrite E at 1. rewrite emit_dents_ok by lia.
    destruct (Z.eqb_spec idx (2 ^ 32 - 1)); [lia | done].
  - rewrite emit_dents_past by lia. rewrite drop_ge by (unfold zlen in *; lia). by destruct (_ && _).
Qed.
End directory.

(** ** Paths *)

Lemma length_removelast {A} (l : list A) : (length (removelast l) <= length l)%nat.
Proof. induction l as [| x [| y l] IH]; cbn in *; lia. Qed.

Lemma walk_ok fuel ino e cs :
  node_at ino e -> (length cs <= fuel)%nat ->
  match tree_walk e (plain fuel cs) with
  | Ok e' => exists i, walk fuel img ino cs = Ok i /\ node_at i e'
  | Err er => walk fuel img ino cs = Err er
  | Panic => False
  end.
Proof.
  revert ino e cs. induction fuel as [| fuel IH]; intros ino e [| c rest] Hn Hl; cbn in Hl; try lia; try by exists ino.
  cbn [walk plain]. case_bool_decide; [apply IH; [done | lia] |].
  case_bool_decide; [apply IH; [done | pose proof (length_removelast rest); lia] |]. cbn [tree_walk].
  destruct (scheme_get_inode _ _ Hn) as (s & -> & Hs & _ & _ & _ & Hr). cbn [mbind outcome_bind].
  destruct (n_kind e) as [cont | l | p]; cbn [InitfsReadFacts.reads_as] in Hr.
  - by destruct Hr as [-> _].
  - destruct Hr as (-> & Hlen & ds & Hes & Hds). pose proof (look_up_ok s l ds Hs Hes Hds Hlen (as_bytes c)) as Hc.
    destruct (find_child (as_bytes c) l) as [e' |]; [| by rewrite Hc]. destruct Hc as (i & -> & Hi). cbn [mbind outcome_bind].
    apply IH; [done | lia].
  - by destruct Hr as [-> _].
Qed.

(** ** Calls *)

Definition root_entry : Node EntryKind := Build_Node [] (EK_Dir dir) (root_mode a).

(** Handles of the same numbers, for the same nodes. *)
Record related (s : InitFsScheme) (t : TreeScheme) : Prop := {
  re_fs : fs s = img;
  re_next : next_id s = t_next_id t;
  re_bounds : 0 <= t_next_id t < usize_mod;
  re_below id x : t_handles t !! id = Some x -> id <= t_next_id t;
  re_none id : t_handles t !! id = None -> handles s !! id = None;
  re_some id e path : t_handles t !! id = Some (e, path) ->
    exists i, handles s !! id = Some {| h_inode := i; filename := path |} /\ node_at i e
}.

(** Two computations with the same result, and related states. *)
Definition agree {A} (m : M InitFsScheme A) (n : M TreeScheme A) (s : InitFsScheme) (t : TreeScheme) : Prop :=
  (m s).1 = (n t).1 /\ ((n t).1 <> Panic -> related (m s).2 (n t).2).

Lemma agree_bind {A B} (m : M InitFsScheme A) n (k : A -> M InitFsScheme B) k' s t :
  agree m n s t -> (forall x s' t', related s' t' -> n t = (Ok x, t') -> agree (k x) (k' x) s' t') ->
  agree (x ← m; k x) (x ← n; k' x) s t.
Proof.
  unfold agree, mbind, M_bind. destruct (m s) as [[x | e |] s'], (n t) as [[y | e' |] t'] eqn:En; cbn [fst snd]; intros [H1 H2] Hk; try done.
  - injection H1 as ->. apply (Hk y s' t'); [by apply H2 | done].
  - injection H1 as ->. split; [done | intros _; by apply H2].
Qed.

Lemma agree_pure {A} (r : outcome A) m n s t :
  related s t -> m s = (r, s) -> n t = (r, t) -> agree m n s t.
Proof. intros Hr Hm Hn. unfold agree. rewrite Hm, Hn. by split. Qed.

Lemma agree_ret {A} (x : A) s t : related s t -> agree (mret x) (mret x) s t.
Proof. intros Hr. by apply (agree_pure (Ok x)). Qed.

Lemma related_insert s t i e path :
  related s t -> t_next_id t + 1 < usize_mod -> node_at i e ->
  related (set_handles (<[t_next_id t + 1 := {| h_inode := i; filename := path |}]> (handles s)) (set_next_id (t_next_id t + 1) s))
    {| t_handles := <[t_next_id t + 1 := (e, path)]> (t_handles t); t_next_id := t_next_id t + 1 |}.
Proof.
  intros [H1 H2 H3 H4 H5 H6] Hlt Hn. split; cbn [fs next_id handles t_handles t_next_id set_handles set_next_id]; try done; try lia.
  - intros id x [[<- _] | [_ Hx%H4]]%lookup_insert_Some; lia.
  - intros id [Hx Hne]%lookup_insert_None. rewrite lookup_insert_ne by done. by apply H5.
  - intros id e' p' [[<- [= <- <-]] | [Hne Hx%H6]]%lookup_insert_Some.
    + exists i. by rewrite lookup_insert_eq.
    + destruct Hx as (j & Hj & Hnode). exists j. by rewrite lookup_insert_ne.
Qed.

Lemma lift_Ok_bind {S A B} (x : A) (k : A -> M S B) s : (lift (Ok x) ≫= k) s = k x s.
Proof. done. Qed.

Lemma lift_Err_bind {S A B} er (k : A -> M S B) s : (lift (Err er) ≫= k) s = (Err er, s).
Proof. done. Qed.

Lemma run_bind {S A B} (m : M S A) (k : A -> M S B) s r s' :
  m s = (r, s') -> (m ≫= k) s = match r with Ok x => k x s' | Err e => (Err e, s') | Panic => (Panic, s') end.
Proof. unfold mbind, M_bind. by intros ->. Qed.

Lemma take_id_full s : next_id s = usize_mod - 1 -> take_id s = (Panic, s).
Proof. intros E. unfold take_id. rewrite gets_bind. by rewrite (proj2 (Z.eqb_eq _ _) E). Qed.

Lemma take_id_run s :
  0 <= next_id s < usize_mod - 1 -> take_id s = (Ok (next_id s + 1), set_next_id (next_id s + 1) s).
Proof.
  intros Hb. unfold take_id. rewrite gets_bind. destruct (Z.eqb_spec (next_id s) (usize_mod - 1)); [lia |].
  rewrite ret_bind. erewrite run_bind; [| apply usize_add_ok; lia]. done.
Qed.

Lemma kind_link (x : InodeStruct) k :
  reads_as x k -> match kind x with K_Link _ => true | _ => false end = match k with EK_Link _ => true | _ => false end.
Proof. destruct k; cbn [InitfsReadFacts.reads_as]; by intros [-> _]. Qed.

Lemma agree_open path flags s t :
  dir <> [] -> related s t -> agree (open path flags) (t_open root_entry path flags) s t.
Proof.
  intros Hne Hr. pose proof Hr as [H1 H2 H3 H4 H5 H6]. unfold agree, open, t_open. set (cs := path_components path).
  pose proof (walk_ok (length cs) 0 root_entry cs (root_node _ _ _ _ _ _ _ Him Hne) (le_n _)) as Hw.
  rewrite gets_bind, H1. unfold open_inode. fold cs.
  destruct (tree_walk root_entry (plain (length cs) cs)) as [e | er |]; [| by rewrite Hw, !lift_Err_bind | done].
  destruct Hw as (i & -> & Hi). destruct (scheme_get_inode _ _ Hi) as (x & Hx & _ & _ & _ & _ & Hk).
  rewrite !lift_Ok_bind, Hx, !lift_Ok_bind, (kind_link _ _ Hk).
  assert (match n_kind e with EK_Link _ => true | _ => false end && negb (any_set flags O_SYMLINK) =
          match n_kind e with EK_Link _ => negb (any_set flags O_SYMLINK) | _ => false end) as -> by (by destruct (n_kind e)).
  destruct (match n_kind e with EK_Link _ => _ | _ => _ end); [done |]. unfold fail_if. rewrite !ret_bind, gets_bind.
  destruct (Z.eqb_spec (t_next_id t) (usize_mod - 1)) as [Heq | Hneq].
  { by rewrite (run_bind _ _ _ _ _ (take_id_full s (eq_trans H2 Heq))). }
  rewrite (run_bind _ _ _ _ _ (take_id_run s ltac:(lia))), ret_bind, H2, modify_bind.
  rewrite gets_bind. cbn [handles set_next_id]. assert (handles s !! (t_next_id t + 1) = None) as Hnone.
  { apply H5. destruct (t_handles t !! (t_next_id t + 1)) as [y |] eqn:Ey; [| done]. apply H4 in Ey. lia. }
  rewrite Hnone, modify_bind. split; [done |]. intros _. exact (related_insert s t i e path Hr ltac:(lia) Hi).
Qed.

(** ** Calls on a handle *)

Lemma agree_node {A} id (k : InodeStruct -> M InitFsScheme A) (k' : Node EntryKind -> M TreeScheme A) s t :
  related s t ->
  (forall e x, s_fs x = img -> mode x = n_mode e mod 2 ^ 12 -> i_uid (s_inode x) = 0 -> i_gid (s_inode x) = 0 ->
               reads_as x (n_kind e) -> agree (k x) (k' e) s t) ->
  agree (handle ← handle_at id; f ← gets fs; x ← lift (InitfsScheme.get_inode f (h_inode handle)); k x)
    (e ← t_node id; k' e) s t.
Proof.
  intros Hr Hk. pose proof Hr as [H1 H2 H3 H4 H5 H6]. unfold agree, handle_at, t_node.
  destruct (t_handles t !! id) as [[e path] |] eqn:Et.
  - destruct (H6 _ _ _ Et) as (i & Hi & Hn). destruct (scheme_get_inode _ _ Hn) as (x & Hx & Hx1 & Hx2 & Hx3 & Hx4 & Hx5).
    assert ((e ← (h ← gets t_handles; y ← ok_or EBADF (h !! id); mret y.1); k' e) t = k' e t) as ->.
    { unfold mbind, M_bind, gets, ok_or. by rewrite Et. }
    assert ((handle ← (h ← gets handles; ok_or EBADF (h !! id)); f ← gets fs;
             x ← lift (InitfsScheme.get_inode f (h_inode handle)); k x) s = k x s) as ->.
    { unfold mbind, M_bind, gets, ok_or, lift. rewrite Hi. cbn. by rewrite H1, Hx. }
    by apply Hk.
  - pose proof (H5 _ Et) as Hi.
    assert ((e ← (h ← gets t_handles; y ← ok_or EBADF (h !! id); mret y.1); k' e) t = (Err EBADF, t)) as ->.
    { unfold mbind, M_bind, gets, ok_or. by rewrite Et. }
    assert ((handle ← (h ← gets handles; ok_or EBADF (h !! id)); f ← gets fs;
             x ← lift (InitfsScheme.get_inode f (h_inode handle)); k x) s = (Err EBADF, s)) as ->.
    { unfold mbind, M_bind, gets, ok_or. by rewrite Hi. }
    by split.
Qed.

Lemma agree_err {A} er s t : related s t -> agree (A := A) (throw er) (throw er) s t.
Proof. intros Hr. by apply (agree_pure (Err er)). Qed.

Lemma agree_ok_or {A B} er (o : option A) (k : A -> M InitFsScheme B) k' s t :
  related s t -> (forall x, o = Some x -> agree (k x) (k' x) s t) -> agree (x ← ok_or er o; k x) (x ← ok_or er o; k' x) s t.
Proof. intros Hr Hk. destruct o as [x |]; [by apply Hk | by apply (agree_pure (Err er))]. Qed.

Lemma agree_read id buffer offset s t : related s t -> agree (read id buffer offset) (t_read id buffer offset) s t.
Proof.
  intros Hr. unfold read, t_read. destruct (usize_try_from offset) as [off |]; [| by apply agree_ret].
  apply (agree_node id (fun x => match kind x with K_File file => _ | K_Dir _ => _ | K_Link link => _ | K_Unknown => _ end)); [done |].
  intros e x _ _ _ _ Hk. destruct (n_kind e) as [c | l | p]; cbn [InitfsReadFacts.reads_as] in Hk.
  - destruct Hk as [-> Hd]. rewrite Hd. by apply agree_ret.
  - destruct Hk as [-> _]. by apply agree_err.
  - destruct Hk as [-> Hd]. rewrite Hd. change (map_err EIO (Ok p)) with (Ok p).
    apply (agree_ok_or ENOENT (from_utf8 p)); [done |]. intros path _.
    apply (agree_ok_or ENOENT (canonicalize_to_standard (Some "/"%string) path)); [done |]. intros y _. by apply agree_ret.
Qed.

Lemma agree_getdents {B} (entry : B -> Syscall.DirEntry -> outcome B) id buf offset s t :
  related s t -> 0 <= offset -> agree (getdents entry id buf offset) (t_getdents entry id buf offset) s t.
Proof.
  intros Hr Ho. unfold getdents, t_getdents. destruct (Z.leb_spec (2 ^ 32) offset) as [| Hlt]; [by apply agree_ret |].
  apply (agree_node id (fun x => match kind x with K_Dir d => _ | _ => _ end)); [done |].
  intros e x Hfs _ _ _ Hk. destruct (n_kind e) as [c | l | p]; cbn [InitfsReadFacts.reads_as] in Hk.
  - destruct Hk as [-> _]. by apply agree_err.
  - destruct Hk as (-> & Hlen & ds & Hes & Hds).
    rewrite (getdents_ok x l ds Hfs Hes Hds Hlen entry offset buf ltac:(lia)).
    destruct (_ && _); [by apply (agree_pure Panic) | by eapply agree_pure].
  - destruct Hk as [-> _]. by apply agree_err.
Qed.

Lemma inode_len_ok fuel x k : s_fs x = img -> reads_as x k -> 2 ^ 16 < Z.of_nat fuel -> inode_len fuel x = Some (Ok (t_len k)).
Proof.
  intros Hfs Hk Hf. unfold inode_len. destruct k as [c | l | p]; cbn [InitfsReadFacts.reads_as] in Hk.
  - destruct Hk as [-> Hd]. by rewrite Hd.
  - destruct Hk as (-> & Hlen & ds & Hes & Hds). apply (dir_len_total x l ds); try done. unfold zlen in Hlen. lia.
  - destruct Hk as [-> Hd]. by rewrite Hd.
Qed.

Lemma agree_fsize fuel id s t :
  related s t -> 2 ^ 16 < Z.of_nat fuel -> agree (fsize fuel id) (n ← t_fsize id; mret (Some n)) s t.
Proof.
  intros Hr Hf. unfold fsize, t_fsize.
  assert ((n ← (e ← t_node id; mret (t_len (n_kind e))); mret (Some n)) t = (e ← t_node id; mret (Some (t_len (n_kind e)))) t) as E.
  { unfold mbind, M_bind. by destruct (t_node id t) as [[] ?]. }
  unfold agree. rewrite E. apply (agree_node id (fun x => match inode_len fuel x with None => _ | Some o => _ end)); [done |].
  intros e x Hfs _ _ _ Hk. rewrite (inode_len_ok fuel x (n_kind e)) by done. by apply agree_ret.
Qed.

Lemma creation_time : image_creation_time img = Ok (now a).
Proof.
  unfold image_creation_time. rewrite (get_header _ _ _ _ _ _ _ Him). cbn. by rewrite (im_time _ _ _ _ _ _ _ Him).
Qed.

(** The time of the image can be read after the inode. *)
Lemma fstat_swap fuel id stat s :
  fs s = img ->
  fstat fuel id stat s =
    (handle ← handle_at id; f ← gets fs; inode ← lift (InitfsScheme.get_inode f (h_inode handle));
     match inode_len fuel inode with
     | None => mret None
     | Some o =>
         size ← lift o;
         let file_type := match kind inode with K_Dir _ => MODE_DIR | K_File _ => MODE_FILE | _ => 0 end in
         mret (Some {| st_mode := Z.lor (mode inode) file_type; st_uid := i_uid (s_inode inode);
                       st_gid := i_gid (s_inode inode); st_ino := st_ino stat; st_nlink := st_nlink stat;
                       st_dev := st_dev stat; st_size := size;
                       st_blksize := st_blksize stat; st_blocks := st_blocks stat;
                       st_atime := st_atime stat; st_atime_nsec := st_atime_nsec stat;
                       st_ctime := sec (now a); st_ctime_nsec := nsec (now a);
                       st_mtime := sec (now a); st_mtime_nsec := nsec (now a) |})
     end) s.
Proof.
  intros Hfs. unfold fstat, handle_at, mbind, M_bind, gets, ok_or, lift. destruct (handles s !! id) as [x |]; [| done].
  cbn. by rewrite Hfs, creation_time.
Qed.

Lemma agree_fstat fuel id stat s t :
  related s t -> 2 ^ 16 < Z.of_nat fuel -> agree (fstat fuel id stat) (n ← t_fstat (now a) id stat; mret (Some n)) s t.
Proof.
  intros Hr Hf. unfold agree. rewrite fstat_swap by apply Hr. unfold t_fstat.
  match goal with |- context [(n ← (e ← t_node id; @?k e); mret (Some n)) t] =>
    assert ((n ← (e ← t_node id; k e); mret (Some n)) t = (e ← t_node id; n ← k e; mret (Some n)) t) as ->
      by (unfold mbind, M_bind; by destruct (t_node id t) as [[] ?]) end.
  apply (agree_node id (fun x => match inode_len fuel x with None => _ | Some o => _ end)); [done |].
  intros e x Hfs Hm Hu Hg Hk. rewrite (inode_len_ok fuel x (n_kind e)), Hm, Hu, Hg by done.
  assert (match kind x with K_Dir _ => MODE_DIR | K_File _ => MODE_FILE | _ => 0 end =
          match n_kind e with EK_Dir _ => MODE_DIR | EK_File _ => MODE_FILE | _ => 0 end) as E.
  { destruct (n_kind e); cbn [InitfsReadFacts.reads_as] in Hk; by destruct Hk as [-> _]. }
  cbv zeta. rewrite E. by apply agree_ret.
Qed.

Lemma fpath_bytes (p b buf : list u8) :
  let n := (length p `min` length buf)%nat in
  let buf' := copy_prefix n p buf in
  let k := ((length buf' - n) `min` length b)%nat in
  (n + k)%nat = (length (p ++ b) `min` length buf)%nat /\
  splice n (take k b) buf' = copy_prefix (length (p ++ b) `min` length buf) (p ++ b) buf.
Proof.
  intros n buf' k. assert (length buf' = length buf) as Hl.
  { unfold buf', copy_prefix. rewrite length_app, length_take, length_drop. lia. }
  assert ((n + k)%nat = (length (p ++ b) `min` length buf)%nat) as E by (rewrite length_app; unfold k; rewrite Hl; lia).
  split; [done |]. rewrite <- E. unfold splice, buf', copy_prefix. rewrite length_take.
  replace (k `min` length b)%nat with k by lia.
  assert (length (take n p) = n) as Hn by (rewrite length_take; lia).
  rewrite take_app_length', drop_app_ge by lia. rewrite Hn, drop_drop.
  replace (n + (n + k - n))%nat with (n + k)%nat by lia. rewrite app_assoc. f_equal.
  destruct (decide (length p <= length buf)%nat) as [Hle | Hgt].
  - assert (n = length p) as -> by lia. by rewrite take_ge, take_app_add by lia.
  - assert (k = 0%nat) as -> by (unfold k; rewrite Hl; lia). rewrite take_0, app_nil_r, Nat.add_0_r.
    rewrite take_app_le by lia. done.
Qed.

Lemma agree_fpath id buf s t : related s t -> agree (fpath id buf) (t_fpath id buf) s t.
Proof.
  intros Hr. pose proof Hr as [H1 H2 H3 H4 H5 H6]. unfold fpath, t_fpath, handle_at.
  destruct (t_handles t !! id) as [[e path] |] eqn:Et.
  - destruct (H6 _ _ _ Et) as (i & Hi & _). eapply agree_pure; [done | |].
    + unfold mbind, M_bind, gets, ok_or. rewrite Hi. cbn [mret M_ret filename].
      destruct (fpath_bytes (as_bytes "/scheme/initfs") (as_bytes path) buf) as [E1 E2]. rewrite E1, E2. done.
    + unfold mbind, M_bind, gets, ok_or. by rewrite Et.
  - apply (agree_pure (Err EBADF)); [done | |]; unfold mbind, M_bind, gets, ok_or; [by rewrite (H5 _ Et) | by rewrite Et].
Qed.

Lemma agree_known {A} (x : A) id s t :
  related s t -> agree (handle_at id;; mret x) (t_known id;; mret x) s t.
Proof.
  intros Hr. pose proof Hr as [H1 H2 H3 H4 H5 H6]. unfold t_known, t_node, handle_at.
  destruct (t_handles t !! id) as [[e path] |] eqn:Et.
  - destruct (H6 _ _ _ Et) as (i & Hi & _).
    apply (agree_pure (Ok x)); [done | |]; unfold mbind, M_bind, gets, ok_or; [by rewrite Hi | by rewrite Et].
  - apply (agree_pure (Err EBADF)); [done | |]; unfold mbind, M_bind, gets, ok_or; [by rewrite (H5 _ Et) | by rewrite Et].
Qed.

Lemma agree_close id s t : related s t -> agree (on_close id) (t_close id) s t.
Proof.
  intros [H1 H2 H3 H4 H5 H6]. split; [done |]. intros _. split; cbn; try done.
  - intros i x [_ Hx]%lookup_delete_Some. by eapply H4.
  - intros i Hx. destruct (decide (id = i)) as [<- | Hne]; [by rewrite lookup_delete_eq |].
    apply lookup_delete_None in Hx as [? | Hx]; [done |]. rewrite lookup_delete_ne by done. auto.
  - intros i e path [Hne Hx]%lookup_delete_Some. destruct (H6 _ _ _ Hx) as (j & Hj & Hn). exists j.
    by rewrite lookup_delete_ne.
Qed.

(** ** The refinement *)

Lemma agree_runs {A B} (m : M InitFsScheme (option A)) (n : M TreeScheme A) (f : A -> Answer B) s t :
  agree m (x ← n; mret (Some x)) s t ->
  agree (x ← m; mret (from_option f A_runs_on x)) (x ← n; mret (f x)) s t.
Proof.
  unfold agree, mbind, M_bind. destruct (n t) as [[x | |] t'], (m s) as [[y | |] s']; cbn; intros [H1 H2]; try done.
  - injection H1 as ->. split; [done |]. intros _. by apply H2.
  - injection H1 as ->. split; [done |]. intros _. by apply H2.
Qed.

Lemma agree_map {A B} (m : M InitFsScheme A) (n : M TreeScheme A) (f : A -> B) s t :
  agree m n s t -> agree (x ← m; mret (f x)) (x ← n; mret (f x)) s t.
Proof.
  intros H. apply (agree_bind m n (fun x => mret (f x)) (fun x => mret (f x))); [done |].
  intros x s' t' Hr _. by apply agree_ret.
Qed.

(** The offset of a call for directory entries is unsigned. *)
Definition call_ok {B} (c : Call B) : Prop := match c with C_getdents _ _ offset => 0 <= offset | _ => True end.

Context {B : Type} (entry : B -> Syscall.DirEntry -> outcome B).

Lemma agree_call fuel c s t :
  dir <> [] -> 2 ^ 16 < Z.of_nat fuel -> call_ok c -> related s t ->
  agree (image_call entry fuel c) (tree_call entry root_entry (now a) c) s t.
Proof.
  intros Hne Hf Hc Hr. destruct c as [path flags | id buf off | id buf off | id | id stat | id buf | id | id | id]; cbn [image_call tree_call].
  - apply agree_map. by apply agree_open.
  - apply (agree_map _ _ (fun r => A_bytes r.1 r.2)). by apply agree_read.
  - apply agree_map. by apply agree_getdents.
  - apply agree_runs. by apply agree_fsize.
  - apply agree_runs. by apply agree_fstat.
  - apply (agree_map _ _ (fun r => A_bytes r.1 r.2)). by apply agree_fpath.
  - assert ((n ← fcntl id; mret (A_num n)) s = (handle_at id;; mret (A_num (B := B) 0)) s) as E.
    { unfold fcntl, mbind, M_bind. by destruct (handle_at id s) as [[] ?]. }
    unfold agree. rewrite E. by apply agree_known.
  - apply (agree_bind _ _ (fun _ => mret A_done) (fun _ => mret A_done)); [| by intros; apply agree_ret].
    unfold fsync. pose proof Hr as [H1 H2 H3 H4 H5 H6]. unfold t_known, t_node, agree.
    destruct (t_handles t !! id) as [[e path] |] eqn:Et; unfold mbind, M_bind, gets, ok_or, fail_if; rewrite Et.
    + destruct (H6 _ _ _ Et) as (i & Hi & _). rewrite Hi. by split.
    + rewrite (H5 _ Et). by split.
  - apply (agree_bind _ _ (fun _ => mret A_done) (fun _ => mret A_done)); [by apply agree_close | by intros; apply agree_ret].
Qed.

Lemma agree_answers fuel l s t :
  dir <> [] -> 2 ^ 16 < Z.of_nat fuel -> Forall call_ok l -> related s t ->
  answers (image_call entry fuel) l s = answers (tree_call entry root_entry (now a)) l t.
Proof.
  intros Hne Hf Hl. revert s t. induction Hl as [| c l Hc _ IH]; intros s t Hr; [done |]. cbn [answers].
  destruct (agree_call fuel c s t Hne Hf Hc Hr) as [H1 H2].
  destruct (image_call entry fuel c s) as [r s'], (tree_call entry root_entry (now a) c t) as [r' t']. cbn [fst snd] in *.
  subst r'. destruct r; [f_equal; apply IH; by apply H2 | f_equal; apply IH; by apply H2 | done].
Qed.

Lemma related_new : related {| handles := ∅; next_id := 0; fs := img |} {| t_handles := ∅; t_next_id := 0 |}.
Proof. pose proof usize_mod_ge. split; cbn; try done; lia. Qed.
End served.

(** ** Mappings *)

Section mappings.
Context {TG : Target} {SC : Syscall} {PL : Plain} {IE : InitfsEnv}.

Lemma map_err_Ok {A} er (o : outcome A) x : map_err er o = Ok x -> o = Ok x.
Proof. by destruct o. Qed.

Lemma kind_file i f : kind i = K_File f -> f = i.
Proof. unfold kind. destruct (ty i) as [[] |]; congruence. Qed.

(** A mapping that is granted is of a file's bytes, not writable, and within
    the pages of the file; its address is where the file begins. *)
Lemma mmap_prep_Ok id offset size flags s x s' :
  mmap_prep id offset size flags s = (Ok x, s') ->
  exists hd i d n, handles s !! id = Some hd /\ InitfsScheme.get_inode (fs s) (h_inode hd) = Ok i /\
    x = image_address + offset_ (s_inode i) /\ kind i = K_File i /\ data i = Ok d /\
    all_set flags PROT_WRITE = false /\ page_round (zlen d) s = (Ok n, s') /\ offset + size <= n /\ s' = s.
Proof.
  intros H. unfold mmap_prep in H. apply bind_Ok in H as (hd & s1 & Hh & H). unfold handle_at in Hh.
  rewrite gets_bind in Hh. apply ok_or_Ok in Hh as [Hh ->]. rewrite gets_bind in H.
  apply bind_Ok in H as (i & s1 & [Hi ->]%lift_Ok & H). destruct (kind i) as [f | | |] eqn:Hk; [| done..].
  pose proof (kind_file _ _ Hk) as ->.
  apply bind_Ok in H as (d & s1 & [Hd ->]%lift_Ok & H). apply bind_Ok in H as ([] & s1 & [Hw ->]%fail_if_Ok & H).
  apply bind_Ok in H as (e & s1 & [He ->]%ok_or_Ok & H). apply bind_Ok in H as (n & s1 & Hn & H).
  apply bind_Ok in H as ([] & s2 & [Hlt ->]%fail_if_Ok & H). apply ret_Ok in H as [-> ->].
  assert (s1 = s) as ->.
  { unfold page_round in Hn. destruct (_ =? 0); [by apply ret_Ok in Hn as [_ ->] |]. unfold usize_add, arith in Hn.
    destruct (_ && _); [by apply ret_Ok in Hn as [_ ->] |]. destruct overflow_checks; [done |]. by apply ret_Ok in Hn as [_ ->]. }
  unfold try_into_bits in He. destruct (_ && _) eqn:E; [| done]. injection He as <-.
  exists hd, i, d, n. repeat (split; [done |]). split; [by eapply map_err_Ok |].
  repeat (split; [done |]). split; [lia | done].
Qed.
End mappings.

Section roundtrip.
Context {TG : Target} {SC : Syscall} {PL : Plain} {PLL : PlainLaws PL} {IE : InitfsEnv}.
Context {HIO : HostIO} {FR : FullReads HIO}.
Context {B : Type} (entry : B -> Syscall.DirEntry -> outcome B).

End roundtrip.

(** ** Instances *)

Definition plain_casts : Plain := {|
  from_bytes n l := if (n <=? length l)%nat then Some (take n l) else None;
  slice_from_bytes n l := if (0 <? n)%nat then Some (chunks n l) else None
|}.

Lemma plain_casts_laws : PlainLaws plain_casts.
Proof. split; [done |]. intros n l Hn. by destruct n; [lia |]. Qed.

(** A host on which every call succeeds, and one whose reads return a byte
    at a time. *)
Definition good_host : HostIO := {| io_ok _ := true; read_len _ n := n |}.
Definition slow_host : HostIO := {| io_ok _ := true; read_len _ n := (n `min` 1)%nat |}.

Lemma good_host_reads : FullReads good_host.
Proof. split. done. Qed.

Definition flat_env : InitfsEnv := {|
  O_SYMLINK := 0x40000000; PROT_WRITE := 2; image_address := 0x10000;
  canonicalize_to_standard _ p := Some p
|}.

#[local] Existing Instances x86_64_release redox_syscall plain_casts plain_casts_laws good_host good_host_reads flat_env.

(** ** A source *)

Definition file_node (name contents : string) : Node HostKind :=
  Build_Node (as_bytes name) (H_file (Some (as_bytes contents))) 0x81A4.

Definition demo_source : list (Node HostKind) :=
  [file_node "init" "#!/bin/init";
   Build_Node (as_bytes "etc") (H_dir (Some [file_node "hostname" "redox"; file_node "empty" ""])) 0x41ED;
   Build_Node (as_bytes "sh") (H_symlink (Some (as_bytes "/bin/ion"))) 0xA1FF].

Definition demo_args : Args := {|
  a_max_size := 2 ^ 20; source := Some demo_source; root_mode := 0x41ED; bootstrap_code := None;
  now := {| sec := 1700000000; nsec := 0 |}
|}.

Definition demo_image : list u8 := match archive demo_args with Ok img => img | _ => [] end.

Lemma demo_archived : archive demo_args = Ok demo_image.
Proof.
  assert (is_ok (archive demo_args) = true) as H by (vm_compute; reflexivity).
  unfold demo_image. destruct (archive demo_args); [reflexivity | discriminate H | discriminate H].
Qed.

Lemma demo_fits : args_fit demo_args.
Proof. split; cbn; try lia. repeat split; done. Qed.

(** Entries are collected, at most four of them. *)
Definition collect (l : list Syscall.DirEntry) (e : Syscall.DirEntry) : outcome (list Syscall.DirEntry) :=
  if (length l <? 4)%nat then Ok (l ++ [e]) else Err EINVAL.

Definition demo_calls : list (Call (list Syscall.DirEntry)) :=
  [C_open "/etc//hostname" 0; C_read 1 (replicate 8 x00) 0; C_fsize 1; C_open "sh" 0; C_open "sh" 0x40000000;
   C_read 2 (replicate 8 x00) 1; C_open "" 0; C_getdents 3 [] 1; C_fsize 3; C_open "etc/none" 0; C_open "init/x" 0;
   C_close 1; C_read 1 [] 0].

(** The fuel for lengths of directories *)
Definition demo_fuel : nat := Z.to_nat 65537.

Definition demo_scheme : InitFsScheme := {| handles := ∅; next_id := 0; fs := demo_image |}.

Example demo_answers :
  answers (image_call collect 8) demo_calls demo_scheme =
    [Ok (A_open (ThisScheme 1 fd_POSITIONED)); Ok (A_bytes 5 (as_bytes "redox" ++ replicate 3 x00)); Ok (A_num 5);
     Err EXDEV; Ok (A_open (ThisScheme 2 fd_POSITIONED)); Ok (A_bytes 7 (as_bytes "bin/ion" ++ [x00]));
     Ok (A_open (ThisScheme 3 fd_POSITIONED));
     Ok (A_dents [{| de_inode := 0; de_name := "etc"; de_next_opaque_id := 1 |};
                  {| de_inode := 0; de_name := "sh"; de_next_opaque_id := 2 |}]);
     Ok (A_num 12); Err ENOENT; Err ENOENT; Ok A_done; Err EBADF].
Proof. vm_compute. reflexivity. Qed.


(** ** Defects *)

(** [..] drops the last component instead of going up: [etc/../init] is the
    directory [etc], and [../init] is the root. *)
Lemma dotdot_drops_last_component :
  open_inode demo_image "etc/../init" = open_inode demo_image "etc" /\
  open_inode demo_image "../init" = open_inode demo_image "" /\
  open_inode demo_image "etc/../init" <> open_inode demo_image "init".
Proof. vm_compute. repeat split; congruence. Qed.

(** The entries behind an offset are numbered from 1 again: a caller that
    goes on after the number it was given last gets the same entries again. *)
Lemma getdents_repeats :
  answers (image_call collect 8) [C_open "" 0; C_getdents 1 [] 2; C_getdents 1 [] 1] demo_scheme =
    [Ok (A_open (ThisScheme 1 fd_POSITIONED));
     Ok (A_dents [{| de_inode := 0; de_name := "sh"; de_next_opaque_id := 1 |}]);
     Ok (A_dents [{| de_inode := 0; de_name := "etc"; de_next_opaque_id := 1 |};
                  {| de_inode := 0; de_name := "sh"; de_next_opaque_id := 2 |}])].
Proof. vm_compute. reflexivity. Qed.

(** The address that a mapping gets does not depend on its offset. *)
Lemma mmap_prep_ignores_offset {TG : Target} {SC : Syscall} {PL : Plain} {IE : InitfsEnv} id o1 o2 size flags x1 x2 s s1 s2 :
  mmap_prep id o1 size flags s = (Ok x1, s1) -> mmap_prep id o2 size flags s = (Ok x2, s2) -> x1 = x2.
Proof.
  intros (h1 & i1 & d1 & n1 & Hh1 & Hi1 & -> & _)%mmap_prep_Ok (h2 & i2 & d2 & n2 & Hh2 & Hi2 & -> & _)%mmap_prep_Ok. congruence.
Qed.

(** A directory that cannot be read has entries without end: in a release
    build its length is never found. *)
Lemma unreadable_dir_never_ends {TG : Target} {PL : Plain} dir e fuel idx len :
  entries dir = Err e -> overflow_checks = false -> 0 <= idx -> 0 <= len < usize_mod ->
  dir_len fuel dir idx len = None.
Proof.
  intros He Hc. revert idx len. induction fuel as [| fuel IH]; intros idx len Hi Hl; [done |].
  cbn [dir_len]. unfold iter_next, get_entry. rewrite He. cbn [mbind outcome_bind map_err].
  unfold arith at 1. destruct (_ && _); [| rewrite Hc]; cbn [fst mbind outcome_bind mret M_ret];
    rewrite usize_add_ok by lia; cbn [fst]; (apply IH; [| lia]); [lia | apply Z.mod_pos_bound; lia].
Qed.

(** An empty source directory makes an image whose root is such a directory. *)
Definition empty_args : Args := {|
  a_max_size := 2 ^ 20; source := Some []; root_mode := 0x41ED; bootstrap_code := None; now := {| sec := 0; nsec := 0 |}
|}.

Lemma empty_root_unreadable :
  exists img root, archive empty_args = Ok img /\ Initfs.get_inode img 0 = Ok (Some root) /\
    kind root = K_Dir root /\ entries root = Err CORRUPT.
Proof.
  assert (match archive empty_args with
          | Ok img => match Initfs.get_inode img 0 with
                      | Ok (Some root) =>
                          match kind root, entries root with
                          | K_Dir _, Err (EOther 0) => true
                          | _, _ => false
                          end
                      | _ => false
                      end
          | _ => false
          end = true) as H by (vm_compute; reflexivity).
  destruct (archive empty_args) as [img | |] eqn:E1; [| discriminate H..].
  destruct (Initfs.get_inode img 0) as [[root |] | |] eqn:E2; [| discriminate H..].
  exists img, root. split; [reflexivity |]. split; [exact E2 |].
  unfold kind in *. destruct (ty root) as [[] |]; [discriminate H | | discriminate H..].
  split; [reflexivity |]. destruct (entries root) as [| [] |]; try discriminate H. by destruct code.
Qed.

(** A short read of a source file leaves the buffer's old bytes in the image. *)
Lemma short_read_corrupts :
  let s := initial (2 ^ 20) in
  take 3 (file (@allocate_and_write_file x86_64_release good_host (as_bytes "abc") s).2) = as_bytes "abc" /\
  take 3 (file (@allocate_and_write_file x86_64_release slow_host (as_bytes "abc") s).2) = as_bytes "a" ++ [x00; x00].
Proof. vm_compute. split; reflexivity. Qed.
