(* ===== verification/Disk.v ===== *)
(** * Block devices and their partitions

    Models [drivers/storage/driver-block/src/lib.rs] up to [DiskWrapper], and
    [drivers/storage/partitionlib/src/]: what a driver offers as a disk, reading bytes from a disk of
    blocks, the partition table, and reads and writes of a partition.  The
    crates [gpt] and [scroll] are parameters.  A future that the code awaits,
    or hands to an executor, runs to its end in place. *)

From stdpp Require Import base gmap strings list fin_maps.
From Stdlib Require Import ZArith Lia.
From Stdlib Require Import Strings.Byte.
From S2P Require Import Prelude.

Local Open Scope Z_scope.

(** ** The trait [Disk] *)

(** A read returns the number of bytes and the new contents of the buffer. *)
Class Disk (T : Type) := {
  d_block_size : T -> u32;
  d_size : T -> u64;
  d_read : u64 -> list u8 -> M T (Z * list u8);
  d_write : u64 -> list u8 -> M T Z;
  d_flush : M T unit
}.

(** [Disk::flush], the default *)
Definition flush_default {T} : M T unit := mret tt.

(** ** Arithmetic of the sources *)

(** [a / b] and [a % b] *)
Definition u64_div {S} (a b : Z) : M S Z := if b =? 0 then panic else mret (a / b).
Definition u64_rem {S} (a b : Z) : M S Z := if b =? 0 then panic else mret (a mod b).

(** [x as i64], and [+] on [i64] *)
Definition as_i64 (x : Z) : Z := (x + 2 ^ 63) mod 2 ^ 64 - 2 ^ 63.
Definition i64_add {TG : Target} {S} (a b : Z) : M S Z :=
  if (- 2 ^ 63 <=? a + b) && (a + b <? 2 ^ 63) then mret (a + b)
  else if overflow_checks then panic else mret (as_i64 (a + b)).

(** ** Reading bytes block by block *)

Section block_read.
Context {TG : Target} {S : Type} (blksize : u32) (read_fn : u64 -> list u8 -> M S (list u8)).

(** The [while] loop, with the number of bytes read and the contents of [curr_buf] at its end.
    Every turn copies at least one byte, so the length of [curr_buf] is enough fuel. *)
Fixpoint block_loop (fuel : nat) (curr_offset : u64) (curr_buf block_bytes : list u8) (total_read : Z) : M S (Z * list u8) :=
  if (length curr_buf =? 0)%nat then mret (total_read, [])
  else match fuel with
  | O => panic
  | Datatypes.S fuel =>
      blk_offset ← u64_rem curr_offset blksize;
      let to_copy := (length curr_buf `min` Z.to_nat (blksize - blk_offset))%nat in
      block ← u64_div curr_offset blksize;
      block_bytes ← read_fn block block_bytes;
      next_offset ← arith 64 (curr_offset + Z.of_nat to_copy);
      '(n, rest) ← block_loop fuel next_offset (drop to_copy curr_buf) block_bytes (total_read + Z.of_nat to_copy);
      mret (n, take to_copy (drop (Z.to_nat blk_offset) block_bytes) ++ rest)
  end.

Definition block_read (offset : u64) (buf : list u8) : M S (Z * list u8) :=
  if (length buf =? 0)%nat then mret (0, buf)
  else
    let to_copy := Z.to_nat (Z.min (offset + zlen buf) (2 ^ 64 - 1) - offset) in
    if 4096 <? blksize then panic
    else
      '(n, l) ← block_loop to_copy offset (take to_copy buf) (replicate (Z.to_nat blksize) x00) 0;
      mret (n, l ++ drop to_copy buf).
End block_read.

(** ** [io::Read] and [io::Seek] *)

Inductive SeekFrom := Start (new_pos : u64) | Current (new_pos : Z) | End_ (new_pos : Z).

Class ReadSeek (D : Type) := {
  rs_read : list u8 -> M D (Z * list u8);
  rs_seek : SeekFrom -> M D u64
}.

(** An [io::Error] with a kind but no error number *)
Definition io_error : errno := EOther 0.

(** [Read::read_exact]: the buffer that is full.  A read that was interrupted is
    tried again; a device that is interrupted [fuel] times is not followed further. *)
Fixpoint read_exact {D} {RS : ReadSeek D} (fuel : nat) (buf : list u8) : M D (list u8) := fun s =>
  if (length buf =? 0)%nat then (Ok [], s)
  else match fuel with
  | O => (Panic, s)
  | S fuel =>
      match rs_read buf s with
      | (Ok (n, l), s) =>
          if n =? 0 then (Err io_error, s)
          else
            (rest ← read_exact fuel (drop (Z.to_nat n) l); mret (take (Z.to_nat n) l ++ rest)) s
      | (Err e, s) => if bool_decide (e = EINTR) then read_exact fuel buf s else (Err e, s)
      | (Panic, s) => (Panic, s)
      end
  end.

(** ** Partition tables *)

(** [gpt::disk::LogicalBlockSize] *)
Inductive LogicalBlockSize := Lb512 | Lb4096.

(** [gpt::partition::Partition], the fields that are used *)
Record GptPartition {Uuid : Type} := {
  part_flags : u64; first_lba : u64; last_lba : u64; part_name : string; part_guid : Uuid
}.
Arguments GptPartition : clear implicits.

(** The crate [gpt].  It reads the device through [Read] and [Seek]; the
    entries of the [BTreeMap] it returns are in the order of their keys. *)
Class Gpt := {
  Uuid : Type;
  GptHeader : Type;
  read_header_from_arbitrary_device : forall {D} {RS : ReadSeek D}, LogicalBlockSize -> M D GptHeader;
  file_read_partitions : forall {D} {RS : ReadSeek D}, GptHeader -> LogicalBlockSize -> M D (list (u32 * GptPartition Uuid))
}.

(** Arguments of its calls: a buffer that can be allocated, and positions in their width *)
Definition seek_valid (p : SeekFrom) : Prop :=
  match p with Start n => 0 <= n < 2 ^ 64 | Current n | End_ n => - 2 ^ 63 <= n < 2 ^ 63 end.

(** What it leaves of a device: anything that its reads and seeks keep. *)
Class GptLaws (GP : Gpt) : Prop := {
  gpt_header_keeps : forall D (RS : ReadSeek D) (I : D -> Prop) bs,
    (forall buf, zlen buf < 2 ^ 63 -> keeps I (rs_read buf)) -> (forall p, seek_valid p -> keeps I (rs_seek p)) ->
    keeps I (read_header_from_arbitrary_device bs);
  gpt_partitions_keeps : forall D (RS : ReadSeek D) (I : D -> Prop) h bs,
    (forall buf, zlen buf < 2 ^ 63 -> keeps I (rs_read buf)) -> (forall p, seek_valid p -> keeps I (rs_seek p)) ->
    keeps I (file_read_partitions h bs)
}.

Record Entry := {
  drive_attrs : u8; start_head : u8; start_cs : u16; sys_id : u8; end_head : u8; end_cs : u16;
  rel_sector : u32; entry_len : u32
}.
Record Header := {
  bootstrap : list u8; first_entry : Entry; second_entry : Entry; third_entry : Entry; fourth_entry : Entry;
  last_signature : u16
}.

(** The derived [Pread] of [scroll], in little endian *)
Class Scroll := { pread_with : list u8 -> option Header }.

(** The fields in their order, packed *)
Definition entry_at (l : list u8) (o : nat) : Entry :=
  {| drive_attrs := nth o l x00; start_head := nth (o + 1) l x00; start_cs := from_le (take 2 (drop (o + 2) l));
     sys_id := nth (o + 4) l x00; end_head := nth (o + 5) l x00; end_cs := from_le (take 2 (drop (o + 6) l));
     rel_sector := from_le (take 4 (drop (o + 8) l)); entry_len := from_le (take 4 (drop (o + 12) l)) |}.
Definition header_at (l : list u8) : Header :=
  {| bootstrap := take 446 l; first_entry := entry_at l 446; second_entry := entry_at l 462;
     third_entry := entry_at l 478; fourth_entry := entry_at l 494; last_signature := from_le (take 2 (drop 510 l)) |}.
Class ScrollLaws (SR : Scroll) : Prop := {
  pread_with_512 : forall l, length l = 512%nat -> pread_with l = Some (header_at l)
}.

Definition is_valid (e : Entry) : bool :=
  (bool_decide (drive_attrs e = x00) || bool_decide (drive_attrs e = x80)) && negb (entry_len e =? 0).

(** [Header::partitions] *)
Definition valid_entries (h : Header) : list Entry :=
  filter (fun e => is_valid e) [first_entry h; second_entry h; third_entry h; fourth_entry h].

Inductive PartitionTableKind := Mbr | Gpt_.

Record Partition {Uuid : Type} := {
  start_lba : u64; psize : u64; flags : option u64; name : option string; uuid : option Uuid
}.
Arguments Partition : clear implicits.
Record PartitionTable {Uuid : Type} := { partitions : list (Partition Uuid); kind : PartitionTableKind }.
Arguments PartitionTable : clear implicits.

Section partitionlib.
Context {TG : Target} {GP : Gpt} {SR : Scroll} {D : Type} {RS : ReadSeek D} (fuel : nat).

Definition read_header : M D (option Header) :=
  rs_seek (Start 0);;
  bytes ← read_exact fuel (replicate 512 x00);
  header ← unwrap (pread_with bytes);
  mret (if last_signature header =? 0xAA55 then Some header else None).

Definition gpt_partition (part : GptPartition Uuid) : M D (Partition Uuid) :=
  n ← arith 64 (last_lba part - first_lba part);
  n ← arith 64 (n + 1);
  mret {| flags := Some (part_flags part); psize := n; name := Some (part_name part); uuid := Some (part_guid part);
          start_lba := first_lba part |}.

Fixpoint gpt_partition_list (l : list (u32 * GptPartition Uuid)) : M D (list (Partition Uuid)) :=
  match l with
  | [] => mret []
  | (_, part) :: l => p ← gpt_partition part; ps ← gpt_partition_list l; mret (p :: ps)
  end.

Definition get_gpt_partitions (sector_size : LogicalBlockSize) : M D (PartitionTable Uuid) :=
  header ← read_header_from_arbitrary_device sector_size;
  btree ← file_read_partitions header sector_size;
  ps ← gpt_partition_list btree;
  mret {| partitions := ps; kind := Gpt_ |}.

Definition mbr_partition (e : Entry) : Partition Uuid :=
  {| name := None; uuid := None; flags := None; psize := entry_len e; start_lba := rel_sector e |}.

Definition get_mbr_partitions : M D (option (PartitionTable Uuid)) :=
  header ← read_header;
  mret (match header with
        | None => None
        | Some header => Some {| kind := Mbr; partitions := map mbr_partition (valid_entries header) |}
        end).

Definition get_partitions (sector_size : LogicalBlockSize) : M D (option (PartitionTable Uuid)) := fun s =>
  match get_gpt_partitions sector_size s with
  | (Ok table, s) => (Ok (Some table), s)
  | (Err _, s) => get_mbr_partitions s
  | (Panic, s) => (Panic, s)
  end.
End partitionlib.

(** [Partition::to_offset] *)
Definition to_offset {TG : Target} {S U} (p : Partition U) (sector_size : LogicalBlockSize) : M S u64 :=
  arith 64 (start_lba p * match sector_size with Lb512 => 512 | Lb4096 => 4096 end).

(** ** The bytes of a disk *)

(** [Device]: a disk and a position *)
Record Device (T : Type) := { dev_disk : T; dev_offset : u64 }.
Arguments Build_Device {T} _ _.
Arguments dev_disk {T} _.
Arguments dev_offset {T} _.

Definition set_dev_disk {T} (d : T) (v : Device T) : Device T := {| dev_disk := d; dev_offset := dev_offset v |}.
Definition set_dev_offset {T} (o : u64) (v : Device T) : Device T := {| dev_disk := dev_disk v; dev_offset := o |}.

Section device.
Context {TG : Target} {T : Type} {DK : Disk T}.

Definition device_seek (from : SeekFrom) : M (Device T) u64 :=
  disk_size ← gets (fun v => d_size (dev_disk v));
  fail_if (2 ^ 63 <=? disk_size) io_error;;
  offset ← gets dev_offset;
  new ← match from with
        | Start new_pos => mret (Z.min disk_size new_pos)
        | Current new_pos => p ← i64_add (as_i64 offset) new_pos; mret (Z.max 0 (Z.min disk_size p))
        | End_ new_pos => p ← i64_add disk_size new_pos; mret (Z.max 0 (Z.min p disk_size))
        end;
  modify (set_dev_offset new);;
  mret new.

(** The closure [read_block] of [Device::read] *)
Definition read_block (size_in_blocks block : u64) (block_bytes : list u8) : M (Device T) (list u8) :=
  fail_if (size_in_blocks <=? block) EOVERFLOW;;
  '(bytes, l) ← zoom dev_disk set_dev_disk (d_read block block_bytes);
  if bytes =? zlen block_bytes then mret l else panic.

Definition device_read (buf : list u8) : M (Device T) (Z * list u8) :=
  blksize ← gets (fun v => d_block_size (dev_disk v));
  disk_size ← gets (fun v => d_size (dev_disk v));
  size_in_blocks ← u64_div disk_size blksize;
  offset ← gets dev_offset;
  '(bytes_read, l) ← block_read blksize (read_block size_in_blocks) offset buf;
  new ← arith 64 (offset + bytes_read);
  modify (set_dev_offset new);;
  mret (bytes_read, l).

#[export] Instance device_ReadSeek : ReadSeek (Device T) := {| rs_read := device_read; rs_seek := device_seek |}.
End device.

(** ** [DiskWrapper] *)

Record DiskWrapper {GP : Gpt} (T : Type) := { disk : T; pt : option (PartitionTable Uuid) }.
Arguments Build_DiskWrapper {GP T} _ _.
Arguments disk {GP T} _.
Arguments pt {GP T} _.

Definition set_disk {GP : Gpt} {T} (d : T) (w : DiskWrapper T) : DiskWrapper T := {| disk := d; pt := pt w |}.

Section wrapper.
Context {TG : Target} {GP : Gpt} {SR : Scroll} {T : Type} {DK : Disk T}.

(** [DiskWrapper::pt] *)
Definition wrapper_pt (fuel : nat) : M T (option (PartitionTable Uuid)) := fun d =>
  let find bs :=
    match get_partitions fuel bs {| dev_disk := d; dev_offset := 0 |} with
    | (Ok table, v) => (Ok table, dev_disk v)
    | (Err _, v) => (Ok None, dev_disk v)
    | (Panic, v) => (Panic, dev_disk v)
    end in
  if d_block_size d =? 512 then find Lb512
  else if d_block_size d =? 4096 then find Lb4096
  else (Ok None, d).

Definition DiskWrapper_new (fuel : nat) (d : T) : outcome (DiskWrapper T) :=
  match wrapper_pt fuel d with
  | (Ok table, d) => Ok {| disk := d; pt := table |}
  | (Err e, _) => Err e
  | (Panic, _) => Panic
  end.

Definition wrapper_block_size (w : DiskWrapper T) : u32 := d_block_size (disk w).
Definition wrapper_size (w : DiskWrapper T) : u64 := d_size (disk w).

(** [self.pt.as_ref()..partitions.get(part_num)] *)
Definition partition_of (e : errno) (w : DiskWrapper T) (part_num : Z) : outcome (Partition Uuid) :=
  table ← o_ok_or e (pt w);
  o_ok_or e (partitions table !! Z.to_nat part_num).

(** The block of the disk for a block of a partition, or of the disk *)
Definition abs_block (part_num : option Z) (block : u64) : M (DiskWrapper T) u64 :=
  match part_num with
  | Some part_num =>
      w ← gets id;
      part ← lift (partition_of EBADF w part_num);
      fail_if (psize part <=? block) EOVERFLOW;;
      arith 64 (start_lba part + block)
  | None => mret block
  end.

Definition wrapper_read (part_num : option Z) (block : u64) (buf : list u8) : M (DiskWrapper T) (Z * list u8) :=
  blksize ← gets wrapper_block_size;
  rem ← u64_rem (zlen buf) blksize;
  fail_if (negb (rem =? 0)) EINVAL;;
  b ← abs_block part_num block;
  zoom disk set_disk (d_read b buf).

Definition wrapper_write (part_num : option Z) (block : u64) (buf : list u8) : M (DiskWrapper T) Z :=
  blksize ← gets wrapper_block_size;
  rem ← u64_rem (zlen buf) blksize;
  fail_if (negb (rem =? 0)) EINVAL;;
  b ← abs_block part_num block;
  zoom disk set_disk (d_write b buf).

Definition wrapper_flush : M (DiskWrapper T) unit := zoom disk set_disk d_flush.
End wrapper.
