(* ===== verification/DiskScheme.v ===== *)
(** * The disk scheme

    Models [DiskScheme] of [drivers/storage/driver-block/src/lib.rs], through which
    every disk driver serves its disks and their partitions as files, with
    [tick], the turn of its event loop. *)

From stdpp Require Import base gmap strings list fin_maps sorting.
From Stdlib Require Import ZArith Lia.
From Stdlib Require Import Strings.Byte.
From S2P Require Import Prelude Syscall Disk.

Local Open Scope Z_scope.

Inductive Handle :=
| List_ (entries : list u8)
| Disk_ (disk_num : u32)
| Part_ (disk_num part_num : u32).

Record DiskScheme {GP : Gpt} (T : Type) := {
  scheme_name : string; disks : gmap Z (DiskWrapper T); handles : gmap Z Handle; next_id : Z
}.
Arguments Build_DiskScheme {GP T} _ _ _ _.
Arguments scheme_name {GP T} _.
Arguments disks {GP T} _.
Arguments handles {GP T} _.
Arguments next_id {GP T} _.

Definition set_disks {GP : Gpt} {T} x (s : DiskScheme T) : DiskScheme T :=
  {| scheme_name := scheme_name s; disks := x; handles := handles s; next_id := next_id s |}.
Definition set_handles {GP : Gpt} {T} x (s : DiskScheme T) : DiskScheme T :=
  {| scheme_name := scheme_name s; disks := disks s; handles := x; next_id := next_id s |}.
Definition set_next_id {GP : Gpt} {T} x (s : DiskScheme T) : DiskScheme T :=
  {| scheme_name := scheme_name s; disks := disks s; handles := handles s; next_id := x |}.

(** ** Strings *)

(** [s.is_char_boundary(i)], for the bytes of a [&str] *)
Definition is_char_boundary (i : nat) (l : list u8) : bool :=
  (i =? 0)%nat || (i =? length l)%nat ||
  match l !! i with Some b => negb (cont_byte 0x80 0xBF b) | None => false end.

(** [&s[..i]] and [&s[i..]] *)
Definition str_to {S} (i : nat) (s : string) : M S string :=
  if is_char_boundary i (as_bytes s) then mret (String.string_of_list_byte (take i (as_bytes s))) else panic.
Definition str_from {S} (i : nat) (s : string) : M S string :=
  if is_char_boundary i (as_bytes s) then mret (String.string_of_list_byte (drop i (as_bytes s))) else panic.

(** [s.chars().position(|c| c == x)] for an ASCII character: the number of characters before it *)
Fixpoint char_position (x : u8) (l : list u8) : option nat :=
  match l with
  | [] => None
  | b :: l =>
      if bool_decide (b = x) then Some 0%nat
      else n ← char_position x l; Some (if cont_byte 0x80 0xBF b then n else Datatypes.S n)
  end.

(** The copying loops of [fpath]: the position behind, and the buffer. *)
Definition put_str (i : nat) (s : string) (buf : list u8) : nat * list u8 := (cursor_write_all i (as_bytes s) buf).1.

(** [write!] of a line *)
Definition newline : string := String (Ascii.ascii_of_nat 10) EmptyString.

Section scheme.
Context {TG : Target} {SC : Syscall} {GP : Gpt} {SR : Scroll} {T : Type} {DK : Disk T}.

(** ** Start *)

Fixpoint new_disks (fuel : nat) (l : list (u32 * T)) : outcome (gmap Z (DiskWrapper T)) :=
  match l with
  | [] => Ok ∅
  | (k, d) :: l => w ← DiskWrapper_new fuel d; ws ← new_disks fuel l; Ok (<[k := w]> ws)
  end.

(** [created]: whether the kernel creates the scheme; [l]: the disks, in the order of their numbers. *)
Definition DiskScheme_new (fuel : nat) (created : bool) (name : string) (l : list (u32 * T)) : outcome (DiskScheme T) :=
  if negb (String.prefix "disk" name) then Panic
  else if negb created then Panic
  else
    ws ← new_disks fuel l;
    Ok {| scheme_name := name; disks := ws; next_id := 0; handles := ∅ |}.

(** ** Locks *)

(** Whether an open handle conflicts with a disk, or a partition of it *)
Definition conflicts (disk_i : u32) (part_i_opt : option u32) (h : Handle) : bool :=
  match h with
  | Disk_ i => disk_i =? i
  | Part_ i p => (disk_i =? i) && match part_i_opt with Some part_i => part_i =? p | None => true end
  | List_ _ => false
  end.

Definition check_locks (disk_i : u32) (part_i_opt : option u32) : M (DiskScheme T) unit :=
  hs ← gets handles;
  fail_if (existsb (conflicts disk_i part_i_opt) (map snd (map_to_list hs))) ENOLCK.

(** ** The methods of the trait *)

(** The disks in the order of their numbers *)
Definition disk_nums (s : DiskScheme T) : list Z := merge_sort Z.le (map fst (map_to_list (disks s))).

(** The lines of the directory for a disk *)
Definition list_disk (s : DiskScheme T) (nsid : Z) : string :=
  show_unsigned nsid +:+ newline +:+
  match disks s !! nsid with
  | Some w =>
      match pt w with
      | Some table =>
          String.concat "" ((fun n => show_unsigned nsid +:+ "p" +:+ show_unsigned (Z.of_nat n) +:+ newline)
            <$> seq 0 (length (partitions table)))
      | None => ""
      end
  | None => ""
  end.

(** The branch of [open] for a path with a [p] *)
Definition open_partition (path_str : string) (p_pos : nat) : M (DiskScheme T) Handle :=
  nsid_str ← str_to p_pos path_str;
  fail_if (length (as_bytes path_str) <=? p_pos + 1)%nat ENOENT;;
  part_num_str ← str_from (p_pos + 1) path_str;
  nsid ← ok_or ENOENT (parse_unsigned (2 ^ 32) nsid_str);
  part_num ← ok_or ENOENT (parse_unsigned (2 ^ 32) part_num_str);
  ds ← gets disks;
  w ← ok_or ENOENT (ds !! nsid);
  lift (partition_of ENOENT w part_num);;
  check_locks nsid (Some part_num);;
  mret (Part_ nsid part_num).

Definition open_disk (path_str : string) : M (DiskScheme T) Handle :=
  nsid ← ok_or ENOENT (parse_unsigned (2 ^ 32) path_str);
  ds ← gets disks;
  ok_or ENOENT (ds !! nsid);;
  check_locks nsid None;;
  mret (Disk_ nsid).

Definition open (path_str : string) (flags : Z) (ctx : CallerCtx) : M (DiskScheme T) OpenResult :=
  fail_if (negb (ctx_uid ctx =? 0)) EACCES;;
  let path_str := trim_matches slash path_str in
  handle ← (
    if str_is_empty path_str then
      if all_set flags O_DIRECTORY || all_set flags O_STAT then
        s ← gets id;
        mret (List_ (as_bytes (String.concat "" (map (list_disk s) (disk_nums s)))))
      else throw EISDIR
    else match char_position x70 (as_bytes path_str) with
    | Some p_pos => open_partition path_str p_pos
    | None => open_disk path_str
    end);
  i ← gets next_id;
  next ← usize_add i 1;
  modify (set_next_id next);;
  modify (fun s => set_handles (<[i := handle]> (handles s)) s);;
  mret (ThisScheme i fd_POSITIONED).

Definition handle_at (i : Z) : M (DiskScheme T) Handle := hs ← gets handles; ok_or EBADF (hs !! i).

(** [self.disks.get_mut(&number).ok_or(Error::new(EBADF))?], and what is done with the disk *)
Definition on_disk {A} (number : u32) (m : M (DiskWrapper T) A) : M (DiskScheme T) A :=
  ds ← gets disks;
  w ← ok_or EBADF (ds !! number);
  zoom (fun _ => w) (fun w s => set_disks (<[number := w]> (disks s)) s) m.

Definition getdents (i : Z) : M (DiskScheme T) unit := throw EOPNOTSUPP.

(** [stat] is the buffer of the caller, of which some fields are set. *)
Definition set_stat (mode sz blksize blocks : Z) (stat : Stat) : Stat :=
  {| st_mode := mode; st_uid := st_uid stat; st_gid := st_gid stat; st_ino := st_ino stat; st_nlink := st_nlink stat;
     st_dev := st_dev stat; st_size := sz; st_blksize := blksize; st_blocks := blocks;
     st_atime := st_atime stat; st_atime_nsec := st_atime_nsec stat; st_ctime := st_ctime stat;
     st_ctime_nsec := st_ctime_nsec stat; st_mtime := st_mtime stat; st_mtime_nsec := st_mtime_nsec stat |}.

Definition fstat (i : Z) (stat : Stat) : M (DiskScheme T) Stat :=
  h ← handle_at i;
  match h with
  | List_ data => mret (set_stat MODE_DIR (zlen data) (st_blksize stat) (st_blocks stat) stat)
  | Disk_ number =>
      on_disk number (
        disk_size ← gets wrapper_size;
        blksize ← gets wrapper_block_size;
        blocks ← u64_div disk_size blksize;
        mret (set_stat MODE_FILE disk_size blksize blocks stat))
  | Part_ disk_num part_num =>
      on_disk disk_num (
        w ← gets id;
        part ← lift (partition_of EBADF w part_num);
        sz ← arith 64 (psize part * wrapper_block_size w);
        mret (set_stat MODE_FILE sz (wrapper_block_size w) (psize part) stat))
  end.

Definition fpath (i : Z) (buf : list u8) : M (DiskScheme T) (Z * list u8) :=
  h ← handle_at i;
  name ← gets scheme_name;
  let '(n, buf) := put_str 0 name buf in
  let '(n, buf) := put_str n ":" buf in
  let '(n, buf) := put_str n (match h with
                              | List_ _ => ""
                              | Disk_ number => show_unsigned number
                              | Part_ disk_num part_num => show_unsigned disk_num +:+ "p" +:+ show_unsigned part_num
                              end) buf in
  mret (Z.of_nat n, buf).

(** [usize::try_from(offset).ok().and_then(|o| handle.get(o..)).unwrap_or(&[])] *)
Definition list_from (offset : u64) (l : list u8) : list u8 :=
  match usize_try_from offset with
  | Some o => if o <=? zlen l then drop (Z.to_nat o) l else []
  | None => []
  end.

(** [offset / u64::from(disk.block_size())] *)
Definition block_of (offset : u64) : M (DiskWrapper T) u64 :=
  blksize ← gets wrapper_block_size; u64_div offset blksize.

Definition read (i : Z) (buf : list u8) (offset : u64) : M (DiskScheme T) (Z * list u8) :=
  h ← handle_at i;
  match h with
  | List_ entries =>
      let src := list_from offset entries in
      let count := (length src `min` length buf)%nat in
      mret (Z.of_nat count, copy_prefix count src buf)
  | Disk_ number => on_disk number (block ← block_of offset; wrapper_read None block buf)
  | Part_ disk_num part_num => on_disk disk_num (block ← block_of offset; wrapper_read (Some part_num) block buf)
  end.

Definition write (i : Z) (buf : list u8) (offset : u64) : M (DiskScheme T) Z :=
  h ← handle_at i;
  match h with
  | List_ _ => throw EBADF
  | Disk_ number => on_disk number (block ← block_of offset; wrapper_write None block buf)
  | Part_ disk_num part_num => on_disk disk_num (block ← block_of offset; wrapper_write (Some part_num) block buf)
  end.

Definition fsize (i : Z) : M (DiskScheme T) u64 :=
  h ← handle_at i;
  match h with
  | List_ entries => mret (zlen entries)
  | Disk_ number => on_disk number (gets wrapper_size)
  | Part_ disk_num part_num =>
      on_disk disk_num (
        w ← gets id;
        part ← lift (partition_of EBADF w part_num);
        arith 64 (psize part * wrapper_block_size w))
  end.

Definition fsync (i : Z) : M (DiskScheme T) unit :=
  h ← handle_at i;
  match h with
  | List_ _ => mret tt
  | Disk_ number => on_disk number wrapper_flush
  | Part_ disk_num _ => on_disk disk_num wrapper_flush
  end.

Definition on_close (i : Z) : M (DiskScheme T) unit := modify (fun s => set_handles (delete i (handles s)) s).

(** ** The event loop *)

Inductive Call :=
| C_open (path : string) (flags : Z) (ctx : CallerCtx)
| C_getdents (i : Z)
| C_fstat (i : Z) (stat : Stat)
| C_fpath (i : Z) (buf : list u8)
| C_read (i : Z) (buf : list u8) (offset : u64)
| C_write (i : Z) (buf : list u8) (offset : u64)
| C_fsize (i : Z)
| C_fsync (i : Z).

(** [RequestKind] *)
Inductive Request :=
| R_call (c : Call)
| R_sendfd
| R_recvfd
| R_cancellation
| R_msync | R_munmap | R_mmap
| R_close (i : Z).

Inductive Answer :=
| A_open (r : outcome OpenResult)
| A_unit (r : outcome unit)
| A_stat (r : outcome Stat)
| A_bytes (r : outcome (Z * list u8))
| A_num (r : outcome Z).

(** A call, whose [Result] becomes the answer; a panic ends the driver. *)
Definition answer {A} (f : outcome A -> Answer) (m : M (DiskScheme T) A) : M (DiskScheme T) Answer := fun s =>
  match m s with (Panic, s) => (Panic, s) | (o, s) => (Ok (f o), s) end.

Definition call (c : Call) : M (DiskScheme T) Answer :=
  match c with
  | C_open path flags ctx => answer A_open (open path flags ctx)
  | C_getdents i => answer A_unit (getdents i)
  | C_fstat i stat => answer A_stat (fstat i stat)
  | C_fpath i buf => answer A_bytes (fpath i buf)
  | C_read i buf offset => answer A_bytes (read i buf offset)
  | C_write i buf offset => answer A_num (write i buf offset)
  | C_fsize i => answer A_num (fsize i)
  | C_fsync i => answer A_unit (fsync i)
  end.

(** The [match] on the request: the response, if there is one *)
Definition request (r : Request) : M (DiskScheme T) (option Answer) :=
  match r with
  | R_call c => a ← call c; mret (Some a)
  | R_sendfd => mret (Some (A_unit (Err EOPNOTSUPP)))
  | R_cancellation => mret None
  | R_msync | R_munmap | R_mmap => panic
  | R_close i => on_close i;; mret None
  | R_recvfd => mret None
  end.

(** How [tick] ends: nothing is pending, or the scheme was unmounted and the driver exits. *)
Inductive Ticked := T_pending | T_exit.

(** [tick]: [l] is what the socket delivers; the answers that are written, and
    how it ends.  [accepts] is whether the socket takes a response. *)
Fixpoint tick (accepts : Answer -> outcome unit) (l : list (outcome (option Request))) : M (DiskScheme T) (list Answer * Ticked) :=
  match l with
  | [] => mret ([], T_pending)
  | Ok None :: _ => mret ([], T_exit)
  | Err EWOULDBLOCK :: _ | Err EAGAIN :: _ => mret ([], T_pending)
  | Err EINTR :: l => tick accepts l
  | Err e :: _ => throw e
  | Panic :: _ => panic
  | Ok (Some r) :: l =>
      a ← request r;
      match a with
      | Some a =>
          lift (accepts a);;
          '(rest, how) ← tick accepts l;
          mret (a :: rest, how)
      | None => tick accepts l
      end
  end.
End scheme.
