(* ===== verification/LiveDisk.v ===== *)
(** * The live disk

    Models [LiveDisk] of [drivers/storage/lived/src/main.rs], the disk of a live
    system: an image in memory that is not written, and an overlay of the
    blocks that were. *)

From stdpp Require Import base gmap strings list fin_maps.
From Stdlib Require Import ZArith Lia.
From Stdlib Require Import Strings.Byte.
From S2P Require Import Prelude Syscall Disk.

Local Open Scope Z_scope.

Record LiveDisk := { original : list u8; overlay : gmap Z (list u8) }.

Definition set_overlay (x : gmap Z (list u8)) (d : LiveDisk) : LiveDisk := {| original := original d; overlay := x |}.

(** [l.chunks(n)]: the last chunk may be shorter. *)
Definition pieces (n : nat) (l : list u8) : list (list u8) :=
  (fun i => take n (drop (i * n) l)) <$> seq 0 ((length l + n - 1) / n).

Section livedisk.
Context {TG : Target} {SC : Syscall}.

(** [x.next_multiple_of(n)] *)
Definition next_multiple_of {S} (x n : Z) : M S Z :=
  if x mod n =? 0 then mret x else usize_add x (n - x mod n).

(** [mmap start size]: the memory that the kernel maps; [None] is a failed [new]. *)
Definition LiveDisk_new (mmap : Z -> Z -> option (list u8)) (phys size : usize) : M unit (option LiveDisk) :=
  let start := phys / PAGE_SIZE * PAGE_SIZE in
  match usize_checked_add phys size with
  | None => mret None
  | Some e =>
      e ← next_multiple_of e PAGE_SIZE;
      size ← usize_sub e start;
      mret (match mmap start size with Some l => Some {| original := l; overlay := ∅ |} | None => None end)
  end.

(** [(block as usize) * PAGE_SIZE] *)
Definition block_offset {S} (block : u64) : M S usize := arith usize_bits (as_usize block * PAGE_SIZE).

(** [&v[a..b]] *)
Definition index_range {S} (a b : Z) (v : list u8) : M S (list u8) := unwrap (get_range a b v).

(** The check of [read] and [write], with the offset of the block *)
Definition check_range (block : u64) (len : Z) : M LiveDisk usize :=
  offset ← block_offset block;
  e ← usize_add offset len;
  d ← gets original;
  fail_if (zlen d <? e) EINVAL;;
  mret offset.

(** The loops over the chunks of the buffer *)
Fixpoint read_chunks (cs : list (list u8)) (block : u64) (offset : usize) : M LiveDisk (list u8) :=
  match cs with
  | [] => mret []
  | chunk :: cs =>
      d ← gets id;
      data ← match overlay d !! block with
             | Some o => index_range 0 (zlen chunk) o
             | None => e ← usize_add offset (zlen chunk); index_range offset e (original d)
             end;
      block ← arith 64 (block + 1);
      offset ← usize_add offset PAGE_SIZE;
      rest ← read_chunks cs block offset;
      mret (data ++ rest)
  end.

Definition live_read (block : u64) (buffer : list u8) : M LiveDisk (Z * list u8) :=
  offset ← check_range block (zlen buffer);
  l ← read_chunks (pieces (Z.to_nat PAGE_SIZE) buffer) block offset;
  mret (zlen buffer, l).

(** [self.overlay.entry(block).or_insert_with(..)] *)
Definition overlay_block (block : u64) : M LiveDisk (list u8) :=
  d ← gets id;
  match overlay d !! block with
  | Some o => mret o
  | None =>
      offset ← block_offset block;
      e ← usize_add offset PAGE_SIZE;
      l ← index_range offset e (original d);
      modify (fun d => set_overlay (<[block := l]> (overlay d)) d);;
      mret l
  end.

Fixpoint write_chunks (cs : list (list u8)) (block : u64) (offset : usize) : M LiveDisk unit :=
  match cs with
  | [] => mret tt
  | chunk :: cs =>
      o ← overlay_block block;
      (if zlen o <? zlen chunk then panic
       else modify (fun d => set_overlay (<[block := copy_prefix (length chunk) chunk o]> (overlay d)) d));;
      block ← arith 64 (block + 1);
      offset ← usize_add offset PAGE_SIZE;
      write_chunks cs block offset
  end.

Definition live_write (block : u64) (buffer : list u8) : M LiveDisk Z :=
  offset ← check_range block (zlen buffer);
  write_chunks (pieces (Z.to_nat PAGE_SIZE) buffer) block offset;;
  mret (zlen buffer).

#[export] Instance live_disk : Disk LiveDisk := {|
  d_block_size _ := PAGE_SIZE mod 2 ^ 32;
  d_size d := zlen (original d);
  d_read := live_read;
  d_write := live_write;
  d_flush := flush_default
|}.
End livedisk.
