(* ===== verification/DiskFacts.v ===== *)
(** * Facts about block devices

    What a driver promises of its disk ([DiskImage]: its blocks are the bytes of an
    image), reading bytes from it, the partition table of an MBR, and reads and
    writes of partitions. *)

From stdpp Require Import base gmap strings list fin_maps.
From Stdlib Require Import ZArith Lia.
From Stdlib Require Import Strings.Byte.
From S2P Require Import Prelude Disk.

Local Open Scope Z_scope.

(** ** Ranges of bytes *)

(** The [n] bytes at [a] *)
Definition range (a n : Z) (l : list u8) : list u8 := take (Z.to_nat n) (drop (Z.to_nat a) l).

Lemma length_range a n l : 0 <= a -> 0 <= n -> a + n <= zlen l -> zlen (range a n l) = n.
Proof. unfold zlen, range. intros. rewrite length_take, length_drop. lia. Qed.

Lemma range_range a n b m l : 0 <= a -> 0 <= b -> 0 <= m -> b + m <= n -> range b m (range a n l) = range (a + b) m l.
Proof.
  unfold range. intros. rewrite skipn_firstn_comm, take_take, drop_drop. f_equal; [lia |]. f_equal. lia.
Qed.

Lemma range_app a n m l : 0 <= a -> 0 <= n -> 0 <= m -> range a n l ++ range (a + n) m l = range a (n + m) l.
Proof.
  unfold range. intros. rewrite !Z2Nat.inj_add by lia. rewrite <- drop_drop.
  rewrite <- (take_drop (Z.to_nat n) (take (Z.to_nat n + Z.to_nat m) (drop (Z.to_nat a) l))). f_equal.
  - rewrite take_take. f_equal. lia.
  - rewrite skipn_firstn_comm. f_equal. lia.
Qed.

Lemma range_0 n l : range 0 n l = take (Z.to_nat n) l.
Proof. done. Qed.

Lemma range_splice_in a n b buf l :
  0 <= a -> 0 <= b -> b + zlen buf <= n -> a + n <= zlen l ->
  range a n (splice (Z.to_nat (a + b)) buf l) = splice (Z.to_nat b) buf (range a n l).
Proof.
  unfold zlen, range. intros. apply list_eq. intros i.
  rewrite lookup_splice by (rewrite length_take, length_drop; lia).
  destruct (decide (i < Z.to_nat n)%nat) as [Hi | Hi].
  - rewrite !lookup_take_lt, !lookup_drop by lia. rewrite lookup_splice by lia.
    case_decide; case_decide; try lia; [f_equal; lia | done].
  - rewrite lookup_take_ge by lia. case_decide; [lia |]. by rewrite lookup_take_ge by lia.
Qed.

Lemma range_splice_out a n b buf l :
  0 <= a -> 0 <= n -> 0 <= b -> b + zlen buf <= zlen l -> b + zlen buf <= a \/ a + n <= b ->
  range a n (splice (Z.to_nat b) buf l) = range a n l.
Proof.
  unfold zlen, range. intros. apply list_eq. intros i.
  destruct (decide (i < Z.to_nat n)%nat) as [Hi | Hi]; [| by rewrite !lookup_take_ge by lia].
  rewrite !lookup_take_lt, !lookup_drop by lia. rewrite lookup_splice by lia.
  case_decide; [lia | done].
Qed.

(** ** Reading bytes from blocks *)

Section blocks.
Context {TG : Target} {S : Type} (bs : Z) (read_fn : Z -> list u8 -> M S (list u8)) (I : S -> Prop) (img : list u8).
Hypothesis bs_pos : 0 < bs.
Hypothesis img_blocks : (bs | zlen img).
Hypothesis img_len : zlen img < 2 ^ 63.
(** [read_fn] reads the blocks of [img]. *)
Hypothesis reads : forall b blk s, 0 <= b -> zlen blk = bs -> I s ->
  wp (read_fn b blk) (fun o s' => I s' /\
    o = if b * bs <? zlen img then Ok (range (b * bs) bs img) else Err EOVERFLOW) s.

Lemma block_end b : b * bs < zlen img -> b * bs + bs <= zlen img.
Proof. destruct img_blocks as [k Hk]. intros H. assert (b < k) by nia. nia. Qed.

Lemma block_loop_wp fuel off buf blk total s :
  I s -> 0 <= off -> off + zlen buf < 2 ^ 64 -> zlen blk = bs -> (length buf <= fuel)%nat ->
  wp (block_loop bs read_fn fuel off buf blk total) (fun o s' => I s' /\
    o = if (length buf =? 0)%nat || (off + zlen buf <=? zlen img) then Ok (total + zlen buf, range off (zlen buf) img)
        else Err EOVERFLOW) s.
Proof.
  revert off buf blk total s. induction fuel as [| fuel IH]; intros off buf blk total s HI Ho Hl Hb Hf; cbn [block_loop].
  - assert (buf = []) as -> by (destruct buf; [done | cbn in Hf; lia]). cbn. apply wp_ret. split; [done |].
    by rewrite Z.add_0_r.
  - destruct (length buf =? 0)%nat eqn:E.
    { apply Nat.eqb_eq, nil_length_inv in E as ->. apply wp_ret. split; [done |]. cbn. by rewrite Z.add_0_r. }
    apply Nat.eqb_neq in E. unfold u64_rem, u64_div. rewrite (proj2 (Z.eqb_neq bs 0)) by lia.
    apply wp_bind, wp_ret, wp_bind, wp_ret.
    pose proof (Z.mod_pos_bound off bs bs_pos) as Hm. pose proof (Z.div_mod off bs ltac:(lia)) as Hd.
    assert (0 <= off / bs) as Hq by (apply Z.div_pos; lia).
    set (n := (length buf `min` Z.to_nat (bs - off mod bs))%nat).
    assert (0 < n)%nat as Hn by (unfold n; lia). unfold zlen in Hl.
    apply wp_bind. eapply wp_mono; [| by apply (reads (off / bs) blk s)].
    intros o s1 [HI1 ->]. destruct (off / bs * bs <? zlen img) eqn:Ein; cbn [orb].
    + apply Z.ltb_lt in Ein. pose proof (block_end _ Ein) as Hend.
      assert (zlen (range (off / bs * bs) bs img) = bs) as Hlen by (apply length_range; lia).
      apply wp_bind, wp_arith; [intros _ | unfold n; lia | unfold n; lia]. apply wp_bind.
      eapply wp_mono; [| apply (IH (off + Z.of_nat n) (drop n buf)); [done | lia | | done | rewrite length_drop; lia]].
      2:{ unfold zlen. rewrite length_drop. unfold n in *. lia. }
      intros o s2 [HI2 ->]. unfold zlen. rewrite length_drop. fold (zlen img).
      destruct (off + Z.of_nat (length buf) <=? zlen img) eqn:Efit.
      * apply Z.leb_le in Efit. rewrite (proj2 (Z.leb_le (off + Z.of_nat n + _) _)) by (unfold n in *; lia).
        rewrite orb_true_r. apply wp_ret. split; [done |]. f_equal. f_equal; [unfold n in *; lia |].
        replace (take n _) with (range (off mod bs) (Z.of_nat n) (range (off / bs * bs) bs img))
          by (unfold range at 1; by rewrite Nat2Z.id).
        rewrite range_range by (unfold n in *; lia).
        replace (off / bs * bs + off mod bs) with off by lia. rewrite range_app by lia. f_equal. unfold n in *. lia.
      * apply Z.leb_gt in Efit. rewrite (proj2 (Nat.eqb_neq _ _)) by (unfold n, zlen in *; nia).
        rewrite (proj2 (Z.leb_gt (off + Z.of_nat n + _) _)) by (unfold n, zlen in *; lia). done.
    + apply Z.ltb_ge in Ein. split; [done |]. rewrite (proj2 (Z.leb_gt _ _)); [done |]. unfold zlen in *. lia.
Qed.

(** [block_read] reads the bytes of the image. *)
Lemma block_read_wp off buf s :
  I s -> 0 <= off < 2 ^ 63 -> zlen buf < 2 ^ 63 -> bs <= 4096 ->
  wp (block_read bs read_fn off buf) (fun o s' => I s' /\
    o = if (length buf =? 0)%nat || (off + zlen buf <=? zlen img) then Ok (zlen buf, range off (zlen buf) img)
        else Err EOVERFLOW) s.
Proof.
  intros HI Ho Hb Hbs. unfold block_read. destruct (length buf =? 0)%nat eqn:E.
  { apply Nat.eqb_eq, nil_length_inv in E as ->. by apply wp_ret. }
  rewrite (proj2 (Z.ltb_ge 4096 bs)) by lia. rewrite Z.min_l by lia.
  replace (Z.to_nat (off + zlen buf - off)) with (length buf) by (unfold zlen; lia).
  rewrite (take_ge buf) by lia. rewrite drop_ge by lia. apply wp_bind.
  eapply wp_mono; [| apply block_loop_wp; [done | lia | lia | unfold zlen; rewrite length_replicate; lia | lia]].
  intros o s' [HI' ->]. rewrite E. cbn [orb]. destruct (_ <=? _); [| done].
  apply wp_ret. by rewrite app_nil_r.
Qed.
End blocks.

(** ** What a driver promises of a disk

    The blocks of a disk are the bytes of an image: reads of whole blocks return them and leave
    them alone, writes of whole blocks replace them.  What happens to accesses
    behind the end is up to the driver. *)

Class DiskImage (T : Type) {DK : Disk T} := {
  d_ok : T -> Prop;
  image : T -> list u8;
  d_block_pos : forall t, d_ok t -> 0 < d_block_size t;
  d_size_image : forall t, d_ok t -> d_size t = zlen (image t);
  d_blocks : forall t, d_ok t -> (d_block_size t | zlen (image t));
  d_image_len : forall t, d_ok t -> zlen (image t) < 2 ^ 63;
  d_read_keeps : forall t b buf, d_ok t -> 0 <= b < 2 ^ 64 ->
    wp (d_read b buf) (fun o t' => o <> Panic -> d_ok t' /\ d_block_size t' = d_block_size t /\ image t' = image t) t;
  d_read_blocks : forall t b buf, d_ok t -> 0 <= b -> (d_block_size t | zlen buf) ->
    b * d_block_size t + zlen buf <= zlen (image t) ->
    (d_read b buf t).1 = Ok (zlen buf, range (b * d_block_size t) (zlen buf) (image t));
  d_write_keeps : forall t b buf, d_ok t -> 0 <= b < 2 ^ 64 ->
    wp (d_write b buf) (fun o t' =>
      o <> Panic -> d_ok t' /\ d_block_size t' = d_block_size t /\ zlen (image t') = zlen (image t)) t;
  d_write_blocks : forall t b buf, d_ok t -> 0 <= b -> (d_block_size t | zlen buf) ->
    b * d_block_size t + zlen buf <= zlen (image t) ->
    wp (d_write b buf) (fun o t' =>
      o = Ok (zlen buf) /\ image t' = splice (Z.to_nat (b * d_block_size t)) buf (image t)) t;
  d_flush_keeps : forall t, d_ok t ->
    wp d_flush (fun o t' => o <> Panic -> d_ok t' /\ d_block_size t' = d_block_size t /\ image t' = image t) t
}.

Section device.
Context {TG : Target} {T : Type} {DK : Disk T} {DI : DiskImage T}.

(** A device on the disk [t] *)
Record dev_on (t : T) (v : Device T) : Prop := {
  on_ok : d_ok (dev_disk v);
  on_bs : d_block_size (dev_disk v) = d_block_size t;
  on_img : image (dev_disk v) = image t;
  on_off : 0 <= dev_offset v <= zlen (image t)
}.

Lemma read_block_wp t b blk v :
  d_ok t -> dev_on t v -> 0 <= b -> zlen blk = d_block_size t ->
  wp (read_block (zlen (image t) / d_block_size t) b blk) (fun o v' => (dev_on t v' /\ dev_offset v' = dev_offset v) /\
    o = if b * d_block_size t <? zlen (image t) then Ok (range (b * d_block_size t) (d_block_size t) (image t))
        else Err EOVERFLOW) v.
Proof.
  intros Ht [Hok Hbs Himg Hoff] Hb Hblk. unfold read_block. pose proof (d_block_pos t Ht) as Hp. pose proof (d_image_len t Ht) as Hlen.
  destruct (d_blocks t Ht) as [k Hk]. rewrite Hk, Z.div_mul by lia. apply wp_bind, wp_fail_if; intros E.
  - apply Z.leb_le in E. rewrite (proj2 (Z.ltb_ge _ _)) by nia. done.
  - apply Z.leb_gt in E. rewrite (proj2 (Z.ltb_lt _ _)) by nia. apply wp_bind, wp_zoom.
    assert (b * d_block_size t + zlen blk <= zlen (image t)) as Hfit by nia.
    pose proof (d_read_blocks (dev_disk v) b blk Hok Hb) as Hr. rewrite Hbs, Himg, Hblk in Hr.
    pose proof (d_read_keeps (dev_disk v) b blk Hok) as Hw. unfold wp in *.
    rewrite Hr in * by (done || lia). destruct Hw as (H1 & H2 & H3); [nia | done |].
    destruct (d_read b blk (dev_disk v)) as [o d']. cbn in *. rewrite Hblk, Z.eqb_refl. cbn. split; [| done].
    split; [| done]. split; cbn; congruence || lia.
Qed.

Lemma device_read_wp t buf v :
  dev_on t v -> d_block_size t <= 4096 -> zlen buf < 2 ^ 63 -> d_ok t ->
  wp (device_read buf) (fun o v' => dev_on t v' /\
    if (length buf =? 0)%nat || (dev_offset v + zlen buf <=? zlen (image t)) then
      o = Ok (zlen buf, range (dev_offset v) (zlen buf) (image t)) /\ dev_offset v' = dev_offset v + zlen buf
    else o = Err EOVERFLOW /\ dev_offset v' = dev_offset v) v.
Proof.
  intros Hv Hbs Hbuf Ht. pose proof Hv as [Hok Hbsv Himgv Hoff]. pose proof (d_block_pos t Ht) as Hp.
  pose proof (d_image_len t Ht) as Himg.
  unfold device_read. apply wp_bind, wp_gets, wp_bind, wp_gets, wp_bind. rewrite d_size_image by done.
  unfold u64_div. rewrite Hbsv, Himgv, (proj2 (Z.eqb_neq _ 0)) by lia. apply wp_ret, wp_bind, wp_gets, wp_bind.
  eapply wp_mono; [| apply (block_read_wp (d_block_size t) _ (fun v' => dev_on t v' /\ dev_offset v' = dev_offset v) (image t));
    [done | by apply d_blocks | lia | | done | lia | lia | done]].
  - intros o v1 [[H1 H2] ->]. destruct (_ || _) eqn:E; [| done]. apply wp_bind, wp_arith; [intros _ | unfold zlen in *; lia | unfold zlen in *; lia].
    apply wp_bind, wp_modify, wp_ret. split; [| done]. destruct H1. split; cbn; try done.
    apply orb_true_iff in E as [E | E]; [apply Nat.eqb_eq in E; unfold zlen in *; lia | unfold zlen in *; lia].
  - intros b blk s Hb Hblk [Hs Hoffs]. eapply wp_mono; [| by apply read_block_wp].
    intros o v' [[? ?] ->]. split; [split; congruence || done | done].
Qed.

Lemma device_seek_wp t p v :
  dev_on t v -> seek_valid p -> wp (device_seek p) (fun o v' => dev_on t v' /\ (p = Start 0 -> o = Ok 0 /\ dev_offset v' = 0)) v.
Proof.
  intros Hv Hp. pose proof Hv as [Hok Hbs Himg Hoff]. unfold device_seek. pose proof (d_image_len _ Hok) as Hl. rewrite Himg in Hl.
  apply wp_bind, wp_gets, wp_bind. rewrite d_size_image, Himg by done.
  rewrite (proj2 (Z.leb_gt _ _)) by lia. apply wp_ret, wp_bind, wp_gets.
  assert (forall q, 0 <= q <= zlen (image t) -> wp (modify (set_dev_offset q);; mret q) (fun o v' => dev_on t v' /\
    o = Ok q /\ dev_offset v' = q) v) as Hset.
  { intros q Hq. apply wp_bind, wp_modify, wp_ret. split; [by split | done]. }
  destruct p as [q | q | q]; cbn [seek_valid] in Hp; apply wp_bind.
  - apply wp_ret. eapply wp_mono; [| apply Hset; lia].
    intros o v' (H1 & -> & H2). split; [done |]. intros [= ->]. rewrite H2. split; [f_equal |]; lia.
  - unfold i64_add. destruct (_ && _); [| destruct overflow_checks; [by apply wp_bind, wp_panic |]]; apply wp_bind, wp_ret, wp_ret;
      (eapply wp_mono; [| apply Hset; lia]); by intros o v' [H1 _].
  - unfold i64_add. destruct (_ && _); [| destruct overflow_checks; [by apply wp_bind, wp_panic |]]; apply wp_bind, wp_ret, wp_ret;
      (eapply wp_mono; [| apply Hset; lia]); by intros o v' [H1 _].
Qed.
End device.

(** ** The partition table of an MBR *)

Definition entry_bytes (e : Entry) : list u8 :=
  [drive_attrs e; start_head e] ++ le_bytes 2 (start_cs e) ++ [sys_id e; end_head e] ++ le_bytes 2 (end_cs e) ++
  le_bytes 4 (rel_sector e) ++ le_bytes 4 (entry_len e).
Definition header_bytes (h : Header) : list u8 :=
  bootstrap h ++ entry_bytes (first_entry h) ++ entry_bytes (second_entry h) ++ entry_bytes (third_entry h) ++
  entry_bytes (fourth_entry h) ++ le_bytes 2 (last_signature h).

Record entry_in_range (e : Entry) : Prop := {
  r_start_cs : 0 <= start_cs e < 2 ^ 16; r_end_cs : 0 <= end_cs e < 2 ^ 16;
  r_rel : 0 <= rel_sector e < 2 ^ 32; r_len : 0 <= entry_len e < 2 ^ 32
}.
Record header_in_range (h : Header) : Prop := {
  r_boot : length (bootstrap h) = 446%nat;
  r_first : entry_in_range (first_entry h); r_second : entry_in_range (second_entry h);
  r_third : entry_in_range (third_entry h); r_fourth : entry_in_range (fourth_entry h);
  r_sig : 0 <= last_signature h < 2 ^ 16
}.

Lemma length_entry_bytes e : length (entry_bytes e) = 16%nat.
Proof. done. Qed.

Lemma nth_skip (pre l : list u8) k d : nth (length pre + k) (pre ++ l) d = nth k l d.
Proof. apply app_nth2_plus. Qed.

Lemma drop_skip (pre l : list u8) k : drop (length pre + k) (pre ++ l) = drop k l.
Proof. by rewrite <- drop_drop, drop_app_length. Qed.

Lemma from_le_small n x : 0 <= x < 256 ^ Z.of_nat n -> from_le (le_bytes n x) = x.
Proof. intros. rewrite from_le_bytes. apply Z.mod_small. lia. Qed.

Lemma entry_at_bytes (pre post : list u8) e :
  entry_in_range e -> entry_at (pre ++ entry_bytes e ++ post) (length pre) = e.
Proof.
  intros [H1 H2 H3 H4]. unfold entry_at. rewrite !drop_skip, !nth_skip, <- (Nat.add_0_r (length pre)) at 1.
  rewrite nth_skip. destruct e as [a b c d f g h i]. cbn [drive_attrs start_head start_cs sys_id end_head end_cs rel_sector entry_len] in *.
  unfold entry_bytes. cbn [drive_attrs start_head start_cs sys_id end_head end_cs rel_sector entry_len].
  f_equal.
  - exact (from_le_small 2 c ltac:(lia)).
  - exact (from_le_small 2 g ltac:(lia)).
  - exact (from_le_small 4 h ltac:(lia)).
  - exact (from_le_small 4 i ltac:(lia)).
Qed.

Lemma header_at_bytes h post : header_in_range h -> header_at (header_bytes h ++ post) = h.
Proof.
  intros [Hb H1 H2 H3 H4 Hs]. unfold header_at, header_bytes. set (es := entry_bytes).
  destruct h as [b e1 e2 e3 e4 sig]. cbn [bootstrap first_entry second_entry third_entry fourth_entry last_signature] in *.
  f_equal.
  - rewrite <- !app_assoc. apply take_app_length'. lia.
  - rewrite <- !app_assoc. replace 446%nat with (length b) by lia. by apply entry_at_bytes.
  - rewrite <- !app_assoc, (app_assoc b). replace 462%nat with (length (b ++ es e1)) by (rewrite length_app, length_entry_bytes; lia).
    by apply entry_at_bytes.
  - rewrite <- !app_assoc, (app_assoc b), (app_assoc (b ++ _)).
    replace 478%nat with (length ((b ++ es e1) ++ es e2)) by (rewrite !length_app, !length_entry_bytes; lia).
    by apply entry_at_bytes.
  - rewrite <- !app_assoc, (app_assoc b), (app_assoc (b ++ _)), (app_assoc (_ ++ _)).
    replace 494%nat with (length (((b ++ es e1) ++ es e2) ++ es e3)) by (rewrite !length_app, !length_entry_bytes; lia).
    by apply entry_at_bytes.
  - rewrite <- !app_assoc, (app_assoc b), (app_assoc (b ++ _)), (app_assoc ((_ ++ _) ++ _)), (app_assoc (((_ ++ _) ++ _) ++ _)).
    rewrite drop_app_length' by (rewrite !length_app, !length_entry_bytes; lia).
    rewrite take_app_length' by done. apply from_le_small. lia.
Qed.

Lemma read_exact_nil {D} {RS : ReadSeek D} fuel s : read_exact fuel [] s = (Ok [], s).
Proof. by destruct fuel. Qed.

(** One read that fills the buffer is enough. *)
Lemma read_exact_once {D} {RS : ReadSeek D} fuel buf l s s' :
  (0 < fuel)%nat -> buf <> [] -> length l = length buf -> rs_read buf s = (Ok (zlen buf, l), s') ->
  read_exact fuel buf s = (Ok l, s').
Proof.
  intros Hf Hb Hl Hr. destruct fuel as [| fuel]; [lia |]. destruct buf as [| b buf]; [done |]. cbn [read_exact]. rewrite Hr.
  change (length (b :: buf) =? 0)%nat with false. cbv iota.
  rewrite (proj2 (Z.eqb_neq _ 0)) by (unfold zlen; cbn; lia). unfold zlen. rewrite Nat2Z.id, drop_ge, take_ge by lia.
  unfold mbind, M_bind. rewrite read_exact_nil. cbn. by rewrite app_nil_r.
Qed.

Section mbr.
Context {TG : Target} {GP : Gpt} {GL : GptLaws GP} {SR : Scroll} {SL : ScrollLaws SR}.
Context {T : Type} {DK : Disk T} {DI : DiskImage T}.

Lemma read_header_wp fuel t h post v :
  (0 < fuel)%nat -> d_ok t -> dev_on t v -> d_block_size t <= 4096 -> header_in_range h -> image t = header_bytes h ++ post ->
  wp (read_header fuel) (fun o v' => dev_on t v' /\ o = Ok (if last_signature h =? 0xAA55 then Some h else None)) v.
Proof.
  intros Hf Ht Hv Hbs Hh Himg. unfold read_header. apply wp_bind.
  eapply wp_mono; [| apply (device_seek_wp t (Start 0) v Hv); cbn; lia]. intros o v1 [Hv1 H]. destruct (H eq_refl) as [-> Ho].
  assert (length (header_bytes h) = 512%nat) as Hlen.
  { unfold header_bytes. rewrite !length_app, !length_entry_bytes, (r_boot _ Hh). done. }
  assert (range 0 512 (header_bytes h ++ post) = header_bytes h) as Hrange.
  { rewrite range_0. apply take_app_length'. by rewrite Hlen. }
  pose proof (device_read_wp t (replicate 512 x00) v1 Hv1 Hbs) as Hr. unfold wp in Hr.
  destruct (device_read (replicate 512 x00) v1) as [o v2] eqn:E. cbn [fst snd] in Hr. destruct Hr as [Hv2 Hr]; [done | done |].
  rewrite Ho, Himg in Hr. change (zlen (replicate 512 x00)) with 512 in Hr.
  rewrite (proj2 (Z.leb_le _ _)), orb_true_r in Hr by (unfold zlen; rewrite length_app; lia). destruct Hr as [-> _].
  rewrite Hrange in E. apply wp_bind. unfold wp at 1.
  rewrite (read_exact_once fuel (replicate 512 x00) (header_bytes h) v1 v2) by done. cbn [fst snd].
  rewrite (pread_with_512 _ Hlen), <- (app_nil_r (header_bytes h)), header_at_bytes by done. by apply wp_bind, wp_ret, wp_ret.
Qed.
Lemma gpt_partition_list_keeps (I : Device T -> Prop) l : keeps I (gpt_partition_list l).
Proof.
  induction l as [| [k p] l IH]; intros v Hv; cbn [gpt_partition_list]; [by apply wp_ret |].
  apply wp_bind. unfold gpt_partition.
  apply wp_bind, wp_arith; intros; [| done |]; apply wp_bind, wp_arith; intros; try done; apply wp_ret, wp_bind;
    (eapply wp_mono; [| by apply IH]; intros [] ? ?; done).
Qed.

Lemma get_gpt_keeps t bs : d_ok t -> d_block_size t <= 4096 -> keeps (dev_on t) (get_gpt_partitions bs).
Proof.
  intros Ht Hbs. assert (forall buf, zlen buf < 2 ^ 63 -> keeps (dev_on t) (rs_read buf)) as Hr.
  { intros buf Hbuf v Hv. eapply wp_mono; [| by apply device_read_wp]. by intros o v' [? _]. }
  assert (forall p, seek_valid p -> keeps (dev_on t) (rs_seek p)) as Hs.
  { intros p Hp v Hv. eapply wp_mono; [| by apply device_seek_wp]. by intros o v' [? _]. }
  intros v Hv. unfold get_gpt_partitions. apply wp_bind. eapply wp_mono; [| by apply gpt_header_keeps].
  intros [h | e |] v1 Hv1; [| done | done]. apply wp_bind. eapply wp_mono; [| by apply gpt_partitions_keeps].
  intros [btree | e |] v2 Hv2; [| done | done]. apply wp_bind. eapply wp_mono; [| by apply gpt_partition_list_keeps].
  by intros [] ? ?.
Qed.

(** The table that the sector [h] stands for: a partition is an entry that is marked
    inactive or active and not empty. *)
Definition usable (e : Entry) : Prop := drive_attrs e ∈ [x00; x80] /\ entry_len e <> 0.
#[export] Instance usable_dec e : Decision (usable e).
Proof. unfold usable. apply _. Defined.

Definition mbr_table (h : Header) : PartitionTable Uuid :=
  {| kind := Mbr;
     partitions := (fun e => {| start_lba := rel_sector e; psize := entry_len e; flags := None; name := None; uuid := None |})
       <$> filter usable [first_entry h; second_entry h; third_entry h; fourth_entry h] |}.

Lemma usable_valid e : is_valid e = true <-> usable e.
Proof.
  unfold is_valid, usable. rewrite andb_true_iff, orb_true_iff, !bool_decide_eq_true, negb_true_iff, Z.eqb_neq.
  rewrite !elem_of_cons, elem_of_nil. tauto.
Qed.

Lemma mbr_table_code h : {| kind := Mbr; partitions := map mbr_partition (valid_entries h) |} = mbr_table h.
Proof.
  unfold mbr_table. f_equal. unfold valid_entries.
  rewrite (list_filter_iff (fun e => is_valid e) usable) by (intros e; rewrite <- usable_valid; by destruct (is_valid e)). done.
Qed.

Lemma get_partitions_mbr fuel bs t h post v e :
  (0 < fuel)%nat -> d_ok t -> dev_on t v -> d_block_size t <= 4096 -> header_in_range h -> image t = header_bytes h ++ post ->
  (get_gpt_partitions bs v).1 = Err e ->
  wp (get_partitions fuel bs) (fun o v' => dev_on t v' /\
    o = Ok (if last_signature h =? 0xAA55 then Some (mbr_table h) else None)) v.
Proof.
  intros Hf Ht Hv Hbs Hh Himg He. unfold wp, get_partitions. pose proof (get_gpt_keeps t bs Ht Hbs v Hv) as Hk. unfold wp in Hk.
  destruct (get_gpt_partitions bs v) as [o v1]. cbn in He, Hk. subst o. change (wp (get_mbr_partitions fuel) (fun o v' => dev_on t v' /\
    o = Ok (if last_signature h =? 0xAA55 then Some (mbr_table h) else None)) v1).
  unfold get_mbr_partitions. apply wp_bind. eapply wp_mono; [| by apply (read_header_wp fuel t h post)].
  intros o v2 [Hv2 ->]. apply wp_ret. split; [done |]. rewrite <- mbr_table_code. by destruct (_ =? _).
Qed.

Lemma wrapper_new_mbr fuel t h post :
  (0 < fuel)%nat -> d_ok t -> d_block_size t = 512 \/ d_block_size t = 4096 -> header_in_range h ->
  image t = header_bytes h ++ post ->
  (forall bs, is_ok (get_gpt_partitions bs {| dev_disk := t; dev_offset := 0 |}).1 = false /\
    (get_gpt_partitions bs {| dev_disk := t; dev_offset := 0 |}).1 <> Panic) ->
  exists d, DiskWrapper_new fuel t = Ok {| disk := d; pt := if last_signature h =? 0xAA55 then Some (mbr_table h) else None |} /\
    d_ok d /\ d_block_size d = d_block_size t /\ image d = image t.
Proof.
  intros Hf Ht Hbs Hh Himg He.
  assert (dev_on t {| dev_disk := t; dev_offset := 0 |}) as Hv by (split; cbn; unfold zlen; done || lia).
  assert (forall bs, exists v, get_partitions fuel bs {| dev_disk := t; dev_offset := 0 |} =
    (Ok (if last_signature h =? 0xAA55 then Some (mbr_table h) else None), v) /\ dev_on t v) as H.
  { intros bs. destruct (He bs) as [He1 He2]. destruct (get_gpt_partitions bs _).1 as [a | e |] eqn:Ee; [done | | done].
    pose proof (get_partitions_mbr fuel bs t h post _ e Hf Ht Hv ltac:(lia) Hh Himg Ee) as H. unfold wp in H.
    destruct (get_partitions fuel bs _) as [o v]. cbn in H. destruct H as [? ->]. by exists v. }
  unfold DiskWrapper_new, wrapper_pt.
  destruct (H Lb512) as (v1 & E1 & [? ? ? ?]), (H Lb4096) as (v2 & E2 & [? ? ? ?]). destruct Hbs as [Hbs | Hbs]; rewrite Hbs; cbn.
  - rewrite E1. exists (dev_disk v1). repeat split; congruence.
  - rewrite E2. exists (dev_disk v2). repeat split; congruence.
Qed.
End mbr.

(** ** Partitions of a disk *)

Section wrapper.
Context {TG : Target} {GP : Gpt} {T : Type} {DK : Disk T} {DI : DiskImage T}.
Implicit Types w : DiskWrapper T.

Definition bsize w : Z := d_block_size (disk w).
Definition bytes w : list u8 := image (disk w).

Definition part_at w (p : Z) : option (Partition Uuid) := table ← pt w; partitions table !! Z.to_nat p.

(** Where a partition, or the disk, begins in the image, and its length *)
Definition extent_of w (pn : option Z) : option (Z * Z) :=
  match pn with
  | None => Some (0, zlen (bytes w))
  | Some p => part ← part_at w p; Some (start_lba part * bsize w, psize part * bsize w)
  end.

(** A disk whose partitions lie inside of it *)
Record disk_ok w : Prop := {
  dw_ok : d_ok (disk w);
  dw_parts : forall p part, part_at w p = Some part ->
    0 <= start_lba part /\ 0 <= psize part /\ (start_lba part + psize part) * bsize w <= zlen (bytes w)
}.

(** Nothing but the bytes may have changed. *)
Definition same_disk w w' : Prop := bsize w' = bsize w /\ pt w' = pt w /\ zlen (bytes w') = zlen (bytes w).

Lemma same_disk_refl w : same_disk w w.
Proof. done. Qed.

Lemma same_disk_part w w' p : same_disk w w' -> part_at w' p = part_at w p.
Proof. intros (_ & H & _). unfold part_at. by rewrite H. Qed.

Lemma same_disk_extent w w' pn : same_disk w w' -> extent_of w' pn = extent_of w pn.
Proof. intros H. destruct pn as [p |]; cbn; [| by destruct H as (_ & _ & ->)]. rewrite (same_disk_part _ _ _ H). by destruct H as (-> & _). Qed.

Lemma same_disk_ok w w' : disk_ok w -> d_ok (disk w') -> same_disk w w' -> disk_ok w'.
Proof. intros [H1 H2] Hok Hs. split; [done |]. intros p part. rewrite (same_disk_part _ _ _ Hs). destruct Hs as (-> & _ & ->). apply H2. Qed.

Lemma part_of_spec e w p : partition_of e w p = match part_at w p with Some part => Ok part | None => Err e end.
Proof. unfold partition_of, part_at. by destruct (pt w) as [table |]; cbn; [destruct (_ !! _) |]. Qed.

Lemma bsize_pos w : disk_ok w -> 0 < bsize w.
Proof. intros [H _]. by apply d_block_pos. Qed.

Lemma extent_in w pn st n : disk_ok w -> extent_of w pn = Some (st, n) -> 0 <= st /\ 0 <= n /\ st + n <= zlen (bytes w) /\ zlen (bytes w) < 2 ^ 63.
Proof.
  intros Hw He. pose proof (bsize_pos w Hw) as Hb. destruct Hw as [Hok Hp]. pose proof (d_image_len _ Hok) as Hl. unfold bytes in *.
  destruct pn as [p |]; cbn in He.
  - destruct (part_at w p) as [part |] eqn:E; [| done]. injection He as <- <-. destruct (Hp p part E) as (? & ? & ?). split_and!; nia || done.
  - injection He as <- <-. unfold bytes, zlen in *. lia.
Qed.

(** What the code accepts as a write to a disk or a partition of [n] bytes *)
Definition accepted (bs n : Z) (pn : option Z) (block len : Z) : bool :=
  (len mod bs =? 0) && match pn with Some _ => block * bs <? n | None => true end.

Lemma abs_block_wp w pn block st n :
  disk_ok w -> extent_of w pn = Some (st, n) -> 0 <= block < 2 ^ 64 ->
  wp (abs_block pn block) (fun o w' => w' = w /\
    match o with
    | Ok b => (match pn with Some _ => block * bsize w <? n | None => true end) = true /\ b * bsize w = st + block * bsize w /\ 0 <= b < 2 ^ 64
    | Err e => e = EOVERFLOW /\ (match pn with Some _ => block * bsize w <? n | None => true end) = false
    | Panic => False
    end) w.
Proof.
  intros Hw He Hb. pose proof (bsize_pos w Hw) as Hp. pose proof (extent_in w pn st n Hw He) as (? & ? & ? & ?).
  destruct pn as [p |]; cbn in He; cbn [abs_block].
  - destruct (part_at w p) as [part |] eqn:E; [| done]. injection He as <- <-.
    apply wp_bind, wp_gets, wp_bind, wp_lift. change (id w) with w. rewrite part_of_spec, E. apply wp_bind, wp_fail_if; intros El.
    + apply Z.leb_le in El. split; [done |]. split; [done |]. apply Z.ltb_ge. nia.
    + apply Z.leb_gt in El. destruct (dw_parts w Hw p part E) as (? & ? & ?).
      assert (start_lba part + psize part <= zlen (bytes w)) by nia.
      apply wp_arith; intros; [| lia | lia]. split; [done |]. split_and!; [apply Z.ltb_lt; nia | lia | lia | lia].
  - injection He as <- <-. apply wp_ret. split; [done |]. split; [done | lia].
Qed.

(** A write that is not accepted changes nothing; one that is accepted and stays
    inside replaces the bytes at the block. *)
Lemma wrapper_write_wp w pn block buf st n :
  disk_ok w -> extent_of w pn = Some (st, n) -> 0 <= block < 2 ^ 64 ->
  wp (wrapper_write pn block buf) (fun o w' => o <> Panic -> disk_ok w' /\ same_disk w w') w.
Proof.
  intros Hw He Hb. unfold wrapper_write. apply wp_bind, wp_gets, wp_bind. unfold u64_rem, wrapper_block_size. fold (bsize w).
  rewrite (proj2 (Z.eqb_neq _ 0)) by (pose proof (bsize_pos w Hw); lia). apply wp_ret, wp_bind, wp_fail_if; intros El; [done |].
  apply wp_bind. eapply wp_mono; [| by apply (abs_block_wp w pn block st n)].
  intros [b | e |] w1 [-> Ho]; [| done | done]. destruct Ho as (_ & Hbl & Hbb). apply wp_zoom.
  eapply wp_mono; [| apply (d_write_keeps (disk w) b buf (dw_ok _ Hw) Hbb)]. intros o d' H Hpan.
  destruct (H Hpan) as (H1 & H2 & H3). assert (same_disk w (set_disk d' w)) as Hs by done.
  split; [by apply (same_disk_ok w) | done].
Qed.

Lemma wrapper_write_in w pn block buf st n :
  disk_ok w -> extent_of w pn = Some (st, n) -> 0 <= block < 2 ^ 64 ->
  (accepted (bsize w) n pn block (zlen buf) = true -> block * bsize w + zlen buf <= n) ->
  wp (wrapper_write pn block buf) (fun o w' => o <> Panic /\
    (accepted (bsize w) n pn block (zlen buf) = true -> o = Ok (zlen buf)) /\
    bytes w' = if accepted (bsize w) n pn block (zlen buf) then splice (Z.to_nat (st + block * bsize w)) buf (bytes w) else bytes w) w.
Proof.
  intros Hw He Hb Hin. pose proof (bsize_pos w Hw) as Hp. pose proof (extent_in w pn st n Hw He) as (? & ? & ? & ?).
  unfold wrapper_write. apply wp_bind, wp_gets, wp_bind. unfold u64_rem, wrapper_block_size. fold (bsize w).
  rewrite (proj2 (Z.eqb_neq _ 0)) by lia. apply wp_ret, wp_bind. unfold accepted in *.
  apply wp_fail_if; intros El; [apply negb_true_iff in El | apply negb_false_iff in El]; rewrite El in *; [done |].
  cbn [andb] in *. apply wp_bind. eapply wp_mono; [| by apply (abs_block_wp w pn block st n)].
  intros [b | e |] w1 [-> Ho]; [| by destruct Ho as [_ ->] | done]. destruct Ho as (Hacc & Hbl & Hbb). rewrite Hacc in *.
  specialize (Hin eq_refl). apply wp_zoom. apply Z.eqb_eq, Z.mod_divide in El; [| lia].
  eapply wp_mono; [| apply (d_write_blocks (disk w) b buf (dw_ok _ Hw)); [lia | done |]].
  - intros o d' [-> Hd]. split_and!; [done | done |]. fold (bsize w) in Hd. by rewrite <- Hbl.
  - fold (bsize w) (bytes w). lia.
Qed.

Lemma wrapper_read_wp w pn block buf st n :
  disk_ok w -> extent_of w pn = Some (st, n) -> 0 <= block < 2 ^ 64 ->
  wp (wrapper_read pn block buf) (fun o w' =>
    (o <> Panic -> disk_ok w' /\ same_disk w w' /\ bytes w' = bytes w) /\
    (accepted (bsize w) n pn block (zlen buf) = true -> block * bsize w + zlen buf <= n ->
     o = Ok (zlen buf, range (st + block * bsize w) (zlen buf) (bytes w)))) w.
Proof.
  intros Hw He Hb. pose proof (bsize_pos w Hw) as Hp. pose proof (extent_in w pn st n Hw He) as (? & ? & ? & ?).
  unfold wrapper_read. apply wp_bind, wp_gets, wp_bind. unfold u64_rem, wrapper_block_size. fold (bsize w).
  rewrite (proj2 (Z.eqb_neq _ 0)) by lia. apply wp_ret, wp_bind. unfold accepted in *.
  apply wp_fail_if; intros El; [apply negb_true_iff in El | apply negb_false_iff in El]; rewrite El in *; [done |].
  cbn [andb] in *. apply wp_bind. eapply wp_mono; [| by apply (abs_block_wp w pn block st n)].
  intros [b | e |] w1 [-> Ho]; [| destruct Ho as [_ ->]; done | done]. destruct Ho as (Hacc & Hbl & Hbb). rewrite Hacc in *.
  apply wp_zoom. apply Z.eqb_eq, Z.mod_divide in El; [| lia].
  pose proof (d_read_keeps (disk w) b buf (dw_ok _ Hw) Hbb) as Hk. pose proof (d_read_blocks (disk w) b buf (dw_ok _ Hw) ltac:(lia) El) as Hr.
  unfold wp in *. split.
  - intros Hpan. destruct (Hk Hpan) as (K1 & K2 & K3).
    assert (same_disk w (set_disk (d_read b buf (disk w)).2 w)) as Hs by (split_and!; [exact K2 | done | unfold bytes; cbn; by rewrite K3]).
    split_and!; [by apply (same_disk_ok w) | done | done].
  - intros _ Hfit. rewrite Hr by (fold (bsize w) (bytes w); lia). fold (bsize w) (bytes w). by rewrite Hbl.
Qed.
End wrapper.

Section theorems.
Context {TG : Target} {GP : Gpt} {GL : GptLaws GP} {SR : Scroll} {SL : ScrollLaws SR}.
Context {T : Type} {DK : Disk T} {DI : DiskImage T}.

(** Reading a disk as a stream of bytes gives the bytes of its image, at any position
    and of any length, aligned to blocks or not, and moves the position behind them; a
    read that goes beyond the end fails with EOVERFLOW. *)
Theorem device_read_bytes v buf :
  d_ok (dev_disk v) -> d_block_size (dev_disk v) <= 4096 -> 0 <= dev_offset v <= zlen (image (dev_disk v)) -> zlen buf < 2 ^ 63 ->
  wp (device_read buf) (fun o v' => image (dev_disk v') = image (dev_disk v) /\
    if (length buf =? 0)%nat || (dev_offset v + zlen buf <=? zlen (image (dev_disk v))) then
      o = Ok (zlen buf, range (dev_offset v) (zlen buf) (image (dev_disk v))) /\ dev_offset v' = dev_offset v + zlen buf
    else o = Err EOVERFLOW /\ dev_offset v' = dev_offset v) v.
Proof.
  intros Hok Hbs Ho Hb. assert (dev_on (dev_disk v) v) as Hv by by split.
  eapply wp_mono; [| by apply (device_read_wp (dev_disk v) buf v Hv)]. by intros o v' [[_ _ H _] ?].
Qed.

End theorems.
