(* ===== verification/DiskSchemeFacts.v ===== *)
(** * Theorems about the disk scheme

    No two handles that are open at a time overlap, and the file behind a handle is
    private to it: it holds what was written through the handle, at the place it
    was written, whatever else is asked of the scheme. *)

From stdpp Require Import base gmap strings list fin_maps.
From Stdlib Require Import ZArith Lia.
From Stdlib Require Import Strings.Byte.
From S2P Require Import Prelude Syscall Disk DiskScheme DiskFacts.

Local Open Scope Z_scope.

Section facts.
Context {TG : Target} {SC : Syscall} {GP : Gpt} {T : Type} {DK : Disk T} {DI : DiskImage T}.
Implicit Types s : DiskScheme T.

(** ** Handles and the files behind them *)

(** The disk, and the partition of it, that a handle is for *)
Definition target (h : Handle) : option (Z * option Z) :=
  match h with List_ _ => None | Disk_ k => Some (k, None) | Part_ k p => Some (k, Some p) end.

Definition view s (i : Z) : option (DiskWrapper T * option Z) :=
  h ← handles s !! i; '(k, pn) ← target h; w ← disks s !! k; Some (w, pn).

Definition file s (i : Z) : option (list u8) :=
  '(w, pn) ← view s i; '(st, n) ← extent_of w pn; Some (range st n (bytes w)).

(** ** The invariant *)

(** The partitions of a table do not overlap. *)
Definition parts_apart (w : DiskWrapper T) : Prop := forall p q a b,
  0 <= p -> 0 <= q -> p <> q -> part_at w p = Some a -> part_at w q = Some b ->
  start_lba a + psize a <= start_lba b \/ start_lba b + psize b <= start_lba a.

Definition good_disk (w : DiskWrapper T) : Prop := disk_ok w /\ parts_apart w.

(** A handle names a disk, or a partition, that there is. *)
Definition names s (h : Handle) : Prop :=
  match h with
  | List_ _ => True
  | Disk_ k => is_Some (disks s !! k)
  | Part_ k p => 0 <= p /\ exists w part, disks s !! k = Some w /\ part_at w p = Some part
  end.

(** Two handles that may be open at a time *)
Definition compatible (h1 h2 : Handle) : Prop :=
  match target h1 with Some (k, pn) => conflicts k pn h2 = false | None => True end.

Record inv s : Prop := {
  i_disks : forall k w, disks s !! k = Some w -> good_disk w;
  i_ids : forall i h, handles s !! i = Some h -> 0 <= i < next_id s;
  i_next : 0 <= next_id s;
  i_names : forall i h, handles s !! i = Some h -> names s h;
  i_apart : forall i j h1 h2, i <> j -> handles s !! i = Some h1 -> handles s !! j = Some h2 -> compatible h1 h2
}.

(** ** What a call may change *)

(** Nothing but bytes of the disks; with [P], not those either. *)
Record same (P : DiskWrapper T -> DiskWrapper T -> Prop) s s' : Prop := {
  s_handles : handles s' = handles s;
  s_next : next_id s' = next_id s;
  s_disks : forall k w, disks s !! k = Some w -> exists w', disks s' !! k = Some w' /\ disk_ok w' /\ same_disk w w' /\ P w w';
  s_none : forall k, disks s !! k = None -> disks s' !! k = None
}.
Abbreviation touched := (same (fun _ _ => True)).
Abbreviation unchanged := (same (fun w w' => bytes w' = bytes w)).

Lemma unchanged_refl s : inv s -> unchanged s s.
Proof. intros [Hd _ _ _ _]. split; try done. intros k w Hw. destruct (Hd k w Hw). by exists w. Qed.

Lemma unchanged_touched s s' : unchanged s s' -> touched s s'.
Proof. intros [H1 H2 H3 H4]. split; try done. intros k w Hw. destruct (H3 k w Hw) as (w' & ? & ? & ? & ?). by exists w'. Qed.

Lemma parts_apart_same w w' : parts_apart w -> same_disk w w' -> parts_apart w'.
Proof. intros H Hs p q a b. rewrite !(same_disk_part w w') by done. apply H. Qed.

Lemma inv_touched s s' : inv s -> touched s s' -> inv s'.
Proof.
  intros [Hd Hi Hn Hna Ha] [H1 H2 H3 H4]. split; rewrite ?H1, ?H2; try done.
  - intros k w' Hw'. destruct (disks s !! k) as [w |] eqn:E; [| rewrite H4 in Hw'; done].
    destruct (H3 k w E) as (w1 & Hw1 & Hok & Hs & _). assert (w1 = w') as -> by congruence.
    destruct (Hd k w E). split; [done | by apply (parts_apart_same w)].
  - intros i h Hh. specialize (Hna i h Hh). destruct h as [l | k | k p]; cbn in *; [done | |].
    + destruct Hna as [w Hw]. destruct (H3 k w Hw) as (w' & ? & _). by exists w'.
    + destruct Hna as (Hp & w & part & Hw & Hpart). split; [done |]. destruct (H3 k w Hw) as (w' & ? & _ & Hs & _).
      exists w', part. by rewrite (same_disk_part w w').
Qed.

Lemma target_extent s i h k pn : inv s -> handles s !! i = Some h -> target h = Some (k, pn) ->
  exists w st n, disks s !! k = Some w /\ good_disk w /\ extent_of w pn = Some (st, n).
Proof.
  intros Hi Hh Ht. pose proof (i_names s Hi i h Hh) as Hn. destruct h as [l | k' | k' p]; [done | |]; injection Ht as -> <-; cbn in Hn.
  - destruct Hn as [w Hw]. exists w, 0, (zlen (bytes w)). split; [done |]. split; [by apply (i_disks s Hi k) | done].
  - destruct Hn as (Hp & w & part & Hw & Hpart). exists w, (start_lba part * bsize w), (psize part * bsize w).
    split; [done |]. split; [by apply (i_disks s Hi k) |]. cbn. by rewrite Hpart.
Qed.

Lemma view_spec s i w pn : view s i = Some (w, pn) <-> exists h k, handles s !! i = Some h /\ target h = Some (k, pn) /\ disks s !! k = Some w.
Proof.
  unfold view. split.
  - intros H. destruct (handles s !! i) as [h |]; [| done]. cbn in H. destruct (target h) as [[k q] |] eqn:E; [| done]. cbn in H.
    destruct (disks s !! k) as [w1 |] eqn:E1; [| done]. cbn in H. injection H as -> ->. by exists h, k.
  - intros (h & k & -> & H & Hw). cbn. rewrite H. cbn. by rewrite Hw.
Qed.

Lemma file_spec s i c : file s i = Some c <->
  exists w pn st n, view s i = Some (w, pn) /\ extent_of w pn = Some (st, n) /\ c = range st n (bytes w).
Proof.
  unfold file. split.
  - intros H. destruct (view s i) as [[w pn] |]; [| done]. cbn in H. destruct (extent_of w pn) as [[st n] |] eqn:E; [| done].
    cbn in H. injection H as <-. by exists w, pn, st, n.
  - intros (w & pn & st & n & -> & E & ->). cbn. by rewrite E.
Qed.

Lemma view_same P s s' i w pn : same P s s' -> view s i = Some (w, pn) ->
  exists w', view s' i = Some (w', pn) /\ disk_ok w' /\ same_disk w w' /\ P w w'.
Proof.
  intros [H1 H2 H3 H4] (h & k & Hh & Ht & Hw)%view_spec. destruct (H3 k w Hw) as (w' & Hw' & Hok & Hs & HP).
  exists w'. split; [| done]. apply view_spec. exists h, k. by rewrite H1.
Qed.

Lemma file_unchanged s s' i c : unchanged s s' -> file s i = Some c -> file s' i = Some c.
Proof.
  intros Hu (w & pn & st & n & Hv & He & ->)%file_spec. destruct (view_same _ _ _ _ _ _ Hu Hv) as (w' & Hv' & _ & Hs & Hb).
  apply file_spec. exists w', pn, st, n. rewrite (same_disk_extent w w') by done. by rewrite Hb.
Qed.
(** ** The calls *)

Lemma on_disk_wp {A} k (m : M (DiskWrapper T) A) Q s :
  (disks s !! k = None -> Q (Err EBADF) s) ->
  (forall w, disks s !! k = Some w -> wp m (fun o w' => Q o (set_disks (<[k := w']> (disks s)) s)) w) ->
  wp (on_disk k m) Q s.
Proof.
  intros Hn Hs. unfold on_disk. apply wp_bind, wp_gets, wp_bind, wp_ok_or; [intros w Hw | exact Hn].
  apply wp_zoom. by apply Hs.
Qed.

Lemma same_insert P s k w w' :
  inv s -> (forall w, P w w) -> disks s !! k = Some w -> disk_ok w' -> same_disk w w' -> P w w' ->
  same P s (set_disks (<[k := w']> (disks s)) s).
Proof.
  intros Hi HP Hw Hok Hs Hww. split; cbn; try done.
  - intros k1 w1 Hw1. destruct (decide (k1 = k)) as [-> | Hne].
    + rewrite lookup_insert_eq. exists w'. by assert (w1 = w) as -> by congruence.
    + rewrite lookup_insert_ne by done. exists w1. destruct (i_disks s Hi k1 w1 Hw1). done.
  - intros k1 Hk1. rewrite lookup_insert_ne; [done |]. intros ->. congruence.
Qed.

(** Calls that only look at a disk, or change nothing but its bytes *)
Lemma on_disk_same P {A} k (m : M (DiskWrapper T) A) s :
  inv s -> (forall w, P w w) ->
  (forall w, disks s !! k = Some w -> wp m (fun o w' => o <> Panic -> disk_ok w' /\ same_disk w w' /\ P w w') w) ->
  wp (on_disk k m) (fun o s' => o <> Panic -> s' = s \/ same P s s') s.
Proof.
  intros Hi HP Hm. apply on_disk_wp; [by left |]. intros w Hw. eapply wp_mono; [| by apply Hm].
  intros o w' H Hpan. right. destruct (H Hpan) as (? & ? & ?). by apply (same_insert P s k w w').
Qed.

Lemma on_disk_look {A} k (m : M (DiskWrapper T) A) s :
  inv s -> (forall w, (m w).2 = w) -> wp (on_disk k m) (fun o s' => o <> Panic -> s' = s \/ unchanged s s') s.
Proof.
  intros Hi Hm. apply on_disk_same; [done | done |]. intros w Hw. unfold wp. rewrite Hm. intros _.
  split; [by apply (i_disks s Hi k w) | by split_and!].
Qed.

Lemma handle_at_wp i Q s :
  (handles s !! i = None -> Q (Err EBADF) s) -> (forall h, handles s !! i = Some h -> Q (Ok h) s) -> wp (handle_at i) Q s.
Proof. intros Hn Hs. unfold handle_at. apply wp_bind, wp_gets, wp_ok_or; assumption. Qed.

Lemma block_of_bind {A} off (k : Z -> M (DiskWrapper T) A) w : disk_ok w -> (block_of off ≫= k) w = k (off / bsize w) w.
Proof.
  intros Hw. unfold block_of, u64_div, wrapper_block_size, mbind, M_bind, gets. cbv beta iota. fold (bsize w).
  rewrite (proj2 (Z.eqb_neq _ 0)) by (pose proof (bsize_pos w Hw); lia). done.
Qed.

Lemma block_range off w : disk_ok w -> 0 <= off < 2 ^ 64 -> 0 <= off / bsize w < 2 ^ 64.
Proof.
  intros Hw Ho. pose proof (bsize_pos w Hw). split; [apply Z.div_pos; lia |]. apply Z.div_lt_upper_bound; [lia |]. nia.
Qed.

(** A read of a disk or partition leaves everything as it is, and one inside the
    file returns its bytes. *)
Lemma disk_read_wp s i h k pn buf off :
  inv s -> handles s !! i = Some h -> target h = Some (k, pn) -> 0 <= off < 2 ^ 64 ->
  wp (on_disk k (block ← block_of off; wrapper_read pn block buf)) (fun o s' =>
    (o <> Panic -> s' = s \/ unchanged s s') /\
    forall w c, view s i = Some (w, pn) -> file s i = Some c ->
      accepted (bsize w) (zlen c) pn (off / bsize w) (zlen buf) = true -> off / bsize w * bsize w + zlen buf <= zlen c ->
      o = Ok (zlen buf, range (off / bsize w * bsize w) (zlen buf) c)) s.
Proof.
  intros Hi Hh Ht Ho. destruct (target_extent s i h k pn Hi Hh Ht) as (w & st & n & Hw & [Hok Ha] & He).
  apply on_disk_wp; [congruence |]. intros w1 Hw1. assert (w1 = w) as -> by congruence.
  unfold wp. rewrite block_of_bind by done. pose proof (wrapper_read_wp w pn _ buf st n Hok He (block_range off w Hok Ho)) as H.
  unfold wp in H. destruct H as [H1 H2]. split.
  - intros Hpan. right. destruct (H1 Hpan) as (? & ? & ?). by apply (same_insert _ s k w).
  - intros w' c Hv Hf. assert (view s i = Some (w, pn)) as Hv' by (apply view_spec; by exists h, k).
    assert (w' = w) as -> by congruence. apply file_spec in Hf as (w2 & pn2 & st2 & n2 & Hv2 & He2 & ->).
    assert (w2 = w) as -> by congruence. assert (pn2 = pn) as -> by congruence. rewrite He in He2. injection He2 as <- <-.
    destruct (extent_in w pn st n Hok He) as (? & ? & ? & ?). rewrite length_range by lia. intros Hacc Hfit.
    pose proof (block_range off w Hok Ho). pose proof (bsize_pos w Hok). rewrite (H2 Hacc Hfit), range_range by (unfold zlen in *; nia). done.
Qed.

(** What a write leaves in the file of its handle *)
Definition written (w : DiskWrapper T) (pn : option Z) (buf : list u8) (off : Z) (c : list u8) : list u8 :=
  if accepted (bsize w) (zlen c) pn (off / bsize w) (zlen buf) then splice (Z.to_nat (off / bsize w * bsize w)) buf c else c.

(** A write that does not go beyond the end of the file *)
Definition inside (w : DiskWrapper T) (pn : option Z) (buf : list u8) (off : Z) (c : list u8) : Prop :=
  accepted (bsize w) (zlen c) pn (off / bsize w) (zlen buf) = true -> off / bsize w * bsize w + zlen buf <= zlen c.

Lemma disk_write_touches s i h k pn buf off :
  inv s -> handles s !! i = Some h -> target h = Some (k, pn) -> 0 <= off < 2 ^ 64 ->
  wp (on_disk k (block ← block_of off; wrapper_write pn block buf)) (fun o s' => o <> Panic -> s' = s \/ touched s s') s.
Proof.
  intros Hi Hh Ht Ho. destruct (target_extent s i h k pn Hi Hh Ht) as (w & st & n & Hw & [Hok Ha] & He).
  apply on_disk_same; [done | done |]. intros w1 Hw1. assert (w1 = w) as -> by congruence.
  unfold wp. rewrite block_of_bind by done. pose proof (wrapper_write_wp w pn _ buf st n Hok He (block_range off w Hok Ho)) as H.
  intros Hpan. by destruct (H Hpan).
Qed.
(** Two handles that are open do not overlap. *)
Lemma extents_apart s i j h1 h2 k pn1 pn2 w st1 n1 st2 n2 :
  inv s -> i <> j -> handles s !! i = Some h1 -> handles s !! j = Some h2 ->
  target h1 = Some (k, pn1) -> target h2 = Some (k, pn2) -> disks s !! k = Some w ->
  extent_of w pn1 = Some (st1, n1) -> extent_of w pn2 = Some (st2, n2) -> st1 + n1 <= st2 \/ st2 + n2 <= st1.
Proof.
  intros Hi Hne H1 H2 Ht1 Ht2 Hw He1 He2. pose proof (i_apart s Hi i j h1 h2 Hne H1 H2) as Hc. unfold compatible in Hc. rewrite Ht1 in Hc.
  destruct (i_disks s Hi k w Hw) as [Hok Hap]. pose proof (bsize_pos w Hok).
  destruct h2 as [l | k2 | k2 p2]; [done | |]; injection Ht2 as -> <-; cbn in Hc; rewrite Z.eqb_refl in Hc; [done |].
  destruct pn1 as [p1 |]; [| done]. cbn in Hc. apply Z.eqb_neq in Hc. cbn in He1, He2.
  destruct (part_at w p1) as [a |] eqn:Ea; [| done]. destruct (part_at w p2) as [b |] eqn:Eb; [| done].
  injection He1 as <- <-. injection He2 as <- <-.
  pose proof (i_names s Hi i h1 H1) as N1. pose proof (i_names s Hi j _ H2) as N2.
  destruct h1 as [l | k1 | k1 q1]; [done | done |]. injection Ht1 as -> ->. cbn in N1, N2.
  destruct (Hap p1 p2 a b) as [? | ?]; [easy | easy | done | done | done | left; nia | right; nia].
Qed.

(** A write inside the file of a handle changes that file, as it should, and no
    other. *)
Lemma disk_write_wp s i h k pn buf off w c :
  inv s -> handles s !! i = Some h -> target h = Some (k, pn) -> disks s !! k = Some w -> 0 <= off < 2 ^ 64 ->
  file s i = Some c -> inside w pn buf off c ->
  wp (on_disk k (block ← block_of off; wrapper_write pn block buf)) (fun o s' => o <> Panic /\
    file s' i = Some (written w pn buf off c) /\ forall j d, j <> i -> file s j = Some d -> file s' j = Some d) s.
Proof.
  intros Hi Hh Ht Hw Ho Hf Hin. destruct (target_extent s i h k pn Hi Hh Ht) as (w1 & st & n & Hw1 & [Hok Ha] & He).
  assert (w1 = w) as -> by congruence. apply on_disk_wp; [congruence |]. intros w1 Hw1'. assert (w1 = w) as -> by congruence.
  apply file_spec in Hf as (w1 & pn1 & st1 & n1 & Hv & He1 & ->). pose proof Hv as (h1 & k1 & Hh1 & Ht1 & Hk1)%view_spec.
  assert (h1 = h) as -> by congruence. assert (k1 = k /\ pn1 = pn) as [-> ->] by (rewrite Ht in Ht1; by injection Ht1 as -> ->).
  assert (w1 = w) as -> by congruence. rewrite He in He1. injection He1 as <- <-.
  destruct (extent_in w pn st n Hok He) as (Hst & Hn & Hend & _). pose proof (block_range off w Hok Ho) as Hb. pose proof (bsize_pos w Hok) as Hp.
  unfold inside, written in *. rewrite length_range in * by lia.
  unfold wp. rewrite block_of_bind by done. pose proof (wrapper_write_in w pn (off / bsize w) buf st n Hok He Hb Hin) as H1.
  pose proof (wrapper_write_wp w pn (off / bsize w) buf st n Hok He Hb) as H2. unfold wp in H1, H2.
  destruct (wrapper_write pn (off / bsize w) buf w) as [o w']. cbn [fst snd] in *. destruct H1 as (Hpan & Hret & Hbytes).
  destruct (H2 Hpan) as (Hok' & Hs).
  set (s' := set_disks (<[k := w']> (disks s)) s).
  assert (forall j hj kj pj wj, handles s !! j = Some hj -> target hj = Some (kj, pj) -> disks s !! kj = Some wj ->
    view s' j = Some (if decide (kj = k) then w' else wj, pj)) as Hview.
  { intros j hj kj pj wj Hj Htj Hkj. apply view_spec. exists hj, kj. split; [done |]. split; [done |]. cbn.
    case_decide; subst; [by rewrite lookup_insert_eq | by rewrite lookup_insert_ne]. }
  split; [done |]. split.
  - apply file_spec. exists w', pn, st, n. rewrite (Hview i h k pn w), (same_disk_extent w w'), decide_True by done.
    split; [done |]. split; [done |]. rewrite Hbytes. destruct (accepted _ _ _ _ _); [| done].
    rewrite range_splice_in by (unfold zlen in *; nia || auto). done.
  - intros j d Hj (wj & pj & stj & nj & Hvj & Hej & ->)%file_spec. pose proof Hvj as (hj & kj & Hhj & Htj & Hkj)%view_spec.
    apply file_spec. exists (if decide (kj = k) then w' else wj), pj, stj, nj. rewrite (Hview j hj kj pj wj) by done.
    split; [done |]. case_decide as Hk; [subst kj | done]. assert (wj = w) as -> by congruence.
    rewrite (same_disk_extent w w') by done. split; [done |]. rewrite Hbytes. destruct (accepted _ _ _ _ _) eqn:Eacc; [| done].
    destruct (extent_in w pj stj nj Hok Hej) as (? & ? & ? & _). specialize (Hin eq_refl).
    pose proof (extents_apart s i j h hj k pn pj w st n stj nj Hi ltac:(done) Hh Hhj Ht Htj Hw He Hej).
    symmetry. apply range_splice_out; unfold zlen in *; nia.
Qed.
(** ** Opening *)

Lemma parse_digits_nonneg m a str x : 0 <= a -> parse_digits m a str = Some x -> 0 <= x.
Proof.
  revert a. induction str as [| c str IH]; intros a Ha; cbn; [by intros [= <-] |].
  destruct (digit_value c) as [d |] eqn:E; [| done]. unfold digit_value in E. destruct (_ && _) eqn:Ed; [| done].
  destruct (_ <? m); [| done]. apply IH. injection E as <-. lia.
Qed.

Lemma parse_unsigned_nonneg m str x : parse_unsigned m str = Some x -> 0 <= x.
Proof.
  unfold parse_unsigned. destruct str as [| c str]; [done |]. destruct (Ascii.eqb _ _); [destruct str; [done |] |]; by apply parse_digits_nonneg.
Qed.

Lemma compatible_sym h1 h2 : compatible h1 h2 -> compatible h2 h1.
Proof. unfold compatible. destruct h1, h2; cbn; try done; lia. Qed.

(** A handle that conflicts with none that is open *)
Definition free s (h : Handle) : Prop := forall j h', handles s !! j = Some h' -> compatible h h'.

Lemma check_locks_wp k pn h s :
  target h = Some (k, pn) -> wp (check_locks k pn) (fun o s' => s' = s /\ o <> Panic /\ (is_ok o = true -> free s h)) s.
Proof.
  intros Ht. unfold check_locks. apply wp_bind, wp_gets, wp_fail_if; intros E; [done |]. split_and!; [done | done |].
  intros _ j h' Hj. unfold compatible. rewrite Ht. destruct (conflicts k pn h') eqn:Ec; [| done]. exfalso.
  assert (existsb (conflicts k pn) (map snd (map_to_list (handles s))) = true); [| congruence].
  apply existsb_exists. exists h'. split; [| done]. apply in_map_iff. exists (j, h'). split; [done |].
  apply list_elem_of_In. by apply elem_of_map_to_list.
Qed.

(** The handle that an arm of [open] makes *)
Definition made s (o : outcome Handle) s' : Prop := s' = s /\ forall h, o = Ok h -> names s h /\ free s h.

Lemma open_disk_wp path s : wp (open_disk path) (made s) s.
Proof.
  unfold open_disk. apply wp_bind, wp_ok_or; [intros k Hk | done]. apply wp_bind, wp_gets, wp_bind, wp_ok_or; [intros w Hw | done].
  apply wp_bind. eapply wp_mono; [| by apply (check_locks_wp k None (Disk_ k))]. intros [[] | |] s' (-> & _ & Hl); [| done | done].
  apply wp_ret. split; [done |]. intros h [= <-]. split; [by exists w | by apply Hl].
Qed.

Lemma str_to_wp n str Q s : (forall o, Q o s) -> wp (str_to n str) Q s.
Proof. intros H. unfold str_to. destruct (is_char_boundary _ _); apply H. Qed.
Lemma str_from_wp n str Q s : (forall o, Q o s) -> wp (str_from n str) Q s.
Proof. intros H. unfold str_from. destruct (is_char_boundary _ _); apply H. Qed.

Lemma open_partition_wp path n s : wp (open_partition path n) (made s) s.
Proof.
  unfold open_partition. apply wp_bind, str_to_wp. intros [str | e |]; [| done | done].
  apply wp_bind, wp_fail_if; intros _; [done |]. apply wp_bind, str_from_wp. intros [str' | e |]; [| done | done].
  apply wp_bind, wp_ok_or; [intros k Hk | done]. apply wp_bind, wp_ok_or; [intros p Hp | done].
  apply wp_bind, wp_gets, wp_bind, wp_ok_or; [intros w Hw | done]. apply wp_bind, wp_lift. rewrite part_of_spec.
  destruct (part_at w p) as [part |] eqn:E; [| done]. apply wp_bind.
  eapply wp_mono; [| by apply (check_locks_wp k (Some p) (Part_ k p))]. intros [[] | |] s' (-> & _ & Hl); [| done | done].
  apply wp_ret. split; [done |]. intros h [= <-]. split; [| by apply Hl]. split; [by eapply parse_unsigned_nonneg | by exists w, part].
Qed.

Lemma disk_open_wp path fl ctx s :
  next_id s + 1 < usize_mod -> 0 <= next_id s ->
  wp (open path fl ctx) (fun o s' => s' = s \/
    exists h, s' = set_handles (<[next_id s := h]> (handles s)) (set_next_id (next_id s + 1) s) /\ names s h /\ free s h) s.
Proof.
  intros Hn H0. unfold open. apply wp_bind, wp_fail_if; intros _; [by left |].
  apply wp_bind. match goal with |- wp ?m _ _ => assert (wp m (made s) s) as Hm end.
  { destruct (str_is_empty _).
    - destruct (_ || _); [| by apply wp_throw]. apply wp_bind, wp_gets, wp_ret. split; [done |]. by intros h [= <-].
    - destruct (char_position _ _); [apply open_partition_wp | apply open_disk_wp]. }
  eapply wp_mono; [| exact Hm]. intros [h | e |] s1 [-> Hh]; [| by left | by left]. destruct (Hh h eq_refl) as [Hnames Hfree].
  apply wp_bind, wp_gets, wp_bind, wp_arith; intros; [| unfold usize_mod in *; lia | unfold usize_mod in *; lia].
  apply wp_bind, wp_modify, wp_bind, wp_modify, wp_ret. right. by exists h.
Qed.

Lemma inv_open s h : inv s -> names s h -> free s h ->
  inv (set_handles (<[next_id s := h]> (handles s)) (set_next_id (next_id s + 1) s)).
Proof.
  intros [Hd Hi H0 Hn Ha] Hnames Hfree. split; cbn; [done | | lia | |].
  - intros i h' [[<- <-] | [Hne Hh]]%lookup_insert_Some; [lia |]. specialize (Hi i h' Hh). lia.
  - intros i h' [[<- <-] | [Hne Hh]]%lookup_insert_Some; [done |]. by apply (Hn i).
  - intros i j h1 h2 Hne [[<- <-] | [Hi1 Hh1]]%lookup_insert_Some [[<- <-] | [Hj1 Hh2]]%lookup_insert_Some; [done | | |].
    + by apply (Hfree j).
    + by apply compatible_sym, (Hfree i).
    + by apply (Ha i j).
Qed.

Lemma file_open s h i c : inv s -> file s i = Some c ->
  file (set_handles (<[next_id s := h]> (handles s)) (set_next_id (next_id s + 1) s)) i = Some c.
Proof.
  intros Hi (w & pn & st & n & Hv & He & ->)%file_spec. apply file_spec. exists w, pn, st, n. split; [| done].
  apply view_spec in Hv as (h' & k & Hh & Ht & Hw). apply view_spec. exists h', k. split; [| done]. cbn.
  rewrite lookup_insert_ne; [done |]. intros <-. pose proof (i_ids s Hi _ _ Hh). lia.
Qed.

Lemma inv_close s i : inv s -> inv (set_handles (delete i (handles s)) s).
Proof.
  intros [Hd Hi H0 Hn Ha]. split; cbn; [done | | done | |].
  - intros j h [_ Hh]%lookup_delete_Some. by apply (Hi j h).
  - intros j h [_ Hh]%lookup_delete_Some. by apply (Hn j).
  - intros j k h1 h2 Hne [_ H1]%lookup_delete_Some [_ H2]%lookup_delete_Some. by apply (Ha j k).
Qed.

Lemma file_close s i j c : i <> j -> file s j = Some c -> file (set_handles (delete i (handles s)) s) j = Some c.
Proof.
  intros Hne (w & pn & st & n & Hv & He & ->)%file_spec. apply file_spec. exists w, pn, st, n. split; [| done].
  apply view_spec in Hv as (h' & k & Hh & Ht & Hw). apply view_spec. exists h', k. split; [| done]. cbn. by rewrite lookup_delete_ne.
Qed.
(** ** Requests *)

(** What the kernel sees to: offsets fit in 64 bits, and it does not open more files
    than the counter of handles can number. *)
Definition admissible (r : Request) s : Prop :=
  match r with
  | R_call (C_open _ _ _) => next_id s + 1 < usize_mod
  | R_call (C_read _ _ off) | R_call (C_write _ _ off) => 0 <= off < 2 ^ 64
  | _ => True
  end.

(** A request that does not write beyond the end of a file *)
Definition contained (r : Request) s : Prop :=
  match r with
  | R_call (C_write i buf off) => forall w pn c, view s i = Some (w, pn) -> file s i = Some c -> inside w pn buf off c
  | _ => True
  end.

(** What a request leaves in the file of the handle [i], which holds [c] *)
Definition applied (r : Request) (i : Z) s (c : list u8) : list u8 :=
  match r with
  | R_call (C_write j buf off) =>
      if decide (j = i) then match view s i with Some (w, pn) => written w pn buf off c | None => c end else c
  | _ => c
  end.

Definition quiet (o : bool) s s' : Prop := o = false \/ s' = s \/ unchanged s s'.
Definition lives {A} (o : outcome A) : bool := match o with Panic => false | _ => true end.

Lemma lives_ok {A} (o : outcome A) : o <> Panic <-> lives o = true.
Proof. by destruct o. Qed.

Lemma answer_wp {A} (f : outcome A -> Answer) (m : M (DiskScheme T) A) (Q : bool -> DiskScheme T -> Prop) s :
  wp m (fun o s' => Q (lives o) s') s -> wp (answer f m) (fun o s' => Q (lives o) s') s.
Proof. unfold wp, answer. by destruct (m s) as [[] s']. Qed.

Lemma quiet_self b s : quiet b s s.
Proof. right. by left. Qed.

Lemma quiet_of {A} (m : M (DiskScheme T) A) s :
  wp m (fun o s' => o <> Panic -> s' = s \/ unchanged s s') s -> wp m (fun o s' => quiet (lives o) s s') s.
Proof. apply wp_mono. intros o s' H. destruct (lives o) eqn:E; [right; by apply H, lives_ok | by left]. Qed.

Lemma handle_call {A} i (k : Handle -> M (DiskScheme T) A) s :
  (forall h, handles s !! i = Some h -> wp (k h) (fun o s' => quiet (lives o) s s') s) ->
  wp (handle_at i ≫= k) (fun o s' => quiet (lives o) s s') s.
Proof. intros H. apply wp_bind, handle_at_wp; [intros _; apply quiet_self | done]. Qed.

Lemma look_quiet {A} k (m : M (DiskWrapper T) A) s :
  inv s -> (forall w, (m w).2 = w) -> wp (on_disk k m) (fun o s' => quiet (lives o) s s') s.
Proof. intros. by apply quiet_of, on_disk_look. Qed.

Lemma fstat_quiet i stat s : inv s -> wp (fstat i stat) (fun o s' => quiet (lives o) s s') s.
Proof.
  intros Hi. apply handle_call. intros [l | k | k p] _; [apply wp_ret, quiet_self | |]; apply look_quiet; try done; intros w.
  - unfold u64_div, mbind, M_bind, gets. by destruct (_ =? 0).
  - unfold mbind, M_bind, gets, lift, arith. destruct (partition_of _ _ _); try done. by destruct (_ && _); [| destruct overflow_checks].
Qed.

Lemma fsize_quiet i s : inv s -> wp (fsize i) (fun o s' => quiet (lives o) s s') s.
Proof.
  intros Hi. apply handle_call. intros [l | k | k p] _; [apply wp_ret, quiet_self | |]; apply look_quiet; try done; intros w.
  unfold mbind, M_bind, gets, lift, arith. destruct (partition_of _ _ _); try done. by destruct (_ && _); [| destruct overflow_checks].
Qed.

Lemma flush_quiet k s : inv s -> wp (on_disk k wrapper_flush) (fun o s' => quiet (lives o) s s') s.
Proof.
  intros Hi. apply quiet_of, on_disk_same; [done | done |]. intros w Hw. apply wp_zoom. destruct (i_disks s Hi k w Hw) as [Hok _].
  eapply wp_mono; [| apply (d_flush_keeps (disk w) (dw_ok _ Hok))]. intros o d' H Hpan. destruct (H Hpan) as (H1 & H2 & H3).
  assert (same_disk w (set_disk d' w)) as Hs by (split_and!; [exact H2 | done | unfold bytes; cbn; by rewrite H3]).
  split_and!; [by apply (same_disk_ok w) | done | done].
Qed.

Lemma fsync_quiet i s : inv s -> wp (fsync i) (fun o s' => quiet (lives o) s s') s.
Proof. intros Hi. apply handle_call. intros [l | k | k p] _; [apply wp_ret, quiet_self | |]; by apply flush_quiet. Qed.

Lemma fpath_quiet i buf s : wp (fpath i buf) (fun o s' => quiet (lives o) s s') s.
Proof. apply handle_call. intros h _. apply wp_bind, wp_gets. repeat destruct (put_str _ _ _). apply wp_ret, quiet_self. Qed.

Lemma read_quiet i buf off s : inv s -> 0 <= off < 2 ^ 64 -> wp (read i buf off) (fun o s' => quiet (lives o) s s') s.
Proof.
  intros Hi Ho. apply handle_call. intros [l | k | k p] Hh; [apply wp_ret, quiet_self | |]; apply quiet_of;
    (eapply wp_mono; [| by eapply disk_read_wp]); by intros o s' [H _].
Qed.

(** The calls but for [open] and [write] *)
Definition is_quiet (c : Call) : bool := match c with C_open _ _ _ | C_write _ _ _ => false | _ => true end.

Lemma call_quiet c s : inv s -> admissible (R_call c) s -> is_quiet c = true -> wp (call c) (fun o s' => quiet (lives o) s s') s.
Proof.
  intros Hi Ha Hq. destruct c; try done; cbn [call]; apply (answer_wp _ _ (fun b s' => quiet b s s')).
  - apply wp_throw, quiet_self.
  - by apply fstat_quiet.
  - by apply fpath_quiet.
  - by apply read_quiet.
  - by apply fsize_quiet.
  - by apply fsync_quiet.
Qed.

Lemma write_touches i buf off s : inv s -> 0 <= off < 2 ^ 64 -> wp (write i buf off) (fun o s' => o <> Panic -> s' = s \/ touched s s') s.
Proof.
  intros Hi Ho. apply wp_bind, handle_at_wp; [by left |]. intros h Hh.
  destruct h as [l | k | k p]; [by left | |]; by eapply disk_write_touches.
Qed.

(** Every request keeps the invariant. *)
Lemma disk_request_wp r s : inv s -> admissible r s -> wp (request r) (fun o s' => lives o = true -> inv s') s.
Proof.
  intros Hi Ha. destruct r as [c | | | | | | | i]; try (by intros ?).
  - cbn [request]. apply wp_bind. assert (wp (call c) (fun o s' => lives o = true -> inv s') s) as Hc.
    { destruct (is_quiet c) eqn:Hq.
      - eapply wp_mono; [| by apply call_quiet]. intros o s' [-> | [-> | Hu]] ?; [done | done |].
        by apply (inv_touched s), unchanged_touched.
      - destruct c; try done; cbn [call]; apply (answer_wp _ _ (fun b s' => b = true -> inv s')).
        + eapply wp_mono; [| by apply disk_open_wp; [| apply (i_next s Hi)]].
          intros o s' [-> | (h & -> & Hn & Hf)] _; [done | by apply inv_open].
        + eapply wp_mono; [| by apply write_touches]. intros o s' H Hl.
          destruct (H (proj2 (lives_ok _) Hl)) as [-> | Ht]; [done | by apply (inv_touched s)]. }
    eapply wp_mono; [| exact Hc]. intros [a | e |] s' H; [| done | done]. intros _. by apply H.
  - cbn [request]. apply wp_bind, wp_modify, wp_ret. intros _. by apply inv_close.
Qed.

(** A request that stays inside the files leaves each of them but that of its own handle. *)
Lemma request_file r s i c :
  inv s -> admissible r s -> contained r s -> r <> R_close i -> file s i = Some c ->
  wp (request r) (fun o s' => lives o = true -> file s' i = Some (applied r i s c)) s.
Proof.
  intros Hi Ha Hin Hne Hf. destruct r as [cl | | | | | | | j]; try (by intros ?).
  - cbn [request]. apply wp_bind.
    assert (wp (call cl) (fun o s' => lives o = true -> file s' i = Some (applied (R_call cl) i s c)) s) as Hc.
    { destruct (is_quiet cl) eqn:Hq.
      - assert (applied (R_call cl) i s c = c) as -> by by destruct cl.
        eapply wp_mono; [| by apply call_quiet]. intros o s' [-> | [-> | Hu]] ?; [done | done | by apply (file_unchanged s)].
      - destruct cl as [path fl ctx | | | | | j buf off | |]; try done; cbn [call];
          apply (answer_wp _ _ (fun b s' => b = true -> file s' i = Some (applied _ i s c))).
        + eapply wp_mono; [| by apply disk_open_wp; [| apply (i_next s Hi)]].
          intros o s' [-> | (h & -> & Hn & Hfr)] _; [done | by apply file_open].
        + cbn [applied contained admissible] in *. apply wp_bind, handle_at_wp.
          { intros Hj _. case_decide; [subst j | done]. unfold view. by rewrite Hj. }
          intros h Hh. assert (target h = None \/ exists k pn, target h = Some (k, pn)) as [Hn | (k & pn & Ht)].
          { destruct (target h) as [[k pn] |]; [right; by exists k, pn | by left]. }
          * destruct h; try done. intros _. case_decide; [subst j | done]. unfold view. by rewrite Hh.
          * assert (wp (on_disk k (block ← block_of off; wrapper_write pn block buf)) (fun o s' => lives o = true ->
              file s' i = Some (if decide (j = i) then match view s i with Some (w, pn) => written w pn buf off c | None => c end else c)) s) as Hw.
            { destruct (target_extent s j h k pn Hi Hh Ht) as (w & st & n & Hw & [Hok _] & He).
              assert (view s j = Some (w, pn)) as Hv by (apply view_spec; by exists h, k).
              assert (file s j = Some (range st n (bytes w))) as Hfj by (apply file_spec; by exists w, pn, st, n).
              eapply wp_mono; [| apply (disk_write_wp s j h k pn buf off w _ Hi Hh Ht Hw Ha Hfj (Hin w pn _ Hv Hfj))].
              intros o s' (_ & H1 & H2) _. case_decide as Hji; [subst j | by apply H2].
              rewrite Hv. rewrite Hf in Hfj. injection Hfj as ->. done. }
            destruct h; try done; injection Ht as <- <-; exact Hw. }
    eapply wp_mono; [| exact Hc]. intros [a | e |] s' H; [| done | done]. intros _. by apply H.
  - cbn [request]. apply wp_bind, wp_modify, wp_ret. intros _. apply file_close; [congruence | done].
Qed.
(** ** Runs *)

(** A scheme that was started on disks whose tables fit them *)
Definition started s : Prop :=
  handles s = ∅ /\ next_id s = 0 /\ forall k w, disks s !! k = Some w -> good_disk w.

Definition step s s' : Prop := exists r o, admissible r s /\ request r s = (Ok o, s').
Definition reachable s : Prop := exists s0, started s0 /\ rtc step s0 s.

Lemma inv_started s : started s -> inv s.
Proof. intros (Hh & Hn & Hd). split; rewrite ?Hh, ?Hn; try done. Qed.

Lemma inv_step s s' : inv s -> step s s' -> inv s'.
Proof. intros Hi (r & o & Ha & Hr). pose proof (disk_request_wp r s Hi Ha) as H. unfold wp in H. rewrite Hr in H. by apply H. Qed.

Lemma disk_reachable_inv s : reachable s -> inv s.
Proof. intros (s0 & H0 & Hs). apply (rtc_preserves inv step s0); [done | apply inv_step | by apply inv_started]. Qed.

(** A run of requests that go on, stay inside the files and do not close [i] *)
Fixpoint serves (l : list Request) (i : Z) s s' : Prop :=
  match l with
  | [] => s' = s
  | r :: l => admissible r s /\ contained r s /\ r <> R_close i /\ exists o s1, request r s = (Ok o, s1) /\ serves l i s1 s'
  end.

(** What its writes make of the file of [i] *)
Fixpoint contents (l : list Request) (i : Z) s (c : list u8) : list u8 :=
  match l with [] => c | r :: l => contents l i (request r s).2 (applied r i s c) end.

Lemma applied_length r i s c :
  inv s -> admissible r s -> contained r s -> file s i = Some c -> zlen (applied r i s c) = zlen c.
Proof.
  intros Hi Ha Hin Hf. destruct r as [[| | | | | j buf off | |] | | | | | | |]; try done. cbn [applied]. case_decide; [subst j | done].
  destruct (view s i) as [[w pn] |] eqn:Hv; [| done]. specialize (Hin w pn c Hv Hf). unfold written, inside in *.
  destruct (accepted _ _ _ _ _); [| done]. specialize (Hin eq_refl).
  pose proof Hv as (h & k & _ & _ & Hw)%view_spec. destruct (i_disks s Hi k w Hw) as [Hok _].
  pose proof (block_range off w Hok Ha). pose proof (bsize_pos w Hok).
  unfold zlen in *. rewrite length_splice; [done | nia].
Qed.

Lemma serves_file l i s s' c :
  inv s -> file s i = Some c -> serves l i s s' ->
  inv s' /\ file s' i = Some (contents l i s c) /\ zlen (contents l i s c) = zlen c.
Proof.
  revert s c. induction l as [| r l IH]; intros s c Hi Hf Hl; cbn in Hl; [by subst |].
  destruct Hl as (Ha & Hin & Hne & o & s1 & Hr & Hl). pose proof (disk_request_wp r s Hi Ha) as H1.
  pose proof (request_file r s i c Hi Ha Hin Hne Hf) as H2. unfold wp in H1, H2. rewrite Hr in H1, H2.
  rewrite <- (applied_length r i s c) by done. cbn [contents]. rewrite Hr. cbn in *. by apply IH; [apply H1 | apply H2 |].
Qed.

Lemma disk_read_file s i c w pn buf off :
  inv s -> file s i = Some c -> view s i = Some (w, pn) -> 0 <= off < 2 ^ 64 ->
  accepted (bsize w) (zlen c) pn (off / bsize w) (zlen buf) = true -> inside w pn buf off c ->
  (read i buf off s).1 = Ok (zlen buf, range (off / bsize w * bsize w) (zlen buf) c).
Proof.
  intros Hi Hf Hv Ho Hacc Hin. pose proof Hv as (h & k & Hh & Ht & _)%view_spec. pose proof (Hin Hacc) as Hfit.
  pose proof (disk_read_wp s i h k pn buf off Hi Hh Ht Ho) as [_ H]. specialize (H w c Hv Hf Hacc Hfit).
  unfold read, handle_at, mbind, M_bind, gets, ok_or. rewrite Hh. destruct h; try done; injection Ht as <- <-; exact H.
Qed.
End facts.

Section theorems.
Context {TG : Target} {SC : Syscall} {GP : Gpt} {T : Type} {DK : Disk T} {DI : DiskImage T}.


(** In every reachable state each handle names a disk or partition that there
    is, and no two open handles overlap: a disk that is open is open once, with none of its
    partitions, and a partition once. *)
Theorem disk_locks s :
  reachable s -> (forall i h, handles s !! i = Some h -> names s h) /\
  forall i j h1 h2, i <> j -> handles s !! i = Some h1 -> handles s !! j = Some h2 -> compatible h1 h2.
Proof. intros Hr. destruct (disk_reachable_inv s Hr). done. Qed.
End theorems.
