(* ===== verification/LiveDiskFacts.v ===== *)
(** * The live disk is a disk

    [LiveDisk] keeps what the schemes rely on of a disk ([DiskImage]): its
    image is what it was started on, with the blocks of the overlay in their
    places. *)

From stdpp Require Import base gmap strings list fin_maps.
From Stdlib Require Import ZArith Lia.
From Stdlib Require Import Strings.Byte.
From S2P Require Import Prelude Syscall Disk LiveDisk DiskFacts.

Local Open Scope Z_scope.

(** ** Pieces and blocks of a list *)

Lemma pieces_nil n : (0 < n)%nat -> pieces n [] = [].
Proof. intros Hn. unfold pieces. rewrite Nat.div_small by (cbn; lia). done. Qed.

Lemma pieces_cons n (x l : list u8) : (0 < n)%nat -> length x = n -> pieces n (x ++ l) = x :: pieces n l.
Proof.
  intros Hn Hx. unfold pieces. rewrite length_app, Hx.
  replace (n + length l + n - 1)%nat with (1 * n + (length l + n - 1))%nat by lia. rewrite Nat.div_add_l by lia.
  cbn [Nat.add seq fmap list_fmap]. f_equal.
  - rewrite Nat.mul_0_l, drop_0. by apply take_app_length'.
  - rewrite <- fmap_S_seq, <- list_fmap_compose. apply list_fmap_ext. intros i y _. cbn.
    rewrite <- drop_drop. by rewrite drop_app_length'.
Qed.

Section blocks.
Context (n : Z).

Lemma length_blocks (f : Z -> list u8) a m :
  0 <= m -> (forall b, a <= b < a + m -> zlen (f b) = n) -> zlen (concat (f <$> seqZ a m)) = m * n.
Proof.
  intros Hm. revert a. apply (natlike_ind (fun m => forall a, (forall b, a <= b < a + m -> zlen (f b) = n) ->
    zlen (concat (f <$> seqZ a m)) = m * n)); [done | | done].
  intros k Hk IH a Hf. rewrite seqZ_cons, Z.pred_succ by lia. cbn. unfold zlen in *. rewrite length_app, Nat2Z.inj_add, IH.
  - rewrite (Hf a) by lia. lia.
  - intros b Hb. apply Hf. lia.
Qed.

Lemma blocks_split (f : Z -> list u8) a b m :
  0 <= b <= m -> concat (f <$> seqZ a m) = concat (f <$> seqZ a b) ++ concat (f <$> seqZ (a + b) (m - b)).
Proof. intros Hb. replace m with (b + (m - b)) at 1 by lia. rewrite seqZ_app by lia. by rewrite fmap_app, concat_app. Qed.

Lemma range_blocks (f : Z -> list u8) b k m :
  0 <= b -> 0 <= k -> b + k <= m -> (forall i, 0 <= i < m -> zlen (f i) = n) ->
  range (b * n) (k * n) (concat (f <$> seqZ 0 m)) = concat (f <$> seqZ b k).
Proof.
  intros Hb Hk Hm Hf. rewrite (blocks_split f 0 b m) by lia. rewrite Z.add_0_l, (blocks_split f b k (m - b)) by lia.
  unfold range. pose proof (length_blocks f 0 b Hb) as H1. pose proof (length_blocks f b k Hk) as H2. unfold zlen in *.
  rewrite drop_app_length' by (rewrite <- H1 by (intros; apply Hf; lia); lia).
  apply take_app_length'. rewrite <- H2 by (intros; apply Hf; lia). lia.
Qed.

Lemma splice_blocks (f g : Z -> list u8) b m c :
  0 <= b < m -> (forall i, 0 <= i < m -> zlen (f i) = n) -> g b = c -> zlen c = n -> (forall i, 0 <= i < m -> i <> b -> g i = f i) ->
  concat (g <$> seqZ 0 m) = splice (Z.to_nat (b * n)) c (concat (f <$> seqZ 0 m)).
Proof.
  intros Hb Hf Hg Hc He. rewrite (blocks_split g 0 b m), (blocks_split f 0 b m) by lia. rewrite Z.add_0_l.
  rewrite (blocks_split g b 1 (m - b)), (blocks_split f b 1 (m - b)) by lia. cbn [fmap list_fmap]. rewrite (seqZ_cons b 1), (seqZ_nil _ (Z.pred 1)) by lia.
  cbn [fmap list_fmap concat]. rewrite !app_nil_r, Hg.
  assert (concat (g <$> seqZ 0 b) = concat (f <$> seqZ 0 b)) as ->.
  { f_equal. apply list_fmap_ext. intros i y Hy%lookup_seqZ. apply He; lia. }
  assert (concat (g <$> seqZ (b + 1) (m - b - 1)) = concat (f <$> seqZ (b + 1) (m - b - 1))) as ->.
  { f_equal. apply list_fmap_ext. intros i y Hy%lookup_seqZ. apply He; lia. }
  pose proof (length_blocks f 0 b ltac:(lia)) as H1. unfold splice, zlen in *.
  rewrite take_app_length' by (rewrite <- H1 by (intros; apply Hf; lia); lia). f_equal. f_equal.
  rewrite app_assoc. symmetry. apply drop_app_length'. rewrite length_app.
  pose proof (Hf b ltac:(lia)). rewrite <- H1 by (intros; apply Hf; lia). lia.
Qed.
End blocks.

Lemma splice_splice {A} a (x y l : list A) :
  (a + length x + length y <= length l)%nat -> splice (a + length x) y (splice a x l) = splice a (x ++ y) l.
Proof.
  intros Hl. apply list_eq. intros i. rewrite !lookup_splice; rewrite ?length_splice, ?length_app; try lia.
  repeat case_decide; try lia; try done.
  - rewrite lookup_app_r by lia. f_equal. lia.
  - rewrite lookup_app_l by lia. done.
Qed.

Section live.
Context {TG : Target} {SC : Syscall} {SL : SyscallLaws SC}.
Abbreviation P := PAGE_SIZE.
Implicit Types d : LiveDisk.

(** Pages fit in 32 bits, the image is whole pages and can be mapped, and the
    overlay has whole blocks. *)
Record live_ok d : Prop := {
  lo_page : PAGE_SIZE < 2 ^ 32;
  lo_pages : (PAGE_SIZE | zlen (original d));
  lo_len : zlen (original d) < 2 ^ (usize_bits - 1);
  lo_blocks : forall b o, overlay d !! b = Some o -> zlen o = PAGE_SIZE
}.

Definition block_at d (b : Z) : list u8 := default (range (b * P) P (original d)) (overlay d !! b).
Definition live_image d : list u8 := concat (block_at d <$> seqZ 0 (zlen (original d) / P)).

Lemma P_pos : 0 < P.
Proof. apply page_size_pos. Qed.

Lemma half_usize : 2 ^ (usize_bits - 1) <= 2 ^ 63 /\ 2 ^ (usize_bits - 1) * 2 = usize_mod.
Proof. unfold usize_mod. destruct usize_bits_ok as [-> | ->]; split; try done; lia. Qed.

Lemma pages d : live_ok d -> exists n, 0 <= n /\ zlen (original d) = n * P /\ zlen (original d) / P = n.
Proof.
  intros [_ [n Hn] _ _]. pose proof P_pos. exists n. rewrite Hn, Z.div_mul by lia. split; [unfold zlen in *; nia | done].
Qed.

Lemma length_block d b : live_ok d -> 0 <= b < zlen (original d) / P -> zlen (block_at d b) = P.
Proof.
  intros Hd Hb. pose proof P_pos. destruct (pages d Hd) as (n & _ & Hn & E). unfold block_at.
  destruct (overlay d !! b) as [o |] eqn:Eo; cbn; [by apply (lo_blocks d Hd b) |]. apply length_range; nia.
Qed.

Lemma length_live_image d : live_ok d -> zlen (live_image d) = zlen (original d).
Proof.
  intros Hd. destruct (pages d Hd) as (n & Hn & Hl & E). unfold live_image. rewrite (length_blocks P); [lia | lia |].
  intros b Hb. apply length_block; [done | lia].
Qed.

Lemma divide_len (x : list u8) : (P | zlen x) -> exists k, zlen x = Z.of_nat k * P.
Proof. intros [k Hk]. pose proof P_pos. exists (Z.to_nat k). unfold zlen in *. rewrite Z2Nat.id by nia. lia. Qed.

Lemma peel k (x : list u8) : zlen x = Z.of_nat (Datatypes.S k) * P ->
  exists y z, x = y ++ z /\ length y = Z.to_nat P /\ zlen y = P /\ zlen z = Z.of_nat k * P.
Proof.
  intros Hx. pose proof P_pos. unfold zlen in *. exists (take (Z.to_nat P) x), (drop (Z.to_nat P) x).
  rewrite take_drop, length_take, length_drop. split; [done |]. nia.
Qed.

Lemma check_range_fits d b len :
  live_ok d -> 0 <= b -> 0 <= len -> b * P + len <= zlen (original d) -> check_range b len d = (Ok (b * P), d).
Proof.
  intros Hd Hb Hl Hf. pose proof P_pos. pose proof (lo_len d Hd). pose proof half_usize.
  unfold check_range, block_offset, as_usize, mbind, M_bind, gets, fail_if, usize_add. rewrite Z.mod_small by nia.
  rewrite arith_ok by (unfold usize_mod in *; nia). rewrite arith_ok by (unfold usize_mod in *; nia).
  by rewrite (proj2 (Z.ltb_ge _ _)) by lia.
Qed.

(** ** Reads *)

Lemma read_chunks_blocks k d b buf :
  live_ok d -> 0 <= b -> zlen buf = Z.of_nat k * P -> (b + Z.of_nat k) * P <= zlen (original d) ->
  read_chunks (pieces (Z.to_nat P) buf) b (b * P) d = (Ok (concat (block_at d <$> seqZ b (Z.of_nat k))), d).
Proof.
  intros Hd. pose proof P_pos as Hp. pose proof (lo_len d Hd) as Hlen. pose proof half_usize as [Hu1 Hu2].
  revert b buf. induction k as [| k IH]; intros b buf Hb Hbuf Hfit.
  - assert (buf = []) as -> by (destruct buf; [done | unfold zlen in Hbuf; cbn in Hbuf; lia]). by rewrite pieces_nil by lia.
  - destruct (peel k buf Hbuf) as (x & y & -> & Hx & Hzx & Hy). rewrite pieces_cons by lia. cbn [read_chunks].
    assert (b * P + P <= zlen (original d)) as Hfit1.
    { assert (P <= Z.of_nat (Datatypes.S k) * P) by nia. lia. }
    assert (0 <= b * P) by nia.
    assert (zlen (block_at d b) = P) as Hbl.
    { destruct (pages d Hd) as (n & _ & Hn & E). apply length_block; [done | nia]. }
    assert ((match overlay d !! b with
             | Some o => index_range 0 (zlen x) o
             | None => e ← usize_add (b * P) (zlen x); index_range (b * P) e (original d)
             end : M LiveDisk (list u8)) d = (Ok (block_at d b), d)) as Hdata.
    { unfold block_at in *. rewrite Hzx. destruct (overlay d !! b) as [o |]; cbn [default from_option] in *.
      - unfold index_range, get_range. change (id o) with o in Hbl |- *. rewrite Hbl, Z.leb_refl. rewrite (proj2 (Z.leb_le 0 P)) by lia. cbn [andb unwrap].
        rewrite Z.sub_0_r, drop_0, take_ge by (unfold zlen in *; lia). done.
      - unfold mbind, M_bind, usize_add. rewrite arith_ok by (unfold usize_mod in *; nia).
        unfold index_range, get_range. rewrite (proj2 (Z.leb_le (b * P) _)), (proj2 (Z.leb_le (b * P + P) _)) by lia. cbn [andb unwrap].
        by replace (b * P + P - b * P) with P by lia. }
    rewrite gets_bind. change (id d) with d. unfold mbind at 1, M_bind at 1. rewrite Hdata.
    unfold mbind at 1, M_bind at 1. rewrite arith_ok by nia. unfold mbind at 1, M_bind at 1, usize_add.
    rewrite arith_ok by (unfold usize_mod in *; nia). unfold mbind, M_bind. replace (b * P + P) with ((b + 1) * P) by lia.
    rewrite IH by (done || lia). rewrite (seqZ_cons b) by lia. replace (Z.pred (Z.of_nat (Datatypes.S k))) with (Z.of_nat k) by lia.
    done.
Qed.

Lemma live_read_blocks d b buf :
  live_ok d -> 0 <= b -> (P | zlen buf) -> b * P + zlen buf <= zlen (live_image d) ->
  live_read b buf d = (Ok (zlen buf, range (b * P) (zlen buf) (live_image d)), d).
Proof.
  intros Hd Hb Hdiv. rewrite length_live_image by done. intros Hfit. destruct (divide_len buf Hdiv) as [k Hk].
  destruct (pages d Hd) as (n & Hn & Hl & E). pose proof P_pos. unfold live_read, mbind, M_bind.
  rewrite check_range_fits by (done || unfold zlen in *; lia). rewrite (read_chunks_blocks k) by (done || lia).
  unfold live_image. rewrite Hk. rewrite (range_blocks P); [done | lia | lia | nia |].
  intros i Hi. by apply length_block.
Qed.

Lemma read_chunks_pure cs b o : pure_m (read_chunks cs b o).
Proof.
  apply pure_m_wp. revert b o. induction cs as [| c cs IH]; intros b o d; cbn [read_chunks]; [by apply wp_ret |].
  apply wp_bind, wp_gets, wp_bind. change (id d) with d.
  match goal with |- wp ?m _ _ => assert (wp m (fun _ s' => s' = d) d) as Hm end.
  { unfold index_range. destruct (overlay d !! b); [by apply wp_unwrap |]. apply wp_bind, wp_arith; intros; try done; by apply wp_unwrap. }
  eapply wp_mono; [| exact Hm]. intros [x | e |] s ->; try done.
  apply wp_bind, wp_arith; intros; try done; (apply wp_bind, wp_arith; intros; try done);
    (apply wp_bind; eapply wp_mono; [| apply IH]; by intros [] s ->).
Qed.

Lemma live_read_pure b buf : pure_m (live_read b buf).
Proof.
  apply pure_m_wp. intros d. unfold live_read. apply wp_bind.
  assert (wp (check_range b (zlen buf)) (fun _ s' => s' = d) d) as Hc.
  { unfold check_range, block_offset. repeat (wp_step; try done). }
  eapply wp_mono; [| exact Hc]. intros [o | e |] s ->; try done. apply wp_bind. unfold wp at 1. rewrite read_chunks_pure.
  by destruct (read_chunks _ _ _ _).1.
Qed.
(** ** Writes *)

Definition put_block (b : Z) (x : list u8) d : LiveDisk := set_overlay (<[b := x]> (overlay d)) d.

Lemma live_ok_put d b x : live_ok d -> zlen x = P -> live_ok (put_block b x d).
Proof.
  intros [H1 H2 H3 H4] Hx. split; try done. cbn. intros c o [[_ <-] | [_ Ho]]%lookup_insert_Some; [done | by apply (H4 c)].
Qed.

Lemma put_put b x y d : put_block b x (put_block b y d) = put_block b x d.
Proof. unfold put_block, set_overlay. cbn. by rewrite insert_insert_eq. Qed.

Lemma live_image_put d b x : live_ok d -> 0 <= b < zlen (original d) / P -> zlen x = P ->
  live_image (put_block b x d) = splice (Z.to_nat (b * P)) x (live_image d).
Proof.
  intros Hd Hb Hx. unfold live_image. apply (splice_blocks P (block_at d)); [done | intros; by apply length_block | | done |].
  - unfold block_at. cbn. by rewrite lookup_insert_eq.
  - intros i _ Hne. unfold block_at. cbn. by rewrite lookup_insert_ne.
Qed.

(** One turn of the loop: the block is replaced. *)
Lemma overlay_block_fits d b :
  live_ok d -> 0 <= b -> b * P + P <= zlen (original d) ->
  exists d1, overlay_block b d = (Ok (block_at d b), d1) /\ (d1 = d \/ d1 = put_block b (block_at d b) d).
Proof.
  intros Hd Hb Hfit. pose proof P_pos. pose proof (lo_len d Hd). pose proof half_usize as [Hu1 Hu2].
  unfold overlay_block, block_at. rewrite gets_bind. change (id d) with d. destruct (overlay d !! b) as [o |]; cbn [default from_option].
  - exists d. split; [done | by left].
  - eexists. split; [| right; reflexivity]. unfold block_offset, as_usize, usize_add, index_range, get_range, mbind, M_bind.
    rewrite Z.mod_small by (unfold usize_mod in *; nia). rewrite arith_ok by (unfold usize_mod in *; nia).
    rewrite arith_ok by (unfold usize_mod in *; nia).
    rewrite (proj2 (Z.leb_le (b * P) _)), (proj2 (Z.leb_le (b * P + P) _)) by lia. cbn [andb unwrap].
    by replace (b * P + P - b * P) with P by lia.
Qed.

Lemma write_chunks_blocks k d b buf :
  live_ok d -> 0 <= b -> zlen buf = Z.of_nat k * P -> (b + Z.of_nat k) * P <= zlen (original d) ->
  wp (write_chunks (pieces (Z.to_nat P) buf) b (b * P)) (fun o d' =>
    o = Ok tt /\ live_image d' = splice (Z.to_nat (b * P)) buf (live_image d)) d.
Proof.
  revert d b buf. induction k as [| k IH]; intros d b buf Hd Hb Hbuf Hfit; pose proof P_pos as Hp;
    pose proof (lo_len d Hd) as Hlen; pose proof half_usize as [Hu1 Hu2].
  - assert (buf = []) as -> by (destruct buf; [done | unfold zlen in Hbuf; cbn in Hbuf; lia]). rewrite pieces_nil by lia.
    apply wp_ret. split; [done |]. unfold splice. by rewrite app_nil_l, Nat.add_0_r, take_drop.
  - destruct (peel k buf Hbuf) as (x & y & -> & Hx & Hzx & Hy). rewrite pieces_cons by lia. cbn [write_chunks].
    assert (b * P + P <= zlen (original d)) as Hfit1.
    { assert (P <= Z.of_nat (Datatypes.S k) * P) by nia. lia. }
    assert (0 <= b * P) by nia. destruct (pages d Hd) as (n & Hn & Hl & E). assert (0 <= b < zlen (original d) / P) as Hbn by nia.
    pose proof (length_block d b Hd Hbn) as Hbl. destruct (overlay_block_fits d b Hd Hb Hfit1) as (d1 & Ho & Hd1).
    apply wp_bind. unfold wp at 1. rewrite Ho. cbn [fst snd]. rewrite Hbl, Hzx, Z.ltb_irrefl.
    assert (copy_prefix (length x) x (block_at d b) = x) as ->.
    { unfold copy_prefix. rewrite take_ge, drop_ge by (unfold zlen in *; lia). by rewrite app_nil_r. }
    apply wp_bind, wp_modify. change (set_overlay (<[b:=x]> (overlay d1)) d1) with (put_block b x d1).
    assert (put_block b x d1 = put_block b x d) as -> by (destruct Hd1 as [-> | ->]; [done | apply put_put]).
    apply wp_bind, wp_arith; intros; [| nia | nia]. apply wp_bind, wp_arith; intros; [| unfold usize_mod in *; nia | unfold usize_mod in *; nia].
    replace (b * P + P) with ((b + 1) * P) by lia. pose proof (live_ok_put d b x Hd Hzx) as Hd'.
    eapply wp_mono; [| apply (IH (put_block b x d)); [done | lia | done | cbn; lia]].
    intros o d' [-> ->]. split; [done |]. rewrite live_image_put by done.
    pose proof (length_live_image d Hd) as Hli. unfold zlen in *.
    replace (Z.to_nat ((b + 1) * P)) with (Z.to_nat (b * P) + length x)%nat by lia. apply splice_splice. nia.
Qed.

Lemma live_write_blocks d b buf :
  live_ok d -> 0 <= b -> (P | zlen buf) -> b * P + zlen buf <= zlen (live_image d) ->
  wp (live_write b buf) (fun o d' => o = Ok (zlen buf) /\ live_image d' = splice (Z.to_nat (b * P)) buf (live_image d)) d.
Proof.
  intros Hd Hb Hdiv. rewrite length_live_image by done. intros Hfit. destruct (divide_len buf Hdiv) as [k Hk].
  unfold live_write. apply wp_bind. unfold wp at 1. rewrite check_range_fits by (done || unfold zlen in *; lia). cbn [fst snd].
  apply wp_bind. eapply wp_mono; [| apply (write_chunks_blocks k); [done | done | done | lia]].
  intros o d' [-> H]. by apply wp_ret.
Qed.

(** Whatever is written, the disk stays well-formed. *)
Definition kept d d' : Prop := live_ok d' /\ original d' = original d.

Lemma overlay_block_keeps b d : live_ok d -> wp (overlay_block b) (fun o d' => kept d d' /\ forall l, o = Ok l -> zlen l = P) d.
Proof.
  intros Hd. unfold overlay_block. apply wp_bind, wp_gets. change (id d) with d. destruct (overlay d !! b) as [o |] eqn:Eo.
  { apply wp_ret. split; [done |]. intros l [= <-]. by apply (lo_blocks d Hd b). }
  apply wp_bind. assert (wp (block_offset b) (fun o d' => d' = d /\ forall x, o = Ok x -> 0 <= x < usize_mod) d) as Hoff.
  { unfold block_offset. apply wp_arith; intros; (split; [done |]); intros x [= <-]; [done |].
    apply Z.mod_pos_bound. pose proof usize_mod_ge. lia. }
  eapply wp_mono; [| exact Hoff]. intros [x | e |] d' [-> Hx]; try done. specialize (Hx x eq_refl).
  pose proof P_pos. pose proof (lo_page d Hd). pose proof usize_mod_ge.
  apply wp_bind, wp_arith; intros; [| done |].
  - apply wp_bind. unfold index_range. apply wp_unwrap; [intros l Hl | done]. apply get_range_Some in Hl as [Hr ->].
    apply wp_bind, wp_modify, wp_ret. assert (zlen (range x P (original d)) = P) as Hz by (apply length_range; lia).
    unfold range in Hz. replace (x + P - x) with P by lia. split; [| by intros l [= <-]]. split; [by apply live_ok_put | done].
  - apply wp_bind. unfold index_range. apply wp_unwrap; [intros l Hl | done]. exfalso. apply get_range_Some in Hl as [[Hr _] _].
    assert ((x + P) mod 2 ^ usize_bits = x + P - usize_mod) as Hm.
    { unfold usize_mod in *. symmetry. apply (Z.mod_unique_pos _ _ 1); lia. }
    rewrite Hm in Hr. lia.
Qed.

Lemma write_chunks_keeps cs b o d : live_ok d -> wp (write_chunks cs b o) (fun r d' => r <> Panic -> kept d d') d.
Proof.
  revert b o d. induction cs as [| c cs IH]; intros b o d Hd; cbn [write_chunks]; [by apply wp_ret |].
  apply wp_bind. eapply wp_mono; [| by apply overlay_block_keeps]. intros [l | e |] d1 [[Hd1 Ho1] Hl]; [| done | done].
  specialize (Hl l eq_refl). apply wp_bind. destruct (zlen l <? zlen c) eqn:El; [by apply wp_panic |].
  apply wp_modify. change (set_overlay _ d1) with (put_block b (copy_prefix (length c) c l) d1).
  assert (live_ok (put_block b (copy_prefix (length c) c l) d1)) as Hd2.
  { apply live_ok_put; [done |]. unfold zlen in *. rewrite length_copy_prefix; lia. }
  apply wp_bind, wp_arith; intros; try done; (apply wp_bind, wp_arith; intros; try done);
    (eapply wp_mono; [| by apply IH]); intros r d' K Hr; (destruct (K Hr) as [? Ho]; split; [done | by rewrite Ho]).
Qed.

Lemma live_write_keeps b buf d : live_ok d -> wp (live_write b buf) (fun r d' => r <> Panic -> kept d d') d.
Proof.
  intros Hd. unfold live_write. apply wp_bind.
  assert (wp (check_range b (zlen buf)) (fun _ d' => d' = d) d) as Hc.
  { unfold check_range, block_offset. repeat (wp_step; try done). }
  eapply wp_mono; [| exact Hc]. intros [o | e |] d' ->; [| done | done].
  apply wp_bind. eapply wp_mono; [| by apply write_chunks_keeps]. intros [u | e |] d' H; [apply wp_ret | |]; intros Hne; apply H; done || exact Hne.
Qed.

Lemma page_size_live d : live_ok d -> d_block_size d = P.
Proof. intros Hd. cbn. pose proof P_pos. pose proof (lo_page d Hd). apply Z.mod_small. lia. Qed.

#[export] Instance live_disk_image : DiskImage LiveDisk.
Proof.
  refine {| d_ok := live_ok; image := live_image |}; intros d.
  - intros Hd. rewrite page_size_live by done. apply P_pos.
  - intros Hd. by rewrite length_live_image.
  - intros Hd. rewrite page_size_live, length_live_image by done. apply (lo_pages d Hd).
  - intros Hd. rewrite length_live_image by done. pose proof (lo_len d Hd). pose proof half_usize. lia.
  - intros b buf Hd _. change (d_read b buf) with (live_read b buf). unfold wp. by rewrite live_read_pure.
  - intros b buf Hd Hb. rewrite page_size_live by done. intros Hdiv Hfit. change (d_read b buf) with (live_read b buf).
    by rewrite live_read_blocks.
  - intros b buf Hd _. change (d_write b buf) with (live_write b buf). eapply wp_mono; [| by apply live_write_keeps].
    intros o d' H Ho. destruct (H Ho) as [Hd' Horig]. split; [done |]. rewrite !page_size_live, !length_live_image by done.
    by rewrite Horig.
  - intros b buf Hd Hb. rewrite page_size_live by done. intros Hdiv Hfit. change (d_write b buf) with (live_write b buf).
    by apply live_write_blocks.
  - intros Hd. by apply wp_ret.
Defined.
End live.
