(* ===== verification/DiskWitness.v ===== *)
(** * A live disk with two partitions

    A live disk of six small pages that begins with a master boot record, served
    by a disk scheme; and the defects that the model showed. *)

From stdpp Require Import base gmap strings list fin_maps.
From Stdlib Require Import ZArith Lia.
From Stdlib Require Import Strings.Byte.
From S2P Require Import Prelude Syscall Disk DiskScheme LiveDisk DiskFacts DiskSchemeFacts LiveDiskFacts.

Local Open Scope Z_scope.

(** ** The parameters *)

(** The published constants, with small pages *)
Definition small_pages : Syscall := {|
  O_RDONLY := 0x00010000; O_WRONLY := 0x00020000; O_RDWR := 0x00030000;
  O_ACCMODE := 0x00030000; O_NONBLOCK := 0x00040000;
  O_CREAT := 0x02000000; O_EXCL := 0x08000000; O_TRUNC := 0x04000000;
  O_DIRECTORY := 0x10000000; O_STAT := 0x20000000;
  MODE_TYPE := 0xF000; MODE_DIR := 0x4000; MODE_FILE := 0x8000;
  MODE_CHR := 0x2000; MODE_SOCK := 0xC000; MODE_PERM := 0x0FFF;
  F_GETFL := 3; F_SETFL := 4; AT_REMOVEDIR := 0x200;
  EVENT_READ := 1; EVENT_WRITE := 2; PAGE_SIZE := 512;
  st_ino_bits := 64; st_nlink_bits := 32; st_time_bits := 64; st_nsec_bits := 32
|}.

Lemma small_pages_laws : SyscallLaws small_pages.
Proof. split; vm_compute; congruence. Qed.

#[local] Existing Instance small_pages.
#[local] Existing Instance small_pages_laws.
#[local] Existing Instance x86_64_release.

(** A reader of GPT headers that looks for the signature in the second block *)
Definition efi_part : list u8 := as_bytes "EFI PART".
#[local] Instance demo_gpt : Gpt := {|
  Uuid := unit;
  GptHeader := unit;
  read_header_from_arbitrary_device D RS bs :=
    rs_seek (Start (match bs with Lb512 => 512 | Lb4096 => 4096 end));;
    '(n, l) ← rs_read (replicate 8 x00);
    if bool_decide (l = efi_part) then mret tt else throw io_error;
  file_read_partitions D RS _ _ := mret []
|}.

#[local] Instance demo_gpt_laws : GptLaws demo_gpt.
Proof.
  split; [| by intros D RS I h bs _ _ s Hs].
  intros D RS I bs Hr Hs s Hi. cbn. apply wp_bind. eapply wp_mono; [| apply Hs; [by destruct bs | done]].
  intros [n | e |] s1 H1; [| done | done]. apply wp_bind. eapply wp_mono; [| by apply Hr].
  intros [[m l] | e |] s2 H2; [| done | done]. by case_bool_decide.
Qed.

#[local] Instance demo_scroll : Scroll := {| pread_with l := if (length l =? 512)%nat then Some (header_at l) else None |}.
#[local] Instance demo_scroll_laws : ScrollLaws demo_scroll.
Proof. split. intros l Hl. cbn. by rewrite Hl. Qed.

(** ** The disk *)

Definition part_entry (start len : Z) : Entry :=
  {| drive_attrs := x00; start_head := x00; start_cs := 0; sys_id := x83; end_head := x00; end_cs := 0;
     rel_sector := start; entry_len := len |}.
Definition no_entry : Entry := part_entry 0 0.
Definition demo_header : Header :=
  {| bootstrap := replicate 446 xfa; first_entry := part_entry 1 2; second_entry := no_entry;
     third_entry := part_entry 3 2; fourth_entry := no_entry; last_signature := 0xAA55 |}.

(** Blocks of ones, of twos, .. *)
Definition demo_data : list u8 := concat ((fun i => replicate 512 (byte_of_Z (Z.of_nat i))) <$> seq 1 5).
Definition demo_disk : LiveDisk := {| original := header_bytes demo_header ++ demo_data; overlay := ∅ |}.

Definition nothing : DiskScheme LiveDisk := {| scheme_name := ""; disks := ∅; handles := ∅; next_id := 0 |}.
Definition demo_start : DiskScheme LiveDisk :=
  match DiskScheme_new 1 true "disk.live" [(0, demo_disk)] with Ok s => s | _ => nothing end.

Lemma demo_disk_ok : live_ok demo_disk.
Proof.
  split; try done.
  - exists 6. vm_compute. reflexivity.
Qed.

Lemma demo_image : image demo_disk = header_bytes demo_header ++ demo_data.
Proof. vm_compute. reflexivity. Qed.

Lemma demo_header_in_range : header_in_range demo_header.
Proof. split; try done; split; cbn; lia. Qed.

Lemma demo_no_gpt bs :
  is_ok (get_gpt_partitions bs {| dev_disk := demo_disk; dev_offset := 0 |}).1 = false /\
  (get_gpt_partitions bs {| dev_disk := demo_disk; dev_offset := 0 |}).1 <> Panic.
Proof.
  assert ((get_gpt_partitions bs {| dev_disk := demo_disk; dev_offset := 0 |}).1 =
    Err (match bs with Lb512 => io_error | Lb4096 => EOVERFLOW end)) as -> by (destruct bs; vm_compute; reflexivity).
  by destruct bs.
Qed.


Example demo_table : map (fun p => (start_lba p, psize p)) (partitions (mbr_table demo_header)) = [(1, 2); (3, 2)].
Proof. reflexivity. Qed.

(** Bytes that are not aligned to blocks *)
Definition demo_device : Device LiveDisk := {| dev_disk := demo_disk; dev_offset := 1000 |}.

Lemma device_read_bytes_witness :
  wp (device_read (replicate 700 x00)) (fun o v' => image (dev_disk v') = image demo_disk /\
    o = Ok (700, range 1000 700 (image demo_disk)) /\ dev_offset v' = 1700) demo_device.
Proof.
  assert (wp (device_read (replicate 700 x00)) (fun o v' => image (dev_disk v') = image demo_disk /\
    if (length (replicate 700 x00) =? 0)%nat || (1000 + zlen (replicate 700 x00) <=? zlen (image demo_disk)) then
      o = Ok (700, range 1000 700 (image demo_disk)) /\ dev_offset v' = 1700
    else o = Err EOVERFLOW /\ dev_offset v' = 1000) demo_device) as H.
  { apply (device_read_bytes demo_device (replicate 700 x00)); [exact demo_disk_ok | by vm_compute | by vm_compute | by vm_compute]. }
  assert ((length (replicate 700 x00) =? 0)%nat || (1000 + zlen (replicate 700 x00) <=? zlen (image demo_disk)) = true) as E
    by (vm_compute; reflexivity).
  rewrite E in H. exact H.
Defined.

(** ** The scheme *)

Lemma lookup_two {A} (x y : A) n a : [x; y] !! n = Some a -> (n = 0%nat /\ a = x) \/ (n = 1%nat /\ a = y).
Proof. destruct n as [| [| n]]; [intros [= <-]; by left | intros [= <-]; by right | done]. Qed.

Lemma demo_started : started demo_start.
Proof.
  destruct (wrapper_new_mbr 1 demo_disk demo_header demo_data) as (d & Hd & Hok & _ & Himg);
    [lia | exact demo_disk_ok | by left | exact demo_header_in_range | exact demo_image | exact demo_no_gpt |].
  assert (demo_start = {| scheme_name := "disk.live"; disks := {[0 := {| disk := d; pt := Some (mbr_table demo_header) |}]};
    handles := ∅; next_id := 0 |}) as ->.
  { unfold demo_start, DiskScheme_new. cbn [String.prefix negb]. cbn -[DiskWrapper_new demo_disk]. by rewrite Hd. }
  split; [done |]. split; [done |]. cbn. intros k w [<- <-]%lookup_singleton_Some.
  assert (forall p a, part_at {| disk := d; pt := Some (mbr_table demo_header) |} p = Some a ->
    (Z.to_nat p = 0%nat /\ start_lba a = 1 /\ psize a = 2) \/ (Z.to_nat p = 1%nat /\ start_lba a = 3 /\ psize a = 2)) as Hp.
  { assert (partitions (mbr_table demo_header) = [mbr_partition (part_entry 1 2); mbr_partition (part_entry 3 2)]) as Ht
      by (vm_compute; reflexivity).
    intros p a. unfold part_at. cbn [pt mbind option_bind]. rewrite Ht.
    intros [[H ->] | [H ->]]%lookup_two; [left | right]; (split; [exact H | split; reflexivity]). }
  assert (zlen (image d) = 3072) as Hlen by (rewrite Himg; by vm_compute).
  split; [split; [exact Hok |] |].
  - intros p a Ha. unfold bytes, bsize. cbn [disk]. rewrite Hlen, (page_size_live d Hok).
    change PAGE_SIZE with 512. destruct (Hp p a Ha) as [(_ & -> & ->) | (_ & -> & ->)]; lia.
  - intros p q a b Hp0 Hq0 Hne Ha Hb. destruct (Hp p a Ha) as [(? & -> & ->) | (? & -> & ->)], (Hp q b Hb) as [(? & -> & ->) | (? & -> & ->)]; lia.
Qed.

(** ** A run *)

Definition may (r : Request) (s : DiskScheme LiveDisk) : bool :=
  match r with
  | R_call (C_open _ _ _) => next_id s + 1 <? usize_mod
  | R_call (C_read _ _ off) | R_call (C_write _ _ off) => (0 <=? off) && (off <? 2 ^ 64)
  | _ => true
  end.
Definition insideb (r : Request) (s : DiskScheme LiveDisk) : bool :=
  match r with
  | R_call (C_write i buf off) =>
      match view s i, file s i with
      | Some (w, pn), Some c => negb (accepted (bsize w) (zlen c) pn (off / bsize w) (zlen buf)) ||
          (off / bsize w * bsize w + zlen buf <=? zlen c)
      | _, _ => true
      end
  | _ => true
  end.
Definition closes (i : Z) (r : Request) : bool := match r with R_close j => j =? i | _ => false end.

Lemma disk_may_admissible r s : may r s = true -> admissible r s.
Proof. unfold may, admissible. destruct r as [[] | | | | | | |]; try done; lia. Qed.

Lemma insideb_contained r s : insideb r s = true -> contained r s.
Proof.
  destruct r as [[| | | | | i buf off | |] | | | | | | |]; try done.
  cbn [insideb contained]. intros H w pn c Hv Hf. rewrite Hv, Hf in H. unfold inside. intros Ha. rewrite Ha in H.
  cbn [negb orb] in H. lia.
Qed.

(** The requests of a run, if all of them are served *)
Fixpoint play (l : list Request) (i : Z) (s : DiskScheme LiveDisk) : option (DiskScheme LiveDisk) :=
  match l with
  | [] => Some s
  | r :: l =>
      if may r s && insideb r s && negb (closes i r) then
        match request r s with (Ok _, s) => play l i s | _ => None end
      else None
  end.

Lemma disk_play_serves l i s s' : play l i s = Some s' -> serves l i s s'.
Proof.
  revert s. induction l as [| r l IH]; intros s; cbn; [by intros [= ->] |].
  destruct (may r s && insideb r s && negb (closes i r)) eqn:E; [| done]. destruct (request r s) as [[o | e |] s1] eqn:Er; try done.
  apply andb_true_iff in E as [[E1 E2]%andb_true_iff E3]. intros H. split_and!.
  - by apply disk_may_admissible.
  - by apply insideb_contained.
  - intros ->. cbn in E3. by rewrite Z.eqb_refl in E3.
  - exists o, s1. split; [done | by apply IH].
Qed.

Lemma disk_serves_reachable l i s s' : reachable s -> serves l i s s' -> reachable s'.
Proof.
  revert s. induction l as [| r l IH]; intros s Hr Hl; cbn in Hl; [by subst |].
  destruct Hl as (Ha & _ & _ & o & s1 & Hreq & Hl). apply (IH s1); [| done]. destruct Hr as (s0 & H0 & Hs). exists s0. split; [done |].
  apply (rtc_r _ s); [done |]. by exists r, o.
Qed.

Definition root_ctx : CallerCtx := {| ctx_pid := 1; ctx_uid := 0; ctx_gid := 0; ctx_id := 0 |}.
Definition opens (path : string) : Request := R_call (C_open path 0 root_ctx).
Definition writes (i : Z) (b : u8) (n : nat) (off : Z) : Request := R_call (C_write i (replicate n b) off).

(** Both partitions are opened. *)
Definition demo_setup : list Request := [opens "0p0"; opens "/0p1"].
Definition demo : DiskScheme LiveDisk := default nothing (play demo_setup (-1) demo_start).

Lemma is_Some_default {A} (o : option A) d : bool_decide (is_Some o) = true -> o = Some (default d o).
Proof. by destruct o. Qed.

Lemma demo_disk_played : play demo_setup (-1) demo_start = Some demo.
Proof. apply is_Some_default. vm_compute. reflexivity. Qed.

Lemma demo_disk_reachable : reachable demo.
Proof.
  apply (disk_serves_reachable demo_setup (-1) demo_start); [| apply disk_play_serves; exact demo_disk_played].
  exists demo_start. split; [exact demo_started | apply rtc_refl].
Qed.

(** The second block of the first partition, the whole of the second, a write
    that is refused, a write to the first block *)
Definition demo_run : list Request :=
  [writes 0 xaa 512 512; writes 1 xbb 1024 0; writes 0 xcc 100 0; opens "0"; writes 0 xdd 512 0; R_close 1].
Definition demo_end : DiskScheme LiveDisk := default nothing (play demo_run 0 demo).

Lemma demo_disk_run_played : play demo_run 0 demo = Some demo_end.
Proof. apply is_Some_default. vm_compute. reflexivity. Qed.

Definition demo_file : list u8 := replicate 512 x01 ++ replicate 512 x02.

Lemma demo_file_at : file demo 0 = Some demo_file.
Proof. vm_compute. reflexivity. Qed.

Lemma demo_contents : contents demo_run 0 demo demo_file = replicate 512 xdd ++ replicate 512 xaa.
Proof. vm_compute. reflexivity. Qed.

Definition view_block_size (o : option (DiskWrapper LiveDisk * option Z)) : option (Z * option Z) :=
  '(w, pn) ← o; Some (bsize w, pn).

Lemma demo_view_end : exists w, view demo_end 0 = Some (w, Some 0) /\ bsize w = 512.
Proof.
  assert (view_block_size (view demo_end 0) = Some (512, Some 0)) as H by (vm_compute; reflexivity).
  destruct (view demo_end 0) as [[w pn] |]; [| done]. exists w. cbn in H. injection H as ->. split; reflexivity.
Qed.


Lemma disk_locks_witness :
  (forall i h, handles demo !! i = Some h -> names demo h) /\
  forall i j h1 h2, i <> j -> handles demo !! i = Some h1 -> handles demo !! j = Some h2 -> compatible h1 h2.
Proof. apply (disk_locks demo). exact demo_disk_reachable. Defined.

Example demo_locked :
  (open "0" 0 root_ctx demo).1 = Err ENOLCK /\ (open "0p1" 0 root_ctx demo).1 = Err ENOLCK /\
  (open "0p2" 0 root_ctx demo).1 = Err ENOENT /\ (fsize 0 demo).1 = Ok 1024.
Proof. vm_compute. repeat split. Qed.

Example demo_listing : (open "" O_DIRECTORY root_ctx demo).2.(handles) !! 2 = Some (List_ (as_bytes "0
0p0
0p1
")).
Proof. vm_compute. reflexivity. Qed.

(** ** Defects *)

(** A write of two blocks at the last block of the first partition is
    accepted, and the second of them lands in the second partition. *)
Lemma partition_write_escapes :
  (write 0 (replicate 1024 xee) 512 demo).1 = Ok 1024 /\
  (take 4 <$> file demo 1) = Some [x03; x03; x03; x03] /\
  (take 4 <$> file (write 0 (replicate 1024 xee) 512 demo).2 1) = Some [xee; xee; xee; xee].
Proof. vm_compute. repeat split. Qed.

(** So does a read. *)
Lemma partition_read_escapes :
  match (read 0 (replicate 1024 x00) 512 demo).1 with Ok (n, l) => Some (n, nth 512 l x00) | _ => None end = Some (1024, x03).
Proof. vm_compute. reflexivity. Qed.

(** A write at an offset inside a block replaces the block from its start. *)
Lemma unaligned_write_rounds_down :
  (write 0 (replicate 512 xee) 100 demo).1 = Ok 512 /\
  (take 2 <$> file (write 0 (replicate 512 xee) 100 demo).2 0) = Some [xee; xee].
Proof. vm_compute. repeat split. Qed.

(** A path with a character of two bytes before the [p] ends the driver. *)
Definition accent_p : string := String.string_of_list_byte [xc3; xa9; x70; x30].
Lemma accent_path_panics : from_utf8 (as_bytes accent_p) = Some accent_p /\ (open accent_p 0 root_ctx demo).1 = Panic.
Proof. vm_compute. split; reflexivity. Qed.

(** So does a read at the last block of the 64-bit range, through the handle of a
    whole live disk: the end of the range that is checked wraps around. *)
Lemma read_at_top_panics :
  (s ← play [opens "0"] (-1) demo_start; Some (read 0 (replicate 512 x00) (2 ^ 64 - 512) s).1) = Some Panic.
Proof. vm_compute. reflexivity. Qed.
