(* ===== verification/Ninep.v ===== *)
(** * 9P messages

    Models [drivers/fs/virtio-9pd/src/protocol.rs]: the messages of 9P2000.L, how
    requests are built and how replies are parsed.

    Models [drivers/fs/virtio-9pd/src/client.rs]: requests and replies over the
    queue of a virtio device.  The device and the memory it reaches are
    a parameter. *)

From stdpp Require Import base gmap strings list fin_maps.
From Stdlib Require Import ZArith Lia.
From Stdlib Require Import Strings.Byte.
From S2P Require Import Prelude.

Local Open Scope Z_scope.

(** ** Constants *)

Inductive MsgType :=
| Tversion | Rversion | Tauth | Rauth | Tattach | Rattach | Rerror | Tflush | Rflush | Twalk | Rwalk
| Topen | Ropen | Tcreate | Rcreate | Tread | Rread | Twrite | Rwrite | Tclunk | Rclunk | Tremove | Rremove
| Tstat | Rstat | Twstat | Rwstat | Tstatfs | Rstatfs | Tlopen | Rlopen | Tlcreate | Rlcreate
| Tsymlink | Rsymlink | Tmknod | Rmknod | Trename | Rrename | Treadlink | Rreadlink | Tgetattr | Rgetattr
| Tsetattr | Rsetattr | Txattrwalk | Rxattrwalk | Txattrcreate | Rxattrcreate | Treaddir | Rreaddir
| Tfsync | Rfsync | Tlock | Rlock | Tgetlock | Rgetlock | Tlink | Rlink | Tmkdir | Rmkdir
| Trenameat | Rrenameat | Tunlinkat | Runlinkat.

(** [typ as u8] *)
Definition msg_type (t : MsgType) : Z :=
  match t with
  | Tversion => 100 | Rversion => 101 | Tauth => 102 | Rauth => 103 | Tattach => 104 | Rattach => 105
  | Rerror => 107 | Tflush => 108 | Rflush => 109 | Twalk => 110 | Rwalk => 111 | Topen => 112 | Ropen => 113
  | Tcreate => 114 | Rcreate => 115 | Tread => 116 | Rread => 117 | Twrite => 118 | Rwrite => 119
  | Tclunk => 120 | Rclunk => 121 | Tremove => 122 | Rremove => 123 | Tstat => 124 | Rstat => 125
  | Twstat => 126 | Rwstat => 127 | Tstatfs => 8 | Rstatfs => 9 | Tlopen => 12 | Rlopen => 13
  | Tlcreate => 14 | Rlcreate => 15 | Tsymlink => 16 | Rsymlink => 17 | Tmknod => 18 | Rmknod => 19
  | Trename => 20 | Rrename => 21 | Treadlink => 22 | Rreadlink => 23 | Tgetattr => 24 | Rgetattr => 25
  | Tsetattr => 26 | Rsetattr => 27 | Txattrwalk => 30 | Rxattrwalk => 31 | Txattrcreate => 32
  | Rxattrcreate => 33 | Treaddir => 40 | Rreaddir => 41 | Tfsync => 50 | Rfsync => 51 | Tlock => 52
  | Rlock => 53 | Tgetlock => 54 | Rgetlock => 55 | Tlink => 70 | Rlink => 71 | Tmkdir => 72 | Rmkdir => 73
  | Trenameat => 74 | Rrenameat => 75 | Tunlinkat => 76 | Runlinkat => 77
  end.

Definition QID_DIR : Z := 0x80.
Definition QID_SYMLINK : Z := 0x02.
Definition P9_GETATTR_BASIC : Z := 0x7ff.
Definition P9_SETATTR_MODE : Z := 0x1.
Definition P9_SETATTR_UID : Z := 0x2.
Definition P9_SETATTR_GID : Z := 0x4.
Definition P9_SETATTR_SIZE : Z := 0x8.
Definition P9_SETATTR_ATIME_SET : Z := 0x80.
Definition P9_SETATTR_MTIME_SET : Z := 0x100.
Definition P9_RDONLY : Z := 0.
Definition P9_WRONLY : Z := 1.
Definition P9_RDWR : Z := 2.
Definition P9_CREATE : Z := 0x40.
Definition P9_TRUNC : Z := 0x200.
Definition NOFID : Z := 2 ^ 32 - 1.

(** ** Data *)

Record Qid := { q_typ : Z; q_version : Z; q_path : Z }.
Definition QID_SIZE : nat := 13.

(** [Qid::decode]; the length is checked first. *)
Definition Qid_decode (data : list u8) : option Qid :=
  if (length data <? QID_SIZE)%nat then None
  else Some {| q_typ := from_le (take 1 data); q_version := from_le (take 4 (drop 1 data)); q_path := from_le (take 8 (drop 5 data)) |}.

Definition Qid_encode (q : Qid) : list u8 := le_bytes 1 (q_typ q) ++ le_bytes 4 (q_version q) ++ le_bytes 8 (q_path q).

Definition is_dir (q : Qid) : bool := negb (Z.land (q_typ q) QID_DIR =? 0).

Record Header := { h_size : Z; h_typ : Z; h_tag : Z }.
Definition HEADER_SIZE : nat := 7.

Definition Header_new (typ : MsgType) (tag : Z) : Header := {| h_size := 0; h_typ := msg_type typ; h_tag := tag |}.

Definition Header_decode (data : list u8) : option Header :=
  if (length data <? HEADER_SIZE)%nat then None
  else Some {| h_size := from_le (take 4 data); h_typ := from_le (take 1 (drop 4 data)); h_tag := from_le (take 2 (drop 5 data)) |}.

Definition Header_encode (h : Header) : list u8 := le_bytes 4 (h_size h) ++ le_bytes 1 (h_typ h) ++ le_bytes 2 (h_tag h).

(** ** Building requests *)

Record MessageBuilder := { mb_buf : list u8; mb_tag : Z }.

Definition MessageBuilder_new (typ : MsgType) (tag : Z) : MessageBuilder :=
  {| mb_buf := Header_encode (Header_new typ tag); mb_tag := tag |}.

(** [self.buf.extend_from_slice(l)] *)
Definition extend (l : list u8) (b : MessageBuilder) : MessageBuilder := {| mb_buf := mb_buf b ++ l; mb_tag := mb_tag b |}.

Definition put_u8 (v : Z) (b : MessageBuilder) : MessageBuilder := extend (le_bytes 1 v) b.
Definition put_u16 (v : Z) (b : MessageBuilder) : MessageBuilder := extend (le_bytes 2 v) b.
Definition put_u32 (v : Z) (b : MessageBuilder) : MessageBuilder := extend (le_bytes 4 v) b.
Definition put_u64 (v : Z) (b : MessageBuilder) : MessageBuilder := extend (le_bytes 8 v) b.

(** The length is cast to 16 bits, the bytes are all put. *)
Definition put_str (s : string) (b : MessageBuilder) : MessageBuilder :=
  extend (as_bytes s) (extend (le_bytes 2 (zlen (as_bytes s) mod 2 ^ 16)) b).
Definition put_data (data : list u8) (b : MessageBuilder) : MessageBuilder :=
  extend data (extend (le_bytes 4 (zlen data mod 2 ^ 32)) b).
Definition put_qid (q : Qid) (b : MessageBuilder) : MessageBuilder := extend (Qid_encode q) b.

Definition finish (b : MessageBuilder) : list u8 := splice 0 (le_bytes 4 (zlen (mb_buf b) mod 2 ^ 32)) (mb_buf b).

(** ** Parsing replies *)

Record MessageParser := { mp_data : list u8; mp_pos : Z }.

Definition MessageParser_new (data : list u8) : MessageParser := {| mp_data := data; mp_pos := 0 |}.
Definition set_pos (n : Z) (p : MessageParser) : MessageParser := {| mp_data := mp_data p; mp_pos := n |}.

(** A parser that returns [None] *)
Definition no_value : errno := EOther 2.

Section parser.
Context {TG : Target}.

(** [if self.pos + n > self.data.len() { return None }] and the [n] bytes, with the
    position behind them.  A sum that wraps around makes the slice panic. *)
Definition peek_bytes (n : Z) : M MessageParser (list u8 * Z) :=
  p ← gets id;
  e ← usize_add (mp_pos p) n;
  fail_if (zlen (mp_data p) <? e) no_value;;
  l ← unwrap (get_range (mp_pos p) e (mp_data p));
  mret (l, e).

Definition get_bytes (n : Z) : M MessageParser (list u8) :=
  '(l, e) ← peek_bytes n; modify (set_pos e);; mret l.

Definition skip (n : Z) : M MessageParser unit :=
  p ← gets id;
  e ← usize_add (mp_pos p) n;
  fail_if (zlen (mp_data p) <? e) no_value;;
  modify (set_pos e).

(** [self.data[self.pos..]] *)
Definition remaining : M MessageParser (list u8) :=
  p ← gets id; unwrap (get_range (mp_pos p) (zlen (mp_data p)) (mp_data p)).

Definition get_u8 : M MessageParser Z :=
  p ← gets id;
  fail_if (zlen (mp_data p) <=? mp_pos p) no_value;;
  v ← unwrap (mp_data p !! Z.to_nat (mp_pos p));
  e ← usize_add (mp_pos p) 1;
  modify (set_pos e);;
  mret (Z_of_byte v).

Definition get_u16 : M MessageParser Z := l ← get_bytes 2; mret (from_le l).
Definition get_u32 : M MessageParser Z := l ← get_bytes 4; mret (from_le l).
Definition get_u64 : M MessageParser Z := l ← get_bytes 8; mret (from_le l).

Definition get_str : M MessageParser string :=
  len ← get_u16;
  '(l, e) ← peek_bytes len;
  s ← ok_or no_value (from_utf8 l);
  modify (set_pos e);;
  mret s.

Definition get_data : M MessageParser (list u8) := len ← get_u32; get_bytes len.

Definition get_qid : M MessageParser Qid :=
  p ← gets id;
  e ← usize_add (mp_pos p) (Z.of_nat QID_SIZE);
  fail_if (zlen (mp_data p) <? e) no_value;;
  l ← remaining;
  qid ← ok_or no_value (Qid_decode l);
  modify (set_pos e);;
  mret qid.

Definition get_header : M MessageParser Header :=
  p ← gets id;
  e ← usize_add (mp_pos p) (Z.of_nat HEADER_SIZE);
  fail_if (zlen (mp_data p) <? e) no_value;;
  l ← remaining;
  header ← ok_or no_value (Header_decode l);
  modify (set_pos e);;
  mret header.
End parser.

(** ** Replies with a structure *)

Record FileAttr := {
  a_valid : Z; a_qid : Qid; a_mode : Z; a_uid : Z; a_gid : Z; a_nlink : Z; a_rdev : Z; a_size : Z; a_blksize : Z;
  a_blocks : Z; a_atime_sec : Z; a_atime_nsec : Z; a_mtime_sec : Z; a_mtime_nsec : Z; a_ctime_sec : Z;
  a_ctime_nsec : Z; a_btime_sec : Z; a_btime_nsec : Z; a_gen : Z; a_data_version : Z
}.

Record StatFs := {
  f_typ : Z; f_bsize : Z; f_blocks : Z; f_bfree : Z; f_bavail : Z; f_files : Z; f_ffree : Z; f_fsid : Z; f_namelen : Z
}.

(** [DirEntry] *)
Record Dirent := { d_qid : Qid; d_offset : Z; d_typ : Z; d_name : string }.

Section structures.
Context {TG : Target}.

Definition FileAttr_decode : M MessageParser FileAttr :=
  valid ← get_u64; qid ← get_qid; mode ← get_u32; uid ← get_u32; gid ← get_u32; nlink ← get_u64; rdev ← get_u64;
  size ← get_u64; blksize ← get_u64; blocks ← get_u64; atime_sec ← get_u64; atime_nsec ← get_u64;
  mtime_sec ← get_u64; mtime_nsec ← get_u64; ctime_sec ← get_u64; ctime_nsec ← get_u64;
  btime_sec ← get_u64; btime_nsec ← get_u64; gen ← get_u64; data_version ← get_u64;
  mret {| a_valid := valid; a_qid := qid; a_mode := mode; a_uid := uid; a_gid := gid; a_nlink := nlink; a_rdev := rdev;
          a_size := size; a_blksize := blksize; a_blocks := blocks; a_atime_sec := atime_sec; a_atime_nsec := atime_nsec;
          a_mtime_sec := mtime_sec; a_mtime_nsec := mtime_nsec; a_ctime_sec := ctime_sec; a_ctime_nsec := ctime_nsec;
          a_btime_sec := btime_sec; a_btime_nsec := btime_nsec; a_gen := gen; a_data_version := data_version |}.

Definition StatFs_decode : M MessageParser StatFs :=
  typ ← get_u32; bsize ← get_u32; blocks ← get_u64; bfree ← get_u64; bavail ← get_u64; files ← get_u64;
  ffree ← get_u64; fsid ← get_u64; namelen ← get_u32;
  mret {| f_typ := typ; f_bsize := bsize; f_blocks := blocks; f_bfree := bfree; f_bavail := bavail; f_files := files;
          f_ffree := ffree; f_fsid := fsid; f_namelen := namelen |}.

Definition Dirent_decode : M MessageParser Dirent :=
  qid ← get_qid; offset ← get_u64; typ ← get_u8; name ← get_str;
  mret {| d_qid := qid; d_offset := offset; d_typ := typ; d_name := name |}.
End structures.

Definition MSIZE : Z := 131072.
Definition VERSION : string := "9P2000.L".

(** The queue of the device: what is sent, and the size of the zeroed buffer for
    the reply; the number of bytes that the device reports, and the buffer.  It fails when there is no memory or no
    descriptor. *)
Class Queue9p (D : Type) := { exchange : list u8 -> Z -> M D (Z * list u8) }.

Record Client9p (D : Type) := { queue : D; tag_counter : Z; fid_counter : Z; msize : Z }.
Arguments Build_Client9p {D} _ _ _ _.
Arguments queue {D} _.
Arguments tag_counter {D} _.
Arguments fid_counter {D} _.
Arguments msize {D} _.

Definition set_queue {D} (x : D) (c : Client9p D) : Client9p D :=
  {| queue := x; tag_counter := tag_counter c; fid_counter := fid_counter c; msize := msize c |}.
Definition set_tag_counter {D} (x : Z) (c : Client9p D) : Client9p D :=
  {| queue := queue c; tag_counter := x; fid_counter := fid_counter c; msize := msize c |}.
Definition set_fid_counter {D} (x : Z) (c : Client9p D) : Client9p D :=
  {| queue := queue c; tag_counter := tag_counter c; fid_counter := x; msize := msize c |}.

Definition Client9p_new {D} (q : D) : Client9p D := {| queue := q; tag_counter := 1; fid_counter := 1; msize := MSIZE |}.

(** [anyhow!(..)] *)
Definition client_error : errno := EOther 3.

Section client.
Context {TG : Target} {D : Type} {Q9 : Queue9p D}.
Abbreviation C := (M (Client9p D)).

(** [fetch_add(1)], which wraps *)
Definition next_tag : C Z :=
  n ← gets tag_counter; modify (set_tag_counter ((n + 1) mod 2 ^ 16));; mret n.
Definition alloc_fid : C Z :=
  n ← gets fid_counter; modify (set_fid_counter ((n + 1) mod 2 ^ 32));; mret n.

Definition root_fid : Z := 0.

(** Running a parser over a reply *)
Definition parse {A} (m : M MessageParser A) (data : list u8) : C A := lift (m (MessageParser_new data)).1.

Definition transact (request : list u8) : C (list u8) :=
  n ← gets msize;
  '(written, resp) ← zoom queue set_queue (exchange request n);
  fail_if (written <? Z.of_nat HEADER_SIZE) client_error;;
  l ← unwrap (get_range 0 (Z.of_nat HEADER_SIZE) resp);
  header ← ok_or client_error (Header_decode l);
  let size := h_size header in
  fail_if ((written <? size) || (n <? size)) client_error;;
  if h_typ header =? msg_type Rerror then
    l ← unwrap (get_range (Z.of_nat HEADER_SIZE) size resp);
    throw client_error
  else unwrap (get_range 0 size resp).

(** The body that the methods share: a request of the type [t], and a reply of
    the type [r] with what [k] parses behind its header *)
Definition call_9p {A} (t r : MsgType) (build : MessageBuilder -> MessageBuilder) (k : M MessageParser A) : C A :=
  tag ← next_tag;
  resp ← transact (finish (build (MessageBuilder_new t tag)));
  parse (header ← get_header; fail_if (negb (h_typ header =? msg_type r)) client_error;; k) resp.

Definition version : C unit :=
  n ← gets msize;
  call_9p Tversion Rversion (fun b => put_str VERSION (put_u32 n b))
    (get_u32;; v ← get_str; fail_if (negb (bool_decide (v = VERSION))) client_error).

Definition attach (aname : string) : C Qid :=
  call_9p Tattach Rattach
    (fun b => put_u32 0 (put_str aname (put_str "" (put_u32 NOFID (put_u32 root_fid b))))) get_qid.

(** [for _ in 0..nwqid] *)
Fixpoint get_qids (n : nat) : M MessageParser (list Qid) :=
  match n with O => mret [] | S n => q ← get_qid; qs ← get_qids n; mret (q :: qs) end.

Definition put_names (names : list string) (b : MessageBuilder) : MessageBuilder :=
  fold_left (fun b name => put_str name b) names b.

Definition walk (fid new_fid : Z) (names : list string) : C (list Qid) :=
  call_9p Twalk Rwalk
    (fun b => put_names names (put_u16 (Z.of_nat (length names) mod 2 ^ 16) (put_u32 new_fid (put_u32 fid b))))
    (nwqid ← get_u16; get_qids (Z.to_nat nwqid)).

Definition get_qid_iounit : M MessageParser (Qid * Z) := qid ← get_qid; iounit ← get_u32; mret (qid, iounit).

Definition lopen (fid flags : Z) : C (Qid * Z) :=
  call_9p Tlopen Rlopen (fun b => put_u32 flags (put_u32 fid b)) get_qid_iounit.

Definition lcreate (fid : Z) (name : string) (flags mode gid : Z) : C (Qid * Z) :=
  call_9p Tlcreate Rlcreate
    (fun b => put_u32 gid (put_u32 mode (put_u32 flags (put_str name (put_u32 fid b))))) get_qid_iounit.

Definition read (fid offset count : Z) : C (list u8) :=
  n ← gets msize;
  let count := Z.min count (Z.max 0 (n - 11)) in
  call_9p Tread Rread (fun b => put_u32 count (put_u64 offset (put_u32 fid b))) get_data.

Definition write (fid offset : Z) (data : list u8) : C Z :=
  call_9p Twrite Rwrite (fun b => put_data data (put_u64 offset (put_u32 fid b))) get_u32.

Definition getattr (fid mask : Z) : C FileAttr :=
  call_9p Tgetattr Rgetattr (fun b => put_u64 mask (put_u32 fid b)) FileAttr_decode.

Definition setattr (fid valid mode uid gid size atime_sec atime_nsec mtime_sec mtime_nsec : Z) : C unit :=
  call_9p Tsetattr Rsetattr
    (fun b => put_u64 mtime_nsec (put_u64 mtime_sec (put_u64 atime_nsec (put_u64 atime_sec (put_u64 size
      (put_u32 gid (put_u32 uid (put_u32 mode (put_u32 valid (put_u32 fid b)))))))))) (mret tt).

(** The loop over the entries of a reply.  An entry takes bytes, so the length of
    the data is enough fuel. *)
Fixpoint get_entries (fuel : nat) (p : MessageParser) : outcome (list Dirent) :=
  match remaining p with
  | (Ok [], _) => Ok []
  | (Ok _, p) =>
      match fuel with
      | O => Panic
      | S fuel =>
          match Dirent_decode p with
          | (Ok entry, p) => entries ← get_entries fuel p; Ok (entry :: entries)
          | (Err _, _) => Ok []
          | (Panic, _) => Panic
          end
      end
  | (Err e, _) => Err e
  | (Panic, _) => Panic
  end.

Definition readdir (fid offset count : Z) : C (list Dirent) :=
  data ← call_9p Treaddir Rreaddir (fun b => put_u32 count (put_u64 offset (put_u32 fid b))) get_data;
  lift (get_entries (length data) (MessageParser_new data)).

Definition statfs (fid : Z) : C StatFs := call_9p Tstatfs Rstatfs (put_u32 fid) StatFs_decode.

Definition clunk (fid : Z) : C unit := call_9p Tclunk Rclunk (put_u32 fid) (mret tt).

Definition unlinkat (dirfid : Z) (name : string) (flags : Z) : C unit :=
  call_9p Tunlinkat Runlinkat (fun b => put_u32 flags (put_str name (put_u32 dirfid b))) (mret tt).

Definition mkdir (dirfid : Z) (name : string) (mode gid : Z) : C Qid :=
  call_9p Tmkdir Rmkdir (fun b => put_u32 gid (put_u32 mode (put_str name (put_u32 dirfid b)))) get_qid.

Definition fsync (fid : Z) : C unit := call_9p Tfsync Rfsync (fun b => put_u32 0 (put_u32 fid b)) (mret tt).

Definition symlink (dirfid : Z) (name symtgt : string) (gid : Z) : C Qid :=
  call_9p Tsymlink Rsymlink (fun b => put_u32 gid (put_str symtgt (put_str name (put_u32 dirfid b)))) get_qid.

Definition readlink (fid : Z) : C string := call_9p Treadlink Rreadlink (put_u32 fid) get_str.

Definition renameat (olddirfid : Z) (oldname : string) (newdirfid : Z) (newname : string) : C unit :=
  call_9p Trenameat Rrenameat
    (fun b => put_str newname (put_u32 newdirfid (put_str oldname (put_u32 olddirfid b)))) (mret tt).
End client.
