(* ===== verification/NinepScheme.v ===== *)
(** * The 9P scheme

    Models [drivers/fs/virtio-9pd/src/scheme.rs] and the loop of [main.rs]: a scheme
    whose files are those of a 9P server, with a fid of the server for each handle. *)

From stdpp Require Import base gmap strings list fin_maps.
From Stdlib Require Import ZArith Lia.
From Stdlib Require Import Strings.Byte.
From S2P Require Import Prelude Syscall Ninep.

Local Open Scope Z_scope.

(** The flag of [syscall::flag] that only this scheme uses *)
Class SymlinkFlag := { O_SYMLINK : Z }.

(** [DirentKind], as far as it is used *)
Inductive DirentKind := Directory | Regular.

Record Handle := { h_fid : Z; h_path : string; h_qid : Qid; h_flags : Z; h_dir_offset : Z }.

Record Scheme9p (D : Type) := {
  scheme_name : string; client : Client9p D; root_qid : Qid; handles : gmap Z Handle; next_handle : Z
}.
Arguments Build_Scheme9p {D} _ _ _ _ _.
Arguments scheme_name {D} _.
Arguments client {D} _.
Arguments root_qid {D} _.
Arguments handles {D} _.
Arguments next_handle {D} _.

Definition set_client {D} x (s : Scheme9p D) : Scheme9p D :=
  {| scheme_name := scheme_name s; client := x; root_qid := root_qid s; handles := handles s; next_handle := next_handle s |}.
Definition set_handles {D} x (s : Scheme9p D) : Scheme9p D :=
  {| scheme_name := scheme_name s; client := client s; root_qid := root_qid s; handles := x; next_handle := next_handle s |}.
Definition set_next_handle {D} x (s : Scheme9p D) : Scheme9p D :=
  {| scheme_name := scheme_name s; client := client s; root_qid := root_qid s; handles := handles s; next_handle := x |}.

Definition Scheme9p_new {D} (name : string) (c : Client9p D) (q : Qid) : Scheme9p D :=
  {| scheme_name := name; client := c; root_qid := q; handles := ∅; next_handle := 1 |}.

(** ** Paths *)

(** [path.split('/').filter(|s| !s.is_empty())] *)
Definition components (path : string) : list string := filter (fun s => s <> "") (split_char slash path).

(** [path.rfind('/')], with the parts before and behind it *)
Fixpoint rsplit (path : string) : option (string * string) :=
  match path with
  | EmptyString => None
  | String c path =>
      match rsplit path with
      | Some (parent, name) => Some (String c parent, name)
      | None => if Ascii.eqb c slash then Some (EmptyString, path) else None
      end
  end.

(** Parent and name *)
Definition parent_name (path : string) : string * string := default ("", path) (rsplit path).

Section scheme.
Context {TG : Target} {SC : Syscall} {SF : SymlinkFlag} {D : Type} {Q9 : Queue9p D}.
Abbreviation S := (M (Scheme9p D)).

(** ** Calls of the client *)

Definition on_client {A} (m : M (Client9p D) A) : S A := zoom client set_client m.

(** [r.map_err(|_| Error::new(e))?] *)
Definition or_err {A} (e : errno) (m : M (Client9p D) A) : S A := fun s =>
  match on_client m s with (Err _, s) => (Err e, s) | r => r end.

(** [let _ = r;] *)
Definition ignore {A} (m : M (Client9p D) A) : S unit := fun s =>
  match on_client m s with (Panic, s) => (Panic, s) | (_, s) => (Ok tt, s) end.

(** ** Flags *)

Definition access_flags (flags : Z) : Z :=
  let acc := Z.land flags O_ACCMODE in
  if acc =? O_RDONLY then P9_RDONLY else if acc =? O_WRONLY then P9_WRONLY else if acc =? O_RDWR then P9_RDWR else P9_RDONLY.

Definition to_9p_lopen_flags (flags : Z) : Z :=
  if any_set flags O_TRUNC then Z.lor (access_flags flags) P9_TRUNC else access_flags flags.

Definition to_9p_flags (flags : Z) : Z :=
  let p9_flags := if any_set flags O_TRUNC then Z.lor (access_flags flags) P9_TRUNC else access_flags flags in
  if any_set flags O_CREAT then Z.lor p9_flags P9_CREATE else p9_flags.

Definition is_symlink (q : Qid) : bool := any_set (q_typ q) QID_SYMLINK.

(** [attr_to_stat]; the casts cut to the widths of the fields. *)
Definition attr_to_stat (a : FileAttr) : Stat := {|
  st_dev := 0; st_ino := q_path (a_qid a); st_mode := a_mode a mod 2 ^ 16; st_nlink := a_nlink a mod 2 ^ 32;
  st_uid := a_uid a; st_gid := a_gid a; st_size := a_size a; st_blksize := a_blksize a mod 2 ^ 32;
  st_blocks := a_blocks a; st_atime := a_atime_sec a; st_atime_nsec := a_atime_nsec a mod 2 ^ 32;
  st_mtime := a_mtime_sec a; st_mtime_nsec := a_mtime_nsec a mod 2 ^ 32; st_ctime := a_ctime_sec a;
  st_ctime_nsec := a_ctime_nsec a mod 2 ^ 32 |}.

(** ** Opening *)

Definition walk_path (path : string) : S (Z * Qid) :=
  new_fid ← on_client alloc_fid;
  let cs := components path in
  qids ← or_err ENOENT (walk root_fid new_fid cs);
  if (0 <? length cs)%nat && negb (length qids =? length cs)%nat then
    ignore (clunk new_fid);; throw ENOENT
  else
    root ← gets root_qid;
    mret (new_fid, default root (last qids)).

(** The arm of [open] that creates the file *)
Definition create (path : string) (flags : Z) (ctx : CallerCtx) : S (Z * Qid * bool) :=
  let '(parent_path, name) := parent_name path in
  '(parent_fid, _) ← (
    if str_is_empty parent_path then
      new_fid ← on_client alloc_fid;
      or_err EIO (walk root_fid new_fid []);;
      root ← gets root_qid;
      mret (new_fid, root)
    else walk_path parent_path);
  let mode := Z.lor (Z.land flags 0xFFF) 0x8000 in
  '(qid, _) ← or_err EIO (lcreate parent_fid name (to_9p_flags flags) mode (ctx_gid ctx));
  mret (parent_fid, qid, true).

(** The first [match] of [open]: the fid, its qid, and whether it is open *)
Definition find_or_create (path : string) (flags : Z) (ctx : CallerCtx) : S (Z * Qid * bool) := fun s =>
  match walk_path path s with
  | (Ok (fid, qid), s) => (Ok (fid, qid, false), s)
  | (Err e, s) => if any_set flags O_CREAT then create path flags ctx s else (Err e, s)
  | (Panic, s) => (Panic, s)
  end.

(** [lopen], where a failure clunks the fid *)
Definition open_fid (fid flags : Z) : S unit := fun s =>
  match on_client (lopen fid (to_9p_lopen_flags flags)) s with
  | (Ok _, s) => (Ok tt, s)
  | (Err _, s) => (ignore (clunk fid);; throw EIO) s
  | (Panic, s) => (Panic, s)
  end.

Definition open (path : string) (flags : Z) (ctx : CallerCtx) : S OpenResult :=
  '(fid, qid, already_opened) ← find_or_create path flags ctx;
  if is_symlink qid && negb (any_set flags O_SYMLINK) && negb (any_set flags O_STAT) then
    ignore (clunk fid);; throw EXDEV
  else if negb (any_set flags O_STAT) && negb (any_set flags O_DIRECTORY) && is_dir qid then
    ignore (clunk fid);; throw EISDIR
  else
    (if negb (any_set flags O_STAT) && negb already_opened && negb (is_symlink qid && any_set flags O_SYMLINK) then
       open_fid fid flags
     else mret tt);;
    handle_id ← gets next_handle;
    next ← usize_add handle_id 1;
    modify (set_next_handle next);;
    modify (fun s => set_handles (<[handle_id := {| h_fid := fid; h_path := path; h_qid := qid; h_flags := flags;
                                                    h_dir_offset := 0 |}]> (handles s)) s);;
    mret (ThisScheme handle_id fd_POSITIONED).

Definition handle_at (i : Z) : S Handle := hs ← gets handles; ok_or EBADFD (hs !! i).

(** ** Calls on a handle *)

Definition read (i : Z) (buf : list u8) (offset fcntl_flags : Z) : S (Z * list u8) :=
  h ← handle_at i;
  if is_dir (h_qid h) then throw EISDIR
  else if is_symlink (h_qid h) && any_set (h_flags h) O_SYMLINK then
    target ← or_err EIO (readlink (h_fid h));
    let bytes := as_bytes target in
    let offset := as_usize offset in
    if zlen bytes <=? offset then mret (0, buf)
    else
      let rest := drop (Z.to_nat offset) bytes in
      let len := (length rest `min` length buf)%nat in
      mret (Z.of_nat len, copy_prefix len rest buf)
  else
    let acc := Z.land (as_usize fcntl_flags) O_ACCMODE in
    fail_if (negb ((acc =? O_RDONLY) || (acc =? O_RDWR))) EBADF;;
    data ← or_err EIO (Ninep.read (h_fid h) offset (zlen buf mod 2 ^ 32));
    let len := (length data `min` length buf)%nat in
    mret (Z.of_nat len, copy_prefix len data buf).

Definition write (i : Z) (buf : list u8) (offset : Z) : S Z :=
  h ← handle_at i;
  if is_dir (h_qid h) then throw EISDIR
  else or_err EIO (Ninep.write (h_fid h) offset buf).

(** The loop over the entries, against [DirentBuf::entry] of the caller's buffer *)
Fixpoint emit_dents {B} (entry : B -> DirEntry -> DirentKind -> outcome B) (entries : list Dirent) (buf : B) : outcome B :=
  match entries with
  | [] => Ok buf
  | e :: entries =>
      buf ← entry buf {| de_inode := q_path (d_qid e); de_name := d_name e; de_next_opaque_id := d_offset e |}
              (if is_dir (d_qid e) then Directory else Regular);
      emit_dents entry entries buf
  end.

Definition getdents {B} (entry : B -> DirEntry -> DirentKind -> outcome B) (i : Z) (buf : B) (opaque_offset : Z) : S B :=
  h ← handle_at i;
  if negb (is_dir (h_qid h)) then throw ENOTDIR
  else
    entries ← or_err EIO (readdir (h_fid h) opaque_offset 4096);
    lift (emit_dents entry entries buf).

Definition fstat (i : Z) : S Stat :=
  h ← handle_at i;
  attr ← or_err EIO (getattr (h_fid h) P9_GETATTR_BASIC);
  mret (attr_to_stat attr).

Definition fstatvfs (i : Z) : S StatVfs :=
  h ← handle_at i;
  fs ← or_err EIO (statfs (h_fid h));
  mret (f_bsize fs, f_blocks fs, f_bfree fs, f_bavail fs).

Definition fpath (i : Z) (buf : list u8) : S (Z * list u8) :=
  h ← handle_at i;
  name ← gets scheme_name;
  let bytes := as_bytes ("/" +:+ name +:+ "/" +:+ h_path h) in
  let len := (length bytes `min` length buf)%nat in
  mret (Z.of_nat len, copy_prefix len bytes buf).

Definition fsync (i : Z) : S unit := h ← handle_at i; or_err EIO (Ninep.fsync (h_fid h)).

Definition unlinkat (i : Z) (path : string) (flags : Z) : S unit :=
  h ← handle_at i;
  or_err EIO (Ninep.unlinkat (h_fid h) path (if any_set flags AT_REMOVEDIR then 0x200 else 0)).

Definition fcntl (i cmd arg : Z) : S Z := mret 0.
Definition fevent (i flags : Z) : S Z := throw ENOSYS.

Definition fchmod (i mode : Z) : S unit :=
  h ← handle_at i; or_err EIO (setattr (h_fid h) P9_SETATTR_MODE mode 0 0 0 0 0 0 0).

Definition fchown (i uid gid : Z) : S unit :=
  h ← handle_at i; or_err EIO (setattr (h_fid h) (Z.lor P9_SETATTR_UID P9_SETATTR_GID) 0 uid gid 0 0 0 0 0).

Definition ftruncate (i len : Z) : S unit :=
  h ← handle_at i; or_err EIO (setattr (h_fid h) P9_SETATTR_SIZE 0 0 0 len 0 0 0 0).

(** [x as u64] *)
Definition as_u64 (x : Z) : Z := x mod 2 ^ 64.

Definition futimens (i : Z) (times : list TimeSpec) : S unit :=
  h ← handle_at i;
  match times with
  | a :: m :: _ =>
      or_err EIO (setattr (h_fid h) (Z.lor P9_SETATTR_ATIME_SET P9_SETATTR_MTIME_SET) 0 0 0 0
        (as_u64 (tv_sec a)) (as_u64 (tv_nsec a)) (as_u64 (tv_sec m)) (as_u64 (tv_nsec m)))
  | _ => mret tt
  end.

(** The walk to the new parent, where a failure clunks the fid of the old one *)
Definition walk_new_parent (old_dir_fid new_dir_fid : Z) (cs : list string) : S unit := fun s =>
  match on_client (walk root_fid new_dir_fid cs) s with
  | (Ok _, s) => (Ok tt, s)
  | (Err _, s) => (ignore (clunk old_dir_fid);; throw ENOENT) s
  | (Panic, s) => (Panic, s)
  end.

(** The [Result] of a call of the client, looked at later *)
Definition result_of {A} (m : M (Client9p D) A) : S (option A) := fun s =>
  match on_client m s with (Ok a, s) => (Ok (Some a), s) | (Err _, s) => (Ok None, s) | (Panic, s) => (Panic, s) end.

Definition frename (i : Z) (new_path : string) : S Z :=
  h ← handle_at i;
  let '(old_parent, old_name) := parent_name (h_path h) in
  let '(new_parent, new_name) := parent_name new_path in
  old_dir_fid ← on_client alloc_fid;
  or_err ENOENT (walk root_fid old_dir_fid (components old_parent));;
  new_dir_fid ← on_client alloc_fid;
  walk_new_parent old_dir_fid new_dir_fid (components new_parent);;
  r ← result_of (renameat old_dir_fid old_name new_dir_fid new_name);
  ignore (clunk old_dir_fid);;
  ignore (clunk new_dir_fid);;
  ok_or EIO r;;
  modify (fun s => match handles s !! i with
                   | Some h => set_handles (<[i := {| h_fid := h_fid h; h_path := new_path; h_qid := h_qid h;
                       h_flags := h_flags h; h_dir_offset := h_dir_offset h |}]> (handles s)) s
                   | None => s
                   end);;
  mret 0.

Definition mmap_prep (i offset size flags : Z) : S Z := throw ENOSYS.

Definition on_close (i : Z) : S unit :=
  hs ← gets handles;
  match hs !! i with
  | Some h => modify (set_handles (delete i hs));; ignore (clunk (h_fid h))
  | None => mret tt
  end.

(** ** The daemon *)

Inductive Request {B : Type} :=
| R_open (path : string) (flags : Z) (ctx : CallerCtx)
| R_read (i : Z) (buf : list u8) (offset fcntl_flags : Z)
| R_write (i : Z) (buf : list u8) (offset : Z)
| R_getdents (i : Z) (buf : B) (opaque_offset : Z)
| R_fstat (i : Z)
| R_fstatvfs (i : Z)
| R_fpath (i : Z) (buf : list u8)
| R_fsync (i : Z)
| R_unlinkat (i : Z) (path : string) (flags : Z)
| R_fcntl (i cmd arg : Z)
| R_fevent (i flags : Z)
| R_fchmod (i mode : Z)
| R_fchown (i uid gid : Z)
| R_ftruncate (i len : Z)
| R_futimens (i : Z) (times : list TimeSpec)
| R_frename (i : Z) (new_path : string)
| R_mmap_prep (i offset size flags : Z)
| R_close (i : Z)
| R_other.
Arguments Request : clear implicits.

(** A call whose [Result] is answered; only a panic ends the daemon. *)
Definition attempt {A} (m : S A) : S unit := fun s =>
  match m s with (Panic, s) => (Panic, s) | (_, s) => (Ok tt, s) end.

(** The [match] on the request in the loop of [daemon] *)
Definition request {B} (entry : B -> DirEntry -> DirentKind -> outcome B) (r : Request B) : S unit :=
  match r with
  | R_open path flags ctx => attempt (open path flags ctx)
  | R_read i buf offset fcntl_flags => attempt (read i buf offset fcntl_flags)
  | R_write i buf offset => attempt (write i buf offset)
  | R_getdents i buf offset => attempt (getdents entry i buf offset)
  | R_fstat i => attempt (fstat i)
  | R_fstatvfs i => attempt (fstatvfs i)
  | R_fpath i buf => attempt (fpath i buf)
  | R_fsync i => attempt (fsync i)
  | R_unlinkat i path flags => attempt (unlinkat i path flags)
  | R_fcntl i cmd arg => attempt (fcntl i cmd arg)
  | R_fevent i flags => attempt (fevent i flags)
  | R_fchmod i mode => attempt (fchmod i mode)
  | R_fchown i uid gid => attempt (fchown i uid gid)
  | R_ftruncate i len => attempt (ftruncate i len)
  | R_futimens i times => attempt (futimens i times)
  | R_frename i new_path => attempt (frename i new_path)
  | R_mmap_prep i offset size flags => attempt (mmap_prep i offset size flags)
  | R_close i => on_close i
  | R_other => mret tt
  end.

(** The loop of [daemon] over the requests that come, until the socket has no next one *)
Fixpoint daemon_loop {B} (entry : B -> DirEntry -> DirentKind -> outcome B) (rs : list (Request B)) : S unit :=
  match rs with
  | [] => mret tt
  | r :: rs => request entry r;; daemon_loop entry rs
  end.

(** The start of the daemon, behind the setup of the device: the version, the
    root, the name of the scheme. *)
Definition connect (mount_tag func_name : string) (c : Client9p D) : outcome (Scheme9p D) :=
  match (version;; attach mount_tag) c with
  | (Ok qid, c) => Ok (Scheme9p_new (if str_is_empty mount_tag then "9p." +:+ func_name else "9p." +:+ mount_tag) c qid)
  | (Err e, _) => Err e
  | (Panic, _) => Panic
  end.
End scheme.
Arguments Request : clear implicits.

(** [read_mount_tag]: [load_config offset size] reads the configuration space. *)
Section mount_tag.
Context {TG : Target} (load_config : Z -> Z -> Z).

(** The loop over the bytes of the tag: [n] of them are left. *)
Fixpoint tag_loop (n : nat) (i : Z) : M unit (list u8) :=
  match n with
  | O => mret []
  | Datatypes.S n =>
      off ← arith 8 (2 + i mod 2 ^ 8);
      let b := byte_of_Z (load_config off 1) in
      if Z_of_byte b =? 0 then mret []
      else rest ← tag_loop n (i + 1); mret (b :: rest)
  end.

Definition read_mount_tag : M unit string :=
  let tag_len := load_config 0 2 in
  if (tag_len =? 0) || (256 <? tag_len) then mret ""
  else
    l ← tag_loop (Z.to_nat tag_len) 0;
    mret (default "" (from_utf8 l)).
End mount_tag.
