(* ===== verification/NinepServer.v ===== *)
(** * Facts about 9P messages

    Every message that is built from fields is parsed back to them.

    An abstract 9P server answers requests with replies ([Serves]).  Over a queue that carries
    their encodings, each method of the client is a call of the server. *)

From stdpp Require Import base gmap strings list fin_maps.
From Stdlib Require Import ZArith Lia.
From Stdlib Require Import Strings.Byte.
From S2P Require Import Prelude Ninep.

Local Open Scope Z_scope.

(** ** What a parser has ahead of it *)

(** A buffer of the size of a message: its positions do not overflow. *)
Record ahead (p : MessageParser) (l : list u8) : Prop := {
  ah_pos : 0 <= mp_pos p <= zlen (mp_data p);
  ah_len : zlen (mp_data p) < 2 ^ 31;
  ah_rest : drop (Z.to_nat (mp_pos p)) (mp_data p) = l
}.

(** The parser [m] returns [a] and leaves [l]. *)
Definition reads {A} (m : M MessageParser A) (p : MessageParser) (a : A) (l : list u8) : Prop :=
  exists p', m p = (Ok a, p') /\ ahead p' l.

Lemma ahead_new l : zlen l < 2 ^ 31 -> ahead (MessageParser_new l) l.
Proof. intros H. split; cbn; unfold zlen in *; done || lia. Qed.

Lemma ahead_length p l : ahead p l -> zlen l = zlen (mp_data p) - mp_pos p.
Proof. intros [Hp Hl <-]. unfold zlen in *. rewrite length_drop. lia. Qed.

Lemma ahead_step p a l : ahead p (a ++ l) -> ahead (set_pos (mp_pos p + zlen a) p) l.
Proof.
  intros H. pose proof (ahead_length _ _ H) as Hlen. destruct H as [Hp Hl Hr]. unfold zlen in *. rewrite length_app in Hlen.
  split; cbn; [unfold zlen; lia | done |]. rewrite Z2Nat.inj_add, Nat2Z.id, <- drop_drop, Hr by lia. by rewrite drop_app_length.
Qed.

Section reads.
Context {TG : Target}.

Lemma usize_31 {S} (x : Z) (s : S) : 0 <= x < 2 ^ 32 -> arith usize_bits x s = (Ok x, s).
Proof. intros H. apply arith_ok. pose proof usize_mod_ge. unfold usize_mod in *. lia. Qed.

Lemma reads_ret {A} (a : A) p l : ahead p l -> reads (mret a) p a l.
Proof. intros H. by exists p. Qed.

Lemma reads_bind {A B} (m : M MessageParser A) (k : A -> M MessageParser B) p a l b l' :
  reads m p a l -> (forall p', ahead p' l -> reads (k a) p' b l') -> reads (m ≫= k) p b l'.
Proof. intros (p' & Hm & Ha) Hk. destruct (Hk p' Ha) as (p'' & Hk' & Ha'). exists p''. split; [| done]. unfold mbind, M_bind. by rewrite Hm. Qed.

Lemma peek_bytes_ahead p a l n : ahead p (a ++ l) -> zlen a = n -> peek_bytes n p = (Ok (a, mp_pos p + zlen a), p).
Proof.
  intros H <-. pose proof (ahead_length _ _ H) as Hlen. destruct H as [Hp Hl Hr]. unfold zlen in Hlen. rewrite length_app in Hlen.
  unfold peek_bytes, mbind, M_bind, gets, usize_add. cbv beta iota. change (id p) with p.
  rewrite usize_31 by (unfold zlen in *; lia). unfold fail_if. rewrite (proj2 (Z.ltb_ge _ _)) by (unfold zlen in *; lia).
  unfold mret, M_ret, unwrap, get_range. rewrite !(proj2 (Z.leb_le _ _)) by (unfold zlen in *; lia). cbn [andb].
  rewrite Hr. replace (mp_pos p + zlen a - mp_pos p) with (zlen a) by lia. unfold zlen. by rewrite Nat2Z.id, take_app_length.
Qed.

Lemma reads_bytes p a l n : ahead p (a ++ l) -> zlen a = n -> reads (get_bytes n) p a l.
Proof.
  intros H Hn. exists (set_pos (mp_pos p + zlen a) p). split; [| by apply ahead_step].
  unfold get_bytes, mbind, M_bind. by rewrite (peek_bytes_ahead p a l).
Qed.

Lemma remaining_ahead p l : ahead p l -> remaining p = (Ok l, p).
Proof.
  intros [Hp Hl Hr]. unfold remaining. rewrite gets_bind. change (id p) with p. unfold get_range.
  rewrite !(proj2 (Z.leb_le _ _)) by (unfold zlen in *; lia). cbn [andb unwrap].
  rewrite take_ge by (unfold zlen in *; rewrite length_drop; lia). by rewrite Hr.
Qed.

(** An integer of [n] bytes *)
Lemma reads_int p v l (n : nat) :
  ahead p (le_bytes n v ++ l) -> 0 <= v < 256 ^ Z.of_nat n -> reads (x ← get_bytes (Z.of_nat n); mret (from_le x)) p v l.
Proof.
  intros H Hv. eapply reads_bind; [apply reads_bytes; [exact H | unfold zlen; by rewrite length_le_bytes] |]. intros p' Hp'.
  rewrite from_le_bytes, Z.mod_small by done. by apply reads_ret.
Qed.

Lemma reads_u16 p v l : ahead p (le_bytes 2 v ++ l) -> 0 <= v < 2 ^ 16 -> reads get_u16 p v l.
Proof. intros. by apply (reads_int p v l 2). Qed.
Lemma reads_u32 p v l : ahead p (le_bytes 4 v ++ l) -> 0 <= v < 2 ^ 32 -> reads get_u32 p v l.
Proof. intros. by apply (reads_int p v l 4). Qed.
Lemma reads_u64 p v l : ahead p (le_bytes 8 v ++ l) -> 0 <= v < 2 ^ 64 -> reads get_u64 p v l.
Proof. intros. by apply (reads_int p v l 8). Qed.

Lemma reads_u8 p v l : ahead p (le_bytes 1 v ++ l) -> 0 <= v < 2 ^ 8 -> reads get_u8 p v l.
Proof.
  intros H Hv. pose proof (ahead_length _ _ H) as Hlen. pose proof (ahead_step _ _ _ H) as Hs. destruct H as [Hp Hl Hr].
  unfold zlen in Hlen. cbn in Hlen. eexists. split; [| exact Hs].
  unfold get_u8, mbind, M_bind, gets, usize_add. cbv beta iota. change (id p) with p. unfold fail_if.
  rewrite (proj2 (Z.leb_gt _ _)) by (unfold zlen in *; lia). unfold unwrap.
  assert (mp_data p !! Z.to_nat (mp_pos p) = Some (byte_of_Z v)) as ->.
  { rewrite <- (Nat.add_0_r (Z.to_nat _)), <- lookup_drop, Hr. done. }
  unfold mret, M_ret. cbv beta iota. rewrite usize_31 by (unfold zlen in *; lia). cbn. rewrite Z_of_byte_of_Z, Z.mod_small by lia. done.
Qed.

Lemma as_bytes_utf8 s : utf8_valid (as_bytes s) = true -> from_utf8 (as_bytes s) = Some s.
Proof. intros H. unfold from_utf8. rewrite H. unfold as_bytes. by rewrite String.string_of_list_byte_of_string. Qed.

(** What [put_str] and [put_data] append *)
Definition str_bytes (s : string) : list u8 := le_bytes 2 (zlen (as_bytes s) mod 2 ^ 16) ++ as_bytes s.
Definition data_bytes (l : list u8) : list u8 := le_bytes 4 (zlen l mod 2 ^ 32) ++ l.

Definition str_ok (s : string) : Prop := zlen (as_bytes s) < 2 ^ 16 /\ utf8_valid (as_bytes s) = true.

Lemma reads_str p s l : ahead p (str_bytes s ++ l) -> str_ok s -> reads get_str p s l.
Proof.
  intros H [Hs Hu]. unfold str_bytes in H. rewrite <- app_assoc, Z.mod_small in H by (unfold zlen in *; lia).
  eapply reads_bind; [apply reads_u16; [exact H | unfold zlen in *; lia] |]. intros p1 H1.
  exists (set_pos (mp_pos p1 + zlen (as_bytes s)) p1). split; [| by apply ahead_step].
  unfold mbind, M_bind. rewrite (peek_bytes_ahead p1 (as_bytes s) l) by done. by rewrite (as_bytes_utf8 s).
Qed.

Lemma reads_data p d l : ahead p (data_bytes d ++ l) -> reads get_data p d l.
Proof.
  intros H. assert (zlen d < 2 ^ 31) as Hd.
  { pose proof (ahead_length _ _ H) as Hlen. destruct H as [Hp Hl _]. unfold data_bytes, zlen in *. rewrite !length_app in Hlen. lia. }
  unfold data_bytes in H. rewrite <- app_assoc, Z.mod_small in H by (unfold zlen in *; lia).
  eapply reads_bind; [apply reads_u32; [exact H | unfold zlen in *; lia] |]. intros p1 H1. by apply reads_bytes.
Qed.

Definition qid_ok (q : Qid) : Prop := 0 <= q_typ q < 2 ^ 8 /\ 0 <= q_version q < 2 ^ 32 /\ 0 <= q_path q < 2 ^ 64.

Lemma le_take n x l : take n (le_bytes n x ++ l) = le_bytes n x.
Proof. apply take_app_length'. by rewrite length_le_bytes. Qed.
Lemma le_drop n x l : drop n (le_bytes n x ++ l) = l.
Proof. apply drop_app_length'. by rewrite length_le_bytes. Qed.
Lemma from_le_fits n x : 0 <= x < 256 ^ Z.of_nat n -> from_le (le_bytes n x) = x.
Proof. intros. rewrite from_le_bytes. by apply Z.mod_small. Qed.

Lemma Qid_decode_encode q l : qid_ok q -> Qid_decode (Qid_encode q ++ l) = Some q.
Proof.
  intros (H1 & H2 & H3). unfold Qid_decode, Qid_encode. rewrite !length_app, !length_le_bytes. cbn [Nat.ltb Nat.leb Nat.add QID_SIZE].
  rewrite <- !app_assoc, le_take. change (drop 5) with (fun l : list u8 => drop (1 + 4) l). cbv beta. rewrite <- drop_drop, le_drop, le_take, le_drop, le_take.
  destruct q as [t v w]. cbn [q_typ q_version q_path] in *. by rewrite !from_le_fits.
Qed.

Lemma reads_qid p q l : ahead p (Qid_encode q ++ l) -> qid_ok q -> reads get_qid p q l.
Proof.
  intros H Hq. pose proof (remaining_ahead _ _ H) as Hrem. pose proof (ahead_length _ _ H) as Hlen. pose proof (ahead_step _ _ _ H) as Hs. destruct H as [Hp Hl Hr].
  change (zlen (Qid_encode q)) with 13 in Hs. unfold zlen in Hlen. rewrite length_app in Hlen. change (length (Qid_encode q)) with 13%nat in Hlen.
  eexists. split; [| exact Hs]. unfold get_qid, mbind, M_bind, gets, usize_add. cbv beta iota. change (id p) with p. change (Z.of_nat QID_SIZE) with 13.
  rewrite usize_31 by (unfold zlen in *; lia). unfold fail_if. rewrite (proj2 (Z.ltb_ge _ _)) by (unfold zlen in *; lia).
  unfold mret, M_ret. cbv beta iota. rewrite Hrem. cbv beta iota. by rewrite Qid_decode_encode.
Qed.

Definition header_ok (h : Header) : Prop := 0 <= h_size h < 2 ^ 32 /\ 0 <= h_typ h < 2 ^ 8 /\ 0 <= h_tag h < 2 ^ 16.

Lemma Header_decode_encode h l : header_ok h -> Header_decode (Header_encode h ++ l) = Some h.
Proof.
  intros (H1 & H2 & H3). unfold Header_decode, Header_encode. rewrite !length_app, !length_le_bytes. cbn [Nat.ltb Nat.leb Nat.add HEADER_SIZE].
  rewrite <- !app_assoc, le_take. change (drop 5) with (fun l : list u8 => drop (4 + 1) l). cbv beta. rewrite <- drop_drop, le_drop, le_take, le_drop, le_take.
  destruct h as [n t g]. cbn [h_size h_typ h_tag] in *. by rewrite !from_le_fits.
Qed.

Lemma reads_header p h l : ahead p (Header_encode h ++ l) -> header_ok h -> reads get_header p h l.
Proof.
  intros H Hh. pose proof (remaining_ahead _ _ H) as Hrem. pose proof (ahead_length _ _ H) as Hlen. pose proof (ahead_step _ _ _ H) as Hs. destruct H as [Hp Hl Hr].
  change (zlen (Header_encode h)) with 7 in Hs. unfold zlen in Hlen. rewrite length_app in Hlen. change (length (Header_encode h)) with 7%nat in Hlen.
  eexists. split; [| exact Hs]. unfold get_header, mbind, M_bind, gets, usize_add. cbv beta iota. change (id p) with p. change (Z.of_nat HEADER_SIZE) with 7.
  rewrite usize_31 by (unfold zlen in *; lia). unfold fail_if. rewrite (proj2 (Z.ltb_ge _ _)) by (unfold zlen in *; lia).
  unfold mret, M_ret. cbv beta iota. rewrite Hrem. cbv beta iota. by rewrite Header_decode_encode.
Qed.
End reads.

(** ** Messages as lists of fields *)

Inductive Field :=
| F_u8 (v : Z) | F_u16 (v : Z) | F_u32 (v : Z) | F_u64 (v : Z) | F_str (s : string) | F_data (l : list u8) | F_qid (q : Qid).

Definition field_ok (f : Field) : Prop :=
  match f with
  | F_u8 v => 0 <= v < 2 ^ 8 | F_u16 v => 0 <= v < 2 ^ 16 | F_u32 v => 0 <= v < 2 ^ 32 | F_u64 v => 0 <= v < 2 ^ 64
  | F_str s => str_ok s | F_data _ => True | F_qid q => qid_ok q
  end.

Definition field_bytes (f : Field) : list u8 :=
  match f with
  | F_u8 v => le_bytes 1 v | F_u16 v => le_bytes 2 v | F_u32 v => le_bytes 4 v | F_u64 v => le_bytes 8 v
  | F_str s => str_bytes s | F_data l => data_bytes l | F_qid q => Qid_encode q
  end.

Definition fields_bytes (fs : list Field) : list u8 := concat (map field_bytes fs).

(** The method of the builder for a field, and that of the parser *)
Definition put_field (f : Field) (b : MessageBuilder) : MessageBuilder :=
  match f with
  | F_u8 v => put_u8 v b | F_u16 v => put_u16 v b | F_u32 v => put_u32 v b | F_u64 v => put_u64 v b
  | F_str s => put_str s b | F_data l => put_data l b | F_qid q => put_qid q b
  end.
Definition put_fields (fs : list Field) (b : MessageBuilder) : MessageBuilder := fold_left (fun b f => put_field f b) fs b.

Section fields.
Context {TG : Target}.

(** A field of the kind of [f] *)
Definition get_field (f : Field) : M MessageParser Field :=
  match f with
  | F_u8 _ => v ← get_u8; mret (F_u8 v) | F_u16 _ => v ← get_u16; mret (F_u16 v)
  | F_u32 _ => v ← get_u32; mret (F_u32 v) | F_u64 _ => v ← get_u64; mret (F_u64 v)
  | F_str _ => s ← get_str; mret (F_str s) | F_data _ => l ← get_data; mret (F_data l) | F_qid _ => q ← get_qid; mret (F_qid q)
  end.
Fixpoint get_fields (fs : list Field) : M MessageParser (list Field) :=
  match fs with [] => mret [] | f :: fs => f ← get_field f; fs ← get_fields fs; mret (f :: fs) end.

Lemma put_field_bytes f b : mb_buf (put_field f b) = mb_buf b ++ field_bytes f.
Proof. destruct f; cbn; unfold str_bytes, data_bytes; rewrite <- ?app_assoc; done. Qed.

Lemma put_fields_bytes fs b : mb_buf (put_fields fs b) = mb_buf b ++ fields_bytes fs.
Proof.
  revert b. induction fs as [| f fs IH]; intros b; cbn; [by rewrite app_nil_r |]. fold (put_fields fs (put_field f b)).
  rewrite IH, put_field_bytes. by rewrite <- app_assoc.
Qed.

(** The header that a finished message carries *)
Definition header_for (typ : Z) (tag : Z) (fs : list Field) : Header :=
  {| h_size := 7 + zlen (fields_bytes fs); h_typ := typ; h_tag := tag |}.
Definition message (typ : Z) (tag : Z) (fs : list Field) : list u8 := Header_encode (header_for typ tag fs) ++ fields_bytes fs.

Lemma length_message typ tag fs : zlen (message typ tag fs) = 7 + zlen (fields_bytes fs).
Proof. unfold message, zlen. rewrite length_app. change (length (Header_encode _)) with 7%nat. lia. Qed.

Lemma finish_message typ tag fs :
  zlen (message (msg_type typ) tag fs) < 2 ^ 32 ->
  finish (put_fields fs (MessageBuilder_new typ tag)) = message (msg_type typ) tag fs.
Proof.
  intros Hl. rewrite length_message in Hl. unfold finish. rewrite put_fields_bytes. cbn [MessageBuilder_new mb_buf].
  assert (zlen (Header_encode (Header_new typ tag) ++ fields_bytes fs) = 7 + zlen (fields_bytes fs)) as ->.
  { unfold zlen. rewrite length_app. change (length (Header_encode _)) with 7%nat. lia. }
  rewrite Z.mod_small by (unfold zlen in *; lia). done.
Qed.

Lemma msg_type_range t : 0 <= msg_type t < 2 ^ 8.
Proof. destruct t; cbn; lia. Qed.

Lemma reads_field f p l : ahead p (field_bytes f ++ l) -> field_ok f -> reads (get_field f) p f l.
Proof.
  intros H Hf. destruct f; cbn [field_ok field_bytes get_field] in *;
    (eapply reads_bind; [eauto using reads_u8, reads_u16, reads_u32, reads_u64, reads_str, reads_data, reads_qid |]);
    intros p' Hp'; by apply reads_ret.
Qed.

Lemma reads_fields fs p l : ahead p (fields_bytes fs ++ l) -> Forall field_ok fs -> reads (get_fields fs) p fs l.
Proof.
  revert p. induction fs as [| f fs IH]; intros p H Hf; [by apply reads_ret |]. apply Forall_cons in Hf as [Hf Hfs].
  unfold fields_bytes in H. cbn in H. rewrite <- app_assoc in H. cbn [get_fields].
  eapply reads_bind; [by apply reads_field |]. intros p1 H1. eapply reads_bind; [by apply IH |]. intros p2 H2. by apply reads_ret.
Qed.

(** A message is parsed from its front: the header, and what follows. *)
Lemma reads_message {A} (k : Header -> M MessageParser A) typ tag fs a l :
  0 <= typ < 2 ^ 8 -> 0 <= tag < 2 ^ 16 -> zlen (message typ tag fs) < 2 ^ 31 ->
  (forall p, ahead p (fields_bytes fs) -> reads (k (header_for typ tag fs)) p a l) ->
  reads (h ← get_header; k h) (MessageParser_new (message typ tag fs)) a l.
Proof.
  intros Ht Hg Hl Hk. eapply reads_bind; [| exact Hk]. apply reads_header.
  - by apply ahead_new.
  - rewrite length_message in Hl. split_and!; cbn; unfold zlen in *; lia.
Qed.
End fields.

Section theorems.
Context {TG : Target}.

End theorems.

(** ** Requests and replies *)

Inductive Tmsg :=
| T_version (msize : Z) (version : string)
| T_attach (fid afid : Z) (uname aname : string) (n_uname : Z)
| T_walk (fid new_fid : Z) (names : list string)
| T_lopen (fid flags : Z)
| T_lcreate (fid : Z) (name : string) (flags mode gid : Z)
| T_read (fid offset count : Z)
| T_write (fid offset : Z) (data : list u8)
| T_getattr (fid mask : Z)
| T_setattr (fid valid mode uid gid size atime_sec atime_nsec mtime_sec mtime_nsec : Z)
| T_readdir (fid offset count : Z)
| T_statfs (fid : Z)
| T_clunk (fid : Z)
| T_unlinkat (dirfid : Z) (name : string) (flags : Z)
| T_mkdir (dirfid : Z) (name : string) (mode gid : Z)
| T_fsync (fid datasync : Z)
| T_symlink (dirfid : Z) (name symtgt : string) (gid : Z)
| T_readlink (fid : Z)
| T_renameat (olddirfid : Z) (oldname : string) (newdirfid : Z) (newname : string).

(** [R_error] is the message [Rlerror] of 9P2000.L. *)
Inductive Rmsg :=
| R_version (msize : Z) (version : string)
| R_attach (q : Qid)
| R_walk (qs : list Qid)
| R_lopen (q : Qid) (iounit : Z)
| R_lcreate (q : Qid) (iounit : Z)
| R_read (data : list u8)
| R_write (count : Z)
| R_getattr (a : FileAttr)
| R_setattr
| R_readdir (entries : list Dirent)
| R_statfs (f : StatFs)
| R_clunk
| R_unlinkat
| R_mkdir (q : Qid)
| R_fsync
| R_symlink (q : Qid)
| R_readlink (target : string)
| R_renameat
| R_error (code : Z).

Definition t_type (t : Tmsg) : MsgType :=
  match t with
  | T_version _ _ => Tversion | T_attach _ _ _ _ _ => Tattach | T_walk _ _ _ => Twalk | T_lopen _ _ => Tlopen
  | T_lcreate _ _ _ _ _ => Tlcreate | T_read _ _ _ => Tread | T_write _ _ _ => Twrite | T_getattr _ _ => Tgetattr
  | T_setattr _ _ _ _ _ _ _ _ _ _ => Tsetattr | T_readdir _ _ _ => Treaddir | T_statfs _ => Tstatfs | T_clunk _ => Tclunk
  | T_unlinkat _ _ _ => Tunlinkat | T_mkdir _ _ _ _ => Tmkdir | T_fsync _ _ => Tfsync | T_symlink _ _ _ _ => Tsymlink
  | T_readlink _ => Treadlink | T_renameat _ _ _ _ => Trenameat
  end.

Definition t_fields (t : Tmsg) : list Field :=
  match t with
  | T_version n v => [F_u32 n; F_str v]
  | T_attach fid afid uname aname n => [F_u32 fid; F_u32 afid; F_str uname; F_str aname; F_u32 n]
  | T_walk fid new_fid names => [F_u32 fid; F_u32 new_fid; F_u16 (Z.of_nat (length names))] ++ map F_str names
  | T_lopen fid flags => [F_u32 fid; F_u32 flags]
  | T_lcreate fid name flags mode gid => [F_u32 fid; F_str name; F_u32 flags; F_u32 mode; F_u32 gid]
  | T_read fid offset count | T_readdir fid offset count => [F_u32 fid; F_u64 offset; F_u32 count]
  | T_write fid offset data => [F_u32 fid; F_u64 offset; F_data data]
  | T_getattr fid mask => [F_u32 fid; F_u64 mask]
  | T_setattr fid valid mode uid gid size asec ansec msec mnsec =>
      [F_u32 fid; F_u32 valid; F_u32 mode; F_u32 uid; F_u32 gid; F_u64 size; F_u64 asec; F_u64 ansec; F_u64 msec; F_u64 mnsec]
  | T_statfs fid | T_clunk fid | T_readlink fid => [F_u32 fid]
  | T_unlinkat fid name flags => [F_u32 fid; F_str name; F_u32 flags]
  | T_mkdir fid name mode gid => [F_u32 fid; F_str name; F_u32 mode; F_u32 gid]
  | T_fsync fid datasync => [F_u32 fid; F_u32 datasync]
  | T_symlink fid name symtgt gid => [F_u32 fid; F_str name; F_str symtgt; F_u32 gid]
  | T_renameat olddir oldname newdir newname => [F_u32 olddir; F_str oldname; F_u32 newdir; F_str newname]
  end.

Definition r_type (r : Rmsg) : Z :=
  match r with
  | R_version _ _ => 101 | R_attach _ => 105 | R_walk _ => 111 | R_lopen _ _ => 13 | R_lcreate _ _ => 15 | R_read _ => 117
  | R_write _ => 119 | R_getattr _ => 25 | R_setattr => 27 | R_readdir _ => 41 | R_statfs _ => 9 | R_clunk => 121
  | R_unlinkat => 77 | R_mkdir _ => 73 | R_fsync => 51 | R_symlink _ => 17 | R_readlink _ => 23 | R_renameat => 75
  | R_error _ => 7
  end.

Definition attr_fields (a : FileAttr) : list Field :=
  [F_u64 (a_valid a); F_qid (a_qid a); F_u32 (a_mode a); F_u32 (a_uid a); F_u32 (a_gid a); F_u64 (a_nlink a);
   F_u64 (a_rdev a); F_u64 (a_size a); F_u64 (a_blksize a); F_u64 (a_blocks a); F_u64 (a_atime_sec a);
   F_u64 (a_atime_nsec a); F_u64 (a_mtime_sec a); F_u64 (a_mtime_nsec a); F_u64 (a_ctime_sec a); F_u64 (a_ctime_nsec a);
   F_u64 (a_btime_sec a); F_u64 (a_btime_nsec a); F_u64 (a_gen a); F_u64 (a_data_version a)].
Definition statfs_fields (f : StatFs) : list Field :=
  [F_u32 (f_typ f); F_u32 (f_bsize f); F_u64 (f_blocks f); F_u64 (f_bfree f); F_u64 (f_bavail f); F_u64 (f_files f);
   F_u64 (f_ffree f); F_u64 (f_fsid f); F_u32 (f_namelen f)].
Definition dirent_fields (e : Dirent) : list Field := [F_qid (d_qid e); F_u64 (d_offset e); F_u8 (d_typ e); F_str (d_name e)].

Definition r_fields (r : Rmsg) : list Field :=
  match r with
  | R_version n v => [F_u32 n; F_str v]
  | R_attach q | R_mkdir q | R_symlink q => [F_qid q]
  | R_walk qs => F_u16 (Z.of_nat (length qs)) :: map F_qid qs
  | R_lopen q n | R_lcreate q n => [F_qid q; F_u32 n]
  | R_read data => [F_data data]
  | R_write n | R_error n => [F_u32 n]
  | R_getattr a => attr_fields a
  | R_readdir es => [F_data (concat (map (fun e => fields_bytes (dirent_fields e)) es))]
  | R_statfs f => statfs_fields f
  | R_readlink s => [F_str s]
  | R_setattr | R_clunk | R_unlinkat | R_fsync | R_renameat => []
  end.

(** Messages whose fields are in range, and that fit a buffer *)
Definition t_ok (t : Tmsg) : Prop := Forall field_ok (t_fields t) /\ zlen (fields_bytes (t_fields t)) < 2 ^ 30.
Definition r_ok (r : Rmsg) : Prop :=
  Forall field_ok (r_fields r) /\ match r with R_readdir es => Forall (fun e => Forall field_ok (dirent_fields e)) es | _ => True end.

Definition t_bytes (tag : Z) (t : Tmsg) : list u8 := message (msg_type (t_type t)) tag (t_fields t).
Definition r_bytes (tag : Z) (r : Rmsg) : list u8 := message (r_type r) tag (r_fields r).

(** ** A queue that carries requests to a server

    [serve] is what the server does with a request; a queue that works hands
    over requests that are well-formed, and puts the reply at the front of the buffer. *)
Class Serves (D : Type) {Q9 : Queue9p D} := {
  up : D -> Prop;
  serve : Tmsg -> D -> Rmsg * D;
  serve_up : forall t d, up d -> t_ok t -> up (serve t d).2;
  serve_ok : forall t d, up d -> t_ok t -> r_ok (serve t d).1;
  serve_exchange : forall tag t n d, up d -> t_ok t -> 0 <= tag < 2 ^ 16 -> n = MSIZE ->
    zlen (r_bytes tag (serve t d).1) <= n /\
    exists rest, exchange (t_bytes tag t) n d =
      (Ok (zlen (r_bytes tag (serve t d).1), r_bytes tag (serve t d).1 ++ rest), (serve t d).2)
}.

(** A client in its working state *)
Record works {D} {Q9 : Queue9p D} {SV : Serves D} (c : Client9p D) : Prop := {
  w_up : up (queue c); w_tag : 0 <= tag_counter c < 2 ^ 16; w_msize : msize c = MSIZE
}.

Section calls.
Context {TG : Target} {D : Type} {Q9 : Queue9p D} {SV : Serves D}.
Implicit Types c : Client9p D.

(** The client after a request *)
Definition served (t : Tmsg) c : Client9p D :=
  {| queue := (serve t (queue c)).2; tag_counter := (tag_counter c + 1) mod 2 ^ 16; fid_counter := fid_counter c; msize := msize c |}.

Lemma works_served t c : works c -> t_ok t -> works (served t c).
Proof.
  intros [H1 H2 H3] Ht. split; cbn; [by apply serve_up | | done]. apply Z.mod_pos_bound. lia.
Qed.

(** What a call returns: what [expect] finds in the reply, or an error *)
Definition answer {A} (expect : Rmsg -> option A) (t : Tmsg) c : outcome A * Client9p D :=
  (match expect (serve t (queue c)).1 with Some a => Ok a | None => Err client_error end, served t c).

(** A parser finds in the fields of a reply what is expected, or fails. *)
Definition finds {A} (k : M MessageParser A) (rt : MsgType) (expect : Rmsg -> option A) : Prop :=
  forall r, r_ok r -> match expect r with
    | Some a => r_type r = msg_type rt /\
        forall p, ahead p (fields_bytes (r_fields r)) -> exists l, reads k p a l
    | None => r_type r <> msg_type rt \/
        forall p, ahead p (fields_bytes (r_fields r)) -> exists p', k p = (Err client_error, p')
    end.

Lemma r_type_range r : 0 <= r_type r < 2 ^ 8 /\ r_type r <> msg_type Rerror.
Proof. destruct r; cbn; lia. Qed.

Lemma get_range_front (l rest : list u8) n : n = zlen l -> get_range 0 n (l ++ rest) = Some l.
Proof.
  intros ->. unfold get_range. rewrite !(proj2 (Z.leb_le _ _)) by (unfold zlen; rewrite ?length_app; lia).
  cbn [andb]. rewrite Z.sub_0_r, drop_0. unfold zlen. by rewrite Nat2Z.id, take_app_length.
Qed.

Lemma transact_serves tag t c :
  works c -> t_ok t -> 0 <= tag < 2 ^ 16 ->
  transact (t_bytes tag t) c = (Ok (r_bytes tag (serve t (queue c)).1), set_queue (serve t (queue c)).2 c).
Proof.
  intros [Hup _ Hm] Ht Hg. set (r := (serve t (queue c)).1).
  destruct (serve_exchange tag t (msize c) (queue c) Hup Ht Hg Hm) as (Hfit & rest & He). fold r in Hfit, He.
  pose proof (serve_ok t (queue c) Hup Ht) as Hr. fold r in Hr. pose proof (r_type_range r) as [Hty Hne].
  assert (zlen (r_bytes tag r) = 7 + zlen (fields_bytes (r_fields r))) as Hlen by apply length_message.
  unfold transact, zoom, mbind, M_bind, gets. cbv beta iota. rewrite He. cbv beta iota.
  unfold fail_if, mret, M_ret. rewrite (proj2 (Z.ltb_ge _ _)) by (change (Z.of_nat HEADER_SIZE) with 7; unfold zlen in *; lia). cbv beta iota.
  set (h := header_for (r_type r) tag (r_fields r)).
  assert (r_bytes tag r ++ rest = Header_encode h ++ (fields_bytes (r_fields r) ++ rest)) as Hsplit by (unfold r_bytes, message; by rewrite <- app_assoc).
  assert (header_ok h) as Hh. { split_and!; cbn; unfold MSIZE in *; unfold zlen in *; lia. }
  rewrite Hsplit at 1. rewrite get_range_front by done. unfold unwrap, mret, M_ret. cbv beta iota.
  rewrite <- (app_nil_r (Header_encode h)), Header_decode_encode by done. unfold ok_or, mret, M_ret. cbv beta iota. cbn [h h_size h_typ header_for].
  rewrite <- Hlen. rewrite Z.ltb_irrefl, (proj2 (Z.ltb_ge _ _)) by lia. cbn [orb]. cbv beta iota.
  rewrite (proj2 (Z.eqb_neq _ _)) by done. rewrite get_range_front by done. reflexivity.
Qed.

(** The shared body of the methods is a call of the server. *)
Lemma call_9p_serves {A} (t : Tmsg) rt build (k : M MessageParser A) expect c :
  works c -> t_ok t -> (forall b, build b = put_fields (t_fields t) b) -> finds k rt expect ->
  call_9p (t_type t) rt build k c = answer expect t c.
Proof.
  intros Hw Ht Hb Hk. pose proof Hw as [Hup Hg Hm]. unfold call_9p, next_tag, mbind, M_bind, gets, modify, mret, M_ret. cbv beta iota.
  rewrite Hb, finish_message.
  2:{ rewrite length_message. destruct Ht as [_ Ht]. lia. }
  fold (t_bytes (tag_counter c) t).
  assert (works (set_tag_counter ((tag_counter c + 1) mod 2 ^ 16) c)) as Hw' by (split; [done | apply Z.mod_pos_bound; lia | done]).
  rewrite transact_serves by done. cbv beta iota. cbn [queue set_tag_counter]. unfold parse, lift, answer. f_equal.
  pose proof (serve_ok t (queue c) Hup Ht) as Hr. set (r := (serve t (queue c)).1) in *. specialize (Hk r Hr).
  destruct (serve_exchange (tag_counter c) t (msize c) (queue c) Hup Ht Hg Hm) as (Hfit & _). fold r in Hfit.
  pose proof (r_type_range r) as [Hty _]. unfold MSIZE in Hm.
  destruct (reads_header (MessageParser_new (r_bytes (tag_counter c) r)) (header_for (r_type r) (tag_counter c) (r_fields r)) (fields_bytes (r_fields r)))
    as (p1 & Hh & Hp1).
  { change (ahead (MessageParser_new (r_bytes (tag_counter c) r)) (r_bytes (tag_counter c) r)). apply ahead_new. lia. }
  { assert (zlen (r_bytes (tag_counter c) r) = 7 + zlen (fields_bytes (r_fields r))) as Hlen by apply length_message.
    split_and!; cbn; unfold zlen in *; lia. }
  change (@mbind _ _) with (@mbind (M MessageParser) _). unfold mbind, M_bind. rewrite Hh. cbn [h_typ header_for]. unfold fail_if.
  destruct (expect r) as [a |]; [destruct Hk as [-> Hk] |].
  - rewrite Z.eqb_refl. cbn [negb]. unfold mret, M_ret. cbv beta iota. destruct (Hk p1 Hp1) as (l & p2 & Hp2 & _). by rewrite Hp2.
  - destruct (r_type r =? msg_type rt) eqn:E; cbn [negb]; [| done]. apply Z.eqb_eq in E. destruct Hk as [Hne | Hk]; [done |].
    unfold mret, M_ret. cbv beta iota. destruct (Hk p1 Hp1) as (p2 & Hp2). by rewrite Hp2.
Qed.

(** ** The methods *)

Lemma next_u8 p v fs : ahead p (fields_bytes (F_u8 v :: fs)) -> field_ok (F_u8 v) -> reads get_u8 p v (fields_bytes fs).
Proof. apply reads_u8. Qed.
Lemma next_u16 p v fs : ahead p (fields_bytes (F_u16 v :: fs)) -> field_ok (F_u16 v) -> reads get_u16 p v (fields_bytes fs).
Proof. apply reads_u16. Qed.
Lemma next_u32 p v fs : ahead p (fields_bytes (F_u32 v :: fs)) -> field_ok (F_u32 v) -> reads get_u32 p v (fields_bytes fs).
Proof. apply reads_u32. Qed.
Lemma next_u64 p v fs : ahead p (fields_bytes (F_u64 v :: fs)) -> field_ok (F_u64 v) -> reads get_u64 p v (fields_bytes fs).
Proof. apply reads_u64. Qed.
Lemma next_str p v fs : ahead p (fields_bytes (F_str v :: fs)) -> field_ok (F_str v) -> reads get_str p v (fields_bytes fs).
Proof. apply reads_str. Qed.
Lemma next_data p v fs : ahead p (fields_bytes (F_data v :: fs)) -> field_ok (F_data v) -> reads get_data p v (fields_bytes fs).
Proof. intros H _. by apply reads_data. Qed.
Lemma next_qid p v fs : ahead p (fields_bytes (F_qid v :: fs)) -> field_ok (F_qid v) -> reads get_qid p v (fields_bytes fs).
Proof. apply reads_qid. Qed.

(** One method of the parser, and the end *)
Ltac next_field :=
  first [ eapply next_u8 | eapply next_u16 | eapply next_u32 | eapply next_u64 | eapply next_str | eapply next_data | eapply next_qid ];
  [ eassumption | match goal with H : Forall field_ok _ |- _ => eapply Forall_inv; exact H end ].
Ltac drop_field := match goal with H : Forall field_ok (_ :: _) |- _ => apply Forall_inv_tail in H end.
Ltac parse_fields :=
  repeat (eapply reads_bind; [next_field | drop_field; intros ? ?]);
  first [ next_field | eapply reads_ret; eassumption ].

(** The replies that are not of the type, and the one that is *)
Ltac finds_tac :=
  intros r [Hok Hok']; destruct r; cbn [r_type msg_type]; try (left; lia); (split; [reflexivity |]); intros p Hp; eexists;
  cbn [r_fields] in *; parse_fields.

Lemma finds_done rt (done_ : Rmsg) :
  r_type done_ = msg_type rt -> (forall r, r_type r = r_type done_ -> r = done_) ->
  finds (mret tt) rt (fun r => if decide (r_type r = r_type done_) then Some tt else None).
Proof.
  intros Hd Hu r Hr. case_decide as E; [| left; congruence]. split; [congruence |]. intros p Hp. eexists. eapply reads_ret. exact Hp.
Qed.

Lemma finds_attach : finds get_qid Rattach (fun r => match r with R_attach q => Some q | _ => None end).
Proof. finds_tac. Qed.
Lemma finds_mkdir : finds get_qid Rmkdir (fun r => match r with R_mkdir q => Some q | _ => None end).
Proof. finds_tac. Qed.
Lemma finds_symlink : finds get_qid Rsymlink (fun r => match r with R_symlink q => Some q | _ => None end).
Proof. finds_tac. Qed.
Lemma finds_lopen : finds get_qid_iounit Rlopen (fun r => match r with R_lopen q n => Some (q, n) | _ => None end).
Proof. unfold get_qid_iounit. finds_tac. Qed.
Lemma finds_lcreate : finds get_qid_iounit Rlcreate (fun r => match r with R_lcreate q n => Some (q, n) | _ => None end).
Proof. unfold get_qid_iounit. finds_tac. Qed.
Lemma finds_read : finds get_data Rread (fun r => match r with R_read l => Some l | _ => None end).
Proof. finds_tac. Qed.
Lemma finds_write : finds get_u32 Rwrite (fun r => match r with R_write n => Some n | _ => None end).
Proof. finds_tac. Qed.
Lemma finds_readlink : finds get_str Rreadlink (fun r => match r with R_readlink s => Some s | _ => None end).
Proof. finds_tac. Qed.
Lemma finds_statfs : finds StatFs_decode Rstatfs (fun r => match r with R_statfs f => Some f | _ => None end).
Proof.
  unfold StatFs_decode. intros r [Hok Hok']. destruct r as [| | | | | | | | | | f | | | | | | | |]; cbn [r_type msg_type]; try (left; lia).
  split; [reflexivity |]. cbn [r_fields] in *. destruct f. intros p Hp. eexists. unfold statfs_fields in *. parse_fields.
Qed.
Lemma finds_getattr : finds FileAttr_decode Rgetattr (fun r => match r with R_getattr a => Some a | _ => None end).
Proof.
  unfold FileAttr_decode. intros r [Hok Hok']. destruct r as [| | | | | | | a | | | | | | | | | | |]; cbn [r_type msg_type]; try (left; lia).
  split; [reflexivity |]. cbn [r_fields] in *. destruct a. intros p Hp. eexists. unfold attr_fields in *. parse_fields.
Qed.

Lemma reads_qids qs p : ahead p (fields_bytes (map F_qid qs)) -> Forall field_ok (map F_qid qs) -> reads (get_qids (length qs)) p qs [].
Proof.
  revert p. induction qs as [| q qs IH]; intros p Hp Hok; [by apply reads_ret |]. cbn [length get_qids map] in *.
  eapply reads_bind; [next_field |]. drop_field. intros p1 H1. eapply reads_bind; [by apply IH |]. intros p2 H2. by apply reads_ret.
Qed.

Lemma finds_walk : finds (nwqid ← get_u16; get_qids (Z.to_nat nwqid)) Rwalk (fun r => match r with R_walk qs => Some qs | _ => None end).
Proof.
  intros r [Hok Hok']. destruct r as [| | qs | | | | | | | | | | | | | | | |]; cbn [r_type msg_type]; try (left; lia).
  split; [reflexivity |]. intros p Hp. eexists. cbn [r_fields] in *. eapply reads_bind; [next_field |]. drop_field. intros p1 H1.
  rewrite Nat2Z.id. by apply reads_qids.
Qed.

Lemma finds_version : finds (get_u32;; v ← get_str; fail_if (negb (bool_decide (v = VERSION))) client_error) Rversion
  (fun r => match r with R_version n v => if bool_decide (v = VERSION) then Some tt else None | _ => None end).
Proof.
  intros r [Hok Hok']. destruct r as [n v | | | | | | | | | | | | | | | | | |]; cbn [r_type msg_type]; try (left; lia).
  cbn [r_fields] in Hok. case_bool_decide as E.
  - split; [reflexivity |]. intros p Hp. eexists. cbn [r_fields] in *. subst v.
    eapply reads_bind; [next_field |]. drop_field. intros p1 H1. eapply reads_bind; [next_field |]. intros p2 H2.
    by apply reads_ret.
  - right. intros p Hp. cbn [r_fields] in Hp.
    destruct (next_u32 p n [F_str v] Hp (Forall_inv Hok)) as (p1 & E1 & H1).
    destruct (next_str p1 v [] H1 (Forall_inv (Forall_inv_tail Hok))) as (p2 & E2 & H2). exists p2.
    unfold mbind, M_bind. rewrite E1, E2. by rewrite bool_decide_eq_false_2.
Qed.
(** *** Directories *)

Definition dirents_bytes (es : list Dirent) : list u8 := concat (map (fun e => fields_bytes (dirent_fields e)) es).

Lemma finds_readdir : finds get_data Rreaddir (fun r => match r with R_readdir es => Some (dirents_bytes es) | _ => None end).
Proof. finds_tac. Qed.

Lemma reads_dirent p e l : ahead p (fields_bytes (dirent_fields e) ++ l) -> Forall field_ok (dirent_fields e) -> reads Dirent_decode p e l.
Proof.
  intros Hp Hok. assert (reads (get_fields (dirent_fields e)) p (dirent_fields e) l) as _ by by apply reads_fields.
  destruct e as [q o ty n]. unfold dirent_fields, fields_bytes in *. cbn [d_qid d_offset d_typ d_name map concat field_bytes] in *.
  rewrite app_nil_r, <- !app_assoc in Hp. unfold Dirent_decode.
  eapply reads_bind; [eapply reads_qid; [exact Hp | exact (Forall_inv Hok)] |]. drop_field. intros p1 H1.
  eapply reads_bind; [eapply reads_u64; [exact H1 | exact (Forall_inv Hok)] |]. drop_field. intros p2 H2.
  eapply reads_bind; [eapply reads_u8; [exact H2 | exact (Forall_inv Hok)] |]. drop_field. intros p3 H3.
  eapply reads_bind; [eapply reads_str; [exact H3 | exact (Forall_inv Hok)] |]. intros p4 H4. by apply reads_ret.
Qed.

Lemma length_dirent e : (0 < length (fields_bytes (dirent_fields e)))%nat.
Proof. unfold fields_bytes, dirent_fields. cbn. lia. Qed.

(** The loop returns all entries. *)
Lemma get_entries_all es p fuel :
  ahead p (dirents_bytes es) -> Forall (fun e => Forall field_ok (dirent_fields e)) es ->
  (length (dirents_bytes es) <= fuel)%nat -> get_entries fuel p = Ok es.
Proof.
  revert p fuel. induction es as [| e es IH]; intros p fuel Hp Hok Hf.
  - destruct fuel; cbn [get_entries]; rewrite (remaining_ahead p _ Hp); done.
  - unfold dirents_bytes in Hp, Hf. cbn [map concat] in Hp, Hf. fold (dirents_bytes es) in Hp, Hf. apply Forall_cons in Hok as [He Hes].
    pose proof (length_dirent e) as Hpos. rewrite length_app in Hf. destruct fuel as [| fuel]; [lia |]. cbn [get_entries].
    rewrite (remaining_ahead p _ Hp). destruct (reads_dirent p e _ Hp He) as (p' & -> & Hp').
    destruct (fields_bytes (dirent_fields e) ++ dirents_bytes es) as [| b l] eqn:E.
    { apply (f_equal length) in E. rewrite length_app in E. cbn in E. lia. }
    cbn. rewrite (IH p' fuel Hp' Hes) by lia. done.
Qed.

Lemma put_names_fields names b : put_names names b = put_fields (map F_str names) b.
Proof. unfold put_names, put_fields. revert b. induction names as [| n names IH]; intros b; cbn; [done | by rewrite IH]. Qed.

(** *** The client as a server *)

(** The method of the client for a request; what it returns is the reply. *)
Definition client_call (t : Tmsg) : M (Client9p D) Rmsg :=
  match t with
  | T_version _ _ => version;; mret (R_version 0 VERSION)
  | T_attach _ _ _ aname _ => q ← attach aname; mret (R_attach q)
  | T_walk fid new_fid names => qs ← walk fid new_fid names; mret (R_walk qs)
  | T_lopen fid flags => '(q, n) ← lopen fid flags; mret (R_lopen q n)
  | T_lcreate fid name flags mode gid => '(q, n) ← lcreate fid name flags mode gid; mret (R_lcreate q n)
  | T_read fid offset count => l ← read fid offset count; mret (R_read l)
  | T_write fid offset data => n ← write fid offset data; mret (R_write n)
  | T_getattr fid mask => a ← getattr fid mask; mret (R_getattr a)
  | T_setattr fid valid mode uid gid size asec ansec msec mnsec =>
      setattr fid valid mode uid gid size asec ansec msec mnsec;; mret R_setattr
  | T_readdir fid offset count => es ← readdir fid offset count; mret (R_readdir es)
  | T_statfs fid => f ← statfs fid; mret (R_statfs f)
  | T_clunk fid => clunk fid;; mret R_clunk
  | T_unlinkat fid name flags => unlinkat fid name flags;; mret R_unlinkat
  | T_mkdir fid name mode gid => q ← mkdir fid name mode gid; mret (R_mkdir q)
  | T_fsync fid _ => fsync fid;; mret R_fsync
  | T_symlink fid name symtgt gid => q ← symlink fid name symtgt gid; mret (R_symlink q)
  | T_readlink fid => s ← readlink fid; mret (R_readlink s)
  | T_renameat olddir oldname newdir newname => renameat olddir oldname newdir newname;; mret R_renameat
  end.

(** The requests that the client makes *)
Definition callable (t : Tmsg) : Prop :=
  match t with
  | T_version n v => n = MSIZE /\ v = VERSION
  | T_attach fid afid uname _ n => fid = root_fid /\ afid = NOFID /\ uname = "" /\ n = 0
  | T_read _ _ count => count <= MSIZE - 11
  | T_walk _ _ names => Z.of_nat (length names) < 2 ^ 16
  | T_fsync _ datasync => datasync = 0
  | _ => True
  end.

(** The reply that a request is for.  Of a version, only its name is looked at. *)
Definition right_reply (t : Tmsg) (r : Rmsg) : option Rmsg :=
  match t, r with
  | T_version _ _, R_version _ v => if bool_decide (v = VERSION) then Some (R_version 0 v) else None
  | T_attach _ _ _ _ _, R_attach _ | T_walk _ _ _, R_walk _ | T_lopen _ _, R_lopen _ _ | T_lcreate _ _ _ _ _, R_lcreate _ _
  | T_read _ _ _, R_read _ | T_write _ _ _, R_write _ | T_getattr _ _, R_getattr _
  | T_setattr _ _ _ _ _ _ _ _ _ _, R_setattr | T_readdir _ _ _, R_readdir _ | T_statfs _, R_statfs _ | T_clunk _, R_clunk
  | T_unlinkat _ _ _, R_unlinkat | T_mkdir _ _ _ _, R_mkdir _ | T_fsync _ _, R_fsync | T_symlink _ _ _ _, R_symlink _
  | T_readlink _, R_readlink _ | T_renameat _ _ _ _, R_renameat => Some r
  | _, _ => None
  end.

Lemma bind_answer {A B} (m : M (Client9p D) A) (k : A -> M (Client9p D) B) expect t c (f : A -> B) (want : Rmsg -> option B) :
  m c = answer expect t c -> (forall a s, k a s = (Ok (f a), s)) ->
  (forall r, want r = f <$> expect r) -> (m ≫= k) c = answer want t c.
Proof.
  intros Hm Hk Hw. unfold mbind, M_bind, answer in *. rewrite Hm, Hw. destruct (expect _) as [a |]; cbn; [by rewrite Hk | done].
Qed.

Lemma call_readdir fid offset count c :
  works c -> t_ok (T_readdir fid offset count) ->
  readdir fid offset count c = answer (fun r => match r with R_readdir es => Some es | _ => None end) (T_readdir fid offset count) c.
Proof.
  intros Hw Ht. pose proof Hw as [Hup Hg Hm]. unfold readdir, mbind, M_bind.
  pose proof (call_9p_serves (T_readdir fid offset count) Rreaddir (fun b => put_u32 count (put_u64 offset (put_u32 fid b)))
    get_data _ c Hw Ht ltac:(done) finds_readdir) as E. cbn [t_type] in E. rewrite E. unfold answer.
  pose proof (serve_ok _ (queue c) Hup Ht) as Hr.
  destruct (serve_exchange (tag_counter c) _ (msize c) (queue c) Hup Ht Hg Hm) as (Hfit & _).
  destruct (serve (T_readdir fid offset count) (queue c)).1 as [| | | | | | | | | es | | | | | | | | |]; try done.
  unfold lift. f_equal. apply get_entries_all; [| by destruct Hr | done]. apply ahead_new.
  assert (zlen (r_bytes (tag_counter c) (R_readdir es)) = 7 + zlen (data_bytes (dirents_bytes es) ++ [])) as Hl by apply length_message.
  rewrite app_nil_r in Hl. unfold data_bytes, MSIZE, zlen in *. rewrite length_app, length_le_bytes in Hl. lia.
Qed.

(** A method whose reply is what it returns, or nothing *)
Lemma call_answer {A} (t : Tmsg) (m : M (Client9p D) A) rt build k expect c (k' : A -> M (Client9p D) Rmsg) (f : A -> Rmsg) :
  works c -> t_ok t -> m c = call_9p (t_type t) rt build k c -> (forall b, build b = put_fields (t_fields t) b) -> finds k rt expect ->
  (forall a s, k' a s = (Ok (f a), s)) -> (forall r, right_reply t r = f <$> expect r) ->
  (m ≫= k') c = answer (right_reply t) t c.
Proof.
  intros Hw Ht Hm Hb Hf Hk Hr. eapply (bind_answer _ _ expect _ _ f); [| done | done]. rewrite Hm. by apply call_9p_serves.
Qed.

(** The methods that return nothing *)
Lemma call_done (t : Tmsg) (m : M (Client9p D) unit) rt build c done_ :
  works c -> t_ok t -> m c = call_9p (t_type t) rt build (mret tt) c -> (forall b, build b = put_fields (t_fields t) b) ->
  r_type done_ = msg_type rt -> (forall r, r_type r = r_type done_ -> r = done_) ->
  (forall r, right_reply t r = if decide (r_type r = r_type done_) then Some done_ else None) ->
  (m;; mret done_) c = answer (right_reply t) t c.
Proof.
  intros Hw Ht Hm Hb Hd Hu Hr. eapply (call_answer _ _ _ _ _ _ _ _ (fun _ => done_)); [done | done | exact Hm | done | | done |].
  - apply finds_done; [exact Hd | exact Hu].
  - intros r. rewrite Hr. by case_decide.
Qed.

(** [returns], [nothing]: the cases of the next lemma *)
Ltac returns f found :=
  eapply (call_answer _ _ _ _ _ _ _ _ f);
  [ eassumption | eassumption | reflexivity | try reflexivity | exact found
  | first [reflexivity | by intros [? ?] ?] | by intros [] ].
Ltac nothing :=
  eapply call_done; [eassumption | eassumption | reflexivity | reflexivity | reflexivity | by intros [] | by intros []].

Lemma client_call_serves t c : works c -> t_ok t -> callable t -> client_call t c = answer (right_reply t) t c.
Proof.
  intros Hw Ht Hc. destruct t; cbn [client_call callable] in *.
  - destruct Hc as [-> ->]. eapply (call_answer _ _ _ _ _ _ _ _ (fun _ => R_version 0 VERSION)); [done | done | | | exact finds_version | done |].
    + unfold version. rewrite gets_bind, (w_msize c Hw). reflexivity.
    + reflexivity.
    + intros []; try done. cbn. by case_bool_decide; subst.
  - destruct Hc as (-> & -> & -> & ->). returns R_attach finds_attach.
  - returns R_walk finds_walk. rewrite Z.mod_small by lia. intros b. exact (put_names_fields _ _).
  - returns (fun '(q, n) => R_lopen q n) finds_lopen.
  - returns (fun '(q, n) => R_lcreate q n) finds_lcreate.
  - eapply (call_answer _ _ _ _ _ _ _ _ R_read); [done | done | | | exact finds_read | done | by intros []].
    + unfold read. rewrite gets_bind, (w_msize c Hw), Z.max_r, Z.min_l by (unfold MSIZE in *; lia). reflexivity.
    + reflexivity.
  - returns R_write finds_write.
  - returns R_getattr finds_getattr.
  - nothing.
  - eapply (bind_answer _ _ _ _ _ R_readdir); [by apply call_readdir | done | by intros []].
  - returns R_statfs finds_statfs.
  - nothing.
  - nothing.
  - returns R_mkdir finds_mkdir.
  - subst datasync. nothing.
  - returns R_symlink finds_symlink.
  - returns R_readlink finds_readlink.
  - nothing.
Qed.

(** C17: each method of the client is a call of the server: it sends the request, with the
    fields that the server decodes, and returns what the reply holds if the reply is
    the one the request is for, an error if not; it never panics, and the client works on. *)
Theorem client_calls_server t c :
  works c -> t_ok t -> callable t -> client_call t c = answer (right_reply t) t c /\ works (served t c).
Proof. intros Hw Ht Hc. split; [by apply client_call_serves | by apply works_served]. Qed.
End calls.
