(* ===== verification/NinepSchemeFacts.v ===== *)
(** * The fids of a 9P server

    The interface of a server whose fids are tracked, and the calls of the
    scheme as steps of an accounting of these fids.

    In every state of the daemon the fids of the server are the root, those of the
    handles, and those that failed creations left behind. *)

From stdpp Require Import base gmap strings list fin_maps fin_sets.
From Stdlib Require Import ZArith Lia.
From Stdlib Require Import Strings.Byte.
From S2P Require Import Prelude Syscall Ninep NinepServer NinepScheme.

Local Open Scope Z_scope.

(** ** The interface *)

(** What a request and its reply do to the fids: a walk has a new fid only when it
    went all the way, a clunk ends its fid also when it fails. *)
Definition fids_after (t : Tmsg) (r : Rmsg) (F : gset Z) : gset Z :=
  match t, r with
  | T_version _ _, R_version _ _ => ∅
  | T_attach fid _ _ _ _, R_attach _ => {[fid]} ∪ F
  | T_walk _ new_fid names, R_walk qs => if (length qs =? length names)%nat then {[new_fid]} ∪ F else F
  | T_clunk fid, _ => F ∖ {[fid]}
  | _, _ => F
  end.

Class FidTable (D : Type) {Q9 : Queue9p D} {SV : Serves D} := {
  fids : D -> gset Z;
  fids_serve : forall t d, up d -> t_ok t -> fids (serve t d).2 = fids_after t (serve t d).1 (fids d);
  walk_short : forall fid new_fid names d qs, up d -> t_ok (T_walk fid new_fid names) ->
    (serve (T_walk fid new_fid names) d).1 = R_walk qs -> (length qs <= length names)%nat
}.

(** The requests that leave the fids as they are *)
Definition keeps_fids (t : Tmsg) : Prop :=
  match t with T_version _ _ | T_attach _ _ _ _ _ | T_walk _ _ _ | T_clunk _ => False | _ => True end.

Lemma fids_after_keeps t r F : keeps_fids t -> fids_after t r F = F.
Proof. by destruct t. Qed.

(** ** Paths and messages *)

Definition names_ok (names : list string) : Prop :=
  Forall str_ok names /\ Z.of_nat (length names) < 2 ^ 16 /\ zlen (fields_bytes (map F_str names)) < 2 ^ 29.

(** A path that requests can be made of: whatever its parts, they fit a message. *)
Definition path_ok (path : string) : Prop :=
  names_ok (components path) /\ names_ok (components (parent_name path).1) /\ str_ok (parent_name path).2.

Definition u32_ok (x : Z) : Prop := 0 <= x < 2 ^ 32.
Definition u64_ok (x : Z) : Prop := 0 <= x < 2 ^ 64.

Lemma zlen_app {A} (l k : list A) : zlen (l ++ k) = zlen l + zlen k.
Proof. unfold zlen. rewrite length_app. lia. Qed.

Lemma zlen_fields f fs : zlen (fields_bytes (f :: fs)) = zlen (field_bytes f) + zlen (fields_bytes fs).
Proof. unfold fields_bytes. cbn. apply zlen_app. Qed.

Lemma zlen_nil : zlen (fields_bytes []) = 0.
Proof. done. Qed.

Lemma zlen_str s : zlen (field_bytes (F_str s)) = 2 + zlen (as_bytes s).
Proof. cbn [field_bytes]. unfold str_bytes. rewrite zlen_app. unfold zlen. by rewrite length_le_bytes. Qed.
Lemma zlen_data l : zlen (field_bytes (F_data l)) = 4 + zlen l.
Proof. cbn [field_bytes]. unfold data_bytes. rewrite zlen_app. unfold zlen. by rewrite length_le_bytes. Qed.
Lemma zlen_u32 x : zlen (field_bytes (F_u32 x)) = 4.
Proof. done. Qed.
Lemma zlen_u64 x : zlen (field_bytes (F_u64 x)) = 8.
Proof. done. Qed.
Lemma zlen_u16 x : zlen (field_bytes (F_u16 x)) = 2.
Proof. done. Qed.
Create Rewrite HintDb ninep_len.
#[export] Hint Rewrite zlen_fields zlen_nil zlen_str zlen_data zlen_u32 zlen_u64 zlen_u16 : ninep_len.

(** A request is well-formed because its fields are. *)
Ltac t_ok_tac :=
  split; [repeat first [apply Forall_nil_2 | apply Forall_cons_2]; cbn [field_ok]; unfold u32_ok, u64_ok, root_fid, NOFID, MSIZE in *; try done; try lia
         | cbn [t_fields]; autorewrite with ninep_len; unfold str_ok in *; try lia].

Lemma t_ok_walk fid new_fid names : u32_ok fid -> u32_ok new_fid -> names_ok names -> t_ok (T_walk fid new_fid names).
Proof.
  intros H1 H2 (Hs & Hl & Hb). split.
  - cbn [t_fields app]. repeat apply Forall_cons_2; cbn [field_ok]; [done | done | lia |]. apply Forall_map. eapply Forall_impl; [exact Hs | done].
  - cbn [t_fields app]. autorewrite with ninep_len. lia.
Qed.

Lemma t_ok_clunk fid : u32_ok fid -> t_ok (T_clunk fid).
Proof. intros H. t_ok_tac. Qed.

Section fids.
Context {TG : Target} {SC : Syscall} {SF : SymlinkFlag} {D : Type} {Q9 : Queue9p D} {SV : Serves D} {FT : FidTable D}.
Implicit Types (c : Client9p D) (s : Scheme9p D) (hs : gmap Z Handle).

(** ** A method of the client *)

Lemma wp_call {A} t (m : M (Client9p D) A) k (f : A -> Rmsg) Q c :
  works c -> t_ok t -> callable t -> client_call t c = (m ≫= k) c -> (forall a c, k a c = (Ok (f a), c)) ->
  (forall o, o <> Panic -> (forall a, o = Ok a -> right_reply t (serve t (queue c)).1 = Some (f a)) ->
    (is_ok o = false -> right_reply t (serve t (queue c)).1 = None) -> Q o (served t c)) ->
  wp m Q c.
Proof.
  intros Hw Ht Hc Hm Hk HQ. unfold wp. rewrite client_call_serves in Hm by done. unfold answer, mbind, M_bind in Hm.
  destruct (m c) as [[a | e |] c'] eqn:E; cbn.
  - rewrite Hk in Hm. destruct (right_reply _ _) as [r |] eqn:Er; [| done]. simplify_eq. apply HQ; [done | naive_solver | done].
  - destruct (right_reply _ _) as [r |] eqn:Er; [done |]. simplify_eq. by apply HQ.
  - by destruct (right_reply _ _).
Qed.

(** ** The accounting *)

Definition held hs (f : Z) : Prop := exists i h, hs !! i = Some h /\ h_fid h = f.

(** The fids of the server: the root, those of the handles [hs], and the others [E];
    the handles, the next handle and the next fid *)
Record acct (E : gset Z) hs (nh k : Z) s : Prop := {
  a_works : works (client s);
  a_fids : forall f, f ∈ fids (queue (client s)) <-> f = root_fid \/ f ∈ E \/ held hs f;
  a_handles : handles s = hs;
  a_next : next_handle s = nh;
  a_counter : fid_counter (client s) = k
}.

(** No fid is counted twice, and those to come are new. *)
Record apart (E : gset Z) hs (nh k : Z) : Prop := {
  ap_counter : 0 < k;
  ap_extra : forall f, f ∈ E -> 0 < f < k /\ ~ held hs f;
  ap_held : forall f, held hs f -> 0 < f < k;
  ap_once : forall i j h h', hs !! i = Some h -> hs !! j = Some h' -> h_fid h = h_fid h' -> i = j;
  ap_ids : 0 < nh /\ forall i, is_Some (hs !! i) -> 0 < i < nh
}.

Lemma held_insert hs i h f : hs !! i = None -> held (<[i := h]> hs) f <-> f = h_fid h \/ held hs f.
Proof.
  intros Hi. unfold held. split.
  - intros (j & h' & Hj & Hf). apply lookup_insert_Some in Hj as [[-> ->] | [_ Hj]]; [by left | right; eauto].
  - intros [-> | (j & h' & Hj & Hf)]; [exists i, h; by rewrite lookup_insert_eq |]. exists j, h'. split; [| done].
    rewrite lookup_insert_ne; [done | congruence].
Qed.

(** The fid of a handle moves between the handles and the others. *)
Lemma held_delete E hs nh k i h f : apart E hs nh k -> hs !! i = Some h -> held (delete i hs) f <-> held hs f /\ f <> h_fid h.
Proof.
  intros Ha Hi. unfold held. split.
  - intros (j & h' & Hj & Hf). apply lookup_delete_Some in Hj as [Hne Hj]. split; [eauto |]. intros ->.
    apply Hne. exact (ap_once _ _ _ _ Ha _ _ _ _ Hi Hj (eq_sym Hf)).
  - intros [(j & h' & Hj & Hf) Hne]. exists j, h'. split; [| done]. rewrite lookup_delete_ne; [done | congruence].
Qed.

Lemma acct_set_handles E E' hs hs' nh k s :
  acct E hs nh k s -> (forall f, f ∈ E \/ held hs f <-> f ∈ E' \/ held hs' f) -> acct E' hs' nh k (set_handles hs' s).
Proof. intros [H1 H2 H3 H4 H5] He. split; try done. cbn. intros f. rewrite H2. naive_solver. Qed.

(** ** The calls of the scheme *)

Lemma wp_on_client {A} (m : M (Client9p D) A) Q s :
  wp m (fun o c => Q o (set_client c s)) (client s) -> wp (on_client m) Q s.
Proof. apply wp_zoom. Qed.

Lemma wp_or_err {A} e (m : M (Client9p D) A) Q s :
  wp (on_client m) (fun o s' => Q (match o with Err _ => Err e | o => o end) s') s -> wp (or_err e m) Q s.
Proof. unfold wp, or_err. by destruct (on_client m s) as [[] ?]. Qed.

Lemma wp_ignore {A} (m : M (Client9p D) A) Q s :
  wp (on_client m) (fun o s' => Q (match o with Panic => Panic | _ => Ok tt end) s') s -> wp (ignore m) Q s.
Proof. unfold wp, ignore. by destruct (on_client m s) as [[] ?]. Qed.

Lemma acct_served E E' hs nh k s t :
  acct E hs nh k s -> t_ok t ->
  (forall f, f ∈ fids_after t (serve t (queue (client s))).1 (fids (queue (client s))) <-> f = root_fid \/ f ∈ E' \/ held hs f) ->
  acct E' hs nh k (set_client (served t (client s)) s).
Proof.
  intros [Hw Hf Hh Hn Hk] Ht He. split; try done; cbn.
  - by apply works_served.
  - intros f. by rewrite fids_serve by (done || apply Hw).
Qed.

(** A call that keeps the fids *)
Lemma wp_ask_9p {A} t (m : M (Client9p D) A) k (f : A -> Rmsg) Q E hs nh n s :
  acct E hs nh n s -> t_ok t -> callable t -> keeps_fids t ->
  client_call t (client s) = (m ≫= k) (client s) -> (forall a c, k a c = (Ok (f a), c)) ->
  (forall o s', o <> Panic -> acct E hs nh n s' -> Q o s') -> wp (on_client m) Q s.
Proof.
  intros Ha Ht Hc Hkeep Hm Hk HQ. apply wp_on_client. eapply wp_call; [apply Ha | exact Ht | exact Hc | exact Hm | exact Hk |].
  intros o Ho _ _. apply HQ; [done |]. eapply acct_served; [exact Ha | exact Ht |]. intros f'.
  rewrite fids_after_keeps by done. apply Ha.
Qed.

Lemma wp_clunk E E' hs nh n s fid Q :
  acct E hs nh n s -> u32_ok fid -> fid <> root_fid -> ~ held hs fid -> (forall f, f ∈ E' <-> f ∈ E /\ f <> fid) ->
  (forall s', acct E' hs nh n s' -> Q (Ok tt) s') -> wp (ignore (clunk fid)) Q s.
Proof.
  intros Ha Hu Hr Hh He HQ. apply wp_ignore, wp_on_client.
  eapply (wp_call (T_clunk fid) _ _ (fun _ => R_clunk)); [apply Ha | by apply t_ok_clunk | done | reflexivity | done |].
  intros o Ho _ _. assert (acct E' hs nh n (set_client (served (T_clunk fid) (client s)) s)) as Ha'.
  { eapply acct_served; [exact Ha | by apply t_ok_clunk |]. intros f. pose proof (a_fids _ _ _ _ _ Ha f). cbn. set_solver. }
  destruct o; [by apply HQ | by apply HQ | done].
Qed.

(** A walk from the root to a new fid.  A failed walk, and one that stopped on
    the way, leave no fid. *)
Lemma wp_walk E hs nh n s fid names Q :
  acct E hs nh n s -> u32_ok fid -> names_ok names ->
  (forall qs s', (length qs <= length names)%nat ->
    acct (if (length qs =? length names)%nat then {[fid]} ∪ E else E) hs nh n s' -> Q (Ok qs) s') ->
  (forall e s', acct E hs nh n s' -> Q (Err e) s') -> wp (on_client (walk root_fid fid names)) Q s.
Proof.
  intros Ha Hu Hn HO HE. assert (t_ok (T_walk root_fid fid names)) as Ht by (by apply t_ok_walk).
  apply wp_on_client. eapply (wp_call (T_walk root_fid fid names) _ _ R_walk); [apply Ha | exact Ht | apply Hn | reflexivity | done |].
  pose proof (a_fids _ _ _ _ _ Ha) as Hf.
  intros [qs | e |] Hne Hok Her; [| | done].
  - specialize (Hok qs eq_refl). set (r := (serve _ _).1) in Hok. assert (r = R_walk qs) as Hr by (by destruct r; simplify_eq/=).
    apply HO; [eapply walk_short; [apply Ha | exact Ht | exact Hr] |]. eapply acct_served; [exact Ha | exact Ht |].
    intros f. unfold r in Hr. rewrite Hr. cbn. specialize (Hf f). destruct (_ =? _)%nat; set_solver.
  - specialize (Her eq_refl). set (r := (serve _ _).1) in Her. apply HE. eapply acct_served; [exact Ha | exact Ht |].
    intros f. fold r. rewrite <- Hf. by destruct r.
Qed.

Lemma wp_alloc_9p E hs nh n s Q :
  acct E hs nh n s -> 0 <= n -> n + 1 < 2 ^ 32 -> (forall s', acct E hs nh (n + 1) s' -> Q (Ok n) s') -> wp (on_client alloc_fid) Q s.
Proof.
  intros [Hw Hf Hh Hnx Hk] H0 Hn HQ. apply wp_on_client. unfold alloc_fid.
  apply wp_bind, wp_gets, wp_bind, wp_modify, wp_ret. rewrite Hk, Z.mod_small by lia. apply HQ. destruct Hw. by split.
Qed.
End fids.

(** ** Flags and modes *)

Lemma to_9p_flags_u32 `{Syscall} flags : u32_ok (to_9p_flags flags).
Proof. unfold to_9p_flags, access_flags, u32_ok. repeat case_match; by vm_compute. Qed.
Lemma to_9p_lopen_flags_u32 `{Syscall} flags : u32_ok (to_9p_lopen_flags flags).
Proof. unfold to_9p_lopen_flags, access_flags, u32_ok. repeat case_match; by vm_compute. Qed.

Lemma create_mode_u32 flags : u32_ok (Z.lor (Z.land flags 0xFFF) 0x8000).
Proof.
  change 0xFFF with (Z.ones 12). rewrite Z.land_ones by lia.
  assert (Z.land (flags mod 2 ^ 12) 0x8000 = 0) as Hz.
  { apply Z.bits_inj'. intros n Hn. rewrite Z.land_spec, Z.bits_0. change 0x8000 with (2 ^ 15). rewrite Z.pow2_bits_eqb by lia.
    destruct (Z.eqb_spec 15 n) as [<- |]; [| by rewrite andb_false_r]. rewrite Z.mod_pow2_bits_high by lia. done. }
  rewrite <- Z.lxor_lor by exact Hz. rewrite <- Z.add_nocarry_lxor by exact Hz.
  pose proof (Z.mod_pos_bound flags (2 ^ 12) ltac:(lia)). unfold u32_ok. lia.
Qed.

(** ** Requests *)

(** Requests whose arguments are of their types, and fit a message *)
Definition request_ok {B} (r : Request B) : Prop :=
  match r with
  | R_open path _ ctx => path_ok path /\ u32_ok (ctx_gid ctx)
  | R_read _ buf offset _ => u64_ok offset
  | R_write _ buf offset => u64_ok offset /\ zlen buf < 2 ^ 29
  | R_getdents _ _ offset => u64_ok offset
  | R_unlinkat _ path _ => str_ok path
  | R_fchmod _ mode => 0 <= mode < 2 ^ 16
  | R_fchown _ uid gid => u32_ok uid /\ u32_ok gid
  | R_ftruncate _ len => u64_ok len
  | R_frename _ new_path => path_ok new_path
  | _ => True
  end.

(** The opens that may create a file *)
Definition creates `{Syscall} {B} (r : Request B) : bool :=
  match r with R_open _ flags _ => any_set flags O_CREAT | _ => false end.

Section fids.
Context {TG : Target} {SC : Syscall} {SF : SymlinkFlag} {D : Type} {Q9 : Queue9p D} {SV : Serves D} {FT : FidTable D}.
Implicit Types (s : Scheme9p D) (hs : gmap Z Handle).

(** ** Fids that are new *)

Lemma apart_more E hs nh n n' : apart E hs nh n -> n <= n' -> apart E hs nh n'.
Proof.
  intros [H1 H2 H3 H4 H5] Hn. split; [lia | | | done | done].
  - intros f Hf. destruct (H2 f Hf). split; [lia | done].
  - intros f Hf. specialize (H3 f Hf). lia.
Qed.

(** A new fid, if there is one, is clunked. *)
Lemma wp_clunk_new (b : bool) E hs nh n s fid Q :
  acct (if b then {[fid]} ∪ E else E) hs nh n s -> apart E hs nh fid -> fid < 2 ^ 32 ->
  (forall s', acct E hs nh n s' -> Q (Ok tt) s') -> wp (ignore (clunk fid)) Q s.
Proof.
  intros Ha Hp Hu HQ. pose proof (ap_counter _ _ _ _ Hp).
  eapply (wp_clunk _ E); [exact Ha | by unfold u32_ok; lia | by unfold root_fid; lia | | | done].
  - intros Hh. pose proof (ap_held _ _ _ _ Hp _ Hh). lia.
  - intros f. split; [| destruct b; set_solver]. intros Hf. split; [destruct b; set_solver |].
    pose proof (ap_extra _ _ _ _ Hp _ Hf). lia.
Qed.

Lemma apart_alloc (b : bool) E hs nh n : apart E hs nh n -> apart (if b then {[n]} ∪ E else E) hs nh (n + 1).
Proof.
  intros Hp. pose proof (apart_more _ _ _ _ (n + 1) Hp ltac:(lia)) as [H1 H2 H3 H4 H5]. destruct b; [| done].
  split; [done | | done | done | done]. intros f Hf. apply elem_of_union in Hf as [Hf | Hf]; [| by apply H2].
  apply elem_of_singleton in Hf as ->. pose proof (ap_counter _ _ _ _ Hp). split; [lia |].
  intros Hh. pose proof (ap_held _ _ _ _ Hp _ Hh). lia.
Qed.

Lemma apart_insert E hs nh n n' h :
  apart E hs nh n -> n <= h_fid h < n' -> apart E (<[nh := h]> hs) (nh + 1) n'.
Proof.
  intros Hp Hn. pose proof (ap_ids _ _ _ _ Hp) as [Hn0 Hids]. pose proof (ap_counter _ _ _ _ Hp).
  assert (hs !! nh = None) as Hnew. { apply eq_None_not_Some. intros Hs. specialize (Hids _ Hs). lia. }
  pose proof (ap_held _ _ _ _ Hp) as Hheld.
  split; [lia | | | | split; [lia |]].
  - intros f Hf. destruct (ap_extra _ _ _ _ Hp f Hf) as [? Hnot]. split; [lia |]. rewrite held_insert by done. intros [-> |]; [lia | done].
  - intros f. rewrite held_insert by done. intros [-> | Hf]; [lia |]. specialize (Hheld f Hf). lia.
  - intros i j h1 h2 Hi Hj Hf. apply lookup_insert_Some in Hi as [[<- <-] | [Hi0 Hi]], Hj as [[<- <-] | [Hj0 Hj]]; [done | | |].
    + specialize (Hheld (h_fid h)). destruct Hheld; [by exists j, h2 | lia].
    + specialize (Hheld (h_fid h)). destruct Hheld; [by exists i, h1 | lia].
    + exact (ap_once _ _ _ _ Hp _ _ _ _ Hi Hj Hf).
  - intros i Hi. apply lookup_insert_is_Some in Hi as [<- | [_ Hi]]; [lia |]. specialize (Hids _ Hi). lia.
Qed.

Lemma apart_delete E hs nh n i : apart E hs nh n -> apart E (delete i hs) nh n.
Proof.
  intros [H1 H2 H3 H4 [H5 H6]]. assert (forall f, held (delete i hs) f -> held hs f) as Hsub.
  { intros f (j & h & Hj & Hf). apply lookup_delete_Some in Hj as [_ Hj]. by exists j, h. }
  split; [done | | | | split; [done |]].
  - intros f Hf. destruct (H2 f Hf). eauto.
  - eauto.
  - intros j k h h' Hj Hk. apply lookup_delete_Some in Hj as [_ Hj], Hk as [_ Hk]. eauto.
  - intros j [h Hj]. apply lookup_delete_Some in Hj as [_ Hj]. eauto.
Qed.

(** A handle's path is no part of the accounting. *)
Definition with_path (path : string) (h : Handle) : Handle :=
  {| h_fid := h_fid h; h_path := path; h_qid := h_qid h; h_flags := h_flags h; h_dir_offset := h_dir_offset h |}.

Lemma lookup_with_path hs i h path j :
  hs !! i = Some h -> h_fid <$> (<[i := with_path path h]> hs !! j) = h_fid <$> hs !! j.
Proof. intros Hi. destruct (decide (i = j)) as [<- |]; [by rewrite lookup_insert_eq, Hi | by rewrite lookup_insert_ne]. Qed.

Lemma held_with_path hs i h path f : hs !! i = Some h -> held (<[i := with_path path h]> hs) f <-> held hs f.
Proof.
  intros Hi. pose proof (fun j => lookup_with_path hs i h path j Hi) as He.
  split; intros (j & h' & Hj & Hf); specialize (He j); rewrite Hj in He; cbn in He.
  - symmetry in He. apply fmap_Some in He as (h2 & H2 & E2). exists j, h2. split; [done | congruence].
  - apply fmap_Some in He as (h2 & H2 & E2). exists j, h2. split; [done | congruence].
Qed.

Lemma apart_with_path E hs nh n i h path : apart E hs nh n -> hs !! i = Some h -> apart E (<[i := with_path path h]> hs) nh n.
Proof.
  intros [H1 H2 H3 H4 [H5 H6]] Hi. split; [done | | | | split; [done |]].
  - intros f Hf. rewrite held_with_path by done. auto.
  - intros f. rewrite held_with_path by done. auto.
  - intros j k h1 h2 Hj Hk Hf. pose proof (lookup_with_path hs i h path j Hi) as Ej. pose proof (lookup_with_path hs i h path k Hi) as Ek.
    rewrite Hj in Ej. rewrite Hk in Ek. cbn in Ej, Ek. symmetry in Ej, Ek. apply fmap_Some in Ej as (g1 & G1 & E1), Ek as (g2 & G2 & E2).
    apply (H4 j k g1 g2 G1 G2). congruence.
  - intros j Hj. apply H6. apply lookup_insert_is_Some in Hj as [<- | [_ Hj]]; [by exists h | done].
Qed.

(** ** Opening *)

(** What [walk_path] gives: a new fid, or no fid and [ENOENT] *)
Lemma wp_walk_path E hs nh n s path Q :
  acct E hs nh n s -> apart E hs nh n -> n + 1 < 2 ^ 32 -> names_ok (components path) ->
  (forall q s', acct ({[n]} ∪ E) hs nh (n + 1) s' -> Q (Ok (n, q)) s') ->
  (forall s', acct E hs nh (n + 1) s' -> Q (Err ENOENT) s') -> wp (walk_path path) Q s.
Proof.
  intros Ha Hp Hn Hc HO HE. pose proof (ap_counter _ _ _ _ Hp). unfold walk_path.
  apply wp_bind. eapply wp_alloc_9p; [exact Ha | lia | lia |]. intros s1 Ha1.
  apply wp_bind, wp_or_err. eapply wp_walk; [exact Ha1 | by unfold u32_ok; lia | exact Hc | | intros e s2 Ha2; by apply HE].
  intros qs s2 Hl Ha2. destruct (length qs =? length (components path))%nat eqn:El.
  - rewrite andb_false_r. apply wp_bind, wp_gets, wp_ret. by apply HO.
  - apply Nat.eqb_neq in El. rewrite (proj2 (Nat.ltb_lt _ _)) by lia. cbn [negb andb].
    apply wp_bind. eapply (wp_clunk_new false); [exact Ha2 | exact Hp | lia |]. intros s3 Ha3. by apply wp_throw, HE.
Qed.

Lemma wp_create E hs nh n s path flags ctx Q :
  acct E hs nh n s -> apart E hs nh n -> n + 1 < 2 ^ 32 -> path_ok path -> u32_ok (ctx_gid ctx) ->
  (forall q s', acct ({[n]} ∪ E) hs nh (n + 1) s' -> Q (Ok (n, q, true)) s') ->
  (forall e s', acct E hs nh (n + 1) s' -> Q (Err e) s') ->
  (forall s', acct ({[n]} ∪ E) hs nh (n + 1) s' -> Q (Err EIO) s') -> wp (create path flags ctx) Q s.
Proof.
  intros Ha Hp Hn (_ & Hpar & Hname) Hg HO HE HL. pose proof (ap_counter _ _ _ _ Hp). unfold create.
  destruct (parent_name path) as [parent name]. cbn [fst snd] in *. apply wp_bind.
  assert (forall (q : Qid) s', acct ({[n]} ∪ E) hs nh (n + 1) s' ->
    wp (let '(parent_fid, _) := (n, q) in
        '(qid, _) ← or_err EIO (lcreate parent_fid name (to_9p_flags flags) (Z.lor (Z.land flags 0xFFF) 0x8000) (ctx_gid ctx));
        mret (parent_fid, qid, true)) Q s') as Hlast.
  { intros _ s' Ha'. apply wp_bind, wp_or_err. pose proof (to_9p_flags_u32 flags). pose proof (create_mode_u32 flags).
    eapply (wp_ask_9p (T_lcreate n name (to_9p_flags flags) (Z.lor (Z.land flags 0xFFF) 0x8000) (ctx_gid ctx)) _ _ (fun '(q, n) => R_lcreate q n));
      [exact Ha' | t_ok_tac | done | done | reflexivity | by intros [? ?] ? |].
    intros [[q k] | e |] s3 Ho Ha3; [by apply HO | by apply HL | done]. }
  destruct (str_is_empty parent).
  - apply wp_bind. eapply wp_alloc_9p; [exact Ha | lia | lia |]. intros s1 Ha1.
    apply wp_bind, wp_or_err. eapply (wp_walk _ _ _ _ _ _ []); [exact Ha1 | by unfold u32_ok; lia | by split_and! | | intros e s2 Ha2; by apply HE].
    intros [| q qs] s2 Hl Ha2; [| cbn in Hl; lia]. apply wp_bind, wp_gets, wp_ret. by apply Hlast.
  - eapply wp_walk_path; [exact Ha | exact Hp | exact Hn | exact Hpar | by auto | by auto].
Qed.

(** What [open] leaves when it fails: nothing, or the fid of a failed creation *)
Definition left_behind (flags n n' : Z) (E E' : gset Z) (e : errno) : Prop :=
  E' = E \/ any_set flags O_CREAT = true /\ e = EIO /\ n' = n + 2 /\ E' = {[n + 1]} ∪ E.

Lemma wp_find_or_create E hs nh n s path flags ctx Q :
  acct E hs nh n s -> apart E hs nh n -> n + 2 < 2 ^ 32 -> path_ok path -> u32_ok (ctx_gid ctx) ->
  (forall fid q b n' s', n <= fid < n' -> n' <= n + 2 -> acct ({[fid]} ∪ E) hs nh n' s' -> Q (Ok (fid, q, b)) s') ->
  (forall e n' E' s', n <= n' <= n + 2 -> left_behind flags n n' E E' e -> acct E' hs nh n' s' -> Q (Err e) s') ->
  wp (find_or_create path flags ctx) Q s.
Proof.
  intros Ha Hp Hn Hpath Hg HO HE. pose proof (ap_counter _ _ _ _ Hp).
  assert (wp (walk_path path) (fun o s' => match o with
      | Ok (fid, q) => Q (Ok (fid, q, false)) s'
      | Err e => e = ENOENT /\ acct E hs nh (n + 1) s'
      | Panic => False end) s) as Hwalk.
  { eapply wp_walk_path; [exact Ha | exact Hp | lia | apply Hpath | | done]. intros q s' Ha'. by apply (HO _ _ _ (n + 1)); [lia | lia |]. }
  unfold wp, find_or_create in *. destruct (walk_path path s) as [[[fid q] | e |] s1]; cbn [fst snd] in *; [done | | done].
  destruct Hwalk as [-> Ha1]. destruct (any_set flags O_CREAT) eqn:Ec; cbn [fst snd].
  2:{ apply (HE _ (n + 1) E); [lia | by left | done]. }
  assert (apart E hs nh (n + 1)) as Hp1 by by apply apart_more with n; [| lia].
  replace (n + 2) with (n + 1 + 1) in * by lia.
  apply (wp_create E hs nh (n + 1) s1 path flags ctx Q Ha1 Hp1); [lia | done | done | | |].
  - intros q s' Ha'. apply (HO _ _ _ (n + 1 + 1)); [lia | lia | done].
  - intros e s' Ha'. apply (HE _ (n + 1 + 1) E); [lia | by left | done].
  - intros s' Ha'. apply (HE _ (n + 1 + 1) ({[n + 1]} ∪ E)); [lia | right; split_and!; done || lia | done].
Qed.

Lemma wp_open_fid E hs nh n s fid flags Q :
  acct ({[fid]} ∪ E) hs nh n s -> apart E hs nh fid -> u32_ok fid ->
  (forall s', acct ({[fid]} ∪ E) hs nh n s' -> Q (Ok tt) s') ->
  (forall s', acct E hs nh n s' -> Q (Err EIO) s') -> wp (open_fid fid flags) Q s.
Proof.
  intros Ha Hp Hu HO HE. pose proof (to_9p_lopen_flags_u32 flags).
  assert (wp (on_client (lopen fid (to_9p_lopen_flags flags))) (fun o s' => o <> Panic /\ acct ({[fid]} ∪ E) hs nh n s') s) as Hopen.
  { eapply (wp_ask_9p (T_lopen fid (to_9p_lopen_flags flags)) _ _ (fun '(q, n) => R_lopen q n));
      [exact Ha | t_ok_tac | done | done | reflexivity | by intros [? ?] ? | done]. }
  unfold wp, open_fid in *. destruct (on_client _ s) as [[[q k] | e |] s1]; cbn [fst snd] in *; [apply HO, Hopen | | by destruct Hopen].
  apply (wp_bind (ignore (clunk fid)) (fun _ => throw EIO)). eapply (wp_clunk_new true); [apply Hopen | exact Hp | apply Hu |]. intros s' Ha'. by apply wp_throw, HE.
Qed.

Definition opened E hs nh n path flags (o : outcome OpenResult) s' : Prop :=
  match o with
  | Ok _ => exists fid q n', n <= fid < n' /\ n' <= n + 2 /\
      acct E (<[nh := {| h_fid := fid; h_path := path; h_qid := q; h_flags := flags; h_dir_offset := 0 |}]> hs) (nh + 1) n' s'
  | Err e => exists n' E', n <= n' <= n + 2 /\ left_behind flags n n' E E' e /\ acct E' hs nh n' s'
  | Panic => False
  end.

(** [open] adds a handle with a new fid; a failure leaves nothing, or the fid of a
    failed creation. *)
Lemma wp_open E hs nh n s path flags ctx :
  acct E hs nh n s -> apart E hs nh n -> n + 2 < 2 ^ 32 -> nh + 1 < usize_mod -> path_ok path -> u32_ok (ctx_gid ctx) ->
  wp (open path flags ctx) (opened E hs nh n path flags) s.
Proof.
  intros Ha Hp Hn Hnh Hpath Hg. pose proof (ap_counter _ _ _ _ Hp). unfold open. apply wp_bind.
  eapply wp_find_or_create; [exact Ha | exact Hp | exact Hn | exact Hpath | exact Hg | | intros e n' E' s' Hn' HE' Ha'; exists n', E'; done].
  intros fid q b n' s1 Hfid Hn' Ha1.
  assert (forall e, wp (A := OpenResult) (ignore (clunk fid);; throw e) (opened E hs nh n path flags) s1) as Hclunk.
  { intros e. apply wp_bind. eapply (wp_clunk_new true); [exact Ha1 | by apply apart_more with n; [| lia] | lia |]. intros s2 Ha2. apply wp_throw.
    exists n', E. split_and!; [lia | lia | by left | done]. }
  assert (forall s2, acct ({[fid]} ∪ E) hs nh n' s2 -> wp (
    handle_id ← gets next_handle;
    next ← usize_add handle_id 1;
    modify (set_next_handle next);;
    modify (fun s => set_handles (<[handle_id := {| h_fid := fid; h_path := path; h_qid := q; h_flags := flags;
                                                    h_dir_offset := 0 |}]> (handles s)) s);;
    mret (ThisScheme handle_id fd_POSITIONED)) (opened E hs nh n path flags) s2) as Hlast.
  { intros s2 Ha2. pose proof (ap_ids _ _ _ _ Hp) as [Hn0 Hids]. apply wp_bind, wp_gets, wp_bind. rewrite (a_next _ _ _ _ _ Ha2).
    unfold wp at 1. rewrite usize_add_ok by lia. apply wp_bind, wp_modify, wp_bind, wp_modify, wp_ret.
    exists fid, q, n'. split_and!; [lia | lia | lia |]. destruct Ha2 as [Hw Hf Hh Hnx Hk]. split; try done; cbn; [| by rewrite Hh].
    intros f. rewrite Hf, held_insert.
    - cbn. set_solver.
    - apply eq_None_not_Some. intros Hs. specialize (Hids _ Hs). lia. }
  destruct (is_symlink q && _ && _); [apply Hclunk |]. destruct (negb _ && _ && _); [apply Hclunk |]. apply wp_bind.
  destruct (negb _ && _ && _); [| by apply wp_ret, Hlast].
  eapply wp_open_fid; [exact Ha1 | by apply apart_more with n; [| lia] | by unfold u32_ok; lia | exact Hlast |].
  intros s2 Ha2. exists n', E. split_and!; [lia | lia | by left | done].
Qed.
(** ** Calls on a handle *)

Lemma bind_ext_l {S A B} (m m' : M S A) (k : A -> M S B) (s : S) : m s = m' s -> (m ≫= k) s = (m' ≫= k) s.
Proof. intros E. unfold mbind, M_bind. by rewrite E. Qed.

(** The call leaves the accounting as it is. *)
Definition quiet {A} (m : M (Scheme9p D) A) E hs nh n s : Prop := wp m (fun _ s' => acct E hs nh n s') s.

Lemma quiet_handle {A} i (k : Handle -> M (Scheme9p D) A) E hs nh n s :
  acct E hs nh n s -> apart E hs nh n -> n < 2 ^ 32 ->
  (forall h, hs !! i = Some h -> u32_ok (h_fid h) -> quiet (k h) E hs nh n s) -> quiet (h ← handle_at i; k h) E hs nh n s.
Proof.
  intros Ha Hp Hn Hk. unfold quiet, handle_at. apply wp_bind, wp_bind, wp_gets, wp_ok_or; [| done].
  intros h Hi. rewrite (a_handles _ _ _ _ _ Ha) in Hi. apply Hk; [done |].
  pose proof (ap_held _ _ _ _ Hp (h_fid h) ltac:(by exists i, h)). unfold u32_ok. lia.
Qed.

(** What remains when the call of the client has answered *)
Lemma quiet_ask {A B} t e (m : M (Client9p D) A) k (f : A -> Rmsg) (m' : A -> M (Scheme9p D) B) E hs nh n s :
  acct E hs nh n s -> t_ok t -> callable t -> keeps_fids t ->
  client_call t (client s) = (m ≫= k) (client s) -> (forall a c, k a c = (Ok (f a), c)) ->
  (forall a s', acct E hs nh n s' -> quiet (m' a) E hs nh n s') -> quiet (a ← or_err e m; m' a) E hs nh n s.
Proof.
  intros Ha Ht Hc Hkeep Hm Hk Hm'. unfold quiet. apply wp_bind, wp_or_err. eapply wp_ask_9p; [exact Ha | exact Ht | exact Hc | exact Hkeep | exact Hm | exact Hk |].
  intros [a | |] s' Ho Ha'; [by apply Hm' | done | done].
Qed.

Lemma quiet_ask_last {A} t e (m : M (Client9p D) A) k (f : A -> Rmsg) E hs nh n s :
  acct E hs nh n s -> t_ok t -> callable t -> keeps_fids t ->
  client_call t (client s) = (m ≫= k) (client s) -> (forall a c, k a c = (Ok (f a), c)) -> quiet (or_err e m) E hs nh n s.
Proof.
  intros Ha Ht Hc Hkeep Hm Hk. unfold quiet. apply wp_or_err. eapply wp_ask_9p; [exact Ha | exact Ht | exact Hc | exact Hkeep | exact Hm | exact Hk |]. done.
Qed.

Lemma quiet_read E hs nh n s i buf offset fcntl_flags :
  acct E hs nh n s -> apart E hs nh n -> n < 2 ^ 32 -> u64_ok offset -> quiet (read i buf offset fcntl_flags) E hs nh n s.
Proof.
  intros Ha Hp Hn Ho. apply quiet_handle; [done | done | done |]. intros h Hi Hf. destruct (is_dir _); [done |]. destruct (is_symlink _ && _).
  - eapply (quiet_ask (T_readlink (h_fid h)) _ _ _ R_readlink); [exact Ha | t_ok_tac | done | done | reflexivity | done |].
    intros target s' Ha'. unfold quiet. destruct (_ <=? _); by apply wp_ret.
  - unfold quiet. apply wp_bind, wp_fail_if; [done |]. intros _. set (count := zlen buf mod 2 ^ 32).
    assert (0 <= count < 2 ^ 32) as Hc by (apply Z.mod_pos_bound; lia).
    set (count' := Z.min count (Z.max 0 (MSIZE - 11))). assert (0 <= count' <= MSIZE - 11) as Hc' by (unfold count', MSIZE; lia).
    eapply (quiet_ask (T_read (h_fid h) offset count') _ _ _ NinepServer.R_read);
      [exact Ha | t_ok_tac | cbn; lia | done | | done | done].
    cbn [client_call]. apply bind_ext_l. unfold Ninep.read. rewrite !gets_bind, (w_msize _ (a_works _ _ _ _ _ Ha)). fold count'.
    rewrite (Z.min_l count'); [done | unfold MSIZE in *; lia].
Qed.

(** The calls that are one request *)
Ltac quiet_handle_tac :=
  match goal with Ha : acct _ _ _ _ _, Hp : apart _ _ _ _ |- _ => apply quiet_handle; [exact Ha | exact Hp | done |] end;
  intros h Hi Hf; repeat match goal with |- quiet (if ?b then _ else _) _ _ _ _ _ => destruct b; [done |] end.

Lemma quiet_write E hs nh n s i buf offset :
  acct E hs nh n s -> apart E hs nh n -> n < 2 ^ 32 -> u64_ok offset -> zlen buf < 2 ^ 29 -> quiet (write i buf offset) E hs nh n s.
Proof.
  intros Ha Hp Hn Ho Hb. quiet_handle_tac.
  eapply (quiet_ask_last (T_write (h_fid h) offset buf) _ _ _ NinepServer.R_write); [exact Ha | t_ok_tac | done | done | reflexivity | done].
Qed.

Lemma quiet_getdents {B} (entry : B -> DirEntry -> DirentKind -> outcome B) E hs nh n s i buf offset :
  acct E hs nh n s -> apart E hs nh n -> n < 2 ^ 32 -> u64_ok offset -> quiet (getdents entry i buf offset) E hs nh n s.
Proof.
  intros Ha Hp Hn Ho. quiet_handle_tac.
  eapply (quiet_ask (T_readdir (h_fid h) offset 4096) _ _ _ R_readdir); [exact Ha | t_ok_tac | done | done | reflexivity | done |].
  intros es s' Ha'. by apply wp_lift.
Qed.

Lemma quiet_fstat E hs nh n s i : acct E hs nh n s -> apart E hs nh n -> n < 2 ^ 32 -> quiet (fstat i) E hs nh n s.
Proof.
  intros Ha Hp Hn. quiet_handle_tac.
  eapply (quiet_ask (T_getattr (h_fid h) P9_GETATTR_BASIC) _ _ _ R_getattr); [exact Ha | t_ok_tac | done | done | reflexivity | done | done].
Qed.

Lemma quiet_fstatvfs E hs nh n s i : acct E hs nh n s -> apart E hs nh n -> n < 2 ^ 32 -> quiet (fstatvfs i) E hs nh n s.
Proof.
  intros Ha Hp Hn. quiet_handle_tac.
  eapply (quiet_ask (T_statfs (h_fid h)) _ _ _ R_statfs); [exact Ha | t_ok_tac | done | done | reflexivity | done | done].
Qed.

Lemma quiet_fpath E hs nh n s i buf : acct E hs nh n s -> apart E hs nh n -> n < 2 ^ 32 -> quiet (fpath i buf) E hs nh n s.
Proof. intros Ha Hp Hn. quiet_handle_tac. unfold quiet. by apply wp_bind, wp_gets, wp_ret. Qed.

Lemma quiet_fsync E hs nh n s i : acct E hs nh n s -> apart E hs nh n -> n < 2 ^ 32 -> quiet (fsync i) E hs nh n s.
Proof.
  intros Ha Hp Hn. quiet_handle_tac.
  eapply (quiet_ask_last (T_fsync (h_fid h) 0) _ _ _ (fun _ => NinepServer.R_fsync)); [exact Ha | t_ok_tac | done | done | reflexivity | done].
Qed.

Lemma quiet_unlinkat E hs nh n s i path flags :
  acct E hs nh n s -> apart E hs nh n -> n < 2 ^ 32 -> str_ok path -> quiet (unlinkat i path flags) E hs nh n s.
Proof.
  intros Ha Hp Hn Hs. quiet_handle_tac.
  eapply (quiet_ask_last (T_unlinkat (h_fid h) path (if any_set flags AT_REMOVEDIR then 0x200 else 0)) _ _ _ (fun _ => NinepServer.R_unlinkat));
    [exact Ha | destruct (any_set _ _); t_ok_tac | done | done | reflexivity | done].
Qed.

(** [setattr], whose fields are in range *)
Lemma quiet_setattr E hs nh n s fid valid mode uid gid size asec ansec msec mnsec :
  acct E hs nh n s -> u32_ok fid -> u32_ok valid -> u32_ok mode -> u32_ok uid -> u32_ok gid -> u64_ok size -> u64_ok asec ->
  u64_ok ansec -> u64_ok msec -> u64_ok mnsec -> quiet (or_err EIO (setattr fid valid mode uid gid size asec ansec msec mnsec)) E hs nh n s.
Proof.
  intros Ha. intros.
  eapply (quiet_ask_last (T_setattr fid valid mode uid gid size asec ansec msec mnsec) _ _ _ (fun _ => R_setattr));
    [exact Ha | t_ok_tac | done | done | reflexivity | done].
Qed.

Lemma as_u64_ok x : u64_ok (as_u64 x).
Proof. apply Z.mod_pos_bound. lia. Qed.

Ltac quiet_setattr_tac :=
  apply quiet_setattr; try done; try apply as_u64_ok; unfold u32_ok, u64_ok in *; try lia; by vm_compute.

Lemma quiet_fchmod E hs nh n s i mode :
  acct E hs nh n s -> apart E hs nh n -> n < 2 ^ 32 -> 0 <= mode < 2 ^ 16 -> quiet (fchmod i mode) E hs nh n s.
Proof. intros Ha Hp Hn Hm. quiet_handle_tac. quiet_setattr_tac. Qed.
Lemma quiet_fchown E hs nh n s i uid gid :
  acct E hs nh n s -> apart E hs nh n -> n < 2 ^ 32 -> u32_ok uid -> u32_ok gid -> quiet (fchown i uid gid) E hs nh n s.
Proof. intros Ha Hp Hn Hu Hg. quiet_handle_tac. quiet_setattr_tac. Qed.
Lemma quiet_ftruncate E hs nh n s i len :
  acct E hs nh n s -> apart E hs nh n -> n < 2 ^ 32 -> u64_ok len -> quiet (ftruncate i len) E hs nh n s.
Proof. intros Ha Hp Hn Hl. quiet_handle_tac. quiet_setattr_tac. Qed.
Lemma quiet_futimens E hs nh n s i times : acct E hs nh n s -> apart E hs nh n -> n < 2 ^ 32 -> quiet (futimens i times) E hs nh n s.
Proof. intros Ha Hp Hn. quiet_handle_tac. destruct times as [| a [| m times]]; [done | done |]. quiet_setattr_tac. Qed.

(** ** Renaming and closing *)

Lemma wp_result_of {A} (m : M (Client9p D) A) Q s :
  wp (on_client m) (fun o s' => Q (match o with Ok a => Ok (Some a) | Err _ => Ok None | Panic => Panic end) s') s -> wp (result_of m) Q s.
Proof. unfold wp, result_of. by destruct (on_client m s) as [[] ?]. Qed.

(** The walk to the new parent.  It takes the first fid back when it fails. *)
Lemma wp_walk_new_parent (b : bool) E hs nh n s fid names Q :
  acct (if b then {[fid]} ∪ E else E) hs nh n s -> apart E hs nh fid -> fid + 1 < 2 ^ 32 -> names_ok names ->
  (forall (b' : bool) s', acct (if b' then {[fid + 1]} ∪ (if b then {[fid]} ∪ E else E) else if b then {[fid]} ∪ E else E) hs nh n s' ->
    Q (Ok tt) s') ->
  (forall s', acct E hs nh n s' -> Q (Err ENOENT) s') -> wp (walk_new_parent fid (fid + 1) names) Q s.
Proof.
  intros Ha Hp Hn Hnames HO HE. pose proof (ap_counter _ _ _ _ Hp).
  assert (wp (on_client (walk root_fid (fid + 1) names)) (fun o s' => match o with
      | Ok _ => exists b' : bool, acct (if b' then {[fid + 1]} ∪ (if b then {[fid]} ∪ E else E) else if b then {[fid]} ∪ E else E) hs nh n s'
      | Err _ => acct (if b then {[fid]} ∪ E else E) hs nh n s'
      | Panic => False end) s) as Hw.
  { eapply wp_walk; [exact Ha | by unfold u32_ok; lia | exact Hnames | | done].
    intros qs s' _ Ha'. by exists (length qs =? length names)%nat. }
  unfold wp, walk_new_parent in *. destruct (on_client _ s) as [[qs | e |] s1]; cbn [fst snd] in *; [destruct Hw; by eapply HO | | done].
  apply (wp_bind (ignore (clunk fid)) (fun _ => throw ENOENT)).
  eapply (wp_clunk_new b); [exact Hw | exact Hp | lia |]. intros s' Ha'. by apply wp_throw, HE.
Qed.

(** [frename] ends with the fids it began with; only the path of the handle can change. *)
Definition renamed E hs nh n i path (o : outcome Z) s' : Prop :=
  exists n', n <= n' <= n + 2 /\ (acct E hs nh n' s' \/ exists h, hs !! i = Some h /\ acct E (<[i := with_path path h]> hs) nh n' s').

Lemma wp_frename E hs nh n s i path :
  acct E hs nh n s -> apart E hs nh n -> n + 2 < 2 ^ 32 -> map_Forall (fun _ h => path_ok (h_path h)) hs -> path_ok path ->
  wp (frename i path) (renamed E hs nh n i path) s.
Proof.
  intros Ha Hp Hn Hpaths (_ & Hnew & Hnew_name). pose proof (ap_counter _ _ _ _ Hp).
  assert (forall o n' s', n <= n' <= n + 2 -> acct E hs nh n' s' -> renamed E hs nh n i path o s') as Hsame.
  { intros o n' s' Hn' Ha'. exists n'. split; [done | by left]. }
  unfold frename, handle_at. apply wp_bind, wp_bind, wp_gets, wp_ok_or; [| intros _; apply (Hsame _ n); [lia | done]].
  intros h Hi. rewrite (a_handles _ _ _ _ _ Ha) in Hi. destruct (Hpaths i h Hi) as (_ & Hold & Hold_name).
  destruct (parent_name (h_path h)) as [old_parent old_name], (parent_name path) as [new_parent new_name]. cbn [fst snd] in *.
  apply wp_bind. eapply wp_alloc_9p; [exact Ha | lia | lia |]. intros s1 Ha1.
  apply wp_bind, wp_or_err. eapply wp_walk; [exact Ha1 | by unfold u32_ok; lia | exact Hold | | intros e s2 Ha2; apply (Hsame _ (n + 1)); [lia | done]].
  intros qs s2 _ Ha2. set (b := (length qs =? length (components old_parent))%nat) in *.
  apply wp_bind. eapply wp_alloc_9p; [exact Ha2 | lia | lia |]. intros s3 Ha3. replace (n + 1 + 1) with (n + 2) in * by lia.
  apply wp_bind. eapply wp_walk_new_parent; [exact Ha3 | exact Hp | lia | exact Hnew | | intros s4 Ha4; apply (Hsame _ (n + 2)); [lia | done]].
  intros b' s4 Ha4. set (E1 := if b then {[n]} ∪ E else E) in *.
  apply wp_bind, wp_result_of.
  eapply (wp_ask_9p (T_renameat n old_name (n + 1) new_name) _ _ (fun _ => R_renameat)); [exact Ha4 | t_ok_tac | done | done | reflexivity | done |].
  intros o s5 Ho Ha5.
  assert (forall (r : option unit), wp (ignore (clunk n);; ignore (clunk (n + 1));; ok_or EIO r;;
      modify (fun s => match handles s !! i with Some h => set_handles (<[i := with_path path h]> (handles s)) s | None => s end);; mret 0)
    (renamed E hs nh n i path) s5) as Hend.
  { intros r. apply wp_bind. eapply (wp_clunk _ (if b' then {[n + 1]} ∪ E else E));
      [exact Ha5 | by unfold u32_ok; lia | by unfold root_fid; lia | | |].
    - intros Hh. pose proof (ap_held _ _ _ _ Hp _ Hh). lia.
    - intros f. pose proof (ap_extra _ _ _ _ Hp f) as Hx. unfold E1. destruct b, b'; set_unfold; naive_solver lia.
    - intros s6 Ha6. apply wp_bind. eapply (wp_clunk_new b'); [exact Ha6 | apply apart_more with n; [exact Hp | lia] | lia |].
      intros s7 Ha7. apply wp_bind, wp_ok_or; [| intros _; apply (Hsame _ (n + 2)); [lia | done]].
      intros _ _. apply wp_bind, wp_modify, wp_ret. rewrite (a_handles _ _ _ _ _ Ha7), Hi. exists (n + 2). split; [lia |]. right.
      exists h. split; [done |]. eapply acct_set_handles; [exact Ha7 |]. intros f. by rewrite held_with_path. }
  destruct o; [apply Hend | apply Hend | done].
Qed.

Lemma wp_on_close E hs nh n s i :
  acct E hs nh n s -> apart E hs nh n -> n < 2 ^ 32 -> quiet (on_close i) E (delete i hs) nh n s.
Proof.
  intros Ha Hp Hn. unfold quiet, on_close. apply wp_bind, wp_gets. rewrite (a_handles _ _ _ _ _ Ha).
  destruct (hs !! i) as [h |] eqn:Hi; [| apply wp_ret; by rewrite delete_id].
  pose proof (ap_held _ _ _ _ Hp (h_fid h) ltac:(by exists i, h)) as Hf.
  assert (forall f, held (delete i hs) f <-> held hs f /\ f <> h_fid h) as Hd by (intros f; by eapply held_delete).
  assert (held hs (h_fid h)) as Hh by by exists i, h.
  apply wp_bind, wp_modify.
  eapply (wp_clunk ({[h_fid h]} ∪ E) E); [| by unfold u32_ok; lia | by unfold root_fid; lia | | | done].
  - eapply acct_set_handles; [exact Ha |]. intros f. rewrite Hd. set_unfold. destruct (decide (f = h_fid h)); naive_solver.
  - rewrite Hd. by intros [].
  - intros f. pose proof (ap_extra _ _ _ _ Hp f). set_unfold. split; [| naive_solver]. intros He. split; [by right |]. naive_solver.
Qed.

(** ** The daemon *)

(** The fids of the server are the root, those of the handles, one for each, and [L]. *)
Record accounted (L : gset Z) s : Prop := {
  ac_acct : acct L (handles s) (next_handle s) (fid_counter (client s)) s;
  ac_apart : apart L (handles s) (next_handle s) (fid_counter (client s));
  ac_paths : map_Forall (fun _ h => path_ok (h_path h)) (handles s)
}.

Lemma accounted_intro L hs nh n s : acct L hs nh n s -> apart L hs nh n -> map_Forall (fun _ h => path_ok (h_path h)) hs -> accounted L s.
Proof. intros Ha Hp Hm. pose proof Ha as [_ _ H1 H2 H3]. subst. by split. Qed.

(** After a request: the numbers it can have taken, and the fid that an open can have left *)
Definition after {B} (r : Request B) (L : gset Z) s s' : Prop :=
  fid_counter (client s') <= fid_counter (client s) + 2 /\ next_handle s' <= next_handle s + 1 /\
  exists L', accounted L' s' /\ (L' = L \/ creates r = true /\ exists f, L' = {[f]} ∪ L).

Lemma after_same {B} (r : Request B) L s s' n :
  accounted L s -> acct L (handles s) (next_handle s) n s' -> fid_counter (client s) <= n <= fid_counter (client s) + 2 -> after r L s s'.
Proof.
  intros [Ha Hp Hm] Ha' Hn. pose proof Ha' as [_ _ _ H2 H3]. split; [lia |]. split; [lia |]. exists L.
  split; [| by left]. eapply accounted_intro; [exact Ha' | | exact Hm]. apply apart_more with (fid_counter (client s)); [done | lia].
Qed.

Lemma wp_attempt_9p {A} (m : M (Scheme9p D) A) (P : Scheme9p D -> Prop) s : wp m (fun _ s' => P s') s -> wp (attempt m) (fun _ s' => P s') s.
Proof. unfold wp, attempt. by destruct (m s) as [[] ?]. Qed.

Lemma wp_attempt_quiet {B A} (r : Request B) (m : M (Scheme9p D) A) L s :
  accounted L s -> quiet m L (handles s) (next_handle s) (fid_counter (client s)) s -> wp (attempt m) (fun _ s' => after r L s s') s.
Proof.
  intros Ha Hq. unfold quiet in Hq. apply wp_attempt_9p. eapply wp_mono; [| exact Hq]. intros o s' Ha'. eapply after_same; [exact Ha | exact Ha' | lia].
Qed.

Lemma after_open {B} L s path flags ctx (o : outcome OpenResult) s' :
  accounted L s -> path_ok path -> opened L (handles s) (next_handle s) (fid_counter (client s)) path flags o s' ->
  after (R_open (B := B) path flags ctx) L s s'.
Proof.
  intros [Ha Hp Hm] Hpath Ho. destruct o as [res | e |]; [| | done].
  - destruct Ho as (fid & q & n' & Hf & Hn' & Ha'). pose proof Ha' as [_ _ _ H2 H3]. split; [lia |]. split; [lia |]. exists L.
    split; [| by left]. eapply accounted_intro; [exact Ha' | by eapply apart_insert | by apply map_Forall_insert_2].
  - destruct Ho as (n' & E' & Hn' & Hl & Ha'). pose proof Ha' as [_ _ _ H2 H3]. split; [lia |]. split; [lia |]. exists E'.
    split; [eapply accounted_intro; [exact Ha' | | exact Hm] |].
    + destruct Hl as [-> | (_ & _ & -> & ->)]; [apply apart_more with (fid_counter (client s)); [done | lia] |].
      replace (fid_counter (client s) + 2) with (fid_counter (client s) + 1 + 1) by lia.
      apply (apart_alloc true). apply apart_more with (fid_counter (client s)); [done | lia].
    + destruct Hl as [-> | (Hc & _ & _ & ->)]; [by left | right]. split; [done | by eexists].
Qed.

Lemma after_frename {B} L s i path (o : outcome Z) s' :
  accounted L s -> path_ok path -> renamed L (handles s) (next_handle s) (fid_counter (client s)) i path o s' ->
  after (R_frename (B := B) i path) L s s'.
Proof.
  intros Hac Hpath (n' & Hn' & [Ha' | (h & Hi & Ha')]); [by eapply after_same |].
  destruct Hac as [Ha Hp Hm]. pose proof Ha' as [_ _ _ H2 H3]. split; [lia |]. split; [lia |]. exists L. split; [| by left].
  eapply accounted_intro; [exact Ha' | | by apply map_Forall_insert_2].
  apply apart_more with (fid_counter (client s)); [by apply apart_with_path | lia].
Qed.

(** Every request keeps the accounting. *)
Lemma wp_request {B} (entry : B -> DirEntry -> DirentKind -> outcome B) r L s :
  accounted L s -> request_ok r -> fid_counter (client s) + 2 < 2 ^ 32 -> next_handle s + 1 < usize_mod ->
  wp (request entry r) (fun _ s' => after r L s s') s.
Proof.
  intros Hac Hr Hn Hnh. pose proof Hac as [Ha Hp Hm]. assert (fid_counter (client s) < 2 ^ 32) as Hn' by lia.
  destruct r; cbn [request request_ok] in *;
    lazymatch goal with
    | |- wp (attempt (open _ _ _)) _ _ => idtac
    | |- wp (attempt (frename _ _)) _ _ => idtac
    | |- wp (attempt _) _ _ => apply wp_attempt_quiet; [exact Hac |]
    | _ => idtac
    end.
  - destruct Hr as [Hr1 Hr2]. apply wp_attempt_9p. eapply wp_mono; [| by apply wp_open]. intros o s'. by apply after_open.
  - by apply quiet_read.
  - destruct Hr. by apply quiet_write.
  - by apply quiet_getdents.
  - by apply quiet_fstat.
  - by apply quiet_fstatvfs.
  - by apply quiet_fpath.
  - by apply quiet_fsync.
  - by apply quiet_unlinkat.
  - done.
  - done.
  - by apply quiet_fchmod.
  - destruct Hr. by apply quiet_fchown.
  - by apply quiet_ftruncate.
  - by apply quiet_futimens.
  - apply wp_attempt_9p. eapply wp_mono; [| by apply wp_frename]. intros o s'. by apply after_frename.
  - done.
  - pose proof (wp_on_close L _ _ _ s i Ha Hp Hn') as Hq. unfold quiet in Hq. eapply wp_mono; [| exact Hq]. intros o s' Ha'. pose proof Ha' as [_ _ _ H2 H3]. split; [lia |]. split; [lia |]. exists L.
    split; [| by left]. eapply accounted_intro; [exact Ha' | by apply apart_delete | by apply map_Forall_delete].
  - apply wp_ret. eapply after_same; [exact Hac | exact Ha | lia].
Qed.

Lemma wp_daemon_loop {B} (entry : B -> DirEntry -> DirentKind -> outcome B) rs L s :
  accounted L s -> Forall request_ok rs -> fid_counter (client s) + 2 * Z.of_nat (length rs) < 2 ^ 32 ->
  next_handle s + Z.of_nat (length rs) < usize_mod ->
  wp (daemon_loop entry rs) (fun _ s' => exists L', accounted L' s' /\ (size L' <= size L + length (filter (fun r => creates r = true) rs))%nat) s.
Proof.
  revert L s. induction rs as [| r rs IH]; intros L s Hac Hrs Hn Hnh; cbn [daemon_loop length] in *.
  { apply wp_ret. exists L. split; [done | cbn; lia]. }
  apply Forall_cons in Hrs as [Hr Hrs]. apply wp_bind. eapply wp_mono; [| apply (wp_request entry r L s Hac Hr); lia].
  intros o s' (Hn' & Hnh' & L' & Hac' & HL').
  assert ((size L' + length (filter (fun r => creates r = true) rs) <= size L + length (filter (fun r => creates r = true) (r :: rs)))%nat) as Hsize.
  { rewrite filter_cons. destruct HL' as [-> | [Hc [f ->]]]; [case_decide; cbn; lia |]. rewrite decide_True by done. cbn.
    pose proof (size_union_alt {[f]} L) as E. rewrite size_singleton in E. pose proof (subseteq_size (L ∖ {[f]}) L ltac:(set_solver)). lia. }
  destruct o as [[] | e |]; [| exists L'; split; [done | lia] ..].
  eapply wp_mono; [| apply (IH L' s' Hac' Hrs); lia]. intros o s2 (L2 & H2 & Hs2). exists L2. split; [done | lia].
Qed.

(** The start: the version clears the fids, and the root is attached. *)
Lemma connect_accounted mount_tag func_name d s :
  up d -> str_ok mount_tag -> connect mount_tag func_name (Client9p_new d) = Ok s ->
  accounted ∅ s /\ fid_counter (client s) = 1 /\ next_handle s = 1.
Proof.
  intros Hup Htag. unfold connect.
  assert (works (Client9p_new d)) as Hw by (split; cbn; [done | lia | done]).
  assert (t_ok (T_version MSIZE VERSION)) as Htv.
  { split; [| by vm_compute]. repeat apply Forall_cons_2; [by vm_compute | by split; vm_compute | constructor]. }
  assert (t_ok (T_attach root_fid NOFID "" mount_tag 0)) as Hta.
  { destruct Htag as [Hl Hu]. split; [repeat apply Forall_cons_2; try constructor; cbn; try done; lia |].
    cbn [t_fields]. autorewrite with ninep_len. change (zlen (as_bytes "")) with 0. lia. }
  assert (wp (version;; attach mount_tag) (fun o c => match o with
      | Ok q => works c /\ fids (queue c) = {[root_fid]} /\ fid_counter c = 1 | _ => True end) (Client9p_new d)) as Hwp.
  { apply wp_bind. eapply (wp_call (T_version MSIZE VERSION) _ _ (fun _ => R_version 0 VERSION)); [exact Hw | exact Htv | done | reflexivity | done |].
    intros [[] | e |] Ho Hr Her; [| done | done]. specialize (Hr tt eq_refl). set (c1 := served _ _).
    assert (works c1) as Hw1 by (by apply works_served).
    assert (fids (queue c1) = ∅) as Hf1. { cbn. rewrite fids_serve by done. cbn in Hr |- *. by destruct (serve _ d).1. }
    eapply (wp_call (T_attach root_fid NOFID "" mount_tag 0) _ _ R_attach); [exact Hw1 | exact Hta | done | reflexivity | done |].
    intros [q | e |] Ho2 Hr2 _; [| done | done]. specialize (Hr2 q eq_refl).
    split_and!; [by apply works_served | | done].
    change (fids (serve (T_attach root_fid NOFID "" mount_tag 0) (queue c1)).2 = {[root_fid]}). rewrite fids_serve by (done || apply Hw1).
    rewrite Hf1. destruct (serve _ (queue c1)).1; done. }
  unfold wp in Hwp. destruct ((version;; attach mount_tag) (Client9p_new d)) as [[q | e |] c]; [| done | done].
  cbn [fst snd] in Hwp. intros [= <-]. destruct Hwp as (Hw' & Hf & Hk). split; [| by split].
  assert (forall f, ~ held ∅ f) as Hnone by (by intros f (i & h & Hi & _)).
  eapply (accounted_intro _ ∅ 1 1); [split; try done | split; try done | done].
  - intros f. cbn. rewrite Hf. specialize (Hnone f). set_solver.
  - intros f Hh. by destruct (Hnone f).
  - split; [lia |]. by intros i [h Hi].
Qed.

(** C16: the fids of the 9P server are accounted for, whatever the requests: those that the server
    has are the root, one for each handle, and those that creations left
    behind, at most one for each request to create.  No handle has the fid of another. *)
Theorem daemon_fids {B} (entry : B -> DirEntry -> DirentKind -> outcome B) mount_tag func_name d s rs :
  up d -> str_ok mount_tag -> connect mount_tag func_name (Client9p_new d) = Ok s ->
  Forall request_ok rs -> 2 * Z.of_nat (length rs) + 1 < 2 ^ 32 ->
  let s' := (daemon_loop entry rs s).2 in
  exists left_over : gset Z,
    (forall f, f ∈ fids (queue (client s')) <-> f = root_fid \/ f ∈ left_over \/ held (handles s') f) /\
    (forall f, held (handles s') f -> f <> root_fid /\ f ∉ left_over) /\
    (forall i j h h', handles s' !! i = Some h -> handles s' !! j = Some h' -> h_fid h = h_fid h' -> i = j) /\
    (size left_over <= length (filter (fun r => creates r = true) rs))%nat.
Proof.
  intros Hup Htag Hs Hrs Hlen s'. destruct (connect_accounted _ _ _ _ Hup Htag Hs) as (Hac & Hk & Hnh).
  pose proof usize_mod_ge.
  pose proof (wp_daemon_loop entry rs ∅ s Hac Hrs ltac:(lia) ltac:(lia)) as (L & [Ha Hp _] & Hsize). fold s' in Ha, Hp.
  exists L. split_and!; [apply Ha | | apply Hp | by rewrite size_empty in Hsize].
  intros f Hf. pose proof (ap_held _ _ _ _ Hp f Hf). split; [unfold root_fid; lia |]. intros HL. by destruct (ap_extra _ _ _ _ Hp f HL).
Qed.
End fids.
