(* ===== verification/NinepWitness.v ===== *)
(** * A 9P server to run the client against

    A server of flat files that decodes the requests, an instance of the interfaces of
    [NinepServer] and [NinepSchemeFacts], and the theorems at sessions with it. *)

From stdpp Require Import base gmap strings list fin_maps fin_sets.
From Stdlib Require Import ZArith Lia.
From Stdlib Require Import Strings.Byte.
From S2P Require Import Prelude Syscall Ninep NinepServer NinepScheme NinepSchemeFacts.

Local Open Scope Z_scope.

(** ** Decoding requests *)

#[local] Instance demo_target : Target := x86_64_debug.
#[local] Instance demo_syscall : Syscall := redox_syscall.
#[local] Instance demo_symlink : SymlinkFlag := { O_SYMLINK := 0x40000000 }.

Fixpoint get_names (n : nat) : M MessageParser (list string) :=
  match n with O => mret [] | S n => s ← get_str; names ← get_names n; mret (s :: names) end.

Definition get_request (typ : Z) : M MessageParser Tmsg :=
  if typ =? 100 then n ← get_u32; v ← get_str; mret (T_version n v)
  else if typ =? 104 then
    fid ← get_u32; afid ← get_u32; uname ← get_str; aname ← get_str; n ← get_u32; mret (T_attach fid afid uname aname n)
  else if typ =? 110 then
    fid ← get_u32; new_fid ← get_u32; n ← get_u16; names ← get_names (Z.to_nat n); mret (T_walk fid new_fid names)
  else if typ =? 12 then fid ← get_u32; flags ← get_u32; mret (T_lopen fid flags)
  else if typ =? 14 then
    fid ← get_u32; name ← get_str; flags ← get_u32; mode ← get_u32; gid ← get_u32; mret (T_lcreate fid name flags mode gid)
  else if typ =? 116 then fid ← get_u32; offset ← get_u64; count ← get_u32; mret (T_read fid offset count)
  else if typ =? 118 then fid ← get_u32; offset ← get_u64; data ← get_data; mret (T_write fid offset data)
  else if typ =? 24 then fid ← get_u32; mask ← get_u64; mret (T_getattr fid mask)
  else if typ =? 26 then
    fid ← get_u32; valid ← get_u32; mode ← get_u32; uid ← get_u32; gid ← get_u32; size ← get_u64; asec ← get_u64;
    ansec ← get_u64; msec ← get_u64; mnsec ← get_u64; mret (T_setattr fid valid mode uid gid size asec ansec msec mnsec)
  else if typ =? 40 then fid ← get_u32; offset ← get_u64; count ← get_u32; mret (T_readdir fid offset count)
  else if typ =? 8 then fid ← get_u32; mret (T_statfs fid)
  else if typ =? 120 then fid ← get_u32; mret (T_clunk fid)
  else if typ =? 76 then fid ← get_u32; name ← get_str; flags ← get_u32; mret (T_unlinkat fid name flags)
  else if typ =? 72 then fid ← get_u32; name ← get_str; mode ← get_u32; gid ← get_u32; mret (T_mkdir fid name mode gid)
  else if typ =? 50 then fid ← get_u32; datasync ← get_u32; mret (T_fsync fid datasync)
  else if typ =? 16 then fid ← get_u32; name ← get_str; symtgt ← get_str; gid ← get_u32; mret (T_symlink fid name symtgt gid)
  else if typ =? 22 then fid ← get_u32; mret (T_readlink fid)
  else if typ =? 74 then
    olddir ← get_u32; oldname ← get_str; newdir ← get_u32; newname ← get_str; mret (T_renameat olddir oldname newdir newname)
  else throw no_value.

Definition decode_request (l : list u8) : outcome (Z * Tmsg) :=
  ((h ← get_header; t ← get_request (h_typ h); mret (h_tag h, t)) (MessageParser_new l)).1.

Lemma reads_names names p : ahead p (fields_bytes (map F_str names)) -> Forall field_ok (map F_str names) -> reads (get_names (length names)) p names [].
Proof.
  revert p. induction names as [| n names IH]; intros p Hp Hok; [by apply reads_ret |]. cbn [length get_names map] in *.
  eapply reads_bind; [exact (next_str _ _ _ Hp (Forall_inv Hok)) |]. intros p1 H1.
  eapply reads_bind; [apply IH; [exact H1 | exact (Forall_inv_tail Hok)] |]. intros p2 H2. by apply reads_ret.
Qed.

Ltac next_field :=
  first [ eapply next_u16 | eapply next_u32 | eapply next_u64 | eapply next_str | eapply next_data ];
  [ eassumption | match goal with H : Forall field_ok _ |- _ => eapply Forall_inv; exact H end ].
Ltac parse_fields :=
  repeat (eapply reads_bind; [next_field | match goal with H : Forall field_ok (_ :: _) |- _ => apply Forall_inv_tail in H end; intros ? ?]);
  eapply reads_ret; eassumption.

Lemma reads_request t p : t_ok t -> ahead p (fields_bytes (t_fields t)) -> reads (get_request (msg_type (t_type t))) p t [].
Proof.
  intros [Hok _] Hp. destruct t; cbn [t_fields t_type msg_type] in *.
  3:{ cbn [app] in *. change (get_request 110) with (fid ← get_u32; new_fid ← get_u32; n ← get_u16; names ← get_names (Z.to_nat n); mret (T_walk fid new_fid names)).
      do 3 (eapply reads_bind; [next_field | apply Forall_inv_tail in Hok; intros ? ?]). rewrite Nat2Z.id.
      eapply reads_bind; [by apply reads_names |]. intros p2 H2. by apply reads_ret. }
  all: unfold get_request; cbn [Z.eqb Pos.eqb]; parse_fields.
Qed.

Lemma decode_t_bytes tag t : t_ok t -> 0 <= tag < 2 ^ 16 -> decode_request (t_bytes tag t) = Ok (tag, t).
Proof.
  intros Ht Hg. unfold decode_request, t_bytes. pose proof Ht as [_ Hlen].
  destruct (reads_message (fun h => t ← get_request (h_typ h); mret (h_tag h, t)) (msg_type (t_type t)) tag (t_fields t) (tag, t) [])
    as (p & E & _); [destruct (t_type t); cbn; lia | done | rewrite length_message; unfold zlen in *; lia | |].
  - intros p Hp. eapply reads_bind; [by apply reads_request |]. intros p1 H1. by apply reads_ret.
  - by rewrite E.
Qed.

(** ** The server *)

(** The root holds files; a fid is of the root, whose name is empty, or of a file. *)
Record Demo := { table : gmap Z string; files : gmap string (list u8) }.

Definition demo_qid (name : string) : Qid :=
  {| q_typ := if str_is_empty name then 128 else 0; q_version := 0; q_path := if str_is_empty name then 1 else 2 |}.

Definition demo_serve (t : Tmsg) (d : Demo) : Rmsg * Demo :=
  match t with
  | T_version _ _ => (R_version MSIZE VERSION, {| table := ∅; files := files d |})
  | T_attach fid _ _ _ _ => (R_attach (demo_qid ""), {| table := <[fid := ""]> (table d); files := files d |})
  | T_walk fid new_fid [] =>
      match table d !! fid with
      | Some name => (R_walk [], {| table := <[new_fid := name]> (table d); files := files d |})
      | None => (R_error 9, d)
      end
  | T_walk fid new_fid [name] =>
      if bool_decide (table d !! fid = Some "") && bool_decide (is_Some (files d !! name)) then
        (R_walk [demo_qid name], {| table := <[new_fid := name]> (table d); files := files d |})
      else (R_error 2, d)
  | T_walk _ _ _ => (R_error 20, d)
  | T_lopen fid _ => match table d !! fid with Some name => (R_lopen (demo_qid name) 0, d) | None => (R_error 9, d) end
  | T_lcreate fid name _ _ _ =>
      if bool_decide (table d !! fid = Some "") && (String.length name <? 8)%nat && negb (bool_decide (is_Some (files d !! name))) then
        (R_lcreate (demo_qid name) 0, {| table := <[fid := name]> (table d); files := <[name := []]> (files d) |})
      else (R_error 17, d)
  | T_read fid offset count =>
      match table d !! fid ≫= fun name => files d !! name with
      | Some l => (NinepServer.R_read (take 1000 (take (Z.to_nat count) (drop (Z.to_nat offset) l))), d)
      | None => (R_error 9, d)
      end
  | T_write fid _ data =>
      match table d !! fid with
      | Some name =>
          match files d !! name with
          | Some l => (NinepServer.R_write (zlen data mod 2 ^ 32), {| table := table d; files := <[name := l ++ data]> (files d) |})
          | None => (R_error 21, d)
          end
      | None => (R_error 9, d)
      end
  | T_clunk fid => (R_clunk, {| table := delete fid (table d); files := files d |})
  | _ => (R_error 95, d)
  end.

Definition demo_exchange (l : list u8) (n : Z) : M Demo (Z * list u8) := fun d =>
  match decode_request l with
  | Ok (tag, t) =>
      let '(r, d') := demo_serve t d in
      (Ok (zlen (r_bytes tag r), r_bytes tag r ++ replicate (Z.to_nat n - length (r_bytes tag r)) Byte.x00), d')
  | Err e => (Err e, d)
  | Panic => (Panic, d)
  end.

#[local] Instance demo_queue : Queue9p Demo := { exchange := demo_exchange }.

Lemma demo_qid_ok name : qid_ok (demo_qid name).
Proof. unfold qid_ok, demo_qid. destruct (str_is_empty name); cbn; lia. Qed.

Lemma demo_short t d : r_ok (demo_serve t d).1 /\ zlen (fields_bytes (r_fields (demo_serve t d).1)) <= 1004.
Proof.
  pose proof demo_qid_ok.
  destruct t; cbn [demo_serve]; repeat case_match; cbn [fst r_fields];
    (split; [split; [repeat apply Forall_cons_2; try apply Forall_nil_2; cbn [field_ok]; try done; try lia | done] |]).
  all: try (apply Z.mod_pos_bound; lia).
  all: try (autorewrite with ninep_len; unfold zlen; rewrite length_take; lia).
  all: try (by vm_compute).
Qed.

#[local] Program Instance demo_serves : Serves Demo := { up _ := True; serve := demo_serve }.
Next Obligation. done. Qed.
Next Obligation. intros t d _ _. apply demo_short. Qed.
Next Obligation.
  intros tag t n d _ Ht Hg ->. pose proof (demo_short t d) as [_ Hl].
  assert (zlen (r_bytes tag (demo_serve t d).1) = 7 + zlen (fields_bytes (r_fields (demo_serve t d).1))) as E by apply length_message.
  split; [unfold MSIZE; lia |]. eexists. cbn [exchange demo_queue]. unfold demo_exchange. rewrite decode_t_bytes by done.
  by rewrite (surjective_pairing (demo_serve t d)).
Qed.

#[local] Program Instance demo_fids : FidTable Demo := { fids d := dom (table d) }.
Next Obligation.
  intros t d _ _. destruct t; cbn [serve demo_serves demo_serve]; repeat case_match; cbn [fst snd fids_after table]; rewrite ?dom_insert_L, ?dom_delete_L, ?dom_empty_L; try done.
  apply andb_prop in H as [H _]. apply andb_prop in H as [H _]. apply bool_decide_eq_true in H.
  pose proof (elem_of_dom_2 _ _ _ H). set_solver.
Qed.
Next Obligation.
  intros fid new_fid names d qs _ _. cbn [serve demo_serves demo_serve]. repeat case_match; cbn; intros; simplify_eq; cbn; lia.
Qed.

(** ** Sessions *)

Definition demo : Demo := {| table := ∅; files := {["motd" := as_bytes "hello"]} |}.
Definition demo_client : Client9p Demo := Client9p_new demo.


(** A client that has attached, walked to a file and opened it *)
Definition at_motd : Client9p Demo := ((attach "";; walk 0 1 ["motd"];; lopen 1 0) demo_client).2.

Lemma client_calls_server_witness :
  (client_call (T_read 1 1 3) at_motd).1 = Ok (NinepServer.R_read (as_bytes "ell")) /\
  (client_call (T_read 2 0 3) at_motd).1 = Err client_error.
Proof.
  assert (works at_motd) as Hw by (split; [done | by vm_compute | by vm_compute]).
  assert (forall fid offset, u32_ok fid -> u64_ok offset -> t_ok (T_read fid offset 3)) as Ht by (intros; t_ok_tac).
  destruct (client_calls_server (T_read 1 1 3) at_motd Hw ltac:(apply Ht; unfold u32_ok, u64_ok; lia) ltac:(by vm_compute)) as [E1 _].
  destruct (client_calls_server (T_read 2 0 3) at_motd Hw ltac:(apply Ht; unfold u32_ok, u64_ok; lia) ltac:(by vm_compute)) as [E2 _].
  rewrite E1, E2. by split; vm_compute.
Defined.

Definition demo_entry (buf : list string) (e : DirEntry) (_ : DirentKind) : outcome (list string) := Ok (buf ++ [de_name e]).
Definition user : CallerCtx := {| ctx_pid := 1; ctx_uid := 0; ctx_gid := 0; ctx_id := 1 |}.

(** A file that is there, two that are created, of which the name of the second is too long for the server *)
Definition session : list (Request (list string)) :=
  [R_open "motd" O_RDONLY user; R_open "log" (Z.lor O_CREAT O_WRONLY) user; NinepScheme.R_write 2 (as_bytes "line") 0;
   R_open "toolongname" (Z.lor O_CREAT O_WRONLY) user; R_read 1 (repeat Byte.x00 4) 0 O_RDONLY; R_close 1].

Definition after_session (s : Scheme9p Demo) : Scheme9p Demo := (daemon_loop demo_entry session s).2.

(** The fids of the server after the session *)
Definition fids_of_session (o : outcome (Scheme9p Demo)) : list Z :=
  match o with Ok s => elements (dom (table (queue (client (after_session s))))) | _ => [] end.


Lemma path_ok_short path : path ∈ ["motd"; "log"; "toolongname"] -> path_ok path.
Proof.
  assert (forall names, forallb (fun s => (zlen (as_bytes s) <? 2 ^ 16) && utf8_valid (as_bytes s)) names = true ->
    (Z.of_nat (length names) <? 2 ^ 16) && (zlen (fields_bytes (map F_str names)) <? 2 ^ 29) = true -> names_ok names) as Hn.
  { intros names H1 H2. apply andb_prop in H2 as [H2 H3]. split_and!; [| lia | lia]. apply Forall_forall. intros x Hx.
    rewrite forallb_forall in H1. specialize (H1 x). rewrite <- list_elem_of_In in H1. specialize (H1 Hx). apply andb_prop in H1 as [? ?].
    split; [lia | done]. }
  intros Hp. repeat (apply elem_of_cons in Hp as [-> | Hp]; [unfold path_ok; split_and!; [apply Hn; by vm_compute | apply Hn; by vm_compute | by split; vm_compute] |]).
  by apply not_elem_of_nil in Hp.
Qed.

Lemma session_ok : Forall request_ok session.
Proof.
  unfold session. repeat apply Forall_cons_2; try apply Forall_nil_2; cbn [request_ok user ctx_gid]; unfold u32_ok, u64_ok.
  - split; [apply path_ok_short; left | lia].
  - split; [apply path_ok_short; right; left | lia].
  - split; [lia | by vm_compute].
  - split; [apply path_ok_short; do 2 right; left | lia].
  - lia.
  - exact I.
Qed.

Lemma demo_starts : exists s, connect "share" "virtio" (Client9p_new demo) = Ok s.
Proof.
  assert (is_ok (connect "share" "virtio" (Client9p_new demo)) = true) as E by by vm_compute.
  destruct (connect _ _ _) as [s | |]; [by exists s | done..].
Qed.

(** The file of the second name is open, and its fid is 3; the fid 5 is that of the
    directory in which the third could not be created. *)
Lemma session_fids s :
  connect "share" "virtio" (Client9p_new demo) = Ok s ->
  elements (dom (table (queue (client (after_session s))))) = [5; 3; 0].
Proof.
  intros Hs. assert (fids_of_session (connect "share" "virtio" (Client9p_new demo)) = [5; 3; 0]) as E by by vm_compute.
  rewrite Hs in E. exact E.
Qed.

Lemma session_creates : length (filter (fun r : Request (list string) => creates r = true) session) = 2%nat.
Proof. by vm_compute. Qed.

Lemma demo_up : up demo.
Proof. exact I. Qed.

Lemma share_ok : str_ok "share".
Proof. by split; vm_compute. Qed.

Lemma daemon_fids_witness : exists s, connect "share" "virtio" (Client9p_new demo) = Ok s /\
  exists left_over : gset Z,
    (forall f, f ∈ fids (queue (client (after_session s))) <-> f = root_fid \/ f ∈ left_over \/ held (handles (after_session s)) f) /\
    (size left_over <= 2)%nat.
Proof.
  destruct demo_starts as [s Hs]. exists s. split; [exact Hs |].
  destruct (daemon_fids demo_entry "share" "virtio" demo s session demo_up share_ok Hs session_ok ltac:(cbn; lia)) as (L & H1 & _ & _ & H4).
  exists L. split; [exact H1 |]. rewrite session_creates in H4. exact H4.
Defined.
