(* ===== verification/Logd.v ===== *)
(** * logd: the log scheme

    Models [logd/src/scheme.rs]: the scheme that assembles log lines per
    handle and process, the output thread that copies lines to the kernel
    debug output and to the sinks and keeps the last ones for sinks added
    later, and one turn of the thread that reads the kernel log.

    The channel between the scheme and the output thread is the queue of
    commands that have been sent; whether a sink can be opened is a
    parameter.  The results of writes to the outputs are ignored by the source,
    so an output is the list of the lines handed to it. *)

From stdpp Require Import base gmap strings list fin_maps.
From Stdlib Require Import ZArith Lia.
From Stdlib Require Import Strings.Byte.
From S2P Require Import Prelude Syscall.

Local Open Scope Z_scope.

Inductive LogHandle :=
| LH_Log (context : string) (bufs : gmap Z (list u8))
| LH_AddSink.

Inductive OutputCmd :=
| OC_Log (line : list u8)
| OC_LogKernel (line : list u8)
| OC_AddSink (path : list u8).

(** [output] is what has been sent on [output_tx]. *)
Record LogScheme := {
  next_id : Z;
  handles : gmap Z LogHandle;
  output : list OutputCmd
}.

Definition LogScheme_new : LogScheme := {| next_id := 0; handles := ∅; output := [] |}.

Definition set_next_id (n : Z) (s : LogScheme) : LogScheme :=
  {| next_id := n; handles := handles s; output := output s |}.
Definition set_handles (h : gmap Z LogHandle) (s : LogScheme) : LogScheme :=
  {| next_id := next_id s; handles := h; output := output s |}.
Definition send (c : OutputCmd) (s : LogScheme) : LogScheme :=
  {| next_id := next_id s; handles := handles s; output := output s ++ [c] |}.

Definition newline : u8 := x0a.
Definition separator : list u8 := as_bytes ": ".

(** [write_logs]: the commands sent and the new contents of [handle_buf]. *)
Fixpoint write_logs (handle_buf : list u8) (context : string) (buf : list u8) (kernel : bool)
    : list OutputCmd * list u8 :=
  match buf with
  | [] => ([], handle_buf)
  | b :: buf =>
      let handle_buf :=
        if bool_decide (handle_buf = []) && negb (str_is_empty context)
        then handle_buf ++ as_bytes context ++ separator else handle_buf in
      let handle_buf := handle_buf ++ [b] in
      if bool_decide (b = newline) then
        let '(cs, rest) := write_logs [] context buf kernel in
        ((if kernel then OC_LogKernel handle_buf else OC_Log handle_buf) :: cs, rest)
      else write_logs handle_buf context buf kernel
  end.

Section logd.
Context {TG : Target}.

Definition handle_at (i : Z) : M LogScheme LogHandle :=
  hs ← gets handles; ok_or EBADF (hs !! i).

Definition open (path : string) : M LogScheme OpenResult :=
  i ← gets next_id;
  n ← usize_add i 1;
  modify (set_next_id n);;
  modify (fun s => set_handles
    (<[i := if bool_decide (path = "add_sink"%string) then LH_AddSink else LH_Log path ∅]> (handles s)) s);;
  mret (ThisScheme i fd_empty).

Definition read (i : Z) (buf : list u8) : M LogScheme (Z * list u8) := _ ← handle_at i; mret (0, buf).

Definition write (i : Z) (buf : list u8) (ctx : CallerCtx) : M LogScheme Z :=
  h ← handle_at i;
  match h with
  | LH_AddSink =>
      fail_if (negb (utf8_valid buf)) EINVAL;;
      modify (send (OC_AddSink buf));;
      mret (zlen buf)
  | LH_Log context bufs =>
      let handle_buf := default [] (bufs !! ctx_pid ctx) in
      let '(cs, rest) := write_logs handle_buf context buf false in
      modify (fun s => {| next_id := next_id s;
                          handles := <[i := LH_Log context (<[ctx_pid ctx := rest]> bufs)]> (handles s);
                          output := output s ++ cs |});;
      mret (zlen buf)
  end.

Definition fcntl (i cmd arg : Z) : M LogScheme Z := _ ← handle_at i; mret 0.

Definition scheme_path : list u8 := as_bytes "/scheme/log/".

Definition fpath (i : Z) (buf : list u8) : M LogScheme (Z * list u8) :=
  handle ← handle_at i;
  let n := common_len buf scheme_path in
  let buf := copy_prefix n scheme_path buf in
  let path_bytes := match handle with
                    | LH_Log context _ => as_bytes context
                    | LH_AddSink => as_bytes "add_sink"
                    end in
  let k := ((length buf - n) `min` length path_bytes)%nat in
  mret (Z.of_nat (n + k), splice n (take k path_bytes) buf).

Definition fsync (i : Z) : M LogScheme unit := _ ← handle_at i; mret tt.

Definition on_close (i : Z) : M LogScheme unit :=
  modify (fun s => set_handles (delete i (handles s)) s).
End logd.

(** ** The output thread *)

Class SinkHost := { open_sink : list u8 -> bool }.

Record Output := {
  kernel_debug : list (list u8);
  (** the open sinks, each with the lines written to it *)
  files : list (list u8 * list (list u8));
  logs : list (list u8)
}.

Definition Output_new : Output := {| kernel_debug := []; files := []; logs := [] |}.

(** [logs.push_back(line); while logs.len() > 1000 { logs.pop_front(); }] *)
Definition keep (line : list u8) (l : list (list u8)) : list (list u8) :=
  let l := l ++ [line] in drop (length l - 1000) l.

Definition write_sinks (line : list u8) (fs : list (list u8 * list (list u8))) :=
  (fun f => (f.1, f.2 ++ [line])) <$> fs.

Definition output_step `{SinkHost} (cmd : OutputCmd) (o : Output) : Output :=
  match cmd with
  | OC_Log line =>
      {| kernel_debug := kernel_debug o ++ [line]; files := write_sinks line (files o);
         logs := keep line (logs o) |}
  | OC_LogKernel line =>
      {| kernel_debug := kernel_debug o; files := write_sinks line (files o);
         logs := keep line (logs o) |}
  | OC_AddSink path =>
      if open_sink path
      then {| kernel_debug := kernel_debug o; files := files o ++ [(path, logs o)]; logs := logs o |}
      else o
  end.

(** [for cmd in output_rx] *)
Definition output_loop `{SinkHost} (cmds : list OutputCmd) (o : Output) : Output :=
  foldl (fun o c => output_step c o) o cmds.

(** ** The kernel log thread *)

Definition kernel_prefix : list u8 := as_bytes "kernel: ".

(** The buffer before the first turn. *)
Definition kernel_buf : list u8 := kernel_prefix ++ replicate (4096 - length kernel_prefix) x00.

(** One turn of the [loop]: [got] is what the read put into the buffer after
    the prefix.  The result: the new buffer, the commands, [handle_buf]. *)
Definition kernel_turn (buf handle_buf got : list u8) : list u8 * (list OutputCmd * list u8) :=
  let buf := splice (length kernel_prefix) got buf in
  (buf, write_logs handle_buf "kernel" buf true).

(** The [loop], on the results of its reads: a read of nothing ends it.  The
    result: the commands it sends. *)
Fixpoint kernel_loop (buf handle_buf : list u8) (gots : list (list u8)) : list OutputCmd :=
  match gots with
  | [] | [] :: _ => []
  | got :: gots =>
      let '(buf, (cs, handle_buf)) := kernel_turn buf handle_buf got in
      cs ++ kernel_loop buf handle_buf gots
  end.
