(* ===== verification/LogdFacts.v ===== *)
(** * logd: correctness

    Writes are assembled into the complete lines of the text each process has
    written to a handle, whatever the chunks; a sink gets the last thousand
    lines logged before it was added and every line after.  The last section
    states what the kernel log thread feeds to the log. *)

From stdpp Require Import base gmap strings list fin_maps.
From Stdlib Require Import ZArith Lia.
From Stdlib Require Import Strings.Byte.
From S2P Require Import Prelude Syscall Logd.

Local Open Scope Z_scope.

(** ** Lines *)

(** The complete lines of a text that continues [cur], and the rest. *)
Fixpoint split_lines (cur l : list u8) : list (list u8) * list u8 :=
  match l with
  | [] => ([], cur)
  | b :: l =>
      if bool_decide (b = newline) then
        let '(ls, r) := split_lines [] l in ((cur ++ [b]) :: ls, r)
      else split_lines (cur ++ [b]) l
  end.

Definition complete (line : list u8) : Prop := exists l, line = l ++ [newline] /\ newline ∉ l.

Lemma split_lines_spec cur l ls r :
  newline ∉ cur -> split_lines cur l = (ls, r) ->
  concat ls ++ r = cur ++ l /\ Forall complete ls /\ newline ∉ r.
Proof.
  revert cur ls r. induction l as [| b l IH]; intros cur ls r Hc; cbn.
  - intros [= <- <-]. split_and!; [by rewrite app_nil_r | constructor | done].
  - case_bool_decide as Hb.
    + destruct (split_lines [] l) as [ls' r'] eqn:E. intros [= <- <-].
      destruct (IH [] ls' r') as (H1 & H2 & H3); [set_solver | done |].
      split_and!; [| constructor; [by exists cur; subst b | done] | done].
      cbn. rewrite <- !app_assoc. cbn. by rewrite H1.
    + intros E. destruct (IH (cur ++ [b]) ls r) as (H1 & H2 & H3); [set_solver | done |].
      split_and!; [| done | done]. by rewrite H1, <- app_assoc.
Qed.

(** A line as it is logged, and the buffer of an unfinished line. *)
Definition render (context : string) (line : list u8) : list u8 :=
  if str_is_empty context then line else as_bytes context ++ separator ++ line.
Definition buf_of (context : string) (cur : list u8) : list u8 :=
  if bool_decide (cur = []) then [] else render context cur.

Definition log_cmd (kernel : bool) (line : list u8) : OutputCmd :=
  if kernel then OC_LogKernel line else OC_Log line.

Lemma buf_of_push context cur b :
  (let hb := buf_of context cur in
   (if bool_decide (hb = []) && negb (str_is_empty context)
    then hb ++ as_bytes context ++ separator else hb) ++ [b]) = render context (cur ++ [b]).
Proof.
  cbv zeta. unfold buf_of. destruct (decide (cur = [])) as [-> | Hc].
  - cbn. unfold render. destruct (str_is_empty context); cbn; [done |].
    by rewrite <- !app_assoc.
  - assert (render context cur <> []) as Hr.
    { unfold render. destruct (str_is_empty context); [done |]. intros H.
      apply app_eq_nil in H as [_ H]. by apply app_eq_nil in H as [? _]. }
    rewrite (bool_decide_false (cur = [])), bool_decide_false by done. cbn. unfold render.
    destruct (str_is_empty context); [done |]. by rewrite <- !app_assoc.
Qed.

Lemma write_logs_lines context cur buf kernel :
  write_logs (buf_of context cur) context buf kernel =
    ((log_cmd kernel ∘ render context) <$> (split_lines cur buf).1,
     buf_of context (split_lines cur buf).2).
Proof.
  revert cur. induction buf as [| b buf IH]; intros cur; [done |]. cbn [write_logs split_lines].
  rewrite buf_of_push. case_bool_decide as Hb.
  - change (write_logs [] context buf kernel) with (write_logs (buf_of context []) context buf kernel).
    rewrite IH. destruct (split_lines [] buf) as [ls r]. by destruct kernel.
  - rewrite <- IH. f_equal. unfold buf_of. rewrite bool_decide_false; [done |].
    intros H. by apply app_eq_nil in H as [_ ?].
Qed.

Section writes.
Context {TG : Target}.

(** A write to a log handle sends exactly the lines that it completes,
    each with the name of the handle in front, where [cur] is what the process
    had written after its last newline; the rest waits for the process's next
    write.  The text is cut nowhere else, and what other processes and other
    handles have pending is not touched. *)
Theorem logd_write_lines s i context bufs ctx buf cur :
  handles s !! i = Some (LH_Log context bufs) ->
  default [] (bufs !! ctx_pid ctx) = buf_of context cur -> newline ∉ cur ->
  exists lines rest bufs' s',
    write i buf ctx s = (Ok (zlen buf), s') /\
    output s' = output s ++ ((OC_Log ∘ render context) <$> lines) /\
    concat lines ++ rest = cur ++ buf /\ Forall complete lines /\ (newline ∉ rest) /\
    handles s' !! i = Some (LH_Log context bufs') /\
    bufs' !! ctx_pid ctx = Some (buf_of context rest) /\
    (forall q, q <> ctx_pid ctx -> bufs' !! q = bufs !! q) /\
    (forall j, j <> i -> handles s' !! j = handles s !! j).
Proof.
  intros Hi Hb Hc. destruct (split_lines cur buf) as [ls r] eqn:E.
  pose proof (split_lines_spec _ _ _ _ Hc E) as (H1 & H2 & H3).
  exists ls, r, (<[ctx_pid ctx := buf_of context r]> bufs). eexists. split.
  - unfold write, handle_at.
    unfold mbind, M_bind, gets. rewrite Hi. cbn. rewrite Hb, write_logs_lines, E. done.
  - cbn. rewrite !lookup_insert_eq. split_and!; try done.
    + intros q Hq. by rewrite lookup_insert_ne.
    + intros j Hj. by rewrite lookup_insert_ne.
Qed.
End writes.

(** ** Sinks *)

Section sinks.
Context {SH : SinkHost}.

Definition line_of (c : OutputCmd) : list (list u8) :=
  match c with OC_Log l | OC_LogKernel l => [l] | OC_AddSink _ => [] end.
Definition lines_of (cs : list OutputCmd) : list (list u8) := concat (line_of <$> cs).
Definition last_n {A} (n : nat) (l : list A) : list A := drop (length l - n) l.

(** The sinks that a sequence of commands opens. *)
Definition opens (c : OutputCmd) : bool :=
  match c with OC_AddSink p => open_sink p | _ => false end.
Definition opened (cs : list OutputCmd) : nat := length (filter (fun c => opens c = true) cs).

Lemma last_n_snoc {A} n (l : list A) x :
  (0 < n)%nat -> drop (length (last_n n l ++ [x]) - n) (last_n n l ++ [x]) = last_n n (l ++ [x]).
Proof.
  intros Hn. unfold last_n. rewrite !length_app, length_drop. cbn.
  destruct (decide (length l < n)%nat) as [Hlt | Hge].
  - replace (length l - n)%nat with O by lia. rewrite drop_0.
    f_equal. lia.
  - replace (length l - (length l - n) + 1 - n)%nat with 1%nat by lia.
    replace (length l + 1 - n)%nat with (1 + (length l - n))%nat by lia.
    rewrite Nat.add_comm, <- drop_drop. f_equal. rewrite drop_app_le by lia. done.
Qed.

Lemma keep_last_n line l : keep line (last_n 1000 l) = last_n 1000 (l ++ [line]).
Proof. apply last_n_snoc. lia. Qed.

Lemma lines_of_app a b : lines_of (a ++ b) = lines_of a ++ lines_of b.
Proof. unfold lines_of. by rewrite fmap_app, concat_app. Qed.

(** The thread's lines to keep, and what an open sink has been given. *)
Lemma output_loop_logs cs l o :
  logs o = last_n 1000 l -> logs (output_loop cs o) = last_n 1000 (l ++ lines_of cs).
Proof.
  revert l o. induction cs as [| c cs IH]; intros l o Ho; cbn [output_loop foldl].
  - by rewrite app_nil_r.
  - change (c :: cs) with ([c] ++ cs). rewrite lines_of_app, app_assoc. apply IH.
    destruct c as [line | line | p]; cbn; rewrite ?Ho, ?keep_last_n; try done.
    destruct (open_sink p); cbn; by rewrite ?Ho, app_nil_r.
Qed.

Lemma output_loop_file cs k p ls o :
  files o !! k = Some (p, ls) -> files (output_loop cs o) !! k = Some (p, ls ++ lines_of cs).
Proof.
  revert ls o. induction cs as [| c cs IH]; intros ls o Ho; cbn [output_loop foldl].
  - by rewrite app_nil_r.
  - change (c :: cs) with ([c] ++ cs). rewrite lines_of_app, app_assoc. apply IH.
    destruct c as [line | line | q]; cbn.
    + unfold write_sinks. by rewrite list_lookup_fmap, Ho.
    + unfold write_sinks. by rewrite list_lookup_fmap, Ho.
    + rewrite app_nil_r. destruct (open_sink q); cbn; [by apply lookup_app_l_Some | done].
Qed.

Lemma output_loop_files_length cs o :
  length (files (output_loop cs o)) = (length (files o) + opened cs)%nat.
Proof.
  unfold opened. revert o. induction cs as [| c cs IH]; intros o; cbn [output_loop foldl]; [cbn; lia |].
  etrans; [apply IH |]. rewrite filter_cons. destruct c as [line | line | q]; cbn.
  - unfold write_sinks. by rewrite length_fmap, decide_False.
  - unfold write_sinks. by rewrite length_fmap, decide_False.
  - destruct (open_sink q) eqn:E; [rewrite decide_True by done | rewrite decide_False by done]; cbn;
      rewrite ?length_app; cbn; lia.
Qed.

(** A sink that is added receives the last thousand lines logged before
    it, or all of them when there are fewer, and then every line logged after
    it, all in order. *)
Theorem logd_sink_backfill before path after :
  open_sink path = true ->
  files (output_loop (before ++ OC_AddSink path :: after) Output_new) !! opened before =
    Some (path, last_n 1000 (lines_of before) ++ lines_of after).
Proof.
  intros Hp. unfold output_loop. rewrite foldl_app. cbn [foldl].
  fold (output_loop before Output_new). set (o := output_loop before Output_new).
  fold (output_loop after (output_step (OC_AddSink path) o)).
  apply output_loop_file. cbn. rewrite Hp. cbn.
  pose proof (output_loop_files_length before Output_new) as Hl. fold o in Hl. cbn in Hl.
  rewrite lookup_app_r by lia. rewrite <- Hl, Nat.sub_diag. cbn. do 2 f_equal.
  apply (output_loop_logs before [] Output_new). done.
Qed.

(** The backlog kept for new sinks never exceeds a thousand lines. *)
Theorem logd_backlog_bounded cs : (length (logs (output_loop cs Output_new)) <= 1000)%nat.
Proof.
  rewrite (output_loop_logs cs []) by done. cbn. unfold last_n. rewrite length_drop. lia.
Qed.
End sinks.

(** ** The kernel log *)

(** Whatever the number of bytes that the read returned, the turn logs the
    whole 4096-byte buffer, the stale or zero bytes after them included, and
    the prefix stored in the buffer is added to the one that [write_logs]
    writes. *)
Theorem kernel_turn_logs_whole_buffer got :
  (length got <= 4088)%nat ->
  exists lines rest,
    (kernel_turn kernel_buf [] got).2 =
      ((OC_LogKernel ∘ render "kernel") <$> lines, buf_of "kernel" rest) /\
    concat lines ++ rest = kernel_prefix ++ got ++ replicate (4088 - length got) x00.
Proof.
  intros Hl. unfold kernel_turn. cbn [snd].
  change (write_logs []) with (write_logs (buf_of "kernel" [])).
  rewrite write_logs_lines. set (text := splice _ _ _).
  destruct (split_lines [] text) as [ls r] eqn:E.
  apply split_lines_spec in E as (H1 & _ & _); [| set_solver].
  exists ls, r. split; [done |]. rewrite H1. cbn [app]. unfold text, splice, kernel_buf.
  rewrite take_app_length. f_equal. f_equal.
  rewrite drop_app_ge by lia.
  rewrite drop_replicate. f_equal. cbn. lia.
Qed.

(** ** Witnesses *)

Section witnesses.
#[local] Existing Instance x86_64_release.
#[local] Instance any_sink : SinkHost := {| open_sink _ := true |}.

Definition one_handle : LogScheme := (open "net" LogScheme_new).2.

Lemma logd_write_lines_witness :
  exists s', write 0 (as_bytes "up") {| ctx_pid := 1; ctx_uid := 0; ctx_gid := 0; ctx_id := 0 |} one_handle
    = (Ok 2, s') /\ output s' = [].
Proof.
  destruct (logd_write_lines one_handle 0 "net" ∅
    {| ctx_pid := 1; ctx_uid := 0; ctx_gid := 0; ctx_id := 0 |} (as_bytes "up") [])
    as (lines & rest & bufs & s' & H1 & H2 & H3 & H4 & _); [by vm_compute | done | set_solver |].
  exists s'. split; [exact H1 |]. rewrite H2. destruct lines as [| line lines]; [done |].
  exfalso. apply Forall_cons in H4 as [(l & -> & _) _].
  assert (newline ∈ concat ((l ++ [newline]) :: lines) ++ rest) as Hin by (cbn; set_solver).
  rewrite H3 in Hin. by apply (bool_decide_eq_false_1 (newline ∈ [] ++ as_bytes "up")) in Hin.
Defined.

Lemma logd_sink_backfill_witness :
  files (output_loop ([OC_Log [x61]] ++ OC_AddSink [x62] :: [OC_Log [x63]]) Output_new) !! 0%nat
    = Some ([x62], [[x61]; [x63]]).
Proof. exact (logd_sink_backfill [OC_Log [x61]] [x62] [OC_Log [x63]] eq_refl). Defined.
End witnesses.
