(* ===== verification/Netstack.v ===== *)
(** * netstack: ports and routes

    Models [netstack/src/port_set.rs], the allocator of ephemeral ports behind
    the udp and tcp schemes, and [netstack/src/router/route_table.rs], the
    routing table.  Addresses and prefixes are the crate [smoltcp]'s and are
    parameters. *)

From stdpp Require Import base gmap strings list fin_maps sorting.
From Stdlib Require Import ZArith Lia.
From S2P Require Import Prelude Syscall.

Local Open Scope Z_scope.

(** ** PortSet *)

Section ports.
Context {TG : Target}.

Record PortSet := { from : Z; range : Z; next : Z; ports : gmap Z Z }.

Definition set_next (n : Z) (s : PortSet) : PortSet :=
  {| from := from s; range := range s; next := n; ports := ports s |}.
Definition set_ports (p : gmap Z Z) (s : PortSet) : PortSet :=
  {| from := from s; range := range s; next := next s; ports := p |}.

Definition u16_mod : Z := 2 ^ 16.

(** [PortSet::new]; the result is [None], a port set, or a panic of
    [to - from + 1] in a checked build. *)
Definition PortSet_new (f t : Z) : outcome (option PortSet) :=
  if t <? f then Ok None
  else match arith (S := unit) 16 (t - f + 1) tt with
       | (Ok r, _) => Ok (Some {| from := f; range := r; next := 0; ports := ∅ |})
       | (Err e, _) => Err e
       | (Panic, _) => Panic
       end.

(** The loop of [get_port]: the first vacant key from [k] on, wrapping at the
    width of [u16]; [None] when the fuel runs out. *)
Fixpoint find_vacant (fuel : nat) (k : Z) (ps : gmap Z Z) : option Z :=
  match fuel with
  | O => None
  | S fuel =>
      match ps !! k with
      | None => Some k
      | Some _ => find_vacant fuel ((k + 1) mod u16_mod) ps
      end
  end.

(** [get_port]; [None] when the loop does not end within the fuel. *)
Definition get_port (fuel : nat) (s : PortSet) : option (outcome (option Z) * PortSet) :=
  if range s <=? Z.of_nat (size (ports s)) then Some (Ok None, s)
  else match find_vacant fuel (next s) (ports s) with
       | None => None
       | Some k =>
           Some ((modify (fun s => set_next k (set_ports (<[k := 1]> (ports s)) s));;
                  port ← arith 16 (from s + k);
                  modify (set_next ((k + 1) mod u16_mod));;
                  mret (Some port)) s)
       end.

Definition claim_port (port : Z) : M PortSet bool :=
  ps ← gets ports;
  match ps !! port with
  | None => modify (set_ports (<[port := 1]> ps));; mret true
  | Some _ => mret false
  end.

Definition acquire_port (port : Z) : M PortSet unit :=
  ps ← gets ports;
  n ← usize_add (default 0 (ps !! port)) 1;
  modify (set_ports (<[port := n]> ps)).

Definition release_port (port : Z) : M PortSet unit :=
  ps ← gets ports;
  match ps !! port with
  | Some n =>
      n ← usize_sub n 1;
      modify (set_ports (if n =? 0 then delete port ps else <[port := n]> ps))
  | None => mret tt
  end.
End ports.

(** ** Binary search of the standard library *)

Section binary_search.
Context {A : Type} (f : A -> comparison) (l : list A).

(** [f(self.get_unchecked(i))] *)
Definition cmp_at (i : nat) : comparison := match l !! i with Some x => f x | None => Gt end.

(** The [while size > 1] loop; [size] turns are more than enough. *)
Fixpoint search_loop (fuel base size : nat) : nat :=
  match fuel with
  | O => base
  | S fuel =>
      if (size <=? 1)%nat then base
      else
        let half := (size / 2)%nat in
        let mid := (base + half)%nat in
        search_loop fuel (match cmp_at mid with Gt => base | _ => mid end) (size - half)
  end.

(** [binary_search_by]: [inl] is [Ok], [inr] is [Err]. *)
Definition binary_search_by : nat + nat :=
  match l with
  | [] => inr O
  | _ =>
      let base := search_loop (length l) O (length l) in
      match cmp_at base with
      | Eq => inl base
      | Lt => inr (S base)
      | Gt => inr base
      end
  end.
End binary_search.

(** ** RouteTable *)

(** [IpAddress] and [IpCidr] of smoltcp. *)
Class IpApi := {
  IpAddress : Type; IpCidr : Type;
  addr_eq :: EqDecision IpAddress;
  cidr_eq :: EqDecision IpCidr;
  prefix_len : IpCidr -> Z;
  contains_addr : IpCidr -> IpAddress -> bool
}.

Section routes.
Context {IP : IpApi}.

Record Rule := { r_filter : IpCidr; via : option IpAddress; dev : string; src : IpAddress }.

(** [RouteTable { rules }] *)
Abbreviation RouteTable := (list Rule).

Definition lookup_rule (t : RouteTable) (dst : IpAddress) : option Rule :=
  snd <$> list_find (fun r => contains_addr (r_filter r) dst = true) (reverse t).

Definition lookup_src_addr (t : RouteTable) (dst : IpAddress) : option IpAddress :=
  r ← lookup_rule t dst; Some (src r).
Definition lookup_gateway (t : RouteTable) (dst : IpAddress) : option IpAddress :=
  r ← lookup_rule t dst; via r.
Definition lookup_device (t : RouteTable) (dst : IpAddress) : option string :=
  r ← lookup_rule t dst; Some (dev r).

Definition rule_key (r : Rule) : Z := prefix_len (r_filter r).

Definition insert_rule (new_rule : Rule) (t : RouteTable) : RouteTable :=
  match binary_search_by (fun r => rule_key r ?= rule_key new_rule) t with
  | inl i | inr i => vec_insert i new_rule t
  end.

Definition remove_rule (filter_ : IpCidr) (t : RouteTable) : RouteTable :=
  filter (fun r => r_filter r <> filter_) t.

Definition change_src (old_src new_src : IpAddress) (t : RouteTable) : RouteTable :=
  (fun r => if decide (src r = old_src)
            then {| r_filter := r_filter r; via := via r; dev := dev r; src := new_src |}
            else r) <$> t.
End routes.
