(* ===== verification/NetstackFacts.v ===== *)
(** * netstack: correctness of the port set and the routing table

    The table stays sorted by prefix length, so that a lookup finds the most
    specific route; the loop that allocates a port ends.  The last theorems
    show how allocation and release disagree about what a key means. *)

From stdpp Require Import base gmap strings list fin_maps sorting.
From Stdlib Require Import ZArith Lia.
From S2P Require Import Prelude Syscall Netstack.

Local Open Scope Z_scope.

(** ** Binary search *)

Section search.
Context {A : Type} (key : A -> Z) (b : Z) (l : list A).

Definition by_key : A -> A -> Prop := fun x y => key x <= key y.
Hypothesis sorted : StronglySorted by_key l.

Let f (x : A) : comparison := key x ?= b.

Lemma sorted_lookup i j x y :
  (i <= j)%nat -> l !! i = Some x -> l !! j = Some y -> key x <= key y.
Proof.
  clear f. revert i j. induction sorted as [| z l' Hs IH Hall]; intros i j Hij Hi Hj; [done |].
  destruct i as [| i], j as [| j]; cbn in *; simplify_eq; try lia.
  - rewrite Forall_forall in Hall. apply Hall. by eapply list_elem_of_lookup_2.
  - apply (IH Hs i j); [lia | done | done].
Qed.

Lemma cmp_at_mono i j :
  (i <= j < length l)%nat -> cmp_at f l i = Gt -> cmp_at f l j = Gt.
Proof.
  intros [Hij Hj]. unfold cmp_at, f.
  destruct (lookup_lt_is_Some_2 l i) as [x Hx]; [lia |].
  destruct (lookup_lt_is_Some_2 l j) as [y Hy]; [lia |].
  rewrite Hx, Hy. pose proof (sorted_lookup i j x y Hij Hx Hy). rewrite !Z.compare_gt_iff. lia.
Qed.

(** The loop narrows the place of [b] down to one position. *)
Lemma search_loop_spec fuel base size :
  (size <= fuel)%nat -> (1 <= size)%nat -> (base + size <= length l)%nat ->
  (base = O \/ cmp_at f l base <> Gt) ->
  (forall j, (base + size <= j < length l)%nat -> cmp_at f l j = Gt) ->
  let r := search_loop f l fuel base size in
  (r < length l)%nat /\ (r = O \/ cmp_at f l r <> Gt) /\
  (forall j, (r < j < length l)%nat -> cmp_at f l j = Gt).
Proof.
  revert base size. induction fuel as [| fuel IH]; intros base size Hf H1 Hle Hb Ha; [lia |].
  cbn [search_loop]. destruct (size <=? 1)%nat eqn:Es.
  - apply Nat.leb_le in Es. cbv zeta. split_and!; [lia | done |]. intros j Hj. apply Ha. lia.
  - apply Nat.leb_gt in Es. pose proof (Nat.div_lt size 2). pose proof (Nat.div_str_pos size 2).
    pose proof (Nat.div_mod_eq size 2). pose proof (Nat.mod_upper_bound size 2).
    set (half := (size / 2)%nat) in *.
    destruct (cmp_at f l (base + half)%nat) eqn:Ec; (apply IH; [lia | lia | lia | |]).
    all: try (right; congruence).
    all: try (intros j Hj; apply Ha; lia).
    + done.
    + intros j Hj. apply (cmp_at_mono (base + half)); [lia | done].
Qed.

(** The position found splits the list around [b]. *)
Lemma binary_search_splits i :
  binary_search_by f l = inl i \/ binary_search_by f l = inr i ->
  Forall (fun x => key x <= b) (take i l) /\ Forall (fun x => b <= key x) (drop i l).
Proof.
  intros Hi. destruct (decide (l = [])) as [-> | Hne].
  { destruct i; split; constructor. }
  assert (1 <= length l)%nat as Hlen by (destruct l; [done | cbn; lia]).
  destruct (search_loop_spec (length l) O (length l)) as (Hr & Hb & Ha); [lia | lia | lia | auto | lia |].
  assert (exists c, cmp_at f l (search_loop f l (length l) 0 (length l)) = c /\
    i = match c with Lt => S (search_loop f l (length l) 0 (length l))
        | _ => search_loop f l (length l) 0 (length l) end) as (c & Hc & ->).
  { unfold binary_search_by in Hi. destruct l; [done |].
    eexists. split; [reflexivity |]. destruct (cmp_at _ _ _); naive_solver. }
  set (r := search_loop f l (length l) 0 (length l)) in *. clearbody r. clear Hi.
  destruct (lookup_lt_is_Some_2 l r Hr) as [x Hx].
  assert (f x = c) as Hfx by (unfold cmp_at in Hc; by rewrite Hx in Hc). unfold f in Hfx.
  assert (forall j y, (r < j)%nat -> l !! j = Some y -> b < key y) as Hafter.
  { intros j y Hj Hy. assert (cmp_at f l j = Gt) as Hg.
    { apply Ha. apply lookup_lt_Some in Hy. lia. }
    unfold cmp_at, f in Hg. rewrite Hy in Hg. by rewrite Z.compare_gt_iff in Hg. }
  split; apply Forall_lookup; intros j y Hy.
  - apply lookup_take_Some in Hy as [Hy Hj].
    destruct c; [apply Z.compare_eq in Hfx | rewrite Z.compare_lt_iff in Hfx |]; cbn in Hj.
    + pose proof (sorted_lookup j r y x ltac:(lia) Hy Hx). lia.
    + pose proof (sorted_lookup j r y x ltac:(lia) Hy Hx). lia.
    + destruct Hb as [-> | Hb]; [lia | congruence].
  - rewrite lookup_drop in Hy.
    destruct c; [apply Z.compare_eq in Hfx | rewrite Z.compare_lt_iff in Hfx | rewrite Z.compare_gt_iff in Hfx];
      cbn in Hy.
    + pose proof (sorted_lookup r (r + j) x y ltac:(lia) Hx Hy). lia.
    + specialize (Hafter (S (r + j)) y ltac:(lia) Hy). lia.
    + pose proof (sorted_lookup r (r + j) x y ltac:(lia) Hx Hy). lia.
Qed.
End search.

(** ** Routes *)

Section routes.
Context {IP : IpApi}.
Implicit Types t : list Rule.

Definition route_sorted t : Prop := StronglySorted (by_key rule_key) t.

Lemma insert_rule_sorted r t : route_sorted t -> route_sorted (insert_rule r t).
Proof.
  intros Hs. unfold insert_rule.
  enough (forall i, binary_search_by (fun x => rule_key x ?= rule_key r) t = inl i \/
      binary_search_by (fun x => rule_key x ?= rule_key r) t = inr i ->
      route_sorted (vec_insert i r t)) as H.
  { destruct (binary_search_by _ t) as [i | i]; auto. }
  intros i Hi. destruct (binary_search_splits rule_key (rule_key r) t Hs i Hi) as [Hb Ha].
  unfold route_sorted in *. rewrite <- (take_drop i t) in Hs.
  apply StronglySorted_app in Hs as (Hba & H1 & H2). unfold vec_insert.
  apply StronglySorted_app. rewrite Forall_forall in Hb, Ha. split_and!; [| done |].
  - intros x y Hx Hy. apply elem_of_cons in Hy as [-> | Hy]; [by apply Hb | by apply Hba].
  - apply StronglySorted_cons. split; [| done]. by apply Forall_forall.
Qed.

Lemma remove_rule_sorted c t : route_sorted t -> route_sorted (remove_rule c t).
Proof.
  unfold route_sorted, remove_rule. induction 1 as [| x t Hs IH Hall]; [constructor |].
  rewrite filter_cons. case_decide; [| done]. constructor; [done |].
  rewrite Forall_forall in *. intros y [_ Hy]%list_elem_of_filter. by apply Hall.
Qed.

Lemma change_src_sorted a b t : route_sorted t -> route_sorted (change_src a b t).
Proof.
  unfold route_sorted, change_src. intros Hs. apply (StronglySorted_fmap _ (by_key rule_key)); [| done].
  intros x y. unfold by_key, rule_key. by repeat case_decide.
Qed.

(** What the netcfg scheme can do to the table. *)
Inductive route_op :=
| RO_insert (r : Rule)
| RO_remove (c : IpCidr)
| RO_change_src (a b : IpAddress).

Definition apply_route_op (t : list Rule) (o : route_op) : list Rule :=
  match o with
  | RO_insert r => insert_rule r t
  | RO_remove c => remove_rule c t
  | RO_change_src a b => change_src a b t
  end.

Lemma route_ops_sorted ops t : route_sorted t -> route_sorted (foldl apply_route_op t ops).
Proof.
  revert t. induction ops as [| o ops IH]; intros t Ht; [done |]. apply IH.
  destruct o; [by apply insert_rule_sorted | by apply remove_rule_sorted | by apply change_src_sorted].
Qed.

(** A lookup in a sorted table *)
Definition looks_up t (dst : IpAddress) : Prop :=
  match lookup_rule t dst with
  | Some r =>
      r ∈ t /\ contains_addr (r_filter r) dst = true /\
      forall r', r' ∈ t -> contains_addr (r_filter r') dst = true ->
        prefix_len (r_filter r') <= prefix_len (r_filter r)
  | None => forall r, r ∈ t -> contains_addr (r_filter r) dst = false
  end.

Lemma lookup_sorted t dst : route_sorted t -> looks_up t dst.
Proof.
  intros Hs. unfold looks_up.
  unfold lookup_rule. destruct (list_find _ (reverse t)) as [[i r] |] eqn:E; cbn.
  - apply list_find_Some in E as (Hi & Hr & Hmin).
    split; [apply elem_of_reverse; by eapply list_elem_of_lookup_2 |]. split; [done |].
    intros r' Hr' Hc. apply elem_of_reverse, list_elem_of_lookup in Hr' as [j Hj].
    assert (i <= j)%nat as Hij.
    { destruct (decide (i <= j)%nat) as [? | Hlt]; [done |].
      exfalso. apply (Hmin j r' Hj); [lia | done]. }
    apply reverse_lookup_Some in Hi as [Hi ?], Hj as [Hj ?].
    apply (sorted_lookup rule_key t Hs (length t - S j) (length t - S i)); [lia | done | done].
  - apply list_find_None in E. intros r Hr. rewrite Forall_forall in E.
    destruct (contains_addr (r_filter r) dst) eqn:Hc; [| done].
    exfalso. apply (E r); [by apply elem_of_reverse | done].
Qed.
(** Whatever rules have been inserted, removed and changed, in any
    order, a lookup returns a rule that matches the destination and none that
    matches is more specific; it returns nothing only when no rule matches. *)
Theorem route_longest_prefix ops dst :
  let t := foldl apply_route_op [] ops in
  match lookup_rule t dst with
  | Some r =>
      r ∈ t /\ contains_addr (r_filter r) dst = true /\
      forall r', r' ∈ t -> contains_addr (r_filter r') dst = true ->
        prefix_len (r_filter r') <= prefix_len (r_filter r)
  | None => forall r, r ∈ t -> contains_addr (r_filter r) dst = false
  end.
Proof. intros t. apply lookup_sorted, route_ops_sorted. constructor. Qed.
End routes.

(** ** Ports *)

Section ports.
Context {TG : Target}.

Record port_wf (s : PortSet) : Prop := {
  po_from : 0 <= from s < u16_mod;
  po_range : 0 <= range s < u16_mod;
  po_next : 0 <= next s < u16_mod;
  po_keys : forall k n, ports s !! k = Some n -> 0 <= k < u16_mod
}.

Lemma u16_mod_pos : 0 < u16_mod.
Proof. reflexivity. Qed.

Lemma find_vacant_Some fuel k ps v :
  0 <= k < u16_mod -> find_vacant fuel k ps = Some v -> ps !! v = None /\ 0 <= v < u16_mod.
Proof.
  revert k. induction fuel as [| fuel IH]; intros k Hk; cbn; [done |].
  destruct (ps !! k) eqn:E; [| by intros [= <-]].
  apply IH. apply Z.mod_pos_bound, u16_mod_pos.
Qed.

Lemma find_vacant_None fuel k ps :
  0 <= k -> find_vacant fuel k ps = None ->
  forall i, 0 <= i < Z.of_nat fuel -> is_Some (ps !! ((k + i) mod u16_mod)) \/ u16_mod <= k.
Proof.
  revert k. induction fuel as [| fuel IH]; intros k Hk; cbn; [lia |].
  destruct (ps !! k) as [n |] eqn:E; [| done]. intros Hf i Hi.
  destruct (decide (u16_mod <= k)) as [? | Hlt]; [by right | left].
  destruct (decide (i = 0)) as [-> | Hne]; [rewrite Z.add_0_r, Z.mod_small by lia; by exists n |].
  pose proof (Z.mod_pos_bound (k + 1) u16_mod u16_mod_pos) as Hb.
  destruct (IH ((k + 1) mod u16_mod) ltac:(lia) Hf (i - 1)) as [H | H]; [lia | | lia].
  rewrite Z.add_mod_idemp_l in H by (unfold u16_mod; lia).
  by replace (k + 1 + (i - 1)) with (k + i) in H by lia.
Qed.

Lemma get_port_total s : port_wf s -> is_Some (get_port (Z.to_nat u16_mod) s).
Proof.
  intros [Hf Hr Hn Hk]. unfold get_port.
  destruct (range s <=? Z.of_nat (size (ports s))) eqn:E; [by eexists |].
  destruct (find_vacant (Z.to_nat u16_mod) (next s) (ports s)) as [v |] eqn:Ev; [by eexists |].
  exfalso. apply Z.leb_gt in E.
  set (keys := (fun i => (next s + i) mod u16_mod) <$> seqZ 0 u16_mod).
  assert (list_to_set keys ⊆ dom (ports s)) as Hsub.
  { intros x Hx. apply elem_of_list_to_set, list_elem_of_fmap in Hx as (i & -> & Hi%elem_of_seqZ).
    apply elem_of_dom.
    destruct (find_vacant_None _ _ _ (proj1 Hn) Ev i) as [H | H]; [| done | lia].
    rewrite Z2Nat.id by (unfold u16_mod; lia). lia. }
  apply subseteq_size in Hsub. rewrite size_dom, size_list_to_set in Hsub.
  - unfold keys in Hsub. rewrite length_fmap, length_seqZ in Hsub. unfold u16_mod in *. lia.
  - apply NoDup_fmap_2_strong; [| apply NoDup_seqZ].
    intros x y Hx%elem_of_seqZ Hy%elem_of_seqZ Hxy.
    pose proof (Z.div_mod (next s + x) u16_mod). pose proof (Z.div_mod (next s + y) u16_mod).
    unfold u16_mod in *. Z.div_mod_to_equations. lia.
Qed.

(** What the udp and tcp schemes do to their port set. *)
Inductive port_reach : PortSet -> Prop :=
| pr_new f t s :
    0 <= f < u16_mod -> 0 <= t < u16_mod -> PortSet_new f t = Ok (Some s) -> port_reach s
| pr_get s fuel o s' : port_reach s -> get_port fuel s = Some (o, s') -> port_reach s'
| pr_claim s p : port_reach s -> 0 <= p < u16_mod -> port_reach (claim_port p s).2
| pr_acquire s p : port_reach s -> 0 <= p < u16_mod -> port_reach (acquire_port p s).2
| pr_release s p : port_reach s -> 0 <= p < u16_mod -> port_reach (release_port p s).2.

Lemma wf_insert_port s p n : port_wf s -> 0 <= p < u16_mod -> port_wf (set_ports (<[p := n]> (ports s)) s).
Proof.
  intros [Hf Hr Hn Hk] Hp. split; cbn; try done.
  intros k m [[<- _] | [_ H]]%lookup_insert_Some; eauto.
Qed.

Lemma wf_delete_port s p : port_wf s -> port_wf (set_ports (delete p (ports s)) s).
Proof.
  intros [Hf Hr Hn Hk]. split; cbn; try done.
  intros k m [_ H]%lookup_delete_Some; eauto.
Qed.

Lemma port_wf_set_next s n : port_wf s -> 0 <= n < u16_mod -> port_wf (set_next n s).
Proof. intros [Hf Hr Hn Hk] Hb. by split. Qed.

Lemma port_new_wf f t s :
  0 <= f < u16_mod -> 0 <= t < u16_mod -> PortSet_new f t = Ok (Some s) -> port_wf s.
Proof.
  intros Hf Ht. unfold PortSet_new. destruct (t <? f); [done |].
  destruct (arith_cases (S := unit) 16 (t - f + 1) tt) as [-> | (y & -> & Hy)]; [lia | done |].
  intros [= <-]. split; cbn; try done; try (unfold u16_mod in *; lia).
Qed.

Lemma get_port_wf fuel s o s' : port_wf s -> get_port fuel s = Some (o, s') -> port_wf s'.
Proof.
  intros Hw. unfold get_port. destruct (range s <=? _); [by intros [= _ <-] |].
  destruct (find_vacant fuel (next s) (ports s)) as [k |] eqn:Ek; [| done].
  apply find_vacant_Some in Ek as [_ Hk]; [| apply Hw].
  pose proof (port_wf_set_next _ k (wf_insert_port s k 1 Hw Hk) Hk) as Hw'.
  unfold modify, mbind, M_bind.
  destruct (arith_cases 16 (from s + k) (set_next k (set_ports (<[k:=1]> (ports s)) s)))
    as [-> | (y & -> & _)]; [lia | |]; intros [= _ <-]; [done |].
  apply port_wf_set_next; [done |]. apply Z.mod_pos_bound, u16_mod_pos.
Qed.

Lemma port_reach_wf s : port_reach s -> port_wf s.
Proof.
  induction 1 as [f t s Hf Ht Hn | s fuel o s' _ IH H | s p _ IH Hp | s p _ IH Hp | s p _ IH Hp].
  - exact (port_new_wf _ _ _ Hf Ht Hn).
  - exact (get_port_wf _ _ _ _ IH H).
  - unfold claim_port. rewrite gets_bind. destruct (ports s !! p); [done |].
    by apply wf_insert_port.
  - change (wp (acquire_port p) (fun _ => port_wf) s). unfold acquire_port. wp_run;
      by apply wf_insert_port.
  - change (wp (release_port p) (fun _ => port_wf) s). unfold release_port. wp_run.
    all: match goal with |- context [if ?b then _ else _] => destruct b end;
      [by apply wf_delete_port | by apply wf_insert_port].
Qed.

(** The loop that looks for a free port ends, in every state that
    allocations, claims and releases can reach: one turn for every value of a
    [u16] is enough. *)
Theorem get_port_terminates s : port_reach s -> is_Some (get_port (Z.to_nat u16_mod) s).
Proof. intros Hs. by apply get_port_total, port_reach_wf. Qed.

(** A port that was claimed by number is also handed out as a free one:
    claims are filed under the port, allocations under the offset. *)
Theorem port_double_allocation f t s fuel :
  0 < f -> f <= t < u16_mod -> t - f + 1 < u16_mod -> (0 < fuel)%nat ->
  PortSet_new f t = Ok (Some s) ->
  exists s1 s2, claim_port f s = (Ok true, s1) /\
    (1 < t - f + 1 -> get_port fuel s1 = Some (Ok (Some f), s2)).
Proof.
  intros Hf Ht Hr Hfuel. unfold PortSet_new. rewrite (proj2 (Z.ltb_ge t f)) by lia.
  rewrite arith_ok by (unfold u16_mod in *; lia). intros [= <-].
  eexists _, _. split; [reflexivity |]. intros H1. unfold get_port. cbn [ports range set_ports].
  rewrite map_size_insert_None, map_size_empty by apply lookup_empty.
  rewrite (proj2 (Z.leb_gt _ _)) by lia. destruct fuel as [| fuel]; [lia |]. cbn [find_vacant].
  rewrite lookup_insert_ne, lookup_empty by (cbn; lia).
  unfold modify, mbind, M_bind. cbn [from next set_ports set_next]. rewrite Z.add_0_r.
  rewrite arith_ok by (unfold u16_mod in *; lia). reflexivity.
Qed.

(** The first port a set hands out is never given back: its entry is under
    the offset 0, and a release looks under the port. *)
Theorem port_release_leaks f t s fuel :
  0 < f -> f <= t < u16_mod -> t - f + 1 < u16_mod -> (0 < fuel)%nat ->
  PortSet_new f t = Ok (Some s) ->
  exists s1, get_port fuel s = Some (Ok (Some f), s1) /\ size (ports s1) = 1%nat /\
    release_port f s1 = (Ok tt, s1).
Proof.
  intros Hf Ht Hr Hfuel. unfold PortSet_new. rewrite (proj2 (Z.ltb_ge t f)) by lia.
  rewrite arith_ok by (unfold u16_mod in *; lia). intros [= <-].
  eexists. unfold get_port. cbn [ports range]. rewrite map_size_empty.
  rewrite (proj2 (Z.leb_gt _ _)) by lia. destruct fuel as [| fuel]; [lia |]. cbn [find_vacant next].
  rewrite lookup_empty. unfold modify, mbind, M_bind. cbn [from next set_ports set_next].
  rewrite Z.add_0_r, arith_ok by (unfold u16_mod in *; lia). split; [reflexivity |].
  cbn [ports set_ports set_next]. split.
  - by rewrite map_size_insert_None, map_size_empty by apply lookup_empty.
  - unfold release_port. rewrite gets_bind. cbn [ports set_ports set_next].
    by rewrite lookup_insert_ne, lookup_empty by lia.
Qed.
End ports.

(** ** Witnesses *)

Section witnesses.
#[local] Existing Instance x86_64_release.

Definition demo_ports : PortSet := {| from := 49152; range := 16384; next := 0; ports := ∅ |}.

Lemma get_port_terminates_witness : is_Some (get_port (Z.to_nat u16_mod) demo_ports).
Proof. apply get_port_terminates. by apply (pr_new 49152 65535). Defined.
End witnesses.
