(* ===== verification/Sockets.v ===== *)
(** * netstack: the scheme of sockets

    Models [netstack/src/scheme/socket.rs]: the scheme that the raw, udp, tcp and icmp
    sockets share, over the trait [SchemeSocket].  The set of sockets, the
    interface and addresses are those of [smoltcp], and parameters. *)

From stdpp Require Import base gmap strings list fin_maps.
From Stdlib Require Import ZArith Lia.
From Stdlib Require Import Strings.Byte.
From S2P Require Import Prelude Syscall Netstack.

Local Open Scope Z_scope.

(** ** What is [smoltcp]'s *)

(** [SocketSet] of sockets [AnySocket], by handle; [set_get] is [None] for a
    handle that is of no socket, where [get] and [remove] panic.  [set_put] is a write
    through the reference that [get_mut] returns. *)
Class SocketSetApi := {
  AnySocket : Type;
  SocketSet : Type;
  set_get : Z -> SocketSet -> option AnySocket;
  set_put : Z -> AnySocket -> SocketSet -> SocketSet;
  set_add : AnySocket -> SocketSet -> Z * SocketSet;
  set_remove : Z -> SocketSet -> SocketSet
}.

(** Documented behaviour: a handle denotes the socket that it was returned for,
    until the socket is removed. *)
Class SocketSetLaws (SA : SocketSetApi) : Prop := {
  set_add_fresh : forall a st, set_get (set_add a st).1 st = None;
  set_get_add : forall a st h, set_get h (set_add a st).2 = if decide (h = (set_add a st).1) then Some a else set_get h st;
  set_get_put : forall a st h k, is_Some (set_get k st) -> set_get h (set_put k a st) = if decide (h = k) then Some a else set_get h st;
  set_get_remove : forall st h k, is_Some (set_get k st) -> set_get h (set_remove k st) = if decide (h = k) then None else set_get h st
}.

(** [Interface], as far as sockets use it *)
Class IfaceApi := { Interface : Type }.

(** The bytes of a [TimeSpec] of [redox_syscall], which derefs to them *)
Class TimeSpecBytes := { ts_size : nat; ts_bytes : TimeSpec -> list u8; ts_of_bytes : list u8 -> TimeSpec }.

Section net.
Context {IP : IpApi} {SA : SocketSetApi} {IF : IfaceApi}.

(** What the schemes share behind [Rc]s: the sockets, and the [Context] *)
Record Net := { sockets : SocketSet; iface : Interface; route_table : list Rule }.

Definition set_sockets (x : SocketSet) (n : Net) : Net :=
  {| sockets := x; iface := iface n; route_table := route_table n |}.
Definition set_iface (x : Interface) (n : Net) : Net :=
  {| sockets := sockets n; iface := x; route_table := route_table n |}.
End net.

(** ** Files *)

Record NullFile := { n_flags : Z; n_uid : Z; n_gid : Z }.

Section files.
Context {DataT SettingT : Type}.

Record SocketFile := {
  sf_flags : Z; sf_data : DataT; sf_events : Z; sf_handle : Z; read_notified : bool; write_notified : bool;
  read_timeout : option TimeSpec; write_timeout : option TimeSpec
}.

Definition clone_with_data (data : DataT) (f : SocketFile) : SocketFile := {|
  sf_flags := sf_flags f; sf_data := data; sf_events := sf_events f; sf_handle := sf_handle f; read_notified := false;
  write_notified := false; read_timeout := read_timeout f; write_timeout := write_timeout f |}.

Definition new_with_data (handle : Z) (data : DataT) : SocketFile := {|
  sf_flags := 0; sf_data := data; sf_events := 0; sf_handle := handle; read_notified := false; write_notified := false;
  read_timeout := None; write_timeout := None |}.

Definition set_sf_flags (x : Z) (f : SocketFile) : SocketFile := {|
  sf_flags := x; sf_data := sf_data f; sf_events := sf_events f; sf_handle := sf_handle f; read_notified := read_notified f;
  write_notified := write_notified f; read_timeout := read_timeout f; write_timeout := write_timeout f |}.
Definition set_sf_events (x : Z) (f : SocketFile) : SocketFile := {|
  sf_flags := sf_flags f; sf_data := sf_data f; sf_events := x; sf_handle := sf_handle f; read_notified := read_notified f;
  write_notified := write_notified f; read_timeout := read_timeout f; write_timeout := write_timeout f |}.
Definition set_notified (r w : bool) (f : SocketFile) : SocketFile := {|
  sf_flags := sf_flags f; sf_data := sf_data f; sf_events := sf_events f; sf_handle := sf_handle f; read_notified := r;
  write_notified := w; read_timeout := read_timeout f; write_timeout := write_timeout f |}.
Definition set_timeouts (r w : option TimeSpec) (f : SocketFile) : SocketFile := {|
  sf_flags := sf_flags f; sf_data := sf_data f; sf_events := sf_events f; sf_handle := sf_handle f; read_notified := read_notified f;
  write_notified := write_notified f; read_timeout := r; write_timeout := w |}.
(** [file.socket_handle = ..; file.data = ..] *)
Definition move_to (handle : Z) (data : DataT) (f : SocketFile) : SocketFile := {|
  sf_flags := sf_flags f; sf_data := data; sf_events := sf_events f; sf_handle := handle; read_notified := read_notified f;
  write_notified := write_notified f; read_timeout := read_timeout f; write_timeout := write_timeout f |}.

Inductive Setting := HopLimit | ReadTimeout | WriteTimeout | Other (s : SettingT).

Record SettingFile := { st_fd : Z; st_handle : Z; st_setting : Setting }.

Inductive SchemeFile := SettingF (f : SettingFile) | SocketF (f : SocketFile).

Definition socket_handle (f : SchemeFile) : Z := match f with SettingF f => st_handle f | SocketF f => sf_handle f end.
End files.
Arguments SocketFile : clear implicits.
Arguments Setting : clear implicits.
Arguments SettingFile : clear implicits.
Arguments SchemeFile : clear implicits.

(** ** The trait *)

Class SchemeSocket {IP : IpApi} {SA : SocketSetApi} {IF : IfaceApi} (T : Type) := {
  (** [AnySocket]: the socket as one of the set, and back *)
  upcast : T -> AnySocket;
  downcast : AnySocket -> option T;
  SchemeDataT : Type; DataT : Type; SettingT : Type;
  new_scheme_data : outcome SchemeDataT;
  can_send : T -> bool; can_recv : T -> bool; may_recv : T -> bool;
  hop_limit : T -> Z;
  set_hop_limit : Z -> M T unit;
  t_get_setting : SocketFile DataT -> SettingT -> list u8 -> outcome (Z * list u8);
  t_set_setting : SettingT -> list u8 -> M (SocketFile DataT) Z;
  new_socket : string -> Z -> M (Net * SchemeDataT) (Z * DataT);
  close_file : T -> SchemeFile DataT SettingT -> M SchemeDataT unit;
  write_buf : list u8 -> M (T * SocketFile DataT) Z;
  read_buf : list u8 -> M (T * SocketFile DataT) (Z * list u8);
  t_fpath : T -> SchemeFile DataT SettingT -> list u8 -> outcome (Z * list u8);
  (** [dup]; no implementation changes the file that it is given. *)
  t_dup : SchemeFile DataT SettingT -> string -> M (Net * SchemeDataT) (option (SchemeFile DataT SettingT * option (Z * DataT)))
}.

(** The loop that ends [fpath]: as many bytes as fit *)
Definition put_path (path : string) (buf : list u8) : Z * list u8 :=
  let l := as_bytes path in let n := (length buf `min` length l)%nat in (Z.of_nat n, copy_prefix n l buf).

(** ** The scheme *)

Section scheme.
Context {TG : Target} {SC : Syscall} {IP : IpApi} {SA : SocketSetApi} {IF : IfaceApi} {TB : TimeSpecBytes} {T : Type} {ST : SchemeSocket T}.
Abbreviation File := (SchemeFile DataT SettingT).

Record SocketScheme := {
  next_fd : Z; nulls : gmap Z NullFile; files : gmap Z File; ref_counts : gmap Z Z; scheme_data : SchemeDataT; net : Net
}.

Definition set_next_fd x (s : SocketScheme) : SocketScheme :=
  {| next_fd := x; nulls := nulls s; files := files s; ref_counts := ref_counts s; scheme_data := scheme_data s; net := net s |}.
Definition set_nulls x (s : SocketScheme) : SocketScheme :=
  {| next_fd := next_fd s; nulls := x; files := files s; ref_counts := ref_counts s; scheme_data := scheme_data s; net := net s |}.
Definition set_files x (s : SocketScheme) : SocketScheme :=
  {| next_fd := next_fd s; nulls := nulls s; files := x; ref_counts := ref_counts s; scheme_data := scheme_data s; net := net s |}.
Definition set_ref_counts x (s : SocketScheme) : SocketScheme :=
  {| next_fd := next_fd s; nulls := nulls s; files := files s; ref_counts := x; scheme_data := scheme_data s; net := net s |}.
Definition set_shared (x : Net * SchemeDataT) (s : SocketScheme) : SocketScheme :=
  {| next_fd := next_fd s; nulls := nulls s; files := files s; ref_counts := ref_counts s; scheme_data := x.2; net := x.1 |}.
Abbreviation S := (M SocketScheme).

Definition SocketScheme_new (n : Net) : outcome SocketScheme :=
  d ← new_scheme_data; Ok {| next_fd := 1; nulls := ∅; files := ∅; ref_counts := ∅; scheme_data := d; net := n |}.

(** [socket_set.get::<SocketT>(handle)] *)
Definition get_socket (h : Z) : M Net T := st ← gets sockets; unwrap (set_get h st ≫= downcast).
Definition put_socket (h : Z) (t : T) : M Net unit := modify (fun n => set_sockets (set_put h (upcast t) (sockets n)) n).

Definition on_net {A} (m : M Net A) : S A := zoom net (fun n s => set_shared (n, scheme_data s) s) m.
(** A method that borrows the sockets and the data of the scheme *)
Definition on_shared {A} (m : M (Net * SchemeDataT) A) : S A := zoom (fun s => (net s, scheme_data s)) set_shared m.

Definition file_at (fd : Z) : S File := fs ← gets files; ok_or EBADF (fs !! fd).
Definition put_file (fd : Z) (f : File) : S unit := modify (fun s => set_files (<[fd := f]> (files s)) s).
Definition add_fd : S Z := id ← gets next_fd; n ← usize_add id 1; modify (set_next_fd n);; mret id.

(** [self.files.get_mut(&fd)] where it has to be a socket *)
Definition socket_file_at (fd : Z) : S (SocketFile DataT) :=
  f ← file_at fd; match f with SocketF file => mret file | SettingF _ => throw EBADF end.

(** A method on the socket of a file and on the file, both borrowed mutably *)
Definition on_socket {A} (fd : Z) (file : SocketFile DataT) (m : M (T * SocketFile DataT) A) : S A := fun s =>
  match on_net (get_socket (sf_handle file)) s with
  | (Ok t, s) =>
      let '(r, (t, file)) := m (t, file) in
      (r, ((on_net (put_socket (sf_handle file) t);; put_file fd (SocketF file)) s).2)
  | (Err e, s) => (Err e, s)
  | (Panic, s) => (Panic, s)
  end.

(** [SchemeFile::events] for a socket *)
Definition file_events (t : T) (f : SocketFile DataT) : Z * SocketFile DataT :=
  let r := all_set (sf_events f) EVENT_READ && (can_recv t || negb (may_recv t)) in
  let w := all_set (sf_events f) EVENT_WRITE && can_send t in
  (Z.lor (if r && negb (read_notified f) then EVENT_READ else 0) (if w && negb (write_notified f) then EVENT_WRITE else 0),
   set_notified r w f).

(** [file.events(socket_set)] for the file of a descriptor *)
Definition events (fd : Z) (f : File) : S Z :=
  match f with
  | SettingF _ => mret 0
  | SocketF file =>
      t ← on_net (get_socket (sf_handle file));
      let '(revents, file) := file_events t file in
      put_file fd (SocketF file);; mret revents
  end.

(** *** Settings *)

Definition get_setting (fd : Z) (setting : Setting SettingT) (buf : list u8) : S (Z * list u8) :=
  file ← socket_file_at fd;
  match setting with
  | Other setting => lift (t_get_setting file setting buf)
  | HopLimit =>
      match buf with
      | _ :: rest => t ← on_net (get_socket (sf_handle file)); mret (1, byte_of_Z (hop_limit t) :: rest)
      | [] => throw EIO
      end
  | ReadTimeout | WriteTimeout =>
      match (match setting with ReadTimeout => read_timeout file | _ => write_timeout file end) with
      | None => mret (0, buf)
      | Some timespec =>
          if (length buf <? ts_size)%nat then mret (0, buf)
          else mret (Z.of_nat ts_size, copy_prefix ts_size (ts_bytes timespec) buf)
      end
  end.

Definition update_setting (fd : Z) (setting : Setting SettingT) (buf : list u8) : S Z :=
  file ← socket_file_at fd;
  match setting with
  | ReadTimeout | WriteTimeout =>
      let '(timeout, count) :=
        if (length buf <? ts_size)%nat then (None, 0) else (Some (ts_of_bytes (take ts_size buf)), Z.of_nat ts_size) in
      put_file fd (SocketF (match setting with
                            | ReadTimeout => set_timeouts timeout (write_timeout file) file
                            | _ => set_timeouts (read_timeout file) timeout file
                            end));;
      mret count
  | HopLimit =>
      match buf with
      | b :: _ =>
          on_socket fd file (zoom fst (fun t p => (t, p.2)) (set_hop_limit (Z_of_byte b)));; mret 1
      | [] => throw EIO
      end
  | Other setting => on_socket fd file (zoom snd (fun f p => (p.1, f)) (t_set_setting setting buf))
  end.

(** *** Opening and closing *)

Definition open_inner (path : string) (flags uid gid : Z) : S OpenResult :=
  if str_is_empty path then
    id ← add_fd;
    modify (fun s => set_nulls (<[id := {| n_flags := flags; n_uid := uid; n_gid := gid |}]> (nulls s)) s);;
    mret (ThisScheme id fd_empty)
  else
    '(handle, data) ← on_shared (new_socket path uid);
    id ← add_fd;
    modify (fun s => set_ref_counts (<[handle := 1]> (ref_counts s)) s);;
    put_file id (SocketF (set_sf_flags flags (new_with_data handle data)));;
    mret (ThisScheme id fd_empty).

Definition open (path : string) (flags : Z) (ctx : CallerCtx) : S OpenResult := open_inner path flags (ctx_uid ctx) (ctx_gid ctx).

(** [match self.ref_counts.entry(socket_handle)] of [on_close]: whether the socket is removed *)
Definition drop_ref (h : Z) : S bool :=
  rs ← gets ref_counts;
  match rs !! h with
  | None => mret true
  | Some n =>
      if (n =? 0) || (n - 1 =? 0) then modify (set_ref_counts (delete h rs));; mret true
      else modify (set_ref_counts (<[h := n - 1]> rs));; mret false
  end.

Definition on_close (fd : Z) : S unit :=
  ns ← gets nulls;
  match ns !! fd with
  | Some _ => modify (set_nulls (delete fd ns))
  | None =>
      fs ← gets files;
      match fs !! fd with
      | None => mret tt
      | Some file =>
          let h := socket_handle file in
          modify (set_files (delete fd fs));;
          t ← on_net (get_socket h);
          (fun s => match zoom scheme_data (fun d s => set_shared (net s, d) s) (close_file t file) s with
                    | (Panic, s) => (Panic, s)
                    | (_, s) => (Ok tt, s)
                    end);;
          remove ← drop_ref h;
          if (remove : bool) then
            on_net (st ← gets sockets; unwrap (set_get h st);; modify (set_sockets (set_remove h st)))
          else mret tt
      end
  end.

(** *** Data *)

Definition blocks (e : errno) : bool := bool_decide (e = EWOULDBLOCK \/ e = EAGAIN).

(** What [read] and [write] do behind the socket's method: a result other than that it would block lets the
    event be notified again. *)
Definition renotify {A} (fd : Z) (m : S A) (f : SocketFile DataT -> SocketFile DataT) : S A := fun s =>
  match m s with
  | (Panic, s) => (Panic, s)
  | (Err e, s) => if blocks e then (Err e, s) else (Err e, set_files (alter (fun x => match x with SocketF x => SocketF (f x) | x => x end) fd (files s)) s)
  | (Ok a, s) => (Ok a, set_files (alter (fun x => match x with SocketF x => SocketF (f x) | x => x end) fd (files s)) s)
  end.

Definition write (fd : Z) (buf : list u8) : S Z :=
  f ← file_at fd;
  match f with
  | SettingF s => update_setting (st_fd s) (st_setting s) buf
  | SocketF file => renotify fd (on_socket fd file (write_buf buf)) (fun f => set_notified (read_notified f) false f)
  end.

Definition read (fd : Z) (buf : list u8) : S (Z * list u8) :=
  f ← file_at fd;
  match f with
  | SettingF s => get_setting (st_fd s) (st_setting s) buf
  | SocketF file => renotify fd (on_socket fd file (read_buf buf)) (fun f => set_notified false (write_notified f) f)
  end.

(** *** [dup] *)

(** [*self.ref_counts.entry(h).or_insert(0) += 1] *)
Definition add_ref (h : Z) : S unit :=
  rs ← gets ref_counts; n ← usize_add (default 0 (rs !! h)) 1; modify (set_ref_counts (<[h := n]> rs)).

(** The new file of [dup], and what replaces the socket of the old one *)
Definition dup_file (fd : Z) (file : File) (path : string) : S (File * option (Z * DataT)) :=
  let setting s := mret (SettingF {| st_fd := fd; st_handle := socket_handle file; st_setting := s |}, None) in
  if bool_decide (path = "hop_limit") then setting HopLimit
  else if bool_decide (path = "read_timeout") then setting ReadTimeout
  else if bool_decide (path = "write_timeout") then setting WriteTimeout
  else r ← on_shared (t_dup file path); ok_or EWOULDBLOCK r.

Definition replace_socket (fd : Z) (file : File) (update_with : option (Z * DataT)) : S unit :=
  match update_with, file with
  | Some (handle, data), SocketF f =>
      modify (fun s => set_ref_counts (<[sf_handle f := match ref_counts s !! sf_handle f with Some n => Z.max 0 (n - 1) | None => 0 end]>
                                         (ref_counts s)) s);;
      add_ref handle;;
      put_file fd (SocketF (move_to handle data f))
  | _, _ => mret tt
  end.

Definition dup (fd : Z) (buf : list u8) : S OpenResult :=
  path ← ok_or EINVAL (from_utf8 buf);
  ns ← gets nulls;
  match ns !! fd with
  | Some null => open_inner path (n_flags null) (n_uid null) (n_gid null)
  | None =>
      file ← file_at fd;
      '(new_file, update_with) ← dup_file fd file path;
      replace_socket fd file update_with;;
      add_ref (socket_handle new_file);;
      id ← gets next_fd;
      put_file id new_file;;
      n ← usize_add id 1;
      modify (set_next_fd n);;
      mret (ThisScheme id fd_empty)
  end.

(** *** The other calls *)

Definition fevent (fd events_ : Z) : S Z :=
  f ← file_at fd;
  match f with
  | SettingF _ => throw EBADF
  | SocketF file =>
      let file := set_notified false false (set_sf_events events_ file) in
      put_file fd (SocketF file);;
      events fd (SocketF file)
  end.

Definition fsync (fd : Z) : S unit := file_at fd;; mret tt.

Definition fpath (fd : Z) (buf : list u8) : S (Z * list u8) :=
  file ← file_at fd;
  t ← on_net (get_socket (socket_handle file));
  lift (t_fpath t file buf).

(** [arg & !O_ACCMODE] *)
Definition fcntl_flags (arg : Z) : Z := Z.land arg (Z.lnot O_ACCMODE).

Definition fcntl (fd cmd arg : Z) : S Z :=
  ns ← gets nulls;
  match ns !! fd with
  | Some null =>
      if cmd =? F_GETFL then mret (n_flags null)
      else if cmd =? F_SETFL then
        modify (set_nulls (<[fd := {| n_flags := fcntl_flags arg; n_uid := n_uid null; n_gid := n_gid null |}]> ns));; mret 0
      else throw EINVAL
  | None =>
      file ← socket_file_at fd;
      if cmd =? F_GETFL then mret (sf_flags file)
      else if cmd =? F_SETFL then put_file fd (SocketF (set_sf_flags (fcntl_flags arg) file));; mret 0
      else throw EINVAL
  end.
End scheme.
Arguments SocketScheme {IP SA IF} T {ST}.
