(* ===== verification/SockProto.v ===== *)
(** * netstack: the protocols of sockets

    Models [netstack/src/scheme/udp.rs], [tcp.rs], [icmp.rs], [ip.rs] and [parse_endpoint]
    of [mod.rs]: the trait [SchemeSocket] for the sockets of [smoltcp], which are
    parameters. *)

From stdpp Require Import base gmap strings list fin_maps.
From Stdlib Require Import ZArith Lia.
From Stdlib Require Import Strings.Byte.
From S2P Require Import Prelude Syscall Netstack Sockets.

Local Open Scope Z_scope.

(** ** What is [smoltcp]'s *)

Section endpoints.
Context {IP : IpApi}.
Record IpEndpoint := { e_addr : IpAddress; e_port : Z }.
Record IpListenEndpoint := { l_addr : option IpAddress; l_port : Z }.
End endpoints.

Class WireApi {IP : IpApi} := {
  (** [IpAddress::from_str] and [Ipv4Address::from_str] *)
  addr_from_str : string -> option IpAddress;
  ipv4_from_str : string -> option IpAddress;
  addr_is_unspecified : IpAddress -> bool;
  (** [IpListenEndpoint::is_specified] *)
  is_specified : IpListenEndpoint -> bool;
  show_addr : IpAddress -> string;
  show_endpoint : IpEndpoint -> string;
  show_listen : IpListenEndpoint -> string
}.

(** The sockets are made with packet buffers of so many packets and bytes, or of so many bytes. *)
Class UdpApi {IP : IpApi} {SA : SocketSetApi} := {
  UdpSocket : Type;
  udp_any : UdpSocket -> AnySocket; as_udp : AnySocket -> option UdpSocket;
  udp_new : Z * Z -> Z * Z -> UdpSocket;
  udp_bind : IpListenEndpoint -> UdpSocket -> option UdpSocket;
  udp_endpoint : UdpSocket -> IpListenEndpoint;
  udp_can_send : UdpSocket -> bool; udp_can_recv : UdpSocket -> bool;
  udp_hop_limit : UdpSocket -> option Z; udp_set_hop_limit : option Z -> UdpSocket -> outcome UdpSocket;
  udp_send_slice : list u8 -> IpEndpoint -> UdpSocket -> option UdpSocket;
  (** the length and the new contents of the buffer *)
  udp_recv_slice : list u8 -> UdpSocket -> option (Z * list u8) * UdpSocket
}.

Class TcpApi {IP : IpApi} {SA : SocketSetApi} {IF : IfaceApi} := {
  TcpSocket : Type;
  tcp_any : TcpSocket -> AnySocket; as_tcp : AnySocket -> option TcpSocket;
  tcp_new : Z -> Z -> TcpSocket;
  tcp_connect : IpEndpoint -> IpListenEndpoint -> Interface * TcpSocket -> option (Interface * TcpSocket);
  tcp_listen : IpListenEndpoint -> TcpSocket -> option TcpSocket;
  tcp_is_active : TcpSocket -> bool; tcp_can_send : TcpSocket -> bool; tcp_can_recv : TcpSocket -> bool;
  tcp_may_recv : TcpSocket -> bool;
  tcp_local : TcpSocket -> option IpEndpoint; tcp_remote : TcpSocket -> option IpEndpoint;
  tcp_hop_limit : TcpSocket -> option Z; tcp_set_hop_limit : option Z -> TcpSocket -> outcome TcpSocket;
  (** the number of bytes that were enqueued *)
  tcp_send_slice : list u8 -> TcpSocket -> option (Z * TcpSocket);
  tcp_recv_slice : list u8 -> TcpSocket -> option (Z * list u8) * TcpSocket
}.

(** [Icmpv4Repr], of which the source names the echo messages *)
Inductive Icmpv4Repr :=
| EchoRequest (ident seq_no : Z) (data : list u8)
| EchoReply (ident seq_no : Z) (data : list u8)
| OtherIcmp.

Class IcmpApi {IP : IpApi} {SA : SocketSetApi} := {
  IcmpSocket : Type;
  icmp_any : IcmpSocket -> AnySocket; as_icmp : AnySocket -> option IcmpSocket;
  icmp_new : Z * Z -> Z * Z -> IcmpSocket;
  icmp_bind : IpListenEndpoint + Z -> IcmpSocket -> option IcmpSocket;
  icmp_can_send : IcmpSocket -> bool; icmp_can_recv : IcmpSocket -> bool;
  icmp_hop_limit : IcmpSocket -> option Z; icmp_set_hop_limit : option Z -> IcmpSocket -> outcome IcmpSocket;
  (** [buffer_len], [emit] and [parse] of a message *)
  icmp_len : Icmpv4Repr -> Z; icmp_emit : Icmpv4Repr -> list u8; icmp_parse : list u8 -> option Icmpv4Repr;
  (** [send]: the buffer of the packet, which is then filled *)
  icmp_send : Z -> IpAddress -> IcmpSocket -> option IcmpSocket;
  icmp_fill : list u8 -> IcmpSocket -> IcmpSocket;
  icmp_recv : IcmpSocket -> option (list u8) * IcmpSocket;
  (** the packets that wait *)
  icmp_waiting : IcmpSocket -> nat
}.

Class RawApi {SA : SocketSetApi} := {
  RawSocket : Type;
  raw_any : RawSocket -> AnySocket; as_raw : AnySocket -> option RawSocket;
  raw_new : Z -> Z * Z -> Z * Z -> RawSocket;
  raw_can_send : RawSocket -> bool; raw_can_recv : RawSocket -> bool;
  raw_send_slice : list u8 -> RawSocket -> option RawSocket;
  raw_recv_slice : list u8 -> RawSocket -> option (Z * list u8) * RawSocket;
  show_protocol : RawSocket -> string
}.

(** ** Shared by the protocols *)

Definition SOCKET_BUFFER_SIZE : Z := 128.
Definition MTU : Z := 1486.
(** The metadata and the bytes of a packet buffer *)
Definition packet_buffer : Z * Z := (SOCKET_BUFFER_SIZE, MTU * SOCKET_BUFFER_SIZE).

(** [parts.next().unwrap_or("")] for the [n]th part *)
Definition part (n : nat) (parts : list string) : string := default "" (parts !! n).

(** [PortSet::new(..).expect(..)] *)
Definition expect_port_set {TG : Target} (from to : Z) : outcome PortSet :=
  match PortSet_new from to with Ok (Some s) => Ok s | Ok None => Panic | Err e => Err e | Panic => Panic end.

Section shared.
Context {TG : Target} {SC : Syscall} {IP : IpApi} {SA : SocketSetApi} {IF : IfaceApi} {WA : WireApi}.

Definition colon : Ascii.ascii := Ascii.ascii_of_nat 58.

Definition parse_endpoint (socket : string) : IpListenEndpoint :=
  let socket_parts := split_char colon socket in
  {| l_addr := match ipv4_from_str (part 0 socket_parts) with
               | Some addr => if addr_is_unspecified addr then None else Some addr
               | None => None
               end;
     l_port := default 0 (parse_unsigned (2 ^ 16) (part 1 socket_parts)) |}.

(** The error of a call that would block *)
Definition block_error (flags : Z) : errno := if all_set flags O_NONBLOCK then EAGAIN else EWOULDBLOCK.

(** [get_port]; a turn for each value of a [u16] is enough. *)
Definition take_port : M PortSet (option Z) := fun s =>
  match get_port (Z.to_nat (2 ^ 16)) s with Some (o, s) => (o, s) | None => (Panic, s) end.

(** The port of a new socket: a free one, or the one that was asked for *)
Definition bind_port (local : IpListenEndpoint) : M PortSet IpListenEndpoint :=
  if l_port local =? 0 then
    p ← take_port; p ← ok_or EINVAL p; mret {| l_addr := l_addr local; l_port := p |}
  else
    free ← claim_port (l_port local);
    fail_if (negb free) EADDRINUSE;;
    mret local.

Definition privileged (local : IpListenEndpoint) (uid : Z) : bool :=
  (0 <? l_port local) && (l_port local <=? 1024) && negb (uid =? 0).

Definition on_data {D A} (m : M D A) : M (Net * D) A := zoom snd (fun d p => (p.1, d)) m.

Definition add_socket {D} (a : AnySocket) : M (Net * D) Z :=
  st ← gets (fun p => sockets p.1);
  let '(h, st) := set_add a st in
  modify (fun p => (set_sockets st p.1, p.2));; mret h.

(** A method on [get_mut(h)] that returns the new socket, or fails *)
Definition with_socket {D T} (up : T -> AnySocket) (down : AnySocket -> option T) (h : Z) (f : T -> outcome T) : M (Net * D) unit :=
  st ← gets (fun p => sockets p.1);
  t ← unwrap (set_get h st ≫= down);
  t ← lift (f t);
  modify (fun p => (set_sockets (set_put h (up t) st) p.1, p.2)).
End shared.

(** ** UDP *)

Section udp.
Context {TG : Target} {SC : Syscall} {IP : IpApi} {SA : SocketSetApi} {IF : IfaceApi} {WA : WireApi} {UA : UdpApi}.

Definition udp_new_socket (path : string) (uid : Z) : M (Net * PortSet) (Z * IpListenEndpoint) :=
  let parts := split_char slash path in
  let remote := parse_endpoint (part 0 parts) in
  let local := parse_endpoint (part 1 parts) in
  if privileged local uid then throw EACCES
  else
    local ← on_data (bind_port local);
    handle ← add_socket (udp_any (udp_new packet_buffer packet_buffer));
    with_socket udp_any as_udp handle (fun u => o_unwrap (udp_bind local u));;
    mret (handle, remote).

Definition udp_close_file (u : UdpSocket) (file : SchemeFile IpListenEndpoint unit) : M PortSet unit :=
  match file with SocketF _ => release_port (l_port (udp_endpoint u)) | SettingF _ => mret tt end.

Definition udp_write_buf (buf : list u8) : M (UdpSocket * SocketFile IpListenEndpoint) Z :=
  '(u, file) ← gets id;
  if negb (is_specified (sf_data file)) then throw EADDRNOTAVAIL
  else if udp_can_send u then
    addr ← unwrap (l_addr (sf_data file));
    u ← unwrap (udp_send_slice buf {| e_addr := addr; e_port := l_port (sf_data file) |} u);
    modify (fun p => (u, p.2));; mret (zlen buf)
  else throw (block_error (sf_flags file)).

Definition udp_read_buf (buf : list u8) : M (UdpSocket * SocketFile IpListenEndpoint) (Z * list u8) :=
  '(u, file) ← gets id;
  if udp_can_recv u then
    let '(r, u) := udp_recv_slice buf u in
    modify (fun p => (u, p.2));; unwrap r
  else throw (block_error (sf_flags file)).

Definition udp_dup (file : SchemeFile IpListenEndpoint unit) (path : string)
  : M (Net * PortSet) (option (SchemeFile IpListenEndpoint unit * option (Z * IpListenEndpoint))) :=
  let handle := socket_handle file in
  let remote := parse_endpoint path in
  let new := match file with
             | SocketF f => clone_with_data (if is_specified remote then remote else sf_data f) f
             | SettingF _ => new_with_data handle remote
             end in
  st ← gets (fun p => sockets p.1);
  u ← unwrap (set_get handle st ≫= as_udp);
  on_data (acquire_port (l_port (udp_endpoint u)));;
  mret (Some (SocketF new, None)).

Definition udp_fpath (u : UdpSocket) (file : SchemeFile IpListenEndpoint unit) (buf : list u8) : outcome (Z * list u8) :=
  match file with
  | SocketF f => Ok (put_path ("udp:" +:+ show_listen (sf_data f) +:+ "/" +:+ show_listen (udp_endpoint u)) buf)
  | SettingF _ => Err EBADF
  end.

(** [set_hop_limit(Some(hop_limit))] *)
Definition change {U} (f : U -> outcome U) : M U unit := u ← gets id; u ← lift (f u); modify (fun _ => u).

#[export] Instance udp_scheme_socket : SchemeSocket UdpSocket := {
  upcast := udp_any; downcast := as_udp; SchemeDataT := PortSet; DataT := IpListenEndpoint; SettingT := unit;
  new_scheme_data := expect_port_set 49152 65535;
  can_send := udp_can_send; can_recv := udp_can_recv; may_recv _ := true;
  hop_limit u := default 64 (udp_hop_limit u);
  set_hop_limit n := change (udp_set_hop_limit (Some n));
  t_get_setting _ _ buf := Ok (0, buf);
  t_set_setting _ _ := mret 0;
  new_socket := udp_new_socket; close_file := udp_close_file; write_buf := udp_write_buf; read_buf := udp_read_buf;
  t_fpath := udp_fpath; t_dup := udp_dup
}.
End udp.

(** ** TCP *)

Section tcp.
Context {TG : Target} {SC : Syscall} {IP : IpApi} {SA : SocketSetApi} {IF : IfaceApi} {WA : WireApi} {TA : TcpApi}.
Abbreviation Data := (option IpListenEndpoint).

Definition tcp_buffer : Z := 0xffff.

(** The source address of a connection: the one asked for, or that of the route *)
Definition source_addr (local : IpListenEndpoint) (remote : IpAddress) (routes : list Rule) : option IpAddress :=
  match l_addr local with
  | Some addr => if addr_is_unspecified addr then lookup_src_addr routes remote else Some addr
  | None => lookup_src_addr routes remote
  end.

(** [tcp_socket.connect(..).expect(..)] on the socket of the handle *)
Definition connect_socket (handle : Z) (remote local : IpListenEndpoint) : M (Net * PortSet) unit :=
  n ← gets fst;
  addr ← unwrap (l_addr remote);
  t ← unwrap (set_get handle (sockets n) ≫= as_tcp);
  '(i, t) ← unwrap (tcp_connect {| e_addr := addr; e_port := l_port remote |}
                      {| l_addr := source_addr local addr (route_table n); l_port := l_port local |} (iface n, t));
  modify (fun p => (set_iface i (set_sockets (set_put handle (tcp_any t) (sockets n)) n), p.2)).

(** A new socket that listens *)
Definition listen_socket (handle : Z) (local : IpListenEndpoint) : M (Net * PortSet) unit :=
  with_socket tcp_any as_tcp handle (fun t => o_unwrap (tcp_listen local t)).

Definition tcp_new_socket (path : string) (uid : Z) : M (Net * PortSet) (Z * Data) :=
  let parts := split_char slash path in
  let remote := parse_endpoint (part 0 parts) in
  let local := parse_endpoint (part 1 parts) in
  if privileged local uid then throw EACCES
  else
    local ← on_data (bind_port local);
    handle ← add_socket (tcp_any (tcp_new tcp_buffer tcp_buffer));
    if is_specified remote then connect_socket handle remote local;; mret (handle, None)
    else listen_socket handle local;; mret (handle, Some local).

Definition tcp_close_file (t : TcpSocket) (file : SchemeFile Data unit) : M PortSet unit :=
  match file with
  | SocketF f =>
      match tcp_local t, sf_data f with
      | Some e, _ => release_port (e_port e)
      | None, Some e => release_port (l_port e)
      | None, None => mret tt
      end
  | SettingF _ => mret tt
  end.

(** The number of bytes that were enqueued is not looked at. *)
Definition tcp_write_buf (buf : list u8) : M (TcpSocket * SocketFile Data) Z :=
  '(t, file) ← gets id;
  if negb (tcp_is_active t) then throw ENOTCONN
  else if tcp_can_send t then
    '(_, t) ← unwrap (tcp_send_slice buf t);
    modify (fun p => (t, p.2));; mret (zlen buf)
  else throw (block_error (sf_flags file)).

Definition tcp_read_buf (buf : list u8) : M (TcpSocket * SocketFile Data) (Z * list u8) :=
  '(t, file) ← gets id;
  if negb (tcp_is_active t) then throw ENOTCONN
  else if tcp_can_recv t then
    let '(r, t) := tcp_recv_slice buf t in
    modify (fun p => (t, p.2));; unwrap r
  else if negb (tcp_may_recv t) then mret (0, buf)
  else throw (block_error (sf_flags file)).

(** [dup] with the path [listen]: the connection that came in gets a file of its own, and a new
    socket goes on listening. *)
Definition accept (file : SchemeFile Data unit) (t : TcpSocket) : M (Net * PortSet) (option (SchemeFile Data unit * option (Z * Data))) :=
  match file with
  | SettingF _ => throw EBADF
  | SocketF f =>
      listen_endpoint ← ok_or EINVAL (sf_data f);
      if negb (tcp_is_active t) then
        if all_set (sf_flags f) O_NONBLOCK then throw EAGAIN else mret None
      else
        handle ← add_socket (tcp_any (tcp_new tcp_buffer tcp_buffer));
        listen_socket handle listen_endpoint;;
        e ← unwrap (tcp_local t);
        on_data (acquire_port (e_port e));;
        mret (Some (SocketF (clone_with_data None f), Some (handle, Some listen_endpoint)))
  end.

Definition tcp_dup (file : SchemeFile Data unit) (path : string)
  : M (Net * PortSet) (option (SchemeFile Data unit * option (Z * Data))) :=
  let handle := socket_handle file in
  st ← gets (fun p => sockets p.1);
  t ← unwrap (set_get handle st ≫= as_tcp);
  if bool_decide (path = "listen") then accept file t
  else
    let new := match file with
               | SocketF f => clone_with_data (sf_data f) f
               | SettingF _ => new_with_data handle None
               end in
    match tcp_local t with Some e => on_data (acquire_port (e_port e)) | None => mret tt end;;
    mret (Some (SocketF new, None)).

Definition unspecified : string := "0.0.0.0:0".

Definition tcp_fpath (t : TcpSocket) (file : SchemeFile Data unit) (buf : list u8) : outcome (Z * list u8) :=
  let remote := match tcp_remote t with Some e => show_endpoint e | None => unspecified end in
  let local := match tcp_local t, file with
               | Some e, _ => show_endpoint e
               | None, SocketF f =>
                   match sf_data f with
                   | Some e => if is_specified e then show_listen e else "0.0.0.0:" +:+ show_unsigned (l_port e)
                   | None => unspecified
                   end
               | None, SettingF _ => unspecified
               end in
  Ok (put_path ("tcp:" +:+ remote +:+ "/" +:+ local) buf).

#[export] Instance tcp_scheme_socket : SchemeSocket TcpSocket := {
  upcast := tcp_any; downcast := as_tcp; SchemeDataT := PortSet; DataT := Data; SettingT := unit;
  new_scheme_data := expect_port_set 49152 65535;
  can_send := tcp_can_send; can_recv := tcp_can_recv; may_recv := tcp_may_recv;
  hop_limit t := default 64 (tcp_hop_limit t);
  set_hop_limit n := change (tcp_set_hop_limit (Some n));
  t_get_setting _ _ buf := Ok (0, buf);
  t_set_setting _ _ := mret 0;
  new_socket := tcp_new_socket; close_file := tcp_close_file; write_buf := tcp_write_buf; read_buf := tcp_read_buf;
  t_fpath := tcp_fpath; t_dup := tcp_dup
}.
End tcp.

(** ** ICMP *)

Inductive IcmpSocketType := Echo | Udp.

Section icmp.
Context {TG : Target} {SC : Syscall} {IP : IpApi} {SA : SocketSetApi} {IF : IfaceApi} {WA : WireApi} {IA : IcmpApi}.

Record IcmpData := { socket_type : IcmpSocketType; ip : IpAddress; ident : Z }.

(** Both arms of [new_socket]; [endpoint] is what the socket is bound to. *)
Definition icmp_new_typed (ty : IcmpSocketType) (endpoint : Z -> IpListenEndpoint + Z) (addr : option string) : M (Net * PortSet) (Z * IcmpData) :=
  addr ← ok_or EINVAL addr;
  ip ← ok_or EINVAL (addr_from_str addr);
  handle ← add_socket (icmp_any (icmp_new packet_buffer packet_buffer));
  ident ← on_data take_port;
  ident ← ok_or EINVAL ident;
  with_socket icmp_any as_icmp handle (fun i => o_ok_or EINVAL (icmp_bind (endpoint ident) i));;
  mret (handle, {| socket_type := ty; ip := ip; ident := ident |}).

Definition icmp_new_socket (path : string) (uid : Z) : M (Net * PortSet) (Z * IcmpData) :=
  let parts := split_char slash path in
  method ← ok_or EINVAL (parts !! 0%nat);
  if bool_decide (method = "echo") then icmp_new_typed Echo inr (parts !! 1%nat)
  else if bool_decide (method = "udp") then icmp_new_typed Udp (fun p => inl {| l_addr := None; l_port := p |}) (parts !! 1%nat)
  else throw EINVAL.

Definition icmp_close_file (i : IcmpSocket) (file : SchemeFile IcmpData unit) : M PortSet unit :=
  match file with SocketF f => release_port (ident (sf_data f)) | SettingF _ => mret tt end.

(** [u16::from_be_bytes] and [to_be_bytes] *)
Definition from_be16 (a b : u8) : Z := Z_of_byte a * 256 + Z_of_byte b.
Definition be16 (x : Z) : list u8 := [byte_of_Z (x / 256); byte_of_Z x].

Definition icmp_write_buf (buf : list u8) : M (IcmpSocket * SocketFile IcmpData) Z :=
  '(i, file) ← gets id;
  if icmp_can_send i then
    match socket_type (sf_data file), buf with
    | Udp, _ => throw EINVAL
    | Echo, a :: b :: payload =>
        let repr := EchoRequest (ident (sf_data file)) (from_be16 a b) payload in
        i ← ok_or EINVAL (icmp_send (icmp_len repr) (ip (sf_data file)) i);
        modify (fun p => (icmp_fill (icmp_emit repr) i, p.2));; mret (zlen buf)
    | Echo, _ => throw EINVAL
    end
  else throw (block_error (sf_flags file)).

(** The [while] loop, over the packets that wait: those that are no replies are passed over. *)
Fixpoint icmp_read_loop (fuel : nat) (buf : list u8) : M (IcmpSocket * SocketFile IcmpData) (Z * list u8) :=
  '(i, file) ← gets id;
  if icmp_can_recv i then
    match fuel with
    | O => panic
    | Datatypes.S fuel =>
        let '(payload, i) := icmp_recv i in
        modify (fun p => (i, p.2));;
        payload ← unwrap payload;
        repr ← unwrap (icmp_parse payload);
        match repr with
        | EchoReply _ seq_no data =>
            if zlen buf <? 2 + zlen data then throw EINVAL
            else mret (2 + zlen data, splice 0 (be16 seq_no ++ data) buf)
        | _ => icmp_read_loop fuel buf
        end
    end
  else throw (block_error (sf_flags file)).

Definition icmp_read_buf (buf : list u8) : M (IcmpSocket * SocketFile IcmpData) (Z * list u8) :=
  '(i, _) ← gets id; icmp_read_loop (icmp_waiting i) buf.

Definition icmp_fpath (i : IcmpSocket) (file : SchemeFile IcmpData unit) (buf : list u8) : outcome (Z * list u8) :=
  match file with
  | SocketF f =>
      match socket_type (sf_data f) with
      | Echo => Ok (put_path ("icmp:echo/" +:+ show_addr (ip (sf_data f))) buf)
      | Udp => Ok (put_path ("icmp:udp/" +:+ show_addr (ip (sf_data f))) buf)
      end
  | SettingF _ => Err EBADF
  end.

#[export] Instance icmp_scheme_socket : SchemeSocket IcmpSocket := {
  upcast := icmp_any; downcast := as_icmp; SchemeDataT := PortSet; DataT := IcmpData; SettingT := unit;
  new_scheme_data := expect_port_set 1 0xffff;
  can_send := icmp_can_send; can_recv := icmp_can_recv; may_recv _ := true;
  hop_limit i := default 64 (icmp_hop_limit i);
  set_hop_limit n := change (icmp_set_hop_limit (Some n));
  t_get_setting _ _ buf := Ok (0, buf);
  t_set_setting _ _ := mret 0;
  new_socket := icmp_new_socket; close_file := icmp_close_file; write_buf := icmp_write_buf; read_buf := icmp_read_buf;
  t_fpath := icmp_fpath; t_dup _ _ := throw EBADF
}.
End icmp.

(** ** Raw IP *)

(** [u8::from_str_radix(s, 16)]: digits, with a sign before them or none *)
Definition hex_value (c : Ascii.ascii) : option Z :=
  let n := Z.of_nat (Ascii.nat_of_ascii c) in
  if (48 <=? n) && (n <=? 57) then Some (n - 48)
  else if (97 <=? n) && (n <=? 102) then Some (n - 87)
  else if (65 <=? n) && (n <=? 70) then Some (n - 55)
  else None.

Fixpoint hex_digits (acc : Z) (s : string) : option Z :=
  match s with
  | EmptyString => Some acc
  | String c s =>
      match hex_value c with
      | Some d => if acc * 16 + d <? 256 then hex_digits (acc * 16 + d) s else None
      | None => None
      end
  end.

Definition plus : Ascii.ascii := Ascii.ascii_of_nat 43.

Definition u8_from_hex (s : string) : option Z :=
  match s with
  | EmptyString => None
  | String c rest =>
      if Ascii.eqb c plus then if str_is_empty rest then None else hex_digits 0 rest
      else hex_digits 0 s
  end.

Section raw.
Context {TG : Target} {SC : Syscall} {IP : IpApi} {SA : SocketSetApi} {IF : IfaceApi} {RA : RawApi}.

Definition raw_new_socket (path : string) (uid : Z) : M (Net * unit) (Z * unit) :=
  if negb (uid =? 0) then throw EACCES
  else
    proto ← ok_or ENOENT (u8_from_hex path);
    handle ← add_socket (raw_any (raw_new proto packet_buffer packet_buffer));
    mret (handle, tt).

Definition raw_write_buf (buf : list u8) : M (RawSocket * SocketFile unit) Z :=
  '(r, file) ← gets id;
  if raw_can_send r then
    r ← unwrap (raw_send_slice buf r);
    modify (fun p => (r, p.2));; mret (zlen buf)
  else throw (block_error (sf_flags file)).

Definition raw_read_buf (buf : list u8) : M (RawSocket * SocketFile unit) (Z * list u8) :=
  '(r, file) ← gets id;
  if raw_can_recv r then
    let '(x, r) := raw_recv_slice buf r in
    modify (fun p => (r, p.2));; unwrap x
  else throw (block_error (sf_flags file)).

Definition raw_fpath (r : RawSocket) (file : SchemeFile unit unit) (buf : list u8) : outcome (Z * list u8) :=
  Ok (put_path ("ip:" +:+ show_protocol r) buf).

#[export] Instance raw_scheme_socket : SchemeSocket RawSocket := {
  upcast := raw_any; downcast := as_raw; SchemeDataT := unit; DataT := unit; SettingT := unit;
  new_scheme_data := Ok tt;
  can_send := raw_can_send; can_recv := raw_can_recv; may_recv _ := true;
  hop_limit _ := 0;
  set_hop_limit _ := mret tt;
  t_get_setting _ _ buf := Ok (0, buf);
  t_set_setting _ _ := mret 0;
  new_socket := raw_new_socket; close_file _ _ := mret tt; write_buf := raw_write_buf; read_buf := raw_read_buf;
  t_fpath := raw_fpath; t_dup _ _ := throw EBADF
}.
End raw.
