(* ===== verification/SockServer.v ===== *)
(** * netstack: serving sockets

    Models [SchemeWrapper] and the polling of [netstack/src/scheme/mod.rs], and
    [handle_block] of [socket.rs]: the loop over the requests of a scheme of
    sockets, the queue of those that wait, and what a poll of the network does with it. *)

From stdpp Require Import base gmap strings list fin_maps sorting.
From Stdlib Require Import ZArith Lia.
From Stdlib Require Import Strings.Byte.
From S2P Require Import Prelude Memory Syscall SchemeApi Readiness Schemes Netstack Sockets.

Local Open Scope Z_scope.

(** ** Time *)

(** [x as i32], and checked arithmetic on signed integers of so many bits *)
Definition as_signed (bits x : Z) : Z := (x + 2 ^ (bits - 1)) mod 2 ^ bits - 2 ^ (bits - 1).
Definition sarith {TG : Target} {S} (bits x : Z) : M S Z :=
  if (- 2 ^ (bits - 1) <=? x) && (x <? 2 ^ (bits - 1)) then mret x
  else if overflow_checks then panic else mret (as_signed bits x).

Definition add_time {TG : Target} {S} (a b : TimeSpec) : M S TimeSpec :=
  secs ← sarith 64 (tv_sec a + tv_sec b);
  nsecs ← sarith 32 (tv_nsec a + tv_nsec b);
  secs ← sarith 64 (secs + Z.quot nsecs 1000000000);
  mret {| tv_sec := secs; tv_nsec := Z.rem nsecs 1000000000 |}.

(** [until] has passed at [now]. *)
Definition passed (until now : TimeSpec) : bool :=
  (tv_sec until <? tv_sec now) || ((tv_sec until =? tv_sec now) && (tv_nsec until <? tv_nsec now)).

(** [v.swap_remove(i)]: the vector that is left *)
Definition swap_remove {A} (i : nat) (l : list A) : list A :=
  let n := (length l - 1)%nat in
  if (i =? n)%nat then take n l else match l !! n with Some x => <[i := x]> (take n l) | None => l end.

(** What the socket of the scheme makes of the [n]th response: it took it, it was full, or it failed. *)
Class SchemeOut := { write_result : nat -> outcome bool }.

Section server.
Context {TG : Target} {SC : Syscall} {AB : SchemeAbi} {IP : IpApi} {SA : SocketSetApi} {IF : IfaceApi} {TB : TimeSpecBytes}.
Context {WO : SchemeOut} {T : Type} {ST : SchemeSocket T}.

#[export] Instance socket_scheme : SchemeSync (SocketScheme T) := implement {|
  o_open := Sockets.open;
  o_unlinkat := None;
  o_dup := Some (fun i buf _ => Sockets.dup i buf);
  o_read i buf _ _ _ := Sockets.read i buf;
  o_write i buf _ _ _ := Sockets.write i buf;
  o_fcntl := Some (fun i cmd arg _ => Sockets.fcntl i cmd arg);
  o_fevent := Some (fun i fl _ => Sockets.fevent i fl);
  o_fpath i buf _ := Sockets.fpath i buf;
  o_fstat := None;
  o_fsync := Some (fun i _ => Sockets.fsync i);
  o_ftruncate := None;
  o_mmap_prep := None;
  o_on_close := Sockets.on_close
|}.

(** ** The state *)

Record WaitHandle := { until : option TimeSpec; cancelling : bool; w_op : Op; w_caller : CallerCtx }.

(** [SchemeWrapper], with the memory of the callers and what the kernel has got *)
Record Wrapper := { scheme : SocketScheme T; wait_queue : list WaitHandle; mem : memory; writes : nat; sent : list Response }.

Definition set_scheme (x : SocketScheme T * memory) (w : Wrapper) : Wrapper :=
  {| scheme := x.1; wait_queue := wait_queue w; mem := x.2; writes := writes w; sent := sent w |}.
Definition set_wait_queue (x : list WaitHandle) (w : Wrapper) : Wrapper :=
  {| scheme := scheme w; wait_queue := x; mem := mem w; writes := writes w; sent := sent w |}.
Definition set_sent (n : nat) (x : list Response) (w : Wrapper) : Wrapper :=
  {| scheme := scheme w; wait_queue := wait_queue w; mem := mem w; writes := n; sent := x |}.
Abbreviation W := (M Wrapper).

Definition SchemeWrapper_new (n : Net) (m : memory) : outcome Wrapper :=
  s ← SocketScheme_new n; Ok {| scheme := s; wait_queue := []; mem := m; writes := 0; sent := [] |}.

Definition on_scheme {A} (m : M (SocketScheme T * memory) A) : W A := zoom (fun w => (scheme w, mem w)) set_scheme m.

(** [scheme_file.write_response(r, ..)] *)
Definition write_response (r : Response) : W bool :=
  n ← gets writes;
  match write_result n with
  | Ok true => modify (fun w => set_sent (n + 1) (sent w ++ [r]) w);; mret true
  | Ok false => modify (fun w => set_sent (n + 1) (sent w) w);; mret false
  | Err e => throw e
  | Panic => panic
  end.

Definition post_fevent (fd flags : Z) : W unit :=
  b ← write_response (Response_post_fevent fd flags); fail_if (negb b) EAGAIN.

(** ** Requests *)

(** [handle_block]; [now] is what the clock says. *)
Definition handle_block (op : Op) (now : outcome TimeSpec) : M (SocketScheme T) (option TimeSpec) :=
  fd ← unwrap (file_id op);
  file ← socket_file_at fd;
  let timeout := match op with
                 | Read _ _ _ _ _ => write_timeout file
                 | Write _ _ _ _ _ => read_timeout file
                 | _ => None
                 end in
  match timeout with
  | Some timeout =>
      cur_time ← lift now;
      t ← add_time timeout {| tv_sec := tv_sec cur_time; tv_nsec := as_signed 32 (tv_nsec cur_time) |};
      mret (Some t)
  | None => mret None
  end.

(** The first request with the tag is marked. *)
Fixpoint mark_cancelling (id : Z) (q : list WaitHandle) : list WaitHandle :=
  match q with
  | [] => []
  | h :: q =>
      if into_tag (w_op h) =? id then {| until := until h; cancelling := true; w_op := w_op h; w_caller := w_caller h |} :: q
      else h :: mark_cancelling id q
  end.

(** The [Result] of a call, looked at later *)
Definition try_ {S A} (m : M S A) : M S (outcome A) := fun s =>
  match m s with (Panic, s) => (Panic, s) | (r, s) => (Ok r, s) end.

(** One turn of the loop of [on_scheme_event] *)
Definition handle_request (request : Request) (now : outcome TimeSpec) : W unit :=
  match kind request with
  | RK_Call req =>
      op ← lift (from_sqe_unchecked req);
      match op with
      | None => write_response (Response_err EOPNOTSUPP (sqe_tag req));; mret tt
      | Some op =>
          r ← on_scheme (handle_sync_dont_consume op (caller req));
          if would_block r && negb (is_explicitly_nonblock op) then
            b ← zoom scheme (fun s w => set_scheme (s, mem w) w) (try_ (handle_block op now));
            match b with
            | Ok timeout =>
                modify (fun w => set_wait_queue (wait_queue w ++
                  [{| until := timeout; cancelling := false; w_op := op; w_caller := caller req |}]) w)
            | Err err => write_response (Response_err err (into_tag op));; throw err
            | Panic => panic
            end
          else write_response (respond r op);; mret tt
      end
  | RK_OnClose id => zoom scheme (fun s w => set_scheme (s, mem w) w) (Sockets.on_close id)
  | RK_Cancellation id => modify (fun w => set_wait_queue (mark_cancelling id (wait_queue w)) w)
  | _ => mret tt
  end.

(** The loop over the requests that there are, each with the time at which it comes; then the socket
    is empty ([None]), closed ([Some]), or fails. *)
Fixpoint on_scheme_event (requests : list (Request * outcome TimeSpec)) (end_ : outcome (option unit)) : W (option unit) :=
  match requests with
  | [] => lift end_
  | (request, now) :: requests => handle_request request now;; on_scheme_event requests end_
  end.

(** ** Notification *)

Definition fds_in_order (s : SocketScheme T) : list Z := merge_sort Z.le (map fst (map_to_list (files s))).

(** The loop over the files *)
Fixpoint notify_files (fds : list Z) : W unit :=
  match fds with
  | [] => mret tt
  | fd :: fds =>
      fs ← gets (fun w => files (scheme w));
      f ← unwrap (fs !! fd);
      events ← zoom scheme (fun s w => set_scheme (s, mem w) w) (Sockets.events fd f);
      (if 0 <? events then post_fevent fd events else mret tt);;
      notify_files fds
  end.

(** What becomes of a request that is tried again: it waits on, or it is taken out of the queue and answered. *)
Definition settle (h : WaitHandle) (now : TimeSpec) (r : SchemeResponse) : option Response :=
  if would_block r && negb (is_explicitly_nonblock (w_op h)) then
    if cancelling h then Some (Response_err ECANCELED (into_tag (w_op h)))
    else match until h with
         | Some u => if passed u now then Some (Response_err ETIMEDOUT (into_tag (w_op h))) else None
         | None => None
         end
  else Some (respond r (w_op h)).

(** The [while] loop over the queue; each turn goes on or makes the queue shorter, so its length is fuel enough. *)
Fixpoint wake_loop (fuel i : nat) (now : TimeSpec) : W unit :=
  queue ← gets wait_queue;
  match queue !! i with
  | None => mret tt
  | Some h =>
      match fuel with
      | O => panic
      | Datatypes.S fuel =>
          r ← on_scheme (handle_sync_dont_consume (w_op h) (w_caller h));
          match settle h now r with
          | None => wake_loop fuel (i + 1) now
          | Some resp =>
              modify (fun w => set_wait_queue (swap_remove i (wait_queue w)) w);;
              write_response resp;;
              wake_loop fuel i now
          end
      end
  end.

Definition notify_sockets (now : outcome TimeSpec) : W unit :=
  cur_time ← lift now;
  fds ← gets (fun w => fds_in_order (scheme w));
  notify_files fds;;
  n ← gets (fun w => length (wait_queue w));
  wake_loop n 0 cur_time.
End server.
