(* ===== verification/SockFacts.v ===== *)
(** * netstack: the sockets of a scheme are counted

    What the scheme of sockets needs of a protocol (the class [SocketLaws]), and the theorem that
    it keeps each socket as long as a file refers to it, and leaves the sockets of the
    other schemes alone.

    The raw, udp, tcp and icmp sockets satisfy [SocketLaws], and two schemes that share the
    set of sockets keep the invariant of [SockFacts] together. *)

From stdpp Require Import base gmap strings list fin_maps.
From Stdlib Require Import ZArith Lia.
From Stdlib Require Import Strings.Byte.
From S2P Require Import Prelude Syscall Netstack Sockets SockProto.

Local Open Scope Z_scope.

(** ** The interface *)

Section holds.
Context {IP : IpApi} {SA : SocketSetApi} {IF : IfaceApi} {T : Type} {ST : SchemeSocket T}.

(** The handle is of a socket of the protocol. *)
Definition holds (h : Z) (n : Net) : Prop := is_Some (set_get h (sockets n) ≫= downcast).

(** The sockets that there were are what they were. *)
Definition same_sockets (n n' : Net) : Prop := forall h a, set_get h (sockets n) = Some a -> set_get h (sockets n') = Some a.
End holds.

(** What a protocol promises: its sockets are found again in the set; a new socket is new, and neither [new_socket]
    nor [dup] touches the sockets that there are; [dup] makes a file of the same socket, and replaces the socket of the old file
    by a new one only. *)
Class SocketLaws {IP : IpApi} {SA : SocketSetApi} {IF : IfaceApi} (T : Type) {ST : SchemeSocket T} : Prop := {
  down_up : forall t, downcast (upcast t) = Some t;
  new_socket_ok : forall path uid n d,
    wp (new_socket path uid) (fun o p => same_sockets n p.1 /\
      forall h x, o = Ok (h, x) -> set_get h (sockets n) = None /\ holds h p.1) (n, d);
  t_dup_ok : forall file path n d,
    wp (t_dup file path) (fun o p => same_sockets n p.1 /\
      forall new upd, o = Ok (Some (new, upd)) -> socket_handle new = socket_handle file /\
        forall h x, upd = Some (h, x) -> (exists f, file = SocketF f) /\ set_get h (sockets n) = None /\ holds h p.1) (n, d);
  write_buf_handle : forall buf t f, sf_handle (write_buf buf (t, f)).2.2 = sf_handle f;
  read_buf_handle : forall buf t f, sf_handle (read_buf buf (t, f)).2.2 = sf_handle f;
  set_setting_handle : forall x buf f, sf_handle (t_set_setting x buf f).2 = sf_handle f
}.

(** ** Counting files *)

Section refs.
Context {DataT SettingT : Type}.
Implicit Types fs : gmap Z (SchemeFile DataT SettingT).

Definition refs fs (h : Z) : Z := Z.of_nat (size (filter (fun p : Z * SchemeFile DataT SettingT => socket_handle p.2 = h) fs)).

Definition one (f : SchemeFile DataT SettingT) (h : Z) : Z := if decide (socket_handle f = h) then 1 else 0.

Lemma refs_insert fs fd f h : fs !! fd = None -> refs (<[fd := f]> fs) h = refs fs h + one f h.
Proof.
  intros Hfd. unfold refs, one. case_decide as Hh.
  - rewrite map_filter_insert_True by done. rewrite map_size_insert_None; [lia |]. apply map_lookup_filter_None. by left.
  - rewrite map_filter_insert_not' by (try done; intros ? ?; congruence). lia.
Qed.

Lemma refs_delete fs fd f h : fs !! fd = Some f -> refs fs h = refs (delete fd fs) h + one f h.
Proof. intros Hfd. rewrite <- (insert_delete_id fs fd f Hfd) at 1. apply refs_insert, lookup_delete_eq. Qed.

Lemma refs_replace fs fd f f' h : fs !! fd = Some f -> refs (<[fd := f']> fs) h + one f h = refs fs h + one f' h.
Proof.
  intros Hfd. rewrite (refs_delete fs fd f h Hfd), <- insert_delete_eq, refs_insert by apply lookup_delete_eq. lia.
Qed.

Lemma refs_same fs fd f f' h : fs !! fd = Some f -> socket_handle f' = socket_handle f -> refs (<[fd := f']> fs) h = refs fs h.
Proof. intros Hfd Hh. pose proof (refs_replace fs fd f f' h Hfd) as E. unfold one in E. rewrite Hh in E. lia. Qed.

Lemma refs_nonneg fs h : 0 <= refs fs h.
Proof. unfold refs. lia. Qed.

Lemma refs_pos fs fd f : fs !! fd = Some f -> 0 < refs fs (socket_handle f).
Proof.
  intros Hfd. rewrite (refs_delete fs fd f _ Hfd). unfold one. rewrite decide_True by done. pose proof (refs_nonneg (delete fd fs) (socket_handle f)). lia.
Qed.

Lemma refs_pos_inv fs h : 0 < refs fs h -> exists fd f, fs !! fd = Some f /\ socket_handle f = h.
Proof.
  unfold refs. intros Hp. destruct (map_choose (filter (fun p : Z * SchemeFile DataT SettingT => socket_handle p.2 = h) fs)) as (fd & f & Hf).
  - intros E. rewrite E, map_size_empty in Hp. lia.
  - apply map_lookup_filter_Some in Hf as [? ?]. eauto.
Qed.
End refs.

Lemma size_filter_le {A} (P : Z * A -> Prop) `{forall x, Decision (P x)} (m : gmap Z A) : (size (filter P m) <= size m)%nat.
Proof. rewrite <- !size_dom. apply subseteq_size, dom_filter_subseteq. Qed.

(** ** The invariant *)

Section scheme.
Context {TG : Target} {SC : Syscall} {IP : IpApi} {SA : SocketSetApi} {SL : SocketSetLaws SA} {IF : IfaceApi} {TB : TimeSpecBytes}.
Context {T : Type} {ST : SchemeSocket T} {TL : SocketLaws T}.
Implicit Types s : SocketScheme T.

Record counted s : Prop := {
  c_holds : forall fd f, files s !! fd = Some f -> holds (socket_handle f) (net s);
  c_refs : forall h, ref_counts s !! h = if decide (refs (files s) h = 0) then None else Some (refs (files s) h);
  c_fds : forall fd, is_Some (files s !! fd) \/ is_Some (nulls s !! fd) -> 0 < fd < next_fd s;
  c_size : Z.of_nat (size (files s)) < next_fd s
}.

(** The sockets that the scheme does not refer to are not touched. *)
Definition frame s s' : Prop := forall h a,
  refs (files s) h = 0 -> set_get h (sockets (net s)) = Some a -> refs (files s') h = 0 /\ set_get h (sockets (net s')) = Some a.

Lemma frame_refl s : frame s s.
Proof. by intros h a. Qed.
Lemma frame_trans s s1 s2 : frame s s1 -> frame s1 s2 -> frame s s2.
Proof. intros H1 H2 h a Hr Hs. destruct (H1 h a Hr Hs). by apply H2. Qed.

(** A computation keeps the invariant, unless it panics. *)
Definition fine {A} s (o : outcome A) s' : Prop := o = Panic \/ counted s' /\ frame s s'.

Lemma fine_refl {A} s (o : outcome A) : counted s -> fine s o s.
Proof. right. split; [done | apply frame_refl]. Qed.

Lemma wp_fine {A} (m : M (SocketScheme T) A) s s1 :
  frame s s1 -> wp m (fine s1) s1 -> wp m (fine s) s1.
Proof. intros Hf. apply wp_mono. intros o s' [-> | [H1 H2]]; [by left | right]. split; [done | by eapply frame_trans]. Qed.

(** *** One file, or one socket, changes *)

Lemma counted_holds s h : counted s -> refs (files s) h <> 0 -> holds h (net s).
Proof.
  intros Hc Hr. pose proof (refs_nonneg (files s) h). destruct (refs_pos_inv (files s) h ltac:(lia)) as (fd & f & Hf & <-). by apply (c_holds s Hc fd).
Qed.

Lemma put_file_counted s fd f f' :
  counted s -> files s !! fd = Some f -> socket_handle f' = socket_handle f ->
  counted (set_files (<[fd := f']> (files s)) s) /\ frame s (set_files (<[fd := f']> (files s)) s).
Proof.
  intros [H1 H2 H3 H4] Hf Hh. assert (forall h, refs (<[fd := f']> (files s)) h = refs (files s) h) as Hr by (intros h; by eapply refs_same).
  split; [split; cbn |].
  - intros fd2 f2 Hl. apply lookup_insert_Some in Hl as [[<- <-] | [_ Hl]]; [rewrite Hh; eauto | eauto].
  - intros h. by rewrite H2, Hr.
  - intros fd2 [Hl | Hl]; apply H3; [left | by right]. apply lookup_insert_is_Some in Hl as [<- | [_ Hl]]; [by exists f | done].
  - rewrite map_size_insert_Some by done. done.
  - intros h a Hz Hs. cbn. by rewrite Hr.
Qed.

Lemma alter_file_counted s fd g :
  counted s -> (forall f, socket_handle (g f) = socket_handle f) ->
  counted (set_files (alter g fd (files s)) s) /\ frame s (set_files (alter g fd (files s)) s).
Proof.
  intros Hc Hg. destruct (files s !! fd) as [f |] eqn:Hf.
  - assert (alter g fd (files s) = <[fd := g f]> (files s)) as ->; [| by eapply put_file_counted].
    apply map_eq. intros i. destruct (decide (fd = i)) as [<- |]; [by rewrite lookup_alter_eq, lookup_insert_eq, Hf | by rewrite lookup_alter_ne, lookup_insert_ne].
  - assert (alter g fd (files s) = files s) as ->; [| split; [by destruct s, Hc | by intros h a]].
    apply map_eq. intros i. destruct (decide (fd = i)) as [<- |]; [by rewrite lookup_alter_eq, Hf | by rewrite lookup_alter_ne].
Qed.

(** The shared state changes, but keeps the sockets that the scheme refers to, and those of the others. *)
Lemma set_shared_counted s p :
  counted s -> (forall h, refs (files s) h <> 0 -> holds h (net s) -> holds h p.1) ->
  (forall h a, refs (files s) h = 0 -> set_get h (sockets (net s)) = Some a -> set_get h (sockets p.1) = Some a) ->
  counted (set_shared p s) /\ frame s (set_shared p s).
Proof.
  intros [H1 H2 H3 H4] Hh Hf. split; [split; try done; cbn |].
  - intros fd f Hl. apply Hh; [| eauto]. pose proof (refs_pos _ _ _ Hl). lia.
  - intros h a Hz Hs. split; [done | by apply Hf].
Qed.

Lemma holds_same h n n' : same_sockets n n' -> holds h n -> holds h n'.
Proof. intros Hs [t Ht]. unfold holds in *. apply bind_Some in Ht as (a & Ha & Ht). rewrite (Hs h a Ha). by exists t. Qed.

Lemma put_socket_counted s h t d :
  counted s -> refs (files s) h <> 0 ->
  let p := (set_sockets (set_put h (upcast t) (sockets (net s))) (net s), d) in counted (set_shared p s) /\ frame s (set_shared p s).
Proof.
  intros Hc Hr p. assert (is_Some (set_get h (sockets (net s)))) as Hs.
  { destruct (counted_holds s h Hc Hr) as [x Hx]. apply bind_Some in Hx as (a & Ha & _). by exists a. }
  apply set_shared_counted; [done | |].
  - intros h' _ Hh. unfold holds. cbn. rewrite set_get_put by done. case_decide; [cbn; rewrite down_up; by eexists | exact Hh].
  - intros h' a Hz Ha. cbn. rewrite set_get_put by done. case_decide; [congruence | done].
Qed.

(** *** The pieces of the calls *)

Definition sane {A} (m : M (SocketScheme T) A) : Prop := forall s, counted s -> wp m (fine s) s.

Lemma sane_bind {A B} (m : M (SocketScheme T) A) (k : A -> M (SocketScheme T) B) : sane m -> (forall a, sane (k a)) -> sane (m ≫= k).
Proof.
  intros Hm Hk s Hc. apply wp_bind. eapply wp_mono; [| by apply Hm]. intros [a | e |] s' [Hp | [Hc' Hf]]; try done.
  - eapply wp_fine; [exact Hf | by apply Hk].
  - by right.
  - by left.
  - by left.
Qed.

Lemma sane_pure {A} (m : M (SocketScheme T) A) : pure_m m -> sane m.
Proof. intros Hp s Hc. apply wp_intro. rewrite Hp. by apply fine_refl. Qed.

Lemma sane_ret {A} (a : A) : sane (mret a).
Proof. by apply sane_pure. Qed.
Lemma sane_throw {A} e : sane (throw e : M _ A).
Proof. by apply sane_pure. Qed.
Lemma sane_lift {A} (o : outcome A) : sane (lift o).
Proof. by apply sane_pure. Qed.

Lemma file_at_bind {A} fd (k : SchemeFile DataT SettingT -> M (SocketScheme T) A) s :
  (forall f, files s !! fd = Some f -> wp (k f) (fine s) s) -> counted s -> wp (f ← file_at fd; k f) (fine s) s.
Proof.
  intros Hk Hc. unfold file_at. apply wp_bind, wp_bind, wp_gets, wp_ok_or; [by apply Hk |]. intros _. by apply fine_refl.
Qed.

Lemma socket_file_at_bind {A} fd (k : SocketFile DataT -> M (SocketScheme T) A) s :
  (forall f, files s !! fd = Some (SocketF f) -> wp (k f) (fine s) s) -> counted s -> wp (f ← socket_file_at fd; k f) (fine s) s.
Proof.
  intros Hk Hc. unfold socket_file_at. apply wp_bind. unfold file_at. apply wp_bind, wp_bind, wp_gets, wp_ok_or; [| intros _; by apply fine_refl].
  intros f Hf. destruct f as [f | f]; [apply wp_throw; by apply fine_refl | apply wp_ret; by apply Hk].
Qed.

(** A file that is open has its socket in the set: [get] does not panic. *)
Lemma get_socket_wp s h (Q : outcome T -> SocketScheme T -> Prop) :
  counted s -> refs (files s) h <> 0 -> (forall t, Q (Ok t) s) -> wp (on_net (get_socket h)) Q s.
Proof.
  intros Hc Hr HQ. destruct (counted_holds s h Hc Hr) as [t Ht]. unfold on_net. apply wp_zoom. unfold get_socket. apply wp_bind, wp_gets.
  rewrite Ht. apply wp_ret. destruct s as [x1 x2 x3 x4 x5 x6]. apply HQ.
Qed.

Lemma open_refs s fd f : files s !! fd = Some f -> refs (files s) (socket_handle f) <> 0.
Proof. intros Hf. pose proof (refs_pos _ _ _ Hf). lia. Qed.

(** A method on the socket of a file keeps the invariant, and the file refers to the same socket. *)
Lemma on_socket_wp {A} fd file (m : M (T * SocketFile DataT) A) s :
  counted s -> files s !! fd = Some (SocketF file) -> (forall t f, sf_handle (m (t, f)).2.2 = sf_handle f) ->
  wp (on_socket fd file m) (fine s) s.
Proof.
  intros Hc Hf Hm. pose proof (open_refs s fd _ Hf) as Hr. cbn [socket_handle] in Hr.
  pose proof (get_socket_wp s (sf_handle file) (fun o s' => exists t, o = Ok t /\ s' = s) Hc Hr (fun t => ex_intro _ t (conj eq_refl eq_refl))) as Hg.
  unfold wp, on_socket in *. destruct (on_net (get_socket (sf_handle file)) s) as [o s1]. cbn in Hg. destruct Hg as (t & -> & ->).
  pose proof (Hm t file) as Hh. destruct (m (t, file)) as [r [t' file']]. cbn [fst snd] in *. right.
  destruct (put_socket_counted s (sf_handle file) t' (scheme_data s) Hc Hr) as [Hc1 Hf1]. rewrite <- Hh in *.
  match type of Hc1 with counted ?x => set (s1 := x) in * end.
  destruct (put_file_counted s1 fd (SocketF file) (SocketF file') Hc1 Hf) as [Hc2 Hf2]; [done |].
  split; [exact Hc2 | by eapply frame_trans].
Qed.

Lemma renotify_fine {A} fd (m : M (SocketScheme T) A) g s :
  (forall f, sf_handle (g f) = sf_handle f) -> wp m (fine s) s -> wp (renotify fd m g) (fine s) s.
Proof.
  intros Hg. unfold wp, renotify. destruct (m s) as [[a | e |] s']; cbn [fst snd]; intros [Hp | [Hc Hf]]; try done; try (by left).
  - right. destruct (alter_file_counted s' fd (fun x => match x with SocketF x => SocketF (g x) | x => x end) Hc) as [H1 H2]; [intros []; [done | apply Hg] |].
    split; [exact H1 | by eapply frame_trans].
  - destruct (blocks e); cbn [fst snd]; [by right | right].
    destruct (alter_file_counted s' fd (fun x => match x with SocketF x => SocketF (g x) | x => x end) Hc) as [H1 H2]; [intros []; [done | apply Hg] |].
    split; [exact H1 | by eapply frame_trans].
Qed.

Lemma put_file_fine {A} s fd f f' (o : outcome A) :
  counted s -> files s !! fd = Some f -> socket_handle f' = socket_handle f -> fine s o (set_files (<[fd := f']> (files s)) s).
Proof. intros Hc Hf Hh. right. by eapply put_file_counted. Qed.

(** *** The calls *)

Lemma get_setting_sane fd setting buf : sane (get_setting fd setting buf).
Proof.
  intros s Hc. apply socket_file_at_bind; [| done]. intros file Hf. pose proof (open_refs s fd _ Hf) as Hr.
  destruct setting; cbn [socket_handle] in *; try (repeat case_match; by apply fine_refl).
  destruct buf; [by apply fine_refl |]. apply wp_bind, get_socket_wp; [done | done |]. intros t. by apply wp_ret, fine_refl.
Qed.

Lemma update_setting_sane fd setting buf : sane (update_setting fd setting buf).
Proof.
  intros s Hc. apply socket_file_at_bind; [| done]. intros file Hf.
  destruct setting as [ | | | x].
  - destruct buf as [| b buf]; [by apply fine_refl |]. apply wp_bind. eapply wp_mono; [| eapply on_socket_wp; [exact Hc | exact Hf |]].
    + intros [] s' [Hp | H]; try done; try (by left); by right.
    + intros t f. unfold zoom. by destruct (set_hop_limit _ _).
  - destruct (_ <? _)%nat; apply wp_bind, wp_modify, wp_ret; by eapply put_file_fine.
  - destruct (_ <? _)%nat; apply wp_bind, wp_modify, wp_ret; by eapply put_file_fine.
  - apply on_socket_wp; [done | done |]. intros t f. unfold zoom. pose proof (set_setting_handle x buf f) as E.
    cbn [snd]. by destruct (t_set_setting x buf f).
Qed.

Lemma write_sane fd buf : sane (write fd buf).
Proof.
  intros s Hc. apply file_at_bind; [| done]. intros [f | f] Hf; [by apply update_setting_sane |].
  apply renotify_fine; [done |]. apply on_socket_wp; [done | done |]. intros. apply write_buf_handle.
Qed.

Lemma read_sane fd buf : sane (read fd buf).
Proof.
  intros s Hc. apply file_at_bind; [| done]. intros [f | f] Hf; [by apply get_setting_sane |].
  apply renotify_fine; [done |]. apply on_socket_wp; [done | done |]. intros. apply read_buf_handle.
Qed.

Lemma events_wp fd f s : counted s -> files s !! fd = Some f -> wp (events fd f) (fine s) s.
Proof.
  intros Hc Hf. destruct f as [f | f]; [by apply fine_refl |]. cbn [events]. pose proof (open_refs s fd _ Hf) as Hr.
  apply wp_bind, get_socket_wp; [done | done |]. intros t. cbn [file_events]. apply wp_bind, wp_modify, wp_ret. by eapply put_file_fine.
Qed.

Lemma fevent_sane fd e : sane (fevent fd e).
Proof.
  intros s Hc. apply file_at_bind; [| done]. intros [f | f] Hf; [by apply fine_refl |].
  apply wp_bind, wp_modify. set (f' := set_notified _ _ _). destruct (put_file_counted s fd (SocketF f) (SocketF f') Hc Hf eq_refl) as [Hc1 Hf1].
  eapply wp_fine; [exact Hf1 |]. apply events_wp; [exact Hc1 | cbn; apply lookup_insert_eq].
Qed.

Lemma fsync_sane fd : sane (fsync fd).
Proof. intros s Hc. apply file_at_bind; [| done]. intros f Hf. by apply fine_refl. Qed.

Lemma fpath_sane fd buf : sane (fpath fd buf).
Proof.
  intros s Hc. apply file_at_bind; [| done]. intros f Hf. apply wp_bind, get_socket_wp; [done | by eapply open_refs |].
  intros t. by apply wp_lift, fine_refl.
Qed.

Lemma set_nulls_counted s ns :
  counted s -> (forall fd, is_Some (ns !! fd) -> is_Some (nulls s !! fd)) -> counted (set_nulls ns s) /\ frame s (set_nulls ns s).
Proof. intros [H1 H2 H3 H4] Hn. split; [split; try done; cbn | by intros h a]. intros fd [Hl | Hl]; apply H3; [by left | right; by apply Hn]. Qed.

Lemma fcntl_sane fd cmd arg : sane (fcntl fd cmd arg).
Proof.
  intros s Hc. unfold fcntl. apply wp_bind, wp_gets. destruct (nulls s !! fd) as [null |] eqn:Hn.
  - case_match; [by apply fine_refl |]. case_match; [| by apply fine_refl]. apply wp_bind, wp_modify, wp_ret. right.
    apply set_nulls_counted; [done |]. intros fd2 Hl. apply lookup_insert_is_Some in Hl as [<- | [_ Hl]]; [by exists null | done].
  - apply socket_file_at_bind; [| done]. intros f Hf. case_match; [by apply fine_refl |]. case_match; [| by apply fine_refl].
    apply wp_bind, wp_modify, wp_ret. by eapply put_file_fine.
Qed.

(** *** Opening *)

Lemma wp_usize_add_ok {S A} a b (k : Z -> M S A) Q (s : S) :
  0 <= a + b < usize_mod -> wp (k (a + b)) Q s -> wp (n ← usize_add a b; k n) Q s.
Proof. intros Hr Hk. apply wp_bind. unfold wp at 1. by rewrite usize_add_ok. Qed.

Lemma next_fd_free s : counted s -> files s !! next_fd s = None.
Proof. intros Hc. apply eq_None_not_Some. intros Hs. pose proof (c_fds s Hc (next_fd s) ltac:(by left)). lia. Qed.

Lemma sock_refs_bound s h : counted s -> 0 <= refs (files s) h < next_fd s.
Proof. intros Hc. split; [apply refs_nonneg |]. pose proof (c_size s Hc). unfold refs. pose proof (size_filter_le (fun p : Z * SchemeFile DataT SettingT => socket_handle p.2 = h) (files s)). lia. Qed.

(** A file is added under the next descriptor, and counted. *)
Lemma add_file_counted s s' f :
  counted s -> holds (socket_handle f) (net s) ->
  nulls s' = nulls s -> net s' = net s -> next_fd s' = next_fd s + 1 -> files s' = <[next_fd s := f]> (files s) ->
  ref_counts s' = <[socket_handle f := refs (files s) (socket_handle f) + 1]> (ref_counts s) -> counted s'.
Proof.
  intros Hc Hh En Et Ex Ef Er. pose proof (next_fd_free s Hc) as Hfree. destruct Hc as [H1 H2 H3 H4]. split; rewrite ?En, ?Et, ?Ex, ?Ef, ?Er.
  - intros fd f' Hl. apply lookup_insert_Some in Hl as [[<- <-] | [_ Hl]]; eauto.
  - intros h. rewrite refs_insert by done. unfold one. pose proof (refs_nonneg (files s) h). destruct (decide (socket_handle f = h)) as [<- | Hd].
    + rewrite lookup_insert_eq. by rewrite decide_False by lia.
    + rewrite lookup_insert_ne, H2, Z.add_0_r by done. done.
  - assert (0 < next_fd s) by lia. intros fd Hl.
    assert (fd = next_fd s \/ is_Some (files s !! fd) \/ is_Some (nulls s !! fd)) as [-> | Hl'].
    { destruct Hl as [Hl | Hl]; [| by right; right]. apply lookup_insert_is_Some in Hl as [<- | [_ Hl]]; [by left | by right; left]. }
    + lia.
    + specialize (H3 fd Hl'). lia.
  - rewrite map_size_insert_None by done. lia.
Qed.

Lemma open_inner_wp path flags uid gid s :
  counted s -> next_fd s + 1 < usize_mod -> wp (open_inner path flags uid gid) (fine s) s.
Proof.
  intros Hc Hn. pose proof (c_size s Hc) as Hsz. unfold open_inner, add_fd. destruct (str_is_empty path).
  { apply wp_bind, wp_bind, wp_gets. apply wp_usize_add_ok; [lia |]. apply wp_bind, wp_modify, wp_ret, wp_bind, wp_modify, wp_ret. right.
    split; [| by intros h a]. destruct Hc as [H1 H2 H3 H4]. split; cbn; try done; [| lia]. intros fd Hl.
    assert (fd = next_fd s \/ is_Some (files s !! fd) \/ is_Some (nulls s !! fd)) as [-> | Hl'].
    { destruct Hl as [Hl | Hl]; [by right; left |]. apply lookup_insert_is_Some in Hl as [<- | [_ Hl]]; [by left | by right; right]. }
    - lia.
    - specialize (H3 fd Hl'). lia. }
  apply wp_bind. unfold on_shared. apply wp_zoom. eapply wp_mono; [| apply new_socket_ok].
  intros o p [Hs Ho]. set (s1 := set_shared p s).
  assert (counted s1 /\ frame s s1) as [Hc1 Hf1].
  { apply set_shared_counted; [done | intros h _; by apply holds_same | intros h a _; apply Hs]. }
  destruct o as [[handle data] | e |]; [| by right | by left]. destruct (Ho handle data eq_refl) as [Hnew Hh].
  apply wp_bind, wp_bind, wp_gets. apply wp_usize_add_ok; [cbn; lia |]. apply wp_bind, wp_modify, wp_ret, wp_bind, wp_modify, wp_bind, wp_modify, wp_ret.
  assert (refs (files s) handle = 0) as Hr0.
  { destruct (decide (refs (files s) handle = 0)) as [| Hr]; [done |]. destruct (counted_holds s handle Hc Hr) as [x Hx].
    rewrite Hnew in Hx. done. }
  right. split.
  - eapply (add_file_counted s1 _ (SocketF (set_sf_flags flags (new_with_data handle data)))); try done. cbn. by rewrite Hr0.
  - intros h a Hz Ha. cbn. rewrite refs_insert by by apply (next_fd_free s). unfold one. cbn [socket_handle set_sf_flags sf_handle new_with_data].
    rewrite decide_False by congruence. split; [lia | by apply Hs].
Qed.

(** *** Closing *)

Lemma delete_file_counted s fd f :
  files s !! fd = Some f -> counted s -> forall s', files s' = delete fd (files s) -> nulls s' = nulls s -> next_fd s' = next_fd s ->
  let h := socket_handle f in
  ref_counts s' = (if decide (refs (files s) h = 1) then delete h (ref_counts s) else <[h := refs (files s) h - 1]> (ref_counts s)) ->
  (forall k, k <> h -> set_get k (sockets (net s')) = set_get k (sockets (net s))) ->
  (refs (files s) h <> 1 -> set_get h (sockets (net s')) = set_get h (sockets (net s))) -> counted s' /\ frame s s'.
Proof.
  intros Hf Hc s' Ef En Ex h Er Hk Hh. assert (forall k, refs (files s) k = refs (delete fd (files s)) k + one f k) as Hd by (intros k; by apply refs_delete).
  assert (forall k, refs (files s') k <> 0 -> set_get k (sockets (net s')) = set_get k (sockets (net s))) as Hsame.
  { intros k Hr. destruct (decide (k = h)) as [-> |]; [| by apply Hk]. apply Hh. rewrite Ef in Hr. specialize (Hd h). unfold one in Hd.
    rewrite decide_True in Hd by done. lia. }
  split; [split |].
  - intros fd2 f2 Hl. pose proof (refs_pos _ _ _ Hl). unfold holds. rewrite Hsame by lia. rewrite Ef in Hl.
    apply lookup_delete_Some in Hl as [_ Hl]. by apply (c_holds s Hc fd2).
  - intros k. rewrite Er, Ef. pose proof (c_refs s Hc k) as Hck. specialize (Hd k). unfold one in Hd. fold h in Hd.
    pose proof (refs_nonneg (delete fd (files s)) k). destruct (decide (h = k)) as [<- | Hne].
    + destruct (decide (refs (files s) h = 1)); [rewrite lookup_delete_eq | rewrite lookup_insert_eq]; (destruct (decide (refs (delete fd (files s)) h = 0)); [lia || done | try lia]).
      f_equal. lia.
    + destruct (decide (refs (files s) h = 1)); [rewrite lookup_delete_ne by done | rewrite lookup_insert_ne by done]; rewrite Hck; replace (refs (files s) k) with (refs (delete fd (files s)) k) by lia; done.
  - rewrite En, Ex, Ef. intros fd2 [Hl | Hl]; apply (c_fds s Hc); [left | by right]. destruct Hl as [x Hl]. apply lookup_delete_Some in Hl as [_ Hl]. by exists x.
  - rewrite Ex, Ef. pose proof (c_size s Hc). rewrite map_size_delete_Some by (by exists f). lia.
  - intros k a Hz Ha. assert (k <> h) as Hne. { intros ->. pose proof (refs_pos _ _ _ Hf). unfold h in Hz. lia. }
    rewrite Ef. specialize (Hd k). unfold one in Hd. rewrite decide_False in Hd by (fold h; congruence). split; [lia |]. by rewrite Hk.
Qed.

Lemma drop_ref_wp h n s (Q : outcome bool -> SocketScheme T -> Prop) :
  ref_counts s !! h = Some n -> 0 < n ->
  (Q (Ok (bool_decide (n = 1))) (set_ref_counts (if decide (n = 1) then delete h (ref_counts s) else <[h := n - 1]> (ref_counts s)) s)) ->
  wp (drop_ref h) Q s.
Proof.
  intros Hr Hn HQ. unfold drop_ref. apply wp_bind, wp_gets. rewrite Hr, (proj2 (Z.eqb_neq n 0)) by lia. cbn [orb].
  destruct (Z.eqb_spec (n - 1) 0) as [E | E]; apply wp_bind, wp_modify, wp_ret.
  - rewrite bool_decide_eq_true_2, decide_True in HQ by lia. exact HQ.
  - rewrite bool_decide_eq_false_2, decide_False in HQ by lia. exact HQ.
Qed.

Lemma on_close_sane fd : sane (on_close fd).
Proof.
  intros s Hc. unfold on_close. apply wp_bind, wp_gets. destruct (nulls s !! fd) as [null |] eqn:Hn.
  { apply wp_modify. right. apply set_nulls_counted; [done |]. intros fd2 [x Hl]. apply lookup_delete_Some in Hl as [_ Hl]. by exists x. }
  apply wp_bind, wp_gets. destruct (files s !! fd) as [f |] eqn:Hf; [| by apply fine_refl].
  apply wp_bind, wp_modify. set (s1 := set_files (delete fd (files s)) s). set (h := socket_handle f).
  destruct (c_holds s Hc fd f Hf) as [t Ht]. fold h in Ht.
  apply wp_bind. unfold on_net at 1. apply wp_zoom. unfold get_socket. apply wp_bind, wp_gets. change (net s1) with (net s). rewrite Ht.
  apply wp_ret. set (s2 := set_shared _ _). apply wp_bind.
  match goal with |- wp (fun s => _) ?Q s2 => assert (wp (zoom scheme_data (fun d s => set_shared (net s, d) s) (close_file t f)) (fun _ s3 =>
    exists d, s3 = set_shared (net s, d) s1) s2) as Hcl end.
  { apply wp_zoom. apply wp_intro. eexists. reflexivity. }
  unfold wp in Hcl |- * at 1. destruct (zoom _ _ _ s2) as [o s3]. cbn [fst snd] in Hcl. destruct Hcl as [d ->].
  assert (ref_counts s !! h = Some (refs (files s) h)) as Hr.
  { rewrite (c_refs s Hc), decide_False; [done |]. by apply open_refs with fd. }
  pose proof (refs_pos _ _ _ Hf) as Hpos. fold h in Hpos.
  assert (wp (remove ← drop_ref h;
              if (remove : bool) then on_net (st ← gets sockets; unwrap (set_get h st);; modify (set_sockets (set_remove h st))) else mret tt)
             (fine s) (set_shared (net s, d) s1)) as Hend.
  { apply wp_bind. eapply drop_ref_wp; [exact Hr | exact Hpos |]. case_bool_decide as H1.
    - rewrite decide_True by done. unfold on_net. apply wp_zoom, wp_bind, wp_gets. apply bind_Some in Ht as (a & Ha & Hd). cbn. rewrite Ha.
      apply wp_bind, wp_ret, wp_modify. right. eapply (delete_file_counted s fd f Hf Hc); try done; fold h; cbn; [by rewrite decide_True |].
      intros k Hk. rewrite set_get_remove by (by exists a). by rewrite decide_False.
    - rewrite decide_False by done. apply wp_ret. right. eapply (delete_file_counted s fd f Hf Hc); try done; fold h; cbn. by rewrite decide_False. }
  destruct o; cbn [fst snd]; [exact Hend | exact Hend | by left].
Qed.

(** *** Duplicating *)

(** What the protocol's part of [dup] leaves *)
Definition dupped s (file : SchemeFile DataT SettingT) (o : outcome (SchemeFile DataT SettingT * option (Z * DataT))) s1 : Prop :=
  o = Panic \/ counted s1 /\ frame s s1 /\ (exists p, s1 = set_shared p s) /\ forall new upd, o = Ok (new, upd) ->
    socket_handle new = socket_handle file /\
    forall h x, upd = Some (h, x) -> (exists f, file = SocketF f) /\ set_get h (sockets (net s)) = None /\ holds h (net s1).

Lemma set_shared_id s : set_shared (net s, scheme_data s) s = s.
Proof. by destruct s. Qed.

Lemma dup_file_wp fd file path s : counted s -> files s !! fd = Some file -> wp (dup_file fd file path) (dupped s file) s.
Proof.
  intros Hc Hf. unfold dup_file.
  assert (forall x, wp (mret (SettingF {| st_fd := fd; st_handle := socket_handle file; st_setting := x |}, None)) (dupped s file) s) as Hset.
  { intros x. apply wp_ret. right. split_and!; [done | apply frame_refl | exists (net s, scheme_data s); by rewrite set_shared_id |].
    intros new upd [= <- <-]. done. }
  do 3 (case_bool_decide; [apply Hset |]). apply wp_bind. unfold on_shared. apply wp_zoom. eapply wp_mono; [| apply t_dup_ok].
  intros o p [Hs Ho]. set (s1 := set_shared p s).
  assert (counted s1 /\ frame s s1) as [Hc1 Hf1].
  { apply set_shared_counted; [done | intros h _; by apply holds_same | intros h a _; apply Hs]. }
  assert (forall e, dupped s file (Err e) s1) as Herr by (intros e; right; split_and!; [done | done | by exists p | done]).
  destruct o as [[[new upd] |] | e |]; [| by apply wp_ok_or | by apply Herr | by left].
  apply wp_ok_or; [| done]. intros a [= <-]. right. split_and!; [done | done | by exists p |].
  intros new' upd' [= <- <-]. destruct (Ho new upd eq_refl) as [G1 G2]. by split.
Qed.

(** The count of a handle that files refer to, and of one that none does *)
Lemma refs_count s h : counted s -> default 0 (ref_counts s !! h) = refs (files s) h.
Proof. intros Hc. rewrite (c_refs s Hc). by case_decide. Qed.

Lemma add_ref_wp h s (Q : outcome unit -> SocketScheme T -> Prop) :
  0 <= default 0 (ref_counts s !! h) + 1 < usize_mod ->
  Q (Ok tt) (set_ref_counts (<[h := default 0 (ref_counts s !! h) + 1]> (ref_counts s)) s) -> wp (add_ref h) Q s.
Proof. intros Hr HQ. unfold add_ref. apply wp_bind, wp_gets. apply wp_usize_add_ok; [done |]. by apply wp_modify. Qed.

Lemma dup_finish_wp fd file new upd s1 :
  counted s1 -> files s1 !! fd = Some file -> next_fd s1 + 1 < usize_mod -> socket_handle new = socket_handle file ->
  (forall h x, upd = Some (h, x) -> (exists f, file = SocketF f) /\ refs (files s1) h = 0 /\ holds h (net s1)) ->
  wp (replace_socket fd file upd;; add_ref (socket_handle new);; id ← gets next_fd; put_file id new;; n ← usize_add id 1;
      modify (set_next_fd n);; mret (ThisScheme id fd_empty))
    (fun o s' => o = Panic \/ counted s' /\ net s' = net s1 /\
       forall k, refs (files s') k = refs (files s1) k \/ k = socket_handle file \/ exists h x, upd = Some (h, x) /\ k = h) s1.
Proof.
  intros Hc Hf Hn Hh Hupd. pose proof (sock_refs_bound s1 (socket_handle file) Hc) as Hb. pose proof (next_fd_free s1 Hc) as Hfree.
  pose proof (c_size s1 Hc) as Hsz. set (old := socket_handle file) in *. pose proof (refs_pos _ _ _ Hf) as Hpos. fold old in Hpos.
  destruct upd as [[h x] |].
  - destruct (Hupd h x eq_refl) as ([f ->] & Hr0 & Hhold). cbn [socket_handle] in old. cbn [replace_socket]. fold old.
    assert (h <> old) as Hne by (intros ->; lia).
    apply wp_bind, wp_bind, wp_modify, wp_bind, add_ref_wp; [cbn; rewrite lookup_insert_ne by done; rewrite refs_count, Hr0 by done; lia |].
    cbn [ref_counts set_ref_counts]. rewrite lookup_insert_ne, refs_count, Hr0 by done. apply wp_modify. apply wp_bind. rewrite Hh.
    assert (ref_counts s1 !! old = Some (refs (files s1) old)) as Ho by (rewrite (c_refs s1 Hc), decide_False by lia; done).
    apply add_ref_wp; cbn [ref_counts set_ref_counts files set_files]; rewrite lookup_insert_ne, lookup_insert_eq, Ho by done; cbn [default from_option id]; [lia |].
    apply wp_bind, wp_gets, wp_bind, wp_modify. apply wp_usize_add_ok; [cbn; lia |]. apply wp_bind, wp_modify, wp_ret. right.
    assert (forall k, refs (<[next_fd s1 := new]> (<[fd := SocketF (move_to h x f)]> (files s1))) k = refs (files s1) k + (if decide (h = k) then 1 else 0)) as Hrefs.
    { intros k. rewrite refs_insert.
      2:{ rewrite lookup_insert_ne; [done |]. intros ->. congruence. }
      pose proof (refs_replace (files s1) fd _ (SocketF (move_to h x f)) k Hf) as E. unfold one in *. rewrite Hh. cbn [socket_handle move_to sf_handle] in *. fold old in E. lia. }
    split_and!; [split; cbn | done |].
    + intros fd2 f2 Hl. apply lookup_insert_Some in Hl as [[<- <-] | [_ Hl]]; [rewrite Hh; by apply (c_holds s1 Hc fd (SocketF f)) |].
      apply lookup_insert_Some in Hl as [[<- <-] | [_ Hl]]; [done | by apply (c_holds s1 Hc fd2)].
    + intros k. rewrite Hrefs. destruct (decide (h = k)) as [<- | Hk].
      * rewrite lookup_insert_ne, lookup_insert_eq, Hr0 by done. by rewrite decide_False by lia.
      * destruct (decide (old = k)) as [<- | Hk'].
        -- rewrite lookup_insert_eq, decide_False by lia. f_equal. lia.
        -- rewrite !lookup_insert_ne by done. rewrite (c_refs s1 Hc), Z.add_0_r. done.
    + intros fd2 Hl. assert (fd2 = next_fd s1 \/ is_Some (files s1 !! fd2) \/ is_Some (nulls s1 !! fd2)) as [-> | Hl'].
      { destruct Hl as [Hl | Hl]; [| by right; right]. apply lookup_insert_is_Some in Hl as [<- | [_ Hl]]; [by left | right; left].
        apply lookup_insert_is_Some in Hl as [<- | [_ Hl]]; [by exists (SocketF f) | done]. }
      * lia.
      * pose proof (c_fds s1 Hc fd2 Hl'). lia.
    + rewrite map_size_insert_None, map_size_insert_Some; [lia | by exists (SocketF f) |]. rewrite lookup_insert_ne; [done |]. intros ->. congruence.
    + intros k. cbn. rewrite Hrefs. case_decide as E; [right; right; exists h, x; by split | left; lia].
  - cbn [replace_socket]. apply wp_bind, wp_ret, wp_bind. rewrite Hh.
    apply add_ref_wp; rewrite refs_count by done; [lia |]. apply wp_bind, wp_gets, wp_bind, wp_modify.
    apply wp_usize_add_ok; [cbn; lia |]. apply wp_bind, wp_modify, wp_ret. right. split_and!; [| done |].
    + eapply (add_file_counted s1 _ new); try done; [rewrite Hh; by apply (c_holds s1 Hc fd) | cbn; by rewrite Hh].
    + intros k. cbn. rewrite refs_insert by done. unfold one. rewrite Hh. fold old. case_decide; [right; left; done | left; lia].
Qed.

Lemma dup_wp fd buf s : counted s -> next_fd s + 1 < usize_mod -> wp (dup fd buf) (fine s) s.
Proof.
  intros Hc Hn. unfold dup. apply wp_bind, wp_ok_or; [| intros _; by apply fine_refl]. intros path _. apply wp_bind, wp_gets.
  destruct (nulls s !! fd) as [null |]; [by apply open_inner_wp |]. apply file_at_bind; [| done]. intros file Hf.
  apply wp_bind. eapply wp_mono; [| by apply dup_file_wp]. intros o s1 [-> | (Hc1 & Hf1 & [p ->] & Ho)]; [by left |].
  destruct o as [[new upd] | e |]; [| by right | by left]. destruct (Ho new upd eq_refl) as [Hh Hupd].
  assert (forall h, set_get h (sockets (net s)) = None -> refs (files s) h = 0) as Hnone.
  { intros h Hnew. destruct (decide (refs (files s) h = 0)) as [| Hr]; [done |]. destruct (counted_holds s h Hc Hr) as [x Hx]. by rewrite Hnew in Hx. }
  eapply wp_mono; [| apply (dup_finish_wp fd file new upd _ Hc1 Hf Hn Hh)].
  - intros o s' [-> | (Hc' & En & Hk)]; [by left | right]. split; [done |]. intros h a Hz Ha. destruct (Hf1 h a Hz Ha) as [Hz1 Ha1].
    rewrite En. split; [| done]. destruct (Hk h) as [-> | [-> | (h' & x & -> & ->)]]; [done | |].
    + pose proof (refs_pos _ _ _ Hf). lia.
    + destruct (Hupd h' x eq_refl) as (_ & Hnew & _). congruence.
  - intros h x E. destruct (Hupd h x E) as (H1 & H2 & H3). split_and!; [done | by apply Hnone | done].
Qed.
End scheme.

Section shared.
Context {TG : Target} {SC : Syscall} {IP : IpApi} {SA : SocketSetApi} {SL : SocketSetLaws SA} {IF : IfaceApi} {D : Type}.

(** What is on the way from the sockets [st0]: they are as they were, and the new socket is in the set. *)
Definition grown {T} (down : AnySocket -> option T) (st0 : SocketSet) (new : option Z) (p : Net * D) : Prop :=
  (forall h a, set_get h st0 = Some a -> set_get h (sockets p.1) = Some a) /\
  match new with Some h => set_get h st0 = None /\ is_Some (set_get h (sockets p.1) ≫= down) | None => True end.

Lemma add_socket_wp {T} (up : T -> AnySocket) (down : AnySocket -> option T) st0 t (Q : outcome Z -> Net * D -> Prop) p :
  (forall t, down (up t) = Some t) -> grown down st0 None p -> (forall h p', grown down st0 (Some h) p' -> Q (Ok h) p') -> wp (add_socket (up t)) Q p.
Proof.
  intros Hd [Hs _] HQ. unfold add_socket. apply wp_bind, wp_gets. pose proof (set_add_fresh (up t) (sockets p.1)) as Hf.
  pose proof (set_get_add (up t) (sockets p.1)) as Hg. destruct (set_add (up t) (sockets p.1)) as [h st]. cbn [fst snd] in *.
  apply wp_bind, wp_modify, wp_ret, HQ. split; cbn.
  - intros h' a Ha. rewrite Hg. case_decide; [| by apply Hs]. subst h'. rewrite (Hs h a Ha) in Hf. done.
  - split; [destruct (set_get h st0) as [a |] eqn:E; [by rewrite (Hs h a E) in Hf | done] |]. rewrite Hg, decide_True by done. cbn. rewrite Hd. by eexists.
Qed.

(** Writing to the new socket *)
Lemma put_new {T} (up : T -> AnySocket) (down : AnySocket -> option T) st0 h t i (p : Net * D) :
  (forall t, down (up t) = Some t) -> grown down st0 (Some h) p ->
  grown down st0 (Some h) ({| sockets := set_put h (up t) (sockets p.1); iface := i; route_table := route_table p.1 |}, p.2).
Proof.
  intros Hd (Hs & Hn & [x Hx]). apply bind_Some in Hx as (a & Ha & _). split; cbn.
  - intros h' a' Ha'. rewrite set_get_put by by exists a. rewrite decide_False by congruence. by apply Hs.
  - split; [done |]. rewrite set_get_put, decide_True by (done || by exists a). cbn. rewrite Hd. by eexists.
Qed.

Lemma with_socket_wp {T} (up : T -> AnySocket) (down : AnySocket -> option T) st0 h f (Q : outcome unit -> Net * D -> Prop) p :
  (forall t, down (up t) = Some t) -> grown down st0 (Some h) p ->
  (forall o p', grown down st0 (Some h) p' -> Q o p') -> wp (with_socket up down h f) Q p.
Proof.
  intros Hd Hg HQ. unfold with_socket. apply wp_bind, wp_gets, wp_bind, wp_unwrap; [| intros _; by apply HQ].
  intros t Ht. apply wp_bind, wp_lift. destruct (f t) as [t' | e |]; [| by apply HQ | by apply HQ]. apply wp_modify, HQ. by apply put_new.
Qed.

(** Only the data of the scheme changes. *)
Lemma on_data_wp {A T} (down : AnySocket -> option T) (m : M D A) st0 new Q (p : Net * D) :
  grown down st0 new p -> (forall o p', grown down st0 new p' -> Q o p') -> wp (on_data m) Q p.
Proof. intros Hg HQ. unfold on_data. apply wp_zoom. apply wp_intro, HQ. exact Hg. Qed.

Lemma grown_less {T} (down : AnySocket -> option T) st0 new p : grown down st0 new p -> grown down st0 None p.
Proof. intros [H _]. by split. Qed.
Lemma grown_start {T} (down : AnySocket -> option T) n (d : D) : grown down (sockets n) None (n, d).
Proof. by split. Qed.
End shared.

(** The casts of a kind of sockets *)
Class Casts {SA : SocketSetApi} {T} (up : T -> AnySocket) (down : AnySocket -> option T) : Prop := { cast : forall t, down (up t) = Some t }.

Section protocols.
Context {TG : Target} {SC : Syscall} {IP : IpApi} {SA : SocketSetApi} {SL : SocketSetLaws SA} {IF : IfaceApi} {WA : WireApi}.

(** The postcondition of [new_socket] *)
Lemma new_done {T DA D} (down : AnySocket -> option T) (n : Net) (o : outcome (Z * DA)) (p : Net * D) :
  (forall h a, set_get h (sockets n) = Some a -> set_get h (sockets p.1) = Some a) -> (forall x, o <> Ok x) ->
  same_sockets n p.1 /\ forall h x, o = Ok (h, x) -> set_get h (sockets n) = None /\ is_Some (set_get h (sockets p.1) ≫= down).
Proof. intros Hs Ho. split; [done |]. intros h x E. by destruct (Ho (h, x)). Qed.

Lemma new_ok {T DA D} (down : AnySocket -> option T) (n : Net) h (x : DA) (p : Net * D) :
  grown down (sockets n) (Some h) p ->
  same_sockets n p.1 /\ forall h' x', Ok (h, x) = Ok (h', x') -> set_get h' (sockets n) = None /\ is_Some (set_get h' (sockets p.1) ≫= down).
Proof. intros [Hs Hh]. split; [done |]. by intros h' x' [= <- <-]. Qed.

Lemma same_refl n : same_sockets n n.
Proof. by intros h a. Qed.

(** The postcondition of [dup] when it fails *)
Lemma dup_failed {F U D} (n : Net) (o : outcome (option (F * U))) (p : Net * D) (P : F -> U -> Prop) :
  same_sockets n p.1 -> (forall x, o <> Ok x) -> same_sockets n p.1 /\ forall new upd, o = Ok (Some (new, upd)) -> P new upd.
Proof. intros Hs Ho. split; [done |]. intros new upd E. by destruct (Ho (Some (new, upd))). Qed.

(** A method that leaves the file with its socket *)
Lemma same_handle {T DA A} (m : M (T * SocketFile DA) A) t f :
  wp m (fun _ p => sf_handle p.2 = sf_handle f) (t, f) -> sf_handle (m (t, f)).2.2 = sf_handle f.
Proof. done. Qed.

Section udp.
Context {UA : UdpApi} {UC : Casts udp_any as_udp}.

#[export] Instance udp_laws : SocketLaws UdpSocket.
Proof.
  split.
  - apply cast.
  - intros path uid n d. cbn [new_socket udp_scheme_socket]. unfold udp_new_socket.
    destruct (privileged _ _); [by apply wp_throw, (new_done as_udp) |].
    apply wp_bind. eapply (on_data_wp as_udp); [apply grown_start |]. intros [local | e |] p Hg; [| (apply (new_done as_udp); [apply Hg | done])..].
    apply wp_bind. eapply add_socket_wp; [apply cast | exact Hg |]. intros h p1 Hg1.
    apply wp_bind. eapply with_socket_wp; [apply cast | exact Hg1 |]. intros [[] | e |] p2 Hg2; [| (apply (new_done as_udp); [apply Hg2 | done])..].
    apply wp_ret. by apply (new_ok as_udp).
  - intros file path n d. cbn [t_dup udp_scheme_socket]. unfold udp_dup. apply wp_bind, wp_gets, wp_bind, wp_unwrap; [| intros _; apply dup_failed; [apply same_refl | done]].
    intros u _. apply wp_bind. eapply (on_data_wp as_udp); [apply grown_start |].
    intros [[] | e |] p [Hg _]; [| by apply dup_failed | by apply dup_failed]. apply wp_ret. split; [done |].
    intros new upd [= <- <-]. split; [by destruct file | done].
  - intros buf u f. apply same_handle. cbn [write_buf udp_scheme_socket]. unfold udp_write_buf. apply wp_bind, wp_gets. cbn [id fst snd].
    case_match; [by apply wp_throw |]. case_match; [| by apply wp_throw]. apply wp_bind, wp_unwrap; [| done]. intros addr _.
    apply wp_bind, wp_unwrap; [| done]. intros u' _. by apply wp_bind, wp_modify, wp_ret.
  - intros buf u f. apply same_handle. cbn [read_buf udp_scheme_socket]. unfold udp_read_buf. apply wp_bind, wp_gets. cbn [id fst snd].
    case_match; [| by apply wp_throw]. destruct (udp_recv_slice buf u) as [r u']. by apply wp_bind, wp_modify, wp_unwrap.
  - done.
Qed.
End udp.

Section tcp.
Context {TA : TcpApi} {TC : Casts tcp_any as_tcp}.

(** What connecting and listening leave *)
Lemma connect_socket_wp st0 h remote local (Q : outcome unit -> Net * PortSet -> Prop) p :
  grown as_tcp st0 (Some h) p -> (forall o p', grown as_tcp st0 (Some h) p' -> Q o p') -> wp (connect_socket h remote local) Q p.
Proof.
  intros Hg HQ. unfold connect_socket. apply wp_bind, wp_gets, wp_bind, wp_unwrap; [| intros _; by apply HQ]. intros addr _.
  apply wp_bind, wp_unwrap; [| intros _; by apply HQ]. intros t _. apply wp_bind, wp_unwrap; [| intros _; by apply HQ].
  intros [i t'] _. apply wp_modify, HQ. apply (put_new _ _ _ _ _ _ _ cast Hg).
Qed.

Lemma listen_socket_wp st0 h local (Q : outcome unit -> Net * PortSet -> Prop) p :
  grown as_tcp st0 (Some h) p -> (forall o p', grown as_tcp st0 (Some h) p' -> Q o p') -> wp (listen_socket h local) Q p.
Proof. intros Hg HQ. apply (with_socket_wp _ _ _ _ _ _ _ cast Hg HQ). Qed.

Lemma accept_wp file t n d : wp (accept file t) (fun o p => same_sockets n p.1 /\
  forall new upd, o = Ok (Some (new, upd)) -> socket_handle new = socket_handle file /\
    forall h x, upd = Some (h, x) -> (exists f, file = SocketF f) /\ set_get h (sockets n) = None /\ is_Some (set_get h (sockets p.1) ≫= as_tcp)) (n, d).
Proof.
  unfold accept. destruct file as [f | f]; [apply wp_throw, dup_failed; [apply same_refl | done] |].
  apply wp_bind, wp_ok_or; [| intros _; apply dup_failed; [apply same_refl | done]]. intros ep _. case_match.
  { case_match; [apply wp_throw, dup_failed; [apply same_refl | done] | apply wp_ret]. split; [apply same_refl | done]. }
  apply wp_bind. eapply add_socket_wp; [apply cast | apply grown_start |]. intros h p1 Hg1.
  apply wp_bind. eapply listen_socket_wp; [exact Hg1 |]. intros o p2 Hg2. destruct o as [[] | e |]; [| apply dup_failed; [exact (proj1 Hg2) | done]..].
  apply wp_bind, wp_unwrap; [| intros _; apply dup_failed; [exact (proj1 Hg2) | done]]. intros e _.
  apply wp_bind. eapply on_data_wp; [exact Hg2 |]. intros o p3 Hg3. destruct o as [[] | e' |]; [| apply dup_failed; [exact (proj1 Hg3) | done]..].
  apply wp_ret. destruct Hg3 as (Hs & Hn & Hh). split; [exact Hs |]. intros new upd [= <- <-]. split; [done |]. intros h' x [= <- <-]. by split; [exists f |].
Qed.

#[export] Instance tcp_laws : SocketLaws TcpSocket.
Proof.
  split.
  - apply cast.
  - intros path uid n d. cbn [new_socket tcp_scheme_socket]. unfold tcp_new_socket.
    destruct (privileged _ _); [by apply wp_throw, (new_done as_tcp) |].
    apply wp_bind. eapply (on_data_wp as_tcp); [apply grown_start |]. intros [local | e |] p Hg; [| (apply (new_done as_tcp); [apply Hg | done])..].
    apply wp_bind. eapply add_socket_wp; [apply cast | exact Hg |]. intros h p1 Hg1. case_match; apply wp_bind.
    + eapply connect_socket_wp; [exact Hg1 |]. intros [[] | e |] p2 Hg2; [| (apply (new_done as_tcp); [apply Hg2 | done])..].
      apply wp_ret. by apply (new_ok as_tcp).
    + eapply listen_socket_wp; [exact Hg1 |]. intros [[] | e |] p2 Hg2; [| (apply (new_done as_tcp); [apply Hg2 | done])..].
      apply wp_ret. by apply (new_ok as_tcp).
  - intros file path n d. cbn [t_dup tcp_scheme_socket]. unfold tcp_dup. apply wp_bind, wp_gets, wp_bind, wp_unwrap; [| intros _; apply dup_failed; [apply same_refl | done]].
    intros t _. case_bool_decide; [apply accept_wp |]. apply wp_bind.
    assert (wp (match tcp_local t with Some e => on_data (acquire_port (e_port e)) | None => mret tt end)
              (fun _ p => grown as_tcp (sockets n) None p) (n, d)) as Hg.
    { destruct (tcp_local t) as [e |]; [| apply wp_ret, grown_start]. eapply (on_data_wp as_tcp); [apply grown_start | done]. }
    eapply wp_mono; [| exact Hg]. intros [[] | e |] p [Hs _]; [| by apply dup_failed | by apply dup_failed].
    apply wp_ret. split; [done |]. intros new upd [= <- <-]. split; [by destruct file | done].
  - intros buf t f. apply same_handle. cbn [write_buf tcp_scheme_socket]. unfold tcp_write_buf. apply wp_bind, wp_gets. cbn [id fst snd].
    case_match; [by apply wp_throw |]. case_match; [| by apply wp_throw]. apply wp_bind, wp_unwrap; [| done]. intros [k t'] _.
    by apply wp_bind, wp_modify, wp_ret.
  - intros buf t f. apply same_handle. cbn [read_buf tcp_scheme_socket]. unfold tcp_read_buf. apply wp_bind, wp_gets. cbn [id fst snd].
    case_match; [by apply wp_throw |]. case_match; [| case_match; [by apply wp_ret | by apply wp_throw]].
    destruct (tcp_recv_slice buf t) as [r t']. by apply wp_bind, wp_modify, wp_unwrap.
  - done.
Qed.
End tcp.

Section icmp.
Context {IA : IcmpApi} {IC : Casts icmp_any as_icmp}.

Lemma icmp_read_loop_wp fuel buf (f : SocketFile IcmpData) : forall p, sf_handle p.2 = sf_handle f ->
  wp (icmp_read_loop fuel buf) (fun _ p => sf_handle p.2 = sf_handle f) p.
Proof.
  induction fuel as [| fuel IH]; intros [i g] Hp; cbn [icmp_read_loop]; apply wp_bind, wp_gets; cbn [id fst snd] in *.
  - case_match; [by apply wp_panic | by apply wp_throw].
  - case_match; [| by apply wp_throw]. destruct (icmp_recv i) as [payload i']. apply wp_bind, wp_modify, wp_bind, wp_unwrap; [| done].
    intros bytes _. apply wp_bind, wp_unwrap; [| done]. intros repr _. destruct repr; [by apply IH | | by apply IH].
    case_match; [by apply wp_throw | by apply wp_ret].
Qed.

#[export] Instance icmp_laws : SocketLaws IcmpSocket.
Proof.
  split.
  - apply cast.
  - intros path uid n d. cbn [new_socket icmp_scheme_socket]. unfold icmp_new_socket.
    assert (forall o (p : Net * PortSet), grown as_icmp (sockets n) None p -> (forall x : Z * IcmpData, o <> Ok x) ->
      same_sockets n p.1 /\ forall h x, o = Ok (h, x) -> set_get h (sockets n) = None /\ holds h p.1) as Hfail.
    { intros o p [Hs _] Ho. by apply (new_done as_icmp). }
    assert (forall ty endpoint addr, wp (icmp_new_typed ty endpoint addr)
      (fun o p => same_sockets n p.1 /\ forall h x, o = Ok (h, x) -> set_get h (sockets n) = None /\ holds h p.1) (n, d)) as Htyped.
    { intros ty endpoint addr. unfold icmp_new_typed. apply wp_bind, wp_ok_or; [| intros _; by apply Hfail; [apply grown_start |]]. intros a _.
      apply wp_bind, wp_ok_or; [| intros _; by apply Hfail; [apply grown_start |]]. intros ip _.
      apply wp_bind. eapply add_socket_wp; [apply cast | apply grown_start |]. intros h p1 Hg1.
      apply wp_bind. eapply on_data_wp; [exact Hg1 |]. intros o p2 Hg2. pose proof (grown_less _ _ _ _ Hg2).
      destruct o as [port | e |]; [| by apply Hfail..]. apply wp_bind, wp_ok_or; [| intros _; by apply Hfail]. intros ident _.
      apply wp_bind. eapply with_socket_wp; [apply cast | exact Hg2 |]. intros o p3 Hg3. pose proof (grown_less _ _ _ _ Hg3).
      destruct o as [[] | e |]; [| by apply Hfail..]. apply wp_ret. by apply (new_ok as_icmp). }
    apply wp_bind, wp_ok_or; [| intros _; by apply Hfail; [apply grown_start |]]. intros method _.
    case_bool_decide; [apply Htyped |]. case_bool_decide; [apply Htyped |]. apply wp_throw. by apply Hfail; [apply grown_start |].
  - intros file path n d. apply wp_throw, dup_failed; [apply same_refl | done].
  - intros buf i f. apply same_handle. cbn [write_buf icmp_scheme_socket]. unfold icmp_write_buf. apply wp_bind, wp_gets. cbn [id fst snd].
    case_match; [| by apply wp_throw]. case_match; [| by apply wp_throw].
    destruct buf as [| a [| b payload]]; [by apply wp_throw | by apply wp_throw |]. apply wp_bind, wp_ok_or; [| done]. intros i' _.
    by apply wp_bind, wp_modify, wp_ret.
  - intros buf i f. apply same_handle. cbn [read_buf icmp_scheme_socket]. unfold icmp_read_buf. apply wp_bind, wp_gets. by apply icmp_read_loop_wp.
  - done.
Qed.
End icmp.

Section raw.
Context {RA : RawApi} {RC : Casts raw_any as_raw}.

#[export] Instance raw_laws : SocketLaws RawSocket.
Proof.
  split.
  - apply cast.
  - intros path uid n d. cbn [new_socket raw_scheme_socket]. unfold raw_new_socket.
    case_match; [by apply wp_throw, (new_done as_raw) |]. apply wp_bind, wp_ok_or; [| intros _; by apply (new_done as_raw)]. intros proto _.
    apply wp_bind. eapply add_socket_wp; [apply cast | apply grown_start |]. intros h p1 Hg1. apply wp_ret. by apply (new_ok as_raw).
  - intros file path n d. apply wp_throw, dup_failed; [apply same_refl | done].
  - intros buf r f. apply same_handle. cbn [write_buf raw_scheme_socket]. unfold raw_write_buf. apply wp_bind, wp_gets. cbn [id fst snd].
    case_match; [| by apply wp_throw]. apply wp_bind, wp_unwrap; [| done]. intros r' _. by apply wp_bind, wp_modify, wp_ret.
  - intros buf r f. apply same_handle. cbn [read_buf raw_scheme_socket]. unfold raw_read_buf. apply wp_bind, wp_gets. cbn [id fst snd].
    case_match; [| by apply wp_throw]. destruct (raw_recv_slice buf r) as [x r']. by apply wp_bind, wp_modify, wp_unwrap.
  - done.
Qed.
End raw.
End protocols.
