(* ===== verification/SockServerFacts.v ===== *)
(** * netstack: serving sockets keeps them counted

    A scheme of sockets behind its server: the calls, their retries and the events
    keep the invariant of [SockFacts], and every request that is accepted is answered once. *)

From stdpp Require Import base gmap strings list fin_maps sorting.
From Stdlib Require Import ZArith Lia.
From Stdlib Require Import Strings.Byte.
From S2P Require Import Prelude Memory Syscall SchemeApi Readiness ReadinessFacts Schemes Netstack Sockets SockServer SockFacts.

Local Open Scope Z_scope.

(** The result of a computation, looked at later *)
Lemma wp_try {X A} (m : M X A) Q (x : X) :
  wp m (fun o y => match o with Panic => Q Panic y | r => Q (Ok r) y end) x -> wp (try_ m) Q x.
Proof. unfold wp, try_. by destruct (m x) as [[] ?]. Qed.

(** ** A scheme behind the dispatch *)

Section dispatch.
Context {TG : Target} {SC : Syscall} {AB : SchemeAbi} {S : Type} (o : overrides S).

(** [Q] is a property of the outcome, whether it is [Ok], and of the state that a call leaves. *)
Context (Q : bool -> S -> Prop).

Definition is_ok {A} (r : outcome A) : bool := match r with Ok _ => true | _ => false end.

Definition leaves {A} (m : M S A) (s : S) : Prop := wp m (fun r s' => r = Panic \/ Q (is_ok r) s') s.

Record overrides_leave (s : S) : Prop := {
  lv_open : forall p fl ctx, leaves (o_open S o p fl ctx) s;
  lv_unlinkat : forall f i p fl ctx, o_unlinkat S o = Some f -> leaves (f i p fl ctx) s;
  lv_dup : forall f i buf ctx, o_dup S o = Some f -> leaves (f i buf ctx) s;
  lv_read : forall i buf off fl ctx, leaves (o_read S o i buf off fl ctx) s;
  lv_write : forall i buf off fl ctx, leaves (o_write S o i buf off fl ctx) s;
  lv_fcntl : forall f i cmd arg ctx, o_fcntl S o = Some f -> leaves (f i cmd arg ctx) s;
  lv_fevent : forall f i fl ctx, o_fevent S o = Some f -> leaves (f i fl ctx) s;
  lv_fpath : forall i buf ctx, leaves (o_fpath S o i buf ctx) s;
  lv_fstat : forall f i ctx, o_fstat S o = Some f -> leaves (f i ctx) s;
  lv_fsync : forall f i ctx, o_fsync S o = Some f -> leaves (f i ctx) s;
  lv_ftruncate : forall f i n ctx, o_ftruncate S o = Some f -> leaves (f i n ctx) s;
  lv_mmap_prep : forall f i a b c ctx, o_mmap_prep S o = Some f -> leaves (f i a b c ctx) s
}.

(** The response of the dispatch is [Ok], if that of the call is. *)
Definition response_ok (r : SchemeResponse) : bool := match r with Regular r => is_ok r | Opened r => is_ok r end.

Definition leaves_response (m : M (S * memory) SchemeResponse) (x : S * memory) : Prop :=
  wp m (fun r x' => r = Panic \/ exists resp, r = Ok resp /\ Q (response_ok resp) x'.1) x.

Lemma bytes_at_wp {A} sl (k : list u8 -> M (S * memory) A) (P : outcome A -> S * memory -> Prop) x :
  P Panic x -> (forall l, wp (k l) P x) -> wp (l ← bytes_at sl; k l) P x.
Proof. intros HP Hk. unfold bytes_at. apply wp_bind, wp_bind, wp_gets, wp_unwrap; [intros l _; apply Hk | intros _; exact HP]. Qed.

Lemma path_at_wp {A} sl (k : string -> M (S * memory) A) (P : outcome A -> S * memory -> Prop) x :
  P Panic x -> (forall l, wp (k l) P x) -> wp (l ← path_at sl; k l) P x.
Proof. intros HP Hk. unfold path_at. apply wp_bind. apply bytes_at_wp; [exact HP |]. intros l. by apply wp_ret. Qed.

Lemma call_wp {A B} (m : M S A) (k : outcome A -> M (S * memory) B) (P : outcome B -> S * memory -> Prop) x :
  leaves m x.1 -> P Panic ((m x.1).2, x.2) -> (forall r x', Q (is_ok r) x'.1 -> r <> Panic -> wp (k r) P x') -> wp (r ← call_ m; k r) P x.
Proof.
  destruct x as [s m']. unfold leaves, call_, wp. unfold mbind, M_bind. cbn [fst snd]. intros Hm HP Hk.
  destruct (m s) as [[a | e |] s']; cbn [fst snd] in *; [| | exact HP].
  - destruct Hm as [[=] | Hm]. by apply (Hk (Ok a) (s', m')).
  - destruct Hm as [[=] | Hm]. by apply (Hk (Err e) (s', m')).
Qed.

Lemma leaves_default {A} e s : Q false s -> leaves (throw e : M S A) s.
Proof. by right. Qed.
Lemma leaves_ret {A} (a : A) s : Q true s -> leaves (mret a) s.
Proof. by right. Qed.

Lemma with_buf_wp a r (k : outcome Z -> M (S * memory) SchemeResponse) (P : outcome SchemeResponse -> S * memory -> Prop) x :
  (forall r' x', is_ok r' = is_ok r -> x'.1 = x.1 -> wp (k r') P x') -> wp (r' ← with_buf a r; k r') P x.
Proof.
  intros Hk. unfold with_buf. destruct r as [[n l] | e |].
  - apply wp_bind, wp_bind, wp_modify, wp_ret. by apply Hk.
  - by apply wp_bind, wp_ret, Hk.
  - by apply wp_bind, wp_ret, Hk.
Qed.
Lemma respond_wp resp (x x' : S * memory) :
  Q (response_ok resp) x'.1 -> wp (mret resp : M (S * memory) SchemeResponse) (fun r x' => r = Panic \/ exists resp, r = Ok resp /\ Q (response_ok resp) x'.1) x'.
Proof. intros Hq. apply wp_ret. right. by exists resp. Qed.

(** What an implementation's method leaves, and what the default leaves *)
Lemma default_leaves {A} (f : option A) (d : A) (P : A -> Prop) : (forall g, f = Some g -> P g) -> P d -> P (default d f).
Proof. intros Hf Hd. destruct f; [by apply Hf | done]. Qed.

Lemma handle_wp op ctx x :
  Q false x.1 -> Q true x.1 -> overrides_leave x.1 -> leaves_response (handle_sync_dont_consume (SS := implement o) op ctx) x.
Proof.
  intros Hf Ht [H1 H2 H3 H4 H5 H6 H7 H8 H9 H10 H11 H12]. unfold leaves_response.
  assert (forall r x', Q (is_ok r) x'.1 -> wp (regular (S := S) r) (fun r x' => r = Panic \/ exists resp, r = Ok resp /\ Q (response_ok resp) x'.1) x') as Hr.
  { intros r x' Hq. by apply respond_wp. }
  assert (forall r x', Q (is_ok r) x'.1 -> wp (opened (S := S) r) (fun r x' => r = Panic \/ exists resp, r = Ok resp /\ Q (response_ok resp) x'.1) x') as Ho.
  { intros r x' Hq. by apply respond_wp. }
  destruct op; cbn [handle_sync_dont_consume];
    repeat first [apply bytes_at_wp; [by left | intros ?] | apply path_at_wp; [by left | intros ?]].
  24: { apply wp_intro. right. by exists (Regular (Err EOPNOTSUPP)). }
  all: try (case_match; [| by apply Hr]).
  all: apply call_wp; [cbn; first [by auto | by right | apply default_leaves; [intros g Hg; by auto | by right]] | by left | intros r x' Hq Hp].
  all: first [apply Hr | apply Ho | apply with_buf_wp; intros r' x1 E1 E2; apply Hr; rewrite E1, E2]; by destruct r.
Qed.
End dispatch.

(** ** Descriptors are counted too *)

Section fds.
Context {TG : Target} {SC : Syscall} {IP : IpApi} {SA : SocketSetApi} {IF : IfaceApi} {TB : TimeSpecBytes} {T : Type} {ST : SchemeSocket T}.
Implicit Types s : SocketScheme T.

(** A call that takes no descriptor *)
Definition steady {A} (m : M (SocketScheme T) A) : Prop := forall s, wp m (fun _ s' => next_fd s' = next_fd s) s.

Lemma steady_bind {A B} (m : M (SocketScheme T) A) (k : A -> M (SocketScheme T) B) : steady m -> (forall a, steady (k a)) -> steady (m ≫= k).
Proof.
  intros Hm Hk s. apply wp_bind. eapply wp_mono; [| apply Hm]. intros [a | e |] s' E; [| done | done].
  eapply wp_mono; [| apply Hk]. intros o s2 E2. congruence.
Qed.
Lemma steady_pure {A} (m : M (SocketScheme T) A) : pure_m m -> steady m.
Proof. intros Hp s. apply wp_intro. by rewrite Hp. Qed.
Lemma steady_modify f : (forall s, next_fd (f s) = next_fd s) -> steady (modify f).
Proof. intros Hf s. apply wp_modify, Hf. Qed.
Lemma steady_on_net {A} (m : M Net A) : steady (on_net m).
Proof. intros s. by apply wp_zoom, wp_intro. Qed.
Lemma steady_on_shared {A} (m : M (Net * SchemeDataT) A) : steady (on_shared m).
Proof. intros s. by apply wp_zoom, wp_intro. Qed.
Lemma steady_put_file fd f : steady (put_file fd f).
Proof. by apply steady_modify. Qed.
Lemma steady_add_ref h : steady (add_ref h).
Proof. intros s. unfold add_ref. wp_run. Qed.
Lemma steady_gets {A} (f : SocketScheme T -> A) : steady (gets f).
Proof. by apply steady_pure. Qed.
Lemma steady_ret {A} (a : A) : steady (mret a).
Proof. by apply steady_pure. Qed.
Lemma steady_throw {A} e : steady (throw e : M (SocketScheme T) A).
Proof. by apply steady_pure. Qed.
Lemma steady_lift {A} (o : outcome A) : steady (lift o).
Proof. by apply steady_pure. Qed.
Lemma steady_ok_or {A} e (o : option A) : steady (ok_or e o).
Proof. apply steady_pure. by destruct o. Qed.
Hint Resolve steady_on_net steady_on_shared steady_put_file steady_add_ref steady_gets steady_ret steady_throw steady_lift steady_ok_or : core.

Ltac steady := repeat lazymatch goal with
  | |- steady (_ ≫= _) => apply steady_bind; [| intros ?]
  | |- steady (modify _) => apply steady_modify; intros ?; try done
  | |- steady (match ?x with _ => _ end) => destruct x
  | |- _ => solve [eauto | done]
  end.

Lemma file_at_steady fd : steady (file_at fd).
Proof. unfold file_at. steady. Qed.
Lemma socket_file_at_steady fd : steady (socket_file_at fd).
Proof. unfold socket_file_at. pose proof (file_at_steady fd). steady. Qed.
Hint Resolve file_at_steady socket_file_at_steady : core.

Lemma on_socket_steady {A} fd file (m : M (T * SocketFile DataT) A) : steady (on_socket fd file m).
Proof.
  intros s. pose proof (steady_on_net (get_socket (sf_handle file)) s) as Hg. unfold wp, on_socket in *.
  destruct (on_net (get_socket (sf_handle file)) s) as [[t | e |] s1]; cbn [fst snd] in *; try done. by destruct (m (t, file)) as [r [t' f']].
Qed.
Lemma renotify_steady {A} fd (m : M (SocketScheme T) A) g : steady m -> steady (renotify fd m g).
Proof.
  intros Hm s. specialize (Hm s). unfold wp, renotify in *. destruct (m s) as [[a | e |] s1]; cbn [fst snd] in *; try done. by destruct (blocks e).
Qed.
Hint Resolve on_socket_steady renotify_steady : core.

Lemma get_setting_steady fd x buf : steady (get_setting fd x buf).
Proof. unfold get_setting. steady. Qed.
Lemma update_setting_steady fd x buf : steady (update_setting fd x buf).
Proof. unfold update_setting. steady. Qed.
Hint Resolve get_setting_steady update_setting_steady : core.

Lemma write_steady fd buf : steady (write fd buf).
Proof. unfold write. steady. Qed.
Lemma read_steady fd buf : steady (read fd buf).
Proof. unfold read. steady. Qed.
Lemma events_steady fd f : steady (events fd f).
Proof. unfold events. steady. Qed.
Hint Resolve events_steady : core.
Lemma fevent_steady fd e : steady (fevent fd e).
Proof. unfold fevent. steady. Qed.
Lemma fsync_steady fd : steady (fsync fd).
Proof. unfold fsync. steady. Qed.
Lemma fpath_steady fd buf : steady (fpath fd buf).
Proof. unfold fpath. steady. Qed.
Lemma fcntl_steady fd cmd arg : steady (fcntl fd cmd arg).
Proof. unfold fcntl. steady. Qed.

Lemma close_data_steady (t : T) file : steady (fun s => match zoom scheme_data (fun d s => set_shared (net s, d) s) (close_file t file) s with
  | (Panic, s) => (Panic, s) | (_, s) => (Ok tt, s) end).
Proof. intros s. unfold wp, zoom. by destruct (close_file t file (scheme_data s)) as [[] d]. Qed.
Lemma on_close_steady fd : steady (on_close fd).
Proof. pose proof close_data_steady. unfold on_close, drop_ref. steady. Qed.

Lemma dup_file_steady fd file path : steady (dup_file fd file path).
Proof. unfold dup_file. steady. Qed.
Lemma replace_socket_steady fd file upd : steady (replace_socket fd file upd).
Proof. unfold replace_socket. steady. Qed.
(** A call that takes a descriptor when it is [Ok] *)
Definition takes_fd {A} s (o : outcome A) s' : Prop := o = Panic \/ next_fd s' = next_fd s + (if is_ok o then 1 else 0).

Lemma steady_bind_wp {A B} (m : M (SocketScheme T) A) (k : A -> M (SocketScheme T) B) s :
  steady m -> (forall a s', next_fd s' = next_fd s -> wp (k a) (takes_fd s) s') -> wp (m ≫= k) (takes_fd s) s.
Proof.
  intros Hm Hk. apply wp_bind. eapply wp_mono; [| apply Hm]. intros [a | e |] s' E; [by apply Hk | right; cbn; lia | by left].
Qed.

Lemma takes_fd_from {A} s s1 (o : outcome A) s' : next_fd s1 = next_fd s -> takes_fd s1 o s' -> takes_fd s o s'.
Proof. unfold takes_fd. by intros ->. Qed.

Lemma open_inner_takes path flags uid gid s : 0 <= next_fd s -> next_fd s + 1 < usize_mod -> wp (open_inner path flags uid gid) (takes_fd s) s.
Proof.
  intros H0 Hn. unfold open_inner, add_fd. destruct (str_is_empty path).
  - apply wp_bind, wp_bind, wp_gets. apply wp_usize_add_ok; [lia |]. apply wp_bind, wp_modify, wp_ret, wp_bind, wp_modify, wp_ret. by right.
  - apply steady_bind_wp; [auto |]. intros [h x] s1 E.
    apply wp_bind, wp_bind, wp_gets. apply wp_usize_add_ok; [lia |]. apply wp_bind, wp_modify, wp_ret, wp_bind, wp_modify, wp_bind, wp_modify, wp_ret.
    right. cbn. lia.
Qed.

Lemma dup_takes fd buf s : 0 <= next_fd s -> next_fd s + 1 < usize_mod -> wp (dup fd buf) (takes_fd s) s.
Proof.
  intros H0 Hn. unfold dup. apply steady_bind_wp; [auto |]. intros path s1 E1. rewrite <- E1 in *.
  eapply wp_mono; [intros o s'; by apply takes_fd_from |]. apply steady_bind_wp; [auto |]. intros ns s2 E2. rewrite <- E2 in *.
  destruct (ns !! fd) as [null |]; [eapply wp_mono; [intros o s'; by apply takes_fd_from |]; by apply open_inner_takes |].
  eapply wp_mono; [intros o s'; by apply takes_fd_from |]. apply steady_bind_wp; [auto |]. intros file s3 E3.
  apply wp_bind. eapply wp_mono; [| apply (dup_file_steady fd file path)]. intros [[new upd] | e |] s4 E4; [| right; cbn; lia | by left].
  apply wp_bind. eapply wp_mono; [| apply (replace_socket_steady fd file upd)]. intros [[] | e |] s5 E5; [| right; cbn; lia | by left].
  apply wp_bind. eapply wp_mono; [| apply (steady_add_ref (socket_handle new))]. intros [[] | e |] s6 E6; [| right; cbn; lia | by left].
  apply wp_bind, wp_gets, wp_bind, wp_modify. apply wp_usize_add_ok; [cbn; lia |]. apply wp_bind, wp_modify, wp_ret. right. cbn. lia.
Qed.
End fds.

(** ** The invariant behind the server *)

Section server.
Context {TG : Target} {SC : Syscall} {AB : SchemeAbi} {IP : IpApi} {SA : SocketSetApi} {SL : SocketSetLaws SA} {IF : IfaceApi} {TB : TimeSpecBytes}.
Context {WO : SchemeOut} {T : Type} {ST : SchemeSocket T} {TL : SocketLaws T}.
Implicit Types s : SocketScheme T.

(** What a call leaves of the scheme: the invariant, the sockets of the others, and at most one descriptor is taken, by a call
    that is [Ok]. *)
Definition served (s : SocketScheme T) (ok : bool) s' : Prop :=
  counted s' /\ frame s s' /\ next_fd s <= next_fd s' <= next_fd s + (if ok then 1 else 0).

Lemma served_steady {A} (m : M (SocketScheme T) A) s : counted s -> sane m -> steady m -> leaves (served s) m s.
Proof.
  intros Hc Hs Hn. specialize (Hs s Hc). specialize (Hn s). unfold leaves, wp in *. destruct Hs as [| [H1 H2]]; [by left | right].
  split_and!; [done | done | | destruct (is_ok _)]; lia.
Qed.

Lemma served_takes {A} (m : M (SocketScheme T) A) s : wp m (fine s) s -> wp m (takes_fd s) s -> leaves (served s) m s.
Proof.
  unfold leaves, wp. intros [| [H1 H2]] [| H3]; [by left | by left | by left | right].
  split_and!; [done | done | | lia]. destruct (is_ok _); lia.
Qed.

Lemma calls_served s : counted s -> next_fd s + 1 < usize_mod -> forall op ctx m,
  wp (handle_sync_dont_consume op ctx) (fun r x' => r = Panic \/ exists resp, r = Ok resp /\ served s (response_ok resp) x'.1) (s, m).
Proof.
  intros Hc Hn op ctx m. pose proof (c_size s Hc). apply handle_wp.
  - split_and!; [done | apply frame_refl | cbn; lia..].
  - split_and!; [done | apply frame_refl | cbn; lia..].
  - split; cbn.
    + intros. apply served_takes; [by apply open_inner_wp | apply open_inner_takes; lia].
    + done.
    + intros f i buf ctx' [= <-]. apply served_takes; [by apply dup_wp | apply dup_takes; lia].
    + intros. apply served_steady; [done | apply read_sane | apply read_steady].
    + intros. apply served_steady; [done | apply write_sane | apply write_steady].
    + intros f i cmd arg ctx' [= <-]. apply served_steady; [done | apply fcntl_sane | apply fcntl_steady].
    + intros f i fl ctx' [= <-]. apply served_steady; [done | apply fevent_sane | apply fevent_steady].
    + intros. apply served_steady; [done | apply fpath_sane | apply fpath_steady].
    + done.
    + intros f i ctx' [= <-]. apply served_steady; [done | apply fsync_sane | apply fsync_steady].
    + done.
    + done.
Qed.
(** *** The server *)

(** Descriptors that are taken, and that the requests that wait may take *)
Definition issued (w : Wrapper) : Z := next_fd (scheme w) + Z.of_nat (length (wait_queue w)).

Definition within {A} (n : Z) (w : Wrapper) (o : outcome A) (w' : Wrapper) : Prop :=
  o = Panic \/ counted (scheme w') /\ frame (scheme w) (scheme w') /\ issued w' <= issued w + n.

Lemma within_refl {A} n w (o : outcome A) : counted (scheme w) -> 0 <= n -> within n w o w.
Proof. right. split_and!; [done | apply frame_refl | lia]. Qed.

Lemma within_trans {A} n k w w1 (o : outcome A) w2 :
  frame (scheme w) (scheme w1) -> issued w1 <= issued w + k -> within n w1 o w2 -> within (k + n) w o w2.
Proof. intros Hf Hi [-> | (H1 & H2 & H3)]; [by left | right]. split_and!; [done | by eapply frame_trans | lia]. Qed.

Lemma sock_within_bind {A B} (m : M Wrapper A) (k : A -> M Wrapper B) n w :
  0 <= n -> wp m (within 0 w) w -> (forall a w1, counted (scheme w1) -> issued w1 <= issued w -> wp (k a) (within n w1) w1) -> wp (m ≫= k) (within n w) w.
Proof.
  intros H0 Hm Hk. apply wp_bind. eapply wp_mono; [| exact Hm]. intros [a | e |] w1 [Hp | (H1 & H2 & H3)]; try done; try (by left).
  - eapply wp_mono; [| apply Hk; [done | lia]]. intros o w2 Hw. replace n with (0 + n) by lia. by eapply within_trans.
  - right. split_and!; [done | done | lia].
Qed.

(** Responses do not matter to the scheme. *)
Lemma write_response_within r w : counted (scheme w) -> wp (write_response r) (within 0 w) w.
Proof.
  intros Hc. unfold write_response. apply wp_bind, wp_gets. assert (forall x w', scheme w' = scheme w -> wait_queue w' = wait_queue w -> within 0 w (Ok x : outcome bool) w') as Hw.
  { intros x w' E1 E2. right. unfold issued. rewrite E1, E2. split_and!; [done | apply frame_refl | lia]. }
  destruct (write_result (writes w)) as [[] | e |]; [apply wp_bind, wp_modify, wp_ret; by apply Hw | apply wp_bind, wp_modify, wp_ret; by apply Hw | |].
  - apply wp_throw. by apply within_refl.
  - by left.
Qed.

Lemma answer_within {A} r (k : M Wrapper A) n w :
  0 <= n -> counted (scheme w) -> (forall w1, counted (scheme w1) -> issued w1 <= issued w -> wp k (within n w1) w1) -> wp (write_response r;; k) (within n w) w.
Proof. intros H0 Hc Hk. apply sock_within_bind; [done | by apply write_response_within | intros _; apply Hk]. Qed.

(** A computation on the scheme *)
Lemma scheme_wp {A} (m : M (SocketScheme T) A) w :
  sane m -> steady m -> counted (scheme w) -> wp (zoom scheme (fun s w => set_scheme (s, mem w) w) m) (within 0 w) w.
Proof.
  intros Hm Hs Hc. apply wp_zoom. specialize (Hm _ Hc). specialize (Hs (scheme w)). unfold wp in *. destruct Hm as [| [H1 H2]]; [by left | right].
  unfold issued. cbn. split_and!; [done | done | lia].
Qed.

Lemma sane_try {A} (m : M (SocketScheme T) A) : sane m -> sane (try_ m).
Proof. intros Hm s Hc. specialize (Hm s Hc). unfold wp, try_ in *. destruct (m s) as [[] s']; cbn in *; [destruct Hm as [[=] | Hm]; by right | destruct Hm as [[=] | Hm]; by right | by left]. Qed.
Lemma steady_try {A} (m : M (SocketScheme T) A) : steady m -> steady (try_ m).
Proof. intros Hm s. specialize (Hm s). unfold wp, try_ in *. by destruct (m s) as [[] s']. Qed.

Lemma pure_bind_ {S A B} (m : M S A) (k : A -> M S B) : pure_m m -> (forall a, pure_m (k a)) -> pure_m (m ≫= k).
Proof. intros Hm Hk s. unfold mbind, M_bind. specialize (Hm s). destruct (m s) as [[a | e |] s']; cbn in *; subst; [apply Hk | done | done]. Qed.
Lemma pure_sarith {S} bits x : pure_m (sarith bits x : M S Z).
Proof. intros s. unfold sarith. by repeat case_match. Qed.
Lemma pure_handle_block op now : pure_m (handle_block (T := T) op now).
Proof.
  unfold handle_block, socket_file_at, file_at, add_time.
  repeat lazymatch goal with
  | |- pure_m (_ ≫= _) => apply pure_bind_; [| intros ?]
  | |- pure_m (sarith _ _) => apply pure_sarith
  | |- pure_m (match ?x with _ => _ end) => destruct x
  | |- pure_m (ok_or _ ?x) => intros ?; by destruct x
  | |- pure_m (unwrap ?x) => intros ?; by destruct x
  | |- pure_m _ => intros ?; done
  end.
Qed.
(** A call behind the server: a response that would block takes no descriptor. *)
Lemma call_within {A} op ctx (k : SchemeResponse -> M Wrapper A) n w :
  0 <= n -> counted (scheme w) -> next_fd (scheme w) + 1 < usize_mod ->
  (forall r w1, counted (scheme w1) -> issued w1 <= issued w + (if response_ok r then 1 else 0) -> wait_queue w1 = wait_queue w ->
     wp (k r) (within (n - (if response_ok r then 1 else 0)) w1) w1) ->
  wp (on_scheme (handle_sync_dont_consume op ctx) ≫= k) (within n w) w.
Proof.
  intros H0 Hc Hn Hk. apply wp_bind. unfold on_scheme. apply wp_zoom. eapply wp_mono; [| by apply calls_served].
  intros o x [-> | (r & -> & H1 & H2 & H3)]; [by left |]. assert (issued (set_scheme x w) <= issued w + (if response_ok r then 1 else 0)) as Hi.
  { unfold issued. cbn. lia. }
  eapply wp_mono; [| apply Hk; [exact H1 | exact Hi | done]]. intros o w2 Hw.
  replace n with ((if response_ok r then 1 else 0) + (n - (if response_ok r then 1 else 0))) by lia. apply (within_trans _ _ w (set_scheme x w)); [exact H2 | exact Hi | exact Hw].
Qed.

Lemma would_block_not_ok r : would_block r = true -> response_ok r = false.
Proof. destruct r as [[] | []]; cbn; congruence. Qed.

Lemma within_more {A} n n' w (o : outcome A) w' : n <= n' -> within n w o w' -> within n' w o w'.
Proof. intros Hn [-> | (H1 & H2 & H3)]; [by left | right]. split_and!; [done | done | lia]. Qed.

Lemma handle_request_within request now w :
  counted (scheme w) -> next_fd (scheme w) + 1 < usize_mod -> wp (handle_request request now) (within 1 w) w.
Proof.
  intros Hc Hn. assert (forall {A} (x : A) n w, 0 <= n -> counted (scheme w) -> wp (mret x) (within n w) w) as Hret by (intros; by apply within_refl).
  unfold handle_request. destruct (kind request) as [req | id | req | req | | | | id]; try by apply Hret.
  - apply wp_bind, wp_lift. destruct (from_sqe_unchecked req) as [[op |] | e |]; [| by apply answer_within; [lia | | intros; apply Hret] | by apply within_refl | by left].
    apply call_within; [lia | done | done |]. intros r w1 Hc1 Hi1 Hq1. destruct (would_block r && negb (is_explicitly_nonblock op)) eqn:Hb.
    + apply andb_true_iff in Hb as [Hb _]. rewrite (would_block_not_ok r Hb), Z.sub_0_r. apply sock_within_bind; [lia | |].
      * apply scheme_wp; [apply sane_try, sane_pure, pure_handle_block | apply steady_try, steady_pure, pure_handle_block | done].
      * intros [t | e |] w2 Hc2 Hi2; [| by apply answer_within; [lia | | intros; apply within_refl] | by left].
        apply wp_modify. right. split_and!; [done | apply frame_refl |]. unfold issued. cbn. rewrite length_app. cbn. lia.
    + eapply wp_mono; [intros o w2; apply (within_more 0); destruct (response_ok r); lia |]. apply answer_within; [lia | done |]. intros. by apply Hret.
  - apply wp_modify. right. split_and!; [done | apply frame_refl |]. unfold issued. cbn.
    assert (length (mark_cancelling id (wait_queue w)) = length (wait_queue w)) as ->; [| lia].
    induction (wait_queue w) as [| h q IH]; cbn; [done |]. case_match; cbn; lia.
  - eapply wp_mono; [intros o w2; by apply (within_more 0) |]. apply scheme_wp; [apply on_close_sane | apply on_close_steady | done].
Qed.
(** *** Notification *)

Lemma events_within fd f w : counted (scheme w) -> files (scheme w) !! fd = Some f ->
  wp (zoom scheme (fun s w => set_scheme (s, mem w) w) (events fd f)) (within 0 w) w.
Proof.
  intros Hc Hf. apply wp_zoom. pose proof (events_wp fd f _ Hc Hf) as H1. pose proof (events_steady fd f (scheme w)) as H2.
  unfold wp in *. destruct H1 as [| [H1 H3]]; [by left | right]. unfold issued. cbn. split_and!; [done | done | lia].
Qed.

Lemma notify_files_within fds : forall w, counted (scheme w) -> wp (notify_files fds) (within 0 w) w.
Proof.
  induction fds as [| fd fds IH]; intros w Hc; cbn [notify_files]; [by apply within_refl |].
  apply wp_bind, wp_gets, wp_bind, wp_unwrap; [| by left]. intros f Hf.
  apply sock_within_bind; [done | by apply events_within |]. intros ev w1 Hc1 _. apply sock_within_bind; [done | | intros _ w2 Hc2 _; by apply IH].
  case_match; [| by apply within_refl]. unfold post_fevent. apply sock_within_bind; [done | by apply write_response_within |]. intros b w2 Hc2 _. apply wp_fail_if; intros _; by apply within_refl.
Qed.

Lemma length_swap_remove {A} i (l : list A) : (i < length l)%nat -> length (swap_remove i l) = (length l - 1)%nat.
Proof.
  intros Hi. unfold swap_remove. destruct (Nat.eqb_spec i (length l - 1)); [rewrite length_take; lia |].
  destruct (l !! (length l - 1)%nat) eqn:E; [rewrite length_insert, length_take; lia |]. apply lookup_ge_None in E. lia.
Qed.

Lemma settle_waits h now r : settle h now r = None -> would_block r = true.
Proof. unfold settle. destruct (would_block r); [done |]. by cbn. Qed.

Lemma wake_loop_within now : forall fuel i w,
  counted (scheme w) -> issued w < usize_mod -> wp (wake_loop fuel i now) (within 0 w) w.
Proof.
  induction fuel as [| fuel IH]; intros i w Hc Hn; cbn [wake_loop]; apply wp_bind, wp_gets; (destruct (wait_queue w !! i) as [h |] eqn:Hh; [| by apply within_refl]).
  - by left.
  - pose proof (lookup_lt_Some _ _ _ Hh) as Hlt. apply call_within; [done | done | unfold issued in Hn; lia |].
    intros r w1 Hc1 Hi1 Hq1. destruct (settle h now r) as [resp |] eqn:Hs.
    + apply wp_bind, wp_modify. set (w2 := set_wait_queue _ w1). assert (issued w2 = issued w1 - 1) as E2.
      { unfold issued. cbn. rewrite length_swap_remove by (rewrite Hq1; lia). rewrite Hq1. lia. }
      assert (frame (scheme w1) (scheme w2)) as Hf by apply frame_refl.
      eapply wp_mono; [| apply (answer_within resp (wake_loop fuel i now) 0 w2)].
      * intros o w3 Hw. apply (within_more (-1 + 0)); [destruct (response_ok r); lia |]. apply (within_trans _ _ w1 w2); [done | lia | done].
      * done.
      * done.
      * intros w3 Hc3 Hi3. apply IH; [done |]. destruct (response_ok r); lia.
    + rewrite (would_block_not_ok _ (settle_waits _ _ _ Hs)) in *. apply IH; [done | lia].
Qed.

Lemma notify_sockets_within now w : counted (scheme w) -> issued w < usize_mod -> wp (notify_sockets now) (within 0 w) w.
Proof.
  intros Hc Hn. unfold notify_sockets. apply wp_bind, wp_lift. destruct now as [t | e |]; [| by apply within_refl | by left].
  apply wp_bind, wp_gets. apply sock_within_bind; [done | by apply notify_files_within |]. intros _ w1 Hc1 Hi1.
  apply wp_bind, wp_gets, wake_loop_within; [done | lia].
Qed.
End server.
