(* ===== verification/Link.v ===== *)
(** * netstack: the link devices

    Models [netstack/src/link/mod.rs], [loopback.rs] and [ethernet.rs]: the trait of devices, the
    loopback and the ethernet link with its ARP state machine.  The wire formats and the
    packet buffer are those of [smoltcp], and parameters. *)

From stdpp Require Import base gmap strings list fin_maps.
From Stdlib Require Import ZArith Lia.
From Stdlib Require Import Strings.Byte.
From S2P Require Import Prelude Syscall Netstack Sockets SockProto.

Local Open Scope Z_scope.

(** ** What is [smoltcp]'s *)

(** [PacketBuffer]: packets with their metadata, in order.  [peek] and [dequeue] are [None] for an empty buffer; [enqueue] is
    [None] for want of room, and the source fills the buffer that it returns at once. *)
Class PacketApi := {
  PacketBuffer : Type -> Type;
  pb_new : forall {H}, Z -> Z -> PacketBuffer H;
  pb_packets : forall {H}, PacketBuffer H -> list (H * list u8);
  enqueue : forall {H}, H -> list u8 -> PacketBuffer H -> option (PacketBuffer H);
  dequeue : forall {H}, PacketBuffer H -> option (H * list u8) * PacketBuffer H;
  peek : forall {H}, PacketBuffer H -> option (H * list u8) * PacketBuffer H;
  is_full : forall {H}, PacketBuffer H -> bool
}.

(** Documented behaviour: a queue *)
Class PacketLaws (PA : PacketApi) : Prop := {
  packets_new : forall H m n, pb_packets (pb_new m n : PacketBuffer H) = [];
  packets_enqueue : forall H h l (q q' : PacketBuffer H), enqueue h l q = Some q' -> pb_packets q' = pb_packets q ++ [(h, l)];
  packets_dequeue : forall H (q : PacketBuffer H), (dequeue q).1 = head (pb_packets q) /\ pb_packets (dequeue q).2 = tail (pb_packets q);
  packets_peek : forall H (q : PacketBuffer H), (peek q).1 = head (pb_packets q) /\ pb_packets (peek q).2 = pb_packets q
}.

Inductive EthernetProtocol := ProtoIpv4 | ProtoArp | ProtoOther (n : Z).
Inductive ArpOperation := Request | Reply | Unknown (n : Z).

(** Addresses of ethernet, and the predicates on addresses *)
Class MacApi {IP : IpApi} := {
  EthernetAddress : Type;
  mac_eq :: EqDecision EthernetAddress;
  addr_countable :: Countable IpAddress;
  mac_of : list u8 -> EthernetAddress;
  MAC_BROADCAST : EthernetAddress;
  mac_is_broadcast : EthernetAddress -> bool; mac_is_unicast : EthernetAddress -> bool;
  addr_is_broadcast : IpAddress -> bool; addr_is_multicast : IpAddress -> bool;
  cidr_address : IpCidr -> IpAddress; cidr_broadcast : IpCidr -> option IpAddress
}.

Section wire.
Context {IP : IpApi} {MA : MacApi}.
Record EthernetRepr := { src_addr : EthernetAddress; dst_addr : EthernetAddress; ethertype : EthernetProtocol }.
Inductive ArpRepr :=
| EthernetIpv4 (operation : ArpOperation) (source_hardware_addr : EthernetAddress) (source_protocol_addr : IpAddress)
    (target_hardware_addr : EthernetAddress) (target_protocol_addr : IpAddress)
| OtherArp.
End wire.

Class FrameApi {IP : IpApi} {MA : MacApi} := {
  eth_parse : list u8 -> option EthernetRepr;
  eth_payload : list u8 -> list u8;
  (** the frame with the header and the payload *)
  eth_emit : EthernetRepr -> list u8 -> list u8;
  arp_parse : list u8 -> option ArpRepr;
  arp_emit : ArpRepr -> list u8
}.

(** ** The trait *)

(** [Instant] and [Duration] in microseconds, which do not overflow in the lifetime of a machine *)
Definition from_secs (n : Z) : Z := n * 1000000.
Definition ZERO : Z := 0.

Class LinkDevice {IP : IpApi} {MA : MacApi} (D : Type) := {
  send : IpAddress -> list u8 -> Z -> M D unit;
  recv : Z -> M D (option (list u8));
  name : D -> string;
  can_recv : D -> bool;
  mac_address : D -> option EthernetAddress;
  set_mac_address : EthernetAddress -> M D unit;
  ip_address : D -> option IpCidr;
  set_ip_address : IpCidr -> M D unit
}.

(** [DeviceList::get] and [get_mut]: the index of the first device of the name *)
Definition find_device {IP : IpApi} {MA : MacApi} {D} {LD : LinkDevice D} (device_name : string) (l : list D) : option nat :=
  fst <$> list_find (fun d => name d = device_name) l.

(** ** Loopback *)

Section loopback.
Context {TG : Target} {SC : Syscall} {IP : IpApi} {WA : WireApi} {MA : MacApi} {PA : PacketApi}.

Record LoopbackDevice := { lo_name : string; buffer : PacketBuffer unit }.

Definition LoopbackDevice_default : LoopbackDevice :=
  {| lo_name := "loopback"; buffer := pb_new SOCKET_BUFFER_SIZE (1500 * SOCKET_BUFFER_SIZE) |}.

Definition set_buffer (x : PacketBuffer unit) (d : LoopbackDevice) : LoopbackDevice := {| lo_name := lo_name d; buffer := x |}.

Definition lo_send (_ : IpAddress) (packet : list u8) (_ : Z) : M LoopbackDevice unit :=
  q ← gets buffer;
  match enqueue tt packet q with
  | None => mret tt
  | Some q => modify (set_buffer q)
  end.

Definition lo_recv (_ : Z) : M LoopbackDevice (option (list u8)) :=
  q ← gets buffer;
  let '(r, q) := dequeue q in
  modify (set_buffer q);; mret (snd <$> r).

(** The address of the loopback, ["127.0.0.1/8".parse().unwrap()] *)
Context (cidr_from_str : string -> option IpCidr).

Definition loopback_device : LinkDevice LoopbackDevice := {|
  send := lo_send; recv := lo_recv; name := lo_name;
  can_recv d := match pb_packets (buffer d) with [] => false | _ => true end;
  mac_address _ := None; set_mac_address _ := mret tt;
  ip_address _ := cidr_from_str "127.0.0.1/8"; set_ip_address _ := panic
|}.
End loopback.

(** ** Ethernet *)

Section ethernet.
Context {TG : Target} {SC : Syscall} {IP : IpApi} {WA : WireApi} {MA : MacApi} {FA : FrameApi} {PA : PacketApi}.

Record Neighbor := { nb_address : EthernetAddress; expires_at : Z }.

Inductive ArpState := Discovered | Discovering (target : IpAddress) (tries silent_until : Z).

Definition EMPTY_MAC : EthernetAddress := mac_of (replicate 6 x00).

(** What a read of the network file yields, as long as it does not block *)
Inductive Incoming := Frame (l : list u8) | ReadError.

(** [EthernetLink]; the output buffer is made anew for each frame.  [outputs] are the frames that were written to the
    network file, [eth_emit] of which are their bytes; a write that fails is only logged. *)
Record EthernetLink := {
  eth_name : string; neighbor_cache : gmap IpAddress Neighbor; arp_state : ArpState; waiting_packets : PacketBuffer IpAddress;
  input_buffer : list u8; inputs : list Incoming; outputs : list (EthernetRepr * list u8);
  hardware_address : option EthernetAddress; eth_ip_address : option IpCidr
}.

Definition set_neighbor_cache x (e : EthernetLink) : EthernetLink := {|
  eth_name := eth_name e; neighbor_cache := x; arp_state := arp_state e; waiting_packets := waiting_packets e; input_buffer := input_buffer e;
  inputs := inputs e; outputs := outputs e; hardware_address := hardware_address e; eth_ip_address := eth_ip_address e |}.
Definition set_arp_state x (e : EthernetLink) : EthernetLink := {|
  eth_name := eth_name e; neighbor_cache := neighbor_cache e; arp_state := x; waiting_packets := waiting_packets e; input_buffer := input_buffer e;
  inputs := inputs e; outputs := outputs e; hardware_address := hardware_address e; eth_ip_address := eth_ip_address e |}.
Definition set_waiting_packets x (e : EthernetLink) : EthernetLink := {|
  eth_name := eth_name e; neighbor_cache := neighbor_cache e; arp_state := arp_state e; waiting_packets := x; input_buffer := input_buffer e;
  inputs := inputs e; outputs := outputs e; hardware_address := hardware_address e; eth_ip_address := eth_ip_address e |}.
Definition set_input (x : list u8) (y : list Incoming) (e : EthernetLink) : EthernetLink := {|
  eth_name := eth_name e; neighbor_cache := neighbor_cache e; arp_state := arp_state e; waiting_packets := waiting_packets e; input_buffer := x;
  inputs := y; outputs := outputs e; hardware_address := hardware_address e; eth_ip_address := eth_ip_address e |}.
Definition set_outputs x (e : EthernetLink) : EthernetLink := {|
  eth_name := eth_name e; neighbor_cache := neighbor_cache e; arp_state := arp_state e; waiting_packets := waiting_packets e; input_buffer := input_buffer e;
  inputs := inputs e; outputs := x; hardware_address := hardware_address e; eth_ip_address := eth_ip_address e |}.
Definition set_addresses x y (e : EthernetLink) : EthernetLink := {|
  eth_name := eth_name e; neighbor_cache := neighbor_cache e; arp_state := arp_state e; waiting_packets := waiting_packets e; input_buffer := input_buffer e;
  inputs := inputs e; outputs := outputs e; hardware_address := x; eth_ip_address := y |}.
Abbreviation L := (M EthernetLink).

Definition MAX_WAITING_PACKET_COUNT : Z := 10.
Definition ETH_MTU : Z := 1500.
Definition NEIGHBOR_LIVE_TIME : Z := from_secs 60.
Definition ARP_SILENCE_TIME : Z := from_secs 1.

Definition EthernetLink_new (name : string) (file : list Incoming) : EthernetLink := {|
  eth_name := name; neighbor_cache := ∅; arp_state := Discovered;
  waiting_packets := pb_new MAX_WAITING_PACKET_COUNT (ETH_MTU * MAX_WAITING_PACKET_COUNT);
  input_buffer := replicate (Z.to_nat ETH_MTU) x00; inputs := file; outputs := [];
  hardware_address := None; eth_ip_address := None
|}.

Definition send_to (dst : EthernetAddress) (payload : list u8) (proto : EthernetProtocol) : L unit :=
  e ← gets id;
  match hardware_address e with
  | None => mret tt
  | Some hardware_address =>
      modify (set_outputs (outputs e ++ [({| src_addr := hardware_address; dst_addr := dst; ethertype := proto |}, payload)]))
  end.

(** The loop of [drop_waiting_packets]; [again] is what sends the next request, and a turn for each packet is enough. *)
Fixpoint drop_loop (again : L unit) (fuel : nat) (ip : IpAddress) : L unit :=
  q ← gets waiting_packets;
  let '(p, q) := peek q in
  modify (set_waiting_packets q);;
  match p with
  | None => modify (set_arp_state Discovered)
  | Some (dst, _) =>
      if decide (dst = ip) then
        match fuel with
        | O => panic
        | Datatypes.S fuel =>
            q ← gets waiting_packets;
            modify (set_waiting_packets (dequeue q).2);;
            drop_loop again fuel ip
        end
      else modify (set_arp_state (Discovering dst 0 ZERO));; again
  end.

Definition drop_waiting_packets (again : L unit) (ip : IpAddress) : L unit :=
  q ← gets waiting_packets; drop_loop again (length (pb_packets q)) ip.

(** [send_arp], which [drop_waiting_packets] calls again with no tries made *)
Fixpoint send_arp_ (fuel : nat) (now : Z) : L unit :=
  e ← gets id;
  match hardware_address e, eth_ip_address e with
  | Some hardware_address, Some ip_address =>
      match arp_state e with
      | Discovered => mret tt
      | Discovering target tries silent_until =>
          if now <? silent_until then mret tt
          else if 3 <=? tries then
            match fuel with O => panic | Datatypes.S fuel => drop_waiting_packets (send_arp_ fuel now) target end
          else
            let arp_repr := EthernetIpv4 Request hardware_address (cidr_address ip_address) MAC_BROADCAST target in
            modify (set_arp_state (Discovering target (tries + 1) (now + ARP_SILENCE_TIME)));;
            send_to MAC_BROADCAST (arp_emit arp_repr) ProtoArp
      end
  | _, _ => mret tt
  end.
Definition send_arp (now : Z) : L unit := send_arp_ 1 now.

(** The loop of [check_waiting_packets] over the packets that were taken out of the link *)
Fixpoint check_loop (fuel : nat) (ip : IpAddress) (mac : EthernetAddress) (now : Z) (q : PacketBuffer IpAddress) : L (PacketBuffer IpAddress) :=
  let '(p, q) := peek q in
  match p with
  | None => modify (set_arp_state Discovered);; mret q
  | Some (dst, _) =>
      if decide (dst = ip) then
        match fuel with
        | O => panic
        | Datatypes.S fuel =>
            let '(p, q) := dequeue q in
            p ← unwrap p;
            send_to mac p.2 ProtoIpv4;;
            check_loop fuel ip mac now q
        end
      else modify (set_arp_state (Discovering dst 0 ZERO));; send_arp now;; mret q
  end.

Definition check_waiting_packets (ip : IpAddress) (mac : EthernetAddress) (now : Z) : L unit :=
  q ← gets waiting_packets;
  modify (set_waiting_packets (pb_new 0 0));;
  q ← check_loop (length (pb_packets q)) ip mac now q;
  modify (set_waiting_packets q).

Definition handle_missing_neighbor (next_hop : IpAddress) (packet : list u8) (now : Z) : L unit :=
  q ← gets waiting_packets;
  match enqueue next_hop packet q with
  | None => mret tt
  | Some q =>
      modify (set_waiting_packets q);;
      st ← gets arp_state;
      match st with
      | Discovered => modify (set_arp_state (Discovering next_hop 0 ZERO));; send_arp now
      | Discovering _ _ _ => mret tt
      end
  end.

Definition process_arp (packet : list u8) (now : Z) : L unit :=
  e ← gets id;
  match hardware_address e, eth_ip_address e, arp_parse packet with
  | Some hardware_address, Some ip_addr, Some (EthernetIpv4 operation sha spa tha tpa) =>
      let is_unicast_mac := negb (bool_decide (tha = EMPTY_MAC)) && negb (mac_is_broadcast tha) in
      if is_unicast_mac && negb (bool_decide (hardware_address = tha)) then mret tt
      else
        match operation with
        | Unknown _ => mret tt
        | _ =>
            if negb (mac_is_unicast sha) || addr_is_broadcast spa || addr_is_multicast spa || addr_is_unspecified spa then mret tt
            else if negb (bool_decide (cidr_address ip_addr = tpa)) then mret tt
            else
              modify (fun e => set_neighbor_cache (<[spa := {| nb_address := sha; expires_at := now + NEIGHBOR_LIVE_TIME |}]> (neighbor_cache e)) e);;
              (match operation with
               | Request => send_to sha (arp_emit (EthernetIpv4 Reply hardware_address (cidr_address ip_addr) sha spa)) ProtoArp
               | _ => mret tt
               end);;
              check_waiting_packets spa sha now
        end
  | _, _, _ => mret tt
  end.

Definition eth_send (next_hop : IpAddress) (packet : list u8) (now : Z) : L unit :=
  e ← gets id;
  let local_broadcast := match eth_ip_address e ≫= cidr_broadcast with Some addr => bool_decide (addr = next_hop) | None => false end in
  if local_broadcast || addr_is_broadcast next_hop then send_to MAC_BROADCAST packet ProtoIpv4
  else
    match neighbor_cache e !! next_hop with
    | None => handle_missing_neighbor next_hop packet now
    | Some n =>
        if expires_at n <? now then
          modify (set_neighbor_cache (delete next_hop (neighbor_cache e)));; handle_missing_neighbor next_hop packet now
        else send_to (nb_address n) packet ProtoIpv4
    end.

(** The loop of [recv] over what the network file yields, which then blocks; the length that was read is not looked at. *)
Fixpoint recv_loop (file : list Incoming) (hardware_address : EthernetAddress) (now : Z) : L (option (list u8)) :=
  match file with
  | [] => modify (fun e => set_input (input_buffer e) [] e);; send_arp now;; mret None
  | ReadError :: file => modify (fun e => set_input (input_buffer e) file e);; mret None
  | Frame l :: file =>
      b ← gets input_buffer;
      let b := splice 0 (take (length b) l) b in
      modify (set_input b file);;
      match eth_parse b with
      | None => recv_loop file hardware_address now
      | Some repr =>
          if negb (mac_is_broadcast (dst_addr repr)) && negb (bool_decide (dst_addr repr = EMPTY_MAC)) &&
             negb (bool_decide (dst_addr repr = hardware_address))
          then recv_loop file hardware_address now
          else match ethertype repr with
               | ProtoIpv4 => mret (Some (eth_payload b))
               | ProtoArp => process_arp (eth_payload b) now;; recv_loop file hardware_address now
               | ProtoOther _ => recv_loop file hardware_address now
               end
      end
  end.

Definition eth_recv (now : Z) : L (option (list u8)) :=
  e ← gets id;
  match hardware_address e with
  | None => mret None
  | Some hardware_address => recv_loop (inputs e) hardware_address now
  end.

Definition ethernet_device : LinkDevice EthernetLink := {|
  send := eth_send; recv := eth_recv; name := eth_name; can_recv _ := false;
  mac_address := hardware_address;
  set_mac_address addr := modify (fun e => set_addresses (Some addr) (eth_ip_address e) e);
  ip_address := eth_ip_address;
  set_ip_address addr := modify (fun e => set_addresses (hardware_address e) (Some addr) e)
|}.
End ethernet.
