(* ===== verification/NetDriver.v ===== *)
(** * Network drivers: their scheme

    Models [drivers/net/driver-network/src/lib.rs]: the scheme that every network driver serves over its adapter, and its
    tick, which tries the requests that wait again, takes the new ones and tells the readers about packets. *)

From stdpp Require Import base gmap strings list fin_maps sorting.
From Stdlib Require Import ZArith Lia.
From Stdlib Require Import Strings.Byte.
From S2P Require Import Prelude Memory Syscall SchemeApi Readiness Schemes SockServer.

Local Open Scope Z_scope.

(** The trait of adapters.  [read_packet] returns the length, if there is a packet, and the buffer. *)
Class NetworkAdapter (T : Type) := {
  adapter_mac : M T (list u8);
  available_for_read : M T Z;
  read_packet : list u8 -> M T (option Z * list u8);
  write_packet : list u8 -> M T Z
}.

Section driver.
Context {TG : Target} {SC : Syscall} {AB : SchemeAbi} {T : Type} {NA : NetworkAdapter T}.

(** ** The scheme *)

Inductive Handle := Data | Mac.

Record NetworkSchemeInner := { adapter : T; scheme_name : string; next_id : Z; handles : gmap Z Handle }.
Abbreviation I := (M NetworkSchemeInner).

Definition NetworkSchemeInner_new (a : T) (name : string) : NetworkSchemeInner :=
  {| adapter := a; scheme_name := name; next_id := 0; handles := ∅ |}.

Definition set_adapter x (s : NetworkSchemeInner) : NetworkSchemeInner := {| adapter := x; scheme_name := scheme_name s; next_id := next_id s; handles := handles s |}.
Definition set_next_id x (s : NetworkSchemeInner) : NetworkSchemeInner := {| adapter := adapter s; scheme_name := scheme_name s; next_id := x; handles := handles s |}.
Definition set_handles x (s : NetworkSchemeInner) : NetworkSchemeInner := {| adapter := adapter s; scheme_name := scheme_name s; next_id := next_id s; handles := x |}.

(** A method of the adapter *)
Definition on_adapter {A} : M T A -> I A := zoom adapter set_adapter.

(** [self.handles.get(&id).ok_or(EBADF)?] *)
Definition handle_at (id : Z) : I Handle := hs ← gets handles; ok_or EBADF (hs !! id).

Definition open (path : string) (ctx : CallerCtx) : I OpenResult :=
  fail_if (negb (ctx_uid ctx =? 0)) EACCES;;
  '(handle, flags) ← (if bool_decide (path = "") then mret (Data, fd_empty)
                      else if bool_decide (path = "mac") then mret (Mac, fd_POSITIONED)
                      else throw EINVAL : I (Handle * NewFdFlags));
  n ← gets next_id;
  n ← usize_add n 1;
  modify (set_next_id n);;
  modify (fun s => set_handles (<[n := handle]> (handles s)) s);;
  mret (ThisScheme n flags).

(** [&data[offset as usize..]] panics past the end. *)
Definition read (id : Z) (buf : list u8) (offset fcntl_flags : Z) : I (Z * list u8) :=
  handle ← handle_at id;
  match handle with
  | Mac =>
      mac ← on_adapter adapter_mac;
      let off := as_usize offset in
      (if zlen mac <? off then panic else mret tt);;
      let data := drop (Z.to_nat off) mac in
      let i := common_len buf data in
      mret (Z.of_nat i, copy_prefix i data buf)
  | Data =>
      '(r, buf) ← on_adapter (read_packet buf);
      match r with
      | Some count => mret (count, buf)
      | None => if any_set fcntl_flags (as_u32 O_NONBLOCK) then throw EAGAIN else throw EWOULDBLOCK
      end
  end.

Definition write (id : Z) (buf : list u8) : I Z :=
  handle ← handle_at id;
  match handle with
  | Data => on_adapter (write_packet buf)
  | Mac => throw EINVAL
  end.

Definition fevent (id : Z) : I Z := handle_at id;; mret 0.

(** The bytes that fit of a part of the path, from position [i] of the buffer *)
Definition put_part (i : nat) (part buf : list u8) : nat * list u8 :=
  let n := (length part `min` (length buf - i))%nat in ((i + n)%nat, splice i (take n part) buf).

Definition fpath (id : Z) (buf : list u8) : I (Z * list u8) :=
  handle ← handle_at id;
  let prefix_ := as_bytes "/scheme/" in
  let len := common_len buf prefix_ in
  let buf := copy_prefix len prefix_ buf in
  if (len <? length prefix_)%nat then mret (Z.of_nat len, buf)
  else
    name ← gets scheme_name;
    let '(i, buf) := put_part len (as_bytes name) buf in
    let '(i, buf) := put_part i (match handle with Data => [] | Mac => as_bytes "mac" end) buf in
    mret (Z.of_nat i, buf).

Definition with_mode (mode size : Z) : Stat :=
  {| st_mode := mode; st_uid := 0; st_gid := 0; st_ino := 0; st_nlink := 0; st_dev := 0; st_size := size; st_blksize := 0; st_blocks := 0;
     st_atime := 0; st_atime_nsec := 0; st_ctime := 0; st_ctime_nsec := 0; st_mtime := 0; st_mtime_nsec := 0 |}.
(** The modes are 0700 and 0400 in octal. *)
Definition fstat (id : Z) : I Stat :=
  handle ← handle_at id;
  match handle with
  | Data => mret (with_mode (Z.lor MODE_FILE 0x1c0) 0)
  | Mac => mret (with_mode (Z.lor MODE_FILE 0x100) 6)
  end.

Definition fsync (id : Z) : I unit := handle_at id;; mret tt.

Definition on_close (id : Z) : I unit := modify (fun s => set_handles (delete id (handles s)) s).

#[export] Instance network_scheme : SchemeSync NetworkSchemeInner := implement {|
  o_open p _ ctx := open p ctx;
  o_unlinkat := None;
  o_dup := None;
  o_read i buf off fl _ := read i buf off fl;
  o_write i buf _ _ _ := write i buf;
  o_fcntl := None;
  o_fevent := Some (fun i _ _ => fevent i);
  o_fpath i buf _ := fpath i buf;
  o_fstat := Some (fun i _ => fstat i);
  o_fsync := Some (fun i _ => fsync i);
  o_ftruncate := None;
  o_mmap_prep := None;
  o_on_close := on_close
|}.

(** ** The tick *)

Context {WO : SchemeOut}.

(** [NetworkScheme], with the memory of the callers and what the kernel has got *)
Record NetworkScheme := { inner : NetworkSchemeInner; blocked : list (Op * CallerCtx); nd_mem : memory; nd_writes : nat; nd_sent : list Response }.
Abbreviation W := (M NetworkScheme).

Definition NetworkScheme_new (a : T) (name : string) (m : memory) : NetworkScheme :=
  {| inner := NetworkSchemeInner_new a name; blocked := []; nd_mem := m; nd_writes := 0; nd_sent := [] |}.

Definition set_inner (x : NetworkSchemeInner * memory) (w : NetworkScheme) : NetworkScheme :=
  {| inner := x.1; blocked := blocked w; nd_mem := x.2; nd_writes := nd_writes w; nd_sent := nd_sent w |}.
Definition set_blocked x (w : NetworkScheme) : NetworkScheme :=
  {| inner := inner w; blocked := x; nd_mem := nd_mem w; nd_writes := nd_writes w; nd_sent := nd_sent w |}.

Definition on_inner {A} : M (NetworkSchemeInner * memory) A -> W A := zoom (fun w => (inner w, nd_mem w)) set_inner.

(** [socket.write_response(r, ..)] *)
Definition write_response (r : Response) : W bool :=
  n ← gets nd_writes;
  match write_result n with
  | Ok taken => modify (fun w => {| inner := inner w; blocked := blocked w; nd_mem := nd_mem w; nd_writes := n + 1; nd_sent := if taken then nd_sent w ++ [r] else nd_sent w |});; mret taken
  | Err e => throw e
  | Panic => panic
  end.
(** [write_response(..).expect(..)] *)
Definition write_response_expect (r : Response) : W bool := x ← try_ (write_response r); match x with Ok b => mret b | _ => panic end.

Definition post_fevent (id flags : Z) : W unit := b ← write_response (Response_post_fevent id flags); fail_if (negb b) EAGAIN.

(** The loop over the requests that are blocked; each turn goes on or makes the list shorter, so its length is fuel enough. *)
Fixpoint retry_loop (fuel i : nat) : W unit :=
  bs ← gets blocked;
  match bs !! i with
  | None => mret tt
  | Some (op, caller) =>
      match fuel with
      | O => panic
      | S fuel =>
          res ← on_inner (handle_sync_dont_consume op caller);
          if would_block res && negb (is_explicitly_nonblock op) then retry_loop fuel (i + 1)
          else
            modify (fun w => set_blocked (delete i (blocked w)) w);;
            write_response_expect (respond res op);;
            retry_loop fuel i
      end
  end.

(** The position of the first request that is blocked with the tag *)
Definition position (id : Z) (bs : list (Op * CallerCtx)) : option (nat * (Op * CallerCtx)) := list_find (fun b => into_tag b.1 = id) bs.

Definition handle_request (request : Request) : W unit :=
  match kind request with
  | RK_Call req =>
      op ← lift (from_sqe_unchecked req);
      match op with
      | None => write_response (Response_err EOPNOTSUPP (sqe_tag req));; mret tt
      | Some op =>
          res ← on_inner (handle_sync_dont_consume op (caller req));
          if would_block res && negb (is_explicitly_nonblock op) then modify (fun w => set_blocked (blocked w ++ [(op, caller req)]) w)
          else write_response (respond res op);; mret tt
      end
  | RK_OnClose id => zoom inner (fun s w => set_inner (s, nd_mem w) w) (on_close id)
  | RK_Cancellation id =>
      bs ← gets blocked;
      match position id bs with
      | Some (i, (op, _)) =>
          modify (fun w => set_blocked (delete i (blocked w)) w);;
          write_response (Response_new (Err EINTR) (into_tag op));; mret tt
      | None => mret tt
      end
  | _ => mret tt
  end.

(** The requests that there are; the socket is empty then, or fails. *)
Fixpoint handle_requests (requests : list Request) : W unit :=
  match requests with [] => mret tt | request :: requests => handle_request request;; handle_requests requests end.

Fixpoint post_fevents (ids : list Z) : W unit :=
  match ids with [] => mret tt | id :: ids => post_fevent id EVENT_READ;; post_fevents ids end.

Definition tick (requests : list Request) (end_ : outcome unit) : W unit :=
  n ← gets (fun w => length (blocked w));
  retry_loop n 0;;
  handle_requests requests;;
  lift end_;;
  available ← zoom inner (fun s w => set_inner (s, nd_mem w) w) (on_adapter available_for_read);
  if 0 <? available then
    ids ← gets (fun w => merge_sort Z.le (map fst (map_to_list (handles (inner w)))));
    post_fevents ids
  else mret tt.
End driver.
