(* ===== verification/Router.v ===== *)
(** * netstack: the router

    Models [netstack/src/router/mod.rs]: the device that [smoltcp] sends to and receives from, which
    is made of the link devices and the routing table, and the list of devices of [link/mod.rs]. *)

From stdpp Require Import base gmap strings list fin_maps.
From Stdlib Require Import ZArith Lia.
From Stdlib Require Import Strings.Byte.
From S2P Require Import Prelude Syscall Netstack Sockets SockProto Link.

Local Open Scope Z_scope.

(** [Ipv4Packet]: [new_checked], the addresses, and [set_src_addr] followed by [fill_checksum] *)
Class PacketFields {IP : IpApi} := {
  packet_ok : list u8 -> bool;
  packet_dst : list u8 -> IpAddress; packet_src : list u8 -> IpAddress;
  packet_set_src : IpAddress -> list u8 -> list u8
}.

Section router.
Context {TG : Target} {SC : Syscall} {IP : IpApi} {MA : MacApi} {PA : PacketApi} {PF : PacketFields}.
Context {D : Type} {LD : LinkDevice D}.

(** [Router]; the routing table is shared with others. *)
Record Router := { rx_buffer : PacketBuffer unit; tx_buffer : PacketBuffer unit; devices : list D; routes : list Rule }.

Definition set_rx_buffer x (r : Router) : Router := {| rx_buffer := x; tx_buffer := tx_buffer r; devices := devices r; routes := routes r |}.
Definition set_tx_buffer x (r : Router) : Router := {| rx_buffer := rx_buffer r; tx_buffer := x; devices := devices r; routes := routes r |}.
Definition set_devices x (r : Router) : Router := {| rx_buffer := rx_buffer r; tx_buffer := tx_buffer r; devices := x; routes := routes r |}.
Abbreviation R := (M Router).

Definition Router_new (devs : list D) (table : list Rule) : Router :=
  {| rx_buffer := pb_new SOCKET_BUFFER_SIZE (MTU * SOCKET_BUFFER_SIZE); tx_buffer := pb_new SOCKET_BUFFER_SIZE (MTU * SOCKET_BUFFER_SIZE);
     devices := devs; routes := table |}.

Definition router_can_recv (r : Router) : bool := existsb can_recv (devices r).

(** A method of the [i]th device *)
Definition on_device {A} (i : nat) (m : M D A) : R A := fun r =>
  match devices r !! i with
  | Some d => let '(o, d) := m d in (o, set_devices (<[i := d]> (devices r)) r)
  | None => (Panic, r)
  end.

(** The inner loop of [poll]; [fuel] bounds the packets of the device. *)
Fixpoint receive_loop (fuel : nat) (i : nat) (now : Z) : R unit :=
  q ← gets rx_buffer;
  if is_full q then mret tt
  else
    match fuel with
    | O => panic
    | Datatypes.S fuel =>
        buf ← on_device i (recv now);
        match buf with
        | None => mret tt
        | Some buf =>
            q ← unwrap (enqueue tt buf q);
            modify (set_rx_buffer q);;
            receive_loop fuel i now
        end
    end.

Fixpoint poll_devices (fuel : nat) (idx : list nat) (now : Z) : R unit :=
  match idx with
  | [] => mret tt
  | i :: idx =>
      q ← gets rx_buffer;
      if is_full q then mret tt else receive_loop fuel i now;; poll_devices fuel idx now
  end.

(** [poll] *)
Definition router_poll (fuel : nat) (now : Z) : R unit :=
  n ← gets (fun r => length (devices r)); poll_devices fuel (seq 0 n) now.

Fixpoint broadcast (idx : list nat) (dst : IpAddress) (packet : list u8) (now : Z) : R unit :=
  match idx with [] => mret tt | i :: idx => on_device i (send dst packet now);; broadcast idx dst packet now end.

(** One turn of [dispatch]: a packet is sent to every device, to that of its route, or dropped. *)
Definition dispatch_packet (packet : list u8) (now : Z) : R unit :=
  if negb (packet_ok packet) then mret tt
  else
    let dst := packet_dst packet in
    n ← gets (fun r => length (devices r));
    if addr_is_broadcast dst then broadcast (seq 0 n) dst packet now
    else
      table ← gets routes;
      match lookup_rule table dst with
      | None => mret tt
      | Some rule =>
          let next_hop := default dst (via rule) in
          devs ← gets devices;
          match find_device (dev rule) devs with
          | None => mret tt
          | Some i =>
              let packet := if decide (src rule = packet_src packet) then packet else packet_set_src (src rule) packet in
              on_device i (send next_hop packet now)
          end
      end.

(** [dispatch]; a turn for each packet is enough. *)
Fixpoint dispatch_loop (fuel : nat) (now : Z) : R unit :=
  q ← gets tx_buffer;
  let '(p, q) := dequeue q in
  modify (set_tx_buffer q);;
  match p with
  | None => mret tt
  | Some (_, packet) =>
      match fuel with
      | O => panic
      | Datatypes.S fuel => dispatch_packet packet now;; dispatch_loop fuel now
      end
  end.
Definition dispatch (now : Z) : R unit := n ← gets (fun r => length (pb_packets (tx_buffer r))); dispatch_loop n now.

(** [Device for Router]: a packet that came in, and room for one to go out *)
Definition receive_ready (r : Router) : bool :=
  negb (match pb_packets (rx_buffer r) with [] => true | _ => false end) && negb (is_full (tx_buffer r)).
Definition transmit_ready (r : Router) : bool := negb (is_full (tx_buffer r)).
Definition rx_consume : R (list u8) :=
  q ← gets rx_buffer;
  let '(p, q) := dequeue q in
  modify (set_rx_buffer q);; p ← unwrap p; mret p.2.
Definition tx_consume (packet : list u8) : R unit :=
  q ← gets tx_buffer; q ← unwrap (enqueue tt packet q); modify (set_tx_buffer q).
End router.
Arguments Router {IP PA} D.
