(* ===== verification/LinkFacts.v ===== *)
(** * netstack: facts about the ethernet link

    The ARP state machine of the ethernet link: what waits is being resolved and does not wait for ever, and a packet that is
    sent goes out at most once, to an address that its next hop has announced. *)

From stdpp Require Import base gmap strings list fin_maps.
From Stdlib Require Import ZArith Lia.
From Stdlib Require Import Strings.Byte.
From S2P Require Import Prelude Syscall Netstack Sockets SockProto Link.

Local Open Scope Z_scope.

Section ethernet.
Context {TG : Target} {SC : Syscall} {IP : IpApi} {WA : WireApi} {MA : MacApi} {FA : FrameApi} {PA : PacketApi} {PL : PacketLaws PA}.
Implicit Types e : EthernetLink.

(** The packets that wait, with their next hops *)
Definition waiting e : list (IpAddress * list u8) := pb_packets (waiting_packets e).

(** What is being resolved is the next hop of the first packet that waits. *)
Definition resolving (l : list (IpAddress * list u8)) (st : ArpState) : Prop :=
  match l with
  | [] => st = Discovered
  | (dst, _) :: _ => exists tries silent, st = Discovering dst tries silent /\ 0 <= tries <= 3
  end.

Definition arp_inv e : Prop := resolving (waiting e) (arp_state e).

(** An abbreviation for the goals: no panic, and a property of the state *)
Definition safely {A} (P : EthernetLink -> Prop) (o : outcome A) e : Prop := o <> Panic /\ P e.

(** ** Frames *)

(** What sending a frame does to the outputs *)
Definition framed (dst : EthernetAddress) (payload : list u8) (proto : EthernetProtocol) e : list (EthernetRepr * list u8) :=
  match hardware_address e with
  | Some h => [({| src_addr := h; dst_addr := dst; ethertype := proto |}, payload)]
  | None => []
  end.

Lemma send_to_eq dst payload proto e : send_to dst payload proto e = (Ok tt, set_outputs (outputs e ++ framed dst payload proto e) e).
Proof.
  unfold send_to, framed, gets, mbind, M_bind. cbn. destruct (hardware_address e) eqn:E; cbn; [done |].
  rewrite app_nil_r. by destruct e.
Qed.

Lemma send_to_wp dst payload proto (Q : outcome unit -> EthernetLink -> Prop) e :
  Q (Ok tt) (set_outputs (outputs e ++ framed dst payload proto e) e) -> wp (send_to dst payload proto) Q e.
Proof. intros HQ. unfold wp. by rewrite send_to_eq. Qed.

(** ** The requests *)

(** What the requests leave alone; they write frames of ARP only. *)
Definition kept e e' : Prop :=
  eth_name e' = eth_name e /\ neighbor_cache e' = neighbor_cache e /\ input_buffer e' = input_buffer e /\ inputs e' = inputs e /\
  hardware_address e' = hardware_address e /\ eth_ip_address e' = eth_ip_address e /\
  exists l, outputs e' = outputs e ++ l /\ Forall (fun p => ethertype p.1 = ProtoArp) l.

Lemma kept_refl e : kept e e.
Proof. repeat split. exists []. by rewrite app_nil_r. Qed.

Lemma kept_trans e1 e2 e3 : kept e1 e2 -> kept e2 e3 -> kept e1 e3.
Proof.
  intros (A1 & A2 & A3 & A4 & A5 & A6 & l & A7 & A8) (B1 & B2 & B3 & B4 & B5 & B6 & l' & B7 & B8).
  repeat split; try congruence. exists (l ++ l'). rewrite B7, A7, app_assoc. split; [done | by apply Forall_app].
Qed.

(** Both addresses are set. *)
Definition configured e : Prop := is_Some (hardware_address e) /\ is_Some (eth_ip_address e).

Lemma kept_configured e e' : kept e e' -> configured e -> configured e'.
Proof. unfold configured. by intros (_ & _ & _ & _ & -> & -> & _). Qed.

(** A request is due at [now]: it is sent, and counted. *)
Definition counts (now tries silent tries' silent' : Z) : Prop := tries' = tries + 1 /\ silent' = now + ARP_SILENCE_TIME.

(** A target that was tried less than three times *)
Lemma send_arp_fresh fuel now e dst tries silent :
  arp_state e = Discovering dst tries silent -> 0 <= tries < 3 ->
  wp (send_arp_ fuel now) (fun o e' => o = Ok tt /\ waiting_packets e' = waiting_packets e /\ kept e e' /\
    exists tries' silent', arp_state e' = Discovering dst tries' silent' /\ 0 <= tries' <= 3 /\
      (configured e -> silent <= now -> counts now tries silent tries' silent') /\ (now < silent -> tries' = tries /\ silent' = silent)) e.
Proof.
  intros Hst Ht. assert (forall (H : configured e -> now < silent), Ok tt = Ok tt /\ waiting_packets e = waiting_packets e /\ kept e e /\
    exists tries' silent', arp_state e = Discovering dst tries' silent' /\ 0 <= tries' <= 3 /\
      (configured e -> silent <= now -> counts now tries silent tries' silent') /\ (now < silent -> tries' = tries /\ silent' = silent)) as Hsame.
  { intros H. split_and!; [done | done | apply kept_refl |]. exists tries, silent. split_and!; [done | lia | lia | | done]; intros Hc Hn; specialize (H Hc); lia. }
  destruct fuel; cbn [send_arp_]; apply wp_bind, wp_gets; cbn [id];
    (destruct (hardware_address e) as [h |] eqn:Hh; [| apply wp_ret, Hsame; intros [[? ?] _]; congruence]);
    (destruct (eth_ip_address e) as [i |] eqn:Hi; [| apply wp_ret, Hsame; intros [_ [? ?]]; congruence]); rewrite Hst;
    (destruct (Z.ltb_spec now silent); [apply wp_ret, Hsame; intros; lia |]); rewrite (proj2 (Z.leb_gt 3 tries)) by lia;
    apply wp_bind, wp_modify, send_to_wp.
  all: unfold framed; cbn; rewrite Hh; split_and!; [done | done | | exists (tries + 1), (now + ARP_SILENCE_TIME); split_and!; [done | lia | lia | done | lia..]].
  all: repeat split; eexists; (split; [reflexivity | by repeat constructor]).
Qed.

Lemma waiting_state st e : waiting (set_arp_state st e) = waiting e.
Proof. done. Qed.

(** Asking for the next hop of the first packet *)
Definition asks_for (now : Z) (l : list (IpAddress * list u8)) e' : Prop :=
  match l with
  | [] => arp_state e' = Discovered
  | (dst, _) :: _ => exists tries silent, arp_state e' = Discovering dst tries silent /\ 0 <= tries <= 3 /\
      (configured e' -> ZERO <= now -> counts now 0 ZERO tries silent)
  end.

Lemma asks_resolving now l e' : asks_for now l e' -> resolving l (arp_state e').
Proof. destruct l as [| [dst p] l]; [done |]. intros (t & x & H1 & H2 & _). by exists t, x. Qed.

Lemma ask_wp f now dst p l e : waiting e = (dst, p) :: l ->
  wp (modify (set_arp_state (Discovering dst 0 ZERO));; send_arp_ f now)
    (fun o e' => o = Ok tt /\ kept e e' /\ waiting_packets e' = waiting_packets e /\ asks_for now (waiting e) e') e.
Proof.
  intros Hw. apply wp_bind, wp_modify. eapply wp_mono; [| by apply (send_arp_fresh f now _ dst 0 ZERO)].
  intros o e' (-> & Hq & Hk & t & x & H1 & H2 & H3 & _). split_and!; [done | exact Hk | exact Hq |]. rewrite Hw. exists t, x. split_and!; [done | lia | lia |].
  destruct Hk as (_ & _ & _ & _ & E1 & E2 & _). unfold configured in *. rewrite E1, E2. exact H3.
Qed.

(** The packets to a next hop that does not answer are dropped, and the next hop of the packet behind them is asked for. *)
Definition dropped_to (ip : IpAddress) (now : Z) e e' : Prop :=
  kept e e' /\ asks_for now (waiting e') e' /\
  exists dropped, waiting e = dropped ++ waiting e' /\ Forall (fun p => p.1 = ip) dropped /\ (forall x, head (waiting e') = Some x -> x.1 <> ip).

Lemma drop_loop_wp f now ip : forall fuel e, (length (waiting e) <= fuel)%nat ->
  wp (drop_loop (send_arp_ f now) fuel ip) (fun o e' => o = Ok tt /\ dropped_to ip now e e') e.
Proof.
  induction fuel as [| fuel IH]; intros e Hl; cbn [drop_loop]; apply wp_bind, wp_gets; destruct (packets_peek _ (waiting_packets e)) as [Hp Hq];
    destruct (peek (waiting_packets e)) as [p q]; cbn [fst snd] in *; subst p; apply wp_bind, wp_modify; set (e1 := set_waiting_packets q e);
    (assert (waiting e1 = waiting e) as Hw by exact Hq); fold (waiting e) in *;
    (destruct (waiting e) as [| [dst p] l] eqn:Hwe; cbn [head];
     [apply wp_modify; split; [done |]; split; [apply (kept_refl e) |]; rewrite waiting_state, Hw; split; [done | by exists []] |]);
    [by cbn in Hl; lia |].
  case_decide as Hd.
  - apply wp_bind, wp_gets, wp_bind, wp_modify. set (e2 := set_waiting_packets _ e1).
    assert (waiting e2 = l) as Hw2. { destruct (packets_dequeue _ (waiting_packets e1)) as [_ E]. fold (waiting e1) in E. rewrite Hw in E. exact E. }
    eapply wp_mono; [| apply IH; rewrite Hw2; cbn in Hl; lia]. intros o e' (-> & Hk & Ha & dropped & H1 & H2 & H3). split; [done |].
    split; [exact Hk |]. split; [done |]. exists ((dst, p) :: dropped). rewrite Hwe, <- Hw2, H1. split_and!; [done | by constructor | done].
  - eapply wp_mono; [| by eapply ask_wp]. intros o e' (-> & Hk & Hq' & Ha). split; [done |]. split; [exact Hk |].
    assert (waiting e' = waiting e1) as E by (unfold waiting; by rewrite Hq'). rewrite E, Hw in *. split; [done |]. exists [].
    split_and!; [by rewrite Hwe | done |]. by intros x [= <-].
Qed.
(** How many turns without an answer it takes at most until nothing waits, and from when on the next request is due *)
Definition patience e : Z := 4 * zlen (waiting e) - match arp_state e with Discovering _ tries _ => tries | Discovered => 0 end.
Definition due e : Z := match arp_state e with Discovering _ _ silent => silent | Discovered => ZERO end.

Lemma send_arp_wp now e : arp_inv e ->
  wp (send_arp now) (fun o e' => o = Ok tt /\ kept e e' /\ arp_inv e' /\ (exists dropped, waiting e = dropped ++ waiting e') /\
    (configured e -> ZERO <= now -> due e <= now -> (waiting e' <> [] -> patience e' < patience e) /\ due e' <= now + ARP_SILENCE_TIME)) e.
Proof.
  intros Hinv. unfold arp_inv in Hinv. destruct (waiting e) as [| [dst p] l] eqn:Hw; cbn [resolving] in Hinv.
  - unfold send_arp. cbn [send_arp_]. apply wp_bind, wp_gets. cbn [id]. rewrite Hinv.
    assert (Ok tt = Ok tt /\ kept e e /\ arp_inv e /\ (exists dropped, [] = dropped ++ waiting e) /\
      (configured e -> ZERO <= now -> due e <= now -> (waiting e <> [] -> patience e < patience e) /\ due e <= now + ARP_SILENCE_TIME)) as H.
    { split_and!; [done | apply kept_refl | unfold arp_inv; by rewrite Hw | exists []; by rewrite Hw |]. intros _ _ Hd. split; [by rewrite Hw |].
      unfold ARP_SILENCE_TIME, from_secs. lia. }
    by repeat case_match; apply wp_ret.
  - destruct Hinv as (t & x & Hst & Ht). destruct (decide (t < 3)) as [Hlt |].
    + eapply wp_mono; [| apply (send_arp_fresh 1 now e dst t x Hst); lia]. intros o e' (-> & Hq & Hk & t' & x' & H1 & H2 & H3 & _).
      assert (waiting e' = waiting e) as E by (unfold waiting; by rewrite Hq). split_and!; [done | done | | exists []; by rewrite E |].
      * unfold arp_inv. rewrite E, Hw. exists t', x'. by split.
      * intros Hc _ Hd. unfold due, patience in *. rewrite E, Hst, H1 in *. destruct (H3 Hc Hd) as [-> ->]. split; [intros _; lia | lia].
    + assert (t = 3) as -> by lia. unfold send_arp. cbn [send_arp_]. apply wp_bind, wp_gets. cbn [id]. rewrite Hst.
      assert (Ok tt = Ok tt /\ kept e e /\ arp_inv e /\ exists dropped, (dst, p) :: l = dropped ++ waiting e) as (_ & K1 & K2 & K3).
      { split_and!; [done | apply kept_refl | unfold arp_inv; rewrite Hw; by exists 3, x | exists []; by rewrite Hw]. }
      assert (forall H : configured e -> x <= now -> False, wp (mret tt) (fun o e' => o = Ok tt /\ kept e e' /\ arp_inv e' /\ (exists dropped, (dst, p) :: l = dropped ++ waiting e') /\
        (configured e -> ZERO <= now -> due e <= now -> (waiting e' <> [] -> patience e' < patience e) /\ due e' <= now + ARP_SILENCE_TIME)) e) as Hstay.
      { intros H. apply wp_ret. split_and!; try done. intros Hc _ Hd. unfold due in Hd. rewrite Hst in Hd. by destruct (H Hc). }
      destruct (hardware_address e) as [h |] eqn:Hh; [| apply Hstay; intros [[? ?] _]; congruence].
      destruct (eth_ip_address e) as [i |] eqn:Hi; [| apply Hstay; intros [_ [? ?]]; congruence].
      destruct (Z.ltb_spec now x); [apply Hstay; intros; lia |]. cbn [Z.leb Z.compare].
      unfold drop_waiting_packets. apply wp_bind, wp_gets. eapply wp_mono; [| by apply (drop_loop_wp 0 now dst)].
      intros o e' (-> & Hk & Ha & dropped & H1 & H2 & H3). rewrite Hw in H1.
      split_and!; [done | done | by apply asks_resolving with now | by exists dropped |]. intros Hc Hz Hd. unfold patience, due.
      rewrite Hw, Hst. destruct (waiting e') as [| [dst' p'] l'] eqn:Hw'; cbn [asks_for] in Ha.
      * rewrite Ha. split; [done |]. unfold ARP_SILENCE_TIME, from_secs, ZERO. unfold ZERO in Hz. lia.
      * destruct Ha as (t' & x' & E1 & E2 & E3). rewrite E1. destruct (E3 (kept_configured _ _ Hk Hc) Hz) as [-> ->]. split; [| lia]. intros _.
        destruct dropped as [| d dropped]; [cbn in H1; injection H1 as <- <-; by destruct (H3 _ eq_refl) |].
        apply (f_equal length) in H1. rewrite length_app in H1. unfold zlen in *. cbn [length] in *. lia.
Qed.
(** ** What was sent *)

#[export] Instance ethertype_eq : EqDecision EthernetProtocol.
Proof. solve_decision. Defined.

(** The packets that were written to the network file, with the hardware address that they were written to *)
Definition frames_of (l : list (EthernetRepr * list u8)) : list (EthernetAddress * list u8) :=
  (fun f => (dst_addr f.1, f.2)) <$> filter (fun f => ethertype f.1 = ProtoIpv4) l.
Definition ipv4_frames e : list (EthernetAddress * list u8) := frames_of (outputs e).

Lemma frames_app l l' : frames_of (l ++ l') = frames_of l ++ frames_of l'.
Proof. unfold frames_of. by rewrite filter_app, fmap_app. Qed.

Lemma frames_arp l : Forall (fun p : EthernetRepr * list u8 => ethertype p.1 = ProtoArp) l -> frames_of l = [].
Proof.
  unfold frames_of. induction 1 as [| x l Hx Hl IH]; [done |]. rewrite filter_cons_False; [done |]. rewrite Hx. done.
Qed.

Lemma kept_frames e e' : kept e e' -> ipv4_frames e' = ipv4_frames e.
Proof. intros (_ & _ & _ & _ & _ & _ & l & H1 & H2). unfold ipv4_frames. rewrite H1, frames_app, (frames_arp l) by done. by rewrite app_nil_r. Qed.
(** The packets that wait for a next hop are sent to its address. *)
Definition released (ip : IpAddress) (mac : EthernetAddress) (l l' : list (IpAddress * list u8)) e e' : Prop :=
  neighbor_cache e' = neighbor_cache e /\ input_buffer e' = input_buffer e /\ inputs e' = inputs e /\
  hardware_address e' = hardware_address e /\ eth_ip_address e' = eth_ip_address e /\
  exists sent, l = sent ++ l' /\ Forall (fun p => p.1 = ip) sent /\ ipv4_frames e' = ipv4_frames e ++ ((fun p => (mac, p.2)) <$> sent).

Lemma check_loop_wp ip mac now : forall fuel q e, (length (pb_packets q) <= fuel)%nat -> is_Some (hardware_address e) ->
  wp (check_loop fuel ip mac now q) (fun o e' => exists q', o = Ok q' /\ resolving (pb_packets q') (arp_state e') /\
    released ip mac (pb_packets q) (pb_packets q') e e') e.
Proof.
  induction fuel as [| fuel IH]; intros q e Hl [h Hh]; cbn [check_loop]; destruct (packets_peek _ q) as [Hp Hq];
    destruct (peek q) as [p q1]; cbn [fst snd] in *; subst p; rewrite <- Hq in *;
    (destruct (pb_packets q1) as [| [dst p] l] eqn:Hw; cbn [head];
     [apply wp_bind, wp_modify, wp_ret; exists q1; rewrite Hw; split_and!; [done | done | unfold released; split_and!; try done; exists []; split_and!; [done | done | by rewrite app_nil_r]] |]);
    [by cbn in Hl; lia |].
  case_decide as Hd.
  - destruct (packets_dequeue _ q1) as [H1 H2]. destruct (dequeue q1) as [r q2]. cbn [fst snd] in *. subst r. rewrite Hw in *. cbn [head tail] in *.
    apply wp_bind, wp_ret, wp_bind, send_to_wp. cbn [snd]. eapply wp_mono; [| apply IH; [rewrite H2; cbn in Hl; lia | by exists h]].
    intros o e' (q' & -> & R1 & R2 & R3 & R4 & R5 & R6 & sent & R7 & R8 & R9). exists q'. split_and!; [done | done |].
    unfold released. split_and!; try done. exists ((dst, p) :: sent). rewrite <- H2, R7, R9. split_and!; [done | by constructor |].
    unfold ipv4_frames at 1, framed. cbn [outputs set_outputs]. rewrite Hh, frames_app. unfold frames_of at 2. rewrite filter_cons_True by done. cbn.
    by rewrite <- app_assoc.
  - apply wp_bind, wp_modify, wp_bind. eapply wp_mono; [| by apply (send_arp_fresh 1 now _ dst 0 ZERO)].
    intros o e' (-> & Hq' & Hk & t & x & H1 & H2 & _). apply wp_ret. exists q1. rewrite Hw. split_and!; [done | by exists t, x |].
    pose proof (kept_frames _ _ Hk) as Hf. destruct Hk as (_ & K1 & K2 & K3 & K4 & K5 & _). unfold released. split_and!; try done.
    exists []. split_and!; [done | done |]. rewrite app_nil_r. exact Hf.
Qed.

(** ** Announcements *)

(** The next hop and the hardware address that an ARP packet announces, when the link takes it *)
Definition announcement (h : EthernetAddress) (cidr : IpCidr) (packet : list u8) : option (IpAddress * EthernetAddress) :=
  match arp_parse packet with
  | Some (EthernetIpv4 operation sha spa tha tpa) =>
      if negb (bool_decide (tha = EMPTY_MAC)) && negb (mac_is_broadcast tha) && negb (bool_decide (h = tha)) then None
      else match operation with
           | Unknown _ => None
           | _ =>
               if negb (mac_is_unicast sha) || addr_is_broadcast spa || addr_is_multicast spa || addr_is_unspecified spa ||
                  negb (bool_decide (cidr_address cidr = tpa)) then None else Some (spa, sha)
           end
  | _ => None
  end.

(** The announcement of a packet for a link *)
Definition heard e packet : option (IpAddress * EthernetAddress) :=
  match hardware_address e, eth_ip_address e with Some h, Some i => announcement h i packet | _, _ => None end.

(** What a packet of ARP does *)
Definition arp_done (now : Z) packet e e' : Prop :=
  match heard e packet with
  | None => e' = e
  | Some (spa, sha) =>
      arp_inv e' /\ exists e1, neighbor_cache e1 = <[spa := {| nb_address := sha; expires_at := now + NEIGHBOR_LIVE_TIME |}]> (neighbor_cache e) /\
        input_buffer e1 = input_buffer e /\ inputs e1 = inputs e /\ hardware_address e1 = hardware_address e /\ eth_ip_address e1 = eth_ip_address e /\
        ipv4_frames e1 = ipv4_frames e /\ released spa sha (waiting e) (waiting e') e1 e'
  end.

Lemma check_waiting_wp ip mac now e : is_Some (hardware_address e) ->
  wp (check_waiting_packets ip mac now) (fun o e' => o = Ok tt /\ arp_inv e' /\ released ip mac (waiting e) (waiting e') e e') e.
Proof.
  intros Hh. unfold check_waiting_packets. apply wp_bind, wp_gets, wp_bind, wp_modify, wp_bind. eapply wp_mono; [| by apply check_loop_wp].
  intros o e' (q & -> & H1 & H2). apply wp_modify. split_and!; [done | exact H1 | exact H2].
Qed.

Lemma process_arp_wp packet now e : wp (process_arp packet now) (fun o e' => o = Ok tt /\ arp_done now packet e e') e.
Proof.
  unfold process_arp, arp_done, heard, announcement. apply wp_bind, wp_gets. cbn [id].
  destruct (hardware_address e) as [h |] eqn:Hh; [| by apply wp_ret]. destruct (eth_ip_address e) as [i |] eqn:Hi; [| by apply wp_ret].
  destruct (arp_parse packet) as [[operation sha spa tha tpa |] |]; [| by apply wp_ret | by apply wp_ret].
  destruct (negb (bool_decide (tha = EMPTY_MAC)) && negb (mac_is_broadcast tha) && negb (bool_decide (h = tha))); [by apply wp_ret |].
  destruct operation as [ | | n]; [ | | by apply wp_ret].
  all: destruct (negb (mac_is_unicast sha) || addr_is_broadcast spa || addr_is_multicast spa || addr_is_unspecified spa); cbn [orb]; [by apply wp_ret |].
  all: destruct (negb (bool_decide (cidr_address i = tpa))); [by apply wp_ret |].
  all: apply wp_bind, wp_modify, wp_bind.
  1: apply send_to_wp.
  2: apply wp_ret.
  all: eapply wp_mono; [| apply check_waiting_wp; cbn; by exists h]; intros o e' (-> & H1 & H2); split; [done |]; split; [done |].
  all: eexists; split_and!; [| | | | | | exact H2]; try done.
  unfold ipv4_frames at 1, framed. cbn [outputs set_outputs set_neighbor_cache]. rewrite frames_app. unfold frames_of at 2. cbn. rewrite Hh.
  rewrite filter_cons_False by done. by rewrite app_nil_r.
Qed.
(** ** Sending *)

(** The link apart from the requests, and the packets *)
Definition steady_link e e' : Prop :=
  input_buffer e' = input_buffer e /\ inputs e' = inputs e /\ hardware_address e' = hardware_address e /\ eth_ip_address e' = eth_ip_address e.

Lemma kept_steady e e' : kept e e' -> steady_link e e'.
Proof. intros (_ & _ & H1 & H2 & H3 & H4 & _). by unfold steady_link. Qed.

Lemma handle_missing_wp hop packet now e : arp_inv e ->
  wp (handle_missing_neighbor hop packet now) (fun o e' => o = Ok tt /\ arp_inv e' /\ steady_link e e' /\ neighbor_cache e' = neighbor_cache e /\
    ipv4_frames e' = ipv4_frames e /\ (waiting e' = waiting e ++ [(hop, packet)] \/ waiting e' = waiting e)) e.
Proof.
  intros Hinv. unfold handle_missing_neighbor. apply wp_bind, wp_gets. destruct (enqueue hop packet (waiting_packets e)) as [q |] eqn:Hq.
  2:{ apply wp_ret. split_and!; [done | done | done | done | done | by right]. }
  apply packets_enqueue in Hq. fold (waiting e) in Hq. apply wp_bind, wp_modify, wp_bind, wp_gets. cbn [arp_state set_waiting_packets].
  unfold arp_inv in Hinv. destruct (arp_state e) as [| target tries silent] eqn:Hst.
  - destruct (waiting e) as [| [dst p] l]; [| by destruct Hinv as (? & ? & ? & _)]. apply wp_bind, wp_modify.
    eapply wp_mono; [| by apply (send_arp_fresh 1 now _ hop 0 ZERO)]. intros o e' (-> & Hq' & Hk & t & x & H1 & H2 & _).
    pose proof (kept_frames _ _ Hk) as Hf. assert (waiting e' = [(hop, packet)]) as E by (unfold waiting; by rewrite Hq').
    split_and!; [done | | exact (kept_steady _ _ Hk) | apply Hk | exact Hf | by left]. unfold arp_inv. rewrite E. by exists t, x.
  - apply wp_ret. split_and!; [done | | done | done | done | by left]. unfold arp_inv, waiting. cbn. rewrite Hq, Hst.
    destruct (waiting e) as [| [dst p] l]; [by cbn in Hinv |]. exact Hinv.
Qed.

Definition broadcasts (hop : IpAddress) : Prop := addr_is_broadcast hop = true \/ exists cidr, cidr_broadcast cidr = Some hop.

(** A packet is written once to the address of its next hop or to all, or it waits, or it is dropped. *)
Definition sending (hop : IpAddress) (packet : list u8) e (o : outcome unit) e' : Prop :=
  o = Ok tt /\ arp_inv e' /\ steady_link e e' /\ neighbor_cache e' ⊆ neighbor_cache e /\
    ((exists mac, (mac = MAC_BROADCAST /\ broadcasts hop \/ exists n, neighbor_cache e !! hop = Some n /\ nb_address n = mac) /\
        ipv4_frames e' = ipv4_frames e ++ [(mac, packet)] /\ waiting e' = waiting e) \/
     ipv4_frames e' = ipv4_frames e /\ (waiting e' = waiting e ++ [(hop, packet)] \/ waiting e' = waiting e)).

Lemma eth_send_wp hop packet now e : arp_inv e ->
  wp (eth_send hop packet now) (sending hop packet e) e.
Proof.
  intros Hinv. unfold eth_send. apply wp_bind, wp_gets. cbn [id].
  assert (forall mac, (mac = MAC_BROADCAST /\ broadcasts hop \/ exists n, neighbor_cache e !! hop = Some n /\ nb_address n = mac) ->
    wp (send_to mac packet ProtoIpv4) (sending hop packet e) e) as Hsend.
  { intros mac Hmac. apply send_to_wp. split_and!; [done | done | done | done |]. unfold ipv4_frames, framed. cbn [outputs set_outputs].
    destruct (hardware_address e) as [h |]; [left | right; rewrite app_nil_r; split; [done | by right]].
    exists mac. split_and!; [done | | done]. rewrite frames_app. unfold frames_of at 2. by rewrite filter_cons_True. }
  assert (forall e1, arp_inv e1 -> steady_link e e1 -> neighbor_cache e1 ⊆ neighbor_cache e -> ipv4_frames e1 = ipv4_frames e -> waiting e1 = waiting e ->
    wp (handle_missing_neighbor hop packet now) (sending hop packet e) e1) as Hmiss.
  { intros e1 H1 (S1 & S2 & S3 & S4) H3 H4 H5. eapply wp_mono; [| by apply handle_missing_wp]. intros o e' (-> & G1 & (T1 & T2 & T3 & T4) & G3 & G4 & G5).
    split_and!; [done | done | unfold steady_link; split_and!; congruence | by rewrite G3 |]. right. rewrite G4, H4. split; [done |].
    rewrite H5 in G5. destruct G5; [by left | by right]. }
  match goal with |- wp (if ?b then _ else _) _ _ => destruct b eqn:Hb end.
  - apply Hsend. left. split; [done |]. apply orb_true_iff in Hb as [Hb | Hb]; [right | by left].
    destruct (eth_ip_address e) as [c |]; cbn in Hb; [| done]. exists c. destruct (cidr_broadcast c); [| done]. by apply bool_decide_eq_true in Hb as ->.
  - assert (forall x, neighbor_cache e !! hop = x -> wp (match x with None => handle_missing_neighbor hop packet now | Some n =>
      if expires_at n <? now then modify (set_neighbor_cache (delete hop (neighbor_cache e)));; handle_missing_neighbor hop packet now
      else send_to (nb_address n) packet ProtoIpv4 end) (sending hop packet e) e) as Hx; [| by apply Hx].
    intros [n |] Hn; [| by apply Hmiss]. 
    destruct (expires_at n <? now); [| apply Hsend; right; by exists n].
    apply wp_bind, wp_modify, Hmiss; [done | done | apply delete_subseteq | done | done].
Qed.
(** ** What was sent, and where to *)

(** A packet with its next hop, and the hardware address that it was written to: that of all, or one that the next hop announced *)
Definition goes (hs : list (IpAddress * EthernetAddress)) (d : (IpAddress * list u8) * EthernetAddress) : Prop :=
  d.2 = MAC_BROADCAST /\ broadcasts d.1.1 \/ (d.1.1, d.2) ∈ hs.

(** [hs] are the announcements that the link has heard, [sent] the packets that it was given. *)
Record carried (hs : list (IpAddress * EthernetAddress)) (sent : list (IpAddress * list u8)) e : Prop := {
  cr_inv : arp_inv e;
  cr_cache : forall ip n, neighbor_cache e !! ip = Some n -> (ip, nb_address n) ∈ hs;
  cr_sent : exists delivered dropped, sent ≡ₚ delivered.*1 ++ dropped ++ waiting e /\
    ipv4_frames e = (fun d => (d.2, d.1.2)) <$> delivered /\ Forall (goes hs) delivered
}.

Lemma goes_more hs hs' d : goes hs d -> goes (hs ++ hs') d.
Proof. intros [H | H]; [by left | right]. apply elem_of_app. by left. Qed.

Lemma carried_more hs hs' sent e : carried hs sent e -> carried (hs ++ hs') sent e.
Proof.
  intros [H1 H2 (del & drop & H3 & H4 & H5)]. split; [done | |].
  - intros ip n Hn. apply elem_of_app. left. by apply H2.
  - exists del, drop. split_and!; [done | done |]. eapply Forall_impl; [exact H5 |]. intros d. apply goes_more.
Qed.

(** Packets are dropped, but none is written. *)
Lemma carried_dropped hs sent e e' :
  carried hs sent e -> arp_inv e' -> neighbor_cache e' ⊆ neighbor_cache e -> ipv4_frames e' = ipv4_frames e -> (exists l, waiting e = l ++ waiting e') ->
  carried hs sent e'.
Proof.
  intros [H1 H2 (del & drop & H3 & H4 & H5)] Hi Hc Hf [l Hl]. split; [done | |].
  - intros ip n Hn. eapply H2, lookup_weaken; [exact Hn | done].
  - exists del, (drop ++ l). rewrite Hf, <- app_assoc, <- Hl. by split_and!.
Qed.

(** The packets that waited for a next hop are written. *)
Lemma carried_released hs sent ip mac now e e1 e' :
  carried hs sent e -> (ip, mac) ∈ hs -> arp_inv e' -> neighbor_cache e1 = <[ip := {| nb_address := mac; expires_at := now |}]> (neighbor_cache e) ->
  ipv4_frames e1 = ipv4_frames e -> released ip mac (waiting e) (waiting e') e1 e' -> carried hs sent e'.
Proof.
  intros [H1 H2 (del & drop & H3 & H4 & H5)] Hin Hi Hc Hf (R1 & _ & _ & _ & _ & out & R2 & R3 & R4). split; [done | |].
  - rewrite R1, Hc. intros ip' n [[<- <-] | [_ Hn]]%lookup_insert_Some; [done | by apply H2].
  - exists (del ++ ((fun p => (p, mac)) <$> out)), drop. rewrite R4, Hf, H4, !fmap_app. split_and!.
    + rewrite H3, R2, <- list_fmap_compose, (list_fmap_ext _ id) by done. rewrite list_fmap_id. solve_Permutation.
    + f_equal. by rewrite <- list_fmap_compose.
    + apply Forall_app. split; [done |]. apply Forall_fmap. eapply Forall_impl; [exact R3 |]. intros p <-. by right.
Qed.

Lemma carried_send hs sent hop packet e o e' : carried hs sent e -> sending hop packet e o e' -> carried hs (sent ++ [(hop, packet)]) e'.
Proof.
  intros [H1 H2 (del & drop & H3 & H4 & H5)] (_ & Hi & _ & Hc & Hs). split; [done | |].
  - intros ip n Hn. eapply H2, lookup_weaken; [exact Hn | done].
  - destruct Hs as [(mac & Hm & Hf & Hw) | [Hf Hw]].
    + exists (del ++ [((hop, packet), mac)]), drop. rewrite Hf, Hw, H4, !fmap_app. split_and!; [rewrite H3; cbn; solve_Permutation | done |].
      apply Forall_app. split; [done |]. constructor; [| done]. destruct Hm as [Hm | (n & Hn & <-)]; [by left | right; by apply H2].
    + destruct Hw as [Hw | Hw]; rewrite Hf, Hw.
      * exists del, drop. split_and!; [rewrite H3; solve_Permutation | done | done].
      * exists del, (drop ++ [(hop, packet)]). split_and!; [rewrite H3; solve_Permutation | done | done].
Qed.
(** ** Receiving *)

(** The announcements in the frames that one call of [recv] goes over *)
Fixpoint announced (file : list Incoming) (b : list u8) (h : EthernetAddress) (i : option IpCidr) : list (IpAddress * EthernetAddress) :=
  match file with
  | [] | ReadError :: _ => []
  | Frame l :: file =>
      let b := splice 0 (take (length b) l) b in
      match eth_parse b with
      | None => announced file b h i
      | Some repr =>
          if negb (mac_is_broadcast (dst_addr repr)) && negb (bool_decide (dst_addr repr = EMPTY_MAC)) && negb (bool_decide (dst_addr repr = h))
          then announced file b h i
          else match ethertype repr with
               | ProtoIpv4 => []
               | ProtoArp => option_list (i ≫= fun i => announcement h i (eth_payload b)) ++ announced file b h i
               | ProtoOther _ => announced file b h i
               end
      end
  end.

Definition received (hs : list (IpAddress * EthernetAddress)) sent h i (o : outcome (option (list u8))) e' : Prop :=
  (exists r, o = Ok r) /\ carried hs sent e' /\ hardware_address e' = Some h /\ eth_ip_address e' = i.

Lemma recv_loop_wp h i now : forall file hs sent e, carried hs sent e -> hardware_address e = Some h -> eth_ip_address e = i ->
  wp (recv_loop file h now) (received (hs ++ announced file (input_buffer e) h i) sent h i) e.
Proof.
  induction file as [| [l |] file IH]; intros hs sent e Hc Hh Hi; cbn [recv_loop announced].
  - apply wp_bind, wp_modify, wp_bind. assert (carried hs sent (set_input (input_buffer e) [] e)) as Hc1.
    { destruct Hc as [H1 H2 H3]. by split. }
    eapply wp_mono; [| apply send_arp_wp; apply (cr_inv _ _ _ Hc1)]. intros o e' (-> & Hk & Hinv & Hd & _). apply wp_ret. rewrite app_nil_r.
    pose proof (kept_frames _ _ Hk) as Hf. destruct Hk as (_ & K1 & K2 & K3 & K4 & K5 & _).
    split; [by eexists |]. split; [| by rewrite K4, K5].
    eapply carried_dropped; [exact Hc1 | done | by rewrite K1 | exact Hf | exact Hd].
  - apply wp_bind, wp_gets. set (b := splice 0 (take (length (input_buffer e)) l) (input_buffer e)). apply wp_bind, wp_modify.
    set (e1 := set_input b file e). assert (carried hs sent e1) as Hc1. { destruct Hc as [H1 H2 H3]. by split. }
    pose proof (IH hs sent e1 Hc1 Hh Hi) as Hgo. cbn [e1 input_buffer set_input] in Hgo.
    destruct (eth_parse b) as [repr |]; [| exact Hgo].
    match goal with |- wp (if ?x then _ else _) _ _ => destruct x end; [exact Hgo |].
    destruct (ethertype repr); [| | exact Hgo].
    + apply wp_ret. rewrite app_nil_r. split; [by eexists | done].
    + apply wp_bind. eapply wp_mono; [| apply process_arp_wp]. intros o e2 (-> & Ha). unfold arp_done, heard in Ha. cbn [e1 hardware_address eth_ip_address set_input] in Ha.
      rewrite Hh, Hi in Ha. rewrite app_assoc. destruct i as [c |]; cbn [mbind option_bind]; [| subst e2; by rewrite app_nil_r].
      destruct (announcement h c (eth_payload b)) as [[ip mac] |]; cbn [option_list]; [| subst e2; by rewrite app_nil_r].
      destruct Ha as (Hi2 & e3 & A1 & A2 & A3 & A4 & A5 & A6 & Hr). pose proof Hr as (_ & R2 & _ & R4 & R5 & _).
      assert (input_buffer e2 = b) as Eb by (rewrite R2, A2; done). rewrite <- Eb. apply IH; [| congruence | congruence].
      eapply carried_released; [by apply carried_more | | done | exact A1 | exact A6 | exact Hr]. apply elem_of_app. right. apply list_elem_of_singleton. done.
  - apply wp_bind, wp_modify, wp_ret. rewrite app_nil_r. split; [by eexists |]. split; [destruct Hc as [H1 H2 H3]; by split | done].
Qed.

(** ** Any run *)

(** The link in any state that calls, addresses and frames that come in lead to, with what it has heard and what it was given *)
Inductive linked : list (IpAddress * EthernetAddress) -> list (IpAddress * list u8) -> EthernetLink -> Prop :=
| linked_new name file : linked [] [] (EthernetLink_new name file)
| linked_send hs sent e hop packet now : linked hs sent e -> linked hs (sent ++ [(hop, packet)]) (eth_send hop packet now e).2
| linked_recv hs sent e now : linked hs sent e ->
    linked (hs ++ match hardware_address e with Some h => announced (inputs e) (input_buffer e) h (eth_ip_address e) | None => [] end) sent (eth_recv now e).2
| linked_frames hs sent e file : linked hs sent e -> linked hs sent (set_input (input_buffer e) (inputs e ++ file) e)
| linked_addresses hs sent e h i : linked hs sent e -> linked hs sent (set_addresses h i e).

Lemma linked_carried hs sent e : linked hs sent e -> carried hs sent e.
Proof.
  induction 1 as [name file | hs sent e hop packet now _ IH | hs sent e now _ IH | hs sent e file _ IH | hs sent e h i _ IH].
  - split; [unfold arp_inv, waiting; cbn; by rewrite packets_new | done |]. exists [], []. unfold waiting. cbn. by rewrite packets_new.
  - eapply carried_send; [exact IH | apply (eth_send_wp hop packet now e (cr_inv _ _ _ IH))].
  - unfold eth_recv, gets, mbind, M_bind. cbn [id]. cbv beta iota. destruct (hardware_address e) as [h |] eqn:Hh; [| by rewrite app_nil_r].
    apply (recv_loop_wp h (eth_ip_address e) now (inputs e) hs sent e IH Hh eq_refl).
  - destruct IH as [H1 H2 H3]. by split.
  - destruct IH as [H1 H2 H3]. by split.
Qed.

Lemma eth_recv_ok hs sent e now : carried hs sent e -> exists r, (eth_recv now e).1 = Ok r.
Proof.
  intros Hc. unfold eth_recv, gets, mbind, M_bind. cbn [id]. cbv beta iota. destruct (hardware_address e) as [h |] eqn:Hh; [| by eexists].
  apply (recv_loop_wp h (eth_ip_address e) now (inputs e) hs sent e Hc Hh eq_refl).
Qed.

(** ** Nothing waits for ever *)

(** The link is polled while nothing comes in. *)
Fixpoint idle_polls (ts : list Z) e : EthernetLink := match ts with [] => e | t :: ts => idle_polls ts (eth_recv t e).2 end.

(** The first time is [t0] or later, and the others at least the silence of ARP apart. *)
Fixpoint spaced (t0 : Z) (ts : list Z) : Prop := match ts with [] => True | t :: ts => t0 <= t /\ spaced (t + ARP_SILENCE_TIME) ts end.

Lemma spaced_mono t0 t1 ts : t1 <= t0 -> spaced t0 ts -> spaced t1 ts.
Proof. intros Ht. destruct ts as [| t ts]; [done |]. intros [H1 H2]. split; [lia | done]. Qed.

Lemma patience_nothing e : arp_inv e -> waiting e = [] -> patience e = 0.
Proof. unfold arp_inv, patience. intros Hi Hw. rewrite Hw in *. cbn in Hi. by rewrite Hi. Qed.

Lemma patience_something e : arp_inv e -> waiting e <> [] -> 0 < patience e.
Proof.
  unfold arp_inv, patience. intros Hi Hw. destruct (waiting e) as [| [dst p] l]; [done |]. destruct Hi as (t & x & -> & Ht). unfold zlen. cbn [length]. lia.
Qed.

Lemma patience_bound e : arp_inv e -> patience e <= 4 * zlen (waiting e).
Proof.
  unfold arp_inv, patience. intros Hi. destruct (waiting e) as [| [dst p] l]; [by cbn in Hi; rewrite Hi |]. destruct Hi as (t & x & -> & Ht). lia.
Qed.

Lemma idle_recv_wp t e : arp_inv e -> configured e -> inputs e = [] -> ZERO <= t -> due e <= t ->
  wp (eth_recv t) (fun _ e' => arp_inv e' /\ configured e' /\ inputs e' = [] /\ due e' <= t + ARP_SILENCE_TIME /\
    (waiting e' <> [] -> patience e' < patience e)) e.
Proof.
  intros Hi Hc He Hz Hd. unfold eth_recv. apply wp_bind, wp_gets. cbn [id]. pose proof Hc as [[h Hh] _]. rewrite Hh, He. cbn [recv_loop].
  apply wp_bind, wp_modify, wp_bind. set (e1 := set_input _ _ _). eapply wp_mono; [| by apply (send_arp_wp t e1)].
  intros o e' (-> & Hk & H1 & _ & H2). apply wp_ret. destruct (H2 Hc Hz Hd) as [H3 H4]. pose proof (kept_configured _ _ Hk Hc) as Hc'.
  destruct Hk as (_ & _ & _ & K & _). by split_and!.
Qed.

Lemma idle_polls_end ts : forall e, arp_inv e -> configured e -> inputs e = [] -> spaced (Z.max ZERO (due e)) ts -> patience e <= zlen ts ->
  waiting (idle_polls ts e) = [] /\ arp_state (idle_polls ts e) = Discovered.
Proof.
  induction ts as [| t ts IH]; intros e Hi Hc He Hs Hp; cbn [idle_polls].
  - destruct (decide (waiting e = [])) as [Hw | Hw]; [| pose proof (patience_something e Hi Hw); unfold zlen in Hp; cbn in Hp; lia].
    split; [done |]. unfold arp_inv in Hi. by rewrite Hw in Hi.
  - destruct Hs as [H1 H2]. pose proof (idle_recv_wp t e Hi Hc He ltac:(lia) ltac:(lia)) as (G1 & G2 & G3 & G4 & G5).
    apply IH; [done | done | done | |].
    + eapply spaced_mono; [| exact H2]. unfold ARP_SILENCE_TIME, from_secs, ZERO in *. lia.
    + destruct (decide (waiting (eth_recv t e).2 = [])) as [Hw | Hw]; [rewrite (patience_nothing _ G1 Hw); unfold zlen; lia |].
      specialize (G5 Hw). unfold zlen in *. cbn [length] in Hp. lia.
Qed.


(** C22: no packet waits for ever: when the link has its addresses and nothing comes in, polling it four times for each packet that waits, a second apart,
    empties the queue, whatever state the link has come to. *)
Theorem arp_gives_up hs sent e ts : linked hs sent e -> configured e -> inputs e = [] -> spaced (Z.max ZERO (due e)) ts -> 4 * zlen (waiting e) <= zlen ts ->
  waiting (idle_polls ts e) = [] /\ arp_state (idle_polls ts e) = Discovered.
Proof.
  intros H%linked_carried Hc He Hs Hl. pose proof (patience_bound e (cr_inv _ _ _ H)). apply idle_polls_end; [apply H | done | done | done | lia].
Qed.
End ethernet.
