(* ===== verification/RouterFacts.v ===== *)
(** * netstack: the router forwards along the routes

    What the router takes from a device that may fail in some states only (the class [DeviceLaws], which the loopback and the
    ethernet link satisfy), and the theorem that it forwards every packet along the most specific route. *)

From stdpp Require Import base gmap strings list fin_maps.
From Stdlib Require Import ZArith Lia.
From Stdlib Require Import Strings.Byte.
From S2P Require Import Prelude Syscall Netstack NetstackFacts Sockets SockProto Link Router LinkFacts.

Local Open Scope Z_scope.

(** ** The interface *)

(** A device in a state that it can be in neither fails to send nor to receive, and stays in such a state. *)
Class DeviceLaws {IP : IpApi} {MA : MacApi} (D : Type) {LD : LinkDevice D} := {
  fit : D -> Prop;
  send_fit : forall hop packet now d, fit d -> wp (send hop packet now) (fun o d' => o = Ok tt /\ fit d') d;
  recv_fit : forall now d, fit d -> wp (recv now) (fun o d' => (exists r, o = Ok r) /\ fit d') d
}.

Section forwards.
Context {TG : Target} {SC : Syscall} {IP : IpApi} {MA : MacApi} {PA : PacketApi} {PL : PacketLaws PA} {PF : PacketFields}.
Context {D : Type} {LD : LinkDevice D} {DL : DeviceLaws D}.
Implicit Types (r : Router D) (ds : list D) (table : list Rule).

(** ** The reference *)

(** The most specific route to a destination *)
Definition best_route table (dst : IpAddress) (rule : Rule) : Prop :=
  rule ∈ table /\ contains_addr (r_filter rule) dst = true /\
  forall other : Rule, other ∈ table -> contains_addr (r_filter other) dst = true -> prefix_len (r_filter other) <= prefix_len (r_filter rule).

(** The packet with the source address of the route *)
Definition with_source (rule : Rule) (packet : list u8) : list u8 :=
  if decide (src rule = packet_src packet) then packet else packet_set_src (src rule) packet.

Inductive forward table (now : Z) (packet : list u8) ds : list D -> Prop :=
| forward_malformed : packet_ok packet = false -> forward table now packet ds ds
| forward_broadcast : packet_ok packet = true -> addr_is_broadcast (packet_dst packet) = true ->
    forward table now packet ds ((fun d => (send (packet_dst packet) packet now d).2) <$> ds)
| forward_no_route : packet_ok packet = true -> addr_is_broadcast (packet_dst packet) = false ->
    (forall rule : Rule, rule ∈ table -> contains_addr (r_filter rule) (packet_dst packet) = false) -> forward table now packet ds ds
| forward_no_device rule : packet_ok packet = true -> addr_is_broadcast (packet_dst packet) = false ->
    best_route table (packet_dst packet) rule -> (forall d, d ∈ ds -> name d <> dev rule) -> forward table now packet ds ds
| forward_route rule i d : packet_ok packet = true -> addr_is_broadcast (packet_dst packet) = false ->
    best_route table (packet_dst packet) rule -> ds !! i = Some d -> name d = dev rule ->
    (forall j d', (j < i)%nat -> ds !! j = Some d' -> name d' <> dev rule) ->
    forward table now packet ds (<[i := (send (default (packet_dst packet) (via rule)) (with_source rule packet) now d).2]> ds).

(** All packets, one after the other *)
Inductive forward_all table (now : Z) : list (list u8) -> list D -> list D -> Prop :=
| forward_none ds : forward_all table now [] ds ds
| forward_next packet packets ds ds1 ds2 : forward table now packet ds ds1 -> forward_all table now packets ds1 ds2 ->
    forward_all table now (packet :: packets) ds ds2.

(** ** Devices *)

Lemma on_device_send_wp i d hop packet now (Q : outcome unit -> Router D -> Prop) r :
  devices r !! i = Some d -> fit d -> Q (Ok tt) (set_devices (<[i := (send hop packet now d).2]> (devices r)) r) -> wp (on_device i (send hop packet now)) Q r.
Proof.
  intros Hd Hf HQ. unfold wp, on_device. rewrite Hd. pose proof (send_fit hop packet now d Hf) as Hs. unfold wp in Hs.
  destruct (send hop packet now d) as [o d']. cbn [fst snd] in *. destruct Hs as [-> _]. exact HQ.
Qed.

Lemma fit_send hop packet now d : fit d -> fit (send hop packet now d).2.
Proof. intros Hf. by destruct (send_fit hop packet now d Hf). Qed.
Lemma fmap_prefix (f : D -> D) ds i d :
  ds !! i = Some d -> <[i := f d]> ((f <$> take i ds) ++ drop i ds) = (f <$> take (S i) ds) ++ drop (S i) ds.
Proof.
  intros Hd. assert (length (f <$> take i ds) = i) as Hl.
  { rewrite length_fmap, length_take. apply lookup_lt_Some in Hd. lia. }
  rewrite (drop_S ds d i Hd), <- Hl at 1. rewrite (insert_app_r_alt _ _ (length (f <$> take i ds))), Nat.sub_diag by lia. cbn.
  rewrite (take_S_r ds i d Hd), fmap_app, <- app_assoc. done.
Qed.

(** A packet for all is sent to each device, from the [i]th on. *)
Lemma broadcast_wp dst packet now ds : Forall fit ds -> forall n i r (Q : outcome unit -> Router D -> Prop),
  (i + n = length ds)%nat -> devices r = ((fun d => (send dst packet now d).2) <$> take i ds) ++ drop i ds ->
  Q (Ok tt) (set_devices ((fun d => (send dst packet now d).2) <$> ds) r) -> wp (broadcast (seq i n) dst packet now) Q r.
Proof.
  intros Hf. induction n as [| n IH]; intros i r Q Hn Hd HQ; cbn [seq broadcast].
  - apply wp_ret. replace i with (length ds) in Hd by lia. rewrite firstn_all, drop_all, app_nil_r in Hd.
    rewrite <- Hd in HQ. by destruct r.
  - destruct (lookup_lt_is_Some_2 ds i) as [d Hi]; [lia |].
    assert (devices r !! i = Some d) as Hri.
    { rewrite Hd, lookup_app_r; rewrite length_fmap, length_take; [| lia]. rewrite lookup_drop. rewrite <- Hi. f_equal. lia. }
    apply wp_bind. eapply on_device_send_wp; [exact Hri | by eapply Forall_lookup_1 |]. apply (IH (S i)); [lia | | done].
    cbn [devices set_devices]. rewrite Hd. exact (fmap_prefix (fun d => (send dst packet now d).2) ds i d Hi).
Qed.

(** One packet *)
Lemma dispatch_packet_wp packet now r : route_sorted (routes r) -> Forall fit (devices r) ->
  wp (dispatch_packet packet now) (fun o r' => o = Ok tt /\ exists ds, r' = set_devices ds r /\ forward (routes r) now packet (devices r) ds /\ Forall fit ds) r.
Proof.
  intros Hs Hf. assert (forall ds, r = set_devices ds r <-> ds = devices r) as Hid.
  { intros ds. split; [by intros -> | intros ->; by destruct r]. }
  unfold dispatch_packet. destruct (packet_ok packet) eqn:Hok; cbn [negb].
  2:{ apply wp_ret. split; [done |]. exists (devices r). split_and!; [by apply Hid | by constructor | done]. }
  apply wp_bind, wp_gets. destruct (addr_is_broadcast (packet_dst packet)) eqn:Hb.
  - eapply (broadcast_wp _ _ _ (devices r) Hf); [done | by rewrite take_0, drop_0 |]. split; [done |]. eexists. split_and!; [done | by constructor |].
    apply Forall_fmap. eapply Forall_impl; [exact Hf |]. intros d. apply fit_send.
  - apply wp_bind, wp_gets. pose proof (lookup_sorted (routes r) (packet_dst packet) Hs) as Hl. unfold looks_up in Hl.
    destruct (lookup_rule (routes r) (packet_dst packet)) as [rule |].
    2:{ apply wp_ret. split; [done |]. exists (devices r). split_and!; [by apply Hid | by constructor | done]. }
    apply wp_bind, wp_gets. unfold find_device. destruct (list_find _ (devices r)) as [[i d] |] eqn:Hd; cbn [fmap option_fmap option_map fst].
    + apply list_find_Some in Hd as (Hi & Hn & Hmin). assert (fit d) as Hfd by (by eapply Forall_lookup_1).
      eapply on_device_send_wp; [exact Hi | done |]. split; [done |]. eexists. split_and!; [done | |].
      * eapply forward_route; [done | done | exact Hl | exact Hi | exact Hn |]. intros j d' Hj Hd'. by apply (Hmin j).
      * apply Forall_insert; [done | by apply fit_send].
    + apply list_find_None in Hd. rewrite Forall_forall in Hd. apply wp_ret. split; [done |]. exists (devices r).
      split_and!; [by apply Hid | by eapply forward_no_device | done].
Qed.

Lemma dispatch_loop_wp now : forall fuel r, route_sorted (routes r) -> Forall fit (devices r) -> (length (pb_packets (tx_buffer r)) <= fuel)%nat ->
  wp (dispatch_loop fuel now) (fun o r' => o = Ok tt /\ pb_packets (tx_buffer r') = [] /\ rx_buffer r' = rx_buffer r /\ routes r' = routes r /\
    Forall fit (devices r') /\ forward_all (routes r) now (snd <$> pb_packets (tx_buffer r)) (devices r) (devices r')) r.
Proof.
  induction fuel as [| fuel IH]; intros r Hs Hf Hl; cbn [dispatch_loop]; apply wp_bind, wp_gets; destruct (packets_dequeue _ (tx_buffer r)) as [Hp Hq];
    destruct (dequeue (tx_buffer r)) as [p q]; cbn [fst snd] in *; subst p; apply wp_bind, wp_modify;
    (destruct (pb_packets (tx_buffer r)) as [| [[] packet] l]; cbn [head fmap list_fmap snd];
     [apply wp_ret; split_and!; [done | exact Hq | done | done | exact Hf | constructor] |]).
  - cbn in Hl. lia.
  - set (r1 := set_tx_buffer q r). apply wp_bind. eapply wp_mono; [| by apply (dispatch_packet_wp packet now r1)].
    intros o r2 (-> & ds & -> & Hfw & Hf2). eapply wp_mono; [| apply IH; [done | done | cbn; rewrite Hq; cbn in *; lia]].
    intros o r3 (-> & H1 & H2 & H3 & H4 & H5). split_and!; [done | done | done | done | done |]. cbn in H5. rewrite Hq in H5. by econstructor.
Qed.

(** C27: whatever routes were inserted, removed and changed, the dispatch of the router ends without a panic with an empty buffer, and has handed the packets
    over in their order: each to all devices for a broadcast, and otherwise to the device of the most specific route to its destination, for the
    gateway of the route and with its source address; a packet without a route or a device is dropped. *)
Theorem router_forwards ops now r : routes r = foldl apply_route_op [] ops -> Forall fit (devices r) ->
  exists r', dispatch now r = (Ok tt, r') /\ pb_packets (tx_buffer r') = [] /\ rx_buffer r' = rx_buffer r /\ Forall fit (devices r') /\
    forward_all (foldl apply_route_op [] ops) now (snd <$> pb_packets (tx_buffer r)) (devices r) (devices r').
Proof.
  intros Ht Hf. pose proof (dispatch_loop_wp now (length (pb_packets (tx_buffer r))) r) as Hd.
  assert (route_sorted (routes r)) as Hs by (rewrite Ht; apply route_ops_sorted; constructor). specialize (Hd Hs Hf (Nat.le_refl _)).
  unfold dispatch, gets, mbind, M_bind. cbv beta iota. unfold wp in Hd. destruct (dispatch_loop _ now r) as [o r']. cbn [fst snd] in Hd.
  destruct Hd as (-> & H1 & H2 & H3 & H4 & H5). exists r'. rewrite <- Ht. by split_and!.
Qed.
End forwards.

(** ** The devices of the daemon *)

Section devices.
Context {TG : Target} {SC : Syscall} {IP : IpApi} {WA : WireApi} {MA : MacApi} {FA : FrameApi} {PA : PacketApi} {PL : PacketLaws PA}.

Definition loopback_laws (cidr_from_str : string -> option IpCidr) : @DeviceLaws _ _ LoopbackDevice (loopback_device cidr_from_str).
Proof.
  refine {| fit := fun _ => True |}.
  - intros hop packet now d _. cbn [send loopback_device]. unfold lo_send. apply wp_bind, wp_gets. case_match; [by apply wp_modify | by apply wp_ret].
  - intros now d _. cbn [recv loopback_device]. unfold lo_recv. apply wp_bind, wp_gets. destruct (dequeue (buffer d)) as [r q].
    apply wp_bind, wp_modify, wp_ret. split; [by eexists | done].
Defined.

(** The ethernet link in a state that it can come to *)
Definition ethernet_laws : @DeviceLaws _ _ EthernetLink ethernet_device.
Proof.
  refine {| fit := fun e => exists hs sent, carried hs sent e |}.
  - intros hop packet now e (hs & sent & Hc). cbn [send ethernet_device]. eapply wp_mono; [| apply eth_send_wp, (cr_inv _ _ _ Hc)].
    intros o e' Hs. pose proof (carried_send _ _ _ _ _ _ _ Hc Hs) as Hc'. split; [apply Hs | by eexists _, _].
  - intros now e (hs & sent & Hc). cbn [recv ethernet_device]. unfold eth_recv. apply wp_bind, wp_gets. cbn [id].
    destruct (hardware_address e) as [h |] eqn:Hh; [| apply wp_ret; split; [by eexists | by exists hs, sent]].
    eapply wp_mono; [| by apply (recv_loop_wp h (eth_ip_address e) now _ hs sent)]. intros o e' (H1 & H2 & _). split; [done | by eexists _, _].
Defined.
End devices.
