(* ===== verification/NetCfg.v ===== *)
(** * netstack: the configuration scheme

    Models [netstack/src/scheme/netcfg/]: the notifier, the tree of nodes and what reading, writing and
    committing each of them does, the open files with their lines, the scheme, and the loop over its requests. *)

From stdpp Require Import base gmap strings list fin_maps sorting.
From Stdlib Require Import ZArith Lia.
From Stdlib Require Import Strings.Byte.
From S2P Require Import Netstack Sockets SockProto Link Prelude Memory Syscall SchemeApi Readiness Schemes SockServer.

Local Open Scope Z_scope.

(** ** What is [smoltcp]'s *)

Class CfgApi {IP : IpApi} {IF : IfaceApi} {MA : MacApi} := {
  (** [IpCidr::from_str] and [EthernetAddress::from_str] *)
  cidr_from_str : string -> option IpCidr;
  mac_from_str : string -> option EthernetAddress;
  v4 : Z -> Z -> Z -> Z -> IpAddress;
  cidr_new : IpAddress -> Z -> IpCidr;
  (** [Ipv4Cidr::network] *)
  cidr_network : IpCidr -> IpCidr;
  addr_is_unicast : IpAddress -> bool;
  show_cidr : IpCidr -> string;
  show_mac : EthernetAddress -> string;
  (** the addresses of the interface, as many as there is room for; [update_ip_addrs] panics when they cannot be its addresses *)
  ip_addrs : Interface -> list IpCidr;
  set_ip_addrs : list IpCidr -> Interface -> option Interface;
  ip_addrs_capacity : nat
}.

(** ** Words *)

(** The words of [l] after [cur]; [skip] bytes of white space come first. *)
Fixpoint words (skip : nat) (cur l : list u8) : list (list u8) :=
  let flush := match cur with [] => [] | _ => [cur] end in
  match l with
  | [] => flush
  | b :: l' =>
      match skip with
      | Datatypes.S skip => words skip cur l'
      | O => match whitespace l with
             | O => words O (cur ++ [b]) l'
             | Datatypes.S skip => flush ++ words skip [] l'
             end
      end
  end.
Definition split_whitespace (s : string) : list string := String.string_of_list_byte <$> words 0 [] (as_bytes s).

(** [l.split(|c| c == b)] of bytes: the first piece and the others *)
Fixpoint split_byte (b : u8) (l : list u8) : list u8 * list (list u8) :=
  match l with
  | [] => ([], [])
  | c :: l =>
      let '(p, ps) := split_byte b l in
      if bool_decide (c = b) then ([], p :: ps) else (c :: p, ps)
  end.

Definition newline : u8 := x0a.
Definition nl : string := String.string_of_list_byte [newline].

(** ** The notifier *)

Record Notifier := { listeners : gmap string (gset Z); notified : gset Z }.

Definition Notifier_new : Notifier := {| listeners := ∅; notified := ∅ |}.

Definition subscribe (path : string) (fd : Z) (n : Notifier) : Notifier :=
  {| listeners := <[path := match listeners n !! path with Some fds => {[fd]} ∪ fds | None => {[fd]} end]> (listeners n); notified := notified n |}.

Definition unsubscribe (path : string) (fd : Z) (n : Notifier) : Notifier :=
  {| listeners := match listeners n !! path with
                  | Some fds => let fds := fds ∖ {[fd]} in
                                if decide (fds = ∅) then delete path (listeners n) else <[path := fds]> (listeners n)
                  | None => listeners n
                  end; notified := notified n |}.

Definition schedule_notify (path : string) (n : Notifier) : Notifier :=
  {| listeners := listeners n; notified := match listeners n !! path with Some fds => notified n ∪ fds | None => notified n end |}.

(** [get_notified_fds]: the descriptors in order *)
Definition get_notified_fds (n : Notifier) : list Z * Notifier :=
  (merge_sort Z.le (elements (notified n)), {| listeners := listeners n; notified := ∅ |}).

(** ** What the nodes work on *)

Section netcfg.
Context {TG : Target} {SC : Syscall} {AB : SchemeAbi} {IP : IpApi} {IF : IfaceApi} {WA : WireApi} {MA : MacApi} {CA : CfgApi}.
Context {D : Type} {LD : LinkDevice D}.

(** What the closures of the nodes share: the name server and the notifier are the scheme's own. *)
Record Env := { e_iface : Interface; e_routes : list Rule; e_devices : list D; name_server : IpAddress; notifier : Notifier }.

Definition set_e_iface x (e : Env) : Env := {| e_iface := x; e_routes := e_routes e; e_devices := e_devices e; name_server := name_server e; notifier := notifier e |}.
Definition set_e_routes x (e : Env) : Env := {| e_iface := e_iface e; e_routes := x; e_devices := e_devices e; name_server := name_server e; notifier := notifier e |}.
Definition set_e_devices x (e : Env) : Env := {| e_iface := e_iface e; e_routes := e_routes e; e_devices := x; name_server := name_server e; notifier := notifier e |}.
Definition set_name_server x (e : Env) : Env := {| e_iface := e_iface e; e_routes := e_routes e; e_devices := e_devices e; name_server := x; notifier := notifier e |}.
Definition set_notifier x (e : Env) : Env := {| e_iface := e_iface e; e_routes := e_routes e; e_devices := e_devices e; name_server := name_server e; notifier := x |}.

Definition notify (path : string) : M Env unit := modify (fun e => set_notifier (schedule_notify path (notifier e)) e).

(** A method of a device *)
Definition with_device {A} (i : nat) (m : M D A) : M Env A := fun e =>
  match e_devices e !! i with
  | Some d => let '(o, d) := m d in (o, set_e_devices (<[i := d]> (e_devices e)) e)
  | None => (Panic, e)
  end.

(** [update_ip_addrs] *)
Definition update_ip_addrs (f : list IpCidr -> list IpCidr) : M Env unit :=
  i ← gets e_iface;
  i' ← unwrap (set_ip_addrs (f (ip_addrs i)) i);
  modify (set_e_iface i').

(** ** Routes as text *)

Definition gateway_cidr : IpCidr := cidr_new (v4 0 0 0 0) 0.

Definition parse_route (value : string) (route_table : list Rule) : outcome Rule :=
  match split_whitespace value with
  | [] => Err EINVAL
  | cidr_str :: parts =>
      cidr ← (if bool_decide (cidr_str = "default") then Ok gateway_cidr else o_ok_or EINVAL (cidr_from_str cidr_str));
      match parts with
      | [] => Err EINVAL
      | word :: parts =>
          via_ ← (if bool_decide (word = "via") then
                    match parts with
                    | [] => Err EINVAL
                    | a :: _ => o_ok_or EINVAL (addr_from_str a)
                    end
                  else Err EINVAL);
          if negb (addr_is_unicast via_) then Err EINVAL
          else
            rule ← o_ok_or EINVAL (lookup_rule route_table via_);
            Ok {| r_filter := cidr; via := Some via_; dev := dev rule; src := src rule |}
      end
  end.

(** [Display] of [Rule] and [RouteTable] *)
Definition show_rule (r : Rule) : string :=
  ((if (prefix_len (r_filter r) =? 0)%Z then "default" else show_cidr (r_filter r) +:+ " ")
   +:+ (match via r with Some a => " via " +:+ show_addr a | None => "" end)
   +:+ " dev " +:+ dev r +:+ " src " +:+ show_addr (src r))%string.
Fixpoint show_table (t : list Rule) : string := match t with [] => "" | r :: t => show_rule r +:+ nl +:+ show_table t end%string.

(** ** The nodes *)

(** [SimpleWriter]: the data of the writers of each of the nodes that can be written *)
Inductive NodeWriter :=
| NameserverWriter (cur_value : option IpAddress)
| RouteAddWriter (cur_value : option Rule)
| RouteRmWriter (cur_value : option IpCidr)
| MacWriter (cur_value : option EthernetAddress)
| AddrSetWriter (cur_value : option IpCidr).

Definition nameserver_read (e : Env) : string := (show_addr (name_server e) +:+ nl)%string.
Definition nameserver_write_line (cur_value : option IpAddress) (line : string) : outcome (option IpAddress) :=
  match cur_value with
  | None =>
      ip ← o_ok_or EINVAL (ipv4_from_str (trim line));
      if addr_is_broadcast ip || addr_is_multicast ip || addr_is_unspecified ip then Err EINVAL else Ok (Some ip)
  | Some _ => Err EINVAL
  end.
Definition nameserver_commit (cur_value : option IpAddress) : M Env (option IpAddress) :=
  match cur_value with
  | Some ip => modify (set_name_server ip);; notify "resolv/nameserver"
  | None => mret tt
  end;;
  mret cur_value.

Definition route_list_read (e : Env) : string := show_table (e_routes e).

Definition route_add_write_line (cur_value : option Rule) (line : string) (e : Env) : outcome (option Rule) :=
  match cur_value with
  | None => route ← parse_route line (e_routes e); Ok (Some route)
  | Some _ => Err EINVAL
  end.
Definition route_add_commit (cur_value : option Rule) : M Env (option Rule) :=
  match cur_value with
  | Some route => modify (fun e => set_e_routes (insert_rule route (e_routes e)) e);; notify "route/list";; mret None
  | None => throw EINVAL
  end.

Definition route_rm_write_line (cur_value : option IpCidr) (line : string) : outcome (option IpCidr) :=
  match cur_value with
  | None => cidr ← o_ok_or EINVAL (cidr_from_str line); Ok (Some cidr)
  | Some _ => Err EINVAL
  end.
Definition route_rm_commit (cur_value : option IpCidr) : M Env (option IpCidr) :=
  match cur_value with
  | Some cidr => modify (fun e => set_e_routes (remove_rule cidr (e_routes e)) e);; notify "route/list";; mret cur_value
  | None => throw EINVAL
  end.

(** The [i]th device, which is there *)
Definition eth0 (e : Env) : option nat := find_device "eth0" (e_devices e).
Definition eth0_device (e : Env) : option D := i ← eth0 e; e_devices e !! i.

Definition mac_read (e : Env) : string :=
  match eth0_device e with
  | Some d => match mac_address d with Some a => show_mac a +:+ nl | None => "Not configured" +:+ nl end
  | None => "Device not found" +:+ nl
  end%string.
Definition mac_write_line (cur_value : option EthernetAddress) (line : string) : outcome (option EthernetAddress) :=
  match cur_value with
  | None =>
      mac ← o_ok_or EINVAL (mac_from_str line);
      if negb (mac_is_unicast mac) then Err EINVAL else Ok (Some mac)
  | Some _ => Err EINVAL
  end.
Definition mac_commit (cur_value : option EthernetAddress) : M Env (option EthernetAddress) :=
  match cur_value with
  | Some mac =>
      d ← gets eth0;
      match d with
      | Some i => with_device i (set_mac_address mac);; notify "ifaces/eth0/mac"
      | None => mret tt
      end
  | None => mret tt
  end;;
  mret cur_value.

Definition addr_list_read (e : Env) : string :=
  match eth0_device e with
  | Some d => match ip_address d with Some a => show_cidr a +:+ nl | None => "Not configured" +:+ nl end
  | None => "Device not found" +:+ nl
  end%string.
Definition addr_set_write_line (cur_value : option IpCidr) (line : string) : outcome (option IpCidr) :=
  match cur_value with
  | None =>
      cidr ← o_ok_or EINVAL (cidr_from_str line);
      if negb (addr_is_unicast (cidr_address cidr)) then Err EINVAL else Ok (Some cidr)
  | Some _ => Err EINVAL
  end.

(** [addrs.retain(|addr| *addr != c)] and [let _ = addrs.insert(0, c)] *)
Definition without (c : IpCidr) (l : list IpCidr) : list IpCidr := filter (fun a => a <> c) l.
Definition insert_front (c : IpCidr) (l : list IpCidr) : list IpCidr := if (length l <? ip_addrs_capacity)%nat then c :: l else l.

(** The address of the device [i], with the routes and the addresses of the interface that belong to it *)
Definition change_address (i : nat) (cidr : IpCidr) : M Env unit :=
  d ← gets (fun e => e_devices e !! i);
  d ← unwrap d;
  match ip_address d with
  | Some old_addr =>
      modify (fun e => set_e_routes (change_src (cidr_address old_addr) (cidr_address cidr) (remove_rule (cidr_network old_addr) (e_routes e))) e);;
      update_ip_addrs (without old_addr)
  | None => mret tt
  end;;
  with_device i (set_ip_address cidr);;
  update_ip_addrs (fun addrs => insert_front cidr (without cidr addrs));;
  d ← gets (fun e => e_devices e !! i);
  d ← unwrap d;
  modify (fun e => set_e_routes (insert_rule {| r_filter := cidr_network cidr; via := None; dev := name d; src := cidr_address cidr |} (e_routes e)) e).

Definition addr_set_commit (cur_value : option IpCidr) : M Env (option IpCidr) :=
  match cur_value with
  | Some cidr =>
      d ← gets eth0;
      match d with
      | Some i => change_address i cidr
      | None => mret tt
      end;;
      notify "ifaces/eth0/addr/list";;
      notify "route/list"
  | None => mret tt
  end;;
  mret None.

(** [NodeWriter::write_line] and [commit] *)
Definition write_line (w : NodeWriter) (line : string) (e : Env) : outcome NodeWriter :=
  match w with
  | NameserverWriter v => v ← nameserver_write_line v line; Ok (NameserverWriter v)
  | RouteAddWriter v => v ← route_add_write_line v line e; Ok (RouteAddWriter v)
  | RouteRmWriter v => v ← route_rm_write_line v line; Ok (RouteRmWriter v)
  | MacWriter v => v ← mac_write_line v line; Ok (MacWriter v)
  | AddrSetWriter v => v ← addr_set_write_line v line; Ok (AddrSetWriter v)
  end.
Definition node_commit (w : NodeWriter) : M Env NodeWriter :=
  match w with
  | NameserverWriter v => v ← nameserver_commit v; mret (NameserverWriter v)
  | RouteAddWriter v => v ← route_add_commit v; mret (RouteAddWriter v)
  | RouteRmWriter v => v ← route_rm_commit v; mret (RouteRmWriter v)
  | MacWriter v => v ← mac_commit v; mret (MacWriter v)
  | AddrSetWriter v => v ← addr_set_commit v; mret (AddrSetWriter v)
  end.

Inductive CfgNode :=
| RONode (read_fun : Env -> string)
| WONode (new_writer : NodeWriter)
| RWNode (read_fun : Env -> string) (new_writer : NodeWriter)
| StaticDirNode (child_nodes : list (string * CfgNode)).

Definition node_is_dir (n : CfgNode) : bool := match n with StaticDirNode _ => true | _ => false end.
Definition node_is_writable (n : CfgNode) : bool := match n with WONode _ | RWNode _ _ => true | _ => false end.
Definition node_is_readable (n : CfgNode) : bool := match n with WONode _ => false | _ => true end.
Definition node_writer_of (n : CfgNode) : option NodeWriter := match n with WONode w | RWNode _ w => Some w | _ => None end.

(** The names of the children, one per line *)
Definition join_names (l : list string) : string :=
  foldl (fun files child => (if str_is_empty files then files else files +:+ nl) +:+ child) "" l.
Definition node_read (n : CfgNode) (e : Env) : string :=
  match n with
  | RONode f | RWNode f _ => f e
  | WONode _ => ""
  | StaticDirNode cs => join_names (fst <$> cs)
  end.
Definition node_open (file : string) (n : CfgNode) : option CfgNode :=
  match n with
  | StaticDirNode cs => snd <$> (snd <$> list_find (fun c => c.1 = file) cs)
  | _ => None
  end.

(** A [BTreeMap] of children: by name *)
Fixpoint child_insert (name : string) (n : CfgNode) (l : list (string * CfgNode)) : list (string * CfgNode) :=
  match l with
  | [] => [(name, n)]
  | (k, x) :: l =>
      match String.compare name k with
      | Lt => (name, n) :: (k, x) :: l
      | Eq => (name, n) :: l
      | Gt => (k, x) :: child_insert name n l
      end
  end.
Definition dir (children : list (string * CfgNode)) : CfgNode :=
  StaticDirNode (foldl (fun l c => child_insert c.1 c.2 l) [] children).

(** [mk_root_node] *)
Definition root_node : CfgNode := dir [
  ("resolv", dir [("nameserver", RWNode nameserver_read (NameserverWriter None))]);
  ("route", dir [
    ("list", RONode route_list_read);
    ("add", WONode (RouteAddWriter None));
    ("rm", WONode (RouteRmWriter None))]);
  ("ifaces", dir [
    ("eth0", dir [
      ("mac", RWNode mac_read (MacWriter None));
      ("addr", dir [
        ("list", RONode addr_list_read);
        ("set", WONode (AddrSetWriter None))])])])].

(** ** Open files *)

Definition WRITE_BUFFER_MAX_SIZE : Z := 0xffff.

Record NetCfgFile := {
  cf_path : string; is_dir : bool; is_writable : bool; is_readable : bool; node_writer : option NodeWriter;
  read_buf : list u8; write_buf : list u8; pos : nat; cf_uid : Z; cf_done : bool
}.

Definition set_writer x (f : NetCfgFile) : NetCfgFile := {| cf_path := cf_path f; is_dir := is_dir f; is_writable := is_writable f; is_readable := is_readable f;
  node_writer := x; read_buf := read_buf f; write_buf := write_buf f; pos := pos f; cf_uid := cf_uid f; cf_done := cf_done f |}.
Definition set_write_buf x (f : NetCfgFile) : NetCfgFile := {| cf_path := cf_path f; is_dir := is_dir f; is_writable := is_writable f; is_readable := is_readable f;
  node_writer := node_writer f; read_buf := read_buf f; write_buf := x; pos := pos f; cf_uid := cf_uid f; cf_done := cf_done f |}.
Definition set_pos x (f : NetCfgFile) : NetCfgFile := {| cf_path := cf_path f; is_dir := is_dir f; is_writable := is_writable f; is_readable := is_readable f;
  node_writer := node_writer f; read_buf := read_buf f; write_buf := write_buf f; pos := x; cf_uid := cf_uid f; cf_done := cf_done f |}.
Definition set_done x (f : NetCfgFile) : NetCfgFile := {| cf_path := cf_path f; is_dir := is_dir f; is_writable := is_writable f; is_readable := is_readable f;
  node_writer := node_writer f; read_buf := read_buf f; write_buf := write_buf f; pos := pos f; cf_uid := cf_uid f; cf_done := x |}.

(** A method of a file, with what the nodes work on *)
Abbreviation F := (M (NetCfgFile * Env)).
Definition update (g : NetCfgFile -> NetCfgFile) : F unit := modify (fun x => (g x.1, x.2)).

(** [node_writer.write_line(line)?] and [node_writer.commit()?] *)
Definition file_write_line (line : string) : F unit :=
  x ← gets id;
  w ← unwrap (node_writer x.1);
  w ← lift (write_line w line x.2);
  update (set_writer (Some w)).
Definition file_commit_node : F unit :=
  x ← gets id;
  w ← unwrap (node_writer x.1);
  w ← zoom snd (fun e x => (x.1, e)) (node_commit w);
  update (set_writer (Some w)).

Definition commit : F unit :=
  x ← gets id;
  match node_writer x.1 with
  | Some _ =>
      match write_buf x.1 with
      | [] => mret tt
      | buf => line ← ok_or EINVAL (from_utf8 buf); file_write_line line
      end;;
      file_commit_node;;
      update (set_write_buf [])
  | None => mret tt
  end.

(** The loop over the lines after the first: each line that a newline ends is written, the last is left. *)
Fixpoint feed (cur_line : list u8) (lines : list (list u8)) : F (list u8) :=
  match lines with
  | [] => mret cur_line
  | next_line :: lines =>
      line ← ok_or EINVAL (from_utf8 cur_line);
      file_write_line line;;
      feed next_line lines
  end.

Definition consume_lines : F unit :=
  x ← gets id;
  match node_writer x.1 with
  | Some _ =>
      let '(cur_line, lines) := split_byte newline (write_buf x.1) in
      cur_line ← feed cur_line lines;
      match lines with [] => mret tt | _ => update (set_write_buf cur_line) end
  | None => throw EBADF
  end.

(** ** The scheme *)

Record NetCfgScheme := { cfg_next_fd : Z; cfg_files : gmap Z NetCfgFile; env : Env }.
Abbreviation N := (M NetCfgScheme).

Definition NetCfgScheme_new (i : Interface) (table : list Rule) (devs : list D) : NetCfgScheme :=
  {| cfg_next_fd := 1; cfg_files := ∅;
     env := {| e_iface := i; e_routes := table; e_devices := devs; name_server := v4 8 8 8 8; notifier := Notifier_new |} |}.

Definition set_cfg_next_fd x (s : NetCfgScheme) : NetCfgScheme := {| cfg_next_fd := x; cfg_files := cfg_files s; env := env s |}.
Definition set_cfg_files x (s : NetCfgScheme) : NetCfgScheme := {| cfg_next_fd := cfg_next_fd s; cfg_files := x; env := env s |}.
Definition set_env x (s : NetCfgScheme) : NetCfgScheme := {| cfg_next_fd := cfg_next_fd s; cfg_files := cfg_files s; env := x |}.

(** [self.files.get_mut(&fd).ok_or(EBADF)?] and what follows on the file *)
Definition on_file {A} (fd : Z) (m : F A) : N A := fun s =>
  match cfg_files s !! fd with
  | Some f => let '(o, (f, e)) := m (f, env s) in (o, {| cfg_next_fd := cfg_next_fd s; cfg_files := <[fd := f]> (cfg_files s); env := e |})
  | None => (Err EBADF, s)
  end.

Fixpoint find_node (parts : list string) (current_node : CfgNode) : option CfgNode :=
  match parts with
  | [] => Some current_node
  | part :: parts => if str_is_empty part then find_node parts current_node else n ← node_open part current_node; find_node parts n
  end.

Definition open (path : string) (ctx : CallerCtx) : N OpenResult :=
  current_node ← ok_or EINVAL (find_node (split_char slash path) root_node);
  e ← gets env;
  fd ← gets cfg_next_fd;
  n ← usize_add fd 1;
  modify (set_cfg_next_fd n);;
  modify (fun s => set_cfg_files (<[fd := {|
    cf_path := path; is_dir := node_is_dir current_node; is_writable := node_is_writable current_node; is_readable := node_is_readable current_node;
    node_writer := if node_is_writable current_node then node_writer_of current_node else None;
    read_buf := as_bytes (node_read current_node e); write_buf := []; pos := 0; cf_uid := ctx_uid ctx; cf_done := false |}]> (cfg_files s)) s);;
  mret (ThisScheme fd fd_empty).

Definition unsubscribe_fd (path : string) (fd : Z) (e : Env) : Env := set_notifier (unsubscribe path fd (notifier e)) e.
Definition subscribe_fd (path : string) (fd : Z) (e : Env) : Env := set_notifier (subscribe path fd (notifier e)) e.

(** The file is taken out of the table and dropped, whatever becomes of its commit. *)
Definition on_close (fd : Z) : N unit :=
  fs ← gets cfg_files;
  match fs !! fd with
  | Some file =>
      modify (fun s => set_cfg_files (delete fd (cfg_files s)) s);;
      modify (fun s => set_env (unsubscribe_fd (cf_path file) fd (env s)) s);;
      if negb (cf_done file)
      then zoom (fun s => (file, env s)) (fun x s => set_env x.2 s) (try_ commit);; mret tt
      else mret tt
  | None => mret tt
  end.

Definition write (fd : Z) (buf : list u8) : N Z :=
  on_file fd (
    x ← gets id;
    let file := x.1 in
    fail_if (cf_done file) EBADF;;
    fail_if (negb (cf_uid file =? 0)) EACCES;;
    room ← usize_sub WRITE_BUFFER_MAX_SIZE (zlen (write_buf file));
    fail_if (room <? zlen buf) EMSGSIZE;;
    update (fun f => set_write_buf (write_buf f ++ buf) f);;
    r ← try_ consume_lines;
    match r with
    | Err e => update (set_done true);; throw e
    | _ => mret (zlen buf)
    end).

Definition read (fd : Z) (buf : list u8) : N (Z * list u8) :=
  on_file fd (
    x ← gets id;
    let file := x.1 in
    let rest := drop (pos file) (read_buf file) in
    let i := common_len buf rest in
    update (set_pos (pos file + i));;
    mret (Z.of_nat i, copy_prefix i rest buf)).

Definition fstat (fd : Z) : N Stat :=
  on_file fd (
    x ← gets id;
    let file := x.1 in
    let mode := if is_dir file then MODE_DIR else MODE_FILE in
    let mode := if is_writable file then Z.lor mode 0x92 else mode in
    let mode := if is_readable file then Z.lor mode 0x124 else mode in
    mret {| st_mode := mode; st_uid := 0; st_gid := 0; st_ino := 0; st_nlink := 0; st_dev := 0;
            st_size := zlen (read_buf file); st_blksize := 0; st_blocks := 0;
            st_atime := 0; st_atime_nsec := 0; st_ctime := 0; st_ctime_nsec := 0; st_mtime := 0; st_mtime_nsec := 0 |}).

Definition fevent (fd events : Z) : N Z :=
  on_file fd (
    x ← gets id;
    let change := if all_set events EVENT_READ then subscribe_fd (cf_path x.1) fd else unsubscribe_fd (cf_path x.1) fd in
    modify (fun x => (x.1, change x.2));;
    mret 0).

Definition fsync (fd : Z) : N unit :=
  on_file fd (
    x ← gets id;
    if negb (cf_done x.1) then
      res ← try_ commit;
      update (set_done true);;
      lift res
    else throw EBADF).

#[export] Instance netcfg_scheme : SchemeSync NetCfgScheme := implement {|
  o_open p _ ctx := open p ctx;
  o_unlinkat := None;
  o_dup := None;
  o_read i buf _ _ _ := read i buf;
  o_write i buf _ _ _ := write i buf;
  o_fcntl := None;
  o_fevent := Some (fun i fl _ => fevent i fl);
  o_fpath _ _ _ := throw EOPNOTSUPP;
  o_fstat := Some (fun i _ => fstat i);
  o_fsync := Some (fun i _ => fsync i);
  o_ftruncate := None;
  o_mmap_prep := None;
  o_on_close := on_close
|}.

(** ** Requests *)

Context {WO : SchemeOut}.

(** The scheme with the memory of the callers and what the kernel has got *)
Record NetCfg := { cfg : NetCfgScheme; cfg_mem : memory; cfg_writes : nat; cfg_sent : list Response }.
Abbreviation C := (M NetCfg).

Definition NetCfg_new (s : NetCfgScheme) (m : memory) : NetCfg := {| cfg := s; cfg_mem := m; cfg_writes := 0; cfg_sent := [] |}.
Definition on_cfg {A} (m : M (NetCfgScheme * memory) A) : C A :=
  zoom (fun w => (cfg w, cfg_mem w)) (fun x w => {| cfg := x.1; cfg_mem := x.2; cfg_writes := cfg_writes w; cfg_sent := cfg_sent w |}) m.
Definition on_netcfg {A} (m : N A) : C A :=
  zoom cfg (fun x w => {| cfg := x; cfg_mem := cfg_mem w; cfg_writes := cfg_writes w; cfg_sent := cfg_sent w |}) m.

(** [self.scheme_file.write_response(r, ..)] *)
Definition cfg_respond (r : Response) : C bool :=
  n ← gets cfg_writes;
  match write_result n with
  | Ok taken => modify (fun w => {| cfg := cfg w; cfg_mem := cfg_mem w; cfg_writes := n + 1; cfg_sent := if taken then cfg_sent w ++ [r] else cfg_sent w |});; mret taken
  | Err e => throw e
  | Panic => panic
  end.

(** [post_fevent], whose result is ignored *)
Fixpoint post_fevents (fds : list Z) : C unit :=
  match fds with
  | [] => mret tt
  | fd :: fds => try_ (b ← cfg_respond (Response_post_fevent fd EVENT_READ); fail_if (negb b) EAGAIN : C unit);; post_fevents fds
  end.
Definition notify_scheduled_fds : C unit :=
  fds ← on_netcfg (fun s => let '(fds, n) := get_notified_fds (notifier (env s)) in (Ok fds, set_env (set_notifier n (env s)) s));
  post_fevents fds.

(** One turn of the loop *)
Definition handle_request (request : Request) : C unit :=
  match kind request with
  | RK_Call req =>
      op ← lift (from_sqe_unchecked req);
      match op with
      | None => try_ (cfg_respond (Response_err EOPNOTSUPP (sqe_tag req)));; mret tt
      | Some op => resp ← on_cfg (handle_sync op (caller req)); cfg_respond resp;; mret tt
      end
  | RK_OnClose id => on_netcfg (on_close id)
  | _ => mret tt
  end.

Fixpoint handle_requests (requests : list Request) : C unit :=
  match requests with [] => mret tt | request :: requests => handle_request request;; handle_requests requests end.

(** The requests that there are; then the socket is empty ([None]), closed ([Some]) or fails. *)
Definition on_scheme_event (requests : list Request) (end_ : outcome (option unit)) : C (option unit) :=
  handle_requests requests;;
  result ← lift end_;
  notify_scheduled_fds;;
  mret result.
End netcfg.
