(* ===== verification/NetCfgFacts.v ===== *)
(** * netstack: what configuring guarantees

    Only a commit of a file that root has opened changes the configuration; how lines are cut into writes does not matter; a route that is
    written is used; and no request makes the scheme panic. *)

From stdpp Require Import base gmap strings list fin_maps sorting.
From Stdlib Require Import ZArith Lia.
From Stdlib Require Import Strings.Byte.
From S2P Require Import Netstack NetstackFacts Sockets SockProto Link Prelude Memory Syscall SchemeApi Readiness Schemes SockServer SockServerFacts NetCfg.

Local Open Scope Z_scope.

(** ** Lines *)

(** The lines of [l] that a newline ends, the first of which begins with [cur], and what follows the last newline *)
Fixpoint cut (cur l : list u8) : list (list u8) * list u8 :=
  match l with
  | [] => ([], cur)
  | c :: l => if bool_decide (c = newline) then let '(ls, r) := cut [] l in (cur :: ls, r) else cut (cur ++ [c]) l
  end.

Lemma cut_app x : forall cur y, cut cur (x ++ y) = let '(ls, r) := cut cur x in let '(ls', r') := cut r y in (ls ++ ls', r').
Proof.
  induction x as [| c x IH]; intros cur y; cbn; [by destruct (cut cur y) |]. case_bool_decide; [| apply IH].
  rewrite IH. destruct (cut [] x) as [ls r]. by destruct (cut r y).
Qed.

Lemma cut_plain x : forall cur, newline ∉ x -> cut cur x = ([], cur ++ x).
Proof.
  induction x as [| c x IH]; intros cur H; cbn; [by rewrite app_nil_r |]. rewrite bool_decide_false; [| set_solver].
  rewrite IH by set_solver. by rewrite <- app_assoc.
Qed.

Lemma cut_rest x : forall cur, newline ∉ cur -> newline ∉ (cut cur x).2.
Proof.
  induction x as [| c x IH]; intros cur H; cbn; [done |]. case_bool_decide.
  - specialize (IH [] ltac:(set_solver)). by destruct (cut [] x).
  - apply IH. set_solver.
Qed.

Lemma cut_none l : forall cur r, cut cur l = ([], r) -> r = cur ++ l.
Proof.
  induction l as [| c l IH]; intros cur r; cbn; [intros [= <-]; by rewrite app_nil_r |]. case_bool_decide; [by destruct (cut [] l) |].
  intros ->%IH. by rewrite <- app_assoc.
Qed.

(** Cutting what follows the last newline again, with more bytes, goes on. *)
Lemma cut_again x y : cut [] (x ++ y) = let '(ls, r) := cut [] x in let '(ls', r') := cut [] (r ++ y) in (ls ++ ls', r').
Proof.
  rewrite cut_app. pose proof (cut_rest x [] ltac:(set_solver)) as Hr. destruct (cut [] x) as [ls r]. cbn [snd] in Hr.
  rewrite cut_app, (cut_plain r) by done. cbn. by destruct (cut r y).
Qed.

Lemma split_cut l : forall cur, let '(p, ps) := split_byte newline l in
  cut cur l = match ps with [] => ([], cur ++ p) | _ => ((cur ++ p) :: removelast ps, List.last ps []) end.
Proof.
  induction l as [| c l IH]; intros cur; cbn; [by rewrite app_nil_r |]. case_bool_decide as Hc.
  - specialize (IH []). destruct (split_byte newline l) as [p ps]. cbn in *. rewrite IH. destruct ps as [| q ps]; [by rewrite app_nil_r |].
    cbn. by rewrite app_nil_r.
  - specialize (IH (cur ++ [c])). destruct (split_byte newline l) as [p ps]. rewrite IH. by rewrite <- !app_assoc.
Qed.

Section netcfg.
Context {TG : Target} {SC : Syscall} {AB : SchemeAbi} {IP : IpApi} {IF : IfaceApi} {WA : WireApi} {MA : MacApi} {CA : CfgApi}.
Context {D : Type} {LD : LinkDevice D}.
Implicit Types (e : Env (D := D)) (s : NetCfgScheme (D := D)).

(** ** Writing lines *)

(** A writer that gets the lines *)
Fixpoint run_lines e (ls : list (list u8)) : M NodeWriter unit :=
  match ls with
  | [] => mret tt
  | l :: ls =>
      line ← ok_or EINVAL (from_utf8 l);
      (fun w => match write_line w line e with Ok w' => (Ok tt, w') | Err x => (Err x, w) | Panic => (Panic, w) end);;
      run_lines e ls
  end.

Lemma run_lines_app e ls ls' : forall w, run_lines e (ls ++ ls') w = (run_lines e ls;; run_lines e ls') w.
Proof.
  induction ls as [| l ls IH]; intros w; cbn [app run_lines]; [done |]. destruct (from_utf8 l) as [line |]; [| done].
  unfold ok_or, mbind, M_bind in *. cbn [mret M_ret]. destruct (write_line w line e); [apply IH | reflexivity | reflexivity].
Qed.

Lemma set_writer_id f w : node_writer f = Some w -> set_writer (Some w) f = f.
Proof. destruct f. cbn. by intros ->. Qed.

Lemma feed_eq e : forall lines cur f w, node_writer f = Some w ->
  feed cur lines (f, e) =
    match run_lines e (removelast (cur :: lines)) w with
    | (Ok _, w') => (Ok (List.last (cur :: lines) []), (set_writer (Some w') f, e))
    | (Err x, w') => (Err x, (set_writer (Some w') f, e))
    | (Panic, w') => (Panic, (set_writer (Some w') f, e))
    end.
Proof.
  induction lines as [| next lines IH]; intros cur f w Hw; cbn [feed].
  - destruct f; cbn in *; by subst.
  - change (removelast (cur :: next :: lines)) with (cur :: removelast (next :: lines)). cbn [run_lines].
    change (List.last (cur :: next :: lines) []) with (List.last (next :: lines) []).
    destruct (from_utf8 cur) as [line |]; [| destruct f; cbn in *; by subst].
    unfold file_write_line, update, gets, lift, modify, ok_or, mbind, M_bind. cbn [id fst snd mret M_ret]. rewrite Hw. cbn [unwrap mret M_ret].
    destruct (write_line w line e) as [w1 | x |] eqn:E; cbn [fst snd]; [| destruct f; cbn in *; by subst | destruct f; cbn in *; by subst].
    rewrite (IH next (set_writer (Some w1) f) w1) by done. by destruct (run_lines e _ w1) as [[] w2].
Qed.

(** Only [EINVAL] comes of a line, and it leaves the writer. *)
Lemma write_line_err w line e : (exists w', write_line w line e = Ok w') \/ write_line w line e = Err EINVAL.
Proof.
  unfold write_line, nameserver_write_line, route_add_write_line, route_rm_write_line, mac_write_line, addr_set_write_line, parse_route, o_ok_or, mbind, outcome_bind.
  destruct w as [v | v | v | v | v]; destruct v; first [by right | repeat case_match; simplify_eq; eauto].
Qed.

(** Files as they are taken after lines *)
Definition fed f w r : NetCfgFile := set_write_buf r (set_writer (Some w) f).

Lemma consume_eq f e w : node_writer f = Some w ->
  consume_lines (f, e) =
    match run_lines e (cut [] (write_buf f)).1 w with
    | (Ok _, w') => (Ok tt, (fed f w' (cut [] (write_buf f)).2, e))
    | (Err x, w') => (Err x, (set_writer (Some w') f, e))
    | (Panic, w') => (Panic, (set_writer (Some w') f, e))
    end.
Proof.
  intros Hw. unfold consume_lines, gets, mbind, M_bind. cbn [id fst snd]. rewrite Hw.
  pose proof (split_cut (write_buf f) []) as Hs. destruct (split_byte newline (write_buf f)) as [p ps]. rewrite Hs. rewrite (feed_eq e ps p f w Hw).
  destruct ps as [| q ps].
  - cbn. apply cut_none in Hs. cbn in Hs. subst p. by destruct f.
  - change (removelast (p :: q :: ps)) with (p :: removelast (q :: ps)). change (List.last (p :: q :: ps) []) with (List.last (q :: ps) []).
    cbn [fst snd app]. by destruct (run_lines e _ w) as [[] w'].
Qed.

Lemma run_lines_err e ls : forall w, exists w', run_lines e ls w = (Ok tt, w') \/ run_lines e ls w = (Err EINVAL, w').
Proof.
  induction ls as [| l ls IH]; intros w; cbn [run_lines]; [exists w; by left |]. unfold mbind, M_bind, ok_or.
  destruct (from_utf8 l) as [line |]; cbn; [| exists w; by right]. destruct (write_line_err w line e) as [[w1 ->] | ->]; [apply IH | exists w; by right].
Qed.

(** ** Writes *)

(** What [write] asks of a file *)
Definition takes f (n : Z) : Prop := cf_done f = false /\ cf_uid f = 0 /\ zlen (write_buf f) + n <= WRITE_BUFFER_MAX_SIZE.

Definition put_file fd f s : NetCfgScheme := set_cfg_files (<[fd := f]> (cfg_files s)) s.

Lemma room_eq {S} f n (s : S) : zlen (write_buf f) + n <= WRITE_BUFFER_MAX_SIZE -> 0 <= n ->
  usize_sub WRITE_BUFFER_MAX_SIZE (zlen (write_buf f)) s = (Ok (WRITE_BUFFER_MAX_SIZE - zlen (write_buf f)), s).
Proof.
  intros H Hn. unfold usize_sub, arith. unfold WRITE_BUFFER_MAX_SIZE, zlen in *.
  assert (65536 <= 2 ^ usize_bits) by (destruct usize_bits_ok as [-> | ->]; cbn; lia). by rewrite (proj2 (andb_true_iff _ _)) by lia.
Qed.

(** The work of a write that passes the guards *)
Definition write_lines (buf : list u8) : M (NetCfgFile * Env (D := D)) Z :=
  update (fun f => set_write_buf (write_buf f ++ buf) f);;
  r ← try_ consume_lines;
  match r with
  | Err e => update (set_done true);; throw e
  | _ => mret (zlen buf)
  end.

Lemma write_guards fd buf f s : cfg_files s !! fd = Some f -> zlen (write_buf f) <= WRITE_BUFFER_MAX_SIZE ->
  write fd buf s =
    on_file fd (if cf_done f then throw EBADF else if negb (cf_uid f =? 0) then throw EACCES
                else if WRITE_BUFFER_MAX_SIZE - zlen (write_buf f) <? zlen buf then throw EMSGSIZE else write_lines buf) s.
Proof.
  intros Hf Hb. unfold write, on_file. rewrite Hf. rewrite gets_bind. cbn [id fst]. destruct (cf_done f); [done |].
  destruct (cf_uid f =? 0); [| done]. cbn [negb fail_if]. unfold mbind at 1 2 3, M_bind at 1 2 3. cbn [mret M_ret].
  rewrite (room_eq f 0) by lia. cbn beta iota. by destruct (WRITE_BUFFER_MAX_SIZE - zlen (write_buf f) <? zlen buf).
Qed.

Lemma write_eq fd buf f w s : cfg_files s !! fd = Some f -> takes f (zlen buf) -> node_writer f = Some w ->
  write fd buf s =
    match run_lines (env s) (cut [] (write_buf f ++ buf)).1 w with
    | (Ok _, w') => (Ok (zlen buf), put_file fd (fed f w' (cut [] (write_buf f ++ buf)).2) s)
    | (_, w') => (Err EINVAL, put_file fd (set_done true (set_writer (Some w') (set_write_buf (write_buf f ++ buf) f))) s)
    end.
Proof.
  intros Hf (Hd & Hu & Hr) Hw. assert (0 <= zlen buf) by (unfold zlen; lia). rewrite (write_guards fd buf f s Hf ltac:(lia)), Hd, Hu.
  replace (WRITE_BUFFER_MAX_SIZE - zlen (write_buf f) <? zlen buf) with false by lia. cbn [negb Z.eqb].
  unfold on_file. rewrite Hf. unfold write_lines, update. rewrite modify_bind. cbn [fst snd]. unfold try_, mbind, M_bind.
  rewrite (consume_eq (set_write_buf (write_buf f ++ buf) f) (env s) w Hw). cbn [write_buf set_write_buf].
  by destruct (run_lines_err (env s) (cut [] (write_buf f ++ buf)).1 w) as [w' [E | E]]; rewrite E.
Qed.

(** A write that succeeds, and what it leaves *)
Lemma write_ok fd buf n s s' :
  (forall f, cfg_files s !! fd = Some f -> zlen (write_buf f) <= WRITE_BUFFER_MAX_SIZE) ->
  write fd buf s = (Ok n, s') <-> exists f w w', cfg_files s !! fd = Some f /\ takes f (zlen buf) /\ node_writer f = Some w /\ n = zlen buf /\
    run_lines (env s) (cut [] (write_buf f ++ buf)).1 w = (Ok tt, w') /\ s' = put_file fd (fed f w' (cut [] (write_buf f ++ buf)).2) s.
Proof.
  intros Hb. split.
  - intros H. destruct (cfg_files s !! fd) as [f |] eqn:Hf; [| by unfold write, on_file in H; rewrite Hf in H]. specialize (Hb f eq_refl).
    destruct (node_writer f) as [w |] eqn:Hw.
    + assert (takes f (zlen buf)) as Ht.
      { rewrite (write_guards fd buf f s Hf Hb) in H. unfold on_file in H. rewrite Hf in H. unfold takes. destruct (cf_done f); [done |].
        destruct (Z.eqb_spec (cf_uid f) 0); [| done]. cbn [negb] in H. destruct (Z.ltb_spec (WRITE_BUFFER_MAX_SIZE - zlen (write_buf f)) (zlen buf)); [done |].
        split_and!; [done | done | lia]. }
      rewrite (write_eq fd buf f w s Hf Ht Hw) in H. destruct (run_lines_err (env s) (cut [] (write_buf f ++ buf)).1 w) as [w' [E | E]]; rewrite E in H; [| done].
      injection H as <- <-. by exists f, w, w'.
    + exfalso. rewrite (write_guards fd buf f s Hf Hb) in H. unfold on_file in H. rewrite Hf in H.
      repeat match type of H with context [if ?b then _ else _] => destruct b end; try done.
      unfold write_lines, update in H. rewrite modify_bind in H. unfold try_, consume_lines, mbind, M_bind in H. cbn in H. by rewrite Hw in H.
  - intros (f & w & w' & Hf & Ht & Hw & -> & Hr & ->). rewrite (write_eq fd buf f w s Hf Ht Hw). by rewrite Hr.
Qed.

Lemma cut_short x : forall cur, (length (cut cur x).2 <= length cur + length x)%nat.
Proof.
  induction x as [| c x IH]; intros cur; cbn; [lia |]. case_bool_decide.
  - specialize (IH []). destruct (cut [] x). cbn in *. lia.
  - specialize (IH (cur ++ [c])). rewrite length_app in IH. cbn in *. lia.
Qed.


(** ** Who may change the configuration *)

Definition settings e := (e_iface e, e_routes e, e_devices e, name_server e).

(** A writer that has been given nothing *)
Definition fresh (w : NodeWriter) : Prop :=
  match w with NameserverWriter v => v = None | RouteAddWriter v => v = None | RouteRmWriter v => v = None | MacWriter v => v = None | AddrSetWriter v => v = None end.

(** A file: its buffer is bounded, and holds nothing unless root has opened it. *)
Record file_ok f : Prop := {
  fo_size : zlen (write_buf f) <= WRITE_BUFFER_MAX_SIZE;
  fo_root : cf_uid f <> 0 -> write_buf f = [] /\ forall w, node_writer f = Some w -> fresh w
}.

Record cfg_inv s : Prop := {
  ci_files : forall fd f, cfg_files s !! fd = Some f -> file_ok f;
  ci_routes : route_sorted (e_routes (env s));
  ci_next : 0 <= cfg_next_fd s
}.

(** What a method of a file keeps: the path, the owner, and the invariant of the file and of the routes *)
Definition keeps_file {A} (same : Prop) (m : M (NetCfgFile * Env (D := D)) A) (x : NetCfgFile * Env) : Prop :=
  wp m (fun _ x' => file_ok x'.1 /\ cf_uid x'.1 = cf_uid x.1 /\ route_sorted (e_routes x'.2) /\ (same -> settings x'.2 = settings x.2)) x.

Lemma cfg_inv_put fd f s : cfg_inv s -> file_ok f -> cfg_inv (put_file fd f s).
Proof.
  intros [H1 H2 H3] Hf. split; [| done | done]. intros i g. cbn. destruct (decide (i = fd)) as [-> | Hi].
  - rewrite lookup_insert_eq. by intros [= <-].
  - rewrite lookup_insert_ne by done. apply H1.
Qed.

Lemma on_file_wp {A} (same : Prop) fd (m : M (NetCfgFile * Env) A) s :
  cfg_inv s -> (forall f, cfg_files s !! fd = Some f -> keeps_file same m (f, env s)) ->
  wp (on_file fd m) (fun _ s' => cfg_inv s' /\ (same -> settings (env s') = settings (env s))) s.
Proof.
  intros Hi Hm. unfold wp, on_file. destruct (cfg_files s !! fd) as [f |] eqn:Hf; [| done]. specialize (Hm f eq_refl). unfold keeps_file, wp in Hm.
  destruct (m (f, env s)) as [o [f' e']]. cbn [fst snd] in *. destruct Hm as (H1 & _ & H2 & H3). split; [| exact H3].
  pose proof (cfg_inv_put fd f' s Hi H1) as [H4 _ H5]. split; [exact H4 | exact H2 | exact H5].
Qed.

(** A commit of a writer: without a value it changes nothing. *)
Lemma with_device_routes {A} i (m : M D A) e : e_routes (with_device i m e).2 = e_routes e.
Proof. unfold with_device. destruct (e_devices e !! i) as [d |]; [| done]. by destruct (m d). Qed.
Lemma update_ip_addrs_routes g e : e_routes (update_ip_addrs g e).2 = e_routes e.
Proof. unfold update_ip_addrs, gets, unwrap, mbind, M_bind. by destruct (set_ip_addrs _ _). Qed.

Lemma sorted_keeps {A} (m : M (Env (D := D)) A) : (forall e, e_routes (m e).2 = e_routes e) -> keeps (fun e => route_sorted (e_routes e)) m.
Proof. intros H e He. unfold wp. by rewrite H. Qed.

Lemma bind_keeps {A B} (I : Env (D := D) -> Prop) (m : M Env A) (k : A -> M Env B) : keeps I m -> (forall a, keeps I (k a)) -> keeps I (m ≫= k).
Proof.
  intros Hm Hk e He. apply wp_bind. eapply wp_mono; [| by apply Hm]. intros [a | |] e' He'; [by apply Hk | done | done].
Qed.

Lemma keeps_unwrap {A} (I : Env (D := D) -> Prop) (o : option A) : keeps I (unwrap o).
Proof. intros e He. by destruct o. Qed.

Lemma change_address_sorted i cidr : keeps (fun e => route_sorted (e_routes e)) (change_address i cidr).
Proof.
  unfold change_address. repeat first
    [ apply bind_keeps; [| intros ?]
    | apply keeps_unwrap
    | apply sorted_keeps; intros e; first [reflexivity | apply with_device_routes | apply update_ip_addrs_routes]
    | match goal with |- keeps _ (match ?x with _ => _ end) => destruct x end
    | intros e He; apply wp_modify; cbn; first [by apply change_src_sorted, remove_rule_sorted | by apply insert_rule_sorted] ].
Qed.

Lemma node_commit_sorted w : keeps (fun e => route_sorted (e_routes e)) (node_commit w).
Proof.
  destruct w as [[v |] | [v |] | [v |] | [v |] | [v |]]; cbn [node_commit];
    unfold nameserver_commit, route_add_commit, route_rm_commit, mac_commit, addr_set_commit, notify;
    repeat first
    [ apply change_address_sorted
    | apply bind_keeps; [| intros ?]
    | apply keeps_unwrap
    | apply sorted_keeps; intros e; first [reflexivity | apply with_device_routes]
    | match goal with |- keeps _ (match ?x with _ => _ end) => destruct x end
    | intros e He; apply wp_modify; cbn; first [by apply insert_rule_sorted | by apply remove_rule_sorted] ].
Qed.

Lemma node_commit_fresh w : fresh w -> forall e, (node_commit w e).2 = e /\ forall w', (node_commit w e).1 = Ok w' -> fresh w'.
Proof. intros Hw e. destruct w as [v | v | v | v | v]; cbn in Hw; subst v; cbn; (split; [done |]); by intros w' [= <-]. Qed.

(** ** Methods of a file *)

Lemma commit_keeps f e : file_ok f -> route_sorted (e_routes e) -> keeps_file (cf_uid f <> 0) commit (f, e).
Proof.
  intros Hok Hr. destruct Hok as [H1 H2] eqn:Eok. clear Eok. unfold keeps_file, commit. apply wp_bind, wp_gets. cbn [id fst]. destruct (node_writer f) as [w |] eqn:Hw; [| by apply wp_ret].
  assert (forall f w, node_writer f = Some w -> file_ok f -> (cf_uid f <> 0 -> fresh w) ->
    wp (file_commit_node;; update (set_write_buf []))
       (fun _ x' => file_ok x'.1 /\ cf_uid x'.1 = cf_uid f /\ route_sorted (e_routes x'.2) /\ (cf_uid f <> 0 -> settings x'.2 = settings e)) (f, e)) as Hn.
  { clear f w Hw H1 H2 Hok. intros f w Hw [H1 H2] Hf. apply wp_bind. unfold file_commit_node. apply wp_bind, wp_gets. cbn [id fst]. rewrite Hw. apply wp_bind, wp_ret, wp_bind, wp_zoom.
    pose proof (node_commit_sorted w e Hr) as Hs. unfold wp in Hs |- *. cbn [snd]. pose proof (node_commit_fresh w) as Hk.
    destruct (node_commit w e) as [o e'] eqn:Ec. cbn [fst snd] in *.
    assert (cf_uid f <> 0 -> e' = e /\ forall w', o = Ok w' -> fresh w') as Hk' by (intros Hu; specialize (Hk (Hf Hu) e); by rewrite Ec in Hk).
    destruct o as [w' | x |]; cbn.
    - split_and!; [| done | done | intros Hu; by destruct (Hk' Hu) as [-> _]]. split; [unfold WRITE_BUFFER_MAX_SIZE, zlen; cbn; lia |]. cbn. intros Hu. split; [done |].
      intros w1 [= <-]. by apply Hk'.
    - split_and!; [by split | done | done | intros Hu; by destruct (Hk' Hu) as [-> _]].
    - split_and!; [by split | done | done | intros Hu; by destruct (Hk' Hu) as [-> _]]. }
  destruct (write_buf f) as [| b l] eqn:Eb.
  - apply wp_bind, wp_ret. apply (Hn f w); [done | exact Hok | intros Hu; by apply H2].
  - assert (cf_uid f = 0) as Hu by (destruct (decide (cf_uid f = 0)) as [| Hu]; [done | by destruct (H2 Hu)]).
    apply wp_bind, wp_bind, wp_ok_or; [intros line _ | intros _; by split_and!].
    unfold file_write_line. apply wp_bind, wp_gets. cbn [id fst snd]. rewrite Hw. apply wp_bind, wp_ret, wp_bind, wp_lift.
    destruct (write_line_err w line e) as [[w1 ->] | ->]; [| by split_and!]. apply wp_modify. cbn [fst snd].
    apply (Hn (set_writer (Some w1) f) w1); [done | by split; cbn; rewrite ?Eb | done].
Qed.

(** The result of a method, looked at later *)
Lemma keeps_file_try {A} same (m : M (NetCfgFile * Env (D := D)) A) x : keeps_file same m x -> keeps_file same (try_ m) x.
Proof. unfold keeps_file, wp, try_. by destruct (m x) as [[] y]. Qed.

(** A method that ends well by itself, followed by others that keep the environment *)
Lemma keeps_file_bind {A B} same (m : M (NetCfgFile * Env (D := D)) A) (k : A -> M _ B) x :
  keeps_file same m x -> (forall a x', file_ok x'.1 -> cf_uid x'.1 = cf_uid x.1 -> route_sorted (e_routes x'.2) -> keeps_file same (k a) x') ->
  keeps_file same (m ≫= k) x.
Proof.
  unfold keeps_file at 1. intros Hm Hk. apply wp_bind. eapply wp_mono; [| exact Hm]. intros [a | |] x' (H1 & H2 & H3 & H4); [| done | done].
  eapply wp_mono; [| by apply Hk]. intros o x2 (G1 & G2 & G3 & G4). split_and!; [done | congruence | done |]. intros Hs. rewrite G4, H4 by done. done.
Qed.

Lemma keeps_file_refl {A} same (o : outcome A) x : file_ok x.1 -> route_sorted (e_routes x.2) -> keeps_file same (lift o) x.
Proof. intros H1 H2. by split_and!. Qed.

Lemma write_lines_keeps f e buf : file_ok f -> route_sorted (e_routes e) -> takes f (zlen buf) -> keeps_file True (write_lines buf) (f, e).
Proof.
  intros [H1 H2] Hr (Hd & Hu & Hn). unfold keeps_file, write_lines, update. apply wp_bind, wp_modify. cbn [fst snd].
  destruct (node_writer f) as [w |] eqn:Hw.
  - unfold try_, mbind, M_bind, wp. rewrite (consume_eq (set_write_buf (write_buf f ++ buf) f) e w Hw). cbn [write_buf set_write_buf].
    pose proof (cut_short (write_buf f ++ buf) []) as Hc. rewrite length_app in Hc. cbn in Hc.
    destruct (run_lines_err e (cut [] (write_buf f ++ buf)).1 w) as [w' [E | E]]; rewrite E; cbn; (split_and!; [split; cbn; [| done] | done | done | done]).
    + unfold zlen in *. lia.
    + unfold zlen in *. rewrite length_app. lia.
  - unfold try_, consume_lines, mbind, M_bind, wp. cbn. rewrite Hw. cbn. split_and!; [| done | done | done]. split; cbn; [| done]. unfold zlen in *. rewrite length_app. lia.
Qed.

Lemma cfg_write_keeps fd buf s : cfg_inv s -> wp (write fd buf) (fun _ s' => cfg_inv s' /\ (True -> settings (env s') = settings (env s))) s.
Proof.
  intros Hi. destruct (cfg_files s !! fd) as [f |] eqn:Hf; [| unfold wp, write, on_file; by rewrite Hf].
  pose proof (ci_files s Hi fd f Hf) as Hok. unfold wp. rewrite (write_guards fd buf f s Hf (fo_size f Hok)). apply on_file_wp; [done |].
  intros g Hg. simplify_eq. pose proof (ci_routes s Hi) as Hr. repeat case_match; try by apply (keeps_file_refl True (Err _)). apply write_lines_keeps; [done | done |].
  split_and!; [done | lia | lia].
Qed.

Lemma read_keeps fd buf s : cfg_inv s -> wp (read fd buf) (fun _ s' => cfg_inv s' /\ (True -> settings (env s') = settings (env s))) s.
Proof.
  intros Hi. apply on_file_wp; [done |]. intros f Hf. destruct (ci_files s Hi fd f Hf) as [H1 H2]. pose proof (ci_routes s Hi).
  by split_and!.
Qed.

Lemma fstat_keeps fd s : cfg_inv s -> wp (fstat fd) (fun _ s' => cfg_inv s' /\ (True -> settings (env s') = settings (env s))) s.
Proof.
  intros Hi. apply on_file_wp; [done |]. intros f Hf. pose proof (ci_files s Hi fd f Hf). pose proof (ci_routes s Hi). by split_and!.
Qed.

Lemma fevent_keeps fd ev s : cfg_inv s -> wp (fevent fd ev) (fun _ s' => cfg_inv s' /\ (True -> settings (env s') = settings (env s))) s.
Proof.
  intros Hi. apply on_file_wp; [done |]. intros f Hf. pose proof (ci_files s Hi fd f Hf). pose proof (ci_routes s Hi). unfold keeps_file, wp. cbn.
  destruct (all_set ev EVENT_READ); by split_and!.
Qed.

(** The writers of the tree have been given nothing. *)
Inductive fresh_node : CfgNode (D := D) -> Prop :=
| fn_ro f : fresh_node (RONode f)
| fn_wo w : fresh w -> fresh_node (WONode w)
| fn_rw f w : fresh w -> fresh_node (RWNode f w)
| fn_dir cs : Forall (fun c => fresh_node c.2) cs -> fresh_node (StaticDirNode cs).

Lemma fresh_root : fresh_node root_node.
Proof. unfold root_node. repeat (cbn; constructor). Qed.

Lemma find_node_fresh parts : forall m n, fresh_node m -> find_node parts m = Some n -> fresh_node n.
Proof.
  induction parts as [| part parts IH]; intros m n Hm; cbn; [by intros [= <-] |]. destruct (str_is_empty part); [by apply IH |].
  intros (m' & Hm' & Hn)%bind_Some. apply (IH m' n); [| done]. destruct Hm as [f | w Hw | f w Hw | cs Hcs]; try done. cbn in Hm'.
  destruct (list_find _ cs) as [[i c] |] eqn:E; [| done]. injection Hm' as <-. apply list_find_Some in E as (Hi & _ & _).
  rewrite Forall_lookup in Hcs. by apply (Hcs i c).
Qed.

Lemma cfg_open_keeps path ctx s : cfg_inv s -> wp (open path ctx) (fun _ s' => cfg_inv s' /\ (True -> settings (env s') = settings (env s))) s.
Proof.
  intros Hi. unfold open. apply wp_bind, wp_ok_or; [intros n Hn | by intros _]. apply (find_node_fresh _ _ _ fresh_root) in Hn.
  apply wp_bind, wp_gets, wp_bind, wp_gets. apply wp_bind. assert (forall Q : outcome Z -> NetCfgScheme -> Prop, (forall k, 0 <= k -> Q (Ok k) s) -> Q Panic s -> wp (usize_add (cfg_next_fd s) 1) Q s) as Hw.
  { intros Q HQ HP. unfold usize_add. apply wp_arith; intros; [apply HQ; lia | done | apply HQ, Z.mod_pos_bound; destruct usize_bits_ok as [-> | ->]; lia]. }
  apply Hw; [intros k Hk | done]. apply wp_bind, wp_modify, wp_bind, wp_modify, wp_ret. split; [| done]. cbn [cfg_files set_cfg_next_fd].
  apply (cfg_inv_put _ _ (set_cfg_next_fd k s)); [by destruct Hi; split |]. split; [unfold zlen; cbn; unfold WRITE_BUFFER_MAX_SIZE; lia |]. intros _. split; [done |].
  cbn. intros w. destruct Hn; cbn; by intros [= <-].
Qed.

Lemma fsync_keeps fd s : cfg_inv s ->
  wp (fsync fd) (fun _ s' => cfg_inv s' /\ ((forall f, cfg_files s !! fd = Some f -> ~ (cf_uid f = 0 /\ cf_done f = false)) -> settings (env s') = settings (env s))) s.
Proof.
  intros Hi. apply on_file_wp; [done |]. intros f Hf. pose proof (ci_files s Hi fd f Hf) as Hok. pose proof (ci_routes s Hi) as Hr.
  unfold keeps_file. apply wp_bind, wp_gets. cbn [id fst]. destruct (cf_done f) eqn:Ed; cbn [negb]; [by split_and! |].
  assert (keeps_file (cf_uid f <> 0) (res ← try_ commit; update (set_done true);; lift res) (f, env s)) as Hc.
  { apply keeps_file_bind; [by apply keeps_file_try, commit_keeps |]. intros res x' G1 G2 G3. unfold keeps_file, update. apply wp_bind, wp_modify. cbn.
    split_and!; [destruct G1; by split | done | done | done]. }
  unfold keeps_file in Hc. eapply wp_mono; [| exact Hc]. intros o x' (G1 & G2 & G3 & G4). split_and!; [done | done | done |]. intros Hs. apply G4. intros Hu. by apply (Hs f Hf).
Qed.

Lemma cfg_close_keeps fd s : cfg_inv s ->
  wp (on_close fd) (fun _ s' => cfg_inv s' /\ ((forall f, cfg_files s !! fd = Some f -> ~ (cf_uid f = 0 /\ cf_done f = false)) -> settings (env s') = settings (env s))) s.
Proof.
  intros Hi. unfold on_close. apply wp_bind, wp_gets. destruct (cfg_files s !! fd) as [f |] eqn:Hf; [| by apply wp_ret].
  pose proof (ci_files s Hi fd f Hf) as Hok. pose proof (ci_routes s Hi) as Hr. apply wp_bind, wp_modify, wp_bind, wp_modify.
  assert (forall i g, delete fd (cfg_files s) !! i = Some g -> file_ok g) as Hd by (intros i g [_ Hg]%lookup_delete_Some; by apply (ci_files s Hi i)).
  destruct (cf_done f) eqn:Ed; cbn [negb]; [apply wp_ret; split; [| done]; split; [exact Hd | exact Hr | exact (ci_next s Hi)] |].
  pose proof (keeps_file_try _ _ _ (commit_keeps f (unsubscribe_fd (cf_path f) fd (env s)) Hok Hr)) as Hc. unfold keeps_file in Hc.
  apply wp_bind, wp_zoom. eapply wp_mono; [| exact Hc].
  intros o [f' e'] (G1 & G2 & G3 & G4). cbn [fst snd] in *.
  assert (cfg_inv (set_env e' (set_env (unsubscribe_fd (cf_path f) fd (env s)) (set_cfg_files (delete fd (cfg_files s)) s)))) as Hinv by (split; [exact Hd | exact G3 | exact (ci_next s Hi)]).
  assert ((forall f0, Some f = Some f0 -> ~ (cf_uid f0 = 0 /\ cf_done f0 = false)) -> settings e' = settings (env s)) as Hset.
  { intros Hs. rewrite G4; [done |]. intros Hu. by apply (Hs f). }
  destruct o; [apply wp_ret | |]; by split.
Qed.

(** ** The server *)

Context {WO : SchemeOut}.
Implicit Types w : NetCfg (D := D).

(** The methods of the scheme apart from [fsync] *)
Definition other_methods : overrides NetCfgScheme := {|
  o_open p _ ctx := open p ctx; o_unlinkat := None; o_dup := None;
  o_read i buf _ _ _ := read i buf; o_write i buf _ _ _ := write i buf; o_fcntl := None;
  o_fevent := Some (fun i fl _ => fevent i fl); o_fpath _ _ _ := throw EOPNOTSUPP; o_fstat := Some (fun i _ => fstat i);
  o_fsync := None; o_ftruncate := None; o_mmap_prep := None; o_on_close := on_close
|}.

Lemma handle_other op ctx : (forall t fd, op <> Fsync t fd) ->
  handle_sync_dont_consume (SS := netcfg_scheme) op ctx = handle_sync_dont_consume (SS := implement other_methods) op ctx.
Proof. intros Hop. destruct op; try reflexivity. by destruct (Hop req fd). Qed.

(** What a request leaves of the configuration: [may] says that it may change it. *)
Definition guarded {A} (may : Prop) w (o : outcome A) w' : Prop :=
  cfg_inv (cfg w') /\ (~ may -> settings (env (cfg w')) = settings (env (cfg w))).

Lemma dispatch_keeps op ctx s m : cfg_inv s ->
  wp (handle_sync_dont_consume op ctx) (fun r x' => r = Panic \/ (cfg_inv x'.1 /\
    (~ (exists t fd f, op = Fsync t fd /\ cfg_files s !! fd = Some f /\ cf_uid f = 0 /\ cf_done f = false) -> settings (env x'.1) = settings (env s)))) (s, m).
Proof.
  intros Hi. destruct (match op with Fsync t fd => inl (t, fd) | _ => inr tt end) as [[t fd] | []] eqn:Eop.
  - assert (op = Fsync t fd) as -> by (destruct op; simplify_eq; done). cbn [handle_sync_dont_consume]. pose proof (fsync_keeps fd s Hi) as H. unfold wp in H.
    unfold wp, call_, mbind, M_bind. cbn [fst snd]. change (s_fsync fd ctx s) with (fsync fd s). destruct (fsync fd s) as [o s']. cbn [fst snd] in H.
    destruct H as [H1 H2]. assert (~ (exists t0 fd0 f, Fsync t fd = Fsync t0 fd0 /\ cfg_files s !! fd0 = Some f /\ cf_uid f = 0 /\ cf_done f = false) -> settings (env s') = settings (env s)) as H2'.
    { intros Hn. apply H2. intros f Hf [Hu Hd]. apply Hn. by exists t, fd, f. }
    destruct o; cbn; [right | right | left]; by split.
  - rewrite handle_other by (intros t fd ->; done).
    eapply wp_mono; [| apply (handle_wp other_methods (fun _ s' => cfg_inv s' /\ settings (env s') = settings (env s))); [by split | by split |]].
    + intros r x' [-> | (resp & -> & H1 & H2)]; [by left | right]. by split.
    + assert (forall A (mm : M NetCfgScheme A), wp mm (fun _ s' => cfg_inv s' /\ (True -> settings (env s') = settings (env s))) s ->
        leaves (fun _ s' => cfg_inv s' /\ settings (env s') = settings (env s)) mm s) as Hl.
      { intros A mm Hm. unfold leaves. eapply wp_mono; [| exact Hm]. intros o s' [H1 H2]. right. split; [done | by apply H2]. }
      split; cbn; try done; intros; simplify_eq; apply Hl; first
        [by apply cfg_open_keeps | by apply read_keeps | by apply cfg_write_keeps | by apply fevent_keeps | by apply fstat_keeps | by apply wp_throw].
Qed.

Lemma respond_cfg {A} (k : bool -> M NetCfg A) r Q w :
  (forall b w', cfg w' = cfg w -> wp (k b) Q w') -> (forall o w', cfg w' = cfg w -> Q o w') -> wp (b ← cfg_respond r; k b) Q w.
Proof.
  intros Hk HQ. unfold cfg_respond. apply wp_bind, wp_bind, wp_gets. destruct (write_result (cfg_writes w)) as [b | e |]; [| by apply HQ | by apply HQ].
  apply wp_bind, wp_modify, wp_ret. by apply Hk.
Qed.

(** A request of the kind that may change the configuration *)
Definition commits (request : Request) w : Prop :=
  exists fd f, cfg_files (cfg w) !! fd = Some f /\ cf_uid f = 0 /\ cf_done f = false /\
    (kind request = RK_OnClose fd \/ exists req t, kind request = RK_Call req /\ from_sqe_unchecked req = Ok (Some (Fsync t fd))).

Lemma handle_request_keeps request w : cfg_inv (cfg w) ->
  wp (handle_request request) (fun o w' => o = Panic \/ guarded (commits request w) w o w') w.
Proof.
  intros Hi. unfold handle_request. assert (forall A (o : outcome A) w', cfg w' = cfg w -> o = Panic \/ guarded (commits request w) w o w') as Hd.
  { intros A o w' E. right. unfold guarded. by rewrite E. }
  destruct (kind request) as [req | id | req | req | | | | fd] eqn:Ek; try by (apply wp_ret, Hd).
  - apply wp_bind, wp_lift. destruct (from_sqe_unchecked req) as [[op |] | e |] eqn:Eq; [| | by apply Hd | by left].
    + apply wp_bind, wp_zoom. unfold handle_sync. apply wp_bind. eapply wp_mono; [| apply (dispatch_keeps op (caller req) (cfg w) (cfg_mem w) Hi)].
      intros r x' [-> | [H1 H2]]; [by left |].
      assert (guarded (A := unit) (commits request w) w (Ok tt) {| cfg := x'.1; cfg_mem := x'.2; cfg_writes := cfg_writes w; cfg_sent := cfg_sent w |}) as Hg.
      { split; [done |]. intros Hn. apply H2. intros (t & fd & f & -> & Hf & Hu & Hx). apply Hn. exists fd, f. split_and!; [done | done | done |]. right. by exists req, t. }
      assert (forall r, wp (cfg_respond r;; mret tt) (fun o w' => o = Panic \/ guarded (commits request w) w o w') {| cfg := x'.1; cfg_mem := x'.2; cfg_writes := cfg_writes w; cfg_sent := cfg_sent w |}) as Hresp.
      { intros resp. apply respond_cfg; [intros b w' E; apply wp_ret | intros o w' E]; right; unfold guarded; by rewrite E. }
      destruct r as [[reg | op'] | e |]; [| | by right | by left]; apply wp_ret; apply Hresp.
    + apply wp_bind. unfold try_, wp. pose proof (respond_cfg mret (Response_err EOPNOTSUPP (sqe_tag req)) (fun _ w' => cfg w' = cfg w) w) as Hr.
      unfold wp, mbind, M_bind in Hr. specialize (Hr ltac:(done) ltac:(done)). destruct (cfg_respond _ w) as [[b | e |] w']; cbn in *; [| | by left]; right; unfold guarded; by rewrite Hr.
  - apply wp_zoom. pose proof (cfg_close_keeps fd (cfg w) Hi) as H. eapply wp_mono; [| exact H]. intros o s' [H1 H2]. right. split; [done |]. cbn. intros Hn. apply H2.
    intros f Hf [Hu Hx]. apply Hn. exists fd, f. split_and!; [done | done | done |]. by left.
Qed.

(** ** Reachable states *)

(** What the rest of the daemon changes: the interface, the devices and the memory of the callers *)
Definition elsewhere i devs m w : NetCfg := {|
  cfg := set_env (set_e_iface i (set_e_devices devs (env (cfg w)))) (cfg w); cfg_mem := m; cfg_writes := cfg_writes w; cfg_sent := cfg_sent w |}.

(** The states of the scheme; a panic ends it. *)
Inductive cfg_reach : NetCfg (D := D) -> Prop :=
| cr_new i table devs m : route_sorted table -> cfg_reach (NetCfg_new (NetCfgScheme_new i table devs) m)
| cr_request request w : cfg_reach w -> (handle_request request w).1 <> Panic -> cfg_reach (handle_request request w).2
| cr_notify w : cfg_reach w -> (notify_scheduled_fds w).1 <> Panic -> cfg_reach (notify_scheduled_fds w).2
| cr_elsewhere i devs m w : cfg_reach w -> cfg_reach (elsewhere i devs m w).

Lemma post_fevents_keeps fds : forall w, wp (post_fevents fds) (fun _ w' => cfg w' = cfg w) w.
Proof.
  induction fds as [| fd fds IH]; intros w; cbn [post_fevents]; [by apply wp_ret |].
  assert (forall w', cfg w' = cfg w -> wp (post_fevents fds) (fun _ w' => cfg w' = cfg w) w') as IH' by (intros w' <-; apply IH).
  apply wp_bind, wp_try, respond_cfg; [intros b w' E | intros [] w' E; try done; by apply IH'].
  apply wp_fail_if; intros _; by apply IH'.
Qed.

Lemma notify_keeps w : wp notify_scheduled_fds (fun _ w' => cfg w' = set_env (set_notifier (get_notified_fds (notifier (env (cfg w)))).2 (env (cfg w))) (cfg w)) w.
Proof. unfold notify_scheduled_fds. apply wp_bind, wp_zoom. unfold wp at 1. cbn [get_notified_fds fst snd]. eapply wp_mono; [| apply post_fevents_keeps]. intros o w' E. exact E. Qed.

Lemma reach_cfg_inv w : cfg_reach w -> cfg_inv (cfg w).
Proof.
  induction 1 as [i table devs m Ht | request w _ IH Hp | w _ IH Hp | i devs m w _ IH].
  - split; [done | exact Ht | done].
  - pose proof (handle_request_keeps request w IH) as [| [H _]]; done.
  - pose proof (notify_keeps w) as H. unfold wp in H. rewrite H. destruct IH. by split.
  - destruct IH. by split.
Qed.

(** C23: whatever requests came before, of whatever users, a request leaves the interface, the routes, the devices and the name server as they are
    unless it closes or syncs a file that is not done and that root has opened. *)
Theorem netcfg_root_only request w : cfg_reach w -> (handle_request request w).1 <> Panic ->
  ~ commits request w -> settings (env (cfg (handle_request request w).2)) = settings (env (cfg w)).
Proof. intros Hr Hp Hn. pose proof (handle_request_keeps request w (reach_cfg_inv w Hr)) as [| [_ H]]; [done | by apply H]. Qed.

(** ** A route that is added *)

(** A word of printable ASCII characters *)
Definition graphic (b : u8) : Prop := 0x21 <= Z_of_byte b < 0x80.
Definition plain_word (l : list u8) : Prop := l <> [] /\ Forall graphic l.

Lemma whitespace_graphic b l : graphic b -> whitespace (b :: l) = O.
Proof.
  unfold graphic. intros H. unfold whitespace.
  assert (((9 <=? Z_of_byte b) && (Z_of_byte b <=? 13)) || (Z_of_byte b =? 32) = false) as E1 by lia.
  assert ((Z_of_byte b =? 0xC2) = false) as E2 by lia. assert ((Z_of_byte b =? 0xE1) = false) as E3 by lia.
  assert ((Z_of_byte b =? 0xE2) = false) as E4 by lia. assert ((Z_of_byte b =? 0xE3) = false) as E5 by lia.
  destruct l as [| b1 [| b2 l]]; cbn [fmap list_fmap]; by rewrite ?E1, ?E2, ?E3, ?E4, ?E5.
Qed.

Lemma words_graphic l : forall cur rest, Forall graphic l -> words 0 cur (l ++ rest) = words 0 (cur ++ l) rest.
Proof.
  induction l as [| b l IH]; intros cur rest H; [by rewrite app_nil_r |]. apply Forall_cons in H as [Hb Hl]. cbn [app words].
  rewrite whitespace_graphic by done. rewrite IH by done. by rewrite <- app_assoc.
Qed.

Lemma words_space cur rest : cur <> [] -> words 0 cur (x20 :: rest) = cur :: words 0 [] rest.
Proof. intros H. by destruct cur. Qed.

(** A text of words with one space between *)
Definition sentence (a b c : list u8) : list u8 := a ++ x20 :: b ++ x20 :: c.

Lemma words_sentence a b c : plain_word a -> plain_word b -> plain_word c -> words 0 [] (sentence a b c) = [a; b; c].
Proof.
  intros [Ha Ga] [Hb Gb] [Hc Gc]. unfold sentence. rewrite words_graphic, words_space by done. rewrite words_graphic, words_space by done.
  rewrite <- (app_nil_r c) at 1. rewrite words_graphic by done. cbn. by destruct c.
Qed.

Lemma utf8_ascii l : Forall (fun b => Z_of_byte b < 0x80) l -> utf8_valid l = true.
Proof. induction 1 as [| b l Hb _ IH]; [done |]. cbn [utf8_valid]. by replace (Z_of_byte b <? 0x80) with true by lia. Qed.

Lemma sentence_forall (P : u8 -> Prop) a b c : (forall x, graphic x -> P x) -> P x20 ->
  plain_word a -> plain_word b -> plain_word c -> Forall P (sentence a b c).
Proof.
  intros Hg Hs [_ Ha] [_ Hb] [_ Hc]. unfold sentence. repeat first [apply Forall_app; split | apply Forall_cons; split];
    first [done | by eapply Forall_impl].
Qed.

Definition via_word : list u8 := as_bytes "via".
Lemma via_plain : plain_word via_word.
Proof. split; [done |]. repeat constructor; by vm_compute. Qed.

(** What [parse_route] makes of a cidr and a gateway *)
Lemma parse_route_eq cs gs table c g rule :
  plain_word (as_bytes cs) -> plain_word (as_bytes gs) -> cs <> "default"%string -> cidr_from_str cs = Some c ->
  addr_from_str gs = Some g -> addr_is_unicast g = true -> lookup_rule table g = Some rule ->
  parse_route (String.string_of_list_byte (sentence (as_bytes cs) via_word (as_bytes gs))) table =
    Ok {| r_filter := c; via := Some g; dev := dev rule; src := src rule |}.
Proof.
  intros Hc Hg Hd Ec Eg Hu Hl. unfold parse_route, split_whitespace, as_bytes. rewrite String.list_byte_of_string_of_list_byte.
  rewrite words_sentence by (done || apply via_plain). cbn [fmap list_fmap]. unfold as_bytes. rewrite !String.string_of_list_byte_of_string.
  rewrite (bool_decide_false (cs = _)) by done. rewrite Ec. unfold mbind, outcome_bind. cbn [o_ok_or].
  rewrite (bool_decide_true (_ = _)) by reflexivity. rewrite Eg. cbn. rewrite Hu. cbn. by rewrite Hl.
Qed.

(** Opening the node, writing a line and syncing *)
Definition add_route (ctx : CallerCtx) (line : list u8) : M (NetCfgScheme (D := D)) unit :=
  r ← open "route/add" ctx;
  match r with
  | ThisScheme fd _ => write fd line;; fsync fd
  | _ => throw EINVAL
  end.

Lemma add_route_eq ctx line rule s :
  0 <= cfg_next_fd s -> cfg_next_fd s + 1 < usize_mod -> ctx_uid ctx = 0 -> newline ∉ line -> line <> [] -> zlen line <= WRITE_BUFFER_MAX_SIZE ->
  from_utf8 line = Some (String.string_of_list_byte line) -> parse_route (String.string_of_list_byte line) (e_routes (env s)) = Ok rule ->
  exists s', add_route ctx line s = (Ok tt, s') /\ e_routes (env s') = insert_rule rule (e_routes (env s)).
Proof.
  intros H0 Hn Hu Hl Hne Hsz Hutf Hp. unfold add_route.
  assert (exists f, open "route/add" ctx s = (Ok (ThisScheme (cfg_next_fd s) fd_empty), put_file (cfg_next_fd s) f (set_cfg_next_fd (cfg_next_fd s + 1) s)) /\
    takes f (zlen line) /\ node_writer f = Some (RouteAddWriter None) /\ write_buf f = []) as (f & Eo & Ht & Hw & Hb).
  { exists {| cf_path := "route/add"; is_dir := false; is_writable := true; is_readable := false; node_writer := Some (RouteAddWriter None);
       read_buf := []; write_buf := []; pos := 0; cf_uid := ctx_uid ctx; cf_done := false |}. split; [| by split_and!].
    assert (find_node (split_char slash "route/add") (root_node (D := D)) = Some (WONode (RouteAddWriter None))) as Ef by reflexivity.
    assert (usize_add (cfg_next_fd s) 1 s = (Ok (cfg_next_fd s + 1), s)) as Ea.
    { unfold usize_add, arith. unfold usize_mod in Hn. by rewrite (proj2 (andb_true_iff _ _)) by lia. }
    unfold open. rewrite Ef. unfold ok_or. rewrite ret_bind, !gets_bind. unfold mbind at 1, M_bind at 1. rewrite Ea. by cbn -[Z.add]. }
  unfold mbind at 1, M_bind at 1. rewrite Eo. cbn beta iota. clear Eo. set (s1 := put_file _ f _).
  assert (cfg_files s1 !! cfg_next_fd s = Some f) as Hf by (cbn; by rewrite lookup_insert_eq).
  unfold mbind at 1, M_bind at 1. rewrite (write_eq _ line f _ s1 Hf Ht Hw). rewrite Hb. cbn [app]. rewrite cut_plain by done. cbn [fst snd run_lines mret M_ret app].
  unfold fsync, on_file. cbn [cfg_files put_file set_cfg_files]. rewrite lookup_insert_eq. rewrite gets_bind. destruct Ht as (Hd & _ & _). cbn [id fst fed cf_done set_write_buf set_writer].
  rewrite Hd. cbn [negb]. unfold try_, commit, mbind, M_bind, gets. cbn [id fst snd fed write_buf set_write_buf node_writer set_writer].
  destruct line as [| b line]; [done |]. unfold ok_or. rewrite Hutf. cbn [mret M_ret]. unfold file_write_line, gets, mbind, M_bind. cbn [id fst snd fed write_buf set_write_buf node_writer set_writer unwrap mret M_ret].
  cbn [write_line route_add_write_line]. unfold lift. change (e_routes (env (put_file _ _ s1))) with (e_routes (env s)).
  cbn [env put_file set_cfg_files]. unfold mbind, outcome_bind. change (e_routes (env s1)) with (e_routes (env s)). rewrite Hp. cbn. by eexists.
Qed.

Lemma elem_of_insert_rule r rule t : r ∈ insert_rule rule t <-> r = rule \/ r ∈ t.
Proof.
  unfold insert_rule. assert (forall i, r ∈ vec_insert i rule t <-> r = rule \/ r ∈ t) as H.
  { intros i. unfold vec_insert. rewrite <- (take_drop i t) at 3. rewrite !elem_of_app, elem_of_cons. tauto. }
  destruct (binary_search_by _ _); apply H.
Qed.

(** A rule whose prefix is longer than those of the others is the one that is used, *)
Lemma lookup_inserted rule t dst : route_sorted t -> contains_addr (r_filter rule) dst = true ->
  (forall r, r ∈ t -> contains_addr (r_filter r) dst = true -> prefix_len (r_filter r) < prefix_len (r_filter rule)) ->
  lookup_rule (insert_rule rule t) dst = Some rule.
Proof.
  intros Hs Hc Hl. pose proof (lookup_sorted (insert_rule rule t) dst (insert_rule_sorted rule t Hs)) as H. unfold looks_up in H.
  destruct (lookup_rule (insert_rule rule t) dst) as [r |].
  - destruct H as (Hr & Hcr & Hm). apply elem_of_insert_rule in Hr as [-> | Hr]; [done |]. specialize (Hl r Hr Hcr).
    specialize (Hm rule ltac:(apply elem_of_insert_rule; by left) Hc). lia.
  - specialize (H rule ltac:(apply elem_of_insert_rule; by left)). congruence.
Qed.

(** and it does not matter for addresses that it does not contain. *)
Lemma lookup_not_inserted rule t dst : contains_addr (r_filter rule) dst = false -> lookup_rule (insert_rule rule t) dst = lookup_rule t dst.
Proof.
  intros Hc. unfold insert_rule. assert (forall i, lookup_rule (vec_insert i rule t) dst = lookup_rule t dst) as H; [| by destruct (binary_search_by _ _)].
  intros i. unfold lookup_rule, vec_insert. rewrite <- (take_drop i t) at 3. rewrite !reverse_app, reverse_cons, <- app_assoc.
  assert (forall (x y : list Rule), snd <$> list_find (fun r => contains_addr (r_filter r) dst = true) (x ++ [rule] ++ y) =
    snd <$> list_find (fun r => contains_addr (r_filter r) dst = true) (x ++ y)) as Hx; [| apply Hx].
  assert (forall o : option (nat * Rule), snd <$> (prod_map Datatypes.S id <$> o) = snd <$> o) as Hsnd by (by intros [[] |]).
  intros x y. induction x as [| z x IH]; cbn.
  - rewrite decide_False by congruence. by destruct (list_find _ y) as [[]|].
  - destruct (decide _); [done |]. by rewrite !Hsnd.
Qed.

(** C24: a route that root writes is used.  Opening [route/add], writing a network and a gateway and syncing succeeds in every state; after it packets to the
    network go to that gateway through the device, and with the source address, of the route to the gateway, unless an older route contains the address with a
    prefix as long; other addresses are routed as before. *)
Theorem netcfg_route_added w ctx cs gs c g rule : cfg_reach w -> cfg_next_fd (cfg w) + 1 < usize_mod -> ctx_uid ctx = 0 ->
  plain_word (as_bytes cs) -> plain_word (as_bytes gs) -> cs <> "default"%string -> zlen (as_bytes cs) + zlen (as_bytes gs) + 5 <= WRITE_BUFFER_MAX_SIZE ->
  cidr_from_str cs = Some c -> addr_from_str gs = Some g -> addr_is_unicast g = true -> lookup_rule (e_routes (env (cfg w))) g = Some rule ->
  exists s', add_route ctx (sentence (as_bytes cs) via_word (as_bytes gs)) (cfg w) = (Ok tt, s') /\ forall dst,
    (contains_addr c dst = true -> (forall r, r ∈ e_routes (env (cfg w)) -> contains_addr (r_filter r) dst = true -> prefix_len (r_filter r) < prefix_len c) ->
     lookup_rule (e_routes (env s')) dst = Some {| r_filter := c; via := Some g; dev := dev rule; src := src rule |}) /\
    (contains_addr c dst = false -> lookup_rule (e_routes (env s')) dst = lookup_rule (e_routes (env (cfg w))) dst).
Proof.
  intros Hr Hn Hu Hc Hg Hd Hsz Ec Eg Hug Hl. pose proof (reach_cfg_inv w Hr) as [_ Hs H0].
  assert (forall P, (forall x, graphic x -> P x) -> P x20 -> Forall P (sentence (as_bytes cs) via_word (as_bytes gs))) as Hf.
  { intros P H1 H2. apply sentence_forall; [done | done | done | apply via_plain | done]. }
  destruct (add_route_eq ctx (sentence (as_bytes cs) via_word (as_bytes gs)) {| r_filter := c; via := Some g; dev := dev rule; src := src rule |} (cfg w)) as (s' & E1 & E2);
    [done | done | done | | by destruct (as_bytes cs) | | | by apply parse_route_eq |].
  - intros Hnl. specialize (Hf (fun x => x <> newline)). rewrite Forall_forall in Hf. apply (Hf ltac:(intros x Hx ->; by destruct Hx) ltac:(done) newline Hnl eq_refl).
  - unfold sentence, zlen in *. repeat (rewrite length_app; cbn [length]). change (length via_word) with 3%nat. lia.
  - unfold from_utf8. rewrite utf8_ascii; [done |]. apply Hf; [intros x [_ Hx]; exact Hx | by vm_compute].
  - exists s'. split; [done |]. intros dst. rewrite E2. split.
    + intros H1 H2. by apply lookup_inserted.
    + intros H1. by apply lookup_not_inserted.
Qed.
End netcfg.
