(* ===== verification/Smolnetd.v ===== *)
(** * netstack: the daemon

    Models [Smolnetd] of [netstack/src/scheme/mod.rs]: its construction from the configuration files, the four
    schemes of sockets over one set of sockets, the configuration scheme, polling the network, and the events of the main loop. *)

From stdpp Require Import base gmap strings list fin_maps sorting.
From Stdlib Require Import ZArith Lia.
From Stdlib Require Import Strings.Byte.
From S2P Require Import NetCfg Prelude Memory Syscall Netstack Sockets SockProto Link Router SchemeApi Readiness Schemes SockServer.

Local Open Scope Z_scope.

(** ** Devices *)

(** [Box<dyn LinkDevice>], of the devices that the daemon makes *)
Section devices.
Context {TG : Target} {SC : Syscall} {IP : IpApi} {WA : WireApi} {MA : MacApi} {FA : FrameApi} {PA : PacketApi}.
Context (cidr_from_str : string -> option IpCidr).

Inductive Device := Loopback (d : LoopbackDevice) | Ethernet (e : EthernetLink).

Definition on_dyn {A} (lo : M LoopbackDevice A) (eth : M EthernetLink A) : M Device A := fun x =>
  match x with
  | Loopback d => let '(o, d) := lo d in (o, Loopback d)
  | Ethernet e => let '(o, e) := eth e in (o, Ethernet e)
  end.

Definition dyn_device : LinkDevice Device :=
  let L := loopback_device cidr_from_str in
  let E := ethernet_device in {|
  send hop packet now := on_dyn (@send _ _ _ L hop packet now) (@send _ _ _ E hop packet now);
  recv now := on_dyn (@recv _ _ _ L now) (@recv _ _ _ E now);
  name x := match x with Loopback d => @name _ _ _ L d | Ethernet e => @name _ _ _ E e end;
  can_recv x := match x with Loopback d => @can_recv _ _ _ L d | Ethernet e => @can_recv _ _ _ E e end;
  mac_address x := match x with Loopback d => @mac_address _ _ _ L d | Ethernet e => @mac_address _ _ _ E e end;
  set_mac_address a := on_dyn (@set_mac_address _ _ _ L a) (@set_mac_address _ _ _ E a);
  ip_address x := match x with Loopback d => @ip_address _ _ _ L d | Ethernet e => @ip_address _ _ _ E e end;
  set_ip_address a := on_dyn (@set_ip_address _ _ _ L a) (@set_ip_address _ _ _ E a)
|}.
End devices.
Arguments Device {IP MA PA}.

(** ** The state *)

Section smolnetd.
Context {TG : Target} {SC : Syscall} {AB : SchemeAbi} {IP : IpApi} {SA : SocketSetApi} {IF : IfaceApi} {TB : TimeSpecBytes} {WO : SchemeOut}.
Context {WA : WireApi} {UA : UdpApi} {TA : TcpApi} {IA : IcmpApi} {RA : RawApi}.
Context {MA : MacApi} {PA : PacketApi} {PF : PacketFields} {CA : CfgApi} {D : Type} {LD : LinkDevice D}.

(** [Interface::poll], which receives from and sends to the router as a device, and [poll_delay], in microseconds *)
Class PollApi := {
  iface_poll : Z -> Interface * Router D * SocketSet -> Interface * Router D * SocketSet;
  poll_delay : Z -> Interface -> SocketSet -> option Z
}.
Context {PO : PollApi}.

(** An interface and an empty set of sockets; [None] where there is no room for the route *)
Class BootApi := {
  iface_new : Interface;
  add_default_route : IpAddress -> Interface -> option Interface;
  set_new : SocketSet
}.
Context {BA : BootApi}.

(** [Smolnetd]: the sockets, the interface and the routing table are those of [d_net], the devices those of the router. *)
Record Smolnetd := {
  d_net : Net; router_device : Router D;
  ip_scheme : Wrapper (T := RawSocket); udp_scheme : Wrapper (T := UdpSocket); tcp_scheme : Wrapper (T := TcpSocket); icmp_scheme : Wrapper (T := IcmpSocket);
  netcfg_scheme : NetCfg (D := D)
}.

Definition set_device (n : Net) (r : Router D) (d : Smolnetd) : Smolnetd := {|
  d_net := n; router_device := r; ip_scheme := ip_scheme d; udp_scheme := udp_scheme d; tcp_scheme := tcp_scheme d; icmp_scheme := icmp_scheme d;
  netcfg_scheme := netcfg_scheme d |}.

(** A scheme sees what is shared as it is now. *)
Definition with_net {T} {ST : SchemeSocket T} (n : Net) (w : Wrapper (T := T)) : Wrapper :=
  set_scheme (set_shared (n, scheme_data (scheme w)) (scheme w), mem w) w.

Definition on_ip {A} : M (Wrapper (T := RawSocket)) A -> M Smolnetd A :=
  zoom (fun d => with_net (d_net d) (ip_scheme d)) (fun w d => {| d_net := net (scheme w); router_device := router_device d;
    ip_scheme := w; udp_scheme := udp_scheme d; tcp_scheme := tcp_scheme d; icmp_scheme := icmp_scheme d; netcfg_scheme := netcfg_scheme d |}).
Definition on_udp {A} : M (Wrapper (T := UdpSocket)) A -> M Smolnetd A :=
  zoom (fun d => with_net (d_net d) (udp_scheme d)) (fun w d => {| d_net := net (scheme w); router_device := router_device d;
    ip_scheme := ip_scheme d; udp_scheme := w; tcp_scheme := tcp_scheme d; icmp_scheme := icmp_scheme d; netcfg_scheme := netcfg_scheme d |}).
Definition on_tcp {A} : M (Wrapper (T := TcpSocket)) A -> M Smolnetd A :=
  zoom (fun d => with_net (d_net d) (tcp_scheme d)) (fun w d => {| d_net := net (scheme w); router_device := router_device d;
    ip_scheme := ip_scheme d; udp_scheme := udp_scheme d; tcp_scheme := w; icmp_scheme := icmp_scheme d; netcfg_scheme := netcfg_scheme d |}).
Definition on_icmp {A} : M (Wrapper (T := IcmpSocket)) A -> M Smolnetd A :=
  zoom (fun d => with_net (d_net d) (icmp_scheme d)) (fun w d => {| d_net := net (scheme w); router_device := router_device d;
    ip_scheme := ip_scheme d; udp_scheme := udp_scheme d; tcp_scheme := tcp_scheme d; icmp_scheme := w; netcfg_scheme := netcfg_scheme d |}).

(** The configuration scheme works on the interface, the routing table and the devices. *)
Definition cfg_view (d : Smolnetd) : NetCfg (D := D) :=
  let w := netcfg_scheme d in
  {| cfg := set_env {| e_iface := iface (d_net d); e_routes := route_table (d_net d); e_devices := devices (router_device d);
                       name_server := name_server (env (cfg w)); notifier := notifier (env (cfg w)) |} (cfg w);
     cfg_mem := cfg_mem w; cfg_writes := cfg_writes w; cfg_sent := cfg_sent w |}.
Definition on_netcfg {A} : M (NetCfg (D := D)) A -> M Smolnetd A :=
  zoom cfg_view (fun w d => {|
    d_net := {| sockets := sockets (d_net d); iface := e_iface (env (cfg w)); route_table := e_routes (env (cfg w)) |};
    router_device := {| rx_buffer := rx_buffer (router_device d); tx_buffer := tx_buffer (router_device d); devices := e_devices (env (cfg w)); routes := routes (router_device d) |};
    ip_scheme := ip_scheme d; udp_scheme := udp_scheme d; tcp_scheme := tcp_scheme d; icmp_scheme := icmp_scheme d; netcfg_scheme := w |}).

(** ** Construction *)

(** [x.count_ones()] of 32 bits *)
Definition count_ones (x : Z) : Z := foldl (fun n i => if Z.testbit x (Z.of_nat i) then n + 1 else n) 0 (seq 0 32).

Definition subnet_to_prefix (subnet : string) : Z :=
  match omap (parse_unsigned 256) (split_char (Ascii.ascii_of_nat 46) subnet) with
  | [a; b; c; d] => count_ones (Z.lor (Z.lor (Z.lor (Z.shiftl a 24) (Z.shiftl b 16)) (Z.shiftl c 8)) d)
  | _ => 24
  end.

(** The placeholder for DHCP and the address of the loopback *)
Definition protocol_addrs : list IpCidr := [cidr_new (v4 0 0 0 0) 8; cidr_new (v4 127 0 0 1) 8].

(** [getcfg]: the contents of a configuration file, where it can be read *)
Definition getcfg (file : option string) : option string := trim <$> file.

(** The configuration of the ethernet device from the files [ip] and [ip_subnet] *)
Definition configure_eth0 (eth0_name : string) (ip_cfg subnet_cfg : option string) : M (Env (D := D)) unit :=
  match getcfg ip_cfg, getcfg subnet_cfg with
  | Some ip_str, Some subnet_str =>
      match ipv4_from_str ip_str with
      | Some ip =>
          if addr_is_unspecified ip then mret tt
          else
            let cidr := cidr_new ip (subnet_to_prefix subnet_str) in
            d ← gets eth0;
            match d with Some i => with_device i (set_ip_address cidr) | None => mret tt end;;
            update_ip_addrs (insert_front cidr);;
            modify (fun e => set_e_routes (insert_rule {| r_filter := cidr_network cidr; via := None; dev := eth0_name; src := cidr_address cidr |} (e_routes e)) e)
      | None => mret tt
      end
  | _, _ => mret tt
  end.

(** What [new] makes of the interface, the table and the devices; extending the addresses past their room panics. *)
Definition boot (eth0_name : string) (ip_router ip_cfg subnet_cfg : option string) : M (Env (D := D)) unit :=
  gw ← unwrap (getcfg ip_router);
  default_gw ← unwrap (ipv4_from_str (trim gw));
  i ← gets e_iface;
  (if (ip_addrs_capacity <? length (ip_addrs i ++ protocol_addrs))%nat then panic else mret tt);;
  update_ip_addrs (fun l => l ++ protocol_addrs);;
  i ← gets e_iface;
  i ← unwrap (add_default_route default_gw i);
  modify (set_e_iface i);;
  filter_ ← unwrap (cidr_from_str "127.0.0.0/8");
  src_ ← unwrap (addr_from_str "127.0.0.1");
  loopback ← gets (fun e => head (e_devices e));
  loopback ← unwrap loopback;
  modify (fun e => set_e_routes (insert_rule {| r_filter := filter_; via := None; dev := name loopback; src := src_ |} (e_routes e)) e);;
  configure_eth0 eth0_name ip_cfg subnet_cfg.

(** [new]: the devices, the hardware address and the files of the configuration *)
Definition Smolnetd_new (loopback eth0 : D) (hardware_addr : EthernetAddress) (ip_router ip_cfg subnet_cfg : option string) (m : memory) : outcome Smolnetd :=
  let eth0 := (set_mac_address hardware_addr eth0).2 in
  match boot (name eth0) ip_router ip_cfg subnet_cfg (env (NetCfgScheme_new iface_new [] [loopback; eth0])) with
  | (Ok _, e) =>
      let n := {| sockets := set_new; iface := e_iface e; route_table := e_routes e |} in
      ip ← SchemeWrapper_new n m; udp ← SchemeWrapper_new n m; tcp ← SchemeWrapper_new n m; icmp ← SchemeWrapper_new n m;
      Ok {| d_net := n; router_device := Router_new (e_devices e) (e_routes e); ip_scheme := ip; udp_scheme := udp; tcp_scheme := tcp; icmp_scheme := icmp;
            netcfg_scheme := NetCfg_new (NetCfgScheme_new (e_iface e) (e_routes e) (e_devices e)) m |}
  | (Err x, _) => Err x
  | (Panic, _) => Panic
  end.

(** ** Polling *)

(** [Duration]s in microseconds *)
Definition MAX_DURATION : Z := 100000.
Definition MIN_DURATION : Z := 0.
Definition MIN_CHECK_TIMEOUT : Z := 10000.
Definition MAX_CHECK_TIMEOUT : Z := 500000.

(** A method of the router, which shares the routing table *)
Definition on_router {A} : M (Router D) A -> M Smolnetd A :=
  zoom (fun d => {| rx_buffer := rx_buffer (router_device d); tx_buffer := tx_buffer (router_device d); devices := devices (router_device d);
                    routes := route_table (d_net d) |})
       (fun r d => set_device (d_net d) r d).

(** The turns of [Router::poll] for a device are as many as packets fit, and one. *)
Definition poll_fuel : nat := S (Z.to_nat SOCKET_BUFFER_SIZE).

(** The loop of [poll]; [clock] is the time at each turn. *)
Fixpoint poll_loop (iter_limit : nat) (clock : nat -> Z) : M Smolnetd Z :=
  match iter_limit with
  | O => mret MIN_DURATION
  | Datatypes.S iter_limit =>
      let timestamp := clock iter_limit in
      on_router (router_poll poll_fuel timestamp);;
      modify (fun d => let '(i, r, st) := iface_poll timestamp (iface (d_net d), router_device d, sockets (d_net d)) in
                       set_device (set_iface i (set_sockets st (d_net d))) r d);;
      on_router (dispatch timestamp);;
      d ← gets id;
      if router_can_recv (router_device d) then poll_loop iter_limit clock
      else match poll_delay timestamp (iface (d_net d)) (sockets (d_net d)) with
           | Some delay => if delay =? 0 then poll_loop iter_limit clock else mret (Z.min MAX_DURATION delay)
           | None => mret MAX_DURATION
           end
  end.

(** [Smolnetd::notify_sockets]; [now] is what the clock says to each scheme. *)
Definition notify_all (now : Z -> outcome TimeSpec) : M Smolnetd unit :=
  on_ip (notify_sockets (now 0));; on_udp (notify_sockets (now 1));; on_tcp (notify_sockets (now 2));; on_icmp (notify_sockets (now 3)).

Definition poll (clock : nat -> Z) (now : Z -> outcome TimeSpec) : M Smolnetd Z :=
  timeout ← poll_loop 10 clock;
  notify_all now;;
  mret (Z.min (Z.max MIN_CHECK_TIMEOUT timeout) MAX_CHECK_TIMEOUT).

(** ** Events *)

Definition on_network_scheme_event (clock : nat -> Z) (now : Z -> outcome TimeSpec) : M Smolnetd unit := poll clock now;; mret tt.

Abbreviation requests := (list (Request * outcome TimeSpec)).
Definition on_ip_scheme_event (rs : requests) (end_ : outcome (option unit)) clock now : M Smolnetd unit :=
  on_ip (on_scheme_event rs end_);; poll clock now;; mret tt.
Definition on_udp_scheme_event (rs : requests) (end_ : outcome (option unit)) clock now : M Smolnetd unit :=
  on_udp (on_scheme_event rs end_);; poll clock now;; mret tt.
Definition on_tcp_scheme_event (rs : requests) (end_ : outcome (option unit)) clock now : M Smolnetd unit :=
  on_tcp (on_scheme_event rs end_);; poll clock now;; mret tt.
Definition on_icmp_scheme_event (rs : requests) (end_ : outcome (option unit)) clock now : M Smolnetd unit :=
  on_icmp (on_scheme_event rs end_);; poll clock now;; mret tt.

Definition on_netcfg_scheme_event (rs : list Request) (end_ : outcome (option unit)) : M Smolnetd unit :=
  on_netcfg (NetCfg.on_scheme_event rs end_);; mret tt.

(** [schedule_time_event]: the time that is written to the time file, which was read as [time] *)
Definition schedule_time_event {S} (time : outcome TimeSpec) (timeout : Z) : M S TimeSpec :=
  time ← lift time;
  ms ← sarith 64 (tv_sec time * 1000);
  ms ← sarith 64 (ms + Z.quot (tv_nsec time) 1000000);
  ms ← sarith 64 (ms + timeout / 1000);
  mret {| tv_sec := Z.quot ms 1000; tv_nsec := as_signed 32 (Z.rem ms 1000 * 1000000) |}.

Definition on_time_event (time : outcome TimeSpec) (clock clock' : nat -> Z) (now now' : Z -> outcome TimeSpec) : M Smolnetd TimeSpec :=
  timeout ← poll clock now;
  t ← schedule_time_event time timeout;
  on_network_scheme_event clock' now';;
  mret t.
End smolnetd.
