(* ===== verification/SmolnetdFacts.v ===== *)
(** * netstack: the schemes share their sockets

    In every state that the daemon can come to, each of the four schemes finds the sockets of its files in the shared set, and counts
    its files right, whatever requests the others serve and however the network is polled.

    Whatever the protocol and the network do, every request of a scheme of sockets is answered exactly once or waits, and a pass over
    the queue answers those that were cancelled or have timed out. *)

From stdpp Require Import base gmap strings list fin_maps sorting.
From Stdlib Require Import ZArith Lia.
From Stdlib Require Import Strings.Byte.
From S2P Require Import NetCfg Prelude Memory Syscall Netstack Sockets SockProto Link Router SchemeApi Readiness ReadinessFacts Schemes.
From S2P Require Import SockServer Smolnetd SockFacts SockServerFacts LinkFacts RouterFacts.

Local Open Scope Z_scope.

(** ** Kinds of sockets *)

Inductive Protocol := Raw | Udp | Tcp | Icmp.
#[export] Instance protocol_eq : EqDecision Protocol.
Proof. solve_decision. Defined.

(** The sockets of a set have a kind each, and are of the type of their kind only. *)
Class Kinds {IP : IpApi} {SA : SocketSetApi} {IF : IfaceApi} {UA : UdpApi} {TA : TcpApi} {IA : IcmpApi} {RA : RawApi} := {
  protocol_of : AnySocket -> Protocol;
  raw_kind : forall a, is_Some (as_raw a) <-> protocol_of a = Raw;
  udp_kind : forall a, is_Some (as_udp a) <-> protocol_of a = Udp;
  tcp_kind : forall a, is_Some (as_tcp a) <-> protocol_of a = Tcp;
  icmp_kind : forall a, is_Some (as_icmp a) <-> protocol_of a = Icmp
}.

Section kinds.
Context {TG : Target} {SC : Syscall} {AB : SchemeAbi} {IP : IpApi} {SA : SocketSetApi} {SL : SocketSetLaws SA} {IF : IfaceApi} {TB : TimeSpecBytes} {WO : SchemeOut}.
Context {WA : WireApi} {UA : UdpApi} {TA : TcpApi} {IA : IcmpApi} {RA : RawApi} {KI : Kinds}.

(** A kind of sockets *)
Definition kind_is {T} {ST : SchemeSocket T} (k : Protocol) : Prop := forall a, is_Some (downcast a) <-> protocol_of a = k.

Lemma holds_kind {T} {ST : SchemeSocket T} k h n : kind_is k -> holds h n <-> exists a, set_get h (sockets n) = Some a /\ protocol_of a = k.
Proof.
  intros Hk. unfold holds. split.
  - intros [t (a & Ha & Ht)%bind_Some]. exists a. split; [done |]. apply Hk. by exists t.
  - intros (a & Ha & [t Ht]%Hk). rewrite Ha. by exists t.
Qed.

(** The sockets of a kind stay sockets of that kind. *)
Definition keeps_kind (k : Protocol) (n n' : Net) : Prop :=
  forall h a, set_get h (sockets n) = Some a -> protocol_of a = k -> exists a', set_get h (sockets n') = Some a' /\ protocol_of a' = k.

Lemma keeps_kind_refl k n : keeps_kind k n n.
Proof. intros h a Ha Hk. by exists a. Qed.
Lemma keeps_kind_trans k n n1 n2 : keeps_kind k n n1 -> keeps_kind k n1 n2 -> keeps_kind k n n2.
Proof. intros H1 H2 h a Ha Hk. destruct (H1 h a Ha Hk) as (a' & Ha' & Hk'). by apply (H2 h a'). Qed.

(** What another scheme, or the network, does to the sockets *)
Lemma counted_with_net {T} {ST : SchemeSocket T} {TL : SocketLaws T} k n n' (w : Wrapper (T := T)) :
  kind_is k -> counted (scheme (with_net n w)) -> keeps_kind k n n' -> counted (scheme (with_net n' w)).
Proof.
  intros Hk [H1 H2 H3 H4] Hn. split; [| done | done | done]. intros fd f Hf. specialize (H1 fd f Hf).
  rewrite (holds_kind k) in * by done. destruct H1 as (a & Ha & Ek). by apply (Hn _ a).
Qed.

(** What a scheme does to the sockets of the others *)
Lemma frame_keeps {T} {ST : SchemeSocket T} {TL : SocketLaws T} k j (s s' : SocketScheme T) :
  kind_is k -> counted s -> frame s s' -> j <> k -> keeps_kind j (net s) (net s').
Proof.
  intros Hk Hc Hf Hj h a Ha Hka. exists a. split; [| done]. apply (Hf h a); [| done]. destruct (decide (refs (files s) h = 0)) as [| Hr]; [done |].
  pose proof (counted_holds s h Hc Hr) as (b & Hb & Hkb)%(holds_kind k); [congruence | done].
Qed.
(** ** The daemon *)

Context {MA : MacApi} {PA : PacketApi} {PF : PacketFields} {CA : CfgApi} {BA : BootApi} {D : Type} {LD : LinkDevice D} {PO : PollApi (D := D)}.
Context {RC : Casts raw_any as_raw} {UC : Casts udp_any as_udp} {TC : Casts tcp_any as_tcp} {IC : Casts icmp_any as_icmp}.

(** Documented behaviour of [Interface::poll]: it works on the sockets in their places. *)
Class PollLaws : Prop := {
  poll_sockets : forall t i r st h a, set_get h st = Some a ->
    exists a', set_get h (iface_poll t (i, r, st)).2 = Some a' /\ protocol_of a' = protocol_of a
}.
Context {PLW : PollLaws}.
Implicit Types d : Smolnetd (D := D).

(** A scheme over what is shared: the invariant, and the descriptors that it has issued *)
Definition good {T} {ST : SchemeSocket T} (n : Z) (net : Net) (w : Wrapper (T := T)) : Prop :=
  counted (scheme (with_net net w)) /\ issued w <= n.

Definition daemon_inv (n : Z) d : Prop :=
  good n (d_net d) (ip_scheme d) /\ good n (d_net d) (udp_scheme d) /\ good n (d_net d) (tcp_scheme d) /\ good n (d_net d) (icmp_scheme d).

Lemma good_more {T} {ST : SchemeSocket T} n n' net (w : Wrapper (T := T)) : n <= n' -> good n net w -> good n' net w.
Proof. intros Hn [H1 H2]. split; [done | lia]. Qed.

Lemma good_net {T} {ST : SchemeSocket T} {TL : SocketLaws T} k n net net' (w : Wrapper (T := T)) :
  kind_is k -> keeps_kind k net net' -> good n net w -> good n net' w.
Proof. intros Hk Hn [H1 H2]. split; [by eapply counted_with_net | done]. Qed.

(** What a scheme leaves of itself, and of the sockets of the others *)
Lemma within_good {T A} {ST : SchemeSocket T} {TL : SocketLaws T} k n c net (w w' : Wrapper (T := T)) (o : outcome A) :
  kind_is k -> good n net w -> within c (with_net net w) o w' ->
  o = Panic \/ good (n + c) (Sockets.net (scheme w')) w' /\ forall j, j <> k -> keeps_kind j net (Sockets.net (scheme w')).
Proof.
  intros Hk [H1 H2] [-> | (Hc & Hf & Hi)]; [by left | right]. split.
  - split; [| change (issued (with_net net w)) with (issued w) in Hi; lia]. destruct w' as [[]]. exact Hc.
  - intros j Hj. eapply (frame_keeps k j _ _ Hk H1 Hf Hj).
Qed.

Lemma kind_raw : kind_is (T := RawSocket) Raw.
Proof. intros a. apply raw_kind. Qed.
Lemma kind_udp : kind_is (T := UdpSocket) Udp.
Proof. intros a. apply udp_kind. Qed.
Lemma kind_tcp : kind_is (T := TcpSocket) Tcp.
Proof. intros a. apply tcp_kind. Qed.
Lemma kind_icmp : kind_is (T := IcmpSocket) Icmp.
Proof. intros a. apply icmp_kind. Qed.

Definition keeps_inv {A} (n : Z) (o : outcome A) d' : Prop := o = Panic \/ daemon_inv n d'.

(** A method of one of the schemes *)
Definition tame {T A} {ST : SchemeSocket T} {TL : SocketLaws T} (n c : Z) (m : M (Wrapper (T := T)) A) : Prop :=
  forall w, counted (scheme w) -> issued w <= n -> wp m (within c w) w.

(** The other schemes see the sockets that a method of one has left. *)
Ltac others Hk :=
  cbn [d_net ip_scheme udp_scheme tcp_scheme icmp_scheme];
  (eapply good_more; [| eapply good_net; [| | eassumption]]; [lia | first [apply kind_raw | apply kind_udp | apply kind_tcp | apply kind_icmp] | by apply Hk]).

Lemma on_ip_wp {A} n c (m : M _ A) d : 0 <= c -> tame n c m -> daemon_inv n d -> wp (on_ip m) (keeps_inv (n + c)) d.
Proof.
  intros H0 Hm (G1 & G2 & G3 & G4). apply wp_zoom. eapply wp_mono; [| apply Hm; apply G1].
  intros o w Hw. destruct (within_good Raw _ _ _ _ _ _ kind_raw G1 Hw) as [-> | [Hg Hk]]; [by left | right].
  split_and!; [exact Hg | others Hk | others Hk | others Hk].
Qed.

Lemma on_udp_wp {A} n c (m : M _ A) d : 0 <= c -> tame n c m -> daemon_inv n d -> wp (on_udp m) (keeps_inv (n + c)) d.
Proof.
  intros H0 Hm (G1 & G2 & G3 & G4). apply wp_zoom. eapply wp_mono; [| apply Hm; apply G2].
  intros o w Hw. destruct (within_good Udp _ _ _ _ _ _ kind_udp G2 Hw) as [-> | [Hg Hk]]; [by left | right].
  split_and!; [others Hk | exact Hg | others Hk | others Hk].
Qed.

Lemma on_tcp_wp {A} n c (m : M _ A) d : 0 <= c -> tame n c m -> daemon_inv n d -> wp (on_tcp m) (keeps_inv (n + c)) d.
Proof.
  intros H0 Hm (G1 & G2 & G3 & G4). apply wp_zoom. eapply wp_mono; [| apply Hm; apply G3].
  intros o w Hw. destruct (within_good Tcp _ _ _ _ _ _ kind_tcp G3 Hw) as [-> | [Hg Hk]]; [by left | right].
  split_and!; [others Hk | others Hk | exact Hg | others Hk].
Qed.

Lemma on_icmp_wp {A} n c (m : M _ A) d : 0 <= c -> tame n c m -> daemon_inv n d -> wp (on_icmp m) (keeps_inv (n + c)) d.
Proof.
  intros H0 Hm (G1 & G2 & G3 & G4). apply wp_zoom. eapply wp_mono; [| apply Hm; apply G4].
  intros o w Hw. destruct (within_good Icmp _ _ _ _ _ _ kind_icmp G4 Hw) as [-> | [Hg Hk]]; [by left | right].
  split_and!; [others Hk | others Hk | others Hk | exact Hg].
Qed.

(** ** Methods of the schemes *)

Lemma on_scheme_event_within {T} {ST : SchemeSocket T} {TL : SocketLaws T} end_ : forall rs (w : Wrapper (T := T)),
  counted (scheme w) -> issued w + zlen rs < usize_mod -> wp (on_scheme_event rs end_) (within (zlen rs) w) w.
Proof.
  induction rs as [| [request now] rs IH]; intros w Hc Hn; cbn [on_scheme_event].
  - apply wp_lift. by apply within_refl.
  - assert (zlen ((request, now) :: rs) = 1 + zlen rs) as El by (unfold zlen; cbn [length]; lia). rewrite El in *.
    apply wp_bind. eapply wp_mono; [| apply handle_request_within; [done | unfold issued, zlen in *; lia]].
    intros [[] | e |] w1 Hw; [| | by left].
    + destruct Hw as [Hp | (Hc1 & Hf & Hi)]; [done |]. eapply wp_mono; [| apply IH; [done | lia]].
      intros o w2. apply (within_trans (zlen rs) 1 w w1); [done | lia].
    + destruct Hw as [Hp | Hw]; [done |]. apply (within_more 1); [unfold zlen; lia | by right].
Qed.

Lemma tame_events {T} {ST : SchemeSocket T} {TL : SocketLaws T} n rs end_ : n + zlen rs < usize_mod -> tame (T := T) n (zlen rs) (on_scheme_event rs end_).
Proof. intros Hn w Hc Hi. apply on_scheme_event_within; [done | lia]. Qed.
Lemma tame_notify {T} {ST : SchemeSocket T} {TL : SocketLaws T} n now : n < usize_mod -> tame (T := T) n 0 (notify_sockets now).
Proof. intros Hn w Hc Hi. apply notify_sockets_within; [done | lia]. Qed.

(** ** Polling *)

Lemma keeps_bind {A B} n k (m : M Smolnetd A) (f : A -> M Smolnetd B) d :
  n <= k -> wp m (keeps_inv n) d -> (forall a d', daemon_inv n d' -> wp (f a) (keeps_inv k) d') -> wp (m ≫= f) (keeps_inv k) d.
Proof.
  intros Hk Hm Hf. apply wp_bind. eapply wp_mono; [| exact Hm]. intros [a | e |] d' [Hp | Hi]; try done; try (by left); [by apply Hf | right].
  destruct Hi as (G1 & G2 & G3 & G4). split_and!; by eapply good_more.
Qed.

Lemma keeps_refl {A} n (o : outcome A) d : daemon_inv n d -> keeps_inv n o d.
Proof. by right. Qed.

Lemma on_router_wp {A} n (m : M (Router D) A) d : daemon_inv n d -> wp (on_router m) (keeps_inv n) d.
Proof. intros Hi. apply wp_zoom, wp_intro. right. exact Hi. Qed.

Lemma network_inv n t d : daemon_inv n d ->
  daemon_inv n (let '(i, r, st) := iface_poll t (iface (d_net d), router_device d, sockets (d_net d)) in
                set_device (set_iface i (set_sockets st (d_net d))) r d).
Proof.
  intros (G1 & G2 & G3 & G4). pose proof (poll_sockets t (iface (d_net d)) (router_device d) (sockets (d_net d))) as Hp.
  destruct (iface_poll _ _) as [[i r] st]. cbn [snd] in Hp. assert (forall k, keeps_kind k (d_net d) (set_iface i (set_sockets st (d_net d)))) as Hk.
  { intros k h a Ha <-. by apply Hp. }
  split_and!; eapply good_net; [apply kind_raw | apply Hk | done | apply kind_udp | apply Hk | done | apply kind_tcp | apply Hk | done | apply kind_icmp | apply Hk | done].
Qed.

Lemma poll_loop_wp n clock : forall limit d, daemon_inv n d -> wp (poll_loop limit clock) (keeps_inv n) d.
Proof.
  induction limit as [| limit IH]; intros d Hi; cbn [poll_loop]; [by apply wp_ret, keeps_refl |].
  apply (keeps_bind n); [lia | by apply on_router_wp |]. intros _ d1 Hi1. apply wp_bind, wp_modify.
  apply (keeps_bind n); [lia | by apply on_router_wp, network_inv |]. intros _ d2 Hi2. apply wp_bind, wp_gets. cbn [id].
  repeat case_match; first [by apply IH | by apply wp_ret, keeps_refl].
Qed.

Lemma notify_all_wp n now d : n < usize_mod -> daemon_inv n d -> wp (notify_all now) (keeps_inv n) d.
Proof.
  intros Hn Hi. unfold notify_all. replace n with (n + 0) in |- * by lia.
  apply (keeps_bind n); [lia | rewrite <- (Z.add_0_r n); by apply on_ip_wp; [| apply tame_notify |] |]. intros _ d1 Hi1.
  apply (keeps_bind n); [lia | rewrite <- (Z.add_0_r n); by apply on_udp_wp; [| apply tame_notify |] |]. intros _ d2 Hi2.
  apply (keeps_bind n); [lia | rewrite <- (Z.add_0_r n); by apply on_tcp_wp; [| apply tame_notify |] |]. intros _ d3 Hi3.
  by apply on_icmp_wp; [| apply tame_notify |].
Qed.

Lemma poll_wp n clock now d : n < usize_mod -> daemon_inv n d -> wp (poll clock now) (keeps_inv n) d.
Proof.
  intros Hn Hi. unfold poll. apply (keeps_bind n); [lia | by apply poll_loop_wp |]. intros t d1 Hi1.
  apply (keeps_bind n); [lia | by apply notify_all_wp |]. intros _ d2 Hi2. by apply wp_ret, keeps_refl.
Qed.
(** ** Events *)

Inductive event :=
| EvNetwork (clock : nat -> Z) (now : Z -> outcome TimeSpec)
| EvIp (rs : list (Request * outcome TimeSpec)) (end_ : outcome (option unit)) (clock : nat -> Z) (now : Z -> outcome TimeSpec)
| EvUdp (rs : list (Request * outcome TimeSpec)) (end_ : outcome (option unit)) (clock : nat -> Z) (now : Z -> outcome TimeSpec)
| EvTcp (rs : list (Request * outcome TimeSpec)) (end_ : outcome (option unit)) (clock : nat -> Z) (now : Z -> outcome TimeSpec)
| EvIcmp (rs : list (Request * outcome TimeSpec)) (end_ : outcome (option unit)) (clock : nat -> Z) (now : Z -> outcome TimeSpec)
| EvTime (time : outcome TimeSpec) (clock clock' : nat -> Z) (now now' : Z -> outcome TimeSpec)
| EvNetcfg (rs : list Request) (end_ : outcome (option unit)).

Definition run_event (e : event) : M Smolnetd unit :=
  match e with
  | EvNetwork clock now => on_network_scheme_event clock now
  | EvIp rs end_ clock now => on_ip_scheme_event rs end_ clock now
  | EvUdp rs end_ clock now => on_udp_scheme_event rs end_ clock now
  | EvTcp rs end_ clock now => on_tcp_scheme_event rs end_ clock now
  | EvIcmp rs end_ clock now => on_icmp_scheme_event rs end_ clock now
  | EvTime time clock clock' now now' => on_time_event time clock clock' now now';; mret tt
  | EvNetcfg rs end_ => on_netcfg_scheme_event rs end_
  end.

(** The requests that come with an event *)
Definition event_requests (e : event) : Z :=
  match e with EvIp rs _ _ _ | EvUdp rs _ _ _ | EvTcp rs _ _ _ | EvIcmp rs _ _ _ => zlen rs | _ => 0 end.

(** The states that the daemon can come to, with the number of requests that came; a panic ends it. *)
Inductive daemon_reach : Z -> Smolnetd -> Prop :=
| daemon_new lo eth0 mac gw ip subnet m d : Smolnetd_new lo eth0 mac gw ip subnet m = Ok d -> daemon_reach 0 d
| daemon_event k d e : daemon_reach k d -> (run_event e d).1 <> Panic -> daemon_reach (k + event_requests e) (run_event e d).2.

Lemma new_good {T} {ST : SchemeSocket T} n n' m (w : Wrapper (T := T)) : SchemeWrapper_new n m = Ok w -> good 1 n' w.
Proof.
  unfold SchemeWrapper_new, SocketScheme_new. destruct new_scheme_data as [x | |]; [| done | done]. cbn. intros [= <-].
  assert (forall h, refs (∅ : gmap Z (SchemeFile DataT SettingT)) h = 0) as Hr by (intros h; unfold refs; by rewrite map_filter_empty).
  split; [| done]. split; [done | | | done].
  - intros h. change (ref_counts _) with (∅ : gmap Z Z). change (files _) with (∅ : gmap Z (SchemeFile DataT SettingT)). by rewrite Hr.
  - by intros fd [[? H] | [? H]].
Qed.

Lemma outcome_bind_Ok {A B} (o : outcome A) (k : A -> outcome B) b : o ≫= k = Ok b -> exists a, o = Ok a /\ k a = Ok b.
Proof. destruct o as [a | |]; [| done | done]. intros H. by exists a. Qed.

Lemma Smolnetd_new_inv lo eth0 mac gw ip subnet m d : Smolnetd_new lo eth0 mac gw ip subnet m = Ok d -> daemon_inv 1 d.
Proof.
  unfold Smolnetd_new. destruct (boot _ _ _ _ _) as [[[] | |] e]; [| done | done].
  intros (w1 & E1 & (w2 & E2 & (w3 & E3 & (w4 & E4 & [= <-])%outcome_bind_Ok)%outcome_bind_Ok)%outcome_bind_Ok)%outcome_bind_Ok.
  split_and!; [exact (new_good _ _ _ _ E1) | exact (new_good _ _ _ _ E2) | exact (new_good _ _ _ _ E3) | exact (new_good _ _ _ _ E4)].
Qed.

(** The configuration scheme takes no sockets. *)
Lemma on_netcfg_wp {A} n (m : M (NetCfg (D := D)) A) d : daemon_inv n d -> wp (on_netcfg m) (keeps_inv n) d.
Proof.
  intros (G1 & G2 & G3 & G4). apply wp_zoom, wp_intro. right. set (d' := Build_Smolnetd _ _ _ _ _ _ _).
  assert (forall k, keeps_kind k (d_net d) (d_net d')) as Hk by (intros k h a Ha E; by exists a).
  split_and!; eapply good_net; [apply kind_raw | apply Hk | done | apply kind_udp | apply Hk | done | apply kind_tcp | apply Hk | done | apply kind_icmp | apply Hk | done].
Qed.

Lemma run_event_wp n e d : n + event_requests e < usize_mod -> daemon_inv n d -> wp (run_event e) (keeps_inv (n + event_requests e)) d.
Proof.
  intros Hn Hi. assert (forall n clock now d, n < usize_mod -> daemon_inv n d -> wp (poll clock now;; mret tt) (keeps_inv n) d) as Hpoll.
  { intros n' clock now d' Hn' Hi'. apply (keeps_bind n'); [lia | by apply poll_wp |]. intros t d1 Hi1. by apply wp_ret, keeps_refl. }
  assert (forall rs : list (Request * outcome TimeSpec), 0 <= zlen rs) as Hz by (intros rs; unfold zlen; lia).
  destruct e as [clock now | rs end_ clock now | rs end_ clock now | rs end_ clock now | rs end_ clock now | time clock clock' now now' | rs end_];
    cbn [run_event event_requests] in *.
  - rewrite Z.add_0_r. apply Hpoll; [lia | done].
  - apply (keeps_bind (n + zlen rs)); [lia | by apply on_ip_wp; [| apply tame_events |] |]. intros _ d1 Hi1. by apply Hpoll.
  - apply (keeps_bind (n + zlen rs)); [lia | by apply on_udp_wp; [| apply tame_events |] |]. intros _ d1 Hi1. by apply Hpoll.
  - apply (keeps_bind (n + zlen rs)); [lia | by apply on_tcp_wp; [| apply tame_events |] |]. intros _ d1 Hi1. by apply Hpoll.
  - apply (keeps_bind (n + zlen rs)); [lia | by apply on_icmp_wp; [| apply tame_events |] |]. intros _ d1 Hi1. by apply Hpoll.
  - rewrite Z.add_0_r in *. unfold on_time_event. apply (keeps_bind n); [lia | | intros t d1 Hi1; by apply wp_ret, keeps_refl].
    apply (keeps_bind n); [lia | by apply poll_wp |]. intros t d1 Hi1. apply (keeps_bind n); [lia | |].
    + apply wp_intro. right. assert (pure_m (schedule_time_event time t : M Smolnetd _)) as ->; [| done]. unfold schedule_time_event.
      repeat (apply pure_bind_; [| intros ?]); try apply pure_sarith; by intros ?.
    + intros t1 d2 Hi2. apply (keeps_bind n); [lia | by apply Hpoll |]. intros _ d3 Hi3. by apply wp_ret, keeps_refl.
  - rewrite Z.add_0_r. unfold on_netcfg_scheme_event. apply (keeps_bind n); [lia | by apply on_netcfg_wp |]. intros u d1 Hi1. by apply wp_ret, keeps_refl.
Qed.

Lemma reach_inv k d : daemon_reach k d -> 0 <= k /\ (1 + k < usize_mod -> daemon_inv (1 + k) d).
Proof.
  induction 1 as [lo eth0 mac gw ip subnet m d Hd | k d e _ [H0 IH] Hp].
  - split; [lia |]. intros _. by eapply Smolnetd_new_inv.
  - assert (0 <= event_requests e) as Hz by (destruct e; cbn; unfold zlen; lia). split; [lia |]. intros Hk.
    pose proof (run_event_wp (1 + k) e d ltac:(lia) (IH ltac:(lia))) as [H | H]; [done |]. by rewrite Z.add_assoc.
Qed.

(** What a scheme of sockets promises its callers, over the sockets that it shares *)
Definition sockets_counted {T} {ST : SchemeSocket T} (net : Net) (s : SocketScheme T) : Prop :=
  (forall fd f, files s !! fd = Some f -> holds (socket_handle f) net) /\
  (forall h, ref_counts s !! h = if decide (refs (files s) h = 0) then None else Some (refs (files s) h)).

Lemma counted_counts {T} {ST : SchemeSocket T} net (w : Wrapper (T := T)) : counted (scheme (with_net net w)) -> sockets_counted net (scheme w).
Proof. intros [H1 H2 _ _]. by split. Qed.

(** C19: in every state that the daemon comes to by any requests of any of its schemes, events and changes of its configuration, every open file of each of the four
    schemes refers to a socket of its own protocol in the set that they share, and the schemes count exactly the files that refer to a socket;
    this holds as long as fewer than 2^64 - 2 requests have come. *)
Theorem daemon_sockets_counted k d : daemon_reach k d -> k + 2 < usize_mod ->
  sockets_counted (d_net d) (scheme (ip_scheme d)) /\ sockets_counted (d_net d) (scheme (udp_scheme d)) /\
  sockets_counted (d_net d) (scheme (tcp_scheme d)) /\ sockets_counted (d_net d) (scheme (icmp_scheme d)).
Proof.
  intros [_ H]%reach_inv Hk. destruct (H ltac:(lia)) as (G1 & G2 & G3 & G4).
  split_and!; [apply counted_counts, G1 | apply counted_counts, G2 | apply counted_counts, G3 | apply counted_counts, G4].
Qed.
End kinds.

(** ** The devices *)

Section devices.
Context {TG : Target} {SC : Syscall} {IP : IpApi} {WA : WireApi} {MA : MacApi} {FA : FrameApi} {PA : PacketApi} {PL : PacketLaws PA}.

Definition dyn_laws (cidr_from_str : string -> option IpCidr) : @DeviceLaws _ _ Device (dyn_device cidr_from_str).
Proof.
  refine {| fit := fun x => match x with Loopback _ => True | Ethernet e => exists hs sent, carried hs sent e end |}.
  - intros hop packet now [d | e] Hf; unfold wp; cbn [send dyn_device]; unfold on_dyn.
    + pose proof (@send_fit _ _ _ _ (loopback_laws cidr_from_str) hop packet now d I) as H. unfold wp in H. by destruct (send hop packet now d).
    + pose proof (@send_fit _ _ _ _ ethernet_laws hop packet now e Hf) as H. unfold wp in H. by destruct (send hop packet now e).
  - intros now [d | e] Hf; unfold wp; cbn [recv dyn_device]; unfold on_dyn.
    + pose proof (@recv_fit _ _ _ _ (loopback_laws cidr_from_str) now d I) as H. unfold wp in H. by destruct (recv now d).
    + pose proof (@recv_fit _ _ _ _ ethernet_laws now e Hf) as H. unfold wp in H. by destruct (recv now e).
Defined.
End devices.

Section replies.
Context {TG : Target} {SC : Syscall} {AB : SchemeAbi} {IP : IpApi} {SA : SocketSetApi} {IF : IfaceApi} {TB : TimeSpecBytes}.
Context {WO : SchemeOut} {T : Type} {ST : SchemeSocket T}.
Implicit Types w : Wrapper (T := T).

(** The kernel takes the responses, and tells events from the replies to requests. *)
Hypothesis taken : forall n, write_result n = Ok true.
Hypothesis event_flags : SendFevent <> RespondRegular /\ SendFevent <> RespondWithFd /\ SendFevent <> RespondWithMultipleFds.

(** The tags of the requests that wait, and of the replies that were sent *)
Definition waiting_tags w : list Z := (fun h => into_tag (w_op h)) <$> wait_queue w.
Definition replied (l : list Response) : list Z := cqe_tag <$> filter (fun r => cqe_flags r <> SendFevent) l.
Definition in_hand w : list Z := waiting_tags w ++ replied (sent w).

(** The requests of a kind that is answered *)
Definition call_tags (r : Request) : list Z := match kind r with RK_Call c => [sqe_tag c] | _ => [] end.

Lemma replied_app l l' : replied (l ++ l') = replied l ++ replied l'.
Proof. unfold replied. by rewrite filter_app, fmap_app. Qed.

Lemma reply_flags r op : cqe_flags (respond r op) <> SendFevent.
Proof. destruct event_flags as (H1 & H2 & H3). destruct r as [r | [[] | |]]; cbn; congruence. Qed.
Lemma err_flags e t : cqe_flags (Response_err e t) <> SendFevent.
Proof. destruct event_flags as (H1 & _). cbn. congruence. Qed.

(** A computation answers or queues the requests [l], if it does not panic. *)
Definition owes {A} (l : list Z) w (o : outcome A) w' : Prop := o = Panic \/ in_hand w' ≡ₚ in_hand w ++ l.

Lemma owes_refl {A} w (o : outcome A) : owes [] w o w.
Proof. right. by rewrite app_nil_r. Qed.

Lemma owes_bind {A B} (m : M Wrapper A) (k : A -> M Wrapper B) l w :
  wp m (fun o w' => (forall e, o <> Err e) /\ owes [] w o w') w -> (forall a w', wp (k a) (owes l w') w') -> wp (m ≫= k) (owes l w) w.
Proof.
  intros Hm Hk. apply wp_bind. eapply wp_mono; [| exact Hm]. intros [a | e |] w1 [He Ho]; [| by destruct (He e) | by left].
  destruct Ho as [Hp | Ho]; [done |]. eapply wp_mono; [| apply Hk]. intros o w2 [-> | H2]; [by left | right]. rewrite H2, Ho. by rewrite app_nil_r.
Qed.

(** A reply *)
Lemma write_response_wp r w (Q : outcome bool -> Wrapper -> Prop) : Q (Ok true) (set_sent (writes w + 1) (sent w ++ [r]) w) -> wp (write_response r) Q w.
Proof. intros HQ. unfold write_response. apply wp_bind, wp_gets. rewrite taken. by apply wp_bind, wp_modify, wp_ret. Qed.

Lemma in_hand_reply n r w : cqe_flags r <> SendFevent -> in_hand (set_sent n (sent w ++ [r]) w) ≡ₚ in_hand w ++ [cqe_tag r].
Proof.
  intros Hr. change (in_hand (set_sent n (sent w ++ [r]) w)) with (waiting_tags w ++ replied (sent w ++ [r])). rewrite replied_app. unfold replied at 2. rewrite filter_cons_True by done. unfold in_hand. cbn. by rewrite app_assoc.
Qed.

Lemma in_hand_event n fd flags w : in_hand (set_sent n (sent w ++ [Response_post_fevent fd flags]) w) = in_hand w.
Proof.
  change (in_hand (set_sent n (sent w ++ [Response_post_fevent fd flags]) w)) with (waiting_tags w ++ replied (sent w ++ [Response_post_fevent fd flags])). rewrite replied_app. unfold replied at 2. rewrite filter_cons_False by (cbn; tauto). cbn. by rewrite app_nil_r.
Qed.

(** The scheme is not concerned. *)
Lemma in_hand_scheme x w : in_hand (set_scheme x w) = in_hand w.
Proof. done. Qed.

Lemma on_scheme_owes {A} (m : M (SocketScheme T * memory) A) w : wp (on_scheme m) (owes [] w) w.
Proof. apply wp_zoom, wp_intro. right. by rewrite in_hand_scheme, app_nil_r. Qed.
Lemma zoom_owes {A} (m : M (SocketScheme T) A) w : wp (zoom scheme (fun s w => set_scheme (s, mem w) w) m) (owes [] w) w.
Proof. apply wp_zoom, wp_intro. right. by rewrite in_hand_scheme, app_nil_r. Qed.

Lemma no_err_zoom {S R A} (get : S -> R) put (m : M R A) : no_err m -> no_err (zoom get put m).
Proof. intros Hm s e. unfold zoom. specialize (Hm (get s) e). by destruct (m (get s)). Qed.

Lemma dispatch_owes {A} op ctx (k : SchemeResponse -> M Wrapper A) l w :
  (forall r w', wp (k r) (owes l w') w') -> wp (on_scheme (handle_sync_dont_consume op ctx) ≫= k) (owes l w) w.
Proof.
  apply owes_bind. apply wp_intro. split; [| apply on_scheme_owes]. intros e. apply (no_err_zoom _ _ _ (no_err_handle op ctx)).
Qed.

Lemma try_owes {A B} (m : M (SocketScheme T) A) (k : outcome A -> M Wrapper B) l w :
  (forall r w', wp (k r) (owes l w') w') -> wp (zoom scheme (fun s w => set_scheme (s, mem w) w) (try_ m) ≫= k) (owes l w) w.
Proof.
  apply owes_bind. apply wp_intro. split; [| apply zoom_owes]. intros e. apply no_err_zoom. intros s e'. unfold try_. by destruct (m s) as [[] ?].
Qed.

(** ** Requests *)

Lemma answers_wp {A} r (k : M Wrapper A) w : cqe_flags r <> SendFevent -> (forall w', wp k (fun _ w2 => in_hand w2 = in_hand w') w') ->
  wp (write_response r;; k) (owes [cqe_tag r] w) w.
Proof.
  intros Hr Hk. apply wp_bind, write_response_wp. eapply wp_mono; [| apply Hk]. intros o w2 E. right. rewrite E. by apply in_hand_reply.
Qed.

Lemma mark_tags id q : (fun h => into_tag (w_op h)) <$> mark_cancelling id q = (fun h => into_tag (w_op h)) <$> q.
Proof. induction q as [| h q IH]; cbn; [done |]. case_match; cbn; [done | by rewrite IH]. Qed.

Lemma handle_request_owes request now w : wp (handle_request request now) (owes (call_tags request) w) w.
Proof.
  unfold handle_request, call_tags. destruct (kind request) as [req | id | req | req | | | | id]; try (apply wp_ret, owes_refl).
  - apply wp_bind, wp_lift. destruct (from_sqe_unchecked req) as [[op |] | e |] eqn:Hop; [| | by destruct (from_sqe_not_Err req e) | by left].
    + apply from_sqe_tag in Hop. rewrite <- Hop. apply dispatch_owes. intros r w1. destruct (would_block r && negb (is_explicitly_nonblock op)).
      * apply try_owes. intros [t | e |] w2; [| | by left].
        -- apply wp_modify. right. unfold in_hand, waiting_tags. cbn. rewrite fmap_app. cbn. solve_Permutation.
        -- apply (answers_wp (Response_err e (into_tag op))); [apply err_flags | by intros w3; apply wp_throw].
      * rewrite <- (respond_tag r op). apply answers_wp; [apply reply_flags | by intros w3; apply wp_ret].
    + apply (answers_wp (Response_err EOPNOTSUPP (sqe_tag req))); [apply err_flags | by intros w3; apply wp_ret].
  - apply wp_modify. right. unfold in_hand, waiting_tags. cbn. by rewrite mark_tags, app_nil_r.
  - apply zoom_owes.
Qed.

(** ** A pass over the queue *)

Lemma post_fevent_owes fd flags w : wp (post_fevent fd flags) (fun o w' => o = Ok tt /\ in_hand w' = in_hand w /\ wait_queue w' = wait_queue w) w.
Proof.
  unfold post_fevent. apply wp_bind, write_response_wp, wp_fail_if; [done |]. intros _. split_and!; [done | apply in_hand_event | done].
Qed.

Lemma events_no_err fd f : no_err (events (T := T) fd f).
Proof.
  intros s e. unfold events, get_socket, on_net, zoom, unwrap, gets, mbind, M_bind. destruct f as [f | f]; [done |]. cbn. by destruct (option_bind _ _ _ _).
Qed.

Lemma notify_files_owes fds : forall w, wp (notify_files fds) (owes [] w) w.
Proof.
  induction fds as [| fd fds IH]; intros w; cbn [notify_files]; [apply wp_ret, owes_refl |].
  apply wp_bind, wp_gets, wp_bind, wp_unwrap; [| by left]. intros f _. apply owes_bind.
  { apply wp_intro. split; [| apply zoom_owes]. intros e. apply no_err_zoom, events_no_err. }
  intros ev w1. apply owes_bind; [| intros _ w2; apply IH]. destruct (0 <? ev).
  - eapply wp_mono; [| apply post_fevent_owes]. intros o w2 (-> & E & _). split; [done |]. right. by rewrite E, app_nil_r.
  - apply wp_ret. split; [done | apply owes_refl].
Qed.

Lemma swap_remove_perm {A} i (l : list A) x : l !! i = Some x -> l ≡ₚ x :: swap_remove i l.
Proof.
  intros Hi. pose proof (lookup_lt_Some _ _ _ Hi) as Hlt. unfold swap_remove.
  destruct (lookup_lt_is_Some_2 l (length l - 1)) as [y Hy]; [lia |].
  assert (l = take (length l - 1) l ++ [y]) as El.
  { rewrite <- (take_S_r l (length l - 1) y Hy). rewrite take_ge by lia. done. }
  destruct (Nat.eqb_spec i (length l - 1)) as [-> | Hne].
  - assert (x = y) as -> by congruence. rewrite El at 1. solve_Permutation.
  - rewrite Hy. assert (take (length l - 1) l !! i = Some x) as Ht by (rewrite lookup_take_lt; [done | lia]).
    rewrite El at 1. rewrite <- (take_drop_middle (take (length l - 1) l) i x Ht) at 1. rewrite (insert_take_drop _ i y) by (apply lookup_lt_Some in Ht; done).
    solve_Permutation.
Qed.

Lemma settle_reply h now r resp : settle h now r = Some resp -> cqe_tag resp = into_tag (w_op h) /\ cqe_flags resp <> SendFevent.
Proof.
  unfold settle. intros H. repeat case_match; simplify_eq; (split; [try done | first [apply err_flags | apply reply_flags]]); apply respond_tag.
Qed.

(** A request that was cancelled, or whose time has passed *)
Definition stale (now : TimeSpec) (h : WaitHandle) : Prop := cancelling h = true \/ exists u, until h = Some u /\ passed u now = true.

Lemma settle_fresh h now r : settle h now r = None -> ~ stale now h.
Proof.
  unfold settle, stale. intros H [E | (u & E & Ep)]; rewrite E in H; [by case_match |]. destruct (_ && _); [| done]. rewrite Ep in H. by destruct (cancelling h).
Qed.

(** What a pass over the queue leaves *)
Definition passed_over (now : TimeSpec) w (o : outcome unit) w' : Prop :=
  o = Panic \/ o = Ok tt /\ in_hand w' ≡ₚ in_hand w /\ Forall (fun h => ~ stale now h) (wait_queue w').

Lemma lookup_swap_remove_lt {A} i j (l : list A) : (j < i)%nat -> (i < length l)%nat -> swap_remove i l !! j = l !! j.
Proof.
  intros Hj Hi. unfold swap_remove. destruct (Nat.eqb_spec i (length l - 1)); [rewrite lookup_take_lt; [done | lia] |].
  destruct (l !! (length l - 1)%nat); [| done]. rewrite list_lookup_insert_ne by lia. rewrite lookup_take_lt; [done | lia].
Qed.

Lemma wake_loop_owes now : forall fuel i w, (forall j h, (j < i)%nat -> wait_queue w !! j = Some h -> ~ stale now h) ->
  wp (wake_loop fuel i now) (passed_over now w) w.
Proof.
  induction fuel as [| fuel IH]; intros i w Hi; cbn [wake_loop]; apply wp_bind, wp_gets; (destruct (wait_queue w !! i) as [h |] eqn:Hh;
    [| apply wp_ret; right; split_and!; [done | done |]; apply Forall_lookup_2; intros j h Hj; apply (Hi j); [|done];
       apply lookup_lt_Some in Hj; apply lookup_ge_None in Hh; lia]).
  - by left.
  - apply wp_bind. apply wp_intro. pose proof (on_scheme_owes (handle_sync_dont_consume (w_op h) (w_caller h)) w) as Ho.
    assert (forall e, (on_scheme (handle_sync_dont_consume (w_op h) (w_caller h)) w).1 <> Err e) as Hne by (intros e; apply no_err_zoom, no_err_handle).
    assert (wait_queue (on_scheme (handle_sync_dont_consume (w_op h) (w_caller h)) w).2 = wait_queue w) as Hq.
    { unfold on_scheme, zoom. by destruct (handle_sync_dont_consume _ _ _). }
    assert (in_hand (on_scheme (handle_sync_dont_consume (w_op h) (w_caller h)) w).2 = in_hand w) as Hin.
    { unfold on_scheme, zoom. by destruct (handle_sync_dont_consume _ _ _). }
    destruct (on_scheme _ w) as [[r | e |] w1]; cbn [fst snd] in *; [| by destruct (Hne e) | by left].
    destruct (settle h now r) as [resp |] eqn:Hs.
    + destruct (settle_reply _ _ _ _ Hs) as [Ht Hf]. apply wp_bind, wp_modify, wp_bind, write_response_wp. set (w3 := set_sent _ _ _).
      assert (wait_queue w3 = swap_remove i (wait_queue w)) as Hq3 by (cbn; by rewrite Hq).
      assert (in_hand w3 ≡ₚ in_hand w) as Hin3.
      { unfold w3. rewrite (in_hand_reply _ _ _ Hf), Ht, <- Hin. unfold in_hand, waiting_tags. cbn.
        rewrite (fmap_Permutation _ _ _ (swap_remove_perm i (wait_queue w1) h ltac:(by rewrite Hq))). cbn. solve_Permutation. }
      eapply wp_mono; [| apply (IH i w3)].
      * intros o w4 [-> | (-> & H1 & H2)]; [by left | right]. split_and!; [done | by rewrite H1 | done].
      * intros j h' Hj. rewrite Hq3, lookup_swap_remove_lt by (done || by eapply lookup_lt_Some). by apply Hi.
    + eapply wp_mono; [| apply (IH (i + 1)%nat w1)].
      * intros o w4 [-> | (-> & H1 & H2)]; [by left | right]. split_and!; [done | by rewrite H1, Hin | done].
      * intros j h' Hj Hl. rewrite Hq in Hl. destruct (decide (j = i)) as [-> |]; [| apply (Hi j); [lia | done]].
        assert (h' = h) as -> by congruence. by eapply settle_fresh.
Qed.

(** The length of the queue is fuel enough. *)
Lemma wake_loop_fuel now : forall fuel fuel' i w, (length (wait_queue w) - i <= fuel)%nat -> (length (wait_queue w) - i <= fuel')%nat ->
  wake_loop fuel i now w = wake_loop fuel' i now w.
Proof.
  assert (forall (w : Wrapper (T := T)) fuel i, (length (wait_queue w) - i <= fuel)%nat -> is_Some (wait_queue w !! i) -> exists f, fuel = S f) as Hpos.
  { intros w fuel i Hl Hs. apply lookup_lt_is_Some_1 in Hs. destruct fuel as [| f]; [lia | by exists f]. }
  induction fuel as [| fuel IH]; intros fuel' i w H1 H2.
  - assert (wait_queue w !! i = None) as Hn by (apply lookup_ge_None; lia). destruct fuel'; cbn [wake_loop]; rewrite !gets_bind, Hn; done.
  - destruct (wait_queue w !! i) as [h |] eqn:Hh; [| destruct fuel'; cbn [wake_loop]; rewrite !gets_bind, Hh; done].
    destruct (Hpos w fuel' i H2 ltac:(by rewrite Hh)) as [f ->]. cbn [wake_loop]. rewrite !gets_bind, Hh.
    apply lookup_lt_Some in Hh. unfold mbind at 1, M_bind at 1. unfold mbind at 3, M_bind at 3.
    assert (wait_queue (on_scheme (handle_sync_dont_consume (w_op h) (w_caller h)) w).2 = wait_queue w) as Hq.
    { unfold on_scheme, zoom. by destruct (handle_sync_dont_consume _ _ _). }
    destruct (on_scheme _ w) as [[r | e |] w1]; cbn [fst snd] in *; [| done | done].
    destruct (settle h now r) as [resp |]; [| apply IH; rewrite Hq; lia].
    rewrite !modify_bind. unfold mbind, M_bind. set (w2 := set_wait_queue _ w1).
    assert (write_response resp w2 = (Ok true, set_sent (writes w2 + 1) (sent w2 ++ [resp]) w2)) as ->.
    { unfold write_response. rewrite gets_bind, taken. done. }
    assert (length (wait_queue w2) = (length (wait_queue w) - 1)%nat) as Hl2 by (cbn; rewrite Hq; by apply length_swap_remove).
    apply IH; cbn [wait_queue set_sent]; rewrite Hl2; lia.
Qed.

Lemma notify_files_no_err fds : no_err (notify_files (T := T) fds).
Proof.
  induction fds as [| fd fds IH]; cbn [notify_files]; [apply no_err_ret |]. apply no_err_bind; [done |]. intros fs.
  apply no_err_bind; [intros w e; by destruct (fs !! fd) |]. intros f. apply no_err_bind; [apply no_err_zoom, events_no_err |]. intros ev.
  apply no_err_bind; [| done]. destruct (0 <? ev); [| apply no_err_ret]. intros w e. pose proof (post_fevent_owes fd ev w) as Hp. unfold wp in Hp.
  destruct Hp as [-> _]. done.
Qed.

Lemma notify_sockets_owes now w : wp (notify_sockets (Ok now)) (passed_over now w) w.
Proof.
  unfold notify_sockets. apply wp_bind, wp_lift, wp_bind, wp_gets, wp_bind. pose proof (notify_files_owes (fds_in_order (scheme w)) w) as Hn.
  pose proof (notify_files_no_err (fds_in_order (scheme w)) w) as Hok.
  unfold wp in Hn |- *. destruct (notify_files _ w) as [[[] | e |] w1]; cbn [fst snd] in *; [| by destruct (Hok e) | by left]. destruct Hn as [Hp | Hn]; [done |]. rewrite app_nil_r in Hn. unfold mbind, M_bind, gets. cbv beta iota.
  pose proof (wake_loop_owes now (length (wait_queue w1)) 0 w1 ltac:(intros j h Hj; lia)) as Hw. unfold wp in Hw.
  destruct Hw as [Hw | (H1 & H2 & H3)]; [by left | right]. split_and!; [done | by rewrite H2 | done].
Qed.

(** ** Any run *)

(** The states of a server, with the tags of the calls that it got: requests come in, the network is polled, what is shared and the memory
    of the callers change. *)
Inductive served_to : list Z -> Wrapper -> Prop :=
| served_new n m w : SchemeWrapper_new n m = Ok w -> served_to [] w
| served_request tags w r now : served_to tags w -> (handle_request r now w).1 <> Panic -> served_to (tags ++ call_tags r) (handle_request r now w).2
| served_pass tags w now : served_to tags w -> (notify_sockets (Ok now) w).1 <> Panic -> served_to tags (notify_sockets (Ok now) w).2
| served_world tags w s m : served_to tags w -> served_to tags (set_scheme (s, m) w).

Lemma served_in_hand tags w : served_to tags w -> in_hand w ≡ₚ tags.
Proof.
  induction 1 as [n m w Hn | tags w r now _ IH Hp | tags w now _ IH Hp | tags w s m _ IH].
  - unfold SchemeWrapper_new in Hn. by destruct (SocketScheme_new n); simplify_eq/=.
  - destruct (handle_request_owes r now w) as [H | H]; [done |]. by rewrite H, IH.
  - destruct (notify_sockets_owes now w) as [H | (_ & H & _)]; [done |]. by rewrite H.
  - exact IH.
Qed.
End replies.

Section theorems.
Context {TG : Target} {SC : Syscall} {AB : SchemeAbi} {IP : IpApi} {SA : SocketSetApi} {IF : IfaceApi} {TB : TimeSpecBytes}.
Context {WO : SchemeOut} {T : Type} {ST : SchemeSocket T}.

End theorems.
