(* ===== verification/NetDriverFacts.v ===== *)
(** * Network drivers: what the scheme guarantees

    Every request is answered once; a reader waits only while there are no packets, and readers are told when there are some. *)

From stdpp Require Import base gmap strings list fin_maps sorting.
From Stdlib Require Import ZArith Lia.
From Stdlib Require Import Strings.Byte.
From S2P Require Import Prelude Memory Syscall SchemeApi Readiness ReadinessFacts Schemes SockServer SockServerFacts SmolnetdFacts NetDriver.

Local Open Scope Z_scope.

(** What a driver promises of its adapter: a queue of the packets that have come *)
Class AdapterLaws (T : Type) {NA : NetworkAdapter T} := {
  pending : T -> list (list u8);
  mac_law : forall a, wp adapter_mac (fun o a' => (exists l, o = Ok l /\ length l = 6%nat) /\ pending a' = pending a) a;
  available_law : forall a, wp available_for_read (fun o a' => (exists n, o = Ok n /\ (0 < n <-> pending a <> [])) /\ pending a' = pending a) a;
  read_law : forall buf a, wp (read_packet buf) (fun o a' =>
    match pending a with
    | [] => o = Ok (None, buf) /\ pending a' = []
    | p :: ps => (exists n l, o = Ok (Some n, l)) /\ pending a' = ps
    end) a;
  write_law : forall buf a, wp (write_packet buf) (fun o a' => o <> Panic /\ pending a' = pending a) a
}.

Section driver.
Context {TG : Target} {SC : Syscall} {AB : SchemeAbi} {T : Type} {NA : NetworkAdapter T} {AL : AdapterLaws T} {WO : SchemeOut}.
Implicit Types (s : NetworkSchemeInner (T := T)) (w : NetworkScheme (T := T)).

(** ** Packets *)

Definition packets s : list (list u8) := pending (adapter s).
(** Packets are only taken. *)
Definition taken_from (l l' : list (list u8)) : Prop := l' `suffix_of` l.

Lemma taken_refl l : taken_from l l.
Proof. by exists []. Qed.
Hint Resolve taken_refl : core.

Lemma read_takes id buf off fl s : wp (read id buf off fl) (fun o s' => taken_from (packets s) (packets s') /\ (o = Err EWOULDBLOCK -> packets s' = [])) s.
Proof.
  unfold read, handle_at. apply wp_bind, wp_bind, wp_gets, wp_ok_or; [intros h _ | by intros _; split].
  destruct h.
  - apply wp_bind, wp_zoom. eapply wp_mono; [| apply read_law]. intros o a' H. unfold packets. destruct (pending (adapter s)) as [| p ps].
    + destruct H as [-> H]. cbn beta iota. destruct (any_set _ _); unfold wp; cbn; rewrite H; by split.
    + destruct H as [(n & l & ->) H]. apply wp_ret. cbn. rewrite H. split; [by exists [p] | done].
  - apply wp_bind, wp_zoom. eapply wp_mono; [| apply mac_law]. intros o a' [(l & -> & _) H]. unfold packets. cbn [packets adapter set_adapter].
    apply wp_bind. destruct (zlen l <? as_usize off); [apply wp_panic | apply wp_ret, wp_ret]; cbn; rewrite H; by split.
Qed.

Lemma write_takes id buf s : wp (write id buf) (fun _ s' => taken_from (packets s) (packets s')) s.
Proof.
  unfold write, handle_at. apply wp_bind, wp_bind, wp_gets, wp_ok_or; [intros h _ | by intros _]. destruct h; [| by apply wp_throw].
  apply wp_zoom. eapply wp_mono; [| apply write_law]. intros o a' [_ H]. unfold packets. cbn. by rewrite H.
Qed.

Definition same_adapter {A} (m : M (NetworkSchemeInner (T := T)) A) : Prop := forall s, adapter (m s).2 = adapter s.

Lemma open_same path ctx : same_adapter (open path ctx).
Proof.
  intros s. change (wp (open path ctx) (fun _ s' => adapter s' = adapter s) s). unfold open. wp_run.
Qed.

Lemma with_handle_same {A} id (k : Handle -> M (NetworkSchemeInner (T := T)) A) : (forall h, same_adapter (k h)) -> same_adapter (handle_at id ≫= k).
Proof. intros Hk s. unfold handle_at, gets, ok_or, mbind, M_bind. destruct (handles s !! id); [apply Hk | done]. Qed.

Lemma fpath_same id buf : same_adapter (fpath id buf).
Proof.
  apply with_handle_same. intros h s. cbv zeta. destruct (_ <? _)%nat; [done |]. rewrite gets_bind. destruct (put_part _ _ _). by destruct (put_part _ _ _).
Qed.

(** A call takes packets at most; a read that blocks has found none. *)
Lemma dispatch_takes op ctx s m :
  wp (handle_sync_dont_consume op ctx) (fun r x' => r = Panic \/ exists resp, r = Ok resp /\ taken_from (packets s) (packets x'.1)) (s, m).
Proof.
  apply (handle_wp _ (fun _ s' => taken_from (packets s) (packets s'))); cbn [fst]; [done | done |].
  assert (forall A (mm : M NetworkSchemeInner A), wp mm (fun _ s' => taken_from (packets s) (packets s')) s -> leaves (fun _ s' => taken_from (packets s) (packets s')) mm s) as Hl.
  { intros A mm Hm. unfold leaves. eapply wp_mono; [| exact Hm]. intros o s' H. by right. }
  assert (forall A (mm : M NetworkSchemeInner A), same_adapter mm -> wp mm (fun _ s' => taken_from (packets s) (packets s')) s) as Hsame.
  { intros A mm Hm. apply wp_intro. unfold packets. by rewrite Hm. }
  split; cbn; try done; intros; simplify_eq; apply Hl.
  - apply Hsame, open_same.
  - eapply wp_mono; [| apply read_takes]. by intros o s' [? _].
  - apply write_takes.
  - apply Hsame, with_handle_same. by intros [].
  - apply Hsame, fpath_same.
  - apply Hsame, with_handle_same. by intros [].
  - apply Hsame, with_handle_same. by intros [].
Qed.

Lemma blocked_read_finds_none t id off fl buf ctx s m :
  wp (handle_sync_dont_consume (Read t id off fl buf) ctx) (fun o x' => forall r, o = Ok r -> would_block r = true -> packets x'.1 = []) (s, m).
Proof.
  cbn [handle_sync_dont_consume]. apply bytes_at_wp; [done |]. intros l. pose proof (read_takes id l off fl s) as H. unfold wp in H.
  assert (forall k : outcome (Z * list u8) -> M (NetworkSchemeInner * memory) SchemeResponse, (r ← call_ (s_read id l off fl ctx); k r) (s, m) =
    match read id l off fl s with (Panic, s') => (Panic, (s', m)) | (r, s') => k r (s', m) end) as E.
  { intros k. unfold call_, mbind, M_bind. cbn [fst snd]. change (s_read id l off fl ctx s) with (read id l off fl s). by destruct (read id l off fl s) as [[] ?]. }
  unfold wp. rewrite E. destruct (read id l off fl s) as [[[n l'] | e |] s']; cbn [fst snd] in *; [| | done].
  - by intros r [= <-].
  - intros r [= <-]. destruct H as [_ H]. cbn. destruct e; try done. intros _. by apply H.
Qed.

(** ** The tick *)

(** The kernel takes the responses, and tells events from the replies to requests. *)
Hypothesis taken : forall n, write_result n = Ok true.
Hypothesis event_flags : SendFevent <> RespondRegular /\ SendFevent <> RespondWithFd /\ SendFevent <> RespondWithMultipleFds.

(** The tags of the requests that wait, and of the replies that were sent *)
Definition in_hand w : list Z := ((fun b => into_tag b.1) <$> blocked w) ++ replied (nd_sent w).

Definition is_read (op : Op) : Prop := match op with Read _ _ _ _ _ => True | _ => False end.

(** The reads among the first [n] requests that wait have found no packet. *)
Definition idle (n : nat) w : Prop := forall j b, (j < n)%nat -> blocked w !! j = Some b -> is_read b.1 -> packets (inner w) = [].
Definition all_idle w : Prop := forall b, b ∈ blocked w -> is_read b.1 -> packets (inner w) = [].

Lemma idle_all n w : idle n w -> (length (blocked w) <= n)%nat -> all_idle w.
Proof. intros H Hn b [j Hj]%list_elem_of_lookup. apply (H j b); [apply lookup_lt_Some in Hj; lia | done]. Qed.

Lemma taken_nil l l' : taken_from l l' -> l = [] -> l' = [].
Proof. by intros [k ->] [_ ?]%app_eq_nil. Qed.

(** A call keeps what waits and what was sent; packets are only taken. *)
Definition called (op : Op) w (o : outcome SchemeResponse) w' : Prop :=
  o = Panic \/ exists r, o = Ok r /\ blocked w' = blocked w /\ nd_sent w' = nd_sent w /\ taken_from (packets (inner w)) (packets (inner w')) /\
    (is_read op -> would_block r = true -> packets (inner w') = []).

Lemma nd_call_wp op ctx w : wp (on_inner (handle_sync_dont_consume op ctx)) (called op w) w.
Proof.
  apply wp_zoom. pose proof (dispatch_takes op ctx (inner w) (nd_mem w)) as H1.
  assert (is_read op -> wp (handle_sync_dont_consume op ctx) (fun o x' => forall r, o = Ok r -> would_block r = true -> packets x'.1 = []) (inner w, nd_mem w)) as H2.
  { destruct op; try done. intros _. apply blocked_read_finds_none. }
  unfold wp in *. destruct (handle_sync_dont_consume op ctx (inner w, nd_mem w)) as [o x']. cbn [fst snd] in *.
  destruct H1 as [-> | (r & -> & H1)]; [by left | right]. exists r. split_and!; [done | done | done | done |]. intros Hr Hb. by apply (H2 Hr r).
Qed.

Lemma nd_respond_wp r w (Q : outcome bool -> NetworkScheme -> Prop) :
  (forall w', inner w' = inner w -> blocked w' = blocked w -> nd_sent w' = nd_sent w ++ [r] -> Q (Ok true) w') -> wp (write_response r) Q w.
Proof. intros HQ. unfold write_response. apply wp_bind, wp_gets. rewrite taken. apply wp_bind, wp_modify, wp_ret. by apply HQ. Qed.

Lemma replied_reply l r : cqe_flags r <> SendFevent -> replied (l ++ [r]) = replied l ++ [cqe_tag r].
Proof. intros Hr. rewrite replied_app. f_equal. unfold replied. by rewrite filter_cons_True. Qed.

Lemma delete_perm {A} i (l : list A) x : l !! i = Some x -> l ≡ₚ x :: delete i l.
Proof. intros Hi. by apply delete_Permutation. Qed.

(** A request that waits is taken out and answered. *)
Lemma answered i b r w w' : blocked w !! i = Some b -> cqe_flags r <> SendFevent -> cqe_tag r = into_tag b.1 ->
  blocked w' = delete i (blocked w) -> nd_sent w' = nd_sent w ++ [r] -> in_hand w' ≡ₚ in_hand w.
Proof.
  intros Hb Hf Ht E1 E2. unfold in_hand. rewrite E1, E2, replied_reply, Ht by done.
  rewrite (fmap_Permutation (fun b : Op * CallerCtx => into_tag b.1) _ _ (delete_perm i (blocked w) b Hb)). cbn. solve_Permutation.
Qed.

Lemma retry_loop_wp : forall fuel i w, (length (blocked w) - i <= fuel)%nat -> idle i w ->
  wp (retry_loop fuel i) (fun o w' => o = Panic \/ o = Ok tt /\ in_hand w' ≡ₚ in_hand w /\ all_idle w') w.
Proof.
  induction fuel as [| fuel IH]; intros i w Hl Hi; cbn [retry_loop]; apply wp_bind, wp_gets;
    (destruct (blocked w !! i) as [[op ctx] |] eqn:Hb; [| apply wp_ret; right; split_and!; [done | done |]; apply (idle_all i); [done | by apply lookup_ge_None]]).
  - by left.
  - apply wp_bind. eapply wp_mono; [| apply nd_call_wp]. intros o w1 [-> | (r & -> & E1 & E2 & Ht & Hr)]; [by left |].
    pose proof (lookup_lt_Some _ _ _ Hb) as Hlt. destruct (would_block r && negb (is_explicitly_nonblock op)) eqn:Ew.
    + apply andb_true_iff in Ew as [Ew _]. eapply wp_mono; [| apply IH; [rewrite E1; lia |]].
      * intros o w2 [-> | (-> & H1 & H2)]; [by left | right]. split_and!; [done | | done]. rewrite H1. unfold in_hand. by rewrite E1, E2.
      * intros j b Hj Hjb Hrd. rewrite E1 in Hjb. destruct (decide (j = i)) as [-> |]; [rewrite Hb in Hjb; injection Hjb as <-; by apply Hr |].
        apply (taken_nil _ _ Ht). apply (Hi j b); [lia | done | done].
    + apply wp_bind, wp_modify, wp_bind. unfold write_response_expect. apply wp_bind, wp_try, nd_respond_wp. intros w2 F1 F2 F3. apply wp_ret.
      cbn [inner blocked set_blocked nd_sent] in F1, F2, F3. rewrite E1 in F2. rewrite E2 in F3.
      eapply wp_mono; [| apply IH].
      * intros o w3 [-> | (-> & H1 & H2)]; [by left | right]. split_and!; [done | | done]. rewrite H1.
        apply (answered i (op, ctx) (respond r op)); [done | by apply reply_flags | apply respond_tag | done | done].
      * rewrite F2, length_delete by done. lia.
      * intros j b Hj Hjb Hrd. rewrite F2, list_lookup_delete_lt in Hjb by done. rewrite F1. apply (taken_nil _ _ Ht). by apply (Hi j b).
Qed.

(** What a part of the tick does with the requests [l] *)
Definition serves (l : list Z) w (o : outcome unit) w' : Prop :=
  o = Panic \/ o = Ok tt /\ in_hand w' ≡ₚ in_hand w ++ l /\ (all_idle w -> all_idle w').

Lemma serves_refl w : serves [] w (Ok tt) w.
Proof. right. by rewrite app_nil_r. Qed.

Lemma serves_trans l l' w w1 (o : outcome unit) w2 : serves l w (Ok tt) w1 -> serves l' w1 o w2 -> serves (l ++ l') w o w2.
Proof. intros [| (_ & H1 & H2)]; [done |]. intros [-> | (-> & H3 & H4)]; [by left | right]. split_and!; [done | by rewrite H3, H1, app_assoc | auto]. Qed.

Lemma answers r w w0 : cqe_flags r <> SendFevent ->
  blocked w = blocked w0 -> nd_sent w = nd_sent w0 -> taken_from (packets (inner w0)) (packets (inner w)) ->
  wp (write_response r;; mret tt) (serves [cqe_tag r] w0) w.
Proof.
  intros Hr E1 E2 Ht. apply wp_bind, nd_respond_wp. intros w' F1 F2 F3. apply wp_ret. right. split_and!; [done | |].
  - unfold in_hand. rewrite F2, E1, F3, E2, replied_reply by done. by rewrite app_assoc.
  - intros Hi b Hb Hrd. rewrite F1. rewrite F2, E1 in Hb. apply (taken_nil _ _ Ht). by apply (Hi b).
Qed.

Lemma handle_request_serves request w : wp (handle_request request) (serves (call_tags request) w) w.
Proof.
  unfold handle_request, call_tags. destruct (kind request) as [req | id | req | req | | | | id]; try (apply wp_ret, serves_refl).
  - apply wp_bind, wp_lift. destruct (from_sqe_unchecked req) as [[op |] | e |] eqn:Hop; [| | by destruct (from_sqe_not_Err req e) | by left].
    + apply from_sqe_tag in Hop. rewrite <- Hop. apply wp_bind. eapply wp_mono; [| apply nd_call_wp].
      intros o w1 [-> | (r & -> & E1 & E2 & Ht & Hr)]; [by left |]. destruct (would_block r && negb (is_explicitly_nonblock op)) eqn:Ew.
      * apply wp_modify. right. unfold in_hand. cbn [blocked set_blocked nd_sent]. rewrite E1, E2. split_and!; [done | rewrite fmap_app; cbn; solve_Permutation |].
        intros Hi b Hb Hrd. cbn [blocked set_blocked inner] in *. apply elem_of_app in Hb as [Hb | ->%list_elem_of_singleton].
        -- apply (taken_nil _ _ Ht). by apply (Hi b).
        -- apply andb_true_iff in Ew as [Ew _]. by apply Hr.
      * rewrite <- (respond_tag r op). apply answers; [by apply reply_flags | done | done | done].
    + apply (answers (Response_err EOPNOTSUPP (sqe_tag req))); [by apply err_flags | done | done | by apply taken_refl].
  - apply wp_bind, wp_gets. unfold position. destruct (list_find _ _) as [[i [op ctx]] |] eqn:E; [| apply wp_ret, serves_refl].
    apply list_find_Some in E as (Hb & _ & _). apply wp_bind, wp_modify, wp_bind, nd_respond_wp. intros w' F1 F2 F3. apply wp_ret. right. rewrite app_nil_r.
    cbn [inner blocked set_blocked nd_sent] in *. split_and!; [done | |].
    + by apply (answered i (op, ctx) (Response_new (Err EINTR) (into_tag op)) w w' Hb ltac:(by apply err_flags)).
    + intros Hi b Hin Hrd. rewrite F1. rewrite F2 in Hin. apply (Hi b); [| done]. rewrite (delete_perm i (blocked w) (op, ctx) Hb). by apply list_elem_of_further.
  - apply wp_zoom, wp_modify. right. by rewrite app_nil_r.
Qed.

Lemma handle_requests_serves rs : forall w, wp (handle_requests rs) (serves (concat (call_tags <$> rs)) w) w.
Proof.
  induction rs as [| r rs IH]; intros w; cbn [handle_requests fmap list_fmap concat]; [apply wp_ret, serves_refl |].
  apply wp_bind. eapply wp_mono; [| apply handle_request_serves]. intros o w1 H. destruct H as [-> | H]; [by left |]. pose proof H as [-> _].
  eapply wp_mono; [| apply IH]. intros o w2. apply serves_trans. by right.
Qed.

(** ** Events *)

Lemma post_fevents_wp ids : forall w, wp (post_fevents ids) (fun o w' => o = Ok tt /\ inner w' = inner w /\ blocked w' = blocked w /\
  nd_sent w' = nd_sent w ++ ((fun id => Response_post_fevent id EVENT_READ) <$> ids)) w.
Proof.
  induction ids as [| id ids IH]; intros w; cbn [post_fevents fmap list_fmap]; [apply wp_ret; by rewrite app_nil_r |].
  apply wp_bind. unfold post_fevent. apply wp_bind, nd_respond_wp. intros w1 E1 E2 E3. apply wp_fail_if; [done |]. intros _.
  eapply wp_mono; [| apply IH]. intros o w2 (-> & F1 & F2 & F3). split_and!; [done | congruence | congruence |]. rewrite F3, E3. by rewrite <- app_assoc.
Qed.

Lemma events_replied l ids : replied (l ++ ((fun id => Response_post_fevent id EVENT_READ) <$> ids)) = replied l.
Proof.
  rewrite replied_app. assert (replied ((fun id => Response_post_fevent id EVENT_READ) <$> ids) = []) as ->; [| by rewrite app_nil_r].
  unfold replied. induction ids as [| id ids IH]; [done |]. cbn [fmap list_fmap]. by rewrite filter_cons_False by (cbn; tauto).
Qed.

(** The descriptors of the handles in order *)
Definition ids_of w : list Z := merge_sort Z.le (map fst (map_to_list (handles (inner w)))).

(** What a tick leaves *)
Definition ticked (rs : list Request) w (o : outcome unit) w' : Prop :=
  o = Panic \/ o = Ok tt /\ in_hand w' ≡ₚ in_hand w ++ concat (call_tags <$> rs) /\ all_idle w' /\
    (packets (inner w') <> [] -> exists earlier, nd_sent w' = earlier ++ ((fun id => Response_post_fevent id EVENT_READ) <$> ids_of w')).

Lemma tick_wp rs w : wp (tick rs (Ok tt)) (ticked rs w) w.
Proof.
  unfold tick. apply wp_bind, wp_gets, wp_bind. eapply wp_mono; [| apply (retry_loop_wp (length (blocked w)) 0 w); [lia | intros j b Hj; lia]].
  intros o w1 [-> | (-> & G1 & G2)]; [by left |]. apply wp_bind. eapply wp_mono; [| apply handle_requests_serves].
  intros o w2 [-> | (-> & H1 & H2)]; [by left |]. specialize (H2 G2). rewrite G1 in H1. apply wp_bind, wp_lift, wp_bind, wp_zoom, wp_zoom.
  eapply wp_mono; [| apply available_law]. intros o a' [(n & -> & Hn) Hp]. destruct (Z.ltb_spec 0 n) as [Hpos | Hneg].
  - apply wp_bind, wp_gets. eapply wp_mono; [| apply post_fevents_wp]. intros o w4 (-> & F1 & F2 & F3). right.
    split_and!; [done | | |].
    + unfold in_hand. rewrite F2, F3, events_replied. exact H1.
    + intros b Hb Hrd. rewrite F2 in Hb. rewrite F1. unfold packets. cbn. rewrite Hp. by apply (H2 b).
    + intros _. unfold ids_of. rewrite F1, F3. by eexists.
  - apply wp_ret. right. split_and!; [done | exact H1 | |].
    + intros b Hb Hrd. unfold packets. cbn. rewrite Hp. by apply (H2 b).
    + unfold packets. cbn. rewrite Hp. intros Hne. apply Hn in Hne. lia.
Qed.

(** The number of the requests that wait is fuel enough. *)
Lemma retry_loop_fuel : forall fuel fuel' i w, (length (blocked w) - i <= fuel)%nat -> (length (blocked w) - i <= fuel')%nat ->
  retry_loop fuel i w = retry_loop fuel' i w.
Proof.
  induction fuel as [| fuel IH]; intros fuel' i w H1 H2; (destruct (blocked w !! i) as [[op ctx] |] eqn:Hb;
    [pose proof (lookup_lt_Some _ _ _ Hb) | by destruct fuel'; cbn [retry_loop]; rewrite !gets_bind, Hb]); [lia |].
  destruct fuel' as [| fuel']; [lia |]. cbn [retry_loop]. rewrite !gets_bind, Hb. pose proof (nd_call_wp op ctx w) as Hc. unfold wp in Hc.
  unfold mbind at 1, M_bind at 1. unfold mbind at 3, M_bind at 3. destruct (on_inner _ w) as [[r | e |] w1]; cbn [fst snd] in Hc; [| done | done].
  destruct Hc as [| (r' & [= <-] & E1 & _)]; [done |]. destruct (would_block r && negb (is_explicitly_nonblock op)); [apply IH; rewrite E1; lia |].
  rewrite !modify_bind. set (w2 := set_blocked _ w1). pose proof (nd_respond_wp (respond r op) w2 (fun o w' => o = Ok true /\ blocked w' = blocked w2)) as Hr.
  specialize (Hr ltac:(intros w' _ ? _; done)). unfold write_response_expect, try_, wp, mbind, M_bind in *.
  destruct (write_response (respond r op) w2) as [o w3]. cbn [fst snd] in Hr. destruct Hr as [-> Hr]. cbn.
  assert (length (blocked w3) = (length (blocked w) - 1)%nat) as Hl by (rewrite Hr; cbn; rewrite E1, length_delete; [lia | by rewrite Hb]).
  apply IH; rewrite Hl; lia.
Qed.
End driver.


(** ** A driver *)

(** An adapter that has got these packets *)
Record Wire := { w_in : list (list u8); w_out : list (list u8) }.
#[export] Instance wire_adapter : NetworkAdapter Wire := {|
  adapter_mac := mret (replicate 6 x0a);
  available_for_read := gets (fun a => zlen (w_in a));
  read_packet buf a := match w_in a with
                       | [] => (Ok (None, buf), a)
                       | p :: ps => let n := common_len buf p in (Ok (Some (Z.of_nat n), copy_prefix n p buf), {| w_in := ps; w_out := w_out a |})
                       end;
  write_packet buf a := (Ok (zlen buf), {| w_in := w_in a; w_out := w_out a ++ [buf] |})
|}.
#[export] Instance wire_laws : AdapterLaws Wire.
Proof.
  refine {| pending := w_in |}.
  - intros a. split; [by eexists | done].
  - intros a. split; [| done]. eexists. split; [done |]. unfold zlen. destruct (w_in a); cbn; [split; [lia | done] | split; [done | lia]].
  - intros buf a. unfold wp. cbn. destruct (w_in a) as [| p ps] eqn:E; cbn; [done |]. split; [by do 2 eexists | done].
  - by intros buf a.
Defined.

Section run.
#[local] Existing Instance x86_64_release.
#[local] Existing Instance redox_syscall.
Context {AB : SchemeAbi}.

(** A read of the hardware address from past its end ends the driver. *)
Lemma mac_offset_panics (s : NetworkSchemeInner (T := Wire)) id buf fl : handles s !! id = Some Mac -> (read id buf 7 fl s).1 = Panic.
Proof. intros Hh. unfold read, handle_at, gets, ok_or, mbind, M_bind. rewrite Hh. reflexivity. Qed.
End run.
