(* ===== verification/SockWitness.v ===== *)
(** * netstack: a small [smoltcp]

    An instance of what the network daemon takes from [smoltcp], with its laws: sockets with queues, a set of sockets by
    index, a bounded queue of packets and a plain format of frames.

    Concrete runs of the network daemon over the instances above, at which the theorems about the sockets, the router and the
    ethernet link are applied. *)

From stdpp Require Import base gmap strings list fin_maps.
From Stdlib Require Import ZArith Lia.
From Stdlib Require Import Strings.Byte.
From S2P Require Import NetDriver NetDriverFacts NetCfg NetCfgFacts Prelude Memory Syscall SchemeApi Readiness Netstack NetstackFacts Sockets SockProto.
From S2P Require Import SockServer SockFacts SockServerFacts Link Router LinkFacts RouterFacts Smolnetd.
From S2P Require Import SmolnetdFacts.

Local Open Scope Z_scope.

(** ** Addresses *)

#[export] Instance demo_ip : IpApi := {|
  IpAddress := Z; IpCidr := Z * Z; prefix_len c := c.2;
  contains_addr c a := Z.shiftr a (32 - c.2) =? Z.shiftr c.1 (32 - c.2)
|}.

Definition host_lo : Z := 0x7f000001.
Definition host_a : Z := 0x0a000001.
Definition host_b : Z := 0x0a000002.
(** Four numbers, and an address with a length *)
Definition quad (s : string) : option Z :=
  match omap (parse_unsigned 256) (split_char (Ascii.ascii_of_nat 46) s) with
  | [a; b; c; d] => Some (((a * 256 + b) * 256 + c) * 256 + d)
  | _ => None
  end.
Definition quad_prefix (s : string) : option (Z * Z) :=
  match split_char slash s with
  | [a; n] => match quad a, parse_unsigned 33 n with Some a, Some n => Some (a, n) | _, _ => None end
  | _ => None
  end.

#[export] Instance demo_wire : WireApi := {|
  addr_from_str := quad; ipv4_from_str := quad; addr_is_unspecified a := a =? 0;
  is_specified e := negb (l_port e =? 0);
  show_addr a := show_unsigned a; show_endpoint e := show_unsigned (e_port e); show_listen e := show_unsigned (l_port e)
|}.

(** ** Sockets *)

Record DemoUdp := { u_bound : IpListenEndpoint; u_hops : option Z; u_in : list (list u8); u_out : list (list u8 * IpEndpoint) }.
Record DemoTcp := { t_listens : option IpListenEndpoint; t_peer : option IpEndpoint; t_hops : option Z; t_in : list u8; t_out : list u8 }.
Record DemoIcmp := { i_bound : option (IpListenEndpoint + Z); i_hops : option Z; i_in : list (list u8); i_out : list (list u8) }.
Record DemoRaw := { r_protocol : Z; r_in : list (list u8); r_out : list (list u8) }.
Inductive DemoSocket := IsUdp (u : DemoUdp) | IsTcp (t : DemoTcp) | IsIcmp (i : DemoIcmp) | IsRaw (r : DemoRaw).

Definition slot (h : Z) (st : list (option DemoSocket)) : option DemoSocket :=
  if h <? 0 then None else match st !! Z.to_nat h with Some (Some a) => Some a | _ => None end.

#[export] Instance demo_set : SocketSetApi := {|
  AnySocket := DemoSocket; SocketSet := list (option DemoSocket);
  set_get := slot;
  set_put h a st := <[Z.to_nat h := Some a]> st;
  set_add a st := (zlen st, st ++ [Some a]);
  set_remove h st := <[Z.to_nat h := None]> st
|}.

Lemma slot_insert h k x st : is_Some (slot k st) -> slot h (<[Z.to_nat k := x]> st) = if decide (h = k) then x else slot h st.
Proof.
  unfold slot. intros [a Ha]. destruct (Z.ltb_spec k 0); [done |]. destruct (st !! Z.to_nat k) as [y |] eqn:Hk; [| done].
  apply lookup_lt_Some in Hk. destruct (Z.ltb_spec h 0); [by rewrite decide_False by lia |]. case_decide as E.
  - subst h. rewrite list_lookup_insert_eq by done. by destruct x.
  - rewrite list_lookup_insert_ne by lia. done.
Qed.

#[export] Instance demo_set_laws : SocketSetLaws demo_set.
Proof.
  split; cbn.
  - intros a st. unfold slot. destruct (zlen st <? 0); [done |]. rewrite lookup_ge_None_2 by (unfold zlen; lia). done.
  - intros a st h. unfold slot. destruct (Z.ltb_spec h 0); [by rewrite decide_False by (unfold zlen in *; lia) |]. case_decide as E.
    + subst h. unfold zlen. rewrite Nat2Z.id, lookup_app_r, Nat.sub_diag by lia. done.
    + destruct (decide (Z.to_nat h < length st)%nat); [by rewrite lookup_app_l |].
      rewrite !lookup_ge_None_2; [done | lia |]. rewrite length_app. cbn. unfold zlen in E. lia.
  - intros a st h k Hk. by apply slot_insert.
  - intros st h k Hk. by apply slot_insert.
Qed.

(** An interface is its addresses, of which there may be two. *)
#[export] Instance demo_iface : IfaceApi := {| Interface := list (Z * Z) |}.
#[export] Instance demo_timespec : TimeSpecBytes := {| ts_size := 2; ts_bytes _ := [x00; x00]; ts_of_bytes _ := {| tv_sec := 1; tv_nsec := 0 |} |}.

(** The head of a queue, as much of it as fits *)
Definition pop {U} (l : list (list u8)) (buf : list u8) (f : list (list u8) -> U) (u : U) : option (Z * list u8) * U :=
  match l with
  | p :: l => if (length p <=? length buf)%nat then (Some (zlen p, splice 0 p buf), f l) else (None, f l)
  | [] => (None, u)
  end.

#[export] Instance demo_udp : UdpApi := {|
  UdpSocket := DemoUdp; udp_any := IsUdp; as_udp a := match a with IsUdp u => Some u | _ => None end;
  udp_new _ _ := {| u_bound := {| l_addr := None; l_port := 0 |}; u_hops := None; u_in := []; u_out := [] |};
  udp_bind e u := if l_port e =? 0 then None else Some {| u_bound := e; u_hops := u_hops u; u_in := u_in u; u_out := u_out u |};
  udp_endpoint := u_bound;
  udp_can_send u := (length (u_out u) <? 4)%nat; udp_can_recv u := negb (bool_decide (u_in u = []));
  udp_hop_limit := u_hops;
  udp_set_hop_limit n u := if bool_decide (n = Some 0) then Panic else Ok {| u_bound := u_bound u; u_hops := n; u_in := u_in u; u_out := u_out u |};
  udp_send_slice l e u := Some {| u_bound := u_bound u; u_hops := u_hops u; u_in := u_in u; u_out := u_out u ++ [(l, e)] |};
  udp_recv_slice buf u := pop (u_in u) buf (fun l => {| u_bound := u_bound u; u_hops := u_hops u; u_in := l; u_out := u_out u |}) u
|}.

#[export] Instance demo_tcp : TcpApi := {|
  TcpSocket := DemoTcp; tcp_any := IsTcp; as_tcp a := match a with IsTcp t => Some t | _ => None end;
  tcp_new _ _ := {| t_listens := None; t_peer := None; t_hops := None; t_in := []; t_out := [] |};
  tcp_connect e l p := Some (p.1, {| t_listens := Some l; t_peer := Some e; t_hops := t_hops p.2; t_in := []; t_out := [] |});
  tcp_listen l t := Some {| t_listens := Some l; t_peer := None; t_hops := t_hops t; t_in := []; t_out := [] |};
  tcp_is_active t := bool_decide (is_Some (t_peer t)); tcp_can_send t := true; tcp_can_recv t := negb (bool_decide (t_in t = []));
  tcp_may_recv t := bool_decide (is_Some (t_peer t));
  tcp_local t := match t_peer t, t_listens t with Some _, Some l => Some {| e_addr := default 0 (l_addr l); e_port := l_port l |} | _, _ => None end;
  tcp_remote := t_peer; tcp_hop_limit := t_hops;
  tcp_set_hop_limit n t := Ok {| t_listens := t_listens t; t_peer := t_peer t; t_hops := n; t_in := t_in t; t_out := t_out t |};
  tcp_send_slice l t := Some (zlen l, {| t_listens := t_listens t; t_peer := t_peer t; t_hops := t_hops t; t_in := t_in t; t_out := t_out t ++ l |});
  tcp_recv_slice buf t := (Some (0, buf), t)
|}.

#[export] Instance demo_icmp : IcmpApi := {|
  IcmpSocket := DemoIcmp; icmp_any := IsIcmp; as_icmp a := match a with IsIcmp i => Some i | _ => None end;
  icmp_new _ _ := {| i_bound := None; i_hops := None; i_in := []; i_out := [] |};
  icmp_bind e i := Some {| i_bound := Some e; i_hops := i_hops i; i_in := i_in i; i_out := i_out i |};
  icmp_can_send i := true; icmp_can_recv i := negb (bool_decide (i_in i = []));
  icmp_hop_limit := i_hops; icmp_set_hop_limit n i := Ok {| i_bound := i_bound i; i_hops := n; i_in := i_in i; i_out := i_out i |};
  icmp_len r := match r with EchoRequest _ _ l | EchoReply _ _ l => 1 + zlen l | OtherIcmp => 1 end;
  icmp_emit r := match r with EchoRequest _ _ l => x08 :: l | EchoReply _ _ l => x00 :: l | OtherIcmp => [x01] end;
  icmp_parse l := match l with x00 :: l => Some (EchoReply 0 0 l) | _ => Some OtherIcmp end;
  icmp_send n a i := Some i;
  icmp_fill l i := {| i_bound := i_bound i; i_hops := i_hops i; i_in := i_in i; i_out := i_out i ++ [l] |};
  icmp_recv i := (head (i_in i), {| i_bound := i_bound i; i_hops := i_hops i; i_in := tail (i_in i); i_out := i_out i |});
  icmp_waiting i := length (i_in i)
|}.

#[export] Instance demo_raw : RawApi := {|
  RawSocket := DemoRaw; raw_any := IsRaw; as_raw a := match a with IsRaw r => Some r | _ => None end;
  raw_new p _ _ := {| r_protocol := p; r_in := []; r_out := [] |};
  raw_can_send r := true; raw_can_recv r := negb (bool_decide (r_in r = []));
  raw_send_slice l r := Some {| r_protocol := r_protocol r; r_in := r_in r; r_out := r_out r ++ [l] |};
  raw_recv_slice buf r := pop (r_in r) buf (fun l => {| r_protocol := r_protocol r; r_in := l; r_out := r_out r |}) r;
  show_protocol r := show_unsigned (r_protocol r)
|}.

#[export] Instance demo_raw_casts : Casts raw_any as_raw.
Proof. by split. Qed.
#[export] Instance demo_udp_casts : Casts udp_any as_udp.
Proof. by split. Qed.
#[export] Instance demo_tcp_casts : Casts tcp_any as_tcp.
Proof. by split. Qed.
#[export] Instance demo_icmp_casts : Casts icmp_any as_icmp.
Proof. by split. Qed.

Definition demo_protocol (a : DemoSocket) : Protocol := match a with IsRaw _ => Raw | IsUdp _ => Udp | IsTcp _ => Tcp | IsIcmp _ => Icmp end.

#[export] Instance demo_kinds : Kinds.
Proof. refine {| protocol_of := demo_protocol : AnySocket -> Protocol |}; intros []; cbn; (split; [by intros [? ?] | try done; by eexists]). Defined.

(** ** Packets and frames *)

Record DemoQueue (H : Type) := { q_room : Z; q_packets : list (H * list u8) }.
Arguments q_room {H}.
Arguments q_packets {H}.

Definition with_packets {H} (q : DemoQueue H) (l : list (H * list u8)) : DemoQueue H := {| q_room := q_room q; q_packets := l |}.

#[export] Instance demo_packets : PacketApi := {|
  PacketBuffer := DemoQueue;
  pb_new H m _ := {| q_room := m; q_packets := [] |};
  pb_packets H := q_packets;
  enqueue H h l q := if zlen (q_packets q) <? q_room q then Some (with_packets q (q_packets q ++ [(h, l)])) else None;
  dequeue H q := (head (q_packets q), with_packets q (tail (q_packets q)));
  peek H q := (head (q_packets q), q);
  is_full H q := q_room q <=? zlen (q_packets q)
|}.
#[export] Instance demo_packet_laws : PacketLaws demo_packets.
Proof. split; try done. cbn. intros H h l q q' E. case_match; by simplify_eq. Qed.

#[export] Instance demo_mac : MacApi := {|
  EthernetAddress := list u8; mac_of l := l; MAC_BROADCAST := replicate 6 xff;
  mac_is_broadcast m := bool_decide (m = replicate 6 xff); mac_is_unicast m := negb (bool_decide (m = replicate 6 xff));
  addr_is_broadcast a := a =? 0xffffffff; addr_is_multicast a := Z.shiftr a 28 =? 14;
  cidr_address c := c.1; cidr_broadcast c := Some (Z.lor c.1 (2 ^ (32 - c.2) - 1))
|}.

Definition addr_bytes (a : Z) : list u8 := [byte_of_Z (a / 2 ^ 24); byte_of_Z (a / 2 ^ 16); byte_of_Z (a / 2 ^ 8); byte_of_Z a].
Definition bytes_addr (l : list u8) : Z := foldl (fun n b => n * 256 + Z_of_byte b) 0 l.

(** Two addresses and a type, with the payload behind them; requests and replies of ARP *)
#[export] Instance demo_frames : FrameApi := {|
  eth_parse l := match drop 12 l with
                 | b :: _ => Some {| dst_addr := take 6 l; src_addr := take 6 (drop 6 l);
                                     ethertype := match b with x08 => ProtoIpv4 | x06 => ProtoArp | _ => ProtoOther (Z_of_byte b) end |}
                 | [] => None
                 end;
  eth_payload := drop 13;
  eth_emit r l := dst_addr r ++ src_addr r ++ (match ethertype r with ProtoIpv4 => x08 | ProtoArp => x06 | ProtoOther n => byte_of_Z n end) :: l;
  arp_parse l := match l with
                 | op :: l => Some (EthernetIpv4 (match op with x01 => Request | x02 => Reply | _ => Unknown (Z_of_byte op) end)
                                      (take 6 l) (bytes_addr (take 4 (drop 6 l))) (take 6 (drop 10 l)) (bytes_addr (take 4 (drop 16 l))))
                 | [] => None
                 end;
  arp_emit r := match r with
                | EthernetIpv4 op sha spa tha tpa =>
                    (match op with Request => x01 | Reply => x02 | Unknown n => byte_of_Z n end) :: sha ++ addr_bytes spa ++ tha ++ addr_bytes tpa
                | OtherArp => []
                end
|}.

(** A packet is the addresses of its destination and source, and data. *)
#[export] Instance demo_fields : PacketFields := {|
  packet_ok l := (8 <=? length l)%nat; packet_dst l := bytes_addr (take 4 l); packet_src l := bytes_addr (take 4 (drop 4 l));
  packet_set_src a l := take 4 l ++ addr_bytes a ++ drop 8 l
|}.

#[export] Instance demo_cfg : CfgApi := {|
  cidr_from_str := quad_prefix; mac_from_str s := Some (as_bytes s);
  v4 a b c d := ((a * 256 + b) * 256 + c) * 256 + d; cidr_new a n := (a, n);
  cidr_network c := (Z.shiftl (Z.shiftr c.1 (32 - c.2)) (32 - c.2), c.2);
  addr_is_unicast a := negb (a =? 0) && negb (a =? 0xffffffff) && negb (Z.shiftr a 28 =? 14);
  show_cidr c := show_unsigned c.1; show_mac := String.string_of_list_byte;
  ip_addrs i := i; set_ip_addrs l _ := Some l; ip_addrs_capacity := 2
|}.
#[export] Instance demo_device : LinkDevice Device := dyn_device cidr_from_str.
#[export] Instance demo_boot_api : BootApi := {| iface_new := []; add_default_route _ i := Some i; set_new := [] |}.

(** ** The network *)

(** A host connects to the sockets that listen. *)
Definition connected (a : DemoSocket) : DemoSocket :=
  match a with
  | IsTcp t => IsTcp {| t_listens := t_listens t; t_peer := match t_listens t with Some _ => Some {| e_addr := host_b; e_port := 4000 |} | None => t_peer t end;
                        t_hops := t_hops t; t_in := t_in t; t_out := t_out t |}
  | a => a
  end.

#[export] Instance demo_poll : PollApi (D := Device) := {|
  iface_poll t x := (x.1.1, x.1.2, map (option_map connected) (x.2 : list (option DemoSocket))); poll_delay _ _ _ := None
|}.
#[export] Instance demo_poll_laws : PollLaws.
Proof.
  split. cbn. unfold slot. intros t i r st h a. destruct (h <? 0); [done |]. change (map (option_map connected) st) with (option_map connected <$> (st : list (option DemoSocket))). rewrite list_lookup_fmap.
  destruct (st !! Z.to_nat h) as [[b |] |]; cbn; [| done | done]. intros [= ->]. exists (connected a). split; [done |]. by destruct a.
Qed.

(** ** Requests *)

#[export] Instance demo_abi : SchemeAbi := {|
  try_from_raw n := match n with 3 => Some OC_Read | 4 => Some OC_Write | 5 => Some OC_Cancel | 6 => Some OC_Dup | 7 => Some OC_CloseMsg | 8 => Some OC_Fsync
                    | _ => if n <? 64 then Some (OC_other n) else None end;
  RespondRegular := 0; RespondWithFd := 1; RespondWithMultipleFds := 2; SendFevent := 3;
  mux o := match o with Ok n => n | _ => 2 ^ 64 - 1 end;
  new_fd_bits f := match f with fd_empty => 0 | fd_POSITIONED => 1 end;
  size_of_Stat := 1; size_of_StatVfs := 1; size_of_TimeSpec := 16;
  stat_bytes _ := [x00]; statvfs_bytes _ := [x00]; timespecs_of _ := [];
  DirentBuf := list u8; dirent_new l _ := Some l; dirent_finalize l := (0, l)
|}.
#[export] Instance demo_out : SchemeOut := { write_result _ := Ok true }.

(** A request of root with the tag: its arguments *)
Definition demo_sqe (op tag a b c : Z) : Sqe :=
  {| opcode := op; sqe_tag := tag; sqe_caller := 1; arg0 := a; arg1 := b; arg2 := c; arg3 := 0; arg4 := 0; arg5 := 0 |}.

#[local] Existing Instance x86_64_release.
#[local] Existing Instance redox_syscall.

(** ** The daemon *)

Definition demo_mem : memory :=
  store 4096 (as_bytes "10.0.0.2:53/0.0.0.0:7000") (store 5000 (as_bytes "/0.0.0.0:80") (store 6000 (as_bytes "listen") ∅)).

Definition demo_net : Net := {| sockets := []; iface := []; route_table := [] |}.
Definition demo_devices : Device * Device := (Loopback LoopbackDevice_default, Ethernet (EthernetLink_new "eth0" [])).
(** The value of a computation that is [Ok] *)
Definition value {A} (o : outcome A) : is_ok o = true -> A :=
  match o with Ok a => fun _ => a | Err _ | Panic => fun E => False_rect A (diff_false_true E) end.
Lemma value_ok {A} (o : outcome A) E : o = Ok (value o E).
Proof. destruct o; [done | discriminate E | discriminate E]. Qed.

Definition demo_boots : outcome (Smolnetd (D := Device)) := Smolnetd_new demo_devices.1 demo_devices.2 (replicate 6 x0a) (Some ("10.0.0.1" +:+ nl)) None None demo_mem.
Lemma demo_boots_ok : is_ok demo_boots = true.
Proof. by vm_compute. Defined.
Definition demo_boot : Smolnetd (D := Device) := value demo_boots demo_boots_ok.
Definition noon : outcome TimeSpec := Ok {| tv_sec := 100; tv_nsec := 0 |}.
Definition ev_udp : event := EvUdp [(demo_sqe 0 1 4096 24 0, noon); (demo_sqe 6 2 1 4096 0, noon)] (Ok None) (fun _ => 0) (fun _ => noon).
Definition ev_tcp : event := EvTcp [(demo_sqe 0 3 5000 11 0, noon); (demo_sqe 6 4 1 6000 6, noon)] (Ok None) (fun _ => 0) (fun _ => noon).
Definition ev_close : event := EvUdp [(demo_sqe 7 5 1 0 0, noon)] (Ok None) (fun _ => 0) (fun _ => noon).
Definition demo_day : list (event) := [ev_udp; ev_tcp; ev_close].
Definition demo_at (n : nat) : Smolnetd (D := Device) := foldl (fun d e => (run_event e d).2) demo_boot (take n demo_day).

Definition not_panic {A} (o : outcome A) : bool := match o with Panic => false | _ => true end.
Lemma not_panic_ne {A} (o : outcome A) : not_panic o = true -> o <> Panic.
Proof. by destruct o. Qed.

Lemma demo_step1 : not_panic (run_event ev_udp (demo_at 0)).1 = true.
Proof. by vm_compute. Qed.
Lemma demo_step2 : not_panic (run_event ev_tcp (demo_at 1)).1 = true.
Proof. by vm_compute. Qed.
Lemma demo_step3 : not_panic (run_event ev_close (demo_at 2)).1 = true.
Proof. by vm_compute. Qed.

Lemma demo_reaches : daemon_reach 5 (demo_at 3).
Proof.
  apply (daemon_event 4 (demo_at 2) ev_close); [| apply not_panic_ne, demo_step3]. apply (daemon_event 2 (demo_at 1) ev_tcp); [| apply not_panic_ne, demo_step2].
  apply (daemon_event 0 (demo_at 0) ev_udp); [| apply not_panic_ne, demo_step1]. eapply daemon_new. exact (value_ok demo_boots demo_boots_ok).
Qed.

(** One udp file was closed, and a connection was accepted while the first socket was replaced by a new one that listens. *)
Lemma demo_files : (socket_handle <$> files (scheme (udp_scheme (demo_at 3)))) = {[2 := 0]} /\
  (socket_handle <$> files (scheme (tcp_scheme (demo_at 3)))) = {[1 := 2; 2 := 1]}.
Proof. by vm_compute. Qed.

Lemma daemon_sockets_counted_witness :
  (socket_handle <$> files (scheme (tcp_scheme (demo_at 3)))) = {[1 := 2; 2 := 1]} /\
  sockets_counted (d_net (demo_at 3)) (scheme (udp_scheme (demo_at 3))) /\ sockets_counted (d_net (demo_at 3)) (scheme (tcp_scheme (demo_at 3))).
Proof.
  destruct (daemon_sockets_counted 5 (demo_at 3) demo_reaches ltac:(by vm_compute)) as (_ & H2 & H3 & _).
  split_and!; [exact (proj2 demo_files) | exact H2 | exact H3].
Defined.

(** ** Replies *)

Definition demo_serves : outcome (Wrapper (T := TcpSocket)) := SchemeWrapper_new demo_net demo_mem.
Lemma demo_serves_ok : is_ok demo_serves = true.
Proof. by vm_compute. Defined.

(** A socket listens, a call waits for a connection, and is cancelled. *)
Definition demo_calls : list Sqe := [demo_sqe 0 3 5000 11 0; demo_sqe 6 4 1 6000 6; demo_sqe 5 4 0 0 0].
Definition served_at (n : nat) : Wrapper (T := TcpSocket) := foldl (fun w r => (handle_request r noon w).2) (value demo_serves demo_serves_ok) (take n demo_calls).

Lemma served_step (n : nat) : (n < 3)%nat -> forall r, demo_calls !! n = Some r -> (handle_request r noon (served_at n)).1 <> Panic.
Proof. intros Hn r. destruct n as [| [| [| n]]]; [| | | lia]; intros [= <-]; apply not_panic_ne; by vm_compute. Qed.

Lemma serve_next tags n r l : l = tags ++ call_tags r -> demo_calls !! n = Some r -> (n < 3)%nat -> served_at (S n) = (handle_request r noon (served_at n)).2 ->
  served_to tags (served_at n) -> served_to l (served_at (S n)).
Proof. intros -> Hr Hn -> Hs. apply served_request; [done |]. by apply served_step. Qed.

Lemma demo_served : served_to [3; 4] (served_at 3).
Proof.
  eapply (serve_next [3; 4] 2); [| reflexivity | lia | reflexivity |]; [by vm_compute |].
  eapply (serve_next [3] 1); [| reflexivity | lia | reflexivity |]; [by vm_compute |].
  eapply (serve_next [] 0); [| reflexivity | lia | reflexivity |]; [by vm_compute |].
  apply (served_new demo_net demo_mem). exact (value_ok demo_serves demo_serves_ok).
Qed.

Definition a_minute_later : TimeSpec := {| tv_sec := 160; tv_nsec := 0 |}.
Lemma demo_pass : not_panic (notify_sockets (Ok a_minute_later) (served_at 3)).1 = true.
Proof. by vm_compute. Qed.

Lemma demo_waits : waiting_tags (served_at 3) = [4].
Proof. by vm_compute. Qed.


(** ** The router *)

Definition demo_routes : list route_op := [RO_insert {| r_filter := (host_lo, 8); via := None; dev := "loopback"; src := host_lo |}].
Definition demo_packet : list u8 := addr_bytes host_lo ++ addr_bytes host_a ++ [x41].
Definition demo_routed : Router Device := {|
  rx_buffer := pb_new 4 0; tx_buffer := with_packets (pb_new 4 0) [(tt, demo_packet)];
  devices := [Loopback LoopbackDevice_default; Ethernet (EthernetLink_new "eth0" [])]; routes := foldl apply_route_op [] demo_routes |}.

Lemma demo_looped : exists eth, devices (dispatch 0 demo_routed).2 =
  [Loopback {| lo_name := "loopback"; buffer := with_packets (pb_new 128 0) [(tt, addr_bytes host_lo ++ addr_bytes host_lo ++ [x41])] |}; Ethernet eth].
Proof. eexists. by vm_compute. Qed.

Lemma router_forwards_witness : exists r', dispatch 0 demo_routed = (Ok tt, r') /\ pb_packets (tx_buffer r') = [] /\
  forward_all (routes demo_routed) 0 [demo_packet] (devices demo_routed) (devices r') /\
  exists eth, devices r' = [Loopback {| lo_name := "loopback"; buffer := with_packets (pb_new 128 0) [(tt, addr_bytes host_lo ++ addr_bytes host_lo ++ [x41])] |}; Ethernet eth].
Proof.
  destruct (router_forwards (DL := dyn_laws cidr_from_str) demo_routes 0 demo_routed eq_refl) as (r' & E & H1 & _ & _ & H2).
  { repeat constructor. exists [], []. apply linked_carried, linked_new. }
  assert (dispatch 0 demo_routed = (Ok tt, r')) as E' by exact E.
  exists r'. split_and!; [exact E' | exact H1 | exact H2 |]. pose proof demo_looped as Hl. rewrite E' in Hl. exact Hl.
Defined.

(** ** The ethernet link *)

Definition mac_a : list u8 := replicate 6 x0a.
Definition mac_b : list u8 := replicate 6 x0b.
(** A reply of ARP from the second host *)
Definition demo_reply : list u8 := mac_a ++ mac_b ++ [x06] ++ arp_emit (EthernetIpv4 Reply mac_b host_b mac_a host_a).

Definition eth_up : EthernetLink := set_addresses (Some mac_a) (Some (host_a, 24)) (EthernetLink_new "eth0" []).
Definition eth_asks : EthernetLink := (eth_send host_b [x41] 0 eth_up).2.
Definition eth_hears : EthernetLink := set_input (input_buffer eth_asks) (inputs eth_asks ++ [Frame demo_reply]) eth_asks.
Definition eth_done : EthernetLink := (eth_recv 5 eth_hears).2.

Lemma eth_asks_linked : linked [] [(host_b, [x41])] eth_asks.
Proof. apply (linked_send [] [] eth_up). apply linked_addresses, linked_new. Qed.

Lemma demo_announced : announced (inputs eth_hears) (input_buffer eth_hears) mac_a (Some (host_a, 24)) = [(host_b, mac_b)].
Proof. by vm_compute. Qed.

Lemma eth_done_linked : linked [(host_b, mac_b)] [(host_b, [x41])] eth_done.
Proof.
  pose proof (linked_recv [] [(host_b, [x41])] eth_hears 5 (linked_frames _ _ eth_asks [Frame demo_reply] eth_asks_linked)) as H.
  change (match hardware_address eth_hears with Some h => announced (inputs eth_hears) (input_buffer eth_hears) h (eth_ip_address eth_hears) | None => [] end)
    with (announced (inputs eth_hears) (input_buffer eth_hears) mac_a (Some (host_a, 24))) in H. rewrite demo_announced in H. exact H.
Qed.

Lemma demo_frames_sent : ipv4_frames eth_asks = [] /\ waiting eth_asks = [(host_b, [x41])] /\ ipv4_frames eth_done = [(mac_b, [x41])].
Proof. by vm_compute. Qed.


Definition seconds : list Z := [1000000; 2000000; 3000000; 4000000].

Lemma demo_gives_up : inputs eth_asks = [] /\ due eth_asks = 1000000 /\ waiting eth_asks = [(host_b, [x41])].
Proof. by vm_compute. Qed.

Lemma arp_gives_up_witness : waiting eth_asks = [(host_b, [x41])] /\ waiting (idle_polls seconds eth_asks) = [] /\ arp_state (idle_polls seconds eth_asks) = Discovered.
Proof.
  destruct demo_gives_up as (H1 & H2 & H3). split; [exact H3 |]. eapply arp_gives_up; [exact eth_asks_linked | | exact H1 | |].
  - split; eexists; reflexivity.
  - rewrite H2. repeat split; vm_compute; discriminate.
  - rewrite H3. by vm_compute.
Defined.

(** ** Configuration *)

Definition boot_table : list Rule := route_table (d_net demo_boot).
Definition cfg_mem0 : memory := store 4096 (as_bytes "route/add") (store 5000 (as_bytes "10.1.0.0/16 via 127.0.0.1") ∅).
Definition cfg_start : NetCfg (D := Device) := NetCfg_new (NetCfgScheme_new [] boot_table [demo_devices.1; demo_devices.2]) cfg_mem0.

Definition loop_rule : Rule := {| r_filter := (0x7f000000, 8); via := None; dev := "loopback"; src := host_lo |}.
Lemma boot_table_eq : boot_table = foldl apply_route_op [] [RO_insert loop_rule].
Proof. vm_compute. reflexivity. Qed.
Lemma boot_table_sorted : route_sorted boot_table.
Proof. rewrite boot_table_eq. apply route_ops_sorted. constructor. Qed.

Lemma boot_lookup : lookup_rule (e_routes (env (cfg cfg_start))) host_lo = Some loop_rule.
Proof. vm_compute. reflexivity. Qed.

(** A user opens the node and closes it again: nothing has changed. *)
Definition user_sqe (op tag a b : Z) : Sqe :=
  {| opcode := op; sqe_tag := tag; sqe_caller := 1; arg0 := a; arg1 := b; arg2 := 0; arg3 := 0; arg4 := 0; arg5 := 1000 |}.
Definition user_opened : NetCfg (D := Device) := (NetCfg.handle_request (user_sqe 0 1 4096 9) cfg_start).2.

Lemma user_opens : not_panic (NetCfg.handle_request (user_sqe 0 1 4096 9) cfg_start).1 = true.
Proof. by vm_compute. Qed.
Lemma user_file : cf_uid <$> cfg_files (cfg user_opened) = {[1 := 1000]}.
Proof. by vm_compute. Qed.
Lemma user_closes : not_panic (NetCfg.handle_request (user_sqe 7 2 1 0) user_opened).1 = true.
Proof. by vm_compute. Qed.

Lemma netcfg_root_only_witness :
  cf_uid <$> cfg_files (cfg user_opened) = {[1 := 1000]} /\
  settings (env (cfg (NetCfg.handle_request (user_sqe 7 2 1 0) user_opened).2)) = settings (env (cfg user_opened)).
Proof.
  split; [exact user_file |]. apply netcfg_root_only.
  - apply cr_request; [apply cr_new, boot_table_sorted | apply not_panic_ne, user_opens].
  - apply not_panic_ne, user_closes.
  - intros (fd & f & Hf & Hu & _). pose proof (f_equal (lookup fd) user_file) as H. rewrite lookup_fmap, Hf in H. cbn in H. rewrite Hu in H.
    destruct (decide (fd = 1)) as [-> |]; [by rewrite lookup_singleton_eq in H | by rewrite lookup_singleton_ne in H].
Defined.

(** Root adds a route. *)
Definition root_ctx : CallerCtx := {| ctx_pid := 1; ctx_uid := 0; ctx_gid := 0; ctx_id := 0 |}.

Lemma plain_word_check (l : list u8) : l <> [] -> forallb (fun b => (0x21 <=? Z_of_byte b) && (Z_of_byte b <? 0x80)) l = true -> plain_word l.
Proof.
  intros Hl H. split; [done |]. apply Forall_forall. intros b Hb. rewrite forallb_forall in H. specialize (H b ltac:(by apply list_elem_of_In)). unfold graphic. lia.
Qed.

Lemma netcfg_route_added_witness :
  exists s', add_route root_ctx (sentence (as_bytes "10.1.0.0/16") via_word (as_bytes "127.0.0.1")) (cfg cfg_start) = (Ok tt, s') /\
    lookup_rule (e_routes (env s')) 0x0a010203 = Some {| r_filter := (0x0a010000, 16); via := Some host_lo; dev := "loopback"; src := host_lo |}.
Proof.
  destruct (netcfg_route_added cfg_start root_ctx "10.1.0.0/16" "127.0.0.1" (0x0a010000, 16) host_lo loop_rule)
    as (s' & E & H); [apply cr_new, boot_table_sorted | by vm_compute | done | by apply plain_word_check | by apply plain_word_check | done | by vm_compute | by vm_compute | by vm_compute | by vm_compute | exact boot_lookup |].
  exists s'. split; [exact E |]. destruct (H 0x0a010203) as [H1 _]. apply H1; [by vm_compute |]. intros r Hr. change (r ∈ boot_table) in Hr.
    rewrite boot_table_eq in Hr. change (foldl apply_route_op [] [RO_insert loop_rule]) with [loop_rule] in Hr. apply list_elem_of_singleton in Hr as ->. by vm_compute.
Defined.

(** A line that comes in two writes, with the beginning of another *)
Definition root_opened : NetCfgScheme (D := Device) := (NetCfg.open "route/add" root_ctx (cfg cfg_start)).2.
Definition first_part : list u8 := as_bytes "10.1.0.0/16 v".
Definition second_part : list u8 := as_bytes "ia 127.0.0.1" ++ newline :: as_bytes "rest".

Lemma whole_line : (NetCfg.write 1 (first_part ++ second_part) root_opened).1 = Ok 30.
Proof. by vm_compute. Qed.
Lemma root_buffers : NetCfg.write_buf <$> cfg_files root_opened = {[1 := []]}.
Proof. by vm_compute. Qed.


(** *** Where it does not do what it means to *)

Definition use_node (path : string) (line : list u8) : M (NetCfgScheme (D := Device)) unit :=
  r ← NetCfg.open path root_ctx; match r with ThisScheme fd _ => NetCfg.write fd line;; NetCfg.fsync fd | _ => throw EINVAL end.

(** The interface has room for two addresses, and the placeholder and the loopback take them: an address that is set reaches the
    device and the routes, and not the interface. *)
Lemma address_not_added :
  let d := (on_netcfg (NetCfg.on_netcfg (use_node "ifaces/eth0/addr/set" (as_bytes "10.0.0.2/24"))) demo_boot) in
  d.1 = Ok tt /\ iface (d_net d.2) = [(0, 8); (host_lo, 8)] /\ iface (d_net d.2) = iface (d_net demo_boot) /\
  (ip_address <$> devices (router_device d.2) !! 1%nat) = Some (Some (host_b, 24)) /\ lookup_src_addr (route_table (d_net d.2)) host_a = Some host_b.
Proof. by vm_compute. Qed.

(** A listener is told of changes only if it spelled the path as the source does. *)
Definition listen_to (path : string) : M (NetCfgScheme (D := Device)) unit :=
  r ← NetCfg.open path root_ctx; match r with ThisScheme fd _ => NetCfg.fevent fd EVENT_READ;; mret tt | _ => throw EINVAL end.
Definition told (path : string) : outcome (list Z) :=
  ((listen_to path;; use_node "route/add" (as_bytes "10.1.0.0/16 via 127.0.0.1");; gets (fun s => (get_notified_fds (notifier (env s))).1)) (cfg cfg_start)).1.
Lemma slash_is_not_told : told "route/list" = Ok [1] /\ told "/route/list" = Ok [].
Proof. by vm_compute. Qed.

(** ** A network driver *)

(** A reader waits, with a second one; then a packet comes. *)
Definition nd_mem0 : memory := store 5000 (replicate 8 x00) (store 6000 (replicate 8 x00) ∅).
Definition nd_start : NetworkScheme (T := Wire) := NetworkScheme_new {| w_in := []; w_out := [] |} "network.eth0" nd_mem0.
Definition nd_requests : list Sqe := [demo_sqe 0 1 5000 0 0; demo_sqe 3 2 1 5000 8; demo_sqe 3 3 1 6000 8].
Definition nd_waits : NetworkScheme (T := Wire) := (tick nd_requests (Ok tt) nd_start).2.
Definition nd_packet : NetworkScheme (T := Wire) := set_inner (set_adapter {| w_in := [[x41; x42]]; w_out := [] |} (inner nd_waits), NetDriver.nd_mem nd_waits) nd_waits.

Lemma nd_waiting : (fun b => into_tag b.1) <$> blocked nd_packet = [2; 3].
Proof. by vm_compute. Qed.
Lemma nd_ticks : not_panic (tick [] (Ok tt) nd_packet).1 = true.
Proof. by vm_compute. Qed.
(** The first reader gets the packet. *)
Lemma nd_delivered : let w := (tick [] (Ok tt) nd_packet).2 in
  load 5000 2 (NetDriver.nd_mem w) = Some [x41; x42] /\ (fun b => into_tag b.1) <$> blocked w = [3] /\ replied (NetDriver.nd_sent w) = [1; 2].
Proof. by vm_compute. Qed.
Lemma nd_in_hand : NetDriverFacts.in_hand nd_packet = [2; 3; 1].
Proof. by vm_compute. Qed.

