(* ===== verification/ProcTypes.v ===== *)
(** * bootstrap: the process manager, data

    Models [bootstrap/src/procmgr.rs], the scheme [proc] that owns the process
    table: processes, threads, process groups, sessions, credentials, signals,
    exit and waitpid.  This file has the data and the interfaces to the kernel and
    to the crates the source uses; [Procmgr.v] has process creation and the calls
    that look at or change one process, [ProcSignal.v] signals, [ProcExit.v] exit and waitpid, [ProcServer.v]
    the request dispatcher and the main loop.

    Shared ownership.  A [Rc<RefCell<Process>>] is owned by the table
    [processes] only, so a [Weak] to it is its pid and upgrading looks the pid
    up.  A [Rc<RefCell<Thread>>] is owned by its process; threads live in the
    store [thread_heap] until their process drops them, and a [Weak] is the key
    in the store.  No method borrows a cell that is already borrowed, so
    borrows do not appear.

    The kernel.  Descriptors are numbers; every call on one is put on [klog],
    and the answer may depend on all calls before it.  The signal control pages
    shared with the processes are stores keyed by address, whose contents the
    processes may change between requests.  Closing descriptors and unmapping
    pages on drop is left out. *)

From stdpp Require Import base gmap strings list fin_maps.
From Stdlib Require Import ZArith Lia.
From Stdlib Require Import Strings.Byte.
From S2P Require Import Prelude Memory Syscall SchemeApi.

Local Open Scope Z_scope.

(** ** [BTreeMap] under an arbitrary comparison *)

(** The search of one node: keys are compared from the left until one is not
    smaller than the key sought.  [inl] is a match, [inr] the edge. *)
Fixpoint node_search {K} (f : K -> comparison) (l : list K) : nat + nat :=
  match l with
  | [] => inr O
  | k :: l =>
      match f k with
      | Gt => match node_search f l with inl i => inl (S i) | inr i => inr (S i) end
      | Eq => inl O
      | Lt => inr O
      end
  end.

(** [f] compares the key sought with the keys of [l] the way a sorted map
    makes it: greater, then at most once equal, then less. *)
Definition monotone {K} (f : K -> comparison) (l : list K) : Prop :=
  forall i j x y, (i < j)%nat -> l !! i = Some x -> l !! j = Some y -> f x = Gt \/ f y = Lt.

(** The search through the whole tree, on the keys in order.  What it finds
    when the comparison does not fit the order of the keys depends on the
    shape of the tree, which is a parameter; a tree of at most ten entries is
    one node. *)
Class BTree := {
  bt_search : forall {K}, (K -> comparison) -> list K -> nat + nat;
  bt_search_found : forall K (f : K -> comparison) l i,
    bt_search f l = inl i -> exists k, l !! i = Some k /\ f k = Eq;
  bt_search_mono : forall K (f : K -> comparison) l,
    monotone f l -> bt_search f l = node_search f l;
  bt_search_leaf : forall K (f : K -> comparison) l,
    (length l <= 10)%nat -> bt_search f l = node_search f l
}.

Section btree.
Context {BT : BTree} {K V : Type} (cmp : K -> K -> comparison).

Definition bt_get_key_value (key : K) (m : list (K * V)) : option (K * V) :=
  match bt_search (cmp key) m.*1 with inl i => m !! i | inr _ => None end.

Definition bt_remove (key : K) (m : list (K * V)) : list (K * V) :=
  match bt_search (cmp key) m.*1 with
  | inl i => take i m ++ drop (S i) m
  | inr _ => m
  end.

(** An equal key that is present stays; its value is replaced. *)
Definition bt_insert (key : K) (v : V) (m : list (K * V)) : list (K * V) :=
  match bt_search (cmp key) m.*1 with
  | inl i => alter (fun e => (e.1, v)) i m
  | inr i => vec_insert i (key, v) m
  end.

(** [MergeIter]: of two equal entries the one of the right source is kept. *)
Fixpoint bt_merge (a : list (K * V)) : list (K * V) -> list (K * V) :=
  fix merge_b (b : list (K * V)) : list (K * V) :=
    match a, b with
    | [], _ => b
    | _, [] => a
    | x :: a', y :: b' =>
        match cmp x.1 y.1 with
        | Lt => x :: bt_merge a' b
        | Gt => y :: merge_b b'
        | Eq => y :: bt_merge a' b'
        end
    end.

(** [self.append(&mut other)]: the new [self]; [other] is left empty, except
    that an empty [self] is swapped with it. *)
Definition bt_append (self other : list (K * V)) : list (K * V) :=
  match other, self with
  | [], _ => self
  | _, [] => other
  | _, _ => bt_merge self other
  end.
End btree.

(** ** Crates outside the repository *)

(** [slab::Slab] *)
Class Slab := {
  slab : Type -> Type;
  slab_new : forall {T}, slab T;
  slab_get : forall {T}, Z -> slab T -> option T;
  slab_insert : forall {T}, T -> slab T -> Z * slab T;
  slab_set : forall {T}, Z -> T -> slab T -> slab T;
  slab_remove : forall {T}, Z -> slab T -> slab T;
  slab_get_new : forall T i, slab_get i (@slab_new T) = None;
  slab_get_insert : forall T (x : T) s i s' j,
    slab_insert x s = (i, s') ->
    slab_get i s = None /\ slab_get j s' = if decide (i = j) then Some x else slab_get j s;
  slab_get_set : forall T (x : T) s i j y,
    slab_get i s = Some y -> slab_get j (slab_set i x s) = if decide (i = j) then Some x else slab_get j s;
  slab_get_remove : forall T (s : slab T) i j,
    slab_get j (slab_remove i s) = if decide (i = j) then None else slab_get j s
}.

(** Iteration over the keys of a [hashbrown::HashMap]: each once, in an
    order of its own. *)
Class HashOrder := {
  hash_order : gset Z -> list Z;
  hash_order_perm : forall X, hash_order X ≡ₚ elements X
}.

(** [redox_rt::protocol::ProcMeta] *)
Record ProcMeta := {
  pm_pid : Z; pm_pgid : Z; pm_ppid : Z; pm_ruid : Z; pm_euid : Z; pm_suid : Z;
  pm_rgid : Z; pm_egid : Z; pm_sgid : Z; pm_ens : Z; pm_rns : Z
}.

(** The calls of [redox_rt::protocol] *)
Inductive ThreadCall := TC_SyncSigTctl | TC_SignalThread.
Inductive ProcCall :=
| PC_Setrens | PC_Exit | PC_Waitpid | PC_Waitpgid | PC_Setpgid | PC_Getsid | PC_Getppid
| PC_Setsid | PC_SetResugid | PC_Kill | PC_Sigq | PC_SyncSigPctl | PC_Sigdeq | PC_Rename
| PC_DisableSetpgid | PC_GetProcCredentials.
Inductive ProcKillTarget :=
| KT_ThisGroup | KT_SingleProc (pid : Z) | KT_ProcGroup (grp : Z) | KT_All.

(** [redox_rt::protocol] and the parts of [redox_syscall] that concern
    processes. *)
Class ProcAbi := {
  thread_call : Z -> option ThreadCall;
  proc_call : Z -> option ProcCall;
  kill_target : Z -> ProcKillTarget;
  wait_flags_from_bits : Z -> option Z;
  WNOHANG : Z; WUNTRACED : Z; WCONTINUED : Z;
  SIGHUP : Z; SIGKILL : Z; SIGCHLD : Z; SIGCONT : Z; SIGSTOP : Z; SIGTSTP : Z;
  SIGTTIN : Z; SIGTTOU : Z;
  sig_bit : Z -> Z;
  (** discriminants of [ContextVerb] and [ContextStatus] *)
  CV_Stop : Z; CV_Unstop : Z; CV_Interrupt : Z; CV_ForceKill : Z;
  CS_Dead : Z; CS_ForceKilled : Z; CS_UnhandledExcp : Z;
  (** the part of [SigProcControl] that only the process writes *)
  Actions : Type;
  signal_will_ign : Actions -> Z -> bool -> bool;
  signal_will_stop : Actions -> Z -> bool;
  (** [SenderInfo { pid, ruid }.raw()] *)
  sender_raw : Z -> Z -> Z;
  size_of_RtSigInfo : nat;
  size_of_ProcMeta : nat;
  align_of_ProcMeta : Z;
  proc_meta_bytes : ProcMeta -> list u8;
  (** the bytes of a [Stat] after [st_size] and [st_mode] are assigned *)
  stat_assign : Z -> Z -> list u8 -> list u8
}.

(** [SigProcControl] and [Sigcontrol]: the fields the manager uses. *)
Record SigProcControl `{ProcAbi} := {
  pending : Z; p_sender_infos : gmap Z Z; actions : Actions
}.
Record Sigcontrol := { word0 : Z; word1 : Z; t_sender_infos : gmap Z Z }.

(** Calls of the manager to the kernel. *)
Inductive kcall :=
| KObtainFd (request : Z)
| KSubscribe (fd : Z) (read : bool)
| KDup (fd : Z) (name : list u8)
| KWriteStatus (fd verb : Z)
| KReadStatus (fd : Z)
| KWriteAttrs (fd pid euid egid ens : Z) (name : string)
| KReadSighandler (fd : Z)
| KFmap (fd offset : Z).

(** [ask] answers a call after the calls in the list; [page_init] is what
    the pages of the processes hold at first. *)
Class Kernel `{ProcAbi} := {
  ask : list kcall -> kcall -> Z * Z + errno;
  auth_fd : Z;
  pctl_init : Z -> SigProcControl;
  tctl_init : Z -> Sigcontrol
}.

(** ** Data *)

Inductive VirtualId :=
| KernelId (id : Z)
| InternalId (id : Z).

#[export] Instance VirtualId_eq_dec : EqDecision VirtualId.
Proof. solve_decision. Defined.
#[export] Instance VirtualId_countable : Countable VirtualId.
Proof.
  apply (inj_countable'
    (fun v => match v with KernelId i => inl i | InternalId i => inr i end)
    (fun s => match s with inl i => KernelId i | inr i => InternalId i end)).
  by intros [].
Defined.

Definition INIT_PID : Z := 1.
Definition NAME_CAPAC : nat := 32.

(** [NonZeroU8] is a [Z] here; [NonZeroU8::new] checks it. *)
Inductive ProcessStatus :=
| PossiblyRunnable
| Stopped (sig : Z)
| Exiting (signal : option Z) (status : Z)
| Exited (signal : option Z) (status : Z).

Inductive WaitpidStatus :=
| Continued
| WStopped (signal : Z)
| Terminated (signal : option Z) (status : Z).

Record WaitpidKey := { k_pid : option Z; k_pgid : option Z }.

(** [impl Ord for WaitpidKey] *)
Definition key_cmp (self other : WaitpidKey) : comparison :=
  match k_pid self, k_pid other with
  | Some s_pid, Some o_pid => Z.compare s_pid o_pid
  | _, _ =>
      match k_pgid self, k_pgid other with
      | Some s_pgid, Some o_pgid => Z.compare s_pgid o_pgid
      | _, _ =>
          if bool_decide (is_Some (k_pid self)) then Gt
          else if bool_decide (is_Some (k_pid other)) then Lt
          else if bool_decide (is_Some (k_pgid self)) then Gt
          else if bool_decide (is_Some (k_pgid other)) then Lt
          else Eq
      end
  end.

Abbreviation waitpid_map := (list (WaitpidKey * (Z * WaitpidStatus))).

Record Process := {
  threads : list Z;
  p_pid : Z; ppid : Z; pgid : Z; sid : Z;
  name : string;
  ruid : Z; euid : Z; suid : Z; rgid : Z; egid : Z; sgid : Z; rns : Z; ens : Z;
  p_status : ProcessStatus;
  disabled_setpgid : bool;
  awaiting_threads_term : list VirtualId;
  waitpid : waitpid_map;
  waitpid_waiting : list VirtualId;
  (** the address of the mapped page *)
  sig_pctl : option Z;
  rtqs : list (list (list u8))
}.

Record Thread := { t_fd : Z; status_hndl : Z; t_pid : Z; sig_ctrl : option Z }.

Inductive Handle :=
| HInit
| HProc (pid : Z)
| HThread (thread : Z)
| HPs (data : list u8)
| HProcCredsCapability.

Inductive WaitpidTarget :=
| SingleProc (pid : Z)
| ProcGroup (pgid : Z)
| AnyChild
| AnyGroupMember.

(** [OpCall] of redox-scheme *)
Record OpCall := { oc_req : Z; oc_fd : Z; oc_payload : slice; oc_metadata : list Z }.

Inductive PendingState :=
| AwaitingStatusChange (waiter : Z) (target : WaitpidTarget) (flags : Z) (op : OpCall)
| AwaitingThreadsTermination (pid : Z) (tag : option Z)
| Placeholder.

(** [ProcScheme], the [states] and [awoken] of [run], and what the manager
    shares with others. *)
Record World `{ProcAbi} `{Slab} := {
  processes : gmap Z Process;
  groups : gmap Z (list Z);
  sessions : gset Z;
  handles : slab Handle;
  thread_lookup : gmap Z Z;
  next_internal_id : Z;
  init_claimed : bool;
  next_id : Z;
  states : gmap VirtualId PendingState;
  awoken : list VirtualId;
  thread_heap : gmap Z Thread;
  next_thread : Z;
  klog : list kcall;
  pctls : gmap Z SigProcControl;
  tctls : gmap Z Sigcontrol;
  mem : memory
}.

Definition set_threads (x : list Z) (p : Process) : Process :=
  {| threads := x; p_pid := p_pid p; ppid := ppid p; pgid := pgid p; sid := sid p; name :=
     name p; ruid := ruid p; euid := euid p; suid := suid p; rgid := rgid p; egid := egid p;
     sgid := sgid p; rns := rns p; ens := ens p; p_status := p_status p; disabled_setpgid :=
     disabled_setpgid p; awaiting_threads_term := awaiting_threads_term p; waitpid := waitpid
     p; waitpid_waiting := waitpid_waiting p; sig_pctl := sig_pctl p; rtqs := rtqs p |}.
Definition set_ppid (x : Z) (p : Process) : Process :=
  {| threads := threads p; p_pid := p_pid p; ppid := x; pgid := pgid p; sid := sid p; name :=
     name p; ruid := ruid p; euid := euid p; suid := suid p; rgid := rgid p; egid := egid p;
     sgid := sgid p; rns := rns p; ens := ens p; p_status := p_status p; disabled_setpgid :=
     disabled_setpgid p; awaiting_threads_term := awaiting_threads_term p; waitpid := waitpid
     p; waitpid_waiting := waitpid_waiting p; sig_pctl := sig_pctl p; rtqs := rtqs p |}.
Definition set_pgid (x : Z) (p : Process) : Process :=
  {| threads := threads p; p_pid := p_pid p; ppid := ppid p; pgid := x; sid := sid p; name :=
     name p; ruid := ruid p; euid := euid p; suid := suid p; rgid := rgid p; egid := egid p;
     sgid := sgid p; rns := rns p; ens := ens p; p_status := p_status p; disabled_setpgid :=
     disabled_setpgid p; awaiting_threads_term := awaiting_threads_term p; waitpid := waitpid
     p; waitpid_waiting := waitpid_waiting p; sig_pctl := sig_pctl p; rtqs := rtqs p |}.
Definition set_sid (x : Z) (p : Process) : Process :=
  {| threads := threads p; p_pid := p_pid p; ppid := ppid p; pgid := pgid p; sid := x; name :=
     name p; ruid := ruid p; euid := euid p; suid := suid p; rgid := rgid p; egid := egid p;
     sgid := sgid p; rns := rns p; ens := ens p; p_status := p_status p; disabled_setpgid :=
     disabled_setpgid p; awaiting_threads_term := awaiting_threads_term p; waitpid := waitpid
     p; waitpid_waiting := waitpid_waiting p; sig_pctl := sig_pctl p; rtqs := rtqs p |}.
Definition set_name (x : string) (p : Process) : Process :=
  {| threads := threads p; p_pid := p_pid p; ppid := ppid p; pgid := pgid p; sid := sid p;
     name := x; ruid := ruid p; euid := euid p; suid := suid p; rgid := rgid p; egid := egid
     p; sgid := sgid p; rns := rns p; ens := ens p; p_status := p_status p; disabled_setpgid
     := disabled_setpgid p; awaiting_threads_term := awaiting_threads_term p; waitpid :=
     waitpid p; waitpid_waiting := waitpid_waiting p; sig_pctl := sig_pctl p; rtqs := rtqs p |}.
Definition set_ruid (x : Z) (p : Process) : Process :=
  {| threads := threads p; p_pid := p_pid p; ppid := ppid p; pgid := pgid p; sid := sid p;
     name := name p; ruid := x; euid := euid p; suid := suid p; rgid := rgid p; egid := egid
     p; sgid := sgid p; rns := rns p; ens := ens p; p_status := p_status p; disabled_setpgid
     := disabled_setpgid p; awaiting_threads_term := awaiting_threads_term p; waitpid :=
     waitpid p; waitpid_waiting := waitpid_waiting p; sig_pctl := sig_pctl p; rtqs := rtqs p |}.
Definition set_euid (x : Z) (p : Process) : Process :=
  {| threads := threads p; p_pid := p_pid p; ppid := ppid p; pgid := pgid p; sid := sid p;
     name := name p; ruid := ruid p; euid := x; suid := suid p; rgid := rgid p; egid := egid
     p; sgid := sgid p; rns := rns p; ens := ens p; p_status := p_status p; disabled_setpgid
     := disabled_setpgid p; awaiting_threads_term := awaiting_threads_term p; waitpid :=
     waitpid p; waitpid_waiting := waitpid_waiting p; sig_pctl := sig_pctl p; rtqs := rtqs p |}.
Definition set_suid (x : Z) (p : Process) : Process :=
  {| threads := threads p; p_pid := p_pid p; ppid := ppid p; pgid := pgid p; sid := sid p;
     name := name p; ruid := ruid p; euid := euid p; suid := x; rgid := rgid p; egid := egid
     p; sgid := sgid p; rns := rns p; ens := ens p; p_status := p_status p; disabled_setpgid
     := disabled_setpgid p; awaiting_threads_term := awaiting_threads_term p; waitpid :=
     waitpid p; waitpid_waiting := waitpid_waiting p; sig_pctl := sig_pctl p; rtqs := rtqs p |}.
Definition set_rgid (x : Z) (p : Process) : Process :=
  {| threads := threads p; p_pid := p_pid p; ppid := ppid p; pgid := pgid p; sid := sid p;
     name := name p; ruid := ruid p; euid := euid p; suid := suid p; rgid := x; egid := egid
     p; sgid := sgid p; rns := rns p; ens := ens p; p_status := p_status p; disabled_setpgid
     := disabled_setpgid p; awaiting_threads_term := awaiting_threads_term p; waitpid :=
     waitpid p; waitpid_waiting := waitpid_waiting p; sig_pctl := sig_pctl p; rtqs := rtqs p |}.
Definition set_egid (x : Z) (p : Process) : Process :=
  {| threads := threads p; p_pid := p_pid p; ppid := ppid p; pgid := pgid p; sid := sid p;
     name := name p; ruid := ruid p; euid := euid p; suid := suid p; rgid := rgid p; egid :=
     x; sgid := sgid p; rns := rns p; ens := ens p; p_status := p_status p; disabled_setpgid
     := disabled_setpgid p; awaiting_threads_term := awaiting_threads_term p; waitpid :=
     waitpid p; waitpid_waiting := waitpid_waiting p; sig_pctl := sig_pctl p; rtqs := rtqs p |}.
Definition set_sgid (x : Z) (p : Process) : Process :=
  {| threads := threads p; p_pid := p_pid p; ppid := ppid p; pgid := pgid p; sid := sid p;
     name := name p; ruid := ruid p; euid := euid p; suid := suid p; rgid := rgid p; egid :=
     egid p; sgid := x; rns := rns p; ens := ens p; p_status := p_status p; disabled_setpgid
     := disabled_setpgid p; awaiting_threads_term := awaiting_threads_term p; waitpid :=
     waitpid p; waitpid_waiting := waitpid_waiting p; sig_pctl := sig_pctl p; rtqs := rtqs p |}.
Definition set_rns (x : Z) (p : Process) : Process :=
  {| threads := threads p; p_pid := p_pid p; ppid := ppid p; pgid := pgid p; sid := sid p;
     name := name p; ruid := ruid p; euid := euid p; suid := suid p; rgid := rgid p; egid :=
     egid p; sgid := sgid p; rns := x; ens := ens p; p_status := p_status p; disabled_setpgid
     := disabled_setpgid p; awaiting_threads_term := awaiting_threads_term p; waitpid :=
     waitpid p; waitpid_waiting := waitpid_waiting p; sig_pctl := sig_pctl p; rtqs := rtqs p |}.
Definition set_ens (x : Z) (p : Process) : Process :=
  {| threads := threads p; p_pid := p_pid p; ppid := ppid p; pgid := pgid p; sid := sid p;
     name := name p; ruid := ruid p; euid := euid p; suid := suid p; rgid := rgid p; egid :=
     egid p; sgid := sgid p; rns := rns p; ens := x; p_status := p_status p; disabled_setpgid
     := disabled_setpgid p; awaiting_threads_term := awaiting_threads_term p; waitpid :=
     waitpid p; waitpid_waiting := waitpid_waiting p; sig_pctl := sig_pctl p; rtqs := rtqs p |}.
Definition set_p_status (x : ProcessStatus) (p : Process) : Process :=
  {| threads := threads p; p_pid := p_pid p; ppid := ppid p; pgid := pgid p; sid := sid p;
     name := name p; ruid := ruid p; euid := euid p; suid := suid p; rgid := rgid p; egid :=
     egid p; sgid := sgid p; rns := rns p; ens := ens p; p_status := x; disabled_setpgid :=
     disabled_setpgid p; awaiting_threads_term := awaiting_threads_term p; waitpid := waitpid
     p; waitpid_waiting := waitpid_waiting p; sig_pctl := sig_pctl p; rtqs := rtqs p |}.
Definition set_disabled_setpgid (x : bool) (p : Process) : Process :=
  {| threads := threads p; p_pid := p_pid p; ppid := ppid p; pgid := pgid p; sid := sid p;
     name := name p; ruid := ruid p; euid := euid p; suid := suid p; rgid := rgid p; egid :=
     egid p; sgid := sgid p; rns := rns p; ens := ens p; p_status := p_status p;
     disabled_setpgid := x; awaiting_threads_term := awaiting_threads_term p; waitpid :=
     waitpid p; waitpid_waiting := waitpid_waiting p; sig_pctl := sig_pctl p; rtqs := rtqs p |}.
Definition set_awaiting_threads_term (x : list VirtualId) (p : Process) : Process :=
  {| threads := threads p; p_pid := p_pid p; ppid := ppid p; pgid := pgid p; sid := sid p;
     name := name p; ruid := ruid p; euid := euid p; suid := suid p; rgid := rgid p; egid :=
     egid p; sgid := sgid p; rns := rns p; ens := ens p; p_status := p_status p;
     disabled_setpgid := disabled_setpgid p; awaiting_threads_term := x; waitpid := waitpid p;
     waitpid_waiting := waitpid_waiting p; sig_pctl := sig_pctl p; rtqs := rtqs p |}.
Definition set_waitpid (x : waitpid_map) (p : Process) : Process :=
  {| threads := threads p; p_pid := p_pid p; ppid := ppid p; pgid := pgid p; sid := sid p;
     name := name p; ruid := ruid p; euid := euid p; suid := suid p; rgid := rgid p; egid :=
     egid p; sgid := sgid p; rns := rns p; ens := ens p; p_status := p_status p;
     disabled_setpgid := disabled_setpgid p; awaiting_threads_term := awaiting_threads_term p;
     waitpid := x; waitpid_waiting := waitpid_waiting p; sig_pctl := sig_pctl p; rtqs := rtqs
     p |}.
Definition set_waitpid_waiting (x : list VirtualId) (p : Process) : Process :=
  {| threads := threads p; p_pid := p_pid p; ppid := ppid p; pgid := pgid p; sid := sid p;
     name := name p; ruid := ruid p; euid := euid p; suid := suid p; rgid := rgid p; egid :=
     egid p; sgid := sgid p; rns := rns p; ens := ens p; p_status := p_status p;
     disabled_setpgid := disabled_setpgid p; awaiting_threads_term := awaiting_threads_term p;
     waitpid := waitpid p; waitpid_waiting := x; sig_pctl := sig_pctl p; rtqs := rtqs p |}.
Definition set_sig_pctl (x : option Z) (p : Process) : Process :=
  {| threads := threads p; p_pid := p_pid p; ppid := ppid p; pgid := pgid p; sid := sid p;
     name := name p; ruid := ruid p; euid := euid p; suid := suid p; rgid := rgid p; egid :=
     egid p; sgid := sgid p; rns := rns p; ens := ens p; p_status := p_status p;
     disabled_setpgid := disabled_setpgid p; awaiting_threads_term := awaiting_threads_term p;
     waitpid := waitpid p; waitpid_waiting := waitpid_waiting p; sig_pctl := x; rtqs := rtqs p |}.
Definition set_rtqs (x : list (list (list u8))) (p : Process) : Process :=
  {| threads := threads p; p_pid := p_pid p; ppid := ppid p; pgid := pgid p; sid := sid p;
     name := name p; ruid := ruid p; euid := euid p; suid := suid p; rgid := rgid p; egid :=
     egid p; sgid := sgid p; rns := rns p; ens := ens p; p_status := p_status p;
     disabled_setpgid := disabled_setpgid p; awaiting_threads_term := awaiting_threads_term p;
     waitpid := waitpid p; waitpid_waiting := waitpid_waiting p; sig_pctl := sig_pctl p; rtqs
     := x |}.

Section world.
Context {PA : ProcAbi} {SL : Slab}.

Definition set_processes (x : gmap Z Process) (w : World) : World :=
  {| processes := x; groups := groups w; sessions := sessions w; handles := handles w;
     thread_lookup := thread_lookup w; next_internal_id := next_internal_id w; init_claimed :=
     init_claimed w; next_id := next_id w; states := states w; awoken := awoken w; thread_heap
     := thread_heap w; next_thread := next_thread w; klog := klog w; pctls := pctls w; tctls
     := tctls w; mem := mem w |}.
Definition set_groups (x : gmap Z (list Z)) (w : World) : World :=
  {| processes := processes w; groups := x; sessions := sessions w; handles := handles w;
     thread_lookup := thread_lookup w; next_internal_id := next_internal_id w; init_claimed :=
     init_claimed w; next_id := next_id w; states := states w; awoken := awoken w; thread_heap
     := thread_heap w; next_thread := next_thread w; klog := klog w; pctls := pctls w; tctls
     := tctls w; mem := mem w |}.
Definition set_sessions (x : gset Z) (w : World) : World :=
  {| processes := processes w; groups := groups w; sessions := x; handles := handles w;
     thread_lookup := thread_lookup w; next_internal_id := next_internal_id w; init_claimed :=
     init_claimed w; next_id := next_id w; states := states w; awoken := awoken w; thread_heap
     := thread_heap w; next_thread := next_thread w; klog := klog w; pctls := pctls w; tctls
     := tctls w; mem := mem w |}.
Definition set_handles (x : slab Handle) (w : World) : World :=
  {| processes := processes w; groups := groups w; sessions := sessions w; handles := x;
     thread_lookup := thread_lookup w; next_internal_id := next_internal_id w; init_claimed :=
     init_claimed w; next_id := next_id w; states := states w; awoken := awoken w; thread_heap
     := thread_heap w; next_thread := next_thread w; klog := klog w; pctls := pctls w; tctls
     := tctls w; mem := mem w |}.
Definition set_thread_lookup (x : gmap Z Z) (w : World) : World :=
  {| processes := processes w; groups := groups w; sessions := sessions w; handles := handles
     w; thread_lookup := x; next_internal_id := next_internal_id w; init_claimed :=
     init_claimed w; next_id := next_id w; states := states w; awoken := awoken w; thread_heap
     := thread_heap w; next_thread := next_thread w; klog := klog w; pctls := pctls w; tctls
     := tctls w; mem := mem w |}.
Definition set_next_internal_id (x : Z) (w : World) : World :=
  {| processes := processes w; groups := groups w; sessions := sessions w; handles := handles
     w; thread_lookup := thread_lookup w; next_internal_id := x; init_claimed := init_claimed
     w; next_id := next_id w; states := states w; awoken := awoken w; thread_heap :=
     thread_heap w; next_thread := next_thread w; klog := klog w; pctls := pctls w; tctls :=
     tctls w; mem := mem w |}.
Definition set_init_claimed (x : bool) (w : World) : World :=
  {| processes := processes w; groups := groups w; sessions := sessions w; handles := handles
     w; thread_lookup := thread_lookup w; next_internal_id := next_internal_id w; init_claimed
     := x; next_id := next_id w; states := states w; awoken := awoken w; thread_heap :=
     thread_heap w; next_thread := next_thread w; klog := klog w; pctls := pctls w; tctls :=
     tctls w; mem := mem w |}.
Definition set_next_id (x : Z) (w : World) : World :=
  {| processes := processes w; groups := groups w; sessions := sessions w; handles := handles
     w; thread_lookup := thread_lookup w; next_internal_id := next_internal_id w; init_claimed
     := init_claimed w; next_id := x; states := states w; awoken := awoken w; thread_heap :=
     thread_heap w; next_thread := next_thread w; klog := klog w; pctls := pctls w; tctls :=
     tctls w; mem := mem w |}.
Definition set_states (x : gmap VirtualId PendingState) (w : World) : World :=
  {| processes := processes w; groups := groups w; sessions := sessions w; handles := handles
     w; thread_lookup := thread_lookup w; next_internal_id := next_internal_id w; init_claimed
     := init_claimed w; next_id := next_id w; states := x; awoken := awoken w; thread_heap :=
     thread_heap w; next_thread := next_thread w; klog := klog w; pctls := pctls w; tctls :=
     tctls w; mem := mem w |}.
Definition set_awoken (x : list VirtualId) (w : World) : World :=
  {| processes := processes w; groups := groups w; sessions := sessions w; handles := handles
     w; thread_lookup := thread_lookup w; next_internal_id := next_internal_id w; init_claimed
     := init_claimed w; next_id := next_id w; states := states w; awoken := x; thread_heap :=
     thread_heap w; next_thread := next_thread w; klog := klog w; pctls := pctls w; tctls :=
     tctls w; mem := mem w |}.
Definition set_thread_heap (x : gmap Z Thread) (w : World) : World :=
  {| processes := processes w; groups := groups w; sessions := sessions w; handles := handles
     w; thread_lookup := thread_lookup w; next_internal_id := next_internal_id w; init_claimed
     := init_claimed w; next_id := next_id w; states := states w; awoken := awoken w;
     thread_heap := x; next_thread := next_thread w; klog := klog w; pctls := pctls w; tctls
     := tctls w; mem := mem w |}.
Definition set_next_thread (x : Z) (w : World) : World :=
  {| processes := processes w; groups := groups w; sessions := sessions w; handles := handles
     w; thread_lookup := thread_lookup w; next_internal_id := next_internal_id w; init_claimed
     := init_claimed w; next_id := next_id w; states := states w; awoken := awoken w;
     thread_heap := thread_heap w; next_thread := x; klog := klog w; pctls := pctls w; tctls
     := tctls w; mem := mem w |}.
Definition set_klog (x : list kcall) (w : World) : World :=
  {| processes := processes w; groups := groups w; sessions := sessions w; handles := handles
     w; thread_lookup := thread_lookup w; next_internal_id := next_internal_id w; init_claimed
     := init_claimed w; next_id := next_id w; states := states w; awoken := awoken w;
     thread_heap := thread_heap w; next_thread := next_thread w; klog := x; pctls := pctls w;
     tctls := tctls w; mem := mem w |}.
Definition set_pctls (x : gmap Z SigProcControl) (w : World) : World :=
  {| processes := processes w; groups := groups w; sessions := sessions w; handles := handles
     w; thread_lookup := thread_lookup w; next_internal_id := next_internal_id w; init_claimed
     := init_claimed w; next_id := next_id w; states := states w; awoken := awoken w;
     thread_heap := thread_heap w; next_thread := next_thread w; klog := klog w; pctls := x;
     tctls := tctls w; mem := mem w |}.
Definition set_tctls (x : gmap Z Sigcontrol) (w : World) : World :=
  {| processes := processes w; groups := groups w; sessions := sessions w; handles := handles
     w; thread_lookup := thread_lookup w; next_internal_id := next_internal_id w; init_claimed
     := init_claimed w; next_id := next_id w; states := states w; awoken := awoken w;
     thread_heap := thread_heap w; next_thread := next_thread w; klog := klog w; pctls :=
     pctls w; tctls := x; mem := mem w |}.
Definition set_mem (x : memory) (w : World) : World :=
  {| processes := processes w; groups := groups w; sessions := sessions w; handles := handles
     w; thread_lookup := thread_lookup w; next_internal_id := next_internal_id w; init_claimed
     := init_claimed w; next_id := next_id w; states := states w; awoken := awoken w;
     thread_heap := thread_heap w; next_thread := next_thread w; klog := klog w; pctls :=
     pctls w; tctls := tctls w; mem := x |}.
End world.
