(* ===== verification/Procmgr.v ===== *)
(** * bootstrap: the process manager, simple calls

    Models the methods of [ProcScheme] in [bootstrap/src/procmgr.rs] that create
    processes, open handles, move processes between groups and sessions, and
    change credentials, names and the signal control pages. *)

From stdpp Require Import base gmap strings list fin_maps.
From Stdlib Require Import ZArith Lia.
From Stdlib Require Import Strings.Byte.
From S2P Require Import Prelude Memory Syscall SchemeApi ProcTypes.

Local Open Scope Z_scope.

(** [Poll<A>]: [None] is [Pending]. *)
Abbreviation Poll := option.

(** The result of a call as a value; a panic is not. *)
Definition attempt {S A} (m : M S A) : M S (outcome A) := fun s =>
  match m s with
  | (Panic, s') => (Panic, s')
  | (r, s') => (Ok r, s')
  end.

(** [m.expect(..)] *)
Definition expect {S A} (m : M S A) : M S A := fun s =>
  match m s with
  | (Err _, s') => (Panic, s')
  | r => r
  end.

Fixpoint mapM_ {S A} (f : A -> M S unit) (l : list A) : M S unit :=
  match l with
  | [] => mret tt
  | x :: l => f x;; mapM_ f l
  end.

(** [x & mask == mask] on flags *)
Definition contains (x mask : Z) : bool := Z.land x mask =? mask.

Section procmgr.
Context {TG : Target} {SC : Syscall} {AB : SchemeAbi} {PA : ProcAbi} {SL : Slab} {BT : BTree}
  {HO : HashOrder} {KN : Kernel}.

(** ** Primitives *)

Definition World_new : World :=
  {| processes := ∅; groups := ∅; sessions := ∅; handles := slab_new; thread_lookup := ∅;
     next_internal_id := 1; init_claimed := false; next_id := 2; states := ∅; awoken := [];
     thread_heap := ∅; next_thread := 0; klog := []; pctls := ∅; tctls := ∅; mem := ∅ |}.

Definition kernel (c : kcall) : M World (Z * Z) := fun w =>
  (match ask (klog w) c with inl r => Ok r | inr e => Err e end, set_klog (klog w ++ [c]) w).

Definition get_proc (e : errno) (pid : Z) : M World Process :=
  ps ← gets processes; ok_or e (ps !! pid).

Definition upd_proc (pid : Z) (f : Process -> Process) : M World unit :=
  modify (fun w => set_processes (alter f pid (processes w)) w).

Definition upd_thread (t : Z) (f : Thread -> Thread) : M World unit :=
  modify (fun w => set_thread_heap (alter f t (thread_heap w)) w).

(** [Rc::new] of a thread *)
Definition new_rc_thread (th : Thread) : M World Z :=
  t ← gets next_thread;
  modify (fun w => set_next_thread (t + 1) (set_thread_heap (<[t := th]> (thread_heap w)) w));;
  mret t.

(** [Weak::upgrade] of a thread *)
Definition upgrade (e : errno) (t : Z) : M World Thread :=
  h ← gets thread_heap; ok_or e (h !! t).

(** A thread that its process owns. *)
Definition own_thread (t : Z) : M World Thread :=
  h ← gets thread_heap; unwrap (h !! t).

(** [self.handles[id]] *)
Definition handle_at (id : Z) : M World Handle :=
  hs ← gets handles; unwrap (slab_get id hs).

Definition add_handle (h : Handle) : M World Z :=
  hs ← gets handles;
  let '(i, hs) := slab_insert h hs in
  modify (set_handles hs);; mret i.

Definition wake (ids : list VirtualId) : M World unit :=
  modify (fun w => set_awoken (awoken w ++ ids) w).

(** [awoken.extend(proc.waitpid_waiting.drain(..))] *)
Definition wake_waiters (pid : Z) : M World unit :=
  ps ← gets processes;
  match ps !! pid with
  | Some p => wake (waitpid_waiting p);; upd_proc pid (set_waitpid_waiting [])
  | None => mret tt
  end.

Definition slice_bytes (sl : slice) : M World (list u8) :=
  m ← gets mem; unwrap (load (ptr sl) (Z.to_nat (slen sl)) m).

Definition write_at (a : Z) (l : list u8) : M World unit :=
  modify (fun w => set_mem (store a l (mem w)) w).

(** [auth-{}-status] and [auth-{}-attrs] *)
Definition auth_name (what : string) : list u8 :=
  as_bytes ("auth-" +:+ show_unsigned auth_fd +:+ "-" +:+ what).

(** [fd.dup(buf)] *)
Definition dup (fd : Z) (buf : list u8) : M World Z := r ← kernel (KDup fd buf); mret r.1.

(** [queue.subscribe(fd, fd, EVENT_READ)] *)
Definition subscribe (fd : Z) : M World unit := _ ← kernel (KSubscribe fd true); mret tt.
(** [queue.unsubscribe(fd, fd)] *)
Definition unsubscribe (fd : Z) : M World unit := _ ← kernel (KSubscribe fd false); mret tt.

Definition write_status (fd verb : Z) : M World unit := _ ← kernel (KWriteStatus fd verb); mret tt.

(** [x as u32] of the ids in [ProcSchemeAttrs] *)
Definition write_attrs (fd pid euid egid ens : Z) (name : string) : M World unit :=
  _ ← kernel (KWriteAttrs fd (as_u32 pid) euid egid ens name); mret tt.

Definition sync_kernel_attrs (p : Process) (my_pid : Z) : M World unit :=
  mapM_ (fun t =>
    thread ← own_thread t;
    attr_fd ← dup (t_fd thread) (auth_name "attrs");
    write_attrs attr_fd my_pid (euid p) (egid p) (ens p) (name p)) (threads p).

(** ** Creating processes and threads *)

Definition new_id : M World Z :=
  i ← gets next_id;
  n ← usize_add i 1;
  modify (set_next_id n);;
  mret i.

Definition new_process (thread pid ppid pgid sid : Z) (ruid euid suid rgid egid sgid rns ens : Z)
    (name : string) : Process :=
  {| threads := [thread]; p_pid := pid; ppid := ppid; pgid := pgid; sid := sid; name := name;
     ruid := ruid; euid := euid; suid := suid; rgid := rgid; egid := egid; sgid := sgid;
     rns := rns; ens := ens; p_status := PossiblyRunnable; disabled_setpgid := false;
     awaiting_threads_term := []; waitpid := []; waitpid_waiting := []; sig_pctl := None;
     rtqs := [] |}.

Definition on_sendfd (req : Request) : M World Response :=
  let id := recvfd_id req in
  h ← handle_at id;
  match h with
  | HInit =>
      r ← attempt (kernel (KObtainFd (sqe_tag req)));
      match r with
      | Ok (fd_out, _) =>
          expect (subscribe fd_out);;
          status_hndl ← expect (dup fd_out (auth_name "status"));
          thread ← new_rc_thread {| t_fd := fd_out; status_hndl := status_hndl; t_pid := INIT_PID;
                                    sig_ctrl := None |};
          let process := new_process thread INIT_PID INIT_PID INIT_PID INIT_PID 0 0 0 0 0 0 1 1 "[init]" in
          modify (fun w => set_groups (<[INIT_PID := [INIT_PID]]> (groups w)) w);;
          modify (fun w => set_processes (<[INIT_PID := process]> (processes w)) w);;
          modify (fun w => set_sessions ({[INIT_PID]} ∪ sessions w) w);;
          modify (fun w => set_thread_lookup (<[fd_out := thread]> (thread_lookup w)) w);;
          modify (fun w => set_handles (slab_set id (HProc INIT_PID) (handles w)) w);;
          mret (Response_new (Ok 0) (sqe_tag req))
      | Err e => mret (Response_new (Err e) (sqe_tag req))
      | Panic => panic
      end
  | _ => mret (Response_err EBADF (sqe_tag req))
  end.

Definition fork (parent_pid : Z) : M World Z :=
  child_pid ← new_id;
  p ← get_proc EBADFD parent_pid;
  new_ctxt_fd ← dup auth_fd (as_bytes "new-context");
  status_fd ← dup new_ctxt_fd (auth_name "status");
  expect (subscribe new_ctxt_fd);;
  thread ← new_rc_thread {| t_fd := new_ctxt_fd; status_hndl := status_fd; t_pid := child_pid;
                            sig_ctrl := None |};
  let child := new_process thread child_pid parent_pid (pgid p) (sid p) (ruid p) (euid p) (suid p)
                 (rgid p) (egid p) (sgid p) (rns p) (ens p) (name p) in
  _ ← attempt (sync_kernel_attrs child child_pid);
  modify (fun w => set_groups (alter (fun g => g ++ [child_pid]) (pgid p) (groups w)) w);;
  modify (fun w => set_processes (<[child_pid := child]> (processes w)) w);;
  modify (fun w => set_thread_lookup (<[new_ctxt_fd := thread]> (thread_lookup w)) w);;
  mret child_pid.

Definition new_thread (pid : Z) : M World Z :=
  p ← get_proc EBADFD pid;
  ctxt_fd ← dup auth_fd (as_bytes "new-context");
  attr_fd ← dup ctxt_fd (auth_name "attrs");
  write_attrs attr_fd pid (euid p) (egid p) (ens p) (name p);;
  status_hndl ← dup ctxt_fd (auth_name "status");
  expect (subscribe ctxt_fd);;
  thread ← new_rc_thread {| t_fd := ctxt_fd; status_hndl := status_hndl; t_pid := pid;
                            sig_ctrl := None |};
  upd_proc pid (fun p => set_threads (threads p ++ [thread]) p);;
  modify (fun w => set_thread_lookup (<[ctxt_fd := thread]> (thread_lookup w)) w);;
  mret thread.

(** ** The process list *)

(** The number of characters of a UTF-8 string. *)
Definition char_count (l : list u8) : nat :=
  length (filter (fun b => ~ (0x80 <= Z_of_byte b <= 0xBF)) l).

(** [{:<n}] *)
Definition pad (n : nat) (s : string) : list u8 :=
  as_bytes s ++ replicate (n - char_count (as_bytes s)) x20.

Definition ps_line (pid pgid ppid sid ruid rgid rns euid egid ens nthrd status name : string)
    : list u8 :=
  pad 6 pid ++ pad 6 pgid ++ pad 6 ppid ++ pad 6 sid ++ pad 6 ruid ++ pad 6 rgid ++ pad 6 rns ++
  pad 6 euid ++ pad 6 egid ++ pad 6 ens ++ pad 6 nthrd ++ pad 8 status ++ pad 16 name ++ [x0a].

Definition status_letter (s : ProcessStatus) : string :=
  match s with
  | PossiblyRunnable => "R" | Stopped _ => "S" | Exiting _ _ => "E" | Exited _ _ => "X"
  end.

Definition ps_data : M World (list u8) :=
  ps ← gets processes;
  let n := show_unsigned in
  mret (ps_line "PID" "PGID" "PPID" "SID" "RUID" "RGID" "RNS" "EUID" "EGID" "ENS" "NTHRD"
          "STATUS" "NAME" ++
        concat ((fun pid => match ps !! pid with
          | Some p => ps_line (n pid) (n (pgid p)) (n (ppid p)) (n (sid p)) (n (ruid p)) (n (rgid p))
                        (n (rns p)) (n (euid p)) (n (egid p)) (n (ens p)) (n (zlen (threads p)))
                        (status_letter (p_status p)) (name p)
          | None => []
          end) <$> hash_order (dom ps))).

(** ** Opening, reading and duplicating handles *)

Definition on_open (path : string) (flags : Z) (ctx : CallerCtx) : M World OpenResult :=
  let path := trim_start_matches slash path in
  if bool_decide (path = "init"%string) then
    claimed ← gets init_claimed;
    modify (set_init_claimed true);;
    fail_if claimed EEXIST;;
    i ← add_handle HInit;
    mret (ThisScheme i fd_empty)
  else if bool_decide (path = "ps"%string) then
    data ← ps_data;
    i ← add_handle (HPs data);
    mret (ThisScheme i fd_POSITIONED)
  else if bool_decide (path = "proc-creds-capability"%string) then
    fail_if (negb (ctx_uid ctx =? 0)) EACCES;;
    fail_if (negb (Z.land flags O_ACCMODE =? O_RDONLY)) EINVAL;;
    i ← add_handle HProcCredsCapability;
    mret (ThisScheme i fd_empty)
  else throw ENOENT.

Definition metadata_of (pid : Z) (p : Process) : ProcMeta :=
  {| pm_pid := as_u32 pid; pm_pgid := as_u32 (pgid p); pm_ppid := as_u32 (ppid p);
     pm_ruid := ruid p; pm_euid := euid p; pm_suid := suid p;
     pm_rgid := rgid p; pm_egid := egid p; pm_sgid := sgid p; pm_ens := ens p; pm_rns := rns p |}.

Definition read_process_metadata (pid : Z) (buf : slice) : M World Z :=
  p ← get_proc ESRCH pid;
  fail_if ((slen buf <? Z.of_nat size_of_ProcMeta) || negb (ptr buf mod align_of_ProcMeta =? 0)) EBADF;;
  write_at (ptr buf) (proc_meta_bytes (metadata_of pid p));;
  mret (Z.of_nat size_of_ProcMeta).

Definition on_read (id offset : Z) (buf : slice) : M World Z :=
  h ← handle_at id;
  match h with
  | HProc pid => read_process_metadata pid buf
  | HPs src_buf =>
      let src_buf := match usize_try_from offset with
                     | Some o => drop (Z.to_nat o) src_buf
                     | None => []
                     end in
      let len := (length src_buf `min` Z.to_nat (slen buf))%nat in
      write_at (ptr buf) (take len src_buf);;
      mret (Z.of_nat len)
  | HInit | HThread _ | HProcCredsCapability => throw EBADF
  end.

(** [w.strip_prefix("thread-")] *)
Definition thread_index (w : list u8) : option (list u8) :=
  let p := as_bytes "thread-" in
  if bool_decide (take (length p) w = p) then Some (drop (length p) w) else None.

Definition on_dup (old_id : Z) (buf : list u8) : M World OpenResult :=
  h ← handle_at old_id;
  match h with
  | HProc pid =>
      if bool_decide (buf = as_bytes "fork") then
        child_pid ← fork pid;
        i ← add_handle (HProc child_pid);
        mret (ThisScheme i fd_empty)
      else if bool_decide (buf = as_bytes "new-thread") then
        thread ← new_thread pid;
        i ← add_handle (HThread thread);
        mret (ThisScheme i fd_empty)
      else match thread_index buf with
      | Some rest =>
          idx ← ok_or EINVAL (s ← from_utf8 rest; parse_unsigned usize_mod s);
          p ← get_proc EBADFD pid;
          thread ← ok_or ENOENT (threads p !! Z.to_nat idx);
          i ← add_handle (HThread thread);
          mret (ThisScheme i fd_empty)
      | None => throw EINVAL
      end
  | HThread t =>
      thread ← upgrade EOWNERDEAD t;
      fd ← dup (t_fd thread) buf;
      mret (OtherScheme fd)
  | HInit | HPs _ | HProcCredsCapability => throw EBADF
  end.

Definition on_close (id : Z) : M World unit :=
  modify (fun w => set_handles (slab_remove id (handles w)) w).

(** ** Groups and sessions *)

Definition on_getpgid (caller_pid target_pid : Z) : M World Z :=
  caller ← get_proc ESRCH caller_pid;
  target ← get_proc ESRCH target_pid;
  fail_if (negb (sid caller =? sid target) && negb (euid caller =? 0)) EPERM;;
  mret (pgid target).

Definition on_getppid (caller_pid : Z) : M World Z :=
  p ← get_proc ESRCH caller_pid; mret (ppid p).

Definition on_getsid (caller_pid req_pid : Z) : M World Z :=
  caller ← get_proc ESRCH caller_pid;
  requested ← get_proc ESRCH req_pid;
  fail_if (negb (sid caller =? sid requested) && negb (euid caller =? 0)) EPERM;;
  mret (sid requested).

(** [g.processes.retain(|w| !Weak::ptr_eq(w, &proc_weak))] *)
Definition without (pid : Z) (g : list Z) : list Z := filter (fun q => q <> pid) g.

(** Drop [pid] from its group, and the group when it is empty then. *)
Definition leave_group (pid old_pgid : Z) (gs : gmap Z (list Z)) : gmap Z (list Z) :=
  match without pid <$> gs !! old_pgid with
  | Some [] => delete old_pgid gs
  | Some g => <[old_pgid := g]> gs
  | None => gs
  end.

Definition set_pgid_of (pid : Z) (parent : option Z) (new_pgid : Z) : M World unit :=
  ps ← gets processes;
  p ← unwrap (ps !! pid);
  if pgid p =? new_pgid then panic
  else
    match parent with Some q => wake_waiters q | None => mret tt end;;
    gs ← gets groups;
    _ ← ok_or ESRCH (gs !! pgid p);
    modify (fun w => set_groups (leave_group pid (pgid p) (groups w)) w);;
    modify (fun w => set_groups (<[new_pgid := default [] (groups w !! new_pgid) ++ [pid]]> (groups w)) w);;
    upd_proc pid (set_pgid new_pgid).

Definition on_setsid (caller_pid : Z) : M World unit :=
  ps ← gets processes;
  fail_if (bool_decide (map_Exists (fun pid p => pid <> caller_pid /\ pgid p = caller_pid) ps)) EPERM;;
  caller ← get_proc ESRCH caller_pid;
  fail_if (ppid caller =? caller_pid) ESRCH;;
  fail_if (pgid caller =? caller_pid) EPERM;;
  set_pgid_of caller_pid (if bool_decide (is_Some (ps !! ppid caller)) then Some (ppid caller) else None)
    caller_pid;;
  upd_proc caller_pid (set_sid caller_pid).

Definition on_setpgid (caller_pid target_pid new_pgid : Z) : M World unit :=
  caller ← get_proc ESRCH caller_pid;
  p ← get_proc ESRCH target_pid;
  fail_if (negb (ppid p =? caller_pid) && negb (target_pid =? caller_pid)) ESRCH;;
  parent ← (if ppid p =? target_pid then mret None
            else _ ← get_proc ESRCH (ppid p); mret (Some (ppid p)));
  fail_if (sid p =? target_pid) EPERM;;
  fail_if (negb (sid caller =? sid p)) EPERM;;
  gs ← gets groups;
  fail_if (negb (new_pgid =? target_pid) && bool_decide (gs !! new_pgid = None)) EPERM;;
  fail_if ((ppid p =? caller_pid) && disabled_setpgid p) EACCES;;
  if pgid p =? new_pgid then mret tt else set_pgid_of target_pid parent new_pgid.

Definition on_disable_setpgid (pid : Z) : M World unit :=
  _ ← get_proc ESRCH pid; upd_proc pid (set_disabled_setpgid true).

(** ** Credentials *)

(** [if i == u32::MAX { None } else { Some(i) }] *)
Definition cvt_u32 (u : Z) : option Z := if u =? 2 ^ 32 - 1 then None else Some u.

Fixpoint u32s (l : list u8) : list Z :=
  match l with
  | b0 :: b1 :: b2 :: b3 :: l => u32_from_ne_bytes b0 b1 b2 b3 :: u32s l
  | _ => []
  end.

(** [new.iter().filter_map(|x| *x).all(|new_id| old.contains(&new_id))] *)
Definition all_among (new : list (option Z)) (old : list Z) : bool :=
  forallb (fun x => match x with Some i => bool_decide (i ∈ old) | None => true end) new.

Definition set_ids (r e s rg eg sg : option Z) (p : Process) : Process :=
  let p := set_ruid (default (ruid p) r) p in
  let p := set_euid (default (euid p) e) p in
  let p := set_suid (default (suid p) s) p in
  let p := set_rgid (default (rgid p) rg) p in
  let p := set_egid (default (egid p) eg) p in
  set_sgid (default (sgid p) sg) p.

Definition on_setresugid (pid : Z) (raw_buf : slice) : M World unit :=
  l ← slice_bytes raw_buf;
  if negb (ptr raw_buf mod 4 =? 0) then panic
  else match cvt_u32 <$> u32s l with
  | [r; e; s; rg; eg; sg] =>
      p ← get_proc ESRCH pid;
      fail_if (negb (euid p =? 0) && negb (all_among [r; e; s] [ruid p; euid p; suid p])) EPERM;;
      fail_if (negb (euid p =? 0) && negb (all_among [rg; eg; sg] [rgid p; egid p; sgid p])) EPERM;;
      upd_proc pid (set_ids r e s rg eg sg);;
      _ ← attempt (sync_kernel_attrs (set_ids r e s rg eg sg p) pid);
      mret tt
  | _ => throw EINVAL
  end.

(** Whether a namespace may be set: [None] is a refusal. *)
Definition may_set_ns (ns : option Z) (cur rns ens euid : Z) : option bool :=
  match ns with
  | None => Some false
  | Some n =>
      if n =? 0 then Some true
      else if cur =? 0 then None
      else if euid =? 0 then Some true
      else if n =? ens then Some true
      else if n =? rns then Some true
      else None
  end.

Definition on_setrens (pid : Z) (rns_ ens_ : option Z) : M World unit :=
  p ← get_proc EBADFD pid;
  setrns ← ok_or EPERM (may_set_ns rns_ (rns p) (rns p) (ens p) (euid p));
  setens ← ok_or EPERM (may_set_ns ens_ (ens p) (rns p) (ens p) (euid p));
  let p1 := if (setrns : bool) then set_rns (default (rns p) rns_) p else p in
  let p2 := if (setens : bool) then set_ens (default (ens p) ens_) p1 else p1 in
  upd_proc pid (fun _ => p2);;
  if setrns || setens then _ ← attempt (sync_kernel_attrs p2 pid); mret tt else mret tt.

(** ** Names *)

(** [s.is_char_boundary(n)] for [n <= s.len()] *)
Definition is_char_boundary (n : nat) (s : list u8) : bool :=
  match s !! n with
  | Some b => negb ((0x80 <=? Z_of_byte b) && (Z_of_byte b <=? 0xBF))
  | None => true
  end.

Fixpoint until_nul (l : list u8) : list u8 :=
  match l with
  | [] => []
  | b :: l => if bool_decide (b = x00) then [] else b :: until_nul l
  end.

Definition on_proc_rename (pid : Z) (new_name_raw : list u8) : M World unit :=
  let new_name := until_nul new_name_raw in
  fail_if (negb (utf8_valid new_name)) EINVAL;;
  p ← get_proc ESRCH pid;
  let n := (length new_name `min` NAME_CAPAC)%nat in
  if is_char_boundary n new_name then
    let nm := String.string_of_list_byte (take n new_name) in
    upd_proc pid (set_name nm);;
    _ ← attempt (sync_kernel_attrs (set_name nm p) pid);
    mret tt
  else panic.

(** ** Signal control pages *)

(** [Page::map]: the address of the control structure. *)
Definition map_page (fd req_offset displacement : Z) : M World Z :=
  r ← kernel (KFmap fd req_offset);
  if r.1 =? 0 then panic else mret (r.1 + displacement).

Definition real_tctl_pctl_intra_page_offsets (fd : Z) : M World (Z * Z) :=
  r ← kernel (KReadSighandler fd);
  mret (as_u16 (r.1 mod PAGE_SIZE), as_u16 (r.2 mod PAGE_SIZE)).

Definition on_sync_sigtctl (t : Z) : M World unit :=
  thread ← own_thread t;
  fd ← dup (t_fd thread) (as_bytes "sighandler");
  offs ← real_tctl_pctl_intra_page_offsets fd;
  a ← map_page fd 0 offs.1;
  upd_thread t (fun th => {| t_fd := t_fd th; status_hndl := status_hndl th; t_pid := t_pid th;
                             sig_ctrl := Some a |}).

Definition on_sync_sigpctl (pid : Z) : M World unit :=
  p ← get_proc ESRCH pid;
  any_thread ← ok_or EINVAL (head (threads p));
  thread ← own_thread any_thread;
  fd ← dup (t_fd thread) (as_bytes "sighandler");
  offs ← real_tctl_pctl_intra_page_offsets fd;
  a ← map_page fd PAGE_SIZE offs.2;
  upd_proc pid (set_sig_pctl (Some a)).

Definition pctl_at (a : Z) (w : World) : SigProcControl := default (pctl_init a) (pctls w !! a).
Definition tctl_at (a : Z) (w : World) : Sigcontrol := default (tctl_init a) (tctls w !! a).

Definition upd_pctl (a : Z) (f : SigProcControl -> SigProcControl) : M World unit :=
  modify (fun w => set_pctls (<[a := f (pctl_at a w)]> (pctls w)) w).
Definition upd_tctl (a : Z) (f : Sigcontrol -> Sigcontrol) : M World unit :=
  modify (fun w => set_tctls (<[a := f (tctl_at a w)]> (tctls w)) w).

Definition set_pending (x : Z) (c : SigProcControl) : SigProcControl :=
  {| pending := x; p_sender_infos := p_sender_infos c; actions := actions c |}.
Definition set_word (g : Z) (x : Z) (c : Sigcontrol) : Sigcontrol :=
  {| word0 := if g =? 0 then x else word0 c; word1 := if g =? 0 then word1 c else x;
     t_sender_infos := t_sender_infos c |}.
(** [tctl.word[g]] for [g < 2] *)
Definition get_word (g : Z) (c : Sigcontrol) : Z := if g =? 0 then word0 c else word1 c.
(** [!x] on [u64] *)
Definition not64 (x : Z) : Z := 2 ^ 64 - 1 - x.
End procmgr.
