(* ===== verification/ProcSignal.v ===== *)
(** * bootstrap: the process manager, signals

    Models [on_send_sig], [on_kill], [on_kill_thread], [on_sigdeq] and
    [pgrp_is_orphaned] of [bootstrap/src/procmgr.rs]. *)

From stdpp Require Import base gmap strings list fin_maps.
From Stdlib Require Import ZArith Lia.
From Stdlib Require Import Strings.Byte.
From S2P Require Import Prelude Memory Syscall SchemeApi ProcTypes Procmgr.

Local Open Scope Z_scope.

Inductive KillMode :=
| Idempotent
| Queued (arg : list u8).

Inductive KillTarget :=
| TProc (pid : Z)
| TThread (thread : Z).

Inductive SendResult :=
| LacksPermission
| Succeeded
| SucceededSigchld (orig_signal ppid pgid : Z)
| SucceededSigcont (ppid pgid : Z)
| FullQ
| Invalid.

Section signals.
Context {TG : Target} {SC : Syscall} {AB : SchemeAbi} {PA : ProcAbi} {SL : Slab} {BT : BTree}
  {HO : HashOrder} {KN : Kernel}.

(** [cond] of one process of the group; a process without a parent in the
    table does not count. *)
Definition orphan_cond (ps : gmap Z Process) (pid : Z) : bool :=
  match ps !! pid with
  | Some p =>
      match ps !! ppid p with
      | Some parent => (pgid parent =? pgid p) || negb (sid parent =? sid p)
      | None => true
      end
  | None => true
  end.

Definition pgrp_is_orphaned (grp : Z) (w : World) : option bool :=
  g ← groups w !! grp; Some (forallb (orphan_cond (processes w)) g).

(** ** What a signal does to its target *)

Definition stop_bits : Z :=
  Z.lor (Z.lor (Z.lor (sig_bit SIGSTOP) (sig_bit SIGTTIN)) (sig_bit SIGTTOU)) (sig_bit SIGTSTP).

(** [for thread in threads] when SIGCONT meets a stopped process *)
Definition unstop_thread (t : Z) : M World unit :=
  thread ← own_thread t;
  match sig_ctrl thread with
  | Some a => upd_tctl a (fun c => set_word 0 (Z.land (word0 c) (not64 stop_bits)) c)
  | None => mret tt
  end;;
  expect (write_status (status_hndl thread) CV_Unstop).

Definition continue_proc (pid a : Z) (p : Process) : M World SendResult :=
  upd_proc pid (set_p_status PossiblyRunnable);;
  c ← gets (pctl_at a);
  (if signal_will_ign (actions c) SIGCONT false then mret tt
   else upd_pctl a (fun c => set_pending (Z.lor (pending c) (sig_bit SIGCONT)) c));;
  mapM_ unstop_thread (threads p);;
  mret (SucceededSigcont (ppid p) (pgid p)).

(** [for thread in &target_proc.threads] when a process stops: a failed
    write is logged and the thread skipped. *)
Definition stop_thread (t : Z) : M World unit :=
  thread ← own_thread t;
  r ← attempt (write_status (status_hndl thread) CV_Stop);
  if is_ok r then
    match sig_ctrl thread with
    | Some a => upd_tctl a (fun c => set_word 0 (Z.land (word0 c) (not64 (sig_bit SIGCONT))) c)
    | None => mret tt
    end
  else mret tt.

Definition stop_proc (pid a sig : Z) (p : Process) : M World SendResult :=
  upd_proc pid (set_p_status (Stopped sig));;
  mapM_ stop_thread (threads p);;
  upd_pctl a (fun c => set_pending (Z.land (pending c) (not64 (sig_bit SIGCONT))) c);;
  mret (SucceededSigchld sig (ppid p) (pgid p)).

Definition kill_thread (t : Z) : M World unit :=
  thread ← own_thread t; expect (write_status (status_hndl thread) CV_ForceKill).

(** [KillTarget::Thread] *)
Definition deliver_thread (t sig_group sig_idx sender : Z) (is_self killed : bool)
    : M World (SendResult * bool) :=
  thread ← own_thread t;
  match sig_ctrl thread with
  | None => mret (Invalid, killed)
  | Some a =>
      let bit := Z.shiftl 1 sig_idx in
      upd_tctl a (fun c =>
        set_word sig_group (Z.lor (get_word sig_group c) bit)
          {| word0 := word0 c; word1 := word1 c;
             t_sender_infos := <[sig_idx := sender]> (t_sender_infos c) |});;
      c ← gets (tctl_at a);
      if negb (Z.land (Z.shiftr (get_word sig_group c) 32) bit =? 0) then
        expect (write_status (status_hndl thread) CV_Interrupt);;
        mret (Succeeded, killed || is_self)
      else mret (Succeeded, killed)
  end.

(** Interrupt the first thread that does not mask the signal. *)
Fixpoint interrupt_first (sig sig_group : Z) (is_self killed : bool) (ts : list Z) : M World bool :=
  match ts with
  | [] => mret killed
  | t :: ts =>
      thread ← own_thread t;
      match sig_ctrl thread with
      | None => interrupt_first sig sig_group is_self killed ts
      | Some a =>
          c ← gets (tctl_at a);
          if negb (Z.land (Z.shiftr (get_word sig_group c) 32) (sig_bit sig) =? 0) then
            expect (write_status (status_hndl thread) CV_Interrupt);;
            mret (killed || is_self)
          else interrupt_first sig sig_group is_self killed ts
      end
  end.

(** [rtqs.resize_with(n, VecDeque::new)] when there are fewer *)
Definition grow_rtqs (n : nat) (q : list (list (list u8))) : list (list (list u8)) :=
  q ++ replicate (n - length q) [].

(** The [match mode]: [None] when delivery goes on. *)
Definition enqueue (pid a sig sig_group sig_idx sender : Z) (mode : KillMode)
    : M World (option SendResult) :=
  match mode with
  | Queued arg =>
      if negb (sig_group =? 1) then mret (Some Invalid)
      else
        let i := Z.to_nat sig_idx in
        upd_proc pid (fun p => set_rtqs (grow_rtqs (S i) (rtqs p)) p);;
        ps ← gets processes;
        p ← unwrap (ps !! pid);
        rtq ← unwrap (rtqs p !! i);
        if (32 <? length rtq)%nat then mret (Some FullQ)
        else upd_proc pid (fun p => set_rtqs (<[i := rtq ++ [arg]]> (rtqs p)) p);; mret None
  | Idempotent =>
      c ← gets (pctl_at a);
      if negb (Z.land (pending c) (sig_bit sig) =? 0) then mret (Some Succeeded)
      else if negb (sig_group =? 0) then mret (Some Invalid)
      else
        upd_pctl a (fun c => {| pending := pending c;
                                p_sender_infos := <[sig_idx := sender]> (p_sender_infos c);
                                actions := actions c |});;
        mret None
  end.

(** [KillTarget::Proc] *)
Definition deliver_proc (pid a sig sig_group sig_idx sender : Z) (mode : KillMode)
    (is_self killed : bool) (ts : list Z) : M World (SendResult * bool) :=
  r ← enqueue pid a sig sig_group sig_idx sender mode;
  match r with
  | Some r => mret (r, killed)
  | None =>
      upd_pctl a (fun c => set_pending (Z.lor (pending c) (sig_bit sig)) c);;
      killed ← interrupt_first sig sig_group is_self killed ts;
      mret (Succeeded, killed)
  end.

Definition is_conditional_stop (sig : Z) : bool :=
  (sig =? SIGTTIN) || (sig =? SIGTTOU) || (sig =? SIGTSTP).

Definition is_stopped (s : ProcessStatus) : bool :=
  match s with Stopped _ => true | _ => false end.

Definition is_gone (s : ProcessStatus) : bool :=
  match s with Exiting _ _ | Exited _ _ => true | _ => false end.

(** The closure of [on_send_sig]. *)
Definition send_to (caller_pid caller_euid caller_ruid : Z) (target : KillTarget)
    (target_pid sig sig_group sig_idx sender : Z) (killed : bool) (mode : KillMode)
    (stop_or_continue : bool) : M World (SendResult * bool) :=
  let is_self := target_pid =? caller_pid in
  ps ← gets processes;
  p ← unwrap (ps !! target_pid);
  if negb (caller_euid =? 0) && negb (caller_euid =? ruid p) && negb (caller_ruid =? ruid p)
  then mret (LacksPermission, killed)
  else if sig =? 0 then mret (Succeeded, killed)
  else if is_gone (p_status p) then mret (Succeeded, killed)
  else match sig_pctl p with
  | None => mret (Invalid, killed)
  | Some a =>
      c ← gets (pctl_at a);
      if (sig =? SIGCONT) && is_stopped (p_status p) then
        r ← continue_proc target_pid a p; mret (r, killed)
      else if (sig =? SIGSTOP) || (is_conditional_stop sig && signal_will_stop (actions c) sig) then
        orphaned ← gets (pgrp_is_orphaned (pgid p));
        if is_conditional_stop sig && default true orphaned then mret (Succeeded, killed)
        else r ← stop_proc target_pid a sig p; mret (r, killed)
      else if sig =? SIGKILL then
        mapM_ kill_thread (threads p);; mret (Succeeded, killed || is_self)
      else if signal_will_ign (actions c) sig stop_or_continue then mret (Succeeded, killed)
      else match target with
      | TThread t => deliver_thread t sig_group sig_idx sender is_self killed
      | TProc _ => deliver_proc target_pid a sig sig_group sig_idx sender mode is_self killed (threads p)
      end
  end.

(** Report a status change of [pid] to its parent, which is in the table, and
    wake the parent's waiters. *)
Definition post_status (parent pid pgid : Z) (status : WaitpidStatus) : M World unit :=
  upd_proc parent (fun q => set_waitpid
    (bt_insert key_cmp {| k_pid := Some pid; k_pgid := Some pgid |} (pid, status) (waitpid q)) q);;
  wake_waiters parent.

Definition report_status (parent pid pgid : Z) (status : WaitpidStatus) : M World unit :=
  _ ← get_proc ESRCH parent; post_status parent pid pgid status.

(** [on_send_sig] with its recursion cut at [depth] calls: the result, and
    [killed_self].  The only recursive call reports SIGCHLD to a parent and
    does not recurse again, so a depth of two is the whole function. *)
Fixpoint send_sig (depth : nat) (caller_pid : Z) (target : KillTarget) (signal : Z) (killed : bool)
    (mode : KillMode) (stop_or_continue : bool) : M World (outcome unit * bool) :=
  match depth with
  | O => panic
  | S depth =>
      if 64 <? signal then mret (Err EINVAL, killed)
      else
        s1 ← usize_sub signal 1;
        target_pid ← match target with
                     | TProc pid => mret pid
                     | TThread t => thread ← own_thread t; mret (t_pid thread)
                     end;
        ps ← gets processes;
        match ps !! target_pid, ps !! caller_pid with
        | None, _ | _, None => mret (Err ESRCH, killed)
        | Some _, Some caller =>
            r ← send_to caller_pid (euid caller) (ruid caller) target target_pid signal
                  (s1 / 32) (s1 mod 32) (sender_raw (as_u32 caller_pid) (ruid caller)) killed mode
                  stop_or_continue;
            let '(res, killed) := r in
            let report parent pgid status :=
              r ← attempt (report_status parent target_pid pgid status);
              match r with
              | Err e => mret (Err e, killed)
              | _ =>
                  if parent =? INIT_PID then mret (Ok tt, killed)
                  else
                    r ← send_sig depth INIT_PID (TProc parent) SIGCHLD killed Idempotent true;
                    mret (Ok tt, r.2)
              end in
            match res with
            | LacksPermission => mret (Err EPERM, killed)
            | Succeeded => mret (Ok tt, killed)
            | FullQ => mret (Err EAGAIN, killed)
            | Invalid => mret (Err ESRCH, killed)
            | SucceededSigchld orig ppid pgid => report ppid pgid (WStopped orig)
            | SucceededSigcont ppid pgid => report ppid pgid Continued
            end
        end
  end.

Definition on_send_sig : Z -> KillTarget -> Z -> bool -> KillMode -> bool -> M World (outcome unit * bool) :=
  send_sig 2.

(** ** kill *)

(** [if killed_self { Err(ERESTART) } else { Ok(()) }] *)
Definition restart_if (killed : bool) : M World unit := fail_if killed ERESTART.

Definition on_kill_thread (thread signal : Z) : M World unit :=
  th ← own_thread thread;
  r ← on_send_sig (t_pid th) (TThread thread) signal false Idempotent false;
  lift r.1;; restart_if r.2.

(** The loop of [on_kill]: the last error, the number of successes, and
    [killed_self]. *)
Fixpoint kill_loop (caller_pid : Z) (match_grp : option Z) (signal : Z) (mode : KillMode)
    (pids : list Z) (err_opt : option errno) (num_succeeded : Z) (killed : bool)
    : M World (option errno * Z * bool) :=
  match pids with
  | [] => mret (err_opt, num_succeeded, killed)
  | pid :: pids =>
      ps ← gets processes;
      p ← unwrap (ps !! pid);
      if match match_grp with Some g => negb (pgid p =? g) | None => false end
      then kill_loop caller_pid match_grp signal mode pids err_opt num_succeeded killed
      else
        r ← on_send_sig caller_pid (TProc pid) signal killed mode false;
        match r.1 with
        | Err e => kill_loop caller_pid match_grp signal mode pids (Some e) num_succeeded r.2
        | _ => kill_loop caller_pid match_grp signal mode pids err_opt (num_succeeded + 1) r.2
        end
  end.

Definition kill_group (caller_pid : Z) (match_grp : option Z) (signal : Z) (mode : KillMode)
    : M World unit :=
  ps ← gets processes;
  r ← kill_loop caller_pid match_grp signal mode (hash_order (dom ps)) None 0 false;
  let '(err_opt, num_succeeded, killed) := r in
  if num_succeeded =? 0 then throw (default ESRCH err_opt) else restart_if killed.

Definition on_kill (caller_pid : Z) (target : ProcKillTarget) (signal : Z) (mode : KillMode)
    : M World unit :=
  match target with
  | KT_SingleProc pid =>
      r ← on_send_sig caller_pid (TProc pid) signal false mode false;
      lift r.1;; restart_if r.2
  | KT_All => kill_group caller_pid None signal mode
  | KT_ProcGroup grp => kill_group caller_pid (Some grp) signal mode
  | KT_ThisGroup => p ← get_proc ESRCH caller_pid; kill_group caller_pid (Some (pgid p)) signal mode
  end.

(** ** Queued signals *)

Definition on_sigdeq (pid : Z) (payload : slice) : M World unit :=
  l ← slice_bytes payload;
  match l with
  | b0 :: b1 :: b2 :: b3 :: _ =>
      let sig_idx := u32_from_ne_bytes b0 b1 b2 b3 in
      fail_if (length l <? size_of_RtSigInfo)%nat EINVAL;;
      fail_if (32 <=? sig_idx) EINVAL;;
      p ← get_proc ESRCH pid;
      pctl ← ok_or EBADF (sig_pctl p);
      q ← ok_or EAGAIN (rtqs p !! Z.to_nat sig_idx);
      match q with
      | [] => throw EAGAIN
      | front :: q =>
          upd_proc pid (fun p => set_rtqs (<[Z.to_nat sig_idx := q]> (rtqs p)) p);;
          (if bool_decide (q = []) then
             upd_pctl pctl (fun c => set_pending
               (Z.land (pending c) (not64 (Z.shiftl 1 (32 + sig_idx)))) c)
           else mret tt);;
          write_at (ptr payload) front
      end
  | _ => throw EINVAL
  end.
End signals.
