(* ===== verification/ProcExit.v ===== *)
(** * bootstrap: the process manager, exit and waitpid

    Models [on_exit_start], [on_waitpid], [reap] and [work_on] of
    [bootstrap/src/procmgr.rs]: how a process ends, how its parent learns of
    it, and the requests that wait for either. *)

From stdpp Require Import base gmap strings list fin_maps.
From Stdlib Require Import ZArith Lia.
From Stdlib Require Import Strings.Byte.
From S2P Require Import Prelude Memory Syscall SchemeApi ProcTypes Procmgr ProcSignal.

Local Open Scope Z_scope.

Section exit.
Context {TG : Target} {SC : Syscall} {AB : SchemeAbi} {PA : ProcAbi} {SL : Slab} {BT : BTree}
  {HO : HashOrder} {KN : Kernel}.

Definition set_state (v : VirtualId) (st : PendingState) : M World unit :=
  modify (fun w => set_states (<[v := st]> (states w)) w).
Definition remove_state (v : VirtualId) : M World unit :=
  modify (fun w => set_states (delete v (states w)) w).

(** ** waitpid *)

Definition reap (pid : Z) : M World unit :=
  ps ← gets processes;
  match ps !! pid with
  | None => mret tt
  | Some p =>
      match threads p with
      | _ :: _ => mret tt
      | [] =>
          modify (fun w => set_processes (delete pid (processes w)) w);;
          modify (fun w => set_groups (leave_group pid (pgid p) (groups w)) w)
      end
  end.

(** [grim_reaper]: what a status that was found is to the waiter. *)
Definition grim_reaper (flags w_pid : Z) (status : WaitpidStatus) : M World (Poll (Z * Z)) :=
  match status with
  | Continued => mret (if contains flags WCONTINUED then Some (w_pid, 0xffff) else None)
  | WStopped signal =>
      mret (if contains flags WUNTRACED then Some (w_pid, Z.lor 0x7f (Z.shiftl signal 8)) else None)
  | Terminated signal status =>
      reap w_pid;; mret (Some (w_pid, Z.lor (default 0 signal) (Z.shiftl status 8)))
  end.

(** The end of each branch of [on_waitpid] when no status was found. *)
Definition keep_waiting (this_pid flags : Z) (req_id : VirtualId) : M World (Poll (Z * Z)) :=
  if contains flags WNOHANG then mret (Some (0, 0))
  else upd_proc this_pid (fun p => set_waitpid_waiting (waitpid_waiting p ++ [req_id]) p);; mret None.

Definition drop_status (this_pid : Z) (key : WaitpidKey) : M World unit :=
  upd_proc this_pid (fun p => set_waitpid (bt_remove key_cmp key (waitpid p)) p).

(** [Ready(Err(e))] is an [Err], [Ready(Ok(r))] is [Some r]. *)
Definition on_waitpid (this_pid : Z) (target : WaitpidTarget) (flags : Z) (req_id : VirtualId)
    : M World (Poll (Z * Z)) :=
  ps ← gets processes;
  let any_child := bool_decide (map_Exists (fun _ p => ppid p = this_pid) ps) in
  match target with
  | AnyChild | AnyGroupMember => fail_if (negb any_child) ECHILD
  | _ => mret tt
  end;;
  p ← get_proc EBADFD this_pid;
  match target with
  | AnyChild | AnyGroupMember =>
      let kv := match target with
                | AnyChild => head (waitpid p)
                | _ => bt_get_key_value key_cmp {| k_pid := None; k_pgid := Some (pgid p) |} (waitpid p)
                end in
      match kv with
      | Some (wid, (w_pid, status)) =>
          drop_status this_pid wid;; grim_reaper flags w_pid status
      | None => keep_waiting this_pid flags req_id
      end
  | SingleProc pid =>
      fail_if (this_pid =? pid) EINVAL;;
      target_proc ← get_proc ECHILD pid;
      fail_if (negb (ppid target_proc =? this_pid)) ECHILD;;
      let key := {| k_pid := Some pid; k_pgid := None |} in
      match p_status target_proc with
      | Exited signal status =>
          drop_status this_pid key;; grim_reaper flags pid (Terminated signal status)
      | _ =>
          match bt_get_key_value key_cmp key (waitpid p) with
          | Some (_, (w_pid, status)) =>
              drop_status this_pid key;; grim_reaper flags w_pid status
          | None => keep_waiting this_pid flags req_id
          end
      end
  | ProcGroup grp =>
      gs ← gets groups;
      group ← ok_or ECHILD (gs !! grp);
      fail_if (negb (existsb (fun q => negb (q =? this_pid) &&
                 match ps !! q with Some q => ppid q =? this_pid | None => false end) group)) ECHILD;;
      let key := {| k_pid := None; k_pgid := Some grp |} in
      match bt_get_key_value key_cmp key (waitpid p) with
      | Some (_, (w_pid, status)) => drop_status this_pid key;; grim_reaper flags w_pid status
      | None => keep_waiting this_pid flags req_id
      end
  end.

(** ** The end of a process *)

(** [children_iter()] *)
Definition children_of (pid : Z) (ps : gmap Z Process) : list Z :=
  filter (fun q => q <> INIT_PID /\ ppid <$> ps !! q = Some pid) (hash_order (dom ps)).

(** The body of the loop that transfers the children to init. *)
Definition reparent (child : Z) : M World unit :=
  ps ← gets processes;
  c ← unwrap (ps !! child);
  upd_proc child (set_ppid INIT_PID);;
  upd_proc INIT_PID (fun i => set_waitpid (bt_append key_cmp (waitpid i) (waitpid c)) i);;
  upd_proc child (set_waitpid []).

(** SIGCONT and SIGHUP to the stopped members of a group that has become
    orphaned; errors are logged. *)
Definition hang_up (pid : Z) : M World unit :=
  ps ← gets processes;
  match ps !! pid with
  | Some p =>
      if is_stopped (p_status p) then
        _ ← on_send_sig INIT_PID (TProc (p_pid p)) SIGCONT false Idempotent false;
        _ ← on_send_sig INIT_PID (TProc (p_pid p)) SIGHUP false Idempotent false;
        mret tt
      else mret tt
  | None => mret tt
  end.

Definition check_orphaned (was : gmap Z (option bool)) (grp : Z) : M World unit :=
  is_orphaned ← gets (pgrp_is_orphaned grp);
  gs ← gets groups;
  match gs !! grp with
  | Some group =>
      if negb (default false (mjoin (was !! grp))) && default false is_orphaned
      then mapM_ hang_up group else mret tt
  | None => mret tt
  end.

(** The groups of the children and of the process, with whether each is
    orphaned. *)
Definition affected_pgids (pgid_ : Z) (children : list Z) (w : World) : gmap Z (option bool) :=
  list_to_map ((fun g => (g, pgrp_is_orphaned g w)) <$>
    (omap (fun q => pgid <$> processes w !! q) children ++ [pgid_])).

(** What init has to do with the end of [current_pid]. *)
Definition orphan_children (current_pid pgid_ : Z) : M World unit :=
  ps ← gets processes;
  match ps !! INIT_PID with
  | None => mret tt
  | Some _ =>
      wake_waiters INIT_PID;;
      ps ← gets processes;
      let children := children_of current_pid ps in
      affected ← gets (affected_pgids pgid_ children);
      mapM_ reparent children;;
      mapM_ (check_orphaned affected) (hash_order (dom affected))
  end.

(** The parent learns of the end of [current_pid]. *)
Definition notify_exit (current_pid parent pgid_ : Z) (signal : option Z) (status : Z) : M World unit :=
  ps ← gets processes;
  match ps !! parent with
  | None => mret tt
  | Some _ =>
      _ ← on_send_sig current_pid (TProc parent) SIGCHLD false Idempotent false;
      orphan_children current_pid pgid_;;
      post_status parent current_pid pgid_ (Terminated signal status)
  end.

(** [if let Some(tag) = tag { Ready(..) } else { state_entry.remove(); Pending }] *)
Definition answer_or_drop (v : VirtualId) (tag : option Z) (r : outcome Z) : M World (Poll Response) :=
  match tag with
  | Some tag => mret (Some (Response_new r tag))
  | None => remove_state v;; mret None
  end.

Definition work_on_exit (v : VirtualId) (pid : Z) (tag : option Z) : M World (Poll Response) :=
  ps ← gets processes;
  match ps !! pid with
  | None => answer_or_drop v tag (Err ESRCH)
  | Some p =>
      match threads p with
      | [] =>
          match p_status p with
          | Exiting signal status =>
              remove_state v;;
              upd_proc pid (set_p_status (Exited signal status));;
              notify_exit pid (ppid p) (pgid p) signal status;;
              mret (match tag with Some tag => Some (Response_new (Ok 0) tag) | None => None end)
          | Exited _ _ => answer_or_drop v tag (Ok 0)
          | _ => answer_or_drop v tag (Err ESRCH)
          end
      | _ :: _ =>
          upd_proc pid (fun p => set_awaiting_threads_term (awaiting_threads_term p ++ [v]) p);;
          set_state v (AwaitingThreadsTermination pid tag);;
          mret None
      end
  end.

(** [if let Ok(status_out) = plain::from_mut_bytes::<i32>(payload)] *)
Definition put_status (sl : slice) (status : Z) : M World unit :=
  if (4 <=? slen sl) && (ptr sl mod 4 =? 0) then write_at (ptr sl) (u32_to_ne_bytes status)
  else mret tt.

Definition work_on_wait (v : VirtualId) (waiter : Z) (target : WaitpidTarget) (flags : Z) (op : OpCall)
    : M World (Poll Response) :=
  res ← attempt (on_waitpid waiter target flags v);
  match res with
  | Ok (Some (pid, status)) =>
      put_status (oc_payload op) status;;
      mret (Some (Response_new (Ok pid) (oc_req op)))
  | Err e => mret (Some (Response_err e (oc_req op)))
  | _ => set_state v (AwaitingStatusChange waiter target flags op);; mret None
  end.

(** The entry of [v] is occupied. *)
Definition work_on (v : VirtualId) : M World (Poll Response) :=
  sts ← gets states;
  st ← unwrap (sts !! v);
  set_state v Placeholder;;
  match st with
  | Placeholder => mret None
  | AwaitingThreadsTermination pid tag => work_on_exit v pid tag
  | AwaitingStatusChange waiter target flags op => work_on_wait v waiter target flags op
  end.

(** ** exit *)

(** [if let Some(tag) = tag { ready_err(e, tag) } else { Pending }] *)
Definition fail_tag (tag : option Z) (e : errno) : M World (Poll Response) :=
  mret (match tag with Some tag => Some (Response_err e tag) | None => None end).

(** The raw status of an exit: the status and the signal, if it is valid. *)
Definition decode_status (status : Z) : option (Z * option Z) :=
  if Z.land status 0xff =? status then Some (status, None)
  else
    let sig := Z.shiftr status 8 mod 256 in
    if (1 <=? sig) && (sig <=? 64) then Some (0, Some sig) else None.

(** The loop that ends the threads: the error to return, if any. *)
Fixpoint end_threads (tag : option Z) (ts : list Z) : M World (option errno) :=
  match ts with
  | [] => mret None
  | t :: ts =>
      thread ← own_thread t;
      r ← attempt (write_status (status_hndl thread) (usize_mod - 1));
      match r, tag with
      | Err e, Some _ => mret (Some e)
      | _, _ => end_threads tag ts
      end
  end.

(** [v] is the key of the vacant entry. *)
Definition on_exit_start (pid status : Z) (v : VirtualId) (tag : option Z) : M World (Poll Response) :=
  ps ← gets processes;
  match ps !! pid with
  | None => fail_tag tag EBADFD
  | Some p =>
      match p_status p with
      | Exiting _ _ => fail_tag tag EAGAIN
      | Exited _ _ => fail_tag tag ESRCH
      | _ =>
          match decode_status status with
          | None => fail_tag tag EINVAL
          | Some (status, signal) =>
              upd_proc pid (set_p_status (Exiting signal status));;
              failed ← match threads p with
                       | [] => mret None
                       | ts =>
                           r ← end_threads tag ts;
                           match r with
                           | Some e => mret (Some e)
                           | None =>
                               upd_proc pid (fun p =>
                                 set_awaiting_threads_term (awaiting_threads_term p ++ [v]) p);;
                               mret None
                           end
                       end;
              match failed with
              | Some e => fail_tag tag e
              | None => set_state v (AwaitingThreadsTermination pid tag);; work_on v
              end
          end
      end
  end.
End exit.
