(* ===== verification/ProcServer.v ===== *)
(** * bootstrap: the process manager, requests and events

    Models [on_call], [handle_scheme] and the loop of [run] of
    [bootstrap/src/procmgr.rs]: decoding of calls, cancellation, the events of
    threads that ended, and the queue of requests to work on again.

    The socket delivers requests and takes every response; the order and the
    choice of events is the kernel's. *)

From stdpp Require Import base gmap strings list fin_maps.
From Stdlib Require Import ZArith Lia.
From Stdlib Require Import Strings.Byte.
From S2P Require Import Prelude Memory Syscall SchemeApi ProcTypes Procmgr ProcSignal ProcExit.

Local Open Scope Z_scope.

Section server.
Context {TG : Target} {SC : Syscall} {AB : SchemeAbi} {PA : ProcAbi} {SL : Slab} {BT : BTree}
  {HO : HashOrder} {KN : Kernel}.

(** [Ready(Response::new(m, tag))] *)
Definition respond (tag : Z) (m : M World Z) : M World (Poll Response) :=
  r ← attempt m; mret (Some (Response_new r tag)).
(** [Ready(Response::new(m.map(|()| 0), tag))] *)
Definition respond0 (tag : Z) (m : M World unit) : M World (Poll Response) :=
  respond tag (m;; mret 0).
Definition ready_err (e : errno) (tag : Z) : M World (Poll Response) :=
  mret (Some (Response_err e tag)).
Definition ready_ok (n : Z) (tag : Z) : M World (Poll Response) :=
  mret (Some (Response_new (Ok n) tag)).

(** [metadata[i]] *)
Definition metadata (op : OpCall) (i : nat) : Z := nth i (oc_metadata op) 0.
(** [NonZeroUsize::new(x).map_or(d, |n| ProcessId(n.get()))] *)
Definition nonzero_or (d x : Z) : Z := if x =? 0 then d else x.

Definition call_wait (v : VirtualId) (pid : Z) (op : OpCall) (pgid_call : bool) : M World (Poll Response) :=
  let target := match pgid_call, metadata op 1 =? 0 with
                | false, true => AnyChild
                | false, false => SingleProc (as_usize (metadata op 1))
                | true, true => AnyGroupMember
                | true, false => ProcGroup (as_usize (metadata op 1))
                end in
  match wait_flags_from_bits (as_usize (metadata op 2)) with
  | None => ready_err EINVAL (oc_req op)
  | Some flags => set_state v (AwaitingStatusChange pid target flags op);; work_on v
  end.

Definition call_setpgid (pid : Z) (op : OpCall) : M World (Poll Response) :=
  let target_pid := nonzero_or pid (as_usize (metadata op 1)) in
  let new_pgid := nonzero_or target_pid (as_usize (metadata op 2)) in
  if new_pgid =? usize_mod - 1 then respond (oc_req op) (on_getpgid pid target_pid)
  else respond0 (oc_req op) (on_setpgid pid target_pid new_pgid).

(** [signal] of [u8::try_from(metadata[2]).ok().filter(|s| *s <= 64)] *)
Definition call_kill (pid : Z) (op : OpCall) (queued : bool) : M World (Poll Response) :=
  let target := kill_target (as_usize (metadata op 1)) in
  let signal := metadata op 2 in
  if negb ((0 <=? signal) && (signal <=? 64)) then ready_err EINVAL (oc_req op)
  else if queued then
    l ← slice_bytes (oc_payload op);
    if negb (length l =? size_of_RtSigInfo)%nat then ready_err EINVAL (oc_req op)
    else respond0 (oc_req op) (on_kill pid target signal (Queued l))
  else respond0 (oc_req op) (on_kill pid target signal Idempotent).

Definition proc_call_on (v : VirtualId) (pid : Z) (op : OpCall) (verb : ProcCall)
    : M World (Poll Response) :=
  let tag := oc_req op in
  let pl := oc_payload op in
  match verb with
  | PC_Setrens =>
      respond0 tag (on_setrens pid (cvt_u32 (as_u32 (metadata op 1))) (cvt_u32 (as_u32 (metadata op 2))))
  | PC_Exit => on_exit_start pid (as_u16 (metadata op 1)) v (Some tag)
  | PC_Waitpid => call_wait v pid op false
  | PC_Waitpgid => call_wait v pid op true
  | PC_Setpgid => call_setpgid pid op
  | PC_Getsid => respond tag (on_getsid pid (nonzero_or pid (as_usize (metadata op 1))))
  | PC_Getppid => respond tag (on_getppid pid)
  | PC_Setsid => respond0 tag (on_setsid pid)
  | PC_SetResugid => respond0 tag (on_setresugid pid pl)
  | PC_Kill => call_kill pid op false
  | PC_Sigq => call_kill pid op true
  | PC_SyncSigPctl => respond0 tag (on_sync_sigpctl pid)
  | PC_Sigdeq => respond0 tag (on_sigdeq pid pl)
  | PC_Rename => respond0 tag (l ← slice_bytes pl; on_proc_rename pid l)
  | PC_DisableSetpgid => respond0 tag (on_disable_setpgid pid)
  | PC_GetProcCredentials => ready_err EACCES tag
  end.

Definition thread_call_on (t : Z) (op : OpCall) (verb : ThreadCall) : M World (Poll Response) :=
  match verb with
  | TC_SyncSigTctl => respond0 (oc_req op) (on_sync_sigtctl t)
  | TC_SignalThread => respond0 (oc_req op) (on_kill_thread t (metadata op 1 mod 256))
  end.

(** [v] is the key of the vacant entry. *)
Definition on_call (v : VirtualId) (op : OpCall) : M World (Poll Response) :=
  let tag := oc_req op in
  h ← handle_at (oc_fd op);
  match h with
  | HInit => ready_err EBADF tag
  | HThread t =>
      heap ← gets thread_heap;
      match heap !! t with
      | None => ready_err EOWNERDEAD tag
      | Some _ =>
          match thread_call (as_usize (metadata op 0)) with
          | None => ready_err EINVAL tag
          | Some verb => thread_call_on t op verb
          end
      end
  | HProc pid =>
      match proc_call (as_usize (metadata op 0)) with
      | None => ready_err EINVAL tag
      | Some verb => proc_call_on v pid op verb
      end
  | HPs _ => ready_err EOPNOTSUPP tag
  | HProcCredsCapability =>
      match proc_call (as_usize (metadata op 0)) with
      | Some PC_GetProcCredentials =>
          respond tag (read_process_metadata (as_usize (metadata op 1)) (oc_payload op))
      | _ => ready_err EINVAL tag
      end
  end.

Definition open_like (tag : Z) (m : M World OpenResult) : M World (Poll Response) :=
  r ← attempt m; mret (Some (open_dup_like r tag)).

Definition proc_path : list u8 := as_bytes "/scheme/proc/".

Definition handle_op (caller : CallerCtx) (op : Op) : M World (Poll Response) :=
  match op with
  | Open req path flags =>
      l ← slice_bytes path; open_like req (on_open (String.string_of_list_byte l) flags caller)
  | Dup fd req buf => l ← slice_bytes buf; open_like req (on_dup fd l)
  | Read req fd offset _ buf => respond req (on_read fd offset buf)
  | Call req fd payload metadata =>
      remove_state (KernelId req);;
      on_call (KernelId req) {| oc_req := req; oc_fd := fd; oc_payload := payload; oc_metadata := metadata |}
  | Fpath _ req buf =>
      let n := (length proc_path `min` Z.to_nat (slen buf))%nat in
      write_at (ptr buf) (take n proc_path);; ready_ok (Z.of_nat n) req
  | Fsize req fd =>
      h ← handle_at fd;
      match h with HPs b => ready_ok (zlen b) req | _ => ready_err EOPNOTSUPP req end
  | Fstat fd req buf =>
      h ← handle_at fd;
      match h with
      | HPs b =>
          l ← slice_bytes {| ptr := buf; slen := size_of_Stat |};
          write_at buf (stat_assign (zlen b) (Z.lor MODE_FILE 0x124) l);; ready_ok 0 req
      | _ => ready_err EOPNOTSUPP req
      end
  | op => ready_err ENOSYS (into_tag op)
  end.

(** A fresh [VirtualId::InternalId]. *)
Definition new_internal : M World VirtualId :=
  i ← gets next_internal_id;
  n ← arith 64 (i + 1);
  modify (set_next_internal_id n);;
  mret (InternalId i).

Definition cancel (id : Z) : M World (Poll Response) :=
  sts ← gets states;
  match sts !! KernelId id with
  | None => mret None
  | Some st =>
      remove_state (KernelId id);;
      match st with
      | AwaitingStatusChange _ _ _ op => ready_err ECANCELED (oc_req op)
      | AwaitingThreadsTermination pid tag =>
          v ← new_internal;
          set_state v (AwaitingThreadsTermination pid None);;
          wake [v];;
          mret (match tag with Some tag => Some (Response_err ECANCELED tag) | None => None end)
      | Placeholder => mret None
      end
  end.

Definition handle_scheme (req : Request) : M World (Poll Response) :=
  match kind req with
  | RK_Call req =>
      op ← lift (from_sqe_unchecked req);
      match op with
      | None => ready_err ENOSYS (sqe_tag req)
      | Some op => handle_op (caller req) op
      end
  | RK_Cancellation id => cancel id
  | RK_OnClose id => on_close id;; mret None
  | RK_SendFd req => r ← on_sendfd req; mret (Some r)
  | _ => mret None
  end.

(** ** The main loop *)

(** One pass of [for awoken in awoken.drain(..)]: the responses it writes. *)
Fixpoint work_batch (ids : list VirtualId) : M World (list Response) :=
  match ids with
  | [] => mret []
  | v :: ids =>
      sts ← gets states;
      r ← (if bool_decide (is_Some (sts !! v)) then work_on v else mret None);
      rs ← work_batch ids;
      mret (option_list r ++ rs)
  end.

(** [while !awoken.is_empty() || !new_awoken.is_empty()]; [awoken] holds both
    queues.  [None] when the loop has not ended within the fuel. *)
Fixpoint drain_awoken (fuel : nat) : M World (option (list Response)) :=
  match fuel with
  | O => mret None
  | S fuel =>
      ids ← gets awoken;
      match ids with
      | [] => mret (Some [])
      | _ :: _ =>
          modify (set_awoken []);;
          rs ← work_batch ids;
          rest ← drain_awoken fuel;
          mret (app rs <$> rest)
      end
  end.

(** The raw exit status for the status of a context; [None] for an event
    that is spurious. *)
Definition context_exit (sts : Z) : option Z :=
  if sts =? CS_Dead then Some 0
  else if sts =? CS_ForceKilled then Some (as_u16 (Z.shiftl SIGKILL 8))
  else if sts =? CS_UnhandledExcp then Some 1
  else None.

(** [proc.threads.retain(..)] and the end of the thread's last [Rc] *)
Definition drop_thread (fd t pid : Z) : M World unit :=
  modify (fun w => set_thread_lookup (delete fd (thread_lookup w)) w);;
  upd_proc pid (fun p => set_threads (without t (threads p)) p);;
  modify (fun w => set_thread_heap (delete t (thread_heap w)) w).

(** The thread [t] of the process [pid] has ended. *)
Definition thread_died (fd t pid status : Z) : M World unit :=
  _ ← attempt (unsubscribe fd);
  drop_thread fd t pid;;
  ps ← gets processes;
  p ← unwrap (ps !! pid);
  match p_status p with
  | Exiting _ _ =>
      wake (awaiting_threads_term p);; upd_proc pid (set_awaiting_threads_term [])
  | _ =>
      if bool_decide (threads p = []) then
        v ← new_internal;
        sts ← gets states;
        if bool_decide (is_Some (sts !! v)) then mret tt
        else
          r ← on_exit_start pid status v None;
          match r with None => mret tt | Some _ => panic end
      else mret tt
  end.

(** An event for the descriptor [fd] of a thread. *)
Definition thread_event (fd : Z) : M World unit :=
  tl ← gets thread_lookup;
  heap ← gets thread_heap;
  ps ← gets processes;
  match t ← tl !! fd; thread ← heap !! t; Some (t, thread) with
  | None => mret tt
  | Some (t, thread) =>
      match ps !! t_pid thread with
      | None => mret tt
      | Some _ =>
          r ← expect (kernel (KReadStatus (status_hndl thread)));
          match context_exit r.1 with
          | None => mret tt
          | Some status => thread_died fd t (t_pid thread) status
          end
      end
  end.
End server.
