(* ===== verification/ProcFrame.v ===== *)
(** * The process manager: what operations leave alone

    A relation between the worlds before and after a computation, and the
    proof rules that follow the structure of the monad.  Its main use: signals
    of every kind are _soft_.  They change no identity, credential, group,
    thread, handle or pending request, and they neither end a process nor
    bring one back; they lose no wakeup; and the queues of realtime signals
    stay within their bounds. *)

From stdpp Require Import base gmap strings list fin_maps.
From Stdlib Require Import ZArith Lia.
From S2P Require Import Prelude Memory Syscall SchemeApi ProcTypes Procmgr ProcSignal ProcExit ProcServer.

Local Open Scope Z_scope.

(** ** Computations within a relation *)

Section within.
Context {S : Type} (R : relation S) `{!PreOrder R}.

Definition within {A} (m : M S A) : Prop := forall s, R s (m s).2.

Lemma within_pure {A} (m : M S A) : pure_m m -> within m.
Proof. intros Hp s. by rewrite Hp. Qed.

Lemma within_bind_at {A B} (m : M S A) (k : A -> M S B) s :
  R s (m s).2 -> (forall a, within (k a)) -> R s ((m ≫= k) s).2.
Proof.
  unfold mbind, M_bind. destruct (m s) as [[a | e |] s1]; cbn; intros Hm Hk; [| done | done].
  etransitivity; [exact Hm | apply Hk].
Qed.

Lemma within_bind {A B} (m : M S A) (k : A -> M S B) :
  within m -> (forall a, within (k a)) -> within (m ≫= k).
Proof. intros Hm Hk s. by apply within_bind_at. Qed.

Lemma within_modify (f : S -> S) : (forall s, R s (f s)) -> within (modify f).
Proof. done. Qed.

Lemma attempt_state {A} (m : M S A) s : (attempt m s).2 = (m s).2.
Proof. unfold attempt. by destruct (m s) as [[] ?]. Qed.

Lemma within_attempt {A} (m : M S A) : within m -> within (attempt m).
Proof. intros Hm s. rewrite attempt_state. apply Hm. Qed.

Lemma within_expect {A} (m : M S A) : within m -> within (expect m).
Proof. intros Hm s. pose proof (Hm s). unfold expect. by destruct (m s) as [[] ?]. Qed.

Lemma within_mapM {A} (f : A -> M S unit) l : (forall x, within (f x)) -> within (mapM_ f l).
Proof.
  intros Hf. induction l as [| x l IH]; [by apply within_pure |].
  apply within_bind; auto.
Qed.
End within.

Lemma bind_run {S A B} (m : M S A) (k : A -> M S B) s a s' :
  m s = (Ok a, s') -> (m ≫= k) s = k a s'.
Proof. unfold mbind, M_bind. by intros ->. Qed.

Lemma within_mono {S A} (R R' : relation S) (m : M S A) :
  (forall s s', R s s' -> R' s s') -> within R m -> within R' m.
Proof. intros HR Hm s. apply HR, Hm. Qed.

Lemma pure_ok_or {S A} e (o : option A) : pure_m (S := S) (ok_or e o).
Proof. by destruct o. Qed.
Lemma pure_unwrap {S A} (o : option A) : pure_m (S := S) (unwrap o).
Proof. by destruct o. Qed.
Lemma pure_fail_if {S} b e : pure_m (S := S) (fail_if b e).
Proof. by destruct b. Qed.
Lemma pure_arith `{Target} {S} bits x : pure_m (S := S) (arith bits x).
Proof. intros s. unfold arith. by repeat case_match. Qed.

Create HintDb pure discriminated.
#[export] Hint Resolve pure_ok_or pure_unwrap pure_fail_if pure_arith : pure.
#[export] Hint Extern 0 (pure_m (mret _)) => (intros ?; reflexivity) : pure.
#[export] Hint Extern 0 (pure_m (throw _)) => (intros ?; reflexivity) : pure.
#[export] Hint Extern 0 (pure_m panic) => (intros ?; reflexivity) : pure.
#[export] Hint Extern 0 (pure_m (gets _)) => (intros ?; reflexivity) : pure.
#[export] Hint Extern 0 (pure_m (lift _)) => (intros ?; reflexivity) : pure.
#[export] Hint Extern 0 (pure_m (usize_add _ _)) => (apply pure_arith) : pure.
#[export] Hint Extern 0 (pure_m (usize_sub _ _)) => (apply pure_arith) : pure.

(** Lemmas [within R op] of whole operations. *)
Create HintDb within discriminated.

(** Follow the structure of a computation; leaves go to the hints. *)
Ltac within_step :=
  match goal with
  | |- within _ (_ ≫= _) => apply within_bind; [try apply _ | | intros ?]
  | |- within _ (attempt _) => apply within_attempt
  | |- within _ (expect _) => apply within_expect
  | |- within _ (mapM_ _ _) => apply within_mapM; [try apply _ | intros ?]
  | |- within _ (match ?x with _ => _ end) => destruct x
  | |- within _ (let '(_, _) := ?x in _) => destruct x
  | |- within _ _ => solve [auto with within nocore | apply within_pure; [try apply _ | auto with pure nocore]]
  end; cbn beta iota.
Ltac within := repeat within_step.

(** ** Soft steps *)

Section soft.
Context {TG : Target} {SC : Syscall} {AB : SchemeAbi} {PA : ProcAbi} {SL : Slab} {BT : BTree}
  {HO : HashOrder} {KN : Kernel}.

Lemma get_proc_run e pid p w : processes w !! pid = Some p -> get_proc e pid w = (Ok p, w).
Proof. intros H. unfold get_proc. by rewrite gets_bind, H. Qed.

(** What a signal does not touch in a process. *)
Definition gone_status (p : Process) : option ProcessStatus :=
  if is_gone (p_status p) then Some (p_status p) else None.
Definition creds (p : Process) : list Z :=
  [ruid p; euid p; suid p; rgid p; egid p; sgid p; rns p; ens p].
Record Core := {
  c_threads : list Z; c_pid : Z; c_ppid : Z; c_pgid : Z; c_sid : Z;
  c_creds : list Z; c_gone : option ProcessStatus
}.

Definition core (p : Process) : Core :=
  {| c_threads := threads p; c_pid := p_pid p; c_ppid := ppid p; c_pgid := pgid p; c_sid := sid p;
     c_creds := creds p; c_gone := gone_status p |}.

Record view := {
  v_procs : gmap Z Core;
  v_groups : gmap Z (list Z); v_handles : slab Handle; v_claimed : bool; v_next_id : Z;
  v_states : gmap VirtualId PendingState; v_heap : gmap Z Z; v_next_thread : Z
}.

Definition view_of (w : World) : view :=
  {| v_procs := core <$> processes w; v_groups := groups w; v_handles := handles w;
     v_claimed := init_claimed w; v_next_id := next_id w; v_states := states w;
     v_heap := t_pid <$> thread_heap w; v_next_thread := next_thread w |}.

(** No wakeup is lost: a request that waits for the children of a process
    goes on waiting for them, or is to be worked on again. *)
Definition keeps_waiters (w w' : World) : Prop :=
  awoken w ⊆ awoken w' /\
  forall q p u, processes w !! q = Some p -> u ∈ waitpid_waiting p ->
    u ∈ awoken w' \/ exists p', processes w' !! q = Some p' /\ u ∈ waitpid_waiting p'.

(** The realtime signals of a process are queued by number, and no queue
    holds more than 33. *)
Definition queues_ok (p : Process) : Prop :=
  (length (rtqs p) <= 32)%nat /\ Forall (fun q => length q <= 33)%nat (rtqs p).
Definition bounded (w : World) : Prop := map_Forall (fun _ => queues_ok) (processes w).
Definition keeps_queues (w w' : World) : Prop := bounded w -> bounded w'.

Definition soft (w w' : World) : Prop :=
  view_of w = view_of w' /\ keeps_waiters w w' /\ keeps_queues w w'.

#[export] Instance keeps_waiters_preorder : PreOrder keeps_waiters.
Proof.
  split; [intros w; split; [done |]; eauto |].
  intros x y z [A1 H1] [A2 H2]. split; [set_solver |]. intros q p u Hp Hu.
  destruct (H1 q p u Hp Hu) as [? | (p' & Hp' & Hu')]; [left; set_solver | eauto].
Qed.

#[export] Instance keeps_queues_preorder : PreOrder keeps_queues.
Proof. split; [intros w; exact id |]. intros x y z H1 H2 Hb. auto. Qed.

#[export] Instance soft_preorder : PreOrder soft.
Proof.
  split; [intros w; split; [done | split; reflexivity] |].
  intros x y z (V1 & K1 & Q1) (V2 & K2 & Q2). split; [congruence |]. split; by etransitivity.
Qed.

Lemma keeps_queues_alter pid f w w' :
  processes w' = alter f pid (processes w) ->
  (forall p, processes w !! pid = Some p -> queues_ok p -> queues_ok (f p)) -> keeps_queues w w'.
Proof.
  unfold keeps_queues, bounded. intros -> Hf Hb q p. rewrite lookup_alter_Some.
  intros [(-> & p0 & Hp & ->) | [_ Hp]]; [by apply Hf, (Hb _ _ Hp) | exact (Hb _ _ Hp)].
Qed.

(** Processes and queue are as they were. *)
Lemma soft_same w w' :
  view_of w = view_of w' -> processes w' = processes w -> awoken w' = awoken w -> soft w w'.
Proof. 
  intros Hv Hp Ha. split; [done |]. split; [split; rewrite ?Hp, ?Ha; eauto |].
  unfold keeps_queues, bounded. by rewrite Hp.
Qed.

Lemma core_alter pid (f : Process -> Process) (ps : gmap Z Process) :
  (forall p, ps !! pid = Some p -> core (f p) = core p) ->
  core <$> alter f pid ps = core <$> ps.
Proof.
  intros Hf. apply map_eq. intros i. rewrite !lookup_fmap.
  destruct (decide (pid = i)) as [<- | Hne].
  - rewrite lookup_alter_eq. destruct (ps !! pid) as [p |] eqn:E; [| done].
    cbn. f_equal. by apply Hf.
  - by rewrite lookup_alter_ne.
Qed.

Lemma soft_upd_at pid f w :
  (forall p, processes w !! pid = Some p ->
     core (f p) = core p /\ waitpid_waiting p ⊆ waitpid_waiting (f p) /\ (queues_ok p -> queues_ok (f p))) ->
  soft w (upd_proc pid f w).2.
Proof.
  intros Hf. split; [| split].
  - unfold view_of. cbn. rewrite core_alter; [done |]. intros p Hp. by apply Hf.
  - split; [done |]. cbn. intros q p u Hp Hu. right. destruct (decide (pid = q)) as [<- | Hne].
    + exists (f p). rewrite lookup_alter_eq, Hp. split; [done |]. by apply (Hf p Hp).
    + exists p. by rewrite lookup_alter_ne.
  - apply (keeps_queues_alter pid f); [done |]. intros p Hp. apply (Hf p Hp).
Qed.

Lemma soft_upd pid f :
  (forall p, core (f p) = core p) -> (forall p, waitpid_waiting p ⊆ waitpid_waiting (f p)) ->
  (forall p, queues_ok p -> queues_ok (f p)) ->
  within soft (upd_proc pid f).
Proof. intros Hf Hw Hq w. apply soft_upd_at. auto. Qed.

Lemma soft_kernel c : within soft (kernel c).
Proof. intros w. by apply soft_same. Qed.
Lemma soft_wake ids : within soft (wake ids).
Proof. intros w. split; [done |]. split; [split; cbn; [set_solver | eauto] | exact id]. Qed.
Lemma soft_write_at a l : within soft (write_at a l).
Proof. intros w. by apply soft_same. Qed.
Lemma soft_upd_pctl a f : within soft (upd_pctl a f).
Proof. intros w. by apply soft_same. Qed.
Lemma soft_upd_tctl a f : within soft (upd_tctl a f).
Proof. intros w. by apply soft_same. Qed.

Lemma soft_wake_waiters pid : within soft (wake_waiters pid).
Proof.
  intros w. unfold wake_waiters. rewrite gets_bind.
  destruct (processes w !! pid) as [p |] eqn:Hp; [| reflexivity].
  unfold wake, upd_proc. rewrite modify_bind. cbn. split; [| split].
  - unfold view_of. cbn. by rewrite core_alter.
  - split; cbn; [set_solver |]. intros q p' u Hq Hu. destruct (decide (pid = q)) as [<- | Hne].
    + left. simplify_eq. set_solver.
    + right. exists p'. by rewrite lookup_alter_ne.
  - by apply (keeps_queues_alter pid (set_waitpid_waiting [])).
Qed.
End soft.

#[export] Hint Resolve soft_kernel soft_wake soft_wake_waiters soft_write_at soft_upd_pctl soft_upd_tctl : within.
#[export] Hint Extern 1 (within soft (upd_proc _ _)) => (apply soft_upd; [intros ?; reflexivity | intros ? ? ?; cbn; set_solver | intros ? ?; assumption]) : within.

Section signals_soft.
Context {TG : Target} {SC : Syscall} {AB : SchemeAbi} {PA : ProcAbi} {SL : Slab} {BT : BTree}
  {HO : HashOrder} {KN : Kernel}.

Lemma soft_own_thread t : within soft (own_thread t).
Proof. unfold own_thread. within. Qed.
Lemma soft_get_proc e pid : within soft (get_proc e pid).
Proof. unfold get_proc. within. Qed.
Lemma soft_write_status fd v : within soft (write_status fd v).
Proof. unfold write_status. within. Qed.
Lemma soft_dup fd l : within soft (dup fd l).
Proof. unfold dup. within. Qed.
Lemma soft_slice_bytes sl : within soft (slice_bytes sl).
Proof. unfold slice_bytes. within. Qed.
Lemma soft_subscribe fd : within soft (subscribe fd).
Proof. unfold subscribe. within. Qed.
Lemma soft_unsubscribe fd : within soft (unsubscribe fd).
Proof. unfold unsubscribe. within. Qed.
Lemma soft_write_attrs fd a b c d e : within soft (write_attrs fd a b c d e).
Proof. unfold write_attrs. within. Qed.
End signals_soft.

#[export] Hint Resolve soft_own_thread soft_get_proc soft_write_status soft_dup
  soft_slice_bytes soft_subscribe soft_unsubscribe soft_write_attrs : within.

Section signals.
Context {TG : Target} {SC : Syscall} {AB : SchemeAbi} {PA : ProcAbi} {SL : Slab} {BT : BTree}
  {HO : HashOrder} {KN : Kernel}.

Lemma soft_unstop_thread t : within soft (unstop_thread t).
Proof. unfold unstop_thread. within. Qed.
Lemma soft_stop_thread t : within soft (stop_thread t).
Proof. unfold stop_thread. within. Qed.
Lemma soft_kill_thread t : within soft (kill_thread t).
Proof. unfold kill_thread. within. Qed.
#[local] Hint Resolve soft_unstop_thread soft_stop_thread soft_kill_thread : within.

Lemma core_set_status p st :
  is_gone (p_status p) = false -> is_gone st = false -> core (set_p_status st p) = core p.
Proof. intros Hp Hs. unfold core, gone_status. cbn. by rewrite Hp, Hs. Qed.

Lemma soft_set_status pid st p w :
  processes w !! pid = Some p -> is_gone (p_status p) = false -> is_gone st = false ->
  soft w (upd_proc pid (set_p_status st) w).2.
Proof.
  intros Hp Hg Hs. apply soft_upd_at. intros p' Hp'. rewrite Hp in Hp'.
  injection Hp' as <-. split_and!; [by apply core_set_status | done | done].
Qed.

Lemma soft_continue pid a p w :
  processes w !! pid = Some p -> is_gone (p_status p) = false -> soft w (continue_proc pid a p w).2.
Proof.
  intros Hp Hg. unfold continue_proc. apply within_bind_at; [apply _ | by eapply soft_set_status |].
  intros ?. within.
Qed.

Lemma soft_stop pid a sig p w :
  processes w !! pid = Some p -> is_gone (p_status p) = false -> soft w (stop_proc pid a sig p w).2.
Proof.
  intros Hp Hg. unfold stop_proc. apply within_bind_at; [apply _ | by eapply soft_set_status |].
  intros ?. within.
Qed.

Lemma soft_interrupt_first sig g b k ts : within soft (interrupt_first sig g b k ts).
Proof. revert k. induction ts as [| t ts IH]; intros k; cbn [interrupt_first]; within. Qed.

Lemma queues_ok_grow n p : (n <= 32)%nat -> queues_ok p -> queues_ok (set_rtqs (grow_rtqs n (rtqs p)) p).
Proof.
  intros Hn [H1 H2]. unfold queues_ok, grow_rtqs. cbn. rewrite length_app, length_replicate. split; [lia |].
  apply Forall_app. split; [done |]. apply Forall_replicate. cbn. lia.
Qed.

Lemma queues_ok_set i q p :
  (length q <= 33)%nat -> queues_ok p -> queues_ok (set_rtqs (<[i := q]> (rtqs p)) p).
Proof.
  intros Hq [H1 H2]. unfold queues_ok. cbn. rewrite length_insert. split; [done |]. by apply Forall_insert.
Qed.

Lemma soft_enqueue pid a sig g i s m : i < 32 -> within soft (enqueue pid a sig g i s m).
Proof.
  intros Hi. unfold enqueue. destruct m as [| arg]; [within |]. destruct (negb _); [within |].
  apply within_bind; [apply _ | | intros _].
  { apply soft_upd; [done | done |]. intros p. apply queues_ok_grow. lia. }
  within_step; [within |]. within_step; [within |]. within_step; [within |].
  destruct (_ <? _)%nat eqn:E; [within |]. apply Nat.ltb_ge in E.
  apply within_bind; [apply _ | | intros _; within].
  apply soft_upd; [done | done |]. intros p. apply queues_ok_set. rewrite length_app. cbn. lia.
Qed.
#[local] Hint Resolve soft_interrupt_first : within.

Lemma soft_deliver_thread t g i s b k : within soft (deliver_thread t g i s b k).
Proof. unfold deliver_thread. within. Qed.
Lemma soft_deliver_proc pid a sig g i s m b k ts :
  i < 32 -> within soft (deliver_proc pid a sig g i s m b k ts).
Proof. intros Hi. pose proof (soft_enqueue pid a sig g i s m Hi). unfold deliver_proc. within; done. Qed.
#[local] Hint Resolve soft_deliver_thread : within.

Lemma soft_send_to cp ce cr tg tp sig g i s k m soc :
  i < 32 -> within soft (send_to cp ce cr tg tp sig g i s k m soc).
Proof.
  intros Hi w. unfold send_to. rewrite gets_bind.
  destruct (processes w !! tp) as [p |] eqn:Hp; [| done]. cbn [unwrap]. rewrite ret_bind.
  destruct (_ && _ && _); [done |]. destruct (sig =? 0); [done |].
  destruct (is_gone (p_status p)) eqn:Hg; [done |].
  destruct (sig_pctl p) as [a |]; [| done]. rewrite gets_bind.
  destruct (_ && is_stopped _).
  { apply within_bind_at; [apply _ | by apply soft_continue |]. intros ?. within. }
  destruct (_ || _).
  { rewrite gets_bind. destruct (_ && _); [done |].
    apply within_bind_at; [apply _ | by apply soft_stop |]. intros ?. within. }
  match goal with |- soft ?w (?m ?w).2 => enough (within soft m) as H by apply H end.
  within. by apply soft_deliver_proc.
Qed.
#[local] Hint Extern 1 (within soft (send_to _ _ _ _ _ _ _ (_ mod 32) _ _ _ _)) =>
  (apply soft_send_to, Z.mod_pos_bound; lia) : within.

Lemma soft_post_status q pid g st : within soft (post_status q pid g st).
Proof. unfold post_status. within. Qed.
Lemma soft_report_status q pid g st : within soft (report_status q pid g st).
Proof. unfold report_status, post_status. within. Qed.
#[local] Hint Resolve soft_report_status : within.

Lemma soft_send_sig n cp tg sig k m soc : within soft (send_sig n cp tg sig k m soc).
Proof.
  revert cp tg sig k m soc. induction n as [| n IH]; intros; cbn [send_sig]; within.
Qed.

Lemma soft_on_send_sig cp tg sig k m soc : within soft (on_send_sig cp tg sig k m soc).
Proof. apply soft_send_sig. Qed.
#[local] Hint Resolve soft_on_send_sig : within.

Lemma soft_kill_loop c g sig m pids e n k : within soft (kill_loop c g sig m pids e n k).
Proof. revert e n k. induction pids as [| pid pids IH]; intros; cbn [kill_loop]; within. Qed.
#[local] Hint Resolve soft_kill_loop : within.

Lemma soft_on_kill c tg sig m : within soft (on_kill c tg sig m).
Proof. unfold on_kill, kill_group, restart_if. within. Qed.
Lemma soft_on_kill_thread t sig : within soft (on_kill_thread t sig).
Proof. unfold on_kill_thread, restart_if. within. Qed.

(** [pop_front] on the queue that was read. *)
Lemma soft_pop pid i x q p w :
  processes w !! pid = Some p -> rtqs p !! i = Some (x :: q) ->
  soft w (upd_proc pid (fun p => set_rtqs (<[i := q]> (rtqs p)) p) w).2.
Proof.
  intros Hp Hq. apply soft_upd_at. intros p' Hp'. rewrite Hp in Hp'. injection Hp' as <-.
  split_and!; [done | done |]. intros Hok. apply queues_ok_set; [| done].
  pose proof (Forall_lookup_1 _ _ _ _ (proj2 Hok) Hq) as H. cbn in H. lia.
Qed.

Lemma soft_on_sigdeq pid sl : within soft (on_sigdeq pid sl).
Proof.
  unfold on_sigdeq. within_step; [within |]. destruct a as [| b0 [| b1 [| b2 [| b3 l]]]]; [within .. |].
  do 2 (within_step; [within |]). intros w. destruct (processes w !! pid) as [p |] eqn:Hp.
  2: { unfold get_proc, mbind, M_bind. cbn. rewrite Hp. cbn. reflexivity. }
  rewrite (bind_run _ _ _ _ _ (get_proc_run ESRCH _ _ _ Hp)).
  destruct (sig_pctl p) as [ctl |]; [cbn [ok_or]; rewrite ret_bind | reflexivity].
  destruct (rtqs p !! _) as [[| x q] |] eqn:Hq; cbn [ok_or]; [reflexivity | rewrite ret_bind | reflexivity].
  apply (within_bind_at soft); [by eapply soft_pop | intros _; within].
Qed.
Lemma soft_sync_attrs p pid : within soft (sync_kernel_attrs p pid).
Proof. unfold sync_kernel_attrs. within. Qed.
#[local] Hint Resolve soft_sync_attrs : within.
Lemma soft_on_proc_rename pid l : within soft (on_proc_rename pid l).
Proof. unfold on_proc_rename. within. Qed.
Lemma soft_on_disable_setpgid pid : within soft (on_disable_setpgid pid).
Proof. unfold on_disable_setpgid. within. Qed.
Lemma soft_map_page fd o d : within soft (map_page fd o d).
Proof. unfold map_page. within. Qed.
Lemma soft_offsets fd : within soft (real_tctl_pctl_intra_page_offsets fd).
Proof. unfold real_tctl_pctl_intra_page_offsets. within. Qed.
#[local] Hint Resolve soft_map_page soft_offsets : within.

Lemma heap_alter_pid t f (h : gmap Z Thread) :
  (forall th, t_pid (f th) = t_pid th) -> t_pid <$> alter f t h = t_pid <$> h.
Proof.
  intros Hf. apply map_eq. intros i. rewrite !lookup_fmap. destruct (decide (t = i)) as [<- | Hne].
  - rewrite lookup_alter_eq. destruct (h !! t); cbn; [by rewrite Hf | done].
  - by rewrite lookup_alter_ne.
Qed.

Lemma soft_upd_thread t f : (forall th, t_pid (f th) = t_pid th) -> within soft (upd_thread t f).
Proof. intros Hf w. apply soft_same; [| done | done]. unfold view_of. cbn. by rewrite heap_alter_pid. Qed.
#[local] Hint Extern 1 (within soft (upd_thread _ _)) => (apply soft_upd_thread; intros ?; reflexivity) : within.

Lemma soft_on_sync_sigpctl pid : within soft (on_sync_sigpctl pid).
Proof. unfold on_sync_sigpctl. within. Qed.
Lemma soft_on_sync_sigtctl t : within soft (on_sync_sigtctl t).
Proof. unfold on_sync_sigtctl. within. Qed.
Lemma soft_metadata pid sl : within soft (read_process_metadata pid sl).
Proof. unfold read_process_metadata. within. Qed.
#[local] Hint Resolve soft_metadata : within.
Lemma soft_handle_at i : within soft (handle_at i).
Proof. unfold handle_at. within. Qed.
#[local] Hint Resolve soft_handle_at : within.
Lemma soft_on_read i o sl : within soft (on_read i o sl).
Proof. unfold on_read. within. Qed.
Lemma soft_ps_data : within soft ps_data.
Proof. unfold ps_data. within. Qed.
Lemma soft_on_getpgid a b : within soft (on_getpgid a b).
Proof. unfold on_getpgid. within. Qed.
Lemma soft_on_getsid a b : within soft (on_getsid a b).
Proof. unfold on_getsid. within. Qed.
Lemma soft_on_getppid a : within soft (on_getppid a).
Proof. unfold on_getppid. within. Qed.
Lemma soft_new_internal : within soft new_internal.
Proof. unfold new_internal. within. apply within_modify. intros w. by apply soft_same. Qed.

Lemma soft_hang_up pid : within soft (hang_up pid).
Proof. unfold hang_up. within. Qed.
#[local] Hint Resolve soft_hang_up : within.
Lemma soft_check_orphaned was g : within soft (check_orphaned was g).
Proof. unfold check_orphaned. within. Qed.
End signals.

#[export] Hint Resolve soft_on_send_sig soft_on_kill soft_on_kill_thread soft_on_sigdeq
  soft_post_status soft_check_orphaned soft_sync_attrs soft_on_proc_rename soft_on_disable_setpgid
  soft_on_sync_sigpctl soft_on_sync_sigtctl soft_metadata soft_handle_at soft_on_read soft_ps_data
  soft_on_getpgid soft_on_getsid soft_on_getppid soft_new_internal : within.
