(* ===== verification/ProcEvolve.v ===== *)
(** * The process manager: the invariant and how processes evolve

    The invariant [proc_wf] of the process table: pids are keys and below the
    counter, the groups partition the processes, the threads of a process are
    exactly those of the store that name it, and the init process is created
    once.  [evolves] relates the worlds before and after any work of the
    manager: the invariant is kept, pids are not reused, a process that is
    going stays gone, and credentials only shrink.

    Creation and reaping of processes, creation and death of threads, and then
    each operation of the manager, up to the dispatcher and the main loop. *)

From stdpp Require Import base gmap strings list fin_maps.
From Stdlib Require Import ZArith Lia.
From S2P Require Import Prelude Memory Syscall SchemeApi ProcTypes Procmgr ProcSignal ProcExit ProcServer.
From S2P Require Import ProcFrame.

Local Open Scope Z_scope.

Section wf.
Context {TG : Target} {SC : Syscall} {AB : SchemeAbi} {PA : ProcAbi} {SL : Slab} {BT : BTree}
  {HO : HashOrder} {KN : Kernel}.

Record view_wf (v : view) : Prop := {
  vw_next : 2 <= v_next_id v;
  vw_pid : forall pid c, v_procs v !! pid = Some c -> c_pid c = pid /\ 0 < pid < v_next_id v;
  vw_grouped : forall pid c, v_procs v !! pid = Some c -> is_Some (v_groups v !! c_pgid c);
  vw_group : forall gid g, v_groups v !! gid = Some g ->
    g <> [] /\ NoDup g /\ forall pid, pid ∈ g <-> exists c, v_procs v !! pid = Some c /\ c_pgid c = gid;
  vw_init : forall i, slab_get i (v_handles v) = Some HInit ->
    v_claimed v = true /\ v_procs v = ∅ /\ v_groups v = ∅ /\
    forall j, slab_get j (v_handles v) = Some HInit -> j = i;
  vw_unclaimed : v_claimed v = false -> v_procs v = ∅ /\ v_groups v = ∅;
  vw_threads : forall pid c, v_procs v !! pid = Some c ->
    NoDup (c_threads c) /\ forall t, t ∈ c_threads c <-> v_heap v !! t = Some pid;
  vw_owner : forall t pid, v_heap v !! t = Some pid -> is_Some (v_procs v !! pid) /\ t < v_next_thread v
}.

Definition proc_wf (w : World) : Prop := view_wf (view_of w).

(** ** How a process may change *)

(** The uids and gids, and the namespaces, of [creds]. *)
Definition uids (c : Core) : list Z := take 3 (c_creds c).
Definition gids (c : Core) : list Z := take 3 (drop 3 (c_creds c)).
Definition nss (c : Core) : list Z := drop 6 (c_creds c).

(** A process that has begun to exit keeps the reason, and ends. *)
Definition gone_le (a b : option ProcessStatus) : Prop :=
  match a with
  | None => True
  | Some (Exiting sg st) => b = a \/ b = Some (Exited sg st)
  | Some _ => b = a
  end.

(** A namespace that is 0 (capability mode) stays 0. *)
Definition ns_le (a b : list Z) : Prop :=
  forall i, a !! i = Some 0 -> b !! i = Some 0.

Record core_le (c c' : Core) : Prop := {
  cl_gone : gone_le (c_gone c) (c_gone c');
  cl_uids : 0 ∉ uids c -> uids c' ⊆ uids c;
  cl_gids : 0 ∉ uids c -> gids c' ⊆ gids c;
  cl_ns : ns_le (nss c) (nss c')
}.

#[export] Instance core_le_preorder : PreOrder core_le.
Proof.
  split.
  - intros c. split; [| set_solver | set_solver | by intros i].
    by destruct (c_gone c) as [[] |]; cbn; auto.
  - intros a b c [G1 U1 I1 N1] [G2 U2 I2 N2]. split.
    + destruct (c_gone a) as [[] |]; cbn in G1 |- *; [| | destruct G1 as [G1 | G1] | | done];
        rewrite G1 in G2; cbn in G2; naive_solver.
    + intros Ha. specialize (U1 Ha). etransitivity; [| exact U1]. apply U2. set_solver.
    + intros Ha. specialize (U1 Ha). etransitivity; [| by apply I1]. apply I2. set_solver.
    + intros i Hi. apply N2, N1, Hi.
Qed.

(** Init has been created, or never will be. *)
Definition sealed (v : view) : Prop :=
  v_claimed v = true /\ forall i, slab_get i (v_handles v) <> Some HInit.

Record evolution (v v' : view) : Prop := {
  ev_wf : view_wf v';
  ev_next : v_next_id v <= v_next_id v';
  ev_sealed : sealed v -> sealed v';
  ev_procs : sealed v -> forall pid c', v_procs v' !! pid = Some c' -> pid < v_next_id v ->
    exists c, v_procs v !! pid = Some c /\ core_le c c'
}.

Definition evolves (w w' : World) : Prop := proc_wf w -> evolution (view_of w) (view_of w').

Lemma evolution_refl v : view_wf v -> evolution v v.
Proof. intros Hw. split; [done | lia | done |]. intros _ pid c Hc _. by exists c. Qed.

#[export] Instance evolves_preorder : PreOrder evolves.
Proof.
  split; [intros w Hw; by apply evolution_refl |].
  intros w1 w2 w3 H12 H23 Hw. destruct (H12 Hw) as [W2 N2 S2 P2].
  destruct (H23 W2) as [W3 N3 S3 P3]. split; [done | lia | tauto |].
  intros Hs pid c Hc Hlt. destruct (P3 (S2 Hs) pid c Hc) as (c2 & H2 & L2); [lia |].
  destruct (P2 Hs pid c2 H2 Hlt) as (c1 & H1 & L1). exists c1. split; [done |]. by etransitivity.
Qed.

Lemma same_view_evolves w w' : view_of w = view_of w' -> evolves w w'.
Proof. intros Hs Hw. rewrite <- Hs. by apply evolution_refl. Qed.

Lemma soft_evolves w w' : soft w w' -> evolves w w'.
Proof. intros [Hs _]. by apply same_view_evolves. Qed.

Lemma within_soft_evolves {A} (m : M World A) : within soft m -> within evolves m.
Proof. apply within_mono, soft_evolves. Qed.

(** A change that keeps all that the invariant and the evolution look at. *)
Lemma evolution_same v v' :
  view_wf v -> v_procs v' = v_procs v -> v_groups v' = v_groups v -> v_claimed v' = v_claimed v ->
  v_next_id v' = v_next_id v -> v_heap v' = v_heap v -> v_next_thread v' = v_next_thread v ->
  (forall i, slab_get i (v_handles v') = Some HInit -> slab_get i (v_handles v) = Some HInit) ->
  evolution v v'.
Proof.
  intros [] Hp Hg Hc Hn Hh Ht Hi.
  split; [| lia | |].
  - split; rewrite ?Hp, ?Hg, ?Hc, ?Hn, ?Hh, ?Ht; auto.
    intros i Hii. destruct (vw_init0 i (Hi i Hii)) as (? & ? & ? & H4). eauto 10.
  - intros [H1 H2]. split; [congruence |]. intros i Hii. by apply (H2 i), Hi.
  - rewrite Hp. intros _ pid c Hcc _. by exists c.
Qed.

(** ** Handles *)

Lemma evolves_add_handle h : h <> HInit -> within evolves (add_handle h).
Proof.
  intros Hh w Hw. unfold add_handle. rewrite gets_bind. cbn beta.
  destruct (slab_insert h (handles w)) as [i hs] eqn:E. rewrite modify_bind. apply evolution_same; try done.
  cbn. intros j. destruct (slab_get_insert _ h (handles w) i hs j E) as [_ ->].
  case_decide; [congruence | done].
Qed.

Lemma evolves_on_close i : within evolves (on_close i).
Proof.
  intros w Hw. apply evolution_same; try done.
  cbn. intros j. rewrite slab_get_remove. by case_decide.
Qed.

Lemma evolves_open_init w :
  evolves w ((claimed ← gets init_claimed; modify (set_init_claimed true);;
              fail_if claimed EEXIST;; i ← add_handle HInit; mret (ThisScheme i fd_empty)) w).2.
Proof.
  intros Hw. rewrite gets_bind, modify_bind. destruct (init_claimed w) eqn:Ec.
  - by apply evolution_same.
  - unfold add_handle. destruct (slab_insert HInit (handles w)) as [i hs] eqn:E.
    cbn [fail_if]. rewrite ret_bind, (bind_run _ _ _ i (set_handles hs (set_init_claimed true w)));
      [| rewrite gets_bind; cbn beta; cbn [handles set_init_claimed]; by rewrite E].
    assert (forall j, slab_get j (handles w) <> Some HInit) as Hno.
    { intros j Hj. destruct (vw_init _ Hw j Hj) as [Hc _]. cbn in Hc. congruence. }
    destruct (vw_unclaimed _ Hw Ec) as [Hp Hg]. cbn in Hp, Hg. split; cbn.
    + destruct Hw as [? ? ? ? ? ? ? ?]. split; cbn in *; try done.
      intros j Hj. split; [done |]. split; [done |]. split; [done |]. intros k Hk.
      destruct (slab_get_insert _ _ _ _ _ j E) as [_ Ej]. destruct (slab_get_insert _ _ _ _ _ k E) as [_ Ek].
      rewrite Ej in Hj. rewrite Ek in Hk. repeat case_decide; try congruence; exfalso; by eapply Hno.
    + lia.
    + intros [Hc _]. cbn in Hc. congruence.
    + intros [Hc _]. cbn in Hc. congruence.
Qed.

Lemma evolves_on_open path flags ctx : within evolves (on_open path flags ctx).
Proof.
  intros w. unfold on_open. case_bool_decide; [apply evolves_open_init |].
  match goal with |- evolves ?w (?m ?w).2 => enough (within evolves m) as E by apply E end.
  pose proof (within_soft_evolves _ soft_ps_data).
  within; by apply evolves_add_handle.
Qed.
End wf.

#[export] Hint Resolve evolves_on_close evolves_on_open : within.
#[export] Hint Extern 2 (within evolves (add_handle _)) => (apply evolves_add_handle; done) : within.
#[export] Hint Extern 3 (within evolves _) => (apply within_soft_evolves; solve [auto with within nocore]) : within.

Section changes.
Context {TG : Target} {SC : Syscall} {AB : SchemeAbi} {PA : ProcAbi} {SL : Slab} {BT : BTree}
  {HO : HashOrder} {KN : Kernel}.

(** ** Changes of single processes *)

Definition same_place (c c' : Core) : Prop :=
  c_pid c' = c_pid c /\ c_pgid c' = c_pgid c /\ c_threads c' = c_threads c.

Definition only_procs (v v' : view) : Prop :=
  v_groups v' = v_groups v /\ v_claimed v' = v_claimed v /\ v_next_id v' = v_next_id v /\
  v_heap v' = v_heap v /\ v_next_thread v' = v_next_thread v /\ v_handles v' = v_handles v.

Lemma evolution_pointwise v v' :
  view_wf v -> only_procs v v' ->
  (forall pid, option_Forall2 (fun c c' => same_place c c' /\ core_le c c')
     (v_procs v !! pid) (v_procs v' !! pid)) ->
  evolution v v'.
Proof.
  intros [] (Hg & Hc & Hn & Hh & Ht & Hhs) Hp.
  assert (forall pid c', v_procs v' !! pid = Some c' ->
    exists c, v_procs v !! pid = Some c /\ same_place c c' /\ core_le c c') as Hback.
  { intros pid c' E. specialize (Hp pid). rewrite E in Hp. inversion Hp; naive_solver. }
  assert (forall pid c, v_procs v !! pid = Some c ->
    exists c', v_procs v' !! pid = Some c' /\ same_place c c') as Hforth.
  { intros pid c E. specialize (Hp pid). rewrite E in Hp. inversion Hp; naive_solver. }
  assert (v_procs v = ∅ -> v_procs v' = ∅) as Hempty.
  { intros E. apply map_eq. intros i. destruct (v_procs v' !! i) eqn:Ei; [| done].
    apply Hback in Ei as (? & Ei & _). rewrite E in Ei. done. }
  split; [split | lia | |]; rewrite ?Hg, ?Hc, ?Hn, ?Hh, ?Ht, ?Hhs; try done.
  - intros pid c' (c & E & (H1 & _) & _)%Hback. rewrite H1. eauto.
  - intros pid c' (c & E & (_ & H2 & _) & _)%Hback. rewrite H2. eauto.
  - intros gid g Eg. destruct (vw_group0 _ _ Eg) as (N1 & N2 & Hm). split_and!; [done | done |].
    intros pid. rewrite Hm. split.
    + intros (c & (c' & E & (_ & H2 & _))%Hforth & <-). by exists c'.
    + intros (c' & (c & E & (_ & H2 & _) & _)%Hback & <-). by exists c.
  - intros i Hi. destruct (vw_init0 i Hi) as (? & ? & ? & ?). auto.
  - intros Hcl. destruct (vw_unclaimed0 Hcl). auto.
  - intros pid c' (c & E & (_ & _ & H3) & _)%Hback. rewrite H3. eauto.
  - intros t pid E. destruct (vw_owner0 t pid E) as [[c Ec] ?].
    apply Hforth in Ec as (c' & Ec & _). split; [by eexists | done].
  - unfold sealed. by rewrite Hc, Hhs.
  - intros _ pid c' (c & E & _ & ?)%Hback _. by exists c.
Qed.

Lemma evolves_upd_at pid f w :
  (forall p, processes w !! pid = Some p ->
     same_place (core p) (core (f p)) /\ core_le (core p) (core (f p))) ->
  evolves w (upd_proc pid f w).2.
Proof.
  intros Hf Hw. apply evolution_pointwise; [done | done |]. cbn. intros q. rewrite !lookup_fmap.
  destruct (decide (pid = q)) as [<- | Hne].
  - rewrite lookup_alter_eq. destruct (processes w !! pid) as [p |] eqn:E; [| constructor].
    constructor. by apply Hf.
  - rewrite lookup_alter_ne by done. destruct (processes w !! q); constructor.
    split; [done | reflexivity].
Qed.

(** A change of parent or session. *)
Lemma evolves_upd pid f :
  (forall p, c_pid (core (f p)) = c_pid (core p) /\ c_pgid (core (f p)) = c_pgid (core p) /\
     c_threads (core (f p)) = c_threads (core p) /\ c_creds (core (f p)) = c_creds (core p) /\
     c_gone (core (f p)) = c_gone (core p)) ->
  within evolves (upd_proc pid f).
Proof.
  intros Hf w. apply evolves_upd_at. intros p _. destruct (Hf p) as (H1 & H2 & H3 & H4 & H5).
  split; [done |]. destruct (reflexivity (R := core_le) (core p)).
  split; unfold uids, gids, nss in *; rewrite ?H4, ?H5; auto.
Qed.

Lemma evolves_set_status pid st p w :
  processes w !! pid = Some p -> gone_le (gone_status p) (if is_gone st then Some st else None) ->
  evolves w (upd_proc pid (set_p_status st) w).2.
Proof.
  intros Hp Hg. apply evolves_upd_at. intros p' Hp'. rewrite Hp in Hp'. injection Hp' as <-.
  split; [done |]. destruct (reflexivity (R := core_le) (core p)). by split.
Qed.

(** ** Groups *)

Lemma lookup_leave_group pid old gs i :
  leave_group pid old gs !! i =
    if decide (i = old)
    then g ← gs !! old; match without pid g with [] => None | g' => Some g' end
    else gs !! i.
Proof.
  unfold leave_group. destruct (gs !! old) as [g |] eqn:E; cbn.
  - destruct (without pid g) eqn:Ew; cbn; case_decide as Hd; subst.
    + by rewrite lookup_delete_eq.
    + by rewrite lookup_delete_ne.
    + by rewrite lookup_insert_eq.
    + by rewrite lookup_insert_ne.
  - case_decide; [by subst | done].
Qed.

Lemma elem_of_without q pid g : q ∈ without pid g <-> q <> pid /\ q ∈ g.
Proof. unfold without. by rewrite list_elem_of_filter. Qed.

Lemma NoDup_without pid g : NoDup g -> NoDup (without pid g).
Proof. apply NoDup_filter. Qed.

(** The group of [pid] after it has left [old]. *)
Lemma leave_group_spec v pid c gid g :
  view_wf v -> v_procs v !! pid = Some c ->
  leave_group pid (c_pgid c) (v_groups v) !! gid = Some g ->
  g <> [] /\ NoDup g /\
  forall q, q ∈ g <-> q <> pid /\ exists cq, v_procs v !! q = Some cq /\ c_pgid cq = gid.
Proof.
  intros Hw Hc. rewrite lookup_leave_group. case_decide as Hd.
  - subst gid. destruct (v_groups v !! c_pgid c) as [g0 |] eqn:E; [| done]. cbn.
    destruct (vw_group _ Hw _ _ E) as (_ & Hnd & Hm).
    destruct (without pid g0) as [| x l] eqn:Ew; [done |]. intros [= <-]. rewrite <- Ew.
    split; [by rewrite Ew |]. split; [by apply NoDup_without |].
    intros q. by rewrite elem_of_without, Hm.
  - intros E. destruct (vw_group _ Hw _ _ E) as (Hne & Hnd & Hm). split_and!; [done | done |].
    intros q. rewrite Hm. split; [| tauto]. intros (cq & Eq & <-). split; [| by exists cq].
    intros ->. congruence.
Qed.

Lemma leave_group_keeps v pid c q cq :
  view_wf v -> v_procs v !! pid = Some c -> v_procs v !! q = Some cq -> q <> pid ->
  is_Some (leave_group pid (c_pgid c) (v_groups v) !! c_pgid cq).
Proof.
  intros Hw Hc Hq Hne. rewrite lookup_leave_group.
  destruct (vw_grouped _ Hw _ _ Hq) as [g Hg]. case_decide as Hd; [| by exists g].
  rewrite <- Hd, Hg. cbn. destruct (without pid g) as [| x l] eqn:Ew; [| by eexists].
  exfalso. apply (elem_of_nil q). rewrite <- Ew, elem_of_without. split; [done |].
  destruct (vw_group _ Hw _ _ Hg) as (_ & _ & Hm). apply Hm. by exists cq.
Qed.

Definition with_pgid (g : Z) (c : Core) : Core :=
  {| c_threads := c_threads c; c_pid := c_pid c; c_ppid := c_ppid c; c_pgid := g; c_sid := c_sid c;
     c_creds := c_creds c; c_gone := c_gone c |}.

(** Joining another group. *)
Lemma evolution_move v v' pid c new :
  view_wf v -> v_procs v !! pid = Some c -> c_pgid c <> new ->
  v_procs v' = <[pid := with_pgid new c]> (v_procs v) ->
  v_groups v' = (let gs := leave_group pid (c_pgid c) (v_groups v) in
                 <[new := default [] (gs !! new) ++ [pid]]> gs) ->
  v_claimed v' = v_claimed v -> v_next_id v' = v_next_id v -> v_heap v' = v_heap v ->
  v_next_thread v' = v_next_thread v -> v_handles v' = v_handles v ->
  evolution v v'.
Proof.
  intros Hw Hc Hold Hp Hg Hcl Hn Hh Ht Hhs. cbn in Hg.
  assert (v_procs v <> ∅) as Hne by (intros E; rewrite E in Hc; done).
  split; [split | lia | |]; rewrite ?Hp, ?Hg, ?Hcl, ?Hn, ?Hh, ?Ht, ?Hhs; try apply Hw.
  - intros q cq [[<- <-] | [? E]]%lookup_insert_Some; cbn; by eapply vw_pid.
  - intros q cq [[<- <-] | [Hq E]]%lookup_insert_Some; cbn; [rewrite lookup_insert_eq; by eexists |].
    destruct (decide (c_pgid cq = new)) as [-> | Hd]; [rewrite lookup_insert_eq; by eexists |].
    rewrite lookup_insert_ne by done. by eapply leave_group_keeps.
  - intros gid g [[<- <-] | [Hd E]]%lookup_insert_Some.
    + split; [by destruct (default [] _) |].
      assert (NoDup (default [] (leave_group pid (c_pgid c) (v_groups v) !! new)) /\ forall q,
        q ∈ default [] (leave_group pid (c_pgid c) (v_groups v) !! new) <->
        q <> pid /\ exists cq, v_procs v !! q = Some cq /\ c_pgid cq = new) as [Hnd Hm].
      { destruct (leave_group pid (c_pgid c) (v_groups v) !! new) as [g |] eqn:E; cbn.
        - by eapply leave_group_spec.
        - split; [constructor |]. intros q. split; [set_solver |]. intros (Hq & cq & Eq & <-).
          destruct (leave_group_keeps v pid c q cq) as [x Ex]; [done.. |]. congruence. }
      split.
      * apply NoDup_app. split_and!; [done | | apply NoDup_singleton]. intros q Hq%Hm. set_solver.
      * intros q. rewrite elem_of_app, Hm, list_elem_of_singleton. split.
        -- intros [(Hq & cq & Eq & <-) | ->]; [exists cq; by rewrite lookup_insert_ne |].
           exists (with_pgid new c). by rewrite lookup_insert_eq.
        -- intros (cq & [[<- <-] | [Hq E]]%lookup_insert_Some & <-); [by right |]. left. eauto.
    + destruct (leave_group_spec v pid c gid g) as (H1 & H2 & Hm); [done.. |].
      split_and!; [done | done |]. intros q. rewrite Hm. split.
      * intros (Hq & cq & Eq & <-). exists cq. by rewrite lookup_insert_ne.
      * intros (cq & [[<- <-] | [Hq E']]%lookup_insert_Some & Hgid); [by cbn in Hgid |]. eauto.
  - intros i Hi. destruct (vw_init _ Hw i Hi) as (_ & Hx & _). done.
  - intros Hx. destruct (vw_unclaimed _ Hw Hx). done.
  - intros q cq [[<- <-] | [? E]]%lookup_insert_Some; cbn; by eapply vw_threads.
  - intros t q E. destruct (vw_owner _ Hw t q E) as [[cq Eq] ?]. split; [| done].
    destruct (decide (pid = q)) as [<- | Hd]; [rewrite lookup_insert_eq; by eexists |].
    rewrite lookup_insert_ne by done. by eexists.
  - unfold sealed. by rewrite Hcl, Hhs.
  - intros _ q cq [[<- <-] | [? E]]%lookup_insert_Some _; [| by exists cq]. exists c. split; [done |].
    destruct (reflexivity (R := core_le) c). by split.
Qed.
End changes.

Section views.
Context {TG : Target} {SC : Syscall} {AB : SchemeAbi} {PA : ProcAbi} {SL : Slab} {BT : BTree}
  {HO : HashOrder} {KN : Kernel}.

(** A process without threads is reaped. *)
Lemma evolution_reap v v' pid c :
  view_wf v -> v_procs v !! pid = Some c -> c_threads c = [] ->
  v_procs v' = delete pid (v_procs v) -> v_groups v' = leave_group pid (c_pgid c) (v_groups v) ->
  v_claimed v' = v_claimed v -> v_next_id v' = v_next_id v -> v_heap v' = v_heap v ->
  v_next_thread v' = v_next_thread v -> v_handles v' = v_handles v ->
  evolution v v'.
Proof.
  intros Hw Hc Hnt Hp Hg Hcl Hn Hh Ht Hhs.
  assert (v_procs v <> ∅) as Hne by (intros E; rewrite E in Hc; done).
  split; [split | lia | |]; rewrite ?Hp, ?Hg, ?Hcl, ?Hn, ?Hh, ?Ht, ?Hhs; try apply Hw.
  - intros q cq [? E]%lookup_delete_Some. by eapply vw_pid.
  - intros q cq [? E]%lookup_delete_Some. by eapply leave_group_keeps.
  - intros gid g E. destruct (leave_group_spec v pid c gid g) as (H1 & H2 & Hm); [done.. |].
    split_and!; [done | done |]. intros q. rewrite Hm. setoid_rewrite lookup_delete_Some. naive_solver.
  - intros i Hi. destruct (vw_init _ Hw i Hi) as (_ & Hx & _). done.
  - intros Hx. destruct (vw_unclaimed _ Hw Hx). done.
  - intros q cq [? E]%lookup_delete_Some. by eapply vw_threads.
  - intros t q E. destruct (vw_owner _ Hw t q E) as [[cq Eq] ?]. split; [| done].
    exists cq. apply lookup_delete_Some. split; [| done]. intros <-.
    destruct (vw_threads _ Hw _ _ Eq) as [_ Hm]. apply Hm in E. simplify_eq. rewrite Hnt in E. set_solver.
  - unfold sealed. by rewrite Hcl, Hhs.
  - intros _ q cq [? E]%lookup_delete_Some _. by exists cq.
Qed.

(** A process [child] with one new thread [t] joins the group of [c]. *)
Lemma evolution_fork v v' parent c child cc t :
  view_wf v -> v_procs v !! parent = Some c -> child = v_next_id v -> t = v_next_thread v ->
  c_pid cc = child -> c_pgid cc = c_pgid c -> c_threads cc = [t] ->
  v_procs v' = <[child := cc]> (v_procs v) ->
  v_groups v' = alter (fun g => g ++ [child]) (c_pgid c) (v_groups v) ->
  v_claimed v' = v_claimed v -> v_next_id v' = v_next_id v + 1 ->
  v_heap v' = <[t := child]> (v_heap v) -> v_next_thread v' = v_next_thread v + 1 ->
  v_handles v' = v_handles v ->
  evolution v v'.
Proof.
  intros Hw Hc Hch Htt Hcp Hcg Hct Hp Hg Hcl Hn Hh Ht Hhs.
  assert (v_procs v <> ∅) as Hne by (intros E; rewrite E in Hc; done).
  assert (v_procs v !! child = None) as Hnone.
  { destruct (v_procs v !! child) eqn:E; [| done]. apply (vw_pid _ Hw) in E. lia. }
  assert (forall q, v_heap v !! t = Some q -> False) as Hfresh.
  { intros q E. apply (vw_owner _ Hw) in E. lia. }
  split; [split | lia | |]; rewrite ?Hp, ?Hg, ?Hcl, ?Hn, ?Hh, ?Ht, ?Hhs.
  - pose proof (vw_next _ Hw). lia.
  - pose proof (vw_next _ Hw).
    intros q cq [[<- <-] | [? E]]%lookup_insert_Some; [lia |]. apply (vw_pid _ Hw) in E. lia.
  - intros q cq [[<- <-] | [? E]]%lookup_insert_Some; apply lookup_alter_is_Some.
    + rewrite Hcg. by eapply vw_grouped.
    + by eapply vw_grouped.
  - intros gid g. rewrite lookup_alter. case_decide as Hd.
    + subst gid. intros (g0 & E & ->)%fmap_Some.
      destruct (vw_group _ Hw _ _ E) as (H1 & H2 & Hm). split; [by destruct g0 |]. split.
      * apply NoDup_app. split_and!; [done | | apply NoDup_singleton].
        intros q (cq & Eq & _)%Hm ->%list_elem_of_singleton. congruence.
      * intros q. rewrite elem_of_app, Hm, list_elem_of_singleton. split.
        -- intros [(cq & Eq & <-) | ->]; [exists cq; split; [| done]; apply lookup_insert_Some; right; split; [congruence | done] |].
           exists cc. by rewrite lookup_insert_eq.
        -- intros (cq & [[<- <-] | [Hq E']]%lookup_insert_Some & Hgid); [by right |]. left. eauto.
    + intros E. destruct (vw_group _ Hw _ _ E) as (H1 & H2 & Hm). split_and!; [done | done |].
      intros q. rewrite Hm. split.
      * intros (cq & Eq & <-). exists cq. split; [| done]. apply lookup_insert_Some. right. split; [congruence | done].
      * intros (cq & [[<- <-] | [Hq E']]%lookup_insert_Some & Hgid); [congruence |]. eauto.
  - intros i Hi. destruct (vw_init _ Hw i Hi) as (_ & Hx & _). done.
  - intros Hx. destruct (vw_unclaimed _ Hw Hx). done.
  - intros q cq [[<- <-] | [? E]]%lookup_insert_Some.
    + rewrite Hct. split; [apply NoDup_singleton |]. intros x.
      rewrite list_elem_of_singleton, lookup_insert_Some. split; [by intros ->; left |].
      intros [[-> _] | [_ E]]; [done |]. apply (vw_owner _ Hw) in E as [[? ?] _]. congruence.
    + destruct (vw_threads _ Hw _ _ E) as [H1 Hm]. split; [done |]. intros x. rewrite Hm.
      rewrite lookup_insert_Some. split.
      * intros Ex. right. split; [| done]. intros <-. by eapply Hfresh.
      * intros [[_ ->] | [_ ?]]; [congruence | done].
  - intros x q [[<- <-] | [? E]]%lookup_insert_Some; [rewrite lookup_insert_eq; split; [by eexists | lia] |].
    apply (vw_owner _ Hw) in E as [[cq Eq] ?]. split; [| lia]. exists cq. apply lookup_insert_Some.
    right. split; [congruence | done].
  - unfold sealed. by rewrite Hcl, Hhs.
  - intros _ q cq [[<- <-] | [? E]]%lookup_insert_Some Hlt; [lia |]. by exists cq.
Qed.

Definition with_threads (ts : list Z) (c : Core) : Core :=
  {| c_threads := ts; c_pid := c_pid c; c_ppid := c_ppid c; c_pgid := c_pgid c; c_sid := c_sid c;
     c_creds := c_creds c; c_gone := c_gone c |}.

(** The threads of [pid] and the store change together. *)
Lemma evolution_threads v v' pid c ts :
  view_wf v -> v_procs v !! pid = Some c ->
  v_procs v' = <[pid := with_threads ts c]> (v_procs v) ->
  v_groups v' = v_groups v -> v_claimed v' = v_claimed v -> v_next_id v' = v_next_id v ->
  v_handles v' = v_handles v ->
  NoDup ts -> (forall t, t ∈ ts <-> v_heap v' !! t = Some pid) ->
  (forall t q, q <> pid -> v_heap v' !! t = Some q <-> v_heap v !! t = Some q) ->
  (forall t q, v_heap v' !! t = Some q -> t < v_next_thread v') ->
  evolution v v'.
Proof.
  intros Hw Hc Hp Hg Hcl Hn Hhs Hnd Hts Hoth Hlt.
  assert (v_procs v <> ∅) as Hne by (intros E; rewrite E in Hc; done).
  assert (forall q cq, <[pid := with_threads ts c]> (v_procs v) !! q = Some cq ->
    exists cq', v_procs v !! q = Some cq' /\ c_pid cq = c_pid cq' /\ c_pgid cq = c_pgid cq' /\ core_le cq' cq)
    as Hback.
  { intros q cq [[<- <-] | [? E]]%lookup_insert_Some; [| by exists cq]. exists c. split_and!; [done.. |].
    destruct (reflexivity (R := core_le) c). by split. }
  assert (forall q, is_Some (v_procs v !! q) -> is_Some (<[pid := with_threads ts c]> (v_procs v) !! q)) as Hforth.
  { intros q ?. apply lookup_insert_is_Some. destruct (decide (pid = q)); [by left | by right]. }
  split; [split | lia | |]; rewrite ?Hp, ?Hg, ?Hcl, ?Hn, ?Hhs; try apply Hw.
  - intros q cq (c' & E & -> & _)%Hback. by eapply vw_pid.
  - intros q cq (c' & E & _ & -> & _)%Hback. by eapply vw_grouped.
  - intros gid g E. destruct (vw_group _ Hw _ _ E) as (H1 & H2 & Hm). split_and!; [done | done |].
    intros q. rewrite Hm. split.
    + intros (cq & Eq & <-). destruct (decide (pid = q)) as [<- | Hd].
      * exists (with_threads ts c). rewrite lookup_insert_eq. split; [done |]. cbn. congruence.
      * exists cq. by rewrite lookup_insert_ne.
    + intros (cq & (c' & E' & _ & H3 & _)%Hback & <-). exists c'. by split.
  - intros i Hi. destruct (vw_init _ Hw i Hi) as (_ & Hx & _). done.
  - intros Hx. destruct (vw_unclaimed _ Hw Hx). done.
  - intros q cq [[<- <-] | [Hd E]]%lookup_insert_Some; [by split |].
    destruct (vw_threads _ Hw _ _ E) as [H1 Hm]. split; [done |]. intros t. rewrite Hm.
    symmetry. by apply Hoth.
  - intros t q E. split; [| by eapply Hlt]. apply Hforth. destruct (decide (q = pid)) as [-> | Hd]; [by exists c |].
    apply Hoth in E; [| done]. by apply (vw_owner _ Hw) in E as [? _].
  - unfold sealed. by rewrite Hcl, Hhs.
  - intros _ q cq (c' & E & _ & _ & ?)%Hback _. by exists c'.
Qed.

(** The init process, the first of all. *)
Lemma evolution_init v v' i cc t :
  view_wf v -> slab_get i (v_handles v) = Some HInit -> t = v_next_thread v ->
  c_pid cc = INIT_PID -> c_pgid cc = INIT_PID -> c_threads cc = [t] ->
  v_procs v' = <[INIT_PID := cc]> (v_procs v) -> v_groups v' = <[INIT_PID := [INIT_PID]]> (v_groups v) ->
  v_claimed v' = v_claimed v -> v_next_id v' = v_next_id v ->
  v_heap v' = <[t := INIT_PID]> (v_heap v) -> v_next_thread v' = v_next_thread v + 1 ->
  v_handles v' = slab_set i (HProc INIT_PID) (v_handles v) ->
  evolution v v'.
Proof.
  intros Hw Hi Htt Hcp Hcg Hct Hp Hg Hcl Hn Hh Ht Hhs.
  destruct (vw_init _ Hw i Hi) as (Hc & Hpe & Hge & Huniq).
  assert (v_heap v = ∅) as Hhe.
  { apply map_eq. intros x. rewrite lookup_empty. destruct (v_heap v !! x) eqn:E; [| done].
    apply (vw_owner _ Hw) in E as [[? E] _]. rewrite Hpe in E. done. }
  rewrite Hpe in Hp. rewrite Hge in Hg. rewrite Hhe in Hh. rewrite !insert_empty in *.
  assert (forall j, slab_get j (v_handles v') <> Some HInit) as Hno.
  { intros j. rewrite Hhs, (slab_get_set _ _ _ i j HInit Hi). case_decide as Hd; [done |].
    intros Hj. by apply Hd, eq_sym, Huniq. }
  pose proof (vw_next _ Hw). split; [split | lia | |]; rewrite ?Hp, ?Hg, ?Hcl, ?Hn, ?Hh, ?Ht; try done.
  - intros q cq [<- <-]%lookup_singleton_Some. unfold INIT_PID in *. lia.
  - intros q cq [<- <-]%lookup_singleton_Some. rewrite Hcg, lookup_singleton_eq. by eexists.
  - intros gid g [<- <-]%lookup_singleton_Some. split_and!; [done | apply NoDup_singleton |].
    intros q. rewrite list_elem_of_singleton. setoid_rewrite lookup_singleton_Some. naive_solver.
  - intros j Hj. by apply Hno in Hj.
  - intros Hx. congruence.
  - intros q cq [<- <-]%lookup_singleton_Some. rewrite Hct. split; [apply NoDup_singleton |].
    intros x. rewrite list_elem_of_singleton, lookup_singleton_Some. naive_solver.
  - intros x q [<- <-]%lookup_singleton_Some. rewrite lookup_singleton_eq. split; [by eexists | lia].
  - intros _. split; [congruence | done].
  - intros [_ Hs]. by apply Hs in Hi.
Qed.
End views.

(** The equations of the fields of two views. *)
Ltac view_eqs H :=
  let E := fresh "E" in
  pose proof (conj (f_equal v_procs H) (conj (f_equal v_groups H) (conj (f_equal v_handles H)
    (conj (f_equal v_claimed H) (conj (f_equal v_next_id H) (conj (f_equal v_heap H)
    (f_equal v_next_thread H))))))) as E;
  clear H; cbn in E; destruct E as (? & ? & ? & ? & ? & ? & ?).

Section operations.
Context {TG : Target} {SC : Syscall} {AB : SchemeAbi} {PA : ProcAbi} {SL : Slab} {BT : BTree}
  {HO : HashOrder} {KN : Kernel}.

(** A soft step of a [wp] proof. *)
Lemma wp_soft {A} (m : M World A) Q w :
  within soft m -> (forall o w', view_of w' = view_of w -> Q o w') -> wp m Q w.
Proof. intros Hm HQ. apply HQ. symmetry. apply Hm. Qed.

Lemma wp_evolves {A} (m : M World A) w : wp m (fun _ => evolves w) w -> evolves w (m w).2.
Proof. done. Qed.

(** ** Creation *)

Lemma sync_no_panic p pid t th w :
  threads p = [t] -> thread_heap w !! t = Some th -> (sync_kernel_attrs p pid w).1 <> Panic.
Proof.
  intros Ht Hth. unfold sync_kernel_attrs. rewrite Ht. cbn [mapM_].
  unfold own_thread, dup, write_attrs, kernel, mbind, M_bind, gets, unwrap. cbn. rewrite Hth. cbn.
  destruct (ask _ _); cbn; [| done]. by destruct (ask _ _).
Qed.

Lemma evolution_next_id v v' n :
  view_wf v -> v_next_id v <= n -> v_procs v' = v_procs v -> v_groups v' = v_groups v ->
  v_claimed v' = v_claimed v -> v_next_id v' = n -> v_heap v' = v_heap v ->
  v_next_thread v' = v_next_thread v -> v_handles v' = v_handles v -> evolution v v'.
Proof.
  intros Hw Hle Hp Hg Hc Hn Hh Ht Hs. pose proof (vw_next _ Hw).
  split; [split | lia | |]; rewrite ?Hp, ?Hg, ?Hc, ?Hn, ?Hh, ?Ht, ?Hs; try apply Hw; try lia.
  - intros pid c E. apply (vw_pid _ Hw) in E. lia.
  - unfold sealed. by rewrite Hc, Hs.
  - intros _ pid c Hcc _. by exists c.
Qed.

(** The end of [fork], after the kernel has made the context. *)
Lemma evolves_fork_tail w w1 parent p p' th child :
  proc_wf w -> processes w !! parent = Some p -> child = next_id w -> t_pid th = child ->
  view_of w1 = view_of (set_next_id (child + 1) w) ->
  (forall t, threads (p' t) = [t] /\ p_pid (p' t) = child /\ pgid (p' t) = pgid p) ->
  wp (thread ← new_rc_thread th;
      _ ← attempt (sync_kernel_attrs (p' thread) child);
      modify (fun w => set_groups (alter (fun g => g ++ [child]) (pgid p) (groups w)) w);;
      modify (fun w => set_processes (<[child := p' thread]> (processes w)) w);;
      modify (fun w => set_thread_lookup (<[t_fd th := thread]> (thread_lookup w)) w);;
      mret child) (fun _ => evolves w) w1.
Proof.
  intros Hw Hp Hch Htp Hv Hp'. apply wp_bind. unfold new_rc_thread. wp_run.
  set (t := next_thread w1). set (w2 := set_next_thread (t + 1) _).
  destruct (Hp' t) as (Hth & Hpid & Hpg).
  pose proof (sync_no_panic (p' t) child t th w2 Hth (lookup_insert_eq _ _ _)) as Hnp.
  pose proof (soft_sync_attrs (p' t) child w2) as Hs.
  apply wp_intro. unfold attempt. destruct (sync_kernel_attrs (p' t) child w2) as [[r | e |] w3];
    [| | by cbn in Hnp]; cbn [fst snd] in *; (wp_run; intros _);
    (eapply (evolution_fork (view_of w) _ parent (core p) child (core (p' t)) t));
    try done; destruct Hs as [Hs _]; subst w2 t; view_eqs Hv; view_eqs Hs; rewrite ?fmap_insert in *; cbn;
    rewrite ?lookup_fmap, ?Hp, ?fmap_insert; try done; congruence.
Qed.

Lemma evolves_view w w1 w2 : evolves w w1 -> view_of w2 = view_of w1 -> evolves w w2.
Proof. intros H E Hw. rewrite E. by apply H. Qed.

(** A soft call in a computation whose exits must keep [evolves w]. *)
Lemma wp_soft_then {A B} (m : M World A) (k : A -> M World B) w w0 w1 :
  within soft m -> evolves w w0 -> view_of w1 = view_of w0 ->
  (forall a w2, view_of w2 = view_of w0 -> wp (k a) (fun _ => evolves w) w2) ->
  wp m (fun o s' => match o with
                    | Ok a => wp (k a) (fun _ => evolves w) s'
                    | Err _ => evolves w s'
                    | Panic => evolves w s'
                    end) w1.
Proof.
  intros Hm He Hv Hk. apply wp_soft; [done |]. intros [a | e |] w2 H2.
  - apply Hk. congruence.
  - eapply evolves_view; [exact He | congruence].
  - eapply evolves_view; [exact He | congruence].
Qed.

Lemma wp_soft_bind {A B} (m : M World A) (k : A -> M World B) w w0 w1 :
  within soft m -> evolves w w0 -> view_of w1 = view_of w0 ->
  (forall a w2, view_of w2 = view_of w0 -> wp (k a) (fun _ => evolves w) w2) ->
  wp (m ≫= k) (fun _ => evolves w) w1.
Proof. intros. apply wp_bind. by eapply wp_soft_then. Qed.

Lemma evolves_fork pid w : next_id w + 1 < usize_mod -> evolves w (fork pid w).2.
Proof.
  intros Hn Hw. apply (wp_evolves (fork pid) w); [| done]. unfold fork, new_id, get_proc.
  pose proof (vw_next _ Hw) as Hge. cbn in Hge. unfold usize_mod in Hn.
  assert (evolves w (set_next_id (next_id w + 1) w)) as He.
  { intros _. by apply (evolution_next_id _ _ (next_id w + 1)); [| cbn; lia | ..]. }
  wp_run; try lia. rename a into p.
  eapply (wp_soft_then _ _ w _ _ (soft_dup _ _) He); [done |]. intros fd w2 H2.
  eapply (wp_soft_bind _ _ w _ _ (soft_dup _ _) He); [done |]. intros st w3 H3.
  eapply (wp_soft_bind _ _ w _ _); [apply within_expect, soft_subscribe | exact He | done |].
  intros [] w4 H4.
  apply (evolves_fork_tail w w4 pid p
    (fun t => new_process t (next_id w) pid (pgid p) (sid p) (ruid p) (euid p) (suid p) (rgid p) (egid p)
                (sgid p) (rns p) (ens p) (name p))
    {| t_fd := fd; status_hndl := st; t_pid := next_id w; sig_ctrl := None |} (next_id w)); done.
Qed.

Lemma core_lookup w w' pid p :
  view_of w' = view_of w -> processes w !! pid = Some p ->
  exists p', processes w' !! pid = Some p' /\ core p' = core p.
Proof.
  intros Hv Hp. pose proof (f_equal v_procs Hv) as E. cbn in E.
  assert ((core <$> processes w') !! pid = Some (core p)) as H by (by rewrite E, lookup_fmap, Hp).
  rewrite lookup_fmap in H. destruct (processes w' !! pid) as [p' |]; [| done]. exists p'. cbn in H. split; congruence.
Qed.

Lemma core_with_threads p ts : core (set_threads ts p) = with_threads ts (core p).
Proof. done. Qed.

Lemma fmap_alter_core f pid p (ps : gmap Z Process) :
  ps !! pid = Some p -> core <$> alter f pid ps = <[pid := core (f p)]> (core <$> ps).
Proof.
  intros Hp. apply map_eq. intros i. rewrite lookup_fmap. destruct (decide (pid = i)) as [<- | Hne].
  - by rewrite lookup_alter_eq, lookup_insert_eq, Hp.
  - by rewrite lookup_alter_ne, lookup_insert_ne, lookup_fmap by done.
Qed.

Lemma evolves_new_thread_tail w w1 pid p th :
  proc_wf w -> processes w !! pid = Some p -> t_pid th = pid -> view_of w1 = view_of w ->
  wp (thread ← new_rc_thread th;
      upd_proc pid (fun p => set_threads (threads p ++ [thread]) p);;
      modify (fun w => set_thread_lookup (<[t_fd th := thread]> (thread_lookup w)) w);;
      mret thread) (fun _ => evolves w) w1.
Proof.
  intros Hw Hp Ht Hv. destruct (core_lookup _ _ _ _ Hv Hp) as (p1 & Hp1 & Hc).
  apply wp_bind. unfold new_rc_thread, upd_proc. wp_run. intros _. view_eqs Hv.
  destruct (vw_threads _ Hw pid (core p)) as [Hnd Hm]; [cbn; by rewrite lookup_fmap, Hp |]. cbn in Hm.
  assert (forall q, t_pid <$> thread_heap w1 !! next_thread w1 <> Some q) as Hfresh.
  { intros q E. rewrite <- lookup_fmap, H4 in E. apply (vw_owner _ Hw) in E as [_ E]. cbn in E. lia. }
  apply (evolution_threads _ _ pid (core p) (threads p ++ [next_thread w1])); cbn; try done.
  - by rewrite lookup_fmap, Hp.
  - rewrite (fmap_alter_core _ _ p1) by done. rewrite core_with_threads, Hc, H.
    pose proof (f_equal c_threads Hc) as E. cbn in E. by rewrite E.
  - apply NoDup_app. split_and!; [done | | apply NoDup_singleton]. intros x Hx%Hm ->%list_elem_of_singleton.
    by apply (Hfresh pid); rewrite <- lookup_fmap, H4.
  - intros x. rewrite elem_of_app, list_elem_of_singleton, Hm, fmap_insert, lookup_insert_Some, H4, Ht.
    split; [intros [Hx | ->]; [right; split; [| done] | by left] | naive_solver].
    intros <-. by apply (Hfresh pid); rewrite <- lookup_fmap, H4.
  - intros x q Hq. rewrite fmap_insert, lookup_insert_Some, H4, Ht. split; [naive_solver |].
    intros Hx. right. split; [| done]. intros <-. by apply (Hfresh q); rewrite <- lookup_fmap, H4.
  - intros x q. rewrite fmap_insert, lookup_insert_Some, H4. intros [[<- _] | [_ Hx]]; [lia |].
    apply (vw_owner _ Hw) in Hx as [_ Hx]. cbn in Hx. lia.
Qed.

Lemma evolves_new_thread pid : within evolves (new_thread pid).
Proof.
  intros w Hw. apply (wp_evolves (new_thread pid) w); [| done]. unfold new_thread, get_proc.
  pose proof (reflexivity (R := evolves) w) as He. wp_run. rename a into p.
  eapply (wp_soft_then _ _ w _ _ (soft_dup _ _) He); [done |]. intros fd w2 H2.
  eapply (wp_soft_bind _ _ w _ _ (soft_dup _ _) He); [done |]. intros attr w3 H3.
  eapply (wp_soft_bind _ _ w _ _ (soft_write_attrs _ _ _ _ _ _) He); [done |]. intros [] w4 H4.
  eapply (wp_soft_bind _ _ w _ _ (soft_dup _ _) He); [done |]. intros st w5 H5.
  eapply (wp_soft_bind _ _ w _ _); [apply within_expect, soft_subscribe | exact He | done |].
  intros [] w6 H6.
  by apply (evolves_new_thread_tail w w6 pid p
    {| t_fd := fd; status_hndl := st; t_pid := pid; sig_ctrl := None |}).
Qed.

Lemma evolves_on_dup id buf w : next_id w + 1 < usize_mod -> evolves w (on_dup id buf w).2.
Proof.
  intros Hn. unfold on_dup. unfold handle_at at 1.
  unfold mbind at 1, M_bind at 1. rewrite gets_bind. destruct (slab_get id (handles w)) as [h |]; [| done].
  cbn [unwrap mret M_ret]. destruct h as [| pid | t | data |]; cbn beta iota; try done.
  - case_bool_decide; [apply (within_bind_at evolves); [by apply evolves_fork | intros ?; within] |].
    pose proof (evolves_new_thread pid).
    match goal with |- evolves ?w (?m ?w).2 => enough (within evolves m) as E by apply E end.
    within; unfold get_proc; within.
  - match goal with |- evolves ?w (?m ?w).2 => enough (within evolves m) as E by apply E end.
    unfold upgrade. within.
Qed.
End operations.

#[export] Hint Resolve evolves_new_thread : within.
