(* ===== verification/ProcFacts.v ===== *)
(** * The process manager: the invariant along requests and events

    Every request, thread event and pass of the main loop evolves the world
    ([evolves] of [ProcEvolve.v]).

    A run is any sequence of requests, thread events and passes of the main
    loop, between which the processes change their signal pages and memory at
    will.  The theorems hold in every state of every run, whatever the kernel
    answers. *)

From stdpp Require Import base gmap strings list fin_maps.
From Stdlib Require Import ZArith Lia.
From S2P Require Import Prelude Memory Syscall SchemeApi ProcTypes Procmgr ProcSignal ProcExit ProcServer.
From S2P Require Import ProcFrame ProcEvolve.

Local Open Scope Z_scope.

Section requests.
Context {TG : Target} {SC : Syscall} {AB : SchemeAbi} {PA : ProcAbi} {SL : Slab} {BT : BTree}
  {HO : HashOrder} {KN : Kernel}.

Lemma evolves_on_sendfd req : within evolves (on_sendfd req).
Proof.
  intros w Hw. apply (wp_evolves (on_sendfd req) w); [| done]. unfold on_sendfd, handle_at.
  pose proof (reflexivity (R := evolves) w) as He. wp_run.
  eapply (wp_soft_then _ _ w _ _); [apply within_attempt, soft_kernel | exact He | done |].
  intros [[fd_out x] | e |] w1 H1; [| wp_run; by eapply evolves_view ..].
  eapply (wp_soft_bind _ _ w _ _); [apply within_expect, soft_subscribe | exact He | done |].
  intros [] w2 H2.
  eapply (wp_soft_bind _ _ w _ _); [apply within_expect, soft_dup | exact He | done |].
  intros st w3 H3. unfold new_rc_thread. wp_run. intros _.
  pose proof H3 as Hv. view_eqs Hv.
  match goal with H : slab_get ?i ?hs = Some HInit |- _ =>
    apply (evolution_init _ _ i
      (core (new_process (next_thread w3) INIT_PID INIT_PID INIT_PID INIT_PID 0 0 0 0 0 0 1 1 "[init]"))
      (next_thread w3)) end; cbn; rewrite ?fmap_insert; try done; cbn; congruence.
Qed.

(** ** Groups and sessions *)

Lemma evolves_set_pgid_of pid parent new : within evolves (set_pgid_of pid parent new).
Proof.
  intros w Hw. apply (wp_evolves (set_pgid_of pid parent new) w); [| done]. unfold set_pgid_of.
  pose proof (reflexivity (R := evolves) w) as He. apply wp_bind, wp_gets.
  destruct (processes w !! pid) as [p |] eqn:Hp; [| exact He]. apply wp_bind, wp_ret.
  destruct (pgid p =? new) eqn:Hne; [exact He |]. apply Z.eqb_neq in Hne.
  eapply (wp_soft_bind _ _ w _ _); [| exact He | done |]; [destruct parent; within |].
  intros [] w1 H1. destruct (core_lookup _ _ _ _ H1 Hp) as (p1 & Hp1 & Hc).
  unfold upd_proc. wp_run; try (by eapply evolves_view). intros _. view_eqs H1.
  apply (evolution_move _ _ pid (core p) new); cbn; try done.
  - by rewrite lookup_fmap, Hp.
  - rewrite (fmap_alter_core _ _ p1) by done.
    change (core (set_pgid new p1)) with (with_pgid new (core p1)). congruence.
  - congruence.
Qed.

Lemma evolves_on_setsid pid : within evolves (on_setsid pid).
Proof.
  unfold on_setsid. pose proof evolves_set_pgid_of.
  within; try (unfold get_proc; within); auto. by apply evolves_upd.
Qed.

Lemma evolves_on_setpgid c t g : within evolves (on_setpgid c t g).
Proof. unfold on_setpgid. pose proof evolves_set_pgid_of. within; auto. Qed.

(** ** Credentials *)

Lemma all_among_sub (new : list (option Z)) old :
  all_among new old = true -> forall i x, new !! i = Some (Some x) -> x ∈ old.
Proof.
  unfold all_among. intros H i x Hi. rewrite forallb_forall in H.
  apply (list_elem_of_lookup_2), list_elem_of_In in Hi. specialize (H _ Hi). cbn in H.
  by apply bool_decide_eq_true in H.
Qed.

Lemma defaults_sub r e s a b c :
  all_among [r; e; s] [a; b; c] = true -> [default a r; default b e; default c s] ⊆ [a; b; c].
Proof.
  intros H. pose proof (all_among_sub _ _ H) as Hs.
  pose proof (Hs 0%nat) as H0. pose proof (Hs 1%nat) as H1. pose proof (Hs 2%nat) as H2. cbn in H0, H1, H2.
  intros x. rewrite !elem_of_cons, elem_of_nil. destruct r, e, s; cbn;
    set_solver.
Qed.

Lemma set_ids_le p r e s rg eg sg :
  negb (euid p =? 0) && negb (all_among [r; e; s] [ruid p; euid p; suid p]) = false ->
  negb (euid p =? 0) && negb (all_among [rg; eg; sg] [rgid p; egid p; sgid p]) = false ->
  core_le (core p) (core (set_ids r e s rg eg sg p)).
Proof.
  intros Hu Hg. destruct (reflexivity (R := core_le) (core p)) as [G _ _ N].
  split; [exact G | | | exact N]; cbn; intros H0;
    (destruct (euid p =? 0) eqn:E; [apply Z.eqb_eq in E; rewrite E in H0; set_solver |]);
    cbn in Hu, Hg; rewrite negb_false_iff in *; by apply defaults_sub.
Qed.

Lemma evolves_on_setresugid pid sl : within evolves (on_setresugid pid sl).
Proof.
  intros w Hw. apply (wp_evolves (on_setresugid pid sl) w); [| done]. unfold on_setresugid, slice_bytes, get_proc.
  pose proof (reflexivity (R := evolves) w) as He. wp_run.
  rename a0 into p. set (f := set_ids _ _ _ _ _ _). apply (evolves_view _ (upd_proc pid f w).2).
  - apply evolves_upd_at. intros p' Hp'. rewrite H0 in Hp'. injection Hp' as <-.
    split; [done |]. by apply set_ids_le.
  - symmetry. apply (within_bind soft); [within |]. intros ?. within.
Qed.

(** ** Namespaces *)

Lemma may_set_ns_zero ns r e eu b n :
  may_set_ns ns 0 r e eu = Some b -> (if b then default n ns else 0) = 0.
Proof.
  unfold may_set_ns. destruct ns as [m |]; [| by intros [= <-]].
  destruct (m =? 0) eqn:E; [| done]. intros [= <-]. cbn. lia.
Qed.

Lemma set_ns_le p a b sr se :
  may_set_ns a (rns p) (rns p) (ens p) (euid p) = Some sr ->
  may_set_ns b (ens p) (rns p) (ens p) (euid p) = Some se ->
  let p1 := if sr then set_rns (default (rns p) a) p else p in
  let p2 := if se then set_ens (default (ens p) b) p1 else p1 in
  same_place (core p) (core p2) /\ core_le (core p) (core p2).
Proof.
  intros Ha Hb p1 p2. split; [by destruct sr, se |]. destruct (reflexivity (R := core_le) (core p)).
  split; [by destruct sr, se | by destruct sr, se | by destruct sr, se |].
  intros [| [| i]]; cbn; [| | done]; intros [= E]; f_equal.
  - rewrite E in Ha. apply (may_set_ns_zero _ _ _ _ _ (rns p)) in Ha. by destruct sr, se; cbn in *.
  - rewrite E in Hb. apply (may_set_ns_zero _ _ _ _ _ (ens p)) in Hb. by destruct sr, se; cbn in *.
Qed.

Lemma evolves_on_setrens pid a b : within evolves (on_setrens pid a b).
Proof.
  intros w Hw. apply (wp_evolves (on_setrens pid a b) w); [| done]. unfold on_setrens, get_proc.
  pose proof (reflexivity (R := evolves) w) as He. wp_run.
  pose proof (set_ns_le _ _ _ _ _ H0 H1) as Hle. cbn zeta in Hle.
  match goal with |- wp (upd_proc pid ?f) _ _ => apply wp_intro; apply (evolves_view _ (upd_proc pid f w).2) end.
  - apply evolves_upd_at. intros p' Hp'. rewrite H in Hp'. by injection Hp' as <-.
  - symmetry. destruct (_ || _); [| done]. apply (within_bind soft); [within |]. intros ?. within.
Qed.

(** ** waitpid *)

Lemma evolves_reap pid : within evolves (reap pid).
Proof.
  intros w. unfold reap. rewrite gets_bind. destruct (processes w !! pid) as [p |] eqn:Hp; [| done].
  destruct (threads p) eqn:Ht; [| done]. rewrite modify_bind. intros Hw.
  apply (evolution_reap _ _ pid (core p)); cbn; try done; [by rewrite lookup_fmap, Hp | by rewrite fmap_delete].
Qed.

Lemma evolves_on_waitpid pid tg fl v : within evolves (on_waitpid pid tg fl v).
Proof.
  pose proof evolves_reap. unfold on_waitpid, drop_status, keep_waiting, grim_reaper. within; auto.
Qed.

(** ** Exit *)

Lemma evolves_states f : within evolves (modify (fun w => set_states (f (states w)) w)).
Proof. intros w Hw. by apply evolution_same. Qed.
Lemma evolves_set_state v st : within evolves (set_state v st).
Proof. apply (evolves_states (fun m => <[v := st]> m)). Qed.
Lemma evolves_remove_state v : within evolves (remove_state v).
Proof. apply (evolves_states (fun m => delete v m)). Qed.

Lemma evolves_reparent q : within evolves (reparent q).
Proof. unfold reparent. within; by apply evolves_upd. Qed.

#[local] Hint Resolve evolves_set_state evolves_remove_state evolves_reparent evolves_on_waitpid : within.

Lemma evolves_notify_exit pid q g sg st : within evolves (notify_exit pid q g sg st).
Proof. unfold notify_exit, orphan_children. within. Qed.
#[local] Hint Resolve evolves_notify_exit : within.

Lemma evolves_answer_or_drop v tag r : within evolves (answer_or_drop v tag r).
Proof. unfold answer_or_drop. within. Qed.
#[local] Hint Resolve evolves_answer_or_drop : within.

(** The rest of a computation after a step at a known world. *)
Lemma evolves_then {A B} (m : M World A) (k : A -> M World B) w :
  evolves w (m w).2 -> (forall a, within evolves (k a)) -> evolves w ((m ≫= k) w).2.
Proof. apply (within_bind_at evolves). Qed.

Lemma evolves_work_on_exit v pid tag : within evolves (work_on_exit v pid tag).
Proof.
  intros w. unfold work_on_exit. rewrite gets_bind.
  destruct (processes w !! pid) as [p |] eqn:Hp; [| apply evolves_answer_or_drop].
  destruct (threads p).
  - destruct (p_status p) as [| | sg st | sg st] eqn:Hs; try apply evolves_answer_or_drop.
    transitivity (remove_state v w).2; [apply evolves_remove_state |].
    unfold remove_state at 2. rewrite modify_bind. apply evolves_then; [| intros ?; within].
    apply (evolves_set_status _ _ p); [done |]. unfold gone_status. rewrite Hs. cbn. by right.
  - match goal with |- evolves ?w (?m ?w).2 => enough (within evolves m) as E by apply E end. within.
Qed.
#[local] Hint Resolve evolves_work_on_exit : within.

Lemma evolves_work_on v : within evolves (work_on v).
Proof. unfold work_on, work_on_wait, put_status. within. Qed.
#[local] Hint Resolve evolves_work_on : within.

Lemma soft_end_threads tag ts : within soft (end_threads tag ts).
Proof. induction ts as [| t ts IH]; cbn [end_threads]; within. Qed.

Lemma evolves_on_exit_start pid st v tag : within evolves (on_exit_start pid st v tag).
Proof.
  intros w. unfold on_exit_start. rewrite gets_bind.
  destruct (processes w !! pid) as [p |] eqn:Hp; [| done].
  pose proof (fun tag ts => within_soft_evolves _ (soft_end_threads tag ts)).
  destruct (p_status p) eqn:Hs; try done; (destruct (decode_status st) as [[st' sg] |]; [| done]);
    (apply evolves_then; [| intros ?; unfold fail_tag; within; auto]);
    (apply (evolves_set_status _ _ p); [done |]); unfold gone_status; by rewrite Hs.
Qed.
#[local] Hint Resolve evolves_on_exit_start : within.

(** ** Threads *)

Lemma evolves_drop_thread fd t pid th w :
  thread_heap w !! t = Some th -> t_pid th = pid -> evolves w (drop_thread fd t pid w).2.
Proof.
  intros Hth Ht Hw. unfold drop_thread, upd_proc. rewrite !modify_bind. cbn [modify snd].
  destruct (vw_owner _ Hw t pid) as [[c Hc] _]; [cbn; rewrite lookup_fmap, Hth; cbn; by rewrite Ht |].
  destruct (vw_threads _ Hw pid c Hc) as [Hnd Hm]. cbn in Hc, Hm. rewrite lookup_fmap in Hc.
  destruct (processes w !! pid) as [p |] eqn:Hp; [| done]. cbn in Hc. injection Hc as <-. cbn in Hnd, Hm.
  apply (evolution_threads _ _ pid (core p) (without t (threads p))); cbn; try done.
  - by rewrite lookup_fmap, Hp.
  - by rewrite (fmap_alter_core _ _ p).
  - by apply NoDup_without.
  - intros x. rewrite elem_of_without, Hm, fmap_delete, lookup_delete_Some. naive_solver.
  - intros x q Hq. rewrite fmap_delete, lookup_delete_Some. split; [tauto |]. intros Hx. split; [| done].
    intros <-. rewrite lookup_fmap, Hth in Hx. cbn in Hx. congruence.
  - intros x q. rewrite fmap_delete. intros [_ Hx]%lookup_delete_Some.
    by apply (vw_owner _ Hw) in Hx as [_ ?].
Qed.

Lemma evolves_thread_died fd t pid st th w :
  thread_heap w !! t = Some th -> t_pid th = pid -> evolves w (thread_died fd t pid st w).2.
Proof.
  intros Hth Ht. unfold thread_died.
  assert (exists r, attempt (unsubscribe fd) w = (Ok r, set_klog (klog w ++ [KSubscribe fd false]) w))
    as [r Hr].
  { unfold attempt, unsubscribe, kernel, mbind, M_bind. destruct (ask _ _); cbn; by eexists. }
  rewrite (bind_run _ _ _ _ _ Hr).
  transitivity (set_klog (klog w ++ [KSubscribe fd false]) w); [by apply same_view_evolves |].
  apply evolves_then; [by apply (evolves_drop_thread _ _ _ th) | intros []; within].
Qed.

Lemma evolves_thread_event fd : within evolves (thread_event fd).
Proof.
  intros w. unfold thread_event. rewrite !gets_bind.
  destruct (thread_lookup w !! fd) as [t |]; [| done]. cbn [mbind option_bind].
  destruct (thread_heap w !! t) as [th |] eqn:Hth; [| done]. cbn.
  destruct (processes w !! t_pid th); [| done].
  unfold expect, kernel, mbind, M_bind. destruct (ask _ _) as [r | e]; cbn.
  - destruct (context_exit r.1); [| by apply same_view_evolves].
    etransitivity; [| by apply (evolves_thread_died _ _ _ _ th)]. by apply same_view_evolves.
  - by apply same_view_evolves.
Qed.

(** ** Requests *)

Lemma evolves_respond tag m : within evolves m -> within evolves (respond tag m).
Proof. intros. unfold respond. within. Qed.
Lemma evolves_respond0 tag m : within evolves m -> within evolves (respond0 tag m).
Proof. intros. apply evolves_respond. within. Qed.
Lemma evolves_ready_err e tag : within evolves (ready_err e tag).
Proof. intros w. apply (reflexivity w). Qed.
Lemma evolves_ready_ok n tag : within evolves (ready_ok n tag).
Proof. intros w. apply (reflexivity w). Qed.
#[local] Hint Resolve evolves_ready_err evolves_ready_ok evolves_respond evolves_respond0 evolves_on_setresugid evolves_on_setrens
  evolves_on_setsid evolves_on_setpgid evolves_on_sendfd : within.

Lemma evolves_proc_call v pid op verb : within evolves (proc_call_on v pid op verb).
Proof.
  unfold proc_call_on, call_wait, call_setpgid, call_kill. within.
  apply evolves_respond0. within.
Qed.
#[local] Hint Resolve evolves_proc_call : within.

Lemma evolves_on_call v op : within evolves (on_call v op).
Proof. unfold on_call, thread_call_on. within. Qed.
#[local] Hint Resolve evolves_on_call : within.

Lemma evolves_cancel id : within evolves (cancel id).
Proof. unfold cancel. within. Qed.

Lemma evolves_handle_op c op w : next_id w + 1 < usize_mod -> evolves w (handle_op c op w).2.
Proof.
  intros Hn. destruct op as [| | | | | fd req buf | | | | | | | | | | | | | | | | | | | |].
  6: { unfold handle_op, slice_bytes. unfold mbind at 1, M_bind at 1. rewrite gets_bind.
       destruct (load _ _ _) as [l |]; [| done]. cbn [unwrap mret M_ret]. unfold open_like.
       apply evolves_then; [| intros ?; within]. rewrite attempt_state. by apply evolves_on_dup. }
  all: match goal with |- evolves ?w (?m ?w).2 => enough (within evolves m) as E by apply E end.
  all: unfold handle_op, open_like; within.
Qed.

Lemma evolves_handle_scheme req w :
  next_id w + 1 < usize_mod -> evolves w (handle_scheme req w).2.
Proof.
  intros Hn. unfold handle_scheme. destruct (kind req) as [r | | | | | | |].
  - unfold lift, mbind, M_bind. destruct (from_sqe_unchecked r) as [[op |] | e |]; try done.
    by apply evolves_handle_op.
  - apply evolves_cancel.
  - apply evolves_then; [apply evolves_on_sendfd | intros ?; within].
  - done.
  - done.
  - done.
  - done.
  - apply evolves_then; [apply evolves_on_close | intros ?; within].
Qed.

Lemma evolves_work_batch ids : within evolves (work_batch ids).
Proof. induction ids as [| v ids IH]; cbn [work_batch]; within. Qed.
#[local] Hint Resolve evolves_work_batch : within.

Lemma evolves_drain fuel : within evolves (drain_awoken fuel).
Proof.
  induction fuel as [| fuel IH]; cbn [drain_awoken]; within.
  apply within_modify. intros w. by apply same_view_evolves.
Qed.
End requests.

Section runs.
Context {TG : Target} {SC : Syscall} {AB : SchemeAbi} {PA : ProcAbi} {SL : Slab} {BT : BTree}
  {HO : HashOrder} {KN : Kernel}.

(** One step.  Requests are taken while the counter of pids is in range. *)
Inductive pstep : relation World :=
| ps_request req w : next_id w + 1 < usize_mod -> pstep w (handle_scheme req w).2
| ps_event fd w : pstep w (thread_event fd w).2
| ps_drain fuel w : pstep w (drain_awoken fuel w).2
| ps_user w pc tc m : pstep w (set_pctls pc (set_tctls tc (set_mem m w))).

Definition reachable (w : World) : Prop := rtc pstep World_new w.

Lemma pstep_evolves w w' : pstep w w' -> evolves w w'.
Proof.
  intros [req w0 Hn | fd w0 | fuel w0 | w0 pc tc m].
  - by apply evolves_handle_scheme.
  - apply evolves_thread_event.
  - apply evolves_drain.
  - by apply same_view_evolves.
Qed.

Lemma steps_evolve w w' : rtc pstep w w' -> evolves w w'.
Proof.
  induction 1 as [w | w w1 w' H _ IH]; [reflexivity |].
  etransitivity; [by apply pstep_evolves | done].
Qed.

Lemma World_new_wf : proc_wf World_new.
Proof.
  split; cbn; try done. intros i. by rewrite slab_get_new.
Qed.

Lemma reachable_wf w : reachable w -> proc_wf w.
Proof. intros Hr. apply (ev_wf _ _ (steps_evolve _ _ Hr World_new_wf)). Qed.

(** C3: in every reachable state the process table is consistent.  A
    process is stored under its own pid, below the counter of pids; the
    process groups are not empty and partition the processes by their pgid,
    without repetition; and the threads of a process are exactly the live
    threads that name it, each once. *)
Theorem procmgr_invariant w :
  reachable w ->
  (forall pid p, processes w !! pid = Some p ->
     p_pid p = pid /\ 0 < pid < next_id w /\
     (exists g, groups w !! pgid p = Some g /\ pid ∈ g) /\
     NoDup (threads p) /\
     forall t, t ∈ threads p <-> exists th, thread_heap w !! t = Some th /\ t_pid th = pid) /\
  (forall gid g, groups w !! gid = Some g ->
     g <> [] /\ NoDup g /\
     forall pid, pid ∈ g <-> exists p, processes w !! pid = Some p /\ pgid p = gid).
Proof.
  intros Hw%reachable_wf.
  assert (forall gid g, groups w !! gid = Some g ->
     g <> [] /\ NoDup g /\ forall pid, pid ∈ g <-> exists p, processes w !! pid = Some p /\ pgid p = gid) as Hg.
  { intros gid g E. destruct (vw_group _ Hw gid g E) as (H1 & H2 & Hm). split_and!; [done | done |].
    intros pid. rewrite Hm. cbn. setoid_rewrite lookup_fmap. setoid_rewrite fmap_Some. naive_solver. }
  split; [| done]. intros pid p Hp.
  assert (v_procs (view_of w) !! pid = Some (core p)) as Hc by (cbn; by rewrite lookup_fmap, Hp).
  destruct (vw_pid _ Hw _ _ Hc) as [H1 H2]. destruct (vw_grouped _ Hw _ _ Hc) as [g H3].
  destruct (vw_threads _ Hw _ _ Hc) as [H4 H5]. cbn in *. split_and!; try done; try lia.
  - exists g. split; [done |]. apply (Hg _ _ H3). eauto.
  - intros t. rewrite H5, lookup_fmap, fmap_Some. naive_solver.
Qed.

(** ** How a process changes along a run *)

Lemma process_sealed w pid p : proc_wf w -> processes w !! pid = Some p -> sealed (view_of w).
Proof.
  intros Hw Hp. assert (v_procs (view_of w) <> ∅) as Hne.
  { cbn. intros E%fmap_empty_iff. by rewrite E in Hp. }
  split.
  - destruct (v_claimed (view_of w)) eqn:E; [done |]. by destruct (vw_unclaimed _ Hw E).
  - intros i Hi. by destruct (vw_init _ Hw i Hi) as (_ & ? & _).
Qed.

Lemma process_evolves w w' pid p p' :
  reachable w -> rtc pstep w w' -> processes w !! pid = Some p -> processes w' !! pid = Some p' ->
  core_le (core p) (core p').
Proof.
  intros Hw%reachable_wf Hs Hp Hp'. pose proof (process_sealed _ _ _ Hw Hp) as Hse.
  destruct (steps_evolve _ _ Hs Hw) as [_ _ _ Hev].
  destruct (vw_pid _ Hw pid (core p)) as [_ Hlt]; [cbn; by rewrite lookup_fmap, Hp |].
  destruct (Hev Hse pid (core p')) as (c & Hc & Hle); [cbn; by rewrite lookup_fmap, Hp' | lia |].
  cbn in Hc. rewrite lookup_fmap, Hp in Hc. cbn in Hc. by injection Hc as <-.
Qed.

(** C4: no privilege escalation.  A process none of whose user ids is root
    never gets a user or group id that it did not hold: whatever requests are
    made, on whichever handle, its real, effective and saved ids stay among
    those it had. *)
Theorem no_privilege_escalation w w' pid p p' :
  reachable w -> rtc pstep w w' -> processes w !! pid = Some p -> processes w' !! pid = Some p' ->
  0 ∉ [ruid p; euid p; suid p] ->
  [ruid p'; euid p'; suid p'] ⊆ [ruid p; euid p; suid p] /\
  [rgid p'; egid p'; sgid p'] ⊆ [rgid p; egid p; sgid p].
Proof. intros Hr Hs Hp Hp' H0. destruct (process_evolves _ _ _ _ _ Hr Hs Hp Hp'). auto. Qed.

(** Capability mode is final.  A process whose real or effective
    namespace is the null namespace keeps it, root or not. *)
Theorem capability_mode_final w w' pid p p' :
  reachable w -> rtc pstep w w' -> processes w !! pid = Some p -> processes w' !! pid = Some p' ->
  (rns p = 0 -> rns p' = 0) /\ (ens p = 0 -> ens p' = 0).
Proof.
  intros Hr Hs Hp Hp'. destruct (process_evolves _ _ _ _ _ Hr Hs Hp Hp') as [_ _ _ Hn].
  pose proof (Hn 0%nat) as H0. pose proof (Hn 1%nat) as H1. cbn in H0, H1.
  split; intros E; rewrite E in *; naive_solver.
Qed.

(** C6: exit is final.  A process that has begun to exit is never runnable
    or stopped again, whatever signals it is sent, and the status and the
    signal it will report stay what they were. *)
Theorem exit_is_final w w' pid p p' sg st :
  reachable w -> rtc pstep w w' -> processes w !! pid = Some p -> processes w' !! pid = Some p' ->
  (p_status p = Exiting sg st -> p_status p' = Exiting sg st \/ p_status p' = Exited sg st) /\
  (p_status p = Exited sg st -> p_status p' = Exited sg st).
Proof.
  intros Hr Hs Hp Hp'. destruct (process_evolves _ _ _ _ _ Hr Hs Hp Hp') as [Hg _ _ _].
  unfold core, gone_status in Hg. cbn in Hg.
  split; intros E; rewrite E in Hg; cbn in Hg; destruct (p_status p'); cbn in Hg; naive_solver.
Qed.
End runs.
