(* ===== verification/ProcReplies.v ===== *)
(** * The process manager: replies

    Which requests wait, and that every request is answered exactly once.

    The queue of requests to work on again is refilled only when a process
    ends, so the loop that drains it ends. *)

From stdpp Require Import base gmap strings list fin_maps.
From Stdlib Require Import ZArith Lia.
From S2P Require Import Prelude Memory Syscall SchemeApi ReadinessFacts ProcTypes Procmgr ProcSignal ProcExit.
From S2P Require Import ProcServer ProcFrame.

Local Open Scope Z_scope.

(** The tag that a pending state will answer. *)
Definition st_tag (st : PendingState) : option Z :=
  match st with
  | AwaitingStatusChange _ _ _ op => Some (oc_req op)
  | AwaitingThreadsTermination _ tag => tag
  | Placeholder => None
  end.

(** The requests that wait. *)
Definition waiting (sts : gmap VirtualId PendingState) : gset Z :=
  list_to_set (omap (fun e => match e with
    | (KernelId i, st) => if bool_decide (st_tag st = Some i) then Some i else None
    | _ => None
    end) (map_to_list sts)).

(** A state that will answer a tag is stored under that tag. *)
Definition keyed (sts : gmap VirtualId PendingState) : Prop :=
  forall v st t, sts !! v = Some st -> st_tag st = Some t -> v = KernelId t.

Lemma elem_of_waiting sts t :
  t ∈ waiting sts <-> exists st, sts !! KernelId t = Some st /\ st_tag st = Some t.
Proof.
  unfold waiting. rewrite elem_of_list_to_set, list_elem_of_omap. split.
  - intros ([[i | i] st] & H%elem_of_map_to_list & Ht); [| done]. case_bool_decide; [| done].
    injection Ht as <-. eauto.
  - intros (st & H & Ht). exists (KernelId t, st). rewrite elem_of_map_to_list. split; [done |].
    by rewrite bool_decide_eq_true_2.
Qed.

(** The states that wait before and after a step that answers [outs]. *)
Definition answers (sts sts' : gmap VirtualId PendingState) (outs : list Z) : Prop :=
  elements (waiting sts) ≡ₚ outs ++ elements (waiting sts').

Lemma answers_same sts sts' : waiting sts' = waiting sts -> answers sts sts' [].
Proof. unfold answers. intros ->. done. Qed.

Lemma answers_one sts sts' t :
  t ∈ waiting sts -> waiting sts' = waiting sts ∖ {[t]} -> answers sts sts' [t].
Proof.
  unfold answers. intros Ht ->. cbn [app]. rewrite <- elements_union_singleton by set_solver.
  apply reflexive_eq. f_equal. rewrite <- union_difference_singleton_L; done.
Qed.

Lemma answers_trans a b c l1 l2 : answers a b l1 -> answers b c l2 -> answers a c (l1 ++ l2).
Proof. unfold answers. intros H1 H2. by rewrite H1, H2, app_assoc. Qed.

(** Forgetting the state of [v], or replacing it by one that answers nothing. *)
Lemma waiting_settled sts sts' v :
  (forall u, u <> v -> sts' !! u = sts !! u) ->
  (forall st, sts' !! v = Some st -> st_tag st = None) ->
  waiting sts' = match v with KernelId t => waiting sts ∖ {[t]} | InternalId _ => waiting sts end.
Proof.
  intros Hoth Hv. apply set_eq. intros t. destruct v as [i | i].
  - rewrite elem_of_difference, !elem_of_waiting, elem_of_singleton.
    destruct (decide (t = i)) as [-> | Hne].
    + split; [| tauto]. intros (st & H & Ht). apply Hv in H. congruence.
    + rewrite Hoth by congruence. naive_solver.
  - rewrite !elem_of_waiting. by rewrite Hoth.
Qed.

Lemma waiting_placed sts v st t :
  v = KernelId t -> st_tag st = Some t -> waiting (<[v := st]> sts) = {[t]} ∪ waiting sts.
Proof.
  intros -> Hst. apply set_eq. intros u. rewrite elem_of_union, !elem_of_waiting, elem_of_singleton.
  destruct (decide (u = t)) as [-> | Hne].
  - rewrite lookup_insert_eq. naive_solver.
  - rewrite lookup_insert_ne by congruence. naive_solver.
Qed.

(** ** Computations that leave the pending states alone *)

Section states.
Context {TG : Target} {SC : Syscall} {AB : SchemeAbi} {PA : ProcAbi} {SL : Slab} {BT : BTree}
  {HO : HashOrder} {KN : Kernel}.

Definition same_states (w w' : World) : Prop := states w' = states w.

#[export] Instance same_states_preorder : PreOrder same_states.
Proof. split; [done |]. intros x y z. unfold same_states. congruence. Qed.

Lemma soft_same_states {A} (m : M World A) : within soft m -> within same_states m.
Proof. intros Hm w. symmetry. exact (f_equal v_states (proj1 (Hm w))). Qed.
End states.

#[export] Hint Extern 2 (within same_states (modify _)) => (intros ?; reflexivity) : within.
#[export] Hint Extern 2 (within same_states (upd_proc _ _)) => (intros ?; reflexivity) : within.
#[export] Hint Extern 3 (within same_states _) =>
  (apply soft_same_states; solve [auto with within nocore]) : within.

Section replies.
Context {TG : Target} {SC : Syscall} {AB : SchemeAbi} {PA : ProcAbi} {SL : Slab} {BT : BTree}
  {HO : HashOrder} {KN : Kernel}.

Lemma states_add_handle h : within same_states (add_handle h).
Proof. unfold add_handle. within. Qed.
Lemma states_new_rc_thread th : within same_states (new_rc_thread th).
Proof. unfold new_rc_thread. within. Qed.
#[local] Hint Resolve states_add_handle states_new_rc_thread : within.
Lemma states_new_id : within same_states new_id.
Proof. unfold new_id. within. Qed.
#[local] Hint Resolve states_new_id : within.
Lemma states_fork pid : within same_states (fork pid).
Proof. unfold fork. within. Qed.
Lemma states_new_thread pid : within same_states (new_thread pid).
Proof. unfold new_thread. within. Qed.
#[local] Hint Resolve states_fork states_new_thread : within.
Lemma states_on_open p f c : within same_states (on_open p f c).
Proof. unfold on_open. within. Qed.
Lemma states_on_dup fd l : within same_states (on_dup fd l).
Proof. unfold on_dup, upgrade. within. Qed.
Lemma states_on_sendfd r : within same_states (on_sendfd r).
Proof. unfold on_sendfd. within. Qed.
Lemma states_set_pgid_of pid q g : within same_states (set_pgid_of pid q g).
Proof. unfold set_pgid_of. within. Qed.
#[local] Hint Resolve states_set_pgid_of : within.
Lemma states_on_setsid pid : within same_states (on_setsid pid).
Proof. unfold on_setsid. within. Qed.
Lemma states_on_setpgid c t g : within same_states (on_setpgid c t g).
Proof. unfold on_setpgid. within. Qed.
Lemma states_on_setresugid pid sl : within same_states (on_setresugid pid sl).
Proof. unfold on_setresugid. within. Qed.
Lemma states_on_setrens pid a b : within same_states (on_setrens pid a b).
Proof. unfold on_setrens. within. Qed.
Lemma states_reap pid : within same_states (reap pid).
Proof. unfold reap. within. Qed.
#[local] Hint Resolve states_reap : within.
Lemma states_on_waitpid pid tg fl v : within same_states (on_waitpid pid tg fl v).
Proof. unfold on_waitpid, drop_status, keep_waiting, grim_reaper. within. Qed.
Lemma states_reparent q : within same_states (reparent q).
Proof. unfold reparent. within. Qed.
#[local] Hint Resolve states_reparent : within.
Lemma states_notify_exit pid q g sg st : within same_states (notify_exit pid q g sg st).
Proof. unfold notify_exit, orphan_children. within. Qed.
Lemma states_end_threads tag ts : within same_states (end_threads tag ts).
Proof. induction ts as [| t ts IH]; cbn [end_threads]; within. Qed.
Lemma states_put_status sl st : within same_states (put_status sl st).
Proof. unfold put_status. within. Qed.
Lemma states_drop_thread fd t pid : within same_states (drop_thread fd t pid).
Proof. unfold drop_thread. within. Qed.

(** ** Working on a pending state *)

(** What became of the state [st] of [v]: answered and settled, settled
    without an answer to give, or waiting again. *)
Definition settled (v : VirtualId) (st : PendingState) (sts sts' : gmap VirtualId PendingState)
    (o : outcome (Poll Response)) : Prop :=
  let gone := sts' = <[v := Placeholder]> sts \/ sts' = delete v sts in
  match o with
  | Ok (Some r) => st_tag st = Some (cqe_tag r) /\ gone
  | Ok None => (st_tag st = None /\ gone) \/ sts' = <[v := st]> sts
  | _ => True
  end.

(** A step that leaves the states alone. *)
Lemma wp_states {A} (m : M World A) Q w :
  within same_states m -> (forall o w', states w' = states w -> Q o w') -> wp m Q w.
Proof. intros Hm HQ. apply HQ, Hm. Qed.

Lemma answer_or_drop_settled v pid tag r sts w :
  states w = <[v := Placeholder]> sts ->
  wp (answer_or_drop v tag r)
    (fun o w' => settled v (AwaitingThreadsTermination pid tag) sts (states w') o) w.
Proof.
  intros Hs. unfold answer_or_drop, remove_state. destruct tag as [t |]; wp_run; cbn; rewrite ?Hs.
  - auto.
  - left. split; [done |]. right. apply delete_insert_eq.
Qed.

Lemma work_on_exit_settled v pid tag sts w :
  states w = <[v := Placeholder]> sts ->
  wp (work_on_exit v pid tag)
    (fun o w' => settled v (AwaitingThreadsTermination pid tag) sts (states w') o) w.
Proof.
  intros Hs. unfold work_on_exit. apply wp_bind, wp_gets.
  destruct (processes w !! pid) as [p |]; [| by apply answer_or_drop_settled].
  destruct (threads p).
  - destruct (p_status p) as [| | sg st | sg st]; try by apply answer_or_drop_settled.
    unfold remove_state, upd_proc. wp_run.
    apply wp_states; [apply states_notify_exit |]. intros [[] | e |] w' H'; [| done | done]. cbn in H'.
    apply wp_ret. rewrite H', Hs. destruct tag; cbn; rewrite delete_insert_eq; auto.
  - unfold upd_proc, set_state. wp_run. cbn. right. by rewrite Hs, insert_insert_eq.
Qed.

Lemma work_on_wait_settled v q tg fl op sts w :
  states w = <[v := Placeholder]> sts ->
  wp (work_on_wait v q tg fl op)
    (fun o w' => settled v (AwaitingStatusChange q tg fl op) sts (states w') o) w.
Proof.
  intros Hs. unfold work_on_wait. apply wp_bind, wp_states; [apply within_attempt, states_on_waitpid |].
  intros [[[[pid st] |] | e |] | e |] w1 H1; try done.
  - apply wp_bind, wp_states; [apply states_put_status |]. intros [[] | e |] w2 H2; [| done | done].
    cbn. split; [done |]. left. congruence.
  - unfold set_state. wp_run. cbn. right. by rewrite H1, Hs, insert_insert_eq.
  - cbn. split; [done |]. left. congruence.
  - unfold set_state. wp_run. cbn. right. by rewrite H1, Hs, insert_insert_eq.
Qed.

Lemma work_on_settled v st w :
  states w !! v = Some st ->
  wp (work_on v) (fun o w' => settled v st (states w) (states w') o) w.
Proof.
  intros Hv. unfold work_on. apply wp_bind, wp_gets. rewrite Hv. apply wp_bind, wp_ret.
  unfold set_state. apply wp_bind, wp_modify. destruct st as [q tg fl op | pid tag |].
  - by apply work_on_wait_settled.
  - by apply work_on_exit_settled.
  - apply wp_ret. cbn. auto.
Qed.

Lemma settled_keyed v st sts sts' o :
  keyed sts -> sts !! v = Some st -> settled v st sts sts' (Ok o) -> keyed sts'.
Proof.
  intros Hk Hv Hs. assert (sts' = <[v := Placeholder]> sts \/ sts' = delete v sts \/ sts' = <[v := st]> sts)
    as Hcases by (destruct o; cbn in Hs; tauto).
  intros u su t. destruct Hcases as [-> | [-> | ->]].
  - intros [[<- <-] | [_ H]]%lookup_insert_Some Ht; [done | by eapply Hk].
  - intros [_ H]%lookup_delete_Some Ht. by eapply Hk.
  - rewrite insert_id by done. apply Hk.
Qed.

Lemma settled_answers v st sts sts' o :
  keyed sts -> sts !! v = Some st -> settled v st sts sts' (Ok o) ->
  answers sts sts' (cqe_tag <$> option_list o).
Proof.
  intros Hk Hv Hs.
  assert (forall s, s = <[v := Placeholder]> sts \/ s = delete v sts ->
    waiting s = match v with KernelId t => waiting sts ∖ {[t]} | InternalId _ => waiting sts end) as Hgone.
  { intros s Hs'. apply waiting_settled.
    - intros u Hu. destruct Hs' as [-> | ->]; [by rewrite lookup_insert_ne | by rewrite lookup_delete_ne].
    - intros x. destruct Hs' as [-> | ->]; [rewrite lookup_insert_eq; by intros [= <-] |].
      by rewrite lookup_delete_eq. }
  destruct o as [r |]; cbn in *.
  - destruct Hs as [Ht Hg]. pose proof (Hk v st _ Hv Ht) as ->. apply answers_one; [| by apply Hgone].
    apply elem_of_waiting. eauto.
  - apply answers_same. destruct Hs as [[Ht Hg] | ->]; [| by rewrite insert_id].
    rewrite (Hgone _ Hg). destruct v as [t |]; [| done].
    apply difference_disjoint_L. intros x Hx ->%elem_of_singleton. apply elem_of_waiting in Hx as (st' & H & H').
    congruence.
Qed.

(** ** Passes of the main loop *)

Lemma work_batch_answers ids w rs w' :
  keyed (states w) -> work_batch ids w = (Ok rs, w') ->
  keyed (states w') /\ answers (states w) (states w') (cqe_tag <$> rs).
Proof.
  revert w rs. induction ids as [| v ids IH]; intros w rs Hk.
  { intros [= <- <-]. split; [done |]. by apply answers_same. }
  cbn [work_batch]. rewrite gets_bind. intros (o & w1 & H1 & (rs2 & w2 & H2 & H3)%bind_Ok)%bind_Ok.
  injection H3 as <- <-.
  assert (keyed (states w1) /\ answers (states w) (states w1) (cqe_tag <$> option_list o)) as [Hk1 Ha1].
  { case_bool_decide as Hv.
    - destruct Hv as [st Hv]. pose proof (wp_run _ _ _ _ _ (work_on_settled v st w Hv) H1) as Hs. cbn beta in Hs.
      split; [by eapply settled_keyed | by eapply settled_answers].
    - injection H1 as <- <-. split; [done | by apply answers_same]. }
  destruct (IH w1 rs2 Hk1 H2) as [Hk2 Ha2]. split; [done |]. rewrite fmap_app. by eapply answers_trans.
Qed.

Lemma drain_answers fuel w rs w' :
  keyed (states w) -> drain_awoken fuel w = (Ok (Some rs), w') ->
  keyed (states w') /\ answers (states w) (states w') (cqe_tag <$> rs).
Proof.
  revert w rs. induction fuel as [| fuel IH]; intros w rs Hk; [done |]. cbn [drain_awoken].
  rewrite gets_bind. destruct (awoken w) as [| v ids].
  { intros [= <- <-]. split; [done | by apply answers_same]. }
  rewrite modify_bind. intros (rs1 & w1 & H1 & (o & w2 & H2 & H3)%bind_Ok)%bind_Ok.
  destruct o as [rs2 |]; [| done]. injection H3 as <- <-.
  destruct (work_batch_answers _ (set_awoken [] w) _ _ Hk H1) as [Hk1 Ha1].
  destruct (IH w1 rs2 Hk1 H2) as [Hk2 Ha2]. split; [done |]. rewrite fmap_app. by eapply answers_trans.
Qed.

(** ** Requests *)

(** What became of a call with the tag [t]: answered, with nothing left that
    will answer it, or waiting. *)
Definition called (t : Z) (sts sts' : gmap VirtualId PendingState) (o : outcome (Poll Response)) : Prop :=
  match o with
  | Ok (Some r) =>
      cqe_tag r = t /\ (forall u, u <> KernelId t -> sts' !! u = sts !! u) /\
      forall st, sts' !! KernelId t = Some st -> st_tag st = None
  | Ok None => exists st, sts' = <[KernelId t := st]> sts /\ st_tag st = Some t
  | _ => True
  end.

(** The key of the call is vacant. *)
Definition vacant (t : Z) (w : World) (sts : gmap VirtualId PendingState) : Prop :=
  states w = sts /\ sts !! KernelId t = None.

Lemma called_reply t sts w w' r :
  vacant t w sts -> states w' = states w -> cqe_tag r = t -> called t sts (states w') (Ok (Some r)).
Proof. intros [<- Hn] -> Ht. cbn. split_and!; [done | done |]. intros st. by rewrite Hn. Qed.

Lemma respond_called t m sts w :
  vacant t w sts -> within same_states m -> wp (respond t m) (fun o w' => called t sts (states w') o) w.
Proof.
  intros Hv Hm. unfold respond. apply wp_bind, wp_states; [by apply within_attempt |].
  intros [r | e |] w' H'; [| done | done]. apply wp_ret. by eapply called_reply.
Qed.

Lemma respond0_called t m sts w :
  vacant t w sts -> within same_states m -> wp (respond0 t m) (fun o w' => called t sts (states w') o) w.
Proof. intros Hv Hm. apply respond_called; [done |]. within. Qed.

Lemma ready_called t r sts w :
  vacant t w sts -> cqe_tag r = t -> wp (mret (Some r)) (fun o w' => called t sts (states w') o) w.
Proof. intros Hv Hr. apply wp_ret. by eapply called_reply. Qed.

(** A state for [t] is stored and worked on. *)
Lemma set_work_called t st sts w :
  vacant t w sts -> st_tag st = Some t ->
  wp (set_state (KernelId t) st;; work_on (KernelId t)) (fun o w' => called t sts (states w') o) w.
Proof.
  intros [<- Hn] Ht. unfold set_state. apply wp_bind, wp_modify.
  set (w1 := set_states _ w).
  eapply wp_mono; [| apply (work_on_settled (KernelId t) st w1), lookup_insert_eq].
  intros [[r |] | e |] w' Hs; try done; cbn in Hs.
  - destruct Hs as [Hr Hg]. cbn. split; [congruence |]. rewrite Ht in Hr. injection Hr as ->.
    destruct Hg as [-> | ->]; (split; [intros u Hu | intros x]).
    + by rewrite !lookup_insert_ne.
    + rewrite lookup_insert_eq. by intros [= <-].
    + by rewrite lookup_delete_ne, lookup_insert_ne.
    + by rewrite lookup_delete_eq.
  - destruct Hs as [[? _] | ->]; [congruence |]. exists st. by rewrite insert_insert_eq.
Qed.

Lemma on_exit_start_called t pid st sts w :
  vacant t w sts ->
  wp (on_exit_start pid st (KernelId t) (Some t)) (fun o w' => called t sts (states w') o) w.
Proof.
  intros Hv. unfold on_exit_start, fail_tag. apply wp_bind, wp_gets.
  destruct (processes w !! pid) as [p |]; [| by apply ready_called].
  destruct (p_status p); try by apply ready_called.
  all: destruct (decode_status st) as [[s1 sg] |]; [| by apply ready_called].
  all: apply wp_bind, wp_states; [within |]; intros [[] | e |] w1 H1; [| done | done].
  all: pose proof (states_end_threads (Some t)).
  all: apply wp_bind, wp_states; [within; auto |]; intros [[e |] | e |] w2 H2; [| | done | done].
  all: try (apply ready_called; [destruct Hv; split; congruence | done]).
  all: apply set_work_called; [destruct Hv; split; congruence | done].
Qed.

#[local] Hint Resolve states_on_setsid states_on_setpgid states_on_setresugid states_on_setrens : within.

Lemma on_call_called t op sts w :
  vacant t w sts -> oc_req op = t ->
  wp (on_call (KernelId t) op) (fun o w' => called t sts (states w') o) w.
Proof.
  intros Hv <-. unfold on_call, ready_err. apply wp_bind, wp_states; [within |].
  intros [h | e |] w1 H1; [| done | done].
  assert (vacant (oc_req op) w1 sts) as Hv1 by (destruct Hv; split; congruence). clear Hv H1.
  destruct h as [| pid | th | data |].
  - by apply ready_called.
  - destruct (proc_call _) as [verb |]; [| by apply ready_called].
    unfold proc_call_on, call_wait, call_setpgid, call_kill, ready_err.
    destruct verb; cbn zeta; try (apply respond_called; [done | within]; fail);
      try (apply respond0_called; [done | within]; fail); try by apply ready_called.
    + by apply on_exit_start_called.
    + destruct (wait_flags_from_bits _); [| by apply ready_called]. by apply set_work_called.
    + destruct (wait_flags_from_bits _); [| by apply ready_called]. by apply set_work_called.
    + destruct (_ =? _); [apply respond_called; [done | within] | apply respond0_called; [done | within]].
    + destruct (negb _); [by apply ready_called |]. apply respond0_called; [done | within].
    + destruct (negb _); [by apply ready_called |].
      apply wp_bind, wp_states; [within |]. intros [l | e |] w2 H2; [| done | done].
      assert (vacant (oc_req op) w2 sts) by (destruct Hv1; split; congruence).
      destruct (negb _); [by apply ready_called |]. apply respond0_called; [done | within].
  - apply wp_bind, wp_gets. destruct (thread_heap w1 !! th); [| by apply ready_called].
    destruct (thread_call _) as [[] |]; [| | by apply ready_called]; unfold thread_call_on;
      (apply respond0_called; [done | within]).
  - by apply ready_called.
  - destruct (proc_call _) as [[] |]; try by apply ready_called.
    apply respond_called; [done | within].
Qed.

(** [waiting] before and after a request with the tag [t], with its answers. *)
Definition takes (t : Z) (sts sts' : gmap VirtualId PendingState) (o : Poll Response) : Prop :=
  t :: elements (waiting sts) ≡ₚ (cqe_tag <$> option_list o) ++ elements (waiting sts').

Lemma waiting_vacate t sts : t ∉ waiting sts -> waiting (delete (KernelId t) sts) = waiting sts.
Proof.
  intros Ht. rewrite (waiting_settled sts _ (KernelId t)).
  - apply difference_disjoint_L. set_solver.
  - intros u Hu. by rewrite lookup_delete_ne.
  - intros st. by rewrite lookup_delete_eq.
Qed.

Lemma keyed_delete v sts : keyed sts -> keyed (delete v sts).
Proof. intros Hk u st t [_ H]%lookup_delete_Some. by apply Hk. Qed.

Lemma called_takes t sts sts' o :
  keyed sts -> t ∉ waiting sts -> called t (delete (KernelId t) sts) sts' (Ok o) ->
  keyed sts' /\ takes t sts sts' o.
Proof.
  intros Hk Ht Hc. unfold takes. rewrite <- (waiting_vacate t sts Ht).
  apply (keyed_delete (KernelId t)) in Hk. set (s0 := delete (KernelId t) sts) in *.
  assert (t ∉ waiting s0) as Ht0 by (unfold s0; by rewrite waiting_vacate).
  destruct o as [r |]; cbn in *.
  - destruct Hc as (<- & Hoth & Hst). split.
    + intros u st x Hu Hx. destruct (decide (u = KernelId (cqe_tag r))) as [-> | Hne].
      * apply Hst in Hu. congruence.
      * rewrite Hoth in Hu by done. by eapply Hk.
    + rewrite (waiting_settled s0 sts' (KernelId (cqe_tag r))) by done.
      apply reflexive_eq. do 2 f_equal. symmetry. apply difference_disjoint_L. set_solver.
  - destruct Hc as (st & -> & Hst). split.
    + intros u x y [[<- <-] | [_ H]]%lookup_insert_Some Hy; [congruence | by eapply Hk].
    + rewrite (waiting_placed s0 (KernelId t) st t) by done. by rewrite elements_union_singleton.
Qed.

Lemma reply_takes t sts r : keyed sts -> cqe_tag r = t -> keyed sts /\ takes t sts sts (Some r).
Proof. intros Hk <-. split; [done |]. unfold takes. done. Qed.

#[local] Hint Resolve states_on_open states_on_dup states_on_sendfd : within.

(** A computation that answers [t] and leaves the states alone. *)
Definition replies (t : Z) (m : M World (Poll Response)) : Prop :=
  forall w, wp m (fun o w' => states w' = states w /\
    match o with Ok (Some r) => cqe_tag r = t | Ok None => False | _ => True end) w.

Lemma replies_ret t r : cqe_tag r = t -> replies t (mret (Some r)).
Proof. intros Hr w. by apply wp_ret. Qed.

Lemma replies_bind {A} t (m : M World A) k :
  within same_states m -> (forall a, replies t (k a)) -> replies t (m ≫= k).
Proof.
  intros Hm Hk w. apply wp_bind, wp_states; [done |]. intros [a | e |] w1 H1; [| done | done].
  eapply wp_mono; [| apply Hk]. intros o w2 [H2 Ho]. split; [congruence | done].
Qed.

Lemma replies_respond t m : within same_states m -> replies t (respond t m).
Proof. intros Hm. apply replies_bind; [by apply within_attempt |]. intros r. by apply replies_ret. Qed.

Lemma replies_open_like t m : within same_states m -> replies t (open_like t m).
Proof.
  intros Hm. apply replies_bind; [by apply within_attempt |]. intros r. apply replies_ret, open_dup_like_tag.
Qed.

Lemma handle_op_replies c op :
  match op with Call _ _ _ _ => True | _ => replies (into_tag op) (handle_op c op) end.
Proof.
  destruct op; try done; cbn [handle_op into_tag];
    repeat match goal with
    | |- replies _ (_ ≫= _) => apply replies_bind; [within | intros ?]
    | |- replies _ (match ?x with _ => _ end) => destruct x
    | |- replies _ (respond _ _) => apply replies_respond; within
    | |- replies _ (open_like _ _) => apply replies_open_like; within
    | |- replies _ _ => by apply replies_ret
    end.
Qed.

(** The states and the answers of one request; a panic ends the manager. *)
Definition took (t : Z) (w : World) (o : outcome (Poll Response)) (w' : World) : Prop :=
  match o with
  | Ok o => keyed (states w') /\ takes t (states w) (states w') o
  | _ => True
  end.

Lemma replies_took t m w : replies t m -> keyed (states w) -> wp m (took t w) w.
Proof.
  intros Hm Hk. eapply wp_mono; [| apply Hm]. intros [[r |] | e |] w' [Hs Hr]; try done.
  unfold took. rewrite Hs. by apply reply_takes.
Qed.

Lemma handle_op_took c op w :
  keyed (states w) -> into_tag op ∉ waiting (states w) -> wp (handle_op c op) (took (into_tag op) w) w.
Proof.
  intros Hk Ht. pose proof (handle_op_replies c op) as Hr.
  destruct op; try by apply replies_took. cbn [handle_op into_tag] in *.
  apply wp_bind. unfold remove_state. apply wp_modify.
  eapply wp_mono; [| apply on_call_called; [split; [reflexivity | apply lookup_delete_eq] | reflexivity]].
  intros [o | e |] w' H'; try done. by apply called_takes.
Qed.

(** ** Cancellation and thread events *)

(** Only the state of an internal key changed, and it answers nothing. *)
Lemma internal_answers i sts sts' :
  keyed sts -> (forall u, u <> InternalId i -> sts' !! u = sts !! u) ->
  (forall st, sts' !! InternalId i = Some st -> st_tag st = None) ->
  keyed sts' /\ waiting sts' = waiting sts.
Proof.
  intros Hk Hoth Hst. split; [| by apply (waiting_settled sts sts' (InternalId i))].
  intros u st t Hu Ht. destruct (decide (u = InternalId i)) as [-> | Hne].
  - apply Hst in Hu. congruence.
  - rewrite Hoth in Hu by done. by eapply Hk.
Qed.

Lemma cancel_answers id w o w' :
  keyed (states w) -> cancel id w = (Ok o, w') ->
  keyed (states w') /\ answers (states w) (states w') (cqe_tag <$> option_list o).
Proof.
  intros Hk. unfold cancel. rewrite gets_bind.
  destruct (states w !! KernelId id) as [st |] eqn:Hst; [| intros [= <- <-]; split; [done | by apply answers_same]].
  unfold remove_state. rewrite modify_bind. set (s0 := delete (KernelId id) (states w)).
  assert (keyed s0) as Hk0 by by apply keyed_delete.
  assert (answers (states w) s0 (option_list (st_tag st))) as Ha.
  { destruct (st_tag st) as [t |] eqn:E.
    - apply (settled_answers (KernelId id) st _ _ (Some (Response_err ECANCELED t)) Hk Hst). cbn. auto.
    - apply (settled_answers (KernelId id) st _ _ None Hk Hst). cbn. auto. }
  destruct st as [q tg fl op | pid tag |]; cbn in Ha.
  - intros [= <- <-]. by split.
  - unfold new_internal. intros (v & w1 & H1 & H2)%bind_Ok.
    assert (exists i, v = InternalId i /\ states w1 = s0) as (i & -> & Hs1).
    { apply bind_Ok in H1 as (x & wa & [= <- <-] & (n & wb & Hn & Hm)%bind_Ok).
      pose proof (pure_arith 64 (next_internal_id w + 1) (set_states s0 w)) as Hp.
      rewrite Hn in Hp. cbn in Hp. subst wb. injection Hm as <- <-. by eexists. }
    unfold set_state, wake in H2. rewrite !modify_bind in H2. injection H2 as <- <-. cbn. rewrite Hs1.
    destruct (internal_answers i s0 (<[InternalId i := AwaitingThreadsTermination pid None]> s0) Hk0)
      as [Hk1 Hw1]; [intros u Hu; by rewrite lookup_insert_ne | rewrite lookup_insert_eq; by intros st [= <-] |].
    split; [done |]. unfold answers in *. rewrite Hw1. by destruct tag.
  - intros [= <- <-]. by split.
Qed.

Lemma on_exit_start_internal i pid st w :
  keyed (states w) -> states w !! InternalId i = None ->
  wp (on_exit_start pid st (InternalId i) None)
    (fun o w' => match o with Ok _ => keyed (states w') /\ waiting (states w') = waiting (states w) | _ => True end) w.
Proof.
  intros Hk Hn. unfold on_exit_start, fail_tag. apply wp_bind, wp_gets.
  destruct (processes w !! pid) as [p |]; [| done].
  destruct (p_status p); try done.
  all: destruct (decode_status st) as [[s1 sg] |]; [| done].
  all: apply wp_bind, wp_states; [within |]; intros [[] | e |] w1 H1; [| done | done].
  all: pose proof (states_end_threads None).
  all: apply wp_bind, wp_states; [within; auto |]; intros [[e |] | e |] w2 H2; [| | done | done].
  all: rewrite <- H1, <- H2 in Hk |- *.
  all: try done.
  all: unfold set_state; apply wp_bind, wp_modify; set (w3 := set_states _ w2).
  all: eapply wp_mono; [| apply (work_on_settled (InternalId i) (AwaitingThreadsTermination pid None) w3),
         lookup_insert_eq].
  all: intros [[r |] | e |] w' Hs; try done; cbn in Hs; [by destruct Hs |].
  all: apply (internal_answers i); [done | |].
  all: destruct Hs as [[_ [-> | ->]] | ->].
  all: try (intros u Hu; rewrite ?lookup_insert_ne, ?lookup_delete_ne, ?lookup_insert_ne by done; done).
  all: intros x; rewrite ?lookup_insert_eq, ?lookup_delete_eq; first [by intros [= <-] | done].
Qed.

Lemma new_internal_fresh w :
  wp new_internal (fun o w' => states w' = states w /\
    match o with Ok v => exists i, v = InternalId i | _ => True end) w.
Proof. unfold new_internal. wp_run; split; try done; by eexists. Qed.

(** A step that answers nothing and changes no state that waits. *)
Definition silent {A} (w : World) (o : outcome A) (w' : World) : Prop :=
  match o with Ok _ => keyed (states w') /\ waiting (states w') = waiting (states w) | _ => True end.

Lemma thread_died_silent fd t pid st w :
  keyed (states w) -> wp (thread_died fd t pid st) (silent w) w.
Proof.
  intros Hk. unfold thread_died.
  apply wp_bind, wp_states; [within |]. intros [r | e |] w1 H1; [| done | done].
  apply wp_bind, wp_states; [apply states_drop_thread |]. intros [[] | e |] w2 H2; [| done | done].
  apply wp_bind, wp_gets. apply wp_bind. destruct (processes w2 !! pid) as [p |]; [| done]. apply wp_ret.
  assert (states w2 = states w) as Hs by congruence.
  assert (forall m : M World unit, within same_states m -> wp m (silent w) w2) as Hsame.
  { intros m Hm. apply wp_states; [done |]. intros [[] | e |] w3 H3; try done. cbn. by rewrite H3, Hs. }
  destruct (p_status p); try by (apply Hsame; within).
  all: case_bool_decide; [| by apply Hsame; within].
  all: apply wp_bind; eapply wp_mono; [| apply new_internal_fresh].
  all: intros [v | e |] w3 [H3 Hv]; [| done | done]; destruct Hv as [i ->].
  all: apply wp_bind, wp_gets; case_bool_decide as Hocc;
    [apply wp_ret; unfold silent; rewrite H3, Hs; done |].
  all: apply eq_None_not_Some in Hocc.
  all: apply wp_bind; eapply wp_mono;
    [| apply on_exit_start_internal; [by rewrite H3, Hs | done]].
  all: intros [[r4 |] | e |] w4 H4; try done; cbn beta iota in H4.
  all: apply wp_ret; unfold silent; rewrite H3, Hs in H4; done.
Qed.

Lemma thread_event_silent fd w : keyed (states w) -> wp (thread_event fd) (silent w) w.
Proof.
  intros Hk. unfold thread_event. do 3 apply wp_bind, wp_gets.
  destruct (t ← _; _) as [[t th] |]; [| done]. destruct (processes w !! t_pid th); [| done].
  apply wp_bind, wp_states; [within |]. intros [r | e |] w1 H1; [| done | done].
  destruct (context_exit r.1); [| apply wp_ret; unfold silent; by rewrite H1].
  eapply wp_mono; [| apply thread_died_silent; by rewrite H1].
  intros [[] | e |] w2 H2; try done. unfold silent in *. by rewrite H1 in H2.
Qed.

Lemma sendfd_replies req : replies (sqe_tag req) (r ← on_sendfd req; mret (Some r)).
Proof.
  intros w. apply wp_bind. eapply wp_mono.
  2: { instantiate (1 := fun o w' => states w' = states w /\
         match o with Ok r => cqe_tag r = sqe_tag req | _ => True end).
       apply wp_intro. split; [apply states_on_sendfd |]. unfold on_sendfd.
       match goal with |- match (?m w).1 with _ => _ end =>
         change (wp m (fun o _ => match o with Ok r => cqe_tag r = sqe_tag req | _ => True end) w) end.
       apply wp_bind, wp_states; [within |]. intros [h | e |] w1 H1; [| done | done].
       destruct h; try done. apply wp_bind, wp_states; [within |].
       intros [[[fd x] | e |] | e |] w2 H2; try done.
       repeat (apply wp_bind, wp_states; [within |]; intros [? | ? |] ? ?; try done). }
  intros [r | e |] w' [Hs Hr]; [by apply wp_ret | done | done].
Qed.

(** ** Runs *)

(** One step of the manager, with the tags of the requests it takes and of
    the responses it writes.  The kernel does not reuse the tag of a request
    that waits. *)
Inductive serves : World -> list Z -> list Z -> World -> Prop :=
| sv_call req w o w' :
    kind req = RK_Call req -> sqe_tag req ∉ waiting (states w) -> handle_scheme req w = (Ok o, w') ->
    serves w [sqe_tag req] (cqe_tag <$> option_list o) w'
| sv_sendfd req w o w' :
    kind req = RK_SendFd req -> handle_scheme req w = (Ok o, w') ->
    serves w [sqe_tag req] (cqe_tag <$> option_list o) w'
| sv_message req w o w' :
    (forall r, kind req <> RK_Call r /\ kind req <> RK_SendFd r) -> handle_scheme req w = (Ok o, w') ->
    serves w [] (cqe_tag <$> option_list o) w'
| sv_event fd w w' : thread_event fd w = (Ok tt, w') -> serves w [] [] w'
| sv_drain fuel w rs w' : drain_awoken fuel w = (Ok (Some rs), w') -> serves w [] (cqe_tag <$> rs) w'
| sv_user w pc tc m : serves w [] [] (set_pctls pc (set_tctls tc (set_mem m w))).

Inductive served : World -> list Z -> list Z -> World -> Prop :=
| sd_nil w : served w [] [] w
| sd_snoc w ins outs w1 i o w2 :
    served w ins outs w1 -> serves w1 i o w2 -> served w (ins ++ i) (outs ++ o) w2.

Lemma serves_tags w ins outs w' :
  keyed (states w) -> serves w ins outs w' ->
  keyed (states w') /\ ins ++ elements (waiting (states w)) ≡ₚ outs ++ elements (waiting (states w')).
Proof.
  intros Hk. destruct 1 as [req w o w' Hkd Ht H | req w o w' Hkd H | req w o w' Hkd H | fd w w' H
    | fuel w rs w' H | w pc tc m].
  - unfold handle_scheme in H. rewrite Hkd in H. apply bind_Ok in H as (op & w1 & [Hop ->]%lift_Ok & H).
    destruct op as [op |].
    + apply from_sqe_tag in Hop. rewrite <- Hop in Ht |- *.
      apply (wp_run _ _ _ _ _ (handle_op_took _ _ _ Hk Ht) H).
    + injection H as <- <-. by apply reply_takes.
  - unfold handle_scheme in H. rewrite Hkd in H.
    apply (wp_run _ _ _ _ _ (replies_took _ _ _ (sendfd_replies req) Hk) H).
  - unfold handle_scheme in H. destruct (kind req) eqn:E; try (by destruct (Hkd inner)); try (injection H as <- <-; done).
    exact (cancel_answers _ _ _ _ Hk H).
  - destruct (wp_run _ _ _ _ _ (thread_event_silent fd w Hk) H) as [H1 H2]. split; [done |]. cbn. by rewrite H2.
  - by apply drain_answers in H.
  - done.
Qed.

End replies.

Section loop.
Context {TG : Target} {SC : Syscall} {AB : SchemeAbi} {PA : ProcAbi} {SL : Slab} {BT : BTree}
  {HO : HashOrder} {KN : Kernel}.

Definition is_exiting (p : Process) : bool :=
  match p_status p with Exiting _ _ => true | _ => false end.

(** The processes that have begun to exit and have not ended. *)
Definition exiting (w : World) : gset Z := dom (filter (fun kv => is_exiting kv.2 = true) (processes w)).

Lemma elem_of_exiting w pid :
  pid ∈ exiting w <-> exists p, processes w !! pid = Some p /\ is_exiting p = true.
Proof.
  unfold exiting. rewrite elem_of_dom. unfold is_Some. setoid_rewrite map_lookup_filter_Some. naive_solver.
Qed.

(** ** Steps that make no process exit *)

Definition no_exit (w w' : World) : Prop := exiting w' ⊆ exiting w.

#[export] Instance no_exit_preorder : PreOrder no_exit.
Proof. split; [intros w; unfold no_exit; set_solver | intros x y z; unfold no_exit; set_solver]. Qed.

Definition core_exiting (c : Core) : bool :=
  match c_gone c with Some (Exiting _ _) => true | _ => false end.

Lemma core_is_exiting p : core_exiting (core p) = is_exiting p.
Proof. unfold core_exiting, core, gone_status, is_exiting. cbn. by destruct (p_status p). Qed.

Lemma soft_no_exit {A} (m : M World A) : within soft m -> within no_exit m.
Proof.
  intros Hm w pid. rewrite !elem_of_exiting. intros (p' & Hp' & He).
  pose proof (f_equal v_procs (proj1 (Hm w))) as E. cbn in E.
  assert ((core <$> processes w) !! pid = Some (core p')) as H by (by rewrite E, lookup_fmap, Hp').
  rewrite lookup_fmap in H. destruct (processes w !! pid) as [p |]; [| done]. cbn in H.
  exists p. split; [done |]. rewrite <- core_is_exiting in He |- *. congruence.
Qed.

Lemma upd_no_exit pid f :
  (forall p, is_exiting (f p) = is_exiting p) -> within no_exit (upd_proc pid f).
Proof.
  intros Hf w q. rewrite !elem_of_exiting. cbn. intros (p' & Hp' & He).
  destruct (decide (pid = q)) as [<- | Hne].
  - rewrite lookup_alter_eq in Hp'. destruct (processes w !! pid) as [p |]; [| done].
    injection Hp' as <-. rewrite Hf in He. by exists p.
  - rewrite lookup_alter_ne in Hp' by done. by exists p'.
Qed.

Definition same_awoken (w w' : World) : Prop := awoken w' = awoken w.

#[export] Instance same_awoken_preorder : PreOrder same_awoken.
Proof. split; [done |]. intros x y z. unfold same_awoken. congruence. Qed.
End loop.

#[export] Hint Extern 1 (within no_exit (upd_proc _ _)) => (apply upd_no_exit; intros ?; reflexivity) : within.
#[export] Hint Extern 3 (within no_exit _) => (apply soft_no_exit; solve [auto with within nocore]) : within.
#[export] Hint Extern 1 (within same_awoken (upd_proc _ _)) => (intros ?; reflexivity) : within.
#[export] Hint Extern 1 (within same_awoken (modify _)) => (intros ?; reflexivity) : within.
#[export] Hint Extern 1 (within same_awoken (write_at _ _)) => (intros ?; reflexivity) : within.
#[export] Hint Extern 1 (within same_awoken (set_state _ _)) => (intros ?; reflexivity) : within.
#[export] Hint Extern 1 (within same_awoken (remove_state _)) => (intros ?; reflexivity) : within.
#[export] Hint Extern 1 (within no_exit (set_state _ _)) => (intros ? ?; tauto) : within.
#[export] Hint Extern 1 (within no_exit (remove_state _)) => (intros ? ?; tauto) : within.

Section drain.
Context {TG : Target} {SC : Syscall} {AB : SchemeAbi} {PA : ProcAbi} {SL : Slab} {BT : BTree}
  {HO : HashOrder} {KN : Kernel}.

Lemma no_exit_reap pid : within no_exit (reap pid).
Proof.
  unfold reap. within.
  - intros w q. rewrite !elem_of_exiting. cbn. setoid_rewrite lookup_delete_Some. naive_solver.
  - intros w q. by rewrite !elem_of_exiting.
Qed.

Lemma same_awoken_reap pid : within same_awoken (reap pid).
Proof. unfold reap. within. Qed.
#[local] Hint Resolve no_exit_reap same_awoken_reap : within.

Lemma no_exit_on_waitpid pid tg fl v : within no_exit (on_waitpid pid tg fl v).
Proof. unfold on_waitpid, drop_status, keep_waiting, grim_reaper. within. Qed.
Lemma same_awoken_on_waitpid pid tg fl v : within same_awoken (on_waitpid pid tg fl v).
Proof. unfold on_waitpid, drop_status, keep_waiting, grim_reaper, get_proc. within. Qed.
#[local] Hint Resolve no_exit_on_waitpid same_awoken_on_waitpid : within.

Lemma no_exit_notify pid q g sg st : within no_exit (notify_exit pid q g sg st).
Proof. unfold notify_exit, orphan_children, reparent. within. Qed.

(** ** Progress *)

(** A step that wakes no one, or after which a process fewer is to exit. *)
Definition progress (w w' : World) : Prop :=
  no_exit w w' /\ (same_awoken w w' \/ (size (exiting w') < size (exiting w))%nat).

#[local] Instance progress_preorder : PreOrder progress.
Proof.
  split; [intros w; split; [reflexivity | by left] |].
  intros x y z [H1 H2] [H3 H4]. split; [by etransitivity |].
  apply subseteq_size in H1, H3. destruct H2 as [H2 | H2]; [| right; lia].
  destruct H4 as [H4 | H4]; [left; by etransitivity | right; lia].
Qed.

Lemma progress_quiet {A} (m : M World A) : within no_exit m -> within same_awoken m -> within progress m.
Proof. intros H1 H2 w. split; [apply H1 | left; apply H2]. Qed.

Lemma progress_work_on_exit v pid tag : within progress (work_on_exit v pid tag).
Proof.
  intros w. unfold work_on_exit. rewrite gets_bind.
  assert (forall m : M World (Poll Response), within no_exit m -> within same_awoken m -> progress w (m w).2) as Hq
    by (intros; by apply progress_quiet).
  destruct (processes w !! pid) as [p |] eqn:Hp; [| unfold answer_or_drop; destruct tag; apply Hq; within].
  destruct (threads p); [| apply Hq; within].
  destruct (p_status p) as [| | sg st | sg st] eqn:Hs;
    try by (unfold answer_or_drop; destruct tag; apply Hq; within).
  unfold remove_state. rewrite modify_bind. unfold upd_proc. rewrite modify_bind.
  set (w1 := set_processes _ _).
  assert (exiting w1 ⊆ exiting w ∖ {[pid]}) as H1.
  { intros q. rewrite elem_of_difference, !elem_of_exiting, elem_of_singleton. cbn.
    destruct (decide (pid = q)) as [<- | Hne].
    - rewrite lookup_alter_eq, Hp. cbn. intros (x & [= <-] & He). done.
    - rewrite lookup_alter_ne by done. naive_solver. }
  match goal with |- progress w (?m w1).2 => assert (no_exit w1 (m w1).2) as H2 end.
  { apply within_bind_at; [apply _ | apply no_exit_notify | intros ?; within]. }
  assert (pid ∈ exiting w) as Hin.
  { apply elem_of_exiting. exists p. split; [done |]. unfold is_exiting. by rewrite Hs. }
  split; [unfold no_exit in *; set_solver |]. right.
  apply subseteq_size in H1, H2. rewrite size_difference, size_singleton in H1 by set_solver.
  assert (size (exiting w) <> 0)%nat by (apply size_non_empty_iff; set_solver). lia.
Qed.

Lemma progress_work_on v : within progress (work_on v).
Proof.
  pose proof progress_work_on_exit. unfold work_on, work_on_wait, put_status.
  within; first [done | by apply progress_quiet; within].
Qed.

Lemma progress_batch ids : within progress (work_batch ids).
Proof.
  pose proof progress_work_on. induction ids as [| v ids IH]; cbn [work_batch]; within; done.
Qed.

(** C7: the loop over the queue of awoken requests ends.  Two passes more
    than there are processes that have begun to exit are enough, in any state
    and whatever the kernel answers. *)
Theorem drain_terminates w w' :
  drain_awoken (S (S (size (exiting w)))) w <> (Ok None, w').
Proof.
  assert (forall fuel w w', (size (exiting w) + 2 <= fuel)%nat -> drain_awoken fuel w <> (Ok None, w')) as H.
  2: { apply H. lia. }
  clear w w'. induction fuel as [| fuel IH]; intros w w' Hf; [lia |]. cbn [drain_awoken].
  rewrite gets_bind. destruct (awoken w) as [| v ids]; [done |]. rewrite modify_bind.
  set (w1 := set_awoken [] w). intros (rs & w2 & H2 & (o & w3 & H3 & H4)%bind_Ok)%bind_Ok.
  destruct o; [done |]. injection H4 as ->.
  destruct (progress_batch (v :: ids) w1) as [Hn Hp]. rewrite H2 in Hn, Hp. cbn [snd] in Hn, Hp.
  apply subseteq_size in Hn. change (exiting w1) with (exiting w) in *.
  destruct Hp as [Ha | Hlt].
  - destruct fuel as [| fuel]; [lia |]. cbn [drain_awoken] in H3. rewrite gets_bind in H3.
    unfold same_awoken in Ha. cbn in Ha. rewrite Ha in H3. done.
  - by apply (IH w2 w'); [lia |].
Qed.
End drain.
