(* ===== verification/ProcQueues.v ===== *)
(** * The process manager: from exit to waitpid

    A process that waits for its child is woken when the child has ended, and
    then collects the status the child exited with.

    The realtime signals that are queued for a process: their number is
    bounded in every run; and who may send signals. *)

From stdpp Require Import base gmap strings list fin_maps.
From Stdlib Require Import ZArith Lia.
From Stdlib Require Import Strings.Byte.
From S2P Require Import Prelude Memory Syscall SchemeApi ProcTypes Procmgr ProcSignal ProcExit ProcServer.
From S2P Require Import ProcFrame ProcEvolve ProcFacts ProcReplies.

Local Open Scope Z_scope.

Section wait.
Context {TG : Target} {SC : Syscall} {AB : SchemeAbi} {PA : ProcAbi} {SL : Slab} {BT : BTree}
  {HO : HashOrder} {KN : Kernel}.

(** ** Steps that spare a process *)

(** No wakeup is lost, no process leaves the table, the pending requests stay
    and so does everything a signal leaves of the process [c]. *)
Record spares (c : Z) (w w' : World) : Prop := {
  sp_waiters : keeps_waiters w w';
  sp_dom : dom (processes w) ⊆ dom (processes w');
  sp_states : states w' = states w;
  sp_core : core <$> processes w' !! c = core <$> processes w !! c
}.

#[local] Instance spares_preorder c : PreOrder (spares c).
Proof.
  split; [intros w; split; try done; reflexivity |].
  intros x y z [A1 B1 C1 D1] [A2 B2 C2 D2].
  split; [by etransitivity | set_solver | congruence | congruence].
Qed.

Lemma soft_spares {A} c (m : M World A) : within soft m -> within (spares c) m.
Proof.
  intros Hm w. destruct (Hm w) as (Hv & Hk & _). pose proof (f_equal v_procs Hv) as Hp.
  pose proof (f_equal v_states Hv) as Hs. cbn in Hp, Hs. split; [done | | done |].
  - by rewrite <- !(dom_fmap_L core), Hp.
  - by rewrite <- !lookup_fmap, Hp.
Qed.

(** Writing a field that is neither in the core nor the list of waiters. *)
Lemma spares_upd c q f :
  (forall p, waitpid_waiting (f p) = waitpid_waiting p) -> (forall p, q = c -> core (f p) = core p) ->
  within (spares c) (upd_proc q f).
Proof.
  intros Hw Hf w. split; cbn; [| by rewrite dom_alter_L | done |].
  - split; [done |]. cbn. intros r p u Hp Hu. right. destruct (decide (q = r)) as [<- | Hne].
    + exists (f p). rewrite lookup_alter_eq, Hp, Hw. done.
    + exists p. by rewrite lookup_alter_ne.
  - destruct (decide (q = c)) as [-> | Hne]; [| by rewrite lookup_alter_ne].
    rewrite lookup_alter_eq. destruct (processes w !! c); cbn; [by rewrite Hf | done].
Qed.

Lemma spares_reparent c child : child <> c -> within (spares c) (reparent child).
Proof.
  intros Hne. unfold reparent.
  repeat (apply within_bind; [apply _ | | intros ?]); try solve [apply within_pure; [apply _ | auto with pure nocore]].
  all: apply spares_upd; [done | intros p E; try done; by destruct Hne].
Qed.

Lemma spares_mapM {A} c (f : A -> M World unit) l :
  (forall x, x ∈ l -> within (spares c) (f x)) -> within (spares c) (mapM_ f l).
Proof.
  induction l as [| x l IH]; intros Hf; [by apply within_pure; [apply _ |] |].
  apply within_bind; [apply _ | apply Hf; set_solver | intros _; apply IH; set_solver].
Qed.

Lemma spares_orphan_children c g w p :
  processes w !! c = Some p -> ppid p <> c -> spares c w (orphan_children c g w).2.
Proof.
  intros Hp Hq. unfold orphan_children. rewrite gets_bind.
  destruct (processes w !! INIT_PID); [| reflexivity].
  assert (spares c w (wake_waiters INIT_PID w).2) as H1 by (apply soft_spares; auto with within).
  assert (exists w1, wake_waiters INIT_PID w = (Ok tt, w1)) as [w1 E1]
    by (unfold wake_waiters; rewrite gets_bind; destruct (processes w !! INIT_PID); by eexists).
  rewrite E1 in H1. rewrite (bind_run _ _ _ _ _ E1). cbn [snd] in H1.
  etransitivity; [exact H1 |].
  assert (forall q, q ∈ children_of c (processes w1) -> q <> c) as Hne.
  { intros q. unfold children_of. rewrite list_elem_of_filter. intros [[_ Hq'] _] ->.
    pose proof (sp_core _ _ _ H1) as Hc. rewrite Hp in Hc. destruct (processes w1 !! c) as [p1 |]; [| done].
    cbn in Hc. assert (core p1 = core p) as Hc' by congruence. apply (f_equal c_ppid) in Hc'.
    injection Hq' as Hq'. cbn in Hc'. congruence. }
  rewrite !gets_bind. apply (within_bind_at (spares c)).
  - apply spares_mapM. intros q Hin. by apply spares_reparent, Hne.
  - intros _. apply soft_spares. within.
Qed.

(** ** The end of a child wakes its parent *)

Lemma post_status_wakes q c g st w u :
  (u ∈ awoken w \/ exists p, processes w !! q = Some p /\ u ∈ waitpid_waiting p) ->
  u ∈ awoken (post_status q c g st w).2.
Proof.
  intros Hu. unfold post_status, upd_proc at 1. rewrite modify_bind. unfold wake_waiters. rewrite gets_bind.
  cbn. rewrite lookup_alter_eq. destruct Hu as [Hu | (p & Hp & Hu)].
  - destruct (processes w !! q); cbn; set_solver.
  - rewrite Hp. cbn. set_solver.
Qed.


Lemma notify_exit_wakes c q g sg st w p pq u o w' :
  processes w !! c = Some p -> ppid p = q -> q <> c ->
  processes w !! q = Some pq -> u ∈ waitpid_waiting pq ->
  notify_exit c q g sg st w = (Ok o, w') ->
  u ∈ awoken w' /\ spares c w w'.
Proof.
  intros Hp Hpp Hne Hq Hu. unfold notify_exit. rewrite gets_bind, Hq.
  intros (r & w1 & H1 & (r2 & w2 & H2 & H3)%bind_Ok)%bind_Ok.
  assert (spares c w w1) as S1.
  { replace w1 with ((on_send_sig c (TProc q) SIGCHLD false Idempotent false w).2) by by rewrite H1.
    apply soft_spares. auto with within. }
  assert (exists p1, processes w1 !! c = Some p1 /\ core p1 = core p) as (p1 & Hp1 & Hc1).
  { pose proof (sp_core _ _ _ S1) as Hc. rewrite Hp in Hc. destruct (processes w1 !! c) as [p1 |]; [| done].
    exists p1. cbn in Hc. split; congruence. }
  assert (spares c w1 w2) as S2.
  { replace w2 with ((orphan_children c g w1).2) by by rewrite H2.
    apply (spares_orphan_children c g w1 p1 Hp1). apply (f_equal c_ppid) in Hc1. cbn in Hc1. congruence. }
  assert (spares c w2 w') as S3.
  { replace w' with ((post_status q c g (Terminated sg st) w2).2) by by rewrite H3.
    apply soft_spares. auto with within. }
  assert (spares c w w2) as S12 by by etransitivity.
  split; [| by etransitivity].
  replace w' with ((post_status q c g (Terminated sg st) w2).2) by by rewrite H3.
  apply post_status_wakes. exact (proj2 (sp_waiters _ _ _ S12) q pq u Hq Hu).
Qed.

(** The exit of [c] is carried out: its status is final and the parent's
    waiter is in the queue. *)
Lemma exit_wakes c q v u tag p sg st pq w r w1 :
  processes w !! c = Some p -> threads p = [] -> p_status p = Exiting sg st -> ppid p = q -> q <> c ->
  processes w !! q = Some pq -> u ∈ waitpid_waiting pq -> u <> v ->
  states w !! v = Some (AwaitingThreadsTermination c tag) ->
  work_on v w = (Ok r, w1) ->
  u ∈ awoken w1 /\ states w1 !! u = states w !! u /\ is_Some (processes w1 !! q) /\
  exists p1, processes w1 !! c = Some p1 /\ threads p1 = [] /\ p_status p1 = Exited sg st /\ ppid p1 = q.
Proof.
  intros Hp Ht Hst Hpp Hne Hq Hu Huv Hv. unfold work_on. rewrite gets_bind, Hv. cbn [unwrap].
  rewrite ret_bind. unfold set_state. rewrite modify_bind. unfold work_on_exit. rewrite gets_bind.
  cbn [processes set_states]. rewrite Hp, Ht, Hst. unfold remove_state, upd_proc. rewrite !modify_bind.
  set (w0 := set_processes _ _). set (p0 := set_p_status (Exited sg st) p).
  assert (processes w0 !! c = Some p0) as Hp0 by (cbn; by rewrite lookup_alter_eq, Hp).
  assert (processes w0 !! q = Some pq) as Hq0 by (cbn; by rewrite lookup_alter_ne).
  intros (o & w' & H1 & [= <- <-])%bind_Ok.
  rewrite Hpp in H1.
  destruct (notify_exit_wakes c q _ _ _ w0 p0 pq u _ _ Hp0 Hpp Hne Hq0 Hu H1) as [Ha [Hk Hd Hs Hc]].
  split_and!; [done | | |].
  - rewrite Hs. cbn. rewrite lookup_delete_ne, lookup_insert_ne by done. done.
  - apply elem_of_dom, Hd, elem_of_dom. by exists pq.
  - rewrite Hp0 in Hc. destruct (processes w' !! c) as [p1 |]; [| done]. exists p1. cbn in Hc.
    assert (core p1 = core p0) as Hc' by congruence. pose proof (f_equal c_threads Hc') as E1.
    pose proof (f_equal c_ppid Hc') as E3. pose proof (f_equal c_gone Hc') as E7. cbn in E1, E3, E7.
    split; [done |]. split; [congruence |]. split; [| congruence].
    unfold gone_status in E7. cbn in E7. destruct (p_status p1); cbn in E7; congruence.
Qed.

(** ** Collecting the status *)

Lemma put_status_run sl st w :
  exists w', put_status sl st w = (Ok tt, w') /\ processes w' = processes w /\
    (4 <= slen sl -> ptr sl mod 4 = 0 -> load (ptr sl) 4 (mem w') = Some (u32_to_ne_bytes st)).
Proof.
  unfold put_status. destruct (_ && _) eqn:E.
  - eexists. split_and!; [reflexivity | done |]. intros _ _. cbn. apply (load_store (ptr sl) (u32_to_ne_bytes st)).
  - exists w. split_and!; [done | done |]. rewrite andb_false_iff, Z.leb_gt, Z.eqb_neq in E. lia.
Qed.

Lemma waitpid_exited q c u flags p sg st w :
  processes w !! c = Some p -> threads p = [] -> p_status p = Exited sg st -> ppid p = q -> q <> c ->
  is_Some (processes w !! q) ->
  exists w', on_waitpid q (SingleProc c) flags u w
      = (Ok (Some (c, Z.lor (default 0 sg) (Z.shiftl st 8))), w') /\ processes w' !! c = None.
Proof.
  intros Hp Ht Hst Hpp Hne [pq Hq]. unfold on_waitpid. rewrite gets_bind, ret_bind.
  rewrite (bind_run _ _ _ _ _ (get_proc_run EBADFD _ _ _ Hq)).
  rewrite (proj2 (Z.eqb_neq q c) Hne). cbn [fail_if]. rewrite ret_bind.
  rewrite (bind_run _ _ _ _ _ (get_proc_run ECHILD _ _ _ Hp)).
  rewrite Hpp, Z.eqb_refl. cbn [negb fail_if]. rewrite ret_bind, Hst.
  unfold drop_status, upd_proc. rewrite modify_bind. set (w1 := set_processes _ w).
  assert (exists w', reap c w1 = (Ok tt, w') /\ processes w' !! c = None) as (w' & Hr & Hn).
  { unfold reap. rewrite gets_bind. cbn [w1 processes set_processes]. rewrite lookup_alter_ne, Hp, Ht by done.
    rewrite modify_bind. eexists. split; [reflexivity |]. cbn. apply lookup_delete_eq. }
  exists w'. split; [| done]. cbn [grim_reaper]. by rewrite (bind_run _ _ _ _ _ Hr).
Qed.

Lemma collects q c u flags op p sg st w :
  processes w !! c = Some p -> threads p = [] -> p_status p = Exited sg st -> ppid p = q -> q <> c ->
  is_Some (processes w !! q) -> states w !! u = Some (AwaitingStatusChange q (SingleProc c) flags op) ->
  let status := Z.lor (default 0 sg) (Z.shiftl st 8) in
  exists w', work_on u w = (Ok (Some (Response_new (Ok c) (oc_req op))), w') /\ processes w' !! c = None /\
    (4 <= slen (oc_payload op) -> ptr (oc_payload op) mod 4 = 0 ->
     load (ptr (oc_payload op)) 4 (mem w') = Some (u32_to_ne_bytes status)).
Proof.
  intros Hp Ht Hst Hpp Hne Hq Hu status. unfold work_on. rewrite gets_bind, Hu. cbn [unwrap].
  rewrite ret_bind. unfold set_state. rewrite modify_bind. set (w0 := set_states _ w).
  destruct (waitpid_exited q c u flags p sg st w0 Hp Ht Hst Hpp Hne Hq) as (w1 & H1 & Hn).
  destruct (put_status_run (oc_payload op) status w1) as (w2 & H2 & Hps & Hm).
  exists w2. unfold work_on_wait.
  assert (attempt (on_waitpid q (SingleProc c) flags u) w0 = (Ok (Ok (Some (c, status))), w1)) as Ha
    by (unfold attempt; by rewrite H1).
  rewrite (bind_run _ _ _ _ _ Ha), (bind_run _ _ _ _ _ H2). by rewrite Hps.
Qed.

(** C5: the end of a child reaches a parent that waits for it.  When the
    exit of the process [c] is carried out while a waitpid of its parent for
    it is queued, that request is put in the queue of work; and working on it
    answers the pid of [c], writes the status [c] exited with (the signal in
    the low byte, the exit code above it) to the caller's buffer, and removes
    [c] from the table. *)
Theorem exit_answers_waitpid c q v u tag flags op p sg st pq w r w1 :
  processes w !! c = Some p -> threads p = [] -> p_status p = Exiting sg st -> ppid p = q -> q <> c ->
  processes w !! q = Some pq -> u ∈ waitpid_waiting pq ->
  states w !! v = Some (AwaitingThreadsTermination c tag) ->
  states w !! u = Some (AwaitingStatusChange q (SingleProc c) flags op) ->
  work_on v w = (Ok r, w1) ->
  let status := Z.lor (default 0 sg) (Z.shiftl st 8) in
  u ∈ awoken w1 /\
  exists w2, work_on u w1 = (Ok (Some (Response_new (Ok c) (oc_req op))), w2) /\ processes w2 !! c = None /\
    (4 <= slen (oc_payload op) -> ptr (oc_payload op) mod 4 = 0 ->
     load (ptr (oc_payload op)) 4 (mem w2) = Some (u32_to_ne_bytes status)).
Proof.
  intros Hp Ht Hst Hpp Hne Hq Hu Hv Hsu H1. assert (u <> v) as Huv by congruence.
  destruct (exit_wakes _ _ _ _ _ _ _ _ _ _ _ _ Hp Ht Hst Hpp Hne Hq Hu Huv Hv H1)
    as (Ha & Hs & Hq1 & p1 & Hp1 & Ht1 & Hst1 & Hpp1).
  split; [done |]. apply (collects q c u flags op p1); [done .. | congruence].
Qed.
End wait.

Section bounds.
Context {TG : Target} {SC : Syscall} {AB : SchemeAbi} {PA : ProcAbi} {SL : Slab} {BT : BTree}
  {HO : HashOrder} {KN : Kernel}.

Lemma soft_keeps_queues {A} (m : M World A) : within soft m -> within keeps_queues m.
Proof. intros Hm w. apply (Hm w). Qed.

Lemma queues_upd pid f : (forall p, queues_ok p -> queues_ok (f p)) -> within keeps_queues (upd_proc pid f).
Proof. intros Hf w. apply (keeps_queues_alter pid f); auto. Qed.

Lemma queues_insert pid p w :
  queues_ok p -> keeps_queues w (set_processes (<[pid := p]> (processes w)) w).
Proof. intros Hp Hb. by apply map_Forall_insert_2. Qed.

Lemma queues_delete pid w : keeps_queues w (set_processes (delete pid (processes w)) w).
Proof. intros Hb. by apply map_Forall_delete. Qed.
End bounds.

#[export] Hint Extern 1 (within keeps_queues (modify _)) =>
  (intros ?; first [exact id | apply queues_delete]) : within.
#[export] Hint Extern 1 (within keeps_queues (upd_proc _ _)) => (apply queues_upd; intros ?; cbv beta; first [exact id | repeat case_match; exact id]) : within.
#[export] Hint Extern 3 (within keeps_queues _) =>
  (apply soft_keeps_queues; solve [auto with within nocore]) : within.

Section steps.
Context {TG : Target} {SC : Syscall} {AB : SchemeAbi} {PA : ProcAbi} {SL : Slab} {BT : BTree}
  {HO : HashOrder} {KN : Kernel}.

Lemma queues_add_handle h : within keeps_queues (add_handle h).
Proof. unfold add_handle. within. Qed.
Lemma queues_new_rc_thread th : within keeps_queues (new_rc_thread th).
Proof. unfold new_rc_thread. within. Qed.
Lemma queues_new_id : within keeps_queues new_id.
Proof. unfold new_id. within. Qed.
Lemma queues_set_state v st : within keeps_queues (set_state v st).
Proof. unfold set_state. within. Qed.
Lemma queues_remove_state v : within keeps_queues (remove_state v).
Proof. unfold remove_state. within. Qed.
#[local] Hint Resolve queues_add_handle queues_new_rc_thread queues_new_id queues_set_state queues_remove_state : within.
#[local] Hint Extern 1 (within keeps_queues (modify _)) =>
  (intros ?; apply queues_insert; split; cbn; [lia | constructor]) : within.
Lemma queues_fork pid : within keeps_queues (fork pid).
Proof. unfold fork. within. Qed.
Lemma queues_on_sendfd r : within keeps_queues (on_sendfd r).
Proof. unfold on_sendfd. within. Qed.
Lemma queues_new_thread pid : within keeps_queues (new_thread pid).
Proof. unfold new_thread. within. Qed.
Lemma queues_reap pid : within keeps_queues (reap pid).
Proof. unfold reap. within. Qed.
Lemma queues_set_pgid_of pid q g : within keeps_queues (set_pgid_of pid q g).
Proof. unfold set_pgid_of. within. Qed.
#[local] Hint Resolve queues_fork queues_on_sendfd queues_new_thread queues_reap queues_set_pgid_of : within.
Lemma queues_on_open p f c : within keeps_queues (on_open p f c).
Proof. unfold on_open. within. Qed.
Lemma queues_on_dup fd l : within keeps_queues (on_dup fd l).
Proof. unfold on_dup, upgrade. within. Qed.
Lemma queues_on_setsid pid : within keeps_queues (on_setsid pid).
Proof. unfold on_setsid. within. Qed.
Lemma queues_on_setpgid c t g : within keeps_queues (on_setpgid c t g).
Proof. unfold on_setpgid. within. Qed.
Lemma queues_on_setresugid pid sl : within keeps_queues (on_setresugid pid sl).
Proof. unfold on_setresugid. within. Qed.
Lemma queues_on_setrens pid a b : within keeps_queues (on_setrens pid a b).
Proof.
  intros w. unfold on_setrens. destruct (processes w !! pid) as [p |] eqn:Hp.
  2: { unfold get_proc, mbind, M_bind. cbn. rewrite Hp. exact id. }
  rewrite (bind_run _ _ _ _ _ (get_proc_run EBADFD _ _ _ Hp)).
  destruct (may_set_ns a _ _ _ _) as [sa |]; [cbn [ok_or]; rewrite ret_bind | exact id].
  destruct (may_set_ns b _ _ _ _) as [sb |]; [cbn [ok_or]; rewrite ret_bind | exact id].
  apply (within_bind_at keeps_queues); [| intros _; within].
  unfold upd_proc. eapply (keeps_queues_alter pid); [reflexivity |].
  rewrite Hp. intros q [= <-]. by destruct sa, sb.
Qed.
Lemma queues_on_close id : within keeps_queues (on_close id).
Proof. unfold on_close. within. Qed.
Lemma queues_on_waitpid pid tg fl v : within keeps_queues (on_waitpid pid tg fl v).
Proof. unfold on_waitpid, drop_status, keep_waiting, grim_reaper. within. Qed.
Lemma queues_notify_exit pid q g sg st : within keeps_queues (notify_exit pid q g sg st).
Proof. unfold notify_exit, orphan_children, reparent. within. Qed.
Lemma queues_end_threads tag ts : within keeps_queues (end_threads tag ts).
Proof. induction ts as [| t ts IH]; cbn [end_threads]; within. Qed.
Lemma queues_drop_thread fd t pid : within keeps_queues (drop_thread fd t pid).
Proof. unfold drop_thread. within. Qed.
#[local] Hint Resolve queues_on_open queues_on_dup queues_on_setsid queues_on_setpgid queues_on_setresugid
  queues_on_setrens queues_on_close queues_on_waitpid queues_notify_exit queues_end_threads
  queues_drop_thread : within.
Lemma queues_work_on v : within keeps_queues (work_on v).
Proof. unfold work_on, work_on_exit, work_on_wait, answer_or_drop, put_status. within. Qed.
#[local] Hint Resolve queues_work_on : within.
Lemma queues_on_exit_start pid st v tag : within keeps_queues (on_exit_start pid st v tag).
Proof. unfold on_exit_start, fail_tag. within. Qed.
#[local] Hint Resolve queues_on_exit_start : within.
Lemma queues_on_call v op : within keeps_queues (on_call v op).
Proof.
  unfold on_call, proc_call_on, thread_call_on, call_wait, call_kill, call_setpgid, respond0, respond,
    ready_err, ready_ok. within.
Qed.
#[local] Hint Resolve queues_on_call : within.
Lemma queues_handle_scheme req : within keeps_queues (handle_scheme req).
Proof.
  unfold handle_scheme, handle_op, cancel, open_like, respond, ready_ok, ready_err. within.
Qed.
Lemma queues_thread_event fd : within keeps_queues (thread_event fd).
Proof. unfold thread_event, thread_died. within. Qed.
Lemma queues_work_batch ids : within keeps_queues (work_batch ids).
Proof. induction ids as [| v ids IH]; cbn [work_batch]; within. Qed.
#[local] Hint Resolve queues_work_batch : within.
Lemma queues_drain fuel : within keeps_queues (drain_awoken fuel).
Proof. induction fuel as [| n IH]; cbn [drain_awoken]; within. Qed.

Lemma reachable_bounded w : reachable w -> bounded w.
Proof.
  intros Hr. enough (keeps_queues World_new w) as H by (apply H, map_Forall_empty).
  induction Hr as [w | w w1 w' H _ IH]; [reflexivity |]. transitivity w1; [| done]. clear w' IH.
  destruct H; [apply queues_handle_scheme | apply queues_thread_event | apply queues_drain | exact id].
Qed.

(** C39: the memory that queued signals can take is bounded.  In every
    reachable state a process has at most 32 queues of realtime signals, and
    none of them holds more than 33. *)
Theorem rtq_bounded w pid p :
  reachable w -> processes w !! pid = Some p ->
  (length (rtqs p) <= 32)%nat /\ forall q, q ∈ rtqs p -> (length q <= 33)%nat.
Proof.
  intros Hr Hp. destruct (reachable_bounded w Hr pid p Hp) as [H1 H2].
  split; [done |]. by apply Forall_forall.
Qed.

(** ** Permission *)

Lemma send_sig_denied n caller pid sig killed mode soc w c t :
  processes w !! caller = Some c -> processes w !! pid = Some t -> 1 <= sig <= 64 ->
  euid c <> 0 -> euid c <> ruid t -> ruid c <> ruid t ->
  send_sig (S n) caller (TProc pid) sig killed mode soc w = (Ok (Err EPERM, killed), w).
Proof.
  intros Hc Ht Hs H1 H2 H3. cbn [send_sig]. rewrite (proj2 (Z.ltb_ge 64 sig)) by lia.
  assert (usize_sub sig 1 w = (Ok (sig - 1), w)) as Hsub.
  { pose proof usize_mod_ge. apply usize_sub_ok; lia. }
  rewrite (bind_run _ _ _ _ _ Hsub), ret_bind, gets_bind, Ht, Hc.
  assert (send_to caller (euid c) (ruid c) (TProc pid) pid sig ((sig - 1) / 32) ((sig - 1) mod 32)
    (sender_raw (as_u32 caller) (ruid c)) killed mode soc w = (Ok (LacksPermission, killed), w)) as Hd.
  { unfold send_to. rewrite gets_bind, Ht. cbn [unwrap]. rewrite ret_bind.
    by rewrite (proj2 (Z.eqb_neq _ _) H1), (proj2 (Z.eqb_neq _ _) H2), (proj2 (Z.eqb_neq _ _) H3). }
  by rewrite (bind_run _ _ _ _ _ Hd).
Qed.

(** C38: signals need permission.  A kill, or a queued signal, to a process
    from a caller that is not root and neither of whose user ids is the
    target's real user id is refused with EPERM and changes nothing. *)
Theorem kill_denied caller pid sig mode w c t :
  processes w !! caller = Some c -> processes w !! pid = Some t -> 1 <= sig <= 64 ->
  euid c <> 0 -> euid c <> ruid t -> ruid c <> ruid t ->
  on_kill caller (KT_SingleProc pid) sig mode w = (Err EPERM, w).
Proof.
  intros Hc Ht Hs H1 H2 H3. unfold on_kill, on_send_sig.
  by rewrite (bind_run _ _ _ _ _ (send_sig_denied _ _ _ _ _ _ _ _ _ _ Hc Ht Hs H1 H2 H3)).
Qed.
End steps.
