(* ===== verification/ProcWitness.v ===== *)
(** * The process manager: reference instances

    Concrete choices for the crates, the tree, the hash order and the kernel
    that the model of the process manager is generic over, and a small run of
    requests.  The witnesses of the theorems are built on them.

    The theorems about the process manager at concrete runs, and runs that
    show where it does not do what it means to. *)

From stdpp Require Import base gmap strings list fin_maps.
From Stdlib Require Import ZArith Lia.
From Stdlib Require Import Strings.Byte.
From S2P Require Import Prelude Memory Syscall SchemeApi ProcTypes Procmgr ProcSignal ProcExit ProcServer.
From S2P Require Import ProcFrame ProcEvolve ProcFacts ProcReplies ProcQueues.

Local Open Scope Z_scope.

(** ** The tree: one node *)

Lemma node_search_found {K} (f : K -> comparison) l i :
  node_search f l = inl i -> exists k, l !! i = Some k /\ f k = Eq.
Proof.
  revert i. induction l as [| k l IH]; intros i; cbn; [done |]. destruct (f k) eqn:E; [| done |].
  - intros [= <-]. by exists k.
  - destruct (node_search f l) as [j | j]; [| done]. intros [= <-]. by apply IH.
Qed.

Definition one_node : BTree := {|
  bt_search := @node_search;
  bt_search_found := @node_search_found;
  bt_search_mono := fun K f l _ => eq_refl;
  bt_search_leaf := fun K f l _ => eq_refl
|}.

(** ** The slab: a vector that only grows *)

Definition vec_get {T} (i : Z) (s : list (option T)) : option T :=
  if 0 <=? i then mjoin (s !! Z.to_nat i) else None.

Lemma vec_get_push {T} (x : T) s i s' j :
  (zlen s, s ++ [Some x]) = (i, s') ->
  vec_get i s = None /\ vec_get j s' = if decide (i = j) then Some x else vec_get j s.
Proof.
  intros [= <- <-]. unfold vec_get, zlen. split.
  - destruct (0 <=? _); [| done]. by rewrite Nat2Z.id, lookup_ge_None_2.
  - case_decide as Hj.
    + subst j. rewrite (proj2 (Z.leb_le _ _)) by lia. by rewrite Nat2Z.id, list_lookup_middle.
    + destruct (0 <=? j) eqn:E; [| done]. apply Z.leb_le in E.
      destruct (decide (Z.to_nat j < length s)%nat) as [Hlt | Hge].
      * by rewrite lookup_app_l.
      * rewrite (lookup_ge_None_2 s) by lia. rewrite lookup_ge_None_2; [done |].
        rewrite length_app. cbn. lia.
Qed.

Lemma vec_get_set {T} (x : option T) s i j y :
  vec_get i s = Some y ->
  vec_get j (<[Z.to_nat i := x]> s) = if decide (i = j) then x else vec_get j s.
Proof.
  unfold vec_get. destruct (0 <=? i) eqn:Ei; [| done]. apply Z.leb_le in Ei. intros Hi.
  assert (Z.to_nat i < length s)%nat as Hlt.
  { destruct (s !! Z.to_nat i) eqn:E; [| done]. by eapply lookup_lt_Some. }
  case_decide as Hj.
  - subst j. rewrite (proj2 (Z.leb_le _ _)) by lia. by rewrite list_lookup_insert_eq.
  - destruct (0 <=? j) eqn:E; [| done]. apply Z.leb_le in E. rewrite list_lookup_insert_ne by lia. done.
Qed.

Definition vec_remove {T} (i : Z) (s : list (option T)) : list (option T) :=
  match vec_get i s with Some _ => <[Z.to_nat i := None]> s | None => s end.

Lemma vec_get_remove {T} (s : list (option T)) i j :
  vec_get j (vec_remove i s) = if decide (i = j) then None else vec_get j s.
Proof.
  unfold vec_remove. destruct (vec_get i s) eqn:E.
  - by apply (vec_get_set None _ _ _ _ E).
  - case_decide; [by subst | done].
Qed.

Definition vec_slab : Slab := {|
  slab := fun T => list (option T);
  slab_new := fun T => [];
  slab_get := fun T => vec_get;
  slab_insert := fun T x s => (zlen s, s ++ [Some x]);
  slab_set := fun T i x s => <[Z.to_nat i := Some x]> s;
  slab_remove := fun T => vec_remove;
  slab_get_new := fun T i => ltac:(by unfold vec_get; destruct (0 <=? i));
  slab_get_insert := fun T => vec_get_push;
  slab_get_set := fun T x s i j y H => vec_get_set (Some x) s i j y H;
  slab_get_remove := fun T => vec_get_remove
|}.

Definition elements_order : HashOrder :=
  {| hash_order := elements; hash_order_perm := fun X => reflexivity (elements X) |}.

(** ** Constants *)

Definition demo_proc_abi : ProcAbi := {|
  thread_call n := if n =? 0 then Some TC_SyncSigTctl else if n =? 1 then Some TC_SignalThread else None;
  proc_call n := nth_error
    [PC_Waitpid; PC_Setrens; PC_Exit; PC_Waitpgid; PC_SetResugid; PC_Setpgid; PC_Getsid; PC_Setsid;
     PC_Kill; PC_Sigq; PC_SyncSigPctl; PC_Sigdeq; PC_Getppid; PC_Rename; PC_DisableSetpgid;
     PC_GetProcCredentials] (Z.to_nat n);
  kill_target n := if n =? 0 then KT_ThisGroup else if n =? 2 ^ 64 - 1 then KT_All else KT_SingleProc n;
  wait_flags_from_bits n := if n <? 8 then Some n else None;
  WNOHANG := 1; WUNTRACED := 2; WCONTINUED := 4;
  SIGHUP := 1; SIGKILL := 9; SIGCHLD := 17; SIGCONT := 18; SIGSTOP := 19; SIGTSTP := 20;
  SIGTTIN := 21; SIGTTOU := 22;
  sig_bit n := Z.shiftl 1 (n - 1);
  CV_Stop := 0; CV_Unstop := 1; CV_Interrupt := 2; CV_ForceKill := 3;
  CS_Dead := 3; CS_ForceKilled := 4; CS_UnhandledExcp := 6;
  Actions := unit;
  signal_will_ign _ _ _ := false;
  signal_will_stop _ _ := true;
  sender_raw pid ruid := pid + Z.shiftl ruid 32;
  size_of_RtSigInfo := 24;
  size_of_ProcMeta := 44; align_of_ProcMeta := 4;
  proc_meta_bytes m := concat (u32_to_ne_bytes <$>
    [pm_pid m; pm_pgid m; pm_ppid m; pm_ruid m; pm_euid m; pm_suid m; pm_rgid m; pm_egid m; pm_sgid m;
     pm_ens m; pm_rns m]);
  stat_assign _ _ l := l
|}.

Definition demo_scheme_abi : SchemeAbi := {|
  try_from_raw n := nth_error
    [OC_other 0; OC_other 1; OC_other 2; OC_Dup; OC_Read; OC_Call; OC_Sendfd; OC_Cancel; OC_CloseMsg]
    (Z.to_nat n);
  RespondRegular := 0; RespondWithFd := 1; RespondWithMultipleFds := 4; SendFevent := 3;
  mux r := match r with Ok n => n | _ => -1 end;
  new_fd_bits f := match f with fd_empty => 0 | fd_POSITIONED => 1 end;
  size_of_Stat := 120; size_of_StatVfs := 32; size_of_TimeSpec := 16;
  stat_bytes _ := []; statvfs_bytes _ := []; timespecs_of _ := [];
  DirentBuf := list u8;
  dirent_new l _ := Some l;
  dirent_finalize d := (zlen d, d)
|}.

(** A kernel that grants every call: new descriptors count up with the calls,
    contexts report that they were killed. *)
Definition demo_kernel : Kernel (H := demo_proc_abi) := {|
  ask log c :=
    inl (match c with
         | KObtainFd _ | KDup _ _ => 100 + zlen log
         | KReadStatus _ => 4
         | KFmap _ _ => 65536 * (1 + zlen log)
         | _ => 0
         end, 0);
  auth_fd := 7;
  pctl_init _ := Build_SigProcControl demo_proc_abi 0 ∅ tt;
  tctl_init _ := {| word0 := 0; word1 := 0; t_sender_infos := ∅ |}
|}.

#[export] Existing Instance x86_64_release | 10.
#[export] Existing Instance redox_syscall | 10.
#[export] Existing Instance demo_scheme_abi | 10.
#[export] Existing Instance demo_proc_abi | 10.
#[export] Existing Instance vec_slab | 10.
#[export] Existing Instance one_node | 10.
#[export] Existing Instance elements_order | 10.
#[export] Existing Instance demo_kernel | 10.

(** ** Requests *)

Definition sqe (op tag a b c d e f : Z) : Request :=
  {| opcode := op; sqe_tag := tag; sqe_caller := 0;
     arg0 := a; arg1 := b; arg2 := c; arg3 := d; arg4 := e; arg5 := f |}.

(** Strings and payloads are at the addresses 0x1000 and 0x2000. *)
Definition with_bytes (a : Z) (l : list u8) (w : World) : World := set_mem (store a l (mem w)) w.
Definition req_open (tag : Z) (path : string) : Request := sqe 0 tag 0x1000 (zlen (as_bytes path)) 0 0 0 0.
Definition req_dup (tag fd : Z) (buf : string) : Request := sqe 3 tag fd 0x1000 (zlen (as_bytes buf)) 0 0 0.
Definition req_call (tag fd len : Z) (m0 m1 m2 : Z) : Request := sqe 5 tag fd 0x2000 len m0 m1 m2.
Definition req_sendfd (tag id : Z) : Request := sqe 6 tag id 0 0 0 0 0.
Definition req_cancel (tag : Z) : Request := sqe 7 tag 0 0 0 0 0 0.

Definition after (req : Request) (w : World) : World := (handle_scheme req w).2.
Definition after_open (tag : Z) (path : string) (w : World) : World :=
  after (req_open tag path) (with_bytes 0x1000 (as_bytes path) w).
Definition after_dup (tag fd : Z) (buf : string) (w : World) : World :=
  after (req_dup tag fd buf) (with_bytes 0x1000 (as_bytes buf) w).
Definition after_call (tag fd : Z) (payload : list u8) (m0 m1 m2 : Z) (w : World) : World :=
  after (req_call tag fd (zlen payload) m0 m1 m2) (with_bytes 0x2000 payload w).

(** Init, its child 2, and 2's child 3, on the handles 0, 1 and 2. *)
Definition demo_init : World := after (req_sendfd 2 0) (after_open 1 "init" World_new).
Definition demo_family : World := after_dup 4 1 "fork" (after_dup 3 0 "fork" demo_init).

(** ** Steps of a run *)

Lemma step_after req w w0 :
  rtc pstep w0 w -> next_id w + 1 < usize_mod -> rtc pstep w0 (after req w).
Proof. intros Hr Hn. eapply rtc_r; [exact Hr |]. by apply ps_request. Qed.

Lemma step_bytes a l w w0 : rtc pstep w0 w -> rtc pstep w0 (with_bytes a l w).
Proof. intros Hr. eapply rtc_r; [exact Hr |]. exact (ps_user w (pctls w) (tctls w) (store a l (mem w))). Qed.

Lemma step_event fd w w0 : rtc pstep w0 w -> rtc pstep w0 (thread_event fd w).2.
Proof. intros Hr. eapply rtc_r; [exact Hr |]. apply ps_event. Qed.

Lemma step_drain n w w0 : rtc pstep w0 w -> rtc pstep w0 (drain_awoken n w).2.
Proof. intros Hr. eapply rtc_r; [exact Hr |]. apply ps_drain. Qed.

Ltac run_steps :=
  unfold after_open, after_dup, after_call;
  repeat match goal with
  | |- rtc _ ?w ?w => apply rtc_refl
  | |- rtc _ _ (with_bytes _ _ _) => apply step_bytes
  | |- rtc _ _ (thread_event _ _).2 => apply step_event
  | |- rtc _ _ (drain_awoken _ _).2 => apply step_drain
  | |- rtc _ _ (after _ _) => apply step_after; [| vm_compute; reflexivity]
  end.

(** Payloads of 32-bit numbers. *)
Definition words (l : list Z) : list u8 := concat (u32_to_ne_bytes <$> l).

Lemma demo_family_reachable : reachable demo_family.
Proof. unfold reachable, demo_family, demo_init. run_steps. Qed.

Lemma procmgr_invariant_witness :
  exists p, processes demo_family !! 3 = Some p /\ p_pid p = 3 /\ ppid p = 2 /\
  exists g, groups demo_family !! pgid p = Some g /\ g <> [] /\ 3 ∈ g.
Proof.
  destruct (procmgr_invariant demo_family demo_family_reachable) as [Hp Hg].
  eexists. split; [vm_compute; reflexivity |]. split; [reflexivity |]. split; [reflexivity |].
  edestruct (Hp 3) as (_ & _ & (g & Hgr & Hin) & _); [vm_compute; reflexivity |].
  exists g. split; [exact Hgr |]. split; [| exact Hin]. apply (Hg _ _ Hgr).
Defined.

(** Process 3 gives up root and then asks for it again. *)
Definition demo_user : World := after_call 5 2 (words [1000; 1000; 1000; 1000; 1000; 1000]) 4 0 0 demo_family.
Definition demo_asks : World := after_call 6 2 (words [0; 0; 0; 0; 0; 0]) 4 0 0 demo_user.

Lemma demo_user_reachable : reachable demo_user.
Proof. unfold reachable, demo_user. run_steps. exact demo_family_reachable. Qed.

Lemma demo_user_asks : rtc pstep demo_user demo_asks.
Proof. unfold demo_asks. run_steps. Qed.

Lemma no_privilege_escalation_witness :
  exists p p', processes demo_user !! 3 = Some p /\ euid p = 1000 /\ processes demo_asks !! 3 = Some p' /\
  [ruid p'; euid p'; suid p'] ⊆ [ruid p; euid p; suid p].
Proof.
  eexists. eexists. split; [vm_compute; reflexivity |]. split; [reflexivity |]. split; [vm_compute; reflexivity |].
  eapply (no_privilege_escalation demo_user demo_asks 3);
    [exact demo_user_reachable | exact demo_user_asks | vm_compute; reflexivity | vm_compute; reflexivity |].
  by apply (bool_decide_unpack _).
Defined.

(** Process 2 enters capability mode and then asks for a namespace. *)
Definition demo_null : World := after_call 5 1 [] 1 0 0 demo_family.
Definition demo_renames : World := after_call 6 1 [] 1 1 1 demo_null.

Lemma demo_null_reachable : reachable demo_null.
Proof. unfold reachable, demo_null. run_steps. exact demo_family_reachable. Qed.

Lemma demo_null_renames : rtc pstep demo_null demo_renames.
Proof. unfold demo_renames. run_steps. Qed.

Lemma capability_mode_final_witness :
  exists p p', processes demo_null !! 2 = Some p /\ rns p = 0 /\ processes demo_renames !! 2 = Some p' /\ rns p' = 0.
Proof.
  eexists. eexists. split; [vm_compute; reflexivity |]. split; [reflexivity |]. split; [vm_compute; reflexivity |].
  edestruct (capability_mode_final demo_null demo_renames 2) as [H _];
    [exact demo_null_reachable | exact demo_null_renames | vm_compute; reflexivity | vm_compute; reflexivity |].
  by apply H.
Defined.

(** Process 2 waits for 3, which exits with the status 7. *)
Definition demo_waits : World := after_call 11 1 (words [0]) 0 3 0 demo_family.
Definition demo_exits : World := after_call 12 2 [] 2 7 0 demo_waits.
Definition demo_ended : World := (thread_event 108 demo_exits).2.
Definition demo_done : World := (drain_awoken 4 demo_ended).2.

Lemma demo_exits_reachable : reachable demo_exits.
Proof. unfold reachable, demo_exits, demo_waits. run_steps. exact demo_family_reachable. Qed.

Lemma demo_exits_ended : rtc pstep demo_exits demo_ended.
Proof. unfold demo_ended. run_steps. Qed.

Lemma exit_is_final_witness :
  exists p p', processes demo_exits !! 3 = Some p /\ p_status p = Exiting None 7 /\
  processes demo_ended !! 3 = Some p' /\
  (p_status p' = Exiting None 7 \/ p_status p' = Exited None 7).
Proof.
  eexists. eexists. split; [vm_compute; reflexivity |]. split; [reflexivity |]. split; [vm_compute; reflexivity |].
  edestruct (exit_is_final demo_exits demo_ended 3) as [H _];
    [exact demo_exits_reachable | exact demo_exits_ended | vm_compute; reflexivity | vm_compute; reflexivity |].
  by apply H.
Defined.

Lemma exit_answers_waitpid_witness :
  exists w1 w2 r, work_on (KernelId 12) demo_ended = (Ok r, w1) /\ KernelId 11 ∈ awoken w1 /\
  work_on (KernelId 11) w1 = (Ok (Some (Response_new (Ok 3) 11)), w2) /\ processes w2 !! 3 = None /\
  load 0x2000 4 (mem w2) = Some (u32_to_ne_bytes (7 * 256)).
Proof.
  destruct (work_on (KernelId 12) demo_ended) as [o w1] eqn:E.
  assert (exists r, o = Ok r) as [r ->].
  { apply (f_equal fst) in E. vm_compute in E. subst o. by eexists. }
  pose proof (fun op p pq => exit_answers_waitpid 3 2 (KernelId 12) (KernelId 11) (Some 12) 0 op p None 7 pq
    demo_ended r w1) as H.
  edestruct H as (Ha & w2 & H2 & Hn & Hm);
    [vm_compute; reflexivity | reflexivity | reflexivity | reflexivity | done | vm_compute; reflexivity
    | by apply (bool_decide_unpack _) | vm_compute; reflexivity | vm_compute; reflexivity | exact E |].
  exists w1, w2, r. split; [reflexivity |]. split; [exact Ha |]. split; [exact H2 |]. split; [exact Hn |].
  apply Hm; vm_compute; [discriminate | reflexivity].
Defined.

(** The requests of a run and their replies. *)
Lemma serve_after req o w w0 ins outs ins' outs' :
  served w0 ins outs w -> (handle_scheme req w).1 = Ok o ->
  kind req = RK_Call req \/ kind req = RK_SendFd req ->
  bool_decide (sqe_tag req ∉ waiting (states w)) = true ->
  ins' = ins ++ [sqe_tag req] -> outs' = outs ++ (cqe_tag <$> option_list o) ->
  served w0 ins' outs' (after req w).
Proof.
  intros Hs Hh Hk Ht%bool_decide_eq_true -> ->. eapply sd_snoc; [exact Hs |].
  assert (handle_scheme req w = (Ok o, after req w)) as H
    by (unfold after; rewrite <- Hh; by destruct (handle_scheme req w)).
  destruct Hk; [by eapply sv_call | by eapply sv_sendfd].
Qed.

Lemma serve_bytes a l w w0 ins outs :
  served w0 ins outs w -> served w0 ins outs (with_bytes a l w).
Proof.
  intros Hs. rewrite <- (app_nil_r ins), <- (app_nil_r outs). eapply sd_snoc; [exact Hs |].
  exact (sv_user w (pctls w) (tctls w) (store a l (mem w))).
Qed.

Ltac serve ins outs := eapply (serve_after _ _ _ _ ins outs);
  [ | vm_compute; reflexivity | first [left; reflexivity | right; reflexivity]
  | vm_compute; reflexivity | reflexivity | vm_compute; reflexivity].

Lemma demo_waits_served : served World_new [1; 2; 3; 4; 11] [1; 2; 3; 4] demo_waits.
Proof.
  unfold demo_waits, demo_family, demo_init, after_call, after_dup, after_open.
  serve [1; 2; 3; 4] [1; 2; 3; 4]. apply serve_bytes. serve [1; 2; 3] [1; 2; 3]. apply serve_bytes.
  serve [1; 2] [1; 2]. apply serve_bytes. serve [1] [1]. serve (@nil Z) (@nil Z). apply serve_bytes. apply sd_nil.
Qed.


Lemma rtq_bounded_witness :
  exists p, processes demo_family !! 3 = Some p /\ (length (rtqs p) <= 32)%nat.
Proof.
  eexists. split; [vm_compute; reflexivity |].
  eapply (rtq_bounded demo_family 3); [exact demo_family_reachable | vm_compute; reflexivity].
Defined.

(** Process 3, which is user 1000, sends SIGKILL to init. *)
Lemma kill_denied_witness : on_kill 3 (KT_SingleProc 1) 9 Idempotent demo_user = (Err EPERM, demo_user).
Proof.
  eapply (kill_denied 3 1 9 Idempotent demo_user); try (vm_compute; reflexivity); vm_compute; done.
Defined.

(** ** Defects *)

(** Process 2 waits for any child without asking for stops; its child 3 is
    stopped, and then exits. *)
Definition lost_waits : World := after_call 11 1 (words [0]) 0 0 0 (after_call 10 2 [] 10 0 0 demo_family).
Definition lost_stopped : World := (drain_awoken 4 (after_call 13 0 [] 8 3 19 lost_waits)).2.
Definition lost_exited : World :=
  (drain_awoken 4 (thread_event 108 (after_call 14 2 [] 2 7 0 lost_stopped)).2).2.

(** A waitpid can be lost.  A reachable state in which a request waits
    for any child of process 2, the child 3 has exited and its status is there
    to be collected, but the request is neither in the queue of work nor in
    the list of any process that would put it there: a stop that the waiter
    had not asked for was reported in between, and the request was not listed
    again after it. *)
Theorem waitpid_lost :
  reachable lost_exited /\
  (exists op, states lost_exited !! KernelId 11 = Some (AwaitingStatusChange 2 AnyChild 0 op)) /\
  (exists p, processes lost_exited !! 2 = Some p /\
     (snd <$> waitpid p) = [(3, Terminated None 7)]) /\
  awoken lost_exited = [] /\
  map_Forall (fun _ p => KernelId 11 ∉ waitpid_waiting p) (processes lost_exited).
Proof.
  split; [unfold reachable, lost_exited, lost_stopped, lost_waits; run_steps; exact demo_family_reachable |].
  split; [eexists; vm_compute; reflexivity |].
  split; [eexists; split; [vm_compute; reflexivity | reflexivity] |].
  split; [vm_compute; reflexivity |]. apply (bool_decide_unpack _). vm_compute. exact I.
Qed.

(** The child 3 of process 2 exits, then process 2 does, and init collects it. *)
Definition orphan_exited : World := (drain_awoken 4 (thread_event 108 (after_call 14 2 [] 2 7 0 demo_family)).2).2.
Definition orphan_adopted : World :=
  (drain_awoken 4 (thread_event 103 (after_call 15 1 [] 2 5 0 orphan_exited)).2).2.
Definition orphan_collected : World := after_call 16 0 (words [0]) 0 0 0 orphan_adopted.

(** Init cannot collect a zombie it inherits.  A reachable state in
    which process 3 has exited and is a child of init, and yet a waitpid of
    init for any child finds nothing and waits: when a process ends, what is
    given to init is the statuses its children had collected, not the ones it
    had itself. *)
Theorem orphan_zombie_lost :
  reachable orphan_collected /\
  (exists p, processes orphan_collected !! 3 = Some p /\ p_status p = Exited None 7 /\ ppid p = INIT_PID) /\
  (on_waitpid INIT_PID AnyChild 0 (KernelId 17) orphan_collected).1 = Ok None.
Proof.
  split; [unfold reachable, orphan_collected, orphan_adopted, orphan_exited; run_steps; exact demo_family_reachable |].
  split; [eexists; split; [vm_compute; reflexivity | by split] | vm_compute; reflexivity].
Qed.

(** The order of the map of statuses: a search by group goes by the group of
    each key it meets, while the map is ordered by pid. *)
Definition two_statuses : waitpid_map :=
  [({| k_pid := Some 2; k_pgid := Some 9 |}, (2, Terminated None 0));
   ({| k_pid := Some 3; k_pgid := Some 3 |}, (3, Terminated None 0))].

(** A wait for a process group can miss a member.  In a map of statuses
    that was built by the operations of the map, the entry of the group 3 is
    not found, whatever the layout of the tree. *)
Theorem waitpgid_misses_status {BT : BTree} :
  bt_insert key_cmp {| k_pid := Some 3; k_pgid := Some 3 |} (3, Terminated None 0)
    (bt_insert key_cmp {| k_pid := Some 2; k_pgid := Some 9 |} (2, Terminated None 0) []) = two_statuses /\
  bt_get_key_value key_cmp {| k_pid := None; k_pgid := Some 3 |} two_statuses = None.
Proof.
  assert (forall f (l : list WaitpidKey), (length l <= 10)%nat -> bt_search f l = node_search f l) as Hs
    by (intros; by apply bt_search_leaf).
  unfold bt_get_key_value, bt_insert. split.
  - rewrite (Hs _ []) by (cbn; lia). cbn. rewrite Hs by (cbn; lia). reflexivity.
  - rewrite Hs by (cbn; lia). reflexivity.
Qed.

(** A name of 33 bytes whose last two are one character. *)
Definition split_name : list u8 := replicate 31 x61 ++ [xc3; xa9].

(** Renaming a process panics when the limit of 32 bytes falls inside a
    character. *)
Lemma rename_panics : (handle_scheme (req_call 5 2 33 13 0 0) (with_bytes 0x2000 split_name demo_family)).1 = Panic.
Proof. vm_compute. reflexivity. Qed.
